(* ===== verification/_CoqProject ===== *)
-Q . S2P
Prelude.v
Bytes.v
H2Types.v
FlowControl.v
StreamState.v
Huffman.v
HuffmanCorrect.v
HttpTypes.v
Frames.v
FramesCorrect.v
HpackPrim.v
HpackDecoder.v
HpackDecoderCorrect.v
HpackWire.v
HpackTable.v
RobinHood.v
HpackTableArray.v
HpackTableCorrect.v
HpackTableIndex.v
HpackEncoder.v
HpackSync.v
HpackRoundtrip.v
WsMask.v
WsFrame.v
WsFrameCorrect.v
Codec.v
CodecCorrect.v
LengthDelimitedCorrect.v
LinesCorrect.v
H1Body.v
H1BodyCorrect.v
H1Head.v
H1HeaderMap.v
H1Message.v
H1Codec.v
H1CodecCorrect.v
H1Encode.v
H1EncodeCorrect.v
Slab.v
TimerWheel.v
TimerWheelCorrect.v
TimerRefine.v
DelayQueue.v
DelayQueueStack.v
DelayQueueCorrect.v
DelayQueueRefine.v
HeadersFrame.v
FramedRead.v
HeadersFrameCorrect.v
FramedReadCorrect.v
FramedWrite.v
HeadersEncodeCorrect.v
HeadersTransport.v
FrameTransport.v
FrameSession.v
H2Codec.v
FrameStream.v
H2Buffer.v
H2Store.v
H2World.v
H2Send.v
H2Recv.v
H2Streams.v
H2Poll.v
H2Control.v
H2Pings.v
H2Connection.v
H2Account.v
H2AccountSend.v
H2Peer.v
H2AccountPrioritize.v
H2Input.v
H2AccountRecv.v
H2AccountOps.v
H2AccountPoll.v
H2Conservation.v
H2ConnectionCorrect.v
H2Reach.v
H2Examples.v
