(* ===== verification/Prelude.v ===== *)
(** * Kayrx: a verification development (root file)

    Kayrx is a Rust library for asynchronous servers: an HTTP/2 and an HTTP/1
    implementation, WebSockets, timers, and layers of services, routing and a web
    framework above them.  This development models its protocol machinery and its
    timers, the parts whose behaviour is determined by data: what bytes are written
    and read, which state a stream is in, which timer fires when.  All paths below
    are under [src/src/].

    ** The parts and where they are modelled

    Shared ground.
    - [Prelude] (this file): [outcome] (a Rust result or a panic), the state and
      error monad [SE], generic lemmas and tactics.
    - [Bytes]: byte strings, slices with their panics, machine-width casts, the
      interfaces [BufMut], [BytesMut] and [Buf] of the [bytes] crate, bit strings.
    - [Slab]: the interface of the [slab] crate.

    Byte streams, [codec].
    - [Codec]: [length_delimited.rs], [lines_codec.rs], [bytes_codec.rs],
      [framed_read.rs], [framed_write.rs] and [framed2.rs] over scripts of socket
      answers; [CodecCorrect], [LengthDelimitedCorrect] and [LinesCorrect] their
      theorems.

    HTTP/2 on the wire, [http/h2].
    - [H2Types]: identifiers, reasons and errors ([frame/reason.rs],
      [frame/stream_id.rs], [proto/peer.rs], [codec/error.rs], [proto/error.rs]).
    - [Huffman]: [hpack/huffman] with its tables; [HuffmanCorrect] its theorems.
    - [HttpTypes]: [hpack/header.rs] over the interface of the [http] crate.
    - [HpackPrim]: integers and strings of [hpack/encoder.rs] and [hpack/decoder.rs].
    - [HpackDecoder]: [hpack/decoder.rs]; [HpackDecoderCorrect] its theorems.
    - [HpackTable]: [hpack/table.rs], the Robin Hood table of the encoder;
      [RobinHood], [HpackTableArray], [HpackTableCorrect] and [HpackTableIndex] its
      theorems.
    - [HpackEncoder]: [hpack/encoder.rs]; [HpackWire], [HpackSync] and
      [HpackRoundtrip] relate encoder and decoder.
    - [Frames], [FramesCorrect]: the frames of [frame/] without header blocks.
    - [HeadersFrame], [HeadersFrameCorrect], [HeadersEncodeCorrect]:
      [frame/headers.rs], read and written.
    - [FramedRead], [FramedReadCorrect]: [codec/framed_read.rs].
    - [FramedWrite]: [codec/framed_write.rs]; [H2Codec]: [codec/mod.rs].
      [HeadersTransport], [FrameTransport], [FrameSession] and [FrameStream] follow
      the frames from the writer of one end to the reader of the other.

    HTTP/2 streams, [http/h2/proto/streams].
    - [FlowControl]: [flow_control.rs], windows of 32 bits.
    - [StreamState]: [state.rs], the stream state machine.
    - [H2Buffer]: [buffer.rs], the deques of all streams in one slab.
    - [H2Store]: [stream.rs], [store.rs] and [counts.rs].
    - [H2World]: the state that the streams of a connection share, and the messages
      of [proto/peer.rs], [client.rs] and [server.rs].
    - [H2Send]: [prioritize.rs] and [send.rs]; [H2Recv]: [recv.rs]; [H2Streams]:
      [streams.rs] with the handles of the user; [H2Poll]: what these files write to
      the codec.
    - [H2Account] states what the streams and the connection owe each other;
      [H2AccountSend], [H2AccountPrioritize], [H2AccountRecv], [H2AccountOps] and
      [H2AccountPoll] show that every operation keeps it, with [H2Peer] (code
      without errors, the role of a connection, what leaves its receive side alone).
      [H2Conservation] has histories of operations and the theorems on them.

    HTTP/2 connections, [http/h2/proto].
    - [H2Control]: [settings.rs], [go_away.rs] and [ping_pong.rs]; the functions on
      the user's pings are programs of atomic accesses ([Prog]), which [H2Pings]
      interleaves.
    - [H2Connection]: [connection.rs]; [H2Input] (what the reader takes from a
      socket), [H2ConnectionCorrect] and [H2Reach] its theorems.
    - [H2Examples]: concrete runs of streams and of connections.

    WebSockets, [websocket].
    - [WsMask]: [mask.rs]; [WsFrame]: [proto.rs], [frame.rs] and [codec.rs];
      [WsFrameCorrect] their theorems.

    HTTP/1, [http/h1] and [http].
    - [H1Body], [H1BodyCorrect]: transfer encodings of [h1/encoder.rs] and
      [h1/decoder.rs].
    - [H1Head]: status lines, lengths and names ([helpers.rs]).
    - [H1HeaderMap]: [header/map.rs].
    - [H1Message]: [message.rs], heads with their flags and pool.
    - [H1Codec], [H1CodecCorrect]: [h1/decoder.rs], the decoders of [h1/codec.rs] and
      [h1/client.rs].
    - [H1Encode], [H1EncodeCorrect]: [h1/encoder.rs], the encoders of [h1/codec.rs]
      and [h1/client.rs].

    Timers, [timer].
    - [TimerWheel]: [wheel/]; [TimerWheelCorrect] and [TimerRefine] its theorems,
      against the interface of the stacks.
    - [DelayQueue]: [delay_queue.rs]; [DelayQueueStack] shows that its stacks keep the
      interface, [DelayQueueCorrect] and [DelayQueueRefine] treat the queue.

    ** How code becomes definitions

    A struct is a [Record] with the fields of the source, an enum an [Inductive].  A
    method that mutates is a computation in [SE] over the structs it can reach; its
    [Result] and its panics (an index out of range, [unwrap], [assert!], [panic!]) are
    the [outcome].  [debug_assert!] is not modelled: the code is that of a release
    build.  Integers are in [Z] and wrap where the source can wrap at its width;
    [usize] has 64 bits.  Sums of the lengths of buffers in memory are not wrapped.
    Loops that are not structural take fuel, and running out of fuel is a panic, so
    that every theorem that a function returns also shows that the fuel is enough;
    the theorems name a sufficient bound or assert that one exists for all larger
    fuel.  Uninitialised memory, addresses, random numbers and the clock are
    arguments.  Raw pointer writes are checked against the memory they may use, and
    a write outside it is a panic.

    A socket is a script of answers: the pieces it delivers, with errors and the end
    of the stream anywhere, and how many bytes each write takes.  An empty script is
    a socket that is not ready.  The operations of the h2 streams run to their end
    one after the other, as the locks of the source make them; the streams, the
    buffers and the counts are one shared state, and a handle is the key of its
    stream.  A waker is a number, and waking it adds it to a log.  Loops over the
    queues and the store take as many rounds as there are streams ([streams_fuel]);
    [poll2] and [poll] take bounds on their rounds ([H2Reach.poll2_terminates] says
    which bound is enough for the former).  The user's pings, the one piece of
    lock-free code that is modelled, are programs of single accesses to the shared cell:
    the connection runs them alone ([run]), and [H2Pings.cstep] interleaves those of the
    two tasks in any order; atomic accesses are sequentially consistent.

    Code of other crates is an interface: a class with the operations and the
    documented behaviour that the proofs use, and a small instance that shows that
    the interface can be met and serves the witnesses ([HttpTypes], [BufMut],
    [BytesMut], [Buf], [H1Types], [Httparse], [H1Texts], [RawBuf], [NameHasher],
    [Slab], [IndexMap], [UriOps], [AtomicWaker]).  The [http] crate's header map
    takes a bounded number of names and panics beyond it; the interface
    [HeaderMapOps] promises room for 24576 of them.

    ** What is shown

    - HPACK: what the encoder writes the decoder reads, over any number of blocks,
      frames and table size changes; the hash-indexed table refines the list of
      RFC 7541; Huffman and integer coding are inverse to decoding; decoding ends on
      any input without a panic.
    - Frames: what one end buffers and flushes, over any socket, the other end reads,
      with header tables in step; flushing completes (both for frames without PRIORITY
      whose header fields each fit into a default-size frame); reading keeps its
      invariant and never panics on received bytes while the header list limit is at
      most 786432 bytes; control frames read back as written; a header block that is
      loaded whole is accepted exactly when it keeps four rules of RFC 7540 8.1.2, and
      what is kept of it is bounded.
    - Streams and windows: the state machine follows the diagram of RFC 7540, never
      reopens, and flow control computes the credit of the RFC or reports an error, as
      long as SETTINGS do not lower it below the range of an [i32].
    - Connections: over every sequence of received frames, calls of the user and
      writes, DATA stays within the credit that the peer has granted, capacity is
      never promised twice, the receive window is conserved and charged with exactly the
      data that is queued, and the counts are those of the streams, as long as handles
      are dropped, and a server refuses over-size requests, while every reservation
      of capacity is granted.  A whole client connection fed with arbitrary bytes moves
      its send window by exactly what each decoded frame grants.  The loop of [poll2]
      ends, four assertions on control frames hold, and a closing connection reads
      nothing and sends its GOAWAY.  The programs on the user's pings refine the steps of
      an automaton, in which pings are handled in order and at most once and no pong is
      missed.  A panic ends a history: the theorems are about what is observable before
      it.
    - Codecs: length-delimited frames and lines arrive as sent from pieces cut
      anywhere.
    - WebSockets: the words-at-a-time masking is the bytewise one for every
      alignment; messages read back as written; parsing is incremental.
    - HTTP/1: bodies read back from pieces cut anywhere; heads are written exactly
      and in bounds; the framing of a message is a stated function of its fields;
      pipelined requests in one buffer are kept apart; the header map is a multimap but
      for the order of the first two values of a name.
    - Timers: the wheel is a set of timers, with every due timer handed out once and
      in order; the delay queue is a set of entries built on it, while it is not between
      two polls that hand out due entries.
    - Where the code departs from what it means to do, a theorem shows the
      departure: a resumed literal name, a forgotten malformed field, swapped
      fragment kinds, a chunk size that wraps, a stream framed otherwise than
      announced, a timer past the span of the wheel, due entries of the delay queue
      that are held back or whose removal panics, lines and lengths that break the
      codecs, capacity given back that was not granted, promises and parents that
      are dropped too early, an empty DATA frame on a negative window, a ping that
      wakes nobody, and a GOAWAY that takes down the streams of its sender or makes
      a graceful shutdown panic.  Some of these are single runs ([Example]s), others
      hold of every input.

    ** Not modelled

    The code around these parts is plumbing that calls the operating system, wakers
    and other crates: the services and dispatchers of HTTP/1, HTTP/2 and WebSockets,
    the handshakes and builders of the h2 client and server, the HTTP client, sockets,
    TLS, the runtime, the lock-free timer driver, the web framework and the
    procedural macros.  Typed headers, routing and JSON parse through crates whose
    code is not part of the repository.  [update_max_size] of the HPACK encoder is
    modelled although nothing calls it. *)

From stdpp Require Export prelude list gmap.
From Stdlib Require Export ZArith Lia.

#[global] Open Scope Z_scope.

(** ** Outcomes

    A Rust function that can fail returns a [Result]; a function with an
    [assert!], an [unwrap] or an index expression can also panic.  [outcome]
    keeps the three apart; functions that can only panic are polymorphic in
    the error type. *)
Inductive outcome (E A : Type) : Type :=
  | Ok (a : A)
  | Err (e : E)
  | Panic.
Arguments Ok {E A} a.
Arguments Err {E A} e.
Arguments Panic {E A}.

#[export] Instance outcome_ret {E} : MRet (outcome E) := fun A a => Ok a.
#[export] Instance outcome_bind {E} : MBind (outcome E) :=
  fun A B f c =>
    match c with
    | Ok a => f a
    | Err e => Err e
    | Panic => Panic
    end.
#[export] Instance outcome_fmap {E} : FMap (outcome E) :=
  fun A B f c =>
    match c with
    | Ok a => Ok (f a)
    | Err e => Err e
    | Panic => Panic
    end.

(** The error type of code that returns no [Result] *)
Definition Never : Set := Empty_set.

(** [std::task::Poll] *)
Inductive Async (A : Type) := Ready (a : A) | Pending.
Arguments Ready {A} a.
Arguments Pending {A}.

(** [assert!(b)] *)
Definition assert_ {E} (b : bool) : outcome E () :=
  if b then Ok tt else Panic.

(** [Option::ok_or] *)
Definition ok_or {E A} (o : option A) (e : E) : outcome E A :=
  match o with Some a => Ok a | None => Err e end.

(** [Option::unwrap], [Option::expect] and a checked index expression *)
Definition unwrap {E A} (o : option A) : outcome E A :=
  match o with Some a => Ok a | None => Panic end.

(** [Result::map_err], the conversion that [?] applies to an error *)
Definition map_err {E E' A} (f : E -> E') (r : outcome E A) : outcome E' A :=
  match r with Ok a => Ok a | Err e => Err (f e) | Panic => Panic end.

#[export] Instance outcome_eq_dec {E A} `{EqDecision E, EqDecision A} :
  EqDecision (outcome E A).
Proof. solve_decision. Defined.

Lemma outcome_bind_Ok {E A B} (c : outcome E A) (f : A -> outcome E B) b :
  (c ≫= f) = Ok b <-> exists a, c = Ok a /\ f a = Ok b.
Proof. destruct c; simpl; naive_solver. Qed.

Lemma unwrap_Ok {E A} (o : option A) a :
  unwrap o = (Ok a : outcome E A) <-> o = Some a.
Proof. destruct o; simpl; naive_solver. Qed.

Lemma assert_Ok {E} b u : assert_ b = (Ok u : outcome E ()) <-> b = true.
Proof. destruct b, u; simpl; naive_solver. Qed.

(** ** State and failure

    [SE S E A]: code that mutates a state [S] and can fail or panic; the state
    reached before the failure is kept. *)
Definition SE (S E A : Type) : Type := S -> S * outcome E A.

#[export] Instance SE_ret {S E} : MRet (SE S E) := fun A a s => (s, Ok a).
#[export] Instance SE_bind {S E} : MBind (SE S E) :=
  fun A B f c s =>
    match c s with
    | (s, Ok a) => f a s
    | (s, Err e) => (s, Err e)
    | (s, Panic) => (s, Panic)
    end.

#[export] Instance SE_fmap {S E} : FMap (SE S E) :=
  fun A B f c s =>
    match c s with
    | (s, Ok a) => (s, Ok (f a))
    | (s, Err e) => (s, Err e)
    | (s, Panic) => (s, Panic)
    end.

Definition throw {S E A} (e : E) : SE S E A := fun s => (s, Err e).
Definition panic {S E A} : SE S E A := fun s => (s, Panic).
Definition get {S E} : SE S E S := fun s => (s, Ok s).
Definition gets {S E A} (f : S -> A) : SE S E A := fun s => (s, Ok (f s)).
Definition modify {S E} (f : S -> S) : SE S E () := fun s => (f s, Ok tt).
Definition lift {S E A} (c : outcome E A) : SE S E A := fun s => (s, c).
(** A computation on one component of the state. *)
Definition zoom {S T E A} (view : S -> T) (set : T -> S -> S) (c : SE T E A) : SE S E A :=
  fun s => let '(t, r) := c (view s) in (set t s, r).

Section SEBind.
Context {S E A B : Type}.
Implicit Types (k : A -> SE S E B) (s : S).

Lemma bind_mret k a s : ((mret a : SE S E A) ≫= k) s = k a s.
Proof. done. Qed.
Lemma bind_gets k (f : S -> A) s : ((gets f : SE S E A) ≫= k) s = k (f s) s.
Proof. done. Qed.
Lemma bind_lift_Ok k a s : ((lift (Ok a) : SE S E A) ≫= k) s = k a s.
Proof. done. Qed.
Lemma bind_modify (k' : () -> SE S E B) f s : (modify f ≫= k') s = k' tt (f s).
Proof. done. Qed.
Lemma bind_eq (c : SE S E A) k s s' a : c s = (s', Ok a) -> (c ≫= k) s = k a s'.
Proof. intros H. unfold mbind, SE_bind. by rewrite H. Qed.
Lemma bind_eq_Err (c : SE S E A) k s s' e : c s = (s', Err e) -> (c ≫= k) s = (s', Err e).
Proof. intros H. unfold mbind, SE_bind. by rewrite H. Qed.
End SEBind.

Lemma bind_assoc {S E A B C} (c : SE S E A) (k : A -> SE S E B) (k' : B -> SE S E C) s :
  ((c ≫= k) ≫= k') s = (c ≫= (fun a => k a ≫= k')) s.
Proof. unfold mbind, SE_bind. by destruct (c s) as [? []]. Qed.

(** [returns c s Q]: from [s] the code [c] returns normally, with a result and a
    state that satisfy [Q]; it neither fails nor panics. *)
Definition returns {S E A} (c : SE S E A) (s : S) (Q : A -> S -> Prop) : Prop :=
  match c s with (s', Ok a) => Q a s' | _ => False end.

Section Returns.
Context {S E A B : Type}.
Implicit Types (c : SE S E A) (s : S).

Lemma returns_bind c (k : A -> SE S E B) s (Q : B -> S -> Prop) :
  returns c s (fun a s' => returns (k a) s' Q) -> returns (c ≫= k) s Q.
Proof. unfold returns, mbind, SE_bind. by destruct (c s) as [s' [a|e|]]. Qed.

Lemma returns_fmap c (f : A -> B) s (Q : B -> S -> Prop) :
  returns c s (fun a s' => Q (f a) s') -> returns (f <$> c) s Q.
Proof. unfold returns, fmap, SE_fmap. by destruct (c s) as [s' [a|e|]]. Qed.

Lemma returns_mono c s (Q Q' : A -> S -> Prop) :
  (forall a s', Q a s' -> Q' a s') -> returns c s Q -> returns c s Q'.
Proof. unfold returns. destruct (c s) as [s' [a|e|]]; naive_solver. Qed.

Lemma returns_lift s (r : outcome E A) a (Q : A -> S -> Prop) :
  r = Ok a -> Q a s -> returns (lift r) s Q.
Proof. intros ->. done. Qed.

Lemma returns_Ok c s (Q : A -> S -> Prop) :
  returns c s Q <-> exists s' a, c s = (s', Ok a) /\ Q a s'.
Proof. unfold returns. destruct (c s) as [s' [a|e|]]; naive_solver. Qed.
End Returns.

(** One statement of straight-line code. *)
Ltac ret_step := lazymatch goal with
  | |- returns (lift _ ≫= _) _ _ => apply returns_bind; eapply returns_lift
  | |- returns (_ ≫= _) _ _ => apply returns_bind
  | |- returns (lift _) _ _ => eapply returns_lift
  | |- returns (_ <$> _) _ _ => apply returns_fmap
  | |- returns get ?s ?Q => change (Q s s); cbv beta
  | |- returns (gets ?f) ?s ?Q => change (Q (f s) s); cbv beta
  | |- returns (modify ?f) ?s ?Q => change (Q tt (f s)); cbv beta
  | |- returns (mret ?a) ?s ?Q => change (Q a s); cbv beta
  end.

(** [with_field eta proj v r]: the record [r] with the field [proj] replaced by [v];
    [eta] rebuilds a record from its fields. *)
Ltac with_field eta proj v r :=
  let t := eval red in (eta r) in
  match eval pattern (proj r) in t with
  | ?f _ => let u := eval cbv beta in (f v) in exact u
  end.

(** ** Machine integers

    A [w]-bit integer is a [Z]; [wrapu]/[wraps] are the values of the
    unsigned/signed type an integer is cast to ([as]) or wraps to on overflow
    (release profile).  [usize] has 64 bits. *)
Definition wrapu (w z : Z) : Z := z mod 2 ^ w.
Definition wraps (w z : Z) : Z := (z + 2 ^ (w - 1)) mod 2 ^ w - 2 ^ (w - 1).

Definition as_u8 : Z -> Z := wrapu 8.
Definition as_u16 : Z -> Z := wrapu 16.
Definition as_u32 : Z -> Z := wrapu 32.
Definition as_u64 : Z -> Z := wrapu 64.
Definition as_usize : Z -> Z := wrapu 64.
Definition as_i32 : Z -> Z := wraps 32.

Definition in_u (w z : Z) : Prop := 0 <= z < 2 ^ w.
Definition in_i (w z : Z) : Prop := - 2 ^ (w - 1) <= z < 2 ^ (w - 1).

(** [!z] on an unsigned type *)
Definition not_u (w z : Z) : Z := 2 ^ w - 1 - z.

Abbreviation is_u8 := (in_u 8).
Abbreviation is_u16 := (in_u 16).
Abbreviation is_u32 := (in_u 32).
Abbreviation is_u64 := (in_u 64).
Abbreviation is_usize := (in_u 64).
Abbreviation is_i32 := (in_i 32).

#[export] Instance in_u_dec w z : Decision (in_u w z).
Proof. unfold in_u. apply _. Defined.
#[export] Instance in_i_dec w z : Decision (in_i w z).
Proof. unfold in_i. apply _. Defined.

(** Linear arithmetic over the casts: unfold them, turn [mod] and [/] into
    their defining equations, then [lia]. *)
Ltac int_unfold :=
  unfold as_u8, as_u16, as_u32, as_u64, as_usize, as_i32, wrapu, wraps,
    in_u, in_i in *.
Ltac pow_consts :=
  repeat match goal with
  | |- context [2 ^ ?n] =>
      let v := eval vm_compute in (2 ^ n) in
      lazymatch v with Z.pos _ => change (2 ^ n) with v end
  | H : context [2 ^ ?n] |- _ =>
      let v := eval vm_compute in (2 ^ n) in
      lazymatch v with Z.pos _ => change (2 ^ n) with v in H end
  end.
Ltac int_lia :=
  int_unfold; pow_consts; Z.to_euclidean_division_equations; lia.

Lemma wrapu_id w z : in_u w z -> wrapu w z = z.
Proof. intros H. apply Z.mod_small, H. Qed.

Lemma wrapu_range w z : 0 <= w -> in_u w (wrapu w z).
Proof. intros H. apply Z.mod_pos_bound. lia. Qed.

Lemma wraps_id w z : 0 < w -> in_i w z -> wraps w z = z.
Proof.
  unfold in_i, wraps. intros Hw H.
  assert (2 ^ w = 2 * 2 ^ (w - 1)) as E.
  { rewrite <- Z.pow_succ_r by lia. f_equal; lia. }
  rewrite Z.mod_small; lia.
Qed.

Lemma wraps_range w z : 0 < w -> in_i w (wraps w z).
Proof.
  unfold in_i, wraps. intros Hw.
  assert (2 ^ w = 2 * 2 ^ (w - 1)) as E.
  { rewrite <- Z.pow_succ_r by lia. f_equal; lia. }
  pose proof (Z.mod_pos_bound (z + 2 ^ (w - 1)) (2 ^ w)). lia.
Qed.

Create HintDb kayrx.
Create Rewrite HintDb kayrx.
#[export] Hint Resolve wrapu_range wraps_range : kayrx.

(** [case_bools] splits on every [if] of the goal and reflects the integer
    comparisons that become hypotheses. *)
Ltac reflect_bools :=
  repeat match goal with
  | H : _ && _ = true |- _ => apply andb_prop in H as [? ?]
  | H : _ || _ = false |- _ => apply orb_false_elim in H as [? ?]
  | H : negb _ = true |- _ => apply negb_true_iff in H
  | H : negb _ = false |- _ => apply negb_false_iff in H
  | H : (_ <=? _) = true |- _ => apply Z.leb_le in H
  | H : (_ <=? _) = false |- _ => apply Z.leb_gt in H
  | H : (_ <? _) = true |- _ => apply Z.ltb_lt in H
  | H : (_ <? _) = false |- _ => apply Z.ltb_ge in H
  | H : (_ =? _) = true |- _ => apply Z.eqb_eq in H
  | H : (_ =? _) = false |- _ => apply Z.eqb_neq in H
  end.
Ltac case_bools := repeat case_match; reflect_bools; simplify_eq/=.

(** Peel a run of monadic binds in a hypothesis [... = Ok _]. *)
Ltac invert_binds :=
  repeat match goal with
  | H : (_ ≫= _) = Ok _ |- _ => apply outcome_bind_Ok in H as (? & ? & H)
  | H : unwrap _ = Ok _ |- _ => apply unwrap_Ok in H
  | H : assert_ _ = Ok _ |- _ => apply assert_Ok in H
  end; reflect_bools; simplify_eq/=.
