(* ===== verification/Bytes.v ===== *)
(** * Byte strings and byte buffers

    A byte is a [Z] below 256, a [&[u8]] a list of bytes.  The growable
    buffers of the [bytes] crate are not part of the repository: [BufMut] and
    [BytesMut] state the documented behaviour the code relies on, and the
    components that write or split buffers are written against them.

    The last part holds integers as bit strings. *)

From S2P Require Import Prelude.

(** ** Byte strings *)

Definition is_bytes (l : list Z) : Prop := Forall is_u8 l.

#[export] Instance is_bytes_dec l : Decision (is_bytes l).
Proof. unfold is_bytes. apply _. Defined.

Lemma is_bytes_nil : is_bytes [].
Proof. constructor. Qed.
Lemma is_bytes_cons x l : is_bytes (x :: l) <-> is_u8 x /\ is_bytes l.
Proof. apply Forall_cons. Qed.
Lemma is_bytes_singleton x : is_bytes [x] <-> is_u8 x.
Proof. apply Forall_singleton. Qed.
Lemma is_bytes_app l1 l2 : is_bytes (l1 ++ l2) <-> is_bytes l1 /\ is_bytes l2.
Proof. apply Forall_app. Qed.
Lemma is_bytes_take n l : is_bytes l -> is_bytes (take n l).
Proof. apply Forall_take. Qed.
Lemma is_bytes_drop n l : is_bytes l -> is_bytes (drop n l).
Proof. apply Forall_drop. Qed.
#[export] Hint Resolve is_bytes_nil is_bytes_take is_bytes_drop : kayrx.

(** Length as the [usize] the code compares. *)
Definition len {A} (l : list A) : Z := Z.of_nat (length l).

Lemma len_app {A} (l1 l2 : list A) : len (l1 ++ l2) = len l1 + len l2.
Proof. unfold len. rewrite length_app. lia. Qed.
Lemma len_nonneg {A} (l : list A) : 0 <= len l.
Proof. unfold len. lia. Qed.
Lemma len_cons {A} (x : A) l : len (x :: l) = 1 + len l.
Proof. unfold len. simpl. lia. Qed.
Lemma len_nil {A} : len (@nil A) = 0.
Proof. done. Qed.
#[export] Hint Rewrite @len_app @len_cons @len_nil : kayrx.

(** [slice[i]] for an index computed as an integer; out of range panics. *)
Definition index {E A} (l : list A) (i : Z) : outcome E A :=
  if i <? 0 then Panic else unwrap (l !! Z.to_nat i).

(** [&slice[..n]], [&slice[n..]] and [&slice[i..i + n]] *)
Definition slice_to {E A} (l : list A) (n : Z) : outcome E (list A) :=
  if (0 <=? n) && (n <=? len l) then Ok (take (Z.to_nat n) l) else Panic.
Definition slice_from {E A} (l : list A) (n : Z) : outcome E (list A) :=
  if (0 <=? n) && (n <=? len l) then Ok (drop (Z.to_nat n) l) else Panic.
Definition slice {E A} (l : list A) (i n : Z) : outcome E (list A) :=
  l' ← slice_from l i; slice_to l' n.

Lemma slice_from_Ok {E A} (l : list A) n :
  0 <= n <= len l -> slice_from l n = (Ok (drop (Z.to_nat n) l) : outcome E _).
Proof.
  intros H. unfold slice_from. by rewrite (proj2 (Z.leb_le 0 n)), (proj2 (Z.leb_le n _)) by lia.
Qed.
Lemma slice_to_Ok {E A} (l : list A) n :
  0 <= n <= len l -> slice_to l n = (Ok (take (Z.to_nat n) l) : outcome E _).
Proof.
  intros H. unfold slice_to. by rewrite (proj2 (Z.leb_le 0 n)), (proj2 (Z.leb_le n _)) by lia.
Qed.

Lemma slice_to_app {E A} (l1 l2 : list A) n :
  n = len l1 -> slice_to (l1 ++ l2) n = (Ok l1 : outcome E _).
Proof.
  intros ->. unfold slice_to. rewrite len_app.
  pose proof (len_nonneg l1). pose proof (len_nonneg l2).
  rewrite (proj2 (Z.leb_le 0 _)), (proj2 (Z.leb_le _ _)) by lia. simpl.
  unfold len. by rewrite Nat2Z.id, take_app_length.
Qed.

Lemma slice_from_app {E A} (l1 l2 : list A) n :
  n = len l1 -> slice_from (l1 ++ l2) n = (Ok l2 : outcome E _).
Proof.
  intros ->. unfold slice_from. rewrite len_app.
  pose proof (len_nonneg l1). pose proof (len_nonneg l2).
  rewrite (proj2 (Z.leb_le 0 _)), (proj2 (Z.leb_le _ _)) by lia. simpl.
  unfold len. by rewrite Nat2Z.id, drop_app_length.
Qed.

Lemma slice_0_app {E A} (l1 l2 : list A) n :
  n = len l1 -> slice (l1 ++ l2) 0 n = (Ok l1 : outcome E _).
Proof.
  intros. unfold slice. rewrite (slice_from_app [] (l1 ++ l2)) by done.
  by apply slice_to_app.
Qed.

(** [slice.chunks(n)]; the fuel is the length of the slice. *)
Fixpoint chunks_fuel {A} (fuel n : nat) (l : list A) : list (list A) :=
  match fuel, l with
  | S fuel, _ :: _ => take n l :: chunks_fuel fuel n (drop n l)
  | _, _ => []
  end.
Definition chunks {A} (n : nat) (l : list A) : list (list A) :=
  chunks_fuel (length l) n l.

Lemma chunks_fuel_enough {A} n fuel (l : list A) :
  (0 < n)%nat -> (length l <= fuel)%nat ->
  chunks_fuel fuel n l = chunks n l.
Proof.
  intros Hn. unfold chunks.
  cut (forall f1 f2 (l : list A), (length l <= f1)%nat -> (length l <= f2)%nat ->
    chunks_fuel f1 n l = chunks_fuel f2 n l); [auto|].
  clear fuel l. induction f1 as [|f1 IH]; intros [|f2] [|x l] H1 H2; simpl in *;
    try done; try lia.
  f_equal. apply IH; rewrite length_drop; simpl; lia.
Qed.

Lemma chunks_app {A} n (c l : list A) :
  (0 < n)%nat -> length c = n -> chunks n (c ++ l) = c :: chunks n l.
Proof.
  intros Hn Hc. destruct c as [|x c]; simpl in Hc; [lia|].
  unfold chunks at 1. simpl. subst n.
  rewrite (take_app_length (x :: c) l : take (S (length c)) (x :: c ++ l) = _).
  rewrite (drop_app_length (x :: c) l : drop (S (length c)) (x :: c ++ l) = _).
  f_equal. apply chunks_fuel_enough; [lia|]. rewrite length_app. lia.
Qed.

(** The chunks of a slice whose length is a multiple of [n] all have length
    [n] and hold elements of the slice. *)
Lemma chunks_exact {A} (P : A -> Prop) n (l : list A) :
  (0 < n)%nat -> Forall P l -> len l mod Z.of_nat n = 0 ->
  Forall (fun c => length c = n /\ Forall P c) (chunks n l).
Proof.
  intros Hn. remember (length l) as m eqn:Hm. revert l Hm.
  induction m as [m IH] using lt_wf_ind. intros l -> HP Hmod.
  destruct l as [|x l']; [constructor|]. set (l := x :: l') in *.
  assert (n <= length l)%nat as Hle.
  { destruct (Nat.le_gt_cases n (length l)) as [|Hlt]; [done|].
    unfold len in Hmod. rewrite Z.mod_small in Hmod by lia. simpl in Hmod. lia. }
  rewrite <- (take_drop n l), chunks_app by (rewrite ?length_take; lia).
  constructor.
  - split; [rewrite length_take; lia | by apply Forall_take].
  - apply (IH (length (drop n l))); [rewrite length_drop; lia|done|by apply Forall_drop|].
    unfold len in *. rewrite length_drop, Nat2Z.inj_sub by lia.
    rewrite Zminus_mod, Hmod, Z.mod_same by lia. done.
Qed.

Lemma chunks_nil {A} n : chunks n (@nil A) = [].
Proof. done. Qed.

(** [VecDeque::pop_back] *)
Definition pop_back {A} (l : list A) : option (list A * A) :=
  match last l with
  | Some x => Some (take (length l - 1) l, x)
  | None => None
  end.

Lemma pop_back_snoc {A} (l : list A) x : pop_back (l ++ [x]) = Some (l, x).
Proof.
  unfold pop_back. rewrite last_snoc, length_app. simpl.
  by rewrite Nat.add_sub, take_app_length.
Qed.

(** ** Big-endian integers ([to_be_bytes], [from_be_bytes]) *)

Fixpoint to_be_bytes (n : nat) (z : Z) : list Z :=
  match n with
  | O => []
  | S n => to_be_bytes n (z / 256) ++ [z mod 256]
  end.

Definition from_be_bytes (l : list Z) : Z :=
  fold_left (fun acc b => acc * 256 + b) l 0.

Lemma to_be_bytes_length n z : length (to_be_bytes n z) = n.
Proof.
  revert z. induction n as [|n IH]; intros z; [done|].
  simpl. rewrite length_app, IH. simpl. lia.
Qed.

Lemma to_be_bytes_is_bytes n z : is_bytes (to_be_bytes n z).
Proof.
  revert z. induction n as [|n IH]; intros z; [constructor|].
  simpl. apply Forall_app; split; [apply IH|].
  repeat constructor; apply Z.mod_pos_bound; lia.
Qed.

Lemma from_be_bytes_snoc l b : from_be_bytes (l ++ [b]) = from_be_bytes l * 256 + b.
Proof. unfold from_be_bytes. by rewrite fold_left_app. Qed.

Lemma from_to_be_bytes n z :
  0 <= z < 256 ^ Z.of_nat n -> from_be_bytes (to_be_bytes n z) = z.
Proof.
  revert z. induction n as [|n IH]; intros z Hz.
  { change (256 ^ Z.of_nat 0) with 1 in Hz. unfold from_be_bytes. simpl. lia. }
  simpl. rewrite from_be_bytes_snoc, IH.
  - rewrite Z.mul_comm. symmetry. apply Z.div_mod. lia.
  - rewrite Nat2Z.inj_succ, Z.pow_succ_r in Hz by lia.
    split; [apply Z.div_pos; lia | apply Z.div_lt_upper_bound; lia].
Qed.

Lemma from_be_bytes_4 a b c d :
  from_be_bytes [a; b; c; d] = a * 2 ^ 24 + b * 2 ^ 16 + c * 2 ^ 8 + d.
Proof. unfold from_be_bytes. simpl fold_left. lia. Qed.

Lemma from_be_bytes_range l :
  is_bytes l -> 0 <= from_be_bytes l < 256 ^ len l.
Proof.
  induction l as [|b l IH] using rev_ind; intros Hl.
  { unfold from_be_bytes, len. simpl. lia. }
  apply is_bytes_app in Hl as [Hl [Hb _]%is_bytes_cons].
  rewrite from_be_bytes_snoc, len_app. change (len [b]) with 1.
  rewrite Z.pow_add_r by (pose proof (len_nonneg l); lia).
  specialize (IH Hl). unfold in_u in Hb. change (2 ^ 8) with 256 in Hb.
  change (256 ^ 1) with 256. lia.
Qed.

Lemma to_from_be_bytes l :
  is_bytes l -> to_be_bytes (length l) (from_be_bytes l) = l.
Proof.
  induction l as [|b l IH] using rev_ind; intros Hl; [done|].
  apply is_bytes_app in Hl as [Hl [Hb _]%is_bytes_cons].
  rewrite length_app, Nat.add_1_r, from_be_bytes_snoc. simpl.
  unfold in_u in Hb. change (2 ^ 8) with 256 in Hb.
  rewrite Z.div_add_l, Z.div_small, Z.add_0_r, IH by (try done; lia).
  f_equal. rewrite Z.add_comm, Z.mod_add, Z.mod_small by lia. done.
Qed.

#[global] Arguments to_be_bytes : simpl never.
#[global] Arguments from_be_bytes : simpl never.

(** ** Buffers *)

(** [bytes::BufMut]: a destination with room for [remaining_mut] bytes.
    Writing past the room panics, so the laws speak of writes that fit. *)
Class BufMut (B : Type) := {
  buf_bytes : B -> list Z;
  remaining_mut : B -> Z;
  put_slice : B -> list Z -> B;
  put_slice_bytes b s :
    len s <= remaining_mut b -> buf_bytes (put_slice b s) = buf_bytes b ++ s;
  put_slice_remaining b s :
    len s <= remaining_mut b -> remaining_mut (put_slice b s) = remaining_mut b - len s;
}.

(** [bytes::BytesMut] ([Bytes] after [freeze]): a growable buffer that can be
    split. [bm_split_to b n] gives the first [n] bytes and what is left. *)
Class BytesMut (B : Type) := {
  bm_buf_mut :: BufMut B;
  bm_new : B;
  bm_split_to : B -> nat -> B * B;
  bm_new_bytes : buf_bytes bm_new = [];
  bm_split_to_bytes b n :
    (n <= length (buf_bytes b))%nat ->
    buf_bytes (bm_split_to b n).1 = take n (buf_bytes b) /\
    buf_bytes (bm_split_to b n).2 = drop n (buf_bytes b);
  bm_remaining b : remaining_mut b = 2 ^ 64 - 1 - len (buf_bytes b);
  (** [b[i] = x] and [b.truncate(n)] *)
  bm_set : B -> nat -> Z -> B;
  bm_set_bytes b i x :
    (i < length (buf_bytes b))%nat -> buf_bytes (bm_set b i x) = <[i:=x]> (buf_bytes b);
  bm_truncate : B -> nat -> B;
  bm_truncate_bytes b n : buf_bytes (bm_truncate b n) = take n (buf_bytes b);
}.

Definition put_u8 `{BufMut B} (b : B) (x : Z) : B := put_slice b [x].
Definition put_u16 `{BufMut B} (b : B) (x : Z) : B := put_slice b (to_be_bytes 2 x).
Definition put_u32 `{BufMut B} (b : B) (x : Z) : B := put_slice b (to_be_bytes 4 x).
Definition put_u64 `{BufMut B} (b : B) (x : Z) : B := put_slice b (to_be_bytes 8 x).
Definition put_uint `{BufMut B} (b : B) (x : Z) (nbytes : nat) : B :=
  put_slice b (to_be_bytes nbytes x).

(** [BytesMut::split]: everything written so far, leaving the rest empty. *)
Definition bm_split `{BytesMut B} (b : B) : B * B :=
  bm_split_to b (length (buf_bytes b)).

Lemma bm_split_bytes `{BytesMut B} (b : B) :
  buf_bytes (bm_split b).1 = buf_bytes b /\ buf_bytes (bm_split b).2 = [].
Proof.
  unfold bm_split.
  destruct (bm_split_to_bytes b (length (buf_bytes b))) as [-> ->]; [lia|].
  by rewrite take_ge, drop_ge by lia.
Qed.

(** Appending to a buffer that is far from the end of the address space. *)
Lemma put_slice_app `{BytesMut B} (b : B) s l :
  buf_bytes b = l -> len l + len s <= 2 ^ 64 - 1 -> buf_bytes (put_slice b s) = l ++ s.
Proof. intros <- Hr. apply put_slice_bytes. rewrite bm_remaining. lia. Qed.

(** [Bytes::split_off]: what is kept, and the tail that is returned. *)
Definition bm_split_off `{BytesMut B} (b : B) (n : nat) : B * B := bm_split_to b n.

(** [bytes::Buf]: a source of [remaining] bytes that is read by advancing. *)
Class Buf (B : Type) := {
  src_bytes : B -> list Z;
  advance : B -> nat -> B;
  advance_bytes b n :
    (n <= length (src_bytes b))%nat -> src_bytes (advance b n) = drop n (src_bytes b);
  advance_0 b : advance b 0 = b;
  advance_advance b n m :
    (n + m <= length (src_bytes b))%nat -> advance (advance b n) m = advance b (n + m);
}.
(** [Buf::has_remaining] and [Buf::get_u8] *)
Definition has_remaining `{Buf B} (b : B) : bool := 0 <? len (src_bytes b).
Definition get_u8 {E} `{Buf B} : SE B E Z := fun b =>
  match src_bytes b with
  | x :: _ => (advance b 1, Ok x)
  | [] => (b, Panic)
  end.
Definition remaining `{Buf B} (b : B) : Z := len (src_bytes b).
(** [BufMut::put]: copies all that is left of the source and advances it. *)
Definition put `{BufMut D} `{Buf B} (dst : D) (src : B) : D * B :=
  (put_slice dst (src_bytes src), advance src (length (src_bytes src))).

#[export] Program Instance list_buf : Buf (list Z) :=
  {| src_bytes b := b; advance b n := drop n b |}.
Next Obligation. done. Qed.
Next Obligation. done. Qed.
Next Obligation. intros b n m _. simpl. by rewrite drop_drop. Qed.

(** The list model of a [BytesMut]: room up to [usize::MAX]. *)
#[export] Program Instance list_buf_mut : BufMut (list Z) := {|
  buf_bytes b := b;
  remaining_mut b := 2 ^ 64 - 1 - len b;
  put_slice b s := b ++ s;
|}.
Next Obligation. done. Qed.
Next Obligation. intros b s H. simpl in *. rewrite len_app. lia. Qed.

#[export] Program Instance list_bytes_mut : BytesMut (list Z) := {|
  bm_new := [];
  bm_split_to b n := (take n b, drop n b);
  bm_set b i x := <[i:=x]> b;
  bm_truncate b n := take n b;
|}.
Solve All Obligations with done.

(** [bytes::buf::ext::Take]: at most [take_limit] bytes of [take_inner]. *)
Record Take (B : Type) := MkTake { take_inner : B; take_limit : Z }.
Arguments MkTake {B}.
Arguments take_inner {B}.
Arguments take_limit {B}.
#[export] Program Instance take_buf `{Buf B} : Buf (Take B) := {|
  src_bytes b := take (Z.to_nat (take_limit b)) (src_bytes (take_inner b));
  advance b n := MkTake (advance (take_inner b) n) (take_limit b - Z.of_nat n)
|}.
Next Obligation.
  intros B HB b n Hn. simpl in *. rewrite length_take in Hn.
  rewrite advance_bytes by lia. rewrite skipn_firstn_comm. f_equal. lia.
Qed.
Next Obligation. intros B HB [b l]. simpl. by rewrite advance_0, Z.sub_0_r. Qed.
Next Obligation.
  intros B HB b n m Hn. simpl in *. rewrite length_take in Hn. f_equal; [|lia].
  apply advance_advance. lia.
Qed.

(** [bytes::buf::ext::Limit]: at most [limit] more bytes into [inner]. *)
Record Limit (B : Type) := MkLimit { limit_inner : B; limit : Z }.
Arguments MkLimit {B}.
Arguments limit_inner {B}.
Arguments limit {B}.

#[export] Program Instance limit_buf_mut `{BufMut B} : BufMut (Limit B) := {|
  buf_bytes b := buf_bytes (limit_inner b);
  remaining_mut b := Z.min (remaining_mut (limit_inner b)) (limit b);
  put_slice b s := MkLimit (put_slice (limit_inner b) s) (limit b - len s);
|}.
Next Obligation. intros B HB b s H. simpl in *. apply put_slice_bytes. lia. Qed.
Next Obligation.
  intros B HB b s H. simpl in *. rewrite put_slice_remaining by lia. lia.
Qed.

(** * Bit strings

    Integers as lists of bits, most significant first, and the arithmetic
    facts about disjoint bit fields that the codecs rely on. *)

(** The [n] low bits of [z]. *)
Fixpoint zbits (n : nat) (z : Z) : list bool :=
  match n with
  | O => []
  | S n => zbits n (z / 2) ++ [Z.odd z]
  end.

(** The bits of a byte string. *)
Definition bits_of (l : list Z) : list bool := l ≫= zbits 8.

Lemma length_zbits n z : length (zbits n z) = n.
Proof.
  revert z. induction n as [|n IH]; intros z; [done|].
  simpl. rewrite length_app, IH. simpl. lia.
Qed.

Lemma zbits_app n m x y :
  0 <= y < 2 ^ Z.of_nat m ->
  zbits (n + m) (x * 2 ^ Z.of_nat m + y) = zbits n x ++ zbits m y.
Proof.
  revert y. induction m as [|m IH]; intros y Hy.
  { change (2 ^ Z.of_nat 0) with 1 in *. rewrite Nat.add_0_r, app_nil_r. f_equal. lia. }
  rewrite Nat2Z.inj_succ, Z.pow_succ_r in Hy |- * by lia.
  rewrite Nat.add_succ_r. simpl. rewrite app_assoc. f_equal.
  - rewrite <- IH by (split; [apply Z.div_pos | apply Z.div_lt_upper_bound]; lia).
    f_equal. replace (x * (2 * 2 ^ Z.of_nat m) + y) with (x * 2 ^ Z.of_nat m * 2 + y) by lia.
    rewrite Z.div_add_l by lia. done.
  - f_equal. rewrite Z.odd_add, Z.odd_mul, Z.odd_mul. simpl.
    by rewrite andb_false_r.
Qed.

Lemma zbits_ones n : zbits n (2 ^ Z.of_nat n - 1) = replicate n true.
Proof.
  induction n as [|n IH]; [done|].
  rewrite Nat2Z.inj_succ, Z.pow_succ_r by lia. simpl.
  replace (2 * 2 ^ Z.of_nat n - 1) with ((2 ^ Z.of_nat n - 1) * 2 + 1) by lia.
  rewrite Z.div_add_l by lia. change (1 / 2) with 0. rewrite Z.add_0_r, IH.
  rewrite Z.odd_add, Z.odd_mul, andb_false_r. simpl.
  by rewrite <- replicate_S_end.
Qed.

Lemma bits_of_app l1 l2 : bits_of (l1 ++ l2) = bits_of l1 ++ bits_of l2.
Proof. apply bind_app. Qed.

Lemma bits_of_cons x l : bits_of (x :: l) = zbits 8 x ++ bits_of l.
Proof. done. Qed.

Lemma length_bits_of l : length (bits_of l) = (8 * length l)%nat.
Proof.
  induction l as [|x l IH]; [done|].
  rewrite bits_of_cons, length_app, length_zbits, IH. simpl length. lia.
Qed.

(** Two halves of a byte. *)
Lemma zbits_nibbles b :
  is_u8 b -> zbits 8 b = zbits 4 (Z.shiftr b 4) ++ zbits 4 (Z.land b 0xf).
Proof.
  intros Hb. rewrite Z.shiftr_div_pow2 by lia.
  change 0xf with (Z.ones 4). rewrite Z.land_ones by lia.
  rewrite <- (zbits_app 4 4) by (apply Z.mod_pos_bound; lia).
  f_equal. change (2 ^ Z.of_nat 4) with (2 ^ 4). rewrite Z.mul_comm. apply Z.div_mod. lia.
Qed.

(** [|] of disjoint fields is [+]. *)
Lemma lor_disjoint x y k :
  0 <= k -> 0 <= y < 2 ^ k -> Z.lor (x * 2 ^ k) y = x * 2 ^ k + y.
Proof.
  intros Hk Hy.
  assert (Z.land (x * 2 ^ k) y = 0) as Hl.
  { apply Z.bits_inj'. intros n Hn. rewrite Z.land_spec, Z.bits_0.
    destruct (Z.lt_ge_cases n k).
    - by rewrite Z.mul_pow2_bits_low.
    - rewrite <- (Z.mod_small y (2 ^ k)) by done.
      by rewrite Z.mod_pow2_bits_high, andb_false_r by lia. }
  pose proof (Z.add_lor_land (x * 2 ^ k) y) as E. rewrite Hl in E. lia.
Qed.

Lemma shiftl_lor_add x y k :
  0 <= k -> 0 <= y < 2 ^ k -> Z.lor (Z.shiftl x k) y = x * 2 ^ k + y.
Proof. intros. rewrite Z.shiftl_mul_pow2 by lia. by apply lor_disjoint. Qed.

(** Masking a field: [&] with [2^k] tests one bit, [&] with the complement
    clears it. *)
Lemma land_top x k :
  0 <= k -> 0 <= x < 2 ^ (k + 1) ->
  Z.land x (2 ^ k) = if 2 ^ k <=? x then 2 ^ k else 0.
Proof.
  intros Hk Hx. rewrite Z.pow_add_r in Hx by lia.
  apply Z.bits_inj'. intros n Hn. rewrite Z.land_spec, Z.pow2_bits_eqb by lia.
  destruct (Z.eqb_spec k n) as [<-|Hne].
  - rewrite andb_true_r.
    destruct (Z.leb_spec (2 ^ k) x).
    + rewrite Z.pow2_bits_true by lia. apply Z.testbit_true; [lia|].
      replace (x / 2 ^ k) with 1; [done|]. apply Z.div_unique with (x - 2 ^ k); lia.
    + rewrite Z.bits_0. apply Z.testbit_false; [lia|]. by rewrite Z.div_small by lia.
  - rewrite andb_false_r. destruct (2 ^ k <=? x); [|by rewrite Z.bits_0].
    by rewrite Z.pow2_bits_false.
Qed.

Lemma land_low x k : 0 <= k -> Z.land x (2 ^ k - 1) = x mod 2 ^ k.
Proof.
  intros Hk. replace (2 ^ k - 1) with (Z.ones k) by (rewrite Z.ones_equiv; lia).
  by apply Z.land_ones.
Qed.

Lemma land_1 x : Z.land x 1 = Z.b2z (Z.testbit x 0).
Proof. rewrite Z.bit0_mod. change 1 with (Z.ones 1) at 1. by rewrite Z.land_ones. Qed.

Lemma land_range x m k : 0 <= m < 2 ^ k -> 0 <= Z.land x m < 2 ^ k.
Proof.
  intros Hm. assert (0 <= k) as Hk.
  { destruct (Z.le_gt_cases 0 k); [done|]. rewrite Z.pow_neg_r in Hm; lia. }
  replace (Z.land x m) with (Z.land x m mod 2 ^ k); [apply Z.mod_pos_bound; lia|].
  rewrite <- Z.land_ones, <- Z.land_assoc by lia. f_equal.
  rewrite Z.land_ones by lia. apply Z.mod_small; lia.
Qed.

#[global] Arguments bits_of : simpl never.
#[global] Arguments zbits : simpl never.
