(* ===== verification/H2Types.v ===== *)
(** * Shared HTTP/2 types

    The identifiers, error codes and error enums that the frame layer and the
    protocol layer of [http/h2] pass to each other. *)

From S2P Require Import Prelude Bytes.

(** ** Error codes *)

(** [http/h2/frame/reason.rs] Reason *)
Record Reason := MkReason { reason_u32 : Z }.

#[export] Instance Reason_eq_dec : EqDecision Reason.
Proof. solve_decision. Defined.

Definition NO_ERROR := MkReason 0.
Definition PROTOCOL_ERROR := MkReason 1.
Definition INTERNAL_ERROR := MkReason 2.
Definition FLOW_CONTROL_ERROR := MkReason 3.
Definition SETTINGS_TIMEOUT := MkReason 4.
Definition STREAM_CLOSED := MkReason 5.
Definition FRAME_SIZE_ERROR := MkReason 6.
Definition REFUSED_STREAM := MkReason 7.
Definition CANCEL := MkReason 8.
Definition COMPRESSION_ERROR := MkReason 9.
Definition CONNECT_ERROR := MkReason 10.
Definition ENHANCE_YOUR_CALM := MkReason 11.
Definition INADEQUATE_SECURITY := MkReason 12.
Definition HTTP_1_1_REQUIRED := MkReason 13.

(** The kinds of [std::io::Error] that the modelled code builds. *)
Inductive IoErrorKind :=
  | BrokenPipe
  | UnexpectedEof
  | InvalidData
  | InvalidInput
  | WriteZero
  | OtherKind.

#[export] Instance IoErrorKind_eq_dec : EqDecision IoErrorKind.
Proof. solve_decision. Defined.

(** ** Stream identifiers *)

(** [http/h2/frame/stream_id.rs] StreamId *)
Record StreamId := MkStreamId { stream_id_u32 : Z }.

#[export] Instance StreamId_eq_dec : EqDecision StreamId.
Proof. solve_decision. Defined.
#[export] Instance StreamId_countable : Countable StreamId.
Proof.
  apply (inj_countable' stream_id_u32 MkStreamId). by intros [].
Defined.

Module StreamId.

(** [http/h2/frame/stream_id.rs] STREAM_ID_MASK *)
Definition STREAM_ID_MASK : Z := Z.shiftl 1 31.

(** [http/h2/frame/stream_id.rs] StreamId::ZERO *)
Definition ZERO : StreamId := MkStreamId 0.

(** [http/h2/frame/stream_id.rs] StreamId::MAX *)
Definition MAX : StreamId := MkStreamId (Z.shiftr (2 ^ 32 - 1) 1).

(** [http/h2/frame/stream_id.rs] StreamId::parse *)
Definition parse {E} (buf : list Z) : outcome E (StreamId * bool) :=
  ubuf ← slice buf 0 4;
  let unpacked := from_be_bytes ubuf in
  let flag := Z.land unpacked STREAM_ID_MASK =? STREAM_ID_MASK in
  Ok (MkStreamId (Z.land unpacked (not_u 32 STREAM_ID_MASK)), flag).

(** [http/h2/frame/stream_id.rs] StreamId::is_client_initiated *)
Definition is_client_initiated (id : StreamId) : bool :=
  negb (stream_id_u32 id =? 0) && (stream_id_u32 id mod 2 =? 1).

(** [http/h2/frame/stream_id.rs] StreamId::is_server_initiated *)
Definition is_server_initiated (id : StreamId) : bool :=
  negb (stream_id_u32 id =? 0) && (stream_id_u32 id mod 2 =? 0).

(** [http/h2/frame/stream_id.rs] StreamId::is_zero *)
Definition is_zero (id : StreamId) : bool := stream_id_u32 id =? 0.

(** The overflow error of [next_id]. *)
Inductive StreamIdOverflow := MkStreamIdOverflow.

(** [http/h2/frame/stream_id.rs] StreamId::next_id *)
Definition next_id (id : StreamId) : outcome StreamIdOverflow StreamId :=
  let next := as_u32 (stream_id_u32 id + 2) in
  if stream_id_u32 MAX <? next then Err MkStreamIdOverflow
  else Ok (MkStreamId next).

(** [http/h2/frame/stream_id.rs] StreamId as From::from *)
Definition from_u32 {E} (src : Z) : outcome E StreamId :=
  _ ← assert_ (Z.land src STREAM_ID_MASK =? 0);
  Ok (MkStreamId src).

(** A well-formed identifier: the 31-bit values of RFC 7540 5.1.1. *)
Definition valid (id : StreamId) : Prop := 0 <= stream_id_u32 id < 2 ^ 31.

(** A step of [next_id] from a valid identifier stays valid, keeps the
    initiator and grows by two, or reports the overflow. *)
Lemma next_id_spec id :
  valid id ->
  (stream_id_u32 id + 2 < 2 ^ 31 /\
   next_id id = Ok (MkStreamId (stream_id_u32 id + 2))) \/
  (2 ^ 31 <= stream_id_u32 id + 2 /\ next_id id = Err MkStreamIdOverflow).
Proof.
  unfold valid, next_id, MAX. intros H. simpl.
  change (Z.shiftr _ _) with (2 ^ 31 - 1).
  replace (as_u32 _) with (stream_id_u32 id + 2) by int_lia.
  case_match; reflect_bools; [right | left]; split; try lia; done.
Qed.

(** The identifier is the low 31 bits, the flag the reserved top bit. *)
Lemma parse_spec {E} n rest :
  is_u32 n ->
  parse (to_be_bytes 4 n ++ rest) =
    (Ok (MkStreamId (n mod 2 ^ 31), 2 ^ 31 <=? n) : outcome E _).
Proof.
  intros Hn. unfold parse. rewrite (slice_0_app (to_be_bytes 4 n)) by (unfold len; by rewrite to_be_bytes_length).
  simpl mbind. rewrite from_to_be_bytes by (revert Hn; unfold in_u; change (256 ^ _) with (2 ^ 32); lia).
  change STREAM_ID_MASK with (2 ^ 31). unfold in_u in Hn.
  rewrite land_top by (change (2 ^ (31 + 1)) with (2 ^ 32); lia).
  change (not_u 32 (2 ^ 31)) with (2 ^ 31 - 1). rewrite land_low by lia.
  by destruct (2 ^ 31 <=? n).
Qed.

End StreamId.

(** ** Roles *)

(** [http/h2/proto/peer.rs] Dyn *)
Inductive Dyn := Client | Server.

Module Dyn.

(** [http/h2/proto/peer.rs] Dyn::is_server *)
Definition is_server (d : Dyn) : bool :=
  match d with Server => true | Client => false end.

(** [http/h2/proto/peer.rs] Dyn::is_local_init *)
Definition is_local_init {E} (d : Dyn) (id : StreamId) : outcome E bool :=
  _ ← assert_ (negb (StreamId.is_zero id));
  Ok (Bool.eqb (is_server d) (StreamId.is_server_initiated id)).

End Dyn.

(** ** Error enums *)

(** [http/h2/codec/error.rs] RecvError *)
Inductive RecvError :=
  | RecvConnection (reason : Reason)
  | RecvStream (id : StreamId) (reason : Reason)
  | RecvIo (e : IoErrorKind).

(** [http/h2/codec/error.rs] UserError *)
Inductive UserError :=
  | InactiveStreamId
  | UnexpectedFrameType
  | PayloadTooBig
  | HeaderTooBig
  | Rejected
  | ReleaseCapacityTooBig
  | OverflowedStreamId
  | MalformedHeaders
  | MissingUriSchemeAndAuthority
  | PollResetAfterSendResponse
  | SendPingWhilePending
  | SendSettingsWhilePending.

(** [http/h2/proto/error.rs] Error *)
Inductive ProtoError :=
  | Proto (reason : Reason)
  | Io (e : IoErrorKind).
