(* ===== verification/FlowControl.v ===== *)
(** * Flow-control windows

    [http/h2/proto/streams/flow_control.rs]: the signed 32-bit [Window], the
    [FlowControl] pair of the window the peer knows about ([window_size]) and
    the window handed to the consumer ([available]), and their arithmetic. *)

From S2P Require Import Prelude H2Types.

(** [http/h2/proto/mod.rs] MAX_WINDOW_SIZE *)
Definition MAX_WINDOW_SIZE : Z := Z.shiftl 1 31 - 1.

Definition UNCLAIMED_NUMERATOR : Z := 1.
Definition UNCLAIMED_DENOMINATOR : Z := 2.

(** ** Windows *)

(** [http/h2/proto/streams/flow_control.rs] Window *)
Record Window := MkWindow { window_i32 : Z }.

#[export] Instance Window_eq_dec : EqDecision Window.
Proof. solve_decision. Defined.

Module Window.

(** [http/h2/proto/streams/flow_control.rs] Window::as_size *)
Definition as_size (w : Window) : Z :=
  if window_i32 w <? 0 then 0 else as_u32 (window_i32 w).

(** [http/h2/proto/streams/flow_control.rs] Window::checked_size *)
Definition checked_size {E} (w : Window) : outcome E Z :=
  _ ← assert_ (0 <=? window_i32 w);
  Ok (as_u32 (window_i32 w)).

(** [http/h2/proto/streams/flow_control.rs] Window as PartialEq::eq *)
Definition eq_size (w : Window) (other : Z) : bool :=
  if window_i32 w <? 0 then false else as_u32 (window_i32 w) =? other.

(** [http/h2/proto/streams/flow_control.rs] Window as PartialOrd::partial_cmp *)
Definition cmp_size (w : Window) (other : Z) : comparison :=
  if window_i32 w <? 0 then Lt else as_u32 (window_i32 w) ?= other.

(** [http/h2/proto/streams/flow_control.rs] WindowSize as PartialOrd::partial_cmp *)
Definition size_cmp (sz : Z) (w : Window) : comparison :=
  if window_i32 w <? 0 then Gt else sz ?= as_u32 (window_i32 w).

(** [sz <= window], the use of [PartialOrd] in the assertion of
    [FlowControl::send_data]. *)
Definition size_le (sz : Z) (w : Window) : bool :=
  match size_cmp sz w with Gt => false | _ => true end.

(** [http/h2/proto/streams/flow_control.rs] Window as SubAssign::sub_assign *)
Definition sub_assign (w : Window) (other : Z) : Window :=
  MkWindow (as_i32 (window_i32 w - as_i32 other)).

(** [http/h2/proto/streams/flow_control.rs] Window as Add::add *)
Definition add (w : Window) (other : Z) : Window :=
  MkWindow (as_i32 (window_i32 w + as_i32 other)).

(** [http/h2/proto/streams/flow_control.rs] Window as AddAssign::add_assign *)
Definition add_assign (w : Window) (other : Z) : Window :=
  MkWindow (as_i32 (window_i32 w + as_i32 other)).

(** Values of the [i32] field. *)
Definition wf (w : Window) : Prop := is_i32 (window_i32 w).

Lemma as_size_spec w : wf w -> as_size w = Z.max 0 (window_i32 w).
Proof. unfold wf, as_size. intros. case_bools; int_lia. Qed.

Lemma size_le_spec sz w :
  wf w -> 0 <= sz -> size_le sz w = true <-> sz <= window_i32 w.
Proof.
  unfold wf, size_le, size_cmp. intros Hw Hsz.
  destruct (Z.ltb_spec (window_i32 w) 0); [split; [done | lia]|].
  replace (as_u32 (window_i32 w)) with (window_i32 w) by int_lia.
  destruct (Z.compare_spec sz (window_i32 w)); split; try done; lia.
Qed.

(** Sizes below [2^31] do not change sign in the cast. *)
Lemma as_i32_size sz : 0 <= sz <= MAX_WINDOW_SIZE -> as_i32 sz = sz.
Proof. change MAX_WINDOW_SIZE with (2 ^ 31 - 1). int_lia. Qed.

#[export] Hint Rewrite as_i32_size using lia : kayrx.

End Window.

(** ** FlowControl *)

(** [http/h2/proto/streams/flow_control.rs] FlowControl *)
Record FlowControl := MkFlowControl {
  window_size : Window;
  available : Window;
}.

Module FlowControl.

(** [http/h2/proto/streams/flow_control.rs] FlowControl::new *)
Definition new : FlowControl := MkFlowControl (MkWindow 0) (MkWindow 0).

(** [http/h2/proto/streams/flow_control.rs] FlowControl::window_size *)
Definition get_window_size (f : FlowControl) : Z := Window.as_size (window_size f).

(** [http/h2/proto/streams/flow_control.rs] FlowControl::has_unavailable *)
Definition has_unavailable (f : FlowControl) : bool :=
  if window_i32 (window_size f) <? 0 then false
  else window_i32 (available f) <? window_i32 (window_size f).

(** [http/h2/proto/streams/flow_control.rs] FlowControl::claim_capacity *)
Definition claim_capacity (f : FlowControl) (capacity : Z) : FlowControl :=
  MkFlowControl (window_size f) (Window.sub_assign (available f) capacity).

(** [http/h2/proto/streams/flow_control.rs] FlowControl::assign_capacity *)
Definition assign_capacity (f : FlowControl) (capacity : Z) : FlowControl :=
  MkFlowControl (window_size f) (Window.add_assign (available f) capacity).

(** [http/h2/proto/streams/flow_control.rs] FlowControl::unclaimed_capacity *)
Definition unclaimed_capacity (f : FlowControl) : option Z :=
  let available := window_i32 (available f) in
  let window := window_i32 (window_size f) in
  if available <=? window then None
  else
    let unclaimed := as_i32 (available - window) in
    let threshold :=
      as_i32 (Z.quot window UNCLAIMED_DENOMINATOR * UNCLAIMED_NUMERATOR) in
    if unclaimed <? threshold then None
    else Some (as_u32 unclaimed).

(** [http/h2/proto/streams/flow_control.rs] FlowControl::inc_window *)
Definition inc_window (f : FlowControl) (sz : Z) : outcome Reason FlowControl :=
  let exact := window_i32 (window_size f) + as_i32 sz in
  let val := as_i32 exact in
  let overflow := negb (val =? exact) in
  if overflow then Err FLOW_CONTROL_ERROR
  else if as_i32 MAX_WINDOW_SIZE <? val then Err FLOW_CONTROL_ERROR
  else Ok (MkFlowControl (MkWindow val) (available f)).

(** [http/h2/proto/streams/flow_control.rs] FlowControl::dec_send_window *)
Definition dec_send_window (f : FlowControl) (sz : Z) : FlowControl :=
  MkFlowControl (Window.sub_assign (window_size f) sz) (available f).

(** [http/h2/proto/streams/flow_control.rs] FlowControl::dec_recv_window *)
Definition dec_recv_window (f : FlowControl) (sz : Z) : FlowControl :=
  MkFlowControl (Window.sub_assign (window_size f) sz)
                (Window.sub_assign (available f) sz).

(** [http/h2/proto/streams/flow_control.rs] FlowControl::send_data *)
Definition send_data {E} (f : FlowControl) (sz : Z) : outcome E FlowControl :=
  _ ← assert_ (Window.size_le sz (window_size f));
  Ok (MkFlowControl (Window.sub_assign (window_size f) sz)
                    (Window.sub_assign (available f) sz)).

End FlowControl.

(** ** Specification

    [credit_step] is the protocol's accounting of a send window: an unbounded
    integer of credit, raised by WINDOW_UPDATE up to [2^31 - 1], lowered by a
    smaller SETTINGS_INITIAL_WINDOW_SIZE (possibly below zero) and spent by
    DATA. *)
Inductive send_op :=
  | OpInc (sz : Z)
  | OpDec (sz : Z)
  | OpSend (sz : Z).

Definition op_size (o : send_op) : Z :=
  match o with OpInc sz | OpDec sz | OpSend sz => sz end.

Definition credit_step (w : Z) (o : send_op) : outcome Reason Z :=
  match o with
  | OpInc sz => if w + sz <=? 2 ^ 31 - 1 then Ok (w + sz) else Err FLOW_CONTROL_ERROR
  | OpDec sz => Ok (w - sz)
  | OpSend sz => if sz <=? w then Ok (w - sz) else Panic
  end.

(** The same operations on the implementation. *)
Definition flow_step (f : FlowControl) (o : send_op) : outcome Reason FlowControl :=
  match o with
  | OpInc sz => FlowControl.inc_window f sz
  | OpDec sz => Ok (FlowControl.dec_send_window f sz)
  | OpSend sz => FlowControl.send_data f sz
  end.

Fixpoint run {S} (step : S -> send_op -> outcome Reason S) (s : S)
    (ops : list send_op) : outcome Reason S :=
  match ops with
  | [] => Ok s
  | o :: ops => s' ← step s o; run step s' ops
  end.

(** The credit stays representable: no run of SETTINGS lowers it below
    [-2^31]. *)
Fixpoint no_underflow (w : Z) (ops : list send_op) : Prop :=
  match ops with
  | [] => True
  | o :: ops =>
      match credit_step w o with
      | Ok w' => - 2 ^ 31 <= w' /\ no_underflow w' ops
      | _ => True
      end
  end.

Definition credit (f : FlowControl) : Z := window_i32 (window_size f).

Definition flow_wf (f : FlowControl) : Prop :=
  Window.wf (window_size f) /\ Window.wf (available f).

Lemma sub_assign_wf w sz : Window.wf (Window.sub_assign w sz).
Proof. apply wraps_range. lia. Qed.
Lemma add_assign_wf w sz : Window.wf (Window.add_assign w sz).
Proof. apply wraps_range. lia. Qed.
#[export] Hint Resolve sub_assign_wf add_assign_wf : kayrx.

Lemma sub_assign_exact w sz :
  Window.wf w -> 0 <= sz <= MAX_WINDOW_SIZE -> - 2 ^ 31 <= window_i32 w - sz ->
  window_i32 (Window.sub_assign w sz) = window_i32 w - sz.
Proof.
  unfold Window.wf, Window.sub_assign. intros. simpl.
  rewrite (Window.as_i32_size sz) by done.
  change MAX_WINDOW_SIZE with (2 ^ 31 - 1) in *. int_lia.
Qed.

(** Every operation keeps the fields within their [i32] type. *)
Lemma flow_step_wf f o f' : flow_wf f -> flow_step f o = Ok f' -> flow_wf f'.
Proof.
  intros [Hw Ha] Hs. destruct o; simpl in Hs.
  - unfold FlowControl.inc_window in Hs. case_bools.
    split; [|done]. apply wraps_range. lia.
  - case_bools. split; simpl; auto with kayrx.
  - unfold FlowControl.send_data, assert_ in Hs. case_bools.
    split; simpl; auto with kayrx.
Qed.

Lemma inc_window_exact f sz :
  flow_wf f -> 0 <= sz <= MAX_WINDOW_SIZE ->
  FlowControl.inc_window f sz =
    if credit f + sz <=? 2 ^ 31 - 1
    then Ok (MkFlowControl (MkWindow (credit f + sz)) (available f))
    else Err FLOW_CONTROL_ERROR.
Proof.
  intros [Hw _] Hsz. unfold FlowControl.inc_window, credit in *.
  rewrite (Window.as_i32_size sz) by done. unfold Window.wf in Hw.
  change MAX_WINDOW_SIZE with (2 ^ 31 - 1) in *.
  change (as_i32 (2 ^ 31 - 1)) with (2 ^ 31 - 1).
  set (v := window_i32 (window_size f) + sz) in *.
  destruct (Z.leb_spec v (2 ^ 31 - 1)).
  - replace (as_i32 v) with v by (subst v; int_lia).
    rewrite Z.eqb_refl. case_bools; [lia | done].
  - destruct (Z.eqb_spec (as_i32 v) v) as [E|]; [|done].
    exfalso. revert E. subst v. int_lia.
Qed.

(** One step of the implementation is one step of the accounting. *)
Lemma flow_step_credit f o :
  flow_wf f -> 0 <= op_size o <= MAX_WINDOW_SIZE ->
  no_underflow (credit f) [o] ->
  credit <$> flow_step f o = credit_step (credit f) o.
Proof.
  intros Hf Hsz Hu. pose proof Hf as [Hw _]. destruct o as [sz|sz|sz]; simpl in *.
  - rewrite inc_window_exact by done. case_bools; done.
  - unfold credit. f_equal. simpl. apply sub_assign_exact; naive_solver.
  - pose proof (Window.size_le_spec sz (window_size f) Hw ltac:(lia)) as Hle.
    unfold FlowControl.send_data, credit in *.
    destruct (Z.leb_spec sz (window_i32 (window_size f))) as [Hs|Hs].
    + rewrite (proj2 Hle Hs). simpl. unfold credit. simpl. f_equal.
      apply sub_assign_exact; naive_solver.
    + destruct (Window.size_le _ _); [|done]. naive_solver lia.
Qed.

(** C7. Send-window accounting.  For every sequence of WINDOW_UPDATE, SETTINGS and DATA
    operations with sizes up to [2^31 - 1] in which the SETTINGS never lower the credit
    below [-2^31] ([no_underflow]; beyond that the [i32] of the window wraps), the
    machine-width [FlowControl] computes exactly the unbounded credit of the protocol:
    the same value when it succeeds, FLOW_CONTROL_ERROR exactly when an increment
    exceeds [2^31 - 1], and the [send_data] panic exactly when data exceeds the
    credit. *)
Theorem flow_refines_credit f ops :
  flow_wf f ->
  Forall (fun o => 0 <= op_size o <= MAX_WINDOW_SIZE) ops ->
  no_underflow (credit f) ops ->
  credit <$> run flow_step f ops = run credit_step (credit f) ops.
Proof.
  intros Hf Hsz. revert f Hf. induction Hsz as [|o ops Ho _ IH]; intros f Hf Hu; [done|].
  assert (no_underflow (credit f) [o]) as Hu1 by (simpl in *; case_match; naive_solver).
  pose proof (flow_step_credit f o Hf Ho Hu1) as Hs. simpl in *.
  destruct (flow_step f o) as [f'| |] eqn:Ef; simpl in *; rewrite <- Hs in *; simpl; [|done..].
  apply IH; [by eapply flow_step_wf | apply Hu].
Qed.

Lemma flow_refines_credit_witness :
  credit <$> run flow_step FlowControl.new
    [OpInc 65535; OpSend 40000; OpDec 50000; OpInc 30000; OpSend 5000] = Ok 535.
Proof.
  rewrite (flow_refines_credit FlowControl.new); [reflexivity| | |].
  - split; vm_compute; split; congruence.
  - repeat constructor; vm_compute; congruence.
  - vm_compute. intuition congruence.
Defined.

Lemma unclaimed_capacity_exact f n :
  flow_wf f ->
  window_i32 (available f) - credit f <= MAX_WINDOW_SIZE ->
  FlowControl.unclaimed_capacity f = Some n ->
  0 < n /\ credit f <= 2 * n + 1 /\
  FlowControl.inc_window f n = Ok (MkFlowControl (available f) (available f)).
Proof.
  intros Hf Hd. pose proof Hf as [Hw Ha].
  unfold FlowControl.unclaimed_capacity, UNCLAIMED_DENOMINATOR, UNCLAIMED_NUMERATOR.
  unfold credit, Window.wf in *. change MAX_WINDOW_SIZE with (2 ^ 31 - 1) in *.
  intros Hn. case_bools.
  replace (as_u32 _) with (window_i32 (available f) - window_i32 (window_size f)) by int_lia.
  split; [lia|]. split; [int_lia|].
  rewrite inc_window_exact by (first [done | change MAX_WINDOW_SIZE with (2 ^ 31 - 1); lia]).
  unfold credit. destruct f as [[w] [a]]; simpl in *.
  replace (w + (a - w)) with a by lia.
  case_bools; [done | int_lia].
Qed.

(** WINDOW_UPDATE replenishment.  When [unclaimed_capacity] proposes an
    increment it is positive, at least half of a positive current window,
    and applying it with [inc_window] succeeds and makes the window known to
    the peer equal to the available one. *)
Theorem unclaimed_capacity_replenishes f n :
  flow_wf f ->
  window_i32 (available f) - credit f <= MAX_WINDOW_SIZE ->
  FlowControl.unclaimed_capacity f = Some n ->
  0 < n /\ credit f <= 2 * n + 1 /\
  FlowControl.inc_window f n = Ok (MkFlowControl (available f) (available f)).
Proof. apply unclaimed_capacity_exact. Qed.

Lemma unclaimed_capacity_replenishes_witness :
  FlowControl.inc_window (MkFlowControl (MkWindow 40000) (MkWindow 65535)) 25535 =
    Ok (MkFlowControl (MkWindow 65535) (MkWindow 65535)).
Proof.
  apply (unclaimed_capacity_replenishes
           (MkFlowControl (MkWindow 40000) (MkWindow 65535)) 25535).
  - split; vm_compute; split; congruence.
  - vm_compute. congruence.
  - reflexivity.
Defined.
