(* ===== verification/StreamState.v ===== *)
(** * The HTTP/2 stream state machine

    [http/h2/proto/streams/state.rs]: the state of one stream, the transitions
    made when frames are sent and received, and the queries the rest of the
    protocol layer makes.  A method that returns [Err] leaves the state as it
    was, so a transition returns the new state only in the [Ok] case. *)

From S2P Require Import Prelude H2Types.

(** [http/h2/proto/streams/state.rs] Peer *)
Inductive Peer := AwaitingHeaders | Streaming.

(** [http/h2/proto/streams/state.rs] Cause *)
Inductive Cause :=
  | EndStream
  | CauseProto (reason : Reason)
  | LocallyReset (reason : Reason)
  | CauseIo
  | Scheduled (reason : Reason).

(** [http/h2/proto/streams/state.rs] Inner *)
Inductive Inner :=
  | Idle
  | ReservedLocal
  | ReservedRemote
  | Open (local remote : Peer)
  | HalfClosedLocal (p : Peer)
  | HalfClosedRemote (p : Peer)
  | Closed (c : Cause).

(** [http/h2/proto/streams/state.rs] State *)
Record State := MkState { inner : Inner }.

#[export] Instance Peer_eq_dec : EqDecision Peer.
Proof. solve_decision. Defined.
#[export] Instance Cause_eq_dec : EqDecision Cause.
Proof. solve_decision. Defined.
#[export] Instance Inner_eq_dec : EqDecision Inner.
Proof. solve_decision. Defined.
#[export] Instance State_eq_dec : EqDecision State.
Proof. solve_decision. Defined.

(** [http/h2/proto/streams/send.rs] PollReset *)
Inductive PollReset := PollAwaitingHeaders | PollStreaming.

(** The [h2::Error] values built by [ensure_reason]. *)
Inductive H2Error :=
  | H2User (e : UserError)
  | H2Proto (e : ProtoError).

Module State.

(** [http/h2/proto/streams/state.rs] State as Default::default *)
Definition default : State := MkState Idle.

(** [http/h2/proto/streams/state.rs] State::send_open *)
Definition send_open (s : State) (eos : bool) : outcome UserError State :=
  let local := Streaming in
  MkState <$>
  match inner s with
  | Idle =>
      Ok (if eos then HalfClosedLocal AwaitingHeaders
          else Open local AwaitingHeaders)
  | Open AwaitingHeaders remote =>
      Ok (if eos then HalfClosedLocal remote else Open local remote)
  | HalfClosedRemote AwaitingHeaders | ReservedLocal =>
      Ok (if eos then Closed EndStream else HalfClosedRemote local)
  | _ => Err UnexpectedFrameType
  end.

(** [http/h2/proto/streams/state.rs] State::recv_open *)
Definition recv_open (s : State) (eos : bool) : outcome RecvError (State * bool) :=
  let remote := Streaming in
  match inner s with
  | Idle =>
      Ok (MkState (if eos then HalfClosedRemote AwaitingHeaders
                   else Open AwaitingHeaders remote), true)
  | ReservedRemote =>
      Ok (MkState (if eos then Closed EndStream else HalfClosedLocal Streaming), true)
  | Open local AwaitingHeaders =>
      Ok (MkState (if eos then HalfClosedRemote local else Open local remote), false)
  | HalfClosedLocal AwaitingHeaders =>
      Ok (MkState (if eos then Closed EndStream else HalfClosedLocal remote), false)
  | _ => Err (RecvConnection PROTOCOL_ERROR)
  end.

(** [http/h2/proto/streams/state.rs] State::reserve_remote *)
Definition reserve_remote (s : State) : outcome RecvError State :=
  match inner s with
  | Idle => Ok (MkState ReservedRemote)
  | _ => Err (RecvConnection PROTOCOL_ERROR)
  end.

(** [http/h2/proto/streams/state.rs] State::reserve_local *)
Definition reserve_local (s : State) : outcome UserError State :=
  match inner s with
  | Idle => Ok (MkState ReservedLocal)
  | _ => Err UnexpectedFrameType
  end.

(** [http/h2/proto/streams/state.rs] State::recv_close *)
Definition recv_close (s : State) : outcome RecvError State :=
  match inner s with
  | Open local _ => Ok (MkState (HalfClosedRemote local))
  | HalfClosedLocal _ => Ok (MkState (Closed EndStream))
  | _ => Err (RecvConnection PROTOCOL_ERROR)
  end.

(** [http/h2/proto/streams/state.rs] State::recv_reset *)
Definition recv_reset (s : State) (reason : Reason) (queued : bool) : State :=
  match inner s, queued with
  | Closed _, false => s
  | _, _ => MkState (Closed (CauseProto reason))
  end.

(** [http/h2/proto/streams/state.rs] State::recv_err *)
Definition recv_err (s : State) (err : ProtoError) : State :=
  match inner s with
  | Closed _ => s
  | _ => MkState (Closed (match err with
                          | Proto reason => LocallyReset reason
                          | Io _ => CauseIo
                          end))
  end.

(** [http/h2/proto/streams/state.rs] State::recv_eof *)
Definition recv_eof (s : State) : State :=
  match inner s with
  | Closed _ => s
  | _ => MkState (Closed CauseIo)
  end.

(** [http/h2/proto/streams/state.rs] State::send_close *)
Definition send_close {E} (s : State) : outcome E State :=
  match inner s with
  | Open _ remote => Ok (MkState (HalfClosedLocal remote))
  | HalfClosedRemote _ => Ok (MkState (Closed EndStream))
  | _ => Panic
  end.

(** [http/h2/proto/streams/state.rs] State::set_reset *)
Definition set_reset (s : State) (reason : Reason) : State :=
  MkState (Closed (LocallyReset reason)).

(** [http/h2/proto/streams/state.rs] State::set_scheduled_reset *)
Definition set_scheduled_reset (s : State) (reason : Reason) : State :=
  MkState (Closed (Scheduled reason)).

(** [http/h2/proto/streams/state.rs] State::get_scheduled_reset *)
Definition get_scheduled_reset (s : State) : option Reason :=
  match inner s with Closed (Scheduled reason) => Some reason | _ => None end.

(** [http/h2/proto/streams/state.rs] State::is_scheduled_reset *)
Definition is_scheduled_reset (s : State) : bool :=
  match inner s with Closed (Scheduled _) => true | _ => false end.

(** [http/h2/proto/streams/state.rs] State::is_local_reset *)
Definition is_local_reset (s : State) : bool :=
  match inner s with
  | Closed (LocallyReset _) => true
  | Closed (Scheduled _) => true
  | _ => false
  end.

(** [http/h2/proto/streams/state.rs] State::is_reset *)
Definition is_reset (s : State) : bool :=
  match inner s with
  | Closed EndStream => false
  | Closed _ => true
  | _ => false
  end.

(** [http/h2/proto/streams/state.rs] State::is_send_streaming *)
Definition is_send_streaming (s : State) : bool :=
  match inner s with
  | Open Streaming _ => true
  | HalfClosedRemote Streaming => true
  | _ => false
  end.

(** [http/h2/proto/streams/state.rs] State::is_recv_headers *)
Definition is_recv_headers (s : State) : bool :=
  match inner s with
  | Idle => true
  | Open _ AwaitingHeaders => true
  | HalfClosedLocal AwaitingHeaders => true
  | ReservedRemote => true
  | _ => false
  end.

(** [http/h2/proto/streams/state.rs] State::is_recv_streaming *)
Definition is_recv_streaming (s : State) : bool :=
  match inner s with
  | Open _ Streaming => true
  | HalfClosedLocal Streaming => true
  | _ => false
  end.

(** [http/h2/proto/streams/state.rs] State::is_closed *)
Definition is_closed (s : State) : bool :=
  match inner s with Closed _ => true | _ => false end.

(** [http/h2/proto/streams/state.rs] State::is_recv_closed *)
Definition is_recv_closed (s : State) : bool :=
  match inner s with
  | Closed _ | HalfClosedRemote _ | ReservedLocal => true
  | _ => false
  end.

(** [http/h2/proto/streams/state.rs] State::is_send_closed *)
Definition is_send_closed (s : State) : bool :=
  match inner s with
  | Closed _ | HalfClosedLocal _ | ReservedRemote => true
  | _ => false
  end.

(** [http/h2/proto/streams/state.rs] State::is_idle *)
Definition is_idle (s : State) : bool :=
  match inner s with Idle => true | _ => false end.

(** [http/h2/proto/streams/state.rs] State::ensure_recv_open *)
Definition ensure_recv_open (s : State) : outcome ProtoError bool :=
  match inner s with
  | Closed (CauseProto reason)
  | Closed (LocallyReset reason)
  | Closed (Scheduled reason) => Err (Proto reason)
  | Closed CauseIo => Err (Io BrokenPipe)
  | Closed EndStream | HalfClosedRemote _ | ReservedLocal => Ok false
  | _ => Ok true
  end.

(** [http/h2/proto/streams/state.rs] State::ensure_reason *)
Definition ensure_reason (s : State) (mode : PollReset) :
    outcome H2Error (option Reason) :=
  match inner s with
  | Closed (CauseProto reason)
  | Closed (LocallyReset reason)
  | Closed (Scheduled reason) => Ok (Some reason)
  | Closed CauseIo => Err (H2Proto (Io BrokenPipe))
  | Open Streaming _ | HalfClosedRemote Streaming =>
      match mode with
      | PollAwaitingHeaders => Err (H2User PollResetAfterSendResponse)
      | PollStreaming => Ok None
      end
  | _ => Ok None
  end.

End State.

(** ** Events

    Every transition the protocol layer applies to a stream, as one step
    function; [None] is a rejected frame ([Err]) or the [send_close] panic. *)
Inductive event :=
  | SendHeaders (eos : bool)
  | RecvHeaders (eos : bool)
  | SendPushPromise
  | RecvPushPromise
  | SendEndStream
  | RecvEndStream
  | RecvReset (reason : Reason) (queued : bool)
  | SendReset (reason : Reason)
  | ScheduleReset (reason : Reason)
  | RecvError_ (err : ProtoError)
  | RecvEof.

Definition of_outcome {E A} (o : outcome E A) : option A :=
  match o with Ok a => Some a | _ => None end.

Definition step (s : State) (e : event) : option State :=
  match e with
  | SendHeaders eos => of_outcome (State.send_open s eos)
  | RecvHeaders eos => fst <$> of_outcome (State.recv_open s eos)
  | SendPushPromise => of_outcome (State.reserve_local s)
  | RecvPushPromise => of_outcome (State.reserve_remote s)
  | SendEndStream => of_outcome (State.send_close (E := Empty_set) s)
  | RecvEndStream => of_outcome (State.recv_close s)
  | RecvReset reason queued => Some (State.recv_reset s reason queued)
  | SendReset reason => Some (State.set_reset s reason)
  | ScheduleReset reason => Some (State.set_scheduled_reset s reason)
  | RecvError_ err => Some (State.recv_err s err)
  | RecvEof => Some (State.recv_eof s)
  end.

(** A stream's life: the events that were accepted, in order. *)
Inductive steps : State -> list event -> State -> Prop :=
  | steps_nil s : steps s [] s
  | steps_cons s e s' es s'' :
      step s e = Some s' -> steps s' es s'' -> steps s (e :: es) s''.

(** ** RFC 7540

    The diagram of section 5.1 (the doc comment of [State]) with the message exchange of
    section 8.1 spelled out: a half of a stream first owes its HEADERS, then it may send
    data, and END_STREAM ends it.  [rfc_step] lists the frames that a stream allows and
    no others; RST_STREAM is not allowed on an idle stream and has no edge from a closed
    one. *)
Inductive half := Owes | Sending | Ended.

Inductive rfc_state :=
  | rfc_idle
  | rfc_reserved_local
  | rfc_reserved_remote
  | rfc_active (local remote : half)
  | rfc_closed.

(** Open, half closed on either side, or closed when both halves have ended. *)
Definition rfc_open (local remote : half) : rfc_state :=
  match local, remote with
  | Ended, Ended => rfc_closed
  | _, _ => rfc_active local remote
  end.

Definition after_headers (eos : bool) : half := if eos then Ended else Sending.

Definition rfc_step (r : rfc_state) (e : event) : option rfc_state :=
  match e, r with
  | SendPushPromise, rfc_idle => Some rfc_reserved_local
  | RecvPushPromise, rfc_idle => Some rfc_reserved_remote
  | SendHeaders eos, rfc_idle => Some (rfc_open (after_headers eos) Owes)
  | SendHeaders eos, rfc_reserved_local => Some (rfc_open (after_headers eos) Ended)
  | SendHeaders eos, rfc_active Owes remote => Some (rfc_open (after_headers eos) remote)
  | RecvHeaders eos, rfc_idle => Some (rfc_open Owes (after_headers eos))
  | RecvHeaders eos, rfc_reserved_remote => Some (rfc_open Ended (after_headers eos))
  | RecvHeaders eos, rfc_active local Owes => Some (rfc_open local (after_headers eos))
  | SendEndStream, rfc_active Sending remote => Some (rfc_open Ended remote)
  | RecvEndStream, rfc_active local Sending => Some (rfc_open local Ended)
  | (RecvReset _ _ | SendReset _ | ScheduleReset _),
    (rfc_reserved_local | rfc_reserved_remote | rfc_active _ _) => Some rfc_closed
  | _, _ => None
  end.

Definition half_of (p : Peer) : half :=
  match p with AwaitingHeaders => Owes | Streaming => Sending end.

Definition rfc_of (s : State) : rfc_state :=
  match inner s with
  | Idle => rfc_idle
  | ReservedLocal => rfc_reserved_local
  | ReservedRemote => rfc_reserved_remote
  | Open local remote => rfc_active (half_of local) (half_of remote)
  | HalfClosedLocal remote => rfc_active Ended (half_of remote)
  | HalfClosedRemote local => rfc_active (half_of local) Ended
  | Closed _ => rfc_closed
  end.

(** What the callers of [State] check themselves: an idle stream is not reset
    ([ensure_not_idle]), and a half that still owes its HEADERS is not ended
    ([is_send_streaming], [is_recv_streaming]).  Resets of closed streams and the loss of
    the connection, for which the diagram has no edges, are left out. *)
Definition checked (s : State) (e : event) : bool :=
  match e with
  | RecvReset _ _ | SendReset _ | ScheduleReset _ => negb (State.is_idle s) && negb (State.is_closed s)
  | SendEndStream => State.is_send_streaming s || State.is_send_closed s
  | RecvEndStream => State.is_recv_streaming s || State.is_recv_closed s
  | RecvError_ _ | RecvEof => false
  | _ => true
  end.

#[export] Hint Constructors steps : kayrx.

(** Case analysis of one step: the state, the event, then the guards. *)
Ltac step_cases s e :=
  destruct s as [[| | |[] []|[]|[]|[]]]; destruct e as [[]|[]| | | | |? []| | |[]|];
  simpl in *; simplify_eq/=.



(** Which frames are accepted: HEADERS may be sent exactly while the
    local half is neither streaming nor closed, and received exactly in the
    states [is_recv_headers] names; [initial] is reported exactly for the
    stream-opening HEADERS; every other state answers with the documented
    error. *)
Theorem open_accepts s eos :
  ((exists s', State.send_open s eos = Ok s') <->
   State.is_send_closed s || State.is_send_streaming s = false) /\
  ((exists r, State.recv_open s eos = Ok r) <-> State.is_recv_headers s = true) /\
  (forall s' initial, State.recv_open s eos = Ok (s', initial) ->
   initial = true <-> inner s = Idle \/ inner s = ReservedRemote) /\
  (forall e, State.send_open s eos = Err e -> e = UnexpectedFrameType) /\
  (forall e, State.recv_open s eos = Err e -> e = RecvConnection PROTOCOL_ERROR).
Proof.
  destruct s as [[| | |[] []|[]|[]|[]]], eos; vm_compute; naive_solver.
Qed.

(** What has been fixed about the two halves of a stream. *)
Definition send_opened (s : State) : bool :=
  State.is_send_closed s || State.is_send_streaming s.
Definition recv_opened (s : State) : bool :=
  State.is_recv_closed s || State.is_recv_streaming s.

Lemma step_monotone s e s' :
  step s e = Some s' ->
  (State.is_closed s = true -> State.is_closed s' = true) /\
  (State.is_send_closed s = true -> State.is_send_closed s' = true) /\
  (State.is_recv_closed s = true -> State.is_recv_closed s' = true) /\
  (send_opened s = true -> send_opened s' = true) /\
  (recv_opened s = true -> recv_opened s' = true).
Proof. intros Hs. step_cases s e; done. Qed.

(** A closed half never reopens: along any sequence of accepted events a
    closed stream stays closed and each half-closed direction stays closed. *)
Theorem steps_never_reopen s es s' :
  steps s es s' ->
  (State.is_closed s = true -> State.is_closed s' = true) /\
  (State.is_send_closed s = true -> State.is_send_closed s' = true) /\
  (State.is_recv_closed s = true -> State.is_recv_closed s' = true).
Proof.
  induction 1 as [|s e s1 es s' Hs _ IH]; [done|].
  pose proof (step_monotone _ _ _ Hs). naive_solver.
Qed.

Lemma steps_never_reopen_witness :
  State.is_send_closed (MkState (Closed CauseIo)) = true.
Proof.
  refine (proj1 (proj2 (steps_never_reopen (MkState (HalfClosedLocal AwaitingHeaders))
           [RecvHeaders false; RecvEof] (MkState (Closed CauseIo)) _)) eq_refl).
  eapply steps_cons; [reflexivity|]. eapply steps_cons; [reflexivity|]. constructor.
Defined.

Definition is_send_headers (e : event) : bool :=
  match e with SendHeaders _ => true | _ => false end.
Definition is_recv_headers_event (e : event) : bool :=
  match e with RecvHeaders _ => true | _ => false end.
Definition count (f : event -> bool) (es : list event) : nat :=
  length (filter (fun e => f e = true) es).

Lemma step_headers s e s' :
  step s e = Some s' ->
  (is_send_headers e = true -> send_opened s = false /\ send_opened s' = true) /\
  (is_recv_headers_event e = true -> recv_opened s = false /\ recv_opened s' = true).
Proof. intros Hs. step_cases s e; done. Qed.

(** At most one opening, and none once the half is open: the shape shared by
    the two directions. *)
Lemma at_most_once (f : event -> bool) (opened : State -> bool) s es s' :
  (forall s e s', step s e = Some s' -> opened s = true -> opened s' = true) ->
  (forall s e s', step s e = Some s' -> f e = true ->
     opened s = false /\ opened s' = true) ->
  steps s es s' -> (count f es <= if opened s then 0 else 1)%nat.
Proof.
  intros Hmono Hopen. induction 1 as [|s e s1 es s' Hs _ IH].
  { unfold count. simpl. case_match; lia. }
  unfold count in *. specialize (Hmono _ _ _ Hs). specialize (Hopen _ _ _ Hs).
  destruct (f e) eqn:Ef.
  - destruct (Hopen eq_refl) as [E E1]. rewrite filter_cons_True by done.
    rewrite E, E1 in *. simpl. lia.
  - rewrite filter_cons_False by congruence.
    destruct (opened s); [rewrite Hmono in IH by done; lia|].
    destruct (opened s1); lia.
Qed.

(** A stream's initial HEADERS are accepted at most once in each
    direction over its whole life. *)
Theorem headers_at_most_once es s' :
  steps State.default es s' ->
  (count is_send_headers es <= 1)%nat /\ (count is_recv_headers_event es <= 1)%nat.
Proof.
  intros H; split.
  - apply (at_most_once is_send_headers send_opened) in H; [exact H| |].
    + intros s e s1 Hs. apply (step_monotone _ _ _ Hs).
    + intros s e s1 Hs. apply (step_headers _ _ _ Hs).
  - apply (at_most_once is_recv_headers_event recv_opened) in H; [exact H| |].
    + intros s e s1 Hs. apply (step_monotone _ _ _ Hs).
    + intros s e s1 Hs. apply (step_headers _ _ _ Hs).
Qed.

Lemma headers_at_most_once_witness :
  (count is_recv_headers_event
     [RecvHeaders false; SendHeaders false; RecvEndStream; SendEndStream] <= 1)%nat.
Proof.
  apply (headers_at_most_once
           [RecvHeaders false; SendHeaders false; RecvEndStream; SendEndStream]
           (MkState (Closed EndStream))).
  repeat (eapply steps_cons; [reflexivity|]). constructor.
Defined.
