(* ===== verification/HuffmanCorrect.v ===== *)
(** * Correctness of the Huffman coder

    The reference is the code table read as bit strings: [code b] is the code
    of byte [b] and [codes s] the concatenation for a string.  The facts about
    the two tables are decided by evaluation; everything else is by induction
    on the strings. *)

From S2P Require Import Prelude Bytes Huffman.

Definition code_table : list (list bool) :=
  Eval vm_compute in (fun '(nbits, c) => zbits (Z.to_nat nbits) c) <$> ENCODE_TABLE.

Definition code (b : Z) : list bool := code_table !!! Z.to_nat b.

Definition codes (s : list Z) : list bool := s ≫= code.

Definition all_bytes : list Z := seqZ 0 256.

Lemma all_bytes_spec b : is_u8 b -> b ∈ all_bytes.
Proof. intros H. apply elem_of_seqZ. unfold in_u in H. lia. Qed.

(** Decide a statement about every byte by evaluation. *)
Lemma check_bytes (f : Z -> bool) :
  forallb f all_bytes = true -> forall b, is_u8 b -> f b = true.
Proof.
  intros H b Hb. rewrite forallb_forall in H. apply H.
  apply list_elem_of_In, all_bytes_spec, Hb.
Qed.

(** ** The decoder's states are the inner nodes of the code tree

    [path q] is the bit string that leads from the root to state [q],
    recovered from the table by following its transitions from state 0. *)

Definition nibbles : list Z := seqZ 0 16.

Definition visit (paths : list (option (list bool))) (q : nat) :
    list (option (list bool)) :=
  match paths !! q, DECODE_TABLE !! q with
  | Some (Some w), Some row =>
      foldl (fun paths n =>
        match row !! Z.to_nat n with
        | Some (next, byte, flags) =>
            if Z.land flags ERROR =? ERROR then paths
            else
              let w' := w ++ zbits 4 n in
              let w'' := if Z.land flags DECODED =? DECODED
                         then drop (length (code byte)) w' else w' in
              match paths !! Z.to_nat next with
              | Some None => <[Z.to_nat next := Some w'']> paths
              | _ => paths
              end
        | None => paths
        end) paths nibbles
  | _, _ => paths
  end.

Definition visit_all (paths : list (option (list bool))) :=
  foldl visit paths (seq 0 256).

Definition path_table : list (list bool) :=
  Eval vm_compute in
    default [] <$>
      Nat.iter 8 visit_all (<[0%nat := Some []]> (replicate 256 None)).

Definition path (q : Z) : list bool := path_table !!! Z.to_nat q.

Definition ones : list bool := replicate 30 true.

Arguments ones : simpl never.
Arguments path : simpl never.
Arguments code : simpl never.

Definition bits_eqb (a b : list bool) : bool := bool_decide (a = b).

Fixpoint prefixb (a b : list bool) : bool :=
  match a, b with
  | [], _ => true
  | x :: a, y :: b => Bool.eqb x y && prefixb a b
  | _, _ => false
  end.

Lemma prefixb_spec a b : prefixb a b = true <-> exists k, b = a ++ k.
Proof.
  revert b. induction a as [|x a IH]; intros [|y b]; simpl.
  1-2: naive_solver. { split; [done | intros [? ?]; done]. }
  rewrite andb_true_iff, IH, Bool.eqb_true_iff.
  split; [intros [-> [k ->]]; by exists k | intros [k ?]; naive_solver].
Qed.

(** Two prefixes of one string are comparable. *)
Lemma prefixb_comparable a b x y :
  a ++ x = b ++ y -> prefixb a b = true \/ prefixb b a = true.
Proof.
  revert b. induction a as [|u a IH]; intros [|v b] E; simpl; eauto.
  injection E as -> E. destruct (IH _ E) as [-> | ->]; destruct v; auto.
Qed.

Arguments prefixb : simpl never.

(** What one transition does, in terms of paths. *)
Definition transition_ok (q n : Z) : bool :=
  match DECODE_TABLE !! Z.to_nat q ≫= fun row => row !! Z.to_nat n with
  | Some (next, byte, flags) =>
      let w := path q ++ zbits 4 n in
      if Z.land flags ERROR =? ERROR then prefixb ones w
      else
        (0 <=? next) && (next <? 256) &&
        (if Z.land flags DECODED =? DECODED
         then (0 <=? byte) && (byte <? 256) && bits_eqb w (code byte ++ path next)
         else bits_eqb w (path next)) &&
        Bool.eqb ((next =? 0) || (Z.land flags MAYBE_EOS =? MAYBE_EOS))
                 (prefixb (path next) (take 7 ones))
  | None => false
  end.

Lemma transitions_check :
  forallb (fun q => forallb (transition_ok q) nibbles) all_bytes = true.
Proof. vm_compute. reflexivity. Qed.

(** No code is a prefix of a state's path, of another code or of the all-ones
    padding and EOS strings. *)
Definition code_ok (b : Z) : bool :=
  forallb (fun q => negb (prefixb (code b) (path q))) all_bytes &&
  forallb (fun b' => (b =? b') || negb (prefixb (code b) (code b'))) all_bytes &&
  negb (prefixb (code b) ones) && negb (prefixb ones (code b)).

Lemma codes_check : forallb code_ok all_bytes = true.
Proof. vm_compute. reflexivity. Qed.

Lemma ones_split k :
  (k <= 30)%nat -> ones = replicate k true ++ replicate (30 - k) true.
Proof. intros. unfold ones. rewrite <- replicate_add. f_equal. lia. Qed.

#[local] Opaque ones.

(** ** Unique decoding *)

Definition no_code (w : list bool) : Prop :=
  forall b, is_u8 b -> prefixb (code b) w = false.

Lemma code_ok_all b : is_u8 b -> code_ok b = true.
Proof. apply check_bytes, codes_check. Qed.

Lemma no_code_path q : is_u8 q -> no_code (path q).
Proof.
  intros Hq b Hb. pose proof (code_ok_all b Hb) as Hc. unfold code_ok in Hc.
  apply andb_prop in Hc as [[[H _]%andb_prop _]%andb_prop _].
  rewrite forallb_forall in H. specialize (H q).
  rewrite negb_true_iff in H. apply H, list_elem_of_In, all_bytes_spec, Hq.
Qed.

Lemma code_prefix_free b b' :
  is_u8 b -> is_u8 b' -> prefixb (code b) (code b') = true -> b = b'.
Proof.
  intros Hb Hb' Hp. pose proof (code_ok_all b Hb) as Hc. unfold code_ok in Hc.
  apply andb_prop in Hc as [[[_ H]%andb_prop _]%andb_prop _].
  rewrite forallb_forall in H. specialize (H b').
  rewrite Hp, orb_false_r, Z.eqb_eq in H.
  apply H, list_elem_of_In, all_bytes_spec, Hb'.
Qed.

Lemma no_code_ones k : no_code (ones ++ k).
Proof.
  intros b Hb. pose proof (code_ok_all b Hb) as H. unfold code_ok in H. reflect_bools.
  apply not_true_is_false. intros [r Hr]%prefixb_spec.
  destruct (prefixb_comparable _ _ _ _ Hr); congruence.
Qed.

Lemma no_code_padding k : (k <= 30)%nat -> no_code (replicate k true).
Proof.
  intros Hk b Hb. apply not_true_is_false. intros [r Hr]%prefixb_spec.
  pose proof (no_code_ones [] b Hb) as H. apply not_true_iff_false in H. apply H.
  apply prefixb_spec. exists (r ++ replicate (30 - k) true).
  rewrite app_assoc, <- Hr, app_nil_r. by apply ones_split.
Qed.

Lemma codes_cons b s : codes (b :: s) = code b ++ codes s.
Proof. done. Qed.
Lemma codes_app s1 s2 : codes (s1 ++ s2) = codes s1 ++ codes s2.
Proof. apply bind_app. Qed.

Lemma codes_unique s s' x x' :
  is_bytes s -> is_bytes s' -> no_code x -> no_code x' ->
  codes s ++ x = codes s' ++ x' -> s = s' /\ x = x'.
Proof.
  revert s'. induction s as [|b s IH]; intros [|b' s'] Hs Hs' Hx Hx' E.
  - done.
  - apply is_bytes_cons in Hs' as [Hb' _]. exfalso.
    specialize (Hx b' Hb'). apply not_true_iff_false in Hx. apply Hx, prefixb_spec.
    rewrite codes_cons, <- app_assoc in E. by eexists.
  - apply is_bytes_cons in Hs as [Hb _]. exfalso.
    specialize (Hx' b Hb). apply not_true_iff_false in Hx'. apply Hx', prefixb_spec.
    rewrite codes_cons, <- app_assoc in E. by eexists.
  - apply is_bytes_cons in Hs as [Hb Hs], Hs' as [Hb' Hs'].
    rewrite !codes_cons, <- !app_assoc in E.
    assert (b = b') as <-.
    { destruct (prefixb_comparable _ _ _ _ E); [|symmetry]; by apply code_prefix_free. }
    apply app_inv_head in E. destruct (IH s' Hs Hs' Hx Hx' E). by subst.
Qed.

(** ** The decoder *)

Definition decoder_wf (d : Decoder) : Prop :=
  is_u8 (state d) /\
  Decoder.is_final d = prefixb (path (state d)) (take 7 ones).

Definition opt_list (o : option Z) : list Z :=
  match o with Some b => [b] | None => [] end.

Lemma nibble_in n : 0 <= n < 16 -> n ∈ nibbles.
Proof. intros H. apply elem_of_seqZ. lia. Qed.

Lemma decode4_spec d n :
  is_u8 (state d) -> 0 <= n < 16 ->
  match Decoder.decode4 d n with
  | Ok (d', o) =>
      decoder_wf d' /\ is_bytes (opt_list o) /\
      path (state d) ++ zbits 4 n = codes (opt_list o) ++ path (state d')
  | Err e =>
      e = InvalidHuffmanCode /\ exists k, path (state d) ++ zbits 4 n = ones ++ k
  | Panic => False
  end.
Proof.
  intros Hq Hn.
  pose proof (check_bytes _ transitions_check _ Hq) as H. cbv beta in H.
  rewrite forallb_forall in H. specialize (H n).
  rewrite <- list_elem_of_In in H. specialize (H (nibble_in _ Hn)).
  unfold transition_ok in H. unfold Decoder.decode4.
  destruct (DECODE_TABLE !! _) as [row|]; simpl in *; [|done].
  destruct (row !! _) as [[[next byte] flags]|]; simpl in *; [|done].
  case_match; [split; [done|]; by apply prefixb_spec|].
  reflect_bools. unfold bits_eqb in *.
  split; [split; [unfold in_u; simpl; lia | by apply Bool.eqb_true_iff]|].
  case_match; reflect_bools; rewrite ?bool_decide_eq_true in *; simpl.
  - split; [repeat constructor; lia|]. rewrite app_nil_r. done.
  - split; [constructor | done].
Qed.

Section Decode.
Context `{BM : BytesMut B}.

Lemma put_opt_spec (buf : B) o :
  1 <= remaining_mut buf ->
  buf_bytes (put_opt buf o) = buf_bytes buf ++ opt_list o /\
  remaining_mut buf - 1 <= remaining_mut (put_opt buf o).
Proof.
  intros H. destruct o as [b|]; simpl; [|rewrite app_nil_r; split; [done | lia]].
  unfold put_u8. rewrite put_slice_bytes, put_slice_remaining by (unfold len; simpl; lia).
  unfold len. simpl. split; [done | lia].
Qed.

(** Reading a run of bytes: the bits consumed are the codes of the output
    followed by the path to the current state; the only error is an EOS code
    inside the data. *)
Lemma decode_loop_spec src : forall d (buf : B),
  decoder_wf d -> is_bytes src -> 2 * len src <= remaining_mut buf ->
  match decode_loop d src buf with
  | (buf', Ok d') =>
      decoder_wf d' /\ exists s, is_bytes s /\
      buf_bytes buf' = buf_bytes buf ++ s /\
      path (state d) ++ bits_of src = codes s ++ path (state d')
  | (_, Err e) =>
      e = InvalidHuffmanCode /\ exists s k, is_bytes s /\
      path (state d) ++ bits_of src = codes s ++ ones ++ k
  | (_, Panic) => False
  end.
Proof.
  induction src as [|b src IH]; intros d buf Hd Hsrc Hroom; cbn [decode_loop].
  { split; [done|]. exists []. split; [constructor|]. by rewrite !app_nil_r. }
  apply is_bytes_cons in Hsrc as [Hb Hsrc]. rewrite len_cons in Hroom.
  pose proof (len_nonneg src) as Hlen.
  rewrite bits_of_cons, zbits_nibbles, <- app_assoc, app_assoc by done.
  assert (0 <= Z.shiftr b 4 < 16 /\ 0 <= Z.land b 15 < 16) as [Hn1 Hn2].
  { rewrite Z.shiftr_div_pow2 by lia. change 15 with (Z.ones 4).
    rewrite Z.land_ones by lia. revert Hb. int_lia. }
  pose proof (decode4_spec d (Z.shiftr b 4) (proj1 Hd) Hn1) as H1.
  destruct (Decoder.decode4 d _) as [[d1 o1]| |]; [|destruct H1 as [-> [k ->]]|done].
  2: { split; [done|]. exists [], (k ++ zbits 4 (Z.land b 15) ++ bits_of src).
       split; [constructor|]. simpl. by rewrite app_assoc. }
  destruct H1 as (Hd1 & Ho1 & ->).
  destruct (put_opt_spec buf o1) as [Eb1 Hr1]; [lia|].
  pose proof (decode4_spec d1 (Z.land b 15) (proj1 Hd1) Hn2) as H2.
  rewrite <- app_assoc, (app_assoc (path _)).
  destruct (Decoder.decode4 d1 _) as [[d2 o2]| |]; [|destruct H2 as [-> [k ->]]|done].
  2: { split; [done|]. exists (opt_list o1), (k ++ bits_of src).
       split; [done|]. by rewrite !app_assoc. }
  destruct H2 as (Hd2 & Ho2 & ->).
  destruct (put_opt_spec (put_opt buf o1) o2) as [Eb2 Hr2]; [lia|].
  assert (2 * len src <= remaining_mut (put_opt (put_opt buf o1) o2)) as Hr by lia.
  specialize (IH d2 _ Hd2 Hsrc Hr).
  rewrite <- app_assoc.
  destruct (decode_loop d2 src _) as [buf' [d'| |]]; [| |done].
  - destruct IH as (Hd' & s & Hs & Eb & Ep). split; [done|].
    exists (opt_list o1 ++ opt_list o2 ++ s).
    rewrite !is_bytes_app, Eb, Eb2, Eb1, !codes_app, Ep, <- !app_assoc. done.
  - destruct IH as (-> & s & k & Hs & Ep). split; [done|].
    exists (opt_list o1 ++ opt_list o2 ++ s), k.
    rewrite !is_bytes_app, !codes_app, Ep, <- !app_assoc. done.
Qed.

Lemma new_wf : decoder_wf Decoder.new.
Proof. split; [vm_compute; split; congruence | vm_compute; reflexivity]. Qed.

Lemma path_new : path (state Decoder.new) = [].
Proof. vm_compute. reflexivity. Qed.

Lemma final_padding d :
  decoder_wf d ->
  Decoder.is_final d = true <->
  exists k, (k < 8)%nat /\ path (state d) = replicate k true.
Proof.
  intros [_ ->]. assert (take 7 ones = replicate 7 true) as ->.
  { rewrite (ones_split 7) by lia. apply take_app_length'. by rewrite length_replicate. }
  rewrite prefixb_spec. split.
  - intros [r Hr]. exists (length (path (state d)) `min` 7)%nat. split; [lia|].
    by rewrite <- take_replicate, Hr, take_app_length.
  - intros (k & Hk & ->). exists (replicate (7 - k) true).
    rewrite <- replicate_add. f_equal. lia.
Qed.

(** Never a panic, and the only error is [InvalidHuffmanCode]. *)
Lemma decode_total src (buf : B) :
  is_bytes src -> 2 * len src <= remaining_mut buf ->
  (exists r, (decode src buf).2 = Ok r) \/ (decode src buf).2 = Err InvalidHuffmanCode.
Proof.
  intros Hsrc Hroom. pose proof (decode_loop_spec src _ buf new_wf Hsrc Hroom) as H.
  unfold decode. destruct (decode_loop _ _ _) as [buf' [d'|e|]]; [|destruct H; by subst; right|done].
  destruct (Decoder.is_final d'); simpl; [left|by right].
  destruct (bm_split buf'). by eexists.
Qed.

Lemma decode_accepts src (buf : B) s :
  is_bytes src -> 2 * len src <= remaining_mut buf -> buf_bytes buf = [] ->
  (exists buf' out, decode src buf = (buf', Ok out) /\ buf_bytes out = s /\
     buf_bytes buf' = []) <->
  (is_bytes s /\ exists k, (k < 8)%nat /\ bits_of src = codes s ++ replicate k true).
Proof.
  intros Hsrc Hroom Hbuf. pose proof (decode_loop_spec src _ buf new_wf Hsrc Hroom) as H.
  rewrite path_new, Hbuf in H. unfold decode.
  destruct (decode_loop _ _ _) as [buf' [d'|e|]]; [| |done]; simpl in H.
  - destruct H as (Hd' & s' & Hs' & Eb & Ep). pose proof (final_padding d' Hd') as Hf.
    destruct (bm_split_bytes buf') as [E1 E2]. split.
    + intros (b' & out & Eo & <- & _). case_match; simplify_eq.
      destruct (proj1 Hf) as (k & Hk & Epad); [by apply negb_false_iff|].
      case_match; simplify_eq/=. rewrite E1. rewrite Epad in Ep. eauto.
    + intros (Hs & k & Hk & E). rewrite Ep in E.
      destruct (codes_unique s' s (path (state d')) (replicate k true)) as [-> Ek];
        [done|done|apply no_code_path, Hd'|apply no_code_padding; lia|done|].
      rewrite (proj2 Hf) by eauto. simpl.
      destruct (bm_split buf') as [all rest]; simpl in *. naive_solver.
  - destruct H as (-> & s' & k' & Hs' & E). split; [by intros (? & ? & ? & _)|].
    intros (Hs & k & Hk & E'). exfalso. rewrite E in E'.
    destruct (codes_unique s' s (ones ++ k') (replicate k true)) as [_ Ek];
      [done|done|apply no_code_ones|apply no_code_padding; lia|done|].
    apply (f_equal length) in Ek. rewrite length_app, length_replicate in Ek.
    rewrite (ones_split 30), length_app, !length_replicate in Ek by lia. lia.
Qed.

End Decode.

(** ** The encoder *)

Lemma code_entry b :
  is_u8 b ->
  exists nbits c, ENCODE_TABLE !! Z.to_nat b = Some (nbits, c) /\
    5 <= nbits <= 30 /\ 0 <= c < 2 ^ nbits /\ code b = zbits (Z.to_nat nbits) c.
Proof.
  intros Hb.
  pose (f := fun b => match ENCODE_TABLE !! Z.to_nat b with
                      | Some (n, c) => (5 <=? n) && (n <=? 30) && (0 <=? c) && (c <? 2 ^ n) &&
                                       bits_eqb (code b) (zbits (Z.to_nat n) c)
                      | None => false
                      end).
  assert (f b = true) as H.
  { apply (check_bytes f); [vm_compute; reflexivity | done]. }
  unfold f in H. destruct (ENCODE_TABLE !! _) as [[n c]|]; [|done].
  exists n, c. unfold bits_eqb in H. reflect_bools.
  by rewrite bool_decide_eq_true in *.
Qed.

Section EncodeCorrect.
Context `{BM : BufMut B}.

(** The encoder's state after coding the bit string [w] into [dst0]: whole
    bytes are in [dst], the last [40 - bits_left] bits are the top of the
    40-bit window, and bits above the window are leftovers of shifts. *)
Definition enc_inv (dst0 : B) (w : list bool) (bits bits_left rem : Z) (dst : B) : Prop :=
  0 < bits_left <= 40 /\ 0 <= bits /\ rem = remaining_mut dst /\ 0 <= rem /\
  exists out p, is_bytes out /\
    buf_bytes dst = buf_bytes dst0 ++ out /\
    rem = remaining_mut dst0 - len out /\
    0 <= p < 2 ^ (40 - bits_left) /\
    bits mod 2 ^ 40 = p * 2 ^ bits_left /\
    w = bits_of out ++ zbits (Z.to_nat (40 - bits_left)) p.

Lemma enc_inv_init dst :
  0 <= remaining_mut dst -> enc_inv dst [] 0 40 (remaining_mut dst) dst.
Proof.
  intros H. repeat split; try lia. exists [], 0.
  rewrite app_nil_r, len_nil. repeat split; try done; try lia. constructor.
Qed.

Lemma split_pow a b : 0 <= a <= b -> 2 ^ b = 2 ^ (b - a) * 2 ^ a.
Proof. intros. rewrite <- Z.pow_add_r by lia. f_equal. lia. Qed.

(** Appending a code to the window. *)
Lemma enc_inv_code dst0 w bits bits_left rem dst nbits c :
  enc_inv dst0 w bits bits_left rem dst ->
  32 < bits_left -> 5 <= nbits <= 30 -> 0 <= c < 2 ^ nbits ->
  enc_inv dst0 (w ++ zbits (Z.to_nat nbits) c)
    (Z.lor bits (as_u64 (Z.shiftl c (bits_left - nbits)))) (bits_left - nbits) rem dst.
Proof.
  intros (Hbl & Hbits & -> & Hrem & out & p & Hout & Eb & Er & Hp & Em & ->) H32 Hn Hc.
  set (k := bits_left - nbits).
  assert (0 < 2 ^ k) as Hk by (apply Z.pow_pos_nonneg; lia).
  assert (2 ^ bits_left = 2 ^ nbits * 2 ^ k) as Ebl.
  { rewrite (split_pow k bits_left) by lia. f_equal. f_equal. lia. }
  rewrite Z.shiftl_mul_pow2 by lia.
  assert (c * 2 ^ k < 2 ^ bits_left) as Hck by nia.
  assert (2 ^ bits_left <= 2 ^ 40) as Hle by (apply Z.pow_le_mono_r; lia).
  replace (as_u64 (c * 2 ^ k)) with (c * 2 ^ k) by (symmetry; apply wrapu_id; unfold in_u; nia).
  assert (bits = (bits / 2 ^ 40 * 2 ^ (40 - bits_left) + p) * 2 ^ bits_left) as Eq.
  { rewrite Z.mul_add_distr_r, <- Em, <- Z.mul_assoc, <- (split_pow bits_left 40) by lia.
    rewrite Z.mul_comm. apply Z.div_mod. lia. }
  assert (Z.lor bits (c * 2 ^ k) = bits + c * 2 ^ k) as ->.
  { rewrite Eq at 1. rewrite lor_disjoint by nia. by rewrite <- Eq. }
  repeat split; try nia; try lia. exists out, (p * 2 ^ nbits + c).
  split; [done|]. split; [done|]. split; [done|]. subst k.
  replace (40 - (bits_left - nbits)) with (40 - bits_left + nbits) by lia.
  split; [rewrite Z.pow_add_r by lia; nia|]. split.
  - replace (bits + c * 2 ^ (bits_left - nbits))
      with ((p * 2 ^ nbits + c) * 2 ^ (bits_left - nbits) + bits / 2 ^ 40 * 2 ^ 40).
    2: { rewrite Z.mul_add_distr_r, <- Z.mul_assoc, <- Ebl, <- Em.
         pose proof (Z.div_mod bits (2 ^ 40)). lia. }
    rewrite Z.mod_add by lia. apply Z.mod_small.
    assert (2 ^ 40 = 2 ^ (40 - bits_left) * 2 ^ bits_left) by (apply split_pow; lia). nia.
  - rewrite <- app_assoc. f_equal.
    rewrite Z2Nat.inj_add by lia. rewrite <- zbits_app by (rewrite Z2Nat.id; lia).
    f_equal. rewrite Z2Nat.id by lia. done.
Qed.

(** Writing out the top byte of the window. *)
Lemma enc_inv_emit dst0 w bits bits_left rem dst :
  enc_inv dst0 w bits bits_left rem dst -> bits_left <= 32 -> rem <> 0 ->
  enc_inv dst0 w (as_u64 (Z.shiftl bits 8)) (bits_left + 8) (rem - 1)
    (put_u8 dst (as_u8 (Z.shiftr bits 32))).
Proof.
  intros (Hbl & Hbits & -> & Hrem & out & p & Hout & Eb & Er & Hp & Em & ->) H32 Hne.
  set (k := 32 - bits_left) in *.
  assert (0 < 2 ^ k) as Hk by (apply Z.pow_pos_nonneg; lia).
  assert (as_u8 (Z.shiftr bits 32) = p / 2 ^ k) as Eh.
  { unfold as_u8, wrapu. rewrite Z.shiftr_div_pow2 by lia.
    transitivity ((bits mod 2 ^ 40) / 2 ^ 32); [int_lia|].
    rewrite Em, (split_pow bits_left 32) by lia. fold k.
    rewrite Z.div_mul_cancel_r; lia. }
  assert (2 ^ (40 - bits_left) = 256 * 2 ^ k) as Ep.
  { replace (40 - bits_left) with (8 + k) by lia. by rewrite Z.pow_add_r by lia. }
  assert (as_u64 (Z.shiftl bits 8) mod 2 ^ 40 = (p mod 2 ^ k) * 2 ^ (bits_left + 8)) as Es.
  { rewrite Z.shiftl_mul_pow2 by lia. unfold as_u64, wrapu.
    transitivity ((bits mod 2 ^ 40 * 2 ^ 8) mod 2 ^ 40); [int_lia|].
    rewrite Em, <- Z.mul_assoc, <- Z.pow_add_r by lia.
    rewrite (split_pow (bits_left + 8) 40) by lia.
    replace (40 - (bits_left + 8)) with k by lia.
    rewrite Z.mul_mod_distr_r; [done | lia | apply Z.pow_nonzero; lia]. }
  assert (0 <= p / 2 ^ k < 256) as Hh.
  { split; [apply Z.div_pos; lia | apply Z.div_lt_upper_bound; lia]. }
  assert (0 <= as_u64 (Z.shiftl bits 8)) by (apply Z.mod_pos_bound; lia).
  unfold put_u8. assert (len [as_u8 (Z.shiftr bits 32)] = 1) as E1 by done.
  repeat split; try lia; [rewrite put_slice_remaining; lia|].
  exists (out ++ [p / 2 ^ k]), (p mod 2 ^ k).
  rewrite put_slice_bytes, Eb, Eh, len_app, is_bytes_app, app_assoc by lia.
  replace (40 - (bits_left + 8)) with k by lia.
  split; [split; [done | by apply is_bytes_singleton]|]. split; [done|].
  split; [change (len [p / 2 ^ k]) with 1; lia|].
  split; [by apply Z.mod_pos_bound|]. split; [done|].
  { rewrite bits_of_app, <- app_assoc. f_equal.
    change (bits_of [p / 2 ^ k]) with (zbits 8 (p / 2 ^ k) ++ []). rewrite app_nil_r.
    rewrite <- zbits_app by (rewrite Z2Nat.id by lia; apply Z.mod_pos_bound; lia).
    replace (8 + Z.to_nat k)%nat with (Z.to_nat (40 - bits_left)) by lia.
    f_equal. rewrite Z2Nat.id, Z.mul_comm by lia. apply Z.div_mod. lia. }
Qed.

(** A full destination stops the encoder only when the coded bits exceed it. *)
Lemma enc_inv_overflow dst0 w bits bits_left rem dst :
  enc_inv dst0 w bits bits_left rem dst -> rem = 0 ->
  len w = 8 * remaining_mut dst0 + (40 - bits_left).
Proof.
  intros (Hbl & _ & _ & _ & out & p & _ & _ & Er & _ & _ & ->) ->.
  rewrite len_app. unfold len in *. rewrite length_bits_of, length_zbits. lia.
Qed.

Lemma drain_spec fuel : forall dst0 w bits bits_left rem dst,
  33 - bits_left <= Z.of_nat fuel ->
  enc_inv dst0 w bits bits_left rem dst ->
  match drain fuel bits bits_left rem dst with
  | (dst', Ok (bits', bits_left', rem')) =>
      32 < bits_left' /\ enc_inv dst0 w bits' bits_left' rem' dst'
  | (_, Err e) => 8 * remaining_mut dst0 < len w
  | (_, Panic) => False
  end.
Proof.
  induction fuel as [|fuel IH]; intros dst0 w bits bits_left rem dst Hf Hi;
    cbn [drain]; [split; [lia | done]|].
  destruct (Z.leb_spec bits_left 32); [|split; [lia | done]].
  destruct (Z.eqb_spec rem 0).
  - pose proof (enc_inv_overflow _ _ _ _ _ _ Hi). lia.
  - apply IH; [lia|]. by apply enc_inv_emit.
Qed.

Lemma encode_loop_spec s : forall dst0 w bits bits_left rem dst,
  is_bytes s -> 32 < bits_left -> enc_inv dst0 w bits bits_left rem dst ->
  match encode_loop s bits bits_left rem dst with
  | (dst', Ok (bits', bits_left', rem')) =>
      32 < bits_left' /\ enc_inv dst0 (w ++ codes s) bits' bits_left' rem' dst'
  | (_, Err e) => 8 * remaining_mut dst0 < len (w ++ codes s)
  | (_, Panic) => False
  end.
Proof.
  induction s as [|b s IH]; intros dst0 w bits bits_left rem dst Hs Hbl Hi;
    cbn [encode_loop].
  { by rewrite app_nil_r. }
  apply is_bytes_cons in Hs as [Hb Hs].
  destruct (code_entry b Hb) as (n & c & -> & Hn & Hc & Ec).
  rewrite codes_cons, Ec, app_assoc.
  pose proof (enc_inv_code _ _ _ _ _ _ _ _ Hi Hbl Hn Hc) as Hi'.
  apply (drain_spec (Z.to_nat (33 - (bits_left - n)))) in Hi'; [|lia].
  destruct (drain _ _ _ _ _) as [dst1 [[[bits1 bl1] rem1]| |]]; [|simpl|done].
  - apply IH; [done | apply Hi' | apply Hi'].
  - rewrite len_app. pose proof (len_nonneg (codes s)). lia.
Qed.

(** The last, padded byte. *)
Lemma enc_inv_flush dst0 w bits bits_left rem dst :
  enc_inv dst0 w bits bits_left rem dst -> 32 < bits_left < 40 -> rem <> 0 ->
  exists out,
    buf_bytes (put_u8 dst (as_u8 (Z.shiftr (Z.lor bits (Z.shiftl 1 bits_left - 1)) 32))) =
      buf_bytes dst0 ++ out /\ is_bytes out /\
    bits_of out = w ++ replicate (Z.to_nat (bits_left - 32)) true /\
    remaining_mut (put_u8 dst (as_u8 (Z.shiftr (Z.lor bits (Z.shiftl 1 bits_left - 1)) 32))) =
      remaining_mut dst0 - len out.
Proof.
  intros (Hbl & Hbits & -> & Hrem & out & p & Hout & Eb & Er & Hp & Em & ->) H32 Hne.
  set (k := bits_left - 32).
  assert (0 < 2 ^ k) as Hk by (apply Z.pow_pos_nonneg; lia).
  assert (2 ^ bits_left = 2 ^ k * 2 ^ 32) as Ek.
  { rewrite (split_pow 32 bits_left) by lia. done. }
  assert (2 ^ (40 - bits_left) * 2 ^ k = 256) as E256.
  { rewrite <- Z.pow_add_r by lia. subst k. replace (_ + _) with 8 by lia. done. }
  set (h := p * 2 ^ k + (2 ^ k - 1)).
  assert (0 <= h < 256) as Hh by (subst h; nia).
  assert (as_u8 (Z.shiftr (Z.lor bits (Z.shiftl 1 bits_left - 1)) 32) = h) as ->.
  { rewrite Z.shiftl_mul_pow2, Z.mul_1_l by lia.
    assert (bits = (bits / 2 ^ 40 * 2 ^ (40 - bits_left) + p) * 2 ^ bits_left) as Eq.
    { rewrite Z.mul_add_distr_r, <- Em, <- Z.mul_assoc, <- (split_pow bits_left 40) by lia.
      rewrite Z.mul_comm. apply Z.div_mod. lia. }
    rewrite Eq at 1. rewrite lor_disjoint by nia. rewrite <- Eq.
    rewrite Z.shiftr_div_pow2 by lia. unfold as_u8, wrapu.
    transitivity (((bits mod 2 ^ 40) + (2 ^ bits_left - 1)) / 2 ^ 32 mod 2 ^ 8); [int_lia|].
    rewrite Em, Ek.
    replace (p * (2 ^ k * 2 ^ 32) + (2 ^ k * 2 ^ 32 - 1)) with (h * 2 ^ 32 + (2 ^ 32 - 1))
      by (subst h; lia).
    rewrite Z.div_add_l by lia. change ((2 ^ 32 - 1) / 2 ^ 32) with 0.
    rewrite Z.add_0_r. apply Z.mod_small. lia. }
  exists (out ++ [h]). unfold put_u8.
  rewrite put_slice_bytes, Eb, app_assoc by (change (len [h]) with 1; lia).
  split; [done|]. rewrite is_bytes_app, is_bytes_singleton. split; [done|].
  split; [|rewrite put_slice_remaining, len_app by (change (len [h]) with 1; lia); lia].
  rewrite bits_of_app, <- app_assoc. f_equal.
  change (bits_of [h]) with (zbits 8 h ++ []). rewrite app_nil_r, <- zbits_ones.
  rewrite <- zbits_app by (rewrite Z2Nat.id by lia; lia).
  replace (_ + _)%nat with 8%nat by lia. f_equal. subst h. by rewrite Z2Nat.id by lia.
Qed.

Lemma encode_writes s (dst : B) :
  is_bytes s -> 0 <= remaining_mut dst ->
  if len (codes s) <=? 8 * remaining_mut dst then
    exists dst' out k,
      encode s dst = (dst', Ok tt) /\ buf_bytes dst' = buf_bytes dst ++ out /\
      is_bytes out /\ (k < 8)%nat /\ bits_of out = codes s ++ replicate k true /\
      remaining_mut dst' = remaining_mut dst - len out
  else (encode s dst).2 = Err BufferOverflow.
Proof.
  intros Hs Hr.
  pose proof (encode_loop_spec s dst [] 0 40 _ dst Hs ltac:(lia) (enc_inv_init dst Hr)) as H.
  unfold encode. destruct (encode_loop _ _ _ _ _) as [dst1 [[[bits bl] rem]|[]|]]; [| |done];
    rewrite app_nil_l in H.
  2: { destruct (Z.leb_spec (len (codes s)) (8 * remaining_mut dst)); [lia | done]. }
  destruct H as [Hbl Hi]. pose proof Hi as (Hbl' & _ & Er & Hr1 & out & p & Hout & Eb & Er' & _ & _ & Ew).
  assert (len (codes s) = 8 * (remaining_mut dst - rem) + (40 - bl)) as El.
  { rewrite Ew, len_app. unfold len in *. rewrite length_bits_of, length_zbits. lia. }
  destruct (Z.eqb_spec bl 40) as [->|Hne]; simpl.
  - destruct (Z.leb_spec (len (codes s)) (8 * remaining_mut dst)); [|lia].
    exists dst1, out, 0%nat. rewrite Ew. change (Z.to_nat (40 - 40)) with 0%nat.
    rewrite !app_nil_r. repeat split; try done; lia.
  - destruct (Z.eqb_spec rem 0) as [E0|Hr0];
      destruct (Z.leb_spec (len (codes s)) (8 * remaining_mut dst)); try done; try lia.
    destruct (enc_inv_flush _ _ _ _ _ _ Hi ltac:(lia) Hr0) as (out' & E1 & Ho' & E2 & E3).
    exists (put_u8 dst1 (as_u8 (Z.shiftr (Z.lor bits (Z.shiftl 1 bl - 1)) 32))), out',
      (Z.to_nat (bl - 32)).
    repeat split; try done; lia.
Qed.

End EncodeCorrect.

(** The encoder is total on byte strings: it writes the codes of the string,
    padded with fewer than eight ones to whole bytes, when they fit in the
    destination, and reports [BufferOverflow] when they do not. *)
Theorem encode_correct `{BM : BufMut B} s (dst : B) :
  is_bytes s -> 0 <= remaining_mut dst ->
  if len (codes s) <=? 8 * remaining_mut dst then
    exists dst' out k,
      encode s dst = (dst', Ok tt) /\ buf_bytes dst' = buf_bytes dst ++ out /\
      is_bytes out /\ (k < 8)%nat /\ bits_of out = codes s ++ replicate k true /\
      remaining_mut dst' = remaining_mut dst - len out
  else (encode s dst).2 = Err BufferOverflow.
Proof. apply encode_writes. Qed.

Lemma encode_correct_witness :
  (encode [0; 0] (MkLimit ([] : list Z) 3)).2 = Err BufferOverflow.
Proof.
  pose proof (encode_correct [0; 0] (MkLimit ([] : list Z) 3)) as H.
  replace (_ <=? _) with false in H by (vm_compute; reflexivity).
  apply H; [apply (bool_decide_unpack _); vm_compute; exact I | vm_compute; congruence].
Defined.

(** C19. The decoder accepts exactly the padded codes of byte strings and returns
    the string; every other input is [InvalidHuffmanCode], never a panic, and
    the scratch buffer is handed over empty and left empty. *)
Theorem decode_correct `{BM : BytesMut B} src (buf : B) s :
  is_bytes src -> 2 * len src <= remaining_mut buf -> buf_bytes buf = [] ->
  ((exists r, (decode src buf).2 = Ok r) \/ (decode src buf).2 = Err InvalidHuffmanCode) /\
  ((exists buf' out, decode src buf = (buf', Ok out) /\ buf_bytes out = s /\
      buf_bytes buf' = []) <->
   (is_bytes s /\ exists k, (k < 8)%nat /\ bits_of src = codes s ++ replicate k true)).
Proof. intros. split; [by apply decode_total | by apply decode_accepts]. Qed.

Lemma decode_correct_witness :
  exists buf' out, decode [63] ([] : list Z) = (buf', Ok out) /\ buf_bytes out = [111] /\
    buf_bytes buf' = [].
Proof.
  apply (decode_correct (BM := list_bytes_mut) [63] [] [111]).
  1-3: apply (bool_decide_unpack _); vm_compute; exact I.
  split; [apply (bool_decide_unpack _); vm_compute; exact I|].
  exists 3%nat. split; [lia | vm_compute; reflexivity].
Defined.

(** C18. Decoding what was encoded gives the string back, for every byte string
    that fits in the destination. *)
Theorem huffman_roundtrip `{BM : BytesMut B} s (dst buf : B) :
  is_bytes s -> buf_bytes dst = [] -> buf_bytes buf = [] ->
  len (codes s) <= 8 * remaining_mut dst -> len (codes s) + 8 <= 4 * remaining_mut buf ->
  exists dst' buf' out,
    encode s dst = (dst', Ok tt) /\
    decode (buf_bytes dst') buf = (buf', Ok out) /\ buf_bytes out = s.
Proof.
  intros Hs Ed Eb Hd Hb. pose proof (len_nonneg (codes s)) as Hl.
  assert (0 <= remaining_mut dst) as Hr by lia.
  pose proof (encode_writes s dst Hs Hr) as He.
  rewrite (proj2 (Z.leb_le _ _) Hd), Ed in He.
  destruct He as (dst' & out & k & Ee & Edst & Hout & Hk & Ebits & _).
  assert (8 * len out = len (codes s) + Z.of_nat k) as El.
  { apply (f_equal length) in Ebits. rewrite length_bits_of, length_app, length_replicate in Ebits.
    unfold len. lia. }
  assert (2 * len out <= remaining_mut buf) as Ho by lia.
  destruct (proj2 (decode_accepts out buf s Hout Ho Eb)) as (buf' & o & E1 & E2 & _);
    [eauto|].
  exists dst', buf', o. by rewrite Edst, app_nil_l.
Qed.

Lemma huffman_roundtrip_witness :
  exists dst' buf' out,
    encode [47; 105; 110; 100; 101; 120; 0; 255] ([] : list Z) = (dst', Ok tt) /\
    decode (buf_bytes dst') ([] : list Z) = (buf', Ok out) /\
    buf_bytes out = [47; 105; 110; 100; 101; 120; 0; 255].
Proof.
  apply (huffman_roundtrip (BM := list_bytes_mut)); [apply (bool_decide_unpack _); vm_compute; exact I| | | |];
    vm_compute; congruence.
Defined.
