(* ===== verification/HttpTypes.v ===== *)
(** * Header fields ([http/h2/hpack/header.rs])

    The [http] crate's header names, header values, methods and status codes
    are not part of the repository: [HttpTypes] gives their constructors and
    accessors with the documented conversions.  [Header] and [Name] are the
    code's own types over them. *)

From Stdlib Require Import Ascii String.
From S2P Require Import Prelude Bytes Huffman.

(** ** Byte string literals *)

Fixpoint bytes_of_string (s : string) : list Z :=
  match s with
  | EmptyString => []
  | String c s => Z.of_N (N_of_ascii c) :: bytes_of_string s
  end.

(** ** UTF-8 ([std::str::from_utf8])

    The well-formed byte sequences of Unicode table 3-7, which the standard
    library checks. *)
Definition in_range (lo hi x : Z) : bool := (lo <=? x) && (x <=? hi).

Fixpoint utf8_valid_fuel (fuel : nat) (l : list Z) : bool :=
  match fuel, l with
  | _, [] => true
  | O, _ => false
  | S fuel, b0 :: l =>
      let cont := in_range 0x80 0xBF in
      if b0 <=? 0x7F then utf8_valid_fuel fuel l
      else match l with
      | b1 :: l =>
          if in_range 0xC2 0xDF b0 then cont b1 && utf8_valid_fuel fuel l
          else match l with
          | b2 :: l =>
              if in_range 0xE0 0xEF b0 then
                let lo := if b0 =? 0xE0 then 0xA0 else 0x80 in
                let hi := if b0 =? 0xED then 0x9F else 0xBF in
                in_range lo hi b1 && cont b2 && utf8_valid_fuel fuel l
              else match l with
              | b3 :: l =>
                  let lo := if b0 =? 0xF0 then 0x90 else 0x80 in
                  let hi := if b0 =? 0xF4 then 0x8F else 0xBF in
                  in_range 0xF0 0xF4 b0 && in_range lo hi b1 && cont b2 && cont b3 &&
                  utf8_valid_fuel fuel l
              | [] => false
              end
          | [] => false
          end
      | [] => false
      end
  end.
Definition utf8_valid (l : list Z) : bool := utf8_valid_fuel (length l) l.

(** ** The [http] crate *)

(** The constants of [http::header] that the code names. *)
Inductive StdHeader :=
  | ACCEPT | ACCEPT_CHARSET | ACCEPT_ENCODING | ACCEPT_LANGUAGE | ACCEPT_RANGES
  | ACCESS_CONTROL_ALLOW_ORIGIN | AGE | ALLOW | AUTHORIZATION | CACHE_CONTROL
  | CONNECTION | CONTENT_DISPOSITION | CONTENT_ENCODING | CONTENT_LANGUAGE
  | CONTENT_LENGTH | CONTENT_LOCATION | CONTENT_RANGE | CONTENT_TYPE | COOKIE
  | DATE | ETAG | EXPECT | EXPIRES | FROM | HOST | IF_MATCH | IF_MODIFIED_SINCE
  | IF_NONE_MATCH | IF_RANGE | IF_UNMODIFIED_SINCE | LAST_MODIFIED | LINK
  | LOCATION | MAX_FORWARDS | PROXY_AUTHENTICATE | PROXY_AUTHORIZATION | RANGE
  | REFERER | REFRESH | RETRY_AFTER | SERVER | SET_COOKIE
  | STRICT_TRANSPORT_SECURITY | TE | TRANSFER_ENCODING | UPGRADE | USER_AGENT
  | VARY | VIA | WWW_AUTHENTICATE.

#[export] Instance StdHeader_eq_dec : EqDecision StdHeader.
Proof. solve_decision. Defined.

Definition std_str (h : StdHeader) : string :=
  match h with
  | ACCEPT => "accept"
  | ACCEPT_CHARSET => "accept-charset"
  | ACCEPT_ENCODING => "accept-encoding"
  | ACCEPT_LANGUAGE => "accept-language"
  | ACCEPT_RANGES => "accept-ranges"
  | ACCESS_CONTROL_ALLOW_ORIGIN => "access-control-allow-origin"
  | AGE => "age"
  | ALLOW => "allow"
  | AUTHORIZATION => "authorization"
  | CACHE_CONTROL => "cache-control"
  | CONNECTION => "connection"
  | CONTENT_DISPOSITION => "content-disposition"
  | CONTENT_ENCODING => "content-encoding"
  | CONTENT_LANGUAGE => "content-language"
  | CONTENT_LENGTH => "content-length"
  | CONTENT_LOCATION => "content-location"
  | CONTENT_RANGE => "content-range"
  | CONTENT_TYPE => "content-type"
  | COOKIE => "cookie"
  | DATE => "date"
  | ETAG => "etag"
  | EXPECT => "expect"
  | EXPIRES => "expires"
  | FROM => "from"
  | HOST => "host"
  | IF_MATCH => "if-match"
  | IF_MODIFIED_SINCE => "if-modified-since"
  | IF_NONE_MATCH => "if-none-match"
  | IF_RANGE => "if-range"
  | IF_UNMODIFIED_SINCE => "if-unmodified-since"
  | LAST_MODIFIED => "last-modified"
  | LINK => "link"
  | LOCATION => "location"
  | MAX_FORWARDS => "max-forwards"
  | PROXY_AUTHENTICATE => "proxy-authenticate"
  | PROXY_AUTHORIZATION => "proxy-authorization"
  | RANGE => "range"
  | REFERER => "referer"
  | REFRESH => "refresh"
  | RETRY_AFTER => "retry-after"
  | SERVER => "server"
  | SET_COOKIE => "set-cookie"
  | STRICT_TRANSPORT_SECURITY => "strict-transport-security"
  | TE => "te"
  | TRANSFER_ENCODING => "transfer-encoding"
  | UPGRADE => "upgrade"
  | USER_AGENT => "user-agent"
  | VARY => "vary"
  | VIA => "via"
  | WWW_AUTHENTICATE => "www-authenticate"
  end.

(** The constants of [http::StatusCode] that the code names. *)
Inductive StdStatus :=
  | OK | NO_CONTENT | PARTIAL_CONTENT | NOT_MODIFIED | BAD_REQUEST | NOT_FOUND
  | REQUEST_HEADER_FIELDS_TOO_LARGE | INTERNAL_SERVER_ERROR.

Definition std_status_u16 (s : StdStatus) : Z :=
  match s with
  | OK => 200
  | NO_CONTENT => 204
  | PARTIAL_CONTENT => 206
  | NOT_MODIFIED => 304
  | BAD_REQUEST => 400
  | NOT_FOUND => 404
  | REQUEST_HEADER_FIELDS_TOO_LARGE => 431
  | INTERNAL_SERVER_ERROR => 500
  end.

(** The bytes that [HeaderValue::from_static] takes: visible ASCII, space and tab. *)
Definition visible (l : list Z) : bool := forallb (fun b => ((32 <=? b) && (b <? 127)) || (b =? 9)) l.

(** [http::header::HeaderName], [HeaderValue], [http::Method] and
    [http::StatusCode].  Names are kept in lower case, so [from_lowercase]
    reads back what [as_ref] shows; [from_bytes] keeps the bytes it accepts
    and makes a value that is not sensitive; equality of header values
    compares their bytes.  [from_static] panics on a string that is not visible ASCII;
    the source only calls it with literals, and nothing is assumed of other strings. *)
Class HttpTypes := {
  HeaderName : Type;
  HeaderName_eq_dec :: EqDecision HeaderName;
  name_as_ref : HeaderName -> list Z;
  name_from_lowercase : list Z -> option HeaderName;
  std_name : StdHeader -> HeaderName;

  HeaderValue : Type;
  value_as_ref : HeaderValue -> list Z;
  value_from_bytes : list Z -> option HeaderValue;
  value_is_sensitive : HeaderValue -> bool;
  value_from_static : string -> HeaderValue;

  Method : Type;
  Method_eq_dec :: EqDecision Method;
  method_as_ref : Method -> list Z;
  method_from_bytes : list Z -> option Method;
  GET : Method;
  POST : Method;

  StatusCode : Type;
  StatusCode_eq_dec :: EqDecision StatusCode;
  status_as_u16 : StatusCode -> Z;
  status_as_str : StatusCode -> list Z;
  status_from_bytes : list Z -> option StatusCode;
  std_status : StdStatus -> StatusCode;

  name_from_lowercase_ref b n : name_from_lowercase b = Some n -> name_as_ref n = b;
  name_as_ref_from n : name_from_lowercase (name_as_ref n) = Some n;
  name_nonempty n : name_as_ref n <> [];
  name_not_colon n : head (name_as_ref n) <> Some 58;
  name_is_bytes n : is_bytes (name_as_ref n);
  std_name_ref h : name_as_ref (std_name h) = bytes_of_string (std_str h);

  value_from_bytes_ref b v :
    value_from_bytes b = Some v -> value_as_ref v = b /\ value_is_sensitive v = false;
  value_as_ref_from v :
    exists v', value_from_bytes (value_as_ref v) = Some v' /\
      value_as_ref v' = value_as_ref v;
  value_is_bytes v : is_bytes (value_as_ref v);
  value_from_static_ref s :
    visible (bytes_of_string s) = true ->
    value_as_ref (value_from_static s) = bytes_of_string s /\
    value_is_sensitive (value_from_static s) = false;

  method_from_bytes_ref b m : method_from_bytes b = Some m -> method_as_ref m = b;
  method_as_ref_from m : method_from_bytes (method_as_ref m) = Some m;
  method_is_bytes m : is_bytes (method_as_ref m);
  GET_ref : method_as_ref GET = bytes_of_string "GET";
  POST_ref : method_as_ref POST = bytes_of_string "POST";

  status_from_bytes_ref b s : status_from_bytes b = Some s -> status_as_str s = b;
  status_as_str_from s : status_from_bytes (status_as_str s) = Some s;
  status_as_str_digits s :
    status_as_str s = (fun d => 48 + d) <$>
      [status_as_u16 s / 100; status_as_u16 s / 10 mod 10; status_as_u16 s mod 10];
  status_range s : 100 <= status_as_u16 s < 1000;
  status_as_u16_inj s s' : status_as_u16 s = status_as_u16 s' -> s = s';
  std_status_as_u16 s : status_as_u16 (std_status s) = std_status_u16 s;
}.

(** A model of the crate: any non-empty byte string without a leading colon
    is a name, any byte string a value or a method. *)
Module ModelHttp.

Definition name_ok (l : list Z) : Prop := is_bytes l /\ l <> [] /\ head l <> Some 58.
#[export] Instance name_ok_dec l : Decision (name_ok l).
Proof. unfold name_ok. apply _. Defined.

Definition Name := dsig name_ok.
Definition Value := (dsig is_bytes * bool)%type.
Definition Meth := dsig is_bytes.
Definition Status := dsig (fun n : Z => 100 <= n < 1000).

Definition check (P : list Z -> Prop) `{!forall l, Decision (P l)} (b : list Z) : option (dsig P) :=
  match decide (P b) with left H => Some (dexist b H) | right _ => None end.

Lemma check_ref (P : list Z -> Prop) `{!forall l, Decision (P l)} b x :
  check P b = Some x -> `x = b.
Proof. unfold check. destruct (decide (P b)); naive_solver. Qed.
Lemma check_proj (P : list Z -> Prop) `{!forall l, Decision (P l)} (x : dsig P) :
  check P (`x) = Some x.
Proof.
  unfold check. destruct (decide (P (`x))) as [HP|HP]; [|destruct HP; apply (proj2_dsig x)].
  f_equal. by apply dsig_eq.
Qed.

Definition digits (n : Z) : list Z := (fun d => 48 + d) <$> [n / 100; n / 10 mod 10; n mod 10].
Definition undigits (l : list Z) : Z :=
  match l with [a; b; c] => (a - 48) * 100 + (b - 48) * 10 + (c - 48) | _ => 0 end.

Lemma undigits_digits n : undigits (digits n) = n.
Proof. unfold undigits, digits. simpl. Z.to_euclidean_division_equations. lia. Qed.

Definition status_of (b : list Z) : option Status :=
  match decide (100 <= undigits b < 1000) with
  | left H => if decide (digits (undigits b) = b) then Some (dexist _ H) else None
  | right _ => None
  end.

Lemma std_ok h : bool_decide (name_ok (bytes_of_string (std_str h))) = true.
Proof. by destruct h. Qed.
Lemma bytes_of_string_is_bytes s : is_bytes (bytes_of_string s).
Proof.
  induction s as [|c s IH]; simpl; [constructor|]. apply is_bytes_cons. split; [|done].
  unfold in_u. pose proof (N_ascii_bounded c). change (2 ^ 8) with (Z.of_N 256). lia.
Qed.
Lemma std_status_ok s : 100 <= std_status_u16 s < 1000.
Proof. by destruct s. Qed.

#[export] Program Instance model_http : HttpTypes := {|
  HeaderName := Name;
  name_as_ref n := `n;
  name_from_lowercase := check name_ok;
  std_name h := dexist (bytes_of_string (std_str h)) (bool_decide_eq_true_1 _ (std_ok h));
  HeaderValue := Value;
  value_as_ref v := `(v.1);
  value_from_bytes b := (fun x => (x, false)) <$> check is_bytes b;
  value_is_sensitive v := v.2;
  value_from_static s := (dexist _ (bytes_of_string_is_bytes s), false);
  Method := Meth;
  method_as_ref m := `m;
  method_from_bytes := check is_bytes;
  GET := dexist _ (bytes_of_string_is_bytes "GET");
  POST := dexist _ (bytes_of_string_is_bytes "POST");
  StatusCode := Status;
  status_as_u16 s := `s;
  status_as_str s := digits (`s);
  status_from_bytes := status_of;
  std_status s := dexist _ (std_status_ok s);
|}.
Next Obligation. intros b n H. by apply check_ref in H. Qed.
Next Obligation. apply check_proj. Qed.
Next Obligation. intros n. apply (proj2_dsig n). Qed.
Next Obligation. intros n. apply (proj2_dsig n). Qed.
Next Obligation. intros n. apply (proj2_dsig n). Qed.
Next Obligation. done. Qed.
Next Obligation.
  intros b v H. apply fmap_Some in H as (x & H & ->). by apply check_ref in H.
Qed.
Next Obligation. intros [x s]. simpl. rewrite check_proj. simpl. by eexists. Qed.
Next Obligation. intros v. apply (proj2_dsig v.1). Qed.
Next Obligation. done. Qed.
Next Obligation. intros b n H. by apply check_ref in H. Qed.
Next Obligation. apply check_proj. Qed.
Next Obligation. intros m. apply (proj2_dsig m). Qed.
Next Obligation. done. Qed.
Next Obligation. done. Qed.
Next Obligation. unfold status_of. intros b s H. repeat case_match; naive_solver. Qed.
Next Obligation.
  intros s. unfold status_of. pose proof (proj2_dsig s) as Hs. rewrite !undigits_digits.
  destruct (decide (100 <= `s < 1000)); [|done]. rewrite decide_True by done.
  f_equal. by apply dsig_eq.
Qed.
Next Obligation. done. Qed.
Next Obligation. intros s. apply (proj2_dsig s). Qed.
Next Obligation. intros s s' H. by apply dsig_eq. Qed.
Next Obligation. done. Qed.

End ModelHttp.

(** ** Headers *)

(** [http/h2/hpack/header.rs] BytesStr *)
Record BytesStr := MkBytesStr { bytes_str : list Z }.

#[export] Instance BytesStr_eq_dec : EqDecision BytesStr.
Proof. solve_decision. Defined.

(** [http/h2/hpack/header.rs] BytesStr::try_from *)
Definition BytesStr_try_from (bytes : list Z) : option BytesStr :=
  if utf8_valid bytes then Some (MkBytesStr bytes) else None.

Section Header.
Context `{HT : HttpTypes}.

(** [http/h2/hpack/header.rs] Header *)
Inductive Header (T : Type) :=
  | HField (name : T) (value : HeaderValue)
  | HAuthority (v : BytesStr)
  | HMethod (v : Method)
  | HScheme (v : BytesStr)
  | HPath (v : BytesStr)
  | HStatus (v : StatusCode).

(** [http/h2/hpack/header.rs] Name *)
Inductive Name :=
  | NField (name : HeaderName)
  | NAuthority
  | NMethod
  | NScheme
  | NPath
  | NStatus.

End Header.
Arguments HField {HT T} name value.
Arguments HAuthority {HT T} v.
Arguments HMethod {HT T} v.
Arguments HScheme {HT T} v.
Arguments HPath {HT T} v.
Arguments HStatus {HT T} v.

#[export] Instance Name_eq_dec `{HT : HttpTypes} : EqDecision Name.
Proof. solve_decision. Defined.

Module Header.
Section Header.
Context `{HT : HttpTypes}.

(** [http/h2/hpack/header.rs] len *)
Definition field_len (name : HeaderName) (value : HeaderValue) : Z :=
  32 + len (name_as_ref name) + len (value_as_ref value).

(** [http/h2/hpack/header.rs] Header::reify *)
Definition reify (h : Header (option HeaderName)) : outcome HeaderValue (Header HeaderName) :=
  match h with
  | HField (Some n) value => Ok (HField n value)
  | HField None value => Err value
  | HAuthority v => Ok (HAuthority v)
  | HMethod v => Ok (HMethod v)
  | HScheme v => Ok (HScheme v)
  | HPath v => Ok (HPath v)
  | HStatus v => Ok (HStatus v)
  end.

(** [http/h2/hpack/header.rs] Header::new *)
Definition new (name value : list Z) : outcome DecoderError (Header HeaderName) :=
  if bool_decide (name = []) then Err (NeedMore_ UnexpectedEndOfStream)
  else
    first ← index name 0;
    if first =? 58 then
      rest ← slice_from name 1;
      if bool_decide (rest = bytes_of_string "authority") then
        value ← ok_or (BytesStr_try_from value) InvalidUtf8;
        Ok (HAuthority value)
      else if bool_decide (rest = bytes_of_string "method") then
        method ← ok_or (method_from_bytes value) InvalidUtf8;
        Ok (HMethod method)
      else if bool_decide (rest = bytes_of_string "scheme") then
        value ← ok_or (BytesStr_try_from value) InvalidUtf8;
        Ok (HScheme value)
      else if bool_decide (rest = bytes_of_string "path") then
        value ← ok_or (BytesStr_try_from value) InvalidUtf8;
        Ok (HPath value)
      else if bool_decide (rest = bytes_of_string "status") then
        status ← ok_or (status_from_bytes value) InvalidUtf8;
        Ok (HStatus status)
      else Err InvalidPseudoheader
    else
      name ← ok_or (name_from_lowercase name) InvalidUtf8;
      value ← ok_or (value_from_bytes value) InvalidUtf8;
      Ok (HField name value).

(** [http/h2/hpack/header.rs] Header::len *)
Definition hlen (h : Header HeaderName) : Z :=
  match h with
  | HField name value => field_len name value
  | HAuthority v => 32 + 10 + len (bytes_str v)
  | HMethod v => 32 + 7 + len (method_as_ref v)
  | HScheme v => 32 + 7 + len (bytes_str v)
  | HPath v => 32 + 5 + len (bytes_str v)
  | HStatus _ => 32 + 7 + 3
  end.

(** [http/h2/hpack/header.rs] Header::name *)
Definition name (h : Header HeaderName) : Name :=
  match h with
  | HField name _ => NField name
  | HAuthority _ => NAuthority
  | HMethod _ => NMethod
  | HScheme _ => NScheme
  | HPath _ => NPath
  | HStatus _ => NStatus
  end.

(** [http/h2/hpack/header.rs] Header::value_slice *)
Definition value_slice (h : Header HeaderName) : list Z :=
  match h with
  | HField _ value => value_as_ref value
  | HAuthority v => bytes_str v
  | HMethod v => method_as_ref v
  | HScheme v => bytes_str v
  | HPath v => bytes_str v
  | HStatus v => status_as_str v
  end.

(** [http/h2/hpack/header.rs] Header::value_eq *)
Definition value_eq (h other : Header HeaderName) : bool :=
  match h, other with
  | HField _ a, HField _ b => bool_decide (value_as_ref a = value_as_ref b)
  | HAuthority a, HAuthority b => bool_decide (a = b)
  | HMethod a, HMethod b => bool_decide (a = b)
  | HScheme a, HScheme b => bool_decide (a = b)
  | HPath a, HPath b => bool_decide (a = b)
  | HStatus a, HStatus b => bool_decide (a = b)
  | _, _ => false
  end.

(** [http/h2/hpack/header.rs] Header::is_sensitive *)
Definition is_sensitive (h : Header HeaderName) : bool :=
  match h with HField _ value => value_is_sensitive value | _ => false end.

(** [http/h2/hpack/header.rs] Header::skip_value_index *)
Definition skip_value_index (h : Header HeaderName) : bool :=
  match h with
  | HField name _ =>
      existsb (fun c => bool_decide (name = std_name c))
        [AGE; AUTHORIZATION; CONTENT_LENGTH; ETAG; IF_MODIFIED_SINCE; IF_NONE_MATCH;
         LOCATION; COOKIE; SET_COOKIE]
  | HPath _ => true
  | _ => false
  end.

(** [http/h2/hpack/header.rs] Header as From::from *)
Definition from_header (src : Header HeaderName) : Header (option HeaderName) :=
  match src with
  | HField name value => HField (Some name) value
  | HAuthority v => HAuthority v
  | HMethod v => HMethod v
  | HScheme v => HScheme v
  | HPath v => HPath v
  | HStatus v => HStatus v
  end.

End Header.
End Header.

Module Name.
Section Name.
Context `{HT : HttpTypes}.

(** [http/h2/hpack/header.rs] Name::into_entry *)
Definition into_entry (n : Name) (value : list Z) : outcome DecoderError (Header HeaderName) :=
  match n with
  | NField name =>
      v ← ok_or (value_from_bytes value) InvalidUtf8;
      Ok (HField name v)
  | NAuthority => v ← ok_or (BytesStr_try_from value) InvalidUtf8; Ok (HAuthority v)
  | NMethod => v ← ok_or (method_from_bytes value) InvalidUtf8; Ok (HMethod v)
  | NScheme => v ← ok_or (BytesStr_try_from value) InvalidUtf8; Ok (HScheme v)
  | NPath => v ← ok_or (BytesStr_try_from value) InvalidUtf8; Ok (HPath v)
  | NStatus =>
      match status_from_bytes value with
      | Some status => Ok (HStatus status)
      | None => Err InvalidStatusCode
      end
  end.

(** [http/h2/hpack/header.rs] Name::as_slice *)
Definition as_slice (n : Name) : list Z :=
  match n with
  | NField name => name_as_ref name
  | NAuthority => bytes_of_string ":authority"
  | NMethod => bytes_of_string ":method"
  | NScheme => bytes_of_string ":scheme"
  | NPath => bytes_of_string ":path"
  | NStatus => bytes_of_string ":status"
  end.

End Name.
End Name.

(** ** What the two ends agree on *)

Section Agree.
Context `{HT : HttpTypes}.
Implicit Types h : Header HeaderName.

(** Values that came through [BytesStr::try_from]. *)
Definition header_ok h : Prop :=
  match h with
  | HAuthority v | HScheme v | HPath v =>
      utf8_valid (bytes_str v) = true /\ is_bytes (bytes_str v)
  | _ => True
  end.

(** Equal as the peer sees them: the same name and the same value bytes. *)
Definition same_field h h' : Prop :=
  Header.name h = Header.name h' /\ Header.value_slice h = Header.value_slice h'.

#[export] Instance same_field_equiv : Equivalence same_field.
Proof.
  split; unfold same_field; [done|intros ?? [-> ->]; done|].
  intros ??? [-> ->] [-> ->]. done.
Qed.

Lemma name_as_ref_inj n n' : name_as_ref n = name_as_ref n' -> n = n'.
Proof.
  intros E. pose proof (name_as_ref_from n) as H. rewrite E, name_as_ref_from in H. naive_solver.
Qed.

Lemma value_eq_same h h' :
  Header.name h = Header.name h' -> Header.value_eq h h' = true -> same_field h h'.
Proof.
  unfold same_field.
  destruct h, h'; simpl; intros; simplify_eq; case_bool_decide; naive_solver.
Qed.

(** The wire form of a header: the sum that the dynamic table accounts. *)
Lemma hlen_wire h :
  Header.hlen h = 32 + len (Name.as_slice (Header.name h)) + len (Header.value_slice h).
Proof.
  destruct h as [| | | | |s]; simpl; unfold Header.field_len; try (unfold len; simpl; lia).
  rewrite status_as_str_digits. unfold len. simpl. lia.
Qed.

Lemma same_field_hlen h h' : same_field h h' -> Header.hlen h = Header.hlen h'.
Proof. intros [E1 E2]. by rewrite !hlen_wire, E1, E2. Qed.

(** A literal header read back from its name and value bytes. *)
Lemma header_new_wire h :
  header_ok h ->
  exists h', Header.new (Name.as_slice (Header.name h)) (Header.value_slice h) = Ok h' /\
    same_field h h' /\ header_ok h' /\ Header.is_sensitive h' = false.
Proof.
  destruct h as [n v|s|m|s|s|st]; simpl; intros Hok.
  - destruct (value_as_ref_from v) as (v' & Hv & Ev).
    unfold Header.new. rewrite bool_decide_false by apply name_nonempty.
    pose proof (name_nonempty n) as Hn. pose proof (name_not_colon n) as Hc.
    pose proof (name_as_ref_from n) as Hf.
    destruct (name_as_ref n) as [|b bs] eqn:En; [done|]. simpl in *.
    destruct (Z.eqb_spec b 58); [naive_solver|]. rewrite Hf, Hv. simpl.
    eexists; split; [done|]. apply value_from_bytes_ref in Hv as [? ?].
    by repeat split.
  - destruct Hok as [Hu Hb]. unfold Header.new. simpl. unfold BytesStr_try_from.
    rewrite Hu. simpl. eexists; split; [done|]. by destruct s.
  - unfold Header.new. simpl. rewrite method_as_ref_from. simpl. by eexists.
  - destruct Hok as [Hu Hb]. unfold Header.new. simpl. unfold BytesStr_try_from.
    rewrite Hu. simpl. eexists; split; [done|]. by destruct s.
  - destruct Hok as [Hu Hb]. unfold Header.new. simpl. unfold BytesStr_try_from.
    rewrite Hu. simpl. eexists; split; [done|]. by destruct s.
  - unfold Header.new. simpl. rewrite status_as_str_from. simpl. by eexists.
Qed.

Lemma into_entry_wire h :
  header_ok h ->
  exists h', Name.into_entry (Header.name h) (Header.value_slice h) = Ok h' /\
    same_field h h' /\ header_ok h' /\ Header.is_sensitive h' = false.
Proof.
  destruct h as [n v|s|m|s|s|st]; simpl; intros Hok;
    unfold BytesStr_try_from; rewrite ?method_as_ref_from, ?status_as_str_from;
    try destruct Hok as [Hu Hb]; rewrite ?Hu; simpl;
    try (eexists; split; [done|]; try destruct s; done).
  destruct (value_as_ref_from v) as (v' & Hv & Ev). rewrite Hv. simpl.
  eexists; split; [done|]. apply value_from_bytes_ref in Hv as [? ?]. by repeat split.
Qed.

End Agree.
