(* ===== verification/Frames.v ===== *)
(** * HTTP/2 frames without header blocks

    [http/h2/frame]: the 9-byte frame head and the DATA, SETTINGS, PING,
    GOAWAY, RST_STREAM, WINDOW_UPDATE and PRIORITY frames, with their [load]
    and [encode] functions.  A [&[u8]] payload is a list of bytes; encoders
    write to any [BufMut]. *)

From S2P Require Import Prelude Bytes H2Types Huffman.

(** [http/h2/frame/mod.rs] Error *)
Inductive FrameError :=
  | BadFrameSize
  | TooMuchPadding
  | InvalidSettingValue
  | InvalidWindowUpdateValue
  | InvalidPayloadLength
  | InvalidPayloadAckSettings
  | InvalidStreamId
  | MalformedMessage
  | InvalidDependencyId
  | Hpack (e : DecoderError).

#[export] Instance FrameError_eq_dec : EqDecision FrameError.
Proof. solve_decision. Defined.

(** [http/h2/frame/mod.rs] unpack_octets_4 *)
Definition unpack_octets_4 {E} (buf : list Z) (offset : Z) : outcome E Z :=
  b0 ← index buf (offset + 0);
  b1 ← index buf (offset + 1);
  b2 ← index buf (offset + 2);
  b3 ← index buf (offset + 3);
  Ok (Z.lor (Z.lor (Z.lor (as_u32 (Z.shiftl b0 24)) (as_u32 (Z.shiftl b1 16)))
            (as_u32 (Z.shiftl b2 8)))
       (as_u32 (Z.shiftl b3 0))).

(** [http/h2/frame/mod.rs] HEADER_LEN *)
Definition HEADER_LEN : Z := 9.

(** ** The frame head *)

(** [http/h2/frame/head.rs] Kind *)
Inductive Kind :=
  | KData
  | KHeaders
  | KPriority
  | KReset
  | KSettings
  | KPushPromise
  | KPing
  | KGoAway
  | KWindowUpdate
  | KContinuation
  | KUnknown.

#[export] Instance Kind_eq_dec : EqDecision Kind.
Proof. solve_decision. Defined.

Module Kind.

(** [http/h2/frame/head.rs] Kind::new *)
Definition new (byte : Z) : Kind :=
  match byte with
  | 0 => KData
  | 1 => KHeaders
  | 2 => KPriority
  | 3 => KReset
  | 4 => KSettings
  | 5 => KPushPromise
  | 6 => KPing
  | 7 => KGoAway
  | 8 => KWindowUpdate
  | 9 => KContinuation
  | _ => KUnknown
  end.

(** The discriminants of [#[repr(u8)] enum Kind], for [kind as u8]. *)
Definition as_byte (k : Kind) : Z :=
  match k with
  | KData => 0
  | KHeaders => 1
  | KPriority => 2
  | KReset => 3
  | KSettings => 4
  | KPushPromise => 5
  | KPing => 6
  | KGoAway => 7
  | KWindowUpdate => 8
  | KContinuation => 9
  | KUnknown => 10
  end.

Lemma new_as_byte k : new (as_byte k) = k.
Proof. by destruct k. Qed.

Lemma as_byte_range k : is_u8 (as_byte k).
Proof. by destruct k. Qed.

End Kind.

(** [http/h2/frame/head.rs] Head *)
Record Head := MkHead {
  head_kind : Kind;
  head_flag : Z;
  head_stream_id : StreamId;
}.

#[export] Instance Head_eq_dec : EqDecision Head.
Proof. solve_decision. Defined.

Module Head.

(** [http/h2/frame/head.rs] Head::new *)
Definition new (kind : Kind) (flag : Z) (stream_id : StreamId) : Head :=
  MkHead kind flag stream_id.

(** [http/h2/frame/head.rs] Head::parse *)
Definition parse {E} (header : list Z) : outcome E Head :=
  rest ← slice_from header 5;
  '(stream_id, _) ← StreamId.parse rest;
  kind ← index header 3;
  flag ← index header 4;
  Ok (MkHead (Kind.new kind) flag stream_id).

(** [http/h2/frame/head.rs] Head::encode_len *)
Definition encode_len (h : Head) : Z := HEADER_LEN.

(** [http/h2/frame/head.rs] Head::encode *)
Definition encode `{BufMut B} (h : Head) (payload_len : Z) (dst : B) : B :=
  let dst := put_uint dst payload_len 3 in
  let dst := put_u8 dst (Kind.as_byte (head_kind h)) in
  let dst := put_u8 dst (head_flag h) in
  put_u32 dst (stream_id_u32 (head_stream_id h)).

(** A head whose fields are in range. *)
Definition wf (h : Head) : Prop :=
  is_u8 (head_flag h) /\ StreamId.valid (head_stream_id h).

End Head.

(** ** Padding *)

(** [http/h2/frame/util.rs] strip_padding *)
Definition strip_padding `{BytesMut B} (payload : B) : outcome FrameError (B * Z) :=
  let payload_len := len (buf_bytes payload) in
  if payload_len =? 0 then Err TooMuchPadding
  else
    pad_len ← index (buf_bytes payload) 0;
    if payload_len <=? pad_len then Err TooMuchPadding
    else
      let '(_, payload) := bm_split_to payload 1 in
      let '(payload, _) := bm_split_off payload (Z.to_nat (payload_len - pad_len - 1)) in
      Ok (payload, as_u8 pad_len).

(** ** PING *)

(** [http/h2/frame/ping.rs] Ping *)
Record Ping := MkPing { ping_ack : bool; ping_payload : list Z }.

Module Ping.

Definition ACK_FLAG : Z := 1.

(** [http/h2/frame/ping.rs] SHUTDOWN_PAYLOAD *)
Definition SHUTDOWN : list Z := [0x0b; 0x7b; 0xa2; 0xf0; 0x8b; 0x9b; 0xfe; 0x54].
(** [http/h2/frame/ping.rs] USER_PAYLOAD *)
Definition USER : list Z := [0x3b; 0x7c; 0xdb; 0x7a; 0x0b; 0x87; 0x16; 0xb4].

(** [http/h2/frame/ping.rs] Ping::new *)
Definition new (payload : list Z) : Ping := MkPing false payload.
(** [http/h2/frame/ping.rs] Ping::pong *)
Definition pong (payload : list Z) : Ping := MkPing true payload.

(** [http/h2/frame/ping.rs] Ping::load *)
Definition load (head : Head) (bytes : list Z) : outcome FrameError Ping :=
  if negb (StreamId.is_zero (head_stream_id head)) then Err InvalidStreamId
  else if negb (len bytes =? 8) then Err BadFrameSize
  else
    let payload := bytes in
    let ack := negb (Z.land (head_flag head) ACK_FLAG =? 0) in
    Ok (MkPing ack payload).

(** [http/h2/frame/ping.rs] Ping::encode *)
Definition encode `{BufMut B} (p : Ping) (dst : B) : B :=
  let sz := len (ping_payload p) in
  let flags := if ping_ack p then ACK_FLAG else 0 in
  let head := Head.new KPing flags StreamId.ZERO in
  let dst := Head.encode head sz dst in
  put_slice dst (ping_payload p).

(** The payload type is [[u8; 8]]. *)
Definition wf (p : Ping) : Prop := len (ping_payload p) = 8 /\ is_bytes (ping_payload p).

End Ping.

(** ** RST_STREAM *)

(** [http/h2/frame/reset.rs] Reset *)
Record Reset := MkReset { reset_stream_id : StreamId; reset_error_code : Reason }.

Module Reset.

(** [http/h2/frame/reset.rs] Reset::new *)
Definition new (stream_id : StreamId) (error : Reason) : Reset := MkReset stream_id error.

(** [http/h2/frame/reset.rs] Reset::load *)
Definition load (head : Head) (payload : list Z) : outcome FrameError Reset :=
  if negb (len payload =? 4) then Err InvalidPayloadLength
  else
    error_code ← unpack_octets_4 payload 0;
    Ok (MkReset (head_stream_id head) (MkReason error_code)).

(** [http/h2/frame/reset.rs] Reset::encode *)
Definition encode `{BufMut B} (r : Reset) (dst : B) : B :=
  let head := Head.new KReset 0 (reset_stream_id r) in
  let dst := Head.encode head 4 dst in
  put_u32 dst (reason_u32 (reset_error_code r)).

Definition wf (r : Reset) : Prop :=
  StreamId.valid (reset_stream_id r) /\ is_u32 (reason_u32 (reset_error_code r)).

End Reset.

(** ** WINDOW_UPDATE *)

(** [http/h2/frame/window_update.rs] WindowUpdate *)
Record WindowUpdate := MkWindowUpdate {
  wu_stream_id : StreamId;
  wu_size_increment : Z;
}.

Module WindowUpdate.

(** [http/h2/frame/window_update.rs] SIZE_INCREMENT_MASK *)
Definition SIZE_INCREMENT_MASK : Z := Z.shiftl 1 31.

(** [http/h2/frame/window_update.rs] WindowUpdate::new *)
Definition new (stream_id : StreamId) (size_increment : Z) : WindowUpdate :=
  MkWindowUpdate stream_id size_increment.

(** [http/h2/frame/window_update.rs] WindowUpdate::load *)
Definition load (head : Head) (payload : list Z) : outcome FrameError WindowUpdate :=
  if negb (len payload =? 4) then Err BadFrameSize
  else
    unpacked ← unpack_octets_4 payload 0;
    let size_increment := Z.land unpacked (not_u 32 SIZE_INCREMENT_MASK) in
    if size_increment =? 0 then Err InvalidWindowUpdateValue
    else Ok (MkWindowUpdate (head_stream_id head) size_increment).

(** [http/h2/frame/window_update.rs] WindowUpdate::encode *)
Definition encode `{BufMut B} (w : WindowUpdate) (dst : B) : B :=
  let head := Head.new KWindowUpdate 0 (wu_stream_id w) in
  let dst := Head.encode head 4 dst in
  put_u32 dst (wu_size_increment w).

(** The increments RFC 7540 6.9 allows. *)
Definition wf (w : WindowUpdate) : Prop :=
  StreamId.valid (wu_stream_id w) /\ 1 <= wu_size_increment w < 2 ^ 31.

End WindowUpdate.

(** ** GOAWAY *)

(** [http/h2/frame/go_away.rs] GoAway *)
Record GoAway := MkGoAway {
  ga_last_stream_id : StreamId;
  ga_error_code : Reason;
  ga_debug_data : list Z;
}.

Module GoAway.

(** [http/h2/frame/go_away.rs] GoAway::new *)
Definition new (last_stream_id : StreamId) (reason : Reason) : GoAway :=
  MkGoAway last_stream_id reason [].

(** [http/h2/frame/go_away.rs] GoAway::load *)
Definition load (payload : list Z) : outcome FrameError GoAway :=
  if len payload <? 8 then Err BadFrameSize
  else
    first ← slice_to payload 4;
    '(last_stream_id, _) ← StreamId.parse first;
    error_code ← unpack_octets_4 payload 4;
    debug_data ← slice_from payload 8;
    Ok (MkGoAway last_stream_id (MkReason error_code) debug_data).

(** [http/h2/frame/go_away.rs] GoAway::encode *)
Definition encode `{BufMut B} (g : GoAway) (dst : B) : B :=
  let head := Head.new KGoAway 0 StreamId.ZERO in
  let dst := Head.encode head 8 dst in
  let dst := put_u32 dst (stream_id_u32 (ga_last_stream_id g)) in
  put_u32 dst (reason_u32 (ga_error_code g)).

Definition wf (g : GoAway) : Prop :=
  StreamId.valid (ga_last_stream_id g) /\ is_u32 (reason_u32 (ga_error_code g)).

End GoAway.

(** ** PRIORITY *)

(** [http/h2/frame/priority.rs] StreamDependency *)
Record StreamDependency := MkStreamDependency {
  dependency_id : StreamId;
  sd_weight : Z;
  is_exclusive : bool;
}.

(** [http/h2/frame/priority.rs] Priority *)
Record Priority := MkPriority {
  pri_stream_id : StreamId;
  pri_dependency : StreamDependency;
}.

(** [http/h2/frame/priority.rs] StreamDependency::load *)
Definition StreamDependency_load (src : list Z) : outcome FrameError StreamDependency :=
  if negb (len src =? 5) then Err InvalidPayloadLength
  else
    first ← slice_to src 4;
    '(dependency_id, is_exclusive) ← StreamId.parse first;
    weight ← index src 4;
    Ok (MkStreamDependency dependency_id weight is_exclusive).

(** [http/h2/frame/priority.rs] Priority::load *)
Definition Priority_load (head : Head) (payload : list Z) : outcome FrameError Priority :=
  dependency ← StreamDependency_load payload;
  if decide (dependency_id dependency = head_stream_id head) then Err InvalidDependencyId
  else Ok (MkPriority (head_stream_id head) dependency).

(** ** DATA *)

(** [http/h2/frame/data.rs] DataFlags *)
Record DataFlags := MkDataFlags { data_flags_bits : Z }.

Module DataFlags.

Definition END_STREAM : Z := 0x1.
Definition PADDED : Z := 0x8.
Definition ALL : Z := Z.lor END_STREAM PADDED.

(** [http/h2/frame/data.rs] DataFlags::load *)
Definition load (bits : Z) : DataFlags := MkDataFlags (Z.land bits ALL).
(** [http/h2/frame/data.rs] DataFlags::is_end_stream *)
Definition is_end_stream (f : DataFlags) : bool :=
  Z.land (data_flags_bits f) END_STREAM =? END_STREAM.
(** [http/h2/frame/data.rs] DataFlags::set_end_stream *)
Definition set_end_stream (f : DataFlags) : DataFlags :=
  MkDataFlags (Z.lor (data_flags_bits f) END_STREAM).
(** [http/h2/frame/data.rs] DataFlags::unset_end_stream *)
Definition unset_end_stream (f : DataFlags) : DataFlags :=
  MkDataFlags (Z.land (data_flags_bits f) (not_u 8 END_STREAM)).
(** [http/h2/frame/data.rs] DataFlags::is_padded *)
Definition is_padded (f : DataFlags) : bool :=
  Z.land (data_flags_bits f) PADDED =? PADDED.
(** [http/h2/frame/data.rs] DataFlags::set_padded *)
Definition set_padded (f : DataFlags) : DataFlags :=
  MkDataFlags (Z.lor (data_flags_bits f) PADDED).
(** [http/h2/frame/data.rs] DataFlags as Default::default *)
Definition default : DataFlags := MkDataFlags 0.

End DataFlags.

(** [http/h2/frame/data.rs] Data *)
Record Data (T : Type) := MkData {
  data_stream_id : StreamId;
  data_data : T;
  data_flags : DataFlags;
  data_pad_len : option Z;
}.
Arguments MkData {T}.
Arguments data_stream_id {T}.
Arguments data_data {T}.
Arguments data_flags {T}.
Arguments data_pad_len {T}.

Module Data.

(** [http/h2/frame/data.rs] Data::new *)
Definition new {E T} (stream_id : StreamId) (payload : T) : outcome E (Data T) :=
  _ ← assert_ (negb (StreamId.is_zero stream_id));
  Ok (MkData stream_id payload DataFlags.default None).

(** [http/h2/frame/data.rs] Data::is_end_stream *)
Definition is_end_stream {T} (d : Data T) : bool :=
  DataFlags.is_end_stream (data_flags d).

(** [http/h2/frame/data.rs] Data::set_end_stream *)
Definition set_end_stream {T} (d : Data T) (val : bool) : Data T :=
  MkData (data_stream_id d) (data_data d)
    (if val then DataFlags.set_end_stream (data_flags d)
     else DataFlags.unset_end_stream (data_flags d))
    (data_pad_len d).

(** [http/h2/frame/data.rs] Data::is_padded *)
Definition is_padded {T} (d : Data T) : bool := DataFlags.is_padded (data_flags d).

(** [http/h2/frame/data.rs] Data::set_padded *)
Definition set_padded {T} (d : Data T) : Data T :=
  MkData (data_stream_id d) (data_data d) (DataFlags.set_padded (data_flags d))
    (data_pad_len d).

(** [http/h2/frame/data.rs] Data::head *)
Definition head {T} (d : Data T) : Head :=
  Head.new KData (data_flags_bits (data_flags d)) (data_stream_id d).

(** [http/h2/frame/data.rs] Data::map *)
Definition map {T U} (f : T -> U) (d : Data T) : Data U :=
  MkData (data_stream_id d) (f (data_data d)) (data_flags d) (data_pad_len d).

(** [http/h2/frame/data.rs] Data::load *)
Definition load `{BytesMut B} (head : Head) (payload : B) : outcome FrameError (Data B) :=
  let flags := DataFlags.load (head_flag head) in
  if StreamId.is_zero (head_stream_id head) then Err InvalidStreamId
  else
    '(payload, pad_len) ←
      (if DataFlags.is_padded flags then
         '(payload, len) ← strip_padding payload;
         Ok (payload, Some len)
       else Ok (payload, None));
    Ok (MkData (head_stream_id head) payload flags pad_len).

(** [http/h2/frame/data.rs] Data::encode_chunk *)
Definition encode_chunk {E} `{Buf T} `{BufMut B} (d : Data T) (dst : B) :
    outcome E (Data T * B) :=
  let len := remaining (data_data d) in
  _ ← assert_ (len <=? remaining_mut dst);
  let dst := Head.encode (head d) len dst in
  let '(dst, data) := put dst (data_data d) in
  Ok (MkData (data_stream_id d) data (data_flags d) (data_pad_len d), dst).

End Data.

(** ** SETTINGS *)

(** [http/h2/frame/settings.rs] SettingsFlags *)
Record SettingsFlags := MkSettingsFlags { settings_flags_bits : Z }.

#[export] Instance SettingsFlags_eq_dec : EqDecision SettingsFlags.
Proof. solve_decision. Defined.

Module SettingsFlags.

Definition ACK : Z := 0x1.
Definition ALL : Z := ACK.

(** [http/h2/frame/settings.rs] SettingsFlags::empty *)
Definition empty : SettingsFlags := MkSettingsFlags 0.
(** [http/h2/frame/settings.rs] SettingsFlags::load *)
Definition load (bits : Z) : SettingsFlags := MkSettingsFlags (Z.land bits ALL).
(** [http/h2/frame/settings.rs] SettingsFlags::ack *)
Definition ack : SettingsFlags := MkSettingsFlags ACK.
(** [http/h2/frame/settings.rs] SettingsFlags::is_ack *)
Definition is_ack (f : SettingsFlags) : bool :=
  Z.land (settings_flags_bits f) ACK =? ACK.

End SettingsFlags.

(** [http/h2/frame/settings.rs] Setting *)
Inductive Setting :=
  | HeaderTableSize (val : Z)
  | EnablePush (val : Z)
  | MaxConcurrentStreams (val : Z)
  | InitialWindowSize (val : Z)
  | MaxFrameSize (val : Z)
  | MaxHeaderListSize (val : Z).

(** [http/h2/frame/settings.rs] Settings *)
Record Settings := MkSettings {
  settings_flags : SettingsFlags;
  header_table_size : option Z;
  enable_push : option Z;
  max_concurrent_streams : option Z;
  initial_window_size : option Z;
  max_frame_size : option Z;
  max_header_list_size : option Z;
}.

#[export] Instance Settings_eq_dec : EqDecision Settings.
Proof. solve_decision. Defined.

Definition DEFAULT_SETTINGS_HEADER_TABLE_SIZE : Z := 4096.
Definition DEFAULT_INITIAL_WINDOW_SIZE : Z := 65535.
Definition DEFAULT_MAX_FRAME_SIZE : Z := 16384.
Definition MAX_INITIAL_WINDOW_SIZE : Z := Z.shiftl 1 31 - 1.
Definition MAX_MAX_FRAME_SIZE : Z := Z.shiftl 1 24 - 1.

Module Setting.

(** [http/h2/frame/settings.rs] Setting::from_id *)
Definition from_id (id val : Z) : option Setting :=
  match id with
  | 1 => Some (HeaderTableSize val)
  | 2 => Some (EnablePush val)
  | 3 => Some (MaxConcurrentStreams val)
  | 4 => Some (InitialWindowSize val)
  | 5 => Some (MaxFrameSize val)
  | 6 => Some (MaxHeaderListSize val)
  | _ => None
  end.

(** [http/h2/frame/settings.rs] Setting::load *)
Definition load {E} (raw : list Z) : outcome E (option Setting) :=
  b0 ← index raw 0;
  b1 ← index raw 1;
  let id := Z.lor (as_u16 (Z.shiftl b0 8)) b1 in
  val ← unpack_octets_4 raw 2;
  Ok (from_id id val).

(** [http/h2/frame/settings.rs] Setting::encode *)
Definition encode `{BufMut B} (s : Setting) (dst : B) : B :=
  let '(kind, val) :=
    match s with
    | HeaderTableSize v => (1, v)
    | EnablePush v => (2, v)
    | MaxConcurrentStreams v => (3, v)
    | InitialWindowSize v => (4, v)
    | MaxFrameSize v => (5, v)
    | MaxHeaderListSize v => (6, v)
    end in
  let dst := put_u16 dst kind in
  put_u32 dst val.

End Setting.

Module Settings.

(** The derived [Default]. *)
Definition default : Settings :=
  MkSettings (MkSettingsFlags 0) None None None None None None.

(** [http/h2/frame/settings.rs] Settings::ack *)
Definition ack : Settings :=
  MkSettings SettingsFlags.ack None None None None None None.

(** [http/h2/frame/settings.rs] Settings::is_ack *)
Definition is_ack (s : Settings) : bool := SettingsFlags.is_ack (settings_flags s).

Definition set_header_table_size (v : option Z) (s : Settings) : Settings :=
  let (fl, hts, ep, mcs, iws, mfs, mhls) := s in MkSettings fl v ep mcs iws mfs mhls.
Definition put_enable_push (v : option Z) (s : Settings) : Settings :=
  let (fl, hts, ep, mcs, iws, mfs, mhls) := s in MkSettings fl hts v mcs iws mfs mhls.
(** [http/h2/frame/settings.rs] Settings::set_max_concurrent_streams *)
Definition set_max_concurrent_streams (max : option Z) (s : Settings) : Settings :=
  let (fl, hts, ep, mcs, iws, mfs, mhls) := s in MkSettings fl hts ep max iws mfs mhls.
(** [http/h2/frame/settings.rs] Settings::set_initial_window_size *)
Definition set_initial_window_size (size : option Z) (s : Settings) : Settings :=
  let (fl, hts, ep, mcs, iws, mfs, mhls) := s in MkSettings fl hts ep mcs size mfs mhls.
Definition put_max_frame_size (size : option Z) (s : Settings) : Settings :=
  let (fl, hts, ep, mcs, iws, mfs, mhls) := s in MkSettings fl hts ep mcs iws size mhls.
(** [http/h2/frame/settings.rs] Settings::set_max_header_list_size *)
Definition set_max_header_list_size (size : option Z) (s : Settings) : Settings :=
  let (fl, hts, ep, mcs, iws, mfs, mhls) := s in MkSettings fl hts ep mcs iws mfs size.

(** [http/h2/frame/settings.rs] Settings::set_max_frame_size *)
Definition set_max_frame_size {E} (size : option Z) (s : Settings) : outcome E Settings :=
  _ ← match size with
      | Some val =>
          assert_ ((DEFAULT_MAX_FRAME_SIZE <=? val) && (val <=? MAX_MAX_FRAME_SIZE))
      | None => Ok tt
      end;
  Ok (put_max_frame_size size s).

(** [http/h2/frame/settings.rs] Settings::is_push_enabled *)
Definition is_push_enabled (s : Settings) : bool :=
  negb (from_option id 1 (enable_push s) =? 0).

(** [http/h2/frame/settings.rs] Settings::set_enable_push *)
Definition set_enable_push (enable : bool) (s : Settings) : Settings :=
  put_enable_push (Some (Z.b2z enable)) s.

(** The body of the loop of [load]: one raw setting. *)
Definition load_one (settings : Settings) (setting : option Setting) :
    outcome FrameError Settings :=
  match setting with
  | Some (HeaderTableSize val) => Ok (set_header_table_size (Some val) settings)
  | Some (EnablePush val) =>
      if (val =? 0) || (val =? 1) then Ok (put_enable_push (Some val) settings)
      else Err InvalidSettingValue
  | Some (MaxConcurrentStreams val) =>
      Ok (set_max_concurrent_streams (Some val) settings)
  | Some (InitialWindowSize val) =>
      if MAX_INITIAL_WINDOW_SIZE <? val then Err InvalidSettingValue
      else Ok (set_initial_window_size (Some val) settings)
  | Some (MaxFrameSize val) =>
      if (val <? DEFAULT_MAX_FRAME_SIZE) || (MAX_MAX_FRAME_SIZE <? val)
      then Err InvalidSettingValue
      else Ok (put_max_frame_size (Some val) settings)
  | Some (MaxHeaderListSize val) => Ok (set_max_header_list_size (Some val) settings)
  | None => Ok settings
  end.

Fixpoint load_loop (settings : Settings) (raws : list (list Z)) :
    outcome FrameError Settings :=
  match raws with
  | [] => Ok settings
  | raw :: raws =>
      setting ← Setting.load raw;
      settings ← load_one settings setting;
      load_loop settings raws
  end.

(** [http/h2/frame/settings.rs] Settings::load *)
Definition load (head : Head) (payload : list Z) : outcome FrameError Settings :=
  if negb (StreamId.is_zero (head_stream_id head)) then Err InvalidStreamId
  else
    let flag := SettingsFlags.load (head_flag head) in
    if SettingsFlags.is_ack flag then
      if negb (len payload =? 0) then Err InvalidPayloadLength
      else Ok ack
    else if negb (len payload mod 6 =? 0) then Err InvalidPayloadAckSettings
    else load_loop default (chunks 6 payload).

(** [http/h2/frame/settings.rs] Settings::for_each *)
Definition for_each {S} (s : Settings) (f : S -> Setting -> S) (acc : S) : S :=
  let call (o : option Z) (c : Z -> Setting) (acc : S) :=
    match o with Some v => f acc (c v) | None => acc end in
  let acc := call (header_table_size s) HeaderTableSize acc in
  let acc := call (enable_push s) EnablePush acc in
  let acc := call (max_concurrent_streams s) MaxConcurrentStreams acc in
  let acc := call (initial_window_size s) InitialWindowSize acc in
  let acc := call (max_frame_size s) MaxFrameSize acc in
  call (max_header_list_size s) MaxHeaderListSize acc.

(** [http/h2/frame/settings.rs] Settings::payload_len *)
Definition payload_len (s : Settings) : Z := for_each s (fun len _ => len + 6) 0.

(** [http/h2/frame/settings.rs] Settings::encode *)
Definition encode `{BufMut B} (s : Settings) (dst : B) : B :=
  let head := Head.new KSettings (settings_flags_bits (settings_flags s)) StreamId.ZERO in
  let payload_len := payload_len s in
  let dst := Head.encode head payload_len dst in
  for_each s (fun dst setting => Setting.encode setting dst) dst.

(** The values RFC 7540 6.5.2 allows, and an ACK without settings. *)
Definition opt_ok (P : Z -> Prop) (o : option Z) : Prop :=
  match o with Some v => P v | None => True end.

Definition wf (s : Settings) : Prop :=
  opt_ok is_u32 (header_table_size s) /\
  opt_ok (fun v => v = 0 \/ v = 1) (enable_push s) /\
  opt_ok is_u32 (max_concurrent_streams s) /\
  opt_ok (fun v => 0 <= v < 2 ^ 31) (initial_window_size s) /\
  opt_ok (fun v => 2 ^ 14 <= v < 2 ^ 24) (max_frame_size s) /\
  opt_ok is_u32 (max_header_list_size s) /\
  (s = ack \/ settings_flags s = SettingsFlags.empty).

End Settings.
