(* ===== verification/FramesCorrect.v ===== *)
(** * HTTP/2 frames: correctness

    Every encoder appends the 9-byte head and the payload of RFC 7540 4.1 to
    its destination; loading that payload under the parsed head gives the
    frame back; the loaders accept only in-range values and never panic. *)

From S2P Require Import Prelude Bytes H2Types Huffman Frames.

(** ** Writers *)

(** [writes f s]: [f] appends [s] to any destination with room for it. *)
Definition writes `{BufMut B} (f : B -> B) (s : list Z) : Prop :=
  forall dst, len s <= remaining_mut dst ->
    buf_bytes (f dst) = buf_bytes dst ++ s /\
    remaining_mut (f dst) = remaining_mut dst - len s.

Section Writes.
Context `{BufMut B}.
Implicit Types f g : B -> B.

Lemma writes_put_slice s : writes (fun dst : B => put_slice dst s) s.
Proof. intros dst Hr. by rewrite put_slice_bytes, put_slice_remaining. Qed.

Lemma writes_id : writes (fun dst : B => dst) [].
Proof. intros dst Hr. rewrite app_nil_r. split; [done|]. unfold len. simpl. lia. Qed.

Lemma writes_comp f g s1 s2 :
  writes f s1 -> writes g s2 -> writes (fun dst => g (f dst)) (s1 ++ s2).
Proof.
  intros Hf Hg dst Hr. rewrite len_app in *.
  pose proof (len_nonneg s1). pose proof (len_nonneg s2).
  destruct (Hf dst) as [F1 F2]; [lia|].
  destruct (Hg (f dst)) as [G1 G2]; [lia|].
  rewrite G1, G2, F1, F2, (assoc_L (++)). split; [done|lia].
Qed.

Lemma writes_then f s1 s2 :
  writes f s1 -> writes (fun dst => put_slice (f dst) s2) (s1 ++ s2).
Proof.
  intros Hf. apply (writes_comp f (fun d => put_slice d s2)); [done|].
  apply writes_put_slice.
Qed.

Lemma writes_bytes f s dst :
  writes f s -> len s <= remaining_mut dst -> buf_bytes (f dst) = buf_bytes dst ++ s.
Proof. intros Hf Hr. by destruct (Hf dst Hr). Qed.

Lemma writes_ext f g s : (forall dst, f dst = g dst) -> writes f s -> writes g s.
Proof. intros E Hf dst. rewrite <- E. apply Hf. Qed.

Lemma writes_eq f s s' : s = s' -> writes f s -> writes f s'.
Proof. by intros ->. Qed.

End Writes.
#[global] Opaque writes.
#[export] Hint Resolve writes_then writes_put_slice writes_id : kayrx.

(** The wire image of a frame. *)
Definition head_bytes (h : Head) (payload_len : Z) : list Z :=
  to_be_bytes 3 payload_len ++ [Kind.as_byte (head_kind h)] ++ [head_flag h] ++
  to_be_bytes 4 (stream_id_u32 (head_stream_id h)).

Definition frame_bytes (h : Head) (payload : list Z) : list Z :=
  head_bytes h (len payload) ++ payload.

Lemma head_encode_writes `{BufMut B} h n :
  writes (fun dst : B => Head.encode h n dst) (head_bytes h n).
Proof.
  unfold Head.encode, head_bytes, put_uint, put_u8, put_u32.
  rewrite !(assoc_L (++)).
  do 3 apply writes_then. apply writes_put_slice.
Qed.

Lemma head_bytes_length h n : length (head_bytes h n) = 9%nat.
Proof. unfold head_bytes. by rewrite !length_app, !to_be_bytes_length. Qed.

(** Parsing the first nine bytes gives the head back, for any payload. *)
Lemma head_parse_bytes {E} h n rest :
  Head.wf h -> Head.parse (head_bytes h n ++ rest) = (Ok h : outcome E _).
Proof.
  intros [Hf Hid]. unfold Head.parse, head_bytes.
  rewrite <- !(assoc_L (++)).
  rewrite (assoc_L (++) (to_be_bytes 3 n)), (assoc_L (++) (_ ++ _) [head_flag h]).
  rewrite slice_from_app; [|unfold len; by rewrite !length_app, to_be_bytes_length].
  cbn [mbind outcome_bind].
  rewrite StreamId.parse_spec by (unfold StreamId.valid in Hid; int_lia).
  cbn [mbind outcome_bind].
  pose proof (to_be_bytes_length 3 n) as Hl.
  destruct (to_be_bytes 3 n) as [|a [|b [|c [|]]]]; try done.
  simpl. rewrite Kind.new_as_byte. unfold StreamId.valid in Hid.
  rewrite Z.mod_small by lia. by destruct h as [k f []].
Qed.

(** ** Reading back 32-bit fields *)

Lemma unpack_octets_4_take {E} l off :
  is_bytes l -> 0 <= off -> off + 4 <= len l ->
  unpack_octets_4 l off =
    (Ok (from_be_bytes (take 4 (drop (Z.to_nat off) l))) : outcome E _).
Proof.
  intros Hl H0 H4. unfold unpack_octets_4, index.
  rewrite !(proj2 (Z.ltb_ge _ 0)) by lia.
  assert (forall k, 0 <= k -> l !! Z.to_nat (off + k) = drop (Z.to_nat off) l !! Z.to_nat k)
    as E' by (intros k Hk; rewrite lookup_drop; f_equal; lia).
  rewrite !E' by lia. pose proof (is_bytes_drop (Z.to_nat off) l Hl) as Hd.
  assert (4 <= length (drop (Z.to_nat off) l))%nat as Hlen
    by (rewrite length_drop; unfold len in H4; lia).
  clear E'. destruct (drop (Z.to_nat off) l) as [|a [|b [|c [|d r]]]]; simpl in Hlen; try lia.
  simpl. apply is_bytes_cons in Hd as [Ha Hd]. apply is_bytes_cons in Hd as [Hb Hd].
  apply is_bytes_cons in Hd as [Hc Hd]. apply is_bytes_cons in Hd as [Hd _].
  rewrite from_be_bytes_4. unfold as_u32. unfold in_u in *. f_equal.
  rewrite !Z.shiftl_mul_pow2, !wrapu_id by (try lia; unfold in_u; pow_consts; lia).
  rewrite (lor_disjoint a) by (pow_consts; lia).
  replace (a * 2 ^ 24 + b * 2 ^ 16) with ((a * 2 ^ 8 + b) * 2 ^ 16) by lia.
  rewrite (lor_disjoint _ (c * 2 ^ 8) 16) by (pow_consts; lia).
  replace ((a * 2 ^ 8 + b) * 2 ^ 16 + c * 2 ^ 8)
    with ((a * 2 ^ 16 + b * 2 ^ 8 + c) * 2 ^ 8) by lia.
  rewrite (lor_disjoint _ (d * 2 ^ 0) 8) by (pow_consts; lia). lia.
Qed.

Lemma unpack_octets_4_app {E} pre n rest off :
  off = len pre -> is_u32 n -> is_bytes pre -> is_bytes rest ->
  unpack_octets_4 (pre ++ to_be_bytes 4 n ++ rest) off = (Ok n : outcome E _).
Proof.
  intros -> Hn Hp Hr. pose proof (to_be_bytes_length 4 n) as Hl.
  pose proof (to_be_bytes_is_bytes 4 n) as Hb.
  rewrite unpack_octets_4_take.
  - unfold len. rewrite Nat2Z.id, drop_app_length, <- Hl, take_app_length.
    rewrite from_to_be_bytes; [done|]. rewrite Hl.
    unfold in_u in Hn. by change (256 ^ _) with (2 ^ 32).
  - by rewrite !is_bytes_app.
  - apply len_nonneg.
  - rewrite !len_app. unfold len at 3. rewrite Hl. pose proof (len_nonneg rest). lia.
Qed.

Lemma unpack_octets_4_whole {E} n :
  is_u32 n -> unpack_octets_4 (to_be_bytes 4 n) 0 = (Ok n : outcome E _).
Proof.
  intros Hn. rewrite <- (app_nil_r (to_be_bytes 4 n)).
  apply (unpack_octets_4_app []); auto with kayrx.
Qed.

Lemma unpack_octets_4_total {E} l off :
  is_bytes l -> 0 <= off -> off + 4 <= len l ->
  exists n, unpack_octets_4 l off = (Ok n : outcome E _) /\ is_u32 n.
Proof.
  intros Hl H0 H4. eexists; split; [by apply unpack_octets_4_take|].
  pose proof (from_be_bytes_range (take 4 (drop (Z.to_nat off) l))) as Hr.
  assert (len (take 4 (drop (Z.to_nat off) l)) = 4) as E4.
  { unfold len in *. rewrite length_take, length_drop. lia. }
  rewrite E4 in Hr. apply Hr. auto with kayrx.
Qed.

Lemma len_be n z : len (to_be_bytes n z) = Z.of_nat n.
Proof. unfold len. by rewrite to_be_bytes_length. Qed.

#[local] Opaque to_be_bytes unpack_octets_4 StreamId.parse slice_to slice_from.

(** ** The frames with a fixed layout *)

(** What a frame type owes its peer: encoding writes a frame of kind [k], at
    most 45 bytes, whose payload loads to [f'] under the head that was written. *)
Definition roundtrips {F} `{BufMut B} (k : Kind) (encode : F -> B -> B)
    (load : Head -> list Z -> outcome FrameError F) (f f' : F) : Prop :=
  exists h payload,
    head_kind h = k /\ Head.wf h /\ len payload <= 36 /\
    writes (encode f) (frame_bytes h payload) /\
    load h payload = Ok f'.

Section Control.
Context `{BufMut B}.

Lemma roundtrips_intro {F} (encode : F -> B -> B) load f f' h payload :
  Head.wf h -> len payload <= 36 ->
  writes (encode f) (frame_bytes h payload) -> load h payload = Ok f' ->
  roundtrips (head_kind h) encode load f f'.
Proof. intros Hh Hl Hw Hf. by exists h, payload. Qed.

Lemma valid_zero : StreamId.valid StreamId.ZERO.
Proof. done. Qed.

Lemma ping_roundtrips p : Ping.wf p -> roundtrips (B:=B) KPing Ping.encode Ping.load p p.
Proof.
  intros [H8 Hb]. destruct p as [ack payload]; simpl in *.
  apply (roundtrips_intro _ _ _ _
    (Head.new KPing (if ack then 1 else 0) StreamId.ZERO) payload).
  - split; [by destruct ack | apply valid_zero].
  - lia.
  - apply writes_then, head_encode_writes.
  - unfold Ping.load. simpl. rewrite H8. by destruct ack.
Qed.

Lemma reset_roundtrips r : Reset.wf r -> roundtrips (B:=B) KReset Reset.encode Reset.load r r.
Proof.
  intros [Hid Hr]. destruct r as [id [code]]; simpl in *.
  apply (roundtrips_intro _ _ _ _ (Head.new KReset 0 id) (to_be_bytes 4 code)).
  - done.
  - by rewrite len_be.
  - apply writes_then. rewrite len_be. apply head_encode_writes.
  - unfold Reset.load. rewrite len_be. simpl.
    by rewrite unpack_octets_4_whole.
Qed.

Lemma window_update_roundtrips w :
  WindowUpdate.wf w -> roundtrips (B:=B) KWindowUpdate WindowUpdate.encode WindowUpdate.load w w.
Proof.
  intros [Hid Hs]. destruct w as [id sz]; simpl in *.
  apply (roundtrips_intro _ _ _ _ (Head.new KWindowUpdate 0 id) (to_be_bytes 4 sz)).
  - done.
  - by rewrite len_be.
  - apply writes_then. rewrite len_be. apply head_encode_writes.
  - unfold WindowUpdate.load. rewrite len_be. simpl.
    rewrite unpack_octets_4_whole by int_lia. simpl.
    change (not_u 32 _) with (2 ^ 31 - 1). rewrite land_low, Z.mod_small by lia.
    case_bools; [lia|done].
Qed.

(** GOAWAY carries debug data that the encoder leaves out: the frame comes
    back without it. *)
Lemma go_away_roundtrips g :
  GoAway.wf g ->
  roundtrips (B:=B) KGoAway GoAway.encode (fun _ => GoAway.load) g
    (GoAway.new (ga_last_stream_id g) (ga_error_code g)).
Proof.
  intros [Hid Hr]. destruct g as [[id] [code] dbg]; simpl in *.
  unfold StreamId.valid in Hid; simpl in Hid.
  exists (Head.new KGoAway 0 StreamId.ZERO), (to_be_bytes 4 id ++ to_be_bytes 4 code).
  split_and!; [done|done|by rewrite len_app, !len_be| |].
  - unfold frame_bytes. rewrite (assoc_L (++)), len_app, !len_be.
    do 2 apply writes_then. apply head_encode_writes.
  - unfold GoAway.load. rewrite len_app, !len_be. simpl.
    rewrite slice_to_app by (by rewrite len_be). simpl.
    rewrite <- (app_nil_r (to_be_bytes 4 id)) at 1.
    rewrite StreamId.parse_spec by int_lia. simpl.
    rewrite <- (app_nil_r (to_be_bytes 4 code)) at 1.
    rewrite (unpack_octets_4_app _ _ []);
      [|by rewrite len_be|done|apply to_be_bytes_is_bytes|constructor]. simpl.
    rewrite <- (app_nil_r (_ ++ _)), slice_from_app by (by rewrite len_app, !len_be).
    simpl. by rewrite Z.mod_small by lia.
Qed.

End Control.

(** ** Padding *)

(** [strip_padding] accepts exactly the payloads [pad_len :: data ++ pad]
    with [pad_len] bytes of padding, and keeps [data]. *)
Lemma strip_padding_spec `{BytesMut B} (payload : B) :
  is_bytes (buf_bytes payload) ->
  match strip_padding payload with
  | Ok (payload', n) =>
      exists pad, buf_bytes payload = n :: buf_bytes payload' ++ pad /\ len pad = n
  | Err e => e = TooMuchPadding /\
      forall data pad, buf_bytes payload <> len pad :: data ++ pad
  | Panic => False
  end.
Proof.
  intros Hb. unfold strip_padding. set (l := buf_bytes payload) in *.
  destruct l as [|p rest] eqn:El.
  { simpl. split; [done|]. congruence. }
  change (index (p :: rest) 0) with (Ok p : outcome FrameError Z).
  cbn [mbind outcome_bind]. rewrite len_cons. apply is_bytes_cons in Hb as [Hp _].
  pose proof (len_nonneg rest).
  destruct (1 + len rest =? 0) eqn:?; reflect_bools; [lia|].
  destruct (1 + len rest <=? p) eqn:?; reflect_bools.
  { split; [done|]. intros data pad [= -> ->]. rewrite len_app in *.
    pose proof (len_nonneg data). lia. }
  assert (buf_bytes payload = p :: rest) as El' by done.
  destruct (bm_split_to_bytes payload 1) as [_ S2]; [rewrite El'; simpl; lia|].
  destruct (bm_split_to payload 1) as [x payload1]; simpl in S2.
  rewrite El' in S2. simpl in S2. rewrite drop_0 in S2. unfold bm_split_off.
  destruct (bm_split_to_bytes payload1 (Z.to_nat (1 + len rest - p - 1))) as [S3 _].
  { rewrite S2. unfold len, in_u in *. lia. }
  destruct (bm_split_to payload1 _) as [payload2 y]; simpl in S3.
  exists (drop (Z.to_nat (1 + len rest - p - 1)) rest).
  replace (as_u8 p) with p by int_lia. rewrite S3, S2, take_drop. split; [done|].
  unfold len, in_u in *. rewrite length_drop. lia.
Qed.

(** ** DATA *)

Lemma data_encode_chunk `{Buf T} `{BufMut B} {E} (d : Data T) (dst : B) :
  let payload := src_bytes (data_data d) in
  len (frame_bytes (Data.head d) payload) <= remaining_mut dst ->
  exists d' dst',
    Data.encode_chunk d dst = (Ok (d', dst') : outcome E _) /\
    buf_bytes dst' = buf_bytes dst ++ frame_bytes (Data.head d) payload /\
    src_bytes (data_data d') = [].
Proof.
  intros payload Hr. unfold Data.encode_chunk, remaining. subst payload.
  pose proof (len_nonneg (head_bytes (Data.head d) (len (src_bytes (data_data d))))).
  unfold frame_bytes in *. rewrite len_app in Hr.
  rewrite (proj2 (Z.leb_le _ _)) by lia. simpl. do 2 eexists. split; [done|]. split.
  - refine (writes_bytes _ _ dst (writes_then _ _ _ (head_encode_writes _ _)) _).
    rewrite len_app. lia.
  - simpl. rewrite advance_bytes, drop_ge; done || lia.
Qed.

Definition DataFlags_wf (f : DataFlags) : Prop :=
  Z.land (data_flags_bits f) DataFlags.ALL = data_flags_bits f.

Lemma DataFlags_wf_range f : DataFlags_wf f -> is_u8 (data_flags_bits f).
Proof.
  unfold DataFlags_wf. intros <-. by apply land_range.
Qed.

Lemma DataFlags_load_wf f : DataFlags_wf f -> DataFlags.load (data_flags_bits f) = f.
Proof. destruct f as [bits]. unfold DataFlags_wf, DataFlags.load. simpl. by intros ->. Qed.

(** ** SETTINGS *)

Definition setting_id (s : Setting) : Z :=
  match s with
  | HeaderTableSize _ => 1
  | EnablePush _ => 2
  | MaxConcurrentStreams _ => 3
  | InitialWindowSize _ => 4
  | MaxFrameSize _ => 5
  | MaxHeaderListSize _ => 6
  end.
Definition setting_val (s : Setting) : Z :=
  match s with
  | HeaderTableSize v | EnablePush v | MaxConcurrentStreams v
  | InitialWindowSize v | MaxFrameSize v | MaxHeaderListSize v => v
  end.
Definition setting_bytes (s : Setting) : list Z :=
  to_be_bytes 2 (setting_id s) ++ to_be_bytes 4 (setting_val s).

Lemma setting_bytes_length s : length (setting_bytes s) = 6%nat.
Proof. unfold setting_bytes. by rewrite length_app, !to_be_bytes_length. Qed.

Lemma setting_bytes_len s : len (setting_bytes s) = 6.
Proof. unfold len. by rewrite setting_bytes_length. Qed.

Lemma setting_encode_writes `{BufMut B} s :
  writes (B:=B) (Setting.encode s) (setting_bytes s).
Proof.
  unfold Setting.encode, setting_bytes.
  destruct s; apply writes_then, writes_put_slice.
Qed.

Lemma setting_load_bytes {E} s :
  is_u32 (setting_val s) ->
  Setting.load (setting_bytes s) = (Ok (Some s) : outcome E _).
Proof.
  intros Hv. unfold Setting.load, setting_bytes.
  assert (unpack_octets_4 (to_be_bytes 2 (setting_id s) ++ to_be_bytes 4 (setting_val s)) 2
    = (Ok (setting_val s) : outcome E _)) as ->.
  { rewrite <- (app_nil_r (to_be_bytes 4 _)). apply unpack_octets_4_app; auto with kayrx.
    apply to_be_bytes_is_bytes. }
  by destruct s.
Qed.

(** The settings that [for_each] visits, in its order. *)
Definition settings_list (s : Settings) : list Setting :=
  option_list (HeaderTableSize <$> header_table_size s) ++
  option_list (EnablePush <$> enable_push s) ++
  option_list (MaxConcurrentStreams <$> max_concurrent_streams s) ++
  option_list (InitialWindowSize <$> initial_window_size s) ++
  option_list (MaxFrameSize <$> max_frame_size s) ++
  option_list (MaxHeaderListSize <$> max_header_list_size s).

Lemma for_each_foldl {A} s (f : A -> Setting -> A) acc :
  Settings.for_each s f acc = foldl f acc (settings_list s).
Proof. by destruct s as [fl [] [] [] [] [] []]. Qed.

Definition settings_payload (s : Settings) : list Z := concat (setting_bytes <$> settings_list s).

Lemma foldl_writes `{BufMut B} {A} (f : A -> B -> B) (g : A -> list Z) l :
  (forall a, writes (f a) (g a)) ->
  writes (fun dst => foldl (fun dst a => f a dst) dst l) (concat (g <$> l)).
Proof.
  intros Hf. induction l as [|a l IH]; simpl; [apply writes_id|].
  apply (writes_comp (f a) (fun dst => foldl (fun dst a => f a dst) dst l)); auto.
Qed.

Lemma settings_payload_len s : Settings.payload_len s = len (settings_payload s).
Proof.
  unfold Settings.payload_len, settings_payload. rewrite for_each_foldl.
  replace (len (concat _)) with (0 + len (concat (setting_bytes <$> settings_list s))) by lia.
  generalize 0. induction (settings_list s) as [|x l IH]; intros z; csimpl; [unfold len; simpl; lia|].
  rewrite IH, len_app, setting_bytes_len. lia.
Qed.

Lemma settings_encode_writes `{BufMut B} s :
  writes (B:=B) (Settings.encode s)
    (frame_bytes (Head.new KSettings (settings_flags_bits (settings_flags s)) StreamId.ZERO)
      (settings_payload s)).
Proof.
  unfold frame_bytes. rewrite <- settings_payload_len.
  assert (forall dst : B, Settings.encode s dst =
    foldl (fun dst x => Setting.encode x dst)
      (Head.encode (Head.new KSettings (settings_flags_bits (settings_flags s)) StreamId.ZERO)
        (Settings.payload_len s) dst) (settings_list s)) as E.
  { intros dst. unfold Settings.encode. by rewrite for_each_foldl. }
  eapply writes_ext; [intros dst; symmetry; apply E|].
  apply (writes_comp _ (fun dst => foldl (fun dst x => Setting.encode x dst) dst _));
    [apply head_encode_writes|]. apply foldl_writes, setting_encode_writes.
Qed.

Lemma chunks_settings l : chunks 6 (concat (setting_bytes <$> l)) = setting_bytes <$> l.
Proof.
  induction l as [|s l IH]; [done|]. csimpl.
  by rewrite chunks_app, IH by (try apply setting_bytes_length; lia).
Qed.

(** One accepted setting: the bounds of [load_one], and its effect. *)
Definition setting_ok (x : Setting) : Prop :=
  match x with
  | HeaderTableSize v | MaxConcurrentStreams v | MaxHeaderListSize v => is_u32 v
  | EnablePush v => v = 0 \/ v = 1
  | InitialWindowSize v => 0 <= v < 2 ^ 31
  | MaxFrameSize v => 2 ^ 14 <= v < 2 ^ 24
  end.
Definition apply_setting (s : Settings) (x : Setting) : Settings :=
  match x with
  | HeaderTableSize v => Settings.set_header_table_size (Some v) s
  | EnablePush v => Settings.put_enable_push (Some v) s
  | MaxConcurrentStreams v => Settings.set_max_concurrent_streams (Some v) s
  | InitialWindowSize v => Settings.set_initial_window_size (Some v) s
  | MaxFrameSize v => Settings.put_max_frame_size (Some v) s
  | MaxHeaderListSize v => Settings.set_max_header_list_size (Some v) s
  end.

Lemma setting_ok_u32 x : setting_ok x -> is_u32 (setting_val x).
Proof. destruct x; simpl; int_lia. Qed.

Lemma load_one_spec s x :
  is_u32 (setting_val x) ->
  (setting_ok x /\ Settings.load_one s (Some x) = Ok (apply_setting s x)) \/
  (~ setting_ok x /\ Settings.load_one s (Some x) = Err InvalidSettingValue).
Proof.
  unfold in_u. destruct x as [v|v|v|v|v|v]; simpl; intros Hv; try (by left);
    change MAX_INITIAL_WINDOW_SIZE with (2 ^ 31 - 1);
    change DEFAULT_MAX_FRAME_SIZE with (2 ^ 14);
    change MAX_MAX_FRAME_SIZE with (2 ^ 24 - 1).
  - destruct (Z.eqb_spec v 0), (Z.eqb_spec v 1); simpl; naive_solver.
  - case_match; reflect_bools; [right|left]; (split; [lia|done]).
  - destruct (Z.ltb_spec v (2 ^ 14)); [right|]; simpl; [split; [lia|done]|].
    case_match; reflect_bools; [right|left]; (split; [lia|done]).
Qed.

Lemma load_one_ok s x : setting_ok x -> Settings.load_one s (Some x) = Ok (apply_setting s x).
Proof.
  intros Hx. destruct (load_one_spec s x) as [[_ ?]|[? _]]; [|done|done].
  by apply setting_ok_u32.
Qed.

Lemma settings_loop_list s0 l :
  Forall setting_ok l ->
  Settings.load_loop s0 (setting_bytes <$> l) = Ok (foldl apply_setting s0 l).
Proof.
  intros Hl. revert s0. induction Hl as [|x l Hx Hl IH]; intros s0; [done|]. csimpl.
  rewrite setting_load_bytes by by apply setting_ok_u32. cbn [mbind outcome_bind].
  rewrite load_one_ok by done. apply IH.
Qed.

Lemma settings_list_ok s : Settings.wf s -> Forall setting_ok (settings_list s).
Proof.
  destruct s as [fl hts ep mcs iws mfs mhls]. intros (H1 & H2 & H3 & H4 & H5 & H6 & _).
  unfold settings_list. simpl in *.
  rewrite !Forall_app. split_and!;
    [destruct hts | destruct ep | destruct mcs | destruct iws | destruct mfs | destruct mhls];
    simpl in *; rewrite ?Forall_singleton; auto using Forall_nil_2.
Qed.

Lemma settings_list_fold s :
  settings_flags s = SettingsFlags.empty ->
  foldl apply_setting Settings.default (settings_list s) = s.
Proof. destruct s as [fl [] [] [] [] [] []]; simpl; by intros ->. Qed.

Lemma settings_roundtrips `{BufMut B} s :
  Settings.wf s -> roundtrips (B:=B) KSettings Settings.encode Settings.load s s.
Proof.
  intros Hs. pose proof Hs as (_ & _ & _ & _ & _ & _ & Hf).
  apply (roundtrips_intro _ _ _ _
    (Head.new KSettings (settings_flags_bits (settings_flags s)) StreamId.ZERO)
    (settings_payload s)).
  - destruct Hf as [->| ->]; done.
  - rewrite <- settings_payload_len. unfold Settings.payload_len. rewrite for_each_foldl.
    by destruct s as [fl [] [] [] [] [] []].
  - apply settings_encode_writes.
  - destruct Hf as [->|Hf]; [done|]. rewrite Hf.
    unfold Settings.load. simpl.
    rewrite <- settings_payload_len at 1. unfold Settings.payload_len.
    replace (Settings.for_each s _ 0 mod 6 =? 0) with true
      by (rewrite for_each_foldl; by destruct s as [fl [] [] [] [] [] []]).
    unfold settings_payload. simpl. rewrite chunks_settings, settings_loop_list.
    + f_equal. by apply settings_list_fold.
    + by apply settings_list_ok.
Qed.

(** ** What the loaders accept *)

Lemma setting_load_total {E} raw :
  length raw = 6%nat -> is_bytes raw ->
  exists o, Setting.load raw = (Ok o : outcome E _) /\
    match o with Some x => is_u32 (setting_val x) | None => True end.
Proof.
  intros Hl Hb. unfold Setting.load.
  destruct (unpack_octets_4_total (E:=E) raw 2) as (v & -> & Hv); [done|lia|unfold len; lia|].
  do 6 (destruct raw as [|? raw]; [done|]). cbn [mbind outcome_bind index].
  eexists; split; [done|]. unfold Setting.from_id.
  repeat case_match; simplify_eq; done.
Qed.

Lemma apply_setting_wf s x :
  Settings.wf s -> settings_flags s = SettingsFlags.empty -> setting_ok x ->
  Settings.wf (apply_setting s x) /\ settings_flags (apply_setting s x) = SettingsFlags.empty.
Proof.
  destruct s. unfold Settings.wf. simpl. intros (?&?&?&?&?&?&?) -> Hx.
  destruct x; simpl in *; split; auto 10.
Qed.

Lemma settings_loop_spec raws : forall s,
  Forall (fun c => length c = 6%nat /\ is_bytes c) raws ->
  Settings.wf s -> settings_flags s = SettingsFlags.empty ->
  match Settings.load_loop s raws with
  | Ok s' => Settings.wf s' /\ settings_flags s' = SettingsFlags.empty
  | Err e => e = InvalidSettingValue
  | Panic => False
  end.
Proof.
  induction raws as [|raw raws IH]; intros s Hr Hs Hf; [done|].
  apply Forall_cons in Hr as [[H6 Hb] Hr]. simpl.
  destruct (setting_load_total (E:=FrameError) raw) as (o & -> & Ho); [done..|].
  cbn [mbind outcome_bind]. destruct o as [x|]; [|by apply IH].
  destruct (load_one_spec s x Ho) as [[Hx ->]|[Hx ->]]; [|done].
  cbn [mbind outcome_bind]. destruct (apply_setting_wf s x) as [? ?]; [done..|].
  by apply IH.
Qed.

Lemma wf_ack : Settings.wf Settings.ack.
Proof. unfold Settings.wf. simpl. auto 10. Qed.
Lemma wf_default : Settings.wf Settings.default.
Proof. unfold Settings.wf. simpl. auto 10. Qed.

Lemma settings_load_spec head payload :
  is_bytes payload ->
  match Settings.load head payload with
  | Ok s => Settings.wf s /\ head_stream_id head = StreamId.ZERO /\
      Settings.is_ack s = Z.testbit (head_flag head) 0
  | Err e => e ∈ [InvalidStreamId; InvalidPayloadLength; InvalidPayloadAckSettings;
                  InvalidSettingValue]
  | Panic => False
  end.
Proof.
  intros Hb. unfold Settings.load.
  destruct (StreamId.is_zero (head_stream_id head)) eqn:Hz; simpl; [|set_solver].
  assert (head_stream_id head = StreamId.ZERO) as Hid.
  { destruct (head_stream_id head) as [i]. unfold StreamId.is_zero in Hz. simpl in Hz.
    reflect_bools. by subst. }
  assert (SettingsFlags.is_ack (SettingsFlags.load (head_flag head)) =
    Z.testbit (head_flag head) 0) as Hack.
  { unfold SettingsFlags.is_ack, SettingsFlags.load. cbn [settings_flags_bits].
    rewrite <- Z.land_assoc. change (Z.land SettingsFlags.ALL SettingsFlags.ACK) with 1.
    rewrite land_1. by destruct (Z.testbit _ _). }
  rewrite Hack. destruct (Z.testbit (head_flag head) 0) eqn:Hbit.
  - destruct (len payload =? 0); simpl; [|set_solver].
    split_and!; [apply wf_ack|done..].
  - destruct (len payload mod 6 =? 0) eqn:H6; simpl; [|set_solver]. reflect_bools.
    pose proof (settings_loop_spec (chunks 6 payload) Settings.default
      (chunks_exact is_u8 6 payload ltac:(lia) Hb H6) wf_default eq_refl) as Hloop.
    destruct (Settings.load_loop _ _) as [s|e|]; [|subst; set_solver|done].
    destruct Hloop as [? Hf]. split_and!; [done..|]. unfold Settings.is_ack. by rewrite Hf.
Qed.
