(* ===== verification/HpackPrim.v ===== *)
(** * HPACK primitives: integers and strings

    The prefixed integers of RFC 7541 5.1 ([decode_int] of
    [http/h2/hpack/decoder.rs], [encode_int] of [encoder.rs]) and the
    length-prefixed strings of 5.2 ([encode_str]); each encoder writes what
    the decoder reads back. *)

From S2P Require Import Prelude Bytes Huffman HuffmanCorrect FramesCorrect.

(** ** Decoding integers *)

Definition VARINT_MASK : Z := 0x7f.
Definition VARINT_FLAG : Z := 0x80.
Definition MAX_BYTES : Z := 5.

Section DecodeInt.
Context `{Buf B}.

(** The [while buf.has_remaining()] loop of [decode_int]; every round reads a
    byte, so as many rounds as there are bytes reach the exit. *)
Fixpoint decode_int_loop (fuel : nat) (bytes ret shift : Z) : SE B DecoderError Z :=
  match fuel with
  | O => throw (NeedMore_ IntegerUnderflow)
  | S fuel =>
      more ← gets has_remaining;
      if more : bool then
        b ← get_u8;
        let bytes := bytes + 1 in
        let ret := as_usize (ret + as_usize (Z.shiftl (Z.land b VARINT_MASK) shift)) in
        let shift := shift + 7 in
        if Z.land b VARINT_FLAG =? 0 then mret ret
        else if bytes =? MAX_BYTES then throw IntegerOverflow
        else decode_int_loop fuel bytes ret shift
      else throw (NeedMore_ IntegerUnderflow)
  end.

(** [http/h2/hpack/decoder.rs] decode_int *)
Definition decode_int (prefix_size : Z) : SE B DecoderError Z :=
  if (prefix_size <? 1) || (8 <? prefix_size) then throw InvalidIntegerPrefix
  else
    more ← gets has_remaining;
    if negb more then throw (NeedMore_ IntegerUnderflow)
    else
      let mask := if prefix_size =? 8 then 0xFF
                  else as_u8 (as_u8 (Z.shiftl 1 prefix_size) - 1) in
      b ← get_u8;
      let ret := Z.land b mask in
      if ret <? mask then mret ret
      else
        n ← gets remaining;
        decode_int_loop (Z.to_nat n) 1 ret 0.

(** [http/h2/hpack/decoder.rs] peek_u8 *)
Definition peek_u8 {E} : SE B E (option Z) :=
  more ← gets has_remaining;
  if more : bool then
    bytes ← gets src_bytes;
    b ← lift (index bytes 0);
    mret (Some b)
  else mret None.

End DecodeInt.

(** ** Encoding integers *)

(** [http/h2/hpack/encoder.rs] encode_int_one_byte *)
Definition encode_int_one_byte (value prefix_bits : Z) : bool :=
  value <? as_usize (Z.shiftl 1 prefix_bits) - 1.

Section EncodeInt.
Context `{BufMut B}.

Definition write {E} (f : B -> B) : SE B E () := modify f.

(** The [while value >= 128] loop of [encode_int]: a [usize] has at most ten
    groups of seven bits. *)
Fixpoint encode_int_loop (fuel : nat) (value rem : Z) : SE B EncoderError (Z * Z) :=
  match fuel with
  | O => panic
  | S fuel =>
      if 128 <=? value then
        if rem =? 0 then throw BufferOverflow
        else
          _ ← write (fun dst => put_u8 dst (Z.lor 0x80 (as_u8 value)));
          encode_int_loop fuel (Z.shiftr value 7) (rem - 1)
      else mret (value, rem)
  end.

(** [http/h2/hpack/encoder.rs] encode_int *)
Definition encode_int (value prefix_bits first_byte : Z) : SE B EncoderError () :=
  rem ← gets remaining_mut;
  if rem =? 0 then throw BufferOverflow
  else if encode_int_one_byte value prefix_bits then
    write (fun dst => put_u8 dst (Z.lor first_byte (as_u8 value)))
  else
    let low := as_usize (Z.shiftl 1 prefix_bits) - 1 in
    let value := as_usize (value - low) in
    if 0x0fffffff <? value then panic
    else
      _ ← write (fun dst => put_u8 dst (Z.lor first_byte (as_u8 low)));
      '(value, rem) ← encode_int_loop 10 value (rem - 1);
      if rem =? 0 then throw BufferOverflow
      else write (fun dst => put_u8 dst (as_u8 value)).

End EncodeInt.

(** ** The wire format of an integer *)

Fixpoint varint_fuel (fuel : nat) (n : Z) : list Z :=
  match fuel with
  | O => []
  | S fuel =>
      if n <? 128 then [n]
      else Z.lor 0x80 (n mod 256) :: varint_fuel fuel (n / 128)
  end.
Lemma varint_fuel_S fuel n :
  varint_fuel (S fuel) n =
    if n <? 128 then [n] else Z.lor 0x80 (n mod 256) :: varint_fuel fuel (n / 128).
Proof. done. Qed.
Definition varint (n : Z) : list Z := varint_fuel 10 n.

Definition int_bytes (prefix first v : Z) : list Z :=
  if v <? 2 ^ prefix - 1 then [Z.lor first v]
  else Z.lor first (2 ^ prefix - 1) :: varint (v - (2 ^ prefix - 1)).

(** The values both ends support: those whose continuation has at most four
    bytes. *)
Definition int_ok (prefix v : Z) : Prop := 0 <= v < 2 ^ prefix - 1 + 2 ^ 28.

(** A first byte that leaves the prefix bits free. *)
Definition first_ok (prefix first : Z) : Prop :=
  is_u8 first /\ Z.land first (2 ^ prefix - 1) = 0.

Lemma land_lor_low x m : Z.land (Z.lor 128 x) (Z.ones 7) = x mod 128 /\ Z.land (Z.lor 128 m) 128 <> 0.
Proof.
  split.
  - rewrite Z.land_lor_distr_l. change (Z.land 128 (Z.ones 7)) with 0.
    by rewrite Z.lor_0_l, Z.land_ones.
  - rewrite Z.land_lor_distr_l. change (Z.land 128 128) with 128.
    rewrite Z.lor_eq_0_iff. lia.
Qed.

Lemma small_byte n : 0 <= n < 128 -> Z.land n VARINT_MASK = n /\ Z.land n VARINT_FLAG = 0.
Proof.
  intros Hn. split.
  - change VARINT_MASK with (Z.ones 7). rewrite Z.land_ones by lia. by apply Z.mod_small.
  - change VARINT_FLAG with (2 ^ 7). rewrite land_top by (simpl; lia).
    by rewrite (proj2 (Z.leb_gt (2 ^ 7) n)) by lia.
Qed.

Lemma varint_fuel_enough k : forall f n, 
  0 <= n < 128 ^ Z.of_nat (S k) -> (k < f)%nat -> varint_fuel f n = varint_fuel (S k) n.
Proof.
  induction k as [|k IH]; intros [|f] n Hn Hf; try lia.
  - change (128 ^ Z.of_nat 1) with 128 in Hn. simpl.
    by rewrite (proj2 (Z.ltb_lt n 128)) by lia.
  - cbn [varint_fuel]. destruct (Z.ltb_spec n 128); [done|]. f_equal. apply (IH f); [|lia].
    rewrite Nat2Z.inj_succ, Z.pow_succ_r in Hn by lia.
    split; [apply Z.div_pos; lia | apply Z.div_lt_upper_bound; lia].
Qed.

Section DecodeProofs.
Context `{HB : Buf B}.
Implicit Types buf : B.

Lemma get_u8_cons {E} buf x l :
  src_bytes buf = x :: l ->
  get_u8 buf = (advance buf 1, Ok x : outcome E Z) /\ src_bytes (advance buf 1) = l.
Proof.
  intros Hb. unfold get_u8. rewrite Hb. split; [done|].
  rewrite advance_bytes by (rewrite Hb; simpl; lia). by rewrite Hb.
Qed.

Lemma has_remaining_cons buf x l : src_bytes buf = x :: l -> has_remaining buf = true.
Proof. intros Hb. unfold has_remaining. rewrite Hb, len_cons. pose proof (len_nonneg l). case_bools; lia || done. Qed.

(** One round of the loop on a non-empty source. *)
Lemma decode_int_loop_step fuel bytes ret shift buf x l :
  src_bytes buf = x :: l ->
  decode_int_loop (S fuel) bytes ret shift buf =
    let ret := as_usize (ret + as_usize (Z.shiftl (Z.land x VARINT_MASK) shift)) in
    let buf' := advance buf 1 in
    if Z.land x VARINT_FLAG =? 0 then (buf', Ok ret)
    else if bytes + 1 =? MAX_BYTES then (buf', Err IntegerOverflow)
    else decode_int_loop fuel (bytes + 1) ret (shift + 7) buf'.
Proof.
  intros Hb. cbn [decode_int_loop]. unfold mbind, SE_bind, gets.
  rewrite (has_remaining_cons buf x l Hb), (proj1 (get_u8_cons buf x l Hb)).
  by repeat case_match.
Qed.

Lemma decode_int_loop_varint k : forall n bytes ret shift fuel buf rest,
  0 <= n < 128 ^ Z.of_nat (S k) -> 1 <= bytes -> bytes + Z.of_nat (S k) <= MAX_BYTES ->
  shift = 7 * (bytes - 1) -> 0 <= ret -> ret + n * 2 ^ shift < 2 ^ 64 ->
  (length (src_bytes buf) <= fuel)%nat ->
  src_bytes buf = varint_fuel (S k) n ++ rest ->
  decode_int_loop fuel bytes ret shift buf =
    (advance buf (length (varint_fuel (S k) n)), Ok (ret + n * 2 ^ shift)).
Proof.
  induction k as [|k IH]; intros n bytes ret shift fuel buf rest Hn H1 H5 -> Hr H64 Hf Hb;
    cbn [varint_fuel] in *; (destruct (Z.ltb_spec n 128) as [Hlt|Hge];
    [destruct (small_byte n) as [E1 E2]; [lia|]|]).
  1,3: simpl in Hb; destruct fuel as [|fuel]; [rewrite Hb in Hf; simpl in Hf; lia|];
    rewrite (decode_int_loop_step _ _ _ _ _ _ _ Hb), E1, E2; simpl;
    rewrite Z.shiftl_mul_pow2 by lia;
    assert (0 <= n * 2 ^ (7 * (bytes - 1))) by (apply Z.mul_nonneg_nonneg; lia);
    unfold as_usize; rewrite !wrapu_id by (unfold in_u; rewrite ?wrapu_id; unfold in_u; lia);
    done.
  - change (128 ^ Z.of_nat 1) with 128 in Hn. lia.
  - simpl in Hb. destruct fuel as [|fuel]; [rewrite Hb in Hf; simpl in Hf; lia|].
    destruct (land_lor_low (n mod 256) (n mod 256)) as [E1 E2].
    change (Z.ones 7) with VARINT_MASK in E1. change 128 with VARINT_FLAG in E2 at 2.
    rewrite (decode_int_loop_step _ _ _ _ _ _ _ Hb), E1.
    rewrite (proj2 (Z.eqb_neq _ 0) E2).
    assert (bytes + 1 <> MAX_BYTES) as H5' by lia. rewrite (proj2 (Z.eqb_neq _ _) H5').
    cbv zeta. rewrite Nat2Z.inj_succ, Z.pow_succ_r in Hn by lia.
    assert (n mod 256 mod 128 = n mod 128) as -> by (Z.to_euclidean_division_equations; lia).
    assert (n = 128 * (n / 128) + n mod 128) as En by (apply Z.div_mod; lia).
    assert (2 ^ (7 * (bytes - 1) + 7) = 2 ^ (7 * (bytes - 1)) * 128) as Ep
      by (rewrite Z.pow_add_r by lia; done).
    set (P := 2 ^ (7 * (bytes - 1))) in *. assert (0 < P) by (unfold P; lia).
    pose proof (Z.mod_pos_bound n 128) as Hm. pose proof (Z.div_pos n 128) as Hd.
    assert (ret + n mod 128 * P < 2 ^ 64) as Hlow by nia.
    rewrite Z.shiftl_mul_pow2 by lia. fold P.
    unfold as_usize. rewrite !wrapu_id by (unfold in_u; rewrite ?wrapu_id; unfold in_u; nia).
    destruct (get_u8_cons (E:=()) buf _ _ Hb) as [_ Hb'].
    rewrite (IH (n / 128) (bytes + 1) _ _ fuel (advance buf 1) rest);
      [|split; [lia|apply Z.div_lt_upper_bound; lia]|lia|lia|lia|nia|rewrite Ep; nia| |done].
    + rewrite Ep. f_equal; [|f_equal; nia].
      apply advance_advance. rewrite Hb. simpl. rewrite length_app. lia.
    + rewrite Hb'. rewrite Hb in Hf. simpl in Hf. lia.
Qed.

Lemma prefix_mask p :
  1 <= p <= 8 ->
  (if p =? 8 then 0xFF else as_u8 (as_u8 (Z.shiftl 1 p) - 1)) = 2 ^ p - 1.
Proof.
  intros Hp. assert (p ∈ [1; 2; 3; 4; 5; 6; 7; 8]) as Hin by set_solver by lia.
  repeat (apply elem_of_cons in Hin as [->|Hin]; [done|]). set_solver.
Qed.

Lemma land_first p first v :
  0 <= p -> first_ok p first -> 0 <= v < 2 ^ p -> Z.land (Z.lor first v) (2 ^ p - 1) = v.
Proof.
  intros Hp [_ Hf] Hv. rewrite Z.land_lor_distr_l, Hf, Z.lor_0_l, land_low by lia.
  by apply Z.mod_small.
Qed.

(** The first byte of a non-empty source. *)
Lemma decode_int_first p buf x l :
  1 <= p <= 8 -> src_bytes buf = x :: l ->
  decode_int p buf =
    if Z.land x (2 ^ p - 1) <? 2 ^ p - 1
    then (advance buf 1, Ok (Z.land x (2 ^ p - 1)))
    else decode_int_loop (length l) 1 (Z.land x (2 ^ p - 1)) 0 (advance buf 1).
Proof.
  intros Hp Hb. unfold decode_int.
  rewrite (proj2 (Z.ltb_ge p 1)), (proj2 (Z.ltb_ge 8 p)) by lia. cbn [orb].
  unfold mbind, SE_bind, gets. rewrite (has_remaining_cons buf x l Hb). cbn [negb].
  destruct (get_u8_cons (E:=DecoderError) buf x l Hb) as [-> Hl].
  rewrite prefix_mask by done. case_match; [done|].
  unfold remaining. rewrite Hl. unfold len. rewrite Nat2Z.id. by repeat case_match.
Qed.

Lemma decode_int_app p first v buf rest :
  1 <= p <= 8 -> first_ok p first -> int_ok p v ->
  src_bytes buf = int_bytes p first v ++ rest ->
  decode_int p buf = (advance buf (length (int_bytes p first v)), Ok v).
Proof.
  intros Hp Hf Hv Hb. assert (2 ^ 1 <= 2 ^ p <= 2 ^ 8) as H2
    by (split; apply Z.pow_le_mono_r; lia).
  unfold int_ok in Hv. unfold int_bytes in *.
  destruct (Z.ltb_spec v (2 ^ p - 1)); simpl in Hb; rewrite (decode_int_first p _ _ _ Hp Hb).
  - rewrite land_first by (done || lia). by rewrite (proj2 (Z.ltb_lt v _)).
  - rewrite land_first by (done || lia). rewrite Z.ltb_irrefl.
    destruct (get_u8_cons (E:=()) buf _ _ Hb) as [_ Hb'].
    assert (0 <= v - (2 ^ p - 1) < 128 ^ Z.of_nat 4) as Hn by (simpl; lia).
    unfold varint in *. rewrite (varint_fuel_enough 3) in * by (done || lia).
    rewrite (decode_int_loop_varint 3 (v - (2 ^ p - 1)) 1 _ 0 _ _ rest);
      [|done|lia|unfold MAX_BYTES; lia|lia|lia|simpl; lia|by rewrite Hb'|done].
    f_equal; [|f_equal; simpl; lia]. apply advance_advance.
    rewrite Hb. cbn [length]. rewrite length_app. lia.
Qed.

(** On any input: at most five bytes are read, the value stays in the range
    that [encode_int] writes, and the errors are those of the RFC. *)
Definition int_result (buf : B) (k : nat) (lo hi : Z) (r : outcome DecoderError Z) : Prop :=
  (k <= length (src_bytes buf))%nat /\ Z.of_nat k <= hi /\
  match r with
  | Ok v => lo <= Z.of_nat k
  | Err e => e = NeedMore_ IntegerUnderflow \/ e = IntegerOverflow
  | Panic => False
  end.

Lemma decode_int_loop_bounds base : 0 <= base <= 255 ->
  forall fuel bytes ret shift buf,
  1 <= bytes <= 4 -> shift = 7 * (bytes - 1) -> 0 <= ret < base + 2 ^ shift ->
  exists k r, decode_int_loop fuel bytes ret shift buf = (advance buf k, r) /\
    int_result buf k 1 (5 - bytes) r /\
    (forall v, r = Ok v -> 0 <= v < base + 2 ^ 28).
Proof.
  intros Hbase. induction fuel as [|fuel IH]; intros bytes ret shift buf Hby -> Hret.
  { exists 0%nat, (Err (NeedMore_ IntegerUnderflow)). rewrite advance_0.
    repeat split; [lia|lia|by left|done|done]. }
  destruct (src_bytes buf) as [|x l] eqn:Hb.
  { exists 0%nat, (Err (NeedMore_ IntegerUnderflow)). rewrite advance_0.
    cbn [decode_int_loop]. unfold mbind, SE_bind, gets, has_remaining. rewrite Hb.
    repeat split; [lia|lia|by left|done|done]. }
  rewrite (decode_int_loop_step _ _ _ _ _ _ _ Hb). cbv zeta.
  assert (2 ^ (7 * (bytes - 1) + 7) = 2 ^ (7 * (bytes - 1)) * 128) as Ep
    by (rewrite Z.pow_add_r by lia; done).
  assert (2 ^ (7 * (bytes - 1) + 7) <= 2 ^ 28) as Hle by (apply Z.pow_le_mono_r; lia).
  set (P := 2 ^ (7 * (bytes - 1))) in *. assert (0 < P) by (unfold P; lia).
  change VARINT_MASK with (Z.ones 7). rewrite Z.land_ones, Z.shiftl_mul_pow2 by lia.
  fold P. pose proof (Z.mod_pos_bound x (2 ^ 7)) as Hm. set (m := x mod 2 ^ 7) in *.
  assert (0 <= m * P <= 127 * P) as HmP by nia.
  unfold as_usize. rewrite !wrapu_id by (unfold in_u; rewrite ?wrapu_id; unfold in_u; lia).
  destruct (get_u8_cons (E:=()) buf x l Hb) as [_ Hb'].
  destruct (Z.land x VARINT_FLAG =? 0).
  { exists 1%nat, (Ok (ret + m * P)). unfold int_result. rewrite Hb. simpl.
    repeat split; try lia; intros; simplify_eq; lia. }
  destruct (Z.eqb_spec (bytes + 1) MAX_BYTES) as [E5|E5]; unfold MAX_BYTES in E5.
  { exists 1%nat, (Err IntegerOverflow). unfold int_result. rewrite Hb. simpl.
    repeat split; try lia; [by right|done|done]. }
  destruct (IH (bytes + 1) (ret + m * P) (7 * (bytes - 1) + 7) (advance buf 1))
    as (k & r & -> & (Hk & Hk' & Hr) & Hv); [lia|lia|rewrite Ep; lia|].
  rewrite Hb' in Hk. exists (S k), r. split.
  - f_equal. rewrite advance_advance by (rewrite Hb; simpl; lia). done.
  - split; [|done]. unfold int_result. rewrite Hb. simpl.
    split_and!; [lia|lia|]. destruct r; [lia|done..].
Qed.

Lemma decode_int_bounds p buf :
  1 <= p <= 8 -> is_bytes (src_bytes buf) ->
  exists k r, decode_int p buf = (advance buf k, r) /\ int_result buf k 1 5 r /\
    (forall v, r = Ok v -> int_ok p v).
Proof.
  intros Hp Hbs. assert (2 ^ 1 <= 2 ^ p <= 2 ^ 8) as H2
    by (split; apply Z.pow_le_mono_r; lia).
  destruct (src_bytes buf) as [|x l] eqn:Hb.
  { exists 0%nat, (Err (NeedMore_ IntegerUnderflow)). rewrite advance_0.
    unfold decode_int. rewrite (proj2 (Z.ltb_ge p 1)), (proj2 (Z.ltb_ge 8 p)) by lia.
    cbn [orb]. unfold mbind, SE_bind, gets, has_remaining. rewrite Hb. simpl.
    repeat split; [lia|lia|by left|done|done]. }
  rewrite (decode_int_first p _ _ _ Hp Hb). rewrite land_low by lia.
  pose proof (Z.mod_pos_bound x (2 ^ p)) as Hm. set (m := x mod 2 ^ p) in *.
  destruct (get_u8_cons (E:=()) buf x l Hb) as [_ Hb'].
  destruct (Z.ltb_spec m (2 ^ p - 1)).
  { exists 1%nat, (Ok m). unfold int_result, int_ok. rewrite Hb. simpl.
    repeat split; try lia; intros; simplify_eq; lia. }
  destruct (decode_int_loop_bounds (2 ^ p - 1) ltac:(lia) (length l) 1 m 0 (advance buf 1))
    as (k & r & -> & (Hk & Hk' & Hr) & Hv); [lia|lia|simpl; lia|].
  rewrite Hb' in Hk. exists (S k), r. split.
  - f_equal. rewrite advance_advance by (rewrite Hb; simpl; lia). done.
  - split; [|done]. unfold int_result. rewrite Hb. simpl.
    split_and!; [lia|lia|]. destruct r; [lia|done..].
Qed.

End DecodeProofs.

(** ** Encoding writes the wire format *)

(** [emits c out]: with room for [out] the code [c] appends it, otherwise it
    reports the overflow. *)
Definition emits `{BufMut B} (c : SE B EncoderError ()) (out : list Z) : Prop :=
  forall dst, 0 <= remaining_mut dst ->
    if len out <=? remaining_mut dst then
      exists dst', c dst = (dst', Ok tt) /\ buf_bytes dst' = buf_bytes dst ++ out /\
        remaining_mut dst' = remaining_mut dst - len out
    else (c dst).2 = Err BufferOverflow.

Section EncodeProofs.
Context `{HB : BufMut B}.

(** Appending one byte before the rest of the output. *)
Lemma put_u8_room (dst : B) x :
  1 <= remaining_mut dst ->
  buf_bytes (put_u8 dst x) = buf_bytes dst ++ [x] /\
  remaining_mut (put_u8 dst x) = remaining_mut dst - 1.
Proof.
  intros Hr. unfold put_u8.
  rewrite put_slice_bytes, put_slice_remaining by (unfold len; simpl; lia).
  unfold len. simpl. split; [done|lia].
Qed.

Definition encode_tail (fuel : nat) (value rem : Z) : SE B EncoderError () :=
  '(value, rem) ← encode_int_loop fuel value rem;
  if rem =? 0 then throw BufferOverflow
  else write (fun dst => put_u8 dst (as_u8 value)).

Lemma encode_tail_spec k : forall fuel n (dst : B),
  0 <= n < 128 ^ Z.of_nat (S k) -> (k < fuel)%nat -> 0 <= remaining_mut dst ->
  let out := varint_fuel (S k) n in
  if len out <=? remaining_mut dst then
    exists dst', encode_tail fuel n (remaining_mut dst) dst = (dst', Ok tt) /\
      buf_bytes dst' = buf_bytes dst ++ out /\
      remaining_mut dst' = remaining_mut dst - len out
  else (encode_tail fuel n (remaining_mut dst) dst).2 = Err BufferOverflow.
Proof.
  induction k as [|k IH]; intros [|fuel] n dst Hn Hf Hr; try lia; unfold encode_tail;
    rewrite varint_fuel_S; cbn [encode_int_loop]; destruct (Z.ltb_spec n 128) as [Hlt|Hge].
  1,3: rewrite (proj2 (Z.leb_gt 128 n)) by lia; unfold mbind, SE_bind, mret, SE_ret;
    replace (as_u8 n) with n by int_lia; change (len [n]) with 1;
    destruct (Z.leb_spec 1 (remaining_mut dst)); destruct (Z.eqb_spec (remaining_mut dst) 0);
    try lia; [|done]; destruct (put_u8_room dst n); [lia|]; by eexists.
  - change (128 ^ Z.of_nat 1) with 128 in Hn. lia.
  - rewrite (proj2 (Z.leb_le 128 n)) by lia. cbv zeta. rewrite len_cons.
    set (out := varint_fuel (S k) (n / 128)) in *. pose proof (len_nonneg out) as Hl.
    destruct (Z.eqb_spec (remaining_mut dst) 0) as [E|E].
    { rewrite (proj2 (Z.leb_gt _ _)) by lia. done. }
    change (as_u8 n) with (n mod 256). set (x := Z.lor 128 (n mod 256)).
    destruct (put_u8_room dst x) as [P1 P2]; [lia|].
    assert (0 <= n / 128 < 128 ^ Z.of_nat (S k)) as Hn'.
    { rewrite Nat2Z.inj_succ, Z.pow_succ_r in Hn by lia.
      split; [apply Z.div_pos; lia | apply Z.div_lt_upper_bound; lia]. }
    specialize (IH fuel (n / 128) (put_u8 dst x) Hn' ltac:(lia) ltac:(lia)).
    cbv zeta in IH. fold out in IH. rewrite P1, P2 in IH.
    unfold encode_tail, mbind, SE_bind, write, modify in *.
    rewrite Z.shiftr_div_pow2 by lia. change (2 ^ 7) with 128.
    destruct (Z.leb_spec (len out) (remaining_mut dst - 1)),
      (Z.leb_spec (1 + len out) (remaining_mut dst)); try lia; [|done].
    destruct IH as (dst' & -> & I2 & I3). exists dst'. split; [done|].
    rewrite I2, I3, <- (assoc_L (++)). split; [done|lia].
Qed.

Lemma encode_int_emits p first v :
  1 <= p <= 8 -> int_ok p v -> emits (B:=B) (encode_int v p first) (int_bytes p first v).
Proof.
  intros Hp Hv dst Hr. unfold int_ok in Hv. unfold encode_int, int_bytes, encode_int_one_byte.
  assert (2 ^ 1 <= 2 ^ p <= 2 ^ 8) as H2 by (split; apply Z.pow_le_mono_r; lia).
  rewrite Z.shiftl_1_l. replace (as_usize (2 ^ p)) with (2 ^ p)
    by (symmetry; apply wrapu_id; unfold in_u; lia).
  rewrite !bind_gets.
  destruct (Z.eqb_spec (remaining_mut dst) 0) as [E0|E0].
  { rewrite (proj2 (Z.leb_gt _ _)); [done|].
    destruct (v <? 2 ^ p - 1); rewrite len_cons; unfold len; lia. }
  destruct (Z.ltb_spec v (2 ^ p - 1)) as [Hlt|Hge].
  { change (len [Z.lor first v]) with 1. rewrite (proj2 (Z.leb_le _ _)) by lia.
    replace (as_u8 v) with v by (symmetry; apply wrapu_id; unfold in_u; lia).
    destruct (put_u8_room dst (Z.lor first v)); [lia|]. by eexists. }
  set (n := v - (2 ^ p - 1)) in *. replace (as_usize n) with n
    by (symmetry; apply wrapu_id; unfold in_u, n; lia).
  rewrite (proj2 (Z.ltb_ge 0x0fffffff n)) by (unfold n; lia).
  replace (as_u8 (2 ^ p - 1)) with (2 ^ p - 1)
    by (symmetry; apply wrapu_id; unfold in_u; lia).
  rewrite len_cons. set (x := Z.lor first (2 ^ p - 1)).
  destruct (put_u8_room dst x) as [P1 P2]; [lia|].
  assert (0 <= n < 128 ^ Z.of_nat 4) as Hn by (unfold n; simpl; lia).
  pose proof (encode_tail_spec 3 10 n (put_u8 dst x) Hn ltac:(lia) ltac:(lia)) as T.
  unfold varint. rewrite (varint_fuel_enough 3) by (done || lia).
  cbv zeta in T. rewrite P1, P2 in T. unfold write at 1, modify.
  set (out := varint_fuel 4 n) in *.
  destruct (Z.leb_spec (len out) (remaining_mut dst - 1)),
    (Z.leb_spec (1 + len out) (remaining_mut dst)); try lia; [|exact T].
  destruct T as (dst' & I1 & I2 & I3). exists dst'. split; [exact I1|].
  rewrite I2, I3, <- (assoc_L (++)). split; [done|lia].
Qed.

End EncodeProofs.

(** ** Strings *)

(** The destination of the HPACK encoder, [Limit<&mut BytesMut>], and its
    byte-wise access through [get_mut]. *)
Section EncodeStr.
Context `{BM : BytesMut B}.
Abbreviation DstBuf := (Limit B).

(** [http/h2/hpack/encoder.rs] position *)
Definition position (buf : DstBuf) : Z := len (buf_bytes (limit_inner buf)).

(** [http/h2/hpack/encoder.rs] rewind *)
Definition rewind (buf : DstBuf) (pos : Z) : DstBuf :=
  MkLimit (bm_truncate (limit_inner buf) (Z.to_nat pos)) (limit buf).

(** [buf.get_mut()[i] = x] *)
Definition set_byte {E} (i x : Z) : SE DstBuf E () := fun dst =>
  if (0 <=? i) && (i <? position dst)
  then (MkLimit (bm_set (limit_inner dst) (Z.to_nat i) x) (limit dst), Ok tt)
  else (dst, Panic).

(** [buf.get_mut()[i]] *)
Definition get_byte {E} (i : Z) : SE DstBuf E Z := fun dst =>
  (dst, index (buf_bytes (limit_inner dst)) i).

(** [for i in from..from + n { body(i) }] *)
Fixpoint for_range {T E} (n : nat) (from : Z) (body : Z -> SE T E ()) : SE T E () :=
  match n with
  | O => mret tt
  | S n => _ ← body from; for_range n (from + 1) body
  end.

Definition PLACEHOLDER_LEN : Z := 8.

(** [&mut buf[..]] as a [BufMut]: bytes written so far, bytes left. *)
Record SliceBuf := MkSliceBuf { slice_done : list Z; slice_rest : list Z }.

#[export] Program Instance slice_buf_mut : BufMut SliceBuf := {|
  buf_bytes b := slice_done b;
  remaining_mut b := len (slice_rest b);
  put_slice b s := MkSliceBuf (slice_done b ++ s) (drop (length s) (slice_rest b));
|}.
Next Obligation. done. Qed.
Next Obligation. intros b s H. simpl. unfold len in *. rewrite length_drop. lia. Qed.

(** [http/h2/hpack/encoder.rs] encode_str *)
Definition encode_str (val : list Z) : SE DstBuf EncoderError () :=
  rem ← gets remaining_mut;
  if rem =? 0 then throw BufferOverflow
  else if negb (len val =? 0) then
    idx ← gets position;
    _ ← write (fun dst => put_u8 dst 0);
    _ ← encode val;
    pos ← gets position;
    let huff_len := pos - (idx + 1) in
    if encode_int_one_byte huff_len 7 then
      set_byte idx (Z.lor 0x80 (as_u8 huff_len))
    else
      let '(head_dst, r) :=
        encode_int huff_len 7 0x80 (MkSliceBuf [] (replicate (Z.to_nat PLACEHOLDER_LEN) 0)) in
      _ ← lift r;
      let buf := slice_done head_dst ++ slice_rest head_dst in
      let head_len := PLACEHOLDER_LEN - remaining_mut head_dst in
      rem ← gets remaining_mut;
      if rem <? head_len then throw BufferOverflow
      else
        rest ← lift (slice buf 1 (head_len - 1));
        _ ← write (fun dst => put_slice dst rest);
        _ ← for_range (Z.to_nat huff_len) 0 (fun i =>
          let src_i := idx + 1 + (huff_len - (i + 1)) in
          let dst_i := idx + head_len + (huff_len - (i + 1)) in
          x ← get_byte src_i;
          set_byte dst_i x);
        for_range (Z.to_nat head_len) 0 (fun i =>
          x ← lift (index buf i);
          set_byte (idx + i) x)
  else write (fun dst => put_u8 dst 0).

End EncodeStr.

Lemma for_range_inv {T E} (I : nat -> T -> Prop) (body : Z -> SE T E ()) n : forall i s,
  I i s ->
  (forall j s, (i <= j < i + n)%nat -> I j s ->
    exists s', body (Z.of_nat j) s = (s', Ok tt) /\ I (j + 1)%nat s') ->
  exists s', for_range n (Z.of_nat i) body s = (s', Ok tt) /\ I (i + n)%nat s'.
Proof.
  induction n as [|n IH]; intros i s Hi Hbody.
  { exists s. by rewrite Nat.add_0_r. }
  destruct (Hbody i s) as (s1 & E1 & I1); [lia|done|].
  destruct (IH (i + 1)%nat s1 I1) as (s2 & E2 & I2).
  { intros j s' Hj. apply Hbody. lia. }
  exists s2. cbn [for_range]. rewrite (bind_eq _ _ _ _ _ E1).
  replace (Z.of_nat i + 1) with (Z.of_nat (i + 1)) by lia.
  by replace (i + S n)%nat with (i + 1 + n)%nat by lia.
Qed.

Section StrProofs.
Context `{BM : BytesMut B}.
Abbreviation DstBuf := (Limit B).
Implicit Types dst : DstBuf.

Definition dst_bytes dst : list Z := buf_bytes (limit_inner dst).

Lemma limit_remaining dst :
  remaining_mut dst = Z.min (2 ^ 64 - 1 - len (dst_bytes dst)) (limit dst).
Proof. unfold remaining_mut. simpl. by rewrite bm_remaining. Qed.

Lemma set_byte_ok {E} dst i x :
  (i < length (dst_bytes dst))%nat ->
  exists dst', set_byte (Z.of_nat i) x dst = (dst', Ok tt : outcome E ()) /\
    dst_bytes dst' = <[i:=x]> (dst_bytes dst) /\ limit dst' = limit dst.
Proof.
  intros Hi. unfold set_byte, position. fold (dst_bytes dst).
  rewrite (proj2 (Z.leb_le 0 _)), (proj2 (Z.ltb_lt _ _)) by (unfold len; lia). simpl.
  eexists. split; [done|]. unfold dst_bytes. simpl.
  rewrite Nat2Z.id, bm_set_bytes; done.
Qed.

Lemma get_byte_ok {E} dst i x :
  dst_bytes dst !! i = Some x -> get_byte (Z.of_nat i) dst = (dst, Ok x : outcome E Z).
Proof.
  intros Hi. unfold get_byte, index. rewrite (proj2 (Z.ltb_ge _ 0)) by lia.
  rewrite Nat2Z.id. unfold dst_bytes in Hi. by rewrite Hi.
Qed.

(** The state of the buffer while the coded string moves from behind the
    one-byte placeholder to behind the real head. *)
Record shifted (lim : Z) (pre h : list Z) (m i : nat) (dst : DstBuf) : Prop := {
  sh_limit : limit dst = lim;
  sh_len : length (dst_bytes dst) = (length pre + m + length h)%nat;
  sh_pre : take (length pre) (dst_bytes dst) = pre;
  sh_todo j : (j < length h - i)%nat -> dst_bytes dst !! (length pre + 1 + j)%nat = h !! j;
  sh_done j : (length h - i <= j < length h)%nat ->
    dst_bytes dst !! (length pre + m + j)%nat = h !! j;
}.

Lemma shift_loop {E} lim pre h m dst :
  (1 <= m)%nat -> shifted lim pre h m 0 dst ->
  exists dst', for_range (E:=E) (length h) 0 (fun i =>
      x ← get_byte (len pre + 1 + (len h - (i + 1)));
      set_byte (len pre + Z.of_nat m + (len h - (i + 1))) x) dst = (dst', Ok tt) /\
    shifted lim pre h m (length h) dst'.
Proof.
  intros Hm H0. apply (for_range_inv (shifted lim pre h m) _ _ 0 dst H0).
  clear dst H0. intros i dst Hi [Hl Hn Hp Ht Hd]. set (k := (length h - (i + 1))%nat).
  destruct (lookup_lt_is_Some_2 h k) as [x Hx]; [lia|].
  assert (len pre + 1 + (len h - (Z.of_nat i + 1)) = Z.of_nat (length pre + 1 + k)) as ->
    by (unfold len; lia).
  assert (len pre + Z.of_nat m + (len h - (Z.of_nat i + 1)) = Z.of_nat (length pre + m + k))
    as -> by (unfold len; lia).
  rewrite (bind_eq _ _ dst dst x) by (apply get_byte_ok; rewrite Ht; [done|lia]).
  destruct (set_byte_ok (E:=E) dst (length pre + m + k) x) as (dst' & E1 & E2 & E3); [lia|].
  exists dst'. split; [done|]. split.
  - congruence.
  - by rewrite E2, length_insert.
  - by rewrite E2, take_insert_ge by lia.
  - intros j Hj. rewrite E2, list_lookup_insert_ne by lia. apply Ht. lia.
  - intros j Hj. rewrite E2. destruct (decide (j = k)) as [->|Hne].
    + rewrite list_lookup_insert_eq by lia. done.
    + rewrite list_lookup_insert_ne by lia. apply Hd. lia.
Qed.

Lemma copy_head_loop {E} lim pre h hd buf dst :
  take (length hd) buf = hd -> shifted lim pre h (length hd) (length h) dst ->
  exists dst', for_range (E:=E) (length hd) 0 (fun i =>
      x ← lift (index buf i); set_byte (len pre + i) x) dst = (dst', Ok tt) /\
    limit dst' = lim /\ dst_bytes dst' = pre ++ hd ++ h.
Proof.
  intros Hbuf H0.
  destruct (for_range_inv (fun i dst => limit dst = lim /\
      dst_bytes dst = pre ++ take i hd ++ drop (length pre + i) (dst_bytes dst) /\
      length (dst_bytes dst) = (length pre + length hd + length h)%nat /\
      drop (length pre + length hd) (dst_bytes dst) = h)
    (fun i => x ← lift (index buf i); set_byte (E:=E) (len pre + i) x) (length hd) 0 dst)
    as (dst' & E1 & E2 & E3 & E4 & E5).
  - destruct H0 as [Hl Hn Hp Ht Hd]. split; [done|]. split; [|split; [done|]].
    + rewrite take_0, Nat.add_0_r. simpl. rewrite <- Hp at 1. by rewrite take_drop.
    + apply list_eq. intros j. rewrite lookup_drop.
      destruct (decide (j < length h)%nat); [apply Hd; lia|].
      rewrite !lookup_ge_None_2; [done|lia..].
  - clear dst H0. intros i dst Hi (Hl & Hb & Hn & Hs).
    destruct (lookup_lt_is_Some_2 hd i) as [x Hx]; [lia|].
    assert (index buf (Z.of_nat i) = (Ok x : outcome E Z)) as Hix.
    { unfold index. rewrite (proj2 (Z.ltb_ge _ 0)), Nat2Z.id by lia.
      rewrite <- Hbuf, lookup_take in Hx by (rewrite length_take; lia). 
      case_decide; [|done]. by rewrite Hx. }
    rewrite (bind_eq _ _ dst dst x) by (unfold lift; by rewrite Hix).
    replace (len pre + Z.of_nat i) with (Z.of_nat (length pre + i)) by (unfold len; lia).
    destruct (set_byte_ok (E:=E) dst (length pre + i) x) as (dst' & E1 & E2 & E3); [lia|].
    exists dst'. split; [done|]. split; [congruence|]. split; [|split].
    + rewrite E2, drop_insert_lt, insert_take_drop by lia.
      assert (take (length pre + i) (dst_bytes dst) = pre ++ take i hd) as ->.
      { rewrite Hb, (assoc_L (++)). apply take_app_length'.
        rewrite length_app, length_take. lia. }
      rewrite Nat.add_1_r, (take_S_r hd i x), <- !(assoc_L (++)) by done.
      by rewrite Nat.add_succ_r.
    + by rewrite E2, length_insert.
    + by rewrite E2, drop_insert_lt by lia.
  - exists dst'. split; [done|]. split; [done|]. rewrite E3 at 1. simpl.
    rewrite firstn_all, E5. done.
Qed.

(** The Huffman coding of a string, and the string literal of RFC 7541 5.2. *)
Definition huff_of (s h : list Z) : Prop :=
  is_bytes h /\ exists k, (k < 8)%nat /\ bits_of h = codes s ++ replicate k true.

Definition str_wire (s out : list Z) : Prop :=
  (s = [] /\ out = [0]) \/
  (s <> [] /\ exists h, huff_of s h /\ out = int_bytes 7 0x80 (len h) ++ h).

Lemma huff_of_len s h : huff_of s h -> len (codes s) <= 8 * len h < len (codes s) + 8.
Proof.
  intros (_ & k & Hk & Eb). apply (f_equal length) in Eb.
  rewrite length_bits_of, length_app, length_replicate in Eb. unfold len. lia.
Qed.

Lemma int_bytes_len p first v : 1 <= p <= 8 -> int_ok p v -> 1 <= len (int_bytes p first v) <= 5.
Proof.
  intros Hp Hv. unfold int_ok in Hv. unfold int_bytes.
  destruct (Z.ltb_spec v (2 ^ p - 1)); rewrite len_cons; [unfold len; simpl; lia|].
  unfold varint. rewrite (varint_fuel_enough 3) by (simpl; lia).
  assert (forall f n, length (varint_fuel f n) <= f)%nat as Hl.
  { induction f as [|f IH]; intros n; [done|]. rewrite varint_fuel_S.
    case_match; simpl; [lia|]. specialize (IH (n / 128)). lia. }
  specialize (Hl 4%nat (v - (2 ^ p - 1))). unfold len. lia.
Qed.

(** Moving the string behind its head, as the tail of [encode_str] does. *)
Definition move_string (idx huff_len head_len : Z) (buf : list Z) : SE DstBuf EncoderError () :=
  rest ← lift (slice buf 1 (head_len - 1));
  _ ← write (fun dst => put_slice dst rest);
  _ ← for_range (Z.to_nat huff_len) 0 (fun i =>
    let src_i := idx + 1 + (huff_len - (i + 1)) in
    let dst_i := idx + head_len + (huff_len - (i + 1)) in
    x ← get_byte src_i;
    set_byte dst_i x);
  for_range (Z.to_nat head_len) 0 (fun i =>
    x ← lift (index buf i);
    set_byte (idx + i) x).

Lemma move_string_spec pre h hd rest dst :
  (1 <= length hd)%nat -> dst_bytes dst = pre ++ [0] ++ h -> len hd <= remaining_mut dst ->
  exists dst', move_string (len pre) (len h) (len hd) (hd ++ rest) dst = (dst', Ok tt) /\
    dst_bytes dst' = pre ++ hd ++ h /\
    remaining_mut dst' = remaining_mut dst - (len hd - 1).
Proof.
  intros Hhd Hb Hroom. destruct hd as [|x hd]; [simpl in Hhd; lia|]. unfold move_string.
  assert (slice ((x :: hd) ++ rest) 1 (len (x :: hd) - 1) = (Ok hd : outcome EncoderError _)) as ->.
  { unfold slice. rewrite (slice_from_app [x] (hd ++ rest)) by done. simpl.
    apply slice_to_app. rewrite len_cons. lia. }
  rewrite bind_lift_Ok. unfold write. rewrite bind_modify.
  assert (len hd <= remaining_mut dst) as Hroom' by (rewrite len_cons in Hroom; lia).
  pose proof (put_slice_bytes dst hd Hroom') as P1. pose proof (put_slice_remaining dst hd Hroom') as P2.
  set (dst1 := put_slice dst hd) in *.
  assert (dst_bytes dst1 = pre ++ [0] ++ h ++ hd) as P1'.
  { change (buf_bytes dst1) with (dst_bytes dst1) in P1. rewrite P1.
    change (buf_bytes dst) with (dst_bytes dst). by rewrite Hb, <- !(assoc_L (++)). }
  destruct (shift_loop (E:=EncoderError) (limit dst1) pre h (length (x :: hd)) dst1)
    as (dst2 & E2 & S2); [simpl; lia| |].
  { split.
    - done.
    - rewrite P1', !length_app. simpl. lia.
    - rewrite P1'. apply take_app_length.
    - intros j Hj. rewrite P1', (assoc_L (++)), lookup_app_r by (rewrite length_app; simpl; lia).
      rewrite length_app, lookup_app_l by (simpl; lia). f_equal. simpl. lia.
    - intros j Hj. lia. }
  destruct (copy_head_loop (E:=EncoderError) (limit dst1) pre h (x :: hd) ((x :: hd) ++ rest) dst2)
    as (dst3 & E3 & L3 & B3); [apply take_app_length|done|].
  exists dst3. split; [|split; [done|]].
  - replace (Z.to_nat (len h)) with (length h) by (unfold len; lia).
    replace (Z.to_nat (len (x :: hd))) with (length (x :: hd)) by (unfold len; lia).
    rewrite (bind_eq _ _ dst1 dst2 tt) by exact E2. exact E3.
  - rewrite len_cons. replace (1 + len hd - 1) with (len hd) by lia. rewrite <- P2.
    rewrite !limit_remaining, L3, B3, P1'. f_equal. f_equal.
    rewrite !len_app, !len_cons, len_nil. lia.
Qed.

(** What follows the Huffman coding in [encode_str]: writing the length. *)
Definition finish_string (idx : Z) : SE DstBuf EncoderError () :=
  pos ← gets position;
  let huff_len := pos - (idx + 1) in
  if encode_int_one_byte huff_len 7 then
    set_byte idx (Z.lor 0x80 (as_u8 huff_len))
  else
    let '(head_dst, r) :=
      encode_int huff_len 7 0x80 (MkSliceBuf [] (replicate (Z.to_nat PLACEHOLDER_LEN) 0)) in
    _ ← lift r;
    let buf := slice_done head_dst ++ slice_rest head_dst in
    let head_len := PLACEHOLDER_LEN - remaining_mut head_dst in
    rem ← gets remaining_mut;
    if rem <? head_len then throw BufferOverflow
    else move_string idx huff_len head_len buf.

Lemma finish_string_spec pre h dst :
  is_bytes h -> dst_bytes dst = pre ++ [0] ++ h -> len h <= 2 ^ 28 ->
  let out := int_bytes 7 0x80 (len h) ++ h in
  let room := remaining_mut dst + 1 + len h in
  match finish_string (len pre) dst with
  | (dst', Ok _) => dst_bytes dst' = pre ++ out /\ remaining_mut dst' = room - len out
  | (_, Err e) => e = BufferOverflow /\ room <= len out
  | (_, Panic) => False
  end.
Proof.
  intros Hh Hb Hlen out room. unfold finish_string. rewrite bind_gets.
  assert (position dst - (len pre + 1) = len h) as ->.
  { unfold position. change (buf_bytes (limit_inner dst)) with (dst_bytes dst).
    rewrite Hb, !len_app. change (len [0]) with 1. lia. }
  pose proof (len_nonneg h) as Hh0. cbv zeta.
  assert (int_ok 7 (len h)) as Hok by (unfold int_ok; simpl; lia).
  unfold encode_int_one_byte. change (as_usize (1 ≪ 7) - 1) with (2 ^ 7 - 1).
  destruct (len h <? 2 ^ 7 - 1) eqn:Hone.
  - assert (int_bytes 7 0x80 (len h) = [Z.lor 0x80 (len h)]) as Ei
      by (unfold int_bytes; by rewrite Hone). reflect_bools.
    replace (as_u8 (len h)) with (len h) by int_lia.
    change (len pre) with (Z.of_nat (length pre)).
    destruct (set_byte_ok (E:=EncoderError) dst (length pre) (Z.lor 0x80 (len h)))
      as (dst' & -> & B' & L'); [rewrite Hb, !length_app; simpl; lia|].
    assert (dst_bytes dst' = pre ++ out) as B''.
    { rewrite B', Hb. subst out. rewrite Ei.
      by rewrite insert_app_r_alt, Nat.sub_diag by lia. }
    split; [done|]. subst room out. rewrite !limit_remaining, L', B'', Hb, Ei, !len_app.
    change (len [Z.lor 128 (len h)]) with 1. change (len [0]) with 1. lia.
  - pose proof (encode_int_emits 7 0x80 (len h) ltac:(lia) Hok
      (MkSliceBuf [] (replicate (Z.to_nat PLACEHOLDER_LEN) 0))) as He.
    pose proof (int_bytes_len 7 0x80 (len h) ltac:(lia) Hok) as Hl.
    set (hd := int_bytes 7 0x80 (len h)) in *.
    assert (remaining_mut (MkSliceBuf [] (replicate (Z.to_nat PLACEHOLDER_LEN) 0)) = 8)
      as E8 by done.
    rewrite E8, (proj2 (Z.leb_le _ _)) in He by lia.
    destruct He as (hdst & -> & E1 & E2); [lia|].
    assert (8 - remaining_mut hdst = len hd) as Ehl by lia. simpl in E1.
    unfold PLACEHOLDER_LEN. simpl slice_done. rewrite E1, Ehl.
    rewrite bind_lift_Ok, bind_gets.
    destruct (Z.ltb_spec (remaining_mut dst) (len hd)).
    { split; [done|]. subst out room. rewrite len_app. lia. }
    destruct (move_string_spec pre h hd (slice_rest hdst) dst) as (dst' & -> & B' & R').
    { unfold len in Hl. lia. } { done. } { done. }
    split; [done|]. subst out room. rewrite R', len_app. lia.
Qed.

Lemma encode_str_spec s dst :
  is_bytes s -> 0 <= remaining_mut dst <= 2 ^ 28 ->
  match encode_str s dst with
  | (dst', Ok _) => len (codes s) <= 8 * remaining_mut dst /\
      exists out, str_wire s out /\ dst_bytes dst' = dst_bytes dst ++ out /\
      remaining_mut dst' = remaining_mut dst - len out
  | (_, Err e) => e = BufferOverflow /\ forall out, str_wire s out -> remaining_mut dst <= len out
  | (_, Panic) => False
  end.
Proof.
  intros Hs Hroom. unfold encode_str. rewrite bind_gets.
  assert (forall out, str_wire s out -> 1 <= len out) as Hout1.
  { intros out [[-> ->]|(_ & h & Hh & ->)]; [done|]. unfold int_bytes. rewrite len_app.
    pose proof (len_nonneg h). case_match; rewrite len_cons; unfold len in *; lia. }
  destruct (Z.eqb_spec (remaining_mut dst) 0) as [E0|E0].
  { split; [done|]. intros out Hw. specialize (Hout1 out Hw). lia. }
  destruct (put_u8_room dst 0) as [P1 P2]; [lia|].
  change (buf_bytes dst) with (dst_bytes dst) in P1.
  destruct (Z.eqb_spec (len s) 0) as [Es|Es]; cbn [negb].
  { split; [destruct s; [change (len (codes [])) with 0; lia|rewrite len_cons in Es; pose proof (len_nonneg s); lia]|].
    exists [0]. split; [left; destruct s; [done|rewrite len_cons in Es; pose proof (len_nonneg s); lia]|].
    split; [exact P1|exact P2]. }
  rewrite bind_gets. unfold write. rewrite bind_modify.
  assert (0 <= remaining_mut (put_u8 dst 0)) as Hr0 by lia.
  pose proof (encode_writes s (put_u8 dst 0) Hs Hr0) as He. rewrite P2, P1 in He.
  destruct (Z.leb_spec (len (codes s)) (8 * (remaining_mut dst - 1))) as [Hc|Hc].
  - destruct He as (dst1 & h & k & E1 & B1 & Hh & Hk & Eb & R1).
    rewrite (bind_eq _ _ _ _ _ E1).
    change (buf_bytes dst1) with (dst_bytes dst1) in B1.
    rewrite <- (assoc_L (++)) in B1.
    assert (huff_of s h) as Hof by (split; [done|eauto]).
    pose proof (huff_of_len s h Hof) as Hl.
    pose proof (finish_string_spec (dst_bytes dst) h dst1 Hh B1 ltac:(lia)) as Hf.
    change (position dst) with (len (dst_bytes dst)).
    assert (str_wire s (int_bytes 7 0x80 (len h) ++ h)) as Hw.
    { right. split; [by intros ->|]. eauto. }
    match goal with |- context [match ?c with _ => _ end] =>
      change c with (finish_string (len (dst_bytes dst)) dst1) end.
    destruct (finish_string _ dst1) as [dst2 [[]|e|]]; cbv zeta in Hf.
    + split; [lia|]. exists (int_bytes 7 0x80 (len h) ++ h). split; [done|]. split; [apply Hf|].
      destruct Hf as [_ ->]. lia.
    + split; [apply Hf|]. intros out [[-> _]|(_ & h' & Hh' & ->)]; [done|].
      apply huff_of_len in Hh'. assert (len h' = len h) as E by lia.
      destruct Hf as [_ Hf]. rewrite len_app in *. rewrite E. lia.
    + done.
  - destruct (encode s (put_u8 dst 0)) as [dst1 r] eqn:E1. simpl in He. subst r.
    rewrite (bind_eq_Err _ _ _ _ _ E1). split; [done|].
    intros out [[-> _]|(_ & h' & Hh' & ->)]; [done|]. apply huff_of_len in Hh' as Hl.
    assert (1 <= len (int_bytes 7 128 (len h'))).
    { unfold int_bytes. case_match; rewrite len_cons; unfold len; lia. }
    rewrite len_app. lia.
Qed.

End StrProofs.

(** ** Properties *)

(** Prefixed integers are read back: for every prefix size and every value
    both ends support (at most four continuation bytes), a destination with
    five free bytes is enough for [encode_int], and [decode_int] reads the
    value and leaves what follows. *)
Theorem int_roundtrip `{HB : BufMut B} `{HS : Buf T} p first v (dst : B) :
  1 <= p <= 8 -> first_ok p first -> int_ok p v -> 5 <= remaining_mut dst ->
  exists dst' out, encode_int v p first dst = (dst', Ok tt) /\
    buf_bytes dst' = buf_bytes dst ++ out /\
    forall (src : T) rest, src_bytes src = out ++ rest ->
      exists src', decode_int p src = (src', Ok v) /\ src_bytes src' = rest.
Proof.
  intros Hp Hf Hv Hr. assert (0 <= remaining_mut dst) as Hr0 by lia.
  pose proof (encode_int_emits (B:=B) p first v Hp Hv dst Hr0) as He.
  pose proof (int_bytes_len p first v Hp Hv).
  rewrite (proj2 (Z.leb_le _ _)) in He by lia. destruct He as (dst' & E1 & E2 & _).
  exists dst', (int_bytes p first v). split_and!; [done..|]. intros src rest Hs.
  eexists. split; [by apply (decode_int_app p first v src rest)|].
  rewrite advance_bytes, Hs by (rewrite Hs, length_app; lia). apply drop_app_length.
Qed.

Lemma int_roundtrip_witness :
  exists dst' out, encode_int 1337 5 0x20 ([] : list Z) = (dst', Ok tt) /\
    buf_bytes dst' = [] ++ out /\
    forall (src : list Z) rest, src_bytes src = out ++ rest ->
      exists src', decode_int 5 src = (src', Ok 1337) /\ src_bytes src' = rest.
Proof.
  refine (int_roundtrip (HS := list_buf) 5 0x20 1337 ([] : list Z) _ _ _ _); [lia|split; reflexivity || (split; vm_compute; congruence)|
    split; vm_compute; congruence|vm_compute; congruence].
Defined.

(** Integers of a peer are bounded: on any input, [decode_int] reads at most
    five bytes, never panics, and a value it returns is below 2^28 + 2^prefix - 1,
    so it fits 32 bits; [encode_int] can represent it. *)
Theorem decode_int_bounded `{HS : Buf T} p (src : T) :
  1 <= p <= 8 -> is_bytes (src_bytes src) ->
  exists k r, decode_int p src = (advance src k, r) /\ (k <= 5)%nat /\
    (k <= length (src_bytes src))%nat /\
    match r with
    | Ok v => 0 <= v < 2 ^ 28 + 2 ^ p - 1 /\ (1 <= k)%nat
    | Err e => e = NeedMore_ IntegerUnderflow \/ e = IntegerOverflow
    | Panic => False
    end.
Proof.
  intros Hp Hs. destruct (decode_int_bounds p src Hp Hs) as (k & r & E & (H1 & H2 & H3) & Hv).
  exists k, r. split_and!; [done|lia|done|]. destruct r as [v|e|]; [|done|done].
  specialize (Hv v eq_refl). unfold int_ok in Hv. lia.
Qed.

Lemma decode_int_bounded_witness :
  exists k r, decode_int 7 [255; 255; 255; 255; 255; 255] = (advance [255; 255; 255; 255; 255; 255] k, r) /\
    (k <= 5)%nat /\ (k <= 6)%nat /\
    match r with
    | Ok v => 0 <= v < 2 ^ 28 + 2 ^ 7 - 1 /\ (1 <= k)%nat
    | Err e => e = NeedMore_ IntegerUnderflow \/ e = IntegerOverflow
    | Panic => False
    end.
Proof.
  refine (decode_int_bounded 7 [255; 255; 255; 255; 255; 255] _ _); [lia|].
  apply (bool_decide_unpack _). vm_compute. exact I.
Defined.

(** [encode_str] writes an RFC 7541 5.2 string literal: within a limit of at
    most 2^28 bytes it never panics; on success the destination gained the
    length prefix with the Huffman bit set followed by the Huffman code of the
    string (one zero byte for the empty string), although the code is produced
    first and moved behind its length in place; it reports an overflow only if
    that literal leaves no byte of room. *)
Theorem encode_str_correct `{BM : BytesMut B} s (dst : Limit B) :
  is_bytes s -> 0 <= remaining_mut dst <= 2 ^ 28 ->
  match encode_str s dst with
  | (dst', Ok _) => exists out, str_wire s out /\ buf_bytes dst' = buf_bytes dst ++ out /\
      remaining_mut dst' = remaining_mut dst - len out
  | (_, Err e) => e = BufferOverflow /\ forall out, str_wire s out -> remaining_mut dst <= len out
  | (_, Panic) => False
  end.
Proof.
  intros Hs Hr. pose proof (encode_str_spec s dst Hs Hr) as H.
  by destruct (encode_str s dst) as [dst' [[]|e|]]; [destruct H|..].
Qed.

Lemma encode_str_correct_witness :
  exists out, str_wire [97; 98] out /\
    buf_bytes (encode_str [97; 98] (MkLimit ([] : list Z) 100)).1 = [] ++ out.
Proof.
  pose proof (encode_str_correct [97; 98] (MkLimit ([] : list Z) 100)) as T.
  destruct (encode_str [97; 98] (MkLimit ([] : list Z) 100)) as [dst' r] eqn:E.
  assert (r = Ok tt) as ->.
  { change r with (dst', r).2. rewrite <- E. vm_compute. reflexivity. }
  destruct T as (out & H1 & H2 & _); [apply (bool_decide_unpack _); vm_compute; exact I|
    split; vm_compute; congruence|]. exists out. split; [exact H1|exact H2].
Defined.
