(* ===== verification/HpackDecoder.v ===== *)
(** * The HPACK decoder ([http/h2/hpack/decoder.rs])

    The dynamic table, the five representations of RFC 7541 6, and the decode
    loop over a cursor on the received header block. *)

From Stdlib Require Import String.
From S2P Require Import Prelude Bytes Huffman HuffmanCorrect HttpTypes HpackPrim.

(** ** The cursor *)

(** [std::io::Cursor<&mut BytesMut>] as a [Buf]. *)
Record Cursor (B : Type) := MkCursor { cur_buf : B; cur_pos : nat }.
Arguments MkCursor {B}.
Arguments cur_buf {B}.
Arguments cur_pos {B}.

#[export] Program Instance cursor_buf `{BytesMut B} : Buf (Cursor B) := {|
  src_bytes c := drop (cur_pos c) (buf_bytes (cur_buf c));
  advance c n := MkCursor (cur_buf c) (cur_pos c + n);
|}.
Next Obligation. intros B HB c n _. simpl. by rewrite drop_drop. Qed.
Next Obligation. intros B HB [b p]. simpl. by rewrite Nat.add_0_r. Qed.
Next Obligation. intros B HB [b p] n m _. simpl. by rewrite Nat.add_assoc. Qed.

(** [http/h2/hpack/decoder.rs] take *)
Definition take_bytes {E} `{BytesMut B} (n : Z) : SE (Cursor B) E (list Z) := fun c =>
  let pos := cur_pos c in
  if len (buf_bytes (cur_buf c)) <? Z.of_nat pos + n then (c, Panic)
  else
    let '(head, rest) := bm_split_to (cur_buf c) (pos + Z.to_nat n) in
    let c := MkCursor rest 0 in
    let '(_, head) := bm_split_to head pos in
    (c, Ok (buf_bytes head)).

(** [http/h2/hpack/decoder.rs] consume *)
Definition consume {E} `{BytesMut B} : SE (Cursor B) E () :=
  _ ← take_bytes 0; mret tt.

(** ** Representations *)

(** [http/h2/hpack/decoder.rs] Representation *)
Inductive Representation :=
  | Indexed
  | LiteralWithIndexing
  | LiteralWithoutIndexing
  | LiteralNeverIndexed
  | SizeUpdate.

(** [http/h2/hpack/decoder.rs] Representation::load *)
Definition Representation_load (byte : Z) : outcome DecoderError Representation :=
  let INDEXED := 0x80 in
  let LITERAL_WITH_INDEXING := 0x40 in
  let LITERAL_WITHOUT_INDEXING := 0xf0 in
  let LITERAL_NEVER_INDEXED := 0x10 in
  let SIZE_UPDATE_MASK := 0xe0 in
  let SIZE_UPDATE := 0x20 in
  if Z.land byte INDEXED =? INDEXED then Ok Indexed
  else if Z.land byte LITERAL_WITH_INDEXING =? LITERAL_WITH_INDEXING
  then Ok LiteralWithIndexing
  else if Z.land byte LITERAL_WITHOUT_INDEXING =? 0 then Ok LiteralWithoutIndexing
  else if Z.land byte LITERAL_WITHOUT_INDEXING =? LITERAL_NEVER_INDEXED
  then Ok LiteralNeverIndexed
  else if Z.land byte SIZE_UPDATE_MASK =? SIZE_UPDATE then Ok SizeUpdate
  else Err InvalidRepresentation.

Section Decoder.
Context `{HT : HttpTypes}.

(** ** The static table *)

(** [http/h2/hpack/decoder.rs] from_static *)
Definition from_static (s : string) : BytesStr := MkBytesStr (bytes_of_string s).

(** [http/h2/hpack/decoder.rs] get_static *)
Definition get_static {E} (idx : Z) : outcome E (Header HeaderName) :=
  match idx with
  | 1 => Ok (HAuthority (from_static ""))
  | 2 => Ok (HMethod GET)
  | 3 => Ok (HMethod POST)
  | 4 => Ok (HPath (from_static "/"))
  | 5 => Ok (HPath (from_static "/index.html"))
  | 6 => Ok (HScheme (from_static "http"))
  | 7 => Ok (HScheme (from_static "https"))
  | 8 => Ok (HStatus (std_status OK))
  | 9 => Ok (HStatus (std_status NO_CONTENT))
  | 10 => Ok (HStatus (std_status PARTIAL_CONTENT))
  | 11 => Ok (HStatus (std_status NOT_MODIFIED))
  | 12 => Ok (HStatus (std_status BAD_REQUEST))
  | 13 => Ok (HStatus (std_status NOT_FOUND))
  | 14 => Ok (HStatus (std_status INTERNAL_SERVER_ERROR))
  | 15 => Ok (HField (std_name ACCEPT_CHARSET) (value_from_static ""))
  | 16 => Ok (HField (std_name ACCEPT_ENCODING) (value_from_static "gzip, deflate"))
  | 17 => Ok (HField (std_name ACCEPT_LANGUAGE) (value_from_static ""))
  | 18 => Ok (HField (std_name ACCEPT_RANGES) (value_from_static ""))
  | 19 => Ok (HField (std_name ACCEPT) (value_from_static ""))
  | 20 => Ok (HField (std_name ACCESS_CONTROL_ALLOW_ORIGIN) (value_from_static ""))
  | 21 => Ok (HField (std_name AGE) (value_from_static ""))
  | 22 => Ok (HField (std_name ALLOW) (value_from_static ""))
  | 23 => Ok (HField (std_name AUTHORIZATION) (value_from_static ""))
  | 24 => Ok (HField (std_name CACHE_CONTROL) (value_from_static ""))
  | 25 => Ok (HField (std_name CONTENT_DISPOSITION) (value_from_static ""))
  | 26 => Ok (HField (std_name CONTENT_ENCODING) (value_from_static ""))
  | 27 => Ok (HField (std_name CONTENT_LANGUAGE) (value_from_static ""))
  | 28 => Ok (HField (std_name CONTENT_LENGTH) (value_from_static ""))
  | 29 => Ok (HField (std_name CONTENT_LOCATION) (value_from_static ""))
  | 30 => Ok (HField (std_name CONTENT_RANGE) (value_from_static ""))
  | 31 => Ok (HField (std_name CONTENT_TYPE) (value_from_static ""))
  | 32 => Ok (HField (std_name COOKIE) (value_from_static ""))
  | 33 => Ok (HField (std_name DATE) (value_from_static ""))
  | 34 => Ok (HField (std_name ETAG) (value_from_static ""))
  | 35 => Ok (HField (std_name EXPECT) (value_from_static ""))
  | 36 => Ok (HField (std_name EXPIRES) (value_from_static ""))
  | 37 => Ok (HField (std_name FROM) (value_from_static ""))
  | 38 => Ok (HField (std_name HOST) (value_from_static ""))
  | 39 => Ok (HField (std_name IF_MATCH) (value_from_static ""))
  | 40 => Ok (HField (std_name IF_MODIFIED_SINCE) (value_from_static ""))
  | 41 => Ok (HField (std_name IF_NONE_MATCH) (value_from_static ""))
  | 42 => Ok (HField (std_name IF_RANGE) (value_from_static ""))
  | 43 => Ok (HField (std_name IF_UNMODIFIED_SINCE) (value_from_static ""))
  | 44 => Ok (HField (std_name LAST_MODIFIED) (value_from_static ""))
  | 45 => Ok (HField (std_name LINK) (value_from_static ""))
  | 46 => Ok (HField (std_name LOCATION) (value_from_static ""))
  | 47 => Ok (HField (std_name MAX_FORWARDS) (value_from_static ""))
  | 48 => Ok (HField (std_name PROXY_AUTHENTICATE) (value_from_static ""))
  | 49 => Ok (HField (std_name PROXY_AUTHORIZATION) (value_from_static ""))
  | 50 => Ok (HField (std_name RANGE) (value_from_static ""))
  | 51 => Ok (HField (std_name REFERER) (value_from_static ""))
  | 52 => Ok (HField (std_name REFRESH) (value_from_static ""))
  | 53 => Ok (HField (std_name RETRY_AFTER) (value_from_static ""))
  | 54 => Ok (HField (std_name SERVER) (value_from_static ""))
  | 55 => Ok (HField (std_name SET_COOKIE) (value_from_static ""))
  | 56 => Ok (HField (std_name STRICT_TRANSPORT_SECURITY) (value_from_static ""))
  | 57 => Ok (HField (std_name TRANSFER_ENCODING) (value_from_static ""))
  | 58 => Ok (HField (std_name USER_AGENT) (value_from_static ""))
  | 59 => Ok (HField (std_name VARY) (value_from_static ""))
  | 60 => Ok (HField (std_name VIA) (value_from_static ""))
  | 61 => Ok (HField (std_name WWW_AUTHENTICATE) (value_from_static ""))
  | _ => Panic
  end.

(** ** The dynamic table *)

(** [http/h2/hpack/decoder.rs] Table *)
Record Table := MkTable {
  entries : list (Header HeaderName);
  table_size : Z;
  table_max_size : Z;
}.

(** [http/h2/hpack/decoder.rs] Table::new *)
Definition Table_new (max_size : Z) : Table := MkTable [] 0 max_size.

(** [http/h2/hpack/decoder.rs] Table::get *)
Definition Table_get (t : Table) (index : Z) : outcome DecoderError (Header HeaderName) :=
  if index =? 0 then Err InvalidTableIndex
  else if index <=? 61 then get_static index
  else match entries t !! Z.to_nat (index - 62) with
       | Some e => Ok e
       | None => Err InvalidTableIndex
       end.

(** The [while] loop of [reserve]; every round removes an entry, so the
    number of entries bounds the rounds. *)
Fixpoint reserve_loop (fuel : nat) (size : Z) (t : Table) : Table :=
  match fuel with
  | O => t
  | S fuel =>
      if table_max_size t <? table_size t + size then
        match pop_back (entries t) with
        | Some (entries, last) =>
            reserve_loop fuel size
              (MkTable entries (table_size t - Header.hlen last) (table_max_size t))
        | None => t
        end
      else t
  end.

(** [http/h2/hpack/decoder.rs] Table::reserve *)
Definition Table_reserve (size : Z) (t : Table) : Table :=
  reserve_loop (length (entries t)) size t.

(** [http/h2/hpack/decoder.rs] Table::insert *)
Definition Table_insert (entry : Header HeaderName) (t : Table) : Table :=
  let len := Header.hlen entry in
  let t := Table_reserve len t in
  if table_size t + len <=? table_max_size t
  then MkTable (entry :: entries t) (table_size t + len) (table_max_size t)
  else t.

(** The [while] loop of [consolidate]; one more round than there are entries
    reaches the panic that the code says can never happen. *)
Fixpoint consolidate_loop {E} (fuel : nat) (t : Table) : outcome E Table :=
  match fuel with
  | O => Panic
  | S fuel =>
      if table_max_size t <? table_size t then
        match pop_back (entries t) with
        | Some (entries, last) =>
            consolidate_loop fuel
              (MkTable entries (table_size t - Header.hlen last) (table_max_size t))
        | None => Panic
        end
      else Ok t
  end.

(** [http/h2/hpack/decoder.rs] Table::consolidate *)
Definition Table_consolidate {E} (t : Table) : outcome E Table :=
  consolidate_loop (S (length (entries t))) t.

(** [http/h2/hpack/decoder.rs] Table::set_max_size *)
Definition Table_set_max_size {E} (size : Z) (t : Table) : outcome E Table :=
  Table_consolidate (MkTable (entries t) (table_size t) size).

(** ** The decoder *)

Context `{BM : BytesMut B}.

(** [http/h2/hpack/decoder.rs] Decoder *)
Record HDecoder := MkHDecoder {
  max_size_update : option Z;
  last_max_update : Z;
  table : Table;
  buffer : B;
}.

(** [http/h2/hpack/decoder.rs] Decoder::new *)
Definition HDecoder_new (size : Z) : HDecoder :=
  MkHDecoder None size (Table_new size) bm_new.

(** [http/h2/hpack/decoder.rs] Decoder::queue_size_update *)
Definition queue_size_update (size : Z) (d : HDecoder) : HDecoder :=
  let size := match max_size_update d with Some v => Z.max v size | None => size end in
  MkHDecoder (Some size) (last_max_update d) (table d) (buffer d).

Definition set_table (t : Table) (d : HDecoder) : HDecoder :=
  MkHDecoder (max_size_update d) (last_max_update d) t (buffer d).
Definition set_buffer (b : B) (d : HDecoder) : HDecoder :=
  MkHDecoder (max_size_update d) (last_max_update d) (table d) b.

(** [&mut self] and the cursor. *)
Abbreviation St := (HDecoder * Cursor B)%type.
Definition on_cursor {E A} (c : SE (Cursor B) E A) : SE St E A :=
  zoom snd (fun cur s => (s.1, cur)) c.
Definition on_self {E A} (c : SE HDecoder E A) : SE St E A :=
  zoom fst (fun d s => (d, s.2)) c.

(** [http/h2/hpack/decoder.rs] Decoder::process_size_update *)
Definition process_size_update : SE St DecoderError () :=
  new_size ← on_cursor (decode_int 5);
  last ← gets (fun s => last_max_update s.1);
  if last <? new_size then throw InvalidMaxDynamicSize
  else
    t ← gets (fun s => table s.1);
    t ← lift (Table_set_max_size new_size t);
    modify (fun s => (set_table t s.1, s.2)).

(** [http/h2/hpack/decoder.rs] Decoder::decode_indexed *)
Definition decode_indexed : SE St DecoderError (Header HeaderName) :=
  index ← on_cursor (decode_int 7);
  t ← gets (fun s => table s.1);
  lift (Table_get t index).

(** [http/h2/hpack/decoder.rs] Decoder::decode_string *)
Definition decode_string : SE St DecoderError (list Z) :=
  let HUFF_FLAG := 0x80 in
  hdr ← on_cursor peek_u8;
  match hdr with
  | None => throw (NeedMore_ UnexpectedEndOfStream)
  | Some hdr =>
      let huff := Z.land hdr HUFF_FLAG =? HUFF_FLAG in
      len ← on_cursor (decode_int 7);
      rem ← gets (fun s => remaining s.2);
      if rem <? len then throw (NeedMore_ StringUnderflow)
      else if huff then
        bytes ← gets (fun s => src_bytes s.2);
        raw ← lift (slice_to bytes len);
        buf ← gets (fun s => buffer s.1);
        let '(buf, ret) := decode raw buf in
        _ ← modify (fun s => (set_buffer buf s.1, advance s.2 (Z.to_nat len)));
        ret ← lift ret;
        mret (buf_bytes ret)
      else on_cursor (take_bytes len)
  end.

(** [http/h2/hpack/decoder.rs] Decoder::decode_literal *)
Definition decode_literal (index : bool) : SE St DecoderError (Header HeaderName) :=
  let prefix := if index then 6 else 4 in
  table_idx ← on_cursor (decode_int prefix);
  if table_idx =? 0 then
    name ← decode_string;
    value ← decode_string;
    lift (Header.new name value)
  else
    t ← gets (fun s => table s.1);
    e ← lift (Table_get t table_idx);
    value ← decode_string;
    lift (Name.into_entry (Header.name e) value).

Section Callback.
(** The callback of [decode], with the variables it captures. *)
Context {F : Type} (f : F -> Header HeaderName -> F).
Abbreviation StF := (St * F)%type.
Definition in_st {E A} (c : SE St E A) : SE StF E A :=
  zoom fst (fun s t => (s, t.2)) c.
Definition call (h : Header HeaderName) : SE StF DecoderError () :=
  modify (fun s => (s.1, f s.2 h)).

(** The [while let Some(ty) = peek_u8(src)] loop; every round that continues
    consumes at least a byte, so one more round than there are bytes reaches
    the end. *)
Fixpoint decode_block_loop (fuel : nat) (can_resize : bool) : SE StF DecoderError () :=
  match fuel with
  | O => panic
  | S fuel =>
      ty ← in_st (on_cursor peek_u8);
      match ty with
      | None => mret tt
      | Some ty =>
          rep ← lift (Representation_load ty);
          match rep with
          | Indexed =>
              entry ← in_st decode_indexed;
              _ ← in_st (on_cursor consume);
              _ ← call entry;
              decode_block_loop fuel false
          | LiteralWithIndexing =>
              entry ← in_st (decode_literal true);
              _ ← in_st (modify (fun s =>
                    (set_table (Table_insert entry (table s.1)) s.1, s.2)));
              _ ← in_st (on_cursor consume);
              _ ← call entry;
              decode_block_loop fuel false
          | LiteralWithoutIndexing =>
              entry ← in_st (decode_literal false);
              _ ← in_st (on_cursor consume);
              _ ← call entry;
              decode_block_loop fuel false
          | LiteralNeverIndexed =>
              entry ← in_st (decode_literal false);
              _ ← in_st (on_cursor consume);
              _ ← call entry;
              decode_block_loop fuel false
          | SizeUpdate =>
              if negb can_resize then throw InvalidMaxDynamicSize
              else
                _ ← in_st process_size_update;
                _ ← in_st (on_cursor consume);
                decode_block_loop fuel can_resize
          end
      end
  end.

(** [http/h2/hpack/decoder.rs] Decoder::decode *)
Definition decode_block : SE StF DecoderError () :=
  _ ← in_st (on_self (modify (fun d =>
        match max_size_update d with
        | Some size => MkHDecoder None size (table d) (buffer d)
        | None => d
        end)));
  n ← gets (fun s => remaining s.1.2);
  decode_block_loop (S (Z.to_nat n)) true.

End Callback.
End Decoder.
