(* ===== verification/HpackDecoderCorrect.v ===== *)
(** * The HPACK decoder: correctness

    The dynamic table keeps the longest prefix of the inserted fields that
    fits (RFC 7541 4.3 and 4.4); the decode loop is total on every byte string;
    each representation is read back as the field that was written. *)

From Stdlib Require Import String.
From S2P Require Import Prelude Bytes Huffman HuffmanCorrect HttpTypes HpackPrim HpackDecoder.

(** ** The dynamic table *)

Section Table.
Context `{HT : HttpTypes}.
Implicit Types (h : Header HeaderName) (l : list (Header HeaderName)) (t : Table).

Lemma hlen_pos h : 32 <= Header.hlen h.
Proof.
  rewrite hlen_wire. pose proof (len_nonneg (Name.as_slice (Header.name h))).
  pose proof (len_nonneg (Header.value_slice h)). lia.
Qed.

Fixpoint sum_len l : Z :=
  match l with [] => 0 | h :: l => Header.hlen h + sum_len l end.

(** The reference: the longest prefix of a newest-first list that fits. *)
Fixpoint fit (max : Z) l : list (Header HeaderName) :=
  match l with
  | [] => []
  | h :: l => if Header.hlen h <=? max then h :: fit (max - Header.hlen h) l else []
  end.

Lemma sum_len_nonneg l : 0 <= sum_len l.
Proof. induction l as [|h l IH]; simpl; [lia|]. pose proof (hlen_pos h). lia. Qed.

Lemma sum_len_app l l' : sum_len (l ++ l') = sum_len l + sum_len l'.
Proof. induction l as [|h l IH]; simpl; lia. Qed.

Lemma fit_all max l : sum_len l <= max -> fit max l = l.
Proof.
  revert max. induction l as [|h l IH]; intros max H; simpl in *; [done|].
  pose proof (sum_len_nonneg l). rewrite (proj2 (Z.leb_le _ _)) by lia.
  f_equal. apply IH. lia.
Qed.

Lemma fit_sum max l : 0 <= max -> sum_len (fit max l) <= max.
Proof.
  revert max. induction l as [|h l IH]; intros max H; simpl in *; [done|].
  case_match; simpl; reflect_bools; [|lia]. specialize (IH (max - Header.hlen h)). lia.
Qed.

Lemma fit_neg max l : max < 32 -> fit max l = [].
Proof.
  destruct l as [|h l]; simpl; [done|]. pose proof (hlen_pos h).
  intros. by rewrite (proj2 (Z.leb_gt _ _)) by lia.
Qed.

(** Removing the oldest field of a list that does not fit changes nothing. *)
Lemma fit_snoc max l h : max < sum_len (l ++ [h]) -> fit max (l ++ [h]) = fit max l.
Proof.
  revert max. induction l as [|h' l IH]; intros max H; simpl in *.
  - by rewrite (proj2 (Z.leb_gt _ _)) by lia.
  - case_match; [|done]. f_equal. apply IH. lia.
Qed.

(** The accounting invariant of [Table]. *)
Definition table_inv t : Prop :=
  table_size t = sum_len (entries t) /\ table_size t <= table_max_size t.

Lemma reserve_loop_spec size l : forall fuel max,
  (length l <= fuel)%nat ->
  let l' := fit (max - size) l in
  reserve_loop fuel size (MkTable l (sum_len l) max) = MkTable l' (sum_len l') max.
Proof.
  induction l as [|h l IH] using rev_ind; intros [|fuel] max Hf; simpl in Hf;
    rewrite ?length_app in Hf; simpl in Hf; try lia; cbn [reserve_loop entries table_size table_max_size].
  - done.
  - by case_match.
  - destruct (Z.ltb_spec max (sum_len (l ++ [h]) + size)).
    + rewrite pop_back_snoc, fit_snoc by lia.
      rewrite sum_len_app. simpl. replace (_ - _) with (sum_len l) by lia.
      apply IH. lia.
    + by rewrite fit_all by lia.
Qed.

Lemma table_insert_spec h t :
  table_inv t ->
  entries (Table_insert h t) = fit (table_max_size t) (h :: entries t) /\
  table_max_size (Table_insert h t) = table_max_size t /\
  table_inv (Table_insert h t).
Proof.
  destruct t as [l sz max]. unfold table_inv. simpl. intros [-> Hsz].
  pose proof (sum_len_nonneg l) as Hl. pose proof (hlen_pos h) as Hh.
  unfold Table_insert, Table_reserve. rewrite reserve_loop_spec by done. simpl.
  destruct (Z.leb_spec (Header.hlen h) max).
  - pose proof (fit_sum (max - Header.hlen h) l).
    rewrite (proj2 (Z.leb_le _ _)) by lia. simpl. split_and!; [done|done|lia|lia].
  - rewrite fit_neg by lia. simpl. rewrite (proj2 (Z.leb_gt _ _)) by lia. simpl.
    split_and!; [done..|lia].
Qed.

Lemma consolidate_loop_spec {E} l : forall fuel max,
  0 <= max -> (length l < fuel)%nat ->
  let l' := fit max l in
  consolidate_loop fuel (MkTable l (sum_len l) max) = (Ok (MkTable l' (sum_len l') max) : outcome E _).
Proof.
  induction l as [|h l IH] using rev_ind; intros [|fuel] max Hm Hf; simpl in Hf;
    rewrite ?length_app in Hf; simpl in Hf; try lia;
    cbn [consolidate_loop entries table_size table_max_size].
  - simpl. by rewrite (proj2 (Z.ltb_ge _ _)) by lia.
  - destruct (Z.ltb_spec max (sum_len (l ++ [h]))).
    + rewrite pop_back_snoc, fit_snoc by lia.
      rewrite sum_len_app. simpl. replace (_ - _) with (sum_len l) by lia.
      apply IH; lia.
    + by rewrite fit_all by lia.
Qed.

Lemma table_set_max_size_spec {E} n t :
  table_inv t -> 0 <= n ->
  exists t', Table_set_max_size n t = (Ok t' : outcome E _) /\
    entries t' = fit n (entries t) /\ table_max_size t' = n /\ table_inv t'.
Proof.
  destruct t as [l sz max]. unfold table_inv, Table_set_max_size, Table_consolidate.
  cbn [entries table_size table_max_size]. intros [-> Hsz] Hn. rewrite consolidate_loop_spec by (done || lia).
  eexists; split; [done|]. simpl. pose proof (fit_sum n l). split_and!; done || lia.
Qed.

Lemma get_static_total {E} i : 1 <= i <= 61 -> exists h, get_static i = (Ok h : outcome E _).
Proof.
  intros Hi. rewrite <- (Z2Nat.id i) by lia. assert (1 <= Z.to_nat i <= 61)%nat as H by lia.
  generalize dependent (Z.to_nat i). clear. intros n H.
  do 62 (destruct n as [|n]; [first [lia | by eexists]|]). lia.
Qed.

End Table.

(** ** Cursors and strings *)

Section Strings.
Context `{HT : HttpTypes} `{BM : BytesMut B}.
Implicit Types (c : Cursor B) (d : HDecoder (B:=B)).

Definition cur_ok c : Prop := (cur_pos c <= length (buf_bytes (cur_buf c)))%nat.

Lemma advance_ok c k : cur_ok c -> (k <= length (src_bytes c))%nat -> cur_ok (advance c k).
Proof. unfold cur_ok. simpl. rewrite length_drop. lia. Qed.

Lemma take_bytes_spec {E} c n :
  cur_ok c -> 0 <= n <= len (src_bytes c) ->
  exists c', take_bytes n c = (c', Ok (take (Z.to_nat n) (src_bytes c)) : outcome E _) /\
    src_bytes c' = drop (Z.to_nat n) (src_bytes c) /\ cur_ok c' /\ cur_pos c' = 0%nat.
Proof.
  unfold cur_ok, take_bytes. simpl. unfold len. rewrite length_drop. intros Hc Hn.
  rewrite (proj2 (Z.ltb_ge _ _)) by lia.
  destruct (bm_split_to_bytes (cur_buf c) (cur_pos c + Z.to_nat n)) as [S1 S2]; [lia|].
  destruct (bm_split_to (cur_buf c) _) as [hd rest]; simpl in S1, S2.
  destruct (bm_split_to_bytes hd (cur_pos c)) as [_ S3]; [rewrite S1, length_take; lia|].
  destruct (bm_split_to hd _) as [x hd']; simpl in S3.
  eexists. split; [|split; [|split]].
  - do 2 f_equal. rewrite S3, S1. by rewrite skipn_firstn_comm, Nat.add_comm, Nat.add_sub.
  - simpl. by rewrite drop_0, S2, drop_drop.
  - simpl. lia.
  - done.
Qed.

Lemma consume_spec {E} c :
  cur_ok c -> exists c', consume c = (c', Ok tt : outcome E _) /\
    src_bytes c' = src_bytes c /\ cur_ok c' /\ cur_pos c' = 0%nat.
Proof.
  intros Hc. pose proof (len_nonneg (src_bytes c)).
  destruct (take_bytes_spec (E:=E) c 0 Hc) as (c' & E1 & E2 & E3); [lia|].
  exists c'. unfold consume. rewrite (bind_eq _ _ _ _ _ E1). by rewrite E2, drop_0.
Qed.

Lemma peek_u8_spec {E} c :
  peek_u8 c = (c, Ok (head (src_bytes c)) : outcome E _).
Proof.
  unfold peek_u8. rewrite bind_gets. unfold has_remaining.
  destruct (src_bytes c) as [|x l] eqn:Hb; [done|].
  rewrite (proj2 (Z.ltb_lt 0 _)) by (rewrite len_cons; pose proof (len_nonneg l); lia).
  rewrite bind_gets, Hb. done.
Qed.

Lemma on_cursor_eq {E A} (m : SE (Cursor B) E A) d c c' r :
  m c = (c', r) -> on_cursor m (d, c) = ((d, c'), r).
Proof. intros H. unfold on_cursor, zoom. simpl. by rewrite H. Qed.

Lemma set_buffer_id d : set_buffer (buffer d) d = d.
Proof. by destruct d. Qed.

(** A string literal that the encoder wrote is read back. *)
Lemma decode_string_read d c s out rest :
  cur_ok c -> buf_bytes (buffer d) = [] -> is_bytes s -> len (codes s) <= 2 ^ 31 ->
  str_wire s out -> src_bytes c = out ++ rest ->
  exists b' c', decode_string (d, c) = ((set_buffer b' d, c'), Ok s) /\
    buf_bytes b' = [] /\ src_bytes c' = rest /\ cur_ok c'.
Proof.
  intros Hc Hbuf Hs Hlen Hw Hsrc. unfold decode_string.
  rewrite (bind_eq _ _ _ _ _ (on_cursor_eq peek_u8 d c c _ (peek_u8_spec c))), Hsrc.
  destruct Hw as [[-> ->]|(Hne & h & Hh & ->)].
  - change (head ([0] ++ rest)) with (Some 0). cbv beta iota zeta.
    pose proof (decode_int_app 7 0 0 c rest ltac:(lia) ltac:(done) ltac:(done) Hsrc) as E.
    change (length (int_bytes 7 0 0)) with 1%nat in E.
    assert (src_bytes (advance c 1) = rest) as E1.
    { rewrite advance_bytes by (rewrite Hsrc; simpl; lia). by rewrite Hsrc. }
    rewrite (bind_eq _ _ _ _ _ (on_cursor_eq _ d _ _ _ E)), bind_gets.
    change ((d, advance c 1).2) with (advance c 1). unfold remaining. rewrite E1.
    pose proof (len_nonneg rest). rewrite (proj2 (Z.ltb_ge _ _)) by lia.
    change (Z.land 0 128 =? 128) with false. cbv iota.
    destruct (take_bytes_spec (E:=DecoderError) (advance c 1) 0) as (c' & E2 & E3 & E4 & _).
    { apply advance_ok; [done|]. rewrite Hsrc. simpl. lia. } { rewrite E1. lia. }
    exists (buffer d), c'. rewrite set_buffer_id, (on_cursor_eq _ d _ _ _ E2).
    split; [done|]. split; [done|]. split; [by rewrite E3, E1|done].
  - pose proof (huff_of_len s h Hh) as Hl. pose proof (len_nonneg h) as Hl0.
    assert (int_ok 7 (len h)) as Hok by (unfold int_ok; simpl; lia).
    set (hd := int_bytes 7 0x80 (len h)) in *.
    assert (exists x, head ((hd ++ h) ++ rest) = Some x /\ (Z.land x 0x80 =? 0x80) = true) as (x & -> & Hx); [|cbv beta iota zeta].
    { subst hd. unfold int_bytes. destruct (len h <? 2 ^ 7 - 1) eqn:E; reflect_bools; simpl.
      - eexists; split; [done|]. change 128 with (2 ^ 7). apply Z.eqb_eq.
        rewrite Z.land_lor_distr_l, Z.land_diag.
        rewrite (land_top (len h) 7), (proj2 (Z.leb_gt _ _)) by (simpl; lia). done.
      - by eexists. }
    rewrite <- (assoc_L (++)) in Hsrc.
    pose proof (decode_int_app 7 0x80 (len h) c (h ++ rest) ltac:(lia) ltac:(done) Hok Hsrc) as E.
    fold hd in E. set (c1 := advance c (length hd)) in *.
    assert (length hd <= length (src_bytes c))%nat as Hle by (rewrite Hsrc, length_app; lia).
    assert (src_bytes c1 = h ++ rest) as E1.
    { unfold c1. rewrite advance_bytes, Hsrc by done. apply drop_app_length. }
    rewrite (bind_eq _ _ _ _ _ (on_cursor_eq _ d _ _ _ E)), bind_gets.
    change ((d, c1).2) with c1. unfold remaining. rewrite E1, len_app.
    pose proof (len_nonneg rest). rewrite (proj2 (Z.ltb_ge _ _)) by lia. rewrite Hx.
    rewrite bind_gets. change ((d, c1).2) with c1. rewrite E1.
    rewrite slice_to_app by done. rewrite bind_lift_Ok, bind_gets. change ((d, c1).1) with d.
    destruct Hh as (Hhb & k & Hk & Hbits).
    assert (2 * len h <= remaining_mut (buffer d)) as Hroom.
    { rewrite bm_remaining, Hbuf, len_nil. lia. }
    destruct (proj2 (decode_accepts h (buffer d) s Hhb Hroom Hbuf)) as (b' & o & -> & Eo & Eb');
      [split; [done|]; eauto|].
    rewrite bind_modify, bind_lift_Ok. simpl fst. simpl snd. 
    exists b', (advance c1 (Z.to_nat (len h))).
    assert (Z.to_nat (len h) <= length (src_bytes c1))%nat as Hle'
      by (rewrite E1, length_app; unfold len; lia).
    split; [by rewrite Eo|]. split; [done|]. split.
    + rewrite advance_bytes, E1 by done. unfold len. rewrite Nat2Z.id. apply drop_app_length.
    + apply advance_ok; [|done]. by apply advance_ok.
Qed.

End Strings.

(** ** Totality *)

Section Total.
Context `{HT : HttpTypes} `{BM : BytesMut B}.
Implicit Types (c : Cursor B) (d : HDecoder (B:=B)).

(** Between header blocks the scratch buffer is empty and the table accounts
    for its entries. *)
Definition dec_ok d : Prop := table_inv (table d) /\ buf_bytes (buffer d) = [].

Definition st_ok (s : HDecoder (B:=B) * Cursor B) : Prop :=
  dec_ok s.1 /\ cur_ok s.2 /\ is_bytes (buf_bytes (cur_buf s.2)) /\
  len (buf_bytes (cur_buf s.2)) < 2 ^ 62.

Definition need_more (e : DecoderError) : bool :=
  match e with NeedMore_ _ => true | _ => false end.

(** [safe k m P]: from a good state [m] does not panic, a success consumes at
    least [k] bytes and satisfies [P], and the state is good afterwards, also
    when more input is asked for. *)
Definition safe {A} (k : nat) (m : SE (HDecoder (B:=B) * Cursor B) DecoderError A)
    (P : A -> Prop) : Prop :=
  forall s, st_ok s ->
    match m s with
    | (s', Ok a) => st_ok s' /\ P a /\
        exists n, (k <= n <= length (src_bytes s.2))%nat /\
          src_bytes s'.2 = drop n (src_bytes s.2)
    | (s', Err e) => need_more e = true -> st_ok s'
    | (_, Panic) => False
    end.

Lemma safe_bind {A A'} k k' (m : SE _ DecoderError A) (g : A -> SE _ DecoderError A') P Q :
  safe k m P -> (forall a, P a -> safe k' (g a) Q) -> safe (k + k') (m ≫= g) Q.
Proof.
  intros Hm Hg s Hs. specialize (Hm s Hs). unfold mbind, SE_bind.
  destruct (m s) as [s1 [a|e|]]; [|done|done]. destruct Hm as (H1 & Ha & n & Hn & E1).
  specialize (Hg a Ha s1 H1). destruct (g a s1) as [s2 [a'|e|]]; [|done|done].
  destruct Hg as (H2 & Ha' & n' & Hn' & E2). split_and!; [done..|].
  rewrite E1, length_drop in Hn'. exists (n + n')%nat.
  split; [lia|]. by rewrite E2, E1, drop_drop.
Qed.

Lemma safe_mono {A} k k' (m : SE _ DecoderError A) (P Q : A -> Prop) :
  (k' <= k)%nat -> (forall a, P a -> Q a) -> safe k m P -> safe k' m Q.
Proof.
  intros Hk HPQ Hm s Hs. specialize (Hm s Hs). destruct (m s) as [s1 [a|e|]]; [|done..].
  destruct Hm as (? & ? & n & ? & ?). split_and!; [by auto..|]. exists n. split; [lia|done].
Qed.

Lemma safe_pure {A} (m : SE _ DecoderError A) (P : A -> Prop) :
  (forall s, st_ok s -> exists s' r, m s = (s', r) /\ st_ok s' /\
    src_bytes s'.2 = src_bytes s.2 /\
    match r with Ok a => P a | Err _ => True | Panic => False end) ->
  safe 0 m P.
Proof.
  intros H s Hs. destruct (H s Hs) as (s' & r & -> & Hs' & E & Hr).
  destruct r; [|done|done]. split_and!; [done..|]. exists 0%nat.
  split; [lia|]. by rewrite E, drop_0.
Qed.

Lemma safe_lift {A} (r : outcome DecoderError A) (P : A -> Prop) :
  match r with Ok a => P a | Err _ => True | Panic => False end -> safe 0 (lift r) P.
Proof. intros Hr. apply safe_pure. intros s Hs. by exists s, r. Qed.

Lemma safe_throw {A} e (P : A -> Prop) : safe 0 (throw e) P.
Proof. apply safe_pure. intros s Hs. by exists s, (Err e). Qed.

Lemma safe_gets {A} (g : _ -> A) (P : A -> Prop) :
  (forall s, st_ok s -> P (g s)) -> safe 0 (gets g) P.
Proof. intros H. apply safe_pure. intros s Hs. exists s, (Ok (g s)). auto. Qed.

Lemma st_ok_advance d c k :
  st_ok (d, c) -> (k <= length (src_bytes c))%nat -> st_ok (d, advance c k).
Proof. intros (? & Hc & ? & ?) Hk. split_and!; [done| |done|done]. by apply advance_ok. Qed.

Lemma st_ok_src s : st_ok s -> is_bytes (src_bytes s.2) /\ len (src_bytes s.2) < 2 ^ 62.
Proof.
  intros (_ & _ & Hb & Hl). simpl. split; [auto with kayrx|].
  unfold len in *. rewrite length_drop. lia.
Qed.

Lemma safe_decode_int p : 1 <= p <= 8 -> safe 1 (on_cursor (decode_int p)) (int_ok p).
Proof.
  intros Hp [d c] Hs. destruct (decode_int_bounds p c Hp) as (k & r & E & (Hk & H5 & Hr) & Hv);
    [by apply (st_ok_src (d, c))|].
  rewrite (on_cursor_eq _ d _ _ _ E). destruct r as [v|e|]; [| |done].
  - split_and!; [by apply st_ok_advance|by apply Hv|]. exists k. split; [simpl in *; lia|].
    apply advance_bytes, Hk.
  - intros _. by apply st_ok_advance.
Qed.

Lemma st_ok_suffix d c c' n :
  st_ok (d, c) -> cur_ok c' -> src_bytes c' = drop n (src_bytes c) ->
  cur_pos c' = 0%nat -> st_ok (d, c').
Proof.
  intros Hs Hc' E E0. destruct (st_ok_src _ Hs) as [Hb Hl]. destruct Hs as (Hd & _).
  assert (buf_bytes (cur_buf c') = drop n (src_bytes c)) as E'.
  { rewrite <- E. simpl. by rewrite E0, drop_0. }
  split_and!; [done|done| |]; simpl snd; rewrite E'; [by apply is_bytes_drop|].
  unfold len in *. simpl snd in *. rewrite length_drop. lia.
Qed.

Lemma safe_take_bytes n :
  0 <= n -> forall s, st_ok s -> n <= len (src_bytes s.2) ->
  exists s', on_cursor (take_bytes n) s = (s', Ok (take (Z.to_nat n) (src_bytes s.2)) : outcome DecoderError _) /\
    st_ok s' /\ src_bytes s'.2 = drop (Z.to_nat n) (src_bytes s.2).
Proof.
  intros Hn [d c] Hs Hle. destruct (take_bytes_spec (E:=DecoderError) c n) as (c' & E1 & E2 & E3 & E4);
    [apply Hs|by simpl in Hle|].
  exists (d, c'). rewrite (on_cursor_eq _ d _ _ _ E1). split; [done|]. split; [|done].
  by apply (st_ok_suffix d c c' (Z.to_nat n)).
Qed.

Lemma safe_consume : safe 0 (on_cursor consume) (fun _ => True).
Proof.
  apply safe_pure. intros [d c] Hs.
  destruct (consume_spec (E:=DecoderError) c) as (c' & E1 & E2 & E3 & E4); [apply Hs|].
  exists (d, c'), (Ok tt). rewrite (on_cursor_eq _ d _ _ _ E1). split_and!; [done| |done|done].
  apply (st_ok_suffix d c c' 0%nat); by rewrite ?drop_0.
Qed.

Lemma decode_total_buf raw (buf : B) :
  is_bytes raw -> buf_bytes buf = [] -> len raw < 2 ^ 62 ->
  match decode raw buf with
  | (buf', Ok r) => buf_bytes buf' = [] /\ is_bytes (buf_bytes r)
  | (_, Err e) => e = InvalidHuffmanCode
  | (_, Panic) => False
  end.
Proof.
  intros Hr Hb Hl.
  assert (2 * len raw <= remaining_mut buf) as Hroom by (rewrite bm_remaining, Hb, len_nil; lia).
  pose proof (decode_total raw buf Hr Hroom) as [[r E]|E];
    destruct (decode raw buf) as [buf' r'] eqn:Ed; simpl in E; subst r'; [|done].
  assert (buf_bytes buf' = []) as Hb'.
  { unfold decode in Ed. destruct (decode_loop Decoder.new raw buf) as [b1 [d1|e|]]; [|done|done].
    destruct (Decoder.is_final d1); [|done]. simpl in Ed.
    pose proof (bm_split_bytes b1) as [_ S2]. destruct (bm_split b1). by simplify_eq/=. }
  split; [done|]. apply (decode_accepts raw buf (buf_bytes r)); eauto 10.
Qed.

Lemma safe_decode_string : safe 1 decode_string is_bytes.
Proof.
  intros [d c] Hs. unfold decode_string.
  rewrite (bind_eq _ _ _ _ _ (on_cursor_eq peek_u8 d c c _ (peek_u8_spec c))).
  destruct (head (src_bytes c)) as [hdr|]; [|intros _; exact Hs]. cbv zeta.
  generalize (Z.land hdr 128 =? 128). intros huff. revert d c Hs.
  cut (safe (1 + 0) (len ← on_cursor (decode_int 7);
      rem ← gets (fun s => remaining s.2);
      if rem <? len then throw (NeedMore_ StringUnderflow)
      else if huff then
        bytes ← gets (fun s => src_bytes s.2);
        raw ← lift (slice_to bytes len);
        buf ← gets (fun s => buffer s.1);
        let '(buf, ret) := decode raw buf in
        _ ← modify (fun s => (set_buffer buf s.1, advance s.2 (Z.to_nat len)));
        ret ← lift ret;
        mret (buf_bytes ret)
      else on_cursor (take_bytes len)) is_bytes).
  { intros H d c Hs. exact (H (d, c) Hs). }
  apply (safe_bind 1 0 _ _ (int_ok 7)); [apply safe_decode_int; lia|].
  intros n Hn [d c] Hs. rewrite bind_gets. simpl snd.
  destruct (st_ok_src _ Hs) as [Hb Hl]. simpl snd in Hb, Hl.
  unfold int_ok in Hn. unfold remaining.
  change ((d, c).2) with c.
  destruct (len (src_bytes c) <? n) eqn:Hlt; [intros _; exact Hs|]. reflect_bools.
  assert (Z.to_nat n <= length (src_bytes c))%nat as Hle by (unfold len in *; lia).
  assert (len (take (Z.to_nat n) (src_bytes c)) < 2 ^ 62) as Hraw.
  { revert Hl. generalize (src_bytes c). intros l Hl. unfold len in *. rewrite length_take. lia. }
  destruct huff.
  - rewrite bind_gets. change ((d, c).2) with c.
    rewrite slice_to_Ok by lia. rewrite bind_lift_Ok, bind_gets. change ((d, c).1) with d.
    pose proof (decode_total_buf (take (Z.to_nat n) (src_bytes c)) (buffer d)
      ltac:(auto with kayrx) ltac:(apply Hs)) as Hd.
    destruct (decode _ (buffer d)) as [b' [r|e|]].
    + rewrite bind_modify, bind_lift_Ok. simpl fst. simpl snd.
      destruct (Hd Hraw) as [Hb' Hr].
      pose proof (st_ok_advance d c _ Hs Hle) as ((? & ?) & ? & ? & ?).
      split_and!; [done..|]. exists (Z.to_nat n). split; [split; [lia|exact Hle]|].
      by apply advance_bytes.
    + rewrite bind_modify. unfold mbind, SE_bind, lift.
      by rewrite (Hd Hraw).
    + rewrite bind_modify. unfold mbind, SE_bind, lift.
      exact (Hd Hraw).
  - destruct (safe_take_bytes n ltac:(lia) (d, c) Hs) as (s' & -> & Hs' & E); [done|].
    split_and!; [done|by apply is_bytes_take|]. exists (Z.to_nat n). split; [split; [lia|exact Hle]|done].
Qed.

Lemma table_get_total t i : 0 <= i -> match Table_get t i with Panic => False | _ => True end.
Proof.
  intros Hi. unfold Table_get. destruct (Z.eqb_spec i 0); [done|].
  destruct (Z.leb_spec i 61); [|by destruct (entries t !! _)].
  by destruct (get_static_total (E:=DecoderError) i) as [h ->]; [lia|].
Qed.

Lemma header_new_total name value :
  match Header.new name value with Panic => False | _ => True end.
Proof.
  unfold Header.new. case_bool_decide; [done|].
  destruct name as [|b bs]; [done|]. cbn [mbind outcome_bind index].
  change (index (b :: bs) 0) with (Ok b : outcome DecoderError Z). cbn [mbind outcome_bind].
  destruct (b =? 58); [rewrite (slice_from_app [b] bs) by done; cbn [mbind outcome_bind];
    repeat case_bool_decide|];
    repeat match goal with |- context [ok_or ?o _] => destruct o; cbn end; done.
Qed.

Lemma into_entry_total n value :
  match Name.into_entry n value with Panic => False | _ => True end.
Proof.
  destruct n; simpl;
    repeat match goal with
    | |- context [ok_or ?o _] => destruct o; cbn
    | |- context [status_from_bytes ?v] => destruct (status_from_bytes v)
    end; done.
Qed.

Lemma safe_decode_indexed : safe 1 decode_indexed (fun _ => True).
Proof.
  apply (safe_bind 1 0 _ _ (int_ok 7)); [apply safe_decode_int; lia|]. intros i Hi.
  apply (safe_bind 0 0 _ _ (fun _ => True)); [by apply safe_gets|]. intros t _.
  apply safe_lift. pose proof (table_get_total t i) as Ht. unfold int_ok in Hi.
  by destruct (Table_get t i); [..|apply Ht; lia].
Qed.

Lemma safe_decode_literal index : safe 1 (decode_literal index) (fun _ => True).
Proof.
  unfold decode_literal.
  assert (1 <= (if index then 6 else 4) <= 8) as Hp by (destruct index; lia).
  apply (safe_bind 1 0 _ _ (int_ok (if index then 6 else 4))); [by apply safe_decode_int|].
  intros i Hi. unfold int_ok in Hi. destruct (Z.eqb_spec i 0).
  - eapply (safe_mono 2 0 _ (fun _ => True)); [lia|done|].
    apply (safe_bind 1 1 _ _ is_bytes); [apply safe_decode_string|]. intros name _.
    apply (safe_bind 1 0 _ _ is_bytes); [apply safe_decode_string|]. intros value _.
    apply safe_lift. pose proof (header_new_total name value). by destruct (Header.new _ _).
  - apply (safe_bind 0 0 _ _ (fun _ => True)); [by apply safe_gets|]. intros t _.
    apply (safe_bind 0 0 _ _ (fun _ => True)).
    { apply safe_lift. pose proof (table_get_total t i). destruct (Table_get t i); [done..|].
      destruct H; lia. }
    intros e _. eapply (safe_mono 1 0 _ (fun _ => True)); [lia|done|].
    apply (safe_bind 1 0 _ _ is_bytes); [apply safe_decode_string|]. intros value _.
    apply safe_lift. pose proof (into_entry_total (Header.name e) value).
    by destruct (Name.into_entry _ _).
Qed.

Lemma safe_process_size_update : safe 1 process_size_update (fun _ => True).
Proof.
  apply (safe_bind 1 0 _ _ (int_ok 5)); [apply safe_decode_int; lia|]. intros n Hn.
  apply (safe_bind 0 0 _ _ (fun _ => True)); [by apply safe_gets|]. intros last _.
  case_match; [apply safe_throw|]. apply safe_pure. intros [d c] Hs.
  rewrite bind_gets. pose proof Hs as ((Ht & Hb) & Hc & ?). unfold int_ok in Hn.
  destruct (table_set_max_size_spec (E:=DecoderError) n (table d) Ht) as (t' & E & _ & _ & Ht');
    [lia|].
  exists (set_table t' d, c), (Ok tt). change ((d, c).1) with d. rewrite E, bind_lift_Ok.
  split_and!; [done| |done|done].
  split; [by split|]. by destruct Hs as (_ & ? & ? & ?).
Qed.

(** A component computation inside the loop. *)
Lemma bind_in_st {F A A'} k (m : SE _ DecoderError A) P
    (g : A -> SE (HDecoder (B:=B) * Cursor B * F) DecoderError A') s acc (Q : _ -> Prop) :
  safe k m P -> st_ok s ->
  (forall s' a n, st_ok s' -> P a -> (k <= n <= length (src_bytes s.2))%nat ->
    src_bytes s'.2 = drop n (src_bytes s.2) -> Q (g a (s', acc))) ->
  (forall s' e, (need_more e = true -> st_ok s') -> Q ((s', acc), Err e)) ->
  Q ((in_st m ≫= g) (s, acc)).
Proof.
  intros Hm Hs Hok Herr. specialize (Hm s Hs).
  unfold mbind, SE_bind, in_st, zoom. cbn [fst snd].
  destruct (m s) as [s' [a|e|]]; [|by apply Herr|done].
  destruct Hm as (? & ? & n & ? & ?). by apply (Hok s' a n).
Qed.

Section Loop.
Context {F : Type} (f : F -> Header HeaderName -> F).

(** The outcome of decoding a block: the headers went to the callback in
    order; a success used up the input; a failure that asks for more input
    leaves a state to resume from. *)
Definition block_post (acc : F)
    (r : (HDecoder (B:=B) * Cursor B * F) * outcome DecoderError ()) : Prop :=
  let '((s', acc'), o) := r in
  (exists hs, acc' = foldl f acc hs) /\
  match o with
  | Ok _ => st_ok s' /\ src_bytes s'.2 = []
  | Err e => need_more e = true -> st_ok s'
  | Panic => False
  end.

Lemma block_post_cons acc h r : block_post (f acc h) r -> block_post acc r.
Proof.
  destruct r as [[s' acc'] o]. intros [[hs ->] Ho]. split; [by exists (h :: hs)|done].
Qed.

Lemma block_post_err acc s e :
  (need_more e = true -> st_ok s) -> block_post acc ((s, acc), Err e).
Proof. intros H. split; [by exists []|done]. Qed.

(** One header field: read it, maybe update the decoder, consume, report. *)
Lemma field_step fuel acc s (m : SE _ DecoderError (Header HeaderName))
    (upd : Header HeaderName -> HDecoder (B:=B) * Cursor B -> HDecoder (B:=B) * Cursor B) :
  (forall s acc, st_ok s -> (length (src_bytes s.2) < fuel)%nat ->
    block_post acc (decode_block_loop f fuel false (s, acc))) ->
  safe 1 m (fun _ => True) ->
  (forall h s, st_ok s -> st_ok (upd h s) /\ src_bytes (upd h s).2 = src_bytes s.2) ->
  st_ok s -> (length (src_bytes s.2) < S fuel)%nat ->
  block_post acc ((entry ← in_st m;
    _ ← in_st (modify (upd entry));
    _ ← in_st (on_cursor consume);
    _ ← call f entry;
    decode_block_loop f fuel false) (s, acc)).
Proof.
  intros IH Hm Hu Hs Hf.
  apply (bind_in_st 1 m (fun _ => True)); [done|done| |by intros; apply block_post_err].
  intros s1 h n Hs1 _ Hn E1.
  apply (bind_in_st 0 (modify (upd h)) (fun _ => True));
    [|done| |by intros; apply block_post_err].
  { apply safe_pure. intros s' Hs'. exists (upd h s'), (Ok tt). by destruct (Hu h s'). }
  intros s2 [] n2 Hs2 _ Hn2 E2.
  apply (bind_in_st 0 (on_cursor consume) (fun _ => True));
    [apply safe_consume|done| |by intros; apply block_post_err].
  intros s3 [] n3 Hs3 _ Hn3 E3. unfold call. rewrite bind_modify.
  apply (block_post_cons _ h), IH; [done|]. cbn [fst snd].
  rewrite E3, E2, E1, !length_drop. lia.
Qed.

Lemma in_st_skip {A} (m : SE (HDecoder (B:=B) * Cursor B) DecoderError A)
    (g : A -> SE (HDecoder (B:=B) * Cursor B * F) DecoderError ()) t :
  (x ← in_st m; g x) t = (x ← in_st m; _ ← in_st (modify (fun s => s)); g x) t.
Proof.
  unfold mbind, SE_bind, in_st, zoom, modify. destruct (m t.1) as [s' [a|e|]]; [|done..].
  done.
Qed.

Lemma decode_block_loop_total fuel : forall can_resize s acc,
  st_ok s -> (length (src_bytes s.2) < fuel)%nat ->
  block_post acc (decode_block_loop f fuel can_resize (s, acc)).
Proof.
  induction fuel as [|fuel IH]; intros can_resize [d c] acc Hs Hf; [lia|].
  cbn [decode_block_loop].
  rewrite (bind_eq _ _ ((d, c), acc) ((d, c), acc) (head (src_bytes c))).
  2: { unfold in_st, zoom. cbn [fst snd]. by rewrite (on_cursor_eq peek_u8 d c c _ (peek_u8_spec c)). }
  destruct (src_bytes c) as [|x l] eqn:Hsrc; cbn [head].
  { split; [by exists []|]. done. }
  assert (forall s acc, st_ok s -> (length (src_bytes s.2) < fuel)%nat ->
    block_post acc (decode_block_loop f fuel false (s, acc))) as IH' by auto.
  assert (forall (h : Header HeaderName) (s : HDecoder * Cursor B), st_ok s -> st_ok s /\
    src_bytes s.2 = src_bytes s.2) as Hid by auto.
  destruct (Representation_load x) as [rep|e|] eqn:Hrep;
    [rewrite bind_lift_Ok|apply block_post_err; by intros _|].
  2: { unfold Representation_load in Hrep. repeat case_match; done. }
  destruct rep.
  - rewrite in_st_skip.
    apply (field_step fuel acc (d, c) _ (fun _ s => s)); auto using safe_decode_indexed.
  - apply (field_step fuel acc (d, c) _
      (fun h s => (set_table (Table_insert h (table s.1)) s.1, s.2)));
      auto using safe_decode_literal.
    intros h [d' c'] ((Ht & Hb) & Hc). split; [|done]. split; [|done]. split; [|done].
    by apply table_insert_spec.
  - rewrite in_st_skip.
    apply (field_step fuel acc (d, c) _ (fun _ s => s)); auto using safe_decode_literal.
  - rewrite in_st_skip.
    apply (field_step fuel acc (d, c) _ (fun _ s => s)); auto using safe_decode_literal.
  - destruct can_resize; cbn [negb]; [|apply block_post_err; by intros _].
    apply (bind_in_st 1 process_size_update (fun _ => True));
      [apply safe_process_size_update|done| |by intros; apply block_post_err].
    intros s1 [] n Hs1 _ Hn E1.
    apply (bind_in_st 0 (on_cursor consume) (fun _ => True));
      [apply safe_consume|done| |by intros; apply block_post_err].
    intros s2 [] n2 Hs2 _ Hn2 E2. apply IH; [done|]. rewrite E2, E1, !length_drop. lia.
Qed.

Lemma decode_block_total s acc : st_ok s -> block_post acc (decode_block f (s, acc)).
Proof.
  intros Hs. unfold decode_block.
  apply (bind_in_st 0 _ (fun _ => True)); [|done| |by intros; apply block_post_err].
  { apply safe_pure. intros [d c] H. do 2 eexists. split; [done|]. cbn [fst snd].
    destruct (max_size_update d); [|done]. by destruct H as ((? & ?) & ? & ? & ?). }
  intros s1 [] n Hs1 _ _ _. rewrite bind_gets. apply decode_block_loop_total; [done|].
  cbn [fst snd]. unfold remaining, len. lia.
Qed.

End Loop.
End Total.

(** ** The headers a block decodes to, whatever the callback *)

Section Trace.
Context `{HT : HttpTypes} `{BM : BytesMut B}.
Abbreviation St := (HDecoder (B:=B) * Cursor B)%type.

(** A computation whose effect on the captured variables is to report a list
    of headers. *)
Definition traced (s : St)
    (m : forall F, (F -> Header HeaderName -> F) -> SE (St * F) DecoderError ()) : Prop :=
  exists s' hs r, forall F f acc, m F f (s, acc) = ((s', foldl f acc hs), r).

Lemma traced_ret s r : traced s (fun F f => lift r).
Proof. by exists s, [], r. Qed.

Lemma traced_in_st {A} s (m : SE St DecoderError A)
    (g : A -> forall F, (F -> Header HeaderName -> F) -> SE (St * F) DecoderError ()) :
  (forall s' a, traced s' (g a)) ->
  traced s (fun F f => x ← in_st m; g x F f).
Proof.
  intros Hg. unfold traced, mbind, SE_bind, in_st, zoom. cbn [fst snd].
  destruct (m s) as [s' [a|e|]]; [apply Hg|by exists s', [], (Err e)|by exists s', [], Panic].
Qed.

Lemma traced_call s h
    (m : forall F, (F -> Header HeaderName -> F) -> SE (St * F) DecoderError ()) :
  traced s m -> traced s (fun F f => _ ← call f h; m F f).
Proof.
  intros (s' & hs & r & Hm). exists s', (h :: hs), r. intros F f acc.
  unfold call. rewrite bind_modify. cbn [fst snd]. by rewrite Hm.
Qed.

Lemma decode_block_loop_traced fuel : forall can_resize s,
  traced s (fun F f => decode_block_loop f fuel can_resize).
Proof.
  induction fuel as [|fuel IH]; intros can_resize s; [by exists s, [], Panic|].
  cbn [decode_block_loop].
  apply (traced_in_st s (on_cursor peek_u8) (fun ty F f => match ty with None => _ | Some _ => _ end)).
  intros s1 [ty|]; [|by exists s1, [], (Ok tt)].
  destruct (Representation_load ty) as [rep|e|];
    [|by exists s1, [], (Err e)|by exists s1, [], Panic].
  assert (forall m : forall F, (F -> Header HeaderName -> F) -> Representation -> SE (St * F) DecoderError (),
    traced s1 (fun F f => m F f rep) ->
    traced s1 (fun F f => r ← lift (Ok rep); m F f r)) as Hl by done.
  apply (Hl (fun F f rep => match rep with Indexed => _ | _ => _ end)). clear Hl.
  assert (forall (m : SE St DecoderError (Header HeaderName)) s',
    traced s' (fun F f => entry ← in_st m; _ ← in_st (on_cursor consume); _ ← call f entry;
      decode_block_loop f fuel false)) as Hfield.
  { intros m s'. apply traced_in_st. intros s2 h. apply traced_in_st. intros s3 [].
    apply traced_call, IH. }
  destruct rep; [apply Hfield| |apply Hfield..|].
  - apply traced_in_st. intros s2 h. apply (traced_in_st s2 (modify _)). intros s3 [].
    apply traced_in_st. intros s4 []. apply traced_call, IH.
  - destruct can_resize; cbn [negb]; [|by exists s1, [], (Err InvalidMaxDynamicSize)].
    apply traced_in_st. intros s2 []. apply traced_in_st. intros s3 []. apply IH.
Qed.

Lemma decode_block_traced s : traced s (fun F f => decode_block f).
Proof.
  apply (traced_in_st s (on_self (modify _))). intros s1 [].
  destruct (decode_block_loop_traced (S (Z.to_nat (remaining s1.2))) true s1) as (s' & hs & r & H).
  exists s', hs, r. intros F f acc. rewrite bind_gets. apply H.
Qed.

(** The decoded list itself. *)
Definition collect (acc : list (Header HeaderName)) (h : Header HeaderName) := acc ++ [h].

Lemma foldl_collect hs : forall acc, foldl collect acc hs = acc ++ hs.
Proof.
  induction hs as [|h hs IH]; intros acc; simpl; [by rewrite app_nil_r|].
  rewrite IH. unfold collect. by rewrite <- (assoc_L (++)).
Qed.

Lemma decode_block_collect s s' hs r :
  decode_block collect (s, []) = ((s', hs), r) ->
  forall F (f : F -> Header HeaderName -> F) acc,
    decode_block f (s, acc) = ((s', foldl f acc hs), r).
Proof.
  destruct (decode_block_traced s) as (s1 & hs1 & r1 & H). intros E F f acc.
  rewrite H, foldl_collect in E. simplify_eq/=. apply H.
Qed.

End Trace.

(** ** Properties *)

(** C31. The dynamic table follows RFC 7541 4: inserting a field keeps the
    longest prefix of the newest-first list that fits in the maximum size (the
    new field included, nothing if it alone is too large), changing the maximum
    keeps the longest prefix that fits the new one without ever reaching the
    panic for an empty table, and the recorded size is the sum of the entry
    sizes and within the maximum. *)
Theorem dynamic_table_rfc `{HT : HttpTypes} (t : Table) h n :
  table_inv t -> 0 <= n ->
  (entries (Table_insert h t) = fit (table_max_size t) (h :: entries t) /\
   table_max_size (Table_insert h t) = table_max_size t /\ table_inv (Table_insert h t)) /\
  exists t', Table_set_max_size n t = (Ok t' : outcome DecoderError _) /\
    entries t' = fit n (entries t) /\ table_max_size t' = n /\ table_inv t'.
Proof. intros. split; [by apply table_insert_spec|by apply table_set_max_size_spec]. Qed.

(** C30. Decoding a header block is total: on any bytes, from a decoder whose
    table accounts for its entries, [decode] ends within one round per byte
    without panicking; it reports the decoded headers in order; success uses up
    the input, and after success or a request for more input the decoder is
    again in such a state. *)
Theorem hpack_decode_total `{HT : HttpTypes} `{BM : BytesMut B} {F}
    (f : F -> Header HeaderName -> F) (d : HDecoder (B:=B)) (c : Cursor B) acc :
  st_ok (d, c) ->
  let '((s', acc'), r) := decode_block f ((d, c), acc) in
  (exists hs, acc' = foldl f acc hs) /\
  match r with
  | Ok _ => st_ok s' /\ src_bytes s'.2 = []
  | Err e => need_more e = true -> st_ok s'
  | Panic => False
  end.
Proof. intros H. exact (decode_block_total f (d, c) acc H). Qed.

(** String literals are read back: what [encode_str] appends to its
    destination, [decode_string] returns, leaving the bytes that follow and an
    empty scratch buffer. *)
Theorem string_roundtrip `{HT : HttpTypes} `{BM : BytesMut B} s (dst dst' : Limit B) out
    (d : HDecoder (B:=B)) (c : Cursor B) rest :
  is_bytes s -> 0 <= remaining_mut dst <= 2 ^ 28 ->
  encode_str s dst = (dst', Ok tt) -> buf_bytes dst' = buf_bytes dst ++ out ->
  cur_ok c -> buf_bytes (buffer d) = [] -> src_bytes c = out ++ rest ->
  exists b' c', decode_string (d, c) = ((set_buffer b' d, c'), Ok s) /\
    buf_bytes b' = [] /\ src_bytes c' = rest /\ cur_ok c'.
Proof.
  intros Hs Hr He Ho Hc Hb Hsrc. pose proof (encode_str_spec s dst Hs Hr) as H. rewrite He in H.
  destruct H as (Hl & out' & Hw & Ho' & _).
  assert (out' = out) as ->.
  { change (dst_bytes dst') with (buf_bytes dst') in Ho'. rewrite Ho in Ho'.
    by apply app_inv_head in Ho'. }
  apply (decode_string_read d c s out rest); try done. lia.
Qed.

Import ModelHttp.

Lemma dynamic_table_rfc_witness :
  entries (Table_insert (HMethod GET) (Table_new 42)) = [HMethod GET].
Proof.
  destruct (dynamic_table_rfc (Table_new 42) (HMethod GET) 0) as [[E _] _];
    [split; vm_compute; congruence|lia|]. rewrite E. reflexivity.
Defined.

Lemma hpack_decode_total_witness :
  st_ok (HDecoder_new (B:=list Z) 4096, MkCursor [0x82; 0xff] 0) /\
  match (decode_block (fun n _ => n + 1) ((HDecoder_new (B:=list Z) 4096, MkCursor [0x82; 0xff] 0), 0)).2
  with Panic => False | _ => True end.
Proof.
  assert (st_ok (HDecoder_new (B:=list Z) 4096, MkCursor [0x82; 0xff] 0)) as H.
  { split; [split; [split; vm_compute; congruence|reflexivity]|]. split; [vm_compute; lia|].
    split; [apply (bool_decide_unpack _); vm_compute; exact I|vm_compute; reflexivity]. }
  split; [exact H|].
  pose proof (hpack_decode_total (fun n _ => n + 1) (HDecoder_new (B:=list Z) 4096)
    (MkCursor [0x82; 0xff] 0) 0 H) as T.
  destruct (decode_block _ _) as [[s' acc'] [[]|e|]]; cbn [snd]; [exact I|exact I|apply T].
Defined.

Lemma string_roundtrip_witness :
  exists b' c', decode_string (HDecoder_new (B:=list Z) 4096, MkCursor [0x82; 0x1d; 0x3f; 7] 0) =
      ((set_buffer b' (HDecoder_new 4096), c'), Ok [97; 109]) /\
    buf_bytes b' = [] /\ src_bytes c' = [7] /\ cur_ok c'.
Proof.
  refine (string_roundtrip [97; 109] (MkLimit ([] : list Z) 100)
    (encode_str [97; 109] (MkLimit ([] : list Z) 100)).1 [0x82; 0x1d; 0x3f] _ _ _
    _ _ _ _ _ _ _).
  - apply (bool_decide_unpack _). vm_compute. exact I.
  - split; vm_compute; congruence.
  - vm_compute. reflexivity.
  - vm_compute. reflexivity.
  - vm_compute. lia.
  - reflexivity.
  - reflexivity.
Defined.
