(* ===== verification/HpackWire.v ===== *)
(** * Header blocks on the wire

    The representations of RFC 7541 6 as a relation between bytes, the fields
    they stand for and the dynamic table before and after; the decode loop
    reads every block that the relation describes. *)

From S2P Require Import Prelude Bytes Huffman HuffmanCorrect HttpTypes HpackPrim HpackDecoder HpackDecoderCorrect.

Section Wire.
Context `{HT : HttpTypes}.
Implicit Types (h g : Header HeaderName) (ds : list (Header HeaderName)).

(** Entry [n] of the index space over the dynamic entries [ds]. *)
Definition entry ds (n : Z) g : Prop :=
  forall sz mx, Table_get (MkTable ds sz mx) n = Ok g.

(** A string literal with a length both ends support. *)
Definition string_repr (s out : list Z) : Prop :=
  is_bytes s /\ str_wire s out /\ len (codes s) <= 2 ^ 31.

(** [field_repr max ds out h ds']: over the dynamic table [ds] of size at most
    [max] the bytes [out] represent the field [h] and leave the table [ds']. *)
Inductive field_repr (max : Z) ds : list Z -> Header HeaderName -> list (Header HeaderName) -> Prop :=
  | fr_indexed n h :
      entry ds n h -> int_ok 7 n -> field_repr max ds (int_bytes 7 0x80 n) h ds
  | fr_insert n g v o h :
      entry ds n g -> int_ok 6 n -> string_repr v o -> Name.into_entry (Header.name g) v = Ok h ->
      field_repr max ds (int_bytes 6 0x40 n ++ o) h (fit max (h :: ds))
  | fr_insert_new nm v o1 o2 h :
      string_repr nm o1 -> string_repr v o2 -> Header.new nm v = Ok h ->
      field_repr max ds (int_bytes 6 0x40 0 ++ o1 ++ o2) h (fit max (h :: ds))
  | fr_literal (never : bool) n g v o h :
      entry ds n g -> int_ok 4 n -> string_repr v o -> Name.into_entry (Header.name g) v = Ok h ->
      field_repr max ds (int_bytes 4 (if never then 0x10 else 0) n ++ o) h ds
  | fr_literal_new (never : bool) nm v o1 o2 h :
      string_repr nm o1 -> string_repr v o2 -> Header.new nm v = Ok h ->
      field_repr max ds (int_bytes 4 (if never then 0x10 else 0) 0 ++ o1 ++ o2) h ds.

(** A run of fields. *)
Inductive fields_repr (max : Z) : list (Header HeaderName) -> list Z -> list (Header HeaderName) ->
    list (Header HeaderName) -> Prop :=
  | frs_nil ds : fields_repr max ds [] [] ds
  | frs_cons ds out h ds' outs hs ds'' :
      field_repr max ds out h ds' -> fields_repr max ds' outs hs ds'' ->
      fields_repr max ds (out ++ outs) (h :: hs) ds''.

Lemma fields_repr_app max ds o1 l1 ds1 o2 l2 ds2 :
  fields_repr max ds o1 l1 ds1 -> fields_repr max ds1 o2 l2 ds2 ->
  fields_repr max ds (o1 ++ o2) (l1 ++ l2) ds2.
Proof.
  induction 1 as [|? ? ? ? ? ? ? Hf _ IH]; intros H2; [done|].
  rewrite <- (assoc_L (++)). econstructor; [done|]. by apply IH.
Qed.

(** ** The first byte *)

Definition rep_first (rep : Representation) : Z * Z :=
  match rep with
  | Indexed => (7, 0x80)
  | LiteralWithIndexing => (6, 0x40)
  | LiteralWithoutIndexing => (4, 0)
  | LiteralNeverIndexed => (4, 0x10)
  | SizeUpdate => (5, 0x20)
  end.

Lemma rep_first_check rep :
  forallb (fun i => match Representation_load (Z.lor (rep_first rep).2 (Z.of_nat i)) with
                    | Ok r => match r, rep with
                              | Indexed, Indexed | LiteralWithIndexing, LiteralWithIndexing
                              | LiteralWithoutIndexing, LiteralWithoutIndexing
                              | LiteralNeverIndexed, LiteralNeverIndexed
                              | SizeUpdate, SizeUpdate => true
                              | _, _ => false
                              end
                    | _ => false
                    end) (seq 0 (Z.to_nat (2 ^ (rep_first rep).1))) = true.
Proof. destruct rep; vm_compute; reflexivity. Qed.

Lemma rep_first_load rep n rest :
  0 <= n -> exists x l, int_bytes (rep_first rep).1 (rep_first rep).2 n ++ rest = x :: l /\
    Representation_load x = Ok rep.
Proof.
  intros Hn. assert (forall i, 0 <= i < 2 ^ (rep_first rep).1 ->
    Representation_load (Z.lor (rep_first rep).2 i) = Ok rep) as Hload.
  { intros i Hi. pose proof (rep_first_check rep) as H.
    rewrite forallb_forall in H. specialize (H (Z.to_nat i)).
    rewrite Z2Nat.id in H by lia.
    assert (In (Z.to_nat i) (seq 0 (Z.to_nat (2 ^ (rep_first rep).1)))) as Hin by (apply in_seq; lia).
    specialize (H Hin). destruct (Representation_load _) as [r| |]; [|done|done].
    by destruct r, rep. }
  assert (0 < 2 ^ (rep_first rep).1) by (destruct rep; done).
  unfold int_bytes. destruct (Z.ltb_spec n (2 ^ (rep_first rep).1 - 1)); simpl;
    do 2 eexists; (split; [done|]); apply Hload; lia.
Qed.

Lemma first_ok_rep rep : 1 <= (rep_first rep).1 <= 8 /\ first_ok (rep_first rep).1 (rep_first rep).2.
Proof. destruct rep; (split; [simpl; lia|]); by split; [vm_compute|]. Qed.

(** ** Reading a field *)

Context `{BM : BytesMut B}.
Implicit Types (c : Cursor B) (d : HDecoder (B:=B)).

(** The decoder with the dynamic entries [ds] and the table size limit
    [max]. *)
Definition dec_at (max : Z) ds d : Prop :=
  entries (table d) = ds /\ table_max_size (table d) = max /\ dec_ok d.

(** [d'] differs from [d] at most in the table and the scratch buffer. *)
Definition same_limits d d' : Prop :=
  max_size_update d' = max_size_update d /\ last_max_update d' = last_max_update d.

Lemma read_int rep n d c rest :
  cur_ok c -> int_ok (rep_first rep).1 n ->
  src_bytes c = int_bytes (rep_first rep).1 (rep_first rep).2 n ++ rest ->
  exists c', on_cursor (decode_int (rep_first rep).1) (d, c) = ((d, c'), Ok n) /\
    src_bytes c' = rest /\ cur_ok c'.
Proof.
  intros Hc Hn Hsrc. destruct (first_ok_rep rep) as [Hp Hf].
  pose proof (decode_int_app _ _ _ c rest Hp Hf Hn Hsrc) as E1. eexists.
  rewrite (on_cursor_eq _ d _ _ _ E1). split; [done|]. split.
  - rewrite advance_bytes, Hsrc by (rewrite Hsrc, length_app; lia). apply drop_app_length.
  - apply advance_ok; [done|]. rewrite Hsrc, length_app. lia.
Qed.

Lemma read_string max ds d c s out rest :
  cur_ok c -> dec_at max ds d -> string_repr s out -> src_bytes c = out ++ rest ->
  exists d' c', decode_string (d, c) = ((d', c'), Ok s) /\ dec_at max ds d' /\ same_limits d d' /\
    src_bytes c' = rest /\ cur_ok c'.
Proof.
  intros Hc (H1 & H2 & H3 & H4) (Hs & Hw & Hl) Hsrc.
  destruct (decode_string_read d c s out rest Hc H4 Hs Hl Hw Hsrc) as (b' & c' & E1 & Eb & E2 & E3).
  exists (set_buffer b' d), c'. split_and!; [done| |done..]. by split_and!.
Qed.

Lemma entry_pos ds n g : entry ds n g -> n <> 0.
Proof. intros H ->. specialize (H 0 0). done. Qed.

Lemma entry_get ds n g max d :
  entry ds n g -> dec_at max ds d -> Table_get (table d) n = Ok g.
Proof. intros H (<- & _). destruct (table d) as [es sz mx]. apply H. Qed.

(** Reading a literal whose name is an entry, or whose name is spelled out. *)
Lemma read_literal max ds (index : bool) rep n g v o h d c rest :
  rep = (if index then LiteralWithIndexing else LiteralWithoutIndexing) \/
    (index = false /\ rep = LiteralNeverIndexed) ->
  cur_ok c -> dec_at max ds d -> entry ds n g -> int_ok (rep_first rep).1 n -> string_repr v o ->
  Name.into_entry (Header.name g) v = Ok h ->
  src_bytes c = int_bytes (rep_first rep).1 (rep_first rep).2 n ++ o ++ rest ->
  exists d' c', decode_literal index (d, c) = ((d', c'), Ok h) /\ dec_at max ds d' /\
    same_limits d d' /\ src_bytes c' = rest /\ cur_ok c'.
Proof.
  intros Hrep Hc Hd Hg Hn Hv Hh Hsrc. unfold decode_literal.
  replace (if index then 6 else 4) with (rep_first rep).1
    by (destruct Hrep as [->|[-> ->]]; [by destruct index|done]).
  destruct (read_int rep n d c _ Hc Hn Hsrc) as (c1 & E1 & S1 & Hc1).
  rewrite (bind_eq _ _ _ _ _ E1), (proj2 (Z.eqb_neq _ _)) by (by eapply entry_pos).
  rewrite bind_gets. change ((d, c1).1) with d. rewrite (entry_get ds n g max d Hg Hd), bind_lift_Ok.
  destruct (read_string max ds d c1 v o rest Hc1 Hd Hv S1) as (d2 & c2 & E2 & Hd2 & Hl2 & S2 & Hc2).
  exists d2, c2. rewrite (bind_eq _ _ _ _ _ E2), Hh. by split_and!.
Qed.

Lemma read_literal_new max ds (index : bool) rep nm v o1 o2 h d c rest :
  rep = (if index then LiteralWithIndexing else LiteralWithoutIndexing) \/
    (index = false /\ rep = LiteralNeverIndexed) ->
  cur_ok c -> dec_at max ds d -> string_repr nm o1 -> string_repr v o2 -> Header.new nm v = Ok h ->
  src_bytes c = int_bytes (rep_first rep).1 (rep_first rep).2 0 ++ o1 ++ o2 ++ rest ->
  exists d' c', decode_literal index (d, c) = ((d', c'), Ok h) /\ dec_at max ds d' /\
    same_limits d d' /\ src_bytes c' = rest /\ cur_ok c'.
Proof.
  intros Hrep Hc Hd Hnm Hv Hh Hsrc. unfold decode_literal.
  replace (if index then 6 else 4) with (rep_first rep).1
    by (destruct Hrep as [->|[-> ->]]; [by destruct index|done]).
  assert (int_ok (rep_first rep).1 0) as Hn by (destruct rep; vm_compute; split; congruence).
  destruct (read_int rep 0 d c _ Hc Hn Hsrc) as (c1 & E1 & S1 & Hc1).
  rewrite (bind_eq _ _ _ _ _ E1). change (0 =? 0) with true. cbv iota.
  destruct (read_string max ds d c1 nm o1 _ Hc1 Hd Hnm S1) as (d2 & c2 & E2 & Hd2 & [L1 L2] & S2 & Hc2).
  destruct (read_string max ds d2 c2 v o2 _ Hc2 Hd2 Hv S2) as (d3 & c3 & E3 & Hd3 & [L3 L4] & S3 & Hc3).
  exists d3, c3. rewrite (bind_eq _ _ _ _ _ E2), (bind_eq _ _ _ _ _ E3), Hh.
  split_and!; [done..| |done|done]. split; congruence.
Qed.

Lemma in_st_eq {F E A A'} (m : SE (HDecoder (B:=B) * Cursor B) E A)
    (k : A -> SE (HDecoder (B:=B) * Cursor B * F) E A') s s' a (acc : F) :
  m s = (s', Ok a) -> (in_st m ≫= k) (s, acc) = k a (s', acc).
Proof. intros H. unfold mbind, SE_bind, in_st, zoom. cbn [fst snd]. by rewrite H. Qed.

(** The start of a round of the decode loop: the first byte selects the
    representation. *)
Lemma loop_peek {F} (f : F -> Header HeaderName -> F) fuel can d c rep n rest acc :
  0 <= n -> src_bytes c = int_bytes (rep_first rep).1 (rep_first rep).2 n ++ rest ->
  decode_block_loop f (S fuel) can ((d, c), acc) =
  (match rep with
   | Indexed =>
       entry ← in_st decode_indexed;
       _ ← in_st (on_cursor consume); _ ← call f entry; decode_block_loop f fuel false
   | LiteralWithIndexing =>
       entry ← in_st (decode_literal true);
       _ ← in_st (modify (fun s => (set_table (Table_insert entry (table s.1)) s.1, s.2)));
       _ ← in_st (on_cursor consume); _ ← call f entry; decode_block_loop f fuel false
   | LiteralWithoutIndexing | LiteralNeverIndexed =>
       entry ← in_st (decode_literal false);
       _ ← in_st (on_cursor consume); _ ← call f entry; decode_block_loop f fuel false
   | SizeUpdate =>
       if negb can then throw InvalidMaxDynamicSize
       else
         _ ← in_st process_size_update;
         _ ← in_st (on_cursor consume); decode_block_loop f fuel can
   end) ((d, c), acc).
Proof.
  intros Hn Hsrc. destruct (rep_first_load rep n rest Hn) as (x & l & Ex & Hload).
  cbn [decode_block_loop].
  rewrite (in_st_eq _ _ _ _ _ _ (on_cursor_eq peek_u8 d c c _ (peek_u8_spec c))).
  rewrite Hsrc, Ex. cbn [head]. rewrite Hload, bind_lift_Ok. by destruct rep.
Qed.

(** The end of a round: consume what was read and report the field. *)
Lemma loop_report d c h :
  cur_ok c -> exists c', src_bytes c' = src_bytes c /\ cur_ok c' /\ cur_pos c' = 0%nat /\
    forall F (f : F -> Header HeaderName -> F) fuel acc,
    (_ ← in_st (on_cursor consume); _ ← call f h; decode_block_loop f fuel false) ((d, c), acc) =
    decode_block_loop f fuel false ((d, c'), f acc h).
Proof.
  intros Hc. destruct (consume_spec (E:=DecoderError) c Hc) as (c' & E1 & E2 & E3 & E4).
  exists c'. split_and!; [done|done|done|]. intros F f fuel acc.
  rewrite (in_st_eq _ _ _ _ _ _ (on_cursor_eq _ d _ _ _ E1)). done.
Qed.

(** A decoder that reads [h] from [rest0] in one round, with the table [ds']
    and the bytes [rest] left. *)
Definition reads_as max d c h ds' rest : Prop :=
  exists d' c', dec_at max ds' d' /\ same_limits d d' /\ cur_ok c' /\ src_bytes c' = rest /\ cur_pos c' = 0%nat /\
    forall F (f : F -> Header HeaderName -> F) fuel can acc,
      decode_block_loop f (S fuel) can ((d, c), acc) = decode_block_loop f fuel false ((d', c'), f acc h).

Lemma reads_insert max ds d c h d1 c1 n rest0 rest :
  0 <= n -> src_bytes c = int_bytes 6 0x40 n ++ rest0 ->
  decode_literal true (d, c) = ((d1, c1), Ok h) -> dec_at max ds d1 -> same_limits d d1 ->
  src_bytes c1 = rest -> cur_ok c1 -> reads_as max d c h (fit max (h :: ds)) rest.
Proof.
  intros Hn Hsrc E1 (Ht & Hm & Hi & Hb) Hl S1 Hc1.
  set (d2 := set_table (Table_insert h (table d1)) d1).
  destruct (loop_report d2 c1 h Hc1) as (c2 & S2 & Hc2 & P2 & E2). exists d2, c2.
  destruct (table_insert_spec h (table d1) Hi) as (I1 & I2 & I3). rewrite Ht, Hm in *.
  split_and!; [by split_and!|done|done|congruence|done|]. intros F f fuel can acc.
  rewrite (loop_peek f fuel can d c LiteralWithIndexing n rest0 acc Hn Hsrc).
  by rewrite (in_st_eq _ _ _ _ _ _ E1), (in_st_eq _ _ _ (d2, c1) tt), E2.
Qed.

Lemma reads_literal max ds d c h d1 c1 (never : bool) n rest0 rest :
  0 <= n -> src_bytes c = int_bytes 4 (if never then 0x10 else 0) n ++ rest0 ->
  decode_literal false (d, c) = ((d1, c1), Ok h) -> dec_at max ds d1 -> same_limits d d1 ->
  src_bytes c1 = rest -> cur_ok c1 -> reads_as max d c h ds rest.
Proof.
  intros Hn Hsrc E1 Hd Hl S1 Hc1.
  destruct (loop_report d1 c1 h Hc1) as (c2 & S2 & Hc2 & P2 & E2). exists d1, c2.
  split_and!; [done..|congruence|done|]. intros F f fuel can acc.
  rewrite (loop_peek f fuel can d c (if never then LiteralNeverIndexed else LiteralWithoutIndexing)
    n rest0 acc Hn) by (by destruct never).
  destruct never; by rewrite (in_st_eq _ _ _ _ _ _ E1), E2.
Qed.

Lemma reads_indexed max ds d c h n rest :
  cur_ok c -> dec_at max ds d -> entry ds n h -> int_ok 7 n ->
  src_bytes c = int_bytes 7 0x80 n ++ rest -> reads_as max d c h ds rest.
Proof.
  intros Hc Hd Hg Hn Hsrc. destruct (read_int Indexed n d c rest Hc Hn Hsrc) as (c1 & E1 & S1 & Hc1).
  assert (decode_indexed (d, c) = ((d, c1), Ok h)) as Ei.
  { unfold decode_indexed. change (decode_int 7) with (decode_int (B:=Cursor B) (rep_first Indexed).1).
    rewrite (bind_eq _ _ _ _ _ E1), bind_gets. change ((d, c1).1) with d.
    by rewrite (entry_get ds n h max d Hg Hd). }
  destruct (loop_report d c1 h Hc1) as (c2 & S2 & Hc2 & P2 & E2). exists d, c2.
  split_and!; [done..|congruence|done|]. intros F f fuel can acc. unfold int_ok in Hn.
  rewrite (loop_peek f fuel can d c Indexed n rest acc) by (done || lia).
  by rewrite (in_st_eq _ _ _ _ _ _ Ei), E2.
Qed.

(** One round reads one field and leaves the table that the relation says. *)
Lemma read_field max ds out h ds' d c rest :
  field_repr max ds out h ds' -> dec_at max ds d -> cur_ok c -> src_bytes c = out ++ rest ->
  reads_as max d c h ds' rest.
Proof.
  intros Hf Hd Hc Hsrc.
  destruct Hf as [n h Hg Hn|n g v o h Hg Hn Hv Hh|nm v o1 o2 h Hnm Hv Hh|never n g v o h Hg Hn Hv Hh|
    never nm v o1 o2 h Hnm Hv Hh]; rewrite <- ?(assoc_L (++)) in Hsrc.
  - by eapply reads_indexed.
  - destruct (read_literal max ds true LiteralWithIndexing n g v o h d c rest)
      as (d1 & c1 & E1 & Hd1 & Hl1 & S1 & Hc1); [by left|done..|].
    unfold int_ok in Hn. eapply (reads_insert max ds d c h d1 c1 n); try done; lia.
  - destruct (read_literal_new max ds true LiteralWithIndexing nm v o1 o2 h d c rest)
      as (d1 & c1 & E1 & Hd1 & Hl1 & S1 & Hc1); [by left|done..|].
    by eapply (reads_insert max ds d c h d1 c1 0).
  - destruct (read_literal max ds false (if never then LiteralNeverIndexed else LiteralWithoutIndexing)
      n g v o h d c rest) as (d1 & c1 & E1 & Hd1 & Hl1 & S1 & Hc1); [destruct never; auto|done|done|done|
      by destruct never|done|done|by destruct never|].
    unfold int_ok in Hn. eapply (reads_literal max ds d c h d1 c1 never n); try done; lia.
  - destruct (read_literal_new max ds false (if never then LiteralNeverIndexed else LiteralWithoutIndexing)
      nm v o1 o2 h d c rest) as (d1 & c1 & E1 & Hd1 & Hl1 & S1 & Hc1); [destruct never; auto|done..|
      by destruct never|].
    by eapply (reads_literal max ds d c h d1 c1 never 0).
Qed.

Lemma field_repr_nonempty max ds out h ds' : field_repr max ds out h ds' -> (1 <= length out)%nat.
Proof.
  assert (forall p first n o, (1 <= length (int_bytes p first n ++ o))%nat) as H.
  { intros p first n o. unfold int_bytes. case_match; simpl; lia. }
  destruct 1; try apply H. specialize (H 7 0x80 n []). by rewrite app_nil_r in H.
Qed.

(** A whole block: every field is reported, in order, and the input is used
    up. *)
Lemma read_fields max ds outs hs ds' : fields_repr max ds outs hs ds' ->
  forall d c, dec_at max ds d -> cur_ok c -> src_bytes c = outs ->
  exists d' c', dec_at max ds' d' /\ same_limits d d' /\ cur_ok c' /\ src_bytes c' = [] /\
    (cur_pos c = 0%nat -> cur_pos c' = 0%nat) /\
    forall F (f : F -> Header HeaderName -> F) fuel can acc, (length outs < fuel)%nat ->
      decode_block_loop f fuel can ((d, c), acc) = (((d', c'), foldl f acc hs), Ok tt).
Proof.
  induction 1 as [ds|ds out h ds1 outs hs ds2 Hf Hfs IH]; intros d c Hd Hc Hsrc.
  - exists d, c. split_and!; [done..|]. intros F f fuel can acc Hfuel.
    destruct fuel as [|fuel]; [simpl in Hfuel; lia|]. cbn [decode_block_loop].
    rewrite (in_st_eq _ _ _ _ _ _ (on_cursor_eq peek_u8 d c c _ (peek_u8_spec c))). by rewrite Hsrc.
  - destruct (read_field max ds out h ds1 d c outs Hf Hd Hc Hsrc)
      as (d1 & c1 & Hd1 & [L1 L2] & Hc1 & S1 & P1 & E1).
    destruct (IH d1 c1 Hd1 Hc1 S1) as (d2 & c2 & Hd2 & [L3 L4] & Hc2 & S2 & P2 & E2).
    exists d2, c2. split_and!; [done|split; congruence|done|done|auto|]. intros F f fuel can acc Hfuel.
    rewrite length_app in Hfuel. pose proof (field_repr_nonempty _ _ _ _ _ Hf).
    destruct fuel as [|fuel]; [lia|]. rewrite E1, E2 by lia. done.
Qed.

(** ** A header block *)

(** Size updates, each within the limit [lim] that the decoder announced, and
    then the fields; [max] and [ds] are the table before, [max'] and [ds']
    after. *)
Inductive block_repr (lim : Z) : Z -> list (Header HeaderName) -> list Z ->
    list (Header HeaderName) -> Z -> list (Header HeaderName) -> Prop :=
  | br_fields max ds out hs ds' :
      fields_repr max ds out hs ds' -> block_repr lim max ds out hs max ds'
  | br_resize max ds n out hs max' ds' :
      int_ok 5 n -> n <= lim -> block_repr lim n (fit n ds) out hs max' ds' ->
      block_repr lim max ds (int_bytes 5 0x20 n ++ out) hs max' ds'.

Lemma read_size_update max ds n d c rest :
  dec_at max ds d -> cur_ok c -> int_ok 5 n -> n <= last_max_update d ->
  src_bytes c = int_bytes 5 0x20 n ++ rest ->
  exists d' c', dec_at n (fit n ds) d' /\ same_limits d d' /\ cur_ok c' /\ src_bytes c' = rest /\ cur_pos c' = 0%nat /\
    forall F (f : F -> Header HeaderName -> F) fuel acc,
      decode_block_loop f (S fuel) true ((d, c), acc) = decode_block_loop f fuel true ((d', c'), acc).
Proof.
  intros (Ht & Hm & Hi & Hb) Hc Hn Hle Hsrc. pose proof Hn as Hn0. unfold int_ok in Hn0.
  destruct (read_int SizeUpdate n d c rest Hc Hn Hsrc) as (c1 & E1 & S1 & Hc1).
  destruct (table_set_max_size_spec (E:=DecoderError) n (table d) Hi) as (t' & Et & T1 & T2 & T3); [lia|].
  assert (process_size_update (d, c) = ((set_table t' d, c1), Ok tt)) as Ep.
  { unfold process_size_update. change (decode_int 5) with (decode_int (B:=Cursor B) (rep_first SizeUpdate).1).
    rewrite (bind_eq _ _ _ _ _ E1), bind_gets. change ((d, c1).1) with d.
    rewrite (proj2 (Z.ltb_ge _ _)) by lia. rewrite bind_gets. change ((d, c1).1) with d. by rewrite Et. }
  destruct (consume_spec (E:=DecoderError) c1 Hc1) as (c2 & E2 & S2 & Hc2 & P2).
  exists (set_table t' d), c2. rewrite Ht in T1. split_and!; [by split_and!|done|done|congruence|done|].
  intros F f fuel acc. rewrite (loop_peek f fuel true d c SizeUpdate n rest acc) by (done || lia).
  cbn [negb]. rewrite (in_st_eq _ _ _ _ _ _ Ep).
  by rewrite (in_st_eq _ _ _ _ _ _ (on_cursor_eq _ _ _ _ _ E2)).
Qed.

Lemma read_block_loop lim max ds out hs max' ds' : block_repr lim max ds out hs max' ds' ->
  forall d c, dec_at max ds d -> cur_ok c -> src_bytes c = out -> last_max_update d = lim ->
  exists d' c', dec_at max' ds' d' /\ same_limits d d' /\ cur_ok c' /\ src_bytes c' = [] /\
    (cur_pos c = 0%nat -> cur_pos c' = 0%nat) /\
    forall F (f : F -> Header HeaderName -> F) fuel acc, (length out < fuel)%nat ->
      decode_block_loop f fuel true ((d, c), acc) = (((d', c'), foldl f acc hs), Ok tt).
Proof.
  induction 1 as [max ds out hs ds' Hfs|max ds n out hs max' ds' Hn Hle Hb IH]; intros d c Hd Hc Hsrc Hlim.
  - destruct (read_fields max ds out hs ds' Hfs d c Hd Hc Hsrc) as (d' & c' & ? & ? & ? & ? & ? & E1).
    exists d', c'. split_and!; auto.
  - destruct (read_size_update max ds n d c out Hd Hc Hn) as (d1 & c1 & Hd1 & [L1 L2] & Hc1 & S1 & P1 & E1);
      [lia|done|].
    destruct (IH d1 c1 Hd1 Hc1 S1) as (d2 & c2 & Hd2 & [L3 L4] & Hc2 & S2 & P2 & E2); [congruence|].
    exists d2, c2. split_and!; [done|split; congruence|done|done|auto|]. intros F f fuel acc Hfuel.
    rewrite length_app in Hfuel. unfold int_bytes in Hfuel.
    destruct fuel as [|fuel]; [lia|]. rewrite E1, E2; [done|]. case_match; simpl in Hfuel; lia.
Qed.

(** The limit of the next block. *)
Definition size_limit d : Z := match max_size_update d with Some n => n | None => last_max_update d end.

Lemma read_block max ds out hs max' ds' d c :
  block_repr (size_limit d) max ds out hs max' ds' ->
  dec_at max ds d -> cur_ok c -> src_bytes c = out ->
  exists d' c', dec_at max' ds' d' /\ size_limit d' = size_limit d /\ cur_ok c' /\ src_bytes c' = [] /\
    (cur_pos c = 0%nat -> cur_pos c' = 0%nat) /\
    forall F (f : F -> Header HeaderName -> F) acc,
      decode_block f ((d, c), acc) = (((d', c'), foldl f acc hs), Ok tt).
Proof.
  intros Hb Hd Hc Hsrc.
  set (d1 := match max_size_update d with
             | Some size => MkHDecoder None size (table d) (buffer d) | None => d end).
  assert (dec_at max ds d1 /\ last_max_update d1 = size_limit d /\ max_size_update d1 = None) as (H1 & H2 & H3).
  { unfold d1, size_limit. by destruct (max_size_update d) eqn:E. }
  destruct (read_block_loop _ _ _ _ _ _ _ Hb d1 c H1 Hc Hsrc H2) as (d2 & c2 & Hd2 & [L1 L2] & Hc2 & S2 & P2 & E2).
  exists d2, c2. split_and!; [done| |done|done|done|].
  { unfold size_limit at 1. by rewrite L1, H3, L2. }
  intros F f acc. unfold decode_block. rewrite (in_st_eq _ _ _ (d1, c) tt) by done.
  rewrite bind_gets. cbn [fst snd]. apply E2. unfold remaining. rewrite Hsrc. unfold len. lia.
Qed.

(** A string literal in plain octets: it is read by removing its bytes from the buffer. *)
Lemma read_plain_string d c n rest :
  cur_ok c -> int_ok 7 (len n) -> src_bytes c = int_bytes 7 0 (len n) ++ n ++ rest ->
  exists c', decode_string (d, c) = ((d, c'), Ok n) /\ src_bytes c' = rest /\ cur_ok c' /\ cur_pos c' = 0%nat.
Proof.
  intros Hc Hn Hsrc. unfold decode_string. pose proof (len_nonneg n). pose proof (len_nonneg rest).
  rewrite (bind_eq _ _ _ _ _ (on_cursor_eq peek_u8 d c c _ (peek_u8_spec c))), Hsrc.
  assert (exists x, head (int_bytes 7 0 (len n) ++ n ++ rest) = Some x /\ (Z.land x 0x80 =? 0x80) = false) as (x & -> & Hx).
  { unfold int_bytes. destruct (len n <? 2 ^ 7 - 1) eqn:E; reflect_bools; simpl; [|by eexists].
    eexists; split; [done|]. change 128 with (2 ^ 7).
    rewrite Z.lor_0_l, (land_top (len n) 7), (proj2 (Z.leb_gt _ _)) by (simpl; lia). done. }
  pose proof (decode_int_app 7 0 (len n) c (n ++ rest) ltac:(lia) ltac:(done) Hn Hsrc) as E.
  set (hd := int_bytes 7 0 (len n)) in *. set (c1 := advance c (length hd)) in *.
  assert (length hd <= length (src_bytes c))%nat as Hle by (rewrite Hsrc, length_app; lia).
  assert (src_bytes c1 = n ++ rest) as E1.
  { unfold c1. rewrite advance_bytes, Hsrc by done. apply drop_app_length. }
  cbv beta iota zeta. rewrite (bind_eq _ _ _ _ _ (on_cursor_eq _ d _ _ _ E)), bind_gets.
  change ((d, c1).2) with c1. unfold remaining. rewrite E1, len_app.
  rewrite (proj2 (Z.ltb_ge _ _)) by lia. rewrite Hx.
  destruct (take_bytes_spec (E:=DecoderError) c1 (len n)) as (c2 & E2 & E3 & E4 & E5).
  { by apply advance_ok. } { rewrite E1, len_app. lia. }
  exists c2. rewrite (on_cursor_eq _ d _ _ _ E2), E3, E1. unfold len. rewrite Nat2Z.id.
  by rewrite take_app_length, drop_app_length.
Qed.

(** A literal field whose plain name is there and whose value is not: more input is asked
    for, and the bytes of the name are no longer in the buffer. *)
Lemma plain_name_dropped d (src : B) n :
  int_ok 7 (len n) -> buf_bytes src = 0 :: int_bytes 7 0 (len n) ++ n ->
  exists d' c', buf_bytes (cur_buf c') = [] /\ table d' = table d /\
    forall F (f : F -> Header HeaderName -> F) acc,
      decode_block f ((d, MkCursor src 0), acc) = (((d', c'), acc), Err (NeedMore_ UnexpectedEndOfStream)).
Proof.
  intros Hn Hsrc.
  set (d1 := match max_size_update d with
             | Some size => MkHDecoder None size (table d) (buffer d) | None => d end).
  set (c := MkCursor src 0). assert (cur_ok c) as Hc by (unfold cur_ok; simpl; lia).
  assert (src_bytes c = int_bytes 4 0 0 ++ int_bytes 7 0 (len n) ++ n) as Hs by done.
  destruct (read_int LiteralWithoutIndexing 0 d1 c (int_bytes 7 0 (len n) ++ n) Hc) as (c1 & E1 & S1 & Hc1); [vm_compute; split; congruence|exact Hs|].
  destruct (read_plain_string d1 c1 n [] Hc1 Hn) as (c2 & E2 & S2 & Hc2 & P2); [by rewrite app_nil_r|].
  assert (decode_string (d1, c2) = ((d1, c2), Err (NeedMore_ UnexpectedEndOfStream))) as E3.
  { unfold decode_string. by rewrite (bind_eq _ _ _ _ _ (on_cursor_eq peek_u8 d1 c2 c2 _ (peek_u8_spec c2))), S2. }
  exists d1, c2. split; [|split].
  { destruct c2 as [b2 p2]; simpl in *. subst p2. by rewrite drop_0 in S2. }
  { unfold d1. by destruct (max_size_update d). }
  intros F f acc. unfold decode_block. rewrite (in_st_eq _ _ _ (d1, c) tt) by done.
  rewrite bind_gets. cbn [fst snd].
  rewrite (loop_peek f _ true d1 c LiteralWithoutIndexing 0 _ acc (Z.le_refl 0) Hs).
  assert (decode_literal false (d1, c) = ((d1, c2), Err (NeedMore_ UnexpectedEndOfStream))) as E4.
  { unfold decode_literal. change 4 with (rep_first LiteralWithoutIndexing).1.
    rewrite (bind_eq _ _ _ _ _ E1). change (0 =? 0) with true. cbv iota.
    rewrite (bind_eq _ _ _ _ _ E2). unfold mbind, SE_bind. by rewrite E3. }
  unfold mbind at 1, SE_bind at 1, in_st at 1, zoom at 1. cbn [fst snd]. by rewrite E4.
Qed.

End Wire.
