(* ===== verification/HpackTable.v ===== *)
(** * The encoder's dynamic table ([http/h2/hpack/table.rs])

    A FIFO of header slots indexed by a Robin Hood hash table: [indices] is an
    open-addressing array of positions, each the head (oldest slot) of a chain
    of slots with one name.  Slots are addressed by a counter that survives
    insertions: the slot at index [i] has the absolute index [i - inserted],
    as a wrapping [usize]. *)

From Stdlib Require Import String.
From S2P Require Import Prelude Bytes HttpTypes.

(** The hash of a header name: [FnvHasher] of the [fnv] crate over the derived
    [Hash] of [Name]; a function of the name with a [u64] value. *)
Class NameHasher `{HT : HttpTypes} := {
  fnv_hash : Name -> Z;
  fnv_hash_range n : is_u64 (fnv_hash n);
}.

Module ModelHash.
Import ModelHttp.
(** A hash of the name's bytes with values of 64 bits. *)
#[export] Program Instance model_hasher : NameHasher := {|
  fnv_hash n := fold_left (fun acc b => Z.lxor acc b * 0x100000001b3 mod 2 ^ 64) (Name.as_slice n) 0xcbf29ce484222325 mod 2 ^ 64;
|}.
Next Obligation. intros n. apply Z.mod_pos_bound. lia. Qed.
End ModelHash.

(** ** Loops *)

(** The [probe_loop!] macro: the body runs at the probe position and either
    goes on, with new locals, or leaves the loop with a result; past the end
    the probe goes back to 0.  Running out of rounds is a panic, so a proof
    that there is none shows that the loop ends. *)
Fixpoint probe_loop {T E L R} (size : T -> Z) (body : Z -> L -> SE T E (L + R))
    (fuel : nat) (probe : Z) (l : L) : SE T E R :=
  match fuel with
  | O => panic
  | S fuel =>
      n ← gets size;
      if probe <? n then
        r ← body probe l;
        match r with
        | inl l => probe_loop size body fuel (probe + 1) l
        | inr r => mret r
        end
      else probe_loop size body fuel 0 l
  end.

(** [v[i] = x] on a [Vec] or [VecDeque]. *)
Definition set_at {E A} (l : list A) (i : Z) (x : A) : outcome E (list A) :=
  if (0 <=? i) && (i <? len l) then Ok (<[Z.to_nat i:=x]> l) else Panic.

Definition wrapping_add (a b : Z) : Z := as_usize (a + b).
Definition wrapping_sub (a b : Z) : Z := as_usize (a - b).

Module HTable.

(** ** Hash positions *)

(** [http/h2/hpack/table.rs] Pos *)
Record Pos := MkPos { index : Z; hash : Z }.

#[export] Instance Pos_eq_dec : EqDecision Pos.
Proof. solve_decision. Defined.

(** [http/h2/hpack/table.rs] MAX_SIZE *)
Definition MAX_SIZE : Z := Z.shiftl 1 16.
(** [http/h2/hpack/table.rs] DYN_OFFSET *)
Definition DYN_OFFSET : Z := 62.

(** [http/h2/hpack/table.rs] usable_capacity *)
Definition usable_capacity (cap : Z) : Z := cap - cap / 4.

(** [http/h2/hpack/table.rs] to_raw_capacity *)
Definition to_raw_capacity (n : Z) : Z := n + n / 3.

(** [usize::next_power_of_two] *)
Definition next_power_of_two (n : Z) : Z := 2 ^ Z.log2_up n.

(** [http/h2/hpack/table.rs] desired_pos *)
Definition desired_pos (mask hash : Z) : Z := Z.land hash mask.

(** [http/h2/hpack/table.rs] probe_distance *)
Definition probe_distance (mask hash current : Z) : Z :=
  Z.land (wrapping_sub current (desired_pos mask hash)) mask.

Section Table.
Context `{NH : NameHasher}.

(** ** Data *)

(** [http/h2/hpack/table.rs] Slot *)
Record Slot := MkSlot {
  slot_hash : Z;
  header : Header HeaderName;
  next : option Z;
}.

(** [http/h2/hpack/table.rs] Table *)
Record Table := MkTable {
  mask : Z;
  indices : list (option Pos);
  slots : list Slot;
  inserted : Z;
  size : Z;
  max_size : Z;
}.

(** [http/h2/hpack/table.rs] Index *)
Inductive Index :=
  | Indexed (idx : Z) (h : Header HeaderName)
  | IName (idx : Z) (h : Header HeaderName)
  | Inserted (idx : Z)
  | InsertedValue (name_idx slot_idx : Z)
  | NotIndexed (h : Header HeaderName).

Definition set_indices (ix : list (option Pos)) (t : Table) : Table :=
  MkTable (mask t) ix (slots t) (inserted t) (size t) (max_size t).
Definition set_slots (s : list Slot) (t : Table) : Table :=
  MkTable (mask t) (indices t) s (inserted t) (size t) (max_size t).
Definition set_size (n : Z) (t : Table) : Table :=
  MkTable (mask t) (indices t) (slots t) (inserted t) n (max_size t).
Definition set_max_size (n : Z) (t : Table) : Table :=
  MkTable (mask t) (indices t) (slots t) (inserted t) (size t) n.

(** [http/h2/hpack/table.rs] Table::new *)
Definition new (max_size capacity : Z) : Table :=
  if capacity =? 0 then MkTable 0 [] [] 0 0 max_size
  else
    let capacity := Z.max (next_power_of_two (to_raw_capacity capacity)) 8 in
    MkTable (wrapping_sub capacity 1) (replicate (Z.to_nat capacity) None) [] 0 0 max_size.

(** [http/h2/hpack/table.rs] Table::capacity *)
Definition capacity (t : Table) : Z := usable_capacity (len (indices t)).

(** [http/h2/hpack/table.rs] Table::resolve *)
Definition resolve {E} (t : Table) (index : Index) : outcome E (Header HeaderName) :=
  match index with
  | Indexed _ h => Ok h
  | IName _ h => Ok h
  | Inserted idx => header <$> Bytes.index (slots t) idx
  | InsertedValue _ idx => header <$> Bytes.index (slots t) idx
  | NotIndexed h => Ok h
  end.

(** [http/h2/hpack/table.rs] Table::resolve_idx *)
Definition resolve_idx {E} (index : Index) : outcome E Z :=
  match index with
  | Indexed idx _ => Ok idx
  | IName idx _ => Ok idx
  | Inserted idx => Ok (idx + DYN_OFFSET)
  | InsertedValue _ slot_idx => Ok (slot_idx + DYN_OFFSET)
  | NotIndexed _ => Panic
  end.

(** [http/h2/hpack/table.rs] Index::new *)
Definition Index_new (v : option (Z * bool)) (e : Header HeaderName) : Index :=
  match v with
  | None => NotIndexed e
  | Some (n, true) => Indexed n e
  | Some (n, false) => IName n e
  end.

(** [http/h2/hpack/table.rs] hash_header *)
Definition hash_header (h : Header HeaderName) : Z :=
  let MASK := MAX_SIZE - 1 in
  Z.land (fnv_hash (Header.name h)) MASK.

(** The arms of [index_static] that only look at the field name. *)
Definition static_names : list (StdHeader * Z) :=
  [(ACCEPT_CHARSET, 15); (ACCEPT_LANGUAGE, 17); (ACCEPT_RANGES, 18); (ACCEPT, 19);
   (ACCESS_CONTROL_ALLOW_ORIGIN, 20); (AGE, 21); (ALLOW, 22); (AUTHORIZATION, 23);
   (CACHE_CONTROL, 24); (CONTENT_DISPOSITION, 25); (CONTENT_ENCODING, 26);
   (CONTENT_LANGUAGE, 27); (CONTENT_LENGTH, 28); (CONTENT_LOCATION, 29);
   (CONTENT_RANGE, 30); (CONTENT_TYPE, 31); (COOKIE, 32); (DATE, 33); (ETAG, 34);
   (EXPECT, 35); (EXPIRES, 36); (FROM, 37); (HOST, 38); (IF_MATCH, 39);
   (IF_MODIFIED_SINCE, 40); (IF_NONE_MATCH, 41); (IF_RANGE, 42);
   (IF_UNMODIFIED_SINCE, 43); (LAST_MODIFIED, 44); (LINK, 45); (LOCATION, 46);
   (MAX_FORWARDS, 47); (PROXY_AUTHENTICATE, 48); (PROXY_AUTHORIZATION, 49); (RANGE, 50);
   (REFERER, 51); (REFRESH, 52); (RETRY_AFTER, 53); (SERVER, 54); (SET_COOKIE, 55);
   (STRICT_TRANSPORT_SECURITY, 56); (TRANSFER_ENCODING, 57); (USER_AGENT, 58);
   (VARY, 59); (VIA, 60); (WWW_AUTHENTICATE, 61)].

(** [http/h2/hpack/table.rs] index_static *)
Definition index_static (h : Header HeaderName) : option (Z * bool) :=
  match h with
  | HField name value =>
      if bool_decide (name = std_name ACCEPT_ENCODING) then
        if bool_decide (value_as_ref value = bytes_of_string "gzip, deflate")
        then Some (16, true) else Some (16, false)
      else
        match List.find (fun e => bool_decide (name = std_name e.1)) static_names with
        | Some (_, n) => Some (n, false)
        | None => None
        end
  | HAuthority _ => Some (1, false)
  | HMethod v =>
      if bool_decide (v = GET) then Some (2, true)
      else if bool_decide (v = POST) then Some (3, true)
      else Some (2, false)
  | HScheme v =>
      if bool_decide (bytes_str v = bytes_of_string "http") then Some (6, true)
      else if bool_decide (bytes_str v = bytes_of_string "https") then Some (7, true)
      else Some (6, false)
  | HPath v =>
      if bool_decide (bytes_str v = bytes_of_string "/") then Some (4, true)
      else if bool_decide (bytes_str v = bytes_of_string "/index.html") then Some (5, true)
      else Some (4, false)
  | HStatus v =>
      match status_as_u16 v with
      | 200 => Some (8, true)
      | 204 => Some (9, true)
      | 206 => Some (10, true)
      | 304 => Some (11, true)
      | 400 => Some (12, true)
      | 404 => Some (13, true)
      | 500 => Some (14, true)
      | _ => Some (8, false)
      end
  end.

(** ** Operations *)

(** Every probe loop visits each position at most once and goes back to 0 at
    most once. *)
Definition probe_fuel (t : Table) : nat := length (indices t) + 2.
Definition raw_cap (t : Table) : Z := len (indices t).

(** [http/h2/hpack/table.rs] Table::insert *)
Definition insert {E} (h : Header HeaderName) (hash : Z) : SE Table E () :=
  modify (fun t =>
    MkTable (mask t) (indices t) (MkSlot hash h None :: slots t)
      (wrapping_add (inserted t) 1) (size t) (max_size t)).

(** [http/h2/hpack/table.rs] Table::remove_phase_two *)
Definition remove_phase_two {E} (probe : Z) : SE Table E () :=
  t ← get;
  probe_loop raw_cap (fun probe last_probe =>
    t ← get;
    e ← lift (Bytes.index (indices t) probe);
    match e with
    | Some pos =>
        if 0 <? probe_distance (mask t) (hash pos) probe then
          ix ← lift (set_at (indices t) probe None);
          ix ← lift (set_at ix last_probe (Some pos));
          _ ← modify (set_indices ix);
          mret (inl probe)
        else mret (inr tt)
    | None => mret (inr tt)
    end) (probe_fuel t) (probe + 1) probe.

(** [http/h2/hpack/table.rs] Table::evict *)
Definition evict {E} (prev_idx : option Z) : SE Table E () :=
  t ← get;
  let pos_idx := wrapping_sub (as_usize (len (slots t) - 1)) (inserted t) in
  popped ← lift (unwrap (pop_back (slots t)));
  let '(rest, slot) := popped in
  _ ← modify (set_slots rest);
  let probe := desired_pos (mask t) (slot_hash slot) in
  _ ← modify (fun t => set_size (size t - Header.hlen (header slot)) t);
  probe_loop raw_cap (fun probe _ =>
    t ← get;
    e ← lift (Bytes.index (indices t) probe);
    pos ← lift (unwrap e);
    if index pos =? pos_idx then
      _ ← (match next slot with
           | Some idx =>
               ix ← lift (set_at (indices t) probe (Some (MkPos idx (hash pos))));
               modify (set_indices ix)
           | None =>
               if bool_decide (Some (index pos) = prev_idx) then
                 let idx := wrapping_sub 0 (as_usize (inserted t + 1)) in
                 ix ← lift (set_at (indices t) probe (Some (MkPos idx (hash pos))));
                 modify (set_indices ix)
               else
                 ix ← lift (set_at (indices t) probe None);
                 _ ← modify (set_indices ix);
                 remove_phase_two probe
           end);
      mret (inr tt)
    else mret (inl tt)) (probe_fuel t) probe tt.

(** The [while] loop of [converge]; every round evicts a slot. *)
Fixpoint converge_loop {E} (fuel : nat) (prev_idx : option Z) (ret : bool) : SE Table E bool :=
  match fuel with
  | O => panic
  | S fuel =>
      t ← get;
      if max_size t <? size t then
        _ ← evict prev_idx;
        converge_loop fuel prev_idx true
      else mret ret
  end.

(** [http/h2/hpack/table.rs] Table::converge *)
Definition converge {E} (prev_idx : option Z) : SE Table E bool :=
  t ← get; converge_loop (S (length (slots t))) prev_idx false.

(** [http/h2/hpack/table.rs] Table::update_size *)
Definition update_size {E} (len : Z) (prev_idx : option Z) : SE Table E bool :=
  _ ← modify (fun t => set_size (size t + len) t);
  converge prev_idx.

(** [http/h2/hpack/table.rs] Table::resize *)
Definition resize {E} (new_size : Z) : SE Table E () :=
  _ ← modify (set_max_size new_size);
  if new_size =? 0 then
    modify (fun t =>
      MkTable (mask t) (replicate (length (indices t)) None) [] 0 0 (max_size t))
  else
    _ ← converge None;
    mret tt.

(** The [while dist != 0] loop of [index_vacant]: after evictions the place of
    the new header may have moved back. *)
Fixpoint step_back {E} (t : Table) (dist : nat) (probe : Z) : outcome E Z :=
  match dist with
  | O => Ok probe
  | S dist' =>
      let back := Z.land (wrapping_sub probe 1) (mask t) in
      e ← Bytes.index (indices t) back;
      match e with
      | Some pos =>
          let their_dist := probe_distance (mask t) (hash pos) back in
          if their_dist <? Z.of_nat dist - 1 then step_back t dist' back else Ok probe
      | None => step_back t dist' back
      end
  end.

(** The end of [index_vacant]: the new position takes the place at [probe], and
    the entries from there on move forward to the next free place. *)
Definition place {E} (probe : Z) (pos : Pos) : SE Table E () :=
  t ← get;
  prev ← lift (Bytes.index (indices t) probe);
  ix ← lift (set_at (indices t) probe (Some pos));
  _ ← modify (set_indices ix);
  match prev with
  | Some prev =>
      probe_loop raw_cap (fun probe prev =>
        t ← get;
        e ← lift (Bytes.index (indices t) probe);
        ix ← lift (set_at (indices t) probe (Some prev));
        _ ← modify (set_indices ix);
        mret (match e with Some p => inl p | None => inr tt end))
        (probe_fuel t) (probe + 1) prev
  | None => mret tt
  end.

(** [http/h2/hpack/table.rs] Table::index_vacant *)
Definition index_vacant {E} (h : Header HeaderName) (hash dist probe : Z)
    (statik : option (Z * bool)) : SE Table E Index :=
  if Header.is_sensitive h then mret (Index_new statik h)
  else
    evicted ← update_size (Header.hlen h) None;
    t ← get;
    probe ← lift (if evicted : bool then step_back t (Z.to_nat dist) probe else Ok probe);
    _ ← insert h hash;
    t ← get;
    let pos_idx := wrapping_sub 0 (inserted t) in
    _ ← place probe (MkPos pos_idx hash);
    mret (match statik with
          | Some (n, _) => InsertedValue n 0
          | None => Inserted 0
          end).

(** The insertion of [index_occupied]: the new slot is linked from the newest
    slot [idx] of its name, unless that was evicted to make room. *)
Definition append {E} (h : Header HeaderName) (hash idx : Z) : SE Table E () :=
  _ ← update_size (Header.hlen h) (Some idx);
  _ ← insert h hash;
  t ← get;
  let new_real_idx := wrapping_add idx (inserted t) in
  if new_real_idx <? len (slots t) then
    let link := wrapping_sub 0 (inserted t) in
    s ← lift (Bytes.index (slots t) new_real_idx);
    ss ← lift (set_at (slots t) new_real_idx (MkSlot (slot_hash s) (header s) (Some link)));
    modify (set_slots ss)
  else mret tt.

(** The [loop] of [index_occupied]; the chain goes from older to newer slots,
    so it is no longer than the table. *)
Fixpoint occupied_loop {E} (fuel : nat) (h : Header HeaderName) (hash idx : Z)
    (statik : option Z) : SE Table E Index :=
  match fuel with
  | O => panic
  | S fuel =>
      t ← get;
      let real_idx := wrapping_add idx (inserted t) in
      slot ← lift (Bytes.index (slots t) real_idx);
      if Header.value_eq (header slot) h then mret (Indexed (real_idx + DYN_OFFSET) h)
      else
        match next slot with
        | Some next => occupied_loop fuel h hash next statik
        | None =>
            if Header.is_sensitive h then mret (IName (real_idx + DYN_OFFSET) h)
            else
              _ ← append h hash idx;
              mret (match statik with
                    | Some n => InsertedValue n 0
                    | None => InsertedValue (real_idx + DYN_OFFSET) 0
                    end)
        end
  end.

(** [http/h2/hpack/table.rs] Table::index_occupied *)
Definition index_occupied {E} (h : Header HeaderName) (hash idx : Z)
    (statik : option Z) : SE Table E Index :=
  t ← get; occupied_loop (length (slots t)) h hash idx statik.

(** [http/h2/hpack/table.rs] Table::reinsert_entry_in_order *)
Definition reinsert_entry_in_order {E} (pos : option Pos) : SE Table E () :=
  match pos with
  | Some pos =>
      t ← get;
      let probe := desired_pos (mask t) (hash pos) in
      probe_loop raw_cap (fun probe _ =>
        t ← get;
        e ← lift (Bytes.index (indices t) probe);
        match e with
        | None =>
            ix ← lift (set_at (indices t) probe (Some pos));
            _ ← modify (set_indices ix);
            mret (inr tt)
        | Some _ => mret (inl tt)
        end) (probe_fuel t) probe tt
  | None => mret tt
  end.

(** The search of [grow] for the first ideally placed entry. *)
Fixpoint first_ideal (mask : Z) (i : nat) (l : list (option Pos)) : nat :=
  match l with
  | [] => 0
  | Some pos :: l =>
      if 0 =? probe_distance mask (hash pos) (Z.of_nat i) then i else first_ideal mask (S i) l
  | None :: l => first_ideal mask (S i) l
  end.

Fixpoint reinsert_all {E} (l : list (option Pos)) : SE Table E () :=
  match l with
  | [] => mret tt
  | pos :: l => _ ← reinsert_entry_in_order pos; reinsert_all l
  end.

(** [http/h2/hpack/table.rs] Table::grow *)
Definition grow {E} (new_raw_cap : Z) : SE Table E () :=
  t ← get;
  let first := first_ideal (mask t) 0 (indices t) in
  let old_indices := indices t in
  _ ← modify (fun t =>
        MkTable (wrapping_sub new_raw_cap 1) (replicate (Z.to_nat new_raw_cap) None)
          (slots t) (inserted t) (size t) (max_size t));
  _ ← reinsert_all (drop first old_indices);
  reinsert_all (take first old_indices).

(** [http/h2/hpack/table.rs] Table::reserve_one *)
Definition reserve_one {E} : SE Table E () :=
  t ← get;
  let n := len (slots t) in
  if n =? capacity t then
    if n =? 0 then
      modify (fun t => MkTable (8 - 1) (replicate 8 None) (slots t) (inserted t) (size t) (max_size t))
    else grow (as_usize (Z.shiftl (len (indices t)) 1))
  else mret tt.

(** [http/h2/hpack/table.rs] Table::index_dynamic *)
Definition index_dynamic {E} (h : Header HeaderName) (statik : option (Z * bool)) :
    SE Table E Index :=
  t ← get;
  _ ← (if (Header.hlen h + size t <? max_size t) || negb (Header.is_sensitive h)
       then reserve_one else mret tt);
  t ← get;
  if len (indices t) =? 0 then mret (Index_new statik h)
  else
    let hash_h := hash_header h in
    let desired_pos := desired_pos (mask t) hash_h in
    probe_loop raw_cap (fun probe dist =>
      t ← get;
      e ← lift (Bytes.index (indices t) probe);
      match e with
      | Some pos =>
          let their_dist := probe_distance (mask t) (hash pos) probe in
          let slot_idx := wrapping_add (index pos) (inserted t) in
          if their_dist <? dist then
            inr <$> index_vacant h hash_h dist probe statik
          else
            matching ← lift (
              if hash pos =? hash_h then
                slot ← Bytes.index (slots t) slot_idx;
                Ok (bool_decide (Header.name (header slot) = Header.name h))
              else Ok false);
            if matching : bool then
              inr <$> index_occupied h hash_h (index pos) (fst <$> statik)
            else mret (inl (dist + 1))
      | None => inr <$> index_vacant h hash_h dist probe statik
      end) (probe_fuel t) desired_pos 0.

(** [http/h2/hpack/table.rs] Table::index *)
Definition index_ {E} (h : Header HeaderName) : SE Table E Index :=
  let statik := index_static h in
  if Header.skip_value_index h then mret (Index_new statik h)
  else
    match statik with
    | Some (n, true) => mret (Indexed n h)
    | _ =>
        t ← get;
        if as_usize (max_size t * 3) <? as_usize (Header.hlen h * 4)
        then mret (Index_new statik h)
        else index_dynamic h statik
    end.

End Table.
End HTable.
