(* ===== verification/RobinHood.v ===== *)
(** * Robin Hood arrays

    The open-addressing array of the encoder table as a periodic function of
    the probe position, the displacement invariant of Robin Hood hashing, and
    its preservation by insertion with forward shift and by removal with
    backward shift.  [probe_loop_spec] is the rule for [probe_loop!]. *)

From S2P Require Import Prelude Bytes HpackTable.
Import HTable.

(** ** The probe loop *)

(** The loop visits [p0], [p0 + 1], ... modulo [n]; an invariant that holds for
    fewer than [n] visits makes it end. *)
Lemma probe_loop_spec {T E L R} (size : T -> Z) (body : Z -> L -> SE T E (L + R))
    (n p0 : Z) (I : Z -> L -> T -> Prop) (Q : R -> T -> Prop) :
  0 < n -> 0 <= p0 <= n ->
  (forall k l t, I k l t -> 0 <= k < n /\ size t = n /\
     returns (body ((p0 + k) mod n) l) t (fun r t' =>
       match r with inl l' => I (k + 1) l' t' | inr r => Q r t' end)) ->
  forall fuel l t, I 0 l t -> (Z.to_nat n + 2 <= fuel)%nat ->
  returns (probe_loop size body fuel p0 l) t Q.
Proof.
  intros Hn Hp0 Hbody.
  cut (forall fuel p k l t, I k l t ->
    (p = p0 + k /\ 0 <= p <= n /\ n - k + 1 <= Z.of_nat fuel) \/
    (p = p0 + k - n /\ 0 <= p < n /\ n - k <= Z.of_nat fuel) ->
    returns (probe_loop size body fuel p l) t Q).
  { intros H fuel l t HI Hf. apply (H fuel p0 0); [done|]. left. lia. }
  induction fuel as [|fuel IH]; intros p k l t HI Hp;
    destruct (Hbody k l t HI) as (Hk & Hsz & Hb); [lia|].
  cbn [probe_loop]. do 2 ret_step. rewrite Hsz.
  destruct (Z.ltb_spec p n) as [Hlt|Hge].
  - assert ((p0 + k) mod n = p) as Em.
    { destruct Hp as [[-> ?]|[-> ?]]; [apply Z.mod_small; lia|].
      symmetry. apply (Z.mod_unique_pos _ _ 1); lia. }
    rewrite Em in Hb. ret_step. eapply returns_mono; [|exact Hb].
    intros [l'|r] t' HI'; [|done].
    apply (IH _ (k + 1)); [done|]. apply Hbody in HI' as [? _]. lia.
  - apply (IH _ k); [done|]. right. lia.
Qed.

(** ** Periodic view *)

Definition cyc (l : list (option Pos)) (z : Z) : option Pos :=
  match l !! Z.to_nat (z mod len l) with Some x => x | None => None end.

Definition dist (n : Z) (pos : Pos) (z : Z) : Z := (z - hash pos) mod n.

(** The positions stored in the array, in array order. *)
Definition contents (l : list (option Pos)) : list Pos := omap id l.

Section Cyclic.
Context (n : Z) (Hn : 0 < n).
Implicit Types (f g : Z -> option Pos) (pos : Pos).

Definition periodic f : Prop := forall z, f (z mod n) = f z.

Lemma periodic_eq f z z' : periodic f -> z mod n = z' mod n -> f z = f z'.
Proof using. intros P E. rewrite <- (P z), <- (P z'). by rewrite E. Qed.

Lemma dist_range pos z : 0 <= dist n pos z < n.
Proof. by apply Z.mod_pos_bound. Qed.

Lemma mod_shift a d : 0 <= a mod n + d < n -> (a + d) mod n = a mod n + d.
Proof.
  intros H. rewrite <- Zplus_mod_idemp_l. by apply Z.mod_small.
Qed.

Lemma mod_offset p z d : (z + d) mod n = (p + ((z - p) mod n + d)) mod n.
Proof using.
  replace (p + ((z - p) mod n + d)) with (p + d + (z - p) mod n) by lia.
  rewrite Zplus_mod_idemp_r. f_equal. lia.
Qed.

Lemma dist_sub pos z j : 0 <= j <= dist n pos z -> dist n pos (z - j) = dist n pos z - j.
Proof.
  intros Hj. unfold dist in *. pose proof (dist_range pos z). unfold dist in *.
  replace (z - j - hash pos) with (z - hash pos + - j) by lia.
  rewrite mod_shift; lia.
Qed.

Lemma dist_add pos z j :
  0 <= j -> dist n pos z + j < n -> dist n pos (z + j) = dist n pos z + j.
Proof.
  intros Hj H. unfold dist in *. pose proof (dist_range pos z). unfold dist in *.
  replace (z + j - hash pos) with (z - hash pos + j) by lia.
  rewrite mod_shift; lia.
Qed.

Lemma dist_mod pos z : dist n pos (z mod n) = dist n pos z.
Proof. unfold dist. by rewrite Zminus_mod_idemp_l. Qed.

(** The Robin Hood invariant: an entry away from its home follows an entry
    that is at most one step closer to its own. *)
Definition RH f : Prop := forall z pos, f z = Some pos -> 0 < dist n pos z ->
  exists pos', f (z - 1) = Some pos' /\ dist n pos z - 1 <= dist n pos' (z - 1).

(** Between the home of an entry and its place every position is taken by an
    entry that is displaced at least as much as this one would be there. *)
Lemma RH_run f z pos j :
  RH f -> f z = Some pos -> 0 <= j <= dist n pos z ->
  exists pos', f (z - j) = Some pos' /\ dist n pos z - j <= dist n pos' (z - j).
Proof.
  intros HR Hz Hj. destruct Hj as [Hj0 Hj]. revert Hj. pattern j.
  apply natlike_ind; [|clear j Hj0|done].
  { intros _. exists pos. by rewrite !Z.sub_0_r. }
  intros j Hj0 IH Hj. destruct IH as (pj & Ej & Dj); [lia|].
  destruct (HR _ _ Ej) as (p' & E' & D'); [lia|].
  exists p'. replace (z - Z.succ j) with (z - j - 1) by lia. split; [done|lia].
Qed.

(** With a free position no entry is displaced past it. *)
Lemma RH_free f z q pos :
  periodic f -> RH f -> f q = None -> f z = Some pos -> dist n pos z < (z - q) mod n.
Proof.
  intros P HR Hq Hz. pose proof (Z.mod_pos_bound (z - q) n Hn).
  destruct (Z.lt_ge_cases (dist n pos z) ((z - q) mod n)) as [|Hle]; [done|].
  destruct (RH_run f z pos ((z - q) mod n) HR Hz) as (p' & E & _); [lia|].
  rewrite (periodic_eq f _ q P) in E; [congruence|].
  rewrite Zminus_mod_idemp_r. f_equal. lia.
Qed.

(** From a home position, the entries up to the place of [pos] are displaced at
    least as much as the probe. *)
Lemma RH_probe f z pos k :
  periodic f -> RH f -> f z = Some pos -> 0 <= k <= dist n pos z ->
  exists pos', f (hash pos + k) = Some pos' /\ k <= dist n pos' (hash pos + k).
Proof.
  intros P HR Hz Hk.
  destruct (RH_run f z pos (dist n pos z - k) HR Hz) as (p' & E & D); [lia|].
  assert ((z - (dist n pos z - k)) mod n = (hash pos + k) mod n) as Em.
  { unfold dist. replace (z - ((z - hash pos) mod n - k)) with (z + k - (z - hash pos) mod n) by lia.
    rewrite Zminus_mod_idemp_r. f_equal. lia. }
  exists p'. rewrite <- (periodic_eq f _ _ P Em). split; [done|].
  rewrite <- dist_mod, <- Em, dist_mod. lia.
Qed.

(** *** Removal *)

(** [f] without the entry at [p], the [m] entries after it moved back. *)
Definition shift_back p m f z : option Pos :=
  let off := (z - p) mod n in
  if off <? m then f (z + 1) else if off =? m then None else f z.

Lemma RH_shift_back f p m e :
  periodic f -> RH f -> 0 <= m < n - 1 -> f p = Some e ->
  (forall j, 1 <= j <= m -> exists pj, f (p + j) = Some pj /\ 0 < dist n pj (p + j)) ->
  (forall pos, f (p + m + 1) = Some pos -> dist n pos (p + m + 1) = 0) ->
  RH (shift_back p m f).
Proof.
  intros P HR Hm Hp Hrun Hstop z pos Hz Hd. unfold shift_back in Hz.
  assert ((z - 1 - p) mod n = if (z - p) mod n =? 0 then n - 1 else (z - p) mod n - 1) as Eo.
  { pose proof (Z.mod_pos_bound (z - p) n Hn).
    destruct (Z.eqb_spec ((z - p) mod n) 0) as [E0|].
    - replace (z - 1 - p) with (z - p + n - 1 + (-1) * n) by lia.
      rewrite Z.mod_add by lia. replace (z - p + n - 1) with (z - p + (n - 1)) by lia.
      rewrite mod_shift; lia.
    - replace (z - 1 - p) with (z - p + -1) by lia. rewrite mod_shift; lia. }
  unfold shift_back. rewrite Eo. clear Eo.
  assert (forall off, (z - p) mod n = off -> f z = f (p + off)) as Ez.
  { intros off <-. apply periodic_eq; [done|]. rewrite Zplus_mod_idemp_r. f_equal. lia. }
  pose proof (Z.mod_pos_bound (z - p) n Hn) as Hoff.
  destruct (Z.ltb_spec ((z - p) mod n) m) as [Hlt|Hge].
  - assert (dist n pos (z + 1) = dist n pos z + 1) as D1.
    { (* an entry of the run has a positive displacement *)
      destruct (Hrun ((z - p) mod n + 1)) as (pj & Ej & Dj); [lia|].
      pose proof (mod_offset p z 1) as Em.
      rewrite (periodic_eq f _ _ P Em) in Hz. simplify_eq.
      rewrite <- dist_mod, <- Em, dist_mod in Dj.
      pose proof (dist_sub pos (z + 1) 1) as Hs. replace (z + 1 - 1) with z in Hs by lia. lia. }
    destruct (HR (z + 1) pos Hz) as (p' & E' & D'); [lia|].
    replace (z + 1 - 1) with z in * by lia.
    destruct (Z.eqb_spec ((z - p) mod n) 0) as [E0|N0].
    + rewrite (proj2 (Z.ltb_ge _ _)), (proj2 (Z.eqb_neq _ _)) by lia.
      destruct (HR z p' E') as (p'' & E'' & D''); [lia|]. exists p''. split; [done|lia].
    + rewrite (proj2 (Z.ltb_lt _ _)) by lia. replace (z - 1 + 1) with z by lia.
      exists p'. split; [done|].
      pose proof (dist_sub p' z 1). lia.
  - destruct (Z.eqb_spec ((z - p) mod n) m) as [|Hne]; [done|].
    rewrite (proj2 (Z.eqb_neq _ 0)) by lia.
    destruct (Z.eqb_spec ((z - p) mod n) (m + 1)) as [E1|N1].
    { exfalso. assert (f (p + m + 1) = Some pos) as Hs
        by (rewrite <- Z.add_assoc, <- (Ez (m + 1) E1); done).
      apply Hstop in Hs. rewrite <- (dist_mod _ z) in Hd.
      replace (z mod n) with ((p + m + 1) mod n) in Hd; [rewrite dist_mod in Hd; lia|].
      replace (p + m + 1) with (p + (m + 1)) by lia.
      rewrite <- E1, Zplus_mod_idemp_r. f_equal. lia. }
    rewrite (proj2 (Z.ltb_ge _ _)), (proj2 (Z.eqb_neq _ _)) by lia.
    by apply HR.
Qed.

(** No position holds an entry that is displaced more than the one before. *)
Definition dominated f g : Prop := forall z pos, f z = Some pos ->
  exists pos', g z = Some pos' /\ dist n pos z <= dist n pos' z.

Lemma shift_back_dominated f p m :
  periodic f -> RH f ->
  (forall j, 1 <= j <= m -> exists pj, f (p + j) = Some pj /\ 0 < dist n pj (p + j)) ->
  dominated (shift_back p m f) f.
Proof.
  intros P HR Hrun z pos Hz. unfold shift_back in Hz.
  pose proof (Z.mod_pos_bound (z - p) n Hn).
  destruct (Z.ltb_spec ((z - p) mod n) m) as [Hlt|Hge].
  - destruct (Hrun ((z - p) mod n + 1)) as (pj & Ej & Dj); [lia|].
    pose proof (mod_offset p z 1) as Em. rewrite <- (periodic_eq f _ _ P Em) in Ej.
    assert (pj = pos) as -> by congruence. rewrite <- dist_mod, <- Em, dist_mod in Dj.
    destruct (HR (z + 1) pos Ej Dj) as (p' & E' & D').
    pose proof (dist_sub pos (z + 1) 1) as Hs. replace (z + 1 - 1) with z in * by lia.
    exists p'. split; [done|lia].
  - destruct (Z.eqb_spec ((z - p) mod n) m); [done|]. eauto with lia.
Qed.

(** Unless every entry is displaced, in which case there is none. *)
Lemma RH_ideal f q :
  periodic f -> RH f -> f q = None ->
  (forall z pos, f z = Some pos -> dist n pos z <> 0) -> forall z, f z = None.
Proof.
  intros P HR Hq Hd z. destruct (f z) as [pos|] eqn:Ez; [|done]. exfalso.
  assert (forall j, 0 <= j -> exists pos, f (z - j) = Some pos) as Hall.
  { apply natlike_ind; [rewrite Z.sub_0_r; eauto|].
    intros j Hj (pj & Ej). pose proof (dist_range pj (z - j)). specialize (Hd _ _ Ej).
    destruct (HR _ _ Ej) as (p' & E' & _); [lia|].
    exists p'. by replace (z - Z.succ j) with (z - j - 1) by lia. }
  pose proof (Z.mod_pos_bound (z - q) n Hn) as Hm.
  destruct (Hall ((z - q) mod n)) as (p' & E'); [lia|].
  rewrite (periodic_eq f _ q P) in E'; [congruence|].
  rewrite Zminus_mod_idemp_r. f_equal. lia.
Qed.

(** *** Insertion *)

(** [f] with [e] at [p], the [m] entries from [p] on moved forward. *)
Definition shift_forward p m (e : Pos) f z : option Pos :=
  let off := (z - p) mod n in
  if off =? 0 then Some e else if off <=? m then f (z - 1) else f z.

Lemma RH_shift_forward f p m e :
  periodic f -> RH f -> 0 <= m < n ->
  (0 < dist n e p -> exists pos', f (p - 1) = Some pos' /\ dist n e p - 1 <= dist n pos' (p - 1)) ->
  (forall pos, f p = Some pos -> dist n pos p < dist n e p) ->
  (forall j, 0 <= j < m -> exists pj, f (p + j) = Some pj) ->
  f (p + m) = None ->
  RH (shift_forward p m e f).
Proof.
  intros P HR Hm Hprev Hat Hrun Hfree z pos Hz Hd. unfold shift_forward in Hz.
  pose proof (Z.mod_pos_bound (z - p) n Hn) as Hoff.
  pose proof (mod_offset p z) as Em.
  assert ((z - p) mod n <> 0 -> (z - 1 - p) mod n = (z - p) mod n - 1) as Eo.
  { intros. replace (z - 1 - p) with (z - p + -1) by lia. rewrite mod_shift; lia. }
  unfold shift_forward.
  destruct (Z.eqb_spec ((z - p) mod n) 0) as [E0|N0].
  - simplify_eq. pose proof (Em 0) as Ez. rewrite E0, !Z.add_0_r in Ez.
    rewrite <- (dist_mod _ z), Ez, dist_mod in *.
    destruct (Hprev Hd) as (p' & E' & D').
    pose proof (Em (-1)) as Ez1. rewrite E0 in Ez1.
    change (z + -1) with (z - 1) in Ez1. change (p + (0 + -1)) with (p - 1) in Ez1.
    assert (m < n - 1 \/ m = n - 1) as [Hm'|Hm'] by lia.
    2: { exfalso. rewrite (periodic_eq f _ (p - 1) P) in Hfree; [congruence|].
         replace (p + m) with (p - 1 + 1 * n) by lia. by rewrite Z.mod_add by lia. }
    assert ((z - 1 - p) mod n = n - 1) as E1.
    { replace (z - 1 - p) with (z - p + (n - 1) + (-1) * n) by lia.
      rewrite Z.mod_add by lia. rewrite mod_shift; lia. }
    rewrite E1, (proj2 (Z.eqb_neq _ _)), (proj2 (Z.leb_gt _ _)) by lia.
    exists p'. rewrite (periodic_eq f _ _ P Ez1). split; [done|].
    rewrite <- (dist_mod _ (z - 1)), Ez1, dist_mod. done.
  - rewrite Eo by done.
    assert ((z - 1) mod n = (p + ((z - p) mod n - 1)) mod n) as Ez1 by apply (Em (-1)).
    destruct (Z.leb_spec ((z - p) mod n) m) as [Hle|Hgt].
    + assert (dist n pos (z - 1) < (z - 1 - (p + m)) mod n) as Hfr
        by (apply (RH_free f); done).
      pose proof (Z.mod_pos_bound (z - 1 - (p + m)) n Hn).
      pose proof (dist_add pos (z - 1) 1) as Ha. replace (z - 1 + 1) with z in Ha by lia.
      rewrite Ha in * by lia. clear Ha.
      destruct (Z.eqb_spec ((z - p) mod n - 1) 0) as [E1|N1].
      * exists e. split; [done|]. replace ((z - p) mod n) with 1 in * by lia.
        rewrite Z.add_0_r in Ez1. rewrite (periodic_eq f _ _ P Ez1) in Hz.
        apply Hat in Hz. rewrite <- (dist_mod _ (z - 1)), Ez1, dist_mod.
        rewrite <- (dist_mod e (z - 1)), Ez1, dist_mod. lia.
      * rewrite (proj2 (Z.leb_le _ _)) by lia.
        destruct (Z.eq_dec (dist n pos (z - 1)) 0) as [D0|D0].
        { destruct (Hrun ((z - p) mod n - 2)) as (pj & Ej); [lia|].
          exists pj. rewrite <- Ej. split; [|pose proof (dist_range pj (z - 1)); lia].
          apply periodic_eq; [done|]. replace (z - 1 - 1) with (z + -2) by lia.
          rewrite Em. f_equal. }
        destruct (HR (z - 1) pos Hz) as (p' & E' & D'); [pose proof (dist_range pos (z - 1)); lia|].
        exists p'. split; [done|].
        assert (dist n p' (z - 1 - 1) < (z - 1 - 1 - (p + m)) mod n) as Hfr'
          by (apply (RH_free f); done).
        pose proof (Z.mod_pos_bound (z - 1 - 1 - (p + m)) n Hn).
        pose proof (dist_add p' (z - 1 - 1) 1) as Ha. replace (z - 1 - 1 + 1) with (z - 1) in Ha by lia.
        rewrite Ha; lia.
    + destruct (Z.leb_spec ((z - p) mod n - 1) m) as [Hle1|Hgt1].
      * exfalso. destruct (HR z pos Hz Hd) as (p' & E' & _).
        rewrite (periodic_eq f _ _ P Ez1) in E'. replace ((z - p) mod n - 1) with m in E' by lia.
        congruence.
      * rewrite (proj2 (Z.eqb_neq _ _)) by lia. by apply HR.
Qed.

End Cyclic.

Lemma mod_offset_eq n p z j :
  0 <= j < n -> z mod n = (p + j) mod n <-> (z - p) mod n = j.
Proof.
  intros Hj. split; intros E.
  - rewrite <- Zminus_mod_idemp_l, E, Zminus_mod_idemp_l.
    replace (p + j - p) with j by lia. by apply Z.mod_small.
  - rewrite <- E, Zplus_mod_idemp_r. f_equal. lia.
Qed.

Lemma RH_ext n f g : (forall z, g z = f z) -> RH n f -> RH n g.
Proof.
  intros E HR z pos Hz Hd. rewrite E in *. by apply HR.
Qed.

(** ** Arrays *)

Section Arrays.
Implicit Types (l : list (option Pos)) (pos : Pos).

Lemma cyc_periodic l : periodic (len l) (cyc l).
Proof. intros z. unfold cyc. by rewrite Zmod_mod. Qed.

Lemma cyc_lookup l p : 0 <= p < len l -> l !! Z.to_nat p = Some (cyc l p).
Proof.
  intros Hp. unfold cyc. rewrite Z.mod_small by done.
  destruct (l !! Z.to_nat p) eqn:E; [done|].
  apply lookup_ge_None in E. unfold len in Hp. lia.
Qed.

Lemma cyc_lookup_nat l i : (i < length l)%nat -> l !! i = Some (cyc l (Z.of_nat i)).
Proof. intros Hi. rewrite <- cyc_lookup by (unfold len; lia). by rewrite Nat2Z.id. Qed.

Lemma index_cyc {E} l p : 0 <= p < len l -> Bytes.index l p = (Ok (cyc l p) : outcome E _).
Proof.
  intros Hp. unfold Bytes.index. rewrite (proj2 (Z.ltb_ge _ _)), cyc_lookup by lia. done.
Qed.

Lemma set_at_ok {E A} (l : list A) p x :
  0 <= p < len l -> set_at l p x = (Ok (<[Z.to_nat p:=x]> l) : outcome E _).
Proof.
  intros Hp. unfold set_at. by rewrite (proj2 (Z.leb_le _ _)), (proj2 (Z.ltb_lt _ _)) by lia.
Qed.

Lemma len_insert {A} (l : list A) i x : len (<[i:=x]> l) = len l.
Proof. unfold len. by rewrite length_insert. Qed.

Lemma cyc_insert l p x z :
  0 <= p < len l ->
  cyc (<[Z.to_nat p:=x]> l) z = if z mod len l =? p then x else cyc l z.
Proof.
  intros Hp. unfold cyc. rewrite len_insert. pose proof (Z.mod_pos_bound z (len l)).
  destruct (Z.eqb_spec (z mod len l) p) as [E|N].
  - subst p. rewrite list_lookup_insert_eq; [done|]. unfold len in *. lia.
  - rewrite list_lookup_insert_ne; [done|]. lia.
Qed.

Lemma cyc_insert_shift n l p pos z :
  len l = n -> 0 <= p < n ->
  cyc (<[Z.to_nat p:=Some pos]> l) z = shift_forward n p 0 pos (cyc l) z.
Proof.
  intros Hl Hp. rewrite cyc_insert, Hl by lia. unfold shift_forward.
  pose proof (Z.mod_pos_bound (z - p) n).
  destruct (Z.eqb_spec (z mod n) p) as [E1|N1], (Z.eqb_spec ((z - p) mod n) 0) as [E2|N2];
    try done.
  - exfalso. apply N2, mod_offset_eq; [lia|]. rewrite E1, Z.add_0_r, Z.mod_small; lia.
  - exfalso. apply N1. apply mod_offset_eq in E2; [|lia]. rewrite E2, Z.add_0_r. apply Z.mod_small. lia.
  - by rewrite (proj2 (Z.leb_gt _ _)) by lia.
Qed.

Lemma contents_app l1 l2 : contents (l1 ++ l2) = contents l1 ++ contents l2.
Proof. apply omap_app. Qed.

Lemma contents_split l i x : l !! i = Some x ->
  contents l = contents (take i l) ++ option_list x ++ contents (drop (S i) l).
Proof.
  intros H. rewrite <- (take_drop_middle l i x H) at 1. rewrite contents_app.
  f_equal. by destruct x.
Qed.

Lemma contents_insert l i x y : l !! i = Some x ->
  option_list x ++ contents (<[i:=y]> l) ≡ₚ option_list y ++ contents l.
Proof.
  intros H. rewrite (contents_split l i x H).
  rewrite (contents_split (<[i:=y]> l) i y)
    by (apply list_lookup_insert_eq; by apply lookup_lt_Some in H).
  rewrite take_insert_ge, drop_insert_lt by lia. solve_Permutation.
Qed.

Lemma elem_of_contents l pos :
  pos ∈ contents l <-> exists p, 0 <= p < len l /\ cyc l p = Some pos.
Proof.
  unfold contents. rewrite list_elem_of_omap. split.
  - intros (x & (i & Hi)%list_elem_of_lookup & Hx). exists (Z.of_nat i).
    pose proof (lookup_lt_Some _ _ _ Hi). unfold len, id in *. split; [lia|].
    pose proof (cyc_lookup l (Z.of_nat i)) as C. rewrite Nat2Z.id, Hi in C.
    unfold len in C. naive_solver lia.
  - intros (p & Hp & E). exists (Some pos). split; [|done].
    apply list_elem_of_lookup. exists (Z.to_nat p). by rewrite cyc_lookup, E.
Qed.

Lemma contents_free l :
  (length (contents l) < length l)%nat -> exists q, 0 <= q < len l /\ cyc l q = None.
Proof.
  intros H. assert (None ∈ l) as (i & Hi)%list_elem_of_lookup.
  { unfold contents in H. induction l as [|[x|] l IH]; simpl in H; [lia| |left].
    right. apply IH. by apply Nat.succ_lt_mono. }
  exists (Z.of_nat i). pose proof (lookup_lt_Some _ _ _ Hi). unfold len in *. split; [lia|].
  pose proof (cyc_lookup l (Z.of_nat i)) as C. rewrite Nat2Z.id, Hi in C.
  unfold len in C. naive_solver lia.
Qed.

Lemma cyc_none l p : (forall p', 0 <= p' < len l -> cyc l p' = None) -> cyc l p = None.
Proof.
  intros H. destruct (Z.eq_dec (len l) 0) as [E|N].
  - destruct l; [done|]. rewrite len_cons in E. pose proof (len_nonneg l). lia.
  - rewrite <- (cyc_periodic l p). apply H. apply Z.mod_pos_bound.
    pose proof (len_nonneg l). lia.
Qed.

Lemma cyc_replicate m z : cyc (replicate m None) z = None.
Proof.
  unfold cyc. destruct (replicate m None !! _) eqn:E; [|done].
  by apply lookup_replicate in E as [-> _].
Qed.

Lemma contents_replicate m : contents (replicate m None) = [].
Proof. by induction m. Qed.

End Arrays.

(** ** Hash arithmetic *)

Section Mask.
Context (k : Z) (Hk : 0 <= k <= 64).

Lemma land_mask z : Z.land z (2 ^ k - 1) = z mod 2 ^ k.
Proof. rewrite <- Z.land_ones by lia. by rewrite Z.ones_equiv, Z.sub_1_r. Qed.

Lemma usize_mod z : as_usize z mod 2 ^ k = z mod 2 ^ k.
Proof.
  unfold as_usize, wrapu. apply Z.mod_mod_divide. exists (2 ^ (64 - k)).
  rewrite <- Z.pow_add_r by lia. f_equal. lia.
Qed.

Lemma desired_pos_mod h : desired_pos (2 ^ k - 1) h = h mod 2 ^ k.
Proof. apply land_mask. Qed.

Lemma probe_distance_mod h p : probe_distance (2 ^ k - 1) h p = (p - h) mod 2 ^ k.
Proof.
  unfold probe_distance, wrapping_sub. rewrite land_mask, usize_mod, desired_pos_mod.
  apply Zminus_mod_idemp_r.
Qed.

Lemma back_mod p : Z.land (wrapping_sub p 1) (2 ^ k - 1) = (p - 1) mod 2 ^ k.
Proof. unfold wrapping_sub. by rewrite land_mask, usize_mod. Qed.
End Mask.
