(* ===== verification/HpackTableArray.v ===== *)
(** * The array operations of the encoder table

    [remove_phase_two], [place] (the insertion of [index_vacant]) and [grow]
    end without panic on every array that satisfies the Robin Hood invariant,
    keep the invariant, and change the stored positions as they should. *)

From S2P Require Import Prelude Bytes HttpTypes HpackTable RobinHood.
Import HTable.

Section Array.
Context `{NH : NameHasher} {E : Type}.
Context (k : Z) (Hk : 3 <= k <= 62).
Let n : Z := 2 ^ k.

Local Lemma n_pos : 0 < n.
Proof. apply Z.pow_pos_nonneg; lia. Qed.
Local Hint Resolve n_pos : core.

(** An array of the table's current capacity that satisfies the invariant. *)
Definition arr (l : list (option Pos)) : Prop := len l = n /\ RH n (cyc l).

Lemma arr_periodic l : len l = n -> periodic n (cyc l).
Proof. intros <-. apply cyc_periodic. Qed.

Lemma shift_back_at f p m z j :
  0 <= j < n -> z mod n = (p + j) mod n ->
  shift_back n p m f z = if j <? m then f (z + 1) else if j =? m then None else f z.
Proof. intros Hj Hz. unfold shift_back. apply mod_offset_eq in Hz; [|done]. by rewrite Hz. Qed.

Lemma shift_back_step f ix p m pos :
  periodic n f -> len ix = n -> (forall z, cyc ix z = shift_back n p m f z) ->
  0 <= m -> m + 1 < n -> f (p + m + 1) = Some pos ->
  let w := (p + 1 + m) mod n in
  let ix' := <[Z.to_nat ((p + m) mod n):=Some pos]> (<[Z.to_nat w:=None]> ix) in
  cyc ix w = Some pos /\ len ix' = n /\ contents ix' ≡ₚ contents ix /\
  forall z, cyc ix' z = shift_back n p (m + 1) f z.
Proof.
  intros P Hl Hix Hm Hm1 Hf w ix'.
  pose proof (Z.mod_pos_bound (p + 1 + m) n n_pos) as Hw.
  pose proof (Z.mod_pos_bound (p + m) n n_pos) as Hlast.
  assert (w mod n = (p + (m + 1)) mod n) as Ew by (subst w; rewrite Zmod_mod; f_equal; lia).
  assert (cyc ix w = Some pos) as Ecw.
  { rewrite Hix, (shift_back_at f p m w (m + 1)) by (done || lia).
    rewrite (proj2 (Z.ltb_ge _ _)), (proj2 (Z.eqb_neq _ _)) by lia.
    rewrite <- Hf. apply (periodic_eq n); [done|]. rewrite Ew. f_equal. lia. }
  assert (w <> (p + m) mod n) as Hne.
  { intros Ec. assert (w mod n = (p + m) mod n) as Ec' by (rewrite Ec, Zmod_mod; done).
    apply (mod_offset_eq n p w m) in Ec'; [|lia].
    apply (mod_offset_eq n p w (m + 1)) in Ew; lia. }
  assert (cyc ix ((p + m) mod n) = None) as Ecl.
  { rewrite Hix, (shift_back_at f p m _ m) by (rewrite ?Zmod_mod; done || lia).
    by rewrite Z.ltb_irrefl, Z.eqb_refl. }
  split_and!; [done|subst ix'; by rewrite !len_insert| |].
  - apply (Permutation_app_inv_l [pos]). etrans.
    { apply Permutation_app_head, (contents_insert _ _ None (Some pos)).
      rewrite cyc_lookup by (rewrite len_insert; subst w; lia).
      rewrite cyc_insert, Hl, Zmod_mod, (proj2 (Z.eqb_neq _ _)) by (rewrite ?Hl; subst w; done || lia).
      by rewrite Ecl. }
    simpl. apply perm_skip, (contents_insert _ _ (Some pos) None).
    rewrite cyc_lookup by (subst w; lia). by rewrite Ecw.
  - intros z. subst ix'. rewrite cyc_insert, len_insert, Hl by (rewrite len_insert; lia).
    rewrite cyc_insert, Hl by (subst w; lia). rewrite Hix.
    pose proof (Z.mod_pos_bound (z - p) n n_pos) as Hoff.
    assert (z mod n = (p + (z - p) mod n) mod n) as Ez by (by apply mod_offset_eq).
    rewrite !(shift_back_at f p _ z ((z - p) mod n)) by done.
    destruct (Z.eqb_spec (z mod n) ((p + m) mod n)) as [E1|N1].
    { apply mod_offset_eq in E1; [|lia]. rewrite E1, (proj2 (Z.ltb_lt _ _)) by lia.
      rewrite <- Hf. apply (periodic_eq n); [done|].
      rewrite (mod_offset n p z 1), E1. f_equal. lia. }
    rewrite (mod_offset_eq n p z m) in N1 by lia.
    destruct (Z.eqb_spec (z mod n) w) as [E2|N2].
    { assert ((z - p) mod n = m + 1) as ->
        by (apply mod_offset_eq; [lia|]; rewrite E2; subst w; f_equal; lia).
      by rewrite (proj2 (Z.ltb_ge _ _)), Z.eqb_refl by lia. }
    assert ((z - p) mod n <> m + 1) as N3.
    { intros E3. apply N2. apply mod_offset_eq in E3; [|lia]. rewrite E3. subst w. f_equal. lia. }
    destruct (Z.ltb_spec ((z - p) mod n) m), (Z.ltb_spec ((z - p) mod n) (m + 1)),
      (Z.eqb_spec ((z - p) mod n) m), (Z.eqb_spec ((z - p) mod n) (m + 1)); done || lia.
Qed.

(** Filling the gap that a removal left at [p]: after [m] rounds the [m] entries
    behind it have moved back, and the gap is still before the free position
    [q]. *)
Section RemovePhaseTwo.
Context (t : Table) (l0 : list (option Pos)) (p q : Z) (e : Pos).
Context (Hm : mask t = n - 1) (Hl : len l0 = n) (HR : RH n (cyc l0)).
Context (Hp : 0 <= p < n) (He : cyc l0 p = Some e) (Hq : cyc l0 q = None).

Record removing (m last : Z) (ix : list (option Pos)) : Prop := {
  rm_len : len ix = n;
  rm_cyc z : cyc ix z = shift_back n p m (cyc l0) z;
  rm_last : last = (p + m) mod n;
  rm_run j : 1 <= j <= m -> exists pj, cyc l0 (p + j) = Some pj /\ 0 < dist n pj (p + j);
  rm_contents : contents ix ≡ₚ contents (<[Z.to_nat p:=None]> l0);
  rm_bound : 0 <= m < (q - p) mod n;
}.

Lemma removing_start : removing 0 p (<[Z.to_nat p:=None]> l0).
Proof.
  split; [by rewrite len_insert| | |lia|done|].
  - intros z. rewrite cyc_insert, Hl by lia. unfold shift_back.
    rewrite (proj2 (Z.ltb_ge _ _)) by (pose proof (Z.mod_pos_bound (z - p) n n_pos); lia).
    destruct (Z.eqb_spec (z mod n) p) as [E1|N1], (Z.eqb_spec ((z - p) mod n) 0) as [E2|N2];
      try done; exfalso.
    + apply N2, mod_offset_eq; [lia|]. rewrite E1, Z.add_0_r, Z.mod_small; lia.
    + apply N1. apply mod_offset_eq in E2; [|lia]. rewrite E2, Z.add_0_r. apply Z.mod_small. lia.
  - rewrite Z.add_0_r, Z.mod_small; lia.
  - pose proof (Z.mod_pos_bound (q - p) n n_pos).
    destruct (Z.eq_dec ((q - p) mod n) 0) as [E0|]; [|lia].
    apply (mod_offset_eq n p q 0) in E0; [|lia].
    rewrite (periodic_eq n _ _ _ (arr_periodic l0 Hl) E0), Z.add_0_r in Hq. congruence.
Qed.

(** What the next round sees. *)
Lemma removing_sees m last ix :
  removing m last ix -> cyc ix ((p + 1 + m) mod n) = cyc l0 (p + m + 1).
Proof.
  intros [_ Hcyc _ _ _ Hb]. pose proof (Z.mod_pos_bound (q - p) n n_pos).
  rewrite Hcyc, (shift_back_at _ p m _ (m + 1))
    by (lia || (rewrite Zmod_mod; f_equal; lia)).
  rewrite (proj2 (Z.ltb_ge _ _)), (proj2 (Z.eqb_neq _ _)) by lia.
  apply (periodic_eq n); [by apply arr_periodic|]. rewrite Zmod_mod. f_equal. lia.
Qed.

Lemma removing_stop m last ix :
  removing m last ix ->
  (forall pos, cyc l0 (p + m + 1) = Some pos -> dist n pos (p + m + 1) <= 0) ->
  arr ix /\ dominated n (cyc ix) (cyc l0).
Proof.
  intros [Hlen Hcyc _ Hrun _ Hb] Hs. pose proof (Z.mod_pos_bound (q - p) n n_pos).
  split; [split; [done|]|].
  2: { intros z pos. rewrite Hcyc. by apply (shift_back_dominated n n_pos); [apply arr_periodic|..]. }
  apply (RH_ext _ (shift_back n p m (cyc l0))); [done|].
  apply (RH_shift_back n n_pos _ p m e); [by apply arr_periodic|done|lia|done|done|].
  intros pos Epos. pose proof (dist_range n n_pos pos (p + m + 1)). specialize (Hs pos Epos). lia.
Qed.

Lemma removing_go m last ix pos :
  removing m last ix ->
  cyc l0 (p + m + 1) = Some pos -> 0 < dist n pos (p + m + 1) ->
  removing (m + 1) ((p + 1 + m) mod n)
    (<[Z.to_nat last:=Some pos]> (<[Z.to_nat ((p + 1 + m) mod n):=None]> ix)).
Proof.
  intros [Hlen Hcyc -> Hrun Hcont Hb] Epos Hd.
  pose proof (Z.mod_pos_bound (q - p) n n_pos). pose proof (arr_periodic l0 Hl) as P.
  assert (m + 1 <> (q - p) mod n) as Hmne.
  { intros Em. symmetry in Em. apply mod_offset_eq in Em; [|lia].
    rewrite (periodic_eq n _ _ _ P Em), Z.add_assoc in Hq. congruence. }
  destruct (shift_back_step (cyc l0) ix p m pos) as (_ & Hlen' & Hcont' & Hcyc');
    [done..|lia|lia|done|].
  split; [exact Hlen'|exact Hcyc'|f_equal; lia| |by rewrite Hcont'|lia].
  intros j Hj. destruct (Z.eq_dec j (m + 1)) as [->|]; [|apply Hrun; lia].
  exists pos. by rewrite Z.add_assoc.
Qed.

Lemma remove_phase_two_spec :
  indices t = <[Z.to_nat p:=None]> l0 ->
  returns (E:=E) (remove_phase_two p) t (fun _ t' => exists ix, t' = set_indices ix t /\
    (arr ix /\ dominated n (cyc ix) (cyc l0)) /\
    contents ix ≡ₚ contents (<[Z.to_nat p:=None]> l0)).
Proof.
  intros Hix. unfold remove_phase_two. do 2 ret_step.
  apply (probe_loop_spec raw_cap _ n (p + 1) (fun m last t' => exists ix,
    t' = set_indices ix t /\ removing m last ix)); [done|lia| | |].
  - intros m last t' (ix & -> & HI). pose proof (rm_len _ _ _ HI) as Hlen.
    pose proof (rm_bound _ _ _ HI). pose proof (rm_last _ _ _ HI) as Hlast.
    pose proof (Z.mod_pos_bound (q - p) n n_pos). pose proof (Z.mod_pos_bound (p + m) n n_pos).
    pose proof (Z.mod_pos_bound (p + 1 + m) n n_pos).
    split; [lia|]. split; [done|]. do 2 ret_step.
    ret_step; [apply index_cyc; simpl; lia|]. simpl. rewrite (removing_sees _ _ _ HI), Hm.
    destruct (cyc l0 (p + m + 1)) as [pos|] eqn:Epos.
    + rewrite (probe_distance_mod k) by lia. change ((?z - hash pos) mod 2 ^ k) with (dist n pos z).
      rewrite dist_mod by done. replace (p + 1 + m) with (p + m + 1) at 1 by lia.
      destruct (Z.ltb_spec 0 (dist n pos (p + m + 1))) as [Hd|Hd].
      * ret_step; [apply set_at_ok; lia|]. ret_step; [apply set_at_ok; rewrite len_insert; lia|].
        do 3 ret_step. eexists. split; [|by eapply removing_go]. done.
      * ret_step. exists ix. split; [done|]. split; [|apply (rm_contents _ _ _ HI)].
        eapply removing_stop; [done|]. intros; by simplify_eq.
    + ret_step. exists ix. split; [done|]. split; [|apply (rm_contents _ _ _ HI)].
      eapply removing_stop; [done|]. intros; congruence.
  - eexists. split; [|apply removing_start]. destruct t; simpl in *. by subst.
  - unfold probe_fuel. rewrite Hix, length_insert. unfold len in Hl. lia.
Qed.
End RemovePhaseTwo.

(** Making room at [p]: after [m] rounds the entries from [p] on have moved
    forward by one and the entry in hand is the one that was at [p + m]. *)
Section Place.
Context (t : Table) (p q : Z) (np : Pos).
Let l0 := indices t.
Context (Hl : len l0 = n) (HR : RH n (cyc l0)).
Context (Hp : 0 <= p < n) (Hq : cyc l0 q = None).
Context (Hprev : 0 < dist n np p ->
  exists pos', cyc l0 (p - 1) = Some pos' /\ dist n np p - 1 <= dist n pos' (p - 1)).
Context (Hat : forall pos, cyc l0 p = Some pos -> dist n pos p < dist n np p).

Lemma shift_forward_at f m z j :
  0 <= j < n -> z mod n = (p + j) mod n ->
  shift_forward n p m np f z =
    if j =? 0 then Some np else if j <=? m then f (z - 1) else f z.
Proof. intros Hj Hz. unfold shift_forward. apply mod_offset_eq in Hz; [|done]. by rewrite Hz. Qed.

Record placing (m : Z) (prev : Pos) (ix : list (option Pos)) : Prop := {
  pl_len : len ix = n;
  pl_cyc z : cyc ix z = shift_forward n p m np (cyc l0) z;
  pl_prev : cyc l0 (p + m) = Some prev;
  pl_run j : 0 <= j <= m -> exists pj, cyc l0 (p + j) = Some pj;
  pl_contents : prev :: contents ix ≡ₚ np :: contents l0;
  pl_bound : 0 <= m < (q - p) mod n;
}.

Lemma placing_start e :
  cyc l0 p = Some e -> placing 0 e (<[Z.to_nat p:=Some np]> l0).
Proof.
  intros He. split.
  - by rewrite len_insert.
  - intros z. by apply cyc_insert_shift.
  - by rewrite Z.add_0_r.
  - intros j Hj. exists e. by replace (p + j) with p by lia.
  - apply (contents_insert _ _ (Some e) (Some np)). rewrite cyc_lookup by lia. by rewrite He.
  - pose proof (Z.mod_pos_bound (q - p) n n_pos).
    destruct (Z.eq_dec ((q - p) mod n) 0) as [E0|]; [|lia].
    apply (mod_offset_eq n p q 0) in E0; [|lia].
    rewrite (periodic_eq n _ _ _ (arr_periodic l0 Hl) E0), Z.add_0_r in Hq. congruence.
Qed.

Lemma placing_sees m prev ix :
  placing m prev ix -> cyc ix ((p + 1 + m) mod n) = cyc l0 (p + (m + 1)).
Proof.
  intros [_ Hcyc _ _ _ Hb]. pose proof (Z.mod_pos_bound (q - p) n n_pos).
  rewrite Hcyc, (shift_forward_at _ m _ (m + 1))
    by (lia || (rewrite Zmod_mod; f_equal; lia)).
  rewrite (proj2 (Z.leb_gt _ _)), (proj2 (Z.eqb_neq _ _)) by lia.
  apply (periodic_eq n); [by apply arr_periodic|]. rewrite Zmod_mod. f_equal. lia.
Qed.

(** One round: the entry in hand goes to the next position. *)
Lemma placing_put m prev ix z :
  placing m prev ix ->
  cyc (<[Z.to_nat ((p + 1 + m) mod n):=Some prev]> ix) z =
    shift_forward n p (m + 1) np (cyc l0) z.
Proof.
  intros [Hlen Hcyc Hprv _ _ Hb]. pose proof (Z.mod_pos_bound (q - p) n n_pos).
  pose proof (Z.mod_pos_bound (p + 1 + m) n n_pos). pose proof (Z.mod_pos_bound (z - p) n n_pos).
  rewrite cyc_insert, Hlen, Hcyc by lia.
  assert (z mod n = (p + (z - p) mod n) mod n) as Ez by (by apply mod_offset_eq).
  rewrite !(shift_forward_at _ _ z ((z - p) mod n)) by done.
  replace (p + 1 + m) with (p + (m + 1)) by lia.
  destruct (Z.eqb_spec (z mod n) ((p + (m + 1)) mod n)) as [E1|N1].
  - pose proof (mod_offset n p z (-1)) as Em. apply mod_offset_eq in E1; [|lia].
    rewrite E1, (proj2 (Z.eqb_neq _ _)), (proj2 (Z.leb_le _ _)), <- Hprv by lia.
    apply (periodic_eq n); [by apply arr_periodic|].
    change (z - 1) with (z + -1). rewrite Em, E1. f_equal. lia.
  - rewrite mod_offset_eq in N1 by lia.
    destruct (Z.leb_spec ((z - p) mod n) m), (Z.leb_spec ((z - p) mod n) (m + 1)); done || lia.
Qed.

Lemma placing_done m prev ix :
  placing m prev ix -> cyc l0 (p + (m + 1)) = None ->
  arr (<[Z.to_nat ((p + 1 + m) mod n):=Some prev]> ix).
Proof.
  intros HI Hf. pose proof HI as [Hlen _ _ Hrun _ Hb].
  split; [by rewrite len_insert|]. pose proof (Z.mod_pos_bound (q - p) n n_pos).
  apply (RH_ext _ (shift_forward n p (m + 1) np (cyc l0))); [intros z; by apply placing_put|].
  apply RH_shift_forward; [done|by apply arr_periodic|done|lia|done|done| |done].
  intros j Hj. apply Hrun. lia.
Qed.

Lemma place_spec :
  returns (E:=E) (place p np) t (fun _ t' => exists ix, t' = set_indices ix t /\
    arr ix /\ contents ix ≡ₚ np :: contents l0).
Proof.
  unfold place. fold l0. do 2 ret_step. fold l0.
  ret_step; [apply index_cyc; lia|]. ret_step; [apply set_at_ok; lia|]. do 2 ret_step.
  destruct (cyc l0 p) as [e0|] eqn:E0 in |- *.
  - apply (probe_loop_spec raw_cap _ n (p + 1) (fun m prev t' => exists ix,
      t' = set_indices ix t /\ placing m prev ix)); [done|lia| | |].
    + intros m prev t' (ix & -> & HI). pose proof HI as [Hlen _ _ Hrun Hcont Hb].
      pose proof (Z.mod_pos_bound (q - p) n n_pos).
      pose proof (Z.mod_pos_bound (p + 1 + m) n n_pos).
      split; [lia|]. split; [done|]. do 2 ret_step.
      ret_step; [apply index_cyc; simpl; lia|]. ret_step; [apply set_at_ok; simpl; lia|].
      do 3 ret_step. simpl. pose proof (placing_sees _ _ _ HI) as Es. rewrite Es.
      destruct (cyc l0 (p + (m + 1))) as [pos|] eqn:Epos.
      * eexists. split; [done|]. split; [by rewrite len_insert|intros; by apply placing_put|done| | |].
        -- intros j Hj. destruct (Z.eq_dec j (m + 1)) as [->|]; [eauto|apply Hrun; lia].
        -- rewrite <- Hcont. apply (contents_insert _ _ (Some pos) (Some prev)).
           rewrite cyc_lookup by lia. by rewrite Es.
        -- split; [lia|]. enough (m + 1 <> (q - p) mod n) by lia.
           intros Em. symmetry in Em. apply mod_offset_eq in Em; [|lia].
           rewrite (periodic_eq n _ _ _ (arr_periodic l0 Hl) Em) in Hq. congruence.
      * eexists. split_and!; [done|by apply placing_done|]. rewrite <- Hcont.
        apply (contents_insert _ _ None (Some prev)). rewrite cyc_lookup by lia. by rewrite Es.
    + eexists. split; [done|]. by apply placing_start.
    + unfold probe_fuel. fold l0. unfold len in Hl. lia.
  - ret_step. eexists. split_and!; [done| |].
    + split; [by rewrite len_insert|]. eapply RH_ext; [intros z; by apply cyc_insert_shift|].
      apply RH_shift_forward; [done|by apply arr_periodic|done|pose proof n_pos; lia|done|naive_solver|lia|].
      by rewrite Z.add_0_r.
    + apply (contents_insert _ _ None (Some np)). rewrite cyc_lookup by lia. by rewrite E0.
Qed.
End Place.
End Array.

(** ** Growing *)

Lemma first_ideal_spec mask l : forall i,
  let f := first_ideal mask i l in
  (exists j pos, f = (i + j)%nat /\ l !! j = Some (Some pos) /\
     probe_distance mask (hash pos) (Z.of_nat f) = 0) \/
  (f = 0%nat /\ forall j pos, l !! j = Some (Some pos) ->
     probe_distance mask (hash pos) (Z.of_nat (i + j)) <> 0).
Proof.
  induction l as [|[pos|] l IH]; intros i; cbn [first_ideal].
  - right. split; [done|]. intros j pos. by rewrite lookup_nil.
  - destruct (Z.eqb_spec 0 (probe_distance mask (hash pos) (Z.of_nat i))) as [E0|N0].
    { left. exists 0%nat, pos. rewrite Nat.add_0_r. split_and!; [lia|done|lia]. }
    destruct (IH (S i)) as [(j & pos' & Ef & Hj & Hd)|[Ef Hd]].
    + left. exists (S j), pos'. split; [lia|done].
    + right. split; [done|]. intros [|j] pos' Hj; simpl in Hj.
      * simplify_eq. rewrite Nat.add_0_r. lia.
      * rewrite <- Nat.add_succ_comm. by apply Hd.
  - destruct (IH (S i)) as [(j & pos' & Ef & Hj & Hd)|[Ef Hd]].
    + left. exists (S j), pos'. split; [lia|done].
    + right. split; [done|]. intros [|j] pos' Hj; simpl in Hj; [done|].
      rewrite <- Nat.add_succ_comm. by apply Hd.
Qed.

Section Grow.
Context `{NH : NameHasher} {E : Type}.
Context (k : Z) (Hk : 3 <= k <= 61).
Let n : Z := 2 ^ k.
Let n2 : Z := 2 ^ (k + 1).
Context (l0 : list (option Pos)) (Hl : len l0 = n) (HR : RH n (cyc l0)).
(** The visit starts at an entry in its home position, if there is an entry. *)
Context (f0 : Z) (Hf0 : 0 <= f0 < n).
Context (Hideal : (exists e, cyc l0 f0 = Some e /\ dist n e f0 = 0) \/ forall z, cyc l0 z = None).

Local Lemma n2_eq : n2 = 2 * n.
Proof. unfold n2, n. rewrite Z.add_1_r, Z.pow_succ_r; lia. Qed.
Local Lemma gn_pos : 0 < n.
Proof. apply Z.pow_pos_nonneg; lia. Qed.
Local Lemma n2_pos : 0 < n2.
Proof. rewrite n2_eq. pose proof gn_pos. lia. Qed.

(** No entry is displaced across the start of the visit. *)
Lemma no_crossing o pos :
  0 <= o < n -> cyc l0 (f0 + o) = Some pos -> dist n pos (f0 + o) <= o.
Proof.
  intros Ho Hpos. destruct Hideal as [(e & He & De)|Hn]; [|by rewrite Hn in Hpos].
  destruct (Z.le_gt_cases (dist n pos (f0 + o)) o) as [|Hgt]; [done|].
  destruct (RH_run n _ _ _ o HR Hpos) as (p' & E' & D'); [lia|].
  replace (f0 + o - o) with f0 in * by lia. simplify_eq. lia.
Qed.

(** Homes are visited in order. *)
Lemma homes_monotone o' o pos' pos :
  0 <= o' < o -> o < n -> cyc l0 (f0 + o') = Some pos' -> cyc l0 (f0 + o) = Some pos ->
  o' - dist n pos' (f0 + o') <= o - dist n pos (f0 + o).
Proof.
  intros Ho Hon H' H. pose proof (dist_range n gn_pos pos' (f0 + o')).
  destruct (Z.lt_ge_cases o' (o - dist n pos (f0 + o))); [lia|].
  destruct (RH_run n _ _ _ (o - o') HR H) as (p & Ep & Dp); [lia|].
  replace (f0 + o - (o - o')) with (f0 + o') in * by lia. simplify_eq. lia.
Qed.

(** The offset of the new home of an entry: its old offset, in one of the two
    halves. *)
Lemma new_home o pos :
  0 <= o < n -> cyc l0 (f0 + o) = Some pos ->
  exists b, 0 <= b <= 1 /\ (hash pos - f0) mod n2 = o - dist n pos (f0 + o) + b * n.
Proof.
  intros Ho Hpos. pose proof (no_crossing o pos Ho Hpos) as Hd.
  pose proof (dist_range n gn_pos pos (f0 + o)) as Hr. pose proof n2_eq as E2.
  pose proof (Z.mod_pos_bound (hash pos - f0) n2 n2_pos) as Hm.
  exists ((hash pos - f0) mod n2 / n). split.
  { split; [apply Z.div_pos; lia|]. apply Z.lt_succ_r, Z.div_lt_upper_bound; lia. }
  assert ((hash pos - f0) mod n2 mod n = o - dist n pos (f0 + o)) as Em.
  { rewrite Z.mod_mod_divide by (exists 2; lia).
    replace (hash pos - f0) with (o - (f0 + o - hash pos)) by lia.
    rewrite <- Zminus_mod_idemp_r. change ((f0 + o - hash pos) mod n) with (dist n pos (f0 + o)).
    apply Z.mod_small. lia. }
  rewrite <- Em. pose proof (Z.div_mod ((hash pos - f0) mod n2) n). lia.
Qed.

(** After [o] entries: each is between its new home and its old displacement. *)
Record regrown (o : Z) (ix : list (option Pos)) : Prop := {
  rg_len : len ix = n2;
  rg_rh : RH n2 (cyc ix);
  rg_at z pos : cyc ix z = Some pos -> exists o', 0 <= o' < o /\ cyc l0 (f0 + o') = Some pos /\
    (hash pos - f0) mod n2 <= (z - f0) mod n2 <= (hash pos - f0) mod n2 + dist n pos (f0 + o');
}.

Lemma regrown_start : regrown 0 (replicate (Z.to_nat n2) None).
Proof.
  split.
  - unfold len. rewrite length_replicate. pose proof n2_pos. lia.
  - intros z pos. by rewrite cyc_replicate.
  - intros z pos. by rewrite cyc_replicate.
Qed.

Section Entry.
Context (o : Z) (Ho : 0 <= o < n) (pos : Pos) (Hpos : cyc l0 (f0 + o) = Some pos).
Context (ix : list (option Pos)) (Hix : regrown o ix).
Let d := dist n pos (f0 + o).

(** The offset of a probe within the old displacement. *)
Lemma probe_offset j :
  0 <= j <= d -> (hash pos + j - f0) mod n2 = (hash pos - f0) mod n2 + j.
Proof.
  intros Hj. destruct (new_home o pos Ho Hpos) as (b & Hb & Eb). pose proof n2_eq.
  assert (b * n <= n) by nia.
  pose proof (Z.mod_pos_bound (hash pos - f0) n2 n2_pos). fold d in Eb.
  replace (hash pos + j - f0) with (hash pos - f0 + j) by lia.
  apply mod_shift. lia.
Qed.

(** The place at the old displacement is still free. *)
Lemma old_place_free : cyc ix (hash pos + d) = None.
Proof.
  destruct (cyc ix (hash pos + d)) as [p'|] eqn:E'; [|done]. exfalso.
  destruct (rg_at _ _ Hix _ _ E') as (o' & Ho' & H' & Hlo & Hhi).
  pose proof (dist_range n gn_pos pos (f0 + o)) as Hd. fold d in Hd.
  rewrite probe_offset in Hlo, Hhi by lia.
  destruct (new_home o pos Ho Hpos) as (b & Hb & Eb). fold d in Eb.
  destruct (new_home o' p') as (b' & Hb' & Eb'); [lia|done|].
  pose proof (no_crossing o' p' ltac:(lia) H').
  assert (b' = 0 \/ b' = 1) as [->| ->] by lia; assert (b = 0 \/ b = 1) as [->| ->] by lia; lia.
Qed.

(** What stands before the first free place is displaced enough. *)
Lemma regrown_prev j p' :
  1 <= j <= d -> cyc ix (hash pos + j - 1) = Some p' -> j - 1 <= dist n2 p' (hash pos + j - 1).
Proof.
  intros Hj E'. destruct (rg_at _ _ Hix _ _ E') as (o' & Ho' & H' & Hlo & Hhi).
  replace (hash pos + j - 1) with (hash pos + (j - 1)) in * by lia.
  rewrite probe_offset in Hlo, Hhi by lia.
  destruct (new_home o pos Ho Hpos) as (b & Hb & Eb). fold d in Eb.
  destruct (new_home o' p') as (b' & Hb' & Eb'); [lia|done|].
  pose proof (no_crossing o' p' ltac:(lia) H').
  pose proof (homes_monotone o' o p' pos ltac:(lia) ltac:(lia) H' Hpos) as Hmono. fold d in Hmono.
  pose proof (Z.mod_pos_bound (hash p' - f0) n2 n2_pos).
  assert ((hash p' - f0) mod n2 <= (hash pos - f0) mod n2) as Hh.
  { assert (b' = 0 \/ b' = 1) as [->| ->] by lia; assert (b = 0 \/ b = 1) as [->| ->] by lia; lia. }
  assert (dist n2 p' (hash pos + (j - 1)) =
    (hash pos - f0) mod n2 + (j - 1) - (hash p' - f0) mod n2) as ->; [|lia].
  unfold dist. replace (hash pos + (j - 1) - hash p')
    with (hash pos + (j - 1) - f0 - (hash p' - f0)) by lia.
  rewrite Zminus_mod, probe_offset by lia. apply Z.mod_small.
  destruct (new_home o pos Ho Hpos) as (b2 & Hb2 & Eb2). pose proof n2_eq.
  pose proof (Z.mod_pos_bound (hash pos - f0) n2 n2_pos). fold d in Eb2.
  assert (b2 * n <= n) by nia. lia.
Qed.

(** The entry is put at the first free place after its new home. *)
Lemma regrown_put j :
  0 <= j <= d -> (forall i, 0 <= i < j -> cyc ix (hash pos + i) <> None) ->
  cyc ix (hash pos + j) = None ->
  let ix' := <[Z.to_nat ((hash pos + j) mod n2):=Some pos]> ix in
  regrown (o + 1) ix' /\ contents ix' ≡ₚ pos :: contents ix.
Proof.
  intros Hj Hrun Hfree ix'. pose proof n2_pos as Hn2.
  pose proof (Z.mod_pos_bound (hash pos + j) n2 Hn2) as Hw. destruct Hix as [Hlen Hrh Hat].
  assert (periodic n2 (cyc ix)) as P by (rewrite <- Hlen; apply cyc_periodic).
  assert (cyc ix ((hash pos + j) mod n2) = None) as Hfree' by (by rewrite P).
  pose proof (dist_range n gn_pos pos (f0 + o)) as Hd. fold d in Hd. pose proof n2_eq.
  assert (dist n2 pos ((hash pos + j) mod n2) = j) as Dj.
  { rewrite dist_mod by done. unfold dist. replace (hash pos + j - hash pos) with j by lia.
    apply Z.mod_small. lia. }
  split; [split|].
  - subst ix'. by rewrite len_insert.
  - apply (RH_ext _ (shift_forward n2 ((hash pos + j) mod n2) 0 pos (cyc ix))).
    { intros z. by apply cyc_insert_shift. }
    apply RH_shift_forward; [done|done|done|lia| |by rewrite Hfree'|lia|by rewrite Z.add_0_r].
    rewrite Dj. intros Hj0.
    destruct (cyc ix (hash pos + (j - 1))) as [p'|] eqn:E'; [|by destruct (Hrun (j - 1) ltac:(lia))].
    exists p'. replace (hash pos + (j - 1)) with (hash pos + j - 1) in * by lia.
    assert (((hash pos + j) mod n2 - 1) mod n2 = (hash pos + j - 1) mod n2) as Em
      by apply Zminus_mod_idemp_l.
    rewrite (periodic_eq n2 _ _ _ P Em). split; [done|].
    rewrite <- (dist_mod n2 p' (_ - 1)), Em, dist_mod by done. apply regrown_prev; [lia|done].
  - intros z p'. subst ix'. rewrite cyc_insert, Hlen by lia.
    destruct (Z.eqb_spec (z mod n2) ((hash pos + j) mod n2)) as [Ez|Nz].
    + intros [= <-]. exists o. split; [lia|]. split; [done|].
      rewrite <- (Zminus_mod_idemp_l z), Ez, Zminus_mod_idemp_l, probe_offset by done. fold d. lia.
    + intros E'. destruct (Hat z p' E') as (o' & ? & ?). exists o'. split; [lia|done].
  - apply (contents_insert _ _ None (Some pos)). rewrite cyc_lookup by lia. by rewrite Hfree'.
Qed.
End Entry.

Lemma regrown_skip o ix : regrown o ix -> regrown (o + 1) ix.
Proof.
  intros [Hlen Hrh Hat]. split; [done|done|]. intros z pos Hz.
  destruct (Hat z pos Hz) as (o' & ? & ?). exists o'. split; [lia|done].
Qed.

Lemma reinsert_spec t o x :
  0 <= o < n -> mask t = n2 - 1 -> cyc l0 (f0 + o) = x -> regrown o (indices t) ->
  returns (E:=E) (reinsert_entry_in_order x) t (fun _ t' => exists ix, t' = set_indices ix t /\
    regrown (o + 1) ix /\ contents ix ≡ₚ option_list x ++ contents (indices t)).
Proof.
  intros Ho Hm Hx HI. destruct x as [pos|]; simpl.
  2: { ret_step. exists (indices t). split_and!; [by destruct t|by apply regrown_skip|done]. }
  do 2 ret_step. rewrite Hm. unfold n2. rewrite (desired_pos_mod (k + 1)) by lia. fold n2.
  pose proof (rg_len _ _ HI) as Hlen. pose proof n2_pos as Hn2. pose proof n2_eq.
  pose proof (dist_range n gn_pos pos (f0 + o)) as Hd.
  assert (periodic n2 (cyc (indices t))) as P by (rewrite <- Hlen; apply cyc_periodic).
  pose proof (Z.mod_pos_bound (hash pos) n2 Hn2).
  apply (probe_loop_spec raw_cap _ n2 (hash pos mod n2) (fun j _ t' => t' = t /\
    0 <= j <= dist n pos (f0 + o) /\
    forall i, 0 <= i < j -> cyc (indices t) (hash pos + i) <> None)); [done|lia| | |].
  - intros j [] t' (-> & Hj & Hrun). split; [lia|]. split; [done|].
    rewrite Zplus_mod_idemp_l. pose proof (Z.mod_pos_bound (hash pos + j) n2 Hn2).
    do 2 ret_step. ret_step; [apply index_cyc; lia|]. rewrite P.
    destruct (cyc (indices t) (hash pos + j)) as [p'|] eqn:E'.
    + ret_step. split; [done|]. split.
      * enough (j <> dist n pos (f0 + o)) by lia. intros ->.
        rewrite (old_place_free o Ho pos Hx _ HI) in E'. done.
      * intros i Hi. destruct (Z.eq_dec i j) as [->|]; [congruence|]. apply Hrun. lia.
    + ret_step; [apply set_at_ok; lia|]. do 3 ret_step. eexists. split; [done|].
      by apply (regrown_put o Ho pos Hx _ HI j).
  - split; [done|]. split; [lia|]. intros; lia.
  - unfold probe_fuel. unfold len in Hlen. lia.
Qed.

Lemma reinsert_all_spec l : forall t o,
  0 <= o -> o + len l <= n -> mask t = n2 - 1 -> regrown o (indices t) ->
  (forall i, (i < length l)%nat -> l !! i = Some (cyc l0 (f0 + o + Z.of_nat i))) ->
  returns (E:=E) (reinsert_all l) t (fun _ t' => exists ix, t' = set_indices ix t /\
    regrown (o + len l) ix /\ contents ix ≡ₚ contents l ++ contents (indices t)).
Proof.
  induction l as [|x l IH]; intros t o Ho Hlen Hm HI Hl'; cbn [reinsert_all].
  { ret_step. exists (indices t). rewrite len_nil, Z.add_0_r. by destruct t. }
  rewrite len_cons in Hlen. pose proof (len_nonneg l).
  ret_step. eapply returns_mono; [|apply (reinsert_spec t o x); [lia|done| |done]].
  - intros _ t1 (ix & -> & HI1 & Hc1).
    eapply returns_mono; [|apply (IH _ (o + 1)); [lia|lia|done|done|]].
    + intros _ t2 (ix2 & -> & HI2 & Hc2). exists ix2. rewrite len_cons.
      replace (o + (1 + len l)) with (o + 1 + len l) by lia. split_and!; [done|done|].
      rewrite Hc2. simpl. rewrite Hc1. unfold contents. destruct x; csimpl; solve_Permutation.
    + intros i Hi. specialize (Hl' (S i) ltac:(simpl; lia)). simpl in Hl'. rewrite Hl'.
      f_equal. f_equal. lia.
  - specialize (Hl' 0%nat ltac:(simpl; lia)). simpl in Hl'. rewrite Z.add_0_r in Hl'. congruence.
Qed.
End Grow.

(** Where [grow] starts its visit. *)
Lemma first_ideal_ok k mask l q :
  3 <= k <= 61 -> mask = 2 ^ k - 1 -> arr k l -> cyc l q = None ->
  let f0 := Z.of_nat (first_ideal mask 0 l) in
  0 <= f0 < 2 ^ k /\
  ((exists e, cyc l f0 = Some e /\ dist (2 ^ k) e f0 = 0) \/ forall z, cyc l z = None).
Proof.
  intros Hk -> [Hl HR] Hq f0. assert (0 < 2 ^ k) by (apply Z.pow_pos_nonneg; lia).
  destruct (first_ideal_spec (2 ^ k - 1) l 0) as [(j & e & Ef & Hj & Hd)|[Ef Hd]].
  - rewrite (probe_distance_mod k) in Hd by lia. fold f0 in Hd.
    pose proof (lookup_lt_Some _ _ _ Hj) as Hlt. unfold len in Hl.
    assert (Z.to_nat f0 = j) as Ej by lia. split; [lia|]. left. exists e. split; [|done].
    pose proof (cyc_lookup l f0) as C. rewrite Ej, Hj in C. unfold len in C. naive_solver lia.
  - subst f0. rewrite Ef. split; [lia|]. right.
    apply (RH_ideal (2 ^ k) ltac:(done) _ q); [by rewrite <- Hl; apply cyc_periodic|done|done|].
    intros z pos Hz. pose proof (Z.mod_pos_bound z (2 ^ k) ltac:(done)).
    specialize (Hd (Z.to_nat (z mod 2 ^ k)) pos). rewrite (probe_distance_mod k) in Hd by lia.
    rewrite <- (dist_mod (2 ^ k) pos z). simpl in Hd. rewrite Z2Nat.id in Hd by lia. apply Hd.
    rewrite cyc_lookup by lia. rewrite <- Hl, cyc_periodic. by rewrite Hz.
Qed.

Lemma grow_spec `{NH : NameHasher} {E} k (t : Table) q :
  3 <= k <= 61 -> mask t = 2 ^ k - 1 -> arr k (indices t) -> cyc (indices t) q = None ->
  returns (E:=E) (grow (2 ^ (k + 1))) t (fun _ t' => exists ix,
    t' = MkTable (2 ^ (k + 1) - 1) ix (slots t) (inserted t) (size t) (max_size t) /\
    arr (k + 1) ix /\ contents ix ≡ₚ contents (indices t)).
Proof.
  intros Hk Hm Harr Hq. pose proof Harr as [Hl HR].
  assert (2 ^ (k + 1) < 2 ^ 64) by (apply Z.pow_lt_mono_r; lia).
  assert (0 < 2 ^ (k + 1)) by (apply Z.pow_pos_nonneg; lia).
  destruct (first_ideal_ok k (mask t) (indices t) q Hk Hm Harr Hq) as [Hf0 Hideal].
  set (f0 := first_ideal (mask t) 0 (indices t)) in *.
  unfold grow. do 2 ret_step. fold f0. do 2 ret_step.
  replace (wrapping_sub (2 ^ (k + 1)) 1) with (2 ^ (k + 1) - 1)
    by (symmetry; apply wrapu_id; unfold in_u; lia).
  assert (length (indices t) = Z.to_nat (2 ^ k)) as Hlen by (unfold len in Hl; lia).
  ret_step. eapply returns_mono; [|apply (reinsert_all_spec k Hk (indices t) HR _ Hideal _ _ 0);
    [lia| |done|by apply regrown_start|]].
  - intros _ t1 (ix1 & -> & HI1 & Hc1). simpl in Hc1. rewrite contents_replicate, app_nil_r in Hc1.
    assert (0 + len (drop f0 (indices t)) = 2 ^ k - Z.of_nat f0) as Ed
      by (unfold len; rewrite length_drop; lia). rewrite Ed in HI1.
    eapply returns_mono; [|apply (reinsert_all_spec k Hk (indices t) HR _ Hideal _ _ (2 ^ k - Z.of_nat f0));
      [lia| |done|done|]].
    + intros _ t2 (ix2 & -> & HI2 & Hc2). exists ix2. split_and!; [done|split; apply HI2|].
      rewrite Hc2. simpl. rewrite Hc1, <- contents_app. by rewrite take_drop.
    + unfold len. rewrite length_take. lia.
    + intros i Hi. rewrite length_take in Hi. rewrite lookup_take, decide_True by lia.
      rewrite cyc_lookup_nat by lia. f_equal.
      apply (periodic_eq (2 ^ k)); [rewrite <- Hl; apply cyc_periodic|].
      replace (Z.of_nat f0 + (2 ^ k - Z.of_nat f0) + Z.of_nat i) with (Z.of_nat i + 1 * 2 ^ k) by lia.
      by rewrite Z.mod_add by lia.
  - unfold len. rewrite length_drop. lia.
  - intros i Hi. rewrite length_drop in Hi. rewrite lookup_drop.
    rewrite cyc_lookup_nat by lia. f_equal. f_equal. lia.
Qed.

