(* ===== verification/HpackTableCorrect.v ===== *)
(** * The encoder's dynamic table is a FIFO with a sound index

    The table represents a newest-first list of headers: its slots are those
    headers with their hashes and, for each, a link to the next newer slot of
    the same name; its Robin Hood array holds exactly the oldest slot of every
    name.  No operation panics or loops, eviction keeps the longest prefix
    that fits, and [index] answers with a reference that resolves to the same
    field in any table with the same entries. *)

From S2P Require Import Prelude Bytes HttpTypes HpackDecoder HpackDecoderCorrect HpackTable RobinHood HpackTableArray.
Import HTable.

(** ** Chains of equal names *)

Section Chains.
Context `{NH : NameHasher}.
Implicit Types (nm : Name) (ns : list Name) (a : Z) (hs : list (Header HeaderName)).

(** The largest index with a name: the oldest slot of a newest-first list. *)
Fixpoint oldest nm ns : option nat :=
  match ns with
  | [] => None
  | x :: ns =>
      match oldest nm ns with
      | Some i => Some (S i)
      | None => if decide (x = nm) then Some 0%nat else None
      end
  end.

Lemma oldest_Some nm ns i :
  oldest nm ns = Some i <->
  ns !! i = Some nm /\ forall j, (i < j)%nat -> ns !! j <> Some nm.
Proof.
  revert i. induction ns as [|x ns IH]; intros i; simpl.
  { split; [done|]. by rewrite lookup_nil; intros [? _]. }
  destruct (oldest nm ns) as [i'|] eqn:E.
  - destruct (proj1 (IH i') eq_refl) as [H1 H2]. split.
    + intros [= <-]. split; [done|]. intros [|j] Hj; [lia|]. apply H2. lia.
    + intros [H3 H4]. f_equal. destruct i as [|i]; [by destruct (H4 (S i') ltac:(lia))|].
      simpl in H3. f_equal. destruct (Nat.lt_trichotomy i i') as [Hlt|[->|Hlt]]; [|done|].
      * by destruct (H4 (S i') ltac:(lia)).
      * by destruct (H2 i Hlt).
  - assert (forall j, ns !! j <> Some nm) as Hn.
    { intros j Hj. assert (nm ∈ ns) as Hin by (by apply list_elem_of_lookup_2 in Hj).
      clear IH Hj. induction ns as [|y ns IH]; [by apply elem_of_nil in Hin|]. simpl in E.
      destruct (oldest nm ns); [done|]. case_decide; [done|].
      apply elem_of_cons in Hin as [->|Hin]; [done|]. by apply IH. }
    case_decide; subst.
    + split; [intros [= <-]; split; [done|]; intros [|j] Hj; [lia|apply Hn]|].
      intros [H1 _]. destruct i; [done|]. by destruct (Hn i).
    + split; [done|]. intros [H1 _]. destruct i; simpl in H1; [congruence|]. by destruct (Hn i).
Qed.

Lemma oldest_None nm ns : oldest nm ns = None <-> nm ∉ ns.
Proof.
  induction ns as [|x ns IH]; simpl; [split; [intros _; apply not_elem_of_nil|done]|].
  rewrite not_elem_of_cons. destruct (oldest nm ns); [naive_solver|].
  case_decide; naive_solver.
Qed.

Lemma oldest_app nm ns ns' :
  oldest nm (ns ++ ns') =
    match oldest nm ns' with Some i => Some (length ns + i)%nat | None => oldest nm ns end.
Proof.
  induction ns as [|x ns IH]; simpl; [by destruct (oldest nm ns')|]. rewrite IH.
  by destruct (oldest nm ns').
Qed.

(** ** The canonical table *)

Definition hash_of nm : Z := Z.land (fnv_hash nm) (MAX_SIZE - 1).
Definition names hs : list Name := Header.name <$> hs.

(** The position of the slot at index [i] of a table with front index [a]. *)
Definition pos_of a (i : nat) nm : Pos := MkPos (as_usize (a + Z.of_nat i)) (hash_of nm).

(** The oldest slot of every name. *)
Fixpoint heads a ns : list Pos :=
  match ns with
  | [] => []
  | x :: ns =>
      (if oldest x ns is None then [pos_of a 0 x] else []) ++ heads (a + 1) ns
  end.

(** The link of the slot at index [i]: the next newer slot of its name. *)
Definition link a ns (i : nat) nm : option Z :=
  (fun j : nat => as_usize (a + Z.of_nat j)) <$> oldest nm (take i ns).
Definition canon a hs : list Slot :=
  imap (fun i h => MkSlot (hash_header h) h (link a (names hs) i (Header.name h))) hs.

Lemma pos_of_shift a i nm : pos_of a (S i) nm = pos_of (a + 1) i nm.
Proof. unfold pos_of. do 2 f_equal. lia. Qed.

Lemma elem_of_heads a ns p :
  p ∈ heads a ns <-> exists nm i, oldest nm ns = Some i /\ p = pos_of a i nm.
Proof.
  revert a. induction ns as [|x ns IH]; intros a; simpl.
  { split; [by intros ?%elem_of_nil|naive_solver]. }
  rewrite elem_of_app, IH. split.
  - intros [H|(nm & i & E & ->)].
    + destruct (oldest x ns) eqn:E; [by apply elem_of_nil in H|].
      apply list_elem_of_singleton in H as ->. exists x, 0%nat. by rewrite E, decide_True.
    + exists nm, (S i). by rewrite E, pos_of_shift.
  - intros (nm & i & E & ->). destruct (oldest nm ns) as [i'|] eqn:E'; simplify_eq.
    + right. exists nm, i'. by rewrite pos_of_shift.
    + case_decide; simplify_eq. left. rewrite E'. by apply list_elem_of_singleton.
Qed.

Lemma length_heads a ns : (length (heads a ns) <= length ns)%nat.
Proof.
  revert a. induction ns as [|x ns IH]; intros a; simpl; [done|]. rewrite length_app.
  specialize (IH (a + 1)). destruct (oldest x ns); simpl; lia.
Qed.

Lemma usize_inj a i j :
  0 <= i < 2 ^ 64 -> 0 <= j < 2 ^ 64 -> as_usize (a + i) = as_usize (a + j) -> i = j.
Proof.
  unfold as_usize, wrapu. intros Hi Hj E.
  apply (f_equal (fun x => (x - a) mod 2 ^ 64)) in E. rewrite !Zminus_mod_idemp_l in E.
  replace (a + i - a) with i in E by lia. replace (a + j - a) with j in E by lia.
  by rewrite !Z.mod_small in E.
Qed.

Lemma heads_inj a ns p p' :
  len ns < 2 ^ 64 -> p ∈ heads a ns -> p' ∈ heads a ns -> index p = index p' -> p = p'.
Proof.
  intros Hl (nm & i & E & ->)%elem_of_heads (nm' & i' & E' & ->)%elem_of_heads Hi. simpl in Hi.
  apply oldest_Some in E as [E _], E' as [E' _].
  pose proof (lookup_lt_Some _ _ _ E). pose proof (lookup_lt_Some _ _ _ E'). unfold len in Hl.
  apply usize_inj in Hi; [|lia|lia]. assert (i = i') as -> by lia. congruence.
Qed.

(** Dropping the oldest slot: the next newer slot of its name, if any, takes
    its place. *)
Lemma heads_snoc a ns nm :
  exists R, heads a (ns ++ [nm]) ≡ₚ pos_of a (length ns) nm :: R /\
    heads a ns ≡ₚ match oldest nm ns with Some i => pos_of a i nm :: R | None => R end.
Proof.
  revert a. induction ns as [|x ns IH]; intros a; simpl.
  { by exists []. }
  destruct (IH (a + 1)) as (R & H1 & H2). rewrite oldest_app. simpl.
  set (hx := if oldest x ns is None then [pos_of a 0 x] else []).
  destruct (oldest nm ns) as [i|] eqn:Ei.
  - exists (hx ++ R). rewrite H1, H2, !pos_of_shift. split; [|solve_Permutation].
    subst hx. case_decide; subst; rewrite ?Ei; solve_Permutation.
  - destruct (decide (nm = x)) as [<-|Hx].
    + exists R. subst hx. rewrite decide_True, Ei by done. rewrite H1, H2, pos_of_shift. done.
    + exists (hx ++ R). rewrite (decide_False (P:=x = nm)) by done.
      rewrite H1, H2, pos_of_shift. split; solve_Permutation.
Qed.

Lemma heads_cong a a' ns : as_usize a = as_usize a' -> heads a ns = heads a' ns.
Proof.
  revert a a'. induction ns as [|x ns IH]; intros a a' E; [done|]. simpl. f_equal.
  - unfold pos_of. rewrite !Z.add_0_r. by rewrite E.
  - apply IH. unfold as_usize, wrapu in *.
    by rewrite <- Zplus_mod_idemp_l, E, Zplus_mod_idemp_l.
Qed.

Lemma canon_lookup a hs i :
  canon a hs !! i =
    (fun h => MkSlot (hash_header h) h (link a (names hs) i (Header.name h))) <$> hs !! i.
Proof. apply list_lookup_imap. Qed.

Lemma length_canon a hs : length (canon a hs) = length hs.
Proof. apply length_imap. Qed.

Lemma canon_snoc a hs g :
  canon a (hs ++ [g]) =
    canon a hs ++ [MkSlot (hash_header g) g (link a (names hs) (length hs) (Header.name g))].
Proof.
  unfold canon, names. rewrite imap_app. simpl. f_equal.
  - apply imap_ext. intros i h Hi. apply lookup_lt_Some in Hi.
    unfold link. by rewrite fmap_app, take_app_le by (rewrite length_fmap; lia).
  - rewrite Nat.add_0_r. unfold link. by rewrite fmap_app, take_app_le by (rewrite length_fmap; lia).
Qed.

Lemma link_cong a a' ns i nm : as_usize a = as_usize a' -> link a ns i nm = link a' ns i nm.
Proof.
  intros E. unfold link. destruct (oldest nm (take i ns)) as [j|]; [|done]. simpl. f_equal.
  unfold as_usize, wrapu in *. by rewrite <- Zplus_mod_idemp_l, E, Zplus_mod_idemp_l.
Qed.

Lemma canon_cong a a' hs : as_usize a = as_usize a' -> canon a hs = canon a' hs.
Proof. intros E. apply imap_ext. intros i h _. simpl. by rewrite (link_cong a a'). Qed.

End Chains.

(** ** Representation *)

Section Repr.
Context `{NH : NameHasher} {E : Type}.
Implicit Types (t : Table) (hs : list (Header HeaderName)) (h g : Header HeaderName).

(** [repr v t hs]: the allocated table [t] stores the headers [hs].  While a
    header is being added its name is in [v]: the array already accounts for
    it, the slots do not. *)
Record repr (v : list Name) t hs : Prop := {
  rp_arr : exists k, 3 <= k <= 61 /\ mask t = 2 ^ k - 1 /\ arr k (indices t);
  rp_slots : slots t = canon (- inserted t) hs;
  rp_heads : contents (indices t) ≡ₚ heads (- inserted t - len v) (v ++ names hs);
  rp_load : len v + len hs <= capacity t;
  rp_few : len v + len hs < 2 ^ 60;
}.

Lemma repr_set_size v t hs n : repr v (set_size n t) hs <-> repr v t hs.
Proof. split; intros []; by split. Qed.

Lemma repr_len v t hs : repr v t hs -> len (slots t) = len hs.
Proof. intros H. rewrite (rp_slots _ _ _ H). unfold len. by rewrite length_canon. Qed.

(** There is always a free position. *)
Lemma repr_free v t hs : repr v t hs -> exists q, cyc (indices t) q = None.
Proof.
  intros [(k & Hk & _ & Hl & _) _ Hh Hload _].
  destruct (contents_free (indices t)) as (q & _ & Hq); [|by exists q].
  rewrite Hh. eapply Nat.le_lt_trans; [apply length_heads|].
  rewrite length_app. unfold names. rewrite length_fmap.
  unfold capacity, usable_capacity in Hload. rewrite Hl in Hload.
  assert (2 ^ k = 2 ^ (k - 3) * 8) as E8.
  { change 8 with (2 ^ 3). rewrite <- Z.pow_add_r by lia. f_equal. lia. }
  assert (0 < 2 ^ (k - 3)) by (apply Z.pow_pos_nonneg; lia).
  unfold len in *. Z.to_euclidean_division_equations. lia.
Qed.

(** Replacing the position of an entry by one with the same hash. *)
Lemma arr_rename k l p pos idx :
  3 <= k <= 61 -> arr k l -> 0 <= p < 2 ^ k -> cyc l p = Some pos ->
  let l' := <[Z.to_nat p:=Some (MkPos idx (hash pos))]> l in
  arr k l' /\ dominated (2 ^ k) (cyc l') (cyc l).
Proof.
  intros Hk [Hl HR] Hp Hpos l'.
  assert (forall z pos', cyc l' z = Some pos' -> exists pos0, cyc l z = Some pos0 /\
    hash pos' = hash pos0) as Hsame.
  { intros z pos'. subst l'. rewrite cyc_insert, Hl by lia. destruct (Z.eqb_spec (z mod 2 ^ k) p).
    - intros [= <-]. exists pos. split; [|done]. subst p. by rewrite <- Hpos, <- Hl, cyc_periodic.
    - intros; eauto. }
  assert (forall z pos0, cyc l z = Some pos0 -> exists pos', cyc l' z = Some pos' /\
    hash pos' = hash pos0) as Hsame'.
  { intros z pos0 Hz. subst l'. rewrite cyc_insert, Hl by lia. destruct (Z.eqb_spec (z mod 2 ^ k) p).
    - eexists. split; [done|]. subst p. rewrite <- Hl, cyc_periodic, Hz in Hpos. by simplify_eq.
    - eauto. }
  split; [split|].
  - subst l'. by rewrite len_insert.
  - intros z pos' Hz Hd. destruct (Hsame _ _ Hz) as (pos0 & H0 & Eh).
    unfold dist in Hd |- *. rewrite Eh in *. destruct (HR z pos0 H0 Hd) as (p1 & H1 & D1).
    destruct (Hsame' _ _ H1) as (p2 & H2 & Eh2). exists p2. split; [done|]. by rewrite Eh2.
  - intros z pos' Hz. destruct (Hsame _ _ Hz) as (pos0 & H0 & Eh). exists pos0.
    split; [done|]. unfold dist. by rewrite Eh.
Qed.

Lemma wrapping_neg x : wrapping_sub 0 (as_usize x) = as_usize (- x).
Proof.
  unfold wrapping_sub, as_usize, wrapu. rewrite Zminus_mod_idemp_r. f_equal.
Qed.

(** What evictions leave alone, and that they displace no entry. *)
Record shrinks t t' : Prop := {
  sh_mask : mask t' = mask t;
  sh_inserted : inserted t' = inserted t;
  sh_max : max_size t' = max_size t;
  sh_len : len (indices t') = len (indices t);
  sh_dom : dominated (len (indices t)) (cyc (indices t')) (cyc (indices t));
}.

Lemma shrinks_refl t : shrinks t t.
Proof. split; [done..|]. intros z pos Hz. eauto with lia. Qed.

Lemma shrinks_trans t1 t2 t3 : shrinks t1 t2 -> shrinks t2 t3 -> shrinks t1 t3.
Proof.
  intros [A1 A2 A3 A4 A5] [B1 B2 B3 B4 B5]. split; [congruence..|].
  intros z pos Hz. destruct (B5 z pos Hz) as (p2 & H2 & D2). rewrite A4 in *.
  destruct (A5 z p2 H2) as (p1 & H1 & D1). exists p1. split; [done|lia].
Qed.

Section Evict.
Context (v : list Name) (t : Table) (hs : list (Header HeaderName)) (g : Header HeaderName).
Context (Hrep : repr v t (hs ++ [g])).
Context (k : Z) (Hk : 3 <= k <= 61) (Hmask : mask t = 2 ^ k - 1) (Harr : arr k (indices t)).
Let a := - inserted t.
Let e := pos_of a (length hs) (Header.name g).

(** The heads that stay: the entry of the evicted slot apart. *)
Lemma evict_heads : exists R,
  contents (indices t) ≡ₚ e :: R /\
  heads (a - len v) (v ++ names hs) ≡ₚ
    match oldest (Header.name g) (names hs) with
    | Some i => pos_of a i (Header.name g) :: R
    | None => match oldest (Header.name g) v with
              | Some i => pos_of (a - len v) i (Header.name g) :: R
              | None => R
              end
    end.
Proof.
  destruct (heads_snoc (a - len v) (v ++ names hs) (Header.name g)) as (R & H1 & H2).
  assert (forall i, pos_of (a - len v) (length v + i) (Header.name g) =
    pos_of a i (Header.name g)) as Eshift.
  { intros i. unfold pos_of. do 2 f_equal. unfold len. lia. }
  exists R. split.
  - rewrite (rp_heads _ _ _ Hrep). unfold names. rewrite fmap_app, app_assoc. fold a (names hs).
    change (Header.name <$> [g]) with [Header.name g]. rewrite H1, length_app.
    unfold names. rewrite length_fmap, Eshift. done.
  - rewrite H2, oldest_app. destruct (oldest (Header.name g) (names hs)); [|done].
    by rewrite Eshift.
Qed.

(** The table after the slot is gone, with the array [ix]. *)
Definition evicted ix : Table :=
  MkTable (mask t) ix (canon a hs) (inserted t) (size t - Header.hlen g) (max_size t).

Lemma evicted_repr ix :
  arr k ix -> dominated (2 ^ k) (cyc ix) (cyc (indices t)) ->
  contents ix ≡ₚ heads (a - len v) (v ++ names hs) ->
  repr v (evicted ix) hs /\ shrinks t (evicted ix).
Proof.
  intros [Hl HR] Hdom Hc. destruct Harr as [Hl0 _]. destruct Hrep as [_ _ _ Hload Hfew].
  rewrite len_app in Hload, Hfew. change (len [g]) with 1 in *. split.
  - split; simpl; [by exists k|done|done| |lia]. unfold capacity in *. simpl. rewrite Hl, <- Hl0. lia.
  - split; simpl; [done..|congruence|]. by rewrite Hl0.
Qed.

(** The entry of the evicted slot, once found. *)
Lemma evict_found p prev :
  0 <= p < 2 ^ k -> cyc (indices t) p = Some e ->
  (oldest (Header.name g) (names hs) = None ->
   if bool_decide (Some (index e) = prev) then v = [Header.name g] else Header.name g ∉ v) ->
  returns (E:=E) (match link a (names hs) (length hs) (Header.name g) with
    | Some idx =>
        ix ← lift (set_at (indices t) p (Some (MkPos idx (hash e))));
        modify (set_indices ix)
    | None =>
        if bool_decide (Some (index e) = prev) then
          let idx := wrapping_sub 0 (as_usize (inserted t + 1)) in
          ix ← lift (set_at (indices t) p (Some (MkPos idx (hash e))));
          modify (set_indices ix)
        else
          ix ← lift (set_at (indices t) p None);
          _ ← modify (set_indices ix);
          remove_phase_two p
    end) (evicted (indices t)) (fun _ t' => repr v t' hs /\ shrinks t t' /\
      size t' = size t - Header.hlen g).
Proof.
  intros Hp He Hprev. destruct evict_heads as (R & Hc & Hh). pose proof Harr as [Hl HR].
  assert (Z.to_nat p < length (indices t))%nat as Hpl by (unfold len in Hl; lia).
  assert (indices t !! Z.to_nat p = Some (Some e)) as Hlook by (rewrite cyc_lookup, He by lia; done).
  assert (forall x, contents (<[Z.to_nat p:=x]> (indices t)) ≡ₚ option_list x ++ R) as Hins.
  { intros x. apply (Permutation_app_inv_l [e]).
    pose proof (contents_insert _ _ _ x Hlook) as Hi. simpl in Hi |- *. rewrite Hi, Hc.
    destruct x; simpl; solve_Permutation. }
  assert (forall idx, let ix := <[Z.to_nat p:=Some (MkPos idx (hash e))]> (indices t) in
    MkPos idx (hash e) :: R ≡ₚ heads (a - len v) (v ++ names hs) ->
    repr v (evicted ix) hs /\ shrinks t (evicted ix) /\ size (evicted ix) = size t - Header.hlen g)
    as Hrename.
  { intros idx ix Hperm. destruct (arr_rename k (indices t) p e idx) as [A D]; [done..|].
    destruct (evicted_repr ix A D) as [? ?]; [by subst ix; rewrite Hins|]. done. }
  unfold link. rewrite take_ge by (unfold names; by rewrite length_fmap).
  destruct (oldest (Header.name g) (names hs)) as [i|] eqn:Ei; simpl.
  - ret_step; [apply set_at_ok; lia|]. ret_step. apply Hrename. by rewrite Hh.
  - specialize (Hprev eq_refl). destruct (bool_decide _) eqn:Eb.
    + ret_step; [apply set_at_ok; lia|]. ret_step. apply Hrename. rewrite Hh. subst v. simpl.
      rewrite decide_True by done. unfold pos_of, e. simpl. rewrite wrapping_neg.
      replace (a - len [Header.name g] + Z.of_nat 0) with (- (inserted t + 1)) by (unfold len, a; simpl; lia).
      done.
    + ret_step; [apply set_at_ok; lia|]. do 2 ret_step.
      destruct (repr_free _ _ _ Hrep) as (q & Hq).
      eapply returns_mono; [|apply (remove_phase_two_spec k ltac:(lia) _ (indices t) p q e); done].
      intros _ t' (ix & -> & [A D] & Hcx). change (set_indices ix _) with (evicted ix).
      destruct (evicted_repr ix A D) as [? ?]; [|done].
      rewrite Hcx, Hins, Hh, (proj2 (oldest_None _ _) Hprev). done.
Qed.

Lemma evict_spec prev :
  (oldest (Header.name g) (names hs) = None ->
   if bool_decide (Some (index e) = prev) then v = [Header.name g] else Header.name g ∉ v) ->
  returns (E:=E) (evict prev) t (fun _ t' => repr v t' hs /\ shrinks t t' /\
    size t' = size t - Header.hlen g).
Proof.
  intros Hprev. pose proof Harr as [Hl HR]. pose proof (rp_few _ _ _ Hrep) as Hfew.
  rewrite len_app in Hfew. change (len [g]) with 1 in Hfew. pose proof (len_nonneg v).
  pose proof (len_nonneg hs). assert (0 < 2 ^ k) as Hn by (apply Z.pow_pos_nonneg; lia).
  assert (wrapping_sub (as_usize (len (slots t) - 1)) (inserted t) = index e) as Eidx.
  { rewrite (repr_len _ _ _ Hrep), len_app. change (len [g]) with 1.
    replace (len hs + 1 - 1) with (len hs) by lia. simpl. unfold wrapping_sub.
    replace (as_usize (len hs)) with (len hs) by (symmetry; apply wrapu_id; unfold in_u; lia).
    f_equal. unfold a, len. lia. }
  unfold evict. do 2 ret_step. rewrite Eidx, (rp_slots _ _ _ Hrep). fold a. rewrite canon_snoc.
  ret_step; [by rewrite pop_back_snoc|]. cbv beta iota. do 4 ret_step. simpl slot_hash. simpl header. simpl next.
  change (set_size _ _) with (evicted (indices t)).
  destruct evict_heads as (R & Hc & _). pose proof (rp_heads _ _ _ Hrep) as Hh. fold a in Hh.
  assert (e ∈ contents (indices t)) as (p & Hp & He)%elem_of_contents by (rewrite Hc; left).
  rewrite Hmask, (desired_pos_mod k) by lia. pose proof (Z.mod_pos_bound (hash e) (2 ^ k) Hn).
  apply (probe_loop_spec raw_cap _ (2 ^ k) (hash e mod 2 ^ k) (fun j _ t' =>
    t' = evicted (indices t) /\ 0 <= j <= dist (2 ^ k) e p)); [done|lia| | |].
  - intros j [] t' [-> Hj]. pose proof (dist_range (2 ^ k) Hn e p). split; [lia|]. split; [done|].
    assert (periodic (2 ^ k) (cyc (indices t))) as P by (rewrite <- Hl; apply cyc_periodic).
    rewrite Zplus_mod_idemp_l. pose proof (Z.mod_pos_bound (hash e + j) (2 ^ k) Hn).
    destruct (RH_probe (2 ^ k) _ p e j P HR He Hj) as (pos & Hpos & _).
    do 2 ret_step. ret_step; [apply index_cyc; change (indices (evicted _)) with (indices t); lia|]. change (indices (evicted _)) with (indices t). rewrite P, Hpos.
    ret_step; [done|]. destruct (Z.eqb_spec (index pos) (index e)) as [Ei|Ni].
    + assert (pos = e) as ->.
      { apply (heads_inj (a - len v) (v ++ names (hs ++ [g]))); [| | |done].
        - rewrite len_app. unfold names, len in *. rewrite length_fmap, length_app. simpl. lia.
        - rewrite <- Hh. apply elem_of_contents.
          exists ((hash e + j) mod 2 ^ k). split; [lia|]. by rewrite P.
        - rewrite <- Hh, Hc. left. }
      ret_step. eapply returns_mono; [|apply (evict_found ((hash e + j) mod 2 ^ k) prev); [lia|by rewrite P|done]].
      intros [] t' Ht'. ret_step. exact Ht'.
    + ret_step. split; [done|]. enough (j <> dist (2 ^ k) e p) by lia. intros ->. apply Ni.
      f_equal. assert (Some pos = Some e) as [= ->]; [|done]. rewrite <- Hpos, <- He.
      apply (periodic_eq (2 ^ k)); [done|]. unfold dist. rewrite Zplus_mod_idemp_r. f_equal. lia.
  - split; [done|]. pose proof (dist_range (2 ^ k) Hn e p). lia.
  - unfold probe_fuel. unfold len in Hl. lia.
Qed.
End Evict.
(** [prev] names the newest slot of the header that is being added, if [v] has
    one. *)
Definition prev_ok v (prev : option Z) (a : Z) hs : Prop :=
  forall i g, hs !! i = Some g -> oldest (Header.name g) (names (take i hs)) = None ->
    if bool_decide (Some (as_usize (a + Z.of_nat i)) = prev)
    then v = [Header.name g] else Header.name g ∉ v.

Lemma prev_ok_none a hs : prev_ok [] None a hs.
Proof. intros i g _ _. by rewrite bool_decide_false by done; apply not_elem_of_nil. Qed.

Lemma converge_loop_spec v prev hs : forall t fuel ret extra,
  repr v t hs -> prev_ok v prev (- inserted t) hs ->
  size t = sum_len hs + extra -> extra <= max_size t -> (length hs < fuel)%nat ->
  returns (E:=E) (converge_loop fuel prev ret) t (fun r t' =>
    let hs' := fit (max_size t - extra) hs in
    repr v t' hs' /\ shrinks t t' /\ size t' = sum_len hs' + extra /\
    ((r = ret /\ t' = t) \/ r = true)).
Proof.
  induction hs as [|g hs IH] using rev_ind; intros t [|fuel] ret extra Hrep Hprev Hs He Hf;
    rewrite ?length_app in Hf; simpl in Hf; try lia; cbn [converge_loop]; do 2 ret_step.
  - simpl in Hs |- *. rewrite (proj2 (Z.ltb_ge _ _)) by lia. ret_step. simpl.
    split_and!; [done|apply shrinks_refl|done|by left].
  - destruct (Z.ltb_spec (max_size t) (size t)) as [Hgt|Hle].
    + pose proof (rp_arr _ _ _ Hrep) as (k & Hk & Hm & Harr). ret_step.
      eapply returns_mono; [|apply (evict_spec v t hs g Hrep k Hk Hm Harr prev)].
      * intros _ t1 (Hrep1 & Hsh & Hs1). pose proof Hsh as [_ Hins Hmax _ _].
        rewrite sum_len_app in Hs. simpl in Hs.
        eapply returns_mono; [|apply (IH t1 fuel true extra); [done| |lia|lia|lia]].
        -- intros r t2 (Hrep2 & Hsh2 & Hs2 & Hr). rewrite Hmax in *. rewrite fit_snoc
             by (rewrite sum_len_app; simpl; lia).
           split_and!; [done|by eapply shrinks_trans|done|]. right. naive_solver.
        -- rewrite Hins. intros i g' Hi Ho. specialize (Hprev i g').
           pose proof (lookup_lt_Some _ _ _ Hi).
           rewrite lookup_app_l, take_app_le in Hprev by lia. by apply Hprev.
      * specialize (Hprev (length hs) g). rewrite take_app_length in Hprev. apply Hprev.
        by rewrite lookup_app_r, Nat.sub_diag by lia.
    + ret_step. rewrite fit_all by lia. split_and!; [done|apply shrinks_refl|done|by left].
Qed.

Lemma update_size_spec v prev hs t n :
  repr v t hs -> prev_ok v prev (- inserted t) hs ->
  size t = sum_len hs -> n <= max_size t ->
  returns (E:=E) (update_size n prev) t (fun r t' =>
    let hs' := fit (max_size t - n) hs in
    repr v t' hs' /\ shrinks t t' /\ size t' = sum_len hs' + n /\
    (r = false -> t' = set_size (size t + n) t)).
Proof.
  intros Hrep Hprev Hs Hn. unfold update_size, converge. do 4 ret_step.
  eapply returns_mono; [|apply (converge_loop_spec v prev hs _ _ _ n)].
  - intros r t' (H1 & [] & H3 & H4). simpl in *. split_and!; [done|by split|done|]. naive_solver.
  - by apply repr_set_size.
  - done.
  - simpl. lia.
  - done.
  - simpl. rewrite (rp_slots _ _ _ Hrep), length_canon. lia.
Qed.

(** ** Insertion *)

(** A place for a header with hash [x] at displacement [d] where the Robin Hood
    order allows it. *)
Definition room k (l : list (option Pos)) (x d : Z) : Prop :=
  forall pos, cyc l (x + d) = Some pos -> dist (2 ^ k) pos (x + d) < d.
Definition follows k (l : list (option Pos)) (x d : Z) : Prop :=
  0 < d -> exists pos, cyc l (x + d - 1) = Some pos /\ d - 1 <= dist (2 ^ k) pos (x + d - 1).

Lemma step_back_spec k t x : forall d,
  3 <= k <= 61 -> mask t = 2 ^ k - 1 -> len (indices t) = 2 ^ k -> room k (indices t) x (Z.of_nat d) ->
  exists d', 0 <= d' <= Z.of_nat d /\
    step_back t d ((x + Z.of_nat d) mod 2 ^ k) = (Ok ((x + d') mod 2 ^ k) : outcome E Z) /\
    room k (indices t) x d' /\ follows k (indices t) x d'.
Proof.
  induction d as [|d IH]; intros Hk Hm Hl Hroom.
  { exists 0. split_and!; [lia..|done|done|]. by intros ?. }
  assert (0 < 2 ^ k) as Hn by (apply Z.pow_pos_nonneg; lia).
  cbn [step_back]. rewrite Hm, (back_mod k), Zminus_mod_idemp_l by lia.
  replace (x + Z.of_nat (S d) - 1) with (x + Z.of_nat d) by lia.
  pose proof (Z.mod_pos_bound (x + Z.of_nat d) (2 ^ k) Hn).
  rewrite index_cyc by lia. cbn [mbind outcome_bind]. rewrite <- Hl, cyc_periodic, Hl.
  destruct (cyc (indices t) (x + Z.of_nat d)) as [pos|] eqn:Epos.
  - rewrite (probe_distance_mod k), Zminus_mod_idemp_l by lia.
    change ((x + Z.of_nat d - hash pos) mod 2 ^ k) with (dist (2 ^ k) pos (x + Z.of_nat d)).
    destruct (Z.ltb_spec (dist (2 ^ k) pos (x + Z.of_nat d)) (Z.of_nat (S d) - 1)) as [Hlt|Hge].
    + destruct IH as (d' & ? & ? & ?); [done..| |exists d'; split_and!; [lia..|done|naive_solver|naive_solver]].
      intros pos' Hp. simplify_eq. lia.
    + exists (Z.of_nat (S d)). split_and!; [lia..|done|done|]. intros _. exists pos.
      replace (x + Z.of_nat (S d) - 1) with (x + Z.of_nat d) by lia. split; [done|lia].
  - destruct IH as (d' & ? & ? & ?); [done..| |exists d'; split_and!; [lia..|done|naive_solver|naive_solver]].
    intros pos' Hp. congruence.
Qed.

Lemma room_shrinks k t t' x d :
  shrinks t t' -> len (indices t) = 2 ^ k -> room k (indices t) x d -> room k (indices t') x d.
Proof.
  intros [_ _ _ _ Hdom] Hl Hroom pos Hpos. rewrite Hl in Hdom.
  destruct (Hdom _ _ Hpos) as (pos' & Hpos' & Hle). specialize (Hroom _ Hpos'). lia.
Qed.

Lemma link_cons a x ns i nm :
  link (a - 1) (x :: ns) (S i) nm =
    match oldest nm (take i ns) with
    | Some j => Some (as_usize (a + Z.of_nat j))
    | None => if decide (x = nm) then Some (as_usize (a - 1)) else None
    end.
Proof.
  unfold link. simpl. destruct (oldest nm (take i ns)); simpl.
  - do 2 f_equal. lia.
  - case_decide; simpl; [|done]. do 2 f_equal. lia.
Qed.

Lemma canon_cons_fresh a h hs :
  Header.name h ∉ names hs ->
  canon (a - 1) (h :: hs) = MkSlot (hash_header h) h None :: canon a hs.
Proof.
  intros Hfresh. apply list_eq. intros [|i]; [done|]. rewrite canon_lookup.
  change ((?x :: ?l) !! S i) with (l !! i). rewrite canon_lookup.
  destruct (hs !! i) as [g|] eqn:Eg; [|done]. simpl. do 2 f_equal.
  change (names (h :: hs)) with (Header.name h :: names hs). rewrite link_cons. unfold link.
  destruct (oldest _ _); [done|]. rewrite decide_False; [done|]. intros En. apply Hfresh.
  rewrite En. apply list_elem_of_fmap_2. by apply list_elem_of_lookup_2 in Eg.
Qed.

Lemma neg_succ t x : as_usize (- wrapping_add (inserted t) 1 - x) = as_usize (- inserted t - 1 - x).
Proof.
  unfold wrapping_add, as_usize, wrapu.
  replace (- ((inserted t + 1) mod 2 ^ 64) - x) with (- x - (inserted t + 1) mod 2 ^ 64) by lia.
  rewrite Zminus_mod_idemp_r. f_equal. lia.
Qed.

(** The new table with its slots and its array. *)
Lemma repr_insert k t hs h ix n :
  repr [] t hs -> 3 <= k <= 61 -> mask t = 2 ^ k - 1 -> len (indices t) = 2 ^ k -> arr k ix ->
  Header.name h ∉ names hs -> len hs < capacity t -> len hs + 1 < 2 ^ 60 ->
  contents ix ≡ₚ MkPos (wrapping_sub 0 (wrapping_add (inserted t) 1)) (hash_header h) :: contents (indices t) ->
  repr [] (MkTable (mask t) ix (MkSlot (hash_header h) h None :: slots t)
    (wrapping_add (inserted t) 1) n (max_size t)) (h :: hs).
Proof.
  intros [_ Hsl Hh Hload Hfew] Hk Hm Hl Harr Hfresh Hcap Hlen Hc. split; simpl.
  - by exists k.
  - rewrite Hsl, <- (canon_cons_fresh (- inserted t)) by done. apply canon_cong.
    pose proof (neg_succ t 0) as En. rewrite !Z.sub_0_r in En. done.
  - rewrite Hc, Hh. change (names (h :: hs)) with (Header.name h :: names hs). simpl.
    rewrite (proj2 (oldest_None _ _) Hfresh). change (len (@nil Name)) with 0.
    rewrite !Z.sub_0_r. simpl.
    match goal with |- ?x ≡ₚ ?y => cut (x = y); [by intros ->|] end. f_equal.
    + unfold pos_of. f_equal. unfold wrapping_sub. f_equal. simpl. lia.
    + apply heads_cong. pose proof (neg_succ t (-1)) as En.
      replace (- wrapping_add (inserted t) 1 - -1) with (- wrapping_add (inserted t) 1 + 1) in En by lia.
      rewrite En. f_equal. lia.
  - unfold capacity in *. simpl. rewrite len_nil, len_cons. destruct Harr as [Hl' _].
    rewrite Hl', <- Hl. lia.
  - rewrite len_nil, len_cons. lia.
Qed.

Lemma fit_prefix n hs : fit n hs `prefix_of` hs.
Proof.
  revert n. induction hs as [|g hs IH]; intros n; simpl; [done|].
  destruct (_ <=? _); [|apply prefix_nil]. by apply prefix_cons.
Qed.

Lemma index_vacant_spec k t hs h d statik :
  repr [] t hs -> size t = sum_len hs -> Header.hlen h <= max_size t ->
  3 <= k <= 61 -> mask t = 2 ^ k - 1 -> len (indices t) = 2 ^ k ->
  Header.is_sensitive h = false -> len hs < capacity t -> len hs + 1 < 2 ^ 60 ->
  Header.name h ∉ names hs -> 0 <= d < 2 ^ k ->
  room k (indices t) (hash_header h) d -> follows k (indices t) (hash_header h) d ->
  returns (E:=E) (index_vacant h (hash_header h) d ((hash_header h + d) mod 2 ^ k) statik) t (fun r t' =>
    r = match statik with Some (n, _) => InsertedValue n 0 | None => Inserted 0 end /\
    repr [] t' (fit (max_size t) (h :: hs)) /\ size t' = sum_len (fit (max_size t) (h :: hs)) /\
    max_size t' = max_size t).
Proof.
  intros Hrep Hs Hh Hk Hm Hl Hns Hcap Hlen Hfresh Hd Hroom Hfol.
  assert (0 < 2 ^ k) as Hn by (apply Z.pow_pos_nonneg; lia).
  unfold index_vacant. rewrite Hns. ret_step.
  eapply returns_mono; [|apply (update_size_spec [] None hs t); [done|apply prev_ok_none|done|done]].
  intros evicted t1 (Hrep1 & Hsh & Hs1 & Hsame). cbv zeta in *.
  set (hs1 := fit (max_size t - Header.hlen h) hs) in *. pose proof Hsh as [Hm1 Hi1 Hx1 Hl1 _].
  assert (exists d', 0 <= d' < 2 ^ k /\
    (if evicted then step_back t1 (Z.to_nat d) ((hash_header h + d) mod 2 ^ k)
     else Ok ((hash_header h + d) mod 2 ^ k)) = (Ok ((hash_header h + d') mod 2 ^ k) : outcome E Z) /\
    room k (indices t1) (hash_header h) d' /\ follows k (indices t1) (hash_header h) d')
    as (d' & Hd' & Estep & Hroom' & Hfol').
  { destruct evicted.
    - destruct (step_back_spec k t1 (hash_header h) (Z.to_nat d)) as (d' & ? & Es & ? & ?);
        [done|congruence|congruence| |].
      { rewrite Z2Nat.id by lia. by eapply room_shrinks. }
      rewrite Z2Nat.id in * by lia. exists d'. split_and!; done || lia.
    - exists d. rewrite (Hsame eq_refl). split_and!; [lia..|done|exact Hroom|exact Hfol]. }
  do 2 ret_step. ret_step; [exact Estep|]. unfold insert. do 4 ret_step. cbn [inserted].
  pose proof (Z.mod_pos_bound (hash_header h + d') (2 ^ k) Hn) as Hp. ret_step.
  destruct (rp_arr _ _ _ Hrep1) as (k1 & Hk1 & Hmk1 & Harr1).
  assert (k1 = k) as ->.
  { apply (Z.pow_inj_r 2); lia. }
  destruct (repr_free _ _ _ Hrep1) as (q & Hq).
  set (np := MkPos (wrapping_sub 0 (wrapping_add (inserted t1) 1)) (hash_header h)).
  assert (periodic (2 ^ k) (cyc (indices t1))) as P by (rewrite <- Hl, <- Hl1; apply cyc_periodic).
  assert (dist (2 ^ k) np ((hash_header h + d') mod 2 ^ k) = d') as Dnp.
  { rewrite dist_mod. unfold dist. simpl. replace (hash_header h + d' - hash_header h) with d' by lia.
    apply Z.mod_small. lia. }
  eapply returns_mono; [|apply (place_spec k ltac:(lia) _ _ q np); simpl; [apply Harr1|apply Harr1|done|done| |]].
  - intros _ t2 (ix & -> & Harr2 & Hc2). ret_step. simpl in *.
    rewrite (proj2 (Z.leb_le _ _)) by lia. fold hs1. split_and!; [done| |simpl; lia|done].
    assert (len hs1 <= len hs) as Hle.
    { unfold len. apply inj_le. apply prefix_length, fit_prefix. }
    apply (repr_insert k t1); [done..|congruence|congruence|done| |unfold capacity in *; rewrite Hl1; lia|lia|done].
    intros Hin. apply Hfresh. destruct (fit_prefix (max_size t - Header.hlen h) hs) as (rest & ->).
    unfold names. rewrite fmap_app. apply elem_of_app. by left.
  - rewrite Dnp. intros Hd0. destruct (Hfol' Hd0) as (pos & Hpos & Hle). exists pos.
    assert (((hash_header h + d') mod 2 ^ k - 1) mod 2 ^ k = (hash_header h + d' - 1) mod 2 ^ k) as Em
      by apply Zminus_mod_idemp_l.
    rewrite (periodic_eq (2 ^ k) _ _ _ P Em). split; [done|].
    rewrite <- (dist_mod (2 ^ k) pos (_ - 1)), Em, dist_mod. done.
  - rewrite Dnp. intros pos. rewrite P, dist_mod. apply Hroom'.
Qed.

(** *** A name that is already present *)

Lemma canon_cons_patch a h hs i hi :
  hs !! i = Some hi -> Header.name hi = Header.name h ->
  oldest (Header.name h) (names (take i hs)) = None ->
  canon (a - 1) (h :: hs) = MkSlot (hash_header h) h None ::
    <[i:=MkSlot (hash_header hi) hi (Some (as_usize (a - 1)))]> (canon a hs).
Proof.
  intros Hi En Ho. apply list_eq. intros [|j]; [done|]. rewrite canon_lookup.
  change ((?x :: ?l) !! S j) with (l !! j). pose proof (lookup_lt_Some _ _ _ Hi).
  assert (forall m, take m (names hs) = names (take m hs)) as Et
    by (intros m; unfold names; by rewrite fmap_take).
  destruct (decide (j = i)) as [->|Hne].
  - rewrite list_lookup_insert_eq by (rewrite length_canon; lia). rewrite Hi. simpl. do 2 f_equal.
    change (names (h :: hs)) with (Header.name h :: names hs). rewrite link_cons, Et, En, Ho.
    by rewrite decide_True.
  - rewrite list_lookup_insert_ne, canon_lookup by done. destruct (hs !! j) as [g|] eqn:Ej; [|done].
    simpl. do 2 f_equal. change (names (h :: hs)) with (Header.name h :: names hs).
    rewrite link_cons. unfold link. destruct (oldest (Header.name g) (take j (names hs))) eqn:Eo; [done|].
    rewrite decide_False; [done|]. intros Eg. rewrite Et in Eo.
    apply oldest_None in Ho, Eo. destruct (Nat.lt_total j i) as [Hlt|[?|Hlt]]; [|done|].
    + apply Ho. rewrite Eg. apply list_elem_of_fmap_2, (list_elem_of_lookup_2 _ j).
      by rewrite lookup_take, decide_True.
    + apply Eo. rewrite <- Eg, <- En. apply list_elem_of_fmap_2, (list_elem_of_lookup_2 _ i).
      by rewrite lookup_take, decide_True.
Qed.

Section Occupied.
Context (t : Table) (hs : list (Header HeaderName)) (h : Header HeaderName).
Context (Hrep : repr [] t hs).
Let a := - inserted t.

Lemma real_index i : 0 <= i < 2 ^ 63 -> wrapping_add (as_usize (a + i)) (inserted t) = i.
Proof.
  intros Hi. unfold wrapping_add, as_usize, wrapu. rewrite Zplus_mod_idemp_l.
  replace (a + i + inserted t) with i by (unfold a; lia). apply Z.mod_small. lia.
Qed.

Lemma slot_at {E'} i g : hs !! i = Some g ->
  Bytes.index (slots t) (Z.of_nat i) = (Ok (MkSlot (hash_header g) g
    (link a (names hs) i (Header.name g))) : outcome E' _).
Proof.
  intros Hi. unfold Bytes.index. rewrite (proj2 (Z.ltb_ge _ _)), Nat2Z.id by lia.
  by rewrite (rp_slots _ _ _ Hrep), canon_lookup, Hi.
Qed.

(** The newest slot of the name of [h]. *)
Context (i : nat) (hi : Header HeaderName) (Hi : hs !! i = Some hi).
Context (Hname : Header.name hi = Header.name h).
Context (Hnewest : oldest (Header.name h) (names (take i hs)) = None).

Lemma adding_repr :
  len hs < capacity t -> len hs + 1 < 2 ^ 60 ->
  repr [Header.name h] t hs /\ prev_ok [Header.name h] (Some (as_usize (a + Z.of_nat i))) a hs.
Proof.
  intros Hcap Hlen. pose proof (rp_few _ _ _ Hrep) as Hfew. split.
  - destruct Hrep as [Ha Hsl Hh Hload _]. split; [done|done| |rewrite len_cons, len_nil; lia..].
    rewrite Hh. simpl. destruct (oldest (Header.name h) (names hs)) eqn:Eo.
    + simpl. change (len [Header.name h]) with 1. change (len (@nil Name)) with 0.
      by replace (- inserted t - 1 + 1) with (- inserted t - 0) by lia.
    + apply oldest_None in Eo. destruct Eo. rewrite <- Hname.
      apply list_elem_of_fmap_2. by apply list_elem_of_lookup_2 in Hi.
  - intros j g Hj Ho. case_bool_decide as Eb.
    + injection Eb as Eb. pose proof (lookup_lt_Some _ _ _ Hi). pose proof (lookup_lt_Some _ _ _ Hj).
      unfold len in Hfew. apply usize_inj in Eb; [|simpl in Hfew; lia..].
      assert (j = i) as -> by lia. simplify_eq. by rewrite Hname.
    + intros Hg%list_elem_of_singleton. apply oldest_None in Ho. pose proof Hnewest as Hn.
      apply oldest_None in Hn. destruct (Nat.lt_total j i) as [Hlt|[->|Hlt]]; [|done|].
      * apply Hn. rewrite <- Hg. apply list_elem_of_fmap_2, (list_elem_of_lookup_2 _ j).
        by rewrite lookup_take, decide_True.
      * apply Ho. rewrite Hg, <- Hname. apply list_elem_of_fmap_2, (list_elem_of_lookup_2 _ i).
        by rewrite lookup_take, decide_True.
Qed.

(** After the evictions the header is pushed and linked from the newest slot of
    its name, if that is still there. *)
Lemma adding_done t1 hs1 n ss :
  repr [Header.name h] t1 hs1 -> hs1 `prefix_of` hs -> inserted t1 = inserted t ->
  len hs1 + 1 < 2 ^ 60 ->
  ss = MkSlot (hash_header h) h None ::
    (if decide (i < length hs1)%nat
     then <[i:=MkSlot (hash_header hi) hi (Some (as_usize (a - 1)))]> (slots t1) else slots t1) ->
  repr [] (MkTable (mask t1) (indices t1) ss (wrapping_add (inserted t1) 1) n (max_size t1)) (h :: hs1).
Proof.
  intros Hrep1 Hpre Hins Hlen ->. destruct Hrep1 as [Ha Hsl Hh Hload Hfew].
  destruct Hpre as [rest Hrest]. split; cbn [mask indices slots inserted size max_size].
  - done.
  - assert (as_usize (- wrapping_add (inserted t1) 1) = as_usize (a - 1)) as Ec.
    { pose proof (neg_succ t1 0) as En. rewrite !Z.sub_0_r in En. rewrite En, Hins. done. }
    rewrite (canon_cong _ _ _ Ec), Hsl, Hins. fold a. case_decide as Hlt.
    + symmetry. apply canon_cons_patch; [|done|].
      * rewrite Hrest, lookup_app_l in Hi by lia. done.
      * rewrite Hrest, take_app_le in Hnewest by lia. done.
    + symmetry. apply canon_cons_fresh. rewrite Hrest in Hnewest. apply oldest_None in Hnewest.
      intros Hin. apply Hnewest. unfold names. rewrite take_app_ge, fmap_app by lia.
      apply elem_of_app. by left.
  - rewrite Hh. change (len (@nil Name)) with 0. change (names (h :: hs1)) with (Header.name h :: names hs1).
    change (len [Header.name h]) with 1. change ([Header.name h] ++ names hs1) with (Header.name h :: names hs1).
    match goal with |- ?x ≡ₚ ?y => cut (x = y); [by intros ->|] end.
    apply heads_cong. rewrite neg_succ. f_equal. lia.
  - change (len (@nil Name)) with 0. change (len [Header.name h]) with 1 in *. rewrite len_cons. done.
  - change (len (@nil Name)) with 0. change (len [Header.name h]) with 1 in *. rewrite len_cons. lia.
Qed.
End Occupied.

End Repr.
