(* ===== verification/HpackTableIndex.v ===== *)
(** * Indexing a header in the encoder's dynamic table

    [Table::index] on a table that represents a list of headers: it never
    panics, the table it leaves represents the list after the insertion (if
    any), and its answer refers to entries of the list before it. *)

From Stdlib Require Import String.
From S2P Require Import Prelude Bytes Huffman HttpTypes HpackDecoder HpackDecoderCorrect HpackWire HpackTable RobinHood HpackTableArray HpackTableCorrect.
Import HTable.

Section Index.
Context `{NH : NameHasher} {E : Type}.
Implicit Types (t : Table) (hs : list (Header HeaderName)) (h g : Header HeaderName).

(** What an answer of [index] means, and the dynamic entries after it. *)
Inductive indexed_as (max : Z) hs h : Index -> list (Header HeaderName) -> Prop :=
  | ia_indexed n g :
      entry hs n g -> same_field h g -> indexed_as max hs h (Indexed n h) hs
  | ia_name n g :
      entry hs n g -> Header.name h = Header.name g -> indexed_as max hs h (IName n h) hs
  | ia_not : indexed_as max hs h (NotIndexed h) hs
  | ia_inserted :
      Header.is_sensitive h = false -> Header.hlen h <= max ->
      indexed_as max hs h (Inserted 0) (fit max (h :: hs))
  | ia_inserted_value n g :
      Header.is_sensitive h = false -> Header.hlen h <= max ->
      entry hs n g -> Header.name h = Header.name g ->
      indexed_as max hs h (InsertedValue n 0) (fit max (h :: hs)).

Lemma entry_dynamic hs i g : hs !! i = Some g -> entry hs (Z.of_nat i + DYN_OFFSET) g.
Proof.
  intros Hi sz mx. unfold Table_get, DYN_OFFSET.
  rewrite (proj2 (Z.eqb_neq _ _)), (proj2 (Z.leb_gt _ _)) by lia. simpl.
  replace (Z.to_nat _) with i by lia. by rewrite Hi.
Qed.

Lemma entry_static hs n g :
  1 <= n <= 61 -> get_static n = (Ok g : outcome DecoderError _) -> entry hs n g.
Proof.
  intros Hn Hg sz mx. unfold Table_get.
  by rewrite (proj2 (Z.eqb_neq _ _)), (proj2 (Z.leb_le _ _)) by lia.
Qed.

(** ** The static table *)

Lemma static_names_ok x n :
  (x, n) ∈ static_names ->
  1 <= n <= 61 /\ get_static n = (Ok (HField (std_name x) (value_from_static "")) : outcome DecoderError _).
Proof.
  intros H. unfold static_names in H.
  repeat (apply elem_of_cons in H as [[= -> ->]|H]; [split; [lia|done]|]).
  by apply elem_of_nil in H.
Qed.

(** The answer for an entry of the static table. *)
Definition static_ok h (n : Z) (full : bool) : Prop :=
  exists g, 1 <= n <= 61 /\ get_static n = (Ok g : outcome DecoderError _) /\
    Header.name h = Header.name g /\ (full = true -> same_field h g).

Lemma index_static_ok h n full : index_static h = Some (n, full) -> static_ok h n full.
Proof.
  assert (forall b h' g n', get_static n' = (Ok g : outcome DecoderError _) -> 1 <= n' <= 61 ->
    Header.name h' = Header.name g -> (b = true -> Header.value_slice h' = Header.value_slice g) ->
    static_ok h' n' b) as Hs.
  { intros b h' g n' Hg Hn E1 E2. exists g. split_and!; [lia..|done|done|]. intros ->. by split; [|apply E2]. }
  destruct h as [nm v|v|v|v|v|v]; cbn [index_static]; intros H.
  - case_bool_decide as En.
    + subst nm. case_bool_decide as Ev; simplify_eq; (eapply Hs; [reflexivity|lia|done|]).
      * intros _. simpl. rewrite Ev. symmetry. by apply value_from_static_ref.
      * done.
    + destruct (List.find _ static_names) as [[x n']|] eqn:Ef; [|done]. simplify_eq.
      apply List.find_some in Ef as [Hin Hx]. apply bool_decide_eq_true in Hx. simpl in Hx. subst nm.
      apply list_elem_of_In, static_names_ok in Hin as [Hn Hg].
      eapply Hs; [exact Hg|lia|done|done].
  - simplify_eq. by eapply Hs; [reflexivity|lia|..].
  - repeat case_bool_decide; simplify_eq; by eapply Hs; [reflexivity|lia|..].
  - repeat case_bool_decide; simplify_eq; (eapply Hs; [reflexivity|lia|done|]); first [done|intros _; assumption].
  - repeat case_bool_decide; simplify_eq; (eapply Hs; [reflexivity|lia|done|]); first [done|intros _; assumption].
  - assert (forall s, status_as_u16 v = std_status_u16 s -> v = std_status s) as Hst.
    { intros s Es. apply status_as_u16_inj. by rewrite std_status_as_u16. }
    destruct (status_as_u16 v) as [|p|p] eqn:Eu; [by simplify_eq; eapply Hs; [reflexivity|lia|..]| |
      by simplify_eq; eapply Hs; [reflexivity|lia|..]].
    repeat (destruct p as [p|p|]; try (simplify_eq; by eapply Hs; [reflexivity|lia|..]));
      simplify_eq; (eapply Hs; [reflexivity|lia|done|]); intros _; simpl; f_equal; by apply Hst.
Qed.

Lemma index_new_ok max hs h statik :
  (forall n full, statik = Some (n, full) -> static_ok h n full) ->
  indexed_as max hs h (Index_new statik h) hs.
Proof.
  intros Hs. destruct statik as [[n full]|]; simpl; [|constructor].
  destruct (Hs n full eq_refl) as (g & Hn & Hg & En & Ef).
  pose proof (entry_static hs n g Hn Hg).
  destruct full; econstructor; eauto.
Qed.

(** ** The dynamic table *)

(** [table_ok t hs]: the table stores [hs] and accounts for its size.  A table
    whose array is not allocated yet stores nothing. *)
Definition table_ok t hs : Prop :=
  ((indices t = [] /\ slots t = [] /\ hs = []) \/ repr [] t hs) /\
  size t = sum_len hs /\ size t <= max_size t < 2 ^ 62.

Lemma sum_len_len hs : 32 * len hs <= sum_len hs.
Proof.
  induction hs as [|g hs IH]; [done|]. rewrite len_cons. simpl. pose proof (hlen_pos g). lia.
Qed.

(** What an indexing operation returns. *)
Definition index_post t hs h (r : Index) t' : Prop :=
  exists hs', table_ok t' hs' /\ max_size t' = max_size t /\ indexed_as (max_size t) hs h r hs'.

Lemma index_post_same t hs h r :
  table_ok t hs -> indexed_as (max_size t) hs h r hs -> index_post t hs h r t.
Proof. intros. exists hs. done. Qed.

Lemma index_post_insert t hs h r t' :
  table_ok t hs -> Header.hlen h <= max_size t -> repr [] t' (fit (max_size t) (h :: hs)) ->
  size t' = sum_len (fit (max_size t) (h :: hs)) -> max_size t' = max_size t ->
  indexed_as (max_size t) hs h r (fit (max_size t) (h :: hs)) -> index_post t hs h r t'.
Proof.
  intros (_ & _ & Hm) Hh Hr Hs Hx Hi. exists (fit (max_size t) (h :: hs)).
  split; [|done]. split; [by right|]. split; [done|].
  pose proof (fit_sum (max_size t) (h :: hs)). pose proof (hlen_pos h). lia.
Qed.

Section Occupied.
Context (t : Table) (hs : list (Header HeaderName)) (h : Header HeaderName).
Context (Hok : table_ok t hs) (Hrep : repr [] t hs) (Hlen : Header.hlen h <= max_size t).
Context (Hcap : Header.is_sensitive h = false -> len hs < capacity t).
Context (statik : option Z).
Context (Hstatik : forall n, statik = Some n -> exists g, entry hs n g /\ Header.name h = Header.name g).

Local Lemma few : len hs + 1 < 2 ^ 60.
Proof. destruct Hok as (_ & Hs & Hm). pose proof (sum_len_len hs). lia. Qed.

(** The header is added behind the newest slot [i] of its name. *)
Lemma append_spec i hi :
  hs !! i = Some hi -> Header.name hi = Header.name h ->
  oldest (Header.name h) (names (take i hs)) = None -> Header.is_sensitive h = false ->
  returns (E:=E) (append h (hash_header h) (as_usize (- inserted t + Z.of_nat i))) t (fun _ t' =>
    repr [] t' (fit (max_size t) (h :: hs)) /\ size t' = sum_len (fit (max_size t) (h :: hs)) /\
    max_size t' = max_size t).
Proof.
  intros Hi Hname Hnew Hns. pose proof few as Hfew. pose proof (lookup_lt_Some _ _ _ Hi) as Hlt.
  destruct (adding_repr t hs h Hrep i hi Hi Hname Hnew (Hcap Hns) Hfew) as [Hadd Hprev].
  unfold append. ret_step.
  eapply returns_mono; [|apply (update_size_spec [Header.name h] _ hs t); [done|exact Hprev|apply Hok|done]].
  intros r t1 (Hrep1 & [_ Hi1 Hx1 _ _] & Hs1 & _). cbv zeta in *.
  set (hs1 := fit (max_size t - Header.hlen h) hs) in *.
  assert (fit (max_size t) (h :: hs) = h :: hs1) as Efit.
  { simpl. by rewrite (proj2 (Z.leb_le _ _)) by lia. }
  assert (hs1 `prefix_of` hs) as Hpre by apply fit_prefix. pose proof (prefix_length _ _ Hpre) as Hpl.
  unfold insert. do 4 ret_step. cbn [inserted slots].
  assert (wrapping_add (as_usize (- inserted t + Z.of_nat i)) (wrapping_add (inserted t1) 1)
    = Z.of_nat (S i)) as ->.
  { unfold wrapping_add, as_usize, wrapu. rewrite Zplus_mod_idemp_l, Zplus_mod_idemp_r, Hi1.
    unfold len in Hfew. rewrite Z.mod_small; lia. }
  rewrite len_cons, (repr_len _ _ _ Hrep1).
  assert (wrapping_sub 0 (wrapping_add (inserted t1) 1) = as_usize (- inserted t - 1)) as ->.
  { unfold wrapping_add. rewrite wrapping_neg, Hi1. f_equal. lia. }
  pose proof (fun n ss => adding_done t hs h i hi Hi Hname Hnew t1 hs1 n ss Hrep1 Hpre Hi1) as Hdone.
  assert (len hs1 + 1 < 2 ^ 60) as Hfew1 by (unfold len in *; lia).
  rewrite Efit. simpl sum_len. destruct (Z.ltb_spec (Z.of_nat (S i)) (1 + len hs1)) as [Hin|Hout].
  - assert (i < length hs1)%nat as Hi' by (unfold len in Hin; lia).
    assert (hs1 !! i = Some hi) as Hlook.
    { destruct Hpre as [rest Hrest]. rewrite Hrest, lookup_app_l in Hi by lia. done. }
    ret_step.
    { unfold Bytes.index. rewrite (proj2 (Z.ltb_ge _ _)), Nat2Z.id by lia.
      change ((?x :: ?l) !! S i) with (l !! i).
      rewrite (rp_slots _ _ _ Hrep1), canon_lookup, Hlook. done. }
    ret_step; [apply set_at_ok; rewrite len_cons, (repr_len _ _ _ Hrep1); unfold len in *; lia|].
    ret_step. rewrite Nat2Z.id. split; [|split; [simpl; lia|done]].
    apply Hdone; [done|]. by rewrite decide_True.
  - ret_step. split; [|split; [simpl; lia|done]]. apply Hdone; [done|].
    rewrite decide_False by (unfold len in Hout; lia). done.
Qed.

Lemma occupied_loop_spec : forall fuel i hi,
  hs !! i = Some hi -> Header.name hi = Header.name h -> (i < fuel)%nat ->
  returns (E:=E) (occupied_loop fuel h (hash_header h) (as_usize (- inserted t + Z.of_nat i)) statik) t
    (index_post t hs h).
Proof.
  induction fuel as [|fuel IH]; intros i hi Hi Hname Hf; [lia|].
  pose proof few as Hfew. pose proof (lookup_lt_Some _ _ _ Hi) as Hlt.
  cbn [occupied_loop]. do 2 ret_step. rewrite real_index by (unfold len in Hfew; lia).
  ret_step; [by apply (slot_at t hs Hrep)|]. cbn [header next].
  destruct (Header.value_eq hi h) eqn:Ev.
  { ret_step. apply index_post_same; [done|]. econstructor; [by apply entry_dynamic|].
    symmetry. by apply value_eq_same. }
  unfold link. rewrite Hname.
  destruct (oldest (Header.name h) (take i (names hs))) as [j|] eqn:Eo.
  - apply oldest_Some in Eo as [Hj _]. apply lookup_take_Some in Hj as [Hj Hji].
    unfold names in Hj. apply list_lookup_fmap_Some in Hj as (g & Hg & Hgn). simpl.
    apply (IH j g); [done|congruence|lia].
  - simpl. destruct (Header.is_sensitive h) eqn:Es in |- *.
    { ret_step. apply index_post_same; [done|]. econstructor; [by apply entry_dynamic|done]. }
    ret_step. eapply returns_mono; [|apply (append_spec i hi); [done|done| |done]].
    + intros _ t' (H1 & H2 & H3). ret_step. eapply index_post_insert; [done..|].
      destruct statik as [n|] eqn:Est in |- *.
      * destruct (Hstatik n Est) as (g & Hg & Egn). by econstructor.
      * econstructor; [done|done|by apply entry_dynamic|done].
    + unfold names in *. by rewrite fmap_take.
Qed.

End Occupied.

Lemma capacity_pow k t : 3 <= k -> len (indices t) = 2 ^ k -> capacity t = 3 * 2 ^ (k - 2).
Proof.
  intros Hk Hl. unfold capacity, usable_capacity. rewrite Hl.
  assert (2 ^ k = 4 * 2 ^ (k - 2)) as ->.
  { change 4 with (2 ^ 2). rewrite <- Z.pow_add_r by lia. f_equal. lia. }
  rewrite Z.mul_comm, Z.div_mul by lia. lia.
Qed.

Lemma reserve_one_spec t hs :
  table_ok t hs ->
  returns (E:=E) reserve_one t (fun _ t' =>
    table_ok t' hs /\ max_size t' = max_size t /\ repr [] t' hs /\ len hs < capacity t').
Proof.
  intros Hok. pose proof Hok as ([(Hix & Hsl & ->)|Hrep] & Hs & Hm);
    unfold reserve_one; do 2 ret_step.
  - rewrite Hsl. unfold capacity at 1. rewrite Hix. change (usable_capacity (len [])) with 0.
    change (len (@nil Slot) =? 0) with true. cbv iota. ret_step. change (8 - 1) with 7.
    assert (repr [] (MkTable 7 (replicate 8 None) (slots t) (inserted t) (size t) (max_size t)) []) as Hr.
    { split; [|by rewrite Hsl|done..]. exists 3. split_and!; [lia..|done|]. split; [done|].
      intros z pos. cbn [indices]. by rewrite cyc_replicate. }
    split_and!; [|done|exact Hr|done]. split; [by right|done].
  - pose proof (rp_arr _ _ _ Hrep) as (k & Hk & Hmk & Harr). pose proof Harr as [Hl _].
    pose proof (sum_len_len hs). pose proof (capacity_pow k t ltac:(lia) Hl) as Hcap.
    assert (0 < 2 ^ (k - 2)) by (apply Z.pow_pos_nonneg; lia).
    pose proof (rp_load _ _ _ Hrep) as Hload. change (len (@nil Name)) with 0 in Hload.
    rewrite (repr_len _ _ _ Hrep). destruct (Z.eqb_spec (len hs) (capacity t)) as [Efull|Nfull].
    + rewrite (proj2 (Z.eqb_neq _ _)) by lia.
      assert (k <= 60) as Hk60.
      { apply Z.lt_succ_r. apply (Z.pow_lt_mono_r_iff 2); [lia..|].
        assert (2 ^ k = 4 * 2 ^ (k - 2)) as E4.
        { change 4 with (2 ^ 2). rewrite <- Z.pow_add_r by lia. f_equal. lia. }
        lia. }
      destruct (repr_free _ _ _ Hrep) as (q & Hq).
      assert (as_usize (Z.shiftl (len (indices t)) 1) = 2 ^ (k + 1)) as ->.
      { rewrite Hl, Z.shiftl_mul_pow2, Z.pow_add_r by lia. apply wrapu_id. unfold in_u.
        assert (2 ^ k <= 2 ^ 60) by (apply Z.pow_le_mono_r; lia). lia. }
      eapply returns_mono; [|apply (grow_spec k t q); [lia|done|done|done]].
      intros _ t' (ix & -> & Harr' & Hc').
      assert (capacity (MkTable (2 ^ (k + 1) - 1) ix (slots t) (inserted t) (size t) (max_size t))
        = 2 * capacity t) as Hcap'.
      { rewrite (capacity_pow (k + 1)), Hcap by (lia || apply Harr').
        replace (k + 1 - 2) with (k - 2 + 1) by lia. rewrite Z.pow_add_r by lia. lia. }
      assert (repr [] (MkTable (2 ^ (k + 1) - 1) ix (slots t) (inserted t) (size t) (max_size t)) hs) as Hr.
      { destruct Hrep as [_ H1 H2 H3 H4]. split; simpl; [|done|by rewrite Hc'|rewrite Hcap'; lia|done].
        exists (k + 1). split_and!; [lia..|done|done]. }
      split_and!; [|done|exact Hr|rewrite Hcap'; lia]. split; [by right|done].
    + ret_step. split_and!; [done|done|done|lia].
Qed.

Section Dynamic.
Context (t : Table) (hs : list (Header HeaderName)) (h : Header HeaderName).
Context (Hok : table_ok t hs) (Hrep : repr [] t hs) (Hlen : Header.hlen h <= max_size t).
Context (Hcap : Header.is_sensitive h = false -> len hs < capacity t).
Context (statik : option (Z * bool)).
Context (Hstatik : forall n full, statik = Some (n, full) -> static_ok h n full).
Context (k : Z) (Hk : 3 <= k <= 61) (Hmk : mask t = 2 ^ k - 1) (Harr : arr k (indices t)).
Let x := hash_header h.
Let a := - inserted t.

(** An entry of the array: the oldest slot of some name. *)
Lemma array_entry z pos :
  cyc (indices t) z = Some pos -> exists nm i g, pos = pos_of a i nm /\ hs !! i = Some g /\
    Header.name g = nm.
Proof.
  intros Hz. assert (pos ∈ contents (indices t)) as Hin.
  { apply elem_of_contents. exists (z mod len (indices t)). rewrite cyc_periodic. split; [|done].
    apply Z.mod_pos_bound. destruct Harr as [-> _]. apply Z.pow_pos_nonneg; lia. }
  rewrite (rp_heads _ _ _ Hrep) in Hin. apply elem_of_heads in Hin as (nm & i & Ho & ->).
  apply oldest_Some in Ho as [Hi _]. simpl in Hi. unfold names in Hi.
  apply list_lookup_fmap_Some in Hi as (g & -> & Hg). exists (Header.name g), i, g.
  split_and!; [|done|done]. unfold pos_of, a. change (len (@nil Name)) with 0. do 2 f_equal. lia.
Qed.

(** The probe has passed [j] entries, none of them for the name of [h]. *)
Definition passed (j : Z) : Prop := forall i, 0 <= i < j ->
  exists pos, cyc (indices t) (x + i) = Some pos /\ i <= dist (2 ^ k) pos (x + i) /\
    forall m, oldest (Header.name h) (names hs) = Some m -> pos <> pos_of a m (Header.name h).

Lemma passed_bound j : passed j -> 0 <= j -> j < 2 ^ k.
Proof.
  intros Hp Hj. destruct (repr_free _ _ _ Hrep) as (q & Hq).
  assert (0 < 2 ^ k) as Hn by (apply Z.pow_pos_nonneg; lia).
  pose proof (Z.mod_pos_bound (q - x) (2 ^ k) Hn). destruct Harr as [Hl _].
  destruct (Z.le_gt_cases (2 ^ k) j) as [Hle|]; [|done].
  destruct (Hp ((q - x) mod 2 ^ k)) as (pos & Hpos & _); [lia|].
  rewrite (periodic_eq (2 ^ k) _ _ q) in Hpos; [congruence|rewrite <- Hl; apply cyc_periodic|].
  rewrite Zplus_mod_idemp_r. f_equal. lia.
Qed.

(** At a place that Robin Hood order gives to [h] its name is not stored. *)
Lemma passed_fresh j :
  passed j -> 0 <= j -> room k (indices t) x j -> Header.name h ∉ names hs.
Proof.
  intros Hp Hj Hroom Hin. destruct Harr as [Hl HR].
  destruct (oldest (Header.name h) (names hs)) as [m|] eqn:Eo; [|by apply oldest_None in Eo].
  set (e := pos_of a m (Header.name h)).
  assert (e ∈ contents (indices t)) as (z & Hz & He)%elem_of_contents.
  { rewrite (rp_heads _ _ _ Hrep). apply elem_of_heads. exists (Header.name h), m. split; [done|].
    unfold e, pos_of, a. change (len (@nil Name)) with 0. do 2 f_equal. lia. }
  assert (periodic (2 ^ k) (cyc (indices t))) as P by (rewrite <- Hl; apply cyc_periodic).
  destruct (Z.le_gt_cases j (dist (2 ^ k) e z)) as [Hle|Hgt].
  - destruct (RH_probe (2 ^ k) _ z e j P HR He) as (pos & Hpos & Hd); [lia|].
    change (hash e) with x in *. specialize (Hroom pos Hpos). lia.
  - assert (0 < 2 ^ k) as Hn by (apply Z.pow_pos_nonneg; lia).
    pose proof (dist_range (2 ^ k) Hn e z) as Hd.
    destruct (Hp (dist (2 ^ k) e z)) as (pos & Hpos & _ & Hne); [lia|].
    apply (Hne m Eo). fold e. assert (Some pos = Some e) as [= ->]; [|done]. rewrite <- Hpos, <- He.
    apply (periodic_eq (2 ^ k)); [done|]. unfold dist. change (hash e) with x.
    rewrite Zplus_mod_idemp_r. f_equal. lia.
Qed.

Lemma vacant_ok j :
  passed j -> 0 <= j -> room k (indices t) x j ->
  returns (E:=E) (index_vacant h x j ((x + j) mod 2 ^ k) statik) t (index_post t hs h).
Proof.
  intros Hp Hj Hroom. pose proof (passed_fresh j Hp Hj Hroom) as Hfresh.
  destruct (Header.is_sensitive h) eqn:Es.
  - unfold index_vacant. rewrite Es. ret_step. apply index_post_same; [done|]. by apply index_new_ok.
  - pose proof Hok as (_ & Hs & Hm). pose proof (sum_len_len hs). destruct Harr as [Hl _].
    eapply returns_mono; [|apply (index_vacant_spec k t hs h j statik); try done; try lia].
    + intros r t' (-> & Hr & Hs' & Hx). eapply index_post_insert; [done..|].
      destruct statik as [[n full]|]; [|by constructor].
      destruct (Hstatik n full eq_refl) as (g & Hn & Hg & En & _).
      econstructor; [done|done|by apply entry_static|done].
    + split; [done|]. by apply passed_bound.
    + intros Hj0. destruct (Hp (j - 1)) as (pos & Hpos & Hd & _); [lia|]. exists pos.
      replace (hash_header h + j - 1) with (x + (j - 1)) by (unfold x; lia). done.
Qed.

Lemma probe_ok :
  returns (E:=E) (probe_loop raw_cap (fun probe dist =>
      t ← get;
      e ← lift (Bytes.index (indices t) probe);
      match e with
      | Some pos =>
          let their_dist := probe_distance (mask t) (hash pos) probe in
          let slot_idx := wrapping_add (index pos) (inserted t) in
          if their_dist <? dist then
            inr <$> index_vacant h x dist probe statik
          else
            matching ← lift (
              if hash pos =? x then
                slot ← Bytes.index (slots t) slot_idx;
                Ok (bool_decide (Header.name (header slot) = Header.name h))
              else Ok false);
            if matching : bool then
              inr <$> index_occupied h x (index pos) (fst <$> statik)
            else mret (inl (dist + 1))
      | None => inr <$> index_vacant h x dist probe statik
      end) (probe_fuel t) (desired_pos (mask t) x) 0) t (index_post t hs h).
Proof.
  assert (0 < 2 ^ k) as Hn by (apply Z.pow_pos_nonneg; lia). pose proof Harr as [Hl HR].
  rewrite Hmk, (desired_pos_mod k) by lia. pose proof (Z.mod_pos_bound x (2 ^ k) Hn).
  apply (probe_loop_spec raw_cap _ (2 ^ k) (x mod 2 ^ k) (fun j d t' =>
    t' = t /\ d = j /\ 0 <= j /\ passed j)); [done|lia| |
    split_and!; [done|done|lia|intros i Hi; lia]|unfold probe_fuel; unfold len in Hl; lia].
  intros j d t' (-> & -> & Hj & Hp). pose proof (passed_bound j Hp Hj). split; [lia|]. split; [done|].
  rewrite Zplus_mod_idemp_l. pose proof (Z.mod_pos_bound (x + j) (2 ^ k) Hn).
  do 2 ret_step. ret_step; [apply index_cyc; lia|]. cbv beta.
  rewrite <- Hl at 1. rewrite cyc_periodic.
  destruct (cyc (indices t) (x + j)) as [pos|] eqn:Epos.
  2: { ret_step. apply vacant_ok; [done|lia|]. intros pos Hpos. congruence. }
  cbv zeta. rewrite Hmk, (probe_distance_mod k), Zminus_mod_idemp_l by lia.
  change ((x + j - hash pos) mod 2 ^ k) with (dist (2 ^ k) pos (x + j)).
  destruct (Z.ltb_spec (dist (2 ^ k) pos (x + j)) j) as [Hlt|Hge].
  { ret_step. apply vacant_ok; [done|lia|]. intros pos' Hpos'. simplify_eq. lia. }
  destruct (array_entry _ _ Epos) as (nm & i & g & -> & Hg & Hgn).
  pose proof Hok as (_ & Hs & Hm). pose proof (sum_len_len hs). pose proof (lookup_lt_Some _ _ _ Hg) as Hlt.
  assert (wrapping_add (index (pos_of a i nm)) (inserted t) = Z.of_nat i) as ->.
  { simpl. apply real_index. unfold len in *. lia. }
  ret_step.
  { instantiate (1 := bool_decide (nm = Header.name h)). cbn [hash pos_of].
    destruct (Z.eqb_spec (hash_of nm) x) as [Eh|Nh].
    - rewrite (slot_at t hs Hrep i g Hg). simpl. by rewrite Hgn.
    - rewrite bool_decide_false; [done|]. intros ->. by apply Nh. }
  case_bool_decide as Enm.
  - ret_step. unfold index_occupied. do 2 ret_step. cbn [index pos_of].
    rewrite (rp_slots _ _ _ Hrep), length_canon.
    apply (occupied_loop_spec t hs h Hok Hrep Hlen Hcap _) with (hi := g); [|done|congruence|done].
    intros n Hf. destruct statik as [[n' full]|]; simplify_eq/=.
    destruct (Hstatik n full eq_refl) as (g' & Hn' & Hg' & En & _). exists g'.
    split; [by apply entry_static|done].
  - ret_step. split_and!; [done|done|lia|]. intros m Hm'. destruct (Z.eq_dec m j) as [->|].
    + eexists. split_and!; [done|done|]. intros m' [Hm1 _]%oldest_Some [= Ei _].
      pose proof (lookup_lt_Some _ _ _ Hm1) as Hlt'. unfold names in Hm1, Hlt'.
      rewrite length_fmap in Hlt'. apply usize_inj in Ei; [|unfold len in *; lia..].
      assert (i = m') as <- by lia. rewrite list_lookup_fmap, Hg in Hm1. simpl in Hm1. congruence.
    + apply Hp. lia.
Qed.
End Dynamic.

Lemma index_dynamic_spec t hs h statik :
  table_ok t hs -> Header.hlen h <= max_size t ->
  (forall n full, statik = Some (n, full) -> static_ok h n full) ->
  returns (E:=E) (index_dynamic h statik) t (index_post t hs h).
Proof.
  intros Hok Hlen Hstatik. unfold index_dynamic. do 3 ret_step.
  apply (returns_mono _ _ (fun _ t1 => table_ok t1 hs /\ max_size t1 = max_size t /\
    (repr [] t1 hs \/ indices t1 = []) /\
    (Header.is_sensitive h = false -> len hs < capacity t1))).
  2: { destruct ((Header.hlen h + size t <? max_size t) || negb (Header.is_sensitive h)) eqn:Eb.
    - eapply returns_mono; [|apply (reserve_one_spec t hs Hok)].
      intros _ t1 (Hok1 & Hm1 & Hr1 & Hc1). auto.
    - ret_step. split_and!; [done|done| |].
      + destruct Hok as ([(Hix & _)|Hr] & _); auto.
      + apply orb_false_elim in Eb as [_ Eb]. apply negb_false_iff in Eb. congruence. }
  intros _ t1 (Hok1 & Hm1 & Hst & Hns). do 2 ret_step.
  destruct (Z.eqb_spec (len (indices t1)) 0) as [E0|N0].
  - ret_step. exists hs. split_and!; [done|done|]. by apply index_new_ok.
  - destruct Hst as [Hr1|Hix]; [|by rewrite Hix in N0].
    destruct (rp_arr _ _ _ Hr1) as (k & Hk & Hmk & Harr).
    eapply returns_mono; [|apply (probe_ok t1 hs h Hok1 Hr1 ltac:(lia) Hns statik Hstatik k Hk Hmk Harr)].
    intros r t2 (hs' & H1 & H2 & H3). rewrite Hm1 in *. exists hs'. by split_and!.
Qed.

Lemma index_spec t hs h :
  table_ok t hs -> Header.hlen h < 2 ^ 62 ->
  returns (E:=E) (index_ h) t (index_post t hs h).
Proof.
  intros Hok Hh. unfold index_. pose proof (index_static_ok h) as Hst.
  assert (indexed_as (max_size t) hs h (Index_new (index_static h) h) hs) as Hnew
    by (apply index_new_ok; eauto).
  destruct (Header.skip_value_index h); [ret_step; by apply index_post_same|].
  assert (returns (E:=E) (t ← get;
    if as_usize (max_size t * 3) <? as_usize (Header.hlen h * 4) then mret (Index_new (index_static h) h)
    else index_dynamic h (index_static h)) t (index_post t hs h)) as Hdyn.
  { pose proof Hok as (_ & Hsz & Hm). pose proof (hlen_pos h). do 2 ret_step.
    replace (as_usize (max_size t * 3)) with (max_size t * 3)
      by (symmetry; apply wrapu_id; unfold in_u; pose proof (sum_len_nonneg hs); lia).
    replace (as_usize (Header.hlen h * 4)) with (Header.hlen h * 4)
      by (symmetry; apply wrapu_id; unfold in_u; lia).
    destruct (Z.ltb_spec (max_size t * 3) (Header.hlen h * 4)).
    - ret_step. by apply index_post_same.
    - apply index_dynamic_spec; [done|lia|eauto]. }
  destruct (index_static h) as [[n [|]]|]; [|done|done]. ret_step. by apply index_post_same.
Qed.

Lemma resize_spec t hs n :
  table_ok t hs -> 0 <= n < 2 ^ 62 ->
  returns (E:=E) (resize n) t (fun _ t' => table_ok t' (fit n hs) /\ max_size t' = n).
Proof.
  intros (Hr & Hs & Hm) Hn. unfold resize. do 2 ret_step.
  destruct (Z.eqb_spec n 0) as [->|Hn0].
  - ret_step. rewrite fit_neg by lia. split; [|done]. split; [|done].
    destruct Hr as [(Hix & Hsl & _)|Hrep]; [left; simpl; by rewrite Hix|right].
    destruct Hrep as [(k & Hk & Hmk & Hl & _) _ _ Hload _]. split; simpl.
    + exists k. split_and!; [lia..|done|]. split; [unfold len in *; by rewrite length_replicate|].
      intros z pos. by rewrite cyc_replicate.
    + done.
    + by rewrite contents_replicate.
    + unfold capacity in *. simpl. unfold len in *. rewrite length_replicate. simpl in *. lia.
    + done.
  - unfold converge. ret_step. do 2 ret_step. destruct Hr as [(Hix & Hsl & ->)|Hrep].
    + simpl. simpl in Hs. rewrite Hsl. simpl. do 2 ret_step. simpl. rewrite Hs.
      rewrite (proj2 (Z.ltb_ge _ _)) by lia. do 2 ret_step. split; [|done]. split; [by left|]. simpl. lia.
    + eapply returns_mono; [|apply (converge_loop_spec [] None hs _ _ _ 0)].
      * intros _ t' (Hr' & [] & Hs' & _). simpl in *. ret_step. rewrite Z.sub_0_r, Z.add_0_r in *.
        pose proof (fit_sum n hs). split; [|done]. split; [by right|]. lia.
      * by destruct Hrep; split.
      * apply prev_ok_none.
      * simpl. lia.
      * simpl. lia.
      * simpl. rewrite (rp_slots _ _ _ Hrep), length_canon. lia.
Qed.

Lemma new_spec max : 0 <= max < 2 ^ 62 -> table_ok (HTable.new max 0) [].
Proof. intros H. split; [by left|]. simpl. lia. Qed.

End Index.

(** ** The table as a list *)

Section Ops.
Context `{NH : NameHasher} {E : Type}.
Implicit Types (h : Header HeaderName) (hs : list (Header HeaderName)).

(** The calls the encoder makes on its table. *)
Inductive table_op :=
  | IndexOp h
  | ResizeOp (n : Z).

Definition op_ok (op : table_op) : Prop :=
  match op with IndexOp h => Header.hlen h < 2 ^ 62 | ResizeOp n => 0 <= n < 2 ^ 62 end.

Definition run_op (op : table_op) : SE Table E (option Index) :=
  match op with
  | IndexOp h => Some <$> index_ h
  | ResizeOp n => (fun _ => None) <$> resize n
  end.
Fixpoint run_ops (ops : list table_op) : SE Table E (list (option Index)) :=
  match ops with
  | [] => mret []
  | op :: ops => r ← run_op op; cons r <$> run_ops ops
  end.

(** The same calls on a limit and a list of fields, newest first: the dynamic
    table of RFC 7541. *)
Inductive list_op : Z * list (Header HeaderName) -> table_op -> option Index ->
    Z * list (Header HeaderName) -> Prop :=
  | lo_index max hs h r hs' :
      indexed_as max hs h r hs' -> list_op (max, hs) (IndexOp h) (Some r) (max, hs')
  | lo_resize max hs n : list_op (max, hs) (ResizeOp n) None (n, fit n hs).
Inductive list_ops : Z * list (Header HeaderName) -> list table_op -> list (option Index) ->
    Z * list (Header HeaderName) -> Prop :=
  | los_nil s : list_ops s [] [] s
  | los_cons s op r s' ops rs s'' :
      list_op s op r s' -> list_ops s' ops rs s'' -> list_ops s (op :: ops) (r :: rs) s''.

Lemma run_op_spec op t hs :
  table_ok t hs -> op_ok op ->
  returns (run_op op) t (fun r t' => exists hs', table_ok t' hs' /\
    list_op (max_size t, hs) op r (max_size t', hs')).
Proof.
  intros Ht Hop. destruct op as [h|n]; simpl in *; ret_step.
  - eapply returns_mono; [|by apply index_spec]. intros r t' (hs' & Ht' & -> & Hi).
    exists hs'. split; [done|]. by constructor.
  - eapply returns_mono; [|by apply resize_spec]. intros [] t' [Ht' ->].
    exists (fit n hs). split; [done|]. constructor.
Qed.

Lemma run_ops_spec ops : forall t hs,
  table_ok t hs -> Forall op_ok ops ->
  returns (run_ops ops) t (fun rs t' => exists hs', table_ok t' hs' /\
    list_ops (max_size t, hs) ops rs (max_size t', hs')).
Proof.
  induction ops as [|op ops IH]; intros t hs Ht Hops; cbn [run_ops].
  { ret_step. exists hs. split; [done|constructor]. }
  apply Forall_cons in Hops as [Hop Hops]. ret_step.
  eapply returns_mono; [|by apply run_op_spec]. intros r t1 (hs1 & Ht1 & H1). ret_step.
  eapply returns_mono; [|by apply (IH t1 hs1)]. intros rs t2 (hs2 & Ht2 & H2).
  exists hs2. split; [done|]. by econstructor.
Qed.

(** C5. The encoder's table, a ring of slots found through a Robin Hood hash
    index with links between the entries of one name, behaves as the list of
    fields it stands for: from a new table every sequence of [index] and [resize]
    runs without a panic and gives the answers of the list, evicting from its end
    to stay within the limit. *)
Theorem encoder_table_refines max ops :
  0 <= max < 2 ^ 62 -> Forall op_ok ops ->
  exists t rs hs, run_ops ops (HTable.new max 0) = (t, Ok rs) /\
    list_ops (max, []) ops rs (max_size t, hs) /\
    header <$> slots t = hs /\ size t = sum_len hs /\ sum_len hs <= max_size t.
Proof.
  intros Hmax Hops.
  destruct (proj1 (returns_Ok _ _ _) (run_ops_spec ops _ _ (new_spec max Hmax) Hops))
    as (t & rs & Er & hs & (Hr & Hs & Hm) & Hl).
  exists t, rs, hs. split_and!; [done|done| |done|lia].
  destruct Hr as [(_ & -> & ->)|Hrep]; [done|]. rewrite (rp_slots _ _ _ Hrep).
  apply list_eq. intros i. unfold canon. rewrite list_lookup_fmap, list_lookup_imap. by destruct (hs !! i).
Qed.
End Ops.

Import ModelHttp ModelHash.

Lemma encoder_table_refines_witness :
  exists t rs hs, run_ops (E:=()) [IndexOp (HMethod GET); ResizeOp 0] (HTable.new 4096 0) = (t, Ok rs) /\
    list_ops (4096, []) [IndexOp (HMethod GET); ResizeOp 0] rs (max_size t, hs) /\
    header <$> slots t = hs /\ size t = sum_len hs /\ sum_len hs <= max_size t.
Proof.
  apply (encoder_table_refines 4096 [IndexOp (HMethod GET); ResizeOp 0]); [lia|].
  repeat constructor; vm_compute; congruence.
Defined.
