(* ===== verification/HpackEncoder.v ===== *)
(** * The HPACK encoder ([http/h2/hpack/encoder.rs])

    The encoder state, the representation of each answer of the table, and the
    encode loop with its suspension when the destination is full.

    The second part shows that the decoder reads what is written. *)

From S2P Require Import Prelude Bytes Huffman HttpTypes HpackPrim HpackTable HuffmanCorrect FramesCorrect.

Import HTable.

Module HEncoder.

(** [http/h2/hpack/encoder.rs] SizeUpdate *)
Inductive SizeUpdate :=
  | One (val : Z)
  | Two (min max : Z).

(** [http/h2/hpack/encoder.rs] encode_size_update *)
Definition encode_size_update `{BufMut D} (val : Z) : SE D EncoderError () :=
  encode_int val 5 0x20.

Section Encoder.
Context `{NH : NameHasher} `{BM : BytesMut B}.

(** [http/h2/hpack/encoder.rs] Encoder *)
Record Encoder := MkEncoder { table : Table; size_update : option SizeUpdate }.

(** [http/h2/hpack/encoder.rs] EncodeState *)
Record EncodeState := MkEncodeState { es_index : Index; es_value : option HeaderValue }.

(** [http/h2/hpack/encoder.rs] Encode *)
Inductive Encode :=
  | Full
  | Partial (state : EncodeState).

(** [http/h2/hpack/encoder.rs] Encoder::new *)
Definition new (max_size capacity : Z) : Encoder :=
  MkEncoder (HTable.new max_size capacity) None.

(** [http/h2/hpack/encoder.rs] Encoder as Default::default *)
Definition default : Encoder := new 4096 0.

(** [http/h2/hpack/encoder.rs] Encoder::update_max_size *)
Definition update_max_size (val : Z) (e : Encoder) : Encoder :=
  let set u := MkEncoder (table e) (Some u) in
  match size_update e with
  | Some (One old) =>
      if old <? val then
        if max_size (table e) <? old then set (One val) else set (Two old val)
      else set (One val)
  | Some (Two min _) => if val <? min then set (One val) else set (Two min val)
  | None => if negb (val =? max_size (table e)) then set (One val) else e
  end.

(** [&mut self] and the destination. *)
Abbreviation St := (Encoder * Limit B)%type.
Definition on_dst {E A} (c : SE (Limit B) E A) : SE St E A :=
  zoom snd (fun dst s => (s.1, dst)) c.
Definition on_table {E A} (c : SE Table E A) : SE St E A :=
  zoom (fun s => table s.1) (fun t s => (MkEncoder t (size_update s.1), s.2)) c.

(** [http/h2/hpack/encoder.rs] encode_not_indexed *)
Definition encode_not_indexed (name : Z) (value : list Z) (sensitive : bool) :
    SE (Limit B) EncoderError () :=
  _ ← (if sensitive then encode_int name 4 0x10 else encode_int name 4 0);
  encode_str value.

(** [http/h2/hpack/encoder.rs] encode_not_indexed2 *)
Definition encode_not_indexed2 (name value : list Z) (sensitive : bool) :
    SE (Limit B) EncoderError () :=
  rem ← gets remaining_mut;
  if rem =? 0 then throw BufferOverflow
  else
    _ ← (if sensitive then write (fun dst => put_u8 dst 0x10) else write (fun dst => put_u8 dst 0));
    _ ← encode_str name;
    encode_str value.

(** [http/h2/hpack/encoder.rs] Encoder::encode_size_updates *)
Definition encode_size_updates : SE St EncoderError () :=
  u ← gets (fun s => size_update s.1);
  _ ← modify (fun s => (MkEncoder (table s.1) None, s.2));
  match u with
  | Some (One val) =>
      _ ← on_table (resize val);
      on_dst (encode_size_update val)
  | Some (Two min max) =>
      _ ← on_table (resize min);
      _ ← on_table (resize max);
      _ ← on_dst (encode_size_update min);
      on_dst (encode_size_update max)
  | None => mret tt
  end.

(** [http/h2/hpack/encoder.rs] Encoder::encode_header *)
Definition encode_header (index : Index) : SE St EncoderError () :=
  t ← gets (fun s => table s.1);
  match index with
  | Indexed idx _ => on_dst (encode_int idx 7 0x80)
  | IName idx _ =>
      header ← lift (resolve t index);
      on_dst (encode_not_indexed idx (Header.value_slice header) (Header.is_sensitive header))
  | Inserted _ =>
      header ← lift (resolve t index);
      _ ← lift (assert_ (negb (Header.is_sensitive header)));
      rem ← gets (fun s => remaining_mut s.2);
      if rem =? 0 then throw BufferOverflow
      else
        _ ← on_dst (write (fun dst => put_u8 dst 0x40));
        _ ← on_dst (encode_str (Name.as_slice (Header.name header)));
        on_dst (encode_str (Header.value_slice header))
  | InsertedValue idx _ =>
      header ← lift (resolve t index);
      _ ← lift (assert_ (negb (Header.is_sensitive header)));
      _ ← on_dst (encode_int idx 6 0x40);
      on_dst (encode_str (Header.value_slice header))
  | NotIndexed _ =>
      header ← lift (resolve t index);
      on_dst (encode_not_indexed2 (Name.as_slice (Header.name header))
                (Header.value_slice header) (Header.is_sensitive header))
  end.

(** [http/h2/hpack/encoder.rs] Encoder::encode_header_without_name *)
Definition encode_header_without_name (last : Index) (value : HeaderValue) : SE St EncoderError () :=
  t ← gets (fun s => table s.1);
  match last with
  | NotIndexed _ =>
      last ← lift (resolve t last);
      on_dst (encode_not_indexed2 (Name.as_slice (Header.name last))
                (value_as_ref value) (value_is_sensitive value))
  | _ =>
      idx ← lift (resolve_idx last);
      on_dst (encode_not_indexed idx (value_as_ref value) (value_is_sensitive value))
  end.

(** [res.is_err()] of a call that may fail: the state it leaves is kept. *)
Definition is_err {S E E' A} (c : SE S E A) : SE S E' bool := fun s =>
  match c s with
  | (s, Ok _) => (s, Ok false)
  | (s, Err _) => (s, Ok true)
  | (s, Panic) => (s, Panic)
  end.

(** The [for header in headers] loop of [encode]; the iterator that is left is
    returned with the result. *)
Fixpoint encode_loop {E} (headers : list (Header (option HeaderName))) (last_index : option Index) :
    SE St E (Encode * list (Header (option HeaderName))) :=
  match headers with
  | [] => mret (Full, [])
  | header :: headers =>
      pos ← gets (fun s => position s.2);
      match Header.reify header with
      | Ok header =>
          index ← on_table (index_ header);
          failed ← is_err (encode_header index);
          if failed : bool then
            _ ← on_dst (modify (fun dst => rewind dst pos));
            mret (Partial (MkEncodeState index None), headers)
          else encode_loop headers (Some index)
      | Err value =>
          last ← lift (unwrap last_index);
          failed ← is_err (encode_header_without_name last value);
          if failed : bool then
            _ ← on_dst (modify (fun dst => rewind dst pos));
            mret (Partial (MkEncodeState last (Some value)), headers)
          else encode_loop headers last_index
      | Panic => panic
      end
  end.

(** [http/h2/hpack/encoder.rs] Encoder::encode *)
Definition encode {E} (resume : option EncodeState) (headers : list (Header (option HeaderName))) :
    SE St E (Encode * list (Header (option HeaderName))) :=
  failed ← is_err encode_size_updates;
  if failed : bool then panic
  else
    match resume with
    | Some resume =>
        pos ← gets (fun s => position s.2);
        failed ← is_err (match es_value resume with
                         | Some value => encode_header_without_name (es_index resume) value
                         | None => encode_header (es_index resume)
                         end);
        if failed : bool then
          _ ← on_dst (modify (fun dst => rewind dst pos));
          mret (Partial resume, headers)
        else encode_loop headers (Some (es_index resume))
    | None => encode_loop headers None
    end.

End Encoder.
End HEncoder.

(** * Encoder and decoder stay in step

    What the encoder writes for a list of headers is read back by the decoder
    as the same fields, and the two dynamic tables stay equal entry by entry,
    also when the block is cut where the destination is full. *)

(** ** Failed writes only append

    [rewind] truncates the destination to where it was; this restores it
    because everything the encoder writes goes behind that point. *)

Section Keeps.
Context `{HB : BufMut B} (pre : list Z).

Definition grown (dst : B) : Prop := pre `prefix_of` buf_bytes dst /\ 0 <= remaining_mut dst.

Lemma grown_put dst s : grown dst -> len s <= remaining_mut dst -> grown (put_slice dst s).
Proof.
  intros [Hp Hr] Hs. split.
  - rewrite put_slice_bytes by done. by apply prefix_app_r.
  - rewrite put_slice_remaining by done. lia.
Qed.

Lemma grown_put_u8 dst x :
  grown dst -> remaining_mut dst <> 0 ->
  grown (put_u8 dst x) /\ remaining_mut (put_u8 dst x) = remaining_mut dst - 1.
Proof.
  intros Hg Hr. pose proof Hg as [_ H0]. assert (len [x] <= remaining_mut dst) by (unfold len; simpl; lia).
  split; [by apply grown_put|]. unfold put_u8. by rewrite put_slice_remaining.
Qed.

Lemma drain_grown fuel : forall bits bits_left rem dst,
  grown dst -> rem = remaining_mut dst ->
  let '(dst', r) := drain fuel bits bits_left rem dst in
  grown dst' /\ forall b l rem', r = Ok (b, l, rem') -> rem' = remaining_mut dst'.
Proof.
  induction fuel as [|fuel IH]; intros bits bits_left rem dst Hg ->; cbn [drain]; [naive_solver|].
  destruct (bits_left <=? 32); [|naive_solver].
  destruct (Z.eqb_spec (remaining_mut dst) 0) as [|Hne]; [naive_solver|].
  destruct (grown_put_u8 dst (as_u8 (Z.shiftr bits 32)) Hg Hne) as [Hg' Hr']. by apply IH.
Qed.

Lemma huff_encode_loop_grown s : forall bits bits_left rem dst,
  grown dst -> rem = remaining_mut dst ->
  let '(dst', r) := encode_loop s bits bits_left rem dst in
  grown dst' /\ forall b l rem', r = Ok (b, l, rem') -> rem' = remaining_mut dst'.
Proof.
  induction s as [|x s IH]; intros bits bits_left rem dst Hg ->; cbn [encode_loop]; [naive_solver|].
  destruct (ENCODE_TABLE !! Z.to_nat x) as [[nbits code]|]; [|naive_solver].
  match goal with |- context [drain ?f ?b ?l ?r dst] =>
    pose proof (drain_grown f b l r dst Hg eq_refl) as H; destruct (drain f b l r dst) as [dst1 r1] end.
  destruct r1 as [[[bits1 bl1] rem1]|e|]; [|naive_solver|naive_solver].
  destruct H as [Hg1 Hr1]. apply IH; [done|]. by eapply Hr1.
Qed.

Lemma huff_encode_grown s dst : grown dst -> grown (encode s dst).1.
Proof.
  intros Hg. unfold encode.
  pose proof (huff_encode_loop_grown s 0 40 _ dst Hg eq_refl) as H.
  destruct (encode_loop s 0 40 _ dst) as [dst1 [[[bits bl] rem]|e|]]; [|naive_solver|naive_solver].
  destruct H as [Hg1 Hr1]. specialize (Hr1 _ _ _ eq_refl). subst rem.
  destruct (negb (bl =? 40)); [|done].
  destruct (Z.eqb_spec (remaining_mut dst1) 0); [done|]. by apply grown_put_u8.
Qed.

Lemma encode_int_loop_grown fuel : forall v rem dst,
  grown dst -> rem = remaining_mut dst ->
  let '(dst', r) := encode_int_loop fuel v rem dst in
  grown dst' /\ forall v' rem', r = Ok (v', rem') -> rem' = remaining_mut dst'.
Proof.
  induction fuel as [|fuel IH]; intros v rem dst Hg ->; cbn [encode_int_loop]; [naive_solver|].
  destruct (128 <=? v); [|naive_solver].
  destruct (Z.eqb_spec (remaining_mut dst) 0) as [|Hne]; [naive_solver|].
  unfold write. rewrite bind_modify.
  destruct (grown_put_u8 dst (Z.lor 0x80 (as_u8 v)) Hg Hne) as [Hg' Hr']. by apply IH.
Qed.

Lemma encode_int_grown v p first dst : grown dst -> grown (encode_int v p first dst).1.
Proof.
  intros Hg. unfold encode_int. rewrite bind_gets.
  destruct (Z.eqb_spec (remaining_mut dst) 0) as [|Hne]; [done|].
  destruct (encode_int_one_byte v p); [by apply grown_put_u8|]. cbv zeta.
  destruct (_ <? _); [done|]. unfold write. rewrite bind_modify.
  match goal with |- context [put_u8 dst ?x] =>
    destruct (grown_put_u8 dst x Hg Hne) as [Hg' Hr'] end.
  match goal with |- context [encode_int_loop 10 ?v' ?rem] =>
    pose proof (encode_int_loop_grown 10 v' rem _ Hg' (eq_sym Hr')) as H end.
  unfold mbind, SE_bind.
  destruct (encode_int_loop 10 _ _ _) as [dst1 [[v1 rem1]|e|]]; [|naive_solver|naive_solver].
  destruct H as [Hg1 Hr1]. specialize (Hr1 _ _ eq_refl). subst rem1.
  destruct (Z.eqb_spec (remaining_mut dst1) 0); [done|]. by apply grown_put_u8.
Qed.
End Keeps.

(** An invariant that a computation maintains however it ends. *)
Definition preserves {T E A} (I : T -> Prop) (c : SE T E A) : Prop := forall s, I s -> I (c s).1.

Section Preserves.
Context {T E : Type} (I : T -> Prop).

Lemma preserves_bind {A A'} (c : SE T E A) (k : A -> SE T E A') :
  preserves I c -> (forall a, preserves I (k a)) -> preserves I (c ≫= k).
Proof.
  intros Hc Hk s Hs. specialize (Hc s Hs). unfold mbind, SE_bind.
  destruct (c s) as [s' [a|e|]]; [by apply Hk|done|done].
Qed.
Lemma preserves_bind_gets {A A'} (f : T -> A) (k : A -> SE T E A') :
  (forall s, I s -> I (k (f s) s).1) -> preserves I (gets f ≫= k).
Proof. intros H s Hs. rewrite bind_gets. by apply H. Qed.
Lemma preserves_lift {A} (r : outcome E A) : preserves I (lift r).
Proof. by intros s. Qed.
Lemma preserves_throw {A} e : preserves I (throw e : SE T E A).
Proof. by intros s. Qed.
Lemma preserves_for n (body : Z -> SE T E ()) : forall from,
  (forall i, from <= i < from + Z.of_nat n -> preserves I (body i)) -> preserves I (for_range n from body).
Proof.
  induction n as [|n IH]; intros from H; cbn [for_range]; [by intros s|].
  apply preserves_bind; [apply H; lia|]. intros []. apply IH. intros i Hi. apply H. lia.
Qed.
End Preserves.

Lemma slice_len {E A} (l r : list A) i n : slice l i n = (Ok r : outcome E _) -> len r <= n.
Proof.
  unfold slice, slice_from, slice_to. destruct (_ && _); simpl; [|done].
  destruct ((0 <=? n) && _) eqn:Eb; [|done]. intros [= <-]. apply andb_prop in Eb as [Hn _].
  apply Z.leb_le in Hn. unfold len. rewrite length_take. lia.
Qed.

Section KeepStr.
Context `{BM : BytesMut B} (pre : list Z).
Implicit Types dst : Limit B.

Lemma set_byte_grown {E} i x : len pre <= i -> preserves (grown pre) (set_byte (E:=E) i x : SE (Limit B) E ()).
Proof.
  intros Hi dst [[rest Hp] Hr]. unfold set_byte.
  destruct ((0 <=? i) && (i <? position dst)) eqn:Eb; [|by split; [exists rest|]].
  apply andb_prop in Eb as [H0 Hlt]. apply Z.leb_le in H0. apply Z.ltb_lt in Hlt.
  unfold position in Hlt. change (buf_bytes (limit_inner dst)) with (buf_bytes dst) in Hlt.
  assert (Z.to_nat i < length (buf_bytes (limit_inner dst)))%nat as Hl.
  { change (buf_bytes (limit_inner dst)) with (buf_bytes dst). unfold len in Hlt. lia. }
  pose proof (bm_set_bytes (limit_inner dst) (Z.to_nat i) x Hl) as Eb. split; simpl in *.
  - rewrite Eb, Hp. unfold len in Hi. rewrite insert_app_r_alt by lia. by apply prefix_app_r.
  - rewrite bm_remaining in *. rewrite Eb. unfold len in *. rewrite length_insert. lia.
Qed.

Lemma encode_str_grown s : preserves (grown pre) (encode_str (B:=B) s).
Proof.
  apply preserves_bind_gets. intros dst Hg.
  destruct (Z.eqb_spec (remaining_mut dst) 0) as [|Hne]; [done|].
  destruct (negb (len s =? 0)); [|by apply grown_put_u8].
  rewrite bind_gets. unfold write. rewrite bind_modify.
  destruct (grown_put_u8 pre dst 0 Hg Hne) as [Hg' _].
  assert (len pre <= position dst) as Hpos.
  { destruct Hg as [[rest Hp] _]. unfold position.
    change (buf_bytes (limit_inner dst)) with (buf_bytes dst). rewrite Hp, len_app.
    pose proof (len_nonneg rest). lia. }
  revert Hg'. generalize (put_u8 dst 0). apply preserves_bind; [intros d; apply huff_encode_grown|].
  intros []. apply preserves_bind_gets. intros dst1 Hg1. cbv zeta.
  destruct (encode_int_one_byte _ 7); [by apply set_byte_grown|].
  destruct (encode_int _ _ _ _) as [head_dst r]. revert dst1 Hg1.
  generalize (position dst) Hpos. intros idx Hidx dst1 Hg1. generalize (position dst1 - (idx + 1)).
  intros huff_len. revert dst1 Hg1. apply preserves_bind; [apply preserves_lift|]. intros [].
  apply preserves_bind_gets. intros dst2 Hg2.
  destruct (Z.ltb_spec (remaining_mut dst2) (PLACEHOLDER_LEN - remaining_mut head_dst)) as [|Hroom]; [done|].
  destruct (slice _ 1 _) as [rest|e|] eqn:Er; [|done|done]. rewrite bind_lift_Ok, bind_modify.
  apply slice_len in Er. assert (grown pre (put_slice dst2 rest)) as Hg3 by (apply grown_put; [done|lia]).
  revert Hg3. generalize (put_slice dst2 rest).
  assert (0 <= PLACEHOLDER_LEN - remaining_mut head_dst) as Hh.
  { pose proof (len_nonneg rest). lia. }
  apply preserves_bind; [|intros []].
  - apply preserves_for. intros i Hi. apply preserves_bind; [by intros s0|]. intros x.
    apply set_byte_grown. lia.
  - apply preserves_for. intros i Hi. apply preserves_bind; [apply preserves_lift|]. intros x.
    apply set_byte_grown. lia.
Qed.
End KeepStr.

(** ** What each call writes *)

Section Sends.
Context `{BM : BytesMut B}.
Implicit Types (dst : Limit B) (P : list Z -> Prop).

(** [sends n c P]: with at most [2^28] bytes of room, [c] appends at most [n] bytes
    that satisfy [P], or runs out of room having only appended, which happens with
    less than [n] bytes of room only; it never panics. *)
Definition sends (n : Z) (c : SE (Limit B) EncoderError ()) P : Prop :=
  forall dst, 0 <= remaining_mut dst <= 2 ^ 28 ->
  match c dst with
  | (dst', Ok _) => exists out, P out /\ buf_bytes dst' = buf_bytes dst ++ out /\
      remaining_mut dst' = remaining_mut dst - len out /\ len out <= Z.min n (remaining_mut dst)
  | (dst', Err _) => buf_bytes dst `prefix_of` buf_bytes dst' /\ remaining_mut dst < n
  | (_, Panic) => False
  end.

Lemma sends_mono n n' c P P' : n <= n' -> (forall out, P out -> P' out) -> sends n c P -> sends n' c P'.
Proof.
  intros Hn HP Hc dst Hr. specialize (Hc dst Hr). destruct (c dst) as [dst' [[]|e|]]; [|destruct Hc; split; [done|lia]|done].
  destruct Hc as (out & ? & ? & ? & ?). exists out. split_and!; [by apply HP|done|done|lia].
Qed.

Lemma sends_ext n c c' P : (forall dst, c dst = c' dst) -> sends n c' P -> sends n c P.
Proof. intros Hc H dst Hr. rewrite Hc. by apply H. Qed.

Lemma sends_bind n n' c c' P P' :
  sends n c P -> sends n' c' P' ->
  sends (n + n') (_ ← c; c') (fun out => exists o1 o2, out = o1 ++ o2 /\ P o1 /\ P' o2).
Proof.
  intros Hc Hc' dst Hr. specialize (Hc dst Hr). unfold mbind, SE_bind.
  destruct (c dst) as [dst1 [[]|e|]]; [| |done].
  - destruct Hc as (o1 & HP & E1 & R1 & L1).
    pose proof (len_nonneg o1). specialize (Hc' dst1 ltac:(lia)).
    destruct (c' dst1) as [dst2 [[]|e|]]; [| |done].
    + destruct Hc' as (o2 & HP' & E2 & R2 & L2). exists (o1 ++ o2). split; [eauto|].
      rewrite E2, E1, len_app, <- (assoc_L (++)). split_and!; [done|lia|lia].
    + destruct Hc' as [Hc' Hlt]. rewrite E1 in Hc'. split; [|lia]. etrans; [|exact Hc']. by apply prefix_app_r.
  - destruct Hc as [? ?]. split; [done|]. assert (0 <= n'); [|lia].
    destruct (Z.le_gt_cases 0 n') as [|Hneg]; [done|exfalso]. specialize (Hc' dst Hr).
    destruct (c' dst) as [dst2 [[]|e'|]]; [destruct Hc' as (o2 & _ & _ & _ & ?); pose proof (len_nonneg o2); lia|lia|done].
Qed.

Lemma sends_put x : sends 1 (rem ← gets remaining_mut;
  if rem =? 0 then throw BufferOverflow else write (fun dst => put_u8 dst x)) (fun out => out = [x]).
Proof.
  intros dst Hr. rewrite bind_gets. destruct (Z.eqb_spec (remaining_mut dst) 0).
  { change (buf_bytes dst `prefix_of` buf_bytes dst /\ remaining_mut dst < 1). split; [done|lia]. }
  assert (len [x] <= remaining_mut dst) as Hl by (change (len [x]) with 1; lia). exists [x].
  split_and!; [done|by apply put_slice_bytes|by apply put_slice_remaining|change (len [x]) with 1 in *; lia].
Qed.

Lemma sends_int p first v :
  1 <= p <= 8 -> int_ok p v -> sends 5 (encode_int v p first) (fun out => out = int_bytes p first v).
Proof.
  intros Hp Hv dst Hr. assert (0 <= remaining_mut dst) as Hr0 by lia. pose proof (int_bytes_len p first v Hp Hv) as Hib.
  pose proof (encode_int_emits (B:=Limit B) p first v Hp Hv dst Hr0) as H.
  destruct (Z.leb_spec (len (int_bytes p first v)) (remaining_mut dst)) as [Hle|Hgt].
  - destruct H as (dst' & -> & E1 & R1). exists (int_bytes p first v). split_and!; [done|done|done|lia].
  - pose proof (encode_int_grown (buf_bytes dst) v p first dst) as Hg.
    destruct (encode_int v p first dst) as [dst' r]; simpl in H, Hg. subst r. split; [|lia].
    apply Hg. by split.
Qed.

(** Room that is enough for a string literal. *)
Definition str_room (s : list Z) : Z := 6 + (len (codes s) + 7) / 8.

Lemma huff_exists s : is_bytes s -> len (codes s) <= 2 ^ 34 -> exists h, huff_of s h.
Proof.
  intros Hs Hl. pose proof (encode_writes s (MkLimit ([] : list Z) (2 ^ 31)) Hs) as H.
  rewrite (proj2 (Z.leb_le _ _)) in H by (change (remaining_mut _) with (2 ^ 31); lia).
  destruct H as (dst' & h & k & _ & _ & Hh & Hk & Hb & _); [done|]. exists h. split; [done|]. by exists k.
Qed.

Lemma str_wire_room s out : str_wire s out -> len out <= 2 ^ 28 -> len out < str_room s.
Proof.
  unfold str_room. intros [[-> ->]|(_ & h & Hh & ->)] Hl.
  - change (len (codes [])) with 0. done.
  - apply huff_of_len in Hh. pose proof (len_nonneg h). rewrite len_app in *.
    assert (len (int_bytes 7 128 (len h)) <= 5).
    { pose proof (len_nonneg (int_bytes 7 128 (len h))). apply int_bytes_len; [lia|]. unfold int_ok. lia. }
    assert (len h <= (len (codes s) + 7) / 8) by (apply Z.div_le_lower_bound; lia). lia.
Qed.

Lemma str_room_enough s : is_bytes s -> str_room s <= 2 ^ 28 -> exists out, str_wire s out /\ len out < str_room s.
Proof.
  intros Hs Hr. destruct (decide (s = [])) as [->|Hne]; [exists [0]; split; [by left|done]|]. unfold str_room in *.
  assert (len (codes s) <= 2 ^ 34) as Hc.
  { pose proof (Z.div_mod (len (codes s) + 7) 8). pose proof (Z.mod_pos_bound (len (codes s) + 7) 8). lia. }
  destruct (huff_exists s Hs Hc) as [h Hh]. pose proof (huff_of_len s h Hh) as Hl. pose proof (len_nonneg h).
  assert (len h <= (len (codes s) + 7) / 8) by (apply Z.div_le_lower_bound; lia).
  exists (int_bytes 7 0x80 (len h) ++ h). split; [right; split; [done|by exists h]|].
  assert (len (int_bytes 7 128 (len h)) <= 5) by (apply int_bytes_len; [lia|unfold int_ok; lia]). rewrite len_app. lia.
Qed.

Lemma sends_str s :
  is_bytes s -> sends (str_room s) (encode_str s) (fun out => str_wire s out /\ len (codes s) <= 2 ^ 31).
Proof.
  intros Hs dst Hr. pose proof (encode_str_spec s dst Hs Hr) as H.
  assert (0 <= remaining_mut dst) as Hr0 by lia.
  pose proof (encode_str_grown (buf_bytes dst) s dst (conj (reflexivity _) Hr0)) as [Hg1 Hg2].
  destruct (encode_str s dst) as [dst' [[]|e|]]; [| |done].
  - destruct H as (Hc & out & Hw & E1 & R1). exists out. simpl in Hg2.
    change (remaining_mut dst' = remaining_mut dst - len out) in R1.
    change (0 <= remaining_mut dst') in Hg2. pose proof (str_wire_room s out Hw ltac:(lia)). split_and!; [done|lia|done|done|lia].
  - split; [done|]. destruct (Z.lt_ge_cases (remaining_mut dst) (str_room s)) as [|Hge]; [done|exfalso].
    destruct (str_room_enough s Hs ltac:(lia)) as (out & Hw & Hlt). apply H in Hw. lia.
Qed.

(** A guarded byte and what follows it, as the code writes it. *)
Lemma sends_put_then n x (c : SE (Limit B) EncoderError ()) P :
  sends n c P ->
  sends (1 + n) (rem ← gets remaining_mut; if rem =? 0 then throw BufferOverflow
    else _ ← write (fun dst => put_u8 dst x); c) (fun out => exists o, out = x :: o /\ P o).
Proof.
  intros Hc. eapply sends_ext, (sends_mono (1 + n)); [|done| |apply (sends_bind _ _ _ _ _ _ (sends_put x) Hc)].
  - intros dst. rewrite bind_gets. unfold mbind, SE_bind, gets. by destruct (_ =? 0).
  - intros out (o1 & o2 & -> & -> & HP). by exists o2.
Qed.

End Sends.
