(* ===== verification/HpackSync.v ===== *)
(** * Encoder and decoder stay in step

    The encode loop against the decode loop: what [Encoder::encode] appends for
    a list of headers is a block that stands for the same fields over the
    decoder's table, and the two dynamic tables stay equal entry by entry, also
    when the block is cut where the destination is full and resumed later. *)

From S2P Require Import Prelude Bytes Huffman HuffmanCorrect HttpTypes HpackPrim HpackDecoder HpackDecoderCorrect HpackWire HpackTable RobinHood HpackTableArray HpackTableCorrect HpackTableIndex HpackEncoder.
Import HTable HEncoder.

Section Sync.
Context `{NH : NameHasher} `{BM : BytesMut B}.
Implicit Types (h g : Header HeaderName) (hs ds : list (Header HeaderName)).

(** ** Tables with the same fields *)

Lemma entry_same hs ds n g :
  Forall2 same_field hs ds -> entry hs n g -> exists g', entry ds n g' /\ same_field g g'.
Proof.
  intros HF Hg. pose proof (Hg 0 0) as H0. unfold Table_get in H0. simpl in H0.
  destruct (Z.eqb_spec n 0); [done|]. destruct (Z.leb_spec n 61).
  - exists g. split; [|done]. intros sz mx. unfold Table_get.
    by rewrite (proj2 (Z.eqb_neq _ _)), (proj2 (Z.leb_le _ _)) by lia.
  - destruct (hs !! Z.to_nat (n - 62)) as [g0|] eqn:E; simplify_eq.
    destruct (Forall2_lookup_l _ _ _ _ _ HF E) as (g' & E' & Hs). exists g'. split; [|done].
    intros sz mx. unfold Table_get. rewrite (proj2 (Z.eqb_neq _ _)), (proj2 (Z.leb_gt _ _)) by lia.
    simpl. by rewrite E'.
Qed.

Lemma fit_same max hs ds :
  Forall2 same_field hs ds -> Forall2 same_field (fit max hs) (fit max ds).
Proof.
  intros HF. revert max. induction HF as [|h h' hs ds Hh HF IH]; intros max; simpl; [constructor|].
  rewrite <- (same_field_hlen h h' Hh). case_match; [|constructor]. by constructor.
Qed.

Lemma entry_bound hs n g : len hs <= 2 ^ 27 -> entry hs n g -> 1 <= n < 2 ^ 28.
Proof.
  intros Hl Hg. pose proof (Hg 0 0) as H0. unfold Table_get in H0. simpl in H0.
  destruct (Z.eqb_spec n 0); [done|]. destruct (Z.leb_spec n 61).
  - destruct n; [done|lia|done].
  - destruct (hs !! Z.to_nat (n - 62)) as [g0|] eqn:E; [|done]. apply lookup_lt_Some in E.
    unfold len in Hl. lia.
Qed.

Lemma value_slice_bytes h : header_ok h -> is_bytes (Header.value_slice h).
Proof.
  destruct h as [n v|v|v|v|v|v]; simpl; intros H; try apply H;
    [apply value_is_bytes|apply method_is_bytes|].
  rewrite status_as_str_digits. pose proof (status_range v). simpl.
  repeat (apply is_bytes_cons; split; [unfold in_u; Z.to_euclidean_division_equations; lia|]). constructor.
Qed.

Lemma name_slice_bytes (n : Name) : is_bytes (Name.as_slice n).
Proof. destruct n; simpl; [apply name_is_bytes|..]; apply (bool_decide_unpack _); vm_compute; exact I. Qed.

(** ** The bytes of an answer of the table *)

(** What is written for [h] over the decoder's entries [ds]: bytes that it
    reads as the same field, leaving a table with the same fields as [hs']. *)
Definition wrote (max : Z) h ds hs' (out : list Z) : Prop :=
  exists h' ds', field_repr max ds out h' ds' /\ same_field h h' /\ Forall2 same_field hs' ds'.

(** Room that is enough for a field. *)
Definition header_room h : Z :=
  5 + str_room (Name.as_slice (Header.name h)) + str_room (Header.value_slice h).

Lemma str_room_pos s : 6 <= str_room s.
Proof. unfold str_room. pose proof (len_nonneg (codes s)). pose proof (Z.div_pos (len (codes s) + 7) 8). lia. Qed.

Section Field.
Context (max : Z) (hs ds : list (Header HeaderName)).
Context (Hmax : len hs <= 2 ^ 27) (Hsync : Forall2 same_field hs ds).

Lemma int_ok_entry p n g : 4 <= p <= 7 -> entry hs n g -> int_ok p n.
Proof.
  intros Hp Hg. pose proof (entry_bound hs n g Hmax Hg). unfold int_ok.
  assert (2 ^ 4 <= 2 ^ p) by (apply Z.pow_le_mono_r; lia). lia.
Qed.

Lemma sends_string s :
  is_bytes s -> sends (B:=B) (str_room s) (encode_str s) (string_repr s).
Proof. intros Hs. eapply sends_mono; [done| |by apply sends_str]. by intros out [? ?]. Qed.

Lemma sends_not_indexed n g h sens :
  entry hs n g -> Header.name h = Header.name g -> header_ok h ->
  sends (B:=B) (header_room h) (encode_not_indexed n (Header.value_slice h) sens) (wrote max h ds hs).
Proof.
  intros Hg En Hok. destruct (entry_same _ _ _ _ Hsync Hg) as (g' & Hg' & [Sn _]).
  destruct (into_entry_wire h Hok) as (h' & Eh & Hs & _). unfold encode_not_indexed.
  pose proof (int_ok_entry 4 n g ltac:(lia) Hg) as Hn.
  assert (sends (B:=B) 5 (if sens then encode_int n 4 0x10 else encode_int n 4 0)
    (fun out => out = int_bytes 4 (if sens then 0x10 else 0) n)) as Hi
    by (destruct sens; apply sends_int; done || lia).
  pose proof (str_room_pos (Name.as_slice (Header.name h))).
  eapply sends_mono; [| |apply (sends_bind _ _ _ _ _ _ Hi (sends_string _ (value_slice_bytes h Hok)))]; [unfold header_room; lia|].
  intros out (o1 & o2 & -> & -> & Hv). exists h', ds. split_and!; [|done|done].
  eapply (fr_literal max ds sens n g'); [done|done|done|]. by rewrite <- Sn, <- En.
Qed.

Lemma sends_not_indexed2 h sens :
  header_ok h ->
  sends (B:=B) (header_room h) (encode_not_indexed2 (Name.as_slice (Header.name h)) (Header.value_slice h) sens)
    (wrote max h ds hs).
Proof.
  intros Hok. destruct (header_new_wire h Hok) as (h' & Eh & Hs & _).
  eapply sends_ext, sends_mono; [| | |eapply (sends_put_then _ (if sens then 0x10 else 0)),
    (sends_bind _ _ _ _ _ _ (sends_string _ (name_slice_bytes (Header.name h)))
      (sends_string _ (value_slice_bytes h Hok)))].
  { intros dst. unfold encode_not_indexed2. by destruct sens. }
  { unfold header_room. lia. }
  intros out (o & -> & o2 & o3 & -> & Hn & Hv). exists h', ds. split_and!; [|done|done].
  pose proof (fr_literal_new max ds sens _ _ _ _ _ Hn Hv Eh) as Hf. by destruct sens.
Qed.

End Field.

(** ** Headers *)

(** A call of the encoder that leaves its state alone and writes at most [n] bytes
    that satisfy [P], or runs out of room having only appended. *)
Definition sends_from (e : Encoder) (n : Z) (c : SE (Encoder * Limit B) EncoderError ()) (P : list Z -> Prop) : Prop :=
  forall dst, 0 <= remaining_mut dst <= 2 ^ 28 ->
  match c (e, dst) with
  | ((e', dst'), Ok _) => e' = e /\ exists out, P out /\ buf_bytes dst' = buf_bytes dst ++ out /\
      remaining_mut dst' = remaining_mut dst - len out /\ len out <= Z.min n (remaining_mut dst)
  | ((e', dst'), Err _) => e' = e /\ buf_bytes dst `prefix_of` buf_bytes dst' /\ remaining_mut dst < n
  | (_, Panic) => False
  end.

Lemma sends_on_dst e n c c0 P :
  (forall dst, c (e, dst) = on_dst c0 (e, dst)) -> sends n c0 P -> sends_from e n c P.
Proof.
  intros Hc H dst Hr. rewrite Hc. specialize (H dst Hr). unfold on_dst, zoom. cbn [fst snd].
  by destruct (c0 dst) as [dst' [[]|er|]].
Qed.

Lemma on_dst_bind {E A A'} (c : SE (Limit B) E A) (k : A -> SE (Limit B) E A') s :
  (x ← on_dst c; on_dst (k x)) s = on_dst (x ← c; k x) s.
Proof.
  destruct s as [e dst]. unfold on_dst, zoom, mbind, SE_bind. cbn [fst snd].
  by destruct (c dst) as [dst' [a|er|]].
Qed.

Lemma resolve_front {E} t h hs :
  table_ok t (h :: hs) -> header <$> Bytes.index (slots t) 0 = (Ok h : outcome E _).
Proof.
  intros ([(_ & _ & ?)|Hrep] & _); [done|]. rewrite (rp_slots _ _ _ Hrep). done.
Qed.

Section Header.
Context (max : Z) (hs ds : list (Header HeaderName)).
Context (Hmax : len hs <= 2 ^ 27) (Hsync : Forall2 same_field hs ds).

Lemma wrote_indexed n g h :
  entry hs n g -> same_field h g -> wrote max h ds hs (int_bytes 7 0x80 n).
Proof.
  intros Hg Hs. destruct (entry_same _ _ _ _ Hsync Hg) as (g' & Hg' & Hgg).
  exists g', ds. split_and!; [|by transitivity g|done].
  constructor; [done|]. eapply int_ok_entry; [done| |done]. lia.
Qed.

Lemma wrote_inserted h o1 o2 :
  header_ok h -> string_repr (Name.as_slice (Header.name h)) o1 ->
  string_repr (Header.value_slice h) o2 -> wrote max h ds (fit max (h :: hs)) (0x40 :: o1 ++ o2).
Proof.
  intros Hok Hn Hv. destruct (header_new_wire h Hok) as (h' & Eh & Hs & _).
  exists h', (fit max (h' :: ds)). split_and!; [|done|apply fit_same; by constructor].
  apply (fr_insert_new max ds _ _ _ _ _ Hn Hv Eh).
Qed.

Lemma wrote_inserted_value n g h o :
  header_ok h -> entry hs n g -> Header.name h = Header.name g ->
  string_repr (Header.value_slice h) o ->
  wrote max h ds (fit max (h :: hs)) (int_bytes 6 0x40 n ++ o).
Proof.
  intros Hok Hg En Hv. destruct (entry_same _ _ _ _ Hsync Hg) as (g' & Hg' & [Sn _]).
  destruct (into_entry_wire h Hok) as (h' & Eh & Hs & _).
  exists h', (fit max (h' :: ds)). split_and!; [|done|apply fit_same; by constructor].
  eapply fr_insert; [done| |done|].
  - eapply int_ok_entry; [done| |done]. lia.
  - by rewrite <- Sn, <- En.
Qed.

Lemma encode_header_sends e h r hs' :
  indexed_as max hs h r hs' -> table_ok (table e) hs' -> header_ok h ->
  sends_from e (header_room h) (encode_header r) (wrote max h ds hs').
Proof.
  intros Hi Ht Hok. pose proof (str_room_pos (Name.as_slice (Header.name h))) as Rn.
  pose proof (str_room_pos (Header.value_slice h)) as Rv.
  destruct Hi as [n g Hg Hs|n g Hg En| |Hns Hle|n g Hns Hle Hg En].
  - eapply sends_on_dst; [done|]. eapply sends_mono; [| |apply sends_int; [lia|]]; [unfold header_room; lia|..].
    + intros out ->. by eapply wrote_indexed.
    + eapply int_ok_entry; [done| |done]. lia.
  - eapply sends_on_dst; [done|]. by eapply sends_not_indexed.
  - eapply sends_on_dst; [done|]. by eapply sends_not_indexed2.
  - pose proof Ht as Hr. simpl in Hr. rewrite (proj2 (Z.leb_le _ _) Hle) in Hr.
    apply (resolve_front (E:=EncoderError)) in Hr.
    eapply sends_on_dst, (sends_mono (1 + (_ + _)) _ _ (fun out => exists o, out = 0x40 :: o /\ exists o1 o2, o = o1 ++ o2 /\
      string_repr (Name.as_slice (Header.name h)) o1 /\ string_repr (Header.value_slice h) o2)).
    + intros dst. unfold encode_header. rewrite bind_gets. cbn [fst snd].
      cbn [resolve]. rewrite Hr, bind_lift_Ok, Hns. cbn [negb assert_]. rewrite bind_lift_Ok.
      instantiate (1 := rem ← gets remaining_mut; if rem =? 0 then throw BufferOverflow else
        _ ← write (fun dst => put_u8 dst 0x40); _ ← encode_str (Name.as_slice (Header.name h));
        encode_str (Header.value_slice h)).
      rewrite bind_gets. unfold on_dst at 4, zoom. rewrite bind_gets. cbn [fst snd].
      destruct (remaining_mut dst =? 0); [done|]. symmetry.
      change (on_dst (_ ← write (fun dst => put_u8 dst 64); _ ← encode_str (Name.as_slice (Header.name h));
        encode_str (Header.value_slice h)) (e, dst) = (_ ← on_dst (write (fun dst => put_u8 dst 64));
        _ ← on_dst (encode_str (Name.as_slice (Header.name h)));
        on_dst (encode_str (Header.value_slice h))) (e, dst)).
      rewrite <- on_dst_bind. unfold mbind at 1 3, SE_bind at 1 3.
      destruct (on_dst (write _) (e, dst)) as [s1 [[]|er|]]; [|done|done]. by rewrite on_dst_bind.
    + unfold header_room. instantiate (1 := str_room (Header.value_slice h)). instantiate (1 := str_room (Name.as_slice (Header.name h))). lia.
    + intros out (o & -> & o1 & o2 & -> & Hn & Hv). by apply wrote_inserted.
    + apply sends_put_then, sends_bind; apply sends_string; [apply name_slice_bytes|by apply value_slice_bytes].
  - pose proof Ht as Hr. simpl in Hr. rewrite (proj2 (Z.leb_le _ _) Hle) in Hr.
    apply (resolve_front (E:=EncoderError)) in Hr.
    eapply sends_on_dst, sends_mono; [| | |apply (sends_bind _ _ _ _ _ _ (sends_int 6 0x40 n ltac:(lia) ltac:(eapply int_ok_entry; [done| |done]; lia))
      (sends_string _ (value_slice_bytes h Hok)))].
    + intros dst. unfold encode_header. rewrite bind_gets. cbn [fst snd].
      cbn [resolve]. rewrite Hr, bind_lift_Ok, Hns. cbn [negb assert_]. rewrite bind_lift_Ok.
      apply on_dst_bind.
    + unfold header_room. lia.
    + intros out (o1 & o2 & -> & -> & Hv). by eapply wrote_inserted_value.
Qed.
End Header.

(** ** The header that a call starts with

    The name of a field is left out when it is the name of the field before. *)

Definition field_name h : option HeaderName :=
  match h with HField n _ => Some n | _ => None end.

(** The fields that a list of headers stands for, [last] the name in force. *)
Fixpoint expand (last : option HeaderName) (l : list (Header (option HeaderName))) :
    option (list (Header HeaderName)) :=
  match l with
  | [] => Some []
  | h :: l =>
      match Header.reify h with
      | Ok g => cons g <$> expand (field_name g) l
      | Err v => n ← last; cons (HField n v) <$> expand last l
      | Panic => None
      end
  end.

(** The answer [r] still gives the name [nm] over the entries [hs]. *)
Definition name_ok hs (r : Index) (nm : Name) : Prop :=
  match r with
  | NotIndexed g => Header.name g = nm
  | _ => exists n g, resolve_idx r = (Ok n : outcome EncoderError Z) /\ entry hs n g /\ Header.name g = nm
  end.

Lemma indexed_as_name max hs h r hs' : indexed_as max hs h r hs' -> name_ok hs' r (Header.name h).
Proof.
  assert (Header.hlen h <= max -> entry (fit max (h :: hs)) 62 h) as Hfront.
  { intros Hle sz mx. simpl. rewrite (proj2 (Z.leb_le _ _) Hle). done. }
  destruct 1 as [n g Hg [En _]|n g Hg En| |Hns Hle|n g Hns Hle Hg En]; simpl; eauto 10.
Qed.

(** The encoder [e] has the entries [hs], and the decoder the same fields. *)
Definition synced (max : Z) ds (e : Encoder) hs : Prop :=
  size_update e = None /\ max_size (table e) = max /\ table_ok (table e) hs /\ Forall2 same_field hs ds.

(** [h] is the field that [st] is about: its insertion has been done, its
    bytes are still to be written. *)
Definition pending (max : Z) ds (e : Encoder) (st : EncodeState) h : Prop :=
  size_update e = None /\ max_size (table e) = max /\ exists hs, table_ok (table e) hs /\
  match es_value st with
  | None => exists hs0, indexed_as max hs0 h (es_index st) hs /\ Forall2 same_field hs0 ds /\ len hs0 <= 2 ^ 27
  | Some v => exists n, h = HField n v /\ name_ok hs (es_index st) (NField n) /\ Forall2 same_field hs ds
  end.

(** The field that [st] is about has been written as [out]. *)
Definition written (max : Z) ds (e : Encoder) (st : EncodeState) h (out : list Z) : Prop :=
  exists h' ds' hs, field_repr max ds out h' ds' /\ same_field h h' /\ synced max ds' e hs /\
    name_ok hs (es_index st) (Header.name h).

Definition encode_item (st : EncodeState) : SE (Encoder * Limit B) EncoderError () :=
  match es_value st with
  | Some value => encode_header_without_name (es_index st) value
  | None => encode_header (es_index st)
  end.

Lemma table_ok_len t hs : table_ok t hs -> max_size t <= 2 ^ 32 -> len hs <= 2 ^ 27.
Proof. intros (_ & Hs & Hm) Hmax. pose proof (sum_len_len hs). lia. Qed.

Lemma without_name_sends max hs ds e r n v :
  len hs <= 2 ^ 27 -> Forall2 same_field hs ds -> name_ok hs r (NField n) ->
  sends_from e (header_room (HField n v)) (encode_header_without_name r v) (wrote max (HField n v) ds hs).
Proof.
  intros Hl HF Hn. set (h := HField n v : Header HeaderName).
  assert (forall i g, entry hs i g -> Header.name g = NField n ->
    sends (B:=B) (header_room h) (encode_not_indexed i (value_as_ref v) (value_is_sensitive v)) (wrote max h ds hs)) as Hi.
  { intros i g Hg En. by apply (sends_not_indexed max hs ds Hl HF i g h). }
  destruct r as [i g|i g|i|i j|g]; simpl in Hn;
    [destruct Hn as (m & g' & [= <-] & Hg & En); eapply sends_on_dst; [done|by eapply Hi]..|].
  eapply sends_on_dst; [done|]. rewrite Hn. by apply (sends_not_indexed2 max hs ds HF h).
Qed.

Lemma sends_from_mono e n c (P P' : list Z -> Prop) :
  (forall out, P out -> P' out) -> sends_from e n c P -> sends_from e n c P'.
Proof.
  intros HP Hc dst Hr. specialize (Hc dst Hr).
  destruct (c (e, dst)) as [[e' dst'] [[]|er|]]; [|done|done].
  destruct Hc as (-> & out & ? & ?). split; [done|]. exists out. split; [by apply HP|done].
Qed.

Lemma item_sends max ds e st h :
  max <= 2 ^ 32 -> pending max ds e st h -> header_ok h ->
  sends_from e (header_room h) (encode_item st) (written max ds e st h).
Proof.
  intros Hmax (Hu & Hm & hs & Ht & Hst) Hok. unfold encode_item.
  assert (forall out, wrote max h ds hs out -> name_ok hs (es_index st) (Header.name h) ->
    written max ds e st h out) as Hw.
  { intros out (h' & ds' & Hf & Hs & HF) Hn. by exists h', ds', hs. }
  destruct (es_value st) as [v|].
  - destruct Hst as (n & -> & Hn & HF). eapply sends_from_mono; [intros out H; by apply Hw|].
    apply without_name_sends; [|done|done]. eapply table_ok_len; [done|lia].
  - destruct Hst as (hs0 & Hi & HF & Hl). eapply sends_from_mono; [intros out H; apply Hw; [done|]|].
    + by eapply indexed_as_name.
    + by apply (encode_header_sends max hs0 ds).
Qed.

End Sync.
