(* ===== verification/HpackRoundtrip.v ===== *)
(** * HPACK round trip: encoder, wire and decoder

    The encode loop of [http/h2/hpack/encoder.rs] with its suspension and
    resumption against the decode loop of [http/h2/hpack/decoder.rs]. *)

From S2P Require Import Prelude Bytes Huffman HuffmanCorrect HttpTypes HpackPrim HpackDecoder HpackDecoderCorrect HpackWire HpackTable RobinHood HpackTableArray HpackTableCorrect HpackTableIndex HpackEncoder HpackSync.
Import HTable HEncoder.

Section Loop.
Context `{NH : NameHasher} `{BM : BytesMut B}.
Implicit Types (h g : Header HeaderName) (hs ds fs : list (Header HeaderName)) (dst : Limit B).
Context (max : Z) (Hmax : max <= 2 ^ 32).

Definition sendable h : Prop := header_ok h /\ Header.hlen h < 2 ^ 62.

(** The bytes [out] that a call with the fields [fs] and [room] for bytes appends
    fit and represent the fields before the one it stopped at; it stops at the first one
    only when there is no room for it. *)
Definition progress (room : Z) ds fs (r : Encode) rest (e : Encoder) (out : list Z) : Prop :=
  len out <= room /\ exists l ds', fields_repr max ds out l ds' /\
  match r with
  | Full => rest = [] /\ Forall2 same_field fs l /\ exists hs, synced max ds' e hs
  | Partial st => exists fs1 h fs2, fs = fs1 ++ h :: fs2 /\ Forall2 same_field fs1 l /\
      pending max ds' e st h /\ expand (field_name h) rest = Some fs2 /\ (fs1 = [] -> room < header_room h)
  end.

Definition appends ds fs dst : Encode * list (Header (option HeaderName)) -> Encoder * Limit B -> Prop :=
  fun r s => exists out, buf_bytes s.2 = buf_bytes dst ++ out /\ progress (remaining_mut dst) ds fs r.1 r.2 s.1 out.

Definition last_ok hs (last : option Index) (fn : option HeaderName) : Prop :=
  forall n, fn = Some n -> exists r, last = Some r /\ name_ok hs r (NField n).

Lemma rewind_bytes dst dst' :
  buf_bytes dst `prefix_of` buf_bytes dst' -> buf_bytes (rewind dst' (position dst)) = buf_bytes dst.
Proof.
  intros [rest Hp]. simpl. rewrite bm_truncate_bytes. change (buf_bytes (limit_inner dst')) with (buf_bytes dst').
  rewrite Hp. unfold position, len. rewrite Nat2Z.id. apply take_app_length.
Qed.

Lemma progress_cons room room' ds ds' h h' o fs r rest e out :
  field_repr max ds o h' ds' -> same_field h h' -> room' + len o <= room -> progress room' ds' fs r rest e out ->
  progress room ds (h :: fs) r rest e (o ++ out).
Proof.
  intros Hf Hs Hroom (Hlen & l & ds'' & Hl & H). split; [rewrite len_app; lia|].
  exists (h' :: l), ds''. split; [by econstructor|]. destruct r as [|st].
  - destruct H as (-> & HF & He). split_and!; [done|by constructor|done].
  - destruct H as (fs1 & g & fs2 & -> & HF & Hp & Hx & _). exists (h :: fs1), g, fs2.
    split_and!; [done|by constructor|done|done|done].
Qed.

(** Writing one item, and what follows when it did not fit. *)
Definition item_then {E} (st : EncodeState) headers : SE (Encoder * Limit B) E _ :=
  pos ← gets (fun s => position s.2);
  failed ← is_err (encode_item st);
  if failed : bool then
    _ ← on_dst (modify (fun dst => rewind dst pos));
    mret (Partial st, headers)
  else encode_loop headers (Some (es_index st)).

Lemma item_then_spec {E} ds e st h fs headers dst :
  pending max ds e st h -> sendable h -> expand (field_name h) headers = Some fs ->
  0 <= remaining_mut dst <= 2 ^ 28 ->
  (forall ds' hs dst', synced max ds' e hs -> last_ok hs (Some (es_index st)) (field_name h) ->
    0 <= remaining_mut dst' <= 2 ^ 28 ->
    returns (E:=E) (encode_loop headers (Some (es_index st))) (e, dst') (appends ds' fs dst')) ->
  returns (E:=E) (item_then st headers) (e, dst) (appends ds (h :: fs) dst).
Proof.
  intros Hp [Hok _] Hx Hr Hloop. pose proof (item_sends max ds e st h Hmax Hp Hok dst Hr) as Hs.
  unfold item_then. do 3 ret_step. unfold returns at 1, is_err.
  destruct (encode_item st (e, dst)) as [[e' dst'] [[]|er|]]; [| |done].
  - destruct Hs as (-> & o & (h' & ds' & hs & Hf & Hsf & Hsy & Hn) & Eb & Er & Hl).
    pose proof (len_nonneg o). eapply returns_mono; [|apply (Hloop ds' hs dst' Hsy)]; [| |lia].
    + intros [r rest] [e' dst''] (out & Eo & Hpr). exists (o ++ out). simpl in *.
      rewrite Eo, Eb, <- (assoc_L (++)). split; [done|]. eapply progress_cons; [done|done| |done]. lia.
    + intros n En. exists (es_index st). split; [done|]. destruct h; simplify_eq/=. done.
  - destruct Hs as (-> & Hpre & Hlt). exists []. cbn [fst snd]. unfold on_dst, zoom, modify. cbn [fst snd].
    rewrite rewind_bytes, app_nil_r by done. split; [done|]. split; [apply Hr|]. exists [], ds.
    split; [constructor|]. exists [], h, fs. by split_and!.
Qed.

Lemma headers_loop_spec {E} headers : forall last fn fs ds e hs dst,
  synced max ds e hs -> last_ok hs last fn -> expand fn headers = Some fs -> Forall sendable fs ->
  0 <= remaining_mut dst <= 2 ^ 28 ->
  returns (E:=E) (encode_loop headers last) (e, dst) (appends ds fs dst).
Proof.
  induction headers as [|hd headers IH]; intros last fn fs ds e hs dst Hsy Hlast Hx Hfs Hr; cbn [expand] in Hx.
  { simplify_eq. cbn [encode_loop]. ret_step. exists []. rewrite app_nil_r. split; [done|]. split; [apply Hr|].
    exists [], ds. split; [constructor|]. split_and!; [done|constructor|by exists hs]. }
  destruct (Header.reify hd) as [h|v|] eqn:Eh; [| |done].
  - destruct (expand (field_name h) headers) as [fs'|] eqn:Ex; simplify_eq/=.
    apply Forall_cons in Hfs as [Hh Hfs]. destruct Hsy as (Hu & Hm & Ht & HF).
    pose proof (index_spec (E:=E) (table e) hs h Ht (proj2 Hh)) as Hi.
    apply returns_Ok in Hi as (t' & r & Ei & hs' & Ht' & Hm' & Hia). rewrite Hm in Hia.
    set (e' := MkEncoder t' (size_update e)).
    assert (pending max ds e' (MkEncodeState r None) h) as Hp.
    { split_and!; [done|simpl; congruence|]. exists hs'. split; [done|]. exists hs. split_and!; [done..|].
      eapply table_ok_len; [done|lia]. }
    cbn [encode_loop]. ret_step. ret_step. cbv beta. rewrite Eh.
    assert (on_table (index_ h) (e, dst) = ((e', dst), Ok r : outcome E _)) as Et.
    { unfold on_table, zoom. cbn [fst snd]. by rewrite Ei. }
    unfold returns. rewrite (bind_eq _ _ _ _ _ Et).
    apply (item_then_spec ds e' (MkEncodeState r None) h fs' headers dst Hp Hh Ex Hr).
    intros ds' hs1 dst' Hsy' Hl' Hr'. by eapply IH.
  - destruct fn as [n|]; simplify_eq/=. destruct (expand (Some n) headers) as [fs'|] eqn:Ex; simplify_eq/=.
    apply Forall_cons in Hfs as [Hh Hfs]. destruct (Hlast n eq_refl) as (r & -> & Hn).
    destruct Hsy as (Hu & Hm & Ht & HF).
    assert (pending max ds e (MkEncodeState r (Some v)) (HField n v)) as Hp.
    { split_and!; [done..|]. exists hs. split; [done|]. by exists n. }
    ret_step. ret_step. cbv beta. rewrite Eh.
    ret_step; [done|]. cbv beta.
    apply (item_then_spec ds e (MkEncodeState r (Some v)) (HField n v) fs' headers dst Hp Hh Ex Hr).
    intros ds' hs1 dst' Hsy' Hl' Hr'. by eapply IH.
Qed.
End Loop.

(** ** Size updates at the start of a block *)

Definition update_bytes (u : option SizeUpdate) : list Z :=
  match u with
  | None => []
  | Some (One v) => int_bytes 5 0x20 v
  | Some (Two a b) => int_bytes 5 0x20 a ++ int_bytes 5 0x20 b
  end.

(** The limit and the entries after a pending update. *)
Definition resized `{HT : HttpTypes} (u : option SizeUpdate) (max : Z) (hs : list (Header HeaderName)) :
    Z * list (Header HeaderName) :=
  match u with
  | None => (max, hs)
  | Some (One v) => (v, fit v hs)
  | Some (Two a b) => (b, fit b (fit a hs))
  end.

(** Sizes that the peer allows; the integer code carries sizes up to [2^28]. *)
Definition size_ok (lim v : Z) : Prop := 0 <= v <= lim /\ v <= 2 ^ 28.
Definition update_ok (lim : Z) (u : option SizeUpdate) : Prop :=
  match u with
  | None => True
  | Some (One v) => size_ok lim v
  | Some (Two a b) => size_ok lim a /\ size_ok lim b
  end.

Lemma size_int_ok lim v : size_ok lim v -> int_ok 5 v.
Proof. intros [? ?]. unfold int_ok. lia. Qed.

Section Updates.
Context `{NH : NameHasher} `{BM : BytesMut B}.
Implicit Types (hs ds fs : list (Header HeaderName)) (dst : Limit B).

Lemma on_table_eq {E A} (c : SE Table E A) (e : Encoder) dst t a :
  c (table e) = (t, Ok a) -> on_table c (e, dst) = ((MkEncoder t (size_update e), dst), Ok a).
Proof. intros H. unfold on_table, zoom. cbn [fst snd]. by rewrite H. Qed.

Lemma size_update_emits lim v e dst :
  size_ok lim v -> 0 <= remaining_mut dst ->
  if len (int_bytes 5 0x20 v) <=? remaining_mut dst
  then exists dst', on_dst (encode_size_update v) (e, dst) = ((e, dst'), Ok tt) /\
    buf_bytes dst' = buf_bytes dst ++ int_bytes 5 0x20 v /\
    remaining_mut dst' = remaining_mut dst - len (int_bytes 5 0x20 v)
  else (on_dst (encode_size_update v) (e, dst)).2 = Err BufferOverflow.
Proof.
  intros Hv Hr. pose proof (encode_int_emits (B:=Limit B) 5 0x20 v ltac:(lia) (size_int_ok _ _ Hv) dst Hr) as H.
  unfold on_dst, zoom, encode_size_update. cbn [fst snd]. destruct (_ <=? _).
  - destruct H as (dst' & -> & ? & ?). by exists dst'.
  - destruct (encode_int v 5 0x20 dst) as [dst' r]. by simpl in *.
Qed.

(** The state after the size updates, when they fit. *)
Definition updates_to (e : Encoder) hs dst (s : Encoder * Limit B) : Prop :=
  let u := size_update e in
  size_update s.1 = None /\ table_ok (table s.1) (resized u (max_size (table e)) hs).2 /\
  max_size (table s.1) = (resized u (max_size (table e)) hs).1 /\
  buf_bytes s.2 = buf_bytes dst ++ update_bytes u /\
  remaining_mut s.2 = remaining_mut dst - len (update_bytes u).

Lemma encode_size_updates_spec lim e hs dst :
  table_ok (table e) hs -> update_ok lim (size_update e) -> 0 <= remaining_mut dst ->
  if len (update_bytes (size_update e)) <=? remaining_mut dst
  then exists s, encode_size_updates (e, dst) = (s, Ok tt) /\ updates_to e hs dst s
  else (encode_size_updates (e, dst)).2 = Err BufferOverflow.
Proof.
  intros Ht Hu Hr. unfold encode_size_updates, updates_to. rewrite bind_gets, bind_modify.
  destruct e as [t [[v|a b]|]]; cbn [fst snd size_update table update_bytes resized] in *.
  - destruct (proj1 (returns_Ok _ _ _) (resize_spec (E:=EncoderError) t hs v Ht ltac:(destruct Hu; lia)))
      as (t' & [] & E1 & Ht' & Hm').
    rewrite (bind_eq _ _ _ _ _ (on_table_eq _ (MkEncoder t None) dst _ _ E1)). cbn [size_update].
    pose proof (size_update_emits lim v (MkEncoder t' None) dst Hu Hr) as H.
    destruct (_ <=? _); [|done]. destruct H as (dst' & E2 & Eb & Er). eexists. split; [exact E2|]. done.
  - destruct Hu as [Ha Hb].
    destruct (proj1 (returns_Ok _ _ _) (resize_spec (E:=EncoderError) t hs a Ht ltac:(destruct Ha; lia)))
      as (t1 & [] & E1 & Ht1 & Hm1).
    destruct (proj1 (returns_Ok _ _ _) (resize_spec (E:=EncoderError) t1 _ b Ht1 ltac:(destruct Hb; lia)))
      as (t2 & [] & E2 & Ht2 & Hm2).
    rewrite (bind_eq _ _ _ _ _ (on_table_eq _ (MkEncoder t None) dst _ _ E1)). cbn [size_update].
    rewrite (bind_eq _ _ _ _ _ (on_table_eq _ (MkEncoder t1 None) dst _ _ E2)). cbn [size_update].
    rewrite len_app. pose proof (size_update_emits lim a (MkEncoder t2 None) dst Ha Hr) as Hea.
    pose proof (len_nonneg (int_bytes 5 0x20 b)).
    destruct (Z.leb_spec (len (int_bytes 5 0x20 a)) (remaining_mut dst)) as [Hla|Hla].
    + destruct Hea as (dst1 & E3 & Eb & Er). rewrite (bind_eq _ _ _ _ _ E3).
      pose proof (size_update_emits lim b (MkEncoder t2 None) dst1 Hb ltac:(lia)) as Heb.
      rewrite Er in Heb.
      destruct (Z.leb_spec (len (int_bytes 5 0x20 b)) (remaining_mut dst - len (int_bytes 5 0x20 a))) as [Hlb|Hlb].
      * rewrite (proj2 (Z.leb_le _ _)) by lia. destruct Heb as (dst2 & E4 & Eb2 & Er2).
        eexists. split; [exact E4|]. cbn [fst snd]. rewrite Eb2, Eb, Er2, <- (assoc_L (++)).
        split_and!; [done..|lia].
      * by rewrite (proj2 (Z.leb_gt _ _)) by lia.
    + rewrite (proj2 (Z.leb_gt _ _)) by lia. unfold mbind, SE_bind.
      destruct (on_dst (encode_size_update a) _) as [s r]. simpl in Hea. by rewrite Hea.
  - rewrite (proj2 (Z.leb_le _ _)) by (change (len (@nil Z)) with 0; lia). eexists. split; [done|]. cbn [fst snd].
    rewrite app_nil_r. change (len (@nil Z)) with 0. split_and!; [done..|lia].
Qed.
End Updates.

(** ** Calls of [encode] *)

Section Encode.
Context `{NH : NameHasher} `{BM : BytesMut B}.
Implicit Types (h g : Header HeaderName) (hs ds fs : list (Header HeaderName)) (dst : Limit B).
Implicit Types (headers : list (Header (option HeaderName))) (e : Encoder).

(** The first call for a list of headers: the size updates come first. *)
Lemma encode_first {E} lim e hs ds headers fs dst :
  let u := size_update e in
  let m := (resized u (max_size (table e)) hs).1 in
  table_ok (table e) hs -> Forall2 same_field hs ds -> update_ok lim u -> m <= 2 ^ 32 ->
  expand None headers = Some fs -> Forall sendable fs -> 0 <= remaining_mut dst <= 2 ^ 28 ->
  if len (update_bytes u) <=? remaining_mut dst
  then returns (E:=E) (encode None headers) (e, dst) (fun r s => exists out,
    buf_bytes s.2 = buf_bytes dst ++ update_bytes u ++ out /\
    progress m (remaining_mut dst - len (update_bytes u)) (resized u (max_size (table e)) ds).2 fs r.1 r.2 s.1 out)
  else (encode (E:=E) None headers (e, dst)).2 = Panic.
Proof.
  intros u m Ht HF Hu Hm Hx Hfs Hr. unfold encode.
  pose proof (encode_size_updates_spec lim e hs dst Ht Hu (proj1 Hr)) as Hup. fold u in Hup.
  destruct (Z.leb_spec (len (update_bytes u)) (remaining_mut dst)).
  - destruct Hup as ([e1 dst1] & E1 & Hu1 & Ht1 & Hm1 & Eb & Er). cbn [fst snd] in *. fold u in Ht1, Hm1, Eb, Er.
    unfold returns. rewrite (bind_eq _ _ (e, dst) (e1, dst1) false) by (unfold is_err; by rewrite E1).
    pose proof (len_nonneg (update_bytes u)).
    eapply returns_mono; [|apply (headers_loop_spec (E:=E) m Hm headers None None fs
      (resized u (max_size (table e)) ds).2 e1 (resized u (max_size (table e)) hs).2 dst1)]; try done; [| |lia].
    + intros r s (out & Eo & Hp). exists out. rewrite Eo, Eb, <- (assoc_L (++)). rewrite Er in Hp. done.
    + split_and!; [done..|]. unfold resized. destruct u as [[v|a b]|]; [..|done]; cbn [snd];
        repeat apply fit_same; done.
  - unfold mbind, SE_bind, is_err. destruct (encode_size_updates (e, dst)) as [s r]. simpl in Hup. by subst r.
Qed.

(** A later call goes on with the field that did not fit. *)
Lemma encode_again {E} m ds e st h headers fs dst :
  m <= 2 ^ 32 -> pending m ds e st h -> sendable h -> expand (field_name h) headers = Some fs ->
  Forall sendable fs -> 0 <= remaining_mut dst <= 2 ^ 28 ->
  returns (E:=E) (encode (Some st) headers) (e, dst) (appends m ds (h :: fs) dst).
Proof.
  intros Hm Hp Hh Hx Hfs Hr. unfold encode.
  assert (is_err (E':=E) encode_size_updates (e, dst) = ((e, dst), Ok false)) as Eu.
  { destruct Hp as (Hu & _). destruct e as [t u]. simpl in Hu. by subst u. }
  unfold returns. rewrite (bind_eq _ _ _ _ _ Eu).
  apply (item_then_spec m Hm ds e st h fs headers dst Hp Hh Hx Hr).
  intros ds' hs dst' Hsy Hl Hr'. by eapply headers_loop_spec.
Qed.

(** The calls that send one list of headers, each with a destination of its
    own (a frame); [out] is what they append, in order. *)
Inductive transmits : Encoder -> option EncodeState -> list (Header (option HeaderName)) -> list Z ->
    Encoder -> Prop :=
  | tx_full e resume headers dst e' dst' rest out :
      0 <= remaining_mut dst <= 2 ^ 28 ->
      encode (E:=EncoderError) resume headers (e, dst) = ((e', dst'), Ok (Full, rest)) ->
      buf_bytes dst' = buf_bytes dst ++ out -> transmits e resume headers out e'
  | tx_partial e resume headers dst e' dst' st rest out outs e'' :
      0 <= remaining_mut dst <= 2 ^ 28 ->
      encode (E:=EncoderError) resume headers (e, dst) = ((e', dst'), Ok (Partial st, rest)) ->
      buf_bytes dst' = buf_bytes dst ++ out -> transmits e' (Some st) rest outs e'' ->
      transmits e resume headers (out ++ outs) e''.

(** The same calls as a function, all with the destination [dst]. *)
Fixpoint transmit (fuel : nat) e (resume : option EncodeState) headers dst : option (list Z * Encoder) :=
  match fuel, encode (E:=EncoderError) resume headers (e, dst) with
  | S _, ((e', dst'), Ok (Full, _)) => Some (buf_bytes dst', e')
  | S fuel, ((e', dst'), Ok (Partial st, rest)) =>
      '(outs, e'') ← transmit fuel e' (Some st) rest dst; Some (buf_bytes dst' ++ outs, e'')
  | _, _ => None
  end.

Lemma transmit_sound fuel e resume headers dst out e' :
  0 <= remaining_mut dst <= 2 ^ 28 -> buf_bytes dst = [] ->
  transmit fuel e resume headers dst = Some (out, e') -> transmits e resume headers out e'.
Proof.
  intros Hr Hb. revert e resume headers out.
  induction fuel as [|fuel IH]; intros e resume headers out H; simpl in H; [done|].
  destruct (encode resume headers (e, dst)) as [[e1 dst1] [[[|st] rest]|er|]] eqn:Ee; [| |done|done].
  - simplify_eq. eapply tx_full; [done|done|]. by rewrite Hb.
  - destruct (transmit fuel e1 (Some st) rest dst) as [[outs e2]|] eqn:Et; [|done]. injection H as <- <-.
    eapply tx_partial; [exact Hr|exact Ee|by rewrite Hb|by apply IH].
Qed.

(** What a whole transmission adds up to. *)
Definition sent m ds fs (out : list Z) e' : Prop :=
  exists l ds' hs, fields_repr m ds out l ds' /\ Forall2 same_field fs l /\ synced m ds' e' hs.

Lemma sent_full m room ds fs rest e out : progress m room ds fs Full rest e out -> sent m ds fs out e.
Proof. intros (_ & l & ds' & Hf & _ & HF & hs & Hs). by exists l, ds', hs. Qed.

Lemma sent_partial m room ds fs st rest e out outs e' :
  progress m room ds fs (Partial st) rest e out ->
  (forall ds' h fs', pending m ds' e st h -> expand (field_name h) rest = Some fs' ->
     (forall P, Forall P fs -> P h /\ Forall P fs') -> sent m ds' (h :: fs') outs e') ->
  sent m ds fs (out ++ outs) e'.
Proof.
  intros (_ & l & ds1 & Hf & fs1 & h & fs2 & -> & HF & Hp & Hx & _) H.
  destruct (H ds1 h fs2 Hp Hx) as (l' & ds2 & hs & Hf2 & HF2 & Hs).
  { intros P HP. apply Forall_app in HP as [_ HP]. by apply Forall_cons in HP. }
  exists (l ++ l'), ds2, hs. split_and!; [by eapply fields_repr_app|by apply Forall2_app|done].
Qed.

Lemma transmits_again m e st headers out e' :
  m <= 2 ^ 32 -> transmits e (Some st) headers out e' -> forall ds h fs,
  pending m ds e st h -> expand (field_name h) headers = Some fs -> Forall sendable (h :: fs) ->
  sent m ds (h :: fs) out e'.
Proof.
  intros Hm Htx. remember (Some st) as resume eqn:Er. revert st Er.
  induction Htx as [e ? headers dst e' dst' rest out Hr He Hb|e ? headers dst e' dst' st' rest out outs e'' Hr He Hb Htx IH];
    intros st -> ds h fs Hp Hx Hfs; pose proof Hfs as Hfs'; apply Forall_cons in Hfs' as [Hh Hfs2];
    pose proof (encode_again (E:=EncoderError) m ds e st h headers fs dst Hm Hp Hh Hx Hfs2 Hr) as H;
    unfold returns in H; rewrite He in H; destruct H as (out' & Eb & Hpr); simpl in Eb, Hpr;
    change (buf_bytes (limit_inner dst')) with (buf_bytes dst') in Eb; rewrite Hb in Eb;
    apply app_inv_head in Eb as <-.
  - by eapply sent_full.
  - eapply sent_partial; [done|]. intros ds' g fs' Hp' Hx' Hall. apply (IH st'); [done|done|done|].
    apply Forall_cons. by apply Hall.
Qed.
End Encode.

(** ** The round trip *)

Section Roundtrip.
Context `{NH : NameHasher} `{BM : BytesMut B}.
Implicit Types (hs ds fs : list (Header HeaderName)) (dst : Limit B) (d : HDecoder (B:=B)) (c : Cursor B).
Implicit Types (e : Encoder).

(** Encoder and decoder between two blocks: the same limit, the same fields in
    the two dynamic tables, pending sizes that the decoder will accept. *)
Definition in_sync e d : Prop :=
  exists hs, table_ok (table e) hs /\ Forall2 same_field hs (entries (HpackDecoder.table d)) /\
    max_size (table e) = table_max_size (HpackDecoder.table d) /\ max_size (table e) <= 2 ^ 32 /\
    dec_ok d /\ update_ok (size_limit d) (size_update e).

Lemma in_sync_new e d : e = HEncoder.default -> d = HDecoder_new 4096 -> in_sync e d.
Proof.
  intros -> ->. exists []. split; [apply new_spec; lia|]. simpl.
  split_and!; [constructor|done|lia| |done]. split; [by split|]. apply bm_new_bytes.
Qed.

Lemma resized_le lim u m hs : update_ok lim u -> m <= 2 ^ 32 -> (resized u m hs).1 <= 2 ^ 32.
Proof. unfold resized, size_ok. destruct u as [[v|a b]|]; simpl; unfold size_ok; lia. Qed.

Lemma resized_fst u m hs ds : (resized u m hs).1 = (resized u m ds).1.
Proof. by destruct u as [[v|a b]|]. Qed.

Lemma block_resized lim u m ds out l ds' :
  update_ok lim u -> fields_repr (resized u m ds).1 (resized u m ds).2 out l ds' ->
  block_repr lim m ds (update_bytes u ++ out) l (resized u m ds).1 ds'.
Proof.
  intros Hu Hf. destruct u as [[v|a b]|]; simpl in *; [| |by constructor].
  - constructor; [by eapply size_int_ok|apply Hu|by constructor].
  - destruct Hu as [Ha Hb]. rewrite <- (assoc_L (++)).
    constructor; [by eapply size_int_ok|apply Ha|]. constructor; [by eapply size_int_ok|apply Hb|by constructor].
Qed.

(** The whole of a transmission is a block. *)
Lemma transmits_block e d headers fs out e' :
  in_sync e d -> expand None headers = Some fs -> Forall sendable fs -> transmits (B:=B) e None headers out e' ->
  exists m ds' l hs, block_repr (size_limit d) (table_max_size (HpackDecoder.table d))
      (entries (HpackDecoder.table d)) out l m ds' /\ Forall2 same_field fs l /\ m <= 2 ^ 32 /\ synced m ds' e' hs.
Proof.
  intros (hs & Ht & HF & Hm & Hm32 & Hd & Hu) Hx Hfs Htx. set (ds := entries (HpackDecoder.table d)) in *.
  set (u := size_update e) in *. rewrite <- Hm.
  pose proof (resized_le _ u (max_size (table e)) hs Hu Hm32) as Hm'.
  enough (exists out', out = update_bytes u ++ out' /\ sent (resized u (max_size (table e)) ds).1
    (resized u (max_size (table e)) ds).2 fs out' e') as (out' & -> & l & ds' & hs' & Hf & HFl & Hs).
  { exists (resized u (max_size (table e)) ds).1, ds', l, hs'.
    split_and!; [by apply block_resized|done|by rewrite (resized_fst _ _ _ hs)|done]. }
  rewrite <- (resized_fst _ _ hs ds).
  inversion Htx as [? ? ? dst ? dst' rest ? Hr He Hb|? ? ? dst e1 dst' st' rest out1 outs ? Hr He Hb Htx']; subst;
    pose proof (encode_first (E:=EncoderError) (size_limit d) e hs ds headers fs dst Ht HF Hu Hm' Hx Hfs Hr) as H;
    fold u in H; (destruct (_ <=? _); [|by rewrite He in H]); unfold returns in H; rewrite He in H;
    destruct H as (out' & Eb & Hpr); cbn [fst snd] in Eb, Hpr; rewrite Hb in Eb; apply app_inv_head in Eb as ->.
  - exists out'. split; [done|]. by eapply sent_full.
  - exists (out' ++ outs). split; [by rewrite (assoc_L (++))|]. eapply sent_partial; [done|].
    intros ds' h fs' Hp Hx' Hall. eapply transmits_again; [exact Hm'|done|done|done|]. apply Forall_cons. by apply Hall.
Qed.

(** C4. Header compression loses nothing: whatever frames the encoder cuts a
    list of headers into, the decoder reads the bytes of all of them as the same
    names and values, in the same order, and afterwards the dynamic tables of
    the two ends agree again, so the next list is sent under the same terms. *)
Theorem hpack_roundtrip e d headers fs out e' c :
  in_sync e d -> expand None headers = Some fs -> Forall sendable fs ->
  transmits (B:=B) e None headers out e' -> cur_ok c -> src_bytes c = out ->
  exists l d' c', Forall2 same_field fs l /\ in_sync e' d' /\ src_bytes c' = [] /\
    forall F (f : F -> Header HeaderName -> F) acc,
      decode_block f ((d, c), acc) = (((d', c'), foldl f acc l), Ok tt).
Proof.
  intros Hsync Hx Hfs Htx Hc Hsrc.
  destruct (transmits_block e d headers fs out e' Hsync Hx Hfs Htx) as (m & ds' & l & hs & Hb & HF & Hm & Hs).
  destruct Hsync as (_ & _ & _ & _ & _ & Hd & _).
  destruct (read_block _ _ out l m ds' d c Hb (conj eq_refl (conj eq_refl Hd)) Hc Hsrc)
    as (d' & c' & (Ht' & Hm' & Hd') & Hl & _ & Hsrc' & _ & Hrun).
  exists l, d', c'. split_and!; [done| |done|done].
  destruct Hs as (Hu & Hmx & Ht & HFd). exists hs. rewrite Ht', Hmx, Hm', Hu. by split_and!.
Qed.

(** Encoding never panics: from tables in step, with room for the pending
    size updates, [encode] returns, having appended a run of whole fields; it
    either sent every header or stopped at one that it can be resumed with. *)
Theorem encode_never_panics e d headers fs dst :
  in_sync e d -> expand None headers = Some fs -> Forall sendable fs ->
  len (update_bytes (size_update e)) <= remaining_mut dst <= 2 ^ 28 ->
  exists e' dst' r rest, encode (E:=EncoderError) None headers (e, dst) = ((e', dst'), Ok (r, rest)) /\
    buf_bytes dst `prefix_of` buf_bytes dst' /\
    match r with
    | Full => rest = []
    | Partial st => exists fs1 h fs2, fs = fs1 ++ h :: fs2 /\ expand (field_name h) rest = Some fs2 /\
        forall dst2, 0 <= remaining_mut dst2 <= 2 ^ 28 ->
          exists s r', encode (E:=EncoderError) (Some st) rest (e', dst2) = (s, Ok r')
    end.
Proof.
  intros (hs & Ht & HF & Hm & Hm32 & Hd & Hu) Hx Hfs Hr. pose proof (len_nonneg (update_bytes (size_update e))).
  assert (0 <= remaining_mut dst <= 2 ^ 28) as Hr0 by lia.
  pose proof (resized_le _ _ (max_size (table e)) hs Hu Hm32) as Hm'.
  pose proof (encode_first (E:=EncoderError) _ e hs _ headers fs dst Ht HF Hu Hm' Hx Hfs Hr0) as H1.
  rewrite (proj2 (Z.leb_le _ _) (proj1 Hr)) in H1.
  apply returns_Ok in H1 as ([e' dst'] & [r rest] & E1 & out & Eb & _ & l & ds' & Hf & Hp). cbn [fst snd] in *.
  exists e', dst', r, rest. split; [done|]. split; [rewrite Eb; by apply prefix_app_r|].
  destruct r as [|st]; [by destruct Hp as [-> _]|].
  destruct Hp as (fs1 & h & fs2 & -> & _ & Hp & Hx2 & _). exists fs1, h, fs2. split_and!; [done..|].
  intros dst2 Hr2. apply Forall_app in Hfs as [_ [Hh Hfs]%Forall_cons].
  pose proof (encode_again (E:=EncoderError) _ ds' e' st h rest fs2 dst2 Hm' Hp Hh Hx2 Hfs Hr2) as H2.
  apply returns_Ok in H2 as (s & r' & E2 & _). eauto.
Qed.

(** ** Several size updates between two blocks *)

(** The last size and the lowest size on the way there. *)
Fixpoint lowest (m : Z) (vs : list Z) : Z :=
  match vs with [] => m | v :: vs => lowest (Z.min m v) vs end.
Fixpoint latest (m : Z) (vs : list Z) : Z :=
  match vs with [] => m | v :: vs => latest v vs end.

(** The pending update of an encoder with limit [m] that went to [cur] by way of [low]. *)
Definition tracks (m low cur : Z) (u : option SizeUpdate) : Prop :=
  match u with
  | None => low = m /\ cur = m
  | Some (One v) => low = Z.min m v /\ cur = v
  | Some (Two a b) => low = a /\ cur = b /\ a <= m
  end.

Lemma update_max_size_tracks v e low cur :
  tracks (max_size (table e)) low cur (size_update e) ->
  table (update_max_size v e) = table e /\
  tracks (max_size (table e)) (Z.min low v) v (size_update (update_max_size v e)).
Proof.
  unfold update_max_size. destruct e as [t [[w|a b]|]]; cbn [size_update table]; intros H; unfold tracks in *;
    case_bools; cbn [size_update table]; try case_match; simplify_eq/=; (split; [done|]); lia.
Qed.

Lemma tracks_resized u m low cur hs :
  tracks m low cur u -> sum_len hs <= m -> resized u m hs = (cur, fit cur (fit low hs)).
Proof.
  intros H Hs. destruct u as [[v|a b]|]; simpl in *.
  - destruct H as [-> ->]. f_equal. destruct (Z.min_spec m v) as [[? ->]|[? ->]].
    + by rewrite (fit_all m).
    + destruct (Z.le_gt_cases 0 v).
      * by rewrite (fit_all v (fit v hs)) by (by apply fit_sum).
      * by rewrite !fit_neg by lia.
  - by destruct H as (-> & -> & _).
  - destruct H as [-> ->]. by rewrite !(fit_all m) by (rewrite ?(fit_all m); done).
Qed.

(** However often the limit changes between two blocks, the one or two size
    updates that are sent have the effect of all of them: the table is cut down
    to the smallest limit on the way and ends with the last one. *)
Theorem size_updates_collapse e hs vs :
  table_ok (table e) hs -> size_update e = None ->
  let e' := foldl (fun e v => update_max_size v e) e vs in
  let m := max_size (table e) in
  table e' = table e /\
  resized (size_update e') m hs = (latest m vs, fit (latest m vs) (fit (lowest m vs) hs)).
Proof.
  intros Ht Hu e' m.
  enough (forall low cur e, tracks (max_size (table e)) low cur (size_update e) -> max_size (table e) = m ->
    let e' := foldl (fun e v => update_max_size v e) e vs in
    table e' = table e /\ tracks m (lowest low vs) (latest cur vs) (size_update e')) as H.
  { destruct (H m m e) as [Et Htr]; [by rewrite Hu|done|]. split; [done|].
    apply tracks_resized; [done|]. destruct Ht as (_ & <- & [? _]). done. }
  clearbody m. clear e e' Ht Hu. induction vs as [|v vs IH]; intros low cur e Htr Hm; simpl; [by rewrite <- Hm|].
  destruct (update_max_size_tracks v e low cur Htr) as [Et Htr'].
  destruct (IH (Z.min low v) v (update_max_size v e)) as [Et' H']; [by rewrite Et|by rewrite Et|].
  by rewrite Et', Et.
Qed.

End Roundtrip.

(** ** Concrete instances *)

From Stdlib Require Import String List.
Import ModelHttp ModelHash.

(** [:method: GET], [a: b] twice with the name left out the second time, and
    [a: c]. *)
Definition sample_name : HeaderName := dexist [97] (bool_decide_eq_true_1 (ModelHttp.name_ok [97]) eq_refl).
Definition sample_headers : list (Header (option HeaderName)) :=
  [HMethod GET; HField (Some sample_name) (value_from_static "b"); HField None (value_from_static "b");
   HField (Some sample_name) (value_from_static "c")].
Definition sample_fields : list (Header HeaderName) :=
  [HMethod GET; HField sample_name (value_from_static "b"); HField sample_name (value_from_static "b");
   HField sample_name (value_from_static "c")].

Lemma sample_sendable : Forall sendable sample_fields.
Proof. repeat constructor; vm_compute; reflexivity. Qed.

(** Frames with room for eight bytes. *)
Definition sample_dst : Limit (list Z) := MkLimit [] 8.
Definition sample_out : list Z := [130; 64; 129; 31; 129; 143; 15; 47; 129; 143; 126; 129; 39].
Definition sample_run := transmit 2 HEncoder.default None sample_headers sample_dst.
Definition sample_encoder : Encoder := from_option snd HEncoder.default sample_run.

Lemma sample_transmits : transmits (B:=list Z) HEncoder.default None sample_headers sample_out sample_encoder.
Proof.
  apply (transmit_sound 2 _ _ _ sample_dst); [vm_compute; split; congruence|reflexivity|].
  assert (fst <$> sample_run = Some sample_out) as H by (vm_compute; reflexivity).
  unfold sample_encoder. fold sample_run. destruct sample_run as [[out e]|]; [|done]. by injection H as ->.
Qed.

Lemma hpack_roundtrip_witness :
  exists l d' c', Forall2 same_field sample_fields l /\ in_sync sample_encoder d' /\ src_bytes c' = [] /\
    forall F (f : F -> Header HeaderName -> F) acc,
      decode_block f ((HDecoder_new (B:=list Z) 4096, MkCursor sample_out 0), acc) =
      (((d', c'), foldl f acc l), Ok tt).
Proof.
  refine (hpack_roundtrip HEncoder.default (HDecoder_new 4096) sample_headers sample_fields sample_out
    sample_encoder (MkCursor sample_out 0) _ _ _ _ _ _).
  - apply in_sync_new; reflexivity.
  - reflexivity.
  - apply sample_sendable.
  - apply sample_transmits.
  - vm_compute. lia.
  - reflexivity.
Defined.

Lemma encode_never_panics_witness :
  exists e' dst' r rest,
    encode (E:=EncoderError) None sample_headers (HEncoder.default, sample_dst) = ((e', dst'), Ok (r, rest)).
Proof.
  destruct (encode_never_panics HEncoder.default (HDecoder_new (B:=list Z) 4096) sample_headers sample_fields sample_dst)
    as (e' & dst' & r & rest & H & _).
  - apply in_sync_new; reflexivity.
  - reflexivity.
  - apply sample_sendable.
  - vm_compute. split; congruence.
  - exists e', dst', r, rest. exact H.
Defined.

Lemma size_updates_collapse_witness :
  let e' := foldl (fun e v => update_max_size v e) HEncoder.default [100; 0; 50] in
  size_update e' = Some (Two 0 50) /\ resized (size_update e') 4096 [] = (50, []).
Proof.
  split; [vm_compute; reflexivity|].
  refine (proj2 (size_updates_collapse HEncoder.default [] [100; 0; 50] _ _)).
  - apply new_spec. lia.
  - reflexivity.
Defined.
