(* ===== verification/WsMask.v ===== *)
(** * WebSocket payload masking ([websocket/mask.rs])

    The optimised [apply_mask], which works on the aligned 8-byte words of the
    buffer, against the definition of RFC 6455: byte [i] is combined with byte
    [i mod 4] of the mask.  The address of the buffer and the byte order of the
    target are arguments. *)

From S2P Require Import Prelude Bytes.

(** ** Words in memory *)

Definition to_native (big : bool) (n : nat) (w : Z) : list Z :=
  if big then to_be_bytes n w else rev (to_be_bytes n w).
Definition from_native (big : bool) (l : list Z) : Z :=
  from_be_bytes (if big then l else rev l).

(** [u64::rotate_left], [u64::rotate_right] *)
Definition rotate_left (w n : Z) : Z :=
  let n := n mod 64 in Z.lor (as_u64 (Z.shiftl w n)) (Z.shiftr w (64 - n)).
Definition rotate_right (w n : Z) : Z := rotate_left w (64 - n mod 64).

(** [slice::split_at_mut] *)
Definition split_at {E A} (l : list A) (n : Z) : outcome E (list A * list A) :=
  if (0 <=? n) && (n <=? len l) then Ok (take (Z.to_nat n) l, drop (Z.to_nat n) l) else Panic.

Section Mask.
Context (big : bool).

(** [websocket/mask.rs] xor_short *)
Definition xor_short (buf : list Z) (mask : Z) : list Z :=
  let b := from_native big (buf ++ replicate (8 - length buf) 0) in
  let b := Z.lxor b mask in
  take (length buf) (to_native big 8 b).

(** [websocket/mask.rs] cast_slice *)
Definition cast_slice (buf : list Z) : list Z :=
  from_native big <$> chunks 8 (take (8 * Z.to_nat (Z.shiftr (len buf) 3)) buf).

(** [websocket/mask.rs] align_buf *)
Definition align_buf {E} (addr : Z) (buf : list Z) : outcome E (list Z * list Z * list Z) :=
  let start_ptr := addr in
  let end_ptr := as_usize (start_ptr + len buf) in
  let start_aligned := Z.land (as_usize (start_ptr + 7)) (not_u 64 0x7) in
  let end_aligned := Z.land end_ptr (not_u 64 0x7) in
  if start_aligned <=? end_aligned then
    '(tmp, tail) ← split_at buf (as_usize (end_aligned - start_ptr));
    '(head, mid) ← split_at tmp (as_usize (start_aligned - start_ptr));
    Ok (head, cast_slice mid, tail)
  else Ok (buf, [], []).

(** [websocket/mask.rs] apply_mask *)
Definition apply_mask {E} (addr : Z) (buf : list Z) (mask_u32 : Z) : outcome E (list Z) :=
  let mask_u64 := Z.lor (as_u64 (Z.shiftl mask_u32 32)) mask_u32 in
  '(head, mid, tail) ← align_buf addr buf;
  let head_len := len head in
  let '(head, mask_u64) :=
    if 0 <? head_len then
      (xor_short head mask_u64,
       if big then rotate_left mask_u64 (as_u32 (8 * as_u32 head_len))
       else rotate_right mask_u64 (as_u32 (8 * as_u32 head_len)))
    else (head, mask_u64) in
  let mid := (fun v => Z.lxor v mask_u64) <$> mid in
  let tail := if 0 <? len tail then xor_short tail mask_u64 else tail in
  Ok (head ++ (mid ≫= to_native big 8) ++ tail).

End Mask.

(** [websocket/mask.rs:105-109] The byte-wise masking of the unit tests. *)
Definition apply_mask_fallback (buf mask : list Z) : list Z :=
  imap (fun i b => Z.lxor b (mask !!! (i mod 4)%nat)) buf.

(** ** Words and their bytes *)

Lemma small_bit c k n : 0 <= k <= n -> 0 <= c < 2 ^ k -> Z.testbit c n = false.
Proof. intros Hn Hc. rewrite <- (Z.mod_small c (2 ^ k)) by lia. by apply Z.mod_pow2_bits_high. Qed.

Lemma lxor_range a b k : 0 <= k -> 0 <= a < 2 ^ k -> 0 <= b < 2 ^ k -> 0 <= Z.lxor a b < 2 ^ k.
Proof.
  intros Hk Ha Hb. replace (Z.lxor a b) with (Z.lxor a b mod 2 ^ k); [apply Z.mod_pos_bound; lia|].
  apply Z.bits_inj'. intros n Hn. destruct (Z.lt_ge_cases n k).
  - by rewrite Z.mod_pow2_bits_low.
  - rewrite Z.mod_pow2_bits_high, Z.lxor_spec by lia. by rewrite (small_bit a k), (small_bit b k) by lia.
Qed.

Lemma lxor_shift x y k a b :
  0 <= k -> 0 <= a < 2 ^ k -> 0 <= b < 2 ^ k ->
  Z.lxor (x * 2 ^ k + a) (y * 2 ^ k + b) = Z.lxor x y * 2 ^ k + Z.lxor a b.
Proof.
  intros Hk Ha Hb. pose proof (lxor_range a b k Hk Ha Hb).
  rewrite <- !lor_disjoint by lia. apply Z.bits_inj'. intros n Hn.
  rewrite Z.lxor_spec, !Z.lor_spec, (Z.lxor_spec a b). destruct (Z.lt_ge_cases n k) as [Hlt|Hge].
  - by rewrite !Z.mul_pow2_bits_low by lia.
  - rewrite !Z.mul_pow2_bits, Z.lxor_spec, (small_bit a k), (small_bit b k) by lia. by rewrite !orb_false_r.
Qed.

Lemma xor_bytes_length a b : length a = length b -> length (zip_with Z.lxor a b) = length a.
Proof. intros H. rewrite length_zip_with. lia. Qed.

Lemma from_be_xor a b :
  length a = length b -> is_bytes a -> is_bytes b ->
  from_be_bytes (zip_with Z.lxor a b) = Z.lxor (from_be_bytes a) (from_be_bytes b).
Proof.
  revert b. induction a as [|x a IH] using rev_ind; intros b Hl Ha Hb.
  { by destruct b. }
  destruct b as [|y b _] using rev_ind; [rewrite length_app in Hl; simpl in Hl; lia|].
  rewrite !length_app in Hl. simpl in Hl. apply is_bytes_app in Ha as [Ha [Hx _]%is_bytes_cons].
  apply is_bytes_app in Hb as [Hb [Hy _]%is_bytes_cons].
  rewrite zip_with_app by lia. simpl. rewrite !from_be_bytes_snoc, IH by (done || lia).
  change 256 with (2 ^ 8). by rewrite lxor_shift.
Qed.

Lemma is_bytes_xor a b : is_bytes a -> is_bytes b -> is_bytes (zip_with Z.lxor a b).
Proof.
  revert b. induction a as [|x a IH]; intros [|y b] Ha Hb; simpl; try constructor.
  - apply is_bytes_cons in Ha as [Hx _], Hb as [Hy _]. by apply lxor_range.
  - apply is_bytes_cons in Ha as [_ Ha], Hb as [_ Hb]. by apply IH.
Qed.

Section Native.
Context (big : bool).

Lemma to_native_length n w : length (to_native big n w) = n.
Proof. unfold to_native. destruct big; rewrite ?length_rev; apply to_be_bytes_length. Qed.
Lemma to_native_bytes n w : is_bytes (to_native big n w).
Proof. unfold to_native. destruct big; [|apply Forall_rev]; apply to_be_bytes_is_bytes. Qed.

Lemma to_from_native l : is_bytes l -> to_native big (length l) (from_native big l) = l.
Proof.
  intros Hl. unfold to_native, from_native. destruct big; [by apply to_from_be_bytes|].
  rewrite <- (length_rev l), to_from_be_bytes by (by apply Forall_rev). apply rev_involutive.
Qed.

Lemma from_native_range l : is_bytes l -> 0 <= from_native big l < 256 ^ len l.
Proof.
  intros Hl. unfold from_native. destruct big; [by apply from_be_bytes_range|].
  assert (len l = len (rev l)) as -> by (unfold len; by rewrite length_rev).
  apply from_be_bytes_range. by apply Forall_rev.
Qed.

Lemma native_xor a b :
  length a = length b -> is_bytes a -> is_bytes b ->
  to_native big (length a) (Z.lxor (from_native big a) (from_native big b)) = zip_with Z.lxor a b.
Proof.
  intros Hl Ha Hb. rewrite <- (to_from_native (zip_with Z.lxor a b)) by (by apply is_bytes_xor).
  rewrite xor_bytes_length by done. f_equal. unfold from_native. destruct big.
  - by rewrite from_be_xor.
  - rewrite <- from_be_xor by (rewrite ?length_rev; done || by apply Forall_rev).
    f_equal. clear Ha Hb. revert b Hl. induction a as [|x a IH]; intros [|y b] Hl; simpl in *; try lia; [done|].
    rewrite zip_with_app by (rewrite !length_rev; lia). simpl. f_equal. apply IH. lia.
Qed.
End Native.

Lemma from_be_bytes_app l1 l2 :
  from_be_bytes (l1 ++ l2) = from_be_bytes l1 * 2 ^ (8 * len l2) + from_be_bytes l2.
Proof.
  induction l2 as [|x l2 IH] using rev_ind.
  { rewrite app_nil_r. unfold from_be_bytes at 3. change (len (@nil Z)) with 0. simpl. lia. }
  rewrite (assoc_L (++)), !from_be_bytes_snoc, IH, len_app. change (len [x]) with 1.
  replace (8 * (len l2 + 1)) with (8 * len l2 + 8) by lia.
  rewrite Z.pow_add_r by (pose proof (len_nonneg l2); lia). lia.
Qed.

Lemma rotate_left_be l1 l2 :
  is_bytes l1 -> is_bytes l2 -> len l1 + len l2 = 8 -> 0 < len l1 < 8 ->
  rotate_left (from_be_bytes (l1 ++ l2)) (8 * len l1) = from_be_bytes (l2 ++ l1).
Proof.
  intros H1 H2 Hl Hj. rewrite !from_be_bytes_app. unfold rotate_left.
  rewrite (Z.mod_small (8 * len l1)) by lia.
  pose proof (from_be_bytes_range l1 H1) as R1. pose proof (from_be_bytes_range l2 H2) as R2.
  change 256 with (2 ^ 8) in R1, R2. rewrite <- Z.pow_mul_r in R1, R2 by lia.
  replace (64 - 8 * len l1) with (8 * len l2) by lia.
  set (A := from_be_bytes l1) in *. set (C := from_be_bytes l2) in *.
  assert (2 ^ 64 = 2 ^ (8 * len l2) * 2 ^ (8 * len l1)) as E64 by (rewrite <- (Z.pow_add_r 2 (8 * len l2)) by lia; by replace (8 * len l2 + 8 * len l1) with 64 by lia).
  rewrite Z.shiftl_mul_pow2, Z.shiftr_div_pow2 by lia.
  rewrite Z.div_add_l, (Z.div_small C), Z.add_0_r by lia.
  replace (as_u64 _) with (C * 2 ^ (8 * len l1)); [by apply lor_disjoint; lia|].
  unfold as_u64, wrapu. rewrite Z.mul_add_distr_r, <- Z.mul_assoc, <- E64, Z.add_comm, Z.mod_add by lia.
  symmetry. apply Z.mod_small. rewrite E64. nia.
Qed.

Lemma rotate_native (big : bool) l1 l2 :
  is_bytes l1 -> is_bytes l2 -> len l1 + len l2 = 8 -> 0 < len l1 < 8 ->
  (if big then rotate_left (from_native big (l1 ++ l2)) (8 * len l1)
   else rotate_right (from_native big (l1 ++ l2)) (8 * len l1)) = from_native big (l2 ++ l1).
Proof.
  intros H1 H2 Hl Hj. destruct big; [by apply rotate_left_be|]. unfold rotate_right, from_native.
  rewrite !rev_app_distr, (Z.mod_small (8 * len l1)) by lia.
  assert (len (rev l1) = len l1 /\ len (rev l2) = len l2) as [L1 L2] by (unfold len; by rewrite !length_rev).
  replace (64 - 8 * len l1) with (8 * len (rev l2)) by lia.
  apply rotate_left_be; [by apply Forall_rev..| |]; lia.
Qed.

(** ** The mask stream *)

(** The reference, from byte [o] of the stream on. *)
Definition xor_from (mask : list Z) (o : nat) (buf : list Z) : list Z :=
  imap (fun i b => Z.lxor b (mask !!! ((o + i) mod 4)%nat)) buf.

Lemma xor_from_app mask o l1 l2 :
  xor_from mask o (l1 ++ l2) = xor_from mask o l1 ++ xor_from mask (o + length l1) l2.
Proof.
  unfold xor_from. rewrite imap_app. f_equal. apply imap_ext. intros i x _. simpl. by rewrite Nat.add_assoc.
Qed.

Lemma xor_from_mod mask o o' buf : (o mod 4 = o' mod 4)%nat -> xor_from mask o buf = xor_from mask o' buf.
Proof.
  intros Ho. apply imap_ext. intros i x _. do 2 f_equal.
  rewrite Nat.Div0.add_mod, Ho, <- Nat.Div0.add_mod. done.
Qed.

Definition rotated (h : nat) (mask : list Z) : list Z := drop h (mask ++ mask) ++ take h (mask ++ mask).

Lemma xor_rotated mask h buf :
  length mask = 4%nat -> (h < 8)%nat -> (length buf <= 8)%nat ->
  zip_with Z.lxor buf (rotated h mask) = xor_from mask h buf.
Proof.
  intros Hm Hh Hb. apply list_eq. intros i. rewrite lookup_zip_with. unfold xor_from. rewrite list_lookup_imap.
  destruct (buf !! i) as [b|] eqn:Ei; simpl; [|done]. apply lookup_lt_Some in Ei.
  assert (rotated h mask !! i = Some (mask !!! ((h + i) mod 4)%nat)) as ->; [|done].
  assert (i < 8)%nat as Hi by lia. clear Ei Hb. destruct mask as [|m0 [|m1 [|m2 [|m3 [|]]]]]; try done.
  do 8 (destruct h as [|h]; [do 8 (destruct i as [|i]; [reflexivity|]); lia|]). lia.
Qed.

(** ** Splitting at the aligned addresses *)

Lemma align_down x : is_usize x -> Z.land x (not_u 64 0x7) = x / 8 * 8.
Proof.
  intros Hx. change (not_u 64 0x7) with (Z.shiftl (Z.ones 61) 3). change 8 with (2 ^ 3).
  rewrite <- Z.shiftr_div_pow2, <- Z.shiftl_mul_pow2 by lia. apply Z.bits_inj'. intros n Hn.
  rewrite Z.land_spec, !Z.shiftl_spec by lia. destruct (Z.lt_ge_cases n 3).
  - rewrite (Z.testbit_neg_r (Z.ones 61)), (Z.testbit_neg_r (Z.shiftr x 3)) by lia. by rewrite andb_false_r.
  - rewrite Z.shiftr_spec by lia. replace (n - 3 + 3) with n by lia. destruct (Z.lt_ge_cases n 64).
    + rewrite Z.ones_spec_low by lia. apply andb_true_r.
    + rewrite (small_bit x 64 n); [done|lia|done].
Qed.

Lemma split_at_Ok {E A} (l : list A) n :
  0 <= n <= len l -> split_at l n = (Ok (take (Z.to_nat n) l, drop (Z.to_nat n) l) : outcome E _).
Proof. intros H. unfold split_at. by rewrite (proj2 (Z.leb_le 0 n)), (proj2 (Z.leb_le n _)) by lia. Qed.

(** A head and a tail shorter than a word around whole words. *)
Definition segments (buf head mid tail : list Z) : Prop :=
  buf = head ++ mid ++ tail /\ (length head < 8)%nat /\ (length tail < 8)%nat /\ len mid mod 8 = 0.

Lemma align_buf_spec {E} big addr buf :
  0 <= addr -> addr + len buf + 7 < 2 ^ 64 ->
  exists head mid tail, segments buf head mid tail /\
    align_buf big addr buf = (Ok (head, from_native big <$> chunks 8 mid, tail) : outcome E _).
Proof.
  intros Ha Hb. pose proof (len_nonneg buf) as Hl. unfold align_buf.
  assert (forall z, 0 <= z < 2 ^ 64 -> as_usize z = z) as Hu by (intros z; apply wrapu_id).
  rewrite !Hu by lia.
  rewrite !align_down by (unfold in_u; lia).
  destruct (Z.leb_spec ((addr + 7) / 8 * 8) ((addr + len buf) / 8 * 8)) as [Hle|Hgt].
  - set (s := (addr + 7) / 8 * 8 - addr). set (t := (addr + len buf) / 8 * 8 - addr).
    assert (0 <= s < 8 /\ s <= t <= len buf /\ len buf - t < 8 /\ (t - s) mod 8 = 0) as (Hs & Ht & Htl & Hm).
    { subst s t. split_and!; Z.to_euclidean_division_equations; lia. }
    rewrite !Hu by lia. rewrite split_at_Ok by lia. cbn [mbind outcome_bind].
    rewrite split_at_Ok by (unfold len in *; rewrite length_take; lia). cbn [mbind outcome_bind].
    set (tmp := take (Z.to_nat t) buf). assert (len tmp = t) as Elt by (subst tmp; unfold len in *; rewrite length_take; lia).
    exists (take (Z.to_nat s) tmp), (drop (Z.to_nat s) tmp), (drop (Z.to_nat t) buf).
    assert (len (drop (Z.to_nat s) tmp) = t - s) as Elm by (unfold len in *; rewrite length_drop; lia). split.
    + split_and!; [|rewrite length_take; lia|rewrite length_drop; unfold len in *; lia|by rewrite Elm].
      rewrite (assoc_L (++)), take_drop. subst tmp. by rewrite take_drop.
    + unfold cast_slice. rewrite (take_ge (drop _ tmp)); [done|]. rewrite Elm, Z.shiftr_div_pow2 by lia.
      unfold len in Elm. change (2 ^ 3) with 8. Z.to_euclidean_division_equations. lia.
  - exists buf, [], []. split; [|done]. split_and!; [by rewrite !app_nil_r| |simpl; lia|done].
    unfold len in *. Z.to_euclidean_division_equations. lia.
Qed.

(** ** The optimised masking is the byte-wise one *)

Section Equivalence.
Context (big : bool) (mask : list Z) (Hlen : length mask = 4%nat) (Hmask : is_bytes mask).

Lemma rotated_length h : length (rotated h mask) = 8%nat.
Proof. unfold rotated. rewrite length_app, length_drop, length_take, length_app. lia. Qed.
Lemma rotated_bytes h : is_bytes (rotated h mask).
Proof. apply is_bytes_app. split; auto using is_bytes_app with kayrx; apply Forall_drop || apply Forall_take; by apply is_bytes_app. Qed.

Lemma xor_short_spec h buf :
  is_bytes buf -> (h < 8)%nat -> (length buf <= 8)%nat ->
  xor_short big buf (from_native big (rotated h mask)) = xor_from mask h buf.
Proof.
  intros Hb Hh Hl. unfold xor_short. set (w := buf ++ replicate (8 - length buf) 0).
  assert (length w = 8%nat) as Hw by (subst w; rewrite length_app, length_replicate; lia).
  assert (is_bytes w) as Hwb by (apply is_bytes_app; split; [done|]; apply Forall_replicate; done).
  rewrite <- Hw, native_xor by (done || (by rewrite rotated_length) || apply rotated_bytes).
  rewrite <- xor_rotated by done. subst w. rewrite zip_with_app_l, take_app_length'.
  - by rewrite zip_with_take_r.
  - rewrite length_zip_with, length_take, rotated_length. lia.
Qed.

Lemma mid_spec h mid :
  is_bytes mid -> (h < 8)%nat -> len mid mod 8 = 0 ->
  ((fun v => Z.lxor v (from_native big (rotated h mask))) <$> (from_native big <$> chunks 8 mid)) ≫= to_native big 8
  = xor_from mask h mid.
Proof.
  intros Hb Hh. remember (length mid) as n eqn:Hn. revert mid Hn Hb.
  induction n as [n IH] using lt_wf_ind. intros mid -> Hb Hm.
  destruct mid as [|x mid']; [done|]. set (mid := x :: mid') in *.
  assert (8 <= length mid)%nat as Hge.
  { destruct (Nat.le_gt_cases 8 (length mid)); [done|]. unfold len in Hm.
    rewrite Z.mod_small in Hm by lia. simpl in Hm. lia. }
  clearbody mid. rewrite <- (take_drop 8 mid), chunks_app by (rewrite ?length_take; lia).
  rewrite !fmap_cons, bind_cons.
  assert (length (take 8 mid) = 8%nat) as E8 by (rewrite length_take; lia).
  rewrite xor_from_app, E8. f_equal.
  - rewrite <- E8 at 1. rewrite native_xor; [|by rewrite rotated_length|by apply Forall_take|apply rotated_bytes].
    apply xor_rotated; [done|done|lia].
  - rewrite (xor_from_mod mask (h + 8) h) by (rewrite <- (Nat.Div0.mod_add h 2 4); f_equal; lia).
    apply (IH (length (drop 8 mid))); [rewrite length_drop; lia|done|by apply Forall_drop|].
    unfold len in *. rewrite length_drop. Z.to_euclidean_division_equations. lia.
Qed.
End Equivalence.

Lemma mask_u64_native big m :
  is_u32 m -> Z.lor (as_u64 (Z.shiftl m 32)) m = from_native big (rotated 0 (to_native big 4 m)).
Proof.
  intros Hm. assert (from_native big (rotated 0 (to_native big 4 m)) = m * 2 ^ 32 + m) as ->.
  { assert (from_be_bytes (to_be_bytes 4 m) = m) as E4 by (apply from_to_be_bytes; int_lia).
    unfold rotated. rewrite drop_0, take_0, app_nil_r. unfold from_native, to_native.
    destruct big; rewrite ?rev_app_distr, ?rev_involutive, from_be_bytes_app, E4; unfold len;
      by rewrite to_be_bytes_length. }
  rewrite Z.shiftl_mul_pow2 by lia. unfold as_u64. rewrite wrapu_id by int_lia. by apply lor_disjoint.
Qed.

Lemma rotate_mask big m h :
  (0 < h < 8)%nat -> let mask := to_native big 4 m in
  (if big then rotate_left (from_native big (rotated 0 mask)) (8 * Z.of_nat h)
   else rotate_right (from_native big (rotated 0 mask)) (8 * Z.of_nat h)) = from_native big (rotated h mask).
Proof.
  intros Hh mask. assert (length (mask ++ mask) = 8%nat) as H8 by (rewrite length_app; subst mask; by rewrite !to_native_length).
  assert (is_bytes (mask ++ mask)) as Hb by (apply is_bytes_app; split; apply to_native_bytes).
  unfold rotated at 1 2. rewrite drop_0, take_0, app_nil_r.
  pose proof (rotate_native big (take h (mask ++ mask)) (drop h (mask ++ mask))) as H.
  unfold len in H. rewrite take_drop, length_take, length_drop, H8, Nat.min_l in H by lia.
  apply H; [by apply Forall_take|by apply Forall_drop|lia|lia].
Qed.

Lemma apply_mask_spec {E} big addr buf m :
  is_bytes buf -> is_u32 m -> 0 <= addr -> addr + len buf + 7 < 2 ^ 64 ->
  apply_mask big addr buf m = (Ok (apply_mask_fallback buf (to_native big 4 m)) : outcome E _).
Proof.
  intros Hb Hm Ha Hr. unfold apply_mask.
  destruct (align_buf_spec (E:=E) big addr buf Ha Hr) as (head & mid & tail & (-> & Hh & Ht & Hmid) & ->).
  cbn [mbind outcome_bind]. rewrite (mask_u64_native big m Hm). set (mask := to_native big 4 m).
  assert (length mask = 4%nat) as Hl by apply to_native_length.
  assert (is_bytes mask) as Hmb by apply to_native_bytes.
  apply is_bytes_app in Hb as [Hhb [Hmidb Htb]%is_bytes_app].
  replace (apply_mask_fallback _ mask) with (xor_from mask 0 (head ++ mid ++ tail)) by done.
  rewrite !xor_from_app. cbn [Nat.add].
  assert ((if 0 <? len head then (xor_short big head (from_native big (rotated 0 mask)),
      if big then rotate_left (from_native big (rotated 0 mask)) (as_u32 (8 * as_u32 (len head)))
      else rotate_right (from_native big (rotated 0 mask)) (as_u32 (8 * as_u32 (len head))))
    else (head, from_native big (rotated 0 mask))) =
    (xor_from mask 0 head, from_native big (rotated (length head) mask))) as ->.
  { destruct (Z.ltb_spec 0 (len head)) as [H0|H0].
    - assert (as_u32 (8 * as_u32 (len head)) = 8 * Z.of_nat (length head)) as -> by (unfold len in *; int_lia).
      rewrite xor_short_spec by (done || lia). f_equal. apply rotate_mask. unfold len in H0. lia.
    - destruct head; [done|]. unfold len in H0. simpl in H0. lia. }
  cbn [fst snd]. do 2 f_equal. rewrite mid_spec by done. f_equal.
  rewrite (xor_from_mod mask (length head + length mid) (length head)).
  2:{ unfold len in Hmid. assert (exists k, length mid = (8 * k)%nat) as [k ->].
      { exists (length mid / 8)%nat. apply Nat2Z.inj. rewrite Nat2Z.inj_mul, Nat2Z.inj_div.
        Z.to_euclidean_division_equations. lia. }
      rewrite <- (Nat.Div0.mod_add (length head) (2 * k) 4). f_equal. lia. }
  destruct (Z.ltb_spec 0 (len tail)); [by apply xor_short_spec; done || lia|].
  destruct tail; [done|]. unfold len in *. simpl in *. lia.
Qed.

Lemma fallback_length buf mask : length (apply_mask_fallback buf mask) = length buf.
Proof. apply length_imap. Qed.

(** Masking twice restores the payload. *)
Lemma fallback_involutive buf mask : apply_mask_fallback (apply_mask_fallback buf mask) mask = buf.
Proof.
  apply list_eq. intros i. unfold apply_mask_fallback. rewrite !list_lookup_imap.
  destruct (buf !! i); simpl; [|done]. by rewrite Z.lxor_assoc, Z.lxor_nilpotent, Z.lxor_0_r.
Qed.

Lemma mask_byte mask i : is_bytes mask -> is_u8 (mask !!! i).
Proof.
  intros Hm. rewrite list_lookup_total_alt. destruct (mask !! i) as [y|] eqn:Ey.
  - by apply (Forall_lookup_1 _ _ _ _ Hm Ey).
  - split; vm_compute; congruence.
Qed.

Lemma fallback_bytes buf mask : is_bytes buf -> is_bytes mask -> is_bytes (apply_mask_fallback buf mask).
Proof.
  intros Hb Hm. apply Forall_lookup. intros i x. unfold apply_mask_fallback. rewrite list_lookup_imap.
  destruct (buf !! i) as [b|] eqn:Ei; [|done]. intros [= <-].
  apply lxor_range; [lia|by apply (Forall_lookup_1 _ _ _ _ Hb Ei)|by apply mask_byte].
Qed.

(** C37. The word-wise masking is the byte-wise one: wherever the buffer lies in
    memory, [apply_mask] combines byte [i] of the payload with byte [i mod 4] of
    the mask as the target stores it, and reads or writes nothing else. *)
Theorem apply_mask_reference {E} big addr buf m :
  is_bytes buf -> is_u32 m -> 0 <= addr -> addr + len buf + 7 < 2 ^ 64 ->
  apply_mask big addr buf m = (Ok (apply_mask_fallback buf (to_native big 4 m)) : outcome E _).
Proof. apply apply_mask_spec. Qed.

Lemma apply_mask_reference_witness :
  apply_mask false 4099 [1; 2; 3; 4; 5; 6; 7; 8; 9; 10; 11; 12; 13; 14; 15; 16] 0x04030201 =
  (Ok [0; 0; 0; 0; 4; 4; 4; 12; 8; 8; 8; 8; 12; 12; 12; 20] : outcome () _).
Proof.
  refine (eq_trans (apply_mask_reference false 4099 _ _ _ _ _ _) _);
    [apply (bool_decide_unpack _); vm_compute; exact I|split; vm_compute; congruence|lia|vm_compute; reflexivity|].
  vm_compute. reflexivity.
Defined.
