(* ===== verification/WsFrame.v ===== *)
(** * WebSocket frames and codec ([websocket/proto.rs], [websocket/frame.rs], [websocket/codec.rs])

    Op codes and close codes, the frame parser and writer, and the codec with
    its continuation state for each direction.  A random mask and the address of
    a buffer are arguments where the code draws or uses one; payloads and the
    text of a [String] are byte lists. *)

From S2P Require Import Prelude Bytes HttpTypes WsMask.

(** ** [String::from_utf8_lossy] *)

(** The bytes of the next character, or of the ill-formed sequence that is
    replaced: how many there are, and whether they are a character. *)
Definition utf8_char (l : list Z) : nat * bool :=
  let cont := in_range 0x80 0xBF in
  match l with
  | [] => (O, true)
  | b0 :: l =>
      if b0 <=? 0x7F then (1%nat, true)
      else if in_range 0xC2 0xDF b0 then
        match l with
        | b1 :: _ => if cont b1 then (2%nat, true) else (1%nat, false)
        | [] => (1%nat, false)
        end
      else if in_range 0xE0 0xEF b0 then
        let lo := if b0 =? 0xE0 then 0xA0 else 0x80 in
        let hi := if b0 =? 0xED then 0x9F else 0xBF in
        match l with
        | b1 :: l =>
            if in_range lo hi b1 then
              match l with
              | b2 :: _ => if cont b2 then (3%nat, true) else (2%nat, false)
              | [] => (2%nat, false)
              end
            else (1%nat, false)
        | [] => (1%nat, false)
        end
      else if in_range 0xF0 0xF4 b0 then
        let lo := if b0 =? 0xF0 then 0x90 else 0x80 in
        let hi := if b0 =? 0xF4 then 0x8F else 0xBF in
        match l with
        | b1 :: l =>
            if in_range lo hi b1 then
              match l with
              | b2 :: l =>
                  if cont b2 then
                    match l with
                    | b3 :: _ => if cont b3 then (4%nat, true) else (3%nat, false)
                    | [] => (3%nat, false)
                    end
                  else (2%nat, false)
              | [] => (2%nat, false)
              end
            else (1%nat, false)
        | [] => (1%nat, false)
        end
      else (1%nat, false)
  end.

Definition REPLACEMENT : list Z := [0xEF; 0xBF; 0xBD].

Fixpoint lossy_fuel (fuel : nat) (l : list Z) : list Z :=
  match fuel, l with
  | S fuel, _ :: _ =>
      let '(n, ok) := utf8_char l in
      (if ok : bool then take n l else REPLACEMENT) ++ lossy_fuel fuel (drop n l)
  | _, _ => []
  end.
Definition from_utf8_lossy (l : list Z) : list Z := lossy_fuel (length l) l.

(** ** Op codes and close codes *)

(** [websocket/proto.rs] OpCode *)
Inductive OpCode := Continue | Text | Binary | Close | Ping | Pong | Bad.

#[export] Instance OpCode_eq_dec : EqDecision OpCode.
Proof. solve_decision. Defined.

Module OpCode.
(** [websocket/proto.rs] OpCode as Into<u8>::into *)
Definition into (op : OpCode) : Z :=
  match op with
  | Continue => 0 | Text => 1 | Binary => 2 | Close => 8 | Ping => 9 | Pong => 10
  | Bad => 8
  end.

(** [websocket/proto.rs] OpCode as From<u8>::from *)
Definition from (byte : Z) : OpCode :=
  match byte with
  | 0 => Continue | 1 => Text | 2 => Binary | 8 => Close | 9 => Ping | 10 => Pong
  | _ => Bad
  end.
End OpCode.

(** [websocket/proto.rs] CloseCode *)
Inductive CloseCode :=
  | Normal | Away | Protocol | Unsupported | Abnormal | Invalid | Policy | Size
  | Extension | Error | Restart | Again | Tls
  | Other (code : Z).

Module CloseCode.
(** [websocket/proto.rs] CloseCode as Into<u16>::into *)
Definition into (c : CloseCode) : Z :=
  match c with
  | Normal => 1000 | Away => 1001 | Protocol => 1002 | Unsupported => 1003
  | Abnormal => 1006 | Invalid => 1007 | Policy => 1008 | Size => 1009
  | Extension => 1010 | Error => 1011 | Restart => 1012 | Again => 1013 | Tls => 1015
  | Other code => code
  end.

(** [websocket/proto.rs] CloseCode as From<u16>::from *)
Definition from (code : Z) : CloseCode :=
  match code with
  | 1000 => Normal | 1001 => Away | 1002 => Protocol | 1003 => Unsupported
  | 1006 => Abnormal | 1007 => Invalid | 1008 => Policy | 1009 => Size
  | 1010 => Extension | 1011 => Error | 1012 => Restart | 1013 => Again | 1015 => Tls
  | _ => Other code
  end.
End CloseCode.

(** [websocket/proto.rs] CloseReason *)
Record CloseReason := MkCloseReason { code : CloseCode; description : option (list Z) }.

(** [websocket/mod.rs] ProtocolError *)
Inductive ProtocolError :=
  | UnmaskedFrame
  | MaskedFrame
  | InvalidOpcode (byte : Z)
  | InvalidLength (n : Z)
  | BadOpCode
  | Overflow
  | ContinuationNotStarted
  | ContinuationStarted
  | ContinuationFragment (op : OpCode).

(** ** Frames *)

(** [u32::from_le_bytes], [put_u32_le] *)
Definition from_le_bytes (l : list Z) : Z := from_be_bytes (rev l).
Definition to_le_bytes (n : nat) (z : Z) : list Z := rev (to_be_bytes n z).

Module Parser.

(** [websocket/frame.rs] Parser::parse_metadata *)
Definition parse_metadata (src : list Z) (server : bool) (max_size : Z) :
    outcome ProtocolError (option (Z * bool * OpCode * Z * option Z)) :=
  let chunk_len := len src in
  let idx := 2 in
  if chunk_len <? 2 then Ok None
  else
    first ← index src 0;
    second ← index src 1;
    let finished := negb (Z.land first 0x80 =? 0) in
    let masked := negb (Z.land second 0x80 =? 0) in
    if negb masked && server then Err UnmaskedFrame
    else if masked && negb server then Err MaskedFrame
    else
      let opcode := OpCode.from (Z.land first 0x0F) in
      if bool_decide (opcode = Bad) then Err (InvalidOpcode (Z.land first 0x0F))
      else
        let len7 := Z.land second 0x7F in
        r ← (if len7 =? 126 then
               if chunk_len <? 4 then Ok None
               else
                 s ← slice src idx 2;
                 Ok (Some (from_be_bytes s, idx + 2))
             else if len7 =? 127 then
               if chunk_len <? 10 then Ok None
               else
                 s ← slice src idx 8;
                 let n := from_be_bytes s in
                 if max_size <? n then Err Overflow
                 else Ok (Some (n, idx + 8))
             else Ok (Some (len7, idx)));
        match r with
        | None => Ok None
        | Some (length, idx) =>
            if max_size <? length then Err Overflow
            else if server then
              if chunk_len <? idx + 4 then Ok None
              else
                s ← slice src idx 4;
                Ok (Some (idx + 4, finished, opcode, length, Some (from_le_bytes s)))
            else Ok (Some (idx, finished, opcode, length, None))
        end.

(** [websocket/frame.rs] Parser::parse_close_payload *)
Definition parse_close_payload (payload : list Z) : outcome ProtocolError (option CloseReason) :=
  if 2 <=? len payload then
    s ← slice_to payload 2;
    let raw_code := from_be_bytes s in
    let code := CloseCode.from raw_code in
    description ← (if 2 <? len payload then
                     s ← slice_from payload 2; Ok (Some (from_utf8_lossy s))
                   else Ok None);
    Ok (Some (MkCloseReason code description))
  else Ok None.

Section Buffers.
Context `{BM : BytesMut B} (big : bool).

(** Bytes of a buffer from [i] on replaced by [s]. *)
Fixpoint bm_overwrite (b : B) (i : nat) (s : list Z) : B :=
  match s with
  | [] => b
  | x :: s => bm_overwrite (bm_set b i x) (S i) s
  end.

(** [apply_mask(&mut b[pos..], mask)] for a slice at address [addr] *)
Definition mask_from {E} (addr : Z) (b : B) (pos mask : Z) : outcome E B :=
  s ← slice_from (buf_bytes b) pos;
  s ← apply_mask big addr s mask;
  Ok (bm_overwrite b (Z.to_nat pos) s).

(** [websocket/frame.rs] Parser::parse *)
Definition parse (addr : Z) (server : bool) (max_size : Z) :
    SE B ProtocolError (option (bool * OpCode * option B)) :=
  src ← gets buf_bytes;
  r ← lift (parse_metadata src server max_size);
  match r with
  | None => mret None
  | Some (idx, finished, opcode, length, mask) =>
      if len src <? as_usize (idx + length) then mret None
      else
        _ ← modify (fun b => (bm_split_to b (Z.to_nat idx)).2);
        if length =? 0 then mret (Some (finished, opcode, None))
        else
          data ← gets (fun b => (bm_split_to b (Z.to_nat length)).1);
          _ ← modify (fun b => (bm_split_to b (Z.to_nat length)).2);
          match opcode with
          | Ping | Pong => if 125 <? length then throw (InvalidLength length) else mret ()
          | _ => mret ()
          end;;
          if bool_decide (opcode = Close) && (125 <? length) then mret (Some (true, Close, None))
          else
            match mask with
            | Some mask =>
                data ← lift (mask_from addr data 0 mask);
                mret (Some (finished, opcode, Some data))
            | None => mret (Some (finished, opcode, Some data))
            end
  end.

(** [websocket/frame.rs] Parser::write_message *)
Definition write_message {E} (rand addr : Z) (payload : list Z) (op : OpCode) (fin mask : bool) (dst : B) :
    outcome E B :=
  let one := if fin then Z.lor 0x80 (OpCode.into op) else OpCode.into op in
  let payload_len := len payload in
  let two := if mask then 0x80 else 0 in
  let dst :=
    if payload_len <? 126 then put_slice dst [one; Z.lor two (as_u8 payload_len)]
    else if payload_len <=? 65535 then
      put_u16 (put_slice dst [one; Z.lor two 126]) (as_u16 payload_len)
    else put_u64 (put_slice dst [one; Z.lor two 127]) payload_len in
  if mask then
    let dst := put_slice dst (to_le_bytes 4 rand) in
    let dst := put_slice dst payload in
    let pos := len (buf_bytes dst) - payload_len in
    mask_from addr dst pos rand
  else Ok (put_slice dst payload).

(** [websocket/frame.rs] Parser::write_close *)
Definition write_close {E} (rand addr : Z) (reason : option CloseReason) (mask : bool) (dst : B) :
    outcome E B :=
  let payload :=
    match reason with
    | None => []
    | Some reason =>
        to_be_bytes 2 (CloseCode.into (code reason)) ++
        match description reason with Some d => d | None => [] end
    end in
  write_message rand addr payload Close true mask dst.

End Buffers.
End Parser.

(** ** The codec *)

(** [websocket/codec.rs] Item *)
Inductive Item :=
  | FirstText (b : list Z)
  | FirstBinary (b : list Z)
  | ItemContinue (b : list Z)
  | Last (b : list Z).

(** [websocket/codec.rs] Message *)
Inductive Message :=
  | MText (txt : list Z)
  | MBinary (bin : list Z)
  | MContinuation (cont : Item)
  | MPing (txt : list Z)
  | MPong (txt : list Z)
  | MClose (reason : option CloseReason)
  | Nop.

(** [websocket/codec.rs] Frame *)
Inductive Frame :=
  | FText (b : list Z)
  | FBinary (b : list Z)
  | FContinuation (i : Item)
  | FPing (b : list Z)
  | FPong (b : list Z)
  | FClose (reason : option CloseReason).

(** [websocket/codec.rs:60-64] *)
Definition SERVER : Z := 1.
Definition CONTINUATION : Z := 2.
Definition W_CONTINUATION : Z := 4.

(** [websocket/codec.rs] Codec *)
Record Codec := MkCodec { flags : Z; codec_max_size : Z }.

Module Codec.

(** The operations of [bitflags] on a [u8]. *)
Definition contains (f : Z) (c : Codec) : bool := Z.land (flags c) f =? f.
Definition insert (f : Z) (c : Codec) : Codec := MkCodec (Z.lor (flags c) f) (codec_max_size c).
Definition remove (f : Z) (c : Codec) : Codec :=
  MkCodec (Z.land (flags c) (not_u 8 f)) (codec_max_size c).

(** [websocket/codec.rs] Codec::new *)
Definition new : Codec := MkCodec SERVER 65536.

(** [websocket/codec.rs] Codec::max_size *)
Definition max_size (size : Z) (c : Codec) : Codec := MkCodec (flags c) size.

(** [websocket/codec.rs] Codec::client_mode *)
Definition client_mode (c : Codec) : Codec := remove SERVER c.

Section Codec.
Context `{BM : BytesMut B} (big : bool).

Definition write_dst (f : bool -> B -> outcome ProtocolError B) : SE (Codec * B) ProtocolError () :=
  s ← get;
  dst ← lift (f (negb (contains SERVER s.1)) s.2);
  modify (fun s => (s.1, dst)).

(** [websocket/codec.rs] Codec as Encoder::encode *)
Definition encode (rand addr : Z) (item : Message) : SE (Codec * B) ProtocolError () :=
  let write_message pl op fin := write_dst (Parser.write_message big rand addr pl op fin) in
  let started k := s ← get; if contains W_CONTINUATION s.1 then k true else k false in
  let set f := modify (fun s => (f s.1, s.2)) in
  match item with
  | MText txt => write_message txt Text true
  | MBinary bin => write_message bin Binary true
  | MPing txt => write_message txt Ping true
  | MPong txt => write_message txt Pong true
  | MClose reason => write_dst (Parser.write_close big rand addr reason)
  | MContinuation (FirstText data) =>
      started (fun b : bool => if b then throw ContinuationStarted
        else _ ← set (insert W_CONTINUATION); write_message data Binary false)
  | MContinuation (FirstBinary data) =>
      started (fun b : bool => if b then throw ContinuationStarted
        else _ ← set (insert W_CONTINUATION); write_message data Text false)
  | MContinuation (ItemContinue data) =>
      started (fun b : bool => if b then write_message data Continue false
        else throw ContinuationNotStarted)
  | MContinuation (Last data) =>
      started (fun b : bool => if b then _ ← set (remove W_CONTINUATION); write_message data Continue true
        else throw ContinuationNotStarted)
  | Nop => mret ()
  end.

(** [payload.map(|pl| pl.freeze()).unwrap_or_else(Bytes::new)] *)
Definition bytes_or_empty (payload : option B) : list Z :=
  match payload with Some pl => buf_bytes pl | None => [] end.

(** [websocket/codec.rs] Codec as Decoder::decode *)
Definition decode (addr : Z) : SE (Codec * B) ProtocolError (option Frame) :=
  c ← gets fst;
  r ← zoom snd (fun b s => (s.1, b)) (Parser.parse big addr (contains SERVER c) (codec_max_size c));
  let set f := modify (fun s : Codec * B => (f s.1, s.2)) in
  match r with
  | None => mret None
  | Some (finished, opcode, payload) =>
      if negb finished then
        match opcode with
        | Continue =>
            if contains CONTINUATION c
            then mret (Some (FContinuation (ItemContinue (bytes_or_empty payload))))
            else throw ContinuationNotStarted
        | Binary =>
            if negb (contains CONTINUATION c) then
              _ ← set (insert CONTINUATION);
              mret (Some (FContinuation (FirstBinary (bytes_or_empty payload))))
            else throw ContinuationStarted
        | Text =>
            if negb (contains CONTINUATION c) then
              _ ← set (insert CONTINUATION);
              mret (Some (FContinuation (FirstText (bytes_or_empty payload))))
            else throw ContinuationStarted
        | _ => throw (ContinuationFragment opcode)
        end
      else
        match opcode with
        | Continue =>
            if contains CONTINUATION c then
              _ ← set (remove CONTINUATION);
              mret (Some (FContinuation (Last (bytes_or_empty payload))))
            else throw ContinuationNotStarted
        | Bad => throw BadOpCode
        | Close =>
            match payload with
            | Some pl =>
                close_reason ← lift (Parser.parse_close_payload (buf_bytes pl));
                mret (Some (FClose close_reason))
            | None => mret (Some (FClose None))
            end
        | Ping => mret (Some (FPing (bytes_or_empty payload)))
        | Pong => mret (Some (FPong (bytes_or_empty payload)))
        | Binary => mret (Some (FBinary (bytes_or_empty payload)))
        | Text => mret (Some (FText (bytes_or_empty payload)))
        end
  end.

End Codec.
End Codec.
