(* ===== verification/WsFrameCorrect.v ===== *)
(** * WebSocket frames: the writer against the parser

    What the codec of one endpoint writes, the codec of the other reads, in
    whatever pieces the bytes arrive. *)

From S2P Require Import Prelude Bytes HttpTypes WsMask WsFrame.

(** ** The wire format of a frame *)

Definition length_bytes (two n : Z) : list Z :=
  if n <? 126 then [Z.lor two n]
  else if n <=? 65535 then Z.lor two 126 :: to_be_bytes 2 n
  else Z.lor two 127 :: to_be_bytes 8 n.

Definition first_byte (op : OpCode) (fin : bool) : Z :=
  if fin then Z.lor 0x80 (OpCode.into op) else OpCode.into op.

(** The frame of an endpoint that masks with [mask], if it does. *)
Definition frame_bytes (big : bool) (op : OpCode) (fin : bool) (mask : option Z) (payload : list Z) : list Z :=
  first_byte op fin ::
  match mask with
  | Some m => length_bytes 0x80 (len payload) ++ to_le_bytes 4 m ++
      apply_mask_fallback payload (to_native big 4 m)
  | None => length_bytes 0 (len payload) ++ payload
  end.

(** ** Writing *)

Section Write.
Context `{BM : BytesMut B} (big : bool).

Lemma bm_overwrite_bytes s : forall (b : B) i,
  (i + length s <= length (buf_bytes b))%nat ->
  buf_bytes (Parser.bm_overwrite b i s) =
  take i (buf_bytes b) ++ s ++ drop (i + length s) (buf_bytes b).
Proof.
  induction s as [|x s IH]; intros b i Hi; simpl in *.
  { by rewrite Nat.add_0_r, take_drop. }
  assert (i < length (buf_bytes b))%nat as Hlt by lia.
  rewrite IH; rewrite bm_set_bytes by done; [|rewrite length_insert; lia].
  rewrite (take_S_r _ i x) by (by apply list_lookup_insert_eq). rewrite take_insert_ge by lia.
  rewrite drop_insert_lt by lia. rewrite <- (assoc_L (++)). simpl. do 4 f_equal. lia.
Qed.

Lemma mask_from_spec {E} addr (b : B) pre payload m :
  buf_bytes b = pre ++ payload -> is_bytes payload -> is_u32 m -> 0 <= addr ->
  addr + len payload + 7 < 2 ^ 64 ->
  exists b', Parser.mask_from big addr b (len pre) m = (Ok b' : outcome E B) /\
    buf_bytes b' = pre ++ apply_mask_fallback payload (to_native big 4 m).
Proof.
  intros Hb Hp Hm Ha Hr. unfold Parser.mask_from. rewrite Hb, (slice_from_app pre payload) by done.
  cbn [mbind outcome_bind]. rewrite apply_mask_spec by done. cbn [mbind outcome_bind].
  eexists. split; [done|]. rewrite bm_overwrite_bytes.
  - rewrite Hb. unfold len. rewrite Nat2Z.id, fallback_length, take_app_length.
    rewrite drop_ge, app_nil_r by (rewrite length_app; lia). done.
  - rewrite Hb, fallback_length, length_app. unfold len. lia.
Qed.

Lemma write_message_spec {E} rand addr payload op fin (mask : bool) (dst : B) :
  is_bytes payload -> is_u32 rand -> 0 <= addr -> addr + len payload + 7 < 2 ^ 64 ->
  len (buf_bytes dst) + len payload + 14 < 2 ^ 64 ->
  exists dst', Parser.write_message big rand addr payload op fin mask dst = (Ok dst' : outcome E B) /\
    buf_bytes dst' = buf_bytes dst ++ frame_bytes big op fin (if mask then Some rand else None) payload.
Proof.
  intros Hp Hm Ha Hr Hroom. unfold Parser.write_message. cbv zeta. pose proof (len_nonneg payload) as Hl.
  pose proof (len_nonneg (buf_bytes dst)) as Hd.
  set (two := if mask then 0x80 else 0).
  assert (exists d, buf_bytes d = buf_bytes dst ++ first_byte op fin :: length_bytes two (len payload) /\
    len (length_bytes two (len payload)) <= 9 /\
    (if len payload <? 126 then put_slice dst [first_byte op fin; Z.lor two (as_u8 (len payload))]
     else if len payload <=? 65535
     then put_u16 (put_slice dst [first_byte op fin; Z.lor two 126]) (as_u16 (len payload))
     else put_u64 (put_slice dst [first_byte op fin; Z.lor two 127]) (len payload)) = d) as (d & Hd1 & Hd2 & Hd3).
  { eexists. split; [|split; [|reflexivity]]; unfold length_bytes;
      destruct (Z.ltb_spec (len payload) 126); [|destruct (Z.leb_spec (len payload) 65535)| |destruct (Z.leb_spec (len payload) 65535)];
      unfold put_u16, put_u64, len at 1; rewrite ?length_cons, ?to_be_bytes_length; simpl; try lia.
    - rewrite (put_slice_app _ _ (buf_bytes dst)); [|done|unfold len in *; simpl; lia].
      do 4 f_equal. unfold as_u8. apply wrapu_id. int_lia.
    - rewrite (put_slice_app _ _ (buf_bytes dst ++ [first_byte op fin; Z.lor two 126])).
      + rewrite <- (assoc_L (++)). simpl. do 4 f_equal. unfold as_u16. apply wrapu_id. int_lia.
      + apply put_slice_app; [done|unfold len in *; simpl; lia].
      + rewrite len_app. unfold len in *. rewrite to_be_bytes_length. simpl. lia.
    - rewrite (put_slice_app _ _ (buf_bytes dst ++ [first_byte op fin; Z.lor two 127])).
      + by rewrite <- (assoc_L (++)).
      + apply put_slice_app; [done|unfold len in *; simpl; lia].
      + rewrite len_app. unfold len in *. rewrite to_be_bytes_length. simpl. lia. }
  fold (first_byte op fin). rewrite Hd3. clear Hd3. unfold frame_bytes.
  assert (len (buf_bytes d) <= len (buf_bytes dst) + 10) as Hdl by (rewrite Hd1, len_app, len_cons; lia).
  assert (len (to_le_bytes 4 rand) = 4) as L4 by (unfold len, to_le_bytes; by rewrite length_rev, to_be_bytes_length).
  destruct mask.
  - set (pre := buf_bytes d ++ to_le_bytes 4 rand).
    assert (buf_bytes (put_slice (put_slice d (to_le_bytes 4 rand)) payload) = pre ++ payload) as Hb.
    { apply put_slice_app; [|subst pre; rewrite len_app; lia]. apply put_slice_app; [done|lia]. }
    destruct (mask_from_spec (E:=E) addr _ pre payload rand Hb Hp Hm Ha Hr) as (b' & Eb & Hb').
    rewrite Hb, len_app. replace (len pre + len payload - len payload) with (len pre) by lia.
    exists b'. split; [exact Eb|]. rewrite Hb'. subst pre. rewrite Hd1, <- !(assoc_L (++)). done.
  - eexists. split; [done|]. rewrite (put_slice_app _ _ _ Hd1); [by rewrite <- (assoc_L (++))|].
    rewrite <- Hd1. lia.
Qed.
End Write.

(** ** Parsing *)

Definition masked (mask : option Z) : bool := match mask with Some _ => true | None => false end.
Definition mask_bit (mask : option Z) : Z := if masked mask then 0x80 else 0.

Lemma first_byte_bits op fin :
  op <> Bad ->
  negb (Z.land (first_byte op fin) 0x80 =? 0) = fin /\
  OpCode.from (Z.land (first_byte op fin) 0x0F) = op.
Proof. by destruct op, fin. Qed.

Lemma second_byte_bits mask x :
  0 <= x <= 127 ->
  negb (Z.land (Z.lor (mask_bit mask) x) 0x80 =? 0) = masked mask /\
  Z.land (Z.lor (mask_bit mask) x) 0x7F = x.
Proof.
  intros Hx. assert (Z.lor (mask_bit mask) x = mask_bit mask + x) as ->.
  { destruct mask; [|done]. apply (lor_disjoint 1 x 7); lia. }
  change 0x80 with (2 ^ 7). change 0x7F with (2 ^ 7 - 1). rewrite land_low by lia.
  unfold mask_bit. rewrite land_top; [|lia|change (2 ^ (7 + 1)) with 256; destruct (masked mask); lia].
  destruct (masked mask).
  - rewrite (proj2 (Z.leb_le _ _)) by lia. split; [done|].
    rewrite <- (Z.mod_small x (2 ^ 7)) at 2 by lia. rewrite <- (Z.mod_add x 1 (2 ^ 7)) by lia. f_equal. lia.
  - rewrite (proj2 (Z.leb_gt _ _)) by lia. split; [done|]. apply Z.mod_small. lia.
Qed.

(** The extended length behind the first two bytes. *)
Definition ext_bytes (n : Z) : list Z :=
  if n <? 126 then [] else if n <=? 65535 then to_be_bytes 2 n else to_be_bytes 8 n.
Definition len7 (n : Z) : Z := if n <? 126 then n else if n <=? 65535 then 126 else 127.

Lemma length_bytes_parts two n : length_bytes two n = Z.lor two (len7 n) :: ext_bytes n.
Proof. unfold length_bytes, ext_bytes, len7. destruct (n <? 126); [done|]. by destruct (n <=? 65535). Qed.

Lemma slice_at {E} (a b : Z) (rest : list Z) i n :
  0 <= i -> 0 <= n -> i + n <= len rest ->
  slice (a :: b :: rest) (2 + i) n = (Ok (take (Z.to_nat n) (drop (Z.to_nat i) rest)) : outcome E _).
Proof.
  intros Hi Hn Hl. unfold slice. unfold slice_from. rewrite !len_cons.
  rewrite (proj2 (Z.leb_le 0 (2 + i))), (proj2 (Z.leb_le (2 + i) _)) by lia. cbn [andb mbind outcome_bind].
  replace (Z.to_nat (2 + i)) with (S (S (Z.to_nat i))) by lia. cbn [drop].
  apply slice_to_Ok. unfold len in *. rewrite length_drop. lia.
Qed.

Lemma ltb_shift a b k : (k + a <? k + b) = (a <? b).
Proof. destruct (Z.ltb_spec a b), (Z.ltb_spec (k + a) (k + b)); done || lia. Qed.

(** The part of [parse_metadata] behind the length. *)
Definition mask_part (src : list Z) (fin : bool) (op : OpCode) (server : bool) (max : Z) (r : option (Z * Z)) :
    outcome ProtocolError (option (Z * bool * OpCode * Z * option Z)) :=
  match r with
  | None => Ok None
  | Some (n, idx) =>
      if max <? n then Err Overflow
      else if server then
        if len src <? idx + 4 then Ok None
        else s ← slice src idx 4; Ok (Some (idx + 4, fin, op, n, Some (from_le_bytes s)))
      else Ok (Some (idx, fin, op, n, None))
  end.

(** What is known of a frame of [n] bytes when [rest] has arrived behind the
    first two bytes and the length takes [e] more bytes. *)
Definition seen (fin : bool) (op : OpCode) (mask : option Z) (n : Z) (rest : list Z) (e : Z) :
    option (Z * bool * OpCode * Z * option Z) :=
  if masked mask then
    if len rest <? e + 4 then None
    else Some (2 + e + 4, fin, op, n, Some (from_le_bytes (take 4 (drop (Z.to_nat e) rest))))
  else Some (2 + e, fin, op, n, None).

Lemma mask_part_spec a b rest fin op mask max n e :
  0 <= e <= len rest -> n <= max ->
  mask_part (a :: b :: rest) fin op (masked mask) max (Some (n, 2 + e)) = Ok (seen fin op mask n rest e).
Proof.
  intros He Hn. unfold mask_part, seen. rewrite (proj2 (Z.ltb_ge _ _)) by lia.
  destruct (masked mask); [|done]. rewrite !len_cons.
  replace (1 + (1 + len rest)) with (2 + len rest) by lia. rewrite <- Z.add_assoc, ltb_shift, Z.add_assoc.
  destruct (Z.ltb_spec (len rest) (e + 4)); [done|]. by rewrite slice_at by lia.
Qed.

(** The part of [parse_metadata] that reads the length. *)
Definition length_part (src : list Z) (max l7 : Z) : outcome ProtocolError (option (Z * Z)) :=
  if l7 =? 126 then
    if len src <? 4 then Ok None else s ← slice src 2 2; Ok (Some (from_be_bytes s, 2 + 2))
  else if l7 =? 127 then
    if len src <? 10 then Ok None
    else s ← slice src 2 8; if max <? from_be_bytes s then Err Overflow else Ok (Some (from_be_bytes s, 2 + 8))
  else Ok (Some (l7, 2)).

Lemma length_part_spec a b rest n max :
  0 <= n < 2 ^ 64 -> n <= max ->
  (len (ext_bytes n) <= len rest -> take (length (ext_bytes n)) rest = ext_bytes n) ->
  length_part (a :: b :: rest) max (len7 n) =
  if len rest <? len (ext_bytes n) then Ok None else Ok (Some (n, 2 + len (ext_bytes n))).
Proof.
  intros Hn Hmax Hext. unfold length_part, len7. unfold ext_bytes in *. rewrite !len_cons.
  pose proof (len_nonneg rest). replace (1 + (1 + len rest)) with (2 + len rest) by lia.
  change 4 with (2 + 2) at 1. change 10 with (2 + 8) at 1. rewrite !ltb_shift.
  destruct (Z.ltb_spec n 126) as [Hs|Hs]; [|destruct (Z.leb_spec n 65535) as [Hm|Hm]].
  - rewrite (proj2 (Z.eqb_neq n 126)), (proj2 (Z.eqb_neq n 127)) by lia. change (len (@nil Z)) with 0.
    by rewrite (proj2 (Z.ltb_ge (len rest) 0)) by lia.
  - assert (len (to_be_bytes 2 n) = 2) as L by (unfold len; by rewrite to_be_bytes_length).
    rewrite L, to_be_bytes_length in Hext. rewrite L. cbn [Z.eqb Pos.eqb].
    destruct (Z.ltb_spec (len rest) 2) as [|Hge]; [done|].
    rewrite (slice_at a b rest 0 2) by lia. cbn [mbind outcome_bind Z.to_nat]. rewrite drop_0.
    change (Z.to_nat 2) with 2%nat. rewrite Hext, from_to_be_bytes; [done|lia..].
  - assert (len (to_be_bytes 8 n) = 8) as L by (unfold len; by rewrite to_be_bytes_length).
    rewrite L, to_be_bytes_length in Hext. rewrite L. cbn [Z.eqb Pos.eqb].
    destruct (Z.ltb_spec (len rest) 8) as [|Hge]; [done|].
    rewrite (slice_at a b rest 0 8) by lia. cbn [mbind outcome_bind Z.to_nat]. rewrite drop_0.
    change (Z.to_nat 8) with 8%nat. rewrite Hext, from_to_be_bytes by lia.
    by rewrite (proj2 (Z.ltb_ge _ _)) by lia.
Qed.

(** What the parser makes of a frame head of which [rest] has arrived behind
    the first two bytes. *)
Lemma parse_metadata_spec op fin mask n rest max :
  op <> Bad -> 0 <= n < 2 ^ 64 -> n <= max ->
  (len (ext_bytes n) <= len rest -> take (length (ext_bytes n)) rest = ext_bytes n) ->
  Parser.parse_metadata (first_byte op fin :: Z.lor (mask_bit mask) (len7 n) :: rest) (masked mask) max =
  Ok (if len rest <? len (ext_bytes n) then None else seen fin op mask n rest (len (ext_bytes n))).
Proof.
  intros Hop Hn Hmax Hext.
  assert (0 <= len7 n <= 127) as H7 by (unfold len7; case_bools; lia).
  destruct (first_byte_bits op fin Hop) as [Hf1 Hf2]. destruct (second_byte_bits mask (len7 n) H7) as [Hs1 Hs2].
  set (a := first_byte op fin) in *. set (b := Z.lor (mask_bit mask) (len7 n)) in *.
  transitivity (r ← length_part (a :: b :: rest) max (len7 n);
    mask_part (a :: b :: rest) fin op (masked mask) max r).
  - unfold Parser.parse_metadata. rewrite (proj2 (Z.ltb_ge _ _)) by (rewrite !len_cons; pose proof (len_nonneg rest); lia).
    change (index (a :: b :: rest) 0) with (Ok a : outcome ProtocolError Z).
    change (index (a :: b :: rest) 1) with (Ok b : outcome ProtocolError Z). cbn [mbind outcome_bind].
    rewrite Hf1, Hf2, Hs1, Hs2.
    assert (negb (masked mask) && masked mask = false /\ masked mask && negb (masked mask) = false) as [-> ->]
      by (by destruct (masked mask)).
    by rewrite (bool_decide_false (op = Bad)).
  - rewrite length_part_spec by done. destruct (Z.ltb_spec (len rest) (len (ext_bytes n))); [done|].
    cbn [mbind outcome_bind]. apply mask_part_spec; [|done]. pose proof (len_nonneg (ext_bytes n)). lia.
Qed.

(** What follows the length. *)
Definition body (big : bool) (mask : option Z) (payload : list Z) : list Z :=
  match mask with
  | Some m => to_le_bytes 4 m ++ apply_mask_fallback payload (to_native big 4 m)
  | None => payload
  end.

Lemma ws_frame_bytes_parts big op fin mask payload :
  frame_bytes big op fin mask payload =
  first_byte op fin :: Z.lor (mask_bit mask) (len7 (len payload)) :: ext_bytes (len payload) ++ body big mask payload.
Proof. unfold frame_bytes. by destruct mask; rewrite length_bytes_parts. Qed.

Lemma to_le_bytes_len m : len (to_le_bytes 4 m) = 4.
Proof. unfold len, to_le_bytes. by rewrite length_rev, to_be_bytes_length. Qed.

Lemma body_len big mask payload :
  len (body big mask payload) = (if masked mask then 4 else 0) + len payload.
Proof.
  destruct mask as [m|]; cbn [body masked]; [|done]. rewrite len_app, to_le_bytes_len. unfold len. by rewrite fallback_length.
Qed.

Lemma from_to_le_bytes m : is_u32 m -> from_le_bytes (to_le_bytes 4 m) = m.
Proof.
  intros Hm. unfold from_le_bytes, to_le_bytes. rewrite rev_involutive. apply from_to_be_bytes. int_lia.
Qed.

Lemma ext_bytes_short n : 0 <= len (ext_bytes n) <= 8.
Proof.
  unfold ext_bytes, len. destruct (n <? 126); [done|]. destruct (n <=? 65535); rewrite to_be_bytes_length; lia.
Qed.

(** What a frame must be for the reader to take it: a control frame is short,
    a data frame within the reader's limit. *)
Definition readable (max : Z) (op : OpCode) (payload : list Z) : Prop :=
  op <> Bad /\ is_bytes payload /\ len payload <= max /\ len payload < 2 ^ 63 /\
  (op = Ping \/ op = Pong \/ op = Close -> len payload <= 125).

Section Parse.
Context `{BM : BytesMut B} (big : bool).
Implicit Types src : B.

(** A frame that has not arrived completely is left in the buffer. *)
Lemma parse_prefix addr op fin mask payload max src :
  readable max op payload -> buf_bytes src `prefix_of` frame_bytes big op fin mask payload ->
  buf_bytes src <> frame_bytes big op fin mask payload ->
  Parser.parse big addr (masked mask) max src = (src, Ok None).
Proof.
  intros (Hop & Hb & Hmax & Hn & _) [more Hp] Hne. unfold Parser.parse. rewrite bind_gets.
  pose proof (len_nonneg payload) as Hl0. pose proof (ext_bytes_short (len payload)) as He.
  rewrite ws_frame_bytes_parts in Hp, Hne. destruct (buf_bytes src) as [|a [|b rest]]; [done|done|].
  injection Hp as <- <- Hp.
  rewrite parse_metadata_spec; [|done|lia|done|].
  2:{ intros Hle. clear - Hp Hle. revert Hp Hle. generalize (ext_bytes (len payload)). intros ext Hp Hle.
      unfold len in Hle. apply (f_equal (take (length ext))) in Hp.
      rewrite take_app_length, take_app_le in Hp by lia. done. }
  destruct (len rest <? len (ext_bytes (len payload))); [done|].
  assert (len rest < len (ext_bytes (len payload)) + len (body big mask payload)) as Hlt.
  { assert (more <> []) as Hm by (intros ->; rewrite app_nil_r in Hp; by rewrite Hp in Hne).
    apply (f_equal len) in Hp. rewrite !len_app in Hp. destruct more; [done|]. rewrite len_cons in Hp.
    pose proof (len_nonneg more). lia. }
  rewrite body_len in Hlt. unfold seen. destruct (masked mask).
  - destruct (Z.ltb_spec (len rest) (len (ext_bytes (len payload)) + 4)); [done|].
    rewrite bind_lift_Ok. unfold as_usize. rewrite wrapu_id by (unfold in_u; lia).
    rewrite !len_cons, (proj2 (Z.ltb_lt _ _)) by lia. done.
  - rewrite bind_lift_Ok. unfold as_usize. rewrite wrapu_id by (unfold in_u; lia).
    rewrite !len_cons, (proj2 (Z.ltb_lt _ _)) by lia. done.
Qed.

Lemma bm_advance src l1 l2 :
  buf_bytes src = l1 ++ l2 ->
  buf_bytes (bm_split_to src (length l1)).1 = l1 /\ buf_bytes (bm_split_to src (length l1)).2 = l2.
Proof.
  intros H. destruct (bm_split_to_bytes src (length l1)) as [-> ->]; [rewrite H, length_app; lia|].
  by rewrite H, take_app_length, drop_app_length.
Qed.

Lemma unmask_spec {E} addr (data : B) payload m :
  buf_bytes data = apply_mask_fallback payload (to_native big 4 m) -> is_bytes payload -> is_u32 m ->
  0 <= addr -> addr + len payload + 7 < 2 ^ 64 ->
  exists b, Parser.mask_from big addr data 0 m = (Ok b : outcome E B) /\ buf_bytes b = payload.
Proof.
  intros Hd Hb Hm Ha Hr.
  destruct (mask_from_spec (E:=E) big addr data [] (apply_mask_fallback payload (to_native big 4 m)) m)
    as (b & Eb & Hbb); [done| |done|done| |].
  - apply fallback_bytes; [done|apply to_native_bytes].
  - unfold len in *. by rewrite fallback_length.
  - exists b. split; [done|]. rewrite Hbb. apply fallback_involutive.
Qed.

(** The frame head and the size of the whole frame. *)
Lemma parse_metadata_full op fin mask payload rest max :
  readable max op payload -> (forall m, mask = Some m -> is_u32 m) ->
  exists idx, Parser.parse_metadata (frame_bytes big op fin mask payload ++ rest) (masked mask) max =
      Ok (Some (idx, fin, op, len payload, mask)) /\ 2 <= idx <= 14 /\
    exists hd data, frame_bytes big op fin mask payload = hd ++ data /\ len hd = idx /\
      data = match mask with Some m => apply_mask_fallback payload (to_native big 4 m) | None => payload end.
Proof.
  intros (Hop & Hb & Hmax & Hn & _) Hm. rewrite ws_frame_bytes_parts. cbn [app].
  pose proof (len_nonneg payload). pose proof (ext_bytes_short (len payload)) as He.
  rewrite parse_metadata_spec; [|done|lia|done|intros _; by rewrite <- (assoc_L (++)), take_app_length].
  set (ext := ext_bytes (len payload)) in *. rewrite !len_app, body_len. pose proof (len_nonneg rest).
  rewrite (proj2 (Z.ltb_ge _ _)) by (destruct (masked mask); lia). unfold seen. destruct mask as [m|]; cbn [masked body].
  - rewrite !len_app, to_le_bytes_len. pose proof (len_nonneg (apply_mask_fallback payload (to_native big 4 m))).
    rewrite (proj2 (Z.ltb_ge _ _)) by lia. exists (2 + len ext + 4). split_and!; [|lia..|].
    + do 3 f_equal. unfold len. rewrite Nat2Z.id, <- !(assoc_L (++)), drop_app_length.
      rewrite (take_app_length' (to_le_bytes 4 m)) by (pose proof (to_le_bytes_len m); unfold len in *; lia).
      rewrite from_to_le_bytes by (by apply Hm). done.
    + exists (first_byte op fin :: Z.lor (mask_bit (Some m)) (len7 (len payload)) :: ext ++ to_le_bytes 4 m), (apply_mask_fallback payload (to_native big 4 m)).
      split; [by rewrite !app_comm_cons, (assoc_L (++))|]. split; [|done]. rewrite !len_cons, len_app, to_le_bytes_len. lia.
  - exists (2 + len ext). split_and!; [done|lia..|].
    exists (first_byte op fin :: Z.lor (mask_bit None) (len7 (len payload)) :: ext), payload.
    split_and!; [done|rewrite !len_cons; lia|done].
Qed.

(** A complete frame is read, and what follows it stays in the buffer. *)
Lemma parse_full addr op fin mask payload max src rest :
  readable max op payload -> (forall m, mask = Some m -> is_u32 m) ->
  0 <= addr -> addr + len payload + 7 < 2 ^ 64 ->
  buf_bytes src = frame_bytes big op fin mask payload ++ rest ->
  exists src' data, Parser.parse big addr (masked mask) max src = (src', Ok (Some (fin, op, data))) /\
    buf_bytes src' = rest /\ Codec.bytes_or_empty data = payload /\ (data = None <-> payload = []).
Proof.
  intros Hread Hm Ha Hr Hsrc. unfold Parser.parse. rewrite bind_gets, Hsrc.
  destruct (parse_metadata_full op fin mask payload rest max Hread Hm) as (idx & -> & Hidx & hd & data & Hfr & Hhd & Hdata).
  destruct Hread as (Hop & Hb & Hmax & Hn & Hctl). pose proof (len_nonneg payload) as Hl0.
  assert (len data = len payload) as Hdl by (subst data; destruct mask; [|done]; unfold len; by rewrite fallback_length).
  rewrite bind_lift_Ok. unfold as_usize. rewrite wrapu_id by (unfold in_u; lia).
  rewrite (proj2 (Z.ltb_ge _ _)) by (rewrite Hfr, !len_app; pose proof (len_nonneg rest); lia).
  rewrite bind_modify. rewrite Hfr, <- (assoc_L (++)) in Hsrc.
  assert (Z.to_nat idx = length hd) as -> by (unfold len in Hhd; lia).
  destruct (bm_advance src hd (data ++ rest) Hsrc) as [_ H1].
  set (src1 := (bm_split_to src (length hd)).2) in *.
  destruct (Z.eqb_spec (len payload) 0) as [H0|H0].
  - assert (payload = []) as -> by (destruct payload; [done|]; rewrite len_cons in H0; pose proof (len_nonneg payload); lia).
    assert (data = []) as -> by (destruct data; [done|]; rewrite len_cons in Hdl; pose proof (len_nonneg data); lia).
    exists src1, None. split_and!; [done|done|done|done].
  - rewrite bind_gets, bind_modify. assert (Z.to_nat (len payload) = length data) as -> by (unfold len in *; lia).
    destruct (bm_advance src1 data rest H1) as [H2 H3].
    assert (payload <> []) as Hne by (by intros ->).
    assert (match op with Ping | Pong => if 125 <? len payload then throw (InvalidLength (len payload)) else mret ()
      | _ => mret () end = (mret () : SE B ProtocolError ())) as ->.
    { destruct op; try done; rewrite (proj2 (Z.ltb_ge _ _)) by (apply Hctl; auto); done. }
    rewrite bind_mret.
    assert (bool_decide (op = Close) && (125 <? len payload) = false) as ->.
    { case_bool_decide; [|done]. simpl. apply Z.ltb_ge, Hctl. auto. }
    destruct mask as [m|].
    + destruct (unmask_spec (E:=ProtocolError) addr (bm_split_to src1 (length data)).1 payload m) as (b & -> & Hbb);
        [by rewrite H2|done|by apply Hm|done|done|].
      rewrite bind_lift_Ok. do 2 eexists. split_and!; [done|done|done|]. by split.
    + do 2 eexists. split_and!; [done|done|by rewrite <- Hdata|]. by split.
Qed.
End Parse.

(** ** Text *)

Lemma utf8_char_valid fuel b l :
  utf8_valid_fuel (S fuel) (b :: l) = true ->
  exists n, utf8_char (b :: l) = (S n, true) /\ (n <= length l)%nat /\ utf8_valid_fuel fuel (drop n l) = true.
Proof.
  cbn [utf8_valid_fuel utf8_char]. destruct (b <=? 0x7F); [by exists O; split_and!; [|lia|rewrite drop_0]|].
  destruct l as [|b1 l]; [done|]. destruct (in_range 0xC2 0xDF b).
  { intros [-> Hv]%andb_prop. exists 1%nat. split_and!; [done|simpl; lia|done]. }
  destruct l as [|b2 l]; [done|]. destruct (in_range 0xE0 0xEF b).
  { intros [[-> ->]%andb_prop Hv]%andb_prop. exists 2%nat. split_and!; [done|simpl; lia|done]. }
  destruct l as [|b3 l]; [done|].
  intros [[[[-> ->]%andb_prop ->]%andb_prop ->]%andb_prop Hv]%andb_prop.
  exists 3%nat. split_and!; [done|simpl; lia|done].
Qed.

Lemma lossy_valid l : utf8_valid l = true -> from_utf8_lossy l = l.
Proof.
  unfold utf8_valid, from_utf8_lossy.
  enough (forall f1 f2 l, (length l <= f2)%nat -> utf8_valid_fuel f1 l = true -> lossy_fuel f2 l = l) by eauto.
  clear l. induction f1 as [|f1 IH]; intros f2 l Hl Hv.
  { by destruct f2, l. }
  destruct l as [|b l]; [by destruct f2|]. destruct f2 as [|f2]; [simpl in Hl; lia|].
  destruct (utf8_char_valid f1 b l Hv) as (n & Hc & Hn & Hv'). cbn [lossy_fuel]. rewrite Hc.
  cbn [take drop]. rewrite IH; [|rewrite length_drop; simpl in Hl; lia|done].
  cbn [app]. by rewrite take_drop.
Qed.

(** ** Messages and what the peer sees *)

(** The close reason as it arrives: codes in their named form, no empty text. *)
Definition close_seen (reason : option CloseReason) : option CloseReason :=
  r ← reason;
  Some (MkCloseReason (CloseCode.from (CloseCode.into (code r)))
    (match description r with Some [] => None | d => d end)).

(** The frame that stands for a message at the other end. *)
Definition delivered (m : Message) : option Frame :=
  match m with
  | MText txt => Some (FText txt)
  | MBinary bin => Some (FBinary bin)
  | MContinuation i => Some (FContinuation i)
  | MPing txt => Some (FPing txt)
  | MPong txt => Some (FPong txt)
  | MClose reason => Some (FClose (close_seen reason))
  | Nop => None
  end.

(** What the encoder makes of the two kinds of first fragment: it writes the op code of
    the other kind, against the names of the items. *)
Definition exchanged (m : Message) : Message :=
  match m with
  | MContinuation (FirstText data) => MContinuation (FirstBinary data)
  | MContinuation (FirstBinary data) => MContinuation (FirstText data)
  | m => m
  end.

Definition close_payload (reason : option CloseReason) : list Z :=
  match reason with
  | None => []
  | Some reason => to_be_bytes 2 (CloseCode.into (code reason)) ++
      match description reason with Some d => d | None => [] end
  end.

(** Op code, end flag and payload of the frame that is written. *)
Definition written (m : Message) : option (OpCode * bool * list Z) :=
  match m with
  | MText txt => Some (Text, true, txt)
  | MBinary bin => Some (Binary, true, bin)
  | MContinuation (FirstText data) => Some (Binary, false, data)
  | MContinuation (FirstBinary data) => Some (Text, false, data)
  | MContinuation (ItemContinue data) => Some (Continue, false, data)
  | MContinuation (Last data) => Some (Continue, true, data)
  | MPing txt => Some (Ping, true, txt)
  | MPong txt => Some (Pong, true, txt)
  | MClose reason => Some (Close, true, close_payload reason)
  | Nop => None
  end.

(** A reason with a [u16] code and a [String]. *)
Definition reason_ok (reason : CloseReason) : Prop :=
  is_u16 (CloseCode.into (code reason)) /\
  forall d, description reason = Some d -> utf8_valid d = true.

Definition message_ok (max : Z) (m : Message) : Prop :=
  (forall op fin payload, written m = Some (op, fin, payload) -> readable max op payload) /\
  (forall r, m = MClose (Some r) -> reason_ok r).

Lemma parse_close_written reason :
  (forall r, reason = Some r -> reason_ok r) ->
  (if decide (close_payload reason = []) then Ok None
   else Parser.parse_close_payload (close_payload reason)) = Ok (close_seen reason).
Proof.
  intros Hok. destruct reason as [r|]; [|done]. destruct (Hok r eq_refl) as [Hc Hd]. cbn [close_payload].
  set (c := to_be_bytes 2 (CloseCode.into (code r))). assert (len c = 2) as Lc by (unfold len, c; by rewrite to_be_bytes_length).
  set (d := match description r with Some d => d | None => [] end). pose proof (len_nonneg d) as Ld.
  rewrite decide_False by (intros H; apply (f_equal len) in H; rewrite len_app, Lc in H; change (len (@nil Z)) with 0 in H; lia).
  unfold Parser.parse_close_payload. rewrite len_app, Lc, (proj2 (Z.leb_le _ _)) by lia.
  rewrite slice_to_app, slice_from_app by done. cbn [mbind outcome_bind].
  unfold c. rewrite from_to_be_bytes by (destruct Hc; change (256 ^ Z.of_nat 2) with (2 ^ 16); lia).
  cbn [close_seen mbind option_bind]. subst d. destruct (description r) as [[|x d]|] eqn:Ed.
  - change (len (@nil Z)) with 0. by cbn.
  - rewrite len_cons. pose proof (len_nonneg d). rewrite (proj2 (Z.ltb_lt _ _)) by lia. cbn [mbind outcome_bind].
    by rewrite lossy_valid by (by apply Hd).
  - change (len (@nil Z)) with 0. by cbn.
Qed.

(** ** The codec *)

Definition flags_ok (c : Codec) : Prop := 0 <= flags c < 8.

Lemma flags_cases c : flags_ok c -> flags c ∈ [0; 1; 2; 3; 4; 5; 6; 7].
Proof. intros H. unfold flags_ok in H. rewrite !elem_of_cons. lia. Qed.

(** Each flag is changed on its own. *)
Lemma flags_frame c : flags_ok c ->
  flags_ok (Codec.insert W_CONTINUATION c) /\ flags_ok (Codec.remove W_CONTINUATION c) /\
  flags_ok (Codec.insert CONTINUATION c) /\ flags_ok (Codec.remove CONTINUATION c) /\
  Codec.contains SERVER (Codec.insert W_CONTINUATION c) = Codec.contains SERVER c /\
  Codec.contains SERVER (Codec.remove W_CONTINUATION c) = Codec.contains SERVER c /\
  Codec.contains SERVER (Codec.insert CONTINUATION c) = Codec.contains SERVER c /\
  Codec.contains SERVER (Codec.remove CONTINUATION c) = Codec.contains SERVER c /\
  Codec.contains W_CONTINUATION (Codec.insert W_CONTINUATION c) = true /\
  Codec.contains W_CONTINUATION (Codec.remove W_CONTINUATION c) = false /\
  Codec.contains CONTINUATION (Codec.insert CONTINUATION c) = true /\
  Codec.contains CONTINUATION (Codec.remove CONTINUATION c) = false.
Proof.
  intros H. apply flags_cases in H. destruct c as [f mx]. cbn [flags] in H.
  repeat (apply elem_of_cons in H as [->|H]; [by split_and!|]). by apply elem_of_nil in H.
Qed.

(** The two ends of one direction: opposite roles, and the writer is within a
    fragmented message exactly when the reader is. *)
Definition peers (ca cb : Codec) : Prop :=
  flags_ok ca /\ flags_ok cb /\ Codec.contains SERVER ca = negb (Codec.contains SERVER cb) /\
  Codec.contains W_CONTINUATION ca = Codec.contains CONTINUATION cb.

(** The codecs after a message has been written and read; [None] when the
    writer refuses it. *)
Definition after_write (m : Message) (c : Codec) : option Codec :=
  match m, Codec.contains W_CONTINUATION c with
  | MContinuation (FirstText _ | FirstBinary _), false => Some (Codec.insert W_CONTINUATION c)
  | MContinuation (ItemContinue _), true => Some c
  | MContinuation (Last _), true => Some (Codec.remove W_CONTINUATION c)
  | MContinuation _, _ => None
  | _, _ => Some c
  end.
Definition after_read (m : Message) (c : Codec) : Codec :=
  match m with
  | MContinuation (FirstText _ | FirstBinary _) => Codec.insert CONTINUATION c
  | MContinuation (Last _) => Codec.remove CONTINUATION c
  | _ => c
  end.

Lemma peers_step m ca cb ca' :
  peers ca cb -> after_write m ca = Some ca' ->
  peers ca' (after_read m cb) /\ Codec.contains SERVER ca' = Codec.contains SERVER ca /\
  codec_max_size (after_read m cb) = codec_max_size cb.
Proof.
  intros (Ha & Hb & Hs & Hw) H. pose proof (flags_frame ca Ha) as Fa. pose proof (flags_frame cb Hb) as Fb.
  destruct_and! Fa. destruct_and! Fb. unfold after_write, after_read, peers in *.
  destruct m as [| |[]| | | |]; cbn [codec_max_size Codec.insert Codec.remove] in *;
    try (by simplify_eq; split_and!);
    destruct (Codec.contains W_CONTINUATION ca) eqn:E; simplify_eq; split_and!; done || congruence.
Qed.

Section Step.
Context `{BM : BytesMut B} (big : bool).

Definition room (addr : Z) (payload : list Z) : Prop := 0 <= addr /\ addr + len payload + 7 < 2 ^ 64.

Lemma encode_spec rand addr m op fin payload ca (dst : B) max :
  written m = Some (op, fin, payload) -> readable max op payload -> is_u32 rand -> room addr payload ->
  len (buf_bytes dst) + len payload + 14 < 2 ^ 64 -> flags_ok ca ->
  match after_write m ca with
  | Some ca' => exists dst', Codec.encode big rand addr m (ca, dst) = ((ca', dst'), Ok tt) /\
      buf_bytes dst' = buf_bytes dst ++ frame_bytes big op fin
        (if Codec.contains SERVER ca then None else Some rand) payload
  | None => exists e, Codec.encode big rand addr m (ca, dst) = ((ca, dst), Err e)
  end.
Proof.
  intros Hw (_ & Hb & _) Hm (Ha & Hr) Hroom Hf.
  assert (forall c, Codec.contains SERVER c = Codec.contains SERVER ca -> exists dst',
    Codec.write_dst (Parser.write_message big rand addr payload op fin) (c, dst) = ((c, dst'), Ok tt) /\
    buf_bytes dst' = buf_bytes dst ++ frame_bytes big op fin
      (if Codec.contains SERVER ca then None else Some rand) payload) as Hwr.
  { intros c Hc. unfold Codec.write_dst. unfold get. 
    destruct (write_message_spec (E:=ProtocolError) big rand addr payload op fin
      (negb (Codec.contains SERVER ca)) dst Hb Hm Ha Hr Hroom) as (dst' & Ew & Hd).
    exists dst'. unfold mbind, SE_bind, lift, modify. cbn [fst snd]. rewrite Hc, Ew.
    split; [done|]. rewrite Hd. by destruct (Codec.contains SERVER ca). }
  destruct (flags_frame ca Hf) as (_ & _ & _ & _ & S1 & S2 & _).
  destruct m as [txt|bin|[d|d|d|d]|txt|txt|reason|]; simplify_eq/=; try exact (Hwr ca eq_refl);
    unfold after_write, Codec.encode, get, mbind, SE_bind, modify; cbn [fst snd];
    destruct (Codec.contains W_CONTINUATION ca); try (by eexists);
    apply Hwr; done.
Qed.

Lemma decode_spec addr m op fin payload mask ca cb (src : B) rest :
  written m = Some (op, fin, payload) -> message_ok (codec_max_size cb) m -> masked mask = Codec.contains SERVER cb ->
  (forall x, mask = Some x -> is_u32 x) -> room addr payload -> peers ca cb -> after_write m ca <> None ->
  buf_bytes src = frame_bytes big op fin mask payload ++ rest -> exists src',
  Codec.decode big addr (cb, src) = ((after_read m cb, src'), Ok (delivered (exchanged m))) /\ buf_bytes src' = rest.
Proof.
  intros Hw [Hread Hreason] Hmask Hm (Ha & Hr) (Hfa & Hfb & _ & Hcont) Haw Hsrc.
  destruct (parse_full big addr op fin mask payload _ src rest (Hread _ _ _ Hw) Hm Ha Hr Hsrc)
    as (src' & data & Ep & Hrest & Hdata & Hnone).
  exists src'. split; [|done]. unfold Codec.decode. rewrite bind_gets. cbn [fst].
  rewrite <- Hmask, (bind_eq _ _ _ (cb, src') (Some (fin, op, data))) by (unfold zoom; cbn [fst snd]; by rewrite Ep).
  unfold after_write in Haw. rewrite Hcont in Haw.
  destruct m as [txt|bin|[d|d|d|d]|txt|txt|reason|]; try discriminate Hw; injection Hw as <- <- <-;
    cbn [negb]; rewrite ?Hdata; try (destruct (Codec.contains CONTINUATION cb); done); try done.
  pose proof (parse_close_written reason (fun r E => Hreason r (f_equal MClose E))) as Hc.
  destruct data as [pl|].
  - rewrite decide_False in Hc by (intros H; by apply Hnone in H). cbn [Codec.bytes_or_empty] in Hdata. rewrite Hdata.
    unfold mbind, SE_bind, lift. by rewrite Hc.
  - rewrite decide_True in Hc by (by apply Hnone). cbn [delivered exchanged]. injection Hc as Hc. by rewrite <- Hc.
Qed.
End Step.

(** ** Conversations *)

Section Conversation.
Context `{BM : BytesMut B} (big : bool).

(** Messages with the random number and the address each is written with. *)
Fixpoint send (ms : list (Z * Z * Message)) : SE (Codec * B) ProtocolError () :=
  match ms with
  | [] => mret ()
  | (rand, addr, m) :: ms => _ ← Codec.encode big rand addr m; send ms
  end.

(** Decoding until no complete frame is left. *)
Fixpoint receive (fuel : nat) (addr : Z) : SE (Codec * B) ProtocolError (list Frame) :=
  match fuel with
  | O => mret []
  | S fuel =>
      r ← Codec.decode big addr;
      match r with
      | Some f => cons f <$> receive fuel addr
      | None => mret []
      end
  end.

Definition payload_of (m : Message) : list Z :=
  match written m with Some (_, _, payload) => payload | None => [] end.

(** What a message needs: a random [u32], and buffers within the address space. *)
Definition sendable (max addr' : Z) (x : Z * Z * Message) : Prop :=
  let '(rand, addr, m) := x in
  is_u32 rand /\ message_ok max m /\ room addr (payload_of m) /\ room addr' (payload_of m).

Fixpoint total (ms : list (Z * Z * Message)) : Z :=
  match ms with [] => 0 | (_, _, m) :: ms => len (payload_of m) + 14 + total ms end.

Lemma total_nonneg ms : 0 <= total ms.
Proof. induction ms as [|[[r a] m] ms IH]; simpl; [done|]. pose proof (len_nonneg (payload_of m)). lia. Qed.

Lemma receive_empty fuel addr cb (src : B) :
  buf_bytes src = [] -> receive (S fuel) addr (cb, src) = ((cb, src), Ok []).
Proof.
  intros Hs. cbn [receive]. unfold Codec.decode, Parser.parse, zoom, mbind, SE_bind, gets, lift. cbn [fst snd].
  by rewrite Hs.
Qed.

Lemma frame_bytes_bound op fin mask payload : len (frame_bytes big op fin mask payload) <= len payload + 14.
Proof.
  rewrite ws_frame_bytes_parts, !len_cons, len_app, body_len. pose proof (ext_bytes_short (len payload)).
  destruct (masked mask); lia.
Qed.

Lemma send_receive ms addr' : forall ca cb (dst : B) ca' dst',
  peers ca cb -> Forall (sendable (codec_max_size cb) addr') ms ->
  len (buf_bytes dst) + total ms < 2 ^ 64 ->
  send ms (ca, dst) = ((ca', dst'), Ok tt) ->
  exists out, buf_bytes dst' = buf_bytes dst ++ out /\
  forall (src : B) fuel, buf_bytes src = out -> (length ms < fuel)%nat ->
  exists cb' src', receive fuel addr' (cb, src) = ((cb', src'), Ok (omap (fun x => delivered (exchanged x.2)) ms)) /\
    buf_bytes src' = [] /\ peers ca' cb'.
Proof.
  induction ms as [|[[rand addr] m] ms IH]; intros ca cb dst ca' dst' Hp Hms Hlen Hsend; cbn [send] in Hsend.
  { injection Hsend as <- <-. exists []. rewrite app_nil_r. split; [done|]. intros src [|fuel] Hs Hf; [lia|].
    exists cb, src. split; [by apply receive_empty|done]. }
  apply Forall_cons in Hms as [(Hr & Hok & Hra & Hra') Hms]. pose proof (total_nonneg ms) as Ht.
  cbn [total] in Hlen. unfold payload_of in Hra, Hra', Hlen. destruct (written m) as [[[op fin] payload]|] eqn:Ew.
  - assert (len (buf_bytes dst) + len payload + 14 < 2 ^ 64) as Hroom by lia.
    pose proof (encode_spec big rand addr m op fin payload ca dst _ Ew (proj1 Hok _ _ _ Ew) Hr Hra Hroom
      (proj1 Hp)) as He.
    destruct (after_write m ca) as [ca1|] eqn:Eaw; [|by destruct He as [e He]; unfold mbind, SE_bind in Hsend; rewrite He in Hsend].
    destruct He as (dst1 & He & Hb1). rewrite (bind_eq _ _ _ _ _ He) in Hsend.
    destruct (peers_step m ca cb ca1 Hp Eaw) as (Hp1 & Hs1 & Hmx).
    set (mask := if Codec.contains SERVER ca then None else Some rand) in *.
    pose proof (frame_bytes_bound op fin mask payload) as Hfb.
    destruct (IH ca1 (after_read m cb) dst1 ca' dst') as (out & Ho & Hrecv);
      [done|by rewrite Hmx|rewrite Hb1, len_app; lia|done|].
    exists (frame_bytes big op fin mask payload ++ out). rewrite Ho, Hb1, <- (assoc_L (++)). split; [done|].
    intros src [|fuel] Hs Hf; [simpl in Hf; lia|].
    destruct (decode_spec big addr' m op fin payload mask ca cb src out Ew Hok) as (src1 & Ed & Hsrc1);
      [|by subst mask; case_match; naive_solver|done|done|by rewrite Eaw|done|].
    { subst mask. destruct Hp as (_ & _ & -> & _). by destruct (Codec.contains SERVER cb). }
    destruct (Hrecv src1 fuel Hsrc1 (proj2 (Nat.succ_lt_mono _ _) Hf)) as (cb' & src' & Er & Hs' & Hp').
    exists cb', src'. split; [|done]. cbn [receive]. rewrite (bind_eq _ _ _ _ _ Ed).
    destruct (delivered (exchanged m)) as [f|] eqn:Edl; [|by destruct m as [| |[]| | | |]].
    unfold fmap, SE_fmap. rewrite Er. csimpl. by rewrite Edl.
  - destruct m as [| |[]| | | |]; try discriminate Ew. change (len (@nil Z)) with 0 in Hlen.
    destruct (IH ca cb dst ca' dst') as (out & Ho & Hrecv); [done|done|lia|done|].
    exists out. split; [done|]. intros src fuel Hs Hf. apply Hrecv; [done|]. simpl in Hf. lia.
Qed.
End Conversation.


(** C34. Frames may arrive in any pieces: as long as a frame is incomplete the
    parser asks for more and leaves the buffer as it is, and once it is complete
    the parser returns it whatever follows. *)
Theorem parse_incremental `{BM : BytesMut B} big addr op fin mask payload max (src : B) rest n :
  readable max op payload -> (forall m, mask = Some m -> is_u32 m) -> room addr payload ->
  buf_bytes src = take n (frame_bytes big op fin mask payload ++ rest) ->
  if decide (n < length (frame_bytes big op fin mask payload))%nat
  then Parser.parse big addr (masked mask) max src = (src, Ok None)
  else exists src' data, Parser.parse big addr (masked mask) max src = (src', Ok (Some (fin, op, data))) /\
    frame_bytes big op fin mask payload ++ buf_bytes src' = buf_bytes src /\ Codec.bytes_or_empty data = payload.
Proof.
  intros Hread Hm [Ha Hr] Hsrc. case_decide as Hn.
  - rewrite take_app_le in Hsrc by lia. eapply parse_prefix; [done| |].
    + rewrite Hsrc. apply prefix_take.
    + intros E. rewrite E in Hsrc. apply (f_equal length) in Hsrc. rewrite length_take in Hsrc. lia.
  - rewrite take_app_ge in Hsrc by lia.
    destruct (parse_full big addr op fin mask payload max src _ Hread Hm Ha Hr Hsrc) as (src' & data & Ep & Hs' & Hd & _).
    exists src', data. by rewrite Hsrc, Hs'.
Qed.

(** The first fragment of a text message is announced as binary and the
    first fragment of a binary message as text: the reader gets the other kind. *)
Theorem first_fragment_kind_swapped `{BM : BytesMut B} big rand addr ca cb (dst : B) data m f :
  (m, f) ∈ [(FirstText data, FirstBinary data); (FirstBinary data, FirstText data)] ->
  peers ca cb -> Codec.contains W_CONTINUATION ca = false -> buf_bytes dst = [] ->
  sendable (codec_max_size cb) addr (rand, addr, MContinuation m) -> len data + 14 < 2 ^ 64 ->
  exists ca' dst', Codec.encode big rand addr (MContinuation m) (ca, dst) = ((ca', dst'), Ok tt) /\
    forall src : B, buf_bytes src = buf_bytes dst' ->
    exists s', Codec.decode big addr (cb, src) = (s', Ok (Some (FContinuation f))).
Proof.
  intros Hmf Hp Hw Hd (Hr & Hok & Hra & Hra') Hl.
  set (op := match m with FirstText _ => Binary | _ => Text end).
  assert (written (MContinuation m) = Some (op, false, data) /\ delivered (exchanged (MContinuation m)) = Some (FContinuation f) /\
    after_write (MContinuation m) ca = Some (Codec.insert W_CONTINUATION ca)) as (Ew & Edl & Eaw).
  { unfold after_write. rewrite Hw. rewrite !elem_of_cons, elem_of_nil in Hmf. by destruct Hmf as [[= -> ->]|[[= -> ->]|[]]]. }
  unfold payload_of in *. rewrite Ew in *.
  assert (len (buf_bytes dst) + len data + 14 < 2 ^ 64) as Hroom by (rewrite Hd; change (len (@nil Z)) with 0; lia).
  pose proof (encode_spec big rand addr _ op false data ca dst _ Ew (proj1 Hok _ _ _ Ew) Hr Hra Hroom (proj1 Hp)) as He.
  rewrite Eaw in He. destruct He as (dst' & He & Hb). exists (Codec.insert W_CONTINUATION ca), dst'. split; [done|].
  intros src' Hs. set (mask := if Codec.contains SERVER ca then None else Some rand) in *.
  destruct (decode_spec big addr (MContinuation m) op false data mask ca cb src' [] Ew Hok) as (src1 & Ed & _);
    [|by subst mask; case_match; naive_solver|done|done|by rewrite Eaw|by rewrite Hs, Hb, Hd, app_nil_r|].
  - subst mask. destruct Hp as (_ & _ & -> & _). by destruct (Codec.contains SERVER cb).
  - rewrite Ed, Edl. eauto.
Qed.

(** ** Instances *)

Definition client : Codec := Codec.client_mode Codec.new.

Lemma client_server_peers : peers client Codec.new.
Proof. by vm_compute. Qed.

(** Messages of a few bytes meet the conditions of the theorems. *)
Ltac range := split; vm_compute; congruence.
Ltac sample_message :=
  split; [range|]; split; [|split; range]; split;
  [intros op fin payload Hw; injection Hw as <- <- <-; repeat split;
     [congruence|apply (bool_decide_unpack _); vm_compute; exact I|vm_compute; congruence..]
  |intros r Hr; first [discriminate Hr|injection Hr as <-; split;
     [range|intros d Hd; injection Hd as <-; vm_compute; reflexivity]]].

Definition sample_close : CloseReason := MkCloseReason Normal (Some [98; 121; 101]).
Definition sample_messages : list (Z * Z * Message) :=
  [(0x12345678, 4097, MText [104; 105]); (0x9abcdef0, 4100, MContinuation (FirstText [1; 2; 3]));
   (7, 4104, MPing []); (0xffffffff, 4111, MContinuation (Last [4])); (1, 4096, MClose (Some sample_close))].

Lemma sample_messages_ok : Forall (sendable 65536 8192) sample_messages.
Proof. unfold sample_messages. repeat (apply Forall_cons_2; [sample_message|]). constructor. Qed.

Definition sample_sent := send false sample_messages (client, []).


Lemma parse_incremental_witness :
  Parser.parse false 8192 true 65536 [0x81; 0x82; 1; 2; 3] = ([0x81; 0x82; 1; 2; 3] : list Z, Ok None).
Proof.
  refine (parse_incremental false 8192 Text true (Some 0x04030201) [7; 8] 65536 ([0x81; 0x82; 1; 2; 3] : list Z) [] 5 _ _ _ _).
  - repeat split; [congruence|apply (bool_decide_unpack _); vm_compute; exact I|vm_compute; congruence..].
  - intros m [= <-]. range.
  - range.
  - reflexivity.
Defined.

Lemma first_fragment_kind_swapped_witness :
  exists ca' dst', Codec.encode false 5 4096 (MContinuation (FirstText [1])) (client, [] : list Z) = ((ca', dst'), Ok tt) /\
    forall src : list Z, buf_bytes src = buf_bytes dst' ->
    exists s', Codec.decode false 4096 (Codec.new, src) = (s', Ok (Some (FContinuation (FirstBinary [1])))).
Proof.
  refine (first_fragment_kind_swapped false 5 4096 client Codec.new ([] : list Z) [1] (FirstText [1])
    (FirstBinary [1]) _ _ _ _ _ _).
  - left.
  - exact client_server_peers.
  - reflexivity.
  - reflexivity.
  - sample_message.
  - vm_compute. reflexivity.
Defined.
