(* ===== verification/Codec.v ===== *)
(** * Framed transports ([codec])

    A decoder cuts items out of a buffer; [FramedRead] feeds it from a socket and
    [FramedWrite] sends what an encoder appends.  The codecs of the module: frames with
    a length field, lines of text and plain chunks of bytes. *)

From Stdlib Require Import String.
From S2P Require Import Prelude Bytes H2Types HttpTypes.

(** [std::io::Error]: its kind, and the error inside *)
Inductive IoErr :=
  | LengthDelimitedCodecError (k : IoErrorKind)
  | IoMsg (k : IoErrorKind) (msg : string)
  | SocketErr (k : IoErrorKind).

(** ** Interfaces *)

(** [codec/decoder.rs:18-113] Decoder *)
Class Decoder (C B Item E : Type) := {
  dec : SE (C * B) E (option Item);
  dec_eof : SE (C * B) E (option Item);
  dec_from_io : IoErr -> E
}.

(** [codec/decoder.rs] Decoder::decode_eof, where it is not overridden *)
Definition default_decode_eof `{BytesMut B} {C Item E} (decode : SE (C * B) E (option Item)) (from_io : IoErr -> E) :
    SE (C * B) E (option Item) :=
  r ← decode;
  match r with
  | Some frame => mret (Some frame)
  | None =>
      buf ← gets (fun s => buf_bytes s.2);
      if bool_decide (buf = []) then mret None else throw (from_io (IoMsg OtherKind "bytes remaining on stream"))
  end.

(** [codec/encoder.rs] Encoder *)
Class Encoder (C B Item E : Type) := {
  enc : Item -> SE (C * B) E ();
  enc_from_io : IoErr -> E
}.

(** ** Frames with a length field ([codec/length_delimited.rs]) *)

(** [codec/length_delimited.rs] Builder *)
Record Builder := MkBuilder {
  max_frame_len : Z;
  length_field_len : Z;
  length_field_offset : Z;
  length_adjustment : Z;
  num_skip : option Z;
  length_field_is_big_endian : bool
}.

(** [codec/length_delimited.rs] DecodeState *)
Inductive DecodeState := Head_ | Data_ (n : Z).

(** [codec/length_delimited.rs] LengthDelimitedCodec *)
Record LengthDelimitedCodec := MkLengthDelimitedCodec { ld_builder : Builder; ld_state : DecodeState }.

Module Builder.

(** [codec/length_delimited.rs] Builder::new *)
Definition new : Builder := MkBuilder (8 * 1024 * 1024) 4 0 0 None true.
(** [codec/length_delimited.rs] Builder::big_endian *)
Definition big_endian (b : Builder) : Builder :=
  MkBuilder (max_frame_len b) (length_field_len b) (length_field_offset b) (length_adjustment b) (num_skip b) true.
(** [codec/length_delimited.rs] Builder::little_endian *)
Definition little_endian (b : Builder) : Builder :=
  MkBuilder (max_frame_len b) (length_field_len b) (length_field_offset b) (length_adjustment b) (num_skip b) false.
(** [codec/length_delimited.rs] Builder::max_frame_length *)
Definition max_frame_length (val : Z) (b : Builder) : Builder :=
  MkBuilder val (length_field_len b) (length_field_offset b) (length_adjustment b) (num_skip b) (length_field_is_big_endian b).
(** [codec/length_delimited.rs] Builder::length_field_length *)
Definition length_field_length {E} (val : Z) (b : Builder) : outcome E Builder :=
  _ ← assert_ ((0 <? val) && (val <=? 8));
  Ok (MkBuilder (max_frame_len b) val (length_field_offset b) (length_adjustment b) (num_skip b) (length_field_is_big_endian b)).
(** [codec/length_delimited.rs] Builder::length_field_offset *)
Definition set_length_field_offset (val : Z) (b : Builder) : Builder :=
  MkBuilder (max_frame_len b) (length_field_len b) val (length_adjustment b) (num_skip b) (length_field_is_big_endian b).
(** [codec/length_delimited.rs] Builder::length_adjustment *)
Definition set_length_adjustment (val : Z) (b : Builder) : Builder :=
  MkBuilder (max_frame_len b) (length_field_len b) (length_field_offset b) val (num_skip b) (length_field_is_big_endian b).
(** [codec/length_delimited.rs] Builder::num_skip *)
Definition set_num_skip (val : Z) (b : Builder) : Builder :=
  MkBuilder (max_frame_len b) (length_field_len b) (length_field_offset b) (length_adjustment b) (Some val) (length_field_is_big_endian b).
(** [codec/length_delimited.rs] Builder::new_codec *)
Definition new_codec (b : Builder) : LengthDelimitedCodec := MkLengthDelimitedCodec b Head_.

(** [codec/length_delimited.rs] Builder::num_head_bytes *)
Definition num_head_bytes (b : Builder) : Z :=
  let num := as_usize (length_field_offset b + length_field_len b) in
  Z.max num (from_option id 0 (num_skip b)).
(** [codec/length_delimited.rs] Builder::get_num_skip *)
Definition get_num_skip (b : Builder) : Z :=
  from_option id (as_usize (length_field_offset b + length_field_len b)) (num_skip b).

End Builder.

(** [codec/length_delimited.rs] LengthDelimitedCodec::new *)
Definition LengthDelimitedCodec_new : LengthDelimitedCodec := MkLengthDelimitedCodec Builder.new Head_.
(** [codec/length_delimited.rs] LengthDelimitedCodec::max_frame_length *)
Definition LengthDelimitedCodec_max_frame_length (self : LengthDelimitedCodec) : Z := max_frame_len (ld_builder self).
(** [codec/length_delimited.rs] LengthDelimitedCodec::set_max_frame_length *)
Definition LengthDelimitedCodec_set_max_frame_length (val : Z) (self : LengthDelimitedCodec) : LengthDelimitedCodec :=
  MkLengthDelimitedCodec (Builder.max_frame_length val (ld_builder self)) (ld_state self).

(** [usize::checked_add] and [usize::checked_sub] *)
Definition checked_add (a b : Z) : option Z := if a + b <? 2 ^ 64 then Some (a + b) else None.
Definition checked_sub (a b : Z) : option Z := if b <=? a then Some (a - b) else None.

Section LengthDelimited.
Context `{BM : BytesMut B}.

Definition get_state {E} : SE (LengthDelimitedCodec * B) E (LengthDelimitedCodec * list Z) :=
  gets (fun s => (s.1, buf_bytes s.2)).
Definition set_state {E} (st : DecodeState) : SE (LengthDelimitedCodec * B) E () :=
  modify (fun s => (MkLengthDelimitedCodec (ld_builder s.1) st, s.2)).

(** [src.split_to(n)] *)
Definition split_to {E C} (n : Z) : SE (C * B) E B := fun s =>
  if (0 <=? n) && (n <=? len (buf_bytes s.2))
  then let '(a, b) := bm_split_to s.2 (Z.to_nat n) in ((s.1, b), Ok a)
  else (s, Panic).

(** [get_uint] and [get_uint_le] of the bytes [l] *)
Definition uint_of (big : bool) (l : list Z) : Z := if big then from_be_bytes l else from_be_bytes (rev l).

(** [codec/length_delimited.rs] LengthDelimitedCodec::decode_head *)
Definition decode_head : SE (LengthDelimitedCodec * B) IoErr (option Z) :=
  '(self, src) ← get_state;
  let b := ld_builder self in
  let head_len := Builder.num_head_bytes b in
  let field_len := length_field_len b in
  if len src <? head_len then mret None
  else
    rest ← lift (slice_from src (length_field_offset b));
    field ← lift (slice_to rest field_len);
    let n := uint_of (length_field_is_big_endian b) field in
    if max_frame_len b <? n then throw (LengthDelimitedCodecError InvalidData)
    else
      let adj := length_adjustment b in
      match (if adj <? 0 then checked_sub n (as_usize (- adj)) else checked_add n (as_usize adj)) with
      | None => throw (IoMsg InvalidInput "provided length would overflow after adjustment")
      | Some n =>
          let num_skip := Builder.get_num_skip b in
          _ ← (if 0 <? num_skip then (fun _ => ()) <$> split_to num_skip else mret tt);
          mret (Some n)
      end.

(** [codec/length_delimited.rs] LengthDelimitedCodec::decode_data *)
Definition decode_data (n : Z) : SE (LengthDelimitedCodec * B) IoErr (option B) :=
  '(_, src) ← get_state;
  if len src <? n then mret None else Some <$> split_to n.

(** [codec/length_delimited.rs] LengthDelimitedCodec as Decoder::decode *)
Definition LengthDelimitedCodec_decode : SE (LengthDelimitedCodec * B) IoErr (option B) :=
  '(self, _) ← get_state;
  n ← match ld_state self with
      | Head_ =>
          r ← decode_head;
          match r with
          | Some n => _ ← set_state (Data_ n); mret (Some n)
          | None => mret None
          end
      | Data_ n => mret (Some n)
      end;
  match n with
  | None => mret None
  | Some n =>
      r ← decode_data n;
      match r with
      | Some data => _ ← set_state Head_; mret (Some data)
      | None => mret None
      end
  end.

#[export] Instance LengthDelimitedCodec_Decoder : Decoder LengthDelimitedCodec B B IoErr := {|
  dec := LengthDelimitedCodec_decode;
  dec_eof := default_decode_eof LengthDelimitedCodec_decode id;
  dec_from_io := id
|}.

(** [put_uint] and [put_uint_le]: the low [n] bytes *)
Definition uint_bytes (big : bool) (n : nat) (z : Z) : list Z :=
  if big then to_be_bytes n z else rev (to_be_bytes n z).

(** [codec/length_delimited.rs] LengthDelimitedCodec as Encoder::encode *)
Definition LengthDelimitedCodec_encode (data : list Z) : SE (LengthDelimitedCodec * B) IoErr () :=
  '(self, _) ← get_state;
  let b := ld_builder self in
  let n := len data in
  if max_frame_len b <? n then throw (LengthDelimitedCodecError InvalidInput)
  else
    let adj := length_adjustment b in
    match (if adj <? 0 then checked_add n (as_usize (- adj)) else checked_sub n (as_usize adj)) with
    | None => throw (IoMsg InvalidInput "provided length would overflow after adjustment")
    | Some n =>
        _ ← modify (fun s => (s.1, put_slice s.2 (uint_bytes (length_field_is_big_endian b) (Z.to_nat (length_field_len b)) n)));
        modify (fun s => (s.1, put_slice s.2 data))
    end.

#[export] Instance LengthDelimitedCodec_Encoder : Encoder LengthDelimitedCodec B (list Z) IoErr := {|
  enc := LengthDelimitedCodec_encode;
  enc_from_io := id
|}.
End LengthDelimited.

(** ** Lines ([codec/lines_codec.rs]) *)

(** [codec/lines_codec.rs] LinesCodec *)
Record LinesCodec := MkLinesCodec { next_index : Z; max_length : Z; is_discarding : bool }.

(** [codec/lines_codec.rs] LinesCodecError *)
Inductive LinesCodecError := MaxLineLengthExceeded | LinesIo (e : IoErr).

Definition usize_max : Z := 2 ^ 64 - 1.

(** [codec/lines_codec.rs] LinesCodec::new *)
Definition LinesCodec_new : LinesCodec := MkLinesCodec 0 usize_max false.
(** [codec/lines_codec.rs] LinesCodec::new_with_max_length *)
Definition LinesCodec_new_with_max_length (max_length : Z) : LinesCodec := MkLinesCodec 0 max_length false.

(** [codec/lines_codec.rs] utf8 *)
Definition utf8 (buf : list Z) : outcome LinesCodecError (list Z) :=
  if utf8_valid buf then Ok buf else Err (LinesIo (IoMsg InvalidData "Unable to decode input as UTF8")).

(** [codec/lines_codec.rs] without_carriage_return *)
Definition without_carriage_return (s : list Z) : list Z :=
  match last s with Some 13 => take (length s - 1) s | _ => s end.

(** [iter().position(..)] of a newline *)
Fixpoint newline_position (l : list Z) : option Z :=
  match l with
  | [] => None
  | x :: l => if x =? 10 then Some 0 else Z.succ <$> newline_position l
  end.

Section Lines.
Context `{BM : BytesMut B}.
Abbreviation LM := (SE (LinesCodec * B) LinesCodecError).

Definition set_lines (next_index : Z) (is_discarding : bool) : LM () :=
  modify (fun s => (MkLinesCodec next_index (max_length s.1) is_discarding, s.2)).

(** [codec/lines_codec.rs] LinesCodec as Decoder::decode.  A round that does not return
    consumes a byte or ends the discarding, so [n + 3] rounds are enough for [n] bytes. *)
Fixpoint lines_loop (fuel : nat) : LM (option (list Z)) :=
  match fuel with
  | O => panic
  | S fuel =>
      '(self, buf) ← gets (fun s => (s.1, buf_bytes s.2));
      let read_to := Z.min (Z.min (max_length self + 1) usize_max) (len buf) in
      seen ← lift (slice_to buf read_to);
      window ← lift (slice_from seen (next_index self));
      match is_discarding self, newline_position window with
      | true, Some offset =>
          _ ← split_to (offset + next_index self + 1);
          _ ← set_lines 0 false;
          lines_loop fuel
      | true, None =>
          _ ← split_to read_to;
          _ ← set_lines 0 true;
          buf ← gets (fun s => buf_bytes s.2);
          if bool_decide (buf = []) then throw MaxLineLengthExceeded else lines_loop fuel
      | false, Some offset =>
          let newline_index := offset + next_index self in
          _ ← set_lines 0 false;
          line ← split_to (newline_index + 1);
          line ← lift (slice_to (buf_bytes line) (len (buf_bytes line) - 1));
          Some <$> lift (utf8 (without_carriage_return line))
      | false, None =>
          if max_length self <? len buf then
            _ ← set_lines (next_index self) true;
            throw MaxLineLengthExceeded
          else
            _ ← set_lines read_to false;
            mret None
      end
  end.
Definition LinesCodec_decode : LM (option (list Z)) :=
  n ← gets (fun s => length (buf_bytes s.2));
  lines_loop (n + 3).

(** [codec/lines_codec.rs] LinesCodec as Decoder::decode_eof *)
Definition LinesCodec_decode_eof : LM (option (list Z)) :=
  r ← LinesCodec_decode;
  match r with
  | Some frame => mret (Some frame)
  | None =>
      buf ← gets (fun s => buf_bytes s.2);
      if bool_decide (buf = []) || bool_decide (buf = [13]) then mret None
      else
        line ← split_to (len buf);
        line ← lift (utf8 (without_carriage_return (buf_bytes line)));
        _ ← modify (fun s => (MkLinesCodec 0 (max_length s.1) (is_discarding s.1), s.2));
        mret (Some line)
  end.

#[export] Instance LinesCodec_Decoder : Decoder LinesCodec B (list Z) LinesCodecError := {|
  dec := LinesCodec_decode;
  dec_eof := LinesCodec_decode_eof;
  dec_from_io := LinesIo
|}.

(** [codec/lines_codec.rs] LinesCodec as Encoder::encode *)
Definition LinesCodec_encode (line : list Z) : LM () :=
  _ ← modify (fun s => (s.1, put_slice s.2 line));
  modify (fun s => (s.1, put_u8 s.2 10)).

#[export] Instance LinesCodec_Encoder : Encoder LinesCodec B (list Z) LinesCodecError := {|
  enc := LinesCodec_encode;
  enc_from_io := LinesIo
|}.

(** ** Chunks ([codec/bytes_codec.rs]) *)

(** [codec/bytes_codec.rs] BytesCodec as Decoder::decode *)
Definition BytesCodec_decode : SE (() * B) IoErr (option B) :=
  buf ← gets (fun s => buf_bytes s.2);
  if negb (bool_decide (buf = [])) then Some <$> split_to (len buf) else mret None.

(** [codec/bytes_codec.rs] BytesCodec as Encoder::encode *)
Definition BytesCodec_encode (data : list Z) : SE (() * B) IoErr () := modify (fun s => (s.1, put_slice s.2 data)).
End Lines.

(** ** Reading ([codec/framed_read.rs]) *)

(** What [poll_read_buf] answers; no bytes are the end of the stream. *)
Inductive ReadAnswer :=
  | RPending
  | RError (k : IoErrorKind)
  | RData (bytes : list Z).

(** The bytes that they hold *)
Fixpoint script_bytes (script : list ReadAnswer) : list Z :=
  match script with
  | RData bytes :: script => bytes ++ script_bytes script
  | _ :: script => script_bytes script
  | [] => []
  end.

(** [codec/framed_read.rs] FramedRead2, with the codec of its [Fuse] *)
Record FramedRead2 (C B : Type) := MkFramedRead2 { r2_codec : C; r2_eof : bool; r2_is_readable : bool; r2_buffer : B }.
Arguments MkFramedRead2 {C B}.
Arguments r2_codec {C B}.
Arguments r2_eof {C B}.
Arguments r2_is_readable {C B}.
Arguments r2_buffer {C B}.

Section Read.
Context `{BM : BytesMut B} `{D : Decoder C B Item E}.

(** [codec/framed_read.rs] framed_read2 *)
Definition framed_read2 (codec : C) : FramedRead2 C B := MkFramedRead2 codec false false bm_new.

(** A call of the codec on the buffer. *)
Definition on_codec {A} (c : SE (C * B) E A) (r : FramedRead2 C B) : FramedRead2 C B * outcome E A :=
  let '((codec, buffer), x) := c (r2_codec r, r2_buffer r) in
  (MkFramedRead2 codec (r2_eof r) (r2_is_readable r) buffer, x).

(** [codec/framed_read.rs] FramedRead2 as Stream::poll_next, over the answers of the
    socket; what is left of them is returned.  [Err] is an item that is an error. *)
Fixpoint poll_next (script : list ReadAnswer) (r : FramedRead2 C B) :
    FramedRead2 C B * list ReadAnswer * outcome E (Async (option Item)) :=
  let read r :=
    if r2_eof r then (r, script, Panic)
    else
      match script with
      | [] => (r, [], Ok Pending)
      | RPending :: script => (r, script, Ok Pending)
      | RError k :: script => (r, script, Err (dec_from_io (SocketErr k)))
      | RData bytes :: script =>
          poll_next script (MkFramedRead2 (r2_codec r) (bool_decide (bytes = [])) true (put_slice (r2_buffer r) bytes))
      end in
  if r2_is_readable r then
    if r2_eof r then
      let '(r, x) := on_codec dec_eof r in
      (r, script, Ready <$> x)
    else
      let '(r, x) := on_codec dec r in
      match x with
      | Ok (Some frame) => (r, script, Ok (Ready (Some frame)))
      | Ok None => read (MkFramedRead2 (r2_codec r) (r2_eof r) false (r2_buffer r))
      | Err e => (r, script, Err e)
      | Panic => (r, script, Panic)
      end
  else read r.
End Read.

(** ** Writing ([codec/framed_write.rs]) *)

(** What [poll_write] answers. *)
Inductive WAnswer := WPend | WErr (k : IoErrorKind) | WTook (n : nat).

(** [codec/framed_write.rs] FramedWrite2, with the codec of its [Fuse], and the bytes
    that the socket has taken *)
Record FramedWrite2 (C B : Type) := MkFramedWrite2 { w2_codec : C; w2_buffer : B; w2_sent : list Z }.
Arguments MkFramedWrite2 {C B}.
Arguments w2_codec {C B}.
Arguments w2_buffer {C B}.
Arguments w2_sent {C B}.

(** [codec/framed_write.rs] BACKPRESSURE_BOUNDARY *)
Definition BACKPRESSURE_BOUNDARY : Z := 8 * 1024.

Section Write.
Context `{BM : BytesMut B} `{En : Encoder C B Item E}.
Abbreviation WR := (FramedWrite2 C B * list WAnswer * outcome E (Async ()))%type.

(** [codec/framed_write.rs] FramedWrite2 as Sink::start_send *)
Definition start_send (item : Item) : SE (FramedWrite2 C B) E () := fun w =>
  let '((codec, buffer), x) := enc item (w2_codec w, w2_buffer w) in
  (MkFramedWrite2 codec buffer (w2_sent w), x).

(** The answer to [poll_flush] or [poll_shutdown] *)
Definition poll_io (script : list WAnswer) (w : FramedWrite2 C B) : WR :=
  match script with
  | [] => (w, [], Ok Pending)
  | WPend :: script => (w, script, Ok Pending)
  | WErr k :: script => (w, script, Err (enc_from_io (SocketErr k)))
  | WTook _ :: script => (w, script, Ok (Ready tt))
  end.

(** [codec/framed_write.rs] FramedWrite2 as Sink::poll_flush *)
Fixpoint poll_flush (script : list WAnswer) (w : FramedWrite2 C B) : WR :=
  let buf := buf_bytes (w2_buffer w) in
  if bool_decide (buf = []) then poll_io script w
  else
    match script with
    | [] => (w, [], Ok Pending)
    | WPend :: script => (w, script, Ok Pending)
    | WErr k :: script => (w, script, Err (enc_from_io (SocketErr k)))
    | WTook n :: script =>
        let n := min n (length buf) in
        if (n =? 0)%nat then (w, script, Err (enc_from_io (IoMsg WriteZero "failed to write frame to transport")))
        else poll_flush script (MkFramedWrite2 (w2_codec w) (bm_split_to (w2_buffer w) n).2 (w2_sent w ++ take n buf))
    end.

(** [codec/framed_write.rs] FramedWrite2 as Sink::poll_ready *)
Definition poll_ready2 (script : list WAnswer) (w : FramedWrite2 C B) : WR :=
  if BACKPRESSURE_BOUNDARY <=? len (buf_bytes (w2_buffer w)) then
    match poll_flush script w with
    | (w, script, Ok (Ready _)) =>
        if BACKPRESSURE_BOUNDARY <=? len (buf_bytes (w2_buffer w)) then (w, script, Ok Pending) else (w, script, Ok (Ready tt))
    | r => r
    end
  else (w, script, Ok (Ready tt)).

(** [codec/framed_write.rs] FramedWrite2 as Sink::poll_close *)
Definition poll_close (script : list WAnswer) (w : FramedWrite2 C B) : WR :=
  match poll_flush script w with
  | (w, script, Ok (Ready _)) => poll_io script w
  | r => r
  end.

End Write.

(** ** Both directions ([codec/framed2.rs]) *)

(** [codec/framed2.rs:12-30] Framed with its flags, and the bytes that the socket has taken *)
Record Framed (C B : Type) := MkFramed {
  f_codec : C;
  f_eof : bool;
  f_readable : bool;
  f_read_buf : B;
  f_write_buf : B;
  f_sent : list Z
}.
Arguments MkFramed {C B}.
Arguments f_codec {C B}.
Arguments f_eof {C B}.
Arguments f_readable {C B}.
Arguments f_read_buf {C B}.
Arguments f_write_buf {C B}.
Arguments f_sent {C B}.

(** [codec/framed2.rs] HW *)
Definition HW : Z := 8 * 1024.

Section Framed.
Context `{BM : BytesMut B} {C : Type}.
Implicit Types (f : Framed C B).

(** [codec/framed2.rs] Framed::new *)
Definition Framed_new (codec : C) : Framed C B := MkFramed codec false false bm_new bm_new [].

(** [codec/framed2.rs:412-420] FramedParts::with_read_buf, made into a Framed by
    from_parts *)
Definition Framed_with_read_buf (codec : C) (read_buf : B) : Framed C B := MkFramed codec false false read_buf bm_new [].

(** [codec/framed2.rs] Framed::is_write_buf_empty *)
Definition is_write_buf_empty f : bool := bool_decide (buf_bytes (f_write_buf f) = []).
(** [codec/framed2.rs] Framed::is_write_buf_full *)
Definition is_write_buf_full f : bool := HW <=? len (buf_bytes (f_write_buf f)).
(** [codec/framed2.rs] Framed::is_write_ready *)
Definition is_write_ready f : bool := len (buf_bytes (f_write_buf f)) <? HW.

(** [codec/framed2.rs] Framed::map_codec *)
Definition map_codec {C2} (g : C -> C2) f : Framed C2 B :=
  MkFramed (g (f_codec f)) (f_eof f) (f_readable f) (f_read_buf f) (f_write_buf f) (f_sent f).
(** [codec/framed2.rs] Framed::into_framed *)
Definition into_framed {C2} (codec : C2) f : Framed C2 B :=
  MkFramed codec (f_eof f) (f_readable f) (f_read_buf f) (f_write_buf f) (f_sent f).

Section Decode.
Context `{D : Decoder C B Item E}.

(** A call of the codec on the read buffer. *)
Definition on_read_buf {A} (c : SE (C * B) E A) f : Framed C B * outcome E A :=
  let '((codec, buf), x) := c (f_codec f, f_read_buf f) in
  (MkFramed codec (f_eof f) (f_readable f) buf (f_write_buf f) (f_sent f), x).
Definition set_readable (b : bool) f : Framed C B := MkFramed (f_codec f) (f_eof f) b (f_read_buf f) (f_write_buf f) (f_sent f).

(** [codec/framed2.rs] Framed::next_item *)
Fixpoint next_item (script : list ReadAnswer) f : Framed C B * list ReadAnswer * outcome E (Async (option Item)) :=
  let read f :=
    match script with
    | [] => (f, [], Ok Pending)
    | RPending :: script => (f, script, Ok Pending)
    | RError k :: script => (f, script, Err (dec_from_io (SocketErr k)))
    | RData bytes :: script =>
        next_item script (MkFramed (f_codec f) (f_eof f || bool_decide (bytes = [])) true (put_slice (f_read_buf f) bytes) (f_write_buf f) (f_sent f))
    end in
  if f_readable f then
    if f_eof f then
      let '(f, x) := on_read_buf dec_eof f in (f, script, Ready <$> x)
    else
      let '(f, x) := on_read_buf dec f in
      match x with
      | Ok (Some frame) => (f, script, Ok (Ready (Some frame)))
      | Ok None => read (set_readable false f)
      | Err e => (f, script, Err e)
      | Panic => (f, script, Panic)
      end
  else read f.
End Decode.

Section Encode.
Context `{En : Encoder C B Item E}.

(** [codec/framed2.rs] Framed::write, the capacity of the buffer apart *)
Definition Framed_write (item : Item) : SE (Framed C B) E () := fun f =>
  let '((codec, buf), x) := enc item (f_codec f, f_write_buf f) in
  (MkFramed codec (f_eof f) (f_readable f) (f_read_buf f) buf (f_sent f), x).

Definition framed_io (script : list WAnswer) f : Framed C B * list WAnswer * outcome E (Async ()) :=
  match script with
  | [] => (f, [], Ok Pending)
  | WPend :: script => (f, script, Ok Pending)
  | WErr k :: script => (f, script, Err (enc_from_io (SocketErr k)))
  | WTook _ :: script => (f, script, Ok (Ready tt))
  end.

(** [codec/framed2.rs] Framed::flush *)
Fixpoint Framed_flush (script : list WAnswer) f : Framed C B * list WAnswer * outcome E (Async ()) :=
  let buf := buf_bytes (f_write_buf f) in
  if bool_decide (buf = []) then framed_io script f
  else
    match script with
    | [] => (f, [], Ok Pending)
    | WPend :: script => (f, script, Ok Pending)
    | WErr k :: script => (f, script, Err (enc_from_io (SocketErr k)))
    | WTook n :: script =>
        let n := min n (length buf) in
        if (n =? 0)%nat then (f, script, Err (enc_from_io (IoMsg WriteZero "failed to write frame to transport")))
        else
          Framed_flush script
            (MkFramed (f_codec f) (f_eof f) (f_readable f) (f_read_buf f) (bm_split_to (f_write_buf f) n).2 (f_sent f ++ take n buf))
    end.

(** [codec/framed2.rs] Framed::close: the socket is flushed and shut down *)
Definition Framed_close (script : list WAnswer) f : Framed C B * list WAnswer * outcome E (Async ()) :=
  match framed_io script f with
  | (f, script, Ok (Ready _)) => framed_io script f
  | r => r
  end.
End Encode.
End Framed.
