(* ===== verification/CodecCorrect.v ===== *)
(** * Decoders on a stream

    What a decoder makes of a stream of bytes does not depend on the pieces in which
    the bytes arrive, when it reads its buffer from the front: an interface that the
    codecs implement and that [FramedRead] is verified against. *)

From S2P Require Import Prelude Bytes H2Types HttpTypes Codec.

(** ** Decoders of a list of bytes *)

(** A decoder as a function of the bytes in its buffer. *)
Definition PureDecoder (C V E : Type) : Type := C -> list Z -> (C * list Z) * outcome E (option V).

(** The results depend on the bytes at the front only: what comes later neither changes
    an item or an error, nor what is decoded after [None]. *)
Class Incremental {C V E} (p : PureDecoder C V E) (good : C -> list Z -> Prop) : Prop := {
  inc_more c l m : good c l -> is_bytes m -> good c (l ++ m);
  inc_kept c l c' l' r : good c l -> p c l = ((c', l'), Ok r) -> good c' l';
  inc_some c l m c' l' v : good c l -> is_bytes m -> p c l = ((c', l'), Ok (Some v)) -> p c (l ++ m) = ((c', l' ++ m), Ok (Some v));
  inc_none c l m c' l' : good c l -> is_bytes m -> p c l = ((c', l'), Ok None) ->
    p c (l ++ m) = p c' (l' ++ m) \/ exists e, (p c (l ++ m)).2 = Err e /\ (p c' (l' ++ m)).2 = Err e;
  inc_err c l m e : good c l -> is_bytes m -> (p c l).2 = Err e -> (p c (l ++ m)).2 = Err e;
  inc_shrinks c l c' l' r : good c l -> p c l = ((c', l'), r) -> len l' <= len l;
  inc_panic c l : good c l -> (p c l).2 <> Panic
}.

Section Parses.
Context {C V E : Type} (p : PureDecoder C V E).

(** All items of the bytes, and what is left of them. *)
Inductive parses : C -> list Z -> list V -> C -> list Z -> Prop :=
  | parses_end c l c' l' : p c l = ((c', l'), Ok None) -> parses c l [] c' l'
  | parses_item c l c1 l1 v vs c' l' :
      p c l = ((c1, l1), Ok (Some v)) -> parses c1 l1 vs c' l' -> parses c l (v :: vs) c' l'.

Lemma parses_none c l vs c' l' : p c l = ((c', l'), Ok None) -> parses c l vs c' l' -> vs = [].
Proof. intros E1 H. destruct H as [? ? ? ? H|? ? ? ? ? ? ? ? H]; [done|]. by rewrite E1 in H. Qed.

Context {good} {HI : Incremental p good}.

Lemma parses_end_idem c l c' l' : good c l -> p c l = ((c', l'), Ok None) -> p c' l' = ((c', l'), Ok None).
Proof. intros Hg E1. pose proof (inc_none c l [] c' l' Hg (Forall_nil_2 _) E1) as H. rewrite !app_nil_r, E1 in H. by destruct H as [<-|(? & ? & _)]. Qed.

(** Items of a prefix and items of the rest. *)
Lemma parses_app c l vs c1 l1 m vs' c' l' :
  good c l -> is_bytes m -> parses c l vs c1 l1 -> parses c1 (l1 ++ m) vs' c' l' -> parses c (l ++ m) (vs ++ vs') c' l'.
Proof.
  intros Hg Hm H. revert Hg. induction H as [c l c1 l1 E1|c l c1 l1 v vs c2 l2 E1 H IH]; intros Hg H'.
  - pose proof (inc_none c l m c1 l1 Hg Hm E1) as E2. cbn [app].
    inversion H' as [? ? ? ? E3|? ? ? ? ? ? ? ? E3 H3]; subst; rewrite E3 in E2; (destruct E2 as [E2|(? & _ & ?)]; [|done]); by econstructor.
  - eapply parses_item; [by eapply inc_some|]. apply IH; [|done]. by eapply inc_kept.
Qed.
End Parses.

(** ** A buffer and its bytes *)

(** A call on a buffer and the call on the list of its bytes. *)
Definition sim `{BytesMut B} {C E A A'} (R : A -> A' -> Prop) (f : SE (C * B) E A) (g : SE (C * list Z) E A') : Prop :=
  forall c b, let '((c1, b1), x) := f (c, b) in let '((c2, l2), y) := g (c, buf_bytes b) in
  c1 = c2 /\ buf_bytes b1 = l2 /\
  match x, y with Ok a, Ok a' => R a a' | Err e, Err e' => e = e' | Panic, Panic => True | _, _ => False end.

Section Sim.
Context `{BM : BytesMut B} {C E : Type}.

Lemma sim_ret {A A'} (R : A -> A' -> Prop) (a : A) (a' : A') : R a a' -> sim (B:=B) (C:=C) (E:=E) R (mret a) (mret a').
Proof. by intros H c b. Qed.
Lemma sim_throw {A A'} (R : A -> A' -> Prop) (e : E) : sim (B:=B) (C:=C) R (throw e) (throw e).
Proof. by intros c b. Qed.
Lemma sim_panic {A A'} (R : A -> A' -> Prop) : sim (B:=B) (C:=C) (E:=E) R panic panic.
Proof. by intros c b. Qed.
Lemma sim_lift {A} (x : outcome E A) : sim (B:=B) (C:=C) eq (lift x) (lift x).
Proof. intros c b. unfold lift. by destruct x. Qed.
Lemma sim_gets {A A'} (R : A -> A' -> Prop) f g : (forall c (b : B), R (f (c, b)) (g (c, buf_bytes b))) -> sim (B:=B) (C:=C) (E:=E) R (gets f) (gets g).
Proof. intros H c b. split_and!; [done..|apply H]. Qed.
Lemma sim_modify f g : (forall c (b : B), (f (c, b)).1 = (g (c, buf_bytes b)).1 /\ buf_bytes (f (c, b)).2 = (g (c, buf_bytes b)).2) ->
  sim (B:=B) (C:=C) (E:=E) eq (modify f) (modify g).
Proof. intros H c b. unfold modify. specialize (H c b). destruct (f (c, b)), (g (c, buf_bytes b)). by destruct H. Qed.
Lemma sim_bind {A A' A1 A1'} (R : A -> A' -> Prop) (R1 : A1 -> A1' -> Prop) (f : SE (C * B) E A) g k k' :
  sim R f g -> (forall a a', R a a' -> sim R1 (k a) (k' a')) -> sim (C:=C) R1 (f ≫= k) (g ≫= k').
Proof.
  intros Hf Hk c b. unfold mbind, SE_bind. specialize (Hf c b).
  destruct (f (c, b)) as [[c1 b1] x], (g (c, buf_bytes b)) as [[c2 l2] y]. destruct Hf as (-> & <- & Hx).
  destruct x, y; try done. by apply Hk.
Qed.
Lemma sim_fmap {A A' A1 A1'} (R : A -> A' -> Prop) (R1 : A1 -> A1' -> Prop) (f : SE (C * B) E A) g h h' :
  sim R f g -> (forall a a', R a a' -> R1 (h a) (h' a')) -> sim (C:=C) R1 (h <$> f) (h' <$> g).
Proof.
  intros Hf Hh c b. specialize (Hf c b). unfold fmap, SE_fmap.
  destruct (f (c, b)) as [[c1 b1] x], (g (c, buf_bytes b)) as [[c2 l2] y]. destruct Hf as (-> & <- & Hx).
  destruct x, y; try done. split_and!; [done..|]. by apply Hh.
Qed.
Lemma sim_split_to n : sim (C:=C) (E:=E) (fun a a' => buf_bytes a = a') (split_to (B:=B) n) (split_to n).
Proof.
  intros c b. unfold split_to. cbn [fst snd]. change (buf_bytes (buf_bytes b)) with (buf_bytes b).
  destruct ((0 <=? n) && (n <=? len (buf_bytes b))) eqn:Hn; [|done].
  apply andb_true_iff in Hn as [H0%Z.leb_le H1%Z.leb_le]. unfold len in H1.
  destruct (bm_split_to_bytes b (Z.to_nat n)) as [E1 E2]; [lia|]. by destruct (bm_split_to b (Z.to_nat n)).
Qed.
End Sim.

(** ** [FramedRead] over a decoder *)

(** A script without errors and without an end. *)
Definition data_only (a : ReadAnswer) : Prop :=
  match a with RData bytes => bytes <> [] /\ is_bytes bytes | RError _ => False | RPending => True end.

Lemma script_is_bytes script : Forall data_only script -> is_bytes (script_bytes script).
Proof. induction 1 as [|[|k|bytes] script H]; simpl; try done; [constructor|]. apply Forall_app. by destruct H. Qed.

Section Stream.
Context `{BM : BytesMut B} `{D : Decoder C B Item E} {V : Type} (view : Item -> V) (p : PureDecoder C V E).

(** The decoder does on a buffer what [p] does on its bytes. *)
Definition implements : Prop :=
  forall c b, let '((c', b'), r) := dec (c, b) in p c (buf_bytes b) = ((c', buf_bytes b'), option_map view <$> r).

Context (Himp : implements) {good} {HI : Incremental p good}.
Implicit Types (r : FramedRead2 C B).

(** Between two calls: the decoder has seen the buffer unless it is readable. *)
Definition stream_ok r : Prop :=
  r2_eof r = false /\ good (r2_codec r) (buf_bytes (r2_buffer r)) /\
  (r2_is_readable r = false -> p (r2_codec r) (buf_bytes (r2_buffer r)) = ((r2_codec r, buf_bytes (r2_buffer r)), Ok None)).

(** What is still to be read. *)
Definition ahead r script vs c' l' : Prop :=
  parses p (r2_codec r) (buf_bytes (r2_buffer r) ++ script_bytes script) vs c' l'.

(** The buffer stays within the address space. *)
Definition room r script : Prop := len (buf_bytes (r2_buffer r)) + len (script_bytes script) < 2 ^ 64.

(** One call: the next item, or none before the socket has more. *)
Definition poll_post (script : list ReadAnswer) vs c' l' (x : FramedRead2 C B * list ReadAnswer * outcome E (Async (option Item))) : Prop :=
  let '(r, script', res) := x in
  stream_ok r /\ Forall data_only script' /\ (length script' <= length script)%nat /\ room r script' /\
  match res with
  | Ok (Ready (Some x)) => exists vs', vs = view x :: vs' /\ ahead r script' vs' c' l'
  | Ok Pending => ahead r script' vs c' l' /\ (script = [] \/ (length script' < length script)%nat) /\
      (script' = [] -> vs = [] /\ r2_codec r = c' /\ buf_bytes (r2_buffer r) = l')
  | _ => False
  end.

Lemma on_codec_dec r : good (r2_codec r) (buf_bytes (r2_buffer r)) ->
  let '(r', x) := on_codec dec r in
  p (r2_codec r) (buf_bytes (r2_buffer r)) = ((r2_codec r', buf_bytes (r2_buffer r')), option_map view <$> x) /\
  r2_eof r' = r2_eof r /\ r2_is_readable r' = r2_is_readable r.
Proof.
  intros Hg. unfold on_codec. pose proof (Himp (r2_codec r) (r2_buffer r)) as H.
  destruct (dec (r2_codec r, r2_buffer r)) as [[c b] x]. done.
Qed.

(** The end of a round of [poll_next]: more bytes are read. *)
Definition read_more (script : list ReadAnswer) r : FramedRead2 C B * list ReadAnswer * outcome E (Async (option Item)) :=
  if r2_eof r then (r, script, Panic)
  else
    match script with
    | [] => (r, [], Ok Pending)
    | RPending :: script => (r, script, Ok Pending)
    | RError k :: script => (r, script, Err (dec_from_io (SocketErr k)))
    | RData bytes :: script =>
        poll_next script (MkFramedRead2 (r2_codec r) (bool_decide (bytes = [])) true (put_slice (r2_buffer r) bytes))
    end.

Lemma poll_next_eq script r : r2_eof r = false ->
  poll_next script r =
    if r2_is_readable r then
      let '(r, x) := on_codec dec r in
      match x with
      | Ok (Some frame) => (r, script, Ok (Ready (Some frame)))
      | Ok None => read_more script (MkFramedRead2 (r2_codec r) (r2_eof r) false (r2_buffer r))
      | Err e => (r, script, Err e)
      | Panic => (r, script, Panic)
      end
    else read_more script r.
Proof. intros He. destruct r as [c eof rd buf]. simpl in He. subst eof. by destruct script. Qed.

Definition poll_spec (script : list ReadAnswer) : Prop := forall r vs c' l',
  Forall data_only script -> stream_ok r -> room r script -> ahead r script vs c' l' ->
  poll_post script vs c' l' (poll_next script r).

Lemma read_more_spec script r vs c' l' :
  (forall a script', script = a :: script' -> poll_spec script') ->
  Forall data_only script -> stream_ok r -> r2_is_readable r = false -> room r script -> ahead r script vs c' l' ->
  poll_post script vs c' l' (read_more script r).
Proof.
  intros IH Hs Hok Hrd Hroom Ha. pose proof Hok as (He & Hg & Hr). specialize (Hr Hrd). unfold read_more. rewrite He.
  assert (forall a script', script = a :: script' -> script_bytes script = script_bytes script' -> script' = [] ->
    vs = [] /\ r2_codec r = c' /\ buf_bytes (r2_buffer r) = l') as Hend.
  { intros a script' -> Eb ->. unfold ahead in Ha. rewrite Eb, app_nil_r in Ha.
    inversion Ha as [? ? ? ? E1|? ? ? ? ? ? ? ? E1]; subst; rewrite Hr in E1; by simplify_eq. }
  destruct script as [|[|k|bytes] script].
  - unfold ahead in Ha. cbn [script_bytes] in Ha. pose proof Ha as Ha'. rewrite app_nil_r in Ha'.
    do 4 (split; [done|]). split; [done|]. split; [by left|]. intros _.
    inversion Ha' as [? ? ? ? E1|? ? ? ? ? ? ? ? E1]; subst; rewrite Hr in E1; by simplify_eq.
  - apply Forall_cons in Hs as [_ Hs]. split; [done|]. split; [done|]. split; [simpl; lia|]. split; [done|]. split; [done|].
    split; [right; simpl; lia|]. intros ->. by eapply Hend.
  - by apply Forall_cons in Hs as [? _].
  - apply Forall_cons in Hs as [[Hb Hbs] Hs]. rewrite bool_decide_false by done.
    unfold room in Hroom. cbn [script_bytes] in Hroom. rewrite len_app in Hroom. pose proof (len_nonneg (script_bytes script)).
    assert (buf_bytes (put_slice (r2_buffer r) bytes) = buf_bytes (r2_buffer r) ++ bytes) as Eb
      by (apply put_slice_bytes; rewrite bm_remaining; lia).
    set (r1 := MkFramedRead2 (r2_codec r) false true (put_slice (r2_buffer r) bytes)).
    assert (poll_post script vs c' l' (poll_next script r1)) as H1.
    { apply (IH (RData bytes) script eq_refl); [done| | |].
      - split; [done|]. split; [|done]. cbn [r2_codec r2_buffer r1]. rewrite Eb. by apply inc_more.
      - unfold room. cbn [r2_buffer r1]. rewrite Eb, len_app. lia.
      - unfold ahead in *. cbn [r2_buffer r2_codec r1 script_bytes] in *. by rewrite Eb, <- (assoc_L (++)). }
    unfold poll_post in *. destruct (poll_next script r1) as [[r2 script2] res]. destruct H1 as (H1 & H2 & H3 & H4 & H5).
    split; [done|]. split; [done|]. split; [simpl; lia|]. split; [done|]. destruct res as [[[x|]|]| |]; try done.
    destruct H5 as (? & _ & ?). split; [done|]. split; [right; simpl; lia|done].
Qed.

Lemma poll_next_spec script : poll_spec script.
Proof.
  assert (forall script, (forall a script', script = a :: script' -> poll_spec script') -> poll_spec script) as Hstep.
  { clear script. intros script IH r vs c' l' Hs Hok Hroom Ha. pose proof Hok as (He & Hg & Hr). rewrite poll_next_eq by done.
    destruct (r2_is_readable r) eqn:Hrd; [|by apply read_more_spec]. pose proof (on_codec_dec r Hg) as Hd.
    destruct (on_codec dec r) as [r1 x]. destruct Hd as (Hd & E1 & E2). rewrite He in E1. unfold ahead in Ha.
    pose proof (inc_shrinks _ _ _ _ _ Hg Hd) as Hsh. unfold room in Hroom.
    destruct x as [[x|]|e|]; cbn [fmap outcome_fmap option_map] in Hd.
    - pose proof (inc_some _ _ (script_bytes script) _ _ _ Hg (script_is_bytes _ Hs) Hd) as Hd'.
      inversion Ha as [? ? ? ? H1|? ? ? ? ? ? ? ? H1 H2]; subst; rewrite Hd' in H1; simplify_eq.
      split; [split; [done|]; split; [by eapply inc_kept|congruence]|]. split; [done|]. split; [done|]. split; [unfold room; lia|]. by eexists.
    - pose proof (inc_none _ _ (script_bytes script) _ _ Hg (script_is_bytes _ Hs) Hd) as Hd'.
      apply read_more_spec; [done|done| |done|unfold room; cbn [r2_buffer]; lia|].
      + split; [done|]. split; [by eapply inc_kept|]. intros _. by eapply parses_end_idem.
      + unfold ahead. cbn [r2_codec r2_buffer]. inversion Ha as [? ? ? ? H1|? ? ? ? ? ? ? ? H1 H2]; subst; rewrite H1 in Hd';
          (destruct Hd' as [Hd'|(? & ? & _)]; [|done]); by econstructor.
    - pose proof (inc_err _ _ (script_bytes script) e Hg (script_is_bytes _ Hs) (f_equal snd Hd)) as Hd'.
      inversion Ha as [? ? ? ? H1|? ? ? ? ? ? ? ? H1 H2]; subst; by rewrite H1 in Hd'.
    - exfalso. by apply (inc_panic _ _ Hg (f_equal snd Hd)). }
  induction script as [|a script IH]; apply Hstep; [done|]. intros a' script' E'. by simplify_eq.
Qed.

(** ** All items *)

(** Polling until the socket has no more: the items, in order. *)
Fixpoint drain (fuel : nat) (script : list ReadAnswer) r : list Item * FramedRead2 C B * option (outcome E ()) :=
  match fuel with
  | O => ([], r, None)
  | S fuel =>
      match poll_next script r with
      | (r, script, Ok (Ready (Some x))) => let '(xs, r', e) := drain fuel script r in (x :: xs, r', e)
      | (r, script, Ok Pending) => if bool_decide (script = []) then ([], r, Some (Ok tt)) else drain fuel script r
      | (r, script, Ok (Ready None)) => ([], r, None)
      | (r, script, Err e) => ([], r, Some (Err e))
      | (r, script, Panic) => ([], r, Some Panic)
      end
  end.

Lemma drain_stream fuel : forall script r vs c' l',
  Forall data_only script -> stream_ok r -> room r script -> ahead r script vs c' l' ->
  (length vs + length script < fuel)%nat ->
  exists xs r', drain fuel script r = (xs, r', Some (Ok tt)) /\ view <$> xs = vs /\ r2_codec r' = c' /\
    buf_bytes (r2_buffer r') = l' /\ stream_ok r'.
Proof.
  induction fuel as [|fuel IH]; intros script r vs c' l' Hs Hok Hroom Ha Hf; [lia|]. cbn [drain].
  pose proof (poll_next_spec script r vs c' l' Hs Hok Hroom Ha) as H.
  destruct (poll_next script r) as [[r1 script1] res]. destruct H as (Hok1 & Hs1 & Hl1 & Hroom1 & H).
  destruct res as [[[x|]|]|e|]; try done.
  - destruct H as (vs' & -> & Ha1). destruct (IH script1 r1 vs' c' l' Hs1 Hok1 Hroom1 Ha1) as (xs & r' & E1 & E2 & H'); [simpl in Hf; lia|].
    rewrite E1. exists (x :: xs), r'. split; [done|]. by rewrite fmap_cons, E2.
  - destruct H as (Ha1 & Hlt & Hend). case_bool_decide as Hnil.
    + destruct (Hend Hnil) as (-> & ? & ?). by exists [], r1.
    + apply IH; try done. destruct Hlt as [->|Hlt]; [|lia]. destruct script1; [done|simpl in Hl1; lia].
Qed.
End Stream.

(** ** [FramedWrite] over an encoder *)

Section Sink.
Context `{BM : BytesMut B} `{En : Encoder C B Item E}.
Implicit Types (w : FramedWrite2 C B).

(** What has been sent and what is still to be sent. *)
Definition w2_stream w : list Z := w2_sent w ++ buf_bytes (w2_buffer w).

(** A call that writes: nothing is lost, repeated or reordered. *)
Definition sink_post w (x : FramedWrite2 C B * list WAnswer * outcome E (Async ())) : Prop :=
  let '(w', script', r) := x in
  w2_codec w' = w2_codec w /\ w2_stream w' = w2_stream w /\ w2_sent w `prefix_of` w2_sent w' /\
  match r with Ok (Ready _) => buf_bytes (w2_buffer w') = [] | Panic => False | _ => True end.

Lemma sink_post_same w script r :
  match r with Ok (Ready _) => buf_bytes (w2_buffer w) = [] | Panic => False | _ => True end -> sink_post w (w, script, r).
Proof. intros H. by split_and!. Qed.

Lemma poll_io_post script w : buf_bytes (w2_buffer w) = [] -> sink_post w (poll_io script w).
Proof. intros Hb. destruct script as [|[|k|n] script]; by apply sink_post_same. Qed.

Lemma sink_post_trans w w1 x : sink_post w (w1, [], Ok Pending) -> sink_post w1 x -> sink_post w x.
Proof.
  destruct x as [[w2 script] r]. intros (E1 & E2 & P1 & _) (E3 & E4 & P2 & Hr).
  split; [by rewrite E3|]. split; [by rewrite E4|]. split; [by trans (w2_sent w1)|done].
Qed.

Lemma poll_flush_post script : forall w, sink_post w (poll_flush script w).
Proof.
  induction script as [|a script IH]; intros w; cbn [poll_flush]; (case_bool_decide; [by apply poll_io_post|]).
  - by apply sink_post_same.
  - destruct a as [|k|n]; [by apply sink_post_same..|]. set (m := min n (length (buf_bytes (w2_buffer w)))).
    destruct (Nat.eqb_spec m 0); [by apply sink_post_same|]. eapply sink_post_trans; [|apply IH].
    destruct (bm_split_to_bytes (w2_buffer w) m) as [_ E1]; [lia|]. unfold sink_post, w2_stream. cbn [w2_codec w2_sent w2_buffer].
    rewrite E1. split; [done|]. split; [by rewrite <- (assoc_L (++)), take_drop|]. split; [by apply prefix_app_r|done].
Qed.

Lemma poll_close_post script w : sink_post w (poll_close script w).
Proof.
  unfold poll_close. pose proof (poll_flush_post script w) as H.
  destruct (poll_flush script w) as [[w1 script1] [[[]|]|e|]] eqn:E1; try done.
  eapply sink_post_trans; [|apply poll_io_post; apply H]. by destruct H as (? & ? & ? & _).
Qed.

(** All items are handed to the encoder. *)
Fixpoint send_all (items : list Item) : SE (FramedWrite2 C B) E () :=
  match items with
  | [] => mret tt
  | item :: items => _ ← start_send item; send_all items
  end.
End Sink.

(** ** [Framed] *)

Section Framed.
Context `{BM : BytesMut B} {C : Type}.
Implicit Types (f : Framed C B).

(** The two halves, as [FramedRead] and [FramedWrite]. *)
Definition read_half f : FramedRead2 C B := MkFramedRead2 (f_codec f) (f_eof f) (f_readable f) (f_read_buf f).
Definition write_half f : FramedWrite2 C B := MkFramedWrite2 (f_codec f) (f_write_buf f) (f_sent f).
Definition with_read_half (r : FramedRead2 C B) f : Framed C B :=
  MkFramed (r2_codec r) (r2_eof r) (r2_is_readable r) (r2_buffer r) (f_write_buf f) (f_sent f).
Definition with_write_half (w : FramedWrite2 C B) f : Framed C B :=
  MkFramed (w2_codec w) (f_eof f) (f_readable f) (f_read_buf f) (w2_buffer w) (w2_sent w).

(** States between calls: at the end of the stream the buffer counts as readable. *)
Definition framed_ok f : Prop := f_eof f = true -> f_readable f = true.

Lemma next_item_eq `{D : Decoder C B Item E} script : forall f, framed_ok f ->
  next_item script f = (let '(r, script', x) := poll_next script (read_half f) in (with_read_half r f, script', x)).
Proof.
  induction script as [|a script IH]; intros f Hf; destruct f as [c eof rd rb wb sent]; unfold framed_ok in Hf; cbn in Hf;
    cbn [next_item poll_next read_half f_readable f_eof r2_is_readable r2_eof f_codec f_read_buf].
  - unfold on_read_buf, on_codec; destruct rd, eof; cbn; try discriminate (Hf eq_refl); [by destruct (dec_eof (c, rb)) as [[? ?] ?]| |done].
    by destruct (dec (c, rb)) as [[? ?] [[?|]| |]].
  - assert (forall c' rb', match a with
      | RPending => (MkFramed c' false false rb' wb sent, script, Ok Pending)
      | RError k => (MkFramed c' false false rb' wb sent, script, Err (dec_from_io (SocketErr k)))
      | RData bytes => next_item script (MkFramed c' (false || bool_decide (bytes = [])) true (put_slice rb' bytes) wb sent)
      end = let '(r, script', x) := match a with
      | RPending => (MkFramedRead2 c' false false rb', script, Ok Pending)
      | RError k => (MkFramedRead2 c' false false rb', script, Err (dec_from_io (SocketErr k)))
      | RData bytes => poll_next script (MkFramedRead2 c' (bool_decide (bytes = [])) true (put_slice rb' bytes))
      end in (with_read_half r (MkFramed c' false false rb' wb sent), script', x)) as Hread.
    { intros c' rb'. destruct a as [|k|bytes]; [done|done|]. rewrite IH by done. by cbn. }
    unfold on_read_buf, on_codec. destruct rd, eof; cbn in *; try discriminate (Hf eq_refl).
    + by destruct (dec_eof (c, rb)) as [[? ?] ?].
    + destruct (dec (c, rb)) as [[c' rb'] [[?|]| |]]; [done| |done|done]. cbn. specialize (Hread c' rb'). by destruct a.
    + specialize (Hread c rb). by destruct a.
Qed.

Lemma framed_io_eq `{En : Encoder C B Item E} script f :
  framed_io script f = (let '(w, script', x) := poll_io script (write_half f) in (with_write_half w f, script', x)).
Proof. destruct f. by destruct script as [|[]]. Qed.

Lemma framed_flush_eq `{En : Encoder C B Item E} script : forall f,
  Framed_flush script f = (let '(w, script', x) := poll_flush script (write_half f) in (with_write_half w f, script', x)).
Proof.
  induction script as [|a script IH]; intros f; destruct f as [c eof rd rb wb sent];
    cbn [Framed_flush poll_flush write_half f_write_buf w2_buffer f_sent w2_sent f_codec w2_codec].
  - case_bool_decide; [apply framed_io_eq|done].
  - case_bool_decide; [apply framed_io_eq|]. destruct a as [|k|n]; [done|done|]. case_match; [done|]. rewrite IH.
    unfold write_half. cbn. by destruct (poll_flush script _) as [[[] ?] ?].
Qed.

(** [Framed] is [FramedRead] and [FramedWrite] over one socket: [next_item] reads as
    [FramedRead] does and [flush] writes as [FramedWrite] does, each without touching the
    other direction.  Closing is different: [FramedWrite] writes its buffer first, [close]
    of [Framed], although documented to flush the write buffer, never writes a byte of it and reports
    success with the bytes still there. *)
Theorem framed_halves `{D : Decoder C B Item E} `{En : Encoder C B Item' E'} f rscript wscript :
  framed_ok f ->
  next_item rscript f = (let '(r, script', x) := poll_next rscript (read_half f) in (with_read_half r f, script', x)) /\
  Framed_flush wscript f = (let '(w, script', x) := poll_flush wscript (write_half f) in (with_write_half w f, script', x)) /\
  (let '(f', _, x) := Framed_close wscript f in f' = f /\ x <> Panic) /\
  (let '(w', _, x) := poll_close wscript (write_half f) in x = Ok (Ready tt) -> w2_sent w' = f_sent f ++ buf_bytes (f_write_buf f)).
Proof.
  intros Hf. split; [by apply next_item_eq|]. split; [apply framed_flush_eq|]. split.
  - unfold Framed_close. destruct wscript as [|[|k|n] wscript]; cbn; try done. by destruct wscript as [|[]].
  - pose proof (poll_close_post wscript (write_half f)) as H. destruct (poll_close wscript (write_half f)) as [[w' script'] x].
    destruct H as (_ & Hs & _ & Hx). intros ->. unfold w2_stream in Hs. by rewrite Hx, app_nil_r in Hs.
Qed.
End Framed.

Lemma framed_halves_witness :
  let f := MkFramed LinesCodec_new false true [97; 10] [98; 10] [] : Framed LinesCodec (list Z) in
  next_item [] f = (let '(r, script', x) := poll_next [] (read_half f) in (with_read_half r f, script', x)) /\
  Framed_flush [WTook 1] f = (let '(w, script', x) := poll_flush [WTook 1] (write_half f) in (with_write_half w f, script', x)) /\
  (let '(f', _, x) := Framed_close [WTook 1] f in f' = f /\ x <> Panic) /\
  (let '(w', _, x) := poll_close [WTook 1] (write_half f) in x = Ok (Ready tt) -> w2_sent w' = f_sent f ++ buf_bytes (f_write_buf f)).
Proof. intros f. refine (framed_halves f [] [WTook 1] _). discriminate. Defined.
