(* ===== verification/LengthDelimitedCorrect.v ===== *)
(** * Frames with a length field: correctness

    [LengthDelimitedCodec] reads its buffer from the front, so the stream theorems hold
    for it; what it writes is what it reads. *)

From Stdlib Require Import String.
From S2P Require Import Prelude Bytes H2Types HttpTypes Codec CodecCorrect.

(** ** On a list of bytes *)

Definition ld_pure : PureDecoder LengthDelimitedCodec (list Z) IoErr := fun c l => LengthDelimitedCodec_decode (B:=list Z) (c, l).

Section Sim.
Context `{BM : BytesMut B}.

Lemma sim_state : sim (E:=IoErr) eq (get_state (B:=B)) get_state.
Proof. by apply sim_gets. Qed.
Lemma sim_set_state st : sim (E:=IoErr) eq (set_state (B:=B) st) (set_state st).
Proof. by apply sim_modify. Qed.

Lemma sim_decode_head : sim eq (decode_head (B:=B)) decode_head.
Proof.
  eapply sim_bind; [apply sim_state|]. intros [c l] ? <-. cbv beta iota zeta. case_match; [by apply sim_ret|].
  eapply sim_bind; [apply sim_lift|]. intros rest ? <-. eapply sim_bind; [apply sim_lift|]. intros field ? <-.
  case_match; [apply sim_throw|].
  destruct (if length_adjustment (ld_builder c) <? 0 then _ else _) as [n|]; [|apply sim_throw].
  eapply (sim_bind eq); [|intros ? ? <-; by apply sim_ret]. case_match; [|by apply sim_ret].
  eapply sim_fmap; [apply sim_split_to|done].
Qed.

Lemma sim_decode_data n : sim (fun a a' => option_map buf_bytes a = a') (decode_data (B:=B) n) (decode_data n).
Proof.
  eapply sim_bind; [apply sim_state|]. intros [c l] ? <-. cbv beta iota zeta. case_match; [by apply sim_ret|].
  eapply sim_fmap; [apply sim_split_to|]. intros a a' E. simpl. by rewrite E.
Qed.

Lemma sim_decode : sim (fun a a' => option_map buf_bytes a = a') (LengthDelimitedCodec_decode (B:=B)) LengthDelimitedCodec_decode.
Proof.
  eapply sim_bind; [apply sim_state|]. intros [c l] ? <-. cbv beta iota zeta. eapply (sim_bind eq).
  - destruct (ld_state c); [|by apply sim_ret]. eapply sim_bind; [apply sim_decode_head|]. intros [n|] ? <-; [|by apply sim_ret].
    eapply sim_bind; [apply sim_set_state|]. intros ? ? <-. by apply sim_ret.
  - intros [n|] ? <-; [|by apply sim_ret]. eapply sim_bind; [apply sim_decode_data|]. intros [d|] ? <-; [|by apply sim_ret].
    eapply sim_bind; [apply sim_set_state|]. intros ? ? <-. by apply sim_ret.
Qed.

Lemma ld_implements : implements (B:=B) buf_bytes ld_pure.
Proof.
  intros c b. pose proof (sim_decode c b) as H. unfold ld_pure. cbn [dec LengthDelimitedCodec_Decoder].
  destruct (LengthDelimitedCodec_decode (c, b)) as [[c1 b1] x], (LengthDelimitedCodec_decode (c, buf_bytes b)) as [[c2 l2] y].
  destruct H as (-> & <- & H). destruct x, y; simplify_eq/=; done.
Qed.
End Sim.

(** ** The length of the next frame *)

(** Configurations of [usize] values whose header fits into the address space. *)
Definition builder_ok (b : Builder) : Prop :=
  1 <= length_field_len b <= 8 /\ 0 <= length_field_offset b /\ length_field_offset b + length_field_len b < 2 ^ 64 /\
  0 <= from_option id 0 (num_skip b) /\ 0 <= max_frame_len b < 2 ^ 64 /\ - 2 ^ 63 <= length_adjustment b < 2 ^ 63.

(** The value of the length field, and the length after the adjustment. *)
Definition field_of (b : Builder) (l : list Z) : Z :=
  uint_of (length_field_is_big_endian b) (take (Z.to_nat (length_field_len b)) (drop (Z.to_nat (length_field_offset b)) l)).
Definition length_of (b : Builder) (l : list Z) : outcome IoErr Z :=
  let n := field_of b l in
  if max_frame_len b <? n then Err (LengthDelimitedCodecError InvalidData)
  else
    match (if length_adjustment b <? 0 then checked_sub n (as_usize (- length_adjustment b))
           else checked_add n (as_usize (length_adjustment b))) with
    | None => Err (IoMsg InvalidInput "provided length would overflow after adjustment")
    | Some n => Ok n
    end.

Section Head.
Context (b : Builder) (Hb : builder_ok b).

Lemma num_head_eq : Builder.num_head_bytes b = Z.max (length_field_offset b + length_field_len b) (from_option id 0 (num_skip b)).
Proof.
  destruct Hb as (? & ? & ? & _). unfold Builder.num_head_bytes, as_usize, wrapu. rewrite Z.mod_small by lia. done.
Qed.
Lemma num_skip_le : 0 <= Builder.get_num_skip b <= Builder.num_head_bytes b.
Proof.
  rewrite num_head_eq. destruct Hb as (? & ? & ? & Hs & _). unfold Builder.get_num_skip, as_usize, wrapu.
  destruct (num_skip b); simpl in *; [lia|]. rewrite Z.mod_small by lia. lia.
Qed.

Lemma decode_head_eq (st : DecodeState) (l : list Z) :
  decode_head (B:=list Z) (MkLengthDelimitedCodec b st, l) =
  if len l <? Builder.num_head_bytes b then ((MkLengthDelimitedCodec b st, l), Ok None)
  else match length_of b l with
       | Ok n => ((MkLengthDelimitedCodec b st, drop (Z.to_nat (Builder.get_num_skip b)) l), Ok (Some n))
       | Err e => ((MkLengthDelimitedCodec b st, l), Err e)
       | Panic => ((MkLengthDelimitedCodec b st, l), Panic)
       end.
Proof.
  unfold decode_head, get_state. rewrite bind_gets. cbn [fst snd ld_builder]. change (buf_bytes l) with l.
  destruct (Z.ltb_spec (len l) (Builder.num_head_bytes b)) as [?|Hl]; [done|]. pose proof num_skip_le as Hs. rewrite num_head_eq in Hl.
  pose proof Hb as (H1 & H2 & H3 & _). unfold slice_from. rewrite (proj2 (Z.leb_le 0 _)), (proj2 (Z.leb_le _ (len l))) by lia. cbn [andb].
  rewrite bind_lift_Ok. unfold len in Hl.
  assert (length_field_len b <= len (drop (Z.to_nat (length_field_offset b)) l)) by (unfold len; rewrite length_drop; lia).
  rewrite slice_to_Ok by lia. rewrite bind_lift_Ok. fold (field_of b l). unfold length_of.
  destruct (max_frame_len b <? field_of b l); [done|].
  destruct (if length_adjustment b <? 0 then _ else _) as [n|]; [|done].
  destruct (Z.ltb_spec 0 (Builder.get_num_skip b)) as [H0|H0].
  - unfold mbind, SE_bind, fmap, SE_fmap, split_to. cbn [fst snd]. change (buf_bytes l) with l.
    rewrite (proj2 (Z.leb_le 0 _)), (proj2 (Z.leb_le _ (len l))) by (rewrite num_head_eq in Hs; unfold len; lia). done.
  - assert (Builder.get_num_skip b = 0) as -> by lia. done.
Qed.

Lemma length_of_app l m : Builder.num_head_bytes b <= len l -> length_of b (l ++ m) = length_of b l.
Proof.
  rewrite num_head_eq. intros Hl. destruct Hb as (H1 & H2 & _). unfold length_of, field_of. unfold len in Hl.
  rewrite drop_app_le, take_app_le by (rewrite ?length_drop; lia). done.
Qed.

Lemma length_of_nonneg l n : is_bytes l -> length_of b l = Ok n -> 0 <= n.
Proof.
  intros Hl. unfold length_of. case_match; [done|].
  assert (0 <= field_of b l) as Hf.
  { unfold field_of, uint_of. case_match; apply from_be_bytes_range; [|apply Forall_rev]; apply Forall_take, Forall_drop, Hl. }
  pose proof Hb as (_ & _ & _ & _ & _ & Ha). unfold checked_add, checked_sub, as_usize, wrapu.
  pose proof (Z.mod_pos_bound (- length_adjustment b) (2 ^ 64) eq_refl). pose proof (Z.mod_pos_bound (length_adjustment b) (2 ^ 64) eq_refl).
  repeat case_match; intros; simplify_eq; case_bools; lia.
Qed.
End Head.

(** ** Reading from the front *)

(** The part of [decode] after the header. *)
Definition data_step (b : Builder) (n : Z) (l : list Z) : (LengthDelimitedCodec * list Z) * outcome IoErr (option (list Z)) :=
  if len l <? n then ((MkLengthDelimitedCodec b (Data_ n), l), Ok None)
  else ((MkLengthDelimitedCodec b Head_, drop (Z.to_nat n) l), Ok (Some (take (Z.to_nat n) l))).

Lemma decode_data_eq b n (l : list Z) : 0 <= n ->
  ld_pure (MkLengthDelimitedCodec b (Data_ n)) l = data_step b n l.
Proof.
  intros Hn. unfold ld_pure, LengthDelimitedCodec_decode, get_state. rewrite bind_gets. cbn [fst snd ld_state]. cbv beta iota.
  rewrite bind_mret. unfold decode_data, get_state, data_step. rewrite bind_assoc, bind_gets. cbn [fst snd]. cbv beta iota.
  change (buf_bytes l) with l. destruct (Z.ltb_spec (len l) n) as [?|Hl]; [done|].
  unfold mbind, SE_bind, fmap, SE_fmap, split_to. cbn [fst snd]. change (buf_bytes l) with l.
  rewrite (proj2 (Z.leb_le 0 _)), (proj2 (Z.leb_le _ (len l))) by lia. done.
Qed.

Lemma decode_head_step b (l : list Z) : builder_ok b -> is_bytes l ->
  ld_pure (MkLengthDelimitedCodec b Head_) l =
  if len l <? Builder.num_head_bytes b then ((MkLengthDelimitedCodec b Head_, l), Ok None)
  else match length_of b l with
       | Ok n => data_step b n (drop (Z.to_nat (Builder.get_num_skip b)) l)
       | Err e => ((MkLengthDelimitedCodec b Head_, l), Err e)
       | Panic => ((MkLengthDelimitedCodec b Head_, l), Panic)
       end.
Proof.
  intros Hb Hl. unfold ld_pure, LengthDelimitedCodec_decode, get_state. rewrite bind_gets. cbn [fst snd ld_state]. cbv beta iota.
  pose proof (decode_head_eq b Hb Head_ l) as E1. destruct (len l <? Builder.num_head_bytes b).
  { rewrite bind_assoc, (bind_eq _ _ _ _ _ E1). cbv beta iota. by rewrite bind_mret. }
  destruct (length_of b l) as [n|e|] eqn:E2.
  - rewrite bind_assoc, (bind_eq _ _ _ _ _ E1). cbv beta iota. unfold set_state. rewrite bind_assoc, bind_modify. cbn [fst snd ld_builder].
    rewrite <- decode_data_eq by (by eapply length_of_nonneg). unfold ld_pure, LengthDelimitedCodec_decode, get_state.
    rewrite bind_gets. cbn [fst snd ld_state]. cbv beta iota. by rewrite !bind_mret.
  - rewrite bind_assoc. by rewrite (bind_eq_Err _ _ _ _ _ E1).
  - unfold mbind, SE_bind. by rewrite E1.
Qed.

Definition state_ok (st : DecodeState) : Prop := match st with Head_ => True | Data_ n => 0 <= n end.
Definition ld_good (c : LengthDelimitedCodec) (l : list Z) : Prop :=
  builder_ok (ld_builder c) /\ state_ok (ld_state c) /\ is_bytes l.

Lemma data_step_cases b n l : 0 <= n ->
  (len l < n /\ data_step b n l = ((MkLengthDelimitedCodec b (Data_ n), l), Ok None)) \/
  (n <= len l /\ data_step b n l = ((MkLengthDelimitedCodec b Head_, drop (Z.to_nat n) l), Ok (Some (take (Z.to_nat n) l)))).
Proof. intros Hn. unfold data_step. destruct (Z.ltb_spec (len l) n); auto. Qed.

Lemma data_step_some b n l m c' l' v : 0 <= n -> data_step b n l = ((c', l'), Ok (Some v)) ->
  data_step b n (l ++ m) = ((c', l' ++ m), Ok (Some v)).
Proof.
  intros Hn H. destruct (data_step_cases b n l Hn) as [[Hl E1]|[Hl E1]]; rewrite E1 in H; simplify_eq.
  unfold data_step. rewrite len_app, (proj2 (Z.ltb_ge _ _)) by (pose proof (len_nonneg m); lia). unfold len in Hl.
  by rewrite drop_app_le, take_app_le by lia.
Qed.

Lemma data_step_none b n l c' l' : 0 <= n -> data_step b n l = ((c', l'), Ok None) ->
  c' = MkLengthDelimitedCodec b (Data_ n) /\ l' = l.
Proof. intros Hn H. by destruct (data_step_cases b n l Hn) as [[Hl E1]|[Hl E1]]; rewrite E1 in H; simplify_eq. Qed.

Lemma data_step_kept b n l c' l' r : 0 <= n -> builder_ok b -> is_bytes l -> data_step b n l = ((c', l'), r) ->
  ld_good c' l' /\ len l' <= len l /\ exists v, r = Ok v.
Proof.
  intros Hn Hb Hl H. destruct (data_step_cases b n l Hn) as [[Hl' E1]|[Hl' E1]]; rewrite E1 in H; simplify_eq.
  - split; [|split; [done|eauto]]. by split_and!.
  - split; [|split; [unfold len; rewrite length_drop; lia|eauto]]. split; [done|]. split; [done|]. by apply Forall_drop.
Qed.

(** The three cases of a call. *)
Lemma ld_cases c l : ld_good c l ->
  (exists b, c = MkLengthDelimitedCodec b Head_ /\ len l < Builder.num_head_bytes b /\ ld_pure c l = ((c, l), Ok None)) \/
  (exists b e, c = MkLengthDelimitedCodec b Head_ /\ length_of b l = Err e /\ Builder.num_head_bytes b <= len l /\
     ld_pure c l = ((c, l), Err e)) \/
  (exists k n, 0 <= n /\ 0 <= k <= len l /\ is_bytes (drop (Z.to_nat k) l) /\ builder_ok (ld_builder c) /\
     (ld_state c = Data_ n /\ k = 0 \/ length_of (ld_builder c) l = Ok n) /\
     forall m, is_bytes m -> ld_pure c (l ++ m) = data_step (ld_builder c) n (drop (Z.to_nat k) l ++ m)).
Proof.
  intros (Hb & Hs & Hl). destruct c as [b [|n]]; simpl in *.
  - rewrite decode_head_step by done. destruct (Z.ltb_spec (len l) (Builder.num_head_bytes b)) as [?|Hn]; [left; eauto|].
    right. destruct (length_of b l) as [n|e|] eqn:E1.
    + right. pose proof (num_skip_le b Hb). exists (Builder.get_num_skip b), n. split; [by eapply length_of_nonneg|]. split; [lia|].
      split; [by apply Forall_drop|]. split; [done|]. split; [by right|]. intros m Hm.
      rewrite decode_head_step by (done || by apply Forall_app). pose proof (len_nonneg m).
      rewrite len_app, (proj2 (Z.ltb_ge _ _)), length_of_app, E1 by (done || lia).
      by rewrite drop_app_le by (unfold len in Hn; lia).
    + left. eauto 6.
    + exfalso. revert E1. unfold length_of. repeat case_match; done.
  - right. right. exists 0, n. pose proof (len_nonneg l). split_and!; try done; [by left|]. intros m Hm. by apply decode_data_eq.
Qed.

Lemma ld_err_more b l m e : builder_ok b -> is_bytes l -> Builder.num_head_bytes b <= len l -> length_of b l = Err e ->
  is_bytes m -> (ld_pure (MkLengthDelimitedCodec b Head_) (l ++ m)).2 = Err e.
Proof.
  intros Hb Hl Hn E1 Hm. rewrite decode_head_step by (done || by apply Forall_app). pose proof (len_nonneg m).
  by rewrite len_app, (proj2 (Z.ltb_ge _ _)), length_of_app, E1 by (done || lia).
Qed.

Lemma ld_call c l k n : builder_ok (ld_builder c) ->
  (forall m, is_bytes m -> ld_pure c (l ++ m) = data_step (ld_builder c) n (drop (Z.to_nat k) l ++ m)) ->
  ld_pure c l = data_step (ld_builder c) n (drop (Z.to_nat k) l).
Proof. intros _ H. specialize (H [] (Forall_nil_2 _)). by rewrite !app_nil_r in H. Qed.

#[export] Instance ld_incremental : Incremental ld_pure ld_good.
Proof.
  split.
  - intros c l m (Hb & Hs & Hl) Hm. split_and!; [done..|]. by apply Forall_app.
  - intros c l c' l' r Hg H.
    destruct (ld_cases c l Hg) as [(b & -> & Hl & E1)|[(b & e & -> & _ & Hl & E1)|(k & n & Hn & Hk & Hl & Hb & _ & E1)]];
      [rewrite E1 in H; by simplify_eq..|]. rewrite (ld_call c l k n Hb E1) in H.
    by destruct (data_step_kept _ _ _ _ _ _ Hn Hb Hl H).
  - intros c l m c' l' v Hg Hm H.
    destruct (ld_cases c l Hg) as [(b & -> & Hl & E1)|[(b & e & -> & _ & Hl & E1)|(k & n & Hn & Hk & Hl & Hb & _ & E1)]];
      [rewrite E1 in H; by simplify_eq..|]. rewrite E1 by done. rewrite (ld_call c l k n Hb E1) in H. by apply data_step_some.
  - intros c l m c' l' Hg Hm H.
    destruct (ld_cases c l Hg) as [(b & -> & Hl & E1)|[(b & e & -> & _ & Hl & E1)|(k & n & Hn & Hk & Hl & Hb & _ & E1)]];
      [rewrite E1 in H; simplify_eq; by left|by rewrite E1 in H|]. rewrite E1 by done. rewrite (ld_call c l k n Hb E1) in H.
    destruct (data_step_none _ _ _ _ _ Hn H) as [-> ->]. left. by rewrite decode_data_eq.
  - intros c l m e Hg Hm H. pose proof Hg as (Hb' & _ & Hl').
    destruct (ld_cases c l Hg) as [(b & -> & Hl & E1)|[(b & e' & -> & He & Hl & E1)|(k & n & Hn & Hk & Hl & Hb & _ & E1)]].
    + by rewrite E1 in H.
    + rewrite E1 in H. simplify_eq/=. by apply ld_err_more.
    + rewrite (ld_call c l k n Hb E1) in H. by destruct (data_step_cases (ld_builder c) n (drop (Z.to_nat k) l) Hn) as [[? E2]|[? E2]]; rewrite E2 in H.
  - intros c l c' l' r Hg H.
    destruct (ld_cases c l Hg) as [(b & -> & Hl & E1)|[(b & e & -> & _ & Hl & E1)|(k & n & Hn & Hk & Hl & Hb & _ & E1)]];
      [rewrite E1 in H; by simplify_eq..|]. rewrite (ld_call c l k n Hb E1) in H.
    destruct (data_step_kept _ _ _ _ _ _ Hn Hb Hl H) as (_ & Hle & _). unfold len in *. rewrite length_drop in Hle. lia.
  - intros c l Hg H.
    destruct (ld_cases c l Hg) as [(b & -> & Hl & E1)|[(b & e & -> & _ & Hl & E1)|(k & n & Hn & Hk & Hl & Hb & _ & E1)]];
      [by rewrite E1 in H..|]. rewrite (ld_call c l k n Hb E1) in H.
    by destruct (data_step_cases (ld_builder c) n (drop (Z.to_nat k) l) Hn) as [[? E2]|[? E2]]; rewrite E2 in H.
Qed.

(** ** Whole frames *)

(** The bytes of exactly one item. *)
Definition one_item (b : Builder) (f item : list Z) : Prop :=
  Builder.num_head_bytes b <= len f /\ length_of b f = Ok (len item) /\ drop (Z.to_nat (Builder.get_num_skip b)) f = item.

Section Items.
Context (b : Builder) (Hb : builder_ok b).
Let c := MkLengthDelimitedCodec b Head_.

Lemma one_item_decode f item : is_bytes f -> one_item b f item -> ld_pure c f = ((c, []), Ok (Some item)).
Proof.
  intros Hf (Hl & En & <-). unfold c. rewrite decode_head_step, (proj2 (Z.ltb_ge _ _)), En by done. unfold data_step.
  rewrite (proj2 (Z.ltb_ge _ _)) by lia. unfold len. rewrite Nat2Z.id. by rewrite drop_ge, take_ge by lia.
Qed.

Lemma no_item : ld_pure c [] = ((c, []), Ok None).
Proof.
  unfold c. rewrite decode_head_step by (done || constructor). rewrite (proj2 (Z.ltb_lt _ _)); [done|].
  rewrite num_head_eq by done. destruct Hb. change (len (@nil Z)) with 0. lia.
Qed.

Lemma parses_items F items : is_bytes (concat F) -> Forall2 (one_item b) F items -> parses ld_pure c (concat F) items c [].
Proof.
  intros Hbytes H. induction H as [|f item F items Hi H IH]; [apply parses_end, no_item|].
  cbn [concat] in *. apply Forall_app in Hbytes as [Hf HF]. eapply parses_item; [|by apply IH].
  apply (inc_some (p:=ld_pure) c f (concat F) c [] item); [by split_and!|done|]. by apply one_item_decode.
Qed.
End Items.

(** ** What the encoder writes *)

(** Data that the codec sends in a form that it accepts: a header of the length field
    only, and a length that fits into the field and is within the limit before and after
    the adjustment. *)
Definition carried (b : Builder) (data : list Z) : Prop :=
  is_bytes data /\ len data <= max_frame_len b /\
  0 <= len data - length_adjustment b <= max_frame_len b /\ len data - length_adjustment b < 256 ^ length_field_len b.
Definition plain_header (b : Builder) : Prop := length_field_offset b = 0 /\ num_skip b = None.

Definition ld_wire (b : Builder) (data : list Z) : list Z :=
  uint_bytes (length_field_is_big_endian b) (Z.to_nat (length_field_len b)) (len data - length_adjustment b) ++ data.

Section Wire.
Context (b : Builder) (Hb : builder_ok b) (Hp : plain_header b).

Lemma uint_bytes_length big n z : length (uint_bytes big n z) = n.
Proof. unfold uint_bytes. case_match; rewrite ?length_rev; apply to_be_bytes_length. Qed.
Lemma uint_bytes_is_bytes big n z : is_bytes (uint_bytes big n z).
Proof. unfold uint_bytes. case_match; [|apply Forall_rev]; apply to_be_bytes_is_bytes. Qed.
Lemma uint_of_bytes big n z : 0 <= z < 256 ^ Z.of_nat n -> uint_of big (uint_bytes big n z) = z.
Proof. intros Hz. unfold uint_of, uint_bytes. destruct big; rewrite ?rev_involutive; by apply from_to_be_bytes. Qed.

Lemma plain_skip : Builder.get_num_skip b = length_field_len b /\ Builder.num_head_bytes b = length_field_len b.
Proof.
  rewrite num_head_eq by done. destruct Hp as [E1 E2], Hb as (H1 & H2 & H3 & _). unfold Builder.get_num_skip.
  rewrite E1, E2 in *. simpl. unfold as_usize, wrapu. rewrite Z.mod_small by lia. lia.
Qed.

Lemma wire_one_item data : carried b data -> one_item b (ld_wire b data) data.
Proof.
  intros (Hbytes & Hmax & Hadj & Hfit). destruct plain_skip as [E1 E2]. pose proof Hp as [E3 _]. pose proof Hb as (H1 & _ & _ & _ & H5 & H6).
  unfold one_item, ld_wire. rewrite E1, E2. pose proof (len_nonneg data).
  set (n := len data - length_adjustment b) in *. set (h := uint_bytes _ _ n).
  assert (length h = Z.to_nat (length_field_len b)) as Hh by apply uint_bytes_length.
  split; [rewrite len_app; unfold len at 1; rewrite Hh; lia|]. split; [|by rewrite <- Hh, drop_app_length].
  unfold length_of, field_of. rewrite E3. change (Z.to_nat 0) with 0%nat. rewrite drop_0, <- Hh, take_app_length. unfold h.
  rewrite uint_of_bytes by (rewrite Z2Nat.id; lia). rewrite (proj2 (Z.ltb_ge _ _)) by lia.
  unfold checked_add, checked_sub, as_usize, wrapu. destruct (Z.ltb_spec (length_adjustment b) 0).
  - rewrite Z.mod_small, (proj2 (Z.leb_le _ _)) by lia. f_equal. lia.
  - rewrite Z.mod_small, (proj2 (Z.ltb_lt _ _)) by lia. f_equal. lia.
Qed.

Lemma wire_is_bytes data : is_bytes data -> is_bytes (ld_wire b data).
Proof. intros. apply Forall_app_2; [apply uint_bytes_is_bytes|done]. Qed.

Lemma encode_wire `{BM : BytesMut B} (buf : B) data :
  carried b data -> len (buf_bytes buf) + len data < 2 ^ 63 ->
  let c := MkLengthDelimitedCodec b Head_ in
  exists buf', LengthDelimitedCodec_encode data (c, buf) = ((c, buf'), Ok tt) /\
    buf_bytes buf' = buf_bytes buf ++ ld_wire b data.
Proof.
  intros (Hbytes & Hmax & Hadj & Hfit) Hroom c. pose proof Hb as (H1 & _ & _ & _ & H5 & H6).
  unfold LengthDelimitedCodec_encode, get_state. rewrite bind_gets. cbn [fst snd]. cbv beta iota zeta. cbn [ld_builder c].
  rewrite (proj2 (Z.ltb_ge _ _)) by lia. pose proof (len_nonneg data).
  assert ((if length_adjustment b <? 0 then checked_add (len data) (as_usize (- length_adjustment b))
     else checked_sub (len data) (as_usize (length_adjustment b))) = Some (len data - length_adjustment b)) as ->.
  { unfold checked_add, checked_sub, as_usize, wrapu. destruct (Z.ltb_spec (length_adjustment b) 0).
    - rewrite Z.mod_small, (proj2 (Z.ltb_lt _ _)) by lia. f_equal; lia.
    - rewrite Z.mod_small, (proj2 (Z.leb_le _ _)) by lia. f_equal. }
  rewrite bind_modify. unfold modify. cbn [fst snd]. eexists. split; [done|]. unfold ld_wire.
  set (h := uint_bytes _ _ (len data - length_adjustment b)).
  assert (len h <= 8) by (unfold len, h; rewrite uint_bytes_length; lia).
  assert (buf_bytes (put_slice buf h) = buf_bytes buf ++ h) as E1 by (apply put_slice_bytes; rewrite bm_remaining; lia).
  rewrite put_slice_bytes; rewrite ?bm_remaining, E1, ?(assoc_L (++)); [done|]. rewrite len_app. lia.
Qed.
End Wire.

(** Items that are sent one after the other. *)
Lemma send_all_wire `{BM : BytesMut B} b (Hb : builder_ok b) datas : forall (w : FramedWrite2 LengthDelimitedCodec B),
  Forall (carried b) datas -> w2_codec w = MkLengthDelimitedCodec b Head_ ->
  len (buf_bytes (w2_buffer w)) + len (concat (ld_wire b <$> datas)) < 2 ^ 63 ->
  exists w', send_all datas w = (w', Ok tt) /\ w2_codec w' = w2_codec w /\ w2_sent w' = w2_sent w /\
    buf_bytes (w2_buffer w') = buf_bytes (w2_buffer w) ++ concat (ld_wire b <$> datas).
Proof.
  induction datas as [|data datas IH]; intros w Hd Hc Hroom; cbn [send_all fmap list_fmap concat] in *.
  { exists w. by rewrite app_nil_r. }
  apply Forall_cons in Hd as [Hd Hds]. rewrite len_app in Hroom. pose proof (len_nonneg (concat (ld_wire b <$> datas))).
  assert (len data <= len (ld_wire b data)) by (unfold ld_wire; rewrite len_app; pose proof (len_nonneg (uint_bytes (length_field_is_big_endian b)
    (Z.to_nat (length_field_len b)) (len data - length_adjustment b))); lia).
  destruct (encode_wire b Hb (w2_buffer w) data Hd) as (buf' & E1 & E2); [lia|].
  assert (start_send data w = (MkFramedWrite2 (w2_codec w) buf' (w2_sent w), Ok tt)) as E3.
  { unfold start_send. cbn [enc LengthDelimitedCodec_Encoder]. by rewrite Hc, E1. }
  rewrite (bind_eq _ _ _ _ _ E3).
  destruct (IH (MkFramedWrite2 (w2_codec w) buf' (w2_sent w)) Hds Hc) as (w' & E4 & E5 & E6 & E7); [simpl; rewrite E2, len_app; lia|].
  exists w'. split; [done|]. split; [done|]. split; [done|]. cbn [w2_buffer] in E7. by rewrite E7, E2, <- (assoc_L (++)).
Qed.

(** ** A new reader *)

Lemma framed_read2_ok `{BM : BytesMut B} b :
  builder_ok b -> stream_ok (good:=ld_good) ld_pure (framed_read2 (B:=B) (MkLengthDelimitedCodec b Head_)).
Proof.
  intros Hb. unfold stream_ok. cbn [framed_read2 r2_codec r2_buffer r2_is_readable r2_eof]. rewrite bm_new_bytes.
  split; [done|]. split; [split_and!; [done..|constructor]|]. intros _. by apply no_item.
Qed.

(** Frames in any pieces. *)
Lemma drain_items `{BM : BytesMut B} b F items script :
  builder_ok b -> Forall2 (one_item b) F items -> Forall data_only script -> script_bytes script = concat F -> len (concat F) < 2 ^ 64 ->
  exists xs r', drain (S (length items + length script)) script (framed_read2 (B:=B) (MkLengthDelimitedCodec b Head_)) = (xs, r', Some (Ok tt)) /\
    buf_bytes <$> xs = items /\ r2_codec r' = MkLengthDelimitedCodec b Head_ /\ buf_bytes (r2_buffer r') = [].
Proof.
  intros Hb Hi Hs Es Hl. pose proof (script_is_bytes _ Hs) as Hbytes. rewrite Es in Hbytes.
  destruct (drain_stream buf_bytes ld_pure ld_implements (S (length items + length script)) script
    (framed_read2 (B:=B) (MkLengthDelimitedCodec b Head_)) items (MkLengthDelimitedCodec b Head_) [])
    as (xs & r' & E1 & E2 & E3 & E4 & _); [done|by apply framed_read2_ok| | |lia|by exists xs, r'].
  - unfold room. cbn [framed_read2 r2_buffer]. rewrite bm_new_bytes, Es. exact Hl.
  - unfold ahead. cbn [framed_read2 r2_codec r2_buffer]. rewrite bm_new_bytes, Es. by apply parses_items.
Qed.

(** C28. [LengthDelimitedCodec] over a socket: what a [FramedWrite] is given and has
    flushed, a [FramedRead] with the same configuration returns, item by item and in
    order, into whatever pieces the socket cuts the bytes, waiting in between included.
    This holds for every byte order, field width and adjustment, when the length field
    is the whole header and each length fits into it.  At any time before the flush is
    done the socket has taken a prefix of the same bytes. *)
Theorem length_delimited_transport `{BM : BytesMut B} b datas wscript rscript :
  builder_ok b -> plain_header b -> Forall (carried b) datas -> len (concat (ld_wire b <$> datas)) < 2 ^ 63 -> Forall data_only rscript ->
  exists w, send_all datas (MkFramedWrite2 (Builder.new_codec b) (bm_new : B) []) = (w, Ok tt) /\
    let '(w1, _, r) := poll_flush (E:=IoErr) wscript w in
    w2_sent w1 ++ buf_bytes (w2_buffer w1) = concat (ld_wire b <$> datas) /\ r <> Panic /\
    (r = Ok (Ready tt) -> script_bytes rscript = w2_sent w1 ->
     exists xs r', drain (S (length datas + length rscript)) rscript (framed_read2 (B:=B) (Builder.new_codec b)) = (xs, r', Some (Ok tt)) /\
       buf_bytes <$> xs = datas /\ buf_bytes (r2_buffer r') = []).
Proof.
  intros Hb Hp Hd Hroom Hr.
  destruct (send_all_wire b Hb datas (MkFramedWrite2 (Builder.new_codec b) bm_new [])) as (w & E1 & Ec & Es & Eb); [done|done| |].
  { cbn [w2_buffer]. by rewrite bm_new_bytes. }
  exists w. split; [done|]. cbn [w2_sent w2_buffer] in *. rewrite bm_new_bytes in Eb.
  pose proof (poll_flush_post (E:=IoErr) wscript w) as H. destruct (poll_flush wscript w) as [[w1 script'] r]. destruct H as (_ & H1 & _ & H2).
  unfold w2_stream in H1. rewrite Es, Eb in H1. split; [done|]. split; [by intros ->|]. intros -> Hbytes. rewrite H2, app_nil_r in H1.
  destruct (drain_items (B:=B) b (ld_wire b <$> datas) datas rscript Hb) as (xs & r' & E2 & E3 & _ & E4);
    [|done|by rewrite Hbytes|by trans (2 ^ 63)|by exists xs, r'].
  apply Forall2_fmap_l. clear -Hb Hp Hd. induction Hd; constructor; [by apply wire_one_item|done].
Qed.

Lemma length_delimited_transport_witness :
  let b := MkBuilder 1000 2 0 (-2) None false in
  exists w, send_all [[1; 2; 3]; []; [255]] (MkFramedWrite2 (Builder.new_codec b) (bm_new : list Z) []) = (w, Ok tt) /\
    let '(w1, _, r) := poll_flush (E:=IoErr) [WTook 4; WTook 100; WTook 0] w in
    w2_sent w1 ++ buf_bytes (w2_buffer w1) = concat (ld_wire b <$> [[1; 2; 3]; []; [255]]) /\ r <> Panic /\
    (r = Ok (Ready tt) -> script_bytes [RData [5; 0; 1; 2]; RPending; RData [3; 2; 0; 3]; RData [0; 255]] = w2_sent w1 ->
     exists xs r', drain 8 [RData [5; 0; 1; 2]; RPending; RData [3; 2; 0; 3]; RData [0; 255]] (framed_read2 (B:=list Z) (Builder.new_codec b)) = (xs, r', Some (Ok tt)) /\
       buf_bytes <$> xs = [[1; 2; 3]; []; [255]] /\ buf_bytes (r2_buffer r') = []).
Proof.
  intros b. refine (length_delimited_transport (B:=list Z) b [[1; 2; 3]; []; [255]] [WTook 4; WTook 100; WTook 0]
    [RData [5; 0; 1; 2]; RPending; RData [3; 2; 0; 3]; RData [0; 255]] _ _ _ _ _).
  - vm_compute. by repeat split.
  - done.
  - repeat constructor; vm_compute; by repeat split.
  - done.
  - repeat constructor; vm_compute; by repeat split.
Defined.

(** ** Lengths that do not fit *)

Lemma from_to_be_bytes_mod n : forall z, 0 <= z -> from_be_bytes (to_be_bytes n z) = z mod 256 ^ Z.of_nat n.
Proof.
  induction n as [|n IH]; intros z Hz; [by rewrite Z.mod_1_r|]. change (to_be_bytes (S n) z) with (to_be_bytes n (z / 256) ++ [z mod 256]).
  rewrite from_be_bytes_snoc, IH by (apply Z.div_pos; lia). rewrite Nat2Z.inj_succ, Z.pow_succ_r by lia.
  rewrite (Z.rem_mul_r z 256) by lia. lia.
Qed.

Lemma uint_of_bytes_mod big n z : 0 <= z -> uint_of big (uint_bytes big n z) = z mod 256 ^ Z.of_nat n.
Proof. intros Hz. unfold uint_of, uint_bytes. destruct big; rewrite ?rev_involutive; by apply from_to_be_bytes_mod. Qed.

(** A length field that is too narrow: [LengthDelimitedCodec::encode] checks the length
    against [max_frame_length] only.  Data of [256 ^ n] bytes and more, with a length field of
    [n] bytes, is written without an error and with the low bytes of its length, and a decoder of the same
    configuration cuts a shorter frame out of it and goes on in the middle of the data. *)
Theorem length_field_truncated `{BM : BytesMut B} b data :
  builder_ok b -> plain_header b -> length_adjustment b = 0 -> is_bytes data ->
  256 ^ length_field_len b <= len data <= max_frame_len b -> len data < 2 ^ 62 ->
  exists buf : B, LengthDelimitedCodec_encode data (Builder.new_codec b, bm_new) = ((Builder.new_codec b, buf), Ok tt) /\
    let n := Z.to_nat (len data mod 256 ^ length_field_len b) in
    LengthDelimitedCodec_decode (B:=list Z) (Builder.new_codec b, buf_bytes buf) =
      ((Builder.new_codec b, drop n data), Ok (Some (take n data))) /\ (n < length data)%nat.
Proof.
  intros Hb Hp Ha Hd [Hfit Hmax] Hlen. pose proof Hb as (H1 & _ & _ & _ & H5 & _).
  assert (0 < 256 ^ length_field_len b) as Hpow by (apply Z.pow_pos_nonneg; lia).
  pose proof (Z.mod_pos_bound (len data) _ Hpow) as Hmod.
  set (h := uint_bytes (length_field_is_big_endian b) (Z.to_nat (length_field_len b)) (len data)).
  assert (length h = Z.to_nat (length_field_len b)) as Hh by apply uint_bytes_length.
  exists (put_slice (put_slice bm_new h) data).
  assert (buf_bytes (put_slice (put_slice (bm_new : B) h) data) = h ++ data) as Eb.
  { assert (buf_bytes (put_slice (bm_new : B) h) = h) as E1.
    { rewrite put_slice_bytes; rewrite ?bm_remaining, bm_new_bytes; [done|]. change (len (@nil Z)) with 0. unfold len. lia. }
    rewrite put_slice_bytes; rewrite ?bm_remaining, E1; [done|]. unfold len in *. lia. }
  split.
  - unfold LengthDelimitedCodec_encode, get_state, Builder.new_codec. rewrite bind_gets. cbn [fst snd ld_builder]. cbv beta iota zeta.
    rewrite (proj2 (Z.ltb_ge _ _)), Ha by lia. change (0 <? 0) with false. cbv iota. unfold checked_sub. change (as_usize 0) with 0.
    rewrite (proj2 (Z.leb_le _ _)), Z.sub_0_r by lia. done.
  - intros n. rewrite Eb. change (LengthDelimitedCodec_decode (B:=list Z) ?s) with (ld_pure s.1 s.2). cbn [fst snd]. unfold Builder.new_codec.
    destruct (plain_skip b Hb Hp) as [E1 E2]. pose proof Hp as [E3 _].
    rewrite decode_head_step, E1, E2 by first [done | by apply Forall_app_2; [apply uint_bytes_is_bytes|]].
    rewrite (proj2 (Z.ltb_ge _ _)) by (rewrite len_app; unfold len in *; lia).
    assert (length_of b (h ++ data) = Ok (len data mod 256 ^ length_field_len b)) as ->.
    { unfold length_of, field_of. rewrite E3. change (Z.to_nat 0) with 0%nat. rewrite drop_0, <- Hh, take_app_length. unfold h.
      rewrite uint_of_bytes_mod by lia. rewrite Z2Nat.id by lia. pose proof (Z.mod_le (len data) _ ltac:(lia) Hpow).
      rewrite (proj2 (Z.ltb_ge _ _)), Ha by lia. change (0 <? 0) with false. cbv iota. unfold checked_add. change (as_usize 0) with 0.
      by rewrite Z.add_0_r, (proj2 (Z.ltb_lt _ _)) by lia. }
    rewrite <- Hh, drop_app_length. unfold data_step. rewrite (proj2 (Z.ltb_ge _ _)) by lia. split; [done|]. unfold len in *. lia.
Qed.

Lemma length_field_truncated_witness :
  let b := MkBuilder 1000 1 0 0 None true in let data := replicate 258 7 in
  exists buf : list Z, LengthDelimitedCodec_encode data (Builder.new_codec b, bm_new) = ((Builder.new_codec b, buf), Ok tt) /\
    LengthDelimitedCodec_decode (B:=list Z) (Builder.new_codec b, buf) =
      ((Builder.new_codec b, drop 2 data), Ok (Some [7; 7])) /\ (2 < length data)%nat.
Proof.
  intros b data. refine (length_field_truncated (B:=list Z) b data _ _ _ _ _ _).
  - vm_compute. by repeat split.
  - by split.
  - reflexivity.
  - apply Forall_replicate. vm_compute. by split.
  - vm_compute. by split.
  - reflexivity.
Defined.
