(* ===== verification/LinesCorrect.v ===== *)
(** * Lines: correctness

    [LinesCodec] returns the lines that were sent, never searches a byte twice in a way
    that matters, and always returns; what happens after a line that is too long, and
    after a last line that is not text. *)

From Stdlib Require Import String List.
From S2P Require Import Prelude Bytes H2Types HttpTypes Codec CodecCorrect.

(** ** On a list of bytes *)

Definition lines_pure : PureDecoder LinesCodec (list Z) LinesCodecError := fun c l => LinesCodec_decode (B:=list Z) (c, l).

Section Sim.
Context `{BM : BytesMut B}.

Lemma sim_set_lines i d : sim eq (set_lines (B:=B) i d) (set_lines i d).
Proof. by apply sim_modify. Qed.

Lemma sim_lines_loop fuel : sim eq (lines_loop (B:=B) fuel) (lines_loop fuel).
Proof.
  induction fuel as [|fuel IH]; cbn [lines_loop]; [apply sim_panic|].
  eapply (sim_bind eq); [by apply sim_gets|]. intros [self buf] ? <-. cbv beta iota zeta.
  eapply sim_bind; [apply sim_lift|]. intros seen ? <-. eapply sim_bind; [apply sim_lift|]. intros window ? <-.
  destruct (is_discarding self), (newline_position window) as [offset|].
  - eapply sim_bind; [apply sim_split_to|]. intros _ _ _. eapply sim_bind; [apply sim_set_lines|]. by intros ? ? <-.
  - eapply sim_bind; [apply sim_split_to|]. intros _ _ _. eapply sim_bind; [apply sim_set_lines|]. intros ? ? _.
    eapply (sim_bind eq); [by apply sim_gets|]. intros buf' ? <-. case_bool_decide; [apply sim_throw|done].
  - eapply sim_bind; [apply sim_set_lines|]. intros ? ? _. eapply sim_bind; [apply sim_split_to|]. intros line ? <-. cbv beta.
    eapply sim_bind; [apply sim_lift|]. intros l ? <-. eapply sim_fmap; [apply sim_lift|]. by intros ? ? <-.
  - case_match.
    + eapply sim_bind; [apply sim_set_lines|]. intros ? ? _. apply sim_throw.
    + eapply sim_bind; [apply sim_set_lines|]. intros ? ? _. by apply sim_ret.
Qed.

Lemma lines_implements : implements (B:=B) id lines_pure.
Proof.
  intros c b. pose proof (sim_lines_loop (length (buf_bytes b) + 3) c b) as H. unfold lines_pure. cbn [dec LinesCodec_Decoder].
  unfold LinesCodec_decode. rewrite !bind_gets. cbn [snd]. change (buf_bytes (buf_bytes b)) with (buf_bytes b).
  destruct (lines_loop _ (c, b)) as [[c1 b1] x], (lines_loop _ (c, buf_bytes b)) as [[c2 l2] y].
  destruct H as (-> & <- & H). destruct x as [[x|]| |], y; simplify_eq/=; done.
Qed.
End Sim.

(** ** Positions of newlines *)

Lemma newline_app_some l m i : newline_position l = Some i -> newline_position (l ++ m) = Some i.
Proof.
  revert i. induction l as [|x l IH]; intros i H; [done|]. cbn [newline_position app] in *. case_match; [done|].
  destruct (newline_position l) as [j|]; [|done]. by rewrite (IH j).
Qed.
Lemma newline_app_none l m : newline_position l = None -> newline_position (l ++ m) = Z.add (len l) <$> newline_position m.
Proof.
  induction l as [|x l IH]; intros H; cbn [newline_position app] in *.
  { by destruct (newline_position m). }
  destruct (x =? 10); [done|]. destruct (newline_position l); [done|]. rewrite IH by done.
  destruct (newline_position m); [|done]. cbn. f_equal. rewrite len_cons. lia.
Qed.
Lemma newline_range l i : newline_position l = Some i -> 0 <= i < len l.
Proof.
  revert i. induction l as [|x l IH]; intros i H; [done|]. cbn [newline_position] in H. rewrite len_cons. pose proof (len_nonneg l).
  case_match; [simplify_eq; lia|]. destruct (newline_position l) as [j|]; [|done]. simplify_eq/=. specialize (IH j eq_refl). lia.
Qed.

(** The search can start after bytes without one. *)
Lemma newline_from l n : newline_position (take n l) = None ->
  newline_position l = Z.add (len (take n l)) <$> newline_position (drop n l).
Proof. intros H. rewrite <- (take_drop n l) at 1. by apply newline_app_none. Qed.

(** ** A call *)

Definition window (c : LinesCodec) : Z := Z.min (max_length c + 1) usize_max.

Definition lines_good (c : LinesCodec) (l : list Z) : Prop :=
  is_discarding c = false /\ 0 <= next_index c <= len l /\ next_index c <= max_length c /\ max_length c <= usize_max /\
  newline_position (take (Z.to_nat (next_index c)) l) = None /\ is_bytes l.

Definition line_step (c : LinesCodec) (l : list Z) : (LinesCodec * list Z) * outcome LinesCodecError (option (list Z)) :=
  match newline_position (take (Z.to_nat (window c)) l) with
  | Some i => ((MkLinesCodec 0 (max_length c) false, drop (Z.to_nat (i + 1)) l), Some <$> utf8 (without_carriage_return (take (Z.to_nat i) l)))
  | None =>
      if max_length c <? len l then ((MkLinesCodec (next_index c) (max_length c) true, l), Err MaxLineLengthExceeded)
      else ((MkLinesCodec (len l) (max_length c) false, l), Ok None)
  end.

Lemma window_ge c l : lines_good c l -> max_length c <= window c /\ next_index c <= window c /\ 0 <= window c.
Proof. intros (_ & H1 & H2 & H3 & _). unfold window. lia. Qed.

Lemma take_window c (l : list Z) : take (Z.to_nat (Z.min (window c) (len l))) l = take (Z.to_nat (window c)) l.
Proof.
  unfold len. destruct (Z.min_spec (window c) (Z.of_nat (length l))) as [[_ ->]|[? ->]]; [done|].
  rewrite !take_ge; [done|lia|lia].
Qed.

Lemma newline_in_window c l : lines_good c l ->
  newline_position (take (Z.to_nat (window c)) l) =
  Z.add (next_index c) <$> newline_position (drop (Z.to_nat (next_index c)) (take (Z.to_nat (window c)) l)).
Proof.
  intros Hg. pose proof (window_ge c l Hg) as (_ & Hw & _). destruct Hg as (_ & H1 & _ & _ & Hn & _). unfold len in H1.
  assert (take (Z.to_nat (next_index c)) (take (Z.to_nat (window c)) l) = take (Z.to_nat (next_index c)) l) as E
    by (rewrite take_take; f_equal; lia).
  rewrite (newline_from _ (Z.to_nat (next_index c))) by (by rewrite E). rewrite E. unfold len. rewrite length_take.
  f_equal. replace (Z.of_nat _) with (next_index c) by lia. done.
Qed.

Lemma lines_loop_eq fuel c (l : list Z) : lines_good c l -> lines_loop (S fuel) (c, l) = line_step c l.
Proof.
  intros Hg. pose proof (newline_in_window c l Hg) as En. pose proof (window_ge c l Hg) as (Hw1 & Hw2 & Hw3).
  pose proof Hg as (Hd & H1 & H2 & H3 & H4 & _).
  cbn [lines_loop]. rewrite bind_gets. cbn [fst snd]. cbv beta iota zeta. change (buf_bytes l) with l.
  fold (window c). rewrite slice_to_Ok by (pose proof (len_nonneg l); lia). rewrite bind_lift_Ok, take_window.
  assert (next_index c <= len (take (Z.to_nat (window c)) l)) as Hni by (unfold len in *; rewrite length_take; lia).
  rewrite slice_from_Ok, bind_lift_Ok, Hd by lia.
  unfold line_step. rewrite En.
  destruct (newline_position (drop (Z.to_nat (next_index c)) _)) as [off|] eqn:Eo; cbn [fmap option_fmap option_map].
  - apply newline_range in Eo. unfold len in Eo. rewrite length_drop, length_take in Eo.
    unfold set_lines. rewrite bind_modify. cbn [fst snd]. unfold split_to. unfold mbind at 1, SE_bind at 1. cbn [fst snd max_length].
    change (buf_bytes l) with l. rewrite (proj2 (Z.leb_le 0 _)), (proj2 (Z.leb_le _ (len l))) by (unfold len; lia). cbn [andb].
    change (bm_split_to l (Z.to_nat (off + next_index c + 1))) with (take (Z.to_nat (off + next_index c + 1)) l, drop (Z.to_nat (off + next_index c + 1)) l).
    cbv beta iota. change (buf_bytes (take ?n l)) with (take n l).
    assert (len (take (Z.to_nat (off + next_index c + 1)) l) = off + next_index c + 1) as El by (unfold len; rewrite length_take; lia).
    rewrite slice_to_Ok by lia. rewrite bind_lift_Ok, El, take_take. 
    replace (Z.to_nat (off + next_index c + 1 - 1) `min` _)%nat with (Z.to_nat (next_index c + off)) by lia.
    rewrite (Z.add_comm off). unfold fmap, SE_fmap, lift. by destruct (utf8 _).
  - destruct (max_length c <? len l) eqn:Hm; [done|]. apply Z.ltb_ge in Hm. unfold set_lines. rewrite bind_modify. cbn [fst snd].
    rewrite Z.min_r by lia. done.
Qed.

Lemma lines_pure_eq c l : lines_good c l -> lines_pure c l = line_step c l.
Proof.
  intros Hg. unfold lines_pure, LinesCodec_decode. rewrite bind_gets. cbn [snd]. change (buf_bytes l) with l.
  rewrite Nat.add_comm. by apply lines_loop_eq.
Qed.

(** ** Reading from the front *)

Lemma lines_more c l m : lines_good c l -> is_bytes m -> lines_good c (l ++ m).
Proof.
  intros (Hd & H1 & H2 & H3 & H4 & H5) Hm. pose proof (len_nonneg m). unfold lines_good. rewrite len_app.
  split; [done|]. split; [lia|]. split; [done|]. split; [done|]. split; [|by apply Forall_app].
  unfold len in H1. by rewrite take_app_le by lia.
Qed.

Lemma line_step_kept c l c' l' r : lines_good c l -> line_step c l = ((c', l'), Ok r) -> lines_good c' l' /\ len l' <= len l.
Proof.
  intros (Hd & H1 & H2 & H3 & H4 & H5). unfold line_step.
  destruct (newline_position (take (Z.to_nat (window c)) l)) as [i|] eqn:En.
  - intros E. destruct (utf8 _); [|done|done]. injection E as <- <- _. split; [|unfold len; rewrite length_drop; lia].
    split; [done|]. split; [simpl; pose proof (len_nonneg (drop (Z.to_nat (i + 1)) l)); lia|]. split; [simpl; lia|].
    split; [done|]. split; [done|]. by apply Forall_drop.
  - destruct (Z.ltb_spec (max_length c) (len l)); [done|]. intros [= <- <- _]. split; [|done]. pose proof (len_nonneg l).
    split; [done|]. split; [simpl; lia|]. split; [done|]. split; [done|]. split; [|done]. cbn [next_index].
    assert (Z.to_nat (window c) >= length l)%nat by (unfold window, len in *; lia).
    rewrite take_ge in En by done. by rewrite take_ge by (unfold len; lia).
Qed.

Lemma line_step_some c l m i : newline_position (take (Z.to_nat (window c)) l) = Some i ->
  line_step c (l ++ m) = (((line_step c l).1.1, (line_step c l).1.2 ++ m), (line_step c l).2).
Proof.
  intros E. unfold line_step. rewrite take_app, (newline_app_some _ _ _ E), E. apply newline_range in E. unfold len in E.
  rewrite length_take in E. cbn [fst snd]. by rewrite drop_app_le, take_app_le by lia.
Qed.

Lemma line_step_none c l c' l' : lines_good c l -> line_step c l = ((c', l'), Ok None) ->
  l' = l /\ c' = MkLinesCodec (len l) (max_length c) false.
Proof.
  intros _. unfold line_step. case_match; [intros Hu; destruct (utf8 _); simplify_eq/=|]. case_match; intros; by simplify_eq/=.
Qed.

#[export] Instance lines_incremental : Incremental lines_pure lines_good.
Proof.
  split.
  - apply lines_more.
  - intros c l c' l' r Hg. rewrite lines_pure_eq by done. intros H. by destruct (line_step_kept c l c' l' r Hg H).
  - intros c l m c' l' v Hg Hm. rewrite !lines_pure_eq by auto using lines_more. intros H.
    destruct (newline_position (take (Z.to_nat (window c)) l)) as [i|] eqn:E; [by rewrite (line_step_some c l m i E), H|].
    unfold line_step in H. rewrite E in H. by case_match.
  - intros c l m c' l' Hg Hm. rewrite lines_pure_eq by done. intros H. pose proof (line_step_kept c l c' l' None Hg H) as [Hg' _].
    destruct (line_step_none c l c' l' Hg H) as [-> ->]. rewrite !lines_pure_eq by auto using lines_more.
    unfold line_step. change (window (MkLinesCodec _ (max_length c) false)) with (window c). cbn [max_length].
    destruct (newline_position _); [by left|]. case_match; [right; by eexists|by left].
  - intros c l m e Hg Hm. rewrite !lines_pure_eq by auto using lines_more. intros H.
    destruct (newline_position (take (Z.to_nat (window c)) l)) as [i|] eqn:E; [by rewrite (line_step_some c l m i E), H|].
    unfold line_step in *. rewrite E in H. destruct (Z.ltb_spec (max_length c) (len l)) as [Hl|]; [|done]. pose proof (len_nonneg m).
    rewrite take_app_le, E, len_app, (proj2 (Z.ltb_lt _ _)) by (unfold window, len in *; lia). done.
  - intros c l c' l' r Hg. rewrite lines_pure_eq by done. unfold line_step. case_match; [|by case_match; intros; simplify_eq].
    intros [= _ <- _]. unfold len. rewrite length_drop. lia.
  - intros c l Hg. rewrite lines_pure_eq by done. unfold line_step. repeat case_match; try done. cbn [snd].
    unfold utf8. by case_match.
Qed.

(** ** Lines that were sent *)

(** A line that fits: text without a newline, without a carriage return at its end. *)
Definition line_ok (max : Z) (line : list Z) : Prop :=
  is_bytes line /\ newline_position line = None /\ last line <> Some 13 /\ utf8_valid line = true /\ len line <= max /\ len line < usize_max.
Definition line_wire (line : list Z) : list Z := line ++ [10].

Section Lines.
Context (max : Z) (Hmax : 0 <= max <= usize_max).
Let c := MkLinesCodec 0 max false.

Lemma new_good l : is_bytes l -> lines_good c l.
Proof. intros. pose proof (len_nonneg l). split; [done|]. split; [simpl; lia|]. split; [simpl; lia|]. split; [simpl; lia|]. done. Qed.

Lemma line_decode line : line_ok max line -> lines_pure c (line_wire line) = ((c, []), Ok (Some line)).
Proof.
  intros (Hb & Hn & Hl & Hu & Hlen & Hlen2). rewrite lines_pure_eq by (apply new_good, Forall_app_2; [done|by repeat constructor]).
  unfold line_step, line_wire. rewrite take_ge by (unfold window, len in *; rewrite length_app; simpl; lia).
  rewrite newline_app_none by done. cbn [newline_position fmap option_fmap option_map]. change (10 =? 10) with true. cbv iota.
  cbn [fmap option_fmap option_map]. rewrite Z.add_0_r. unfold len. rewrite take_app_length' by lia.
  rewrite drop_ge by (rewrite length_app; simpl; lia). unfold without_carriage_return.
  assert (match last line with Some 13 => take (length line - 1) line | _ => line end = line) as ->.
  { destruct (last line) as [[|p|p]|]; try done. do 4 (destruct p as [p|p|]; try done). }
  unfold utf8. by rewrite Hu.
Qed.

Lemma lines_end : lines_pure c [] = ((c, []), Ok None).
Proof. rewrite lines_pure_eq by apply new_good, Forall_nil_2. unfold line_step. rewrite take_nil. cbn [newline_position c max_length]. rewrite (proj2 (Z.ltb_ge _ _)) by apply Hmax. done. Qed.

Lemma parses_lines lines : Forall (line_ok max) lines -> parses lines_pure c (concat (line_wire <$> lines)) lines c [].
Proof.
  induction 1 as [|line lines Hl H IH]; [apply parses_end, lines_end|]. cbn [fmap list_fmap concat].
  eapply parses_item; [|by apply IH]. apply (inc_some (p:=lines_pure) c (line_wire line) _ c [] line).
  - apply new_good, Forall_app_2; [apply Hl|by repeat constructor].
  - clear -H. induction H as [|line lines Hl H IH]; [constructor|]. apply Forall_app_2; [|done].
    apply Forall_app_2; [apply Hl|by repeat constructor].
  - by apply line_decode.
Qed.
End Lines.

(** ** After a line that is too long *)

(** The codec is discarding, and has searched the first [next_index] bytes. *)
Definition lines_discarding (c : LinesCodec) (l : list Z) : Prop :=
  is_discarding c = true /\ 0 <= max_length c <= usize_max /\ 0 <= next_index c <= len l /\ next_index c <= max_length c /\
  newline_position (take (Z.to_nat (next_index c)) l) = None /\ is_bytes l.

(** The rest of the line, the newline included, is dropped. *)
Definition discard_step (c : LinesCodec) (l : list Z) : (LinesCodec * list Z) * outcome LinesCodecError (option (list Z)) :=
  match newline_position l with
  | Some i => line_step (MkLinesCodec 0 (max_length c) false) (drop (Z.to_nat (i + 1)) l)
  | None => ((MkLinesCodec 0 (max_length c) true, []), Err MaxLineLengthExceeded)
  end.

Lemma discard_round fuel c (l : list Z) : lines_discarding c l ->
  lines_loop (S fuel) (c, l) =
  match newline_position (take (Z.to_nat (window c)) l) with
  | Some i => lines_loop fuel (MkLinesCodec 0 (max_length c) false, drop (Z.to_nat (i + 1)) l)
  | None =>
      let l' := drop (Z.to_nat (Z.min (window c) (len l))) l in
      if bool_decide (l' = []) then ((MkLinesCodec 0 (max_length c) true, l'), Err MaxLineLengthExceeded)
      else lines_loop fuel (MkLinesCodec 0 (max_length c) true, l')
  end.
Proof.
  intros (Hd & Hm & H1 & H2 & Hn & Hb). pose proof (len_nonneg l).
  assert (lines_good (MkLinesCodec (next_index c) (max_length c) false) l) as Hg by (split_and!; simpl; done || lia).
  pose proof (newline_in_window _ l Hg) as En. pose proof (window_ge _ l Hg) as (Hw1 & Hw2 & Hw3).
  change (window (MkLinesCodec _ (max_length c) false)) with (window c) in *. cbn [next_index max_length] in *.
  cbn [lines_loop]. rewrite bind_gets. cbn [fst snd]. cbv beta iota zeta. change (buf_bytes l) with l. fold (window c).
  rewrite slice_to_Ok by lia. rewrite bind_lift_Ok, take_window.
  assert (next_index c <= len (take (Z.to_nat (window c)) l)) as Hni by (unfold len in *; rewrite length_take; lia).
  rewrite slice_from_Ok, bind_lift_Ok, Hd, En by lia.
  assert (forall n, 0 <= n <= len l -> split_to (E:=LinesCodecError) (B:=list Z) n (c, l) = ((c, drop (Z.to_nat n) l), Ok (take (Z.to_nat n) l))) as Hs.
  { intros n Hn'. unfold split_to. cbn [fst snd]. change (buf_bytes l) with l.
    by rewrite (proj2 (Z.leb_le 0 _)), (proj2 (Z.leb_le _ (len l))) by lia. }
  destruct (newline_position (drop _ _)) as [off|] eqn:Eo; cbn [fmap option_fmap option_map].
  - apply newline_range in Eo. unfold len in Eo. rewrite length_drop, length_take in Eo.
    rewrite (bind_eq _ _ _ _ _ (Hs (off + next_index c + 1) ltac:(unfold len; lia))). unfold set_lines. rewrite bind_modify. cbn [fst snd].
    by rewrite (Z.add_comm off).
  - rewrite (bind_eq _ _ _ _ _ (Hs (Z.min (window c) (len l)) ltac:(lia))). unfold set_lines. rewrite bind_modify, bind_gets. cbn [fst snd].
    change (buf_bytes (drop ?n l)) with (drop n l). by case_bool_decide.
Qed.

Lemma discard_spec fuel : forall c (l : list Z), lines_discarding c l -> (length l + 2 <= fuel)%nat ->
  lines_loop fuel (c, l) = discard_step c l.
Proof.
  induction fuel as [|fuel IH]; intros c l Hst Hf; [lia|]. rewrite discard_round by done.
  pose proof Hst as (Hd & Hm & H1 & H2 & Hn & Hb). unfold discard_step.
  destruct (newline_position (take (Z.to_nat (window c)) l)) as [i|] eqn:E.
  - assert (newline_position l = Some i) as -> by (rewrite <- (take_drop (Z.to_nat (window c)) l); by apply newline_app_some).
    destruct fuel as [|fuel]; [lia|]. apply lines_loop_eq, new_good; [done|]. by apply Forall_drop.
  - assert (newline_position l = Z.add (len (take (Z.to_nat (window c)) l)) <$> newline_position (drop (Z.to_nat (window c)) l)) as El
      by (by apply newline_from).
    assert (drop (Z.to_nat (Z.min (window c) (len l))) l = drop (Z.to_nat (window c)) l) as Ed.
    { unfold len. destruct (Z.min_spec (window c) (Z.of_nat (length l))) as [[_ ->]|[? ->]]; [done|]. rewrite !drop_ge; [done|lia|lia]. }
    cbv zeta. rewrite Ed. case_bool_decide as Hnil.
    + by rewrite El, Hnil.
    + assert (1 <= window c) by (unfold window, usize_max; lia).
      assert (Z.to_nat (window c) < length l)%nat by (apply Nat.nle_gt; intros ?; by rewrite drop_ge in Hnil by lia).
      rewrite IH; [|split; [done|]; split; [done|]; split; [simpl; pose proof (len_nonneg (drop (Z.to_nat (window c)) l)); lia|];
        split; [simpl; lia|]; split; [done|]; by apply Forall_drop|rewrite length_drop; lia].
      unfold discard_step. cbn [max_length]. rewrite El. destruct (newline_position (drop _ l)) as [j|] eqn:Ej; [|done].
      apply newline_range in Ej. cbn [fmap option_fmap option_map]. rewrite drop_drop. do 2 f_equal. unfold len. rewrite length_take. lia.
Qed.

Lemma discard_pure c l : lines_discarding c l -> lines_pure c l = discard_step c l.
Proof.
  intros H. unfold lines_pure, LinesCodec_decode. rewrite bind_gets. cbn [snd]. change (buf_bytes l) with l. apply discard_spec; [done|lia].
Qed.

(** ** States between calls *)

Definition lines_inv (c : LinesCodec) (l : list Z) : Prop := lines_good c l \/ lines_discarding c l.

Lemma line_step_inv c l : lines_good c l ->
  let '((c', l'), r) := line_step c l in lines_inv c' l' /\ r <> Panic.
Proof.
  intros Hg. pose proof Hg as (Hd & H1 & H2 & H3 & H4 & H5). unfold line_step. pose proof (len_nonneg l).
  destruct (newline_position (take (Z.to_nat (window c)) l)) as [i|] eqn:E; [|destruct (Z.ltb_spec (max_length c) (len l)) as [Hl|Hl]].
  - split; [|unfold utf8; by case_match]. apply or_introl. apply (new_good (max_length c)); [lia|]. by apply Forall_drop.
  - split; [|done]. apply or_intror. split_and!; simpl; done || lia.
  - split; [|done]. apply or_introl. apply (line_step_kept c l _ l None Hg). unfold line_step. by rewrite E, (proj2 (Z.ltb_ge _ _) Hl).
Qed.

Lemma discard_step_inv c l : lines_discarding c l ->
  let '((c', l'), r) := discard_step c l in lines_inv c' l' /\ r <> Panic.
Proof.
  intros (Hd & Hm & H1 & H2 & Hn & Hb). unfold discard_step. destruct (newline_position l) as [i|].
  - apply line_step_inv, (new_good (max_length c)); [done|]. by apply Forall_drop.
  - split; [|done]. apply or_intror. split_and!; simpl; try done; try lia; constructor.
Qed.

(** [LinesCodec::decode] in every state that calls reach, whatever the buffer holds: the call
    returns, slices within its buffer and leaves such a state.  Without a line that is
    too long it takes the bytes up to the first newline within [max_length + 1]
    bytes, without the line end, or reports a line above the limit, or waits; where an
    earlier call stopped searching makes no difference.  After a line that is too
    long it drops that line with its newline, in steps of at most [max_length + 1]
    bytes, and goes on with the next line in the same call. *)
Theorem lines_decode_total (c : LinesCodec) (l : list Z) :
  lines_inv c l ->
  let '((c', l'), r) := LinesCodec_decode (B:=list Z) (c, l) in
  ((c', l'), r) = (if is_discarding c then discard_step c l else line_step c l) /\ lines_inv c' l' /\ r <> Panic.
Proof.
  intros [Hg|Hd].
  - pose proof (lines_pure_eq c l Hg) as E. unfold lines_pure in E. rewrite E. pose proof (line_step_inv c l Hg) as H.
    rewrite (proj1 Hg). by destruct (line_step c l) as [[? ?] ?].
  - pose proof (discard_pure c l Hd) as E. unfold lines_pure in E. rewrite E. pose proof (discard_step_inv c l Hd) as H.
    rewrite (proj1 Hd). by destruct (discard_step c l) as [[? ?] ?].
Qed.

Lemma lines_decode_total_witness :
  let c := MkLinesCodec 0 2 true in let l := [97; 97; 97; 97; 10; 98; 13; 10; 99] in
  let '((c', l'), r) := LinesCodec_decode (B:=list Z) (c, l) in
  ((c', l'), r) = discard_step c l /\ lines_inv c' l' /\ r <> Panic.
Proof.
  intros c l. apply (lines_decode_total c l). apply or_intror.
  split_and!; try reflexivity; try (vm_compute; congruence). repeat constructor; vm_compute; congruence.
Defined.

(** ** Sending *)

Lemma send_all_lines `{BM : BytesMut B} lines : forall (w : FramedWrite2 LinesCodec B),
  len (buf_bytes (w2_buffer w)) + len (concat (line_wire <$> lines)) < 2 ^ 63 ->
  exists w', send_all lines w = (w', Ok tt) /\ w2_codec w' = w2_codec w /\ w2_sent w' = w2_sent w /\
    buf_bytes (w2_buffer w') = buf_bytes (w2_buffer w) ++ concat (line_wire <$> lines).
Proof.
  induction lines as [|line lines IH]; intros w Hroom; cbn [send_all fmap list_fmap concat] in *.
  { exists w. by rewrite app_nil_r. }
  rewrite len_app in Hroom. pose proof (len_nonneg (concat (line_wire <$> lines))).
  assert (len (line_wire line) = len line + 1) as El by (unfold line_wire; by rewrite len_app).
  set (buf' := put_u8 (put_slice (w2_buffer w) line) 10).
  assert (buf_bytes (put_slice (w2_buffer w) line) = buf_bytes (w2_buffer w) ++ line) as E1
    by (apply put_slice_bytes; rewrite bm_remaining; lia).
  assert (buf_bytes buf' = buf_bytes (w2_buffer w) ++ line_wire line) as E2.
  { unfold buf', put_u8. rewrite put_slice_bytes; rewrite ?bm_remaining, E1; [unfold line_wire; by rewrite (assoc_L (++))|].
    rewrite len_app. change (len [10]) with 1. lia. }
  assert (start_send line w = (MkFramedWrite2 (w2_codec w) buf' (w2_sent w), Ok tt)) as E3 by done.
  rewrite (bind_eq _ _ _ _ _ E3).
  destruct (IH (MkFramedWrite2 (w2_codec w) buf' (w2_sent w))) as (w' & E4 & E5 & E6 & E7); [simpl; rewrite E2, len_app; lia|].
  exists w'. split; [done|]. split; [done|]. split; [done|]. cbn [w2_buffer] in E7. by rewrite E7, E2, <- (assoc_L (++)).
Qed.

(** C29. Lines over a socket: the lines that a [FramedWrite] with [LinesCodec] is given and
    has flushed are the ones that a [FramedRead] with any limit that they keep returns,
    in order, into whatever pieces the socket cuts the bytes, also when a piece ends
    inside a line or just before its newline.  (A line is valid UTF-8 without a newline
    and without a carriage return at its end.) *)
Theorem lines_transport `{BM : BytesMut B} max lines wscript rscript :
  0 <= max <= usize_max -> Forall (line_ok max) lines -> len (concat (line_wire <$> lines)) < 2 ^ 63 -> Forall data_only rscript ->
  exists w, send_all lines (MkFramedWrite2 LinesCodec_new (bm_new : B) []) = (w, Ok tt) /\
    let '(w1, _, r) := poll_flush (E:=LinesCodecError) wscript w in
    w2_sent w1 ++ buf_bytes (w2_buffer w1) = concat (line_wire <$> lines) /\ r <> Panic /\
    (r = Ok (Ready tt) -> script_bytes rscript = w2_sent w1 ->
     exists r', drain (S (length lines + length rscript)) rscript (framed_read2 (B:=B) (LinesCodec_new_with_max_length max)) =
         (lines, r', Some (Ok tt)) /\ buf_bytes (r2_buffer r') = []).
Proof.
  intros Hmax Hl Hroom Hr.
  destruct (send_all_lines lines (MkFramedWrite2 LinesCodec_new (bm_new : B) [])) as (w & E1 & Ec & Es & Eb).
  { cbn [w2_buffer]. by rewrite bm_new_bytes. }
  exists w. split; [done|]. cbn [w2_sent w2_buffer] in *. rewrite bm_new_bytes in Eb.
  pose proof (poll_flush_post (E:=LinesCodecError) wscript w) as H. destruct (poll_flush wscript w) as [[w1 script'] r].
  destruct H as (_ & H1 & _ & H2). unfold w2_stream in H1. rewrite Es, Eb in H1. split; [done|]. split; [by intros ->|].
  intros -> Hbytes. rewrite H2, app_nil_r in H1.
  set (r0 := framed_read2 (B:=B) (LinesCodec_new_with_max_length max)).
  destruct (drain_stream id lines_pure lines_implements (S (length lines + length rscript)) rscript r0 lines (MkLinesCodec 0 max false) [])
    as (xs & r' & E2 & E3 & _ & E4 & _); [done| | | |lia|].
  - unfold stream_ok. cbn [r0 framed_read2 r2_codec r2_buffer r2_is_readable r2_eof]. rewrite bm_new_bytes. split; [done|].
    split; [apply new_good; [done|constructor]|]. intros _. by apply lines_end.
  - unfold room. cbn [r0 framed_read2 r2_buffer]. rewrite bm_new_bytes, Hbytes. cbn in H1. rewrite H1. by trans (2 ^ 63).
  - unfold ahead. cbn [r0 framed_read2 r2_codec r2_buffer]. rewrite bm_new_bytes, Hbytes. cbn in H1. rewrite H1. by apply parses_lines.
  - rewrite list_fmap_id in E3. subst xs. by exists r'.
Qed.

Lemma lines_transport_witness :
  exists w, send_all [[97; 98]; []; [99]] (MkFramedWrite2 LinesCodec_new (bm_new : list Z) []) = (w, Ok tt) /\
    let '(w1, _, r) := poll_flush (E:=LinesCodecError) [WTook 4; WTook 100; WTook 0] w in
    w2_sent w1 ++ buf_bytes (w2_buffer w1) = concat (line_wire <$> [[97; 98]; []; [99]]) /\ r <> Panic /\
    (r = Ok (Ready tt) -> script_bytes [RData [97]; RPending; RData [98]; RData [10; 10; 99; 10]] = w2_sent w1 ->
     exists r', drain 8 [RData [97]; RPending; RData [98]; RData [10; 10; 99; 10]] (framed_read2 (B:=list Z) (LinesCodec_new_with_max_length 2)) =
         ([[97; 98]; []; [99]], r', Some (Ok tt)) /\ buf_bytes (r2_buffer r') = []).
Proof.
  refine (lines_transport (B:=list Z) 2 [[97; 98]; []; [99]] [WTook 4; WTook 100; WTook 0]
    [RData [97]; RPending; RData [98]; RData [10; 10; 99; 10]] _ _ _ _).
  - split; vm_compute; congruence.
  - repeat apply Forall_cons_2; try apply Forall_nil_2; (split_and!; try reflexivity; try (vm_compute; congruence);
      repeat constructor; vm_compute; congruence).
  - reflexivity.
  - repeat apply Forall_cons_2; try apply Forall_nil_2; try exact I; (split; [discriminate|repeat constructor; vm_compute; congruence]).
Defined.

(** ** A reader that stops *)

(** The codec is discarding, and nothing is left in the buffer, which counts as readable. *)
Definition stuck `{BM : BytesMut B} (max : Z) (r : FramedRead2 LinesCodec B) : Prop :=
  r2_codec r = MkLinesCodec 0 max true /\ r2_eof r = false /\ r2_is_readable r = true /\ buf_bytes (r2_buffer r) = [].

Lemma dec_of_pure `{BM : BytesMut B} (r : FramedRead2 LinesCodec B) c' l' x :
  lines_pure (r2_codec r) (buf_bytes (r2_buffer r)) = ((c', l'), x) ->
  exists b', on_codec dec r = (MkFramedRead2 c' (r2_eof r) (r2_is_readable r) b', x) /\ buf_bytes b' = l'.
Proof.
  intros E. unfold on_codec. pose proof (lines_implements (r2_codec r) (r2_buffer r)) as H.
  destruct (dec (r2_codec r, r2_buffer r)) as [[c b] y]. rewrite E in H. destruct y as [[?|]| |]; simplify_eq/=; eauto.
Qed.

(** A readable stream whose codec fails. *)
Lemma poll_next_err `{BM : BytesMut B} (r : FramedRead2 LinesCodec B) script c' l' e :
  r2_eof r = false -> r2_is_readable r = true -> lines_pure (r2_codec r) (buf_bytes (r2_buffer r)) = ((c', l'), Err e) ->
  exists b', poll_next script r = (MkFramedRead2 c' false true b', script, Err e) /\ buf_bytes b' = l'.
Proof.
  intros He Hr E. destruct (dec_of_pure r c' l' _ E) as (b' & Ed & Eb). exists b'. split; [|done].
  destruct script; cbn [poll_next]; by rewrite Hr, He, Ed, He, Hr.
Qed.

Lemma stuck_poll `{BM : BytesMut B} max (r : FramedRead2 LinesCodec B) script : 0 <= max <= usize_max -> stuck max r ->
  exists r', poll_next script r = (r', script, Err MaxLineLengthExceeded) /\ stuck max r'.
Proof.
  intros Hmax (Ec & He & Hr & Eb).
  destruct (poll_next_err r script (MkLinesCodec 0 max true) [] MaxLineLengthExceeded He Hr) as (b' & E & Eb').
  - rewrite Ec, Eb. rewrite discard_pure; [done|]. split_and!; simpl; try done; try lia; constructor.
  - eexists. split; [exact E|]. by split_and!.
Qed.

(** Polls, one after the other. *)
Fixpoint polls `{BM : BytesMut B} (n : nat) (script : list ReadAnswer) (r : FramedRead2 LinesCodec B) :
    list (outcome LinesCodecError (Async (option (list Z)))) * list ReadAnswer :=
  match n with
  | O => ([], script)
  | S n => let '(r, script, x) := poll_next script r in let '(xs, script) := polls n script r in (x :: xs, script)
  end.

Lemma stuck_polls `{BM : BytesMut B} max script n : forall (r : FramedRead2 LinesCodec B),
  0 <= max <= usize_max -> stuck max r -> polls n script r = (replicate n (Err MaxLineLengthExceeded), script).
Proof.
  induction n as [|n IH]; intros r Hmax Hs; [done|]. cbn [polls]. destruct (stuck_poll max r script Hmax Hs) as (r' & -> & Hs').
  by rewrite (IH r' Hmax Hs').
Qed.

(** A line above the limit stops [FramedRead] for good: once a piece without a newline is longer than
    [max_length], every later poll reports [MaxLineLengthExceeded] and the socket is
    never read again, although what follows may end the line.  The documentation of [new_with_max_length]
    promises [None] until the line has been discarded, and normal decoding after that. *)
Theorem overlong_line_stops_reader `{BM : BytesMut B} max bytes script n :
  0 <= max <= usize_max -> is_bytes bytes -> newline_position bytes = None -> max < len bytes -> len bytes < 2 ^ 64 ->
  polls n (RData bytes :: script) (framed_read2 (B:=B) (LinesCodec_new_with_max_length max)) =
  (replicate n (Err MaxLineLengthExceeded), match n with O => RData bytes :: script | S _ => script end).
Proof.
  intros Hmax Hb Hn Hl Hroom. destruct n as [|n]; [done|]. cbn [polls].
  set (r0 := MkFramedRead2 (LinesCodec_new_with_max_length max) false true (put_slice bm_new bytes) : FramedRead2 LinesCodec B).
  assert (buf_bytes (r2_buffer r0) = bytes) as E0.
  { cbn [r0 r2_buffer]. rewrite put_slice_bytes; rewrite ?bm_remaining, bm_new_bytes; [done|]. change (len (@nil Z)) with 0. lia. }
  assert (bytes <> []) as Hne by (intros ->; change (len (@nil Z)) with 0 in Hl; lia).
  assert (poll_next (RData bytes :: script) (framed_read2 (LinesCodec_new_with_max_length max)) = poll_next script r0) as ->.
  { cbn [poll_next framed_read2 r2_is_readable r2_eof r2_codec r2_buffer]. by rewrite bool_decide_false. }
  assert (lines_good (MkLinesCodec 0 max false) bytes) as Hg by (by apply new_good).
  destruct (poll_next_err r0 script (MkLinesCodec 0 max true) bytes MaxLineLengthExceeded eq_refl eq_refl) as (b1 & -> & Eb1).
  { rewrite E0. cbn [r0 r2_codec]. rewrite lines_pure_eq by done. unfold line_step. cbn [max_length LinesCodec_new_with_max_length next_index].
    rewrite <- (take_drop (Z.to_nat (window (LinesCodec_new_with_max_length max))) bytes) in Hn.
    destruct (newline_position (take _ bytes)) eqn:En; [by rewrite (newline_app_some _ _ _ En) in Hn|]. by rewrite (proj2 (Z.ltb_lt _ _) Hl). }
  destruct n as [|n]; [done|]. cbn [polls].
  destruct (poll_next_err (MkFramedRead2 (MkLinesCodec 0 max true) false true b1) script (MkLinesCodec 0 max true) [] MaxLineLengthExceeded
    eq_refl eq_refl) as (b2 & -> & Eb2).
  { cbn [r2_codec r2_buffer]. rewrite Eb1, discard_pure; [unfold discard_step; by rewrite Hn|].
    split_and!; simpl; try done; lia. }
  rewrite (stuck_polls max); [done|done|]. by split_and!.
Qed.

Lemma overlong_line_stops_reader_witness :
  polls 5 [RData [97; 97; 97]; RData [10; 98; 10]] (framed_read2 (B:=list Z) (LinesCodec_new_with_max_length 2)) =
  (replicate 5 (Err MaxLineLengthExceeded), [RData [10; 98; 10]]).
Proof.
  apply (overlong_line_stops_reader (B:=list Z) 2 [97; 97; 97] [RData [10; 98; 10]] 5).
  - split; vm_compute; congruence.
  - repeat constructor; vm_compute; congruence.
  - reflexivity.
  - reflexivity.
  - reflexivity.
Defined.

(** ** The end of the stream *)

Lemma line_waits c l : lines_good c l -> newline_position l = None -> len l <= max_length c ->
  lines_pure c l = ((MkLinesCodec (len l) (max_length c) false, l), Ok None).
Proof.
  intros Hg Hn Hl. rewrite lines_pure_eq by done. unfold line_step.
  destruct (newline_position (take _ l)) as [i|] eqn:E; [|by rewrite (proj2 (Z.ltb_ge _ _) Hl)].
  rewrite <- (take_drop (Z.to_nat (window c)) l) in Hn. by rewrite (newline_app_some _ _ _ E) in Hn.
Qed.

Lemma decode_eof_invalid max (l : list Z) : 0 <= max <= usize_max -> is_bytes l -> newline_position l = None -> len l <= max ->
  utf8_valid (without_carriage_return l) = false ->
  LinesCodec_decode_eof (MkLinesCodec (len l) max false, l) =
  ((MkLinesCodec (len l) max false, []), Err (LinesIo (IoMsg InvalidData "Unable to decode input as UTF8"))).
Proof.
  intros Hmax Hb Hn Hl Hu. unfold LinesCodec_decode_eof. pose proof (len_nonneg l).
  assert (lines_good (MkLinesCodec (len l) max false) l) as Hg.
  { split_and!; simpl; try done; try lia. by rewrite take_ge by (unfold len; lia). }
  pose proof (line_waits _ l Hg Hn Hl) as E. unfold lines_pure in E. rewrite (bind_eq _ _ _ _ _ E). rewrite bind_gets. cbn [snd].
  change (buf_bytes l) with l. rewrite !bool_decide_false by (intros ->; done). cbn [orb].
  unfold split_to. unfold mbind at 1, SE_bind at 1. cbn [fst snd]. change (buf_bytes l) with l. rewrite (proj2 (Z.leb_le 0 _)), Z.leb_refl by lia.
  cbn [andb]. change (bm_split_to l ?n) with (take n l, drop n l). cbv beta iota. change (buf_bytes (take ?n l)) with (take n l).
  rewrite take_ge, drop_ge by (unfold len; lia). unfold utf8. by rewrite Hu.
Qed.

Lemma decode_eof_after (i max : Z) : 0 < i -> 0 <= max ->
  LinesCodec_decode_eof (MkLinesCodec i max false, [] : list Z) = ((MkLinesCodec i max false, []), Panic).
Proof.
  intros Hi Hm. unfold LinesCodec_decode_eof, LinesCodec_decode. unfold mbind at 1, SE_bind at 1. rewrite bind_gets. cbn [snd].
  change (length (buf_bytes [])) with 0%nat. cbn [Nat.add lines_loop]. rewrite bind_gets. cbn [fst snd max_length next_index].
  change (buf_bytes []) with (@nil Z). change (len (@nil Z)) with 0. rewrite Z.min_r by (unfold usize_max; lia).
  change (slice_to (@nil Z) 0) with (Ok (@nil Z) : outcome LinesCodecError (list Z)). rewrite bind_lift_Ok.
  unfold slice_from. rewrite (proj2 (Z.leb_gt i _)) by (change (len (@nil Z)) with 0; lia). by rewrite andb_false_r.
Qed.

(** A last line that is not UTF-8 leaves the codec with an index outside its empty
    buffer: the poll that reports the error is followed by one that panics.  [decode_eof] takes the bytes
    out of the buffer before it checks them, and resets [next_index] only after the check. *)
Theorem invalid_last_line_panics max (l : list Z) script :
  0 <= max <= usize_max -> is_bytes l -> newline_position l = None -> len l <= max -> utf8_valid (without_carriage_return l) = false ->
  exists r, poll_next (RData l :: RData [] :: script) (framed_read2 (B:=list Z) (LinesCodec_new_with_max_length max)) =
      (r, script, Err (LinesIo (IoMsg InvalidData "Unable to decode input as UTF8"))) /\
    poll_next script r = (r, script, Panic).
Proof.
  intros Hmax Hb Hn Hl Hu. exists (MkFramedRead2 (MkLinesCodec (len l) max false) true true []).
  assert (l <> []) as Hne by (by intros ->). assert (0 < len l) by (destruct l; [done|rewrite len_cons; pose proof (len_nonneg l); lia]).
  pose proof (line_waits (LinesCodec_new_with_max_length max) l (new_good max Hmax l Hb) Hn Hl) as E1. unfold lines_pure in E1.
  pose proof (decode_eof_invalid max l Hmax Hb Hn Hl Hu) as E2. split.
  - cbn [poll_next framed_read2 r2_is_readable r2_eof r2_codec r2_buffer]. rewrite bool_decide_false by done.
    change (put_slice bm_new l) with l. unfold on_codec. cbn [r2_is_readable r2_eof r2_codec r2_buffer dec dec_eof LinesCodec_Decoder].
    rewrite E1. cbn [r2_is_readable r2_eof r2_codec r2_buffer]. rewrite bool_decide_true by done.
    change (put_slice l []) with (l ++ []). rewrite app_nil_r. destruct script; cbn [poll_next r2_is_readable r2_eof r2_codec r2_buffer];
      unfold on_codec; cbn [r2_is_readable r2_eof r2_codec r2_buffer dec dec_eof LinesCodec_Decoder max_length LinesCodec_new_with_max_length]; by rewrite E2.
  - destruct script; cbn [poll_next r2_is_readable r2_eof r2_codec r2_buffer]; unfold on_codec;
      cbn [r2_is_readable r2_eof r2_codec r2_buffer dec dec_eof LinesCodec_Decoder]; by rewrite decode_eof_after by lia.
Qed.

Lemma invalid_last_line_panics_witness :
  exists r, poll_next [RData [97; 255]; RData []] (framed_read2 (B:=list Z) (LinesCodec_new_with_max_length 10)) =
      (r, [], Err (LinesIo (IoMsg InvalidData "Unable to decode input as UTF8"))) /\
    poll_next [] r = (r, [], Panic).
Proof.
  apply (invalid_last_line_panics 10 [97; 255] []).
  - split; vm_compute; congruence.
  - repeat constructor; vm_compute; congruence.
  - reflexivity.
  - vm_compute. congruence.
  - reflexivity.
Defined.
