(* ===== verification/H1Body.v ===== *)
(** * HTTP/1 message bodies ([http/h1/encoder.rs], [http/h1/decoder.rs])

    The transfer encodings a body is written with and the payload decoder that
    reads one from the connection buffer, with the state machine of the chunked
    coding. *)

From Stdlib Require Import Ascii String.
From S2P Require Import Prelude Bytes.

(** [std::io::Error] with its kind. *)
Inductive IoError :=
  | InvalidInput (msg : string)
  | UnexpectedEof (msg : string).

Definition CR : Z := 13.
Definition LF : Z := 10.

(** ** Numbers as text *)

(** [{:X}] of an unsigned integer, most significant digit first; the fuel is a
    bound on the number of digits. *)
Definition hex_digit (d : Z) : Z := if d <? 10 then 48 + d else 55 + d.
Fixpoint hex_fuel (fuel : nat) (n : Z) : list Z :=
  match fuel with
  | O => []
  | S fuel => (if n <? 16 then [] else hex_fuel fuel (n / 16)) ++ [hex_digit (n mod 16)]
  end.
Definition upper_hex (n : Z) : list Z := hex_fuel 16 n.

(** ** Encoders *)

(** [http/h1/encoder.rs] TransferEncodingKind *)
Inductive TransferEncodingKind :=
  | EncChunked (eof : bool)
  | EncLength (remaining : Z)
  | EncEof.

(** [http/h1/encoder.rs] TransferEncoding *)
Record TransferEncoding := MkTransferEncoding { te_kind : TransferEncodingKind }.

Module TransferEncoding.
(** [http/h1/encoder.rs] TransferEncoding::empty *)
Definition empty : TransferEncoding := MkTransferEncoding (EncLength 0).
(** [http/h1/encoder.rs] TransferEncoding::eof *)
Definition eof : TransferEncoding := MkTransferEncoding EncEof.
(** [http/h1/encoder.rs] TransferEncoding::chunked *)
Definition chunked : TransferEncoding := MkTransferEncoding (EncChunked false).
(** [http/h1/encoder.rs] TransferEncoding::length *)
Definition length (len : Z) : TransferEncoding := MkTransferEncoding (EncLength len).

Section Encode.
Context `{BM : BytesMut B}.

Definition extend (s : list Z) (st : TransferEncoding * B) : TransferEncoding * B :=
  (st.1, put_slice st.2 s).
Definition set_kind (k : TransferEncodingKind) (st : TransferEncoding * B) : TransferEncoding * B :=
  (MkTransferEncoding k, st.2).

(** [http/h1/encoder.rs] TransferEncoding::encode *)
Definition encode (msg : list Z) : SE (TransferEncoding * B) IoError bool :=
  s ← get;
  match te_kind s.1 with
  | EncEof =>
      let eof := len msg =? 0 in
      _ ← modify (extend msg);
      mret eof
  | EncChunked eof =>
      if eof then mret true
      else if len msg =? 0 then
        _ ← modify (set_kind (EncChunked true));
        _ ← modify (extend [48; CR; LF; CR; LF]);
        mret true
      else
        _ ← modify (extend (upper_hex (len msg) ++ [CR; LF]));
        _ ← modify (extend msg);
        _ ← modify (extend [CR; LF]);
        mret false
  | EncLength remaining =>
      if 0 <? remaining then
        if len msg =? 0 then mret (remaining =? 0)
        else
          let n := Z.min remaining (len msg) in
          piece ← lift (slice_to msg n);
          _ ← modify (extend piece);
          _ ← modify (set_kind (EncLength (remaining - n)));
          mret (remaining - n =? 0)
      else mret true
  end.

(** [http/h1/encoder.rs] TransferEncoding::encode_eof *)
Definition encode_eof : SE (TransferEncoding * B) IoError () :=
  s ← get;
  match te_kind s.1 with
  | EncEof => mret tt
  | EncLength rem => if negb (rem =? 0) then throw (UnexpectedEof EmptyString) else mret tt
  | EncChunked eof =>
      if negb eof then
        _ ← modify (set_kind (EncChunked true));
        modify (extend [48; CR; LF; CR; LF])
      else mret tt
  end.
End Encode.
End TransferEncoding.

(** ** Decoders *)

(** [http/h1/decoder.rs] PayloadItem *)
Inductive PayloadItem :=
  | Chunk (b : list Z)
  | Eof.

(** [http/h1/decoder.rs] ChunkedState *)
Inductive ChunkedState :=
  | Size | SizeLws | Extension | SizeLf | Body | BodyCr | BodyLf | EndCr | EndLf | End.

#[export] Instance ChunkedState_eq_dec : EqDecision ChunkedState.
Proof. solve_decision. Defined.

(** [http/h1/decoder.rs] Kind *)
Inductive Kind :=
  | KLength (remaining : Z)
  | KChunked (state : ChunkedState) (size : Z)
  | KEof.

(** [http/h1/decoder.rs] PayloadDecoder *)
Record PayloadDecoder := MkPayloadDecoder { pd_kind : Kind }.

Module ChunkedState.
Section Step.
Context `{BM : BytesMut B}.

(** [&mut BytesMut] and [&mut u64]; a [Poll::Pending] is a [None]. *)
Abbreviation M := (SE (B * Z) IoError (option ChunkedState)).
Definition ready (s : ChunkedState) : M := mret (Some s).
Definition invalid (msg : string) : M := throw (InvalidInput msg).

(** [http/h1/decoder.rs:475-485] The [byte!] macro, with what follows it. *)
Definition byte (k : Z -> M) : M :=
  s ← get;
  match buf_bytes s.1 with
  | b :: _ =>
      _ ← modify (fun s => ((bm_split_to s.1 1).2, s.2));
      k b
  | [] => mret None
  end.

Definition in_range (lo hi b : Z) : bool := (lo <=? b) && (b <=? hi).

(** [http/h1/decoder.rs] ChunkedState::read_size *)
Definition read_size : M :=
  let radix := 16 in
  let add d :=
    _ ← modify (fun s : B * Z => (s.1, as_u64 (s.2 * radix)));
    _ ← modify (fun s : B * Z => (s.1, as_u64 (s.2 + d)));
    ready Size in
  byte (fun b =>
    if in_range 48 57 b then add (b - 48)
    else if in_range 97 102 b then add (b + 10 - 97)
    else if in_range 65 70 b then add (b + 10 - 65)
    else if (b =? 9) || (b =? 32) then ready SizeLws
    else if b =? 59 then ready Extension
    else if b =? CR then ready SizeLf
    else invalid "Invalid chunk size line: Invalid Size").

(** [http/h1/decoder.rs] ChunkedState::read_size_lws *)
Definition read_size_lws : M :=
  byte (fun b =>
    if (b =? 9) || (b =? 32) then ready SizeLws
    else if b =? 59 then ready Extension
    else if b =? CR then ready SizeLf
    else invalid "Invalid chunk size linear white space").

(** [http/h1/decoder.rs] ChunkedState::read_extension *)
Definition read_extension : M :=
  byte (fun b => if b =? CR then ready SizeLf else ready Extension).

(** [http/h1/decoder.rs] ChunkedState::read_size_lf *)
Definition read_size_lf : M :=
  byte (fun b =>
    size ← gets snd;
    if (b =? LF) && (0 <? size) then ready Body
    else if (b =? LF) && (size =? 0) then ready EndCr
    else invalid "Invalid chunk size LF").

(** [http/h1/decoder.rs] ChunkedState::read_body *)
Definition read_body : SE (B * Z) IoError (option ChunkedState * option B) :=
  s ← get;
  let '(rdr, rem) := s in
  let n := len (buf_bytes rdr) in
  if n =? 0 then mret (Some Body, None)
  else
    let '((slice, rdr), rem) :=
      if n <? rem then (bm_split rdr, rem - n)
      else (bm_split_to rdr (Z.to_nat rem), 0) in
    _ ← modify (fun _ => (rdr, rem));
    if 0 <? rem then mret (Some Body, Some slice) else mret (Some BodyCr, Some slice).

(** [http/h1/decoder.rs] ChunkedState::read_body_cr *)
Definition read_body_cr : M :=
  byte (fun b => if b =? CR then ready BodyLf else invalid "Invalid chunk body CR").
(** [http/h1/decoder.rs] ChunkedState::read_body_lf *)
Definition read_body_lf : M :=
  byte (fun b => if b =? LF then ready Size else invalid "Invalid chunk body LF").
(** [http/h1/decoder.rs] ChunkedState::read_end_cr *)
Definition read_end_cr : M :=
  byte (fun b => if b =? CR then ready EndLf else invalid "Invalid chunk end CR").
(** [http/h1/decoder.rs] ChunkedState::read_end_lf *)
Definition read_end_lf : M :=
  byte (fun b => if b =? LF then ready End else invalid "Invalid chunk end LF").

(** [http/h1/decoder.rs] ChunkedState::step *)
Definition step (self : ChunkedState) : SE (B * Z) IoError (option ChunkedState * option B) :=
  let no_buf (c : M) := (fun r => (r, None)) <$> c in
  match self with
  | Size => no_buf read_size
  | SizeLws => no_buf read_size_lws
  | Extension => no_buf read_extension
  | SizeLf => no_buf read_size_lf
  | Body => read_body
  | BodyCr => no_buf read_body_cr
  | BodyLf => no_buf read_body_lf
  | EndCr => no_buf read_end_cr
  | EndLf => no_buf read_end_lf
  | End => no_buf (ready End)
  end.
End Step.
End ChunkedState.

Module PayloadDecoder.
(** [http/h1/decoder.rs] PayloadDecoder::length *)
Definition length (x : Z) : PayloadDecoder := MkPayloadDecoder (KLength x).
(** [http/h1/decoder.rs] PayloadDecoder::chunked *)
Definition chunked : PayloadDecoder := MkPayloadDecoder (KChunked Size 0).
(** [http/h1/decoder.rs] PayloadDecoder::eof *)
Definition eof : PayloadDecoder := MkPayloadDecoder KEof.

Section Decode.
Context `{BM : BytesMut B}.

Definition set_kind (k : Kind) : SE (PayloadDecoder * B) IoError () :=
  modify (fun s => (MkPayloadDecoder k, s.2)).
Definition set_src (b : B) : SE (PayloadDecoder * B) IoError () :=
  modify (fun s => (s.1, b)).

(** The [loop] of the chunked decoder.  Every round takes a byte from the
    buffer or leaves the loop, so that one round more than there are bytes is
    never reached. *)
Fixpoint chunked_loop (fuel : nat) (state : ChunkedState) (size : Z) (src : B) :
    (ChunkedState * Z * B) * outcome IoError (option PayloadItem) :=
  match fuel with
  | O => ((state, size, src), Panic)
  | S fuel =>
      match ChunkedState.step state (src, size) with
      | ((src, size), Ok (None, _)) => ((state, size, src), Ok None)
      | ((src, size), Err e) => ((state, size, src), Err e)
      | ((src, size), Panic) => ((state, size, src), Panic)
      | ((src, size), Ok (Some state, buf)) =>
          if bool_decide (state = End) then ((state, size, src), Ok (Some Eof))
          else match buf with
          | Some buf => ((state, size, src), Ok (Some (Chunk (buf_bytes buf))))
          | None =>
              if len (buf_bytes src) =? 0 then ((state, size, src), Ok None)
              else chunked_loop fuel state size src
          end
      end
  end.

(** [http/h1/decoder.rs] PayloadDecoder as Decoder::decode *)
Definition decode : SE (PayloadDecoder * B) IoError (option PayloadItem) :=
  s ← get;
  let src := s.2 in
  match pd_kind s.1 with
  | KLength remaining =>
      if remaining =? 0 then mret (Some Eof)
      else if len (buf_bytes src) =? 0 then mret None
      else
        let n := len (buf_bytes src) in
        let '((buf, src), remaining) :=
          if n <? remaining then (bm_split src, remaining - n)
          else (bm_split_to src (Z.to_nat remaining), 0) in
        _ ← set_src src;
        _ ← set_kind (KLength remaining);
        mret (Some (Chunk (buf_bytes buf)))
  | KChunked state size =>
      let '((state, size, src), r) := chunked_loop (S (List.length (buf_bytes src))) state size src in
      _ ← set_src src;
      _ ← set_kind (KChunked state size);
      lift r
  | KEof =>
      if len (buf_bytes src) =? 0 then mret None
      else
        let '(buf, src) := bm_split src in
        _ ← set_src src;
        mret (Some (Chunk (buf_bytes buf)))
  end.
End Decode.
End PayloadDecoder.
