(* ===== verification/H1BodyCorrect.v ===== *)
(** * HTTP/1 message bodies: what is written is what is read

    The chunked decoder consumes the connection buffer in slices and suspends
    wherever the buffer ends.  [feed] is the same automaton on single bytes; the
    decoder computes it for every way the bytes arrive, and it reads what the
    chunked encoder writes. *)

From S2P Require Import Prelude Bytes H1Body.

(** ** The automaton on bytes *)

(** The next state and size, and whether the byte belongs to the payload. *)
Definition chunk_byte (st : ChunkedState) (size b : Z) : option (ChunkedState * Z * bool) :=
  let digit d := Some (Size, as_u64 (as_u64 (size * 16) + d), false) in
  let goto st := Some (st, size, false) in
  let after_size :=
    if (b =? 9) || (b =? 32) then goto SizeLws
    else if b =? 59 then goto Extension
    else if b =? CR then goto SizeLf
    else None in
  match st with
  | Size =>
      if ChunkedState.in_range 48 57 b then digit (b - 48)
      else if ChunkedState.in_range 97 102 b then digit (b + 10 - 97)
      else if ChunkedState.in_range 65 70 b then digit (b + 10 - 65)
      else after_size
  | SizeLws => after_size
  | Extension => if b =? CR then goto SizeLf else goto Extension
  | SizeLf =>
      if (b =? LF) && (0 <? size) then goto Body
      else if (b =? LF) && (size =? 0) then goto EndCr
      else None
  | Body => Some (if 0 <? size - 1 then Body else BodyCr, size - 1, true)
  | BodyCr => if b =? CR then goto BodyLf else None
  | BodyLf => if b =? LF then goto Size else None
  | EndCr => if b =? CR then goto EndLf else None
  | EndLf => if b =? LF then goto End else None
  | End => None
  end.

(** The state after the bytes, the payload among them, and what follows the
    end of the body; [None] for a malformed body. *)
Fixpoint feed (st : ChunkedState) (size : Z) (l : list Z) : option (ChunkedState * Z * list Z * list Z) :=
  if bool_decide (st = End) then Some (End, size, [], l)
  else match l with
  | [] => Some (st, size, [], [])
  | b :: l =>
      '(st, size, is_payload) ← chunk_byte st size b;
      '(st, size, o, rest) ← feed st size l;
      Some (st, size, if is_payload : bool then b :: o else o, rest)
  end.

Lemma feed_End size l : feed End size l = Some (End, size, [], l).
Proof. by destruct l. Qed.

Lemma feed_nil st size : feed st size [] = Some (st, size, [], []).
Proof. cbn [feed]. case_bool_decide; by subst. Qed.

Lemma feed_rest l : forall st size st' size' o rest,
  feed st size l = Some (st', size', o, rest) -> st' = End \/ rest = [].
Proof.
  induction l as [|b l IH]; intros st size st' size' o rest; simpl; case_bool_decide; try naive_solver.
  destruct (chunk_byte st size b) as [[[st1 size1] p]|]; simpl; [|done].
  destruct (feed st1 size1 l) as [[[[st2 size2] o2] r2]|] eqn:E; simpl; naive_solver.
Qed.

(** Reading on after a pause. *)
Definition prepend (o : list Z) (r : option (ChunkedState * Z * list Z * list Z)) :
    option (ChunkedState * Z * list Z * list Z) :=
  '(st, size, o', rest) ← r; Some (st, size, o ++ o', rest).

Lemma feed_app l1 l2 : forall st size,
  feed st size (l1 ++ l2) =
  '(st, size, o, rest) ← feed st size l1; prepend o (feed st size (rest ++ l2)).
Proof.
  induction l1 as [|b l1 IH]; intros st size; cbn [app].
  - rewrite feed_nil. cbn [mbind option_bind app]. unfold prepend. by destruct (feed st size l2) as [[[[? ?] ?] ?]|].
  - cbn [feed]. case_bool_decide as E; cbn [mbind option_bind app].
    + rewrite feed_End. done.
    + destruct (chunk_byte st size b) as [[[st1 size1] p]|]; cbn [mbind option_bind]; [|done].
      rewrite IH. destruct (feed st1 size1 l1) as [[[[st2 size2] o2] r2]|]; cbn [mbind option_bind]; [|done].
      unfold prepend. destruct (feed st2 size2 (r2 ++ l2)) as [[[[st3 size3] o3] r3]|]; cbn [mbind option_bind]; [|done].
      by destruct p.
Qed.

(** A run of payload bytes. *)
Lemma feed_body l1 : forall size l2,
  0 < size -> len l1 <= size -> l1 <> [] ->
  feed Body size (l1 ++ l2) =
  prepend l1 (feed (if 0 <? size - len l1 then Body else BodyCr) (size - len l1) l2).
Proof.
  induction l1 as [|b l1 IH]; intros size l2 Hs Hl Hne; [done|]. clear Hne. rewrite len_cons in Hl |- *.
  cbn [app feed chunk_byte mbind option_bind]. rewrite (bool_decide_false (Body = End)) by done.
  pose proof (len_nonneg l1). replace (size - (1 + len l1)) with (size - 1 - len l1) by lia.
  destruct l1 as [|b' l1].
  - change (len (@nil Z)) with 0. rewrite Z.sub_0_r. cbn [app]. unfold prepend.
    by destruct (feed (if 0 <? size - 1 then Body else BodyCr) (size - 1) l2) as [[[[? ?] ?] ?]|].
  - rewrite len_cons in Hl. pose proof (len_nonneg l1). rewrite (proj2 (Z.ltb_lt _ _)) by lia.
    rewrite IH by (rewrite ?len_cons; done || lia). unfold prepend.
    by destruct (feed (if 0 <? size - 1 - len (b' :: l1) then Body else BodyCr) _ l2) as [[[[? ?] ?] ?]|].
Qed.

(** ** The decoder computes the automaton *)

Definition size_wf (st : ChunkedState) (size : Z) : Prop := st = Body -> 0 < size.

Lemma chunk_byte_wf st size b st' size' p :
  size_wf st size -> chunk_byte st size b = Some (st', size', p) -> size_wf st' size'.
Proof.
  unfold size_wf. intros Hwf H ->. destruct st; simpl in H; repeat case_match; simplify_eq/=; reflect_bools; lia.
Qed.

Section Decode.
Context `{BM : BytesMut B}.
Implicit Types src : B.

Lemma take_byte src b l : buf_bytes src = b :: l -> buf_bytes (bm_split_to src 1).2 = l.
Proof.
  intros H. destruct (bm_split_to_bytes src 1) as [_ ->]; [rewrite H; simpl; lia|]. by rewrite H.
Qed.

(** One step of the decoder outside the payload. *)
Lemma step_byte st size src :
  st <> Body -> st <> End ->
  match buf_bytes src with
  | [] => ChunkedState.step st (src, size) = ((src, size), Ok (None, None))
  | b :: l => exists src', buf_bytes src' = l /\
      match chunk_byte st size b with
      | Some (st', size', p) => p = false /\ ChunkedState.step st (src, size) = ((src', size'), Ok (Some st', None))
      | None => exists e, (ChunkedState.step st (src, size)).2 = Err e
      end
  end.
Proof.
  intros H1 H2. destruct (buf_bytes src) as [|b l] eqn:Eb.
  - destruct st; try done; unfold ChunkedState.step, fmap, SE_fmap;
      unfold ChunkedState.read_size, ChunkedState.read_size_lws, ChunkedState.read_extension, ChunkedState.read_size_lf,
        ChunkedState.read_body_cr, ChunkedState.read_body_lf, ChunkedState.read_end_cr, ChunkedState.read_end_lf,
        ChunkedState.byte, get, mbind, SE_bind; cbn [fst snd]; by rewrite Eb.
  - exists (bm_split_to src 1).2. split; [by eapply take_byte|].
    destruct st; try done; unfold ChunkedState.step, fmap, SE_fmap;
      unfold ChunkedState.read_size, ChunkedState.read_size_lws, ChunkedState.read_extension, ChunkedState.read_size_lf,
        ChunkedState.read_body_cr, ChunkedState.read_body_lf, ChunkedState.read_end_cr, ChunkedState.read_end_lf,
        ChunkedState.byte, get, gets, modify, mbind, SE_bind; cbn [fst snd]; rewrite Eb; cbn [chunk_byte fst snd];
      repeat match goal with |- context [if ?c then _ else _] => destruct c end; cbn; eauto.
Qed.

(** One step within the payload takes what there is of it. *)
Lemma step_body size src :
  0 < size -> buf_bytes src <> [] ->
  exists src' buf st', ChunkedState.step Body (src, size) =
      ((src', size - len (buf_bytes buf)), Ok (Some st', Some buf)) /\
    buf_bytes src = buf_bytes buf ++ buf_bytes src' /\ buf_bytes buf <> [] /\ len (buf_bytes buf) <= size /\
    st' = (if 0 <? size - len (buf_bytes buf) then Body else BodyCr) /\ size_wf st' (size - len (buf_bytes buf)).
Proof.
  intros Hs Hne. unfold ChunkedState.step, ChunkedState.read_body, get, mbind, SE_bind. cbn [fst snd].
  pose proof (len_nonneg (buf_bytes src)). set (n := len (buf_bytes src)) in *.
  assert (0 < n) as Hn by (subst n; destruct (buf_bytes src); [done|]; rewrite len_cons in *; pose proof (len_nonneg l); lia).
  rewrite (proj2 (Z.eqb_neq n 0)) by lia.
  assert (forall b : B, size_wf (if 0 <? size - len (buf_bytes b) then Body else BodyCr) (size - len (buf_bytes b))) as Hwf.
  { intros b. unfold size_wf. destruct (Z.ltb_spec 0 (size - len (buf_bytes b))); [lia|done]. }
  destruct (Z.ltb_spec n size) as [Hlt|Hge].
  - destruct (bm_split_bytes src) as [E1 E2]. destruct (bm_split src) as [buf rdr]; cbn [fst snd] in *.
    exists rdr, buf, Body. assert (len (buf_bytes buf) = n) as En by (by rewrite E1). specialize (Hwf buf).
    rewrite En in *. unfold modify. rewrite (proj2 (Z.ltb_lt _ _)) in Hwf |- * by lia.
    rewrite E1, E2, app_nil_r. split_and!; [done|done|done|lia|done|done].
  - destruct (bm_split_to_bytes src (Z.to_nat size)) as [E1 E2]; [subst n; unfold len in *; lia|].
    destruct (bm_split_to src (Z.to_nat size)) as [buf rdr]; cbn [fst snd] in *.
    assert (len (buf_bytes buf) = size) as En by (rewrite E1; subst n; unfold len in *; rewrite length_take; lia).
    exists rdr, buf, BodyCr. specialize (Hwf buf). rewrite En, Z.sub_diag in *. unfold modify. cbn [Z.ltb Z.compare] in *.
    rewrite E1, E2, take_drop. split_and!; [done|done| |lia|done|done].
    intros E. rewrite <- E1 in E. rewrite E in En. change (len (@nil Z)) with 0 in En. lia.
Qed.

(** What a call of [decode] leaves to be done. *)
Definition loop_post (st : ChunkedState) (size : Z) (src : B)
    (r : (ChunkedState * Z * B) * outcome IoError (option PayloadItem)) : Prop :=
  let '((st', size', src'), o) := r in
  match o with
  | Ok None => buf_bytes src' = [] /\ st' <> End /\ size_wf st' size' /\
      feed st size (buf_bytes src) = Some (st', size', [], [])
  | Ok (Some Eof) => st' = End /\ feed st size (buf_bytes src) = Some (End, size', [], buf_bytes src')
  | Ok (Some (Chunk b)) => st' <> End /\ (length (buf_bytes src') < length (buf_bytes src))%nat /\ size_wf st' size' /\
      feed st size (buf_bytes src) = prepend b (feed st' size' (buf_bytes src'))
  | Err _ => feed st size (buf_bytes src) = None
  | Panic => False
  end.

Lemma chunked_loop_spec fuel : forall st size src,
  (length (buf_bytes src) < fuel)%nat -> size_wf st size ->
  loop_post st size src (PayloadDecoder.chunked_loop fuel st size src).
Proof.
  induction fuel as [|fuel IH]; intros st size src Hf Hwf; [lia|]. cbn [PayloadDecoder.chunked_loop].
  destruct (decide (st = End)) as [->|He]; [split; [done|apply feed_End]|].
  destruct (buf_bytes src) as [|b l] eqn:Eb.
  { destruct (decide (st = Body)) as [->|Hb].
    - assert (ChunkedState.step Body (src, size) = ((src, size), Ok (Some Body, None))) as ->.
      { unfold ChunkedState.step, ChunkedState.read_body, get, mbind, SE_bind. cbn [fst snd]. by rewrite Eb. }
      rewrite bool_decide_false by done. rewrite ?Eb.
      change (len (@nil Z) =? 0) with true. cbn [loop_post]. by rewrite Eb, feed_nil.
    - pose proof (step_byte st size src Hb He) as Hs. rewrite Eb in Hs. rewrite Hs. cbn [loop_post].
      rewrite Eb, feed_nil. done. }
  destruct (decide (st = Body)) as [->|Hb].
  { destruct (step_body size src (Hwf eq_refl)) as (src' & buf & st' & -> & Hsrc & Hne & Hle & Hst & Hwf'); [by rewrite Eb|].
    assert (st' <> End) as He' by (subst st'; by case_match). rewrite bool_decide_false by done. cbn [loop_post].
    rewrite Hsrc, feed_body, <- Hst by (done || by apply Hwf).
    split_and!; [done| |done|done]. rewrite length_app. destruct (buf_bytes buf); [done|]. simpl. lia. }
  pose proof (step_byte st size src Hb He) as Hs. rewrite Eb in Hs. destruct Hs as (src' & Hl & Hs).
  assert (feed st size (buf_bytes src) = '(st1, size1, p) ← chunk_byte st size b; '(st2, size2, o, rest) ← feed st1 size1 l;
    Some (st2, size2, if p : bool then b :: o else o, rest)) as Hfeed by (rewrite Eb; cbn [feed]; by rewrite bool_decide_false).
  destruct (chunk_byte st size b) as [[[st1 size1] p]|] eqn:Ec; cbn [mbind option_bind] in Hfeed.
  2:{ destruct Hs as [e Hs]. destruct (ChunkedState.step st (src, size)) as [[src1 size1] r]. simpl in Hs. subst r. done. }
  destruct Hs as [-> ->]. pose proof (chunk_byte_wf _ _ _ _ _ _ Hwf Ec) as Hwf1.
  assert (feed st size (buf_bytes src) = feed st1 size1 l) as Hfeed1
    by (rewrite Hfeed; by destruct (feed st1 size1 l) as [[[[? ?] ?] ?]|]).
  case_bool_decide as E1; [subst st1; cbn [loop_post]; by rewrite Hfeed1, feed_End, Hl|].
  destruct (Z.eqb_spec (len (buf_bytes src')) 0) as [E0|E0].
  - assert (l = []) as -> by (rewrite Hl in E0; destruct l; [done|]; rewrite len_cons in E0; pose proof (len_nonneg l); lia).
    cbn [loop_post]. rewrite Hfeed1, feed_nil. done.
  - simpl in Hf. specialize (IH st1 size1 src' ltac:(rewrite Hl; lia) Hwf1).
    destruct (PayloadDecoder.chunked_loop fuel st1 size1 src') as [[[st2 size2] src2] [[[b2|]|]|e|]]; cbn [loop_post] in *;
      rewrite ?Hfeed1, <- ?Hl; try done.
    destruct IH as (? & Hlt & ? & ->). split_and!; [done| |done|done]. rewrite Hl in Hlt. rewrite Eb. simpl. lia.
Qed.

(** Decoding until the buffer is used up or the body has ended: the payload
    and whether the end was seen. *)
Fixpoint drain (fuel : nat) : SE (PayloadDecoder * B) IoError (list Z * bool) :=
  match fuel with
  | O => panic
  | S fuel =>
      r ← PayloadDecoder.decode;
      match r with
      | None => mret ([], false)
      | Some Eof => mret ([], true)
      | Some (Chunk b) => '(o, eof) ← drain fuel; mret (b ++ o, eof)
      end
  end.

Lemma chunked_drain_spec fuel : forall st size src,
  (length (buf_bytes src) < fuel)%nat -> size_wf st size ->
  match feed st size (buf_bytes src) with
  | Some (st', size', o, rest) => exists src', size_wf st' size' /\ buf_bytes src' = rest /\
      drain fuel (MkPayloadDecoder (KChunked st size), src) =
      ((MkPayloadDecoder (KChunked st' size'), src'), Ok (o, bool_decide (st' = End)))
  | None => exists e, (drain fuel (MkPayloadDecoder (KChunked st size), src)).2 = Err e
  end.
Proof.
  induction fuel as [|fuel IH]; intros st size src Hf Hwf; [lia|]. cbn [drain].
  pose proof (chunked_loop_spec (S (length (buf_bytes src))) st size src ltac:(lia) Hwf) as Hl.
  assert (PayloadDecoder.decode (MkPayloadDecoder (KChunked st size), src) =
    let '((st', size', src'), r) := PayloadDecoder.chunked_loop (S (length (buf_bytes src))) st size src in
    ((MkPayloadDecoder (KChunked st' size'), src'), r)) as Hd.
  { unfold PayloadDecoder.decode, get, mbind, SE_bind. cbn [fst snd pd_kind].
    by destruct (PayloadDecoder.chunked_loop _ st size src) as [[[st' size'] src'] r]. }
  destruct (PayloadDecoder.chunked_loop _ st size src) as [[[st' size'] src'] [[[b|]|]|e|]]; cbn [loop_post] in Hl.
  - destruct Hl as (_ & Hlt & Hwf' & ->). rewrite (bind_eq _ _ _ _ _ Hd).
    specialize (IH st' size' src' ltac:(lia) Hwf').
    destruct (feed st' size' (buf_bytes src')) as [[[[st2 size2] o] rest]|]; cbn [prepend mbind option_bind].
    + destruct IH as (src2 & Hwf2 & Hr & IH). exists src2. split_and!; [done|done|]. by rewrite (bind_eq _ _ _ _ _ IH).
    + destruct IH as [e IH]. exists e. unfold mbind, SE_bind. destruct (drain fuel _) as [s r]. simpl in IH. by subst r.
  - destruct Hl as [-> ->]. rewrite (bind_eq _ _ _ _ _ Hd). exists src'. by split_and!.
  - destruct Hl as (Hr & He & Hwf' & ->). rewrite (bind_eq _ _ _ _ _ Hd). exists src'.
    rewrite bool_decide_false by done. by split_and!.
  - rewrite Hl. exists e. unfold mbind at 1, SE_bind. by rewrite Hd.
  - done.
Qed.
End Decode.

(** ** Bodies that arrive in pieces *)

Section Pieces.
Context `{BM : BytesMut B}.
Implicit Types src : B.

(** Each piece is appended to the connection buffer and decoded as far as it
    goes; after the end of the body the pieces that were not looked at are
    returned. *)
Fixpoint receive (pieces : list (list Z)) : SE (PayloadDecoder * B) IoError (list Z * option (list (list Z))) :=
  match pieces with
  | [] => mret ([], None)
  | p :: pieces =>
      _ ← modify (fun s => (s.1, put_slice s.2 p));
      n ← gets (fun s => length (buf_bytes s.2));
      '(o, eof) ← drain (S n);
      if eof : bool then mret (o, Some pieces)
      else '(o', r) ← receive pieces; mret (o ++ o', r)
  end.

(** A body that the automaton reads to its end is read however it is cut. *)
Lemma receive_spec pieces : forall st size src body size' tail,
  size_wf st size -> buf_bytes src = [] -> st <> End ->
  feed st size (concat pieces) = Some (End, size', body, tail) -> len (concat pieces) < 2 ^ 64 ->
  exists src' rest, receive pieces (MkPayloadDecoder (KChunked st size), src) =
      ((MkPayloadDecoder (KChunked End size'), src'), Ok (body, Some rest)) /\
    buf_bytes src' ++ concat rest = tail.
Proof.
  induction pieces as [|p pieces IH]; intros st size src body size' tail Hwf Hs He Hfeed Hlen; cbn [receive concat] in *.
  { rewrite feed_nil in Hfeed. by simplify_eq. }
  rewrite len_app in Hlen. pose proof (len_nonneg p). pose proof (len_nonneg (concat pieces)).
  rewrite bind_modify, bind_gets. cbn [fst snd]. set (src1 := put_slice src p).
  assert (buf_bytes src1 = p) as Hs1.
  { subst src1. rewrite put_slice_bytes, Hs; [done|]. rewrite bm_remaining, Hs. change (len (@nil Z)) with 0. lia. }
  pose proof (chunked_drain_spec (S (length (buf_bytes src1))) st size src1 ltac:(lia) Hwf) as Hd. rewrite Hs1 in Hd |- *.
  rewrite feed_app in Hfeed. destruct (feed st size p) as [[[[st1 size1] o] rest]|] eqn:Ep; [|done].
  destruct Hd as (src2 & Hwf2 & Hr & Hd). rewrite (bind_eq _ _ _ _ _ Hd). cbn [mbind option_bind] in Hfeed.
  case_bool_decide as E1.
  - subst st1. rewrite feed_End in Hfeed. cbn [prepend mbind option_bind] in Hfeed. simplify_eq.
    exists src2, pieces. by rewrite app_nil_r.
  - destruct (feed_rest p _ _ _ _ _ _ Ep) as [|Hr0]; [done|]. rewrite Hr0 in *. cbn [app] in Hfeed.
    destruct (feed st1 size1 (concat pieces)) as [[[[st3 size3] o3] r3]|] eqn:Ef; cbn [prepend mbind option_bind] in Hfeed; simplify_eq.
    destruct (IH st1 size1 src2 o3 size' tail Hwf2 Hr E1 Ef ltac:(lia)) as (src' & rest' & Er & Ht).
    exists src', rest'. split; [|done]. by rewrite (bind_eq _ _ _ _ _ Er).
Qed.

(** ** What the chunked encoder writes *)

(** All messages of a body, then its end. *)
Fixpoint encode_body (msgs : list (list Z)) : SE (TransferEncoding * B) IoError () :=
  match msgs with
  | [] => TransferEncoding.encode_eof
  | m :: msgs => _ ← TransferEncoding.encode m; encode_body msgs
  end.

Definition chunk_bytes (m : list Z) : list Z := upper_hex (len m) ++ [CR; LF] ++ m ++ [CR; LF].
Definition last_chunk : list Z := [48; CR; LF; CR; LF].

Lemma upper_hex_length n : (length (upper_hex n) <= 16)%nat.
Proof.
  unfold upper_hex. generalize 16%nat. intros fuel. revert n. induction fuel as [|fuel IH]; intros n; simpl; [lia|].
  rewrite length_app. simpl. destruct (n <? 16); [simpl; lia|]. specialize (IH (n / 16)). lia.
Qed.

Lemma chunk_bytes_len m : len (chunk_bytes m) <= len m + 20.
Proof.
  unfold chunk_bytes. rewrite !len_app. change (len [CR; LF]) with 2.
  assert (len (upper_hex (len m)) <= 16) by (pose proof (upper_hex_length (len m)) as H; unfold len at 1; lia). lia.
Qed.

Lemma encode_body_spec msgs : forall (buf : B),
  Forall (fun m => m <> []) msgs ->
  len (buf_bytes buf) + len (concat msgs) + 20 * len msgs + 5 < 2 ^ 64 ->
  exists s, encode_body msgs (TransferEncoding.chunked, buf) = (s, Ok tt) /\
    buf_bytes s.2 = buf_bytes buf ++ (msgs ≫= chunk_bytes) ++ last_chunk.
Proof.
  induction msgs as [|m msgs IH]; intros buf Hne Hlen; cbn [encode_body concat] in *.
  { eexists. split; [done|]. cbn [snd]. apply put_slice_bytes. rewrite bm_remaining.
    change (len (@nil Z)) with 0 in Hlen. change (len (@nil (list Z))) with 0 in Hlen.
    change (len (([] ≫= chunk_bytes) ++ last_chunk)) with 5. lia. }
  apply Forall_cons in Hne as [Hm Hne]. rewrite len_app, len_cons in Hlen.
  pose proof (chunk_bytes_len m) as Hc. pose proof (len_nonneg (concat msgs)). pose proof (len_nonneg msgs).
  pose proof (len_nonneg m). pose proof (len_nonneg (buf_bytes buf)).
  set (buf1 := put_slice (put_slice (put_slice buf (upper_hex (len m) ++ [CR; LF])) m) [CR; LF]).
  assert (TransferEncoding.encode m (TransferEncoding.chunked, buf) = ((TransferEncoding.chunked, buf1), Ok false)) as He.
  { unfold TransferEncoding.encode, get, mbind, SE_bind. cbn [fst snd te_kind TransferEncoding.chunked].
    rewrite (proj2 (Z.eqb_neq _ _)); [done|]. destruct m; [done|]. rewrite len_cons. pose proof (len_nonneg m). lia. }
  assert (buf_bytes buf1 = buf_bytes buf ++ chunk_bytes m) as Hb1.
  { unfold chunk_bytes in *. rewrite !len_app in Hc. change (len [CR; LF]) with 2 in Hc.
    pose proof (len_nonneg (upper_hex (len m))).
    transitivity (((buf_bytes buf ++ (upper_hex (len m) ++ [CR; LF])) ++ m) ++ [CR; LF]);
      [|by rewrite <- !(assoc_L (++))].
    repeat apply put_slice_app; rewrite ?len_app; change (len [CR; LF]) with 2; [done|lia..]. }
  rewrite (bind_eq _ _ _ _ _ He).
  destruct (IH buf1 Hne) as (s & Es & Hs); [rewrite Hb1, len_app; lia|].
  exists s. split; [done|]. rewrite Hs, Hb1, bind_cons, <- !(assoc_L (++)). done.
Qed.

(** The automaton on a chunk. *)
Lemma feed_digit size d rest :
  0 <= d < 16 -> 0 <= size -> size * 16 + d < 2 ^ 64 ->
  feed Size size (hex_digit d :: rest) = feed Size (size * 16 + d) rest.
Proof.
  intros Hd Hs Hlt. cbn [feed]. rewrite (bool_decide_false (Size = End)) by done.
  assert (chunk_byte Size size (hex_digit d) = Some (Size, size * 16 + d, false)) as ->.
  { unfold chunk_byte, hex_digit, ChunkedState.in_range.
    assert (as_u64 (as_u64 (size * 16) + d) = size * 16 + d) as Hw by int_lia.
    destruct (Z.ltb_spec d 10).
    - rewrite (proj2 (Z.leb_le 48 _)), (proj2 (Z.leb_le _ 57)) by lia. cbn [andb].
      by replace (48 + d - 48) with d by lia; rewrite Hw.
    - rewrite (proj2 (Z.leb_le 48 _)), (proj2 (Z.leb_gt _ 57)), (proj2 (Z.leb_gt 97 _)), (proj2 (Z.leb_le 65 _)),
        (proj2 (Z.leb_le _ 70)) by lia. cbn [andb]. by replace (55 + d + 10 - 65) with d by lia; rewrite Hw. }
  cbn [mbind option_bind]. by destruct (feed Size (size * 16 + d) rest) as [[[[? ?] ?] ?]|].
Qed.

Lemma feed_hex fuel : forall n rest,
  (0 < fuel)%nat -> 0 <= n < 16 ^ Z.of_nat fuel -> n < 2 ^ 64 ->
  feed Size 0 (hex_fuel fuel n ++ rest) = feed Size n rest.
Proof.
  induction fuel as [|fuel IH]; intros n rest Hf Hn H64; [lia|]. cbn [hex_fuel].
  rewrite Nat2Z.inj_succ, Z.pow_succ_r in Hn by lia.
  assert (0 <= n mod 16 < 16) as Hd by (apply Z.mod_pos_bound; lia).
  destruct (Z.ltb_spec n 16) as [Hlt|Hge].
  - cbn [app]. rewrite feed_digit by (rewrite ?Z.mod_small; lia). rewrite Z.mod_small by lia. done.
  - assert (fuel <> 0%nat) as Hf0 by (intros ->; simpl in Hn; lia).
    rewrite <- (assoc_L (++)), IH; [|lia|split; [apply Z.div_pos; lia|apply Z.div_lt_upper_bound; lia]|].
    2:{ apply Z.div_lt_upper_bound; lia. }
    assert (n / 16 * 16 + n mod 16 = n) as En by (rewrite Z.mul_comm; symmetry; apply Z.div_mod; lia).
    cbn [app]. rewrite feed_digit; [by rewrite En|done|apply Z.div_pos; lia|lia].
Qed.

Lemma feed_skip st size b st' size' l :
  st <> End -> chunk_byte st size b = Some (st', size', false) -> feed st size (b :: l) = feed st' size' l.
Proof.
  intros He Hc. cbn [feed]. rewrite bool_decide_false, Hc by done. cbn [mbind option_bind].
  by destruct (feed st' size' l) as [[[[? ?] ?] ?]|].
Qed.

Lemma feed_chunk m rest :
  m <> [] -> len m < 2 ^ 64 -> feed Size 0 (chunk_bytes m ++ rest) = prepend m (feed Size 0 rest).
Proof.
  intros Hm Hl. assert (0 < len m) as H0 by (destruct m; [done|]; rewrite len_cons; pose proof (len_nonneg m); lia).
  unfold chunk_bytes, upper_hex. rewrite <- !(assoc_L (++)). rewrite feed_hex by (simpl; lia). cbn [app].
  rewrite (feed_skip Size _ CR SizeLf (len m)) by done.
  rewrite (feed_skip SizeLf _ LF Body (len m)) by (try done; unfold chunk_byte; by rewrite (proj2 (Z.ltb_lt _ _))).
  rewrite feed_body by (done || lia). rewrite Z.sub_diag. cbn [Z.ltb Z.compare].
  by rewrite (feed_skip BodyCr 0 CR BodyLf 0), (feed_skip BodyLf 0 LF Size 0).
Qed.

Lemma feed_encoded msgs tail :
  Forall (fun m => m <> []) msgs -> len (concat msgs) < 2 ^ 64 ->
  feed Size 0 ((msgs ≫= chunk_bytes) ++ last_chunk ++ tail) = Some (End, 0, concat msgs, tail).
Proof.
  induction msgs as [|m msgs IH]; intros Hne Hl.
  { cbn [mbind list_bind app last_chunk]. rewrite (feed_skip Size 0 48 Size 0), (feed_skip Size 0 CR SizeLf 0),
      (feed_skip SizeLf 0 LF EndCr 0), (feed_skip EndCr 0 CR EndLf 0), (feed_skip EndLf 0 LF End 0) by done.
    apply feed_End. }
  apply Forall_cons in Hne as [Hm Hne]. cbn [concat] in Hl |- *. rewrite len_app in Hl.
  pose proof (len_nonneg m). pose proof (len_nonneg (concat msgs)).
  rewrite bind_cons, <- (assoc_L (++)), feed_chunk, IH by (done || lia). done.
Qed.
End Pieces.

(** ** Bodies with a content length *)

Section Sized.
Context `{BM : BytesMut B}.
Implicit Types src : B.

Definition sized (r : Z) : PayloadDecoder := PayloadDecoder.length r.

Lemma sized_decode r src :
  0 < r -> buf_bytes src <> [] -> exists src', let k := Z.min r (len (buf_bytes src)) in
  PayloadDecoder.decode (sized r, src) = ((sized (r - k), src'), Ok (Some (Chunk (take (Z.to_nat k) (buf_bytes src))))) /\
  buf_bytes src' = drop (Z.to_nat k) (buf_bytes src) /\ 0 < k.
Proof.
  intros Hr Hne. assert (0 < len (buf_bytes src)) as Hn.
  { destruct (buf_bytes src); [done|]. rewrite len_cons. pose proof (len_nonneg l). lia. }
  unfold PayloadDecoder.decode, get, mbind, SE_bind, PayloadDecoder.set_src, PayloadDecoder.set_kind, modify.
  cbn [fst snd pd_kind sized PayloadDecoder.length]. rewrite !(proj2 (Z.eqb_neq _ _)) by lia.
  destruct (Z.ltb_spec (len (buf_bytes src)) r) as [Hlt|Hge].
  - rewrite Z.min_r by lia. destruct (bm_split_bytes src) as [E1 E2]. destruct (bm_split src) as [buf rdr]; cbn [fst snd] in *.
    exists rdr. rewrite E1. unfold len. rewrite Nat2Z.id, take_ge, drop_ge by lia. split_and!; [done|done|]. unfold len in Hn. lia.
  - rewrite Z.min_l by lia. destruct (bm_split_to_bytes src (Z.to_nat r)) as [E1 E2]; [unfold len in *; lia|].
    destruct (bm_split_to src (Z.to_nat r)) as [buf rdr]; cbn [fst snd] in *. exists rdr. rewrite E1, Z.sub_diag. by split_and!.
Qed.

Lemma sized_drain fuel r src :
  0 <= r -> (length (buf_bytes src) < fuel)%nat -> exists src', let k := Z.min r (len (buf_bytes src)) in
  drain fuel (sized r, src) =
    ((sized (r - k), src'), Ok (take (Z.to_nat k) (buf_bytes src), r <=? len (buf_bytes src))) /\
  buf_bytes src' = drop (Z.to_nat k) (buf_bytes src).
Proof.
  intros Hr Hf. cbv zeta. destruct fuel as [|fuel]; [lia|].
  assert (forall f src, drain (S f) (sized 0, src) = ((sized 0, src), Ok ([], true))) as Heof by done.
  assert (forall f r src, 0 < r -> buf_bytes src = [] -> drain (S f) (sized r, src) = ((sized r, src), Ok ([], false))) as Hpend.
  { intros f r' src' Hr' Hs. cbn [drain]. unfold PayloadDecoder.decode, get, mbind, SE_bind.
    cbn [fst snd pd_kind sized PayloadDecoder.length]. by rewrite (proj2 (Z.eqb_neq _ _)), Hs by lia. }
  pose proof (len_nonneg (buf_bytes src)).
  destruct (Z.eq_dec r 0) as [->|Hr0].
  { exists src. rewrite Z.min_l by lia. rewrite (proj2 (Z.leb_le _ _)) by lia. by rewrite Heof. }
  destruct (decide (buf_bytes src = [])) as [Hs|Hs].
  { exists src. rewrite Hpend by (done || lia). rewrite Hs. change (len (@nil Z)) with 0.
    rewrite Z.min_r, Z.sub_0_r, (proj2 (Z.leb_gt _ _)) by lia. done. }
  destruct fuel as [|fuel]; [destruct (buf_bytes src); [done|simpl in Hf; lia]|].
  destruct (sized_decode r src ltac:(lia) Hs) as (src' & Ed & Hd & Hk).
  set (k := Z.min r (len (buf_bytes src))) in *. exists src'. split; [|done].
  cbn [drain]. rewrite (bind_eq _ _ _ _ _ Ed).
  change (('(o, eof) ← drain (S fuel); mret (take (Z.to_nat k) (buf_bytes src) ++ o, eof)) (sized (r - k), src') =
    ((sized (r - k), src'), Ok (take (Z.to_nat k) (buf_bytes src), r <=? len (buf_bytes src)))).
  destruct (Z.leb_spec r (len (buf_bytes src))) as [Hle|Hgt].
  - assert (k = r) as Ek by (subst k; lia). rewrite Ek, Z.sub_diag, (bind_eq _ _ _ _ _ (Heof fuel src')), app_nil_r. done.
  - assert (k = len (buf_bytes src)) as Ek by (subst k; lia).
    assert (buf_bytes src' = []) as Hs' by (rewrite Hd, Ek; unfold len; by rewrite Nat2Z.id, drop_ge).
    rewrite (bind_eq _ _ _ _ _ (Hpend fuel (r - k) src' ltac:(lia) Hs')), app_nil_r. done.
Qed.

Lemma sized_receive pieces : forall r src,
  buf_bytes src = [] -> 0 <= r <= len (concat pieces) -> pieces <> [] -> len (concat pieces) < 2 ^ 64 ->
  exists src' rest, receive pieces (sized r, src) =
      ((sized 0, src'), Ok (take (Z.to_nat r) (concat pieces), Some rest)) /\
    buf_bytes src' ++ concat rest = drop (Z.to_nat r) (concat pieces).
Proof.
  induction pieces as [|p pieces IH]; intros r src Hs Hr Hne Hlen; [done|]. cbn [receive concat] in *.
  rewrite len_app in Hr, Hlen. pose proof (len_nonneg p). pose proof (len_nonneg (concat pieces)).
  rewrite bind_modify, bind_gets. cbn [fst snd]. set (src1 := put_slice src p).
  assert (buf_bytes src1 = p) as Hs1.
  { subst src1. rewrite (put_slice_app _ _ []); [done|done|]. change (len (@nil Z)) with 0. lia. }
  destruct (sized_drain (S (length (buf_bytes src1))) r src1 ltac:(lia) ltac:(lia)) as (src2 & Ed & Hd).
  rewrite Hs1 in Ed, Hd |- *. rewrite (bind_eq _ _ _ _ _ Ed).
  destruct (Z.leb_spec r (len p)) as [Hle|Hgt].
  - rewrite Z.min_l, Z.sub_diag in * by lia. exists src2, pieces. split.
    + rewrite take_app_le by (unfold len in *; lia). done.
    + rewrite Hd, drop_app_le by (unfold len in *; lia). done.
  - rewrite Z.min_r in * by lia. assert (buf_bytes src2 = []) as Hs2 by (rewrite Hd; unfold len; by rewrite Nat2Z.id, drop_ge).
    destruct pieces as [|p' pieces]; [change (len (concat [])) with 0 in *; lia|].
    destruct (IH (r - len p) src2 Hs2 ltac:(lia) ltac:(done) ltac:(lia)) as (src' & rest & Er & Ht).
    exists src', rest. rewrite (bind_eq _ _ _ _ _ Er). unfold len in *.
    assert (Z.to_nat r = (length p + Z.to_nat (r - Z.of_nat (length p)))%nat) as -> by lia.
    rewrite take_app_add, drop_app_add, Nat2Z.id, take_ge by lia. by split.
Qed.

(** The encoder writes the length it was given, and refuses to end early. *)
Lemma sized_encode msgs : forall r (buf : B),
  0 <= r -> len (buf_bytes buf) + len (concat msgs) < 2 ^ 64 ->
  exists s, encode_body msgs (TransferEncoding.length r, buf) =
      (s, if r <=? len (concat msgs) then Ok tt else Err (UnexpectedEof String.EmptyString)) /\
    buf_bytes s.2 = buf_bytes buf ++ take (Z.to_nat r) (concat msgs).
Proof.
  induction msgs as [|m msgs IH]; intros r buf Hr Hlen; cbn [encode_body concat] in *.
  { exists (TransferEncoding.length r, buf). rewrite take_nil, app_nil_r. change (len (@nil Z)) with 0. split; [|reflexivity].
    unfold TransferEncoding.encode_eof, get, mbind, SE_bind. cbn [fst snd te_kind TransferEncoding.length].
    destruct (Z.eqb_spec r 0); cbn [negb]; [subst; done|]. by rewrite (proj2 (Z.leb_gt _ _)) by lia. }
  rewrite len_app in *. pose proof (len_nonneg m). pose proof (len_nonneg (concat msgs)).
  pose proof (len_nonneg (buf_bytes buf)).
  assert (exists ok buf1, TransferEncoding.encode m (TransferEncoding.length r, buf) =
    ((TransferEncoding.length (r - Z.min r (len m)), buf1), Ok ok) /\
    buf_bytes buf1 = buf_bytes buf ++ take (Z.to_nat r) m) as (ok & buf1 & He & Hb1).
  { unfold TransferEncoding.encode, get, mbind, SE_bind. cbn [fst snd te_kind TransferEncoding.length].
    destruct (Z.ltb_spec 0 r) as [Hpos|Hpos].
    2:{ assert (r = 0) as -> by lia. do 2 eexists. rewrite Z.min_l, Z.sub_0_r, take_0, app_nil_r by lia. done. }
    destruct (Z.eqb_spec (len m) 0) as [Hm|Hm].
    { do 2 eexists. rewrite Hm, Z.min_r, Z.sub_0_r by lia. split; [done|].
      destruct m; [by rewrite take_nil, app_nil_r|]. rewrite len_cons in Hm. pose proof (len_nonneg m). lia. }
    rewrite slice_to_Ok by lia. do 2 eexists. split; [reflexivity|]. cbn [fst snd TransferEncoding.extend].
    rewrite (put_slice_app _ _ (buf_bytes buf)); [|done|unfold len in *; rewrite length_take; lia].
    f_equal. destruct (Z.min_spec r (len m)) as [[? ->]|[? ->]]; [done|]. unfold len in *. rewrite !take_ge by lia. done. }
  rewrite (bind_eq _ _ _ _ _ He).
  destruct (IH (r - Z.min r (len m)) buf1 ltac:(lia)) as (s & Es & Hs).
  { rewrite Hb1, len_app. unfold len in *. rewrite length_take. lia. }
  exists s. rewrite Es, Hs, Hb1, <- (assoc_L (++)). split.
  - f_equal. destruct (Z.leb_spec (r - Z.min r (len m)) (len (concat msgs))), (Z.leb_spec r (len m + len (concat msgs))); done || lia.
  - f_equal. rewrite take_app. do 2 f_equal. unfold len in *. lia.
Qed.
End Sized.

(** ** The properties *)

(** C35. The chunked coding loses nothing: the bytes written for a body, followed
    by anything and cut into pieces anywhere, are read back as the body and its
    end, and what follows the body is left for the next message. *)
Theorem chunked_roundtrip `{BM : BytesMut B} msgs (buf : B) s pieces tail (src : B) :
  Forall (fun m => m <> []) msgs -> buf_bytes buf = [] -> buf_bytes src = [] ->
  len (concat msgs) + 20 * len msgs + 5 < 2 ^ 64 -> len (concat pieces) < 2 ^ 64 ->
  encode_body msgs (TransferEncoding.chunked, buf) = (s, Ok tt) ->
  concat pieces = buf_bytes s.2 ++ tail ->
  exists s' rest, receive pieces (PayloadDecoder.chunked, src) = (s', Ok (concat msgs, Some rest)) /\
    buf_bytes s'.2 ++ concat rest = tail.
Proof.
  intros Hne Hb Hs Hlen Hp He Hc. destruct (encode_body_spec msgs buf Hne) as (s0 & Es & Hout).
  { rewrite Hb. change (len (@nil Z)) with 0. lia. }
  rewrite He in Es. injection Es as <-. rewrite Hout, Hb in Hc. cbn [app] in Hc. rewrite <- (assoc_L (++)) in Hc.
  pose proof (len_nonneg msgs).
  destruct (receive_spec pieces Size 0 src (concat msgs) 0 tail) as (src' & rest & Er & Ht); try done.
  - rewrite Hc. apply feed_encoded; [done|lia].
  - eauto.
Qed.

(** A body with a content length is exactly that long on both sides: the
    encoder writes the first [n] bytes it is given, and reports an error at the
    end exactly when there were fewer; the decoder returns the next [n] bytes of
    the connection, however they arrive, and leaves the rest. *)
Theorem sized_body_exact `{BM : BytesMut B} n msgs (buf src : B) pieces :
  0 <= n -> buf_bytes buf = [] -> buf_bytes src = [] -> len (concat msgs) < 2 ^ 64 ->
  n <= len (concat pieces) < 2 ^ 64 -> pieces <> [] ->
  (exists s, encode_body msgs (TransferEncoding.length n, buf) =
     (s, if n <=? len (concat msgs) then Ok tt else Err (UnexpectedEof String.EmptyString)) /\
   buf_bytes s.2 = take (Z.to_nat n) (concat msgs)) /\
  (exists s rest, receive pieces (PayloadDecoder.length n, src) =
     (s, Ok (take (Z.to_nat n) (concat pieces), Some rest)) /\
   buf_bytes s.2 ++ concat rest = drop (Z.to_nat n) (concat pieces)).
Proof.
  intros Hn Hb Hs Hm Hp Hne. split.
  - destruct (sized_encode msgs n buf Hn) as (s & Es & Ho); [rewrite Hb; change (len (@nil Z)) with 0; lia|].
    exists s. rewrite Hb in Ho. done.
  - destruct (sized_receive pieces n src Hs ltac:(lia) Hne ltac:(lia)) as (src' & rest & Er & Ht). eauto.
Qed.

Definition hex_value (ds : list Z) : Z := fold_left (fun acc d => acc * 16 + d) ds 0.

Lemma feed_digits ds : forall v rest,
  Forall (fun d => 0 <= d < 16) ds ->
  feed Size (as_u64 v) ((hex_digit <$> ds) ++ rest) =
  feed Size (as_u64 (fold_left (fun acc d => acc * 16 + d) ds v)) rest.
Proof.
  induction ds as [|d ds IH]; intros v rest Hds; [done|]. apply Forall_cons in Hds as [Hd Hds].
  rewrite fmap_cons. cbn [app fold_left]. rewrite <- IH by done.
  rewrite (feed_skip Size _ (hex_digit d) Size (as_u64 (v * 16 + d))); [done|done|].
  unfold chunk_byte, hex_digit, ChunkedState.in_range.
  assert (as_u64 (as_u64 (as_u64 v * 16) + d) = as_u64 (v * 16 + d)) as Hw.
  { unfold as_u64, wrapu. rewrite Zplus_mod_idemp_l. rewrite <- (Zplus_mod_idemp_l (v mod 2 ^ 64 * 16)), Zmult_mod_idemp_l, Zplus_mod_idemp_l. done. }
  destruct (Z.ltb_spec d 10).
  - rewrite (proj2 (Z.leb_le 48 _)), (proj2 (Z.leb_le _ 57)) by lia. cbn [andb].
    by replace (48 + d - 48) with d by lia; rewrite Hw.
  - rewrite (proj2 (Z.leb_le 48 _)), (proj2 (Z.leb_gt _ 57)), (proj2 (Z.leb_gt 97 _)), (proj2 (Z.leb_le 65 _)),
      (proj2 (Z.leb_le _ 70)) by lia. cbn [andb]. by replace (55 + d + 10 - 65) with d by lia; rewrite Hw.
Qed.

(** The chunk size is read modulo [2^64] without an overflow check: a size
    line that announces [k * 2^64 + n] bytes is taken for a chunk of [n] bytes,
    and the bytes behind those are taken for the next chunk. *)
Theorem chunk_size_wraps `{BM : BytesMut B} ds k m (src : B) :
  Forall (fun d => 0 <= d < 16) ds -> hex_value ds = k * 2 ^ 64 + len m -> m <> [] ->
  len m < 2 ^ 63 -> len ds < 2 ^ 62 -> buf_bytes src = [] ->
  exists s, receive [(hex_digit <$> ds) ++ [CR; LF] ++ m ++ [CR; LF] ++ last_chunk] (PayloadDecoder.chunked, src) =
    (s, Ok (m, Some [])).
Proof.
  intros Hds Hv Hm Hl Hlds Hs. pose proof (len_nonneg m). pose proof (len_nonneg ds).
  assert (0 < len m) as Hpos by (destruct m; [done|]; rewrite len_cons in *; pose proof (len_nonneg m); lia).
  set (p := (hex_digit <$> ds) ++ [CR; LF] ++ m ++ [CR; LF] ++ last_chunk).
  assert (feed Size 0 p = Some (End, 0, m, [])) as Hf.
  { subst p. change 0 with (as_u64 0) at 1. rewrite feed_digits by done. fold (hex_value ds). rewrite Hv.
    assert (as_u64 (k * 2 ^ 64 + len m) = len m) as ->.
    { unfold as_u64, wrapu. rewrite Z.add_comm, Z.mod_add by lia. apply Z.mod_small. lia. }
    cbn [app]. rewrite (feed_skip Size _ CR SizeLf (len m)) by done.
    rewrite (feed_skip SizeLf _ LF Body (len m)) by (try done; unfold chunk_byte; by rewrite (proj2 (Z.ltb_lt _ _))).
    rewrite feed_body by (done || lia). rewrite Z.sub_diag. cbn [Z.ltb Z.compare].
    rewrite (feed_skip BodyCr 0 CR BodyLf 0), (feed_skip BodyLf 0 LF Size 0) by done.
    pose proof (feed_encoded [] [] ltac:(constructor) ltac:(done)) as E. cbn [mbind list_bind app] in E.
    rewrite app_nil_r in E. rewrite E. cbn [prepend mbind option_bind concat]. by rewrite app_nil_r. }
  destruct (receive_spec [p] Size 0 src m 0 []) as (src' & rest & Er & Ht); try done.
  - cbn [concat]. by rewrite app_nil_r.
  - cbn [concat]. rewrite app_nil_r. subst p. rewrite !len_app. unfold len in *. rewrite length_fmap. simpl. lia.
  - exists (MkPayloadDecoder (KChunked End 0), src').
    assert (rest = []) as ->; [|exact Er]. revert Er. cbn [receive]. unfold mret, SE_ret, mbind, SE_bind, modify, gets. cbn [fst snd].
    destruct (drain _ _) as [s0 [[o []]|e|]]; intros Er; by simplify_eq.
Qed.

(** ** Instances *)

Definition sample_msgs : list (list Z) := [[72; 105]; [33]].
Definition sample_encoded := encode_body sample_msgs (TransferEncoding.chunked, ([] : list Z)).

Lemma chunked_roundtrip_witness :
  exists s' rest, receive [[50; 13]; [10; 72]; [105; 13; 10; 49; 13; 10; 33; 13; 10; 48]; [13; 10; 13; 10; 71]; [69]]
    (PayloadDecoder.chunked, ([] : list Z)) = (s', Ok ([72; 105; 33], Some rest)) /\
    buf_bytes s'.2 ++ concat rest = [71; 69].
Proof.
  refine (chunked_roundtrip sample_msgs ([] : list Z) sample_encoded.1 _ [71; 69] ([] : list Z) _ _ _ _ _ _ _).
  - repeat constructor; congruence.
  - reflexivity.
  - reflexivity.
  - vm_compute. reflexivity.
  - vm_compute. reflexivity.
  - vm_compute. reflexivity.
  - vm_compute. reflexivity.
Defined.

Lemma sized_body_exact_witness :
  exists s rest, receive [[72]; [105; 71]; [69]] (PayloadDecoder.length 2, ([] : list Z)) =
     (s, Ok ([72; 105], Some rest)) /\ buf_bytes s.2 ++ concat rest = [71; 69].
Proof.
  refine (proj2 (sized_body_exact 2 [[72; 105]] ([] : list Z) ([] : list Z) [[72]; [105; 71]; [69]] _ _ _ _ _ _)).
  - lia.
  - reflexivity.
  - reflexivity.
  - vm_compute. reflexivity.
  - vm_compute. split; congruence.
  - congruence.
Defined.

(** The size line [10000000000000001]. *)
Lemma chunk_size_wraps_witness :
  exists s, receive [[49; 48; 48; 48; 48; 48; 48; 48; 48; 48; 48; 48; 48; 48; 48; 48; 49; 13; 10; 88; 13; 10; 48; 13; 10; 13; 10]]
    (PayloadDecoder.chunked, ([] : list Z)) = (s, Ok ([88], Some [])).
Proof.
  refine (chunk_size_wraps (1 :: replicate 15 0 ++ [1]) 1 [88] ([] : list Z) _ _ _ _ _ _).
  - apply (bool_decide_unpack _). vm_compute. exact I.
  - vm_compute. reflexivity.
  - congruence.
  - vm_compute. reflexivity.
  - vm_compute. reflexivity.
  - reflexivity.
Defined.
