(* ===== verification/H1Head.v ===== *)
(** * HTTP/1 message heads ([http/helpers.rs], [http/h1/encoder.rs])

    The status line and the [content-length] line, printed through a table of
    digit pairs into a scratch array, and header names in camel case.  The
    scratch array of [convert_usize] starts uninitialised: its contents are an
    argument.  A raw pointer access outside the array is a [Panic].

    The second part shows what is printed. *)

From Stdlib Require Import Ascii String.
From S2P Require Import Prelude Bytes.

Definition bytes_of (s : string) : list Z :=
  (fun c => Z.of_N (N_of_ascii c)) <$> list_ascii_of_string s.

(** [http/helpers.rs] DEC_DIGITS_LUT *)
Definition DEC_DIGITS_LUT : list Z := bytes_of
  ("0001020304050607080910111213141516171819" ++
   "2021222324252627282930313233343536373839" ++
   "4041424344454647484950515253545556575859" ++
   "6061626364656667686970717273747576777879" ++
   "8081828384858687888990919293949596979899")%string.

(** [ptr::copy_nonoverlapping(lut.offset(d), buf.offset(curr), 2)] and
    [*buf.offset(curr) = x] *)
Definition copy_pair {E} (d curr : Z) (buf : list Z) : outcome E (list Z) :=
  pair ← slice DEC_DIGITS_LUT d 2;
  pre ← slice_to buf curr;
  post ← slice_from buf (curr + 2);
  Ok (pre ++ pair ++ post).
Definition store {E} (x curr : Z) (buf : list Z) : outcome E (list Z) :=
  pre ← slice_to buf curr;
  post ← slice_from buf (curr + 1);
  Ok (pre ++ [x] ++ post).

(** [http::Version] *)
Inductive Version := HTTP_09 | HTTP_10 | HTTP_11 | HTTP_2 | HTTP_3.

(** [http/helpers.rs] write_status_line *)
Definition write_status_line {E} `{BufMut D} (version : Version) (n : Z) (bytes : D) : outcome E D :=
  let buf := bytes_of "HTTP/1.1     " in
  let buf :=
    match version with
    | HTTP_2 => <[5%nat := 50]> buf
    | HTTP_10 => <[7%nat := 48]> buf
    | HTTP_09 => <[7%nat := 57]> (<[5%nat := 48]> buf)
    | _ => buf
    end in
  let curr := 12 in
  let four := 999 <? n in
  let d1 := Z.shiftl (n mod 100) 1 in
  let n := n / 100 in
  let curr := curr - 2 in
  buf ← copy_pair d1 curr buf;
  buf ← (if n <? 10 then store (as_u8 n + 48) (curr - 1) buf
         else copy_pair (Z.shiftl n 1) (curr - 2) buf);
  let bytes := put_slice bytes buf in
  Ok (if four then put_u8 bytes 32 else bytes).

(** The [while n >= 10_000] loop of [convert_usize]; a 64-bit number has at most
    five groups of four digits. *)
Fixpoint convert_loop {E} (fuel : nat) (n curr : Z) (buf : list Z) : outcome E (Z * Z * list Z) :=
  match fuel with
  | O => Panic
  | S fuel =>
      if 10000 <=? n then
        let rem := n mod 10000 in
        let n := n / 10000 in
        let d1 := Z.shiftl (rem / 100) 1 in
        let d2 := Z.shiftl (rem mod 100) 1 in
        let curr := curr - 4 in
        buf ← copy_pair d1 curr buf;
        buf ← copy_pair d2 (curr + 2) buf;
        convert_loop fuel n curr buf
      else Ok (n, curr, buf)
  end.

(** [http/helpers.rs] convert_usize *)
Definition convert_usize {E} `{BufMut D} (uninit : list Z) (n : Z) (bytes : D) : outcome E D :=
  let curr := 39 in
  let buf := <[40%nat := 10]> (<[39%nat := 13]> uninit) in
  '(n, curr, buf) ← convert_loop 6 n curr buf;
  '(n, curr, buf) ←
    (if 100 <=? n then
       let d1 := Z.shiftl (n mod 100) 1 in
       buf ← copy_pair d1 (curr - 2) buf;
       Ok (n / 100, curr - 2, buf)
     else Ok (n, curr, buf));
  '(curr, buf) ←
    (if n <? 10 then
       buf ← store (as_u8 n + 48) (curr - 1) buf; Ok (curr - 1, buf)
     else
       buf ← copy_pair (Z.shiftl n 1) (curr - 2) buf; Ok (curr - 2, buf));
  s ← slice buf curr (41 - curr);
  Ok (put_slice bytes s).

Definition CONTENT_LENGTH_PREFIX : list Z := [13; 10] ++ bytes_of "content-length: ".

(** [http/helpers.rs] write_content_length *)
Definition write_content_length {E} `{BufMut D} (uninit : list Z) (n : Z) (bytes : D) : outcome E D :=
  if n <? 10 then
    let buf := CONTENT_LENGTH_PREFIX ++ [48; 13; 10] in
    Ok (put_slice bytes (<[18%nat := as_u8 n + 48]> buf))
  else if n <? 100 then
    let buf := CONTENT_LENGTH_PREFIX ++ [48; 48; 13; 10] in
    buf ← copy_pair (Z.shiftl n 1) 18 buf;
    Ok (put_slice bytes buf)
  else if n <? 1000 then
    let buf := CONTENT_LENGTH_PREFIX ++ [48; 48; 48; 13; 10] in
    let d1 := Z.shiftl (n mod 100) 1 in
    let n := n / 100 in
    buf ← copy_pair d1 19 buf;
    Ok (put_slice bytes (<[18%nat := as_u8 n + 48]> buf))
  else
    let bytes := put_slice bytes CONTENT_LENGTH_PREFIX in
    convert_usize uninit n bytes.

(** ** Camel case *)

Definition is_lower (c : Z) : bool := (97 <=? c) && (c <=? 122).

(** [buffer[index] = x] *)
Definition set_index {E} (buffer : list Z) (index : nat) (x : Z) : outcome E (list Z) :=
  if (index <? length buffer)%nat then Ok (<[index := x]> buffer) else Panic.

(** The [while let Some(c) = key_iter.next()] loop. *)
Fixpoint camel_loop {E} (key : list Z) (index : nat) (buffer : list Z) : outcome E (list Z) :=
  match key with
  | [] => Ok buffer
  | c :: key =>
      buffer ← set_index buffer index c;
      let index := S index in
      if c =? 45 then
        match key with
        | [] => Ok buffer
        | c :: key =>
            if is_lower c then
              buffer ← set_index buffer index (Z.lxor c 32);
              camel_loop key (S index) buffer
            else camel_loop key index buffer
        end
      else camel_loop key index buffer
  end.

(** [http/h1/encoder.rs] write_camel_case *)
Definition write_camel_case {E} (value buffer : list Z) : outcome E (list Z) :=
  match value with
  | [] => Ok buffer
  | c :: key =>
      if is_lower c then
        buffer ← set_index buffer 0 (Z.lxor c 32);
        camel_loop key 1 buffer
      else camel_loop key 0 buffer
  end.

(** ** Decimal numbers *)

Fixpoint dec_fuel (fuel : nat) (n : Z) : list Z :=
  match fuel with
  | O => []
  | S fuel => (if n <? 10 then [] else dec_fuel fuel (n / 10)) ++ [48 + n mod 10]
  end.

(** The decimal digits of a [u64]. *)
Definition decimal (n : Z) : list Z := dec_fuel 20 n.

Lemma dec_fuel_S fuel n :
  dec_fuel (S fuel) n = (if n <? 10 then [] else dec_fuel fuel (n / 10)) ++ [48 + n mod 10].
Proof. done. Qed.

Lemma dec_fuel_enough f1 : forall f2 n,
  0 <= n < 10 ^ Z.of_nat f1 -> 0 <= n < 10 ^ Z.of_nat f2 -> (0 < f1)%nat -> (0 < f2)%nat ->
  dec_fuel f1 n = dec_fuel f2 n.
Proof.
  induction f1 as [|f1 IH]; intros [|f2] n H1 H2 P1 P2; try lia. cbn [dec_fuel]. f_equal.
  destruct (Z.ltb_spec n 10); [done|]. rewrite Nat2Z.inj_succ, Z.pow_succ_r in H1, H2 by lia.
  assert (f1 <> 0%nat /\ f2 <> 0%nat) as [] by (split; intros ->; simpl in *; lia).
  apply IH; try lia; (split; [apply Z.div_pos; lia|apply Z.div_lt_upper_bound; lia]).
Qed.

Lemma decimal_small n : 0 <= n < 10 -> decimal n = [48 + n].
Proof.
  intros Hn. unfold decimal. rewrite dec_fuel_S, (proj2 (Z.ltb_lt _ _)) by lia. cbn [app].
  by rewrite Z.mod_small by lia.
Qed.

Lemma decimal_snoc n : 10 <= n < 2 ^ 64 -> decimal n = decimal (n / 10) ++ [48 + n mod 10].
Proof.
  intros Hn. unfold decimal. rewrite (dec_fuel_S 19 n), (proj2 (Z.ltb_ge _ _)) by lia.
  apply (f_equal (fun l => l ++ _)).
  apply (dec_fuel_enough 19 20); try lia;
    (split; [apply Z.div_pos; lia|apply Z.div_lt_upper_bound; lia]).
Qed.

(** Digit pairs. *)
Definition pair_digits (d : Z) : list Z := [48 + d / 10; 48 + d mod 10].

Lemma lut_pair {E} d : 0 <= d < 100 -> slice DEC_DIGITS_LUT (Z.shiftl d 1) 2 = (Ok (pair_digits d) : outcome E _).
Proof.
  intros Hd.
  assert (forallb (fun i => match slice (E:=()) DEC_DIGITS_LUT (Z.shiftl (Z.of_nat i) 1) 2 with
    | Ok p => bool_decide (p = pair_digits (Z.of_nat i)) | _ => false end) (seq 0 100) = true) as H by (vm_compute; reflexivity).
  rewrite forallb_forall in H. specialize (H (Z.to_nat d)). rewrite Z2Nat.id in H by lia.
  unfold slice in *. assert (In (Z.to_nat d) (seq 0 100)) as Hin by (apply in_seq; lia). specialize (H Hin).
  unfold slice_from, slice_to in *. destruct (_ && _); cbn [mbind outcome_bind] in *; [|done].
  destruct (_ && _); [|done]. apply bool_decide_eq_true in H. by rewrite H.
Qed.

(** * HTTP/1 message heads: the printed numbers and names

    The digit-pair printers write the decimal number, whatever the scratch
    array held; camel case is right for names whose parts start with a letter. *)

(** ** Decimal numbers by pairs *)

Lemma decimal_pair n : 10 <= n < 100 -> decimal n = pair_digits n.
Proof.
  intros Hn. rewrite decimal_snoc, decimal_small by (Z.to_euclidean_division_equations; lia). done.
Qed.

Lemma decimal_2 n : 100 <= n < 2 ^ 64 -> decimal n = decimal (n / 100) ++ pair_digits (n mod 100).
Proof.
  intros Hn. rewrite decimal_snoc, (decimal_snoc (n / 10)) by (Z.to_euclidean_division_equations; lia).
  rewrite <- (assoc_L (++)). rewrite Z.div_div by lia. unfold pair_digits.
  assert (n / 10 mod 10 = n mod 100 / 10) as -> by (Z.to_euclidean_division_equations; lia).
  assert (n mod 10 = n mod 100 mod 10) as -> by (Z.to_euclidean_division_equations; lia). done.
Qed.

Lemma decimal_4 n : 10000 <= n < 2 ^ 64 ->
  decimal n = decimal (n / 10000) ++ pair_digits (n mod 10000 / 100) ++ pair_digits (n mod 10000 mod 100).
Proof.
  intros Hn. rewrite decimal_2, (decimal_2 (n / 100)) by (Z.to_euclidean_division_equations; lia).
  rewrite <- (assoc_L (++)), Z.div_div by lia.
  assert (n / 100 mod 100 = n mod 10000 / 100) as -> by (Z.to_euclidean_division_equations; lia).
  assert (n mod 100 = n mod 10000 mod 100) as -> by (Z.to_euclidean_division_equations; lia). done.
Qed.

(** ** The scratch array *)

Lemma copy_pair_spec {E} d curr pre two post :
  0 <= d < 100 -> curr = len pre -> len two = 2 ->
  copy_pair (Z.shiftl d 1) curr (pre ++ two ++ post) = (Ok (pre ++ pair_digits d ++ post) : outcome E _).
Proof.
  intros Hd -> Ht. unfold copy_pair. rewrite lut_pair by done. cbn [mbind outcome_bind].
  rewrite slice_to_app by done. cbn [mbind outcome_bind].
  rewrite (assoc_L (++)), slice_from_app by (rewrite len_app; lia). done.
Qed.

Lemma store_spec {E} x curr pre y post :
  curr = len pre -> store x curr (pre ++ [y] ++ post) = (Ok (pre ++ [x] ++ post) : outcome E _).
Proof.
  intros ->. unfold store. rewrite slice_to_app by done. cbn [mbind outcome_bind].
  by rewrite (assoc_L (++)), slice_from_app by (rewrite len_app; done).
Qed.

(** The array from [curr] on holds the end of the number. *)
Definition holds (N n curr : Z) (buf : list Z) : Prop :=
  len buf = 41 /\
  exists pre suf, buf = pre ++ suf /\ len pre = curr /\ decimal N ++ [13; 10] = decimal n ++ suf.

Lemma split_last (l : list Z) k : 0 <= k <= len l -> exists l1 l2, l = l1 ++ l2 /\ len l1 = len l - k /\ len l2 = k.
Proof.
  intros Hk. exists (take (Z.to_nat (len l - k)) l), (drop (Z.to_nat (len l - k)) l).
  rewrite take_drop. unfold len in *. rewrite length_take, length_drop. split_and!; [done|lia|lia].
Qed.

(** Writing a pair in front. *)
Lemma holds_pair {E} N n n' d curr buf :
  holds N n curr buf -> 2 <= curr -> 0 <= d < 100 -> decimal n = decimal n' ++ pair_digits d ->
  exists buf', copy_pair (Z.shiftl d 1) (curr - 2) buf = (Ok buf' : outcome E _) /\ holds N n' (curr - 2) buf'.
Proof.
  intros (Hl & pre & suf & -> & Hp & Hn) Hc Hd Hdec.
  destruct (split_last pre 2 ltac:(lia)) as (p1 & p2 & -> & H1 & H2). exists (p1 ++ pair_digits d ++ suf).
  rewrite <- (assoc_L (++)), copy_pair_spec by lia. split; [done|].
  split; [rewrite !len_app in *; change (len (pair_digits d)) with 2; lia|]. exists p1, (pair_digits d ++ suf). split_and!; [done|lia|]. by rewrite Hn, Hdec, <- (assoc_L (++)).
Qed.

Lemma convert_loop_spec {E} fuel : forall N n curr buf,
  0 <= n < 10 ^ Z.of_nat (4 * fuel) -> n < 2 ^ 64 -> holds N n curr buf -> 4 * Z.of_nat fuel <= curr ->
  (0 < fuel)%nat ->
  exists n' curr' buf', convert_loop fuel n curr buf = (Ok (n', curr', buf') : outcome E _) /\
    0 <= n' < 10000 /\ holds N n' curr' buf' /\ curr - 4 * Z.of_nat (fuel - 1) <= curr'.
Proof.
  induction fuel as [|fuel IH]; intros N n curr buf Hn H64 Hb Hc Hf; [lia|]. cbn [convert_loop].
  destruct (Z.leb_spec 10000 n) as [Hge|Hlt]; [|exists n, curr, buf; split_and!; done || lia].
  replace (Z.of_nat (4 * S fuel)) with (Z.of_nat (4 * fuel) + 4) in Hn by lia. rewrite Z.pow_add_r in Hn by lia.
  change (10 ^ 4) with 10000 in Hn. pose proof (decimal_4 n ltac:(lia)) as H4.
  assert (0 < n / 10000) as Hq by (Z.to_euclidean_division_equations; lia).
  assert (fuel <> 0%nat) as Hf0 by (intros ->; simpl in Hn; lia).
  set (m := n / 10000) in *. set (d1 := n mod 10000 / 100) in *. set (d2 := n mod 10000 mod 100) in *.
  assert (0 <= d1 < 100 /\ 0 <= d2 < 100) as [Hd1 Hd2] by (subst d1 d2; Z.to_euclidean_division_equations; lia).
  destruct Hb as (Hl & pre & suf & -> & Hp & Hdec).
  destruct (split_last pre 4 ltac:(lia)) as (p1 & p2 & -> & L1 & L2).
  destruct p2 as [|x0 [|x1 [|x2 [|x3 [|]]]]]; try (unfold len in L2; simpl in L2; lia).
  rewrite <- (assoc_L (++)). change ([x0; x1; x2; x3] ++ suf) with ([x0; x1] ++ [x2; x3] ++ suf).
  rewrite copy_pair_spec by (done || lia). cbn [mbind outcome_bind]. rewrite (assoc_L (++)).
  rewrite (copy_pair_spec d2 _ (p1 ++ pair_digits d1)); [|done|rewrite len_app; change (len (pair_digits d1)) with 2; lia|done].
  cbn [mbind outcome_bind].
  destruct (IH N m (curr - 4) ((p1 ++ pair_digits d1) ++ pair_digits d2 ++ suf)) as (n' & curr' & buf' & E1 & Hn' & Hb' & Hc').
  - subst m. split; [lia|]. apply Z.div_lt_upper_bound; lia.
  - subst m. apply Z.div_lt_upper_bound; lia.
  - split; [rewrite !len_app in *; change (len (pair_digits d1)) with 2; change (len (pair_digits d2)) with 2; lia|].
    exists p1, (pair_digits d1 ++ pair_digits d2 ++ suf). rewrite <- (assoc_L (++)). split_and!; [done|lia|].
    by rewrite Hdec, H4, <- !(assoc_L (++)).
  - lia.
  - lia.
  - exists n', curr', buf'. split_and!; [done|lia..|done|lia].
Qed.

(** The last one or two digits. *)
Lemma holds_end {E} N n curr buf :
  0 <= n < 100 -> holds N n curr buf -> 2 <= curr -> N <= 2 ^ 64 ->
  exists curr' buf', (if n <? 10 then buf ← store (as_u8 n + 48) (curr - 1) buf; Ok (curr - 1, buf)
      else buf ← copy_pair (Z.shiftl n 1) (curr - 2) buf; Ok (curr - 2, buf)) = (Ok (curr', buf') : outcome E _) /\
    exists pre, buf' = pre ++ decimal N ++ [13; 10] /\ len pre = curr' /\ len buf' = 41.
Proof.
  intros Hn Hb Hc HN. destruct (Z.ltb_spec n 10) as [Hlt|Hge].
  - destruct Hb as (Hl & pre & suf & -> & Hp & Hdec).
    destruct (split_last pre 1 ltac:(lia)) as (p1 & p2 & -> & L1 & L2).
    destruct p2 as [|x0 [|]]; try (unfold len in L2; simpl in L2; lia).
    rewrite <- (assoc_L (++)), store_spec by lia. cbn [mbind outcome_bind].
    do 2 eexists. split; [done|]. exists p1.
    split_and!; [|lia|rewrite !len_app in *; change (len [as_u8 n + 48]) with 1; lia].
    rewrite Hdec, decimal_small by lia. do 2 f_equal. unfold as_u8. rewrite wrapu_id by int_lia. f_equal. lia.
  - destruct Hb as (Hl & pre & suf & -> & Hp & Hdec).
    destruct (split_last pre 2 ltac:(lia)) as (p1 & p2 & -> & L1 & L2).
    rewrite <- (assoc_L (++)), copy_pair_spec by lia. cbn [mbind outcome_bind].
    do 2 eexists. split; [done|]. exists p1.
    split_and!; [|lia|rewrite !len_app in *; change (len (pair_digits n)) with 2; lia].
    by rewrite Hdec, decimal_pair by lia.
Qed.

Lemma convert_usize_spec {E} `{BufMut D} uninit n (bytes : D) :
  length uninit = 41%nat -> is_usize n ->
  convert_usize uninit n bytes = (Ok (put_slice bytes (decimal n ++ [13; 10])) : outcome E D).
Proof.
  intros Hu Hn. unfold convert_usize. unfold in_u in Hn.
  assert (holds n n 39 (<[40%nat := 10]> (<[39%nat := 13]> uninit))) as H0.
  { split; [unfold len; rewrite !length_insert; lia|]. exists (take 39 uninit), [13; 10]. split_and!; [|unfold len; rewrite length_take; lia|done].
    rewrite <- (take_drop 39 uninit) at 1. rewrite (insert_app_r_alt _ _ 39), (insert_app_r_alt _ _ 40) by (rewrite length_take; lia).
    rewrite length_take, Nat.min_l by lia. change (39 - 39)%nat with 0%nat. change (40 - 39)%nat with 1%nat. f_equal.
    assert (length (drop 39 uninit) = 2%nat) as L2 by (rewrite length_drop; lia).
    by destruct (drop 39 uninit) as [|x [|y [|]]]. }
  destruct (convert_loop_spec (E:=E) 6 n n 39 _ ltac:(simpl; lia) ltac:(lia) H0 ltac:(lia) ltac:(lia))
    as (n1 & c1 & b1 & -> & Hn1 & Hb1 & Hc1).
  cbn [mbind outcome_bind].
  assert (exists n2 c2 b2, (if 100 <=? n1 then buf ← copy_pair (Z.shiftl (n1 mod 100) 1) (c1 - 2) b1; Ok (n1 / 100, c1 - 2, buf)
    else Ok (n1, c1, b1)) = (Ok (n2, c2, b2) : outcome E _) /\ 0 <= n2 < 100 /\ holds n n2 c2 b2 /\ 2 <= c2)
    as (n2 & c2 & b2 & -> & Hn2 & Hb2 & Hc2).
  { destruct (Z.leb_spec 100 n1); [|exists n1, c1, b1; split_and!; done || lia].
    destruct (holds_pair (E:=E) n n1 (n1 / 100) (n1 mod 100) c1 b1 Hb1) as (b2 & -> & Hb2);
      [lia|apply Z.mod_pos_bound; lia|apply decimal_2; lia|].
    do 3 eexists. split; [done|]. split_and!; [apply Z.div_pos; lia|apply Z.div_lt_upper_bound; lia|done|lia]. }
  cbn [mbind outcome_bind].
  destruct (holds_end (E:=E) n n2 c2 b2 Hn2 Hb2 Hc2 ltac:(lia)) as (c3 & b3 & -> & pre & -> & Hp & Hl).
  cbn [mbind outcome_bind]. unfold slice. rewrite slice_from_app by done. cbn [mbind outcome_bind].
  rewrite len_app in Hl. pose proof (len_nonneg (decimal n ++ [13; 10])). rewrite slice_to_Ok by lia. cbn [mbind outcome_bind].
  rewrite take_ge; [done|]. unfold len in *. lia.
Qed.

Lemma content_length_line {E} `{BufMut D} uninit n (bytes : D) :
  length uninit = 41%nat -> is_usize n ->
  (n < 1000 -> write_content_length uninit n bytes =
    (Ok (put_slice bytes (CONTENT_LENGTH_PREFIX ++ decimal n ++ [13; 10])) : outcome E D)) /\
  (1000 <= n -> write_content_length uninit n bytes =
    (Ok (put_slice (put_slice bytes CONTENT_LENGTH_PREFIX) (decimal n ++ [13; 10])) : outcome E D)).
Proof.
  intros Hu Hn. unfold write_content_length. unfold in_u in Hn.
  assert (len CONTENT_LENGTH_PREFIX = 18) as Lp by (vm_compute; reflexivity).
  assert (length CONTENT_LENGTH_PREFIX = 18%nat) as Lp' by (unfold len in Lp; lia). split; intros H1000.
  - destruct (Z.ltb_spec n 10).
    { do 2 f_equal. rewrite insert_app_r_alt by lia. rewrite Lp', decimal_small by lia.
      assert (as_u8 n + 48 = 48 + n) as -> by int_lia. reflexivity. }
    destruct (Z.ltb_spec n 100).
    { rewrite (copy_pair_spec n 18 CONTENT_LENGTH_PREFIX [48; 48] [13; 10]) by (done || lia). cbn [mbind outcome_bind].
      by rewrite decimal_pair by lia. }
    rewrite (proj2 (Z.ltb_lt _ _)) by lia.
    change (CONTENT_LENGTH_PREFIX ++ [48; 48; 48; 13; 10]) with ((CONTENT_LENGTH_PREFIX ++ [48]) ++ [48; 48] ++ [13; 10]).
    rewrite copy_pair_spec by (try done; apply Z.mod_pos_bound; lia). cbn [mbind outcome_bind]. do 2 f_equal.
    rewrite <- (assoc_L (++)), insert_app_r_alt by lia. rewrite Lp', decimal_2, decimal_small
      by (Z.to_euclidean_division_equations; lia).
    assert (as_u8 (n / 100) + 48 = 48 + n / 100) as -> by int_lia. reflexivity.
  - rewrite !(proj2 (Z.ltb_ge _ _)) by lia. by apply convert_usize_spec.
Qed.

Definition version_bytes (v : Version) : list Z :=
  match v with
  | HTTP_09 => bytes_of "HTTP/0.9" | HTTP_10 => bytes_of "HTTP/1.0" | HTTP_2 => bytes_of "HTTP/2.1"
  | HTTP_11 | HTTP_3 => bytes_of "HTTP/1.1"
  end.

Lemma status_line_spec {E} `{BufMut D} v n (bytes : D) :
  100 <= n < 1000 ->
  write_status_line v n bytes = (Ok (put_slice bytes (version_bytes v ++ [32] ++ decimal n ++ [32])) : outcome E D).
Proof.
  intros Hn. unfold write_status_line. rewrite (proj2 (Z.ltb_ge 999 n)) by lia.
  set (buf := match v with HTTP_2 => _ | _ => _ end).
  assert (buf = (version_bytes v ++ [32; 32]) ++ [32; 32] ++ [32]) as -> by (subst buf; by destruct v).
  assert (len (version_bytes v) = 8) as L8 by (by destruct v).
  rewrite copy_pair_spec; [|apply Z.mod_pos_bound; lia|rewrite len_app, L8; done|done]. cbn [mbind outcome_bind].
  rewrite (proj2 (Z.ltb_lt _ _)) by (Z.to_euclidean_division_equations; lia).
  change (version_bytes v ++ [32; 32]) with (version_bytes v ++ [32] ++ [32]).
  rewrite (assoc_L (++) (version_bytes v)), <- (assoc_L (++) (version_bytes v ++ [32])).
  rewrite store_spec by (rewrite len_app, L8; done). cbn [mbind outcome_bind].
  rewrite decimal_2, decimal_small by (Z.to_euclidean_division_equations; lia).
  assert (as_u8 (n / 100) + 48 = 48 + n / 100) as -> by int_lia. by rewrite <- !(assoc_L (++)).
Qed.

(** ** Camel case *)

(** Upper case for the first letter of every part. *)
Fixpoint camel (first : bool) (name : list Z) : list Z :=
  match name with
  | [] => []
  | c :: name => (if first then Z.lxor c 32 else c) :: camel (c =? 45) name
  end.

(** Every part of the name starts with a lower-case letter. *)
Fixpoint parts_ok (first : bool) (name : list Z) : bool :=
  match name with
  | [] => true
  | c :: name => (negb first || is_lower c) && parts_ok (c =? 45) name
  end.

Lemma camel_length name : forall first, length (camel first name) = length name.
Proof. induction name as [|c name IH]; intros first; simpl; auto. Qed.

Lemma lower_not_dash c : is_lower c = true -> (c =? 45) = false.
Proof. unfold is_lower. intros [H1%Z.leb_le _]%andb_prop. apply Z.eqb_neq. lia. Qed.

Lemma set_index_app {E} (pre rest : list Z) y x :
  set_index (pre ++ y :: rest) (length pre) x = (Ok ((pre ++ [x]) ++ rest) : outcome E _).
Proof.
  unfold set_index. rewrite (proj2 (Nat.ltb_lt _ _)) by (rewrite length_app; simpl; lia).
  by rewrite insert_app_r_alt, Nat.sub_diag, <- (assoc_L (++)) by lia.
Qed.

Lemma camel_loop_spec {E} n : forall key pre rest,
  (length key <= n)%nat -> parts_ok false key = true -> length rest = length key ->
  camel_loop key (length pre) (pre ++ rest) = (Ok (pre ++ camel false key) : outcome E _).
Proof.
  induction n as [|n IH]; intros [|c key] pre rest Hn Hok Hl; try (simpl in Hn; lia);
    try (by destruct rest).
  destruct rest as [|y rest]; [done|]. cbn [parts_ok negb orb andb] in Hok. cbn [camel_loop camel].
  rewrite set_index_app. cbn [mbind outcome_bind]. simpl in Hn, Hl.
  assert (S (length pre) = length (pre ++ [c])) as HS by (rewrite length_app; simpl; lia).
  destruct (c =? 45) eqn:Ec.
  - destruct key as [|c' key].
    { by destruct rest; [cbn; rewrite app_nil_r|]. }
    destruct rest as [|y' rest]; [done|]. cbn [parts_ok negb orb] in Hok. apply andb_prop in Hok as [Hlow Hok].
    rewrite Hlow, HS, set_index_app. cbn [mbind outcome_bind camel]. rewrite (lower_not_dash _ Hlow) in Hok |- *.
    simpl in Hn, Hl. rewrite <- HS.
    replace (S (S (length pre))) with (length ((pre ++ [c]) ++ [Z.lxor c' 32])) by (rewrite !length_app; simpl; lia).
    rewrite IH by (done || lia). by rewrite <- !(assoc_L (++)).
  - rewrite HS, IH by (done || lia). by rewrite <- (assoc_L (++)).
Qed.

Lemma camel_spec {E} name buffer :
  parts_ok true name = true -> length buffer = length name ->
  write_camel_case name buffer = (Ok (camel true name) : outcome E _).
Proof.
  intros Hok Hl. destruct name as [|c key]; [by destruct buffer|]. destruct buffer as [|y rest]; [done|].
  cbn [parts_ok negb orb] in Hok. apply andb_prop in Hok as [Hlow Hok]. unfold write_camel_case.
  rewrite Hlow. pose proof (set_index_app (E:=E) [] rest y (Z.lxor c 32)) as Hs. cbn [app length] in Hs. rewrite Hs.
  cbn [mbind outcome_bind camel]. rewrite (lower_not_dash _ Hlow) in Hok |- *.
  exact (camel_loop_spec (E:=E) (length key) key [Z.lxor c 32] rest (le_n _) Hok (eq_add_S _ _ Hl)).
Qed.

(** The numbers of a message head are printed in decimal: the
    [content-length] line for every [usize], whatever the uninitialised scratch
    array held, and the status line for every status code. *)
Theorem numbers_printed {E} `{BytesMut D} uninit n v status (bytes : D) :
  length uninit = 41%nat -> is_usize n -> 100 <= status < 1000 -> len (buf_bytes bytes) < 2 ^ 63 ->
  (exists d, write_content_length uninit n bytes = (Ok d : outcome E D) /\
    buf_bytes d = buf_bytes bytes ++ [13; 10] ++ bytes_of "content-length: " ++ decimal n ++ [13; 10]) /\
  (exists d, write_status_line v status bytes = (Ok d : outcome E D) /\
    buf_bytes d = buf_bytes bytes ++ version_bytes v ++ [32] ++ decimal status ++ [32]).
Proof.
  intros Hu Hn Hs Hb.
  assert (forall k, len (decimal k) <= 20) as Hd.
  { intros k. unfold decimal, len. enough (forall f, length (dec_fuel f k) <= f)%nat as Hf by (specialize (Hf 20%nat); lia).
    intros f. revert k. induction f as [|f IH]; intros k; [done|]. rewrite dec_fuel_S, length_app. simpl.
    destruct (k <? 10); [simpl; lia|]. specialize (IH (k / 10)). lia. }
  assert (len CONTENT_LENGTH_PREFIX = 18) as Lp by (vm_compute; reflexivity).
  pose proof (Hd n) as Hdn. pose proof (Hd status) as Hds.
  destruct (content_length_line (E:=E) uninit n bytes Hu Hn) as [H1 H2]. split.
  - destruct (Z.lt_ge_cases n 1000) as [Hlt|Hge]; [rewrite H1 by done|rewrite H2 by done]; eexists; (split; [done|]).
    + rewrite (put_slice_app _ _ (buf_bytes bytes)); [done|done|]. rewrite !len_app, Lp. change (len [13; 10]) with 2. lia.
    + rewrite (put_slice_app _ _ (buf_bytes bytes ++ CONTENT_LENGTH_PREFIX)); [by rewrite <- (assoc_L (++))| |].
      * apply put_slice_app; [done|lia].
      * rewrite !len_app, Lp. change (len [13; 10]) with 2. lia.
  - rewrite status_line_spec by done. eexists. split; [done|]. apply put_slice_app; [done|].
    rewrite !len_app. change (len [32]) with 1. assert (len (version_bytes v) = 8) as -> by (by destruct v). lia.
Qed.

(** A header name whose parts all start with a letter is written in camel
    case, whatever the buffer held. *)
Theorem camel_case_names {E} name buffer :
  parts_ok true name = true -> length buffer = length name ->
  write_camel_case name buffer = (Ok (camel true name) : outcome E _).
Proof. apply camel_spec. Qed.

(** A part that starts with anything but a letter loses that character: the
    name [x-1] is written as [X-] followed by whatever the buffer held. *)
Theorem camel_case_loses_digit {E} a b stale :
  write_camel_case (bytes_of "x-1") [a; b; stale] = (Ok (bytes_of "X-" ++ [stale]) : outcome E _).
Proof. reflexivity. Qed.

Lemma numbers_printed_witness :
  exists d, write_content_length (replicate 41 170) 18446744073709551615 ([] : list Z) = (Ok d : outcome () (list Z)) /\
    d = [13; 10] ++ bytes_of "content-length: 18446744073709551615" ++ [13; 10].
Proof.
  destruct (numbers_printed (E:=()) (replicate 41 170) 18446744073709551615 HTTP_11 200 ([] : list Z))
    as [(d & E1 & E2) _]; [reflexivity|split; vm_compute; congruence|lia|vm_compute; reflexivity|].
  exists d. split; [exact E1|]. refine (eq_trans E2 _). vm_compute. reflexivity.
Defined.

Lemma camel_case_names_witness :
  write_camel_case (bytes_of "content-type") (replicate 12 0) = (Ok (bytes_of "Content-Type") : outcome () _).
Proof.
  refine (eq_trans (camel_case_names (bytes_of "content-type") (replicate 12 0) _ _) _); vm_compute; reflexivity.
Defined.
