(* ===== verification/H1HeaderMap.v ===== *)
(** * The HTTP/1 header map ([http/header/map.rs])

    A multimap from header names to values over a hash map, for any type of
    names with decidable equality.  The hash map is a list of entries with
    distinct keys; the order of the list is the order of its iteration, about
    which nothing is assumed.  The argument of a lookup is the name that [AsName]
    gives: [None] when a string is not a header name.

    The second part shows that it implements a multimap. *)

From S2P Require Import Prelude Bytes.

Section HeaderMap.
Context {K V : Type} `{EqDecision K}.

(** [http/header/map.rs] Value *)
Inductive Value :=
  | One (val : V)
  | Multi (vec : list V).

(** [http/header/map.rs] Value::get *)
Definition Value_get {E} (v : Value) : outcome E V :=
  match v with
  | One val => Ok val
  | Multi vec => index vec 0
  end.

(** [http/header/map.rs] Value::append *)
Definition Value_append (v : Value) (val : V) : Value :=
  match v with
  | One old => (* [self] is now [Multi(vec![val])] *) Multi ([val] ++ [old])
  | Multi vec => Multi (vec ++ [val])
  end.

(** [http/header/map.rs] HeaderMap *)
Record HeaderMap := MkHeaderMap { inner : list (K * Value) }.

Fixpoint find (k : K) (l : list (K * Value)) : option Value :=
  match l with
  | [] => None
  | (k', v) :: l => if decide (k = k') then Some v else find k l
  end.
Fixpoint update (k : K) (v : Value) (l : list (K * Value)) : list (K * Value) :=
  match l with
  | [] => [(k, v)]
  | (k', v') :: l => if decide (k = k') then (k', v) :: l else (k', v') :: update k v l
  end.
Definition remove_key (k : K) (l : list (K * Value)) : list (K * Value) :=
  List.filter (fun e => negb (bool_decide (k = e.1))) l.

(** [http/header/map.rs] HeaderMap::new *)
Definition HeaderMap_new : HeaderMap := MkHeaderMap [].
(** [http/header/map.rs] HeaderMap::len *)
Definition HeaderMap_len (m : HeaderMap) : Z := len (inner m).
(** [http/header/map.rs] HeaderMap::is_empty *)
Definition HeaderMap_is_empty (m : HeaderMap) : bool := len (inner m) =? 0.
(** [http/header/map.rs] HeaderMap::clear *)
Definition HeaderMap_clear (m : HeaderMap) : HeaderMap := MkHeaderMap [].

(** [http/header/map.rs] HeaderMap::get2 *)
Definition get2 (name : option K) (m : HeaderMap) : option Value :=
  name ≫= fun name => find name (inner m).

(** [http/header/map.rs] HeaderMap::get *)
Definition HeaderMap_get {E} (name : option K) (m : HeaderMap) : outcome E (option V) :=
  match get2 name m with
  | Some v => Some <$> Value_get v
  | None => Ok None
  end.

(** [http/header/map.rs] HeaderMap::contains_key *)
Definition contains_key (name : option K) (m : HeaderMap) : bool :=
  match name with
  | Some name => match find name (inner m) with Some _ => true | None => false end
  | None => false
  end.

(** [http/header/map.rs] HeaderMap::insert *)
Definition HeaderMap_insert (key : K) (val : V) (m : HeaderMap) : HeaderMap :=
  MkHeaderMap (update key (One val) (inner m)).

(** [http/header/map.rs] HeaderMap::append *)
Definition HeaderMap_append (key : K) (value : V) (m : HeaderMap) : HeaderMap :=
  match find key (inner m) with
  | Some entry => MkHeaderMap (update key (Value_append entry value) (inner m))
  | None => MkHeaderMap (update key (One value) (inner m))
  end.

(** [http/header/map.rs] HeaderMap::remove *)
Definition HeaderMap_remove (key : option K) (m : HeaderMap) : HeaderMap :=
  match key with
  | Some name => MkHeaderMap (remove_key name (inner m))
  | None => m
  end.

(** ** Iterators *)

(** [http/header/map.rs] GetAll *)
Record GetAll := MkGetAll { ga_idx : Z; ga_item : option Value }.

(** [http/header/map.rs] HeaderMap::get_all *)
Definition get_all (name : option K) (m : HeaderMap) : GetAll := MkGetAll 0 (get2 name m).

(** [http/header/map.rs] GetAll as Iterator::next *)
Definition GetAll_next {E} : SE GetAll E (option V) :=
  g ← get;
  match ga_item g with
  | Some (One val) =>
      _ ← modify (fun g => MkGetAll (ga_idx g) None);
      mret (Some val)
  | Some (Multi vec) =>
      if ga_idx g <? len vec then
        item ← lift (index vec (ga_idx g));
        _ ← modify (fun g => MkGetAll (ga_idx g + 1) (ga_item g));
        mret (Some item)
      else
        _ ← modify (fun g => MkGetAll (ga_idx g) None);
        mret None
  | None => mret None
  end.

(** [http/header/map.rs] Iter *)
Record Iter := MkIter { it_idx : Z; it_current : option (K * list V); it_iter : list (K * Value) }.

(** [http/header/map.rs] Iter::new *)
Definition Iter_new (iter : list (K * Value)) : Iter := MkIter 0 None iter.
(** [http/header/map.rs] HeaderMap::iter *)
Definition HeaderMap_iter (m : HeaderMap) : Iter := Iter_new (inner m).
(** [http/header/map.rs] HeaderMap::keys *)
Definition HeaderMap_keys (m : HeaderMap) : list K := (inner m).*1.

(** [http/header/map.rs] Iter as Iterator::next.  Each call of [self.next()] has
    taken an entry from the hash map. *)
Fixpoint Iter_next_fuel {E} (fuel : nat) : SE Iter E (option (K * V)) :=
  match fuel with
  | O => panic
  | S fuel =>
      let continue :=
        it ← get;
        match it_iter it with
        | (k, One value) :: iter =>
            _ ← modify (fun it => MkIter (it_idx it) (it_current it) iter);
            mret (Some (k, value))
        | (k, Multi vec) :: iter =>
            _ ← modify (fun it => MkIter (it_idx it) (Some (k, vec)) iter);
            Iter_next_fuel fuel
        | [] => mret None
        end in
      it ← get;
      match it_current it with
      | Some (k, vec) =>
          if it_idx it <? len vec then
            item ← lift (index vec (it_idx it));
            _ ← modify (fun it => MkIter (it_idx it + 1) (it_current it) (it_iter it));
            mret (Some (k, item))
          else
            _ ← modify (fun it => MkIter 0 None (it_iter it));
            continue
      | None => continue
      end
  end.
Definition Iter_next {E} : SE Iter E (option (K * V)) := fun it =>
  Iter_next_fuel (S (length (it_iter it))) it.

End HeaderMap.
Arguments Value : clear implicits.
Arguments HeaderMap : clear implicits.
Arguments GetAll : clear implicits.
Arguments Iter : clear implicits.

(** * The HTTP/1 header map implements a multimap

    The abstract state is a function from names to lists of values.  Every
    sequence of mutations is simulated, and all observers, including the two
    iterators run to their end, are functions of the abstract state. *)

(** An iterator yields exactly the values of a list and then [None]. *)
Inductive drains {S E A} (next : SE S E (option A)) : S -> list A -> Prop :=
  | drains_done s s' : next s = (s', Ok None) -> drains next s []
  | drains_more s s' x l :
      next s = (s', Ok (Some x)) -> drains next s' l -> drains next s (x :: l).

Section Refinement.
Context {K V : Type} `{EqDecision K}.
Implicit Types (m : HeaderMap K V) (l : list (K * Value V)) (f : K -> list V).

(** The mutations of the map *)
Inductive Op :=
  | OInsert (k : K) (v : V)
  | OAppend (k : K) (v : V)
  | ORemove (name : option K)
  | OClear.

Definition step_map (m : HeaderMap K V) (o : Op) : HeaderMap K V :=
  match o with
  | OInsert k v => HeaderMap_insert k v m
  | OAppend k v => HeaderMap_append k v m
  | ORemove name => HeaderMap_remove name m
  | OClear => HeaderMap_clear m
  end.

(** The same mutations of a multimap, as the comments of the map describe them: a new
    value goes to the end. *)
Definition update_at (k : K) (vs : list V) (f : K -> list V) : K -> list V := fun k' =>
  if decide (k' = k) then vs else f k'.
Definition step_spec (f : K -> list V) (o : Op) : K -> list V :=
  match o with
  | OInsert k v => update_at k [v] f
  | OAppend k v => update_at k (f k ++ [v]) f
  | ORemove (Some k) => update_at k [] f
  | ORemove None => f
  | OClear => fun _ => []
  end.

Definition Value_list (v : Value V) : list V :=
  match v with One x => [x] | Multi xs => xs end.
Definition Value_ok (v : Value V) : Prop :=
  match v with One _ => True | Multi xs => (2 <= length xs)%nat end.

(** The order in which the map keeps the values of a name: [Value::append] puts the second
    value in front of the first one, against the comment of [HeaderMap::append]. *)
Definition kept_order (vs : list V) : list V :=
  match vs with v1 :: v2 :: rest => v2 :: v1 :: rest | _ => vs end.

(** Names are distinct, several values are several, and the map stands for [f]. *)
Record models (m : HeaderMap K V) (f : K -> list V) : Prop := {
  md_keys : NoDup (inner m).*1;
  md_ok : Forall (fun e => Value_ok e.2) (inner m);
  md_find k : kept_order (f k) = default [] (Value_list <$> find k (inner m))
}.

Lemma find_update k k' v l :
  find k' (update k v l) = if decide (k' = k) then Some v else find k' l.
Proof.
  induction l as [|[k0 v0] l IH]; simpl; [by case_decide|].
  destruct (decide (k = k0)) as [->|]; simpl.
  - destruct (decide (k' = k0)); done.
  - rewrite IH. repeat case_decide; by subst.
Qed.

Lemma find_remove k k' l :
  find k' (remove_key k l) = if decide (k' = k) then None else find k' l.
Proof.
  unfold remove_key. induction l as [|[k0 v0] l IH]; simpl; [by case_decide|].
  destruct (decide (k = k0)) as [->|Hk].
  - rewrite bool_decide_true by done. simpl. rewrite IH. by repeat case_decide; subst.
  - rewrite bool_decide_false by done. simpl. rewrite IH. by repeat case_decide; subst.
Qed.

Lemma find_In k l : find k l <> None <-> k ∈ l.*1.
Proof.
  induction l as [|[k0 v0] l IH]; simpl.
  - split; [done|inversion 1].
  - rewrite elem_of_cons, <- IH. case_decide; naive_solver.
Qed.

Lemma find_Forall {P : Value V -> Prop} k l v :
  Forall (fun e => P e.2) l -> find k l = Some v -> P v.
Proof.
  induction 1 as [|[k0 v0] l Hx Hl IH]; simpl; [done|].
  case_decide; naive_solver.
Qed.

Lemma update_keys k v l x : x ∈ (update k v l).*1 -> x = k \/ x ∈ l.*1.
Proof.
  induction l as [|[k0 v0] l IH]; simpl; [set_solver|].
  case_decide; simpl; set_solver.
Qed.

Lemma update_NoDup k v l : NoDup l.*1 -> NoDup (update k v l).*1.
Proof.
  induction l as [|[k0 v0] l IH]; simpl.
  - intros _. apply NoDup_singleton.
  - rewrite NoDup_cons. intros [Hk Hl]. case_decide; simpl; constructor; auto.
    intros [->|?]%update_keys; done.
Qed.

Lemma update_Forall k v l :
  Value_ok v -> Forall (fun e => Value_ok e.2) l -> Forall (fun e => Value_ok e.2) (update k v l).
Proof.
  intros Hv. induction 1 as [|[k0 v0] l Hx Hl IH]; simpl; [by repeat constructor|].
  case_decide; by constructor.
Qed.

Lemma models_update k v vs m f :
  models m f -> Value_ok v -> kept_order vs = Value_list v ->
  models (MkHeaderMap (update k v (inner m))) (update_at k vs f).
Proof.
  intros [Hn Ho Hf] Hv Hvs. split; simpl; [by apply update_NoDup|by apply update_Forall|].
  intros k'. rewrite find_update. unfold update_at. case_decide; [done|apply Hf].
Qed.

Lemma models_remove k m f :
  models m f -> models (MkHeaderMap (remove_key k (inner m))) (update_at k [] f).
Proof.
  intros [Hn Ho Hf]. split; simpl.
  - unfold remove_key. revert Hn. generalize (inner m). induction l as [|[k0 v0] l IH]; simpl; [done|].
    rewrite NoDup_cons. intros [Hk Hl]. case_bool_decide; simpl; [by apply IH|].
    constructor; [|by apply IH]. contradict Hk. apply list_elem_of_fmap in Hk as (e & -> & He).
    apply list_elem_of_fmap. exists e. split; [done|].
    apply list_elem_of_In, filter_In in He as [He _]. by apply list_elem_of_In.
  - apply Forall_forall. intros e He. apply list_elem_of_In, filter_In in He as [He _].
    rewrite Forall_forall in Ho. apply Ho. by apply list_elem_of_In.
  - intros k'. rewrite find_remove. unfold update_at. case_decide; [done|apply Hf].
Qed.

Lemma Value_append_list v vs x :
  Value_ok v -> kept_order vs = Value_list v -> Value_ok (Value_append v x) /\
  kept_order (vs ++ [x]) = Value_list (Value_append v x).
Proof.
  destruct v as [w|xs]; simpl.
  - intros _ H. destruct vs as [|v1 [|v2 rest]]; simpl in *; [done|by injection H as ->|done].
  - intros Hl H. destruct vs as [|v1 [|v2 rest]]; simpl in *; subst xs; simpl in *; [lia|lia|].
    rewrite length_app. simpl. split; [lia|done].
Qed.
Lemma kept_order_nil vs : kept_order vs = [] <-> vs = [].
Proof. by destruct vs as [|? []]. Qed.

Lemma step_models m f o : models m f -> models (step_map m o) (step_spec f o).
Proof.
  intros H. destruct o as [k v|k v|[k|]|]; simpl.
  - by apply (models_update k (One v)).
  - unfold HeaderMap_append. pose proof (md_find _ _ H k) as Hk.
    destruct (find k (inner m)) as [w|] eqn:Hw; simpl in Hk.
    + pose proof (find_Forall k _ w (md_ok _ _ H) Hw) as Hok.
      destruct (Value_append_list w (f k) v Hok Hk) as [Hok' Hl]. by apply models_update.
    + apply (proj1 (kept_order_nil (f k))) in Hk. rewrite Hk. by apply (models_update k (One v)).
  - by apply models_remove.
  - done.
  - split; simpl; [constructor|constructor|done].
Qed.

Lemma models_new : models HeaderMap_new (fun _ => []).
Proof. split; simpl; [constructor|constructor|done]. Qed.

Lemma steps_models ops m f :
  models m f -> models (foldl step_map m ops) (foldl step_spec f ops).
Proof.
  revert m f. induction ops as [|o ops IH]; intros m f H; simpl; [done|].
  apply IH. by apply step_models.
Qed.

(** ** The iterators *)

Lemma index_lookup {E A} (l : list A) n x : l !! n = Some x -> index (E:=E) l (Z.of_nat n) = Ok x.
Proof.
  intros H. unfold index. rewrite (proj2 (Z.ltb_ge _ _)) by lia. rewrite Nat2Z.id, H. done.
Qed.

Lemma GetAll_multi E (xs : list V) (n : nat) :
  drains (E:=E) GetAll_next (MkGetAll (Z.of_nat n) (Some (Multi xs))) (drop n xs).
Proof.
  remember (length xs - n)%nat as d eqn:Hd. revert n Hd.
  induction d as [|d IH]; intros n Hd.
  - rewrite drop_ge by lia. eapply drains_done. unfold GetAll_next.
    unfold mbind, SE_bind, get. cbn [ga_item ga_idx].
    rewrite (proj2 (Z.ltb_ge _ _)) by (unfold len; lia). reflexivity.
  - destruct (lookup_lt_is_Some_2 xs n) as [x Hx]; [lia|].
    rewrite (drop_S _ _ _ Hx). eapply drains_more.
    + unfold GetAll_next, mbind, SE_bind, get. cbn [ga_item ga_idx].
      rewrite (proj2 (Z.ltb_lt _ _)) by (unfold len; lia).
      rewrite (index_lookup _ _ _ Hx). reflexivity.
    + simpl. replace (Z.of_nat n + 1) with (Z.of_nat (S n)) by lia. apply IH. lia.
Qed.

Lemma GetAll_drains E name m :
  drains (E:=E) GetAll_next (get_all name m) (default [] (Value_list <$> get2 name m)).
Proof.
  unfold get_all. destruct (get2 name m) as [[x|xs]|]; simpl.
  - eapply drains_more; [reflexivity|]. eapply drains_done. reflexivity.
  - apply (GetAll_multi E xs 0).
  - eapply drains_done. reflexivity.
Qed.

(** What is left to iterate from a state of [Iter] *)
Definition pairs (e : K * Value V) : list (K * V) := pair e.1 <$> Value_list e.2.
Definition iter_rest (it : Iter K V) : list (K * V) :=
  match it_current it with
  | Some (k, vec) => pair k <$> drop (Z.to_nat (it_idx it)) vec
  | None => []
  end ++ flat_map pairs (it_iter it).
Definition iter_ok (it : Iter K V) : Prop :=
  0 <= it_idx it /\ (it_current it = None -> it_idx it = 0) /\
  Forall (fun e => Value_ok e.2) (it_iter it).
Definition next_ok {E} (it : Iter K V) (r : Iter K V * outcome E (option (K * V))) : Prop :=
  match iter_rest it with
  | [] => exists it', r = (it', Ok None)
  | x :: rest => exists it', r = (it', Ok (Some x)) /\ iter_ok it' /\ iter_rest it' = rest
  end.

Lemma next_current E fuel idx k (vec : list V) (iter : list (K * Value V)) :
  iter_ok (MkIter idx (Some (k, vec)) iter) -> idx < len vec ->
  next_ok (E:=E) (MkIter idx (Some (k, vec)) iter)
    (Iter_next_fuel (S fuel) (MkIter idx (Some (k, vec)) iter)).
Proof.
  intros (Hi & Hc & Hv) Hlt. cbn [it_idx it_current it_iter] in *. unfold len in Hlt.
  destruct (lookup_lt_is_Some_2 vec (Z.to_nat idx)) as [x Hx]; [lia|].
  unfold next_ok, iter_rest. cbn [it_idx it_current it_iter]. rewrite (drop_S _ _ _ Hx).
  cbn [Iter_next_fuel fmap list_fmap app]. unfold mbind, SE_bind, get. cbn [it_idx it_current it_iter].
  rewrite (proj2 (Z.ltb_lt _ _)) by (unfold len; lia).
  assert (index (E:=E) vec idx = Ok x) as ->.
  { rewrite <- (Z2Nat.id idx) by lia. by apply index_lookup. }
  simpl.
  eexists. split; [reflexivity|]. split; [split; simpl; [lia|done]|].
  simpl. by replace (Z.to_nat (idx + 1)) with (S (Z.to_nat idx)) by lia.
Qed.

Lemma next_entry E (iter : list (K * Value V)) :
  iter_ok (MkIter 0 None iter) ->
  forall fuel, (length iter <= fuel)%nat ->
  next_ok (E:=E) (MkIter 0 None iter) (Iter_next_fuel (S fuel) (MkIter 0 None iter)).
Proof.
  intros (Hi & Hc & Hv) fuel Hf. cbn [it_idx it_current it_iter] in *.
  destruct iter as [|[k [x|xs]] iter].
  - eexists. reflexivity.
  - eexists. split; [reflexivity|]. split; [|done]. split; [done|]. split; [done|]. simpl.
    by inversion Hv.
  - inversion Hv as [|? ? Hx Hrest]; subst. simpl in Hx, Hf.
    destruct fuel as [|fuel]; [lia|].
    assert (Iter_next_fuel (E:=E) (S (S fuel)) (MkIter 0 None ((k, Multi xs) :: iter))
            = Iter_next_fuel (S fuel) (MkIter 0 (Some (k, xs)) iter)) as -> by reflexivity.
    assert (next_ok (E:=E) (MkIter 0 (Some (k, xs)) iter)
      (Iter_next_fuel (S fuel) (MkIter 0 (Some (k, xs)) iter))) as H; [|exact H].
    apply next_current; [|unfold len; lia]. split; [done|]. split; done.
Qed.

Lemma next_spec E it : iter_ok it -> next_ok (E:=E) it (Iter_next it).
Proof.
  intros Hok. unfold Iter_next. destruct it as [idx [[k vec]|] iter]; cbn [it_iter].
  - destruct (Z.lt_ge_cases idx (len vec)) as [Hlt|Hge]; [by apply next_current|].
    assert (next_ok (E:=E) (MkIter 0 None iter)
      (Iter_next_fuel (S (length iter)) (MkIter 0 None iter))) as H.
    { destruct Hok as (_ & _ & Hv). apply next_entry; [split; [done|]; split; done|lia]. }
    revert H. unfold next_ok, iter_rest. cbn [it_idx it_current it_iter].
    rewrite drop_ge by (unfold len in Hge; lia). cbn [fmap list_fmap app].
    assert (Iter_next_fuel (E:=E) (S (length iter)) (MkIter 0 None iter)
            = Iter_next_fuel (S (length iter)) (MkIter idx (Some (k, vec)) iter)) as <-; [|done].
    cbn [Iter_next_fuel]. unfold mbind, SE_bind, get, modify. cbn [it_idx it_current it_iter].
    rewrite (proj2 (Z.ltb_ge _ _)) by lia. reflexivity.
  - assert (idx = 0) as -> by (by apply Hok). by apply next_entry.
Qed.

Lemma Iter_drains E it : iter_ok it -> drains (E:=E) Iter_next it (iter_rest it).
Proof.
  remember (iter_rest it) as rest eqn:Hr. revert it Hr.
  induction rest as [|x rest IH]; intros it Hr Hok;
    pose proof (next_spec E it Hok) as Hn; unfold next_ok in Hn; rewrite <- Hr in Hn.
  - destruct Hn as [it' Hn]. by eapply drains_done.
  - destruct Hn as (it' & Hn & Hok' & Hr'). eapply drains_more; [exact Hn|]. by apply IH.
Qed.

Lemma pairs_models m f :
  models m f ->
  flat_map pairs (inner m) = flat_map (fun k => pair k <$> kept_order (f k)) (HeaderMap_keys m).
Proof.
  intros [Hn _ Hf]. unfold HeaderMap_keys.
  assert (forall k v, (k, v) ∈ inner m -> kept_order (f k) = Value_list v) as H.
  { intros k v Hin. rewrite Hf. enough (find k (inner m) = Some v) as -> by done.
    clear Hf. revert Hn Hin. generalize (inner m) as l. induction l as [|[k0 v0] l IH]; simpl.
    - inversion 2.
    - rewrite NoDup_cons, elem_of_cons. intros [Hk Hl] [He|Hin]; [simplify_eq; by rewrite decide_True|].
      rewrite decide_False; [by apply IH|]. intros ->. apply Hk.
      apply list_elem_of_fmap. by exists (k0, v). }
  clear Hn Hf. revert H. generalize (inner m) as l. induction l as [|[k v] l IH]; intros H; simpl; [done|].
  rewrite (H k v) by left. rewrite IH; [done|]. intros. apply H. by right.
Qed.

(** C36. The header map ([http/header/map.rs]) implements a multimap, but for the order of
    two values.  Run any sequence of [insert], [append], [remove] and [clear] on a new map,
    and the same sequence on the abstract multimap, in which [append] adds at the end, as
    its comment says.  Then [get] never panics and returns the first value in the kept
    order, [contains_key] says whether there is a value, [get_all] yields the values of
    the name in the kept order and stops, [keys] has each name that has a value once, and
    [iter] yields every name with each of its values and stops.  The kept order is the
    order of insertion with the first two values of a name exchanged. *)
Theorem header_map_refines E (ops : list Op) :
  let m := foldl step_map HeaderMap_new ops in
  let f := foldl step_spec (fun _ => []) ops in
  (forall k, HeaderMap_get (E:=E) (Some k) m = Ok (head (kept_order (f k))) /\
             contains_key (Some k) m = negb (bool_decide (f k = [])) /\
             drains (E:=E) GetAll_next (get_all (Some k) m) (kept_order (f k)) /\
             (k ∈ HeaderMap_keys m <-> f k <> [])) /\
  NoDup (HeaderMap_keys m) /\
  HeaderMap_len m = len (HeaderMap_keys m) /\
  drains (E:=E) Iter_next (HeaderMap_iter m)
    (flat_map (fun k => pair k <$> kept_order (f k)) (HeaderMap_keys m)).
Proof.
  intros m f. assert (models m f) as H by (apply steps_models, models_new).
  assert (forall k, f k = [] <-> find k (inner m) = None) as Hnil.
  { intros k. rewrite <- kept_order_nil, (md_find _ _ H). destruct (find k (inner m)) as [v|] eqn:Hv; simpl; [|done].
    pose proof (find_Forall k _ v (md_ok _ _ H) Hv) as Hok.
    destruct v as [|[|]]; simpl in *; [done|lia|done]. }
  split; [|split; [|split]].
  - intros k. split; [|split; [|split]].
    + unfold HeaderMap_get, get2. simpl. rewrite (md_find _ _ H).
      destruct (find k (inner m)) as [v|] eqn:Hv; simpl; [|done].
      pose proof (find_Forall k _ v (md_ok _ _ H) Hv) as Hok.
      destruct v as [|[|]]; simpl in *; [done|lia|done].
    + rewrite (bool_decide_ext _ _ (Hnil k)). simpl.
      by destruct (find k (inner m)).
    + rewrite (md_find _ _ H). apply GetAll_drains.
    + rewrite Hnil. unfold HeaderMap_keys. by rewrite <- find_In.
  - apply (md_keys _ _ H).
  - unfold HeaderMap_len, HeaderMap_keys, len. by rewrite length_fmap.
  - rewrite <- (pairs_models m f H). apply (Iter_drains E (HeaderMap_iter m)).
    split; [done|]. split; [done|]. apply (md_ok _ _ H).
Qed.

End Refinement.

(** A name with three values, of which the first two are exchanged. *)
Lemma header_map_refines_witness :
  let m := foldl step_map HeaderMap_new [OAppend 1 10; OInsert 2 5; OAppend 1 20; OAppend 1 30; ORemove (Some 2)] in
  HeaderMap_get (E:=()) (Some 1) m = Ok (Some 20) /\ drains (E:=()) GetAll_next (get_all (Some 1) m) [20; 10; 30].
Proof.
  pose proof (header_map_refines () [OAppend 1 10; OInsert 2 5; OAppend 1 20; OAppend 1 30; ORemove (Some 2)]) as [H _].
  destruct (H 1) as (Hg & _ & Hd & _). split; [exact Hg|exact Hd].
Defined.
