(* ===== verification/H1Message.v ===== *)
(** * HTTP/1 message decoding ([http/message.rs], [http/h1/decoder.rs])

    Request and response heads with their flags, the pool the request heads are
    taken from, and the decoders that turn the output of the [httparse] crate into
    a head and a payload decoder.  The [httparse] crate and the parts of the [http]
    crate that only HTTP/1 uses are interfaces. *)

From Stdlib Require Import Ascii String.
From S2P Require Import Prelude Bytes HttpTypes H1Body H1Head H1HeaderMap.

(** ** Text *)

(** [u8::to_ascii_lowercase], [str::eq_ignore_ascii_case] *)
Definition ascii_lower (c : Z) : Z := if (65 <=? c) && (c <=? 90) then c + 32 else c.
Definition eq_ignore_ascii_case (a b : list Z) : bool :=
  bool_decide (ascii_lower <$> a = ascii_lower <$> b).

(** [str::trim] of an ASCII string *)
Definition is_space (c : Z) : bool := ((9 <=? c) && (c <=? 13)) || (c =? 32).
Fixpoint trim_start (s : list Z) : list Z :=
  match s with
  | c :: s' => if is_space c then trim_start s' else s
  | [] => []
  end.
Definition trim (s : list Z) : list Z := reverse (trim_start (reverse (trim_start s))).

(** [str::parse::<u64>]: an optional [+], at least one digit, no overflow. *)
Fixpoint parse_digits (s : list Z) (acc : Z) : option Z :=
  match s with
  | [] => Some acc
  | c :: s =>
      if (48 <=? c) && (c <=? 57) then
        let acc := acc * 10 + (c - 48) in
        if acc <? 2 ^ 64 then parse_digits s acc else None
      else None
  end.
Definition parse_u64 (s : list Z) : option Z :=
  match s with
  | [] => None
  | [c] => if c =? 43 then None else parse_digits [c] 0
  | c :: s' => if c =? 43 then parse_digits s' 0 else parse_digits s 0
  end.

(** ** The [http] crate *)

Lemma std_name_inj `{HT : HttpTypes} h h' : std_name h = std_name h' -> h = h'.
Proof.
  intros E. apply (f_equal name_as_ref) in E. rewrite !std_name_ref in E.
  assert (forall a b, bytes_of_string a = bytes_of_string b -> a = b) as Hinj.
  { induction a as [|c a IH]; intros [|d b]; simpl; try done. intros [= Hc Hl].
    apply N2Z.inj in Hc. rewrite <- (ascii_N_embedding c), <- (ascii_N_embedding d), Hc. f_equal. by apply IH. }
  apply Hinj in E. revert E. clear. by destruct h, h'.
Qed.

(** [HeaderName::from_bytes] accepts any case and keeps lower case;
    [HeaderValue::from_maybe_shared_unchecked] keeps its bytes; [to_str] shows
    the bytes of a value that is visible ASCII. *)
Class H1Types `{HT : HttpTypes} := {
  name_from_bytes : list Z -> option HeaderName;
  name_from_bytes_ref b n :
    name_from_bytes b = Some n -> name_as_ref n = ascii_lower <$> b;
  value_from_shared : list Z -> HeaderValue;
  value_from_shared_ref b : is_bytes b -> value_as_ref (value_from_shared b) = b;
  value_to_str : HeaderValue -> option (list Z);
  value_to_str_ref v s :
    value_to_str v = Some s -> s = value_as_ref v /\ Forall (fun c => c < 128) s;

  HEAD : Method;
  CONNECT : Method;
  HEAD_ref : method_as_ref HEAD = bytes_of_string "HEAD";
  CONNECT_ref : method_as_ref CONNECT = bytes_of_string "CONNECT";
  status_from_u16 : Z -> option StatusCode;
  status_from_u16_ref n s : status_from_u16 n = Some s -> status_as_u16 s = n;

  Uri : Type;
  uri_default : Uri;
  uri_try_from : list Z -> option Uri;
}.

(** The crate as [ModelHttp] models it, with text that is plain ASCII. *)
Module ModelH1.
Import ModelHttp.

Definition shared (b : list Z) : Value :=
  match decide (is_bytes b) with
  | left H => (dexist b H, false)
  | right _ => (dexist [] (Forall_nil_2 _), false)
  end.
Definition from_u16 (n : Z) : option Status :=
  match decide (100 <= n < 1000) with left H => Some (dexist n H) | right _ => None end.

#[export] Program Instance model_h1 : H1Types := {|
  name_from_bytes b := check name_ok (ascii_lower <$> b);
  value_from_shared := shared;
  value_to_str v := if decide (Forall (fun c => c < 128) (`(v.1))) then Some (`(v.1)) else None;
  HEAD := dexist _ (bytes_of_string_is_bytes "HEAD");
  CONNECT := dexist _ (bytes_of_string_is_bytes "CONNECT");
  status_from_u16 := from_u16;
  Uri := list Z;
  uri_default := [];
  uri_try_from b := Some b
|}.
Next Obligation. intros b n H. by apply check_ref in H. Qed.
Next Obligation. intros b H. unfold shared. by destruct (decide (is_bytes b)). Qed.
Next Obligation. intros v s. simpl. case_decide; naive_solver. Qed.
Next Obligation. done. Qed.
Next Obligation. done. Qed.
Next Obligation. intros n s. simpl. unfold from_u16. case_decide; naive_solver. Qed.
End ModelH1.

(** ** The [httparse] crate *)

(** [httparse::Error] *)
Inductive HttparseError :=
  | EHeaderName | EHeaderValue | ENewLine | EToken | EStatus | ETooManyHeaders | EVersion.

(** [httparse::Header]: a name and a value as slices of the parsed bytes, each
    given by the offset of its first byte and its length. *)
Record RawHeader := MkRawHeader { rh_name : Z * Z; rh_value : Z * Z }.

(** [httparse::Status] *)
Inductive ParseStatus := Complete (n : Z) | Partial.

(** [httparse::Request] and [httparse::Response] after a call of [parse] *)
Record RawRequest := MkRawRequest {
  rr_method : option (list Z);
  rr_path : option (list Z);
  rr_version : option Z;
  rr_headers : list RawHeader
}.
Record RawResponse := MkRawResponse {
  rs_version : option Z;
  rs_code : option Z;
  rs_headers : list RawHeader
}.

Class Httparse := {
  parse_request : list Z -> RawRequest * (HttparseError + ParseStatus);
  parse_response : list Z -> RawResponse * (HttparseError + ParseStatus);
}.

(** ** Errors *)

(** [http/error.rs] ParseError *)
Inductive ParseError :=
  | PE_Method
  | PE_Uri
  | PE_Version
  | PE_Header
  | PE_TooLarge
  | PE_Incomplete
  | PE_Status
  | PE_Timeout
  | PE_Io (e : IoError)
  | PE_Utf8.

(** [http/error.rs:307-319] ParseError as From<httparse::Error> *)
Definition ParseError_from_httparse (err : HttparseError) : ParseError :=
  match err with
  | EHeaderName | EHeaderValue | ENewLine | EToken => PE_Header
  | EStatus => PE_Status
  | ETooManyHeaders => PE_TooLarge
  | EVersion => PE_Version
  end.

(** ** Heads *)

(** [http/message.rs] ConnectionType *)
Inductive ConnectionType := Close | KeepAlive | Upgrade.
#[export] Instance ConnectionType_eq_dec : EqDecision ConnectionType.
Proof. solve_decision. Defined.

(** [http/message.rs:23-32] Flags *)
Module Flags.
Definition CLOSE : Z := 1.
Definition KEEP_ALIVE : Z := 2.
Definition UPGRADE : Z := 4.
Definition EXPECT : Z := 8.
Definition NO_CHUNKING : Z := 16.
Definition CAMEL_CASE : Z := 32.
Definition insert (f flags : Z) : Z := Z.lor flags f.
Definition remove (f flags : Z) : Z := Z.land flags (Z.lnot f).
Definition contains (f flags : Z) : bool := Z.land flags f =? f.
Definition set (f : Z) (value : bool) (flags : Z) : Z :=
  if value then insert f flags else remove f flags.
End Flags.

(** [Version < HTTP_11], the order of the constants *)
Definition before_11 (v : Version) : bool :=
  match v with HTTP_09 | HTTP_10 => true | _ => false end.

Section Heads.
Context `{H1 : H1Types}.
(** [net::SocketAddr] *)
Context {Addr : Type}.

(** [http/message.rs] RequestHead.  The type map of the extensions, which no
    code of the codec reads, is left out. *)
Record RequestHead := MkRequestHead {
  uri : Uri;
  method : Method;
  version : Version;
  headers : HeaderMap HeaderName HeaderValue;
  peer_addr : option Addr;
  flags : Z
}.

(** [http/message.rs] RequestHead as Default::default *)
Definition RequestHead_default : RequestHead :=
  MkRequestHead uri_default GET HTTP_11 HeaderMap_new None 0.
(** [http/message.rs] RequestHead as Head::clear *)
Definition RequestHead_clear (h : RequestHead) : RequestHead :=
  MkRequestHead (uri h) (method h) (version h) (HeaderMap_clear (headers h)) (peer_addr h) 0.

Definition set_flags (f : Z -> Z) (h : RequestHead) : RequestHead :=
  MkRequestHead (uri h) (method h) (version h) (headers h) (peer_addr h) (f (flags h)).
Definition set_headers_of (m : HeaderMap HeaderName HeaderValue) (h : RequestHead) : RequestHead :=
  MkRequestHead (uri h) (method h) (version h) m (peer_addr h) (flags h).

Definition ctype_flag (ctype : ConnectionType) : Z :=
  match ctype with
  | Close => Flags.CLOSE
  | KeepAlive => Flags.KEEP_ALIVE
  | Upgrade => Flags.UPGRADE
  end.

(** [http/message.rs] RequestHead::set_connection_type *)
Definition RequestHead_set_connection_type (ctype : ConnectionType) (h : RequestHead) : RequestHead :=
  set_flags (Flags.insert (ctype_flag ctype)) h.
(** [http/message.rs] RequestHead::connection_type *)
Definition RequestHead_connection_type (h : RequestHead) : ConnectionType :=
  if Flags.contains Flags.CLOSE (flags h) then Close
  else if Flags.contains Flags.KEEP_ALIVE (flags h) then KeepAlive
  else if Flags.contains Flags.UPGRADE (flags h) then Upgrade
  else if before_11 (version h) then Close
  else KeepAlive.
(** [http/message.rs] RequestHead::set_expect *)
Definition RequestHead_set_expect (h : RequestHead) : RequestHead :=
  set_flags (Flags.insert Flags.EXPECT) h.
(** [http/message.rs] RequestHead::expect *)
Definition RequestHead_expect (h : RequestHead) : bool := Flags.contains Flags.EXPECT (flags h).
(** [http/message.rs] RequestHead::chunked *)
Definition RequestHead_chunked (h : RequestHead) : bool :=
  negb (Flags.contains Flags.NO_CHUNKING (flags h)).
(** [http/message.rs] RequestHead::no_chunking *)
Definition RequestHead_no_chunking (val : bool) (h : RequestHead) : RequestHead :=
  set_flags (if val then Flags.insert Flags.NO_CHUNKING else Flags.remove Flags.NO_CHUNKING) h.
(** [http/message.rs] RequestHead::camel_case_headers *)
Definition RequestHead_camel_case_headers (h : RequestHead) : bool :=
  Flags.contains Flags.CAMEL_CASE (flags h).
(** [http/message.rs] RequestHead::set_camel_case_headers *)
Definition RequestHead_set_camel_case_headers (val : bool) (h : RequestHead) : RequestHead :=
  set_flags (if val then Flags.insert Flags.CAMEL_CASE else Flags.remove Flags.CAMEL_CASE) h.

(** [http/message.rs] ResponseHead, again without extensions *)
Record ResponseHead := MkResponseHead {
  rs_ver : Version;
  rs_status : StatusCode;
  rs_hdrs : HeaderMap HeaderName HeaderValue;
  rs_reason : option (list Z);
  rs_flags : Z
}.
(** [http/message.rs] ResponseHead::new.  [Version::default()] is [HTTP_11]. *)
Definition ResponseHead_new (status : StatusCode) : ResponseHead :=
  MkResponseHead HTTP_11 status HeaderMap_new None 0.
(** [http/message.rs] ResponseHead::set_connection_type *)
Definition ResponseHead_set_connection_type (ctype : ConnectionType) (h : ResponseHead) : ResponseHead :=
  MkResponseHead (rs_ver h) (rs_status h) (rs_hdrs h) (rs_reason h)
    (Flags.insert (ctype_flag ctype) (rs_flags h)).
(** [http/message.rs] ResponseHead::connection_type *)
Definition ResponseHead_connection_type (h : ResponseHead) : ConnectionType :=
  if Flags.contains Flags.CLOSE (rs_flags h) then Close
  else if Flags.contains Flags.KEEP_ALIVE (rs_flags h) then KeepAlive
  else if Flags.contains Flags.UPGRADE (rs_flags h) then Upgrade
  else if before_11 (rs_ver h) then Close
  else KeepAlive.
(** [http/message.rs] ResponseHead::keep_alive *)
Definition ResponseHead_keep_alive (h : ResponseHead) : bool :=
  bool_decide (ResponseHead_connection_type h = KeepAlive).
(** [http/message.rs] ResponseHead::upgrade *)
Definition ResponseHead_upgrade (h : ResponseHead) : bool :=
  bool_decide (ResponseHead_connection_type h = Upgrade).
(** [http/message.rs] ResponseHead::ctype *)
Definition ResponseHead_ctype (h : ResponseHead) : option ConnectionType :=
  if Flags.contains Flags.CLOSE (rs_flags h) then Some Close
  else if Flags.contains Flags.KEEP_ALIVE (rs_flags h) then Some KeepAlive
  else if Flags.contains Flags.UPGRADE (rs_flags h) then Some Upgrade
  else None.
(** [http/message.rs] ResponseHead::chunked *)
Definition ResponseHead_chunked (h : ResponseHead) : bool :=
  negb (Flags.contains Flags.NO_CHUNKING (rs_flags h)).

(** ** The pool of request heads *)

(** [http/message.rs] MessagePool.  A head is released when its last reference is
    dropped, so that the pool holds the only reference to each of its heads. *)
Definition MessagePool := list RequestHead.

(** [http/message.rs] MessagePool::get_message *)
Definition get_message (pool : MessagePool) : MessagePool * RequestHead :=
  match reverse pool with
  | msg :: rest => (reverse rest, RequestHead_clear msg)
  | [] => (pool, RequestHead_default)
  end.

(** [http/message.rs] MessagePool::release *)
Definition release (msg : RequestHead) (pool : MessagePool) : MessagePool :=
  if len pool <? 128 then pool ++ [msg] else pool.

End Heads.
Arguments RequestHead {_ _} _.
Arguments MessagePool {_ _} _.
Arguments ResponseHead {_}.
