(* ===== verification/H1Codec.v ===== *)
(** * HTTP/1 decoders and codecs ([http/h1/decoder.rs], [http/h1/codec.rs],
    [http/h1/client.rs])

    From the connection buffer to messages: the framing that the header fields
    ask for, the decoders of request and response heads, and the codecs that
    alternate between a head and its payload. *)

From Stdlib Require Import Ascii String.
From S2P Require Import Prelude Bytes HttpTypes H1Body H1Head H1HeaderMap H1Message.

(** [http/h1/decoder.rs] MAX_BUFFER_SIZE *)
Definition MAX_BUFFER_SIZE : Z := 131072.
(** [http/h1/decoder.rs] MAX_HEADERS *)
Definition MAX_HEADERS : nat := 96.

(** [http/h1/decoder.rs] PayloadType *)
Inductive PayloadType :=
  | PT_None
  | PT_Payload (d : PayloadDecoder)
  | PT_Stream (d : PayloadDecoder).

(** [http/h1/decoder.rs] PayloadLength *)
Inductive PayloadLength :=
  | PL_Payload (p : PayloadType)
  | PL_Upgrade
  | PL_None.

(** [http/h1/decoder.rs] HeaderIndex *)
Record HeaderIndex := MkHeaderIndex { hi_name : Z * Z; hi_value : Z * Z }.

(** [http/h1/decoder.rs] HeaderIndex::record.  The difference of the pointers is
    the offset of the slice. *)
Fixpoint HeaderIndex_record (hs : list RawHeader) (indices : list HeaderIndex) : list HeaderIndex :=
  match hs, indices with
  | h :: hs, _ :: indices =>
      let name_start := (rh_name h).1 in
      let name_end := name_start + (rh_name h).2 in
      let value_start := (rh_value h).1 in
      let value_end := value_start + (rh_value h).2 in
      MkHeaderIndex (name_start, name_end) (value_start, value_end) :: HeaderIndex_record hs indices
  | _, _ => indices
  end.

Section Decoder.
Context `{H1 : H1Types} {HP : Httparse}.

(** [http/h1/decoder.rs:55-62] MessageType, the part that its provided method uses *)
Class MessageType (T : Type) := {
  mt_set_connection_type : option ConnectionType -> T -> T;
  mt_set_expect : T -> T;
  mt_headers : T -> HeaderMap HeaderName HeaderValue;
  mt_set_headers : HeaderMap HeaderName HeaderValue -> T -> T;
}.

(** The local variables of [set_headers]. *)
Record Locals := MkLocals {
  ka : option ConnectionType;
  has_upgrade : bool;
  expect : bool;
  chunked : bool;
  content_length : option Z
}.

Section SetHeaders.
Context `{MT : MessageType T}.
Abbreviation M := (SE (T * Locals) ParseError).

Definition set_local (f : Locals -> Locals) : M () := modify (fun s => (s.1, f s.2)).
Definition set_ka (x : option ConnectionType) (l : Locals) : Locals :=
  MkLocals x (has_upgrade l) (expect l) (chunked l) (content_length l).
Definition set_has_upgrade (l : Locals) : Locals :=
  MkLocals (ka l) true (expect l) (chunked l) (content_length l).
Definition set_expect (l : Locals) : Locals :=
  MkLocals (ka l) (has_upgrade l) true (chunked l) (content_length l).
Definition set_chunked (x : bool) (l : Locals) : Locals :=
  MkLocals (ka l) (has_upgrade l) (expect l) x (content_length l).
Definition set_content_length (x : option Z) (l : Locals) : Locals :=
  MkLocals (ka l) (has_upgrade l) (expect l) (chunked l) x.

(** [http/h1/decoder.rs:84-145] The [match name] of the loop of [set_headers]. *)
Definition set_header_local (name : HeaderName) (value : HeaderValue) : M () :=
  if decide (name = std_name CONTENT_LENGTH) then
    match value_to_str value with
    | Some s =>
        match parse_u64 s with
        | Some len => if negb (len =? 0) then set_local (set_content_length (Some len)) else mret tt
        | None => throw PE_Header
        end
    | None => throw PE_Header
    end
  else if decide (name = std_name TRANSFER_ENCODING) then
    match trim <$> value_to_str value with
    | Some s => set_local (set_chunked (eq_ignore_ascii_case s (bytes_of_string "chunked")))
    | None => throw PE_Header
    end
  else if decide (name = std_name CONNECTION) then
    set_local (set_ka (
      match trim <$> value_to_str value with
      | Some conn =>
          if eq_ignore_ascii_case conn (bytes_of_string "keep-alive") then Some KeepAlive
          else if eq_ignore_ascii_case conn (bytes_of_string "close") then Some Close
          else if eq_ignore_ascii_case conn (bytes_of_string "upgrade") then Some Upgrade
          else None
      | None => None
      end))
  else if decide (name = std_name UPGRADE) then
    _ ← set_local set_has_upgrade;
    match trim <$> value_to_str value with
    | Some val =>
        if eq_ignore_ascii_case val (bytes_of_string "websocket")
        then set_local (set_content_length None) else mret tt
    | None => mret tt
    end
  else if decide (name = std_name EXPECT) then
    let bytes := value_as_ref value in
    if (4 <=? len bytes) && bool_decide (take 4 bytes = bytes_of_string "100-")
    then set_local set_expect else mret tt
  else mret tt.

(** [http/h1/decoder.rs:74-148] The loop of [set_headers]. *)
Fixpoint set_headers_loop (slc : list Z) (raw_headers : list HeaderIndex) : M () :=
  match raw_headers with
  | [] => mret tt
  | idx :: raw_headers =>
      name_bytes ← lift (slice slc (hi_name idx).1 ((hi_name idx).2 - (hi_name idx).1));
      name ← lift (unwrap (name_from_bytes name_bytes));
      value_bytes ← lift (slice slc (hi_value idx).1 ((hi_value idx).2 - (hi_value idx).1));
      let value := value_from_shared value_bytes in
      _ ← set_header_local name value;
      _ ← modify (fun s => (mt_set_headers (HeaderMap_append name value (mt_headers s.1)) s.1, s.2));
      set_headers_loop slc raw_headers
  end.

(** [http/h1/decoder.rs] MessageType::set_headers *)
Definition set_headers (slc : list Z) (raw_headers : list HeaderIndex) : SE T ParseError PayloadLength :=
  fun msg =>
  match set_headers_loop slc raw_headers (msg, MkLocals None false false false None) with
  | ((msg, l), Ok _) =>
      let msg := mt_set_connection_type (ka l) msg in
      let msg := if expect l then mt_set_expect msg else msg in
      (msg, Ok (
        if chunked l then PL_Payload (PT_Payload PayloadDecoder.chunked)
        else match content_length l with
        | Some len => PL_Payload (PT_Payload (PayloadDecoder.length len))
        | None => if has_upgrade l then PL_Upgrade else PL_None
        end))
  | ((msg, _), Err e) => (msg, Err e)
  | ((msg, _), Panic) => (msg, Panic)
  end.
End SetHeaders.

Context {Addr : Type}.

(** [http/h1/decoder.rs:186-199] MessageType for Request *)
#[export] Instance Request_MessageType : MessageType (RequestHead Addr) := {|
  mt_set_connection_type ctype h :=
    match ctype with Some ctype => RequestHead_set_connection_type ctype h | None => h end;
  mt_set_expect := RequestHead_set_expect;
  mt_headers := headers;
  mt_set_headers := set_headers_of
|}.

(** [http/h1/decoder.rs:266-277] MessageType for ResponseHead *)
#[export] Instance ResponseHead_MessageType : MessageType ResponseHead := {|
  mt_set_connection_type ctype h :=
    match ctype with Some ctype => ResponseHead_set_connection_type ctype h | None => h end;
  mt_set_expect h := h;
  mt_headers := rs_hdrs;
  mt_set_headers m h := MkResponseHead (rs_ver h) (rs_status h) m (rs_reason h) (rs_flags h)
|}.

Context `{BM : BytesMut B}.

(** [src.split_to(n)], which panics when there are fewer bytes *)
Definition split_to {E} (n : Z) : SE B E B := fun src =>
  if (0 <=? n) && (n <=? len (buf_bytes src))
  then let '(a, b) := bm_split_to src (Z.to_nat n) in (b, Ok a) else (src, Panic).

(** *** Requests *)

(** The thread's pool of heads and the connection buffer. *)
Definition ReqState : Type := MessagePool Addr * B.
(** [msg] goes out of scope *)
Definition drop_msg (msg : RequestHead Addr) : SE ReqState ParseError () :=
  modify (fun s => (release msg s.1, s.2)).

Definition of_version (v : Z) : Version := if v =? 1 then HTTP_11 else HTTP_10.

(** [http/h1/decoder.rs:217-262] The second half of [Request::decode]: a head
    from the pool, the headers, the payload decoder. *)
Definition Request_finish (n : Z) (meth : Method) (u : Uri) (ver : Version)
    (hs : list HeaderIndex) (h_len : Z) : SE ReqState ParseError (option (RequestHead Addr * PayloadType)) :=
  pool ← gets fst;
  let '(pool, msg) := get_message pool in
  _ ← modify (fun s => (pool, s.2));
  slc ← zoom snd (fun src s => (s.1, src)) (split_to n);
  hs ← lift (slice_to hs h_len);
  let '(msg, length) := set_headers (buf_bytes slc) hs msg in
  match length with
  | Panic => panic
  | Err e => _ ← drop_msg msg; throw e
  | Ok length =>
      src ← gets snd;
      let decoder :=
        match length with
        | PL_Payload pl => Some pl
        | PL_Upgrade => Some (PT_Stream PayloadDecoder.eof)
        | PL_None =>
            if decide (meth = CONNECT) then Some (PT_Stream PayloadDecoder.eof)
            else if MAX_BUFFER_SIZE <=? len (buf_bytes src) then None
            else Some PT_None
        end in
      match decoder with
      | None => _ ← drop_msg msg; throw PE_TooLarge
      | Some decoder =>
          mret (Some (MkRequestHead u meth ver (headers msg) (peer_addr msg) (flags msg), decoder))
      end
  end.

(** [http/h1/decoder.rs:201-263] Request as MessageType::decode.  [uninit] is the
    array of header positions before it is written. *)
Definition Request_decode (uninit : list HeaderIndex) :
    SE ReqState ParseError (option (RequestHead Addr * PayloadType)) :=
  src ← gets (fun s => buf_bytes s.2);
  let '(req, status) := parse_request src in
  match status with
  | inl e => throw (ParseError_from_httparse e)
  | inr Partial => mret None
  | inr (Complete n) =>
      m ← lift (unwrap (rr_method req));
      meth ← lift (ok_or (method_from_bytes m) PE_Method);
      p ← lift (unwrap (rr_path req));
      u ← lift (ok_or (uri_try_from p) PE_Uri);
      v ← lift (unwrap (rr_version req));
      Request_finish n meth u (of_version v)
        (HeaderIndex_record (rr_headers req) uninit) (len (rr_headers req))
  end.

(** *** Responses *)

(** [http/h1/decoder.rs:279-343] ResponseHead as MessageType::decode *)
Definition ResponseHead_decode (uninit : list HeaderIndex) :
    SE B ParseError (option (ResponseHead * PayloadType)) :=
  src ← gets buf_bytes;
  let '(res, status) := parse_response src in
  match status with
  | inl e => throw (ParseError_from_httparse e)
  | inr Partial => mret None
  | inr (Complete n) =>
      v ← lift (unwrap (rs_version res));
      code ← lift (unwrap (rs_code res));
      status ← lift (ok_or (status_from_u16 code) PE_Status);
      let msg := ResponseHead_new status in
      let msg := MkResponseHead (of_version v) (rs_status msg) (rs_hdrs msg) (rs_reason msg) (rs_flags msg) in
      slc ← split_to n;
      hs ← lift (slice_to (HeaderIndex_record (rs_headers res) uninit) (len (rs_headers res)));
      let '(msg, length) := set_headers (buf_bytes slc) hs msg in
      length ← lift length;
      src ← get;
      match length with
      | PL_Payload pl => mret (Some (msg, pl))
      | _ =>
          if status_as_u16 status =? 101 then mret (Some (msg, PT_Stream PayloadDecoder.eof))
          else if MAX_BUFFER_SIZE <=? len (buf_bytes src) then throw PE_TooLarge
          else match rs_ver msg with
          | HTTP_10 => mret (Some (ResponseHead_set_connection_type Close msg, PT_Payload PayloadDecoder.eof))
          | _ => mret (Some (msg, PT_None))
          end
      end
  end.

(** ** The server codec *)

(** [http/h1/codec.rs:18-24] Flags *)
Definition CF_HEAD : Z := 1.
Definition CF_KEEPALIVE_ENABLED : Z := 2.
Definition CF_STREAM : Z := 4.

(** [http/h1/codec.rs] Codec, the decoding part; the configuration is read for
    [keep_alive_enabled] only. *)
Record Codec := MkCodec {
  c_payload : option PayloadDecoder;
  c_version : Version;
  c_ctype : ConnectionType;
  c_flags : Z
}.

(** [http/h1/codec.rs] Codec::new *)
Definition Codec_new (keep_alive_enabled : bool) : Codec :=
  MkCodec None HTTP_11 Close (if keep_alive_enabled then CF_KEEPALIVE_ENABLED else 0).
(** [http/h1/codec.rs] Codec::upgrade *)
Definition Codec_upgrade (c : Codec) : bool := bool_decide (c_ctype c = Upgrade).
(** [http/h1/codec.rs] Codec::keepalive *)
Definition Codec_keepalive (c : Codec) : bool := bool_decide (c_ctype c = KeepAlive).
(** [http/h1/codec.rs] Codec::keepalive_enabled *)
Definition Codec_keepalive_enabled (c : Codec) : bool := Flags.contains CF_KEEPALIVE_ENABLED (c_flags c).

(** [http/h1/mod.rs] MessageType *)
Inductive MsgType := MT_None | MT_Payload | MT_Stream.
(** [http/h1/codec.rs] Codec::message_type *)
Definition Codec_message_type (c : Codec) : MsgType :=
  if Flags.contains CF_STREAM (c_flags c) then MT_Stream
  else match c_payload c with None => MT_None | Some _ => MT_Payload end.

(** [http/h1/mod.rs] Message *)
Inductive Message (T : Type) :=
  | Item (item : T)
  | MChunk (chunk : option (list Z)).
Arguments Item {T} item.
Arguments MChunk {T} chunk.

Definition ConnState : Type := Codec * ReqState.
Definition set_payload (p : option PayloadDecoder) (c : Codec) : Codec :=
  MkCodec p (c_version c) (c_ctype c) (c_flags c).

(** [http/h1/codec.rs:119-139] What a decoded head changes in the codec. *)
Definition Codec_on_head (req : RequestHead Addr) (payload : PayloadType) (c : Codec) : Codec :=
  let flags := Flags.set CF_HEAD (bool_decide (method req = HEAD)) (c_flags c) in
  let ctype := RequestHead_connection_type req in
  let ctype :=
    if bool_decide (ctype = KeepAlive) && negb (Flags.contains CF_KEEPALIVE_ENABLED flags)
    then Close else ctype in
  match payload with
  | PT_None => MkCodec None (version req) ctype flags
  | PT_Payload pl => MkCodec (Some pl) (version req) ctype flags
  | PT_Stream pl => MkCodec (Some pl) (version req) ctype (Flags.insert CF_STREAM flags)
  end.

(** [http/h1/codec.rs] Codec as Decoder::decode *)
Definition Codec_decode (uninit : list HeaderIndex) :
    SE ConnState ParseError (option (Message (RequestHead Addr))) := fun s =>
  let '(c, (pool, src)) := s in
  match c_payload c with
  | Some pl =>
      let '((pl, src), r) := PayloadDecoder.decode (pl, src) in
      let c := set_payload (Some pl) c in
      match r with
      | Ok (Some (Chunk chunk)) => ((c, (pool, src)), Ok (Some (MChunk (Some chunk))))
      | Ok (Some Eof) => ((set_payload None c, (pool, src)), Ok (Some (MChunk None)))
      | Ok None => ((c, (pool, src)), Ok None)
      | Err e => ((c, (pool, src)), Err (PE_Io e))
      | Panic => ((c, (pool, src)), Panic)
      end
  | None =>
      let '(st, r) := Request_decode uninit (pool, src) in
      match r with
      | Ok (Some (req, payload)) => ((Codec_on_head req payload c, st), Ok (Some (Item req)))
      | Ok None => ((c, st), Ok None)
      | Err e => ((c, st), Err e)
      | Panic => ((c, st), Panic)
      end
  end.

(** ** The client codec *)

(** [http/h1/client.rs:16-22] Flags *)
Definition CC_HEAD : Z := 1.
Definition CC_KEEPALIVE_ENABLED : Z := 8.
Definition CC_STREAM : Z := 16.

(** [http/h1/client.rs] ClientCodecInner, the decoding part *)
Record ClientCodecInner := MkClientCodecInner {
  i_payload : option PayloadDecoder;
  i_version : Version;
  i_ctype : ConnectionType;
  i_flags : Z
}.

(** [http/h1/client.rs] ClientCodec::new *)
Definition ClientCodec_new (keep_alive_enabled : bool) : ClientCodecInner :=
  MkClientCodecInner None HTTP_11 Close (if keep_alive_enabled then CC_KEEPALIVE_ENABLED else 0).
(** [http/h1/client.rs] ClientCodec::message_type *)
Definition ClientCodec_message_type (c : ClientCodecInner) : MsgType :=
  if Flags.contains CC_STREAM (i_flags c) then MT_Stream
  else match i_payload c with None => MT_None | Some _ => MT_Payload end.

(** [http/h1/client.rs] ClientCodec as Decoder::decode.  [reserve_readbuf] only
    changes the capacity of the buffer. *)
Definition ClientCodec_decode (uninit : list HeaderIndex) :
    SE (ClientCodecInner * B) ParseError (option ResponseHead) := fun s =>
  let '(c, src) := s in
  let '(src, r) := ResponseHead_decode uninit src in
  match r with
  | Ok (Some (req, payload)) =>
      let ctype :=
        match ResponseHead_ctype req with
        | Some ctype => if decide (ctype = KeepAlive) then i_ctype c else ctype
        | None => i_ctype c
        end in
      let c :=
        if negb (Flags.contains CC_HEAD (i_flags c)) then
          match payload with
          | PT_None => MkClientCodecInner None (i_version c) ctype (i_flags c)
          | PT_Payload pl => MkClientCodecInner (Some pl) (i_version c) ctype (i_flags c)
          | PT_Stream pl =>
              MkClientCodecInner (Some pl) (i_version c) ctype (Flags.insert CC_STREAM (i_flags c))
          end
        else MkClientCodecInner None (i_version c) ctype (i_flags c) in
      ((c, src), Ok (Some req))
  | Ok None => ((c, src), Ok None)
  | Err e => ((c, src), Err e)
  | Panic => ((c, src), Panic)
  end.

(** [http/error.rs:323-344] PayloadError, the case a payload decoder gives *)
Inductive PayloadError := PayloadIncomplete (e : option IoError).

(** [http/h1/client.rs] ClientPayloadCodec as Decoder::decode *)
Definition ClientPayloadCodec_decode :
    SE (ClientCodecInner * B) PayloadError (option (option (list Z))) := fun s =>
  let '(c, src) := s in
  match i_payload c with
  | None => (s, Panic)
  | Some pl =>
      let '((pl, src), r) := PayloadDecoder.decode (pl, src) in
      let with_payload p := MkClientCodecInner p (i_version c) (i_ctype c) (i_flags c) in
      match r with
      | Ok (Some (Chunk chunk)) => ((with_payload (Some pl), src), Ok (Some (Some chunk)))
      | Ok (Some Eof) => ((with_payload None, src), Ok (Some None))
      | Ok None => ((with_payload (Some pl), src), Ok None)
      | Err e => ((with_payload (Some pl), src), Err (PayloadIncomplete (Some e)))
      | Panic => ((with_payload (Some pl), src), Panic)
      end
  end.

End Decoder.
Arguments Message : clear implicits.
Arguments Item {T} item.
Arguments MChunk {T} chunk.
