(* ===== verification/H1CodecCorrect.v ===== *)
(** * Framing of HTTP/1 requests

    What the header fields of a head decide, stated on the list of fields, and
    the server codec on a sequence of pipelined requests. *)

From Stdlib Require Import Ascii String.
From S2P Require Import Prelude Bytes HttpTypes H1Body H1BodyCorrect H1Head H1HeaderMap H1Message H1Codec.

Section Framing.
Context `{H1 : H1Types} {HP : Httparse} {Addr : Type}.
Implicit Types (msg : RequestHead Addr) (f : HeaderName * HeaderValue) (l : Locals).

(** ** The fields of a head *)

Definition cut (slc : list Z) (r : Z * Z) : option (list Z) :=
  match slice (E:=()) slc r.1 (r.2 - r.1) with Ok b => Some b | _ => None end.
Definition field (slc : list Z) (idx : HeaderIndex) : option (HeaderName * HeaderValue) :=
  nb ← cut slc (hi_name idx);
  n ← name_from_bytes nb;
  vb ← cut slc (hi_value idx);
  Some (n, value_from_shared vb).

(** ** What single fields say *)

Definition is_name (h : StdHeader) f : bool := bool_decide (f.1 = std_name h).
Definition says f (s : string) : bool :=
  match value_to_str f.2 with
  | Some v => eq_ignore_ascii_case (trim v) (bytes_of_string s)
  | None => false
  end.
Definition number f : option Z := value_to_str f.2 ≫= parse_u64.

(** A content length that is not a number, or a transfer encoding that is not text *)
Definition bad f : bool :=
  (is_name CONTENT_LENGTH f && bool_decide (number f = None)) ||
  (is_name TRANSFER_ENCODING f && bool_decide (value_to_str f.2 = None)).

(** A non-zero content length sets the length; an upgrade to WebSocket takes it back. *)
Definition length_event f : option (option Z) :=
  if is_name CONTENT_LENGTH f then
    n ← number f; if n =? 0 then None else Some (Some n)
  else if is_name UPGRADE f && says f "websocket" then Some None else None.
Definition chunked_event f : option bool :=
  if is_name TRANSFER_ENCODING f then Some (says f "chunked") else None.
Definition connection_event f : option (option ConnectionType) :=
  if is_name CONNECTION f then
    Some (if says f "keep-alive" then Some KeepAlive
          else if says f "close" then Some Close
          else if says f "upgrade" then Some Upgrade else None)
  else None.
Definition expects f : bool :=
  is_name EXPECT f && (4 <=? len (value_as_ref f.2)) &&
  bool_decide (take 4 (value_as_ref f.2) = bytes_of_string "100-").

(** ** What all fields decide: the last word counts. *)

Definition last_of {A} (event : HeaderName * HeaderValue -> option A) (fields : list (HeaderName * HeaderValue))
    (none : A) : A := default none (last (omap event fields)).

Definition framing (fields : list (HeaderName * HeaderValue)) : PayloadLength :=
  if last_of chunked_event fields false then PL_Payload (PT_Payload PayloadDecoder.chunked)
  else match last_of length_event fields None with
  | Some n => PL_Payload (PT_Payload (PayloadDecoder.length n))
  | None => if existsb (is_name UPGRADE) fields then PL_Upgrade else PL_None
  end.

Definition head_flags (fields : list (HeaderName * HeaderValue)) (fl : Z) : Z :=
  let fl := match last_of connection_event fields None with
            | Some c => Flags.insert (ctype_flag c) fl
            | None => fl
            end in
  if existsb expects fields then Flags.insert Flags.EXPECT fl else fl.

Definition add_field (m : HeaderMap HeaderName HeaderValue) f := HeaderMap_append f.1 f.2 m.

Definition framed_head (fields : list (HeaderName * HeaderValue)) msg : RequestHead Addr :=
  MkRequestHead (uri msg) (method msg) (version msg) (foldl add_field (headers msg) fields)
    (peer_addr msg) (head_flags fields (flags msg)).

(** ** The loop *)

(** The locals after the fields, starting from given ones. *)
Definition locals_after (fields : list (HeaderName * HeaderValue)) l : Locals :=
  MkLocals (last_of connection_event fields (ka l))
    (has_upgrade l || existsb (is_name UPGRADE) fields)
    (expect l || existsb expects fields)
    (last_of chunked_event fields (chunked l))
    (last_of length_event fields (content_length l)).

Lemma last_of_cons {A} (event : HeaderName * HeaderValue -> option A) f fields none :
  last_of event (f :: fields) none = last_of event fields (default none (event f)).
Proof.
  unfold last_of. cbn [omap list_omap]. destruct (event f) as [a|]; simpl; [|done].
  destruct (omap event fields) as [|b l] eqn:E; [done|].
  destruct (last_is_Some (b :: l)) as [_ [c Hc]]; [done|]. rewrite last_cons, Hc. done.
Qed.

Lemma is_name_ne h h' f : f.1 = std_name h -> h <> h' -> is_name h' f = false.
Proof. intros E Hne. apply bool_decide_eq_false. rewrite E. by intros ?%std_name_inj. Qed.
Lemma is_name_eq h f : f.1 = std_name h -> is_name h f = true.
Proof. intros E. by apply bool_decide_eq_true. Qed.
Lemma is_name_no h f : f.1 <> std_name h -> is_name h f = false.
Proof. apply bool_decide_eq_false. Qed.

(** Rewrite with all that is known about the name of [f]. *)
Ltac know_name h :=
  first
  [ match goal with E : _ = std_name h |- _ => rewrite ?(is_name_eq h _ E) end
  | match goal with E : _ = std_name ?h0 |- _ => rewrite ?(is_name_ne h0 h _ E) by done end
  | match goal with E : _ <> std_name h |- _ => rewrite ?(is_name_no h _ E) end ].
Ltac know_names :=
  know_name CONTENT_LENGTH; know_name TRANSFER_ENCODING; know_name CONNECTION;
  know_name UPGRADE; know_name EXPECT; cbn [andb orb].

Lemma locals_after_nil l : locals_after [] l = l.
Proof. destruct l. unfold locals_after. simpl. by rewrite !orb_false_r. Qed.

Lemma locals_after_one f l :
  locals_after [f] l = MkLocals (default (ka l) (connection_event f)) (has_upgrade l || is_name UPGRADE f)
    (expect l || expects f) (default (chunked l) (chunked_event f)) (default (content_length l) (length_event f)).
Proof. unfold locals_after. rewrite !last_of_cons. simpl. by rewrite !orb_false_r. Qed.

Lemma locals_after_cons f fields l : locals_after (f :: fields) l = locals_after fields (locals_after [f] l).
Proof.
  rewrite locals_after_one. unfold locals_after. rewrite !last_of_cons. cbn [ka has_upgrade expect chunked content_length existsb].
  by rewrite !orb_assoc.
Qed.

Lemma header_local_step msg l f :
  set_header_local f.1 f.2 (msg, l) =
  if bad f then ((msg, l), Err PE_Header) else ((msg, locals_after [f] l), Ok tt).
Proof.
  rewrite locals_after_one. unfold set_header_local, bad.
  unfold connection_event, chunked_event, length_event, expects.
  destruct l as [lk lu le lc ln]. cbn [ka has_upgrade expect chunked content_length].
  destruct (decide (f.1 = std_name CONTENT_LENGTH)) as [E|N1].
  { know_names. unfold number. destruct (value_to_str f.2) as [s|]; cbn [mbind option_bind]; [|done].
    destruct (parse_u64 s) as [n|]; [|done]. rewrite !orb_false_r. cbn [mbind option_bind].
    rewrite bool_decide_false by done. by destruct (n =? 0). }
  destruct (decide (f.1 = std_name TRANSFER_ENCODING)) as [E|N2].
  { know_names. unfold says. destruct (value_to_str f.2) as [s|]; [|done].
    by rewrite !orb_false_r. }
  destruct (decide (f.1 = std_name CONNECTION)) as [E|N3].
  { know_names. rewrite !orb_false_r. unfold says. by destruct (value_to_str f.2). }
  destruct (decide (f.1 = std_name UPGRADE)) as [E|N4].
  { know_names. rewrite orb_true_r, orb_false_r. unfold says.
    destruct (value_to_str f.2) as [s|]; [|done]. cbn [fmap option_fmap option_map].
    by destruct (eq_ignore_ascii_case (trim s) _). }
  destruct (decide (f.1 = std_name EXPECT)) as [E|N5].
  { know_names. rewrite orb_false_r. cbn [default].
    destruct (_ && _); by rewrite ?orb_true_r, ?orb_false_r. }
  know_names. by rewrite !orb_false_r.
Qed.

Lemma cut_slice {E} slc r b : cut slc r = Some b -> slice (E:=E) slc r.1 (r.2 - r.1) = Ok b.
Proof.
  unfold cut, slice, slice_from, slice_to. destruct (_ && _); cbn [mbind outcome_bind]; [|done].
  destruct (_ && _); [|done]. by intros [= ->].
Qed.

Lemma set_headers_loop_fields slc hs : forall fields msg l,
  mapM (field slc) hs = Some fields ->
  if existsb bad fields
  then exists s, set_headers_loop slc hs (msg, l) = (s, Err PE_Header)
  else set_headers_loop slc hs (msg, l) =
    ((set_headers_of (foldl add_field (headers msg) fields) msg, locals_after fields l), Ok tt).
Proof.
  induction hs as [|idx hs IH]; intros fields msg l Hf.
  { destruct fields; [|done]. cbn [existsb set_headers_loop foldl]. rewrite locals_after_nil. by destruct msg. }
  cbn [mapM] in Hf. apply bind_Some in Hf as ([n v] & Hf & Hr). apply bind_Some in Hr as (fields' & Hr & [= <-]).
  unfold field in Hf. apply bind_Some in Hf as (nb & E1 & Hf). apply bind_Some in Hf as (n' & E2 & Hf).
  apply bind_Some in Hf as (vb & E3 & [= -> <-]). cbn [set_headers_loop].
  rewrite (cut_slice _ _ _ E1), bind_lift_Ok, E2. cbn [unwrap]. rewrite bind_lift_Ok.
  rewrite (cut_slice _ _ _ E3), bind_lift_Ok. cbv zeta.
  pose proof (header_local_step msg l (n, value_from_shared vb)) as Hs. cbn [fst snd] in Hs.
  cbn [existsb foldl]. destruct (bad (n, value_from_shared vb)); cbn [orb].
  { eexists. by rewrite (bind_eq_Err _ _ _ _ _ Hs). }
  rewrite (bind_eq _ _ _ _ _ Hs), bind_modify. cbn [fst snd].
  specialize (IH fields' (mt_set_headers (HeaderMap_append n (value_from_shared vb) (mt_headers msg)) msg)
    (locals_after [(n, value_from_shared vb)] l) Hr).
  destruct (existsb bad fields'); [exact IH|]. rewrite IH, (locals_after_cons _ fields').
  by destruct msg.
Qed.

Lemma set_headers_fields slc hs fields msg :
  mapM (field slc) hs = Some fields ->
  if existsb bad fields
  then exists msg', set_headers slc hs msg = (msg', Err PE_Header)
  else set_headers slc hs msg = (framed_head fields msg, Ok (framing fields)).
Proof.
  intros Hf. unfold set_headers.
  pose proof (set_headers_loop_fields slc hs fields msg (MkLocals None false false false None) Hf) as Hl.
  destruct (existsb bad fields).
  - destruct Hl as [[msg' l'] ->]. by eexists.
  - rewrite Hl. unfold locals_after, framing, framed_head, head_flags. cbn [ka has_upgrade expect chunked content_length orb].
    f_equal. cbn. destruct msg. by destruct (last_of connection_event fields None), (existsb expects fields).
Qed.

(** ** Requests on the wire *)

Inductive Body := NoBody | Sized (b : list Z) | Chunks (msgs : list (list Z)).

Definition body_bytes (b : Body) : list Z :=
  match b with
  | NoBody => []
  | Sized b => b
  | Chunks msgs => (msgs ≫= chunk_bytes) ++ last_chunk
  end.
Definition body_content (b : Body) : list Z :=
  match b with NoBody => [] | Sized b => b | Chunks msgs => concat msgs end.

(** A request as it is sent: the bytes of its head with what [httparse] makes of
    them, and its body. *)
Record Wire := MkWire { w_head : list Z; w_raw : RawRequest; w_body : Body }.
Definition wire_bytes (w : Wire) : list Z := w_head w ++ body_bytes (w_body w).

(** The parts of a head, when all of them are acceptable. *)
Definition parts (w : Wire) : option (Method * Uri * Version * list (HeaderName * HeaderValue)) :=
  mb ← rr_method (w_raw w); m ← method_from_bytes mb;
  pb ← rr_path (w_raw w); u ← uri_try_from pb;
  v ← rr_version (w_raw w);
  fields ← mapM (fun h => field (w_head w)
    (MkHeaderIndex ((rh_name h).1, (rh_name h).1 + (rh_name h).2)
                   ((rh_value h).1, (rh_value h).1 + (rh_value h).2))) (rr_headers (w_raw w));
  if existsb bad fields then None else Some (m, u, of_version v, fields).

(** The fields ask for the framing that the body has. *)
Definition body_matches (m : Method) (fields : list (HeaderName * HeaderValue)) (b : Body) : Prop :=
  match b with
  | NoBody => framing fields = PL_None /\ m <> CONNECT
  | Sized b => framing fields = PL_Payload (PT_Payload (PayloadDecoder.length (len b)))
  | Chunks msgs => framing fields = PL_Payload (PT_Payload PayloadDecoder.chunked) /\
      Forall (fun m => m <> []) msgs
  end.

(** [httparse] reads the head whatever follows it, and the head can be used. *)
Definition wire_ok (w : Wire) : Prop :=
  (forall tail, parse_request (w_head w ++ tail) = (w_raw w, inr (Complete (len (w_head w))))) /\
  (length (rr_headers (w_raw w)) <= MAX_HEADERS)%nat /\
  match parts w with
  | Some (m, _, _, fields) => body_matches m fields (w_body w)
  | None => False
  end.

(** The framing can be checked by evaluation. *)
Definition matches_bool (m : Method) (fields : list (HeaderName * HeaderValue)) (b : Body) : bool :=
  match b, framing fields with
  | NoBody, PL_None => negb (bool_decide (m = CONNECT))
  | Sized b, PL_Payload (PT_Payload (MkPayloadDecoder (KLength n))) => n =? len b
  | Chunks msgs, PL_Payload (PT_Payload (MkPayloadDecoder (KChunked Size 0))) =>
      forallb (fun m => negb (bool_decide (m = []))) msgs
  | _, _ => false
  end.

Lemma matches_bool_ok m fields b : matches_bool m fields b = true -> body_matches m fields b.
Proof.
  unfold matches_bool, body_matches. destruct b as [|b|msgs]; destruct (framing fields) as [[|[[n|[] []|]]|]| |]; try done.
  - intros H. split; [done|]. by apply negb_true_iff, bool_decide_eq_false in H.
  - by intros ->%Z.eqb_eq.
  - intros H. split; [done|]. apply Forall_forall. intros m' Hm. rewrite forallb_forall in H.
    by apply list_elem_of_In, H, negb_true_iff, bool_decide_eq_false in Hm.
Qed.

(** The head as the service sees it, up to the peer address, which the
    dispatcher sets. *)
Definition forget_peer msg : RequestHead Addr :=
  MkRequestHead (uri msg) (method msg) (version msg) (headers msg) None (flags msg).
Definition expected (w : Wire) : option (RequestHead Addr) :=
  '(m, u, v, fields) ← parts w;
  Some (MkRequestHead u m v (foldl add_field HeaderMap_new fields) None (head_flags fields 0)).

Lemma get_message_fresh (pool : MessagePool Addr) :
  let msg := (get_message pool).2 in
  headers msg = HeaderMap_new /\ flags msg = 0.
Proof. unfold get_message. by destruct (reverse pool). Qed.

Lemma record_fields slc hs : forall uninit,
  (length hs <= length uninit)%nat ->
  exists idx, slice_to (E:=ParseError) (HeaderIndex_record hs uninit) (len hs) = Ok idx /\
    mapM (field slc) idx = mapM (fun h => field slc
      (MkHeaderIndex ((rh_name h).1, (rh_name h).1 + (rh_name h).2)
                     ((rh_value h).1, (rh_value h).1 + (rh_value h).2))) hs.
Proof.
  intros uninit Hl. exists (take (length hs) (HeaderIndex_record hs uninit)). split.
  - assert (length (HeaderIndex_record hs uninit) = length uninit) as Hlen.
    { clear Hl. revert uninit. induction hs as [|h hs IH]; intros [|i uninit]; simpl; auto. }
    rewrite slice_to_Ok by (unfold len; lia). unfold len. by rewrite Nat2Z.id.
  - revert uninit Hl. induction hs as [|h hs IH]; intros [|i uninit] Hl; simpl in Hl |- *; try done; [lia|].
    destruct (field slc _); simpl; [|done]. by rewrite (IH uninit) by lia.
Qed.

Section Pipeline.
Context `{BM : BytesMut B}.
Implicit Types src : B.

Definition payload_of (b : Body) : PayloadType :=
  match b with
  | NoBody => PT_None
  | Sized b => PT_Payload (PayloadDecoder.length (len b))
  | Chunks _ => PT_Payload PayloadDecoder.chunked
  end.

Lemma surjective_let {A C E} (p : A * C) : (let '(a, b) := p in (b, Ok a)) = (p.2, Ok p.1 : outcome E A).
Proof. by destruct p. Qed.

Lemma split_to_app {E} src a rest :
  buf_bytes src = a ++ rest -> exists slc src', split_to (E:=E) (len a) src = (src', Ok slc) /\
    buf_bytes slc = a /\ buf_bytes src' = rest.
Proof.
  intros Hs. destruct (bm_split_to_bytes src (Z.to_nat (len a))) as [S1 S2].
  { rewrite Hs, length_app. unfold len. lia. }
  pose proof (len_nonneg rest). pose proof (len_nonneg a).
  exists (bm_split_to src (Z.to_nat (len a))).1, (bm_split_to src (Z.to_nat (len a))).2.
  rewrite S1, S2, Hs. unfold split_to.
  rewrite Hs, len_app, (proj2 (Z.leb_le _ _)), (proj2 (Z.leb_le _ _)) by lia. cbn [andb].
  unfold len. rewrite Nat2Z.id, take_app_length, drop_app_length. split; [|done].
  apply surjective_let.
Qed.

Lemma Request_finish_wire w m u v fields hs idx pool src rest :
  parts w = Some (m, u, v, fields) -> body_matches m fields (w_body w) ->
  slice_to (E:=ParseError) hs (len (rr_headers (w_raw w))) = Ok idx -> mapM (field (w_head w)) idx = Some fields ->
  existsb bad fields = false -> buf_bytes src = w_head w ++ rest -> len rest < MAX_BUFFER_SIZE ->
  exists pool' src' req,
    Request_finish (len (w_head w)) m u v hs (len (rr_headers (w_raw w))) (pool, src) =
      ((pool', src'), Ok (Some (req, payload_of (w_body w)))) /\
    expected w = Some (forget_peer req) /\ buf_bytes src' = rest.
Proof.
  intros Hparts Hw Hidx Hmap Hbad Hsrc Hrest. unfold expected. rewrite Hparts. cbn [mbind option_bind].
  unfold Request_finish. rewrite bind_gets. cbn [fst].
  pose proof (get_message_fresh pool) as Hfresh. destruct (get_message pool) as [pool' msg]. cbn [snd] in Hfresh.
  destruct Hfresh as [Hhd Hfl]. rewrite bind_modify. cbn [snd].
  destruct (split_to_app (E:=ParseError) src (w_head w) rest Hsrc) as (slc & src' & Hs & Hslc & Hrst).
  erewrite bind_eq; [|unfold zoom; cbn [snd]; rewrite Hs; reflexivity]. cbn [fst].
  rewrite Hidx, bind_lift_Ok.
  pose proof (set_headers_fields (w_head w) idx fields msg Hmap) as Hset. rewrite Hbad in Hset.
  rewrite Hslc, Hset, bind_gets. cbn [snd].
  destruct (w_body w) as [|b|msgs]; cbn [body_matches payload_of] in *.
  - destruct Hw as [-> Hm]. rewrite decide_False by done. rewrite Hrst, (proj2 (Z.leb_gt _ _)) by lia.
    do 3 eexists. split; [reflexivity|]. split; [|done]. unfold forget_peer. simpl. by rewrite Hhd, Hfl.
  - rewrite Hw. do 3 eexists. split; [reflexivity|]. split; [|done]. unfold forget_peer. simpl. by rewrite Hhd, Hfl.
  - destruct Hw as [-> _]. do 3 eexists. split; [reflexivity|]. split; [|done].
    unfold forget_peer. simpl. by rewrite Hhd, Hfl.
Qed.

Lemma Request_decode_wire w uninit pool src rest :
  wire_ok w -> length uninit = MAX_HEADERS -> buf_bytes src = w_head w ++ rest ->
  len rest < MAX_BUFFER_SIZE ->
  exists pool' src' req, Request_decode uninit (pool, src) =
      ((pool', src'), Ok (Some (req, payload_of (w_body w)))) /\
    expected w = Some (forget_peer req) /\ buf_bytes src' = rest.
Proof.
  intros (Hp & Hh & Hw) Hu Hsrc Hrest. unfold Request_decode. rewrite bind_gets. cbn [snd].
  rewrite Hsrc, Hp. destruct (parts w) as [[[[m u] v] fields]|] eqn:Hparts; [|done].
  pose proof Hparts as Hps. unfold parts in Hps.
  apply bind_Some in Hps as (mb & E1 & Hps). apply bind_Some in Hps as (m' & E2 & Hps).
  apply bind_Some in Hps as (pb & E3 & Hps). apply bind_Some in Hps as (u' & E4 & Hps).
  apply bind_Some in Hps as (v' & E5 & Hps). apply bind_Some in Hps as (fs & E6 & Hps).
  destruct (existsb bad fs) eqn:Hbad; [done|]. injection Hps as -> -> Hv ->.
  rewrite E1, E3, E5. cbn [unwrap]. rewrite bind_lift_Ok, E2. cbn [ok_or]. rewrite !bind_lift_Ok, E4.
  cbn [ok_or]. rewrite !bind_lift_Ok, Hv.
  destruct (record_fields (w_head w) (rr_headers (w_raw w)) uninit ltac:(lia)) as (idx & Hidx & Hmap).
  rewrite E6 in Hmap. by eapply Request_finish_wire.
Qed.

(** ** Reading requests *)

(** Chunks are decoded until the end of the body. *)
Fixpoint read_payload (uninit : list HeaderIndex) (fuel : nat) : SE (ConnState (Addr:=Addr)) ParseError (option (list Z)) :=
  match fuel with
  | O => panic
  | S fuel =>
      r ← Codec_decode uninit;
      match r with
      | Some (MChunk (Some b)) => o ← read_payload uninit fuel; mret (fmap (app b) o)
      | Some (MChunk None) => mret (Some [])
      | _ => mret None
      end
  end.

(** One request: its head, and its body when there is a payload decoder. *)
Definition read_request (uninit : list HeaderIndex) : SE (ConnState (Addr:=Addr)) ParseError (option (RequestHead Addr * list Z)) :=
  r ← Codec_decode uninit;
  match r with
  | Some (Item req) =>
      s ← get;
      match c_payload s.1 with
      | None => mret (Some (req, []))
      | Some _ =>
          body ← read_payload uninit (S (length (buf_bytes s.2.2)));
          mret (pair req <$> body)
      end
  | _ => mret None
  end.

(** [n] requests after each other *)
Fixpoint read_requests (uninit : list HeaderIndex) (n : nat) : SE (ConnState (Addr:=Addr)) ParseError (list (option (RequestHead Addr * list Z))) :=
  match n with
  | O => mret []
  | S n => r ← read_request uninit; rs ← read_requests uninit n; mret (r :: rs)
  end.

Lemma read_payload_drain uninit fuel : forall c pl pool src pl' src' o,
  c_payload c = Some pl -> drain fuel (pl, src) = ((pl', src'), Ok (o, true)) ->
  read_payload uninit fuel (c, (pool, src)) = ((set_payload None c, (pool, src')), Ok (Some o)).
Proof.
  induction fuel as [|fuel IH]; intros c pl pool src pl' src' o Hc Hd; [done|].
  cbn [drain read_payload] in *. unfold Codec_decode at 1. unfold mbind, SE_bind in Hd |- *. rewrite Hc.
  destruct (PayloadDecoder.decode (pl, src)) as [[pl1 src1] [[[b|]|]|e|]]; try done.
  - destruct (drain fuel (pl1, src1)) as [[pl2 src2] [[o2 eof]|e|]] eqn:Hd2; try done.
    injection Hd as -> -> <- ->. by rewrite (IH (set_payload (Some pl1) c) pl1 pool src1 pl' src' o2).
  - by injection Hd as <- <- <-.
Qed.

Lemma drain_body b src rest :
  b <> NoBody -> buf_bytes src = body_bytes b ++ rest -> len (body_bytes b ++ rest) < 2 ^ 64 ->
  match b with Chunks msgs => Forall (fun m => m <> []) msgs | _ => True end ->
  exists pl' src', match payload_of b with
    | PT_Payload pl => drain (S (length (buf_bytes src))) (pl, src) = ((pl', src'), Ok (body_content b, true))
    | _ => False
    end /\ buf_bytes src' = rest.
Proof.
  intros Hb Hs Hl Hne. destruct b as [|b|msgs]; [done| |]; cbn [payload_of body_bytes body_content] in *.
  - pose proof (len_nonneg b). pose proof (len_nonneg rest).
    destruct (sized_drain (S (length (buf_bytes src))) (len b) src ltac:(lia) ltac:(lia)) as (src' & Hd & Hr).
    rewrite Hs, len_app, Z.min_l, (proj2 (Z.leb_le _ _)) in Hd by lia. rewrite Hs, len_app, Z.min_l in Hr by lia.
    unfold len in Hd, Hr. rewrite Nat2Z.id, take_app_length in Hd. rewrite Nat2Z.id, drop_app_length in Hr.
    rewrite Hs. unfold sized in Hd. do 2 eexists. split; [exact Hd|exact Hr].
  - assert (len (concat msgs) < 2 ^ 64) as Hm.
    { revert Hl. rewrite !len_app. intros Hl. pose proof (len_nonneg rest). change (len last_chunk) with 5 in Hl.
      enough (len (concat msgs) <= len (msgs ≫= chunk_bytes)) by lia.
      clear. induction msgs as [|m msgs IH]; [done|]. rewrite bind_cons. cbn [concat]. rewrite !len_app.
      enough (len m <= len (chunk_bytes m)) by lia. unfold chunk_bytes. rewrite !len_app.
      pose proof (len_nonneg (upper_hex (len m))). unfold len. simpl. lia. }
    pose proof (chunked_drain_spec (S (length (buf_bytes src))) Size 0 src ltac:(lia) ltac:(done)) as Hd.
    rewrite Hs, <- (assoc_L (++)), feed_encoded in Hd by done. destruct Hd as (src' & _ & Hr & Hd).
    rewrite Hs, <- (assoc_L (++)). do 2 eexists. split; [exact Hd|exact Hr].
Qed.

Lemma read_request_wire w uninit c pool src rest :
  wire_ok w -> length uninit = MAX_HEADERS -> c_payload c = None ->
  buf_bytes src = wire_bytes w ++ rest -> len (body_bytes (w_body w) ++ rest) < MAX_BUFFER_SIZE ->
  exists c' pool' src' req, read_request uninit (c, (pool, src)) =
      ((c', (pool', src')), Ok (Some (req, body_content (w_body w)))) /\
    expected w = Some (forget_peer req) /\ c_payload c' = None /\ buf_bytes src' = rest.
Proof.
  intros Hw Hu Hc Hsrc Hl. unfold wire_bytes in Hsrc. rewrite <- (assoc_L (++)) in Hsrc.
  destruct (Request_decode_wire w uninit pool src _ Hw Hu Hsrc Hl) as (pool' & src1 & req & Hd & He & Hs1).
  assert (Codec_decode uninit (c, (pool, src)) =
    ((Codec_on_head req (payload_of (w_body w)) c, (pool', src1)), Ok (Some (Item req)))) as Hcd.
  { unfold Codec_decode. by rewrite Hc, Hd. }
  unfold read_request. rewrite (bind_eq _ _ _ _ _ Hcd). unfold mbind at 1, SE_bind, get. cbn [fst snd].
  assert (w_body w = NoBody \/ w_body w <> NoBody) as [Hb|Hb] by (destruct (w_body w); [by left|by right|by right]).
  { rewrite Hb in Hs1 |- *. do 4 eexists. split; [reflexivity|]. done. }
  destruct (drain_body (w_body w) src1 rest Hb Hs1) as (pl' & src' & Hdr & Hr).
  { unfold MAX_BUFFER_SIZE in Hl. lia. }
  { destruct Hw as (_ & _ & Hw). destruct (parts w) as [[[[m u] v] fields]|]; [|done].
    destruct (w_body w); [done|done|]. apply Hw. }
  destruct (payload_of (w_body w)) as [|pl|pl]; [done| |done].
  pose proof (read_payload_drain uninit _ (Codec_on_head req (PT_Payload pl) c) pl pool' src1 pl' src' _ eq_refl Hdr) as Hp.
  change (c_payload (Codec_on_head req (PT_Payload pl) c)) with (Some pl). cbv iota beta.
  rewrite (bind_eq _ _ _ _ _ Hp).
  do 4 eexists. split; [reflexivity|]. done.
Qed.

Lemma read_requests_wires ws : forall uninit c pool src rest,
  Forall wire_ok ws -> length uninit = MAX_HEADERS -> c_payload c = None ->
  buf_bytes src = (ws ≫= wire_bytes) ++ rest -> len (buf_bytes src) < MAX_BUFFER_SIZE ->
  exists c' pool' src' reqs, read_requests uninit (length ws) (c, (pool, src)) =
      ((c', (pool', src')), Ok (Some <$> reqs)) /\
    Forall2 (fun w r => expected w = Some (forget_peer r.1) /\ r.2 = body_content (w_body w)) ws reqs /\
    c_payload c' = None /\ buf_bytes src' = rest.
Proof.
  induction ws as [|w ws IH]; intros uninit c pool src rest Hws Hu Hc Hsrc Hl.
  { exists c, pool, src, []. by split_and!. }
  apply Forall_cons in Hws as [Hw Hws]. rewrite bind_cons, <- (assoc_L (++)) in Hsrc.
  assert (len (body_bytes (w_body w) ++ (ws ≫= wire_bytes) ++ rest) < MAX_BUFFER_SIZE) as Hl'.
  { rewrite Hsrc in Hl. unfold wire_bytes at 1 in Hl. rewrite !len_app in *. pose proof (len_nonneg (w_head w)). lia. }
  destruct (read_request_wire w uninit c pool src _ Hw Hu Hc Hsrc Hl') as (c1 & pool1 & src1 & req & Hr & He & Hc1 & Hs1).
  destruct (IH uninit c1 pool1 src1 rest Hws Hu Hc1 Hs1) as (c2 & pool2 & src2 & reqs & Hrs & Hf & Hc2 & Hs2).
  { rewrite Hs1. rewrite len_app in Hl'. pose proof (len_nonneg (body_bytes (w_body w))). lia. }
  exists c2, pool2, src2, ((req, body_content (w_body w)) :: reqs). split_and!; [|by constructor|done|done].
  cbn [length read_requests]. rewrite (bind_eq _ _ _ _ _ Hr), (bind_eq _ _ _ _ _ Hrs). done.
Qed.

End Pipeline.

(** C27. The framing of a request is the last word of its header fields, as a
    function of the list of fields: the message is refused exactly when a content
    length is not a number of 64 bits or a transfer encoding is not text;
    otherwise it is chunked when the last transfer encoding is [chunked], else it
    has the last non-zero content length that no WebSocket upgrade follows, else it
    is an upgrade when there is an upgrade field.  All fields are added to the head
    in order, and its connection type is that of the last connection field. *)
Theorem framing_of_fields slc hs fields msg :
  mapM (field slc) hs = Some fields ->
  if existsb bad fields
  then exists msg', set_headers slc hs msg = (msg', Err PE_Header)
  else set_headers slc hs msg = (framed_head fields msg, Ok (framing fields)).
Proof. apply set_headers_fields. Qed.

(** C25. Pipelined requests are kept apart.  When the connection buffer holds a
    sequence of whole requests, below [MAX_BUFFER_SIZE] (131072 bytes) together with what
    follows, each with a head that [httparse] accepts whatever follows it, of at most
    [MAX_HEADERS] fields, and with no body, a body of its Content-Length, or a chunked
    body whose chunks are written as the encoder writes them, then the server codec
    returns the heads and bodies in order and leaves the bytes behind the last request,
    ready for the next head.  The heads do not depend on what is left in the pool of
    heads: nothing of an earlier request shows (the peer address apart, which the
    dispatcher sets). *)
Theorem pipelined_requests `{BM : BytesMut B} ws uninit c pool (src : B) rest :
  Forall wire_ok ws -> length uninit = MAX_HEADERS -> c_payload c = None ->
  buf_bytes src = (ws ≫= wire_bytes) ++ rest -> len (buf_bytes src) < MAX_BUFFER_SIZE ->
  exists c' pool' src' reqs, read_requests uninit (length ws) (c, (pool, src)) =
      ((c', (pool', src')), Ok (Some <$> reqs)) /\
    Forall2 (fun w r => expected w = Some (forget_peer r.1) /\ r.2 = body_content (w_body w)) ws reqs /\
    c_payload c' = None /\ buf_bytes src' = rest.
Proof. apply read_requests_wires. Qed.

End Framing.

(** ** Instances

    Two requests, and an [httparse] that knows their heads. *)

Module ModelRequests.
Import ModelHttp ModelH1.

Definition crlf : list Z := [13; 10].
Definition post_line : list Z := bytes_of_string "POST /a HTTP/1.1" ++ crlf.
Definition post_head : list Z :=
  post_line ++ bytes_of_string "Content-Length: 2" ++ crlf ++ bytes_of_string "Connection: close" ++ crlf ++ crlf.
Definition get_head : list Z := bytes_of_string "GET /b HTTP/1.0" ++ crlf ++ crlf.

Definition post_raw : RawRequest :=
  MkRawRequest (Some (bytes_of_string "POST")) (Some (bytes_of_string "/a")) (Some 1)
    [MkRawHeader (18, 14) (34, 1); MkRawHeader (37, 10) (49, 5)].
Definition get_raw : RawRequest :=
  MkRawRequest (Some (bytes_of_string "GET")) (Some (bytes_of_string "/b")) (Some 0) [].

#[export] Instance sample_httparse : Httparse := {|
  parse_request src :=
    if decide (take (length post_head) src = post_head) then (post_raw, inr (Complete (len post_head)))
    else if decide (take (length get_head) src = get_head) then (get_raw, inr (Complete (len get_head)))
    else (MkRawRequest None None None [], inr Partial);
  parse_response src := (MkRawResponse None None [], inr Partial)
|}.

Definition post_wire : Wire := MkWire post_head post_raw (Sized (bytes_of_string "Hi")).
Definition get_wire : Wire := MkWire get_head get_raw NoBody.
Definition sample_uninit : list HeaderIndex := replicate 96 (MkHeaderIndex (7, 3) (0, 99)).

Definition check_parts (w : Wire) : bool :=
  match parts w with Some (m, _, _, fields) => matches_bool m fields (w_body w) | None => false end.

Lemma check_wire_ok w :
  (forall tail, parse_request (w_head w ++ tail) = (w_raw w, inr (Complete (len (w_head w))))) ->
  (length (rr_headers (w_raw w)) <=? MAX_HEADERS)%nat && check_parts w = true -> wire_ok w.
Proof.
  intros Hp [Hl Hc]%andb_prop. apply Nat.leb_le in Hl. split; [done|]. split; [done|].
  unfold check_parts in Hc. destruct (parts w) as [[[[m u] v] fields]|]; [by apply matches_bool_ok|done].
Qed.

Lemma sample_wires_ok : Forall wire_ok [post_wire; get_wire].
Proof.
  apply Forall_cons. split; [|apply Forall_singleton]; (apply check_wire_ok; [|vm_compute; reflexivity]); intros tail.
  - unfold parse_request, sample_httparse. cbn [w_head post_wire].
    by rewrite take_app_length, decide_True by done.
  - unfold parse_request, sample_httparse. cbn [w_head get_wire].
    rewrite decide_False by (vm_compute; congruence). by rewrite take_app_length, decide_True by done.
Qed.
End ModelRequests.
Import ModelHttp ModelH1 ModelRequests.

Lemma pipelined_requests_witness :
  let src := wire_bytes post_wire ++ wire_bytes get_wire ++ [71; 69] in
  exists c' pool' src' reqs,
    read_requests (Addr:=()) sample_uninit 2 (Codec_new true, ([], src)) =
      ((c', (pool', src')), Ok (Some <$> reqs)) /\
    Forall2 (fun w r => expected w = Some (forget_peer r.1) /\ r.2 = body_content (w_body w))
      [post_wire; get_wire] reqs /\
    c_payload c' = None /\ buf_bytes src' = [71; 69].
Proof.
  refine (pipelined_requests [post_wire; get_wire] sample_uninit (Codec_new true) []
    (wire_bytes post_wire ++ wire_bytes get_wire ++ [71; 69]) [71; 69] _ _ _ _ _).
  - exact sample_wires_ok.
  - reflexivity.
  - reflexivity.
  - reflexivity.
  - vm_compute. reflexivity.
Defined.

(** A request with two content lengths: the second one counts. *)
Definition two_lengths : list Z := bytes_of_string "Content-Length: 2" ++ crlf ++ bytes_of_string "Content-Length: 3" ++ crlf.
Definition two_indices : list HeaderIndex := [MkHeaderIndex (0, 14) (16, 17); MkHeaderIndex (19, 33) (35, 36)].
Definition two_fields : list (HeaderName * HeaderValue) := default [] (mapM (field two_lengths) two_indices).

Lemma framing_of_fields_witness :
  length two_fields = 2%nat /\
  (set_headers two_lengths two_indices (RequestHead_default (Addr:=()))).2 =
    Ok (PL_Payload (PT_Payload (PayloadDecoder.length 3))).
Proof.
  split; [vm_compute; reflexivity|].
  assert (mapM (field two_lengths) two_indices = Some two_fields) as Hf.
  { assert (bool_decide (mapM (field two_lengths) two_indices = None) = false) as H%bool_decide_eq_false.
    { unfold bool_decide. assert (match mapM (field two_lengths) two_indices with Some _ => true | None => false end = true) as H by (vm_compute; reflexivity).
      by destruct (mapM (field two_lengths) two_indices). }
    unfold two_fields. by destruct (mapM (field two_lengths) two_indices). }
  pose proof (framing_of_fields two_lengths two_indices two_fields (RequestHead_default (Addr:=())) Hf) as H.
  assert (existsb bad two_fields = false) as Hb by (vm_compute; reflexivity). rewrite Hb in H. rewrite H.
  assert (framing two_fields = PL_Payload (PT_Payload (PayloadDecoder.length 3))) as Hfr by (vm_compute; reflexivity).
  cbn [snd]. by rewrite Hfr.
Defined.
