(* ===== verification/H1Encode.v ===== *)
(** * HTTP/1 message encoding ([http/h1/encoder.rs], [http/h1/codec.rs],
    [http/h1/client.rs])

    The heads of responses and requests are written into the spare capacity of
    the output buffer through raw pointers.  A pointer is an offset into the
    spare memory, and a write that leaves the spare memory is a [Panic]. *)

From Stdlib Require Import Ascii String.
From S2P Require Import Prelude Bytes HttpTypes H1Body H1Head H1HeaderMap H1Message H1Codec.

(** ** The output buffer *)

(** [bytes::BytesMut] with its spare capacity.  [reserve] makes room for at least
    [n] more bytes; [bytes_mut] gives access to the spare memory, growing a full
    buffer first; [advance_mut] appends bytes of the spare memory that were
    written.  The contents of fresh memory are arbitrary. *)
Class RawBuf (B : Type) := {
  rb_mut :: BytesMut B;
  spare : B -> list Z;
  reserve : Z -> B -> B;
  reserve_bytes n b : buf_bytes (reserve n b) = buf_bytes b;
  reserve_spare n b : n <= len (spare (reserve n b));
  bytes_mut : B -> B;
  bytes_mut_bytes b : buf_bytes (bytes_mut b) = buf_bytes b;
  bytes_mut_spare b : spare b <> [] -> spare (bytes_mut b) = spare b;
  write_spare : list Z -> B -> B;
  write_spare_bytes s b : buf_bytes (write_spare s b) = buf_bytes b;
  write_spare_spare s b : length s = length (spare b) -> spare (write_spare s b) = s;
  advance_mut : nat -> B -> B;
  advance_mut_bytes n b :
    (n <= length (spare b))%nat -> buf_bytes (advance_mut n b) = buf_bytes b ++ take n (spare b);
}.

(** ** Messages *)

(** [http/body.rs] BodySize *)
Inductive BodySize :=
  | BS_None
  | BS_Empty
  | BS_Sized (n : Z)
  | BS_Sized64 (n : Z)
  | BS_Stream.
#[export] Instance BodySize_eq_dec : EqDecision BodySize.
Proof. solve_decision. Defined.

(** [canonical_reason] of a status and [path_and_query] of a URI *)
Class H1Texts `{H1 : H1Types} := {
  canonical_reason : StatusCode -> option (list Z);
  uri_path_and_query : Uri -> option (list Z);
}.

Section Encoder.
Context `{HX : H1Texts}.

(** [http/h1/encoder.rs:37-49] MessageType: what the provided methods read of a
    message *)
Class EncMessage (T : Type) := {
  em_status : T -> option StatusCode;
  em_headers : T -> HeaderMap HeaderName HeaderValue;
  em_extra_headers : T -> option (HeaderMap HeaderName HeaderValue);
  em_camel_case : T -> bool;
  em_chunked : T -> bool;
}.

(** [http/h1/encoder.rs:241-259] MessageType for Response *)
#[export] Instance Response_EncMessage : EncMessage ResponseHead := {|
  em_status h := Some (rs_status h);
  em_headers := rs_hdrs;
  em_extra_headers h := None;
  em_camel_case h := false;
  em_chunked := ResponseHead_chunked
|}.

Context {Addr : Type}.

(** [http/message.rs] RequestHeadType *)
Inductive RequestHeadType :=
  | Owned (head : RequestHead Addr)
  | Shared (head : RequestHead Addr) (extra : option (HeaderMap HeaderName HeaderValue)).

(** [http/message.rs] RequestHeadType as AsRef::as_ref *)
Definition RequestHeadType_as_ref (h : RequestHeadType) : RequestHead Addr :=
  match h with Owned head => head | Shared head _ => head end.
(** [http/message.rs] RequestHeadType::extra_headers *)
Definition RequestHeadType_extra_headers (h : RequestHeadType) : option (HeaderMap HeaderName HeaderValue) :=
  match h with Owned _ => None | Shared _ extra => extra end.

(** [http/h1/encoder.rs:274-293] MessageType for RequestHeadType *)
#[export] Instance RequestHeadType_EncMessage : EncMessage RequestHeadType := {|
  em_status h := None;
  em_headers h := headers (RequestHeadType_as_ref h);
  em_extra_headers := RequestHeadType_extra_headers;
  em_camel_case h := RequestHead_camel_case_headers (RequestHeadType_as_ref h);
  em_chunked h := RequestHead_chunked (RequestHeadType_as_ref h)
|}.

Context `{RB : RawBuf B}.
Abbreviation Enc := (SE B IoError).

Definition put (s : list Z) : Enc () := modify (fun dst => put_slice dst s).
Definition text (s : string) : list Z := bytes_of_string s.
Definition CRLF : list Z := [CR; LF].

(** *** Status lines *)

Definition reason (h : ResponseHead) : list Z :=
  match rs_reason h with
  | Some r => r
  | None => default (text "<unknown status code>") (canonical_reason (rs_status h))
  end.

(** [http/h1/encoder.rs:261-271] Response: encode_status *)
Definition Response_encode_status (h : ResponseHead) : Enc () :=
  _ ← modify (reserve (256 + HeaderMap_len (rs_hdrs h) * 30 + len (reason h)));
  dst ← get;
  dst ← lift (write_status_line (rs_ver h) (status_as_u16 (rs_status h)) dst);
  _ ← modify (fun _ => dst);
  put (reason h).

(** [http/h1/encoder.rs:295-317] RequestHeadType: encode_status *)
Definition RequestHeadType_encode_status (h : RequestHeadType) : Enc () :=
  let head := RequestHeadType_as_ref h in
  _ ← modify (reserve (256 + HeaderMap_len (headers head) * 30));
  _ ← put (method_as_ref (method head));
  _ ← put (text " ");
  _ ← put (default (text "/") (uri_path_and_query (uri head)));
  _ ← put (text " ");
  put (match version head with
       | HTTP_09 => text "HTTP/0.9"
       | HTTP_10 => text "HTTP/1.0"
       | HTTP_11 => text "HTTP/1.1"
       | HTTP_2 => text "HTTP/2.0"
       | HTTP_3 => text "HTTP/3.0"
       end).

(** *** Header fields *)

(** [buf], [pos], [remaining] and [has_date] of [encode_headers]; [buf] is an
    offset into the spare memory. *)
Record Cur := MkCur { cu_buf : Z; cu_pos : Z; cu_remaining : Z; cu_date : bool }.
Abbreviation Wr := (SE (B * Cur) IoError).

(** [http/h1/encoder.rs] write_data, and [buf = buf.add(len)] *)
Definition write_data (value : list Z) : Wr () :=
  s ← get;
  let '(dst, cu) := s in
  pre ← lift (slice_to (spare dst) (cu_buf cu));
  post ← lift (slice_from (spare dst) (cu_buf cu + len value));
  modify (fun _ => (write_spare (pre ++ value ++ post) dst,
                    MkCur (cu_buf cu + len value) (cu_pos cu) (cu_remaining cu) (cu_date cu))).

(** [write_camel_case(k, from_raw_parts_mut(buf, k_len))], and
    [buf = buf.add(k_len)] *)
Definition write_camel (k : list Z) : Wr () :=
  s ← get;
  let '(dst, cu) := s in
  buffer ← lift (slice (spare dst) (cu_buf cu) (len k));
  name ← lift (write_camel_case k buffer);
  write_data name.

(** [http/h1/encoder.rs:168-175] Room for a line of [n] bytes *)
Definition make_room (n : Z) : Wr () :=
  s ← get;
  let '(dst, cu) := s in
  if cu_remaining cu <? n then
    _ ← lift (assert_ (cu_pos cu <=? len (spare dst)));
    let dst := advance_mut (Z.to_nat (cu_pos cu)) dst in
    let dst := reserve (n * 2) dst in
    let remaining := len (spare dst) in
    modify (fun _ => (bytes_mut dst, MkCur 0 0 remaining (cu_date cu)))
  else mret tt.

(** [http/h1/encoder.rs:163-193] One line of a header field *)
Definition write_field (camel_case : bool) (k v : list Z) : Wr () :=
  let n := len k + len v + 4 in
  _ ← make_room n;
  _ ← (if camel_case then write_camel k else write_data k);
  _ ← write_data (text ": ");
  _ ← write_data v;
  _ ← write_data CRLF;
  modify (fun s => (s.1, MkCur (cu_buf s.2) (cu_pos s.2 + n) (cu_remaining s.2 - n) (cu_date s.2))).

Fixpoint write_values (camel_case : bool) (k : list Z) (vec : list HeaderValue) : Wr () :=
  match vec with
  | [] => mret tt
  | val :: vec =>
      _ ← write_field camel_case k (value_as_ref val);
      write_values camel_case k vec
  end.

(** [http/h1/encoder.rs:152-226] The loop over the header fields *)
Fixpoint write_headers (camel_case skip_len : bool) (hs : list (HeaderName * Value HeaderValue)) : Wr () :=
  match hs with
  | [] => mret tt
  | (key, value) :: hs =>
      if decide (key = std_name CONNECTION) then write_headers camel_case skip_len hs
      else if (bool_decide (key = std_name TRANSFER_ENCODING) ||
               bool_decide (key = std_name CONTENT_LENGTH)) && skip_len
      then write_headers camel_case skip_len hs
      else
        _ ← (if decide (key = std_name DATE)
             then modify (fun s => (s.1, MkCur (cu_buf s.2) (cu_pos s.2) (cu_remaining s.2) true))
             else mret tt);
        let k := name_as_ref key in
        _ ← match value with
            | One val => write_field camel_case k (value_as_ref val)
            | Multi vec => write_values camel_case k vec
            end;
        write_headers camel_case skip_len hs
  end.

Section Headers.
Context `{EM : EncMessage T}.
(** The uninitialised scratch array of [write_content_length] and the 29 bytes of
    the current date, which [ServiceConfig] keeps *)
Context (uninit date : list Z).

(** [http/config.rs] ServiceConfig::set_date *)
Definition set_date : Enc () := put (text "date: " ++ date ++ CRLF ++ CRLF).

(** [http/h1/encoder.rs:61-78] The body size and [skip_len] that the status
    allows *)
Definition effective_length (msg : T) (length : BodySize) : BodySize * bool :=
  let skip_len := negb (bool_decide (length = BS_Stream)) in
  match em_status msg with
  | Some status =>
      let n := status_as_u16 status in
      if (n =? 204) || (n =? 100) || (n =? 102) then (BS_None, skip_len)
      else if n =? 101 then (BS_Stream, true)
      else (length, skip_len)
  | None => (length, skip_len)
  end.

(** [http/h1/encoder.rs:79-112] The line that announces the body.  The result is
    [skip_len]. *)
Definition encode_length (camel_case chunked skip_len : bool) (length : BodySize) : Enc bool :=
  match length with
  | BS_Stream =>
      if chunked then
        _ ← put (CRLF ++ (if camel_case then text "Transfer-Encoding: chunked" else text "transfer-encoding: chunked") ++ CRLF);
        mret skip_len
      else
        _ ← put CRLF;
        mret false
  | BS_Empty =>
      _ ← put (CRLF ++ (if camel_case then text "Content-Length: 0" else text "content-length: 0") ++ CRLF);
      mret skip_len
  | BS_Sized n =>
      dst ← get;
      dst ← lift (write_content_length uninit n dst);
      _ ← modify (fun _ => dst);
      mret skip_len
  | BS_Sized64 n =>
      _ ← put (CRLF ++ (if camel_case then text "Content-Length: " else text "content-length: "));
      _ ← put (decimal n);
      _ ← put CRLF;
      mret skip_len
  | BS_None =>
      _ ← put CRLF;
      mret skip_len
  end.

(** [http/h1/encoder.rs:114-132] The connection line *)
Definition connection_line (camel_case : bool) (version : Version) (ctype : ConnectionType) : list Z :=
  match ctype with
  | Upgrade => text "connection: upgrade" ++ CRLF
  | KeepAlive =>
      if before_11 version then
        (if camel_case then text "Connection: keep-alive" else text "connection: keep-alive") ++ CRLF
      else []
  | Close =>
      if before_11 version then []
      else (if camel_case then text "Connection: close" else text "connection: close") ++ CRLF
  end.

(** [http/h1/encoder.rs:134-142] The fields of the head that are not overridden,
    and the extra fields *)
Definition merged (msg : T) : list (HeaderName * Value HeaderValue) :=
  let extra := default HeaderMap_new (em_extra_headers msg) in
  List.filter (fun e => negb (contains_key (Some e.1) extra)) (inner (em_headers msg)) ++ inner extra.

(** [http/h1/encoder.rs] MessageType::encode_headers *)
Definition encode_headers (msg : T) (version : Version) (length : BodySize) (ctype : ConnectionType) : Enc () :=
  let chunked := em_chunked msg in
  let camel_case := em_camel_case msg in
  let '(length, skip_len) := effective_length msg length in
  skip_len ← encode_length camel_case chunked skip_len length;
  _ ← put (connection_line camel_case version ctype);
  dst ← get;
  let remaining := len (spare dst) in
  let dst := bytes_mut dst in
  match write_headers camel_case skip_len (merged msg) (dst, MkCur 0 0 remaining false) with
  | ((dst, cu), Ok _) =>
      _ ← lift (assert_ (cu_pos cu <=? len (spare dst)));
      _ ← modify (fun _ => advance_mut (Z.to_nat (cu_pos cu)) dst);
      if cu_date cu then put CRLF else set_date
  | ((dst, cu), Err e) => throw e
  | ((dst, cu), Panic) => panic
  end.

(** [http/h1/encoder.rs:342-360] The transfer encoding that [MessageEncoder::encode] chooses *)
Definition choose_te (msg : T) (head stream : bool) (length : BodySize) : TransferEncoding :=
  if negb head then
    match length with
    | BS_Empty => TransferEncoding.empty
    | BS_Sized n => TransferEncoding.length n
    | BS_Sized64 n => TransferEncoding.length n
    | BS_Stream =>
        if em_chunked msg && negb stream then TransferEncoding.chunked else TransferEncoding.eof
    | BS_None => TransferEncoding.empty
    end
  else TransferEncoding.empty.

(** [http/h1/encoder.rs] MessageEncoder::encode *)
Definition MessageEncoder_encode (encode_status : T -> Enc ()) (msg : T) (head stream : bool)
    (version : Version) (length : BodySize) (ctype : ConnectionType) :
    SE (TransferEncoding * B) IoError () := fun s =>
  let te := choose_te msg head stream length in
  let '(dst, r) := (_ ← encode_status msg; encode_headers msg version length ctype) s.2 in
  ((te, dst), r).
End Headers.

(** ** Codecs *)

(** The encoders of the codecs: the decoding part, the transfer encoding and the
    output. *)
Definition zoom_te {C} (c : SE (TransferEncoding * B) IoError ()) : SE (C * TransferEncoding * B) IoError () :=
  fun s => let '((te, dst), r) := c (s.1.2, s.2) in ((s.1.1, te, dst), r).

(** [http/h1/codec.rs] Codec as Encoder::encode *)
Definition Codec_encode (uninit date : list Z) (item : Message (ResponseHead * BodySize)) :
    SE (Codec * TransferEncoding * B) IoError () :=
  match item with
  | Item (res, length) =>
      c ← gets (fun s => s.1.1);
      let res := MkResponseHead (c_version c) (rs_status res) (rs_hdrs res) (rs_reason res) (rs_flags res) in
      let ctype :=
        match ResponseHead_ctype res with
        | Some ct => if decide (ct = KeepAlive) then c_ctype c else ct
        | None => c_ctype c
        end in
      _ ← modify (fun s => (MkCodec (c_payload c) (c_version c) ctype (c_flags c), s.1.2, s.2));
      zoom_te (MessageEncoder_encode uninit date Response_encode_status res
        (Flags.contains CF_HEAD (c_flags c)) (Flags.contains CF_STREAM (c_flags c))
        (c_version c) length ctype)
  | MChunk (Some bytes) => zoom_te ((fun _ => tt) <$> TransferEncoding.encode bytes)
  | MChunk None => zoom_te TransferEncoding.encode_eof
  end.

(** [http/h1/client.rs] ClientCodec as Encoder::encode *)
Definition ClientCodec_encode (uninit date : list Z) (item : Message (RequestHeadType * BodySize)) :
    SE (ClientCodecInner * TransferEncoding * B) IoError () :=
  match item with
  | Item (head, length) =>
      c ← gets (fun s => s.1.1);
      let h := RequestHeadType_as_ref head in
      let flags := Flags.set CC_HEAD (bool_decide (method h = HEAD)) (i_flags c) in
      let ctype :=
        match RequestHead_connection_type h with
        | KeepAlive => if Flags.contains CC_KEEPALIVE_ENABLED flags then KeepAlive else Close
        | Upgrade => Upgrade
        | Close => Close
        end in
      _ ← modify (fun s => (MkClientCodecInner (i_payload c) (version h) ctype flags, s.1.2, s.2));
      zoom_te (MessageEncoder_encode uninit date RequestHeadType_encode_status head
        false false (version h) length ctype)
  | MChunk (Some bytes) => zoom_te ((fun _ => tt) <$> TransferEncoding.encode bytes)
  | MChunk None => zoom_te TransferEncoding.encode_eof
  end.

End Encoder.
