(* ===== verification/H1EncodeCorrect.v ===== *)
(** * HTTP/1 heads are written exactly, and inside the buffer

    The text of a head as a function of the message, and that [encode_headers]
    writes it through its raw pointers without leaving the spare memory. *)

From Stdlib Require Import Ascii String.
From S2P Require Import Prelude Bytes HttpTypes H1Body H1Head H1HeaderMap H1Message H1Codec H1Encode.

Section Exact.
Context `{HX : H1Texts} `{RB : RawBuf B}.
Implicit Types (dst : B) (cu : Cur).

(** ** The text *)

Definition line (camel_case : bool) (k v : list Z) : list Z :=
  (if camel_case then camel true k else k) ++ text ": " ++ v ++ CRLF.

Definition written (skip_len : bool) (e : HeaderName * Value HeaderValue) : bool :=
  negb (bool_decide (e.1 = std_name CONNECTION)) &&
  negb ((bool_decide (e.1 = std_name TRANSFER_ENCODING) || bool_decide (e.1 = std_name CONTENT_LENGTH)) && skip_len).

Definition values (v : Value HeaderValue) : list HeaderValue :=
  match v with One x => [x] | Multi xs => xs end.

Definition entry_lines (camel_case : bool) (e : HeaderName * Value HeaderValue) : list Z :=
  values e.2 ≫= fun v => line camel_case (name_as_ref e.1) (value_as_ref v).

(** Names that [write_camel_case] can write, when it is asked to. *)
Definition names_ok (camel_case : bool) (hs : list (HeaderName * Value HeaderValue)) : Prop :=
  camel_case = true -> Forall (fun e => parts_ok true (name_as_ref e.1) = true) hs.

(** ** Raw writes *)

(** [out] has been written, [pos] bytes of it in the spare memory. *)
Definition wrote (out : list Z) (s : B * Cur) : Prop :=
  let '(dst, cu) := s in
  0 <= cu_pos cu /\ 0 <= cu_remaining cu /\ cu_buf cu = cu_pos cu /\
  cu_pos cu + cu_remaining cu <= len (spare dst) /\
  buf_bytes dst ++ take (Z.to_nat (cu_pos cu)) (spare dst) = out.

(** The same inside a line: [part] of it stands behind [pos]. *)
Definition writing (out part : list Z) (s : B * Cur) : Prop :=
  let '(dst, cu) := s in
  0 <= cu_pos cu /\ 0 <= cu_remaining cu /\ cu_buf cu = cu_pos cu + len part /\
  cu_pos cu + cu_remaining cu <= len (spare dst) /\
  buf_bytes dst ++ take (Z.to_nat (cu_buf cu)) (spare dst) = out ++ part.

Lemma write_data_spec out part v dst cu :
  writing out part (dst, cu) -> len part + len v <= cu_remaining cu ->
  exists s', write_data v (dst, cu) = (s', Ok tt) /\ writing out (part ++ v) s' /\
    cu_pos s'.2 = cu_pos cu /\ cu_remaining s'.2 = cu_remaining cu /\ cu_date s'.2 = cu_date cu.
Proof.
  intros (Hp & Hr & Hb & Hsp & Ho) Hl. pose proof (len_nonneg part). pose proof (len_nonneg v).
  unfold write_data. unfold mbind at 1, SE_bind at 1, get.
  rewrite slice_to_Ok, bind_lift_Ok by lia. rewrite slice_from_Ok, bind_lift_Ok by lia.
  eexists. split; [reflexivity|]. cbn [fst snd writing cu_buf cu_pos cu_remaining cu_date].
  assert (length (take (Z.to_nat (cu_buf cu)) (spare dst) ++ v ++ drop (Z.to_nat (cu_buf cu + len v)) (spare dst)) =
    length (spare dst)) as Hlen.
  { rewrite !length_app, length_take, length_drop. unfold len in *. lia. }
  rewrite write_spare_bytes, write_spare_spare by done.
  split_and!; try done; [rewrite len_app; lia|unfold len in *; lia|].
  rewrite (assoc_L (++) out), <- Ho, <- (assoc_L (++)). f_equal.
  rewrite (assoc_L (++)). rewrite take_app_le by (rewrite length_app, length_take; unfold len in *; lia).
  rewrite take_ge; [done|]. rewrite length_app, length_take. unfold len in *. lia.
Qed.

Lemma write_camel_spec out k dst cu :
  writing out [] (dst, cu) -> len k <= cu_remaining cu -> parts_ok true k = true ->
  exists s', write_camel k (dst, cu) = (s', Ok tt) /\ writing out (camel true k) s' /\
    cu_pos s'.2 = cu_pos cu /\ cu_remaining s'.2 = cu_remaining cu /\ cu_date s'.2 = cu_date cu.
Proof.
  intros Hw Hl Hok. pose proof Hw as (Hp & Hr & Hb & Hsp & Ho). pose proof (len_nonneg k).
  change (len (@nil Z)) with 0 in Hb.
  unfold write_camel. unfold mbind at 1, SE_bind at 1, get.
  unfold slice. rewrite slice_from_Ok by lia. cbn [mbind outcome_bind].
  rewrite slice_to_Ok by (unfold len in *; rewrite length_drop; lia). rewrite bind_lift_Ok.
  rewrite camel_spec; [|done|rewrite length_take, length_drop; unfold len in *; lia]. rewrite bind_lift_Ok.
  apply (write_data_spec out []); [done|]. change (len (@nil Z)) with 0.
  assert (len (camel true k) = len k) as -> by (unfold len; by rewrite camel_length). lia.
Qed.

Lemma make_room_spec n out dst cu :
  wrote out (dst, cu) -> 0 < n ->
  exists dst' cu', make_room n (dst, cu) = ((dst', cu'), Ok tt) /\ wrote out (dst', cu') /\
    n <= cu_remaining cu' /\ cu_date cu' = cu_date cu.
Proof.
  intros (Hp & Hr & Hb & Hsp & Ho) Hn. unfold make_room, mbind at 1, SE_bind at 1, get.
  destruct (Z.ltb_spec (cu_remaining cu) n) as [Hlt|Hge]; [|by exists dst, cu; split_and!].
  rewrite (proj2 (Z.leb_le _ _)) by lia. cbn [assert_]. rewrite bind_lift_Ok. cbv zeta.
  set (dst1 := advance_mut (Z.to_nat (cu_pos cu)) dst). set (dst2 := reserve (n * 2) dst1).
  assert (n * 2 <= len (spare dst2)) as H2 by apply reserve_spare.
  assert (spare dst2 <> []) as Hne. { intros E. rewrite E in H2. change (len (@nil Z)) with 0 in H2. lia. }
  do 2 eexists. split; [reflexivity|].
  split; [|split; [cbn [cu_remaining]; lia|done]]. unfold wrote. cbn [cu_pos cu_remaining cu_buf].
  rewrite (bytes_mut_spare dst2 Hne), bytes_mut_bytes. split_and!; try lia.
  cbn [Z.to_nat take]. rewrite app_nil_r. subst dst2 dst1. rewrite reserve_bytes.
  rewrite advance_mut_bytes by (unfold len in *; lia). done.
Qed.

Lemma write_field_spec camel_case k v out dst cu :
  wrote out (dst, cu) -> (camel_case = true -> parts_ok true k = true) ->
  exists dst' cu', write_field camel_case k v (dst, cu) = ((dst', cu'), Ok tt) /\
    wrote (out ++ line camel_case k v) (dst', cu') /\ cu_date cu' = cu_date cu.
Proof.
  intros Hw Hk. unfold write_field. set (n := len k + len v + 4).
  pose proof (len_nonneg k). pose proof (len_nonneg v).
  destruct (make_room_spec n out dst cu Hw ltac:(lia)) as (dst1 & cu1 & E1 & Hw1 & Hn & D1).
  rewrite (bind_eq _ _ _ _ _ E1).
  assert (writing out [] (dst1, cu1)) as Hwr.
  { destruct Hw1 as (Hp & Hr & Hb & Hsp & Ho). unfold writing. change (len (@nil Z)) with 0.
    rewrite Hb, app_nil_r. split_and!; try done; lia. }
  set (kt := if camel_case then camel true k else k).
  assert (len kt = len k) as Hkt by (subst kt; destruct camel_case; [unfold len; by rewrite camel_length|done]).
  assert (exists s2, (if camel_case then write_camel k else write_data k) (dst1, cu1) = (s2, Ok tt) /\
    writing out kt s2 /\ cu_pos s2.2 = cu_pos cu1 /\ cu_remaining s2.2 = cu_remaining cu1 /\ cu_date s2.2 = cu_date cu1)
    as ([dst2 cu2] & E2 & Hw2 & P2 & R2 & D2).
  { destruct camel_case.
    - apply write_camel_spec; [done|lia|auto].
    - apply (write_data_spec out []); [done|]. change (len (@nil Z)) with 0. lia. }
  cbn [snd] in *. rewrite (bind_eq _ _ _ _ _ E2).
  destruct (write_data_spec out kt (text ": ") dst2 cu2 Hw2) as ([dst3 cu3] & E3 & Hw3 & P3 & R3 & D3).
  { change (len (text ": ")) with 2. lia. }
  cbn [snd] in *. rewrite (bind_eq _ _ _ _ _ E3).
  destruct (write_data_spec out (kt ++ text ": ") v dst3 cu3 Hw3) as ([dst4 cu4] & E4 & Hw4 & P4 & R4 & D4).
  { rewrite len_app. change (len (text ": ")) with 2. lia. }
  cbn [snd] in *. rewrite (bind_eq _ _ _ _ _ E4).
  destruct (write_data_spec out ((kt ++ text ": ") ++ v) CRLF dst4 cu4 Hw4) as ([dst5 cu5] & E5 & Hw5 & P5 & R5 & D5).
  { rewrite !len_app. change (len (text ": ")) with 2. change (len CRLF) with 2. lia. }
  cbn [snd] in *. rewrite (bind_eq _ _ _ _ _ E5).
  do 2 eexists. split; [reflexivity|]. cbn [fst snd cu_date]. split; [|congruence].
  destruct Hw5 as (Hp & Hr & Hb & Hsp & Ho). unfold wrote. cbn [cu_pos cu_remaining cu_buf].
  rewrite !len_app in Hb. change (len (text ": ")) with 2 in Hb. change (len CRLF) with 2 in Hb.
  split_and!; try lia. replace (cu_pos cu5 + n) with (cu_buf cu5) by lia. rewrite Ho. unfold line.
  fold kt. by rewrite <- !(assoc_L (++)).
Qed.

Lemma write_values_spec camel_case k vec : forall out dst cu,
  wrote out (dst, cu) -> (camel_case = true -> parts_ok true k = true) ->
  exists dst' cu', write_values camel_case k vec (dst, cu) = ((dst', cu'), Ok tt) /\
    wrote (out ++ (vec ≫= fun v => line camel_case k (value_as_ref v))) (dst', cu') /\ cu_date cu' = cu_date cu.
Proof.
  induction vec as [|v vec IH]; intros out dst cu Hw Hk.
  { exists dst, cu. cbn [mbind list_bind]. rewrite app_nil_r. by split_and!. }
  destruct (write_field_spec camel_case k (value_as_ref v) out dst cu Hw Hk) as (dst1 & cu1 & E1 & Hw1 & D1).
  destruct (IH _ dst1 cu1 Hw1 Hk) as (dst2 & cu2 & E2 & Hw2 & D2).
  exists dst2, cu2. cbn [write_values]. rewrite (bind_eq _ _ _ _ _ E1), E2, bind_cons, (assoc_L (++)).
  split_and!; [done|done|congruence].
Qed.

Lemma write_headers_spec camel_case skip_len hs : forall out dst cu,
  wrote out (dst, cu) -> names_ok camel_case hs ->
  exists dst' cu', write_headers camel_case skip_len hs (dst, cu) = ((dst', cu'), Ok tt) /\
    wrote (out ++ (List.filter (written skip_len) hs ≫= entry_lines camel_case)) (dst', cu') /\
    cu_date cu' = cu_date cu || existsb (fun e => bool_decide (e.1 = std_name DATE)) hs.
Proof.
  induction hs as [|[key value] hs IH]; intros out dst cu Hw Hk.
  { exists dst, cu. cbn [List.filter mbind list_bind existsb write_headers]. rewrite app_nil_r, orb_false_r. done. }
  assert (names_ok camel_case hs) as Hks by (intros Hc; specialize (Hk Hc); by apply Forall_cons in Hk as [_ Hk]).
  assert (camel_case = true -> parts_ok true (name_as_ref key) = true) as Hkk.
  { intros Hc. specialize (Hk Hc). by apply Forall_cons in Hk as [Hk _]. }
  cbn [write_headers List.filter existsb]. unfold written at 1. cbn [fst].
  destruct (decide (key = std_name CONNECTION)) as [->|Hc].
  { rewrite (bool_decide_true (std_name CONNECTION = _)) by done. cbn [negb andb].
    rewrite bool_decide_false by (by intros ?%std_name_inj). by apply IH. }
  rewrite (bool_decide_false (key = std_name CONNECTION)) by done. cbn [negb andb].
  destruct ((bool_decide _ || bool_decide _) && skip_len) eqn:Hs; cbn [negb].
  { assert (bool_decide (key = std_name DATE) = false) as ->; [|by apply IH].
    apply bool_decide_eq_false. intros ->. rewrite !bool_decide_false in Hs by (by intros ?%std_name_inj). done. }
  rewrite bind_cons, (assoc_L (++)). unfold entry_lines at 1. cbn [fst snd].
  set (cu0 := MkCur (cu_buf cu) (cu_pos cu) (cu_remaining cu) (cu_date cu || bool_decide (key = std_name DATE))).
  assert ((if decide (key = std_name DATE)
    then modify (fun s => (s.1, MkCur (cu_buf s.2) (cu_pos s.2) (cu_remaining s.2) true))
    else mret tt) (dst, cu) = ((dst, cu0), Ok tt : outcome IoError ())) as E0.
  { subst cu0. destruct (decide (key = std_name DATE)) as [Hd|Hd].
    - rewrite (bool_decide_true _ Hd), orb_true_r. reflexivity.
    - rewrite (bool_decide_false _ Hd), orb_false_r. by destruct cu. }
  rewrite (bind_eq _ _ _ _ _ E0).
  destruct (write_values_spec camel_case (name_as_ref key) (values value) out dst cu0 Hw Hkk)
    as (dst1 & cu1 & E1 & Hw1 & D1).
  assert (match value with
    | One val => write_field camel_case (name_as_ref key) (value_as_ref val)
    | Multi vec => write_values camel_case (name_as_ref key) vec
    end (dst, cu0) = ((dst1, cu1), Ok tt)) as E2.
  { destruct value as [x|xs]; [|exact E1]. cbn [values write_values] in E1. unfold mbind, SE_bind in E1.
    by destruct (write_field _ _ _ _) as [s [[]|e|]]. }
  cbv zeta. rewrite (bind_eq _ _ _ _ _ E2).
  destruct (IH _ dst1 cu1 Hw1 Hks) as (dst2 & cu2 & E3 & Hw2 & D2).
  exists dst2, cu2. rewrite D2, D1. split_and!; [done|done|]. subst cu0. cbn [cu_date]. by rewrite orb_assoc.
Qed.

(** ** Whole heads *)

Section Head.
Context {T : Type} {EM : EncMessage (HT:=HT) T} (uninit date : list Z).
Implicit Types msg : T.

Definition length_text (camel_case chunked : bool) (length : BodySize) : list Z :=
  match length with
  | BS_Stream =>
      if chunked then CRLF ++ (if camel_case then text "Transfer-Encoding: chunked" else text "transfer-encoding: chunked") ++ CRLF
      else CRLF
  | BS_Empty => CRLF ++ (if camel_case then text "Content-Length: 0" else text "content-length: 0") ++ CRLF
  | BS_Sized n => CRLF ++ text "content-length: " ++ decimal n ++ CRLF
  | BS_Sized64 n => CRLF ++ (if camel_case then text "Content-Length: " else text "content-length: ") ++ decimal n ++ CRLF
  | BS_None => CRLF
  end.
Definition skips (chunked skip_len : bool) (length : BodySize) : bool :=
  match length with BS_Stream => chunked && skip_len | _ => skip_len end.
Definition field_text (camel_case skip_len : bool) (hs : list (HeaderName * Value HeaderValue)) : list Z :=
  List.filter (written skip_len) hs ≫= entry_lines camel_case.
Definition end_text (hs : list (HeaderName * Value HeaderValue)) : list Z :=
  if existsb (fun e => bool_decide (e.1 = std_name DATE)) hs then CRLF
  else text "date: " ++ date ++ CRLF ++ CRLF.

(** What follows the status line. *)
Definition head_text (msg : T) (version : Version) (length : BodySize) (ctype : ConnectionType) : list Z :=
  let '(length, skip_len) := effective_length msg length in
  length_text (em_camel_case msg) (em_chunked msg) length ++
  connection_line (em_camel_case msg) version ctype ++
  field_text (em_camel_case msg) (skips (em_chunked msg) skip_len length) (merged msg) ++
  end_text (merged msg).

(** [c] appends [out] and returns [a]. *)
Definition appends {A} (c : SE B IoError A) (out : list Z) (a : A) : Prop :=
  forall dst, len (buf_bytes dst) + len out < 2 ^ 64 ->
  exists dst', c dst = (dst', Ok a) /\ buf_bytes dst' = buf_bytes dst ++ out.

Lemma appends_put s : appends (put s) s tt.
Proof. intros dst Hl. eexists. split; [reflexivity|]. apply put_slice_app; [done|lia]. Qed.

Lemma appends_ret {A} (a : A) : appends (mret a) [] a.
Proof. intros dst _. exists dst. by rewrite app_nil_r. Qed.

Lemma appends_bind {A A'} (c : SE B IoError A) (k : A -> SE B IoError A') o1 o2 a a' :
  appends c o1 a -> appends (k a) o2 a' -> appends (c ≫= k) (o1 ++ o2) a'.
Proof.
  intros Hc Hk dst Hl. rewrite len_app in Hl. pose proof (len_nonneg o1). pose proof (len_nonneg o2).
  destruct (Hc dst ltac:(lia)) as (dst1 & E1 & B1).
  destruct (Hk dst1) as (dst2 & E2 & B2); [rewrite B1, len_app; lia|].
  exists dst2. rewrite (bind_eq _ _ _ _ _ E1), E2, B2, B1, (assoc_L (++)). done.
Qed.

Lemma appends_eq {A} (c : SE B IoError A) o o' a : appends c o a -> o = o' -> appends c o' a.
Proof. by intros ? <-. Qed.

Lemma appends_then {A A'} (c : SE B IoError A) (k : A -> SE B IoError A') o a a' :
  appends c o a -> appends (k a) [] a' -> appends (c ≫= k) o a'.
Proof. intros Hc Hk. eapply appends_eq; [by eapply appends_bind|apply app_nil_r]. Qed.

Definition size_ok (length : BodySize) : Prop :=
  match length with BS_Sized n => is_usize n | BS_Sized64 n => in_u 64 n | _ => True end.

Lemma content_length_appends n :
  length uninit = 41%nat -> is_usize n ->
  appends (dst ← get; dst ← lift (write_content_length uninit n dst); modify (fun _ => dst))
    (CRLF ++ text "content-length: " ++ decimal n ++ CRLF) tt.
Proof.
  intros Hu Hn dst Hl. unfold mbind at 1, SE_bind at 1, get.
  assert (CRLF ++ text "content-length: " ++ decimal n ++ CRLF = CONTENT_LENGTH_PREFIX ++ decimal n ++ [13; 10]) as Et by done.
  rewrite Et in *. rewrite len_app in Hl. pose proof (len_nonneg CONTENT_LENGTH_PREFIX). pose proof (len_nonneg (decimal n ++ [13; 10])).
  destruct (content_length_line (E:=IoError) uninit n dst Hu Hn) as [C1 C2].
  destruct (Z.lt_ge_cases n 1000) as [Hlt|Hge].
  - rewrite (C1 Hlt), bind_lift_Ok. eexists. split; [reflexivity|]. apply put_slice_app; [done|]. rewrite len_app. lia.
  - rewrite (C2 Hge), bind_lift_Ok. eexists. split; [reflexivity|].
    rewrite (put_slice_app _ _ (buf_bytes dst ++ CONTENT_LENGTH_PREFIX)).
    + by rewrite <- (assoc_L (++)).
    + apply put_slice_app; [done|lia].
    + rewrite len_app. lia.
Qed.

Lemma encode_length_appends camel_case chunked skip_len length0 :
  length uninit = 41%nat -> size_ok length0 ->
  appends (encode_length uninit camel_case chunked skip_len length0)
    (length_text camel_case chunked length0) (skips chunked skip_len length0).
Proof.
  intros Hu Hs. destruct length0 as [| |n|n|]; cbn [encode_length length_text skips].
  - eapply appends_then; [apply appends_put|apply appends_ret].
  - eapply appends_then; [apply appends_put|apply appends_ret].
  - pose proof (content_length_appends n Hu Hs) as Hc. intros dst Hl. destruct (Hc dst Hl) as (dst' & E & Hb).
    exists dst'. split; [|done]. revert E. unfold mbind, SE_bind, get, lift, modify.
    destruct (write_content_length uninit n dst); intros E; by simplify_eq.
  - eapply appends_eq; [eapply appends_bind; [apply appends_put|]; eapply appends_bind; [apply appends_put|];
      eapply appends_then; [apply appends_put|apply appends_ret]|]. by rewrite <- !(assoc_L (++)).
  - destruct chunked; (eapply appends_then; [apply appends_put|apply appends_ret]).
Qed.

Lemma write_out_appends camel_case skip_len hs :
  names_ok camel_case hs ->
  appends (fun dst =>
    match write_headers camel_case skip_len hs (bytes_mut dst, MkCur 0 0 (len (spare dst)) false) with
    | ((dst', cu), Ok _) =>
        (_ ← lift (assert_ (cu_pos cu <=? len (spare dst')));
         _ ← modify (fun _ => advance_mut (Z.to_nat (cu_pos cu)) dst');
         if cu_date cu then put CRLF else set_date date) dst
    | ((dst', cu), Err e) => throw e dst
    | ((dst', cu), Panic) => panic dst
    end) (field_text camel_case skip_len hs ++ end_text hs) tt.
Proof.
  intros Hk dst Hl.
  assert (wrote (buf_bytes dst) (bytes_mut dst, MkCur 0 0 (len (spare dst)) false)) as Hw.
  { unfold wrote. cbn [cu_pos cu_remaining cu_buf]. rewrite bytes_mut_bytes. cbn [Z.to_nat take]. rewrite app_nil_r.
    pose proof (len_nonneg (spare dst)). split_and!; try done.
    destruct (decide (spare dst = [])) as [->|Hne]; [apply len_nonneg|]. by rewrite bytes_mut_spare. }
  destruct (write_headers_spec camel_case skip_len hs _ _ _ Hw Hk) as (dst1 & cu1 & -> & Hw1 & D1).
  destruct Hw1 as (Hp & Hr & _ & Hsp & Ho). rewrite (proj2 (Z.leb_le _ _)) by lia. cbn [assert_].
  rewrite bind_lift_Ok, bind_modify.
  assert (buf_bytes (advance_mut (Z.to_nat (cu_pos cu1)) dst1) = buf_bytes dst ++ field_text camel_case skip_len hs) as Hb.
  { rewrite advance_mut_bytes by (unfold len in *; lia). exact Ho. }
  assert ((if cu_date cu1 then put CRLF else set_date date) = put (end_text hs)) as ->.
  { rewrite D1. cbn [cu_date orb]. unfold end_text, set_date. by destruct (existsb _ hs). }
  eexists. split; [reflexivity|]. rewrite (assoc_L (++)). apply put_slice_app; [done|].
  rewrite !len_app in *. lia.
Qed.

Lemma encode_headers_appends msg version length0 ctype :
  length uninit = 41%nat -> size_ok length0 -> names_ok (em_camel_case msg) (merged msg) ->
  appends (encode_headers uninit date msg version length0 ctype) (head_text msg version length0 ctype) tt.
Proof.
  intros Hu Hs Hk. unfold encode_headers, head_text.
  assert (size_ok (effective_length msg length0).1) as Hs'.
  { unfold effective_length. destruct (em_status msg); [|done]. repeat case_match; done. }
  destruct (effective_length msg length0) as [length1 skip_len]. cbn [fst] in Hs'.
  eapply appends_bind; [by apply encode_length_appends|].
  eapply appends_bind; [apply appends_put|].
  intros dst Hl.
  destruct (write_out_appends (em_camel_case msg) (skips (em_chunked msg) skip_len length1) (merged msg) Hk dst Hl)
    as (dst' & E & Hb).
  exists dst'. split; [|done]. rewrite <- E. unfold mbind at 1, SE_bind at 1, get. cbv zeta.
  by destruct (write_headers _ _ _ _) as [[dst1 cu1] [u|e|]].
Qed.
End Head.

(** ** Responses of the server codec *)

Section Response.
Context (uninit date : list Z).

(** The head that is written, and the connection type it is written with. *)
Definition sent_head (c : Codec) (res : ResponseHead) : ResponseHead :=
  MkResponseHead (c_version c) (rs_status res) (rs_hdrs res) (rs_reason res) (rs_flags res).
Definition sent_ctype (c : Codec) (res : ResponseHead) : ConnectionType :=
  match ResponseHead_ctype res with
  | Some ct => if decide (ct = KeepAlive) then c_ctype c else ct
  | None => c_ctype c
  end.

Definition response_text (c : Codec) (res : ResponseHead) (length : BodySize) : list Z :=
  version_bytes (c_version c) ++ [32] ++ decimal (status_as_u16 (rs_status res)) ++ [32] ++ reason res ++
  head_text date (sent_head c res) (c_version c) length (sent_ctype c res).

Definition flagged (f : Z) (c : Codec) : bool := Flags.contains f (c_flags c).

Lemma encode_status_appends (h : ResponseHead) :
  appends (Response_encode_status h)
    (version_bytes (rs_ver h) ++ [32] ++ decimal (status_as_u16 (rs_status h)) ++ [32] ++ reason h) tt.
Proof.
  intros dst Hl. unfold Response_encode_status. rewrite bind_modify. unfold mbind at 1, SE_bind at 1, get.
  set (dst0 := reserve _ dst). assert (buf_bytes dst0 = buf_bytes dst) as Hb by apply reserve_bytes.
  rewrite status_line_spec by apply status_range. rewrite bind_lift_Ok, bind_modify.
  eexists. split; [reflexivity|]. rewrite !len_app in Hl. pose proof (len_nonneg (reason h)).
  rewrite (put_slice_app _ _ (buf_bytes dst0 ++ version_bytes (rs_ver h) ++ [32] ++ decimal (status_as_u16 (rs_status h)) ++ [32])).
  - rewrite Hb. by rewrite <- !(assoc_L (++)).
  - apply put_slice_app; [done|]. rewrite Hb, !len_app. lia.
  - rewrite Hb, !len_app. lia.
Qed.

Lemma Codec_encode_item c te dst res length0 :
  length uninit = 41%nat -> size_ok length0 ->
  len (buf_bytes dst) + len (response_text c res length0) < 2 ^ 64 ->
  exists dst', Codec_encode uninit date (Item (res, length0)) (c, te, dst) =
      ((MkCodec (c_payload c) (c_version c) (sent_ctype c res) (c_flags c),
        choose_te (sent_head c res) (flagged CF_HEAD c) (flagged CF_STREAM c) length0, dst'), Ok tt) /\
    buf_bytes dst' = buf_bytes dst ++ response_text c res length0.
Proof.
  intros Hu Hs Hl. unfold Codec_encode. rewrite bind_gets. cbn [fst]. rewrite bind_modify. cbn [fst snd].
  fold (sent_head c res). change (ResponseHead_ctype (sent_head c res)) with (ResponseHead_ctype res). fold (sent_ctype c res).
  assert (appends (_ ← Response_encode_status (sent_head c res);
    encode_headers uninit date (sent_head c res) (c_version c) length0 (sent_ctype c res)) (response_text c res length0) tt) as Ha.
  { eapply appends_eq; [eapply appends_bind; [apply encode_status_appends|]|].
    - apply encode_headers_appends; [done|done|]. by intros ?.
    - unfold response_text. by rewrite <- !(assoc_L (++)). }
  destruct (Ha dst Hl) as (dst' & E & Hb). exists dst'. split; [|done].
  unfold zoom_te, MessageEncoder_encode. cbn [fst snd]. by rewrite E.
Qed.
End Response.
End Exact.

(** C26. The head of a response is written exactly and inside the buffer: whatever
    spare memory the output buffer has and however it grows, the raw writes of
    [encode_headers] stay in the spare memory, and the bytes appended are the status
    line, the line that announces the body, the connection line, every line of the
    fields except those the encoder replaces, and the date when there is none. *)
Theorem response_head_exact `{HX : H1Texts} `{RB : RawBuf B} uninit date c te (dst : B) res length0 :
  length uninit = 41%nat -> size_ok length0 ->
  len (buf_bytes dst) + len (response_text date c res length0) < 2 ^ 64 ->
  exists dst', Codec_encode uninit date (Item (res, length0)) (c, te, dst) =
      ((MkCodec (c_payload c) (c_version c) (sent_ctype c res) (c_flags c),
        choose_te (sent_head c res) (flagged CF_HEAD c) (flagged CF_STREAM c) length0, dst'), Ok tt) /\
    buf_bytes dst' = buf_bytes dst ++ response_text date c res length0.
Proof. apply Codec_encode_item. Qed.

(** A streamed body can be written in another framing than its head
    announces: after a request that turned the connection into a stream the head
    says [chunked] and the body is written plainly, and for a response without
    content the head announces no body and the body is written in chunks. *)
Theorem stream_framing_mismatch `{HX : H1Texts} `{RB : RawBuf B} uninit date c te (dst : B) res :
  length uninit = 41%nat -> ResponseHead_chunked res = true -> flagged CF_HEAD c = false ->
  len (buf_bytes dst) + len (response_text date c res BS_Stream) < 2 ^ 64 ->
  exists c' te' dst' rest, Codec_encode uninit date (Item (res, BS_Stream)) (c, te, dst) = ((c', te', dst'), Ok tt) /\
    let start := buf_bytes dst ++ version_bytes (c_version c) ++ [32] ++
      decimal (status_as_u16 (rs_status res)) ++ [32] ++ reason res in
    (status_as_u16 (rs_status res) = 200 -> flagged CF_STREAM c = true ->
       buf_bytes dst' = start ++ CRLF ++ text "transfer-encoding: chunked" ++ CRLF ++ rest /\
       te' = TransferEncoding.eof) /\
    (status_as_u16 (rs_status res) = 204 -> flagged CF_STREAM c = false ->
       buf_bytes dst' = start ++ CRLF ++ rest /\
       rest = connection_line false (c_version c) (sent_ctype c res) ++
         field_text false false (inner (rs_hdrs res)) ++ end_text date (inner (rs_hdrs res)) /\
       te' = TransferEncoding.chunked).
Proof.
  intros Hu Hc Hh Hl. destruct (Codec_encode_item uninit date c te dst res BS_Stream Hu I Hl) as (dst' & E & Hb).
  assert (merged (sent_head c res) = inner (rs_hdrs res)) as Hm.
  { unfold merged. simpl. rewrite app_nil_r. induction (inner (rs_hdrs res)) as [|e l IH]; [done|]. simpl. by rewrite IH. }
  do 3 eexists. exists (connection_line false (c_version c) (sent_ctype c res) ++
         field_text false false (inner (rs_hdrs res)) ++ end_text date (inner (rs_hdrs res))).
  split; [exact E|]. rewrite Hb. unfold response_text, head_text, choose_te. rewrite Hm, Hh. cbn [negb].
  assert (em_chunked (sent_head c res) = true) as Hch by exact Hc. rewrite Hch. split.
  - intros Hst Hs. unfold effective_length. cbn [em_status Response_EncMessage sent_head rs_status]. rewrite Hst, Hs. simpl.
    rewrite <- !(assoc_L (++)). done.
  - intros Hst Hs. unfold effective_length. cbn [em_status Response_EncMessage sent_head rs_status]. rewrite Hst, Hs. simpl.
    rewrite <- !(assoc_L (++)). done.
Qed.

(** ** Instances *)

(** A buffer as its bytes and its spare memory. *)
Module ModelRaw.
Definition Raw : Type := list Z * list Z.
#[export] Program Instance raw_buf_mut : BufMut Raw := {|
  buf_bytes b := b.1;
  remaining_mut b := 2 ^ 64 - 1 - len b.1;
  put_slice b s := (b.1 ++ s, drop (length s) b.2);
|}.
Next Obligation. done. Qed.
Next Obligation. intros b s H. simpl in *. rewrite len_app. lia. Qed.
#[export] Program Instance raw_bytes_mut : BytesMut Raw := {|
  bm_new := ([], []);
  bm_split_to b n := ((take n b.1, []), (drop n b.1, b.2));
  bm_set b i x := (<[i:=x]> b.1, b.2);
  bm_truncate b n := (take n b.1, b.2);
|}.
Solve All Obligations with done.
#[export] Program Instance raw_raw_buf : RawBuf Raw := {|
  spare b := b.2;
  reserve n b := (b.1, b.2 ++ replicate (Z.to_nat n - length b.2) 170);
  bytes_mut b := (b.1, if decide (b.2 = []) then replicate 64 170 else b.2);
  write_spare s b := (b.1, s);
  advance_mut n b := (b.1 ++ take n b.2, drop n b.2);
|}.
Next Obligation. done. Qed.
Next Obligation. intros n b. simpl. unfold len. rewrite length_app, length_replicate. lia. Qed.
Next Obligation. done. Qed.
Next Obligation. intros b Hb. simpl in *. by rewrite decide_False. Qed.
Next Obligation. done. Qed.
Next Obligation. done. Qed.
Next Obligation. done. Qed.
End ModelRaw.
Import ModelHttp ModelH1 ModelRaw.

#[local] Instance sample_texts : H1Texts := {|
  canonical_reason s := Some (text "Fine");
  uri_path_and_query u := Some u
|}.
Definition sample_date : list Z := text "Mon, 16 Nov 2020 10:00:00 GMT".
Definition sample_response (n : Z) : ResponseHead :=
  let h := ResponseHead_new (default (std_status OK) (status_from_u16 n)) in
  MkResponseHead (rs_ver h) (rs_status h)
    (HeaderMap_append (std_name SERVER) (value_from_static "k") (HeaderMap_append (std_name CONTENT_LENGTH) (value_from_static "7") HeaderMap_new))
    None (rs_flags h).

(** Spare memory for a part of the head only. *)
Lemma response_head_exact_witness :
  exists dst', Codec_encode (replicate 41 170) sample_date (Item (sample_response 200, BS_Sized 1234))
      (Codec_new true, TransferEncoding.empty, ([1], replicate 3 170) : Raw) =
    ((MkCodec None HTTP_11 Close 2, TransferEncoding.length 1234, dst'), Ok tt) /\
    buf_bytes dst' = [1] ++ text "HTTP/1.1 200 Fine" ++ CRLF ++ text "content-length: 1234" ++ CRLF ++
      text "connection: close" ++ CRLF ++ text "server: k" ++ CRLF ++ text "date: " ++ sample_date ++ CRLF ++ CRLF.
Proof.
  destruct (response_head_exact (replicate 41 170) sample_date (Codec_new true) TransferEncoding.empty
    (([1], replicate 3 170) : Raw) (sample_response 200) (BS_Sized 1234)) as (dst' & E & Hb).
  - reflexivity.
  - vm_compute. split; congruence.
  - vm_compute. reflexivity.
  - exists dst'. split; [exact E|]. refine (eq_trans Hb _). vm_compute. reflexivity.
Defined.

Lemma stream_framing_mismatch_witness :
  exists c' te' dst' rest, Codec_encode (replicate 41 170) sample_date (Item (sample_response 204, BS_Stream))
      (Codec_new true, TransferEncoding.empty, ([], []) : Raw) = ((c', te', dst'), Ok tt) /\
    buf_bytes dst' = text "HTTP/1.1 204 Fine" ++ CRLF ++ rest /\ te' = TransferEncoding.chunked.
Proof.
  destruct (stream_framing_mismatch (replicate 41 170) sample_date (Codec_new true) TransferEncoding.empty
    (([], []) : Raw) (sample_response 204)) as (c' & te' & dst' & rest & E & _ & H).
  - reflexivity.
  - vm_compute. reflexivity.
  - vm_compute. reflexivity.
  - vm_compute. reflexivity.
  - destruct H as (H & _ & Ht); [vm_compute; reflexivity|vm_compute; reflexivity|].
    exists c', te', dst', rest. split; [exact E|]. split; [|exact Ht]. refine (eq_trans H _).
    rewrite !(assoc_L (++)). f_equal.
Defined.
