(* ===== verification/Slab.v ===== *)
(** * The [slab] crate

    The interface of the crate's store, which the delay queue and the h2 streams
    build their linked lists in, and a finite-map instance of it. *)

From S2P Require Import Prelude.

(** A store of values under keys that [insert] chooses. *)
Class Slab (D Sl : Type) := {
  slab_new : Sl;
  slab_get : Sl -> nat -> option D;
  slab_set : Sl -> nat -> D -> Sl;
  slab_insert : D -> Sl -> Sl * nat;
  slab_remove : nat -> Sl -> Sl;
  slab_len : Sl -> Z;
  slab_new_get k : slab_get slab_new k = None;
  slab_set_get s k d k' :
    slab_get s k <> None -> slab_get (slab_set s k d) k' = if decide (k' = k) then Some d else slab_get s k';
  slab_insert_get d s :
    slab_get s (slab_insert d s).2 = None /\
    forall k', slab_get (slab_insert d s).1 k' =
      if decide (k' = (slab_insert d s).2) then Some d else slab_get s k';
  slab_remove_get k s k' :
    slab_get s k <> None -> slab_get (slab_remove k s) k' = if decide (k' = k) then None else slab_get s k';
}.

(** ** A model of the slab *)

Module ModelSlab.
#[export] Program Instance map_slab D : Slab D (gmap nat D) := {|
  slab_new := ∅;
  slab_get s k := s !! k;
  slab_set s k d := <[k := d]> s;
  slab_insert d s := (<[fresh (dom s) := d]> s, fresh (dom s));
  slab_remove k s := delete k s;
  slab_len s := Z.of_nat (size s)
|}.
Next Obligation. done. Qed.
Next Obligation. intros D s k d k' _. simpl. case_decide; [subst; by rewrite lookup_insert_eq|by rewrite lookup_insert_ne]. Qed.
Next Obligation.
  intros D d s. simpl. split.
  - apply not_elem_of_dom, is_fresh.
  - intros k'. case_decide; [subst; by rewrite lookup_insert_eq|by rewrite lookup_insert_ne].
Qed.
Next Obligation. intros D k s k' _. simpl. case_decide; [subst; by rewrite lookup_delete_eq|by rewrite lookup_delete_ne]. Qed.
End ModelSlab.
