(* ===== verification/TimerWheel.v ===== *)
(** * The timer wheel ([timer/wheel])

    Six levels of 64 slots; a slot of level [i] holds the entries of a span of
    [64 ^ i] milliseconds.  The stacks of the slots are an interface: the trait
    [Stack] with its operations, and what they promise about the list of items that
    a stack holds in a store which other stacks share. *)

From S2P Require Import Prelude Bytes.


(** ** Stacks *)

(** [timer/wheel/stack.rs] Stack *)
Class Stack (T Item Store : Type) := {
  st_default : T;
  st_is_empty : T -> bool;
  st_push : Item -> SE (T * Store) Never ();
  st_pop : SE (T * Store) Never (option Item);
  st_remove : Item -> SE (T * Store) Never ();
  st_when : Item -> Store -> outcome Never Z;
}.

(** What a stack promises.  [st_rep s t l]: in the store [s] the stack [t] holds
    the items [l], the top first; [st_unlinked s x]: the item [x] is in the store
    and has no links, so that it can be pushed if it is in no stack.  An operation
    changes the items of its stack only. *)
Class StackLaws (T Item Store : Type) `{ST : Stack T Item Store} := {
  st_rep : Store -> T -> list Item -> Prop;
  st_unlinked : Store -> Item -> Prop;
  st_frame (s s' : Store) (touched : list Item) : Prop :=
    (forall t l, st_rep s t l -> (forall x, x ∈ l -> x ∉ touched) -> st_rep s' t l) /\
    (forall x, st_unlinked s x -> x ∉ touched -> st_unlinked s' x) /\
    (forall x, st_when x s' = st_when x s);
  st_default_rep s : st_rep s st_default [];
  st_rep_nodup s t l : st_rep s t l -> NoDup l;
  st_is_empty_rep s t l : st_rep s t l -> st_is_empty t = bool_decide (l = []);
  st_push_rep s t l x :
    st_rep s t l -> st_unlinked s x -> x ∉ l ->
    exists s' t', st_push x (t, s) = ((t', s'), Ok tt) /\
      st_rep s' t' (x :: l) /\ st_frame s s' (x :: l);
  st_pop_nil s t : st_rep s t [] -> st_pop (t, s) = ((t, s), Ok None);
  st_pop_cons s t x l :
    st_rep s t (x :: l) ->
    exists s' t', st_pop (t, s) = ((t', s'), Ok (Some x)) /\
      st_rep s' t' l /\ st_unlinked s' x /\ st_frame s s' (x :: l);
  st_remove_rep s t l1 x l2 :
    st_rep s t (l1 ++ x :: l2) ->
    exists s' t', st_remove x (t, s) = ((t', s'), Ok tt) /\
      st_rep s' t' (l1 ++ l2) /\ st_unlinked s' x /\ st_frame s s' (l1 ++ x :: l2);
}.

(** ** Levels *)

(** [timer/wheel/level.rs] LEVEL_MULT *)
Definition LEVEL_MULT : Z := 64.
(** [timer/wheel/level.rs] occupied_bit *)
Definition occupied_bit (slot : Z) : Z := Z.shiftl 1 slot.
(** [timer/wheel/level.rs] slot_range *)
Definition slot_range (level : Z) : Z := LEVEL_MULT ^ level.
(** [timer/wheel/level.rs] level_range *)
Definition level_range (level : Z) : Z := LEVEL_MULT * slot_range level.
(** [timer/wheel/level.rs] slot_for *)
Definition slot_for (duration level : Z) : Z := Z.shiftr duration (level * 6) mod LEVEL_MULT.

(** [timer/wheel/level.rs] Expiration *)
Record Expiration := MkExpiration { ex_level : Z; ex_slot : Z; ex_deadline : Z }.

(** [u64::rotate_right] and [u64::trailing_zeros] *)
Definition rotate_right (x n : Z) : Z :=
  let n := n mod 64 in
  Z.lor (Z.shiftr x n) (as_u64 (Z.shiftl x (64 - n))).
Fixpoint trailing_zeros_fuel (fuel : nat) (x : Z) : Z :=
  match fuel with
  | O => 0
  | S fuel => if Z.testbit x 0 then 0 else 1 + trailing_zeros_fuel fuel (Z.shiftr x 1)
  end.
Definition trailing_zeros (x : Z) : Z := trailing_zeros_fuel 64 x.

Section Wheel.
Context `{ST : Stack T Item Store}.

(** [timer/wheel/level.rs] Level *)
Record Level := MkLevel { lv_level : Z; lv_occupied : Z; lv_slot : list T }.

(** [timer/wheel/level.rs] Level::new *)
Definition Level_new (level : Z) : Level := MkLevel level 0 (replicate 64 st_default).

(** [timer/wheel/level.rs] Level::next_occupied_slot *)
Definition next_occupied_slot (lv : Level) (now : Z) : option Z :=
  if lv_occupied lv =? 0 then None
  else
    let now_slot := now / slot_range (lv_level lv) in
    let occupied := rotate_right (lv_occupied lv) (as_u32 now_slot) in
    let zeros := trailing_zeros occupied in
    Some (as_usize (zeros + now_slot) mod 64).

(** [timer/wheel/level.rs] Level::next_expiration *)
Definition Level_next_expiration (lv : Level) (now : Z) : option Expiration :=
  match next_occupied_slot lv now with
  | Some slot =>
      let level_range := level_range (lv_level lv) in
      let slot_range := slot_range (lv_level lv) in
      let level_start := now - now mod level_range in
      let deadline := as_u64 (level_start + slot * slot_range) in
      Some (MkExpiration (lv_level lv) slot deadline)
  | None => None
  end.

(** An operation on [self.slot[slot]] and the store *)
Definition on_slot {A} (slot : Z) (c : SE (T * Store) Never A) : SE (Level * Store) Never A := fun st =>
  let '(lv, s) := st in
  match lv_slot lv !! Z.to_nat slot with
  | Some t =>
      let '((t, s), r) := c (t, s) in
      ((MkLevel (lv_level lv) (lv_occupied lv) (<[Z.to_nat slot := t]> (lv_slot lv)), s), r)
  | None => (st, Panic)
  end.
Definition set_occupied (f : Z -> Z) (st : Level * Store) : Level * Store :=
  (MkLevel (lv_level st.1) (f (lv_occupied st.1)) (lv_slot st.1), st.2).
Definition slot_is_empty (slot : Z) : SE (Level * Store) Never bool :=
  on_slot slot (gets (fun st => st_is_empty st.1)).

(** [timer/wheel/level.rs] Level::add_entry *)
Definition Level_add_entry (when : Z) (item : Item) : SE (Level * Store) Never () :=
  level ← gets (fun st => lv_level st.1);
  let slot := slot_for when level in
  _ ← on_slot slot (st_push item);
  modify (set_occupied (fun occ => Z.lor occ (occupied_bit slot))).

(** [timer/wheel/level.rs] Level::remove_entry *)
Definition Level_remove_entry (when : Z) (item : Item) : SE (Level * Store) Never () :=
  level ← gets (fun st => lv_level st.1);
  let slot := slot_for when level in
  _ ← on_slot slot (st_remove item);
  empty ← slot_is_empty slot;
  if empty : bool then modify (set_occupied (fun occ => Z.lxor occ (occupied_bit slot))) else mret tt.

(** [timer/wheel/level.rs] Level::pop_entry_slot *)
Definition pop_entry_slot (slot : Z) : SE (Level * Store) Never (option Item) :=
  ret ← on_slot slot st_pop;
  match ret with
  | Some item =>
      empty ← slot_is_empty slot;
      _ ← (if empty : bool then modify (set_occupied (fun occ => Z.lxor occ (occupied_bit slot))) else mret tt);
      mret (Some item)
  | None => mret None
  end.

(** ** The wheel *)

(** [timer/wheel/mod.rs] NUM_LEVELS *)
Definition NUM_LEVELS : nat := 6.
(** [timer/wheel/mod.rs] MAX_DURATION *)
Definition MAX_DURATION : Z := Z.shiftl 1 (6 * Z.of_nat NUM_LEVELS).

(** [timer/wheel/mod.rs] InsertError *)
Inductive InsertError := IE_Elapsed | IE_Invalid.

(** [timer/wheel/mod.rs] Wheel *)
Record Wheel := MkWheel { wh_elapsed : Z; wh_levels : list Level }.

(** [timer/wheel/mod.rs] Poll *)
Record Poll := MkPoll { po_now : Z; po_expiration : option Expiration }.

(** [timer/wheel/mod.rs] Wheel::new *)
Definition Wheel_new : Wheel := MkWheel 0 (Level_new ∘ Z.of_nat <$> seq 0 NUM_LEVELS).
(** [timer/wheel/mod.rs] Poll::new *)
Definition Poll_new (now : Z) : Poll := MkPoll now None.

(** [timer/wheel/mod.rs] level_for.  [63 - masked.leading_zeros()] is the position
    of the highest set bit. *)
Definition level_for (elapsed when : Z) : outcome Never Z :=
  let masked := Z.lxor elapsed when in
  _ ← assert_ (negb (masked =? 0));
  let significant := Z.log2 masked in
  Ok (significant / 6).

(** An operation on [self.levels[level]] and the store *)
Definition on_level {A} (level : Z) (c : SE (Level * Store) Never A) : SE (Wheel * Store) Never A := fun st =>
  let '(w, s) := st in
  match wh_levels w !! Z.to_nat level with
  | Some lv =>
      let '((lv, s), r) := c (lv, s) in
      ((MkWheel (wh_elapsed w) (<[Z.to_nat level := lv]> (wh_levels w)), s), r)
  | None => (st, Panic)
  end.

(** [timer/wheel/mod.rs] Wheel::insert *)
Definition Wheel_insert (when : Z) (item : Item) :
    SE (Wheel * Store) Never (option (Item * InsertError)) :=
  elapsed ← gets (fun st => wh_elapsed st.1);
  if when <=? elapsed then mret (Some (item, IE_Elapsed))
  else if MAX_DURATION <? when - elapsed then mret (Some (item, IE_Invalid))
  else
    level ← lift (level_for elapsed when);
    _ ← on_level level (Level_add_entry when item);
    mret None.

(** [timer/wheel/mod.rs] Wheel::remove *)
Definition Wheel_remove (item : Item) : SE (Wheel * Store) Never () :=
  st ← get;
  when ← lift (st_when item st.2);
  level ← lift (level_for (wh_elapsed st.1) when);
  on_level level (Level_remove_entry when item).

Fixpoint next_expiration_from (lvs : list Level) (elapsed : Z) : option Expiration :=
  match lvs with
  | [] => None
  | lv :: lvs =>
      match Level_next_expiration lv elapsed with
      | Some e => Some e
      | None => next_expiration_from lvs elapsed
      end
  end.

(** [timer/wheel/mod.rs] Wheel::next_expiration *)
Definition Wheel_next_expiration (w : Wheel) : option Expiration :=
  next_expiration_from (wh_levels w) (wh_elapsed w).

(** [timer/wheel/mod.rs] Wheel::poll_at *)
Definition poll_at (w : Wheel) : option Z := ex_deadline <$> Wheel_next_expiration w.

(** [timer/wheel/mod.rs] Wheel::pop_entry *)
Definition pop_entry (e : Expiration) : SE (Wheel * Store) Never (option Item) :=
  on_level (ex_level e) (pop_entry_slot (ex_slot e)).

(** [timer/wheel/mod.rs] Wheel::set_elapsed *)
Definition set_elapsed (when : Z) : SE (Wheel * Store) Never () :=
  elapsed ← gets (fun st => wh_elapsed st.1);
  _ ← lift (assert_ (elapsed <=? when));
  if elapsed <? when then modify (fun st => (MkWheel when (wh_levels st.1), st.2)) else mret tt.

(** [timer/wheel/mod.rs] Wheel::poll_expiration.  Each round of the loop takes an
    entry from the slot. *)
Fixpoint poll_expiration (fuel : nat) (e : Expiration) : SE (Wheel * Store) Never (option Item) :=
  match fuel with
  | O => panic
  | S fuel =>
      item ← pop_entry e;
      match item with
      | None => mret None
      | Some item =>
          if ex_level e =? 0 then mret (Some item)
          else
            s ← gets snd;
            when ← lift (st_when item s);
            let next_level := ex_level e - 1 in
            _ ← on_level next_level (Level_add_entry when item);
            poll_expiration fuel e
      end
  end.

(** [timer/wheel/mod.rs] Wheel::poll.  [fuel] bounds the rounds of the loops. *)
Fixpoint Wheel_poll (fuel : nat) : SE (Poll * (Wheel * Store)) Never (option Item) :=
  match fuel with
  | O => panic
  | S fuel =>
      st ← get;
      let poll := st.1 in
      let expiration :=
        match po_expiration poll with
        | None =>
            match Wheel_next_expiration st.2.1 with
            | Some e => if po_now poll <? ex_deadline e then None else Some e
            | None => None
            end
        | e => e
        end in
      _ ← modify (fun st => (MkPoll (po_now poll) expiration, st.2));
      match expiration with
      | Some e =>
          item ← zoom snd (fun x st => (st.1, x)) (poll_expiration fuel e);
          match item with
          | Some item => mret (Some item)
          | None =>
              _ ← zoom snd (fun x st => (st.1, x)) (set_elapsed (ex_deadline e));
              _ ← modify (fun st => (MkPoll (po_now poll) None, st.2));
              Wheel_poll fuel
          end
      | None =>
          _ ← zoom snd (fun x st => (st.1, x)) (set_elapsed (po_now poll));
          mret None
      end
  end.

End Wheel.
Arguments Level : clear implicits.
Arguments Wheel : clear implicits.
