(* ===== verification/TimerWheelCorrect.v ===== *)
(** * Digits of time

    The arithmetic behind the timer wheel: a time in base 64, the level that two
    times first differ at, and the scan of the [occupied] bits.

    The second part is the invariant of the wheel. *)

From S2P Require Import Prelude Bytes TimerWheel.

(** The time [w] in units of level [i] *)
Definition blk (i : nat) (w : Z) : Z := w / 64 ^ Z.of_nat i.

Lemma pow64_pos (i : nat) : 0 < 64 ^ Z.of_nat i.
Proof. apply Z.pow_pos_nonneg; lia. Qed.

Lemma blk_0 w : blk 0 w = w.
Proof. unfold blk. simpl. apply Z.div_1_r. Qed.

Lemma blk_S i w : blk (S i) w = blk i w / 64.
Proof.
  unfold blk. rewrite Nat2Z.inj_succ, Z.pow_succ_r, Z.mul_comm by lia.
  rewrite Z.div_div by (try apply pow64_pos; lia). done.
Qed.

Lemma blk_mono i a b : a <= b -> blk i a <= blk i b.
Proof. intros H. apply Z.div_le_mono; [apply pow64_pos|done]. Qed.

Lemma blk_lt i a b : blk i a < blk i b -> a < b.
Proof. intros H. destruct (Z.lt_ge_cases a b); [done|]. pose proof (blk_mono i b a). lia. Qed.

Lemma blk_same_above i i' a b : (i <= i')%nat -> blk i a = blk i b -> blk i' a = blk i' b.
Proof.
  intros Hi E. induction Hi as [|i' Hi IH]; [done|]. rewrite !blk_S. by rewrite IH.
Qed.

Lemma blk_nonneg i w : 0 <= w -> 0 <= blk i w.
Proof. intros H. apply Z.div_pos; [done|apply pow64_pos]. Qed.

(** [blk i w * 64 ^ i] is the start of the span of [w]. *)
Definition start (i : nat) (w : Z) : Z := blk i w * 64 ^ Z.of_nat i.

Lemma start_le i w : start i w <= w.
Proof. unfold start, blk. rewrite Z.mul_comm. apply Z.mul_div_le, pow64_pos. Qed.
Lemma blk_start i w : blk i (start i w) = blk i w.
Proof. unfold start, blk. apply Z.div_mul. pose proof (pow64_pos i). lia. Qed.
Lemma start_mod i w : start i w mod 64 ^ Z.of_nat i = 0.
Proof. unfold start. apply Z.mod_mul. pose proof (pow64_pos i). lia. Qed.
Lemma start_mono i a b : blk i a <= blk i b -> start i a <= start i b.
Proof. unfold start. pose proof (pow64_pos i). nia. Qed.
Lemma blk_lt_start i a b : a < start i b -> blk i a < blk i b.
Proof.
  intros H. destruct (Z.lt_ge_cases (blk i a) (blk i b)) as [|Hge]; [done|].
  pose proof (start_mono i b a Hge). pose proof (start_le i a). lia.
Qed.
Lemma mod_pow_below i i' w : (i' <= i)%nat -> w mod 64 ^ Z.of_nat i = 0 -> w mod 64 ^ Z.of_nat i' = 0.
Proof.
  intros Hi H. pose proof (pow64_pos i). pose proof (pow64_pos i').
  apply Z.mod_divide in H; [|lia]. apply Z.mod_divide; [lia|].
  etrans; [|exact H]. exists (64 ^ Z.of_nat (i - i')). rewrite <- Z.pow_add_r by lia. f_equal. lia.
Qed.

Lemma slot_for_blk w i : 0 <= w -> slot_for w (Z.of_nat i) = blk i w mod 64.
Proof.
  intros Hw. unfold slot_for, blk, LEVEL_MULT. rewrite Z.shiftr_div_pow2 by lia.
  replace (2 ^ (Z.of_nat i * 6)) with (64 ^ Z.of_nat i); [done|].
  change 64 with (2 ^ 6). rewrite <- Z.pow_mul_r by lia. f_equal. lia.
Qed.

Lemma blk_pow2 i w : 0 <= w -> blk i w = Z.shiftr w (6 * Z.of_nat i).
Proof.
  intros Hw. unfold blk. rewrite Z.shiftr_div_pow2 by lia. f_equal.
  change 64 with (2 ^ 6). rewrite <- Z.pow_mul_r by lia. done.
Qed.

(** The level of [level_for] is the highest digit in which the times differ. *)
Lemma level_for_spec e w :
  0 <= e < w -> exists i : nat, level_for e w = Ok (Z.of_nat i) /\ blk (S i) e = blk (S i) w /\ blk i e < blk i w.
Proof.
  intros H. unfold level_for. set (m := Z.lxor e w).
  assert (0 <= m) as Hm by (apply Z.lxor_nonneg; lia).
  assert (m <> 0) as Hm0 by (intros E; apply Z.lxor_eq in E; lia).
  rewrite (proj2 (Z.eqb_neq m 0)) by done. cbn [negb assert_ mbind outcome_bind].
  pose proof (Z.log2_nonneg m) as Hl. exists (Z.to_nat (Z.log2 m / 6)).
  assert (0 <= Z.log2 m / 6) as Hq by (apply Z.div_pos; lia). rewrite Z2Nat.id by done. split; [done|].
  assert (forall n, 0 <= n -> Z.shiftr m n = Z.lxor (Z.shiftr e n) (Z.shiftr w n)) as Hs by (intros; apply Z.shiftr_lxor).
  assert (blk (S (Z.to_nat (Z.log2 m / 6))) e = blk (S (Z.to_nat (Z.log2 m / 6))) w) as Heq.
  { rewrite !blk_pow2 by lia. apply Z.lxor_eq. rewrite <- Hs by lia. apply Z.shiftr_eq_0; [done|].
    rewrite Nat2Z.inj_succ, Z2Nat.id by done. pose proof (Z.mul_succ_div_gt (Z.log2 m) 6). lia. }
  split; [exact Heq|].
  destruct (Z.lt_ge_cases (blk (Z.to_nat (Z.log2 m / 6)) e) (blk (Z.to_nat (Z.log2 m / 6)) w)) as [|Hge]; [done|].
  exfalso. assert (blk (Z.to_nat (Z.log2 m / 6)) e = blk (Z.to_nat (Z.log2 m / 6)) w) as E.
  { pose proof (blk_mono (Z.to_nat (Z.log2 m / 6)) e w ltac:(lia)). lia. }
  rewrite !blk_pow2 in E by lia.
  assert (Z.shiftr m (6 * Z.of_nat (Z.to_nat (Z.log2 m / 6))) = 0) as H0.
  { rewrite Hs by lia. rewrite E. apply Z.lxor_nilpotent. }
  apply Z.shiftr_eq_0_iff in H0. rewrite Z2Nat.id in H0 by done.
  pose proof (Z.mul_div_le (Z.log2 m) 6). lia.
Qed.

(** ** Scanning the occupied slots *)

Lemma trailing_zeros_fuel_spec fuel : forall x k,
  0 <= x -> 0 <= k < Z.of_nat fuel -> Z.testbit x k = true ->
  let z := trailing_zeros_fuel fuel x in
  0 <= z <= k /\ Z.testbit x z = true /\ forall m, 0 <= m < z -> Z.testbit x m = false.
Proof.
  induction fuel as [|fuel IH]; intros x k Hx Hk Hb; [lia|]. cbn [trailing_zeros_fuel].
  destruct (Z.testbit x 0) eqn:E0; [split; [lia|]; split; [done|]; lia|].
  assert (k <> 0) as Hk0 by congruence.
  destruct (IH (Z.shiftr x 1) (k - 1)) as (Hz & Hzb & Hm).
  { by apply Z.shiftr_nonneg. }
  { lia. }
  { rewrite Z.shiftr_spec by lia. by replace (k - 1 + 1) with k by lia. }
  cbv zeta. set (z := trailing_zeros_fuel fuel (Z.shiftr x 1)) in *. split; [lia|].
  rewrite Z.shiftr_spec in Hzb by lia. replace (z + 1) with (1 + z) in Hzb by lia. split; [done|].
  intros m Hmm. destruct (Z.eq_dec m 0) as [->|Hm0]; [done|].
  specialize (Hm (m - 1) ltac:(lia)). rewrite Z.shiftr_spec in Hm by lia. by replace (m - 1 + 1) with m in Hm by lia.
Qed.

(** Rotating does not wrap anything when the bits below are clear. *)
Lemma rotate_right_shift occ n :
  0 <= occ < 2 ^ 64 -> (forall k, 0 <= k < n mod 64 -> Z.testbit occ k = false) ->
  rotate_right occ n = Z.shiftr occ (n mod 64).
Proof.
  intros Ho Hlow. unfold rotate_right. set (c := n mod 64) in *.
  assert (0 <= c < 64) as Hc by (apply Z.mod_pos_bound; lia).
  assert (as_u64 (Z.shiftl occ (64 - c)) = 0) as ->; [|apply Z.lor_0_r].
  apply Z.bits_inj'. intros k Hk. rewrite Z.bits_0. unfold as_u64, wrapu.
  destruct (Z.lt_ge_cases k 64) as [Hlt|Hge]; [|apply Z.mod_pow2_bits_high; lia].
  rewrite Z.mod_pow2_bits_low, Z.shiftl_spec by lia.
  destruct (Z.lt_ge_cases (k - (64 - c)) 0) as [Hn|Hp]; [by apply Z.testbit_neg_r|].
  apply Hlow. lia.
Qed.

(** The slot found is the first one that is occupied. *)
Lemma next_occupied_first `{ST : Stack T Item Store} (lv : Level T) i now k :
  lv_level lv = Z.of_nat i -> 0 <= now < 2 ^ 64 -> 0 <= lv_occupied lv < 2 ^ 64 ->
  Z.testbit (lv_occupied lv) k = true -> 0 <= k < 64 ->
  (forall j, 0 <= j -> Z.testbit (lv_occupied lv) j = true -> blk i now mod 64 <= j) ->
  exists j, next_occupied_slot lv now = Some j /\ 0 <= j < 64 /\ blk i now mod 64 <= j /\
    Z.testbit (lv_occupied lv) j = true /\ forall j', 0 <= j' -> Z.testbit (lv_occupied lv) j' = true -> j <= j'.
Proof.
  intros Hlv Hnow Hocc Hk Hk64 Hlow. unfold next_occupied_slot.
  rewrite (proj2 (Z.eqb_neq _ _)) by (intros E; rewrite E, Z.bits_0 in Hk; done).
  rewrite Hlv. change (slot_range (Z.of_nat i)) with (64 ^ Z.of_nat i). fold (blk i now).
  pose proof (blk_nonneg i now ltac:(lia)) as Hb. set (c := blk i now mod 64) in *.
  assert (0 <= c < 64) as Hc by (apply Z.mod_pos_bound; lia).
  assert (as_u32 (blk i now) mod 64 = c) as Hcc.
  { unfold as_u32, wrapu, c. apply Z.mod_mod_divide. by exists (2 ^ 26). }
  rewrite rotate_right_shift; [|done|].
  2:{ intros j Hj. rewrite Hcc in Hj. destruct (Z.testbit (lv_occupied lv) j) eqn:E; [|done]. specialize (Hlow j ltac:(lia) E). lia. }
  rewrite Hcc. pose proof (Hlow k ltac:(lia) Hk) as Hck.
  destruct (trailing_zeros_fuel_spec 64 (Z.shiftr (lv_occupied lv) c) (k - c)) as (Hz & Hzb & Hzm).
  { apply Z.shiftr_nonneg. lia. }
  { lia. }
  { rewrite Z.shiftr_spec by lia. by replace (k - c + c) with k by lia. }
  fold (trailing_zeros (Z.shiftr (lv_occupied lv) c)) in *. set (z := trailing_zeros _) in *.
  exists (z + c). rewrite Z.shiftr_spec in Hzb by lia. split.
  - f_equal. unfold as_usize, wrapu. rewrite Z.mod_mod_divide by (by exists (2 ^ 58)).
    rewrite Zplus_mod. fold c. rewrite (Z.mod_small z) by lia. apply Z.mod_small. lia.
  - split_and!; [lia|lia|lia|done|]. intros j' Hj' Hb'. pose proof (Hlow j' Hj' Hb') as Hcj.
    destruct (Z.lt_ge_cases j' (z + c)) as [Hlt|]; [|done].
    specialize (Hzm (j' - c) ltac:(lia)). rewrite Z.shiftr_spec in Hzm by lia.
    replace (j' - c + c) with j' in Hzm by lia. congruence.
Qed.

(** * The timer wheel keeps time

    The wheel against the set of its entries with their times: what every slot
    may hold, that the operations keep it so, and that polling up to a time returns
    the entries that are due, in order of their times, and no others. *)

(** ** Occupied bits *)

Lemma below_pow2 x n : 0 <= n -> 0 <= x -> (forall k, n <= k -> Z.testbit x k = false) -> x < 2 ^ n.
Proof.
  intros Hn Hx Hb. destruct (Z.eq_dec x 0) as [->|Hx0]; [apply Z.pow_pos_nonneg; lia|].
  apply Z.log2_lt_pow2; [lia|]. destruct (Z.lt_ge_cases (Z.log2 x) n) as [|Hge]; [done|].
  specialize (Hb _ Hge). rewrite Z.bit_log2 in Hb by lia. done.
Qed.
Lemma high_bits x n k : 0 <= x < 2 ^ n -> n <= k -> 0 <= n -> Z.testbit x k = false.
Proof.
  intros Hx Hk Hn. destruct (Z.eq_dec x 0) as [->|]; [apply Z.bits_0|]. apply Z.bits_above_log2; [lia|].
  pose proof (proj1 (Z.log2_lt_pow2 x n ltac:(lia)) ltac:(lia)). lia.
Qed.

Lemma occupied_bit_spec j k : 0 <= j -> 0 <= k -> Z.testbit (occupied_bit j) k = (k =? j).
Proof.
  intros Hj Hk. unfold occupied_bit. rewrite Z.shiftl_1_l, Z.pow2_bits_eqb by done. apply Z.eqb_sym.
Qed.

(** ** The items of the slots *)

Section Correct.
Context {T Item Store : Type} `{EqDecision Item} {ST : Stack T Item Store} {SL : StackLaws T Item Store}.
Implicit Types (s : Store) (x y : Item) (L : nat -> nat -> list Item) (e D : Z).

Definition upd (L : nat -> nat -> list Item) (i j : nat) (l : list Item) : nat -> nat -> list Item :=
  fun i' j' => if decide (i' = i /\ j' = j) then l else L i' j'.

Lemma upd_same L i j l : upd L i j l i j = l.
Proof. unfold upd. by rewrite decide_True. Qed.
Lemma upd_other L i j l i' j' : i' <> i \/ j' <> j -> upd L i j l i' j' = L i' j'.
Proof. intros H. unfold upd. rewrite decide_False by naive_solver. done. Qed.

Record level_rep (s : Store) (lv : Level T) (i : nat) (R : nat -> list Item) : Prop := {
  lr_level : lv_level lv = Z.of_nat i;
  lr_occupied : 0 <= lv_occupied lv < 2 ^ 64;
  lr_slots : length (lv_slot lv) = 64%nat;
  lr_slot j t : lv_slot lv !! j = Some t -> st_rep s t (R j);
  lr_bit j : (j < 64)%nat -> Z.testbit (lv_occupied lv) (Z.of_nat j) = negb (bool_decide (R j = []))
}.

Record wheel_rep (w : Wheel T) (s : Store) (L : nat -> nat -> list Item) : Prop := {
  wr_levels : length (wh_levels w) = NUM_LEVELS;
  wr_level i lv : wh_levels w !! i = Some lv -> level_rep s lv i (L i);
  wr_once x i j i' j' : x ∈ L i j -> x ∈ L i' j' -> i = i' /\ j = j';
  wr_range i j : L i j <> [] -> (i < NUM_LEVELS)%nat /\ (j < 64)%nat
}.

Lemma wheel_rep_slot w s L i j :
  wheel_rep w s L -> (i < NUM_LEVELS)%nat -> (j < 64)%nat ->
  exists lv t, wh_levels w !! i = Some lv /\ level_rep s lv i (L i) /\ lv_slot lv !! j = Some t /\ st_rep s t (L i j).
Proof.
  intros H Hi Hj. destruct (lookup_lt_is_Some_2 (wh_levels w) i) as [lv Hlv]; [by rewrite (wr_levels _ _ _ H)|].
  pose proof (wr_level _ _ _ H i lv Hlv) as Hr.
  destruct (lookup_lt_is_Some_2 (lv_slot lv) j) as [t Ht]; [by rewrite (lr_slots _ _ _ _ Hr)|].
  exists lv, t. pose proof (lr_slot _ _ _ _ Hr j t Ht). done.
Qed.

Definition stored (L : nat -> nat -> list Item) (x : Item) : Prop := exists i j, x ∈ L i j.

Lemma wheel_nodup w s L i j : wheel_rep w s L -> NoDup (L i j).
Proof.
  intros H. destruct (decide (L i j = [])) as [->|Hne]; [constructor|].
  destruct (wr_range _ _ _ H i j Hne) as [Hi Hj].
  destruct (wheel_rep_slot w s L i j H Hi Hj) as (lv & t & _ & _ & _ & Hr). by eapply st_rep_nodup.
Qed.

(** One slot changes, by an operation that touched only its items and items that
    were in no stack. *)
Lemma wheel_rep_set w s L i j lv t t' s' l' occ' tch :
  wheel_rep w s L -> wh_levels w !! i = Some lv -> lv_slot lv !! j = Some t ->
  st_rep s' t' l' -> st_frame s s' tch ->
  (forall y, y ∈ tch -> y ∈ L i j \/ ~ stored L y) ->
  (forall y, y ∈ l' -> y ∈ L i j \/ ~ stored L y) ->
  0 <= occ' -> (forall k, 0 <= k -> Z.testbit occ' k =
     if k =? Z.of_nat j then negb (bool_decide (l' = [])) else Z.testbit (lv_occupied lv) k) ->
  wheel_rep (MkWheel (wh_elapsed w) (<[i := MkLevel (lv_level lv) occ' (<[j := t']> (lv_slot lv))]> (wh_levels w)))
    s' (upd L i j l').
Proof.
  intros H Hlv Ht Hrep (Hfr & _ & _) Htch Hl' Hocc Hbits.
  pose proof (wr_level _ _ _ H i lv Hlv) as Hr.
  assert ((i < NUM_LEVELS)%nat) as Hi by (rewrite <- (wr_levels _ _ _ H); by eapply lookup_lt_Some).
  assert ((j < 64)%nat) as Hj by (rewrite <- (lr_slots _ _ _ _ Hr); by eapply lookup_lt_Some).
  assert (forall t2 i2 j2, (i2 <> i \/ j2 <> j) -> st_rep s t2 (L i2 j2) -> st_rep s' t2 (L i2 j2)) as Hother.
  { intros t2 i2 j2 Hne H2. apply Hfr; [done|]. intros x Hx Hxt.
    destruct (Htch x Hxt) as [Hx'|Hu].
    - destruct (wr_once _ _ _ H x i2 j2 i j Hx Hx'). naive_solver.
    - apply Hu. by exists i2, j2. }
  split; cbn [wh_levels].
  - rewrite length_insert. apply (wr_levels _ _ _ H).
  - intros i2 lv2 Hlv2. destruct (decide (i2 = i)) as [->|Hne].
    + rewrite list_lookup_insert_eq in Hlv2 by (rewrite (wr_levels _ _ _ H); done). injection Hlv2 as <-.
      split; cbn [lv_level lv_occupied lv_slot].
      * apply (lr_level _ _ _ _ Hr).
      * split; [done|]. apply below_pow2; [lia|done|]. intros k Hk. rewrite Hbits by lia.
        rewrite (proj2 (Z.eqb_neq _ _)) by lia. apply (high_bits _ 64); [apply (lr_occupied _ _ _ _ Hr)|lia|lia].
      * rewrite length_insert. apply (lr_slots _ _ _ _ Hr).
      * intros j2 t2 Ht2. destruct (decide (j2 = j)) as [->|Hnj].
        -- rewrite list_lookup_insert_eq in Ht2 by (rewrite (lr_slots _ _ _ _ Hr); done). injection Ht2 as <-. by rewrite upd_same.
        -- rewrite list_lookup_insert_ne in Ht2 by done. rewrite upd_other by auto. apply Hother; [auto|]. by apply (lr_slot _ _ _ _ Hr).
      * intros j2 Hj2. rewrite Hbits by lia. destruct (Z.eqb_spec (Z.of_nat j2) (Z.of_nat j)) as [Ej|Hnj].
        -- apply Nat2Z.inj in Ej. subst j2. by rewrite upd_same.
        -- rewrite upd_other by (right; congruence). by apply (lr_bit _ _ _ _ Hr).
    + rewrite list_lookup_insert_ne in Hlv2 by done. pose proof (wr_level _ _ _ H i2 lv2 Hlv2) as Hr2.
      split; try apply Hr2.
      * intros j2 t2 Ht2. rewrite upd_other by auto. apply Hother; [auto|]. by apply (lr_slot _ _ _ _ Hr2).
      * intros j2 Hj2. rewrite upd_other by auto. by apply (lr_bit _ _ _ _ Hr2).
  - assert (forall y i2 j2, y ∈ upd L i j l' i2 j2 -> y ∈ L i2 j2 \/ (i2 = i /\ j2 = j /\ (y ∈ L i j \/ ~ stored L y))) as Hcase.
    { intros y i2 j2. unfold upd. case_decide as Hd; [destruct Hd as [-> ->]; auto|auto]. }
    intros x i1 j1 i2 j2 H1 H2.
    destruct (Hcase _ _ _ H1) as [H1'|(-> & -> & [H1'|Hu])], (Hcase _ _ _ H2) as [H2'|(-> & -> & [H2'|Hu2])];
      try (by eapply wr_once); try done;
      try (exfalso; apply Hu2; by eexists _, _);
      try (exfalso; apply Hu; by eexists _, _).
  - intros i2 j2. unfold upd. case_decide as Hd; [destruct Hd as [-> ->]; done|apply (wr_range _ _ _ H)].
Qed.

(** ** Operations on one slot *)

Lemma slot_nat i when0 : 0 <= when0 ->
  exists j, slot_for when0 (Z.of_nat i) = Z.of_nat j /\ Z.of_nat j = blk i when0 mod 64 /\ (j < 64)%nat.
Proof.
  intros Hw. exists (Z.to_nat (blk i when0 mod 64)). rewrite slot_for_blk by done.
  pose proof (Z.mod_pos_bound (blk i when0) 64 ltac:(lia)). lia.
Qed.

(** What an operation keeps: items that are neither in the wheel nor given to the
    operation stay as they are, unlinked or in another stack, and times do not
    change. *)
Definition kept (L : nat -> nat -> list Item) (s s' : Store) (given : list Item) : Prop :=
  ((forall y, st_unlinked s y -> ~ stored L y -> y ∉ given -> st_unlinked s' y) /\
   (forall t l, st_rep s t l -> (forall y, y ∈ l -> ~ stored L y /\ y ∉ given) -> st_rep s' t l)) /\
  forall y, st_when y s' = st_when y s.

Lemma kept_refl L s : kept L s s [].
Proof. by split. Qed.
Lemma kept_given L L2 s1 s2 s3 given :
  (forall y, stored L2 y -> stored L y) -> (forall y, y ∈ given -> stored L y) ->
  kept L s1 s2 [] -> kept L2 s2 s3 given -> kept L s1 s3 [].
Proof.
  intros Hst Hg [[U1 R1] W1] [[U2 R2] W2]. split; [split|intros y; by rewrite W2, W1].
  - intros y Hy Hns Hn. apply U2; [by apply U1|auto|auto].
  - intros t l Hr Hl. apply R2; [by apply R1|]. intros y [Hy _]%Hl. auto.
Qed.
Lemma kept_trans L L2 s1 s2 s3 :
  (forall y, stored L2 y -> stored L y) -> kept L s1 s2 [] -> kept L2 s2 s3 [] -> kept L s1 s3 [].
Proof. intros Hst. apply kept_given; [done|inversion 1]. Qed.
Lemma kept_frame L s s' touched given :
  st_frame s s' touched -> (forall y, y ∈ touched -> stored L y \/ y ∈ given) -> kept L s s' given.
Proof.
  intros (R & U & W) Ht. split; [split|done].
  - intros y Hy Hns Hn. apply U; [done|]. intros [?|?]%Ht; done.
  - intros t l Hr Hl. apply R; [done|]. intros y [? ?]%Hl [?|?]%Ht; done.
Qed.

Lemma add_entry_rep w s L i x when0 :
  wheel_rep w s L -> (i < NUM_LEVELS)%nat -> 0 <= when0 -> st_unlinked s x -> ~ stored L x ->
  exists w' s' j, on_level (Z.of_nat i) (Level_add_entry when0 x) (w, s) = ((w', s'), Ok tt) /\
    Z.of_nat j = blk i when0 mod 64 /\ wh_elapsed w' = wh_elapsed w /\
    wheel_rep w' s' (upd L i j (x :: L i j)) /\ kept L s s' [x].
Proof.
  intros H Hi Hw Hx Hnx. destruct (slot_nat i when0 Hw) as (j & Hsl & Hj & Hj64).
  destruct (wheel_rep_slot w s L i j H Hi Hj64) as (lv & t & Hlv & Hr & Ht & Hrep).
  destruct (st_push_rep s t (L i j) x Hrep Hx ltac:(intros ?; apply Hnx; by exists i, j)) as (s' & t' & Hpush & Hrep' & Hfr).
  exists (MkWheel (wh_elapsed w) (<[i := MkLevel (lv_level lv) (Z.lor (lv_occupied lv) (occupied_bit (Z.of_nat j)))
    (<[j := t']> (lv_slot lv))]> (wh_levels w))), s', j. split; [|split; [done|split; [done|split]]].
  - unfold on_level. rewrite Nat2Z.id, Hlv. unfold Level_add_entry. rewrite bind_gets. cbn [fst].
    rewrite (lr_level _ _ _ _ Hr), Hsl.
    assert (on_slot (Z.of_nat j) (st_push x) (lv, s) =
      ((MkLevel (lv_level lv) (lv_occupied lv) (<[j := t']> (lv_slot lv)), s'), Ok tt)) as Hon.
    { unfold on_slot. by rewrite Nat2Z.id, Ht, Hpush. }
    rewrite (bind_eq _ _ _ _ _ Hon). unfold modify, set_occupied. cbn [fst snd lv_level lv_occupied lv_slot].
    by rewrite (lr_level _ _ _ _ Hr).
  - eapply wheel_rep_set; try done.
    + intros y [->|Hy]%elem_of_cons; auto.
    + intros y [->|Hy]%elem_of_cons; auto.
    + apply Z.lor_nonneg. split; [apply (lr_occupied _ _ _ _ Hr)|]. apply Z.shiftl_nonneg. lia.
    + intros k Hk. rewrite Z.lor_spec, occupied_bit_spec by lia. destruct (k =? Z.of_nat j); [by rewrite orb_true_r|by rewrite orb_false_r].
  - eapply kept_frame; [exact Hfr|]. intros y [->|Hy]%elem_of_cons; [right; left|left; by exists i, j].
Qed.

Lemma lxor_bit occ j : 0 <= occ -> Z.testbit occ (Z.of_nat j) = true ->
  0 <= Z.lxor occ (occupied_bit (Z.of_nat j)) /\ forall k, 0 <= k ->
  Z.testbit (Z.lxor occ (occupied_bit (Z.of_nat j))) k = if k =? Z.of_nat j then false else Z.testbit occ k.
Proof.
  intros Ho Hb. split; [apply Z.lxor_nonneg; split; intros; [apply Z.shiftl_nonneg; lia|done]|].
  intros k Hk. rewrite Z.lxor_spec, occupied_bit_spec by lia.
  destruct (Z.eqb_spec k (Z.of_nat j)) as [->|]; [by rewrite Hb|apply xorb_false_r].
Qed.

(** After taking an item out of a slot: the bit is cleared when the slot is empty. *)
Definition clear_if (empty : bool) (j : nat) (occ : Z) : Z :=
  if empty then Z.lxor occ (occupied_bit (Z.of_nat j)) else occ.

Lemma taken_out_rep w s L i j lv t t' s' l' :
  wheel_rep w s L -> wh_levels w !! i = Some lv -> lv_slot lv !! j = Some t ->
  st_rep s' t' l' -> st_frame s s' (L i j) -> L i j <> [] -> (forall y, y ∈ l' -> y ∈ L i j) ->
  wheel_rep (MkWheel (wh_elapsed w) (<[i := MkLevel (lv_level lv)
      (clear_if (st_is_empty t') j (lv_occupied lv)) (<[j := t']> (lv_slot lv))]> (wh_levels w))) s' (upd L i j l') /\
  kept L s s' [].
Proof.
  intros H Hlv Ht Hrep Hfr Hne Hl'. pose proof (wr_level _ _ _ H i lv Hlv) as Hr.
  assert ((j < 64)%nat) as Hj by (rewrite <- (lr_slots _ _ _ _ Hr); by eapply lookup_lt_Some).
  pose proof (lr_bit _ _ _ _ Hr j Hj) as Hbit. rewrite bool_decide_false in Hbit by done. cbn [negb] in Hbit.
  destruct (lxor_bit (lv_occupied lv) j ltac:(apply (lr_occupied _ _ _ _ Hr)) Hbit) as [Hx0 Hxb]. split.
  - eapply wheel_rep_set; try done; [by auto|by auto| |].
    + unfold clear_if. destruct (st_is_empty t'); [done|apply (lr_occupied _ _ _ _ Hr)].
    + intros k Hk. unfold clear_if. rewrite (st_is_empty_rep _ _ _ Hrep). case_bool_decide as Hl; [by apply Hxb|].
      destruct (Z.eqb_spec k (Z.of_nat j)) as [->|]; done.
  - eapply kept_frame; [exact Hfr|]. intros y Hy. left. by exists i, j.
Qed.

Lemma slot_is_empty_set (lv : Level T) s j (t' : T) :
  (j < length (lv_slot lv))%nat ->
  slot_is_empty (Z.of_nat j) (MkLevel (lv_level lv) (lv_occupied lv) (<[j := t']> (lv_slot lv)), s) =
    ((MkLevel (lv_level lv) (lv_occupied lv) (<[j := t']> (lv_slot lv)), s), Ok (st_is_empty t')).
Proof.
  intros Hj. unfold slot_is_empty, on_slot, gets. cbn [lv_slot fst]. rewrite Nat2Z.id, list_lookup_insert_eq by done.
  cbn [fst lv_level lv_occupied]. by rewrite list_insert_insert_eq.
Qed.

Lemma pop_entry_rep w s L i j x l D :
  wheel_rep w s L -> L i j = x :: l ->
  exists w' s', pop_entry (MkExpiration (Z.of_nat i) (Z.of_nat j) D) (w, s) = ((w', s'), Ok (Some x)) /\
    wh_elapsed w' = wh_elapsed w /\ wheel_rep w' s' (upd L i j l) /\ st_unlinked s' x /\ kept L s s' [].
Proof.
  intros H Hl. destruct (wr_range _ _ _ H i j) as [Hi Hj]; [by rewrite Hl|].
  destruct (wheel_rep_slot w s L i j H Hi Hj) as (lv & t & Hlv & Hr & Ht & Hrep). rewrite Hl in Hrep.
  destruct (st_pop_cons s t x l Hrep) as (s' & t' & Hpop & Hrep' & Hu & Hfr). rewrite <- Hl in Hfr.
  destruct (taken_out_rep w s L i j lv t t' s' l H Hlv Ht Hrep' Hfr) as [Hw Hk].
  { by rewrite Hl. }
  { intros y Hy. rewrite Hl. by right. }
  eexists _, s'. split; [|split; [|split; [exact Hw|done]]]; [|done].
  unfold pop_entry, on_level. cbn [ex_level ex_slot]. rewrite Nat2Z.id, Hlv. unfold pop_entry_slot.
  assert (on_slot (Z.of_nat j) st_pop (lv, s) =
      ((MkLevel (lv_level lv) (lv_occupied lv) (<[j := t']> (lv_slot lv)), s'), Ok (Some x))) as Hon.
  { unfold on_slot. by rewrite Nat2Z.id, Ht, Hpop. }
  rewrite (bind_eq _ _ _ _ _ Hon).
  rewrite (bind_eq _ _ _ _ _ (slot_is_empty_set lv s' j t' ltac:(rewrite (lr_slots _ _ _ _ Hr); done))). unfold clear_if. by destruct (st_is_empty t').
Qed.

Lemma pop_entry_empty w s L i j D :
  wheel_rep w s L -> (i < NUM_LEVELS)%nat -> (j < 64)%nat -> L i j = [] ->
  pop_entry (MkExpiration (Z.of_nat i) (Z.of_nat j) D) (w, s) = ((w, s), Ok None).
Proof.
  intros H Hi Hj Hl. destruct (wheel_rep_slot w s L i j H Hi Hj) as (lv & t & Hlv & Hr & Ht & Hrep). rewrite Hl in Hrep.
  unfold pop_entry, on_level. cbn [ex_level ex_slot]. rewrite Nat2Z.id, Hlv. unfold pop_entry_slot.
  assert (on_slot (Z.of_nat j) st_pop (lv, s) = ((lv, s), Ok None)) as Hon.
  { unfold on_slot. rewrite Nat2Z.id, Ht, (st_pop_nil _ _ Hrep), list_insert_id by done. by destruct lv. }
  rewrite (bind_eq _ _ _ _ _ Hon). unfold mret, SE_ret. rewrite list_insert_id by done. by destruct w.
Qed.

Lemma remove_entry_rep w s L i j x when0 :
  wheel_rep w s L -> x ∈ L i j -> 0 <= when0 -> Z.of_nat j = blk i when0 mod 64 ->
  exists w' s' l1 l2, on_level (Z.of_nat i) (Level_remove_entry when0 x) (w, s) = ((w', s'), Ok tt) /\
    L i j = l1 ++ x :: l2 /\
    wh_elapsed w' = wh_elapsed w /\ wheel_rep w' s' (upd L i j (l1 ++ l2)) /\ st_unlinked s' x /\ kept L s s' [].
Proof.
  intros H Hx Hw Hj. destruct (wr_range _ _ _ H i j) as [Hi Hj64]; [by intros E; rewrite E in Hx; inversion Hx|].
  destruct (wheel_rep_slot w s L i j H Hi Hj64) as (lv & t & Hlv & Hr & Ht & Hrep).
  apply list_elem_of_split in Hx as (l1 & l2 & Hl). rewrite Hl in Hrep.
  destruct (st_remove_rep s t l1 x l2 Hrep) as (s' & t' & Hrm & Hrep' & Hu & Hfr). rewrite <- Hl in Hfr.
  destruct (taken_out_rep w s L i j lv t t' s' (l1 ++ l2) H Hlv Ht Hrep' Hfr) as [Hw' Hk].
  { rewrite Hl. by destruct l1. }
  { intros y Hy. rewrite Hl. set_solver. }
  eexists _, s', l1, l2. split; [|split; [done|split; [|split; [exact Hw'|done]]]]; [|done].
  unfold on_level. rewrite Nat2Z.id, Hlv. unfold Level_remove_entry. rewrite bind_gets. cbn [fst].
  rewrite (lr_level _ _ _ _ Hr), slot_for_blk, <- Hj by done.
  assert (on_slot (Z.of_nat j) (st_remove x) (lv, s) =
      ((MkLevel (lv_level lv) (lv_occupied lv) (<[j := t']> (lv_slot lv)), s'), Ok tt)) as Hon.
  { unfold on_slot. by rewrite Nat2Z.id, Ht, Hrm. }
  rewrite (bind_eq _ _ _ _ _ Hon).
  rewrite (bind_eq _ _ _ _ _ (slot_is_empty_set lv s' j t' ltac:(rewrite (lr_slots _ _ _ _ Hr); done))). unfold clear_if, modify, set_occupied, mret, SE_ret. cbn [fst snd lv_level lv_occupied lv_slot].
  rewrite (lr_level _ _ _ _ Hr). by destruct (st_is_empty t').
Qed.

(** ** Where entries are *)

(** An entry is at a level whose span it shares with the current time, not in a
    slot that has passed. *)
Definition placed (e : Z) (s : Store) (L : nat -> nat -> list Item) : Prop :=
  forall i j x, x ∈ L i j -> exists w, st_when x s = Ok w /\ e <= w < 2 ^ 36 /\
    Z.of_nat j = blk i w mod 64 /\ blk (S i) w = blk (S i) e.

(** An entry of a higher level is in a slot to come, unless it has just been
    moved there at the start of the slot. *)
Definition calm (e : Z) (s : Store) (L : nat -> nat -> list Item) : Prop :=
  forall i j x w, x ∈ L (S i) j -> st_when x s = Ok w -> blk (S i) w = blk (S i) e ->
    e mod 64 ^ Z.of_nat (S i) = 0 /\ forall i' j', (i' < S i)%nat -> L i' j' = [].

(** Between polls: every entry is in a slot to come. *)
Definition idle (e : Z) (s : Store) (L : nat -> nat -> list Item) : Prop :=
  placed e s L /\ forall i j x w, x ∈ L i j -> st_when x s = Ok w -> blk i e < blk i w.

Lemma idle_calm e s L : idle e s L -> calm e s L.
Proof. intros [_ H] i j x w Hx Hw Heq. pose proof (H _ _ _ _ Hx Hw). lia. Qed.

Lemma blk_digit i w : blk i w = 64 * blk (S i) w + blk i w mod 64.
Proof. rewrite blk_S. apply Z.div_mod. lia. Qed.

Lemma level_empty lv s i R e :
  level_rep s lv i R -> (forall j, (j < 64)%nat -> R j = []) -> Level_next_expiration lv e = None.
Proof.
  intros Hr He. unfold Level_next_expiration, next_occupied_slot.
  assert (lv_occupied lv = 0) as ->; [|done]. apply Z.bits_inj'. intros k Hk. rewrite Z.bits_0.
  destruct (Z.lt_ge_cases k 64) as [Hlt|Hge]; [|by apply (high_bits _ 64); [apply (lr_occupied _ _ _ _ Hr)|..]].
  rewrite <- (Z2Nat.id k) by done. rewrite (lr_bit _ _ _ _ Hr) by lia. rewrite He by lia. done.
Qed.

Lemma level_next lv s L i j0 e :
  level_rep s lv i (L i) -> placed e s L -> 0 <= e < 2 ^ 36 -> L i j0 <> [] -> (j0 < 64)%nat ->
  exists j D, Level_next_expiration lv e = Some (MkExpiration (Z.of_nat i) (Z.of_nat j) D) /\
    L i j <> [] /\ (j < 64)%nat /\ blk (S i) D = blk (S i) e /\ 0 <= D /\
    (forall x w, x ∈ L i j -> st_when x s = Ok w -> D = start i w) /\
    (forall j' x w, x ∈ L i j' -> st_when x s = Ok w -> D <= start i w /\ (j' <> j -> D < start i w)).
Proof.
  intros Hr Hp He Hne Hj0.
  assert (forall j x w, x ∈ L i j -> st_when x s = Ok w ->
    blk i w = 64 * blk (S i) e + Z.of_nat j /\ blk i e <= blk i w /\ w < 2 ^ 36) as Hent.
  { intros j x w Hx Hw. destruct (Hp i j x Hx) as (w' & Hw' & Hle & Hj & Hs). rewrite Hw in Hw'. injection Hw' as <-.
    rewrite (blk_digit i w), Hs, <- Hj. split; [done|]. split; [|lia].
    pose proof (blk_mono i e w ltac:(lia)) as Hm. rewrite (blk_digit i w), Hs, <- Hj in Hm. lia. }
  assert (forall k, 0 <= k -> Z.testbit (lv_occupied lv) k = true -> exists j, k = Z.of_nat j /\ (j < 64)%nat /\ L i j <> []) as Hbit.
  { intros k Hk Hb. destruct (Z.lt_ge_cases k 64) as [Hlt|Hge].
    - exists (Z.to_nat k). split; [lia|]. split; [lia|]. rewrite <- (Z2Nat.id k), (lr_bit _ _ _ _ Hr) in Hb by lia.
      by apply negb_true_iff, bool_decide_eq_false in Hb.
    - rewrite (high_bits _ 64) in Hb; [done|apply (lr_occupied _ _ _ _ Hr)|lia|lia]. }
  assert (forall j, L i j <> [] -> exists x w, x ∈ L i j /\ st_when x s = Ok w) as Hsome.
  { intros j Hj. destruct (L i j) as [|x l] eqn:E; [done|]. destruct (Hp i j x) as (w & Hw & _); [rewrite E; left|].
    exists x, w. split; [left|done]. }
  destruct (next_occupied_first lv i e (Z.of_nat j0)) as (z & Hz & Hz64 & Hzn & Hzb & Hmin).
  { apply (lr_level _ _ _ _ Hr). }
  { lia. }
  { apply (lr_occupied _ _ _ _ Hr). }
  { rewrite (lr_bit _ _ _ _ Hr) by done. by rewrite bool_decide_false. }
  { lia. }
  { intros k Hk Hb. destruct (Hbit k Hk Hb) as (j & -> & _ & Hj). destruct (Hsome j Hj) as (x & w & Hx & Hw).
    destruct (Hent j x w Hx Hw) as (E & Hle & _). rewrite (blk_digit i e) in Hle. lia. }
  destruct (Hbit z ltac:(lia) Hzb) as (j & -> & Hj64 & Hj). destruct (Hsome j Hj) as (x0 & w0 & Hx0 & Hw0).
  destruct (Hent j x0 w0 Hx0 Hw0) as (E0 & _ & Hw36).
  exists j, (start i w0). split; [|split; [done|split; [done|split; [|split; [|split]]]]].
  - unfold Level_next_expiration. rewrite Hz. rewrite (lr_level _ _ _ _ Hr). f_equal. f_equal.
    change (level_range (Z.of_nat i)) with (64 * 64 ^ Z.of_nat i). change (slot_range (Z.of_nat i)) with (64 ^ Z.of_nat i).
    assert (e - e mod (64 * 64 ^ Z.of_nat i) + Z.of_nat j * 64 ^ Z.of_nat i = start i w0) as ->.
    { unfold start. rewrite E0. unfold blk. rewrite Nat2Z.inj_succ, Z.pow_succ_r by lia.
      pose proof (Z.div_mod e (64 * 64 ^ Z.of_nat i)). pose proof (pow64_pos i). nia. }
    unfold as_u64. apply wrapu_id. unfold in_u. pose proof (start_le i w0). unfold start at 1. split; [|lia].
    pose proof (pow64_pos i). destruct (Hp i j x0 Hx0) as (w' & Hw' & Hle & _). rewrite Hw0 in Hw'. injection Hw' as <-.
    pose proof (blk_nonneg i w0 ltac:(lia)). nia.
  - rewrite blk_S, blk_start, <- blk_S. destruct (Hp i j x0 Hx0) as (w' & Hw' & _ & _ & Hs). rewrite Hw0 in Hw'. by injection Hw' as <-.
  - unfold start. destruct (Hp i j x0 Hx0) as (w' & Hw' & Hle & _). rewrite Hw0 in Hw'. injection Hw' as <-.
    pose proof (blk_nonneg i w0 ltac:(lia)). pose proof (pow64_pos i). nia.
  - intros x w Hx Hw. destruct (Hent j x w Hx Hw) as (E & _). unfold start. by rewrite E0, E.
  - intros j' x w Hx Hw. destruct (Hent j' x w Hx Hw) as (E & _).
    assert (j <= j')%nat as Hjj.
    { destruct (Hp i j' x Hx) as (w' & _ & _ & Hj' & _). pose proof (Z.mod_pos_bound (blk i w') 64 ltac:(lia)).
      apply Nat2Z.inj_le, Hmin; [lia|]. rewrite (lr_bit _ _ _ _ Hr) by lia.
      rewrite bool_decide_false; [done|]. intros E'. rewrite E' in Hx. inversion Hx. }
    pose proof (pow64_pos i). unfold start. rewrite E0, E. split; [nia|]. intros Hn.
    assert (Z.of_nat j < Z.of_nat j') by lia. nia.
Qed.

(** ** The next slot of the wheel *)

(** The slot [i, j], with the start [D], is the first one that has entries. *)
Record first_slot (e : Z) (s : Store) (L : nat -> nat -> list Item) (i j : nat) (D : Z) : Prop := {
  fs_some : L i j <> [];
  fs_level : (i < NUM_LEVELS)%nat;
  fs_slot : (j < 64)%nat;
  fs_below i' j' : (i' < i)%nat -> L i' j' = [];
  fs_span : blk (S i) D = blk (S i) e;
  fs_start x w : x ∈ L i j -> st_when x s = Ok w -> D = start i w;
  fs_first j' x w : j' <> j -> x ∈ L i j' -> st_when x s = Ok w -> D < start i w
}.

Lemma next_expiration_from_spec lvs : forall k s L e,
  (forall m lv, lvs !! m = Some lv -> level_rep s lv (k + m) (L (k + m)%nat)) ->
  (k + length lvs = NUM_LEVELS)%nat -> placed e s L -> 0 <= e < 2 ^ 36 ->
  (forall i j, L i j <> [] -> (i < NUM_LEVELS)%nat /\ (j < 64)%nat) ->
  (forall i j, (i < k)%nat -> L i j = []) ->
  match next_expiration_from lvs e with
  | None => forall i j, L i j = []
  | Some ex => exists i j D, ex = MkExpiration (Z.of_nat i) (Z.of_nat j) D /\ first_slot e s L i j D
  end.
Proof.
  induction lvs as [|lv lvs IH]; intros k s L e Hrep Hk Hp He Hrange Hlow.
  { intros i j. destruct (decide (L i j = [])) as [|Hne]; [done|]. destruct (Hrange i j Hne). apply Hlow. simpl in Hk. lia. }
  pose proof (Hrep 0%nat lv eq_refl) as Hr. rewrite Nat.add_0_r in Hr. cbn [next_expiration_from].
  destruct (existsb (fun j => negb (bool_decide (L k j = []))) (seq 0 64)) eqn:Hex.
  - apply existsb_exists in Hex as (j0 & Hj0 & Hne). apply in_seq in Hj0. apply negb_true_iff, bool_decide_eq_false in Hne.
    destruct (level_next lv s L k j0 e Hr Hp He Hne ltac:(lia)) as (j & D & -> & Hj & Hj64 & HD & _ & Hst & Hmin).
    exists k, j, D. split; [done|]. split; try done; [simpl in Hk; lia|].
    intros j' x w Hn Hx Hw. by apply (Hmin j' x w Hx Hw).
  - assert (forall j, (j < 64)%nat -> L k j = []) as Hnil.
    { intros j Hj. destruct (decide (L k j = [])) as [|Hne]; [done|]. exfalso.
      enough (existsb (fun j => negb (bool_decide (L k j = []))) (seq 0 64) = true) by congruence.
      apply existsb_exists. exists j. rewrite bool_decide_false by done. split; [apply in_seq; lia|done]. }
    rewrite (level_empty lv s k (L k) e Hr Hnil). apply (IH (S k) s L e); try done.
    + intros m lv' Hm. replace (S k + m)%nat with (k + S m)%nat by lia. by apply Hrep.
    + simpl in Hk. lia.
    + intros i j Hi. destruct (decide (i = k)) as [->|]; [|apply Hlow; lia].
      destruct (decide (L k j = [])) as [|Hne]; [done|]. apply Hnil. by apply (Hrange k j).
Qed.

Lemma next_expiration_spec w s L :
  wheel_rep w s L -> placed (wh_elapsed w) s L -> 0 <= wh_elapsed w < 2 ^ 36 ->
  match Wheel_next_expiration w with
  | None => forall i j, L i j = []
  | Some ex => exists i j D, ex = MkExpiration (Z.of_nat i) (Z.of_nat j) D /\ first_slot (wh_elapsed w) s L i j D
  end.
Proof.
  intros H Hp He. apply (next_expiration_from_spec _ 0); try done.
  - intros m lv Hm. by apply (wr_level _ _ _ H).
  - apply (wr_levels _ _ _ H).
  - apply (wr_range _ _ _ H).
  - lia.
Qed.

(** The first slot starts now or later; all other entries come after its start. *)
Lemma first_slot_now e s L i j D :
  placed e s L -> calm e s L -> first_slot e s L i j D -> e <= D.
Proof.
  intros Hp Hc Hf. destruct (L i j) as [|x l] eqn:E; [by destruct (fs_some _ _ _ _ _ _ Hf)|].
  assert (x ∈ L i j) as Hx by (rewrite E; left).
  destruct (Hp i j x Hx) as (w & Hw & Hle & _). rewrite (fs_start _ _ _ _ _ _ Hf x w Hx Hw).
  pose proof (blk_mono i e w ltac:(lia)) as Hb. destruct (Z.eq_dec (blk i w) (blk i e)) as [Heq|Hne].
  - destruct i as [|i]; [unfold start; rewrite blk_0; simpl; lia|].
    destruct (Hc i j x w Hx Hw Heq) as [Hmod _]. unfold start. rewrite Heq. unfold blk.
    pose proof (Z.div_mod e (64 ^ Z.of_nat (S i))). pose proof (pow64_pos (S i)). lia.
  - destruct (Z.lt_ge_cases (start i w) e) as [Hlt|]; [|lia].
    pose proof (blk_mono i (start i w) e ltac:(lia)). rewrite blk_start in *. lia.
Qed.

Lemma first_slot_others e s L i j D i' j' x w :
  placed e s L -> calm e s L -> first_slot e s L i j D ->
  x ∈ L i' j' -> st_when x s = Ok w -> (i', j') <> (i, j) ->
  blk i' D < blk i' w /\ blk (S i') w = blk (S i') D.
Proof.
  intros Hp Hc Hf Hx Hw Hne. destruct (Hp i' j' x Hx) as (w' & Hw' & Hle & Hj & Hs). rewrite Hw in Hw'. injection Hw' as <-.
  destruct (lt_eq_lt_dec i' i) as [[Hlt|Heq]|Hgt].
  - rewrite (fs_below _ _ _ _ _ _ Hf i' j' Hlt) in Hx. inversion Hx.
  - subst i'. split; [|by rewrite Hs, (fs_span _ _ _ _ _ _ Hf)].
    apply blk_lt_start. apply (fs_first _ _ _ _ _ _ Hf j' x w); [congruence|done|done].
  - assert (blk i' D = blk i' e) as HD by (apply (blk_same_above (S i)); [lia|apply (fs_span _ _ _ _ _ _ Hf)]).
    split; [|rewrite Hs; symmetry; apply (blk_same_above (S i)); [lia|apply (fs_span _ _ _ _ _ _ Hf)]].
    rewrite HD. pose proof (blk_mono i' e w ltac:(lia)). destruct (Z.eq_dec (blk i' w) (blk i' e)) as [Heq|]; [|lia].
    destruct i' as [|i']; [lia|]. destruct (Hc i' j' x w Hx Hw Heq) as [_ Hemp].
    by destruct (fs_some _ _ _ _ _ _ Hf); apply Hemp.
Qed.

(** Without the entries of the first slot, every entry is in a slot after [D]. *)
Lemma first_slot_idle e s L i j D :
  placed e s L -> calm e s L -> first_slot e s L i j D -> idle D s (upd L i j []).
Proof.
  intros Hp Hc Hf.
  assert (forall i' j' x, x ∈ upd L i j [] i' j' -> (i', j') <> (i, j) /\ x ∈ L i' j') as Hin.
  { intros i' j' x. unfold upd. case_decide as Hd; [inversion 1|]. naive_solver. }
  split.
  - intros i' j' x [Hne Hx]%Hin. destruct (Hp i' j' x Hx) as (w & Hw & Hle & Hj & Hs).
    destruct (first_slot_others e s L i j D i' j' x w Hp Hc Hf Hx Hw Hne) as [Hlt Hs']. apply blk_lt in Hlt as Hlt'.
    exists w. split_and!; [done|lia|lia|done|done].
  - intros i' j' x w [Hne Hx]%Hin Hw. by apply (first_slot_others e s L i j D i' j' x w).
Qed.

(** When the first slot starts after [now], all entries are in slots after [now]. *)
Lemma not_due_idle e s L i j D now :
  placed e s L -> calm e s L -> first_slot e s L i j D -> e <= now < D -> idle now s L.
Proof.
  intros Hp Hc Hf Hnow.
  assert (forall i' j' x w, x ∈ L i' j' -> st_when x s = Ok w -> blk i' now < blk i' w /\ blk (S i') w = blk (S i') now) as H.
  { intros i' j' x w Hx Hw. destruct (Hp i' j' x Hx) as (w' & Hw' & Hle & Hj & Hs). rewrite Hw in Hw'. injection Hw' as <-.
    assert (forall k, (S i <= k)%nat -> blk k now = blk k e) as Hk.
    { intros k Hk. apply (blk_same_above (S i)); [done|]. pose proof (blk_mono (S i) e now ltac:(lia)).
      pose proof (blk_mono (S i) now D ltac:(lia)). rewrite (fs_span _ _ _ _ _ _ Hf) in *. lia. }
    destruct (decide ((i', j') = (i, j))) as [[= -> ->]|Hne].
    - rewrite Hs, (Hk (S i)) by lia. split; [|done]. apply blk_lt_start. rewrite <- (fs_start _ _ _ _ _ _ Hf x w Hx Hw). lia.
    - destruct (first_slot_others e s L i j D i' j' x w Hp Hc Hf Hx Hw Hne) as [Hlt Hs'].
      assert (i <= i')%nat as Hi.
      { destruct (Nat.le_gt_cases i i'); [done|]. rewrite (fs_below _ _ _ _ _ _ Hf i' j') in Hx by done. inversion Hx. }
      split; [pose proof (blk_mono i' now D ltac:(lia)); lia|]. rewrite Hs, Hk by lia. done. }
  split.
  - intros i' j' x Hx. destruct (Hp i' j' x Hx) as (w & Hw & Hle & Hj & Hs). destruct (H i' j' x w Hx Hw) as [Hlt Hs'].
    apply blk_lt in Hlt. exists w. split_and!; [done|lia|lia|done|done].
  - intros i' j' x w Hx Hw. by apply (H i' j' x w).
Qed.
End Correct.
