(* ===== verification/TimerRefine.v ===== *)
(** * Polling the timer wheel

    The entries of a slot that is due move down a level until they reach level
    zero, where they are returned.  Polling up to a time terminates, and returns
    the entries that are due in the order of their times.

    The second part is the refinement of a set of timers. *)

From stdpp Require Import sorting.
From S2P Require Import Prelude Bytes TimerWheel TimerWheelCorrect.

(** ** Weights *)

Lemma sum_list_with_change {A} `{EqDecision A} (f g : A -> nat) l a :
  NoDup l -> a ∈ l -> (forall b, b <> a -> f b = g b) ->
  (sum_list_with f l + g a = sum_list_with g l + f a)%nat.
Proof.
  intros Hn Ha Hfg. induction l as [|b l IH]; [inversion Ha|]. apply NoDup_cons in Hn as [Hb Hn]. simpl.
  destruct (decide (b = a)) as [->|Hne].
  - enough (sum_list_with f l = sum_list_with g l) by lia. clear IH Hn Ha.
    induction l as [|c l IH]; [done|]. simpl. rewrite Hfg, IH; [done|set_solver|set_solver].
  - apply elem_of_cons in Ha as [->|Ha]; [done|]. rewrite (Hfg b Hne). specialize (IH Hn Ha). lia.
Qed.

Definition cells : list (nat * nat) := list_prod (seq 0 NUM_LEVELS) (seq 0 64).

Lemma cells_NoDup : NoDup cells.
Proof. apply (bool_decide_unpack _). vm_compute. exact I. Qed.

Section Poll.
Context {T Item Store : Type} `{EqDecision Item} {ST : Stack T Item Store} {SL : StackLaws T Item Store}.
Implicit Types (s : Store) (x y : Item) (L : nat -> nat -> list Item) (e D : Z).

(** An entry counts for the levels it still has to go down. *)
Definition weight (L : nat -> nat -> list Item) : nat :=
  sum_list_with (fun c => (S c.1 * length (L c.1 c.2))%nat) cells.

Lemma weight_upd L i j l :
  (i < NUM_LEVELS)%nat -> (j < 64)%nat ->
  (weight (upd L i j l) + S i * length (L i j) = weight L + S i * length l)%nat.
Proof.
  intros Hi Hj. unfold weight.
  pose proof (sum_list_with_change (fun c => (S c.1 * length (upd L i j l c.1 c.2))%nat)
    (fun c => (S c.1 * length (L c.1 c.2))%nat) cells (i, j) cells_NoDup) as H.
  cbn [fst snd] in H. rewrite upd_same in H. apply H.
  - apply list_elem_of_In, in_prod; apply in_seq; unfold NUM_LEVELS in *; lia.
  - intros [i' j'] Hne. cbn [fst snd]. rewrite upd_other; [done|].
    destruct (decide (i' = i)) as [->|]; [right; congruence|by left].
Qed.

(** ** Moving a slot down *)

(** While the slot [S i, j], which starts at [D], is emptied into level [i]. *)
Record moving (D : Z) (s : Store) (L : nat -> nat -> list Item) (i j : nat) : Prop := {
  mv_below i' j' : (i' < i)%nat -> L i' j' = [];
  mv_moved j' x : x ∈ L i j' -> exists w, st_when x s = Ok w /\ D <= w < 2 ^ 36 /\
    Z.of_nat j' = blk i w mod 64 /\ blk (S i) w = blk (S i) D;
  mv_left x : x ∈ L (S i) j -> exists w, st_when x s = Ok w /\ w < 2 ^ 36 /\ D = start (S i) w;
  mv_other i' j' x : (i < i')%nat -> (i', j') <> (S i, j) -> x ∈ L i' j' ->
    exists w, st_when x s = Ok w /\ D <= w < 2 ^ 36 /\
    Z.of_nat j' = blk i' w mod 64 /\ blk (S i') w = blk (S i') D /\ blk i' D < blk i' w
}.

Lemma first_slot_moving e s L i j D :
  placed e s L -> calm e s L -> first_slot e s L (S i) j D -> moving D s L i j.
Proof.
  intros Hp Hc Hf. split.
  - intros i' j' Hi. apply (fs_below _ _ _ _ _ _ Hf). lia.
  - intros j' x Hx. rewrite (fs_below _ _ _ _ _ _ Hf) in Hx by lia. inversion Hx.
  - intros x Hx. destruct (Hp _ _ _ Hx) as (w & Hw & Hle & _). exists w. split_and!; [done|lia|].
    by apply (fs_start _ _ _ _ _ _ Hf x).
  - intros i' j' x Hi Hne Hx. destruct (Hp _ _ _ Hx) as (w & Hw & Hle & Hj & Hs).
    destruct (first_slot_others e s L (S i) j D i' j' x w Hp Hc Hf Hx Hw Hne) as [Hlt Hs'].
    apply blk_lt in Hlt as Hlt'. exists w. split_and!; [done|lia|lia|done|done|done].
Qed.

Lemma moving_done D s L i j :
  moving D s L i j -> D mod 64 ^ Z.of_nat (S i) = 0 -> L (S i) j = [] -> placed D s L /\ calm D s L.
Proof.
  intros Hm HD Hnil.
  assert (forall i' j' x, (i < i')%nat -> x ∈ L i' j' -> (i', j') <> (S i, j)) as Hne.
  { intros i' j' x Hi Hx [= -> ->]. rewrite Hnil in Hx. inversion Hx. }
  split.
  - intros i' j' x Hx. destruct (lt_eq_lt_dec i' i) as [[Hlt| ->]|Hgt].
    + rewrite (mv_below _ _ _ _ _ Hm) in Hx by done. inversion Hx.
    + by apply (mv_moved _ _ _ _ _ Hm).
    + destruct (mv_other _ _ _ _ _ Hm i' j' x Hgt (Hne _ _ _ Hgt Hx) Hx) as (w & ? & ? & ? & ? & _). by exists w.
  - intros i' j' x w Hx Hw Heq. destruct (lt_eq_lt_dec (S i') i) as [[Hlt|Hi]|Hgt].
    + rewrite (mv_below _ _ _ _ _ Hm) in Hx by done. inversion Hx.
    + split; [apply (mod_pow_below (S i)); [lia|done]|]. intros i2 j2 Hi2. apply (mv_below _ _ _ _ _ Hm). lia.
    + destruct (mv_other _ _ _ _ _ Hm (S i') j' x Hgt (Hne _ _ _ Hgt Hx) Hx) as (w' & Hw' & _ & _ & _ & Hlt).
      rewrite Hw in Hw'. injection Hw' as <-. lia.
Qed.

(** One entry moves. *)
Lemma moving_step D s s' L i j j' x l w :
  moving D s L i j -> (forall y, st_when y s' = st_when y s) -> L (S i) j = x :: l ->
  st_when x s = Ok w -> Z.of_nat j' = blk i w mod 64 ->
  moving D s' (upd (upd L (S i) j l) i j' (x :: L i j')) i j.
Proof.
  intros Hm Hk Hl Hw Hj'. set (L' := upd _ i j' _).
  assert (forall i2 j2, (i2 <> i \/ j2 <> j') -> (i2 <> S i \/ j2 <> j) -> L' i2 j2 = L i2 j2) as Hsame.
  { intros i2 j2 H1 H2. unfold L'. by rewrite !upd_other. }
  assert (L' (S i) j = l) as Hl'. { unfold L'. rewrite upd_other by lia. apply upd_same. }
  assert (L' i j' = x :: L i j') as Hmv by apply upd_same.
  split.
  - intros i2 j2 Hi. rewrite Hsame by lia. by apply (mv_below _ _ _ _ _ Hm).
  - intros j2 y Hy. rewrite Hk. destruct (decide (j2 = j')) as [->|Hne].
    + rewrite Hmv in Hy. apply elem_of_cons in Hy as [->|Hy]; [|by apply (mv_moved _ _ _ _ _ Hm)].
      destruct (mv_left _ _ _ _ _ Hm x) as (w' & Hw' & Hlt & HD); [rewrite Hl; left|]. rewrite Hw in Hw'. injection Hw' as <-.
      exists w. rewrite HD. split_and!; [done|apply start_le|done|done|by rewrite blk_start].
    + rewrite Hsame in Hy by lia. by apply (mv_moved _ _ _ _ _ Hm).
  - intros y Hy. rewrite Hk, Hl' in *. apply (mv_left _ _ _ _ _ Hm). rewrite Hl. by right.
  - intros i2 j2 y Hi Hne Hy. rewrite Hk. rewrite Hsame in Hy; [by apply (mv_other _ _ _ _ _ Hm)|lia|].
    destruct (decide (i2 = S i)) as [->|]; [right; congruence|by left].
Qed.

(** An item that has been popped is nowhere else. *)
Lemma popped_not_stored w s L i j x l : wheel_rep w s L -> L i j = x :: l -> ~ stored (upd L i j l) x.
Proof.
  intros Hr Hl (i' & j' & Hx). unfold upd in Hx. case_decide as Hd.
  - pose proof (wheel_nodup w s L i j Hr) as Hnd. rewrite Hl in Hnd. by apply NoDup_cons in Hnd as [? _].
  - destruct (wr_once _ _ _ Hr x i' j' i j Hx) as [-> ->]; [rewrite Hl; left|]. naive_solver.
Qed.

Lemma move_slot fuel : forall w s L i j D,
  wheel_rep w s L -> moving D s L i j -> 0 <= D -> (S i < NUM_LEVELS)%nat -> (j < 64)%nat ->
  (length (L (S i) j) < fuel)%nat ->
  exists w' s' L', poll_expiration fuel (MkExpiration (Z.of_nat (S i)) (Z.of_nat j) D) (w, s) = ((w', s'), Ok None) /\
    wh_elapsed w' = wh_elapsed w /\ wheel_rep w' s' L' /\ kept L s s' [] /\ moving D s' L' i j /\
    L' (S i) j = [] /\ (forall x, stored L' x <-> stored L x) /\
    (weight L' + length (L (S i) j) = weight L)%nat.
Proof.
  induction fuel as [|fuel IH]; intros w s L i j D Hr Hm HD Hi Hj Hf; [lia|]. cbn [poll_expiration].
  destruct (L (S i) j) as [|x l] eqn:Hl.
  { rewrite (bind_eq _ _ _ _ _ (pop_entry_empty w s L (S i) j D Hr Hi Hj Hl)).
    exists w, s, L. split_and!; try done; simpl; lia. }
  destruct (pop_entry_rep w s L (S i) j x l D Hr Hl) as (w1 & s1 & Hpop & He1 & Hr1 & Hu1 & Hk1).
  rewrite (bind_eq _ _ _ _ _ Hpop). cbn [ex_level]. rewrite (proj2 (Z.eqb_neq _ _)) by lia.
  destruct (mv_left _ _ _ _ _ Hm x) as (wx & Hwx & Hlt & Hst); [rewrite Hl; left|].
  rewrite bind_gets. cbn [snd]. rewrite (proj2 Hk1 x), Hwx, bind_lift_Ok.
  replace (Z.of_nat (S i) - 1) with (Z.of_nat i) by lia. pose proof (start_le (S i) wx).
  assert (~ stored (upd L (S i) j l) x) as Hnx by (by eapply popped_not_stored).
  destruct (add_entry_rep w1 s1 _ i x wx Hr1 ltac:(lia) ltac:(lia) Hu1 Hnx) as (w2 & s2 & j' & Hadd & Hj' & He2 & Hr2 & Hk2).
  rewrite (bind_eq _ _ _ _ _ Hadd).
  rewrite upd_other in Hr2 by lia. assert (j' < 64)%nat as Hj64.
  { pose proof (Z.mod_pos_bound (blk i wx) 64 ltac:(lia)). lia. }
  assert (kept L s s2 []) as Hk.
  { eapply kept_given; [| |exact Hk1|exact Hk2].
    - intros y (i2 & j2 & Hy2). unfold upd in Hy2. case_decide as Hd; [|by exists i2, j2].
      exists (S i), j. rewrite Hl. by right.
    - intros y ->%list_elem_of_singleton. exists (S i), j. rewrite Hl. left. }
  set (L2 := upd (upd L (S i) j l) i j' (x :: L i j')) in *.
  pose proof (moving_step D s s2 L i j j' x l wx Hm (proj2 Hk) Hl Hwx Hj') as Hm2. fold L2 in Hm2.
  assert (L2 (S i) j = l) as Hl2. { unfold L2. rewrite upd_other by lia. apply upd_same. }
  assert (forall y, stored L2 y <-> stored L y) as Hst2.
  { intros y. unfold stored, L2. split.
    + intros (i2 & j2 & Hy). unfold upd in Hy. case_decide as H1.
        * destruct H1 as [-> ->]. apply elem_of_cons in Hy as [->|Hy]; [exists (S i), j; rewrite Hl; left|by exists i, j'].
        * case_decide as H2; [|by exists i2, j2]. destruct H2 as [-> ->]. exists (S i), j. rewrite Hl. by right.
      + intros (i2 & j2 & Hy). destruct (decide (y = x)) as [->|Hne]; [exists i, j'; rewrite upd_same; left|].
        destruct (decide (i2 = i /\ j2 = j')) as [[-> ->]|H1]; [exists i, j'; rewrite upd_same; by right|].
        exists i2, j2. rewrite (upd_other _ i j') by lia. destruct (decide (i2 = S i /\ j2 = j)) as [[-> ->]|H2].
        * rewrite upd_same. rewrite Hl in Hy. by apply elem_of_cons in Hy as [->|Hy].
        * by rewrite upd_other by lia. }
  destruct (IH w2 s2 L2 i j D Hr2 Hm2 HD Hi Hj) as (w3 & s3 & L3 & Hpoll & He3 & Hr3 & Hk3 & Hm3 & Hnil & Hst3 & Hwt).
  { rewrite Hl2. simpl in Hf. lia. }
  exists w3, s3, L3. split_and!; try done.
  - congruence.
  - eapply kept_trans; [|exact Hk|exact Hk3]. intros y. by rewrite Hst2.
  - intros y. by rewrite Hst3.
  - pose proof (weight_upd L (S i) j l Hi Hj) as W1. pose proof (weight_upd (upd L (S i) j l) i j' (x :: L i j') ltac:(lia) Hj64) as W2.
    rewrite (upd_other L (S i) j l i j') in W2 by lia. fold L2 in W2. rewrite Hl2 in Hwt. rewrite Hl in W1. cbn [length] in *. lia.
Qed.

(** ** Polling *)

(** The expiration that a round of [Wheel_poll] works on *)
Definition round_expiration (p : Poll) (w : Wheel T) : option Expiration :=
  match po_expiration p with
  | None =>
      match Wheel_next_expiration w with
      | Some ex => if po_now p <? ex_deadline ex then None else Some ex
      | None => None
      end
  | ex => ex
  end.

Lemma poll_item fuel p w s ex w' s' x :
  round_expiration p w = Some ex -> poll_expiration fuel ex (w, s) = ((w', s'), Ok (Some x)) ->
  Wheel_poll (S fuel) (p, (w, s)) = ((MkPoll (po_now p) (Some ex), (w', s')), Ok (Some x)).
Proof.
  intros Hex Hp. cbn [Wheel_poll]. unfold mbind at 1, SE_bind at 1, get. cbn [fst snd].
  fold (round_expiration p w). rewrite Hex, bind_modify. cbn [fst snd].
  unfold mbind at 1, SE_bind at 1, zoom. cbn [fst snd]. by rewrite Hp.
Qed.

Lemma set_elapsed_spec (w : Wheel T) s t :
  wh_elapsed w <= t -> exists w' : Wheel T, set_elapsed t (w, s) = ((w', s), Ok tt) /\ wh_elapsed w' = t /\ wh_levels w' = wh_levels w.
Proof.
  intros Ht. unfold set_elapsed. rewrite bind_gets. cbn [fst]. rewrite (proj2 (Z.leb_le _ _)) by done.
  cbn [assert_]. rewrite bind_lift_Ok. destruct (Z.ltb_spec (wh_elapsed w) t).
  - eexists. by split_and!.
  - exists w. split_and!; [done|lia|done].
Qed.

Lemma wheel_rep_levels (w w' : Wheel T) s L : wh_levels w' = wh_levels w -> wheel_rep w s L -> wheel_rep w' s L.
Proof. intros E [H1 H2 H3 H4]. split; [by rewrite E|by rewrite E|done|done]. Qed.

Lemma poll_round fuel p (w w1 : Wheel T) s ex s1 :
  round_expiration p w = Some ex -> poll_expiration fuel ex (w, s) = ((w1, s1), Ok None) ->
  wh_elapsed w1 <= ex_deadline ex ->
  exists w2 : Wheel T, Wheel_poll (S fuel) (p, (w, s)) = Wheel_poll fuel (MkPoll (po_now p) None, (w2, s1)) /\
    wh_elapsed w2 = ex_deadline ex /\ wh_levels w2 = wh_levels w1.
Proof.
  intros Hex Hp Hle. destruct (set_elapsed_spec w1 s1 _ Hle) as (w2 & Hs & He & Hl). exists w2. split; [|done].
  cbn [Wheel_poll]. unfold mbind at 1, SE_bind at 1, get. cbn [fst snd].
  fold (round_expiration p w). rewrite Hex, bind_modify. cbn [fst snd].
  unfold mbind at 1, SE_bind at 1, zoom at 1. cbn [fst snd]. rewrite Hp.
  unfold mbind at 1, SE_bind at 1, zoom at 1. cbn [fst snd]. rewrite Hs. rewrite bind_modify. done.
Qed.

Lemma poll_end fuel p (w : Wheel T) s :
  round_expiration p w = None -> wh_elapsed w <= po_now p ->
  exists w' : Wheel T, Wheel_poll (S fuel) (p, (w, s)) = ((MkPoll (po_now p) None, (w', s)), Ok None) /\
    wh_elapsed w' = po_now p /\ wh_levels w' = wh_levels w.
Proof.
  intros Hex Hle. destruct (set_elapsed_spec w s _ Hle) as (w2 & Hs & He & Hl). exists w2. split; [|done].
  cbn [Wheel_poll]. unfold mbind at 1, SE_bind at 1, get. cbn [fst snd].
  fold (round_expiration p w). rewrite Hex, bind_modify. cbn [fst snd].
  unfold mbind at 1, SE_bind at 1, zoom at 1. cbn [fst snd]. by rewrite Hs.
Qed.

(** The expiration is at level zero: all entries of its slot are due at [D], and all
    others come later. *)
Definition pinned (e now : Z) (s : Store) (L : nat -> nat -> list Item) (j : nat) (D : Z) : Prop :=
  (j < 64)%nat /\ e <= D <= now /\ (forall x, x ∈ L 0%nat j -> st_when x s = Ok D) /\ idle D s (upd L 0 j []).

Definition polling (p : Poll) (w : Wheel T) (s : Store) (L : nat -> nat -> list Item) : Prop :=
  wheel_rep w s L /\ 0 <= wh_elapsed w <= po_now p /\ po_now p < 2 ^ 36 /\
  match po_expiration p with
  | None => placed (wh_elapsed w) s L /\ calm (wh_elapsed w) s L
  | Some ex => exists j D, ex = MkExpiration 0 (Z.of_nat j) D /\ pinned (wh_elapsed w) (po_now p) s L j D
  end.

(** What a poll returns. *)
Definition poll_post (p : Poll) (s : Store) (L : nat -> nat -> list Item)
    (st : Poll * (Wheel T * Store)) (r : option Item) : Prop :=
  let '(p', (w', s')) := st in
  po_now p' = po_now p /\ kept L s s' [] /\ exists L', match r with
  | Some x =>
      polling p' w' s' L' /\ st_unlinked s' x /\ stored L x /\ (forall y, stored L' y <-> stored L y /\ y <> x) /\
      (weight L' < weight L)%nat /\ exists t, st_when x s = Ok t /\ t <= po_now p /\
      forall y u, stored L y -> st_when y s = Ok u -> t <= u
  | None =>
      p' = Poll_new (po_now p) /\ wheel_rep w' s' L' /\ wh_elapsed w' = po_now p /\ idle (po_now p) s' L' /\
      (weight L' <= weight L)%nat /\ forall y, stored L' y <-> stored L y
  end.

Lemma idle_kept e s s' L : (forall y, st_when y s' = st_when y s) -> idle e s L -> idle e s' L.
Proof.
  intros Hk [Hp Hi]. split.
  - intros i j x Hx. rewrite Hk. by apply Hp.
  - intros i j x w Hx Hw. rewrite Hk in Hw. by apply (Hi i j x).
Qed.

Lemma upd_upd L i j l l' i' j' : upd (upd L i j l) i j l' i' j' = upd L i j l' i' j'.
Proof. unfold upd. by case_decide. Qed.
Lemma idle_ext e s L L' : (forall i j, L i j = L' i j) -> idle e s L -> idle e s L'.
Proof.
  intros E [Hp Hi]. split.
  - intros i j x Hx. rewrite <- E in Hx. by apply Hp.
  - intros i j x w Hx. rewrite <- E in Hx. by apply (Hi i j x).
Qed.

(** In a pinned state all entries are due at [D] or later. *)
Lemma pinned_min e now s L j D y u :
  pinned e now s L j D -> stored L y -> st_when y s = Ok u -> D <= u /\ (y ∉ L 0%nat j -> D < u).
Proof.
  intros (_ & _ & Hj & [Hp Hi]) (i & j' & Hy) Hu. destruct (decide (i = 0%nat /\ j' = j)) as [[-> ->]|Hne].
  - rewrite (Hj y Hy) in Hu. injection Hu as ->. split; [lia|done].
  - assert (y ∈ upd L 0 j [] i j') as Hy' by (rewrite upd_other by lia; done).
    pose proof (Hi i j' y u Hy' Hu) as Hlt. apply blk_lt in Hlt. lia.
Qed.

Lemma slot_weight L i j : (i < NUM_LEVELS)%nat -> (j < 64)%nat -> (S i * length (L i j) <= weight L)%nat.
Proof. intros Hi Hj. pose proof (weight_upd L i j [] Hi Hj). simpl in *. lia. Qed.

(** Popping from a pinned slot. *)
Lemma pinned_pop fuel w s L j D now x l :
  wheel_rep w s L -> pinned (wh_elapsed w) now s L j D -> 0 <= wh_elapsed w -> now < 2 ^ 36 -> L 0%nat j = x :: l ->
  exists w' s', poll_expiration (S fuel) (MkExpiration 0 (Z.of_nat j) D) (w, s) = ((w', s'), Ok (Some x)) /\
    poll_post (MkPoll now (Some (MkExpiration 0 (Z.of_nat j) D))) s L
      (MkPoll now (Some (MkExpiration 0 (Z.of_nat j) D)), (w', s')) (Some x).
Proof.
  intros Hr Hpin He Hnow Hl. pose proof Hpin as (Hj & HD & Hall & Hidle).
  destruct (pop_entry_rep w s L 0 j x l D Hr Hl) as (w1 & s1 & Hpop & He1 & Hr1 & Hu1 & Hk1).
  assert (x ∈ L 0%nat j) as Hx by (rewrite Hl; left).
  exists w1, s1. split.
  { cbn [poll_expiration]. change 0 with (Z.of_nat 0). by rewrite (bind_eq _ _ _ _ _ Hpop). }
  rename Hk1 into Hk.
  split; [done|]. split; [done|]. exists (upd L 0 j l). split_and!; try done.
  - split; [done|]. cbn [po_now po_expiration]. split; [lia|]. split; [done|]. exists j, D. split; [done|].
    split; [done|]. rewrite He1. split; [done|]. split.
    + intros y Hy. rewrite upd_same in Hy. rewrite (proj2 Hk). apply Hall. rewrite Hl. by right.
    + apply (idle_kept _ s); [apply Hk|]. apply (idle_ext _ _ (upd L 0 j [])); [|done]. intros i j'. by rewrite upd_upd.
  - by exists 0%nat, j.
  - intros y. split.
    + intros (i & j' & Hy). unfold upd in Hy. case_decide as Hd.
      * destruct Hd as [-> ->]. split; [exists 0%nat, j; rewrite Hl; by right|]. intros ->.
        apply (popped_not_stored w s L 0 j x l Hr Hl). exists 0%nat, j. by rewrite upd_same.
      * split; [by exists i, j'|]. intros ->. destruct (wr_once _ _ _ Hr x i j' 0 j Hy Hx). naive_solver.
    + intros [(i & j' & Hy) Hne]. exists i, j'. unfold upd. case_decide as Hd; [|done]. destruct Hd as [-> ->].
      rewrite Hl in Hy. by apply elem_of_cons in Hy as [->|Hy].
  - pose proof (weight_upd L 0 j l ltac:(unfold NUM_LEVELS; lia) Hj) as Hw. rewrite Hl in Hw. simpl in Hw. lia.
  - exists D. split_and!; [by apply Hall|cbn [po_now]; lia|]. intros y u Hy Hu. by apply (pinned_min _ _ _ _ _ _ y u Hpin).
Qed.

Lemma poll_post_weaken p p' s s1 L L1 st r :
  po_now p' = po_now p -> kept L s s1 [] -> (forall y, stored L1 y <-> stored L y) -> (weight L1 <= weight L)%nat ->
  poll_post p' s1 L1 st r -> poll_post p s L st r.
Proof.
  intros Hn Hk Hst Hw. destruct st as [p2 [w2 s2]]. intros (Hn2 & Hk2 & L2 & Hpost). rewrite Hn in *.
  split; [done|]. split; [eapply kept_trans; [|done|done]; intros y; apply Hst|]. exists L2. destruct r as [x|].
  - destruct Hpost as (? & ? & Hx & Hy & Hlt & t & Ht & Hle & Hmin). split_and!; try done.
    + by apply Hst.
    + intros y. rewrite Hy. by rewrite Hst.
    + lia.
    + exists t. rewrite <- (proj2 Hk x). split_and!; try done. intros y u Hys Hu. apply (Hmin y); [by apply Hst|].
      by rewrite (proj2 Hk).
  - destruct Hpost as (? & ? & ? & ? & ? & Hy). split_and!; try done; [lia|]. intros y. by rewrite Hy.
Qed.

Definition poll_bound (p : Poll) (L : nat -> nat -> list Item) : nat :=
  match po_expiration p with Some _ => weight L + 2 | None => weight L + 1 end.

Definition polls (fuel : nat) (p : Poll) (w : Wheel T) (s : Store) (L : nat -> nat -> list Item) : Prop :=
  exists st r, Wheel_poll fuel (p, (w, s)) = (st, Ok r) /\ poll_post p s L st r.

Section PollRound.
Variable fuel : nat.
Hypothesis IH : forall p w s L, polling p w s L -> (poll_bound p L <= fuel)%nat -> polls fuel p w s L.

(** In the slot of the expiration: the next entry leaves, or the slot is done. *)
Lemma poll_pinned w s L now j D :
  wheel_rep w s L -> 0 <= wh_elapsed w -> now < 2 ^ 36 -> pinned (wh_elapsed w) now s L j D ->
  (weight L + 1 <= fuel)%nat -> polls (S fuel) (MkPoll now (Some (MkExpiration 0 (Z.of_nat j) D))) w s L.
Proof.
  intros Hr He Hnow Hpin Hf. pose proof Hpin as (Hj & HD & _ & Hidle). destruct (L 0%nat j) as [|x l] eqn:Hl.
  - destruct (poll_round fuel (MkPoll now (Some (MkExpiration 0 (Z.of_nat j) D))) w w s
      (MkExpiration 0 (Z.of_nat j) D) s) as (w2 & Heq & He2 & Hl2).
    { done. }
    { destruct fuel as [|n]; [lia|]. cbn [poll_expiration]. change 0 with (Z.of_nat 0).
      rewrite (bind_eq _ _ _ _ _ (pop_entry_empty w s L 0 j D Hr ltac:(unfold NUM_LEVELS; lia) Hj Hl)). done. }
    { cbn [ex_deadline]. lia. }
    unfold polls. rewrite Heq. cbn [ex_deadline po_now] in *.
    assert (idle D s L) as Hid.
    { eapply idle_ext; [|exact Hidle]. intros i j'. unfold upd. case_decide as Hd; [|done]. by destruct Hd as [-> ->]. }
    destruct (IH (MkPoll now None) w2 s L) as (st & r & Hpoll & Hpost).
    { split; [by apply (wheel_rep_levels w)|]. cbn [po_now po_expiration]. rewrite He2. split; [lia|]. split; [done|].
      split; [apply Hid|by apply idle_calm]. }
    { unfold poll_bound. cbn [po_expiration]. lia. }
    exists st, r. split; [exact Hpoll|]. eapply poll_post_weaken; [| |done| |exact Hpost]; [done|apply kept_refl|done].
  - destruct fuel as [|n]; [lia|].
    destruct (pinned_pop n w s L j D now x l Hr Hpin ltac:(lia) Hnow Hl) as (w' & s' & Hpop & Hpost).
    do 2 eexists. split; [by eapply poll_item|]. done.
Qed.

(** Nothing is due. *)
Lemma poll_nothing w s L now :
  wheel_rep w s L -> wh_elapsed w <= now -> idle now s L ->
  round_expiration (MkPoll now None) w = None -> polls (S fuel) (MkPoll now None) w s L.
Proof.
  intros Hr He Hi Hx. destruct (poll_end fuel (MkPoll now None) w s Hx He) as (w' & Heq & He' & Hl').
  do 2 eexists. split; [exact Heq|]. split; [done|]. split; [apply kept_refl|]. exists L.
  split; [done|]. split; [by apply (wheel_rep_levels w)|]. done.
Qed.

(** The first slot is at level zero. *)
Lemma poll_first_zero w s L now j D :
  wheel_rep w s L -> 0 <= wh_elapsed w -> now < 2 ^ 36 -> placed (wh_elapsed w) s L -> calm (wh_elapsed w) s L ->
  first_slot (wh_elapsed w) s L 0 j D -> wh_elapsed w <= D <= now -> (1 <= fuel)%nat ->
  round_expiration (MkPoll now None) w = Some (MkExpiration 0 (Z.of_nat j) D) ->
  polls (S fuel) (MkPoll now None) w s L.
Proof.
  intros Hr He Hnow Hp Hc Hfs HD Hf Hround. destruct fuel as [|n]; [lia|].
  destruct (L 0%nat j) as [|x l] eqn:Hl; [by destruct (fs_some _ _ _ _ _ _ Hfs)|].
  assert (pinned (wh_elapsed w) now s L j D) as Hpin.
  { split; [apply (fs_slot _ _ _ _ _ _ Hfs)|]. split; [lia|]. split; [|by apply (first_slot_idle _ _ _ _ _ _ Hp Hc Hfs)].
    intros y Hy. destruct (Hp _ _ _ Hy) as (u & Hu & _). rewrite Hu. f_equal.
    rewrite (fs_start _ _ _ _ _ _ Hfs y u Hy Hu). unfold start. rewrite blk_0. simpl. lia. }
  destruct (pinned_pop n w s L j D now x l Hr Hpin He Hnow Hl) as (w' & s' & Hpop & Hpost).
  do 2 eexists. split; [by eapply poll_item|]. done.
Qed.

(** The first slot is at a higher level: its entries move down. *)
Lemma poll_first_higher w s L now i j D :
  wheel_rep w s L -> 0 <= wh_elapsed w -> now < 2 ^ 36 -> placed (wh_elapsed w) s L -> calm (wh_elapsed w) s L ->
  first_slot (wh_elapsed w) s L (S i) j D -> wh_elapsed w <= D <= now -> (weight L <= fuel)%nat ->
  round_expiration (MkPoll now None) w = Some (MkExpiration (Z.of_nat (S i)) (Z.of_nat j) D) ->
  polls (S fuel) (MkPoll now None) w s L.
Proof.
  intros Hr He Hnow Hp Hc Hfs HD Hf Hround.
  pose proof (fs_level _ _ _ _ _ _ Hfs) as Hi. pose proof (fs_slot _ _ _ _ _ _ Hfs) as Hj.
  pose proof (slot_weight L (S i) j Hi Hj) as Hwt. pose proof (fs_some _ _ _ _ _ _ Hfs) as Hne.
  assert (1 <= length (L (S i) j))%nat as Hlen by (destruct (L (S i) j); [done|simpl; lia]).
  destruct (move_slot fuel w s L i j D Hr (first_slot_moving _ _ _ _ _ _ Hp Hc Hfs) ltac:(lia) Hi Hj ltac:(simpl in Hwt; lia))
    as (w1 & s1 & L1 & Hmove & He1 & Hr1 & Hk1 & Hm1 & Hnil & Hst1 & Hwt1).
  destruct (poll_round fuel (MkPoll now None) w w1 s _ s1 Hround Hmove) as (w2 & Heq & He2 & Hl2).
  { cbn [ex_deadline]. lia. }
  unfold polls. rewrite Heq. cbn [ex_deadline po_now] in *.
  assert (D mod 64 ^ Z.of_nat (S i) = 0) as Hmod.
  { destruct (L (S i) j) as [|x l] eqn:Hl; [done|]. destruct (Hp (S i) j x) as (u & Hu & _); [rewrite Hl; left|].
    rewrite (fs_start _ _ _ _ _ _ Hfs x u); [apply start_mod|rewrite Hl; left|done]. }
  destruct (moving_done D s1 L1 i j Hm1 Hmod Hnil) as [Hp1 Hc1].
  destruct (IH (MkPoll now None) w2 s1 L1) as (st & r & Hpoll & Hpost).
  { split; [by apply (wheel_rep_levels w1)|]. cbn [po_now po_expiration]. rewrite He2. split; [lia|]. done. }
  { unfold poll_bound. cbn [po_expiration]. lia. }
  exists st, r. split; [exact Hpoll|]. eapply poll_post_weaken; [| |exact Hst1| |exact Hpost]; [done|exact Hk1|lia].
Qed.
End PollRound.

Lemma poll_spec fuel : forall p w s L,
  polling p w s L -> (poll_bound p L <= fuel)%nat -> polls fuel p w s L.
Proof.
  induction fuel as [|fuel IH]; intros p w s L (Hr & He & Hnow & Hp) Hf; unfold poll_bound in Hf.
  { destruct (po_expiration p); lia. }
  destruct p as [now [ex|]]; cbn [po_now po_expiration] in *.
  { destruct Hp as (j & D & -> & Hpin). apply poll_pinned; (done || lia). }
  destruct Hp as [Hp Hc]. pose proof (next_expiration_spec w s L Hr Hp ltac:(lia)) as Hnext.
  assert (round_expiration (MkPoll now None) w = match Wheel_next_expiration w with
    | Some e => if now <? ex_deadline e then None else Some e | None => None end) as Hround by done.
  destruct (Wheel_next_expiration w) as [ex|].
  2:{ apply poll_nothing; [done|lia| |done]. split; [intros i j x Hx|intros i j x u Hx]; rewrite Hnext in Hx; inversion Hx. }
  destruct Hnext as (i & j & D & -> & Hfs). pose proof (first_slot_now _ _ _ _ _ _ Hp Hc Hfs) as HeD.
  cbn [ex_deadline] in Hround. destruct (Z.ltb_spec now D) as [Hlt|Hge].
  { apply poll_nothing; [done|lia| |done]. apply (not_due_idle _ _ _ _ _ _ _ Hp Hc Hfs). lia. }
  destruct i as [|i]; [|eapply poll_first_higher; (done || lia)].
  pose proof (slot_weight L 0 j ltac:(unfold NUM_LEVELS; lia) (fs_slot _ _ _ _ _ _ Hfs)) as Hw.
  eapply poll_first_zero; try (done || lia).
  pose proof (fs_some _ _ _ _ _ _ Hfs) as Hne. destruct (L 0%nat j); [done|]. simpl in Hw. lia.
Qed.

(** Polling until nothing is due any more, as the timer driver does. *)
Fixpoint poll_all (fuel : nat) : SE (Poll * (Wheel T * Store)) Never (list Item) :=
  match fuel with
  | O => panic
  | S fuel =>
      r ← Wheel_poll (S (S fuel));
      match r with
      | Some x => xs ← poll_all fuel; mret (x :: xs)
      | None => mret []
      end
  end.

(** The items of [out] leave in the order of their times. *)
Definition in_order (s : Store) (out : list Item) (now : Z) : Prop :=
  exists ts, Forall2 (fun x t => st_when x s = Ok t) out ts /\ StronglySorted Z.le ts /\ Forall (fun t => t <= now) ts.

Lemma poll_all_spec fuel : forall p w s L,
  polling p w s L -> (weight L + 1 <= fuel)%nat ->
  exists w' s' L' out, poll_all fuel (p, (w, s)) = ((Poll_new (po_now p), (w', s')), Ok out) /\
    wheel_rep w' s' L' /\ wh_elapsed w' = po_now p /\ idle (po_now p) s' L' /\ kept L s s' [] /\
    NoDup out /\ in_order s out (po_now p) /\ Forall (st_unlinked s') out /\
    (forall y, y ∈ out -> stored L y) /\ (forall y, stored L' y <-> stored L y /\ y ∉ out).
Proof.
  induction fuel as [|fuel IH]; intros p w s L Hp Hf; [lia|]. cbn [poll_all].
  destruct (poll_spec (S (S fuel)) p w s L Hp) as ([p1 [w1 s1]] & r & Hpoll & Hn & Hk & L1 & Hpost).
  { unfold poll_bound. destruct (po_expiration p); lia. }
  rewrite (bind_eq _ _ _ _ _ Hpoll). destruct r as [x|].
  - destruct Hpost as (Hp1 & Hu & Hx & Hst & Hw & t & Ht & Hle & Hmin).
    destruct (IH p1 w1 s1 L1 Hp1 ltac:(lia)) as (w2 & s2 & L2 & out & Hall & Hr2 & He2 & Hi2 & Hk2 & Hnd & Ho & Hun & Hin & Hst2).
    rewrite (bind_eq _ _ _ _ _ Hall), Hn in *.
    exists w2, s2, L2, (x :: out). split; [done|]. split; [done|]. split; [done|]. split; [done|].
    split; [eapply kept_trans; [|done|done]; intros y [? _]%Hst; done|]. split; [|split; [|split; [|split]]].
    + constructor; [|done]. intros Hxo. by apply Hin, Hst in Hxo as [_ ?].
    + destruct Ho as (ts & Hf2 & Hs & Hle2). exists (t :: ts). split; [|split].
      * constructor; [done|]. eapply Forall2_impl; [exact Hf2|]. intros y u Hy. cbv beta in Hy |- *. by rewrite <- (proj2 Hk).
      * constructor; [done|]. apply Forall_forall. intros u Hu'. apply list_elem_of_lookup in Hu' as [k Hk'].
        destruct (Forall2_lookup_r _ _ _ _ _ Hf2 Hk') as (y & Hy & Hyu). cbv beta in Hyu. rewrite (proj2 Hk) in Hyu.
        apply (Hmin y u); [|done]. apply Hst, Hin. by eapply list_elem_of_lookup_2.
      * by constructor.
    + constructor; [|done]. apply (proj1 (proj1 Hk2)); [done| |inversion 1]. by intros [_ ?]%Hst.
    + intros y [->|Hy]%elem_of_cons; [done|]. by apply Hst, Hin.
    + intros y. rewrite Hst2, Hst, elem_of_cons. naive_solver.
  - destruct Hpost as (-> & Hr1 & He1 & Hi1 & _ & Hst). exists w1, s1, L1, [].
    split; [done|]. split; [done|]. split; [done|]. split; [done|]. split; [done|]. split; [constructor|].
    split; [by exists []; repeat constructor|]. split; [constructor|]. split; [inversion 1|].
    intros y. rewrite Hst. split; [|naive_solver]. intros Hy. split; [done|inversion 1].
Qed.

(** ** Refinement *)

(** The wheel stands for the timers [A]: the items that wait, with their times. *)
Definition models (w : Wheel T) (s : Store) (A : Item -> option Z) : Prop :=
  0 <= wh_elapsed w < 2 ^ 36 /\ exists L, wheel_rep w s L /\ idle (wh_elapsed w) s L /\
  forall x t, A x = Some t <-> stored L x /\ st_when x s = Ok t.

(** What an operation keeps, in terms of the timers. *)
Definition preserved (A : Item -> option Z) (s s' : Store) (given : list Item) : Prop :=
  ((forall y, st_unlinked s y -> A y = None -> y ∉ given -> st_unlinked s' y) /\
   (forall t l, st_rep s t l -> (forall y, y ∈ l -> A y = None /\ y ∉ given) -> st_rep s' t l)) /\
  forall y, st_when y s' = st_when y s.

Lemma kept_preserved L A s s' given :
  (forall i j x, x ∈ L i j -> exists t, st_when x s = Ok t) ->
  (forall x t, A x = Some t <-> stored L x /\ st_when x s = Ok t) -> kept L s s' given -> preserved A s s' given.
Proof.
  intros Ht HA [[U R] W].
  assert (forall y, A y = None -> ~ stored L y) as Hn.
  { intros y HAy (i & j & Hx). destruct (Ht i j y Hx) as [t Hyt].
    assert (A y = Some t) by (apply HA; split; [by exists i, j|done]). congruence. }
  split; [split|done].
  - intros y Hy HAy Hg. apply U; auto.
  - intros t l Hr Hl. apply R; [done|]. intros y [? ?]%Hl. auto.
Qed.

Lemma placed_time e s L i j x : placed e s L -> x ∈ L i j -> exists t, st_when x s = Ok t.
Proof. intros Hp Hx. destruct (Hp i j x Hx) as (t & Ht & _). by exists t. Qed.

Lemma wheel_models_new s : models Wheel_new s (fun _ => None).
Proof.
  split; [simpl; lia|]. exists (fun _ _ => []). split; [|split].
  - split; [done| |inversion 1|done]. intros i lv Hlv. unfold Wheel_new in Hlv. cbn [wh_levels] in Hlv.
    apply list_lookup_fmap_Some in Hlv as (k & -> & Hk). apply lookup_seq in Hk as [-> _]. split; cbn [Level_new compose lv_level lv_occupied lv_slot].
    + done.
    + lia.
    + done.
    + intros j t Ht. apply lookup_replicate in Ht as [-> _]. apply st_default_rep.
    + intros j Hj. apply Z.bits_0.
  - split; [inversion 1|]. intros ???? H. inversion H.
  - intros x t. split; [done|]. intros [(i & j & H) _]. inversion H.
Qed.

Lemma idle_after (w : Wheel T) s L x t : idle (wh_elapsed w) s L -> stored L x -> st_when x s = Ok t -> wh_elapsed w < t.
Proof. intros [_ Hi] (i & j & Hx) Ht. by eapply blk_lt, Hi. Qed.

Lemma insert_sim w s A x t :
  models w s A -> st_unlinked s x -> A x = None -> st_when x s = Ok t -> wh_elapsed w < t < 2 ^ 36 ->
  exists w' s', Wheel_insert t x (w, s) = ((w', s'), Ok None) /\ wh_elapsed w' = wh_elapsed w /\
    models w' s' (fun y => if decide (y = x) then Some t else A y) /\ preserved A s s' [x].
Proof.
  intros (He & L & Hr & [Hp Hi] & HA) Hu Hxn Ht Hlt. unfold Wheel_insert. rewrite bind_gets. cbn [fst].
  rewrite (proj2 (Z.leb_gt _ _)) by lia. change MAX_DURATION with (2 ^ 36). rewrite (proj2 (Z.ltb_ge _ _)) by lia.
  destruct (level_for_spec (wh_elapsed w) t ltac:(lia)) as (i & Hlv & Hsame & Hbelow). rewrite Hlv, bind_lift_Ok.
  assert (i < NUM_LEVELS)%nat as Hi6.
  { unfold NUM_LEVELS. destruct (Nat.lt_ge_cases i 6) as [|Hge]; [done|exfalso].
    assert (blk 6 (wh_elapsed w) = blk 6 t) as E by (unfold blk; rewrite !Z.div_small by (simpl; lia); done).
    apply (blk_same_above 6 i) in E; [|done]. lia. }
  assert (~ stored L x) as Hnx by (intros Hx; assert (A x = Some t) by (by apply HA); congruence).
  destruct (add_entry_rep w s L i x t Hr Hi6 ltac:(lia) Hu Hnx) as (w' & s' & j & Hadd & Hj & He' & Hr' & Hk).
  rewrite (bind_eq _ _ _ _ _ Hadd). exists w', s'. split; [done|]. split; [done|].
  split; [|eapply kept_preserved; [|done|done]; intros; by eapply placed_time].
  split; [lia|]. exists (upd L i j (x :: L i j)). split; [done|]. rewrite He'.
  assert (forall i' j' y, y ∈ upd L i j (x :: L i j) i' j' -> (y = x /\ i' = i /\ j' = j) \/ y ∈ L i' j') as Hin.
  { intros i' j' y. unfold upd. case_decide as Hd; [destruct Hd as [-> ->]|by right]. rewrite elem_of_cons. naive_solver. }
  split; [split|].
  - intros i' j' y [(-> & -> & ->)|Hy]%Hin; rewrite (proj2 Hk); [|by apply Hp]. exists t. split_and!; [done|lia|lia|done|done].
  - intros i' j' y u [(-> & -> & ->)|Hy]%Hin Hyu; rewrite (proj2 Hk) in Hyu; [|by apply (Hi i' j' y)]. rewrite Ht in Hyu. by injection Hyu as <-.
  - intros y u. rewrite (proj2 Hk). case_decide as Hd.
    + subst y. rewrite Ht. split; [intros [= ->]; split; [|done]; exists i, j; rewrite upd_same; left|]. by intros [_ [= ->]].
    + rewrite HA. apply and_iff_compat_r. split.
      * intros (i' & j' & Hy). exists i', j'. unfold upd. case_decide as Hd'; [|done]. destruct Hd' as [-> ->]. by right.
      * intros (i' & j' & Hy). apply Hin in Hy as [(? & _)|Hy]; [done|by exists i', j'].
Qed.

Lemma remove_sim w s A x t :
  models w s A -> A x = Some t ->
  exists w' s', Wheel_remove x (w, s) = ((w', s'), Ok tt) /\ wh_elapsed w' = wh_elapsed w /\
    models w' s' (fun y => if decide (y = x) then None else A y) /\ st_unlinked s' x /\ preserved A s s' [].
Proof.
  intros (He & L & Hr & [Hp Hi] & HA) Hx. apply HA in Hx as [(i & j & Hx) Ht].
  destruct (Hp i j x Hx) as (t' & Ht' & Hle & Hj & Hs). rewrite Ht in Ht'. injection Ht' as <-.
  pose proof (Hi i j x t Hx Ht) as Hlt. apply blk_lt in Hlt as Hlt'.
  destruct (level_for_spec (wh_elapsed w) t ltac:(lia)) as (i' & Hlv & Hsame & Hbelow).
  assert (i' = i) as ->.
  { destruct (lt_eq_lt_dec i' i) as [[Hl| ->]|Hl]; [exfalso|done|exfalso].
    - apply (blk_same_above (S i') i) in Hsame; [|lia]. lia.
    - symmetry in Hs. apply (blk_same_above (S i) i') in Hs; [|lia]. lia. }
  destruct (remove_entry_rep w s L i j x t Hr Hx ltac:(lia) Hj) as (w' & s' & l1 & l2 & Hrm & Hl & He' & Hr' & Hu & Hk).
  exists w', s'. split.
  { unfold Wheel_remove, mbind at 1, SE_bind at 1, get. cbn [fst snd]. rewrite Ht, bind_lift_Ok, Hlv, bind_lift_Ok. done. }
  split; [done|]. split; [|split; [done|eapply kept_preserved; [|done|done]; intros; by eapply placed_time]]. split; [lia|]. exists (upd L i j (l1 ++ l2)). split; [done|]. rewrite He'.
  pose proof (wheel_nodup w s L i j Hr) as Hnd. rewrite Hl in Hnd. apply NoDup_app in Hnd as (_ & Hd1 & Hnd).
  apply NoDup_cons in Hnd as [Hd2 _].
  assert (forall i' j' y, y ∈ upd L i j (l1 ++ l2) i' j' <-> y ∈ L i' j' /\ y <> x) as Hin.
  { intros i' j' y. unfold upd. case_decide as Hd.
    - destruct Hd as [-> ->]. rewrite Hl, !elem_of_app, elem_of_cons. split; [|naive_solver].
      intros Hy. split; [naive_solver|]. intros ->. destruct Hy as [Hy|Hy]; [by apply (Hd1 x); [done|left]|done].
    - split; [|naive_solver]. intros Hy. split; [done|]. intros ->. destruct (wr_once _ _ _ Hr x i' j' i j Hy Hx). naive_solver. }
  split; [split|].
  - intros i' j' y [Hy _]%Hin. rewrite (proj2 Hk). by apply Hp.
  - intros i' j' y u [Hy _]%Hin. rewrite (proj2 Hk). by apply (Hi i' j' y).
  - intros y u. rewrite (proj2 Hk). unfold stored. setoid_rewrite Hin. case_decide as Hd; [subst; naive_solver|].
    rewrite HA. unfold stored. naive_solver.
Qed.
End Poll.

(** * The timer wheel implements a set of timers *)

Section Refine.
Context {T Item Store : Type} `{EqDecision Item} {ST : Stack T Item Store} {SL : StackLaws T Item Store}.
Implicit Types (s : Store) (x y : Item) (A : Item -> option Z).

(** ** The store changes elsewhere

    A client may change the store where no item of the wheel is concerned. *)

Definition undisturbed (L : nat -> nat -> list Item) (s s' : Store) : Prop :=
  (forall t l, st_rep s t l -> (forall x, x ∈ l -> stored L x) -> st_rep s' t l) /\
  forall x, stored L x -> st_when x s' = st_when x s.

Section Undisturbed.
Context (L : nat -> nat -> list Item) (s s' : Store) (Hu : undisturbed L s s').

Lemma wheel_rep_undisturbed (w : Wheel T) : wheel_rep w s L -> wheel_rep w s' L.
Proof.
  intros [H1 H2 H3 H4]. split; [done| |done|done]. intros i lv Hlv. destruct (H2 i lv Hlv) as [R1 R2 R3 R4 R5].
  split; try done. intros j t Ht. apply (proj1 Hu); [by apply R4|]. intros x Hx. by exists i, j.
Qed.
Lemma placed_undisturbed e : placed e s L -> placed e s' L.
Proof. intros Hp i j x Hx. rewrite (proj2 Hu) by (by exists i, j). by apply Hp. Qed.
Lemma calm_undisturbed e : calm e s L -> calm e s' L.
Proof. intros Hc i j x w Hx. rewrite (proj2 Hu) by (by exists (S i), j). by apply (Hc i j x w). Qed.
Lemma idle_undisturbed e : idle e s L -> idle e s' L.
Proof.
  intros [Hp Hi]. split; [by apply placed_undisturbed|]. intros i j x w Hx. rewrite (proj2 Hu) by (by exists i, j). by apply (Hi i j x w).
Qed.
End Undisturbed.

Lemma undisturbed_upd L s s' i j l :
  (forall x, x ∈ l -> x ∈ L i j) -> undisturbed L s s' -> undisturbed (upd L i j l) s s'.
Proof.
  intros Hl [H1 H2].
  assert (forall x, stored (upd L i j l) x -> stored L x) as Hs.
  { intros x (i' & j' & Hx). unfold upd in Hx. case_decide as Hd; [destruct Hd as [-> ->]|]; eexists _, _; eauto. }
  split; [|auto]. intros t l' Hr Hl'. apply H1; [done|]. auto.
Qed.

Lemma polling_undisturbed p (w : Wheel T) L s s' : undisturbed L s s' -> polling p w s L -> polling p w s' L.
Proof.
  intros Hu (Hr & He & Hn & Hp). split; [by eapply wheel_rep_undisturbed|]. split; [done|]. split; [done|].
  destruct (po_expiration p) as [ex|].
  - destruct Hp as (j & D & -> & Hj & HD & Hall & Hi). exists j, D. split; [done|]. split; [done|]. split; [done|]. split.
    + intros x Hx. rewrite (proj2 Hu) by (by exists 0%nat, j). auto.
    + eapply idle_undisturbed; [|exact Hi]. apply undisturbed_upd; [inversion 1|done].
  - destruct Hp. split; [by eapply placed_undisturbed|by eapply calm_undisturbed].
Qed.

Lemma models_stored (w : Wheel T) L s A x :
  idle (wh_elapsed w) s L -> (forall x t, A x = Some t <-> stored L x /\ st_when x s = Ok t) ->
  stored L x <-> is_Some (A x).
Proof.
  intros Hi HA. split.
  - intros (i & j & Hx). destruct (proj1 Hi i j x Hx) as (t & Ht & _). exists t. apply HA. split; [by exists i, j|done].
  - intros [t Ht]. by apply HA in Ht as [? _].
Qed.

Lemma models_undisturbed (w : Wheel T) s s' A A' :
  models w s A ->
  (forall t l, st_rep s t l -> (forall x, x ∈ l -> is_Some (A x)) -> st_rep s' t l) ->
  (forall x, is_Some (A x) -> st_when x s' = st_when x s) -> (forall x, A' x = A x) -> models w s' A'.
Proof.
  intros (He & L & Hr & Hi & HA) Hrep Hw HA'. split; [done|]. exists L.
  assert (undisturbed L s s') as Hu.
  { split.
    - intros t l Hl Hx. apply Hrep; [done|]. intros x ?%Hx. by apply (models_stored w L s A x).
    - intros x Hx. apply Hw. by apply (models_stored w L s A x). }
  split; [by eapply wheel_rep_undisturbed|]. split; [by eapply idle_undisturbed|].
  intros x t. rewrite HA', HA. split; intros [Hx Ht]; (split; [done|]); [by rewrite (proj2 Hu)|by rewrite <- (proj2 Hu)].
Qed.

Lemma poll_sim (w : Wheel T) s A now :
  models w s A -> wh_elapsed w <= now < 2 ^ 36 ->
  exists n, forall fuel, (n <= fuel)%nat ->
  exists w' s' out ts, poll_all fuel (Poll_new now, (w, s)) = ((Poll_new now, (w', s')), Ok out) /\
    wh_elapsed w' = now /\ NoDup out /\ Forall2 (fun x t => A x = Some t) out ts /\ StronglySorted Z.le ts /\
    (forall x, x ∈ out <-> exists t, A x = Some t /\ t <= now) /\
    models w' s' (fun y => if decide (y ∈ out) then None else A y) /\
    Forall (st_unlinked s') out /\ preserved A s s' [].
Proof.
  intros (He & L & Hr & Hi & HA) Hnow. exists (weight L + 1)%nat. intros fuel Hf.
  destruct (poll_all_spec fuel (Poll_new now) w s L) as (w' & s' & L' & out & Hall & Hr' & He' & Hi' & Hk & Hnd & Ho & Hun & Hin & Hst).
  { split; [done|]. cbn [Poll_new po_now po_expiration]. split; [lia|]. split; [lia|]. split; [apply Hi|by apply idle_calm]. }
  { done. }
  cbn [Poll_new po_now] in *. destruct Ho as (ts & Hf2 & Hs & Hle).
  assert (forall x t, x ∈ out -> st_when x s = Ok t -> t <= now) as Hdue.
  { intros x t Hx Ht. apply list_elem_of_lookup in Hx as [k Hk']. destruct (Forall2_lookup_l _ _ _ _ _ Hf2 Hk') as (u & Hu & Hxu).
    cbv beta in Hxu. rewrite Ht in Hxu. injection Hxu as <-. rewrite Forall_forall in Hle. apply Hle. by eapply list_elem_of_lookup_2. }
  assert (forall x, stored L x -> exists t, st_when x s = Ok t) as Htime.
  { intros x (i & j & Hx). destruct (proj1 Hi i j x Hx) as (t & Ht & _). by exists t. }
  exists w', s', out, ts. split; [done|]. split; [done|]. split; [done|]. split; [|split; [done|split; [|split]]].
  - assert (forall x, x ∈ out -> stored L x) as Hin' by done. clear -Hf2 Hin' HA.
    induction Hf2 as [|x t out ts Hx Hf2 IH]; constructor.
    + apply HA. split; [apply Hin'; left|done].
    + apply IH. intros y Hy. apply Hin'. by right.
  - intros x. split.
    + intros Hx. destruct (Htime x (Hin x Hx)) as [t Ht]. exists t. split; [apply HA; auto|by apply (Hdue x)].
    + intros (t & Ht & Hle'). apply HA in Ht as [Hx Ht]. destruct (decide (x ∈ out)) as [|Hn]; [done|exfalso].
      assert (stored L' x) as Hx' by (apply Hst; auto).
      assert (wh_elapsed w' < t) as Hlt; [|lia]. rewrite <- He' in Hi'. eapply idle_after; [exact Hi'|exact Hx'|]. by rewrite (proj2 Hk).
  - split; [lia|]. exists L'. split; [done|]. rewrite He'. split; [done|]. intros x t. rewrite (proj2 Hk), Hst.
    case_decide as Hd; [split; [done|]; naive_solver|]. rewrite HA. naive_solver.
  - split; [done|]. eapply kept_preserved; [|done|done]. intros i j x Hx. eapply placed_time; [apply Hi|done].
Qed.

(** [poll_at] is after the current time and not after the first timer. *)
Lemma poll_at_sim (w : Wheel T) s A :
  models w s A ->
  match poll_at w with
  | Some d => wh_elapsed w < d /\ (exists x t, A x = Some t) /\ forall x t, A x = Some t -> d <= t
  | None => forall x, A x = None
  end.
Proof.
  intros (He & L & Hr & Hi & HA). unfold poll_at.
  pose proof (next_expiration_spec w s L Hr (proj1 Hi) ltac:(lia)) as Hn.
  destruct (Wheel_next_expiration w) as [ex|]; simpl.
  - destruct Hn as (i & j & D & -> & Hf). cbn [ex_deadline].
    assert (forall i' j' x t, x ∈ L i' j' -> st_when x s = Ok t -> D <= t) as Hmin.
    { intros i' j' x t Hx Ht. destruct (decide ((i', j') = (i, j))) as [[= -> ->]|Hne].
      - rewrite (fs_start _ _ _ _ _ _ Hf x t Hx Ht). apply start_le.
      - destruct (first_slot_others _ s L i j D i' j' x t (proj1 Hi) (idle_calm _ _ _ Hi) Hf Hx Ht Hne) as [Hlt _].
        apply blk_lt in Hlt. lia. }
    pose proof (fs_some _ _ _ _ _ _ Hf) as Hne. destruct (L i j) as [|x l] eqn:Hl; [done|].
    assert (x ∈ L i j) as Hx by (rewrite Hl; left).
    destruct (proj1 Hi i j x Hx) as (t & Ht & _). split; [|split].
    + pose proof (proj2 Hi i j x t Hx Ht) as Hlt. rewrite (fs_start _ _ _ _ _ _ Hf x t Hx Ht).
      destruct (Z.lt_ge_cases (wh_elapsed w) (start i t)) as [|Hge]; [done|].
      pose proof (blk_mono i _ _ Hge) as Hb. rewrite blk_start in Hb. lia.
    + exists x, t. apply HA. split; [by exists i, j|done].
    + intros y u Hy. apply HA in Hy as [(i' & j' & Hy) Hu]. by apply (Hmin i' j' y u).
  - intros x. destruct (A x) as [t|] eqn:Hx; [|done]. apply HA in Hx as [(i & j & Hx) _]. rewrite Hn in Hx. inversion Hx.
Qed.

(** Inserting a timer at [2 ^ 36] milliseconds or later while the wheel is before
    that time leaves the levels. *)
Lemma insert_panics (w : Wheel T) s x t :
  length (wh_levels w) = NUM_LEVELS -> 0 <= wh_elapsed w < 2 ^ 36 -> 2 ^ 36 <= t -> t - wh_elapsed w <= MAX_DURATION ->
  Wheel_insert t x (w, s) = ((w, s), Panic).
Proof.
  intros Hl He Ht Hd. unfold Wheel_insert. rewrite bind_gets. cbn [fst].
  rewrite (proj2 (Z.leb_gt _ _)), (proj2 (Z.ltb_ge _ _)) by lia.
  destruct (level_for_spec (wh_elapsed w) t ltac:(lia)) as (i & Hlv & Hsame & Hbelow). rewrite Hlv, bind_lift_Ok.
  assert (6 <= i)%nat as Hi.
  { destruct (Nat.lt_ge_cases i 6) as [Hlt|]; [exfalso|done]. apply (blk_same_above (S i) 6) in Hsame; [|lia].
    unfold blk in Hsame. simpl in Hsame. rewrite Z.div_small in Hsame by lia.
    assert (1 <= t / 64 ^ Z.of_nat 6) by (apply Z.div_le_lower_bound; [lia|simpl; lia]). lia. }
  unfold mbind, SE_bind, on_level. rewrite Nat2Z.id, lookup_ge_None_2 by (rewrite Hl; unfold NUM_LEVELS; lia). done.
Qed.
End Refine.

(** C14. The timer wheel implements a set of timers, during the [2 ^ 36] milliseconds
    its six levels span.  Inserting an item that is in no slot adds it, and removing
    an item takes it out.  Polling until nothing is left returns, without a panic and
    after finitely many rounds, exactly the timers that are due, each once and in the
    order of their times, and leaves all others.  The instant at which to poll next
    is in the future and not after any timer. *)
Theorem wheel_refines_timers {T Item Store : Type} `{EqDecision Item} {ST : Stack T Item Store}
    {SL : StackLaws T Item Store} (w : Wheel T) (s : Store) (A : Item -> option Z) :
  models w s A ->
  (forall x t, st_unlinked s x -> A x = None -> st_when x s = Ok t -> wh_elapsed w < t < 2 ^ 36 ->
     exists w' s', Wheel_insert t x (w, s) = ((w', s'), Ok None) /\
       models w' s' (fun y => if decide (y = x) then Some t else A y)) /\
  (forall x t, A x = Some t ->
     exists w' s', Wheel_remove x (w, s) = ((w', s'), Ok tt) /\
       models w' s' (fun y => if decide (y = x) then None else A y)) /\
  (forall now, wh_elapsed w <= now < 2 ^ 36 -> exists n, forall fuel, (n <= fuel)%nat ->
     exists w' s' out ts, poll_all fuel (Poll_new now, (w, s)) = ((Poll_new now, (w', s')), Ok out) /\
       NoDup out /\ Forall2 (fun x t => A x = Some t) out ts /\ StronglySorted Z.le ts /\
       (forall x, x ∈ out <-> exists t, A x = Some t /\ t <= now) /\
       models w' s' (fun y => if decide (y ∈ out) then None else A y)) /\
  match poll_at w with
  | Some d => wh_elapsed w < d /\ (exists x t, A x = Some t) /\ forall x t, A x = Some t -> d <= t
  | None => forall x, A x = None
  end.
Proof.
  intros H. split; [|split; [|split]].
  - intros x t Hu Hn Ht Hlt. destruct (insert_sim w s A x t H Hu Hn Ht Hlt) as (w' & s' & ? & _ & ? & _). by exists w', s'.
  - intros x t Hx. destruct (remove_sim w s A x t H Hx) as (w' & s' & ? & _ & ? & _). by exists w', s'.
  - intros now Hnow. destruct (poll_sim w s A now H Hnow) as (n & Hn). exists n. intros fuel Hf.
    destruct (Hn fuel Hf) as (w' & s' & out & ts & ? & _ & ? & ? & ? & ? & ? & _). by exists w', s', out, ts.
  - by eapply poll_at_sim.
Qed.

(** A timer that the wheel declares valid can stop the program: a deadline that
    lies on the other side of a multiple of [2 ^ 36] milliseconds is less than the
    maximum duration away, but its level is past the last one, and the index panics. *)
Theorem insert_across_span_panics {T Item Store : Type} {ST : Stack T Item Store} (w : Wheel T) (s : Store) x t :
  length (wh_levels w) = NUM_LEVELS -> 0 <= wh_elapsed w < 2 ^ 36 -> 2 ^ 36 <= t -> t - wh_elapsed w <= MAX_DURATION ->
  Wheel_insert t x (w, s) = ((w, s), Panic).
Proof. apply insert_panics. Qed.
