(* ===== verification/DelayQueue.v ===== *)
(** * The delay queue ([timer/delay_queue.rs])

    Values in a slab, linked into the stacks of a timer wheel by the indices of
    their neighbours.  The slab is the interface of [Slab.v]; instants are nanoseconds,
    and whether a delay has elapsed is an argument. *)

From S2P Require Import Prelude Bytes Slab TimerWheel.

(** ** Entries and stacks *)

(** [timer/delay_queue.rs] Data *)
Record Data (V : Type) := MkData {
  d_inner : V;
  d_when : Z;
  d_expired : bool;
  d_next : option nat;
  d_prev : option nat
}.
Arguments MkData {V}.
Arguments d_inner {V}.
Arguments d_when {V}.
Arguments d_expired {V}.
Arguments d_next {V}.
Arguments d_prev {V}.

(** [timer/delay_queue.rs] Stack *)
Record DStack := MkDStack { head : option nat }.

Section Stack.
Context {V Sl : Type} {SB : Slab (Data V) Sl}.
Abbreviation M := (SE (DStack * Sl) Never).

Definition with_next (n : option nat) (d : Data V) : Data V :=
  MkData (d_inner d) (d_when d) (d_expired d) n (d_prev d).
Definition with_prev (p : option nat) (d : Data V) : Data V :=
  MkData (d_inner d) (d_when d) (d_expired d) (d_next d) p.

(** [store[idx]], and [store[idx].field = x] *)
Definition node (idx : nat) : M (Data V) :=
  s ← gets snd;
  lift (unwrap (slab_get s idx)).
Definition set_node (idx : nat) (f : Data V -> Data V) : M () :=
  d ← node idx;
  modify (fun st => (st.1, slab_set st.2 idx (f d))).
Definition set_head (h : option nat) : M () := modify (fun st => (MkDStack h, st.2)).

(** [timer/delay_queue.rs] Stack as wheel::Stack::push *)
Definition DStack_push (item : nat) : M () :=
  old ← gets (fun st => head st.1);
  _ ← set_head None;
  _ ← match old with
      | Some idx => set_node idx (with_prev (Some item))
      | None => mret tt
      end;
  _ ← set_node item (with_next old);
  set_head (Some item).

(** [timer/delay_queue.rs] Stack as wheel::Stack::pop *)
Definition DStack_pop : M (option nat) :=
  h ← gets (fun st => head st.1);
  match h with
  | Some idx =>
      d ← node idx;
      _ ← set_head (d_next d);
      h ← gets (fun st => head st.1);
      _ ← match h with
          | Some idx => set_node idx (with_prev None)
          | None => mret tt
          end;
      _ ← set_node idx (with_next None);
      mret (Some idx)
  | None => mret None
  end.

(** [timer/delay_queue.rs] Stack as wheel::Stack::remove *)
Definition DStack_remove (item : nat) : M () :=
  s ← gets snd;
  _ ← lift (assert_ (match slab_get s item with Some _ => true | None => false end));
  d ← node item;
  _ ← match d_next d with
      | Some next => d ← node item; set_node next (with_prev (d_prev d))
      | None => mret tt
      end;
  d ← node item;
  _ ← match d_prev d with
      | Some prev => d ← node item; set_node prev (with_next (d_next d))
      | None => d ← node item; set_head (d_next d)
      end;
  _ ← set_node item (with_next None);
  set_node item (with_prev None).

(** [timer/delay_queue.rs] Stack as wheel::Stack::when *)
Definition DStack_when (item : nat) (s : Sl) : outcome Never Z :=
  d ← unwrap (slab_get s item); Ok (d_when d).

(** [timer/delay_queue.rs:775-855] Stack as wheel::Stack *)
#[export] Instance DStack_Stack : Stack DStack nat Sl := {|
  st_default := MkDStack None;
  st_is_empty t := match head t with None => true | Some _ => false end;
  st_push := DStack_push;
  st_pop := DStack_pop;
  st_remove := DStack_remove;
  st_when := DStack_when
|}.
End Stack.

(** ** Time *)

(** [timer/mod.rs] Round *)
Inductive Round := Up | Down.

(** [u64::saturating_mul] and [u64::saturating_add] *)
Definition saturate (x : Z) : Z := Z.min x (2 ^ 64 - 1).

(** [timer/mod.rs] ms, of a duration in nanoseconds *)
Definition ms (duration : Z) (round : Round) : Z :=
  let secs := duration / 1000000000 in
  let nanos := duration mod 1000000000 in
  let millis :=
    match round with
    | Up => (nanos + 1000000 - 1) / 1000000
    | Down => nanos / 1000000
    end in
  saturate (saturate (secs * 1000) + millis).

Definition from_millis (n : Z) : Z := n * 1000000.

(** ** The queue *)

Section Queue.
Context {V Sl : Type} {SB : Slab (Data V) Sl}.

(** [timer/delay_queue.rs] DelayQueue.  A [Delay] is its deadline. *)
Record DelayQueue := MkDelayQueue {
  q_slab : Sl;
  q_wheel : Wheel DStack;
  q_expired : DStack;
  q_delay : option Z;
  q_poll : Poll;
  q_start : Z
}.
Abbreviation Q := (SE DelayQueue Never).

(** [timer/delay_queue.rs] Expired, with the index of its key *)
Record Expired := MkExpired { x_data : V; x_deadline : Z; x_key : nat }.

(** [timer/delay_queue.rs] MAX_ENTRIES *)
Definition MAX_ENTRIES : Z := 2 ^ 30 - 1.

Definition set_slab (f : Sl -> Sl) : Q () := modify (fun q =>
  MkDelayQueue (f (q_slab q)) (q_wheel q) (q_expired q) (q_delay q) (q_poll q) (q_start q)).
Definition set_delay (d : option Z) : Q () := modify (fun q =>
  MkDelayQueue (q_slab q) (q_wheel q) (q_expired q) d (q_poll q) (q_start q)).
Definition set_poll (p : Poll) : Q () := modify (fun q =>
  MkDelayQueue (q_slab q) (q_wheel q) (q_expired q) (q_delay q) p (q_start q)).
Definition on_wheel {A} : SE (Wheel DStack * Sl) Never A -> Q A :=
  zoom (fun q => (q_wheel q, q_slab q)) (fun st q =>
    MkDelayQueue st.2 st.1 (q_expired q) (q_delay q) (q_poll q) (q_start q)).
Definition on_expired {A} : SE (DStack * Sl) Never A -> Q A :=
  zoom (fun q => (q_expired q, q_slab q)) (fun st q =>
    MkDelayQueue st.2 (q_wheel q) st.1 (q_delay q) (q_poll q) (q_start q)).
Definition on_poll {A} : SE (Poll * (Wheel DStack * Sl)) Never A -> Q A :=
  zoom (fun q => (q_poll q, (q_wheel q, q_slab q))) (fun st q =>
    MkDelayQueue st.2.2 st.2.1 (q_expired q) (q_delay q) st.1 (q_start q)).
(** [self.slab[key]] *)
Definition data (key : nat) : Q (Data V) :=
  s ← gets q_slab;
  lift (unwrap (slab_get s key)).

(** [timer/delay_queue.rs] DelayQueue::with_capacity, at the instant [now] *)
Definition DelayQueue_new (now : Z) : DelayQueue :=
  MkDelayQueue slab_new Wheel_new st_default None (Poll_new 0) now.

(** [timer/delay_queue.rs] DelayQueue::normalize_deadline *)
Definition normalize_deadline (q : DelayQueue) (when : Z) : Z :=
  let when := if when <? q_start q then 0 else ms (when - q_start q) Up in
  Z.max when (wh_elapsed (q_wheel q)).

(** [timer/delay_queue.rs] DelayQueue::insert_idx *)
Definition insert_idx (when : Z) (key : nat) : Q () :=
  r ← on_wheel (Wheel_insert when key);
  match r with
  | None => mret tt
  | Some (_, IE_Elapsed) =>
      d ← data key;
      _ ← set_slab (fun s => slab_set s key (MkData (d_inner d) (d_when d) true (d_next d) (d_prev d)));
      on_expired (DStack_push key)
  | Some (_, IE_Invalid) => panic
  end.

(** [timer/delay_queue.rs] DelayQueue::insert_at *)
Definition insert_at (value : V) (when : Z) : Q nat :=
  q ← get;
  _ ← lift (assert_ (slab_len (q_slab q) <? MAX_ENTRIES));
  let when := normalize_deadline q when in
  let '(s, key) := slab_insert (MkData value when false None None) (q_slab q) in
  _ ← set_slab (fun _ => s);
  _ ← insert_idx when key;
  q ← get;
  let should_set_delay :=
    match q_delay q with
    | Some delay => when <? normalize_deadline q delay
    | None => true
    end in
  _ ← (if should_set_delay then set_delay (Some (q_start q + from_millis when)) else mret tt);
  mret key.

(** [timer/delay_queue.rs] DelayQueue::remove *)
Definition DelayQueue_remove (key : nat) : Q Expired :=
  d ← data key;
  _ ← (if d_expired d then on_expired (DStack_remove key) else on_wheel (Wheel_remove key));
  d ← data key;
  _ ← set_slab (slab_remove key);
  start ← gets q_start;
  mret (MkExpired (d_inner d) (start + from_millis (d_when d)) key).

(** [timer/delay_queue.rs] DelayQueue::next_deadline *)
Definition next_deadline (q : DelayQueue) : option Z :=
  (fun t => q_start q + from_millis t) <$> poll_at (q_wheel q).

(** [timer/delay_queue.rs] DelayQueue::reset_at *)
Definition reset_at (key : nat) (when : Z) : Q () :=
  _ ← on_wheel (Wheel_remove key);
  q ← get;
  let when := normalize_deadline q when in
  d ← data key;
  _ ← set_slab (fun s => slab_set s key (MkData (d_inner d) when (d_expired d) (d_next d) (d_prev d)));
  _ ← insert_idx when key;
  q ← get;
  match q_delay q, next_deadline q with
  | Some _, Some deadline => set_delay (Some deadline)
  | _, _ => mret tt
  end.

(** [timer/delay_queue.rs] DelayQueue::clear *)
Definition DelayQueue_clear : Q () := modify (fun q =>
  MkDelayQueue slab_new Wheel_new st_default None (q_poll q) (q_start q)).

(** [timer/delay_queue.rs] DelayQueue::poll_idx.  [elapsed d]: the delay with the
    deadline [d] is ready.  [fuel] bounds the rounds of the loops. *)
Fixpoint poll_idx_loop (elapsed : Z -> bool) (fuel : nat) : Q (Async (option nat)) :=
  match fuel with
  | O => panic
  | S fuel' =>
      q ← get;
      let continue :=
        _ ← set_delay None;
        r ← on_poll (Wheel_poll fuel);
        match r with
        | Some idx => mret (Ready (Some idx))
        | None =>
            q ← get;
            match next_deadline q with
            | Some deadline =>
                _ ← set_delay (Some deadline);
                poll_idx_loop elapsed fuel'
            | None => mret (Ready None)
            end
        end in
      match q_delay q with
      | Some delay =>
          if elapsed delay then
            let now := ms (delay - q_start q) Down in
            _ ← set_poll (Poll_new now);
            continue
          else mret Pending
      | None => continue
      end
  end.
Definition poll_idx (elapsed : Z -> bool) (fuel : nat) : Q (Async (option nat)) :=
  expired ← on_expired DStack_pop;
  match expired with
  | Some idx => mret (Ready (Some idx))
  | None => poll_idx_loop elapsed fuel
  end.

(** [timer/delay_queue.rs] DelayQueue::poll_expired *)
Definition poll_expired (elapsed : Z -> bool) (fuel : nat) : Q (Async (option Expired)) :=
  r ← poll_idx elapsed fuel;
  match r with
  | Pending => mret Pending
  | Ready None => mret (Ready None)
  | Ready (Some idx) =>
      d ← data idx;
      _ ← set_slab (slab_remove idx);
      start ← gets q_start;
      mret (Ready (Some (MkExpired (d_inner d) (start + from_millis (d_when d)) idx)))
  end.

End Queue.
Arguments DelayQueue : clear implicits.
Arguments Expired : clear implicits.
