(* ===== verification/DelayQueueStack.v ===== *)
(** * The stacks of the delay queue keep the promises of the wheel

    A stack is a doubly linked list threaded through the slab.  Segments of it
    are followed from a pointer to a pointer, each node pointing back. *)

From S2P Require Import Prelude Bytes Slab TimerWheel DelayQueue.

Section Laws.
Context {V Sl : Type} {SB : Slab (Data V) Sl}.
Implicit Types (s : Sl) (l : list nat) (p h q : option nat).

(** [l] is linked from [h] to [q]; the node before it is [p]. *)
Fixpoint seg (s : Sl) (p h : option nat) (l : list nat) (q : option nat) : Prop :=
  match l with
  | [] => h = q
  | x :: l => h = Some x /\ exists d, slab_get s x = Some d /\ d_prev d = p /\ seg s (Some x) (d_next d) l q
  end.

Definition last_or (p : option nat) (l : list nat) : option nat :=
  match last l with Some x => Some x | None => p end.

Lemma last_or_cons p x l : last_or p (x :: l) = last_or (Some x) l.
Proof. unfold last_or. rewrite last_cons. by destruct (last l). Qed.
Lemma last_or_snoc p l x : last_or p (l ++ [x]) = Some x.
Proof. unfold last_or. by rewrite last_snoc. Qed.

Lemma seg_app s l1 : forall p h l2 q,
  seg s p h (l1 ++ l2) q <-> exists m, seg s p h l1 m /\ seg s (last_or p l1) m l2 q.
Proof.
  induction l1 as [|x l1 IH]; intros p h l2 q; simpl; [naive_solver|]. rewrite last_or_cons. setoid_rewrite IH. naive_solver.
Qed.

Lemma seg_frame s s' l : forall p h q,
  (forall k, k ∈ l -> slab_get s' k = slab_get s k) -> seg s p h l q -> seg s' p h l q.
Proof.
  induction l as [|x l IH]; intros p h q Hk; simpl; [done|]. intros (-> & d & Hd & Hp & Hs). split; [done|].
  exists d. rewrite Hk by left. split_and!; [done|done|]. apply IH; [|done]. intros k Hkl. apply Hk. by right.
Qed.

Lemma seg_get s p h l q x : seg s p h l q -> x ∈ l -> exists d, slab_get s x = Some d.
Proof.
  revert p h. induction l as [|y l IH]; intros p h; simpl; [inversion 2|].
  intros (_ & d & Hd & _ & Hs) [->|Hx]%elem_of_cons; [by exists d|by eapply IH].
Qed.

Definition rep (s : Sl) (t : DStack) (l : list nat) : Prop := NoDup l /\ seg s None (head t) l None.
Definition unlinked (s : Sl) (x : nat) : Prop :=
  exists d, slab_get s x = Some d /\ d_next d = None /\ d_prev d = None.

(** Only nodes of [touched] change, and only in their links. *)
Definition changed (s s' : Sl) (touched : list nat) : Prop :=
  (forall k, k ∉ touched -> slab_get s' k = slab_get s k) /\
  (forall k, d_when <$> slab_get s' k = d_when <$> slab_get s k).

Definition frame (s s' : Sl) (touched : list nat) : Prop :=
  (forall t l, rep s t l -> (forall x, x ∈ l -> x ∉ touched) -> rep s' t l) /\
  (forall x, unlinked s x -> x ∉ touched -> unlinked s' x) /\
  (forall x, DStack_when x s' = DStack_when x s).

Lemma changed_frame s s' touched : changed s s' touched -> frame s s' touched.
Proof.
  intros [Hk Hw]. split; [|split].
  - intros t l [Hn Hs] Hd. split; [done|]. eapply seg_frame; [|done]. intros k Hkl. apply Hk. by apply Hd.
  - intros x (d & Hd & Hl) Hx. exists d. by rewrite Hk.
  - intros x. unfold DStack_when. specialize (Hw x). destruct (slab_get s' x), (slab_get s x); simpl in *; congruence.
Qed.

Lemma changed_refl s touched : changed s s touched.
Proof. by split. Qed.
Lemma changed_set s s' touched k d f :
  changed s s' touched -> slab_get s' k = Some d -> k ∈ touched -> d_when (f d) = d_when d ->
  changed s (slab_set s' k (f d)) touched.
Proof.
  intros [Hk Hw] Hd Hin Hf. split.
  - intros k' Hk'. rewrite slab_set_get by congruence. rewrite decide_False; [by apply Hk|]. by intros ->.
  - intros k'. rewrite slab_set_get by congruence. case_decide; [|done]. subst. rewrite <- Hw, Hd. simpl. by rewrite Hf.
Qed.

(** Setting a node. *)
Lemma set_node_spec t s k d f :
  slab_get s k = Some d -> set_node k f (t, s) = ((t, slab_set s k (f d)), Ok tt).
Proof. intros Hd. unfold set_node, node, mbind, SE_bind, gets, lift. cbn [snd]. by rewrite Hd. Qed.
Lemma node_spec t s k d : slab_get s k = Some d -> node k (t, s) = ((t, s), Ok d).
Proof. intros Hd. unfold node, mbind, SE_bind, gets, lift. cbn [snd]. by rewrite Hd. Qed.
Lemma get_set_eq s k d d' : slab_get s k = Some d -> slab_get (slab_set s k d') k = Some d'.
Proof. intros H. rewrite slab_set_get by congruence. by rewrite decide_True. Qed.
Lemma get_set_ne s k d d' k' : slab_get s k = Some d -> k' <> k -> slab_get (slab_set s k d') k' = slab_get s k'.
Proof. intros H Hne. rewrite slab_set_get by congruence. by rewrite decide_False. Qed.

Lemma push_spec s t l x :
  rep s t l -> unlinked s x -> x ∉ l ->
  exists s' t', DStack_push x (t, s) = ((t', s'), Ok tt) /\ rep s' t' (x :: l) /\ frame s s' (x :: l).
Proof.
  intros [Hn Hs] (d & Hd & Hnx & Hpx) Hx. unfold DStack_push. rewrite bind_gets. cbn [fst]. unfold set_head. rewrite bind_modify. cbn [fst snd].
  destruct l as [|y l]; simpl in Hs.
  - rewrite Hs. rewrite bind_mret, (bind_eq _ _ _ _ _ (set_node_spec _ _ _ _ _ Hd)).
    eexists _, _. split; [reflexivity|]. cbn [fst snd]. split.
    + split; [by constructor|]. simpl. split; [done|]. eexists. split; [by eapply get_set_eq|]. done.
    + apply changed_frame. apply changed_set; [apply changed_refl|done|left|done].
  - destruct Hs as (-> & dy & Hdy & Hpy & Hs).
    rewrite (bind_eq _ _ _ _ _ (set_node_spec _ _ _ _ _ Hdy)).
    assert (x <> y) as Hxy by (intros ->; apply Hx; left).
    assert (slab_get (slab_set s y (with_prev (Some x) dy)) x = Some d) as Hd' by (by rewrite (get_set_ne _ _ _ _ _ Hdy)).
    rewrite (bind_eq _ _ _ _ _ (set_node_spec _ _ _ _ _ Hd')).
    eexists _, _. split; [reflexivity|]. cbn [fst snd]. split.
    + split; [by constructor|]. cbn [seg head]. split; [done|]. eexists. split; [by eapply get_set_eq|]. split; [done|].
      cbn [with_next d_next]. split; [done|]. exists (with_prev (Some x) dy).
      rewrite (get_set_ne _ _ _ _ _ Hd') by done. split; [by eapply get_set_eq|]. split; [done|].
      eapply seg_frame; [|exact Hs]. intros k Hk. apply NoDup_cons in Hn as [Hyl _].
      rewrite (get_set_ne _ _ _ _ _ Hd'), (get_set_ne _ _ _ _ _ Hdy); [done|set_solver|set_solver].
    + apply changed_frame. apply changed_set; [|done|left|done]. apply changed_set; [apply changed_refl|done|right; left|done].
Qed.

Lemma pop_spec s t x l :
  rep s t (x :: l) ->
  exists s' t', DStack_pop (t, s) = ((t', s'), Ok (Some x)) /\ rep s' t' l /\ unlinked s' x /\ frame s s' (x :: l).
Proof.
  intros [Hn Hs]. apply NoDup_cons in Hn as [Hx Hn]. simpl in Hs. destruct Hs as (Hh & d & Hd & Hp & Hs).
  unfold DStack_pop. rewrite bind_gets. cbn [fst]. rewrite Hh, (bind_eq _ _ _ _ _ (node_spec _ _ _ _ Hd)).
  unfold set_head. rewrite bind_modify, bind_gets. cbn [fst snd head].
  destruct l as [|y l]; simpl in Hs.
  - rewrite Hs, bind_mret, (bind_eq _ _ _ _ _ (set_node_spec _ _ _ _ _ Hd)).
    eexists _, _. split; [reflexivity|]. split; [by split; [constructor|]|]. split.
    + eexists. split; [by eapply get_set_eq|]. done.
    + apply changed_frame. apply changed_set; [apply changed_refl|done|left|done].
  - destruct Hs as (-> & dy & Hdy & Hpy & Hs). rewrite (bind_eq _ _ _ _ _ (set_node_spec _ _ _ _ _ Hdy)).
    assert (x <> y) as Hxy by (intros ->; apply Hx; left).
    assert (slab_get (slab_set s y (with_prev None dy)) x = Some d) as Hd' by (by rewrite (get_set_ne _ _ _ _ _ Hdy)).
    rewrite (bind_eq _ _ _ _ _ (set_node_spec _ _ _ _ _ Hd')).
    eexists _, _. split; [reflexivity|]. split; [|split].
    + split; [done|]. cbn [seg head]. split; [done|]. exists (with_prev None dy).
      rewrite (get_set_ne _ _ _ _ _ Hd') by done. split; [by eapply get_set_eq|]. split; [done|].
      eapply seg_frame; [|exact Hs]. intros k Hk. apply NoDup_cons in Hn as [Hyl _].
      rewrite (get_set_ne _ _ _ _ _ Hd'), (get_set_ne _ _ _ _ _ Hdy); [done|set_solver|set_solver].
    + eexists. split; [by eapply get_set_eq|]. done.
    + apply changed_frame. apply changed_set; [|done|left|done]. apply changed_set; [apply changed_refl|done|right; left|done].
Qed.

Lemma changed_trans s1 s2 s3 l l' : changed s1 s2 l -> changed s2 s3 l' -> changed s1 s3 (l ++ l').
Proof.
  intros [H1 W1] [H2 W2]. split.
  - intros k Hk. rewrite not_elem_of_app in Hk. rewrite H2, H1; tauto.
  - intros k. by rewrite W2, W1.
Qed.
Lemma changed_subset s s' l l' : (forall k, k ∈ l -> k ∈ l') -> changed s s' l -> changed s s' l'.
Proof. intros Hl [H W]. split; [|done]. intros k Hk. apply H. auto. Qed.

(** The node after the removed one points back past it. *)
Lemma unlink_next t s x d l :
  slab_get s x = Some d -> seg s (Some x) (d_next d) l None -> NoDup l -> x ∉ l ->
  exists s', match d_next d with
      | Some next => d ← node x; set_node next (with_prev (d_prev d))
      | None => mret tt
      end (t, s) = ((t, s'), Ok tt) /\
    seg s' (d_prev d) (d_next d) l None /\ changed s s' l.
Proof.
  intros Hd Hs Hn Hx. destruct l as [|y l]; simpl in Hs.
  - rewrite Hs. exists s. split_and!; [done|done|apply changed_refl].
  - destruct Hs as (Hy & dy & Hdy & _ & Hs). rewrite Hy. rewrite (bind_eq _ _ _ _ _ (node_spec _ _ _ _ Hd)).
    rewrite (set_node_spec _ _ _ _ _ Hdy). eexists. split; [reflexivity|]. split.
    + simpl. split; [done|]. eexists. split; [by eapply get_set_eq|]. split; [done|].
      eapply seg_frame; [|exact Hs]. intros k Hk. apply NoDup_cons in Hn as [Hyl _].
      rewrite (get_set_ne _ _ _ _ _ Hdy); [done|set_solver].
    + apply changed_set; [apply changed_refl|done|left|done].
Qed.

(** The node before the removed one, or the head, points past it. *)
Lemma unlink_prev t s x d l :
  slab_get s x = Some d -> seg s None (head t) l (Some x) -> d_prev d = last_or None l -> NoDup l -> x ∉ l ->
  exists s' t', match d_prev d with
      | Some prev => d ← node x; set_node prev (with_next (d_next d))
      | None => d ← node x; set_head (d_next d)
      end (t, s) = ((t', s'), Ok tt) /\
    seg s' None (head t') l (d_next d) /\ changed s s' l.
Proof.
  intros Hd Hs Hp Hn Hx. rewrite Hp. destruct l as [|z l _] using rev_ind.
  - cbn [last_or last]. rewrite (bind_eq _ _ _ _ _ (node_spec _ _ _ _ Hd)).
    exists s, (MkDStack (d_next d)). split_and!; [done|done|apply changed_refl].
  - rewrite last_or_snoc. rewrite (bind_eq _ _ _ _ _ (node_spec _ _ _ _ Hd)).
    apply seg_app in Hs as (m & Hs1 & Hs2). cbn [seg] in Hs2. destruct Hs2 as (-> & dz & Hdz & Hpz & _).
    rewrite (set_node_spec _ _ _ _ _ Hdz). exists (slab_set s z (with_next (d_next d) dz)), t. split; [done|].
    apply NoDup_app in Hn as (_ & Hzl & _). split.
    + apply seg_app. exists (Some z). split.
      * eapply seg_frame; [|exact Hs1]. intros k Hk. apply (get_set_ne _ _ _ _ _ Hdz). intros ->. apply (Hzl z Hk). left.
      * cbn [seg]. split; [done|]. eexists. split; [by eapply get_set_eq|]. done.
    + apply changed_set; [apply changed_refl|done|set_solver|done].
Qed.

Lemma remove_spec s t l1 x l2 :
  rep s t (l1 ++ x :: l2) ->
  exists s' t', DStack_remove x (t, s) = ((t', s'), Ok tt) /\
    rep s' t' (l1 ++ l2) /\ unlinked s' x /\ frame s s' (l1 ++ x :: l2).
Proof.
  intros [Hn Hs]. apply NoDup_app in Hn as (Hn1 & Hd1 & Hn2). apply NoDup_cons in Hn2 as [Hx2 Hn2].
  assert (x ∉ l1) as Hx1 by (intros Hx; apply (Hd1 x Hx); left).
  assert (forall k, k ∈ l1 -> k ∉ l2) as Hd12 by (intros k Hk Hk2; apply (Hd1 k Hk); by right).
  apply seg_app in Hs as (m & Hs1 & Hs2). cbn [seg] in Hs2. destruct Hs2 as (-> & d & Hd & Hp & Hs2).
  destruct (unlink_next t s x d l2 Hd Hs2 Hn2 Hx2) as (s1 & E1 & Hs2' & C1).
  assert (slab_get s1 x = Some d) as Hdx1 by (by rewrite (proj1 C1)).
  assert (seg s1 None (head t) l1 (Some x)) as Hs1'.
  { eapply seg_frame; [|exact Hs1]. intros k Hk. apply (proj1 C1). by apply Hd12. }
  destruct (unlink_prev t s1 x d l1 Hdx1 Hs1' Hp Hn1 Hx1) as (s2 & t2 & E2 & Hs1'' & C2).
  assert (slab_get s2 x = Some d) as Hdx2 by (by rewrite (proj1 C2)).
  set (s3 := slab_set s2 x (with_next None d)).
  assert (slab_get s3 x = Some (with_next None d)) as Hdx3 by (by eapply get_set_eq).
  set (s4 := slab_set s3 x (with_prev None (with_next None d))).
  assert (forall k, k <> x -> slab_get s4 k = slab_get s2 k) as H4.
  { intros k Hk. unfold s4. rewrite (get_set_ne _ _ _ _ _ Hdx3) by done. unfold s3. by rewrite (get_set_ne _ _ _ _ _ Hdx2). }
  exists s4, t2. split; [|split; [|split]].
  - unfold DStack_remove. rewrite bind_gets. cbn [snd]. rewrite Hd. cbn [assert_]. rewrite bind_lift_Ok.
    rewrite (bind_eq _ _ _ _ _ (node_spec _ _ _ _ Hd)), (bind_eq _ _ _ _ _ E1), (bind_eq _ _ _ _ _ (node_spec _ _ _ _ Hdx1)).
    rewrite (bind_eq _ _ _ _ _ E2), (bind_eq _ _ _ _ _ (set_node_spec _ _ _ _ _ Hdx2)).
    apply set_node_spec. done.
  - split.
    + apply NoDup_app. split_and!; [done|done|done].
    + apply seg_app. exists (d_next d). split.
      * eapply seg_frame; [|exact Hs1'']. intros k Hk. apply H4. by intros ->.
      * rewrite <- Hp. eapply seg_frame; [|exact Hs2']. intros k Hk. rewrite H4 by (by intros ->).
        apply (proj1 C2). intros Hk1. by apply (Hd12 k).
  - exists (with_prev None (with_next None d)). split; [by eapply get_set_eq|]. done.
  - apply changed_frame. pose proof (changed_trans _ _ _ _ _ C1 C2) as C.
    apply (changed_subset _ _ _ (l1 ++ x :: l2)) in C; [|set_solver].
    apply (changed_set _ _ _ _ (with_next None d) (with_prev None)); [|done|set_solver|done].
    apply (changed_set _ _ _ _ d (with_next None)); [done|done|set_solver|done].
Qed.

Lemma pop_nil_spec s t : rep s t [] -> DStack_pop (t, s) = ((t, s), Ok None).
Proof. intros [_ Hs]. simpl in Hs. unfold DStack_pop. rewrite bind_gets. cbn [fst]. by rewrite Hs. Qed.

#[export] Program Instance DStack_laws : StackLaws DStack nat Sl := {|
  st_rep := rep;
  st_unlinked := unlinked
|}.
Next Obligation. intros s. split; [constructor|done]. Qed.
Next Obligation. by intros s t l [Hn _]. Qed.
Next Obligation.
  intros s t l [_ Hs]. simpl. destruct l as [|x l]; simpl in Hs; [by rewrite Hs|]. destruct Hs as [-> _]. done.
Qed.
Next Obligation. apply push_spec. Qed.
Next Obligation. apply pop_nil_spec. Qed.
Next Obligation. apply pop_spec. Qed.
Next Obligation. apply remove_spec. Qed.
End Laws.

(** ** What the wheel leaves alone

    Whatever the wheel does, the value, time and flag of an entry stay. *)

Section Payload.
Context {V Sl : Type} {SB : Slab (Data V) Sl}.

Definition payload (s : Sl) (k : nat) : option (V * Z * bool) :=
  (fun d => (d_inner d, d_when d, d_expired d)) <$> slab_get s k.

Definition keeps {S A} (store : S -> Sl) (c : SE S Never A) : Prop :=
  forall st k, payload (store (c st).1) k = payload (store st) k.

Lemma keeps_bind {S A B} (store : S -> Sl) (c : SE S Never A) (f : A -> SE S Never B) :
  keeps store c -> (forall a, keeps store (f a)) -> keeps store (c ≫= f).
Proof.
  intros Hc Hf st k. specialize (Hc st k). unfold mbind, SE_bind. destruct (c st) as [st' [a|e|]]; simpl in *; [|done|done].
  by rewrite Hf.
Qed.
Lemma keeps_mret {S A} (store : S -> Sl) (a : A) : keeps store (mret a).
Proof. done. Qed.
Lemma keeps_gets {S A} (store : S -> Sl) (f : S -> A) : keeps store (gets f).
Proof. done. Qed.
Lemma keeps_get {S} (store : S -> Sl) : keeps store get.
Proof. done. Qed.
Lemma keeps_lift {S A} (store : S -> Sl) (o : outcome Never A) : keeps store (lift o).
Proof. done. Qed.
Lemma keeps_panic {S A} (store : S -> Sl) : keeps store (panic : SE S Never A).
Proof. done. Qed.
Lemma keeps_modify {S} (store : S -> Sl) f : (forall st, store (f st) = store st) -> keeps store (modify f).
Proof. intros H st k. unfold modify. simpl. by rewrite H. Qed.
Lemma keeps_zoom {S T A} (store : S -> Sl) (store' : T -> Sl) view set (c : SE T Never A) :
  (forall t st, store (set t st) = store' t) -> (forall st, store' (view st) = store st) ->
  keeps store' c -> keeps store (zoom view set c).
Proof.
  intros Hs Hv Hc st k. specialize (Hc (view st) k). rewrite Hv in Hc. unfold zoom.
  destruct (c (view st)) as [t r]. simpl in *. by rewrite Hs.
Qed.

Lemma keeps_set_node k f :
  (forall d : Data V, d_inner (f d) = d_inner d /\ d_when (f d) = d_when d /\ d_expired (f d) = d_expired d) ->
  keeps snd (set_node k f : SE (DStack * Sl) Never ()).
Proof.
  intros Hf [t s] k'. unfold set_node, node, mbind, SE_bind, gets, lift, modify. cbn [snd]. destruct (slab_get s k) as [d|] eqn:Hd; [|done].
  cbn [unwrap fst snd]. unfold payload. rewrite slab_set_get by congruence. case_decide as Hk; [|done]. subst. rewrite Hd. simpl.
  destruct (Hf d) as (-> & -> & ->). done.
Qed.
Lemma keeps_node k : keeps snd (node k : SE (DStack * Sl) Never (Data V)).
Proof. apply keeps_bind; [apply keeps_gets|intros; apply keeps_lift]. Qed.
Lemma keeps_set_head h : keeps snd (set_head h : SE (DStack * Sl) Never ()).
Proof. by apply keeps_modify. Qed.
End Payload.

Create HintDb keeps.
#[export] Hint Resolve keeps_mret keeps_gets keeps_get keeps_lift keeps_panic keeps_node keeps_set_head : keeps.
#[export] Hint Extern 1 (keeps _ (_ ≫= _)) => apply keeps_bind; [|intros] : keeps.
#[export] Hint Extern 1 (keeps _ (modify _)) => apply keeps_modify; done : keeps.
#[export] Hint Extern 1 (keeps _ (set_node _ _)) => apply keeps_set_node; done : keeps.
#[export] Hint Extern 2 (keeps _ (match ?x with _ => _ end)) => destruct x : keeps.

Section KeepsWheel.
Context {V Sl : Type} {SB : Slab (Data V) Sl}.
Abbreviation store2 := (fun st : Poll * (Wheel DStack * Sl) => st.2.2).

Lemma keeps_push x : keeps snd (DStack_push x : SE (DStack * Sl) Never ()).
Proof. unfold DStack_push. auto 10 with keeps. Qed.
Lemma keeps_pop : keeps snd (DStack_pop : SE (DStack * Sl) Never (option nat)).
Proof. unfold DStack_pop. auto 12 with keeps. Qed.
Lemma keeps_remove x : keeps snd (DStack_remove x : SE (DStack * Sl) Never ()).
Proof. unfold DStack_remove. auto 15 with keeps. Qed.

Lemma keeps_on_slot {A} j (c : SE (DStack * Sl) Never A) : keeps snd c -> keeps snd (on_slot j c).
Proof.
  intros Hc [lv s] k. unfold on_slot. destruct (lv_slot lv !! Z.to_nat j) as [t|]; [|done].
  specialize (Hc (t, s) k). by destruct (c (t, s)) as [[t' s'] r].
Qed.
Lemma keeps_on_level {A} i (c : SE (Level DStack * Sl) Never A) : keeps snd c -> keeps snd (on_level i c).
Proof.
  intros Hc [w s] k. unfold on_level. destruct (wh_levels w !! Z.to_nat i) as [lv|]; [|done].
  specialize (Hc (lv, s) k). by destruct (c (lv, s)) as [[lv' s'] r].
Qed.

#[local] Hint Resolve keeps_push keeps_pop keeps_remove keeps_on_slot keeps_on_level : keeps.

Lemma keeps_is_empty j : keeps snd (slot_is_empty j : SE (Level DStack * Sl) Never bool).
Proof. apply keeps_on_slot. auto with keeps. Qed.
#[local] Hint Resolve keeps_is_empty : keeps.
Lemma keeps_add_entry t x : keeps snd (Level_add_entry t x : SE (Level DStack * Sl) Never ()).
Proof. unfold Level_add_entry. simpl. auto 10 with keeps. Qed.
Lemma keeps_remove_entry t x : keeps snd (Level_remove_entry t x : SE (Level DStack * Sl) Never ()).
Proof. unfold Level_remove_entry. simpl. auto 10 with keeps. Qed.
Lemma keeps_pop_entry e : keeps snd (pop_entry e : SE (Wheel DStack * Sl) Never (option nat)).
Proof. unfold pop_entry, pop_entry_slot. simpl. auto 10 with keeps. Qed.
Lemma keeps_set_elapsed t : keeps snd (set_elapsed t : SE (Wheel DStack * Sl) Never ()).
Proof. unfold set_elapsed. auto 10 with keeps. Qed.
#[local] Hint Resolve keeps_add_entry keeps_remove_entry keeps_pop_entry keeps_set_elapsed : keeps.

Lemma keeps_Wheel_insert t x : keeps snd (Wheel_insert t x : SE (Wheel DStack * Sl) Never _).
Proof. unfold Wheel_insert. auto 10 with keeps. Qed.
Lemma keeps_Wheel_remove x : keeps snd (Wheel_remove x : SE (Wheel DStack * Sl) Never ()).
Proof. unfold Wheel_remove. auto 10 with keeps. Qed.
Lemma keeps_poll_expiration fuel : forall e, keeps snd (poll_expiration fuel e : SE (Wheel DStack * Sl) Never (option nat)).
Proof. induction fuel; intros e; cbn [poll_expiration]; auto 15 with keeps. Qed.
Lemma keeps_Wheel_poll fuel : keeps store2 (Wheel_poll fuel).
Proof.
  assert (forall A (c : SE (Wheel DStack * Sl) Never A), keeps snd c -> keeps store2 (zoom snd (fun x st => (st.1, x)) c)) as Hz.
  { intros A c. by apply keeps_zoom. }
  induction fuel; cbn [Wheel_poll]; [apply keeps_panic|].
  pose proof keeps_poll_expiration. auto 20 with keeps.
Qed.
End KeepsWheel.
