(* ===== verification/DelayQueueCorrect.v ===== *)
(** * The delay queue implements a set of entries

    The promises of the wheel hold of the stacks of the delay queue, and the queue
    as a whole hands out its entries in the order of their deadlines. *)

From stdpp Require Import sorting.
From S2P Require Import Prelude Bytes Slab TimerWheel TimerWheelCorrect TimerRefine DelayQueue DelayQueueStack.

Section Queue.
Context {V Sl : Type} {SB : Slab (Data V) Sl}.
Implicit Types (q : DelayQueue Sl) (s : Sl) (k y : nat) (w : Wheel DStack).

(** The time of an entry that waits in the wheel, and the entries that have been
    set aside as expired. *)
Definition waiting s k : option Z :=
  match payload s k with Some (_, t, false) => Some t | _ => None end.
Definition flagged s k : Prop := exists v t, payload s k = Some (v, t, true).

Lemma waiting_payload s s' k : payload s' k = payload s k -> waiting s' k = waiting s k.
Proof. unfold waiting. by intros ->. Qed.
Lemma flagged_payload s s' k : payload s' k = payload s k -> flagged s' k <-> flagged s k.
Proof. unfold flagged. by intros ->. Qed.
Lemma flagged_not_waiting s k : flagged s k -> waiting s k = None.
Proof. unfold waiting. by intros (v & t & ->). Qed.
Lemma get_payload s k d : slab_get s k = Some d -> payload s k = Some (d_inner d, d_when d, d_expired d).
Proof. unfold payload. by intros ->. Qed.
Lemma payload_get s k v t b :
  payload s k = Some (v, t, b) -> exists d, slab_get s k = Some d /\ d_inner d = v /\ d_when d = t /\ d_expired d = b.
Proof. unfold payload. destruct (slab_get s k) as [d|]; [|done]. intros [= <- <- <-]. by exists d. Qed.
Lemma payload_when s k v t b : payload s k = Some (v, t, b) -> DStack_when k s = Ok t.
Proof. intros (d & Hd & _ & <- & _)%payload_get. unfold DStack_when. by rewrite Hd. Qed.
Lemma waiting_some s k t : waiting s k = Some t <-> exists v, payload s k = Some (v, t, false).
Proof.
  unfold waiting. destruct (payload s k) as [[[v u] []]|]; split; try done; try (by intros [? ?]).
  - intros [= ->]. by exists v.
  - by intros [v' [= -> ->]].
Qed.
Lemma waiting_when s k t : waiting s k = Some t -> DStack_when k s = Ok t.
Proof. intros [v H]%waiting_some. by eapply payload_when. Qed.

(** A change at one key. *)
Definition changed_at k s s' : Prop := forall y, y <> k -> slab_get s' y = slab_get s y.

Lemma changed_at_rep k s s' t l : changed_at k s s' -> rep s t l -> k ∉ l -> rep s' t l.
Proof. intros Hc [Hn Hs] Hk. split; [done|]. eapply seg_frame; [|exact Hs]. intros y Hy. apply Hc. by intros ->. Qed.
Lemma changed_at_payload k s s' y : changed_at k s s' -> y <> k -> payload s' y = payload s y.
Proof. intros Hc Hy. unfold payload. by rewrite Hc. Qed.
Lemma changed_at_when k s s' y : changed_at k s s' -> y <> k -> DStack_when y s' = DStack_when y s.
Proof. intros Hc Hy. unfold DStack_when. by rewrite Hc. Qed.
Lemma slab_set_changed s k d d' : slab_get s k = Some d -> changed_at k s (slab_set s k d').
Proof. intros Hd y Hy. by rewrite (get_set_ne _ _ _ _ _ Hd). Qed.
Lemma slab_remove_changed s k d : slab_get s k = Some d -> changed_at k s (slab_remove k s).
Proof. intros Hd y Hy. rewrite slab_remove_get by congruence. by rewrite decide_False. Qed.
Lemma slab_insert_changed s d : changed_at (slab_insert d s).2 s (slab_insert d s).1.
Proof. intros y Hy. rewrite (proj2 (slab_insert_get d s)). by rewrite decide_False. Qed.

(** The wheel does not see a change at a key that it does not have. *)
Lemma models_changed_at w s s' A k :
  models w s A -> changed_at k s s' -> A k = None -> models w s' A.
Proof.
  intros Hm Hc Hk. eapply models_undisturbed; [exact Hm| | |done].
  - intros t l Hr Hl. eapply changed_at_rep; [done..|]. intros Hin. apply Hl in Hin as [? ?]. congruence.
  - intros x [t Hx]. apply (changed_at_when k); [done|]. intros ->. congruence.
Qed.
Lemma models_ext w s A A' : models w s A -> (forall x, A' x = A x) -> models w s A'.
Proof. intros Hm HA. by eapply models_undisturbed; [exact Hm|..]. Qed.

(** The stack of expired entries. *)
Definition expired_rep (t : DStack) s : Prop := exists l, rep s t l /\ forall y, y ∈ l <-> flagged s y.

(** ** Inserting *)

Definition but k (A : nat -> option Z) : nat -> option Z := fun y => if decide (y = k) then None else A y.

(** What [insert_idx] does to an entry at time [t] that is in no stack. *)
Definition idx_post (q : DelayQueue Sl) (k : nat) (v : V) (t : Z) (q' : DelayQueue Sl) : Prop :=
  q_delay q' = q_delay q /\ q_poll q' = q_poll q /\ q_start q' = q_start q /\
  wh_elapsed (q_wheel q') = wh_elapsed (q_wheel q) /\
  expired_rep (q_expired q') (q_slab q') /\ models (q_wheel q') (q_slab q') (waiting (q_slab q')) /\
  payload (q_slab q') k = Some (v, t, t <=? wh_elapsed (q_wheel q)) /\
  forall y, y <> k -> payload (q_slab q') y = payload (q_slab q) y.

Lemma insert_idx_elapsed q k d t :
  slab_get (q_slab q) k = Some d -> d_next d = None -> d_prev d = None -> d_when d = t -> d_expired d = false ->
  t <= wh_elapsed (q_wheel q) -> expired_rep (q_expired q) (q_slab q) ->
  models (q_wheel q) (q_slab q) (but k (waiting (q_slab q))) ->
  exists q', insert_idx t k q = (q', Ok tt) /\ idx_post q k (d_inner d) t q'.
Proof.
  intros Hd Hn Hp Hw Hx Hle (l & Hl & Hin) Hm. destruct q as [s w ex dl po st]. cbn [q_slab q_wheel q_expired q_delay q_poll q_start] in *.
  set (d' := MkData (d_inner d) (d_when d) true (d_next d) (d_prev d)).
  set (s1 := slab_set s k d').
  assert (slab_get s1 k = Some d') as Hd1 by (by eapply get_set_eq).
  pose proof (slab_set_changed s k d d' Hd) as Hc. fold s1 in Hc.
  assert (k ∉ l) as Hkl.
  { intros (v & u & Hk)%Hin. rewrite (get_payload _ _ _ Hd) in Hk. congruence. }
  destruct (push_spec s1 ex l k) as (s2 & ex' & Hpush & Hr2 & Hf2).
  { by eapply changed_at_rep. }
  { exists d'. done. }
  { done. }
  pose proof (keeps_push k (ex, s1)) as Hk. rewrite Hpush in Hk. cbn [fst snd] in Hk.
  assert (forall y, y <> k -> payload s2 y = payload s y) as Hpay.
  { intros y Hy. rewrite Hk. by apply (changed_at_payload k). }
  exists (MkDelayQueue s2 w ex' dl po st). split.
  - unfold insert_idx, on_wheel, Wheel_insert. unfold mbind at 1, SE_bind at 1, zoom at 1. cbn [q_wheel q_slab q_expired q_delay q_poll q_start].
    rewrite bind_gets. cbn [fst snd]. rewrite (proj2 (Z.leb_le _ _)) by done. unfold data.
    unfold mbind, SE_bind, mret, SE_ret, gets, lift, set_slab, modify. cbn [q_wheel q_slab q_expired q_delay q_poll q_start fst snd].
    rewrite Hd. cbn [unwrap]. fold d' s1. unfold on_expired, zoom. cbn [q_wheel q_slab q_expired q_delay q_poll q_start]. by rewrite Hpush.
  - unfold idx_post. cbn [q_wheel q_slab q_expired q_delay q_poll q_start].
    split; [done|]. split; [done|]. split; [done|]. split; [done|]. split; [|split; [|split; [|done]]].
    + exists (k :: l). split; [done|]. intros y. rewrite elem_of_cons. destruct (decide (y = k)) as [->|Hne].
      * split; [|by left]. intros _. exists (d_inner d), t. rewrite Hk, (get_payload _ _ _ Hd1). unfold d'. simpl. congruence.
      * rewrite (flagged_payload s) by auto. rewrite <- Hin. naive_solver.
    + assert (forall y, waiting s2 y = but k (waiting s) y) as Hwt.
      { intros y. unfold but. case_decide as Hy; [subst|by apply waiting_payload, Hpay]. unfold waiting.
        by rewrite Hk, (get_payload _ _ _ Hd1). }
      apply (models_changed_at _ _ s1 _ k) in Hm; [|done|unfold but; by rewrite decide_True].
      eapply models_undisturbed; [exact Hm| |intros x _; apply Hf2|done]. intros t' l' Hr' Hl'.
      apply Hf2; [done|]. intros x [u Hu]%Hl' Hxk. unfold but in Hu. case_decide as Hxk'; [done|].
      apply elem_of_cons in Hxk as [->|Hxl]; [done|]. apply Hin, flagged_not_waiting in Hxl. congruence.
    + rewrite Hk, (get_payload _ _ _ Hd1), (proj2 (Z.leb_le _ _)) by done. unfold d'. simpl. by rewrite Hw.
Qed.

Lemma expired_rep_preserved t s s' A given :
  expired_rep t s -> preserved A s s' given -> (forall y, payload s' y = payload s y) ->
  (forall y, flagged s y -> A y = None /\ y ∉ given) -> expired_rep t s'.
Proof.
  intros (l & Hl & Hin) Hpr Hpay Hy. exists l. split.
  - apply (proj2 (proj1 Hpr)); [done|]. intros y ?%Hin. auto.
  - intros y. rewrite Hin. symmetry. by apply flagged_payload.
Qed.

Lemma insert_idx_waiting q k d t :
  slab_get (q_slab q) k = Some d -> d_next d = None -> d_prev d = None -> d_when d = t -> d_expired d = false ->
  wh_elapsed (q_wheel q) < t < 2 ^ 36 -> expired_rep (q_expired q) (q_slab q) ->
  models (q_wheel q) (q_slab q) (but k (waiting (q_slab q))) ->
  exists q', insert_idx t k q = (q', Ok tt) /\ idx_post q k (d_inner d) t q'.
Proof.
  intros Hd Hn Hp Hw Hx Hlt Hex Hm. destruct q as [s w ex dl po st]. cbn [q_slab q_wheel q_expired q_delay q_poll q_start] in *.
  pose proof (get_payload _ _ _ Hd) as Hpk. rewrite Hw, Hx in Hpk.
  destruct (insert_sim w s (but k (waiting s)) k t Hm) as (w' & s' & Hins & He & Hm' & Hpr).
  { by exists d. }
  { unfold but. by rewrite decide_True. }
  { by eapply (payload_when s k). }
  { done. }
  pose proof (keeps_Wheel_insert t k (w, s)) as Hk. rewrite Hins in Hk. cbn [fst snd] in Hk.
  exists (MkDelayQueue s' w' ex dl po st). split.
  - unfold insert_idx, on_wheel. unfold mbind at 1, SE_bind at 1, zoom at 1. cbn [q_wheel q_slab q_expired q_delay q_poll q_start].
    by rewrite Hins.
  - unfold idx_post. cbn [q_wheel q_slab q_expired q_delay q_poll q_start].
    split; [done|]. split; [done|]. split; [done|]. split; [done|]. split; [|split; [|split]].
    + eapply expired_rep_preserved; [exact Hex|exact Hpr|done|]. intros y Hy. split.
      * unfold but. case_decide; [done|]. by apply flagged_not_waiting.
      * intros ->%list_elem_of_singleton. destruct Hy as (v & u & Hy). congruence.
    + eapply models_ext; [exact Hm'|]. intros y. rewrite (waiting_payload s) by done. unfold but.
      case_decide as Hy; [subst|done]. apply waiting_some. by exists (d_inner d).
    + rewrite Hk, Hpk, (proj2 (Z.leb_gt _ _)) by lia. done.
    + done.
Qed.

Lemma insert_idx_spec q k d t :
  slab_get (q_slab q) k = Some d -> d_next d = None -> d_prev d = None -> d_when d = t -> d_expired d = false ->
  t < 2 ^ 36 -> expired_rep (q_expired q) (q_slab q) -> models (q_wheel q) (q_slab q) (but k (waiting (q_slab q))) ->
  exists q', insert_idx t k q = (q', Ok tt) /\ idx_post q k (d_inner d) t q'.
Proof.
  intros Hd Hn Hp Hw Hx Ht Hex Hm. destruct (Z.le_gt_cases t (wh_elapsed (q_wheel q))).
  - by apply insert_idx_elapsed.
  - apply insert_idx_waiting; try done.
Qed.

(** ** The state of the queue *)

(** Between polls the queue has a delay, which is not after the first timer.  After
    an entry has been handed out it has none, until the next poll. *)
Definition delay_ok q (t : Z) : Prop :=
  q_delay q = Some (q_start q + from_millis t) /\ wh_elapsed (q_wheel q) <= t < 2 ^ 36 /\
  models (q_wheel q) (q_slab q) (waiting (q_slab q)) /\ forall y u, waiting (q_slab q) y = Some u -> t <= u.
Definition draining q : Prop :=
  q_delay q = None /\ exists L, polling (q_poll q) (q_wheel q) (q_slab q) L /\
  forall y, stored L y <-> is_Some (waiting (q_slab q) y).

Definition queue_ok q : Prop :=
  expired_rep (q_expired q) (q_slab q) /\ ((exists t, delay_ok q t) \/ draining q).

(** The times in the wheel are those of the entries. *)
Lemma polling_when p w s L y t :
  polling p w s L -> (forall y, stored L y <-> is_Some (waiting s y)) ->
  waiting s y = Some t <-> stored L y /\ st_when y s = Ok t.
Proof.
  intros _ Hst. split.
  - intros Hy. split; [by apply Hst; exists t|by apply waiting_when].
  - intros [[u Hu]%Hst Ht]. rewrite Hu. apply waiting_when in Hu. simpl in Ht. congruence.
Qed.

Lemma draining_empty q : draining q -> (forall y, waiting (q_slab q) y = None) ->
  models (q_wheel q) (q_slab q) (waiting (q_slab q)).
Proof.
  intros (_ & L & Hp & Hst) He. assert (forall y, ~ stored L y) as Hn.
  { intros y [t Ht]%Hst. by rewrite He in Ht. }
  destruct Hp as (Hr & Hel & Hnow & _). split; [lia|]. exists L. split; [done|]. split.
  - split; [intros i j x Hx|intros i j x u Hx]; exfalso; apply (Hn x); by exists i, j.
  - intros x t. rewrite He. split; [done|]. intros [Hx _]. by apply Hn in Hx.
Qed.

Lemma ms_from_millis t : 0 <= t < 2 ^ 36 -> forall r, ms (from_millis t) r = t.
Proof.
  intros Ht r. unfold ms, from_millis. rewrite Z.mul_comm in *.
  assert (t * 1000000 / 1000000000 = t / 1000) as E1.
  { change 1000000000 with (1000 * 1000000). rewrite Z.div_mul_cancel_r; lia. }
  assert (t * 1000000 mod 1000000000 = t mod 1000 * 1000000) as E2.
  { change 1000000000 with (1000 * 1000000). rewrite Zmult_mod_distr_r. lia. }
  replace (1000000 * t) with (t * 1000000) by lia. rewrite E1, E2.
  pose proof (Z.mod_pos_bound t 1000 ltac:(lia)). pose proof (Z.div_mod t 1000 ltac:(lia)).
  assert (match r with Up => (t mod 1000 * 1000000 + 1000000 - 1) / 1000000 | Down => t mod 1000 * 1000000 / 1000000 end = t mod 1000) as ->.
  { destruct r; [|by rewrite Z.div_mul].
    replace (t mod 1000 * 1000000 + 1000000 - 1) with (999999 + t mod 1000 * 1000000) by lia. rewrite Z.div_add by lia. done. }
  unfold saturate. lia.
Qed.

Lemma normalize_from_millis q t :
  0 <= t < 2 ^ 36 -> wh_elapsed (q_wheel q) <= t -> normalize_deadline q (q_start q + from_millis t) = t.
Proof.
  intros Ht He. unfold normalize_deadline. rewrite (proj2 (Z.ltb_ge _ _)) by (unfold from_millis; lia).
  replace (q_start q + from_millis t - q_start q) with (from_millis t) by lia. rewrite ms_from_millis by done. lia.
Qed.

(** No entry is due: the queue can be changed. *)
Definition settled q : Prop := q_delay q <> None \/ forall y, waiting (q_slab q) y = None.

Lemma settled_models q : queue_ok q -> settled q -> models (q_wheel q) (q_slab q) (waiting (q_slab q)).
Proof.
  intros [_ [[t Ht]|Hd]] Hs; [apply Ht|]. apply draining_empty; [done|]. destruct Hs as [Hs|]; [|done]. by destruct Hs, Hd.
Qed.
Lemma models_elapsed w s A : models w s A -> 0 <= wh_elapsed w < 2 ^ 36.
Proof. by intros [? _]. Qed.

Lemma expired_rep_changed t s s' k :
  expired_rep t s -> changed_at k s s' -> ~ flagged s k -> ~ flagged s' k -> expired_rep t s'.
Proof.
  intros (l & Hl & Hin) Hc Hk Hk'. exists l. split.
  - eapply changed_at_rep; [done..|]. by rewrite Hin.
  - intros y. rewrite Hin. destruct (decide (y = k)) as [->|Hy]; [done|]. symmetry. apply flagged_payload. by apply (changed_at_payload k).
Qed.

(** The delay after an entry at [t] has been added. *)
Lemma delay_after q q' k v t :
  queue_ok q -> settled q -> idx_post q k v t q' -> wh_elapsed (q_wheel q) <= t < 2 ^ 36 ->
  (forall y, y <> k -> waiting (q_slab q') y = waiting (q_slab q) y) ->
  let set := match q_delay q' with Some delay => t <? normalize_deadline q' delay | None => true end in
  exists u, delay_ok (MkDelayQueue (q_slab q') (q_wheel q') (q_expired q')
    (if set then Some (q_start q' + from_millis t) else q_delay q') (q_poll q') (q_start q')) u.
Proof.
  intros [_ Hok] Hs (Hdl & Hpo & Hst & He & _ & Hm & Hk & _) Ht Hw set.
  assert (forall u, waiting (q_slab q') k = Some u -> u = t) as Hkt.
  { intros u (v' & Hu)%waiting_some. congruence. }
  pose proof (models_elapsed _ _ _ Hm) as He0. unfold set. clear set. rewrite Hdl.
  destruct (q_delay q) as [dl|] eqn:Hq.
  - destruct Hok as [(t0 & Hd & Ht0 & _ & Hmin)|[Hd _]]; [|congruence]. rewrite Hq in Hd. injection Hd as ->.
    rewrite <- Hst. rewrite normalize_from_millis by lia.
    destruct (Z.ltb_spec t t0); [exists t|exists t0]; (split; [done|]; split; [simpl; lia|]; split; [done|]); cbn [q_slab];
      intros y u Hy; (destruct (decide (y = k)) as [->|Hne]; [apply Hkt in Hy|rewrite Hw in Hy by done; apply Hmin in Hy]); lia.
  - exists t. split; [done|]. split; [simpl; lia|]. split; [done|]. cbn [q_slab]. intros y u Hy.
    destruct (decide (y = k)) as [->|Hne]; [apply Hkt in Hy; lia|]. rewrite Hw in Hy by done.
    destruct Hs as [Hs|Hs]; [done|]. by rewrite Hs in Hy.
Qed.

Lemma insert_at_spec q v when :
  queue_ok q -> settled q -> slab_len (q_slab q) < MAX_ENTRIES -> normalize_deadline q when < 2 ^ 36 ->
  exists q' k, insert_at v when q = (q', Ok k) /\ queue_ok q' /\ settled q' /\
    q_start q' = q_start q /\ q_poll q' = q_poll q /\ wh_elapsed (q_wheel q') = wh_elapsed (q_wheel q) /\
    payload (q_slab q) k = None /\
    payload (q_slab q') k = Some (v, normalize_deadline q when, normalize_deadline q when <=? wh_elapsed (q_wheel q)) /\
    forall y, y <> k -> payload (q_slab q') y = payload (q_slab q) y.
Proof.
  intros Hok Hs Hlen Ht. pose proof (settled_models q Hok Hs) as Hm. pose proof (models_elapsed _ _ _ Hm) as He0.
  set (t := normalize_deadline q when) in *.
  assert (wh_elapsed (q_wheel q) <= t) as Hel by (unfold t, normalize_deadline; lia).
  set (d := MkData v t false None None).
  pose proof (slab_insert_get d (q_slab q)) as [Hfresh Hget]. pose proof (slab_insert_changed (q_slab q) d) as Hc.
  unfold insert_at, mbind at 1, SE_bind at 1, get at 1. rewrite (proj2 (Z.ltb_lt _ _)) by done. cbn [assert_].
  rewrite bind_lift_Ok. fold t. fold d. destruct (slab_insert d (q_slab q)) as [s1 k] eqn:Hins. cbn [fst snd] in *.
  assert (slab_get s1 k = Some d) as Hd by (by rewrite Hget, decide_True).
  set (q1 := MkDelayQueue s1 (q_wheel q) (q_expired q) (q_delay q) (q_poll q) (q_start q)).
  assert (payload (q_slab q) k = None) as Hpk by (unfold payload; by rewrite Hfresh).
  assert (forall y, y <> k -> payload s1 y = payload (q_slab q) y) as Hpay by (intros y; by apply (changed_at_payload k)).
  unfold set_slab. rewrite bind_modify. fold q1.
  destruct (insert_idx_spec q1 k d t) as (q2 & Hidx & Hpost); try done.
  { cbn [q1 q_expired q_slab]. eapply expired_rep_changed; [apply Hok|done|..].
    - intros (? & ? & Hf). congruence.
    - intros (? & ? & Hf). rewrite (get_payload _ _ _ Hd) in Hf. done. }
  { cbn [q1 q_wheel q_slab]. eapply models_ext; [eapply models_changed_at; [exact Hm|exact Hc|]|].
    - unfold waiting. by rewrite Hpk.
    - intros y. unfold but. case_decide as Hy; [subst; unfold waiting; by rewrite Hpk|]. by apply waiting_payload, Hpay. }
  rewrite (bind_eq _ _ _ _ _ Hidx). unfold mbind at 1, SE_bind at 1, get at 1.
  pose proof Hpost as (Hdl2 & Hpo2 & Hst2 & He2 & Hex2 & Hm2 & Hk2 & Hy2). cbn [q1 q_delay q_poll q_start q_slab q_wheel] in *.
  assert (forall y, y <> k -> payload (q_slab q2) y = payload (q_slab q) y) as Hpay2 by (intros y Hy; rewrite Hy2; auto).
  destruct (delay_after q q2 k v t Hok Hs) as (u & Hu).
  { unfold idx_post. split_and!; try done. }
  { lia. }
  { intros y Hy. by apply waiting_payload, Hpay2. }
  set (setd := match q_delay q2 with Some delay => t <? normalize_deadline q2 delay | None => true end) in *.
  exists (MkDelayQueue (q_slab q2) (q_wheel q2) (q_expired q2) (if setd then Some (q_start q2 + from_millis t) else q_delay q2)
    (q_poll q2) (q_start q2)), k.
  split; [unfold set_delay; destruct setd; [done|]; by destruct q2|].
  split; [split; [done|left; by exists u]|]. split; [left; by rewrite (proj1 Hu)|]. done.
Qed.

(** ** Removing *)

Definition clock_ok q : Prop := (exists t, delay_ok q t) \/ draining q.

(** The clock does not depend on entries that do not wait. *)
Lemma clock_undisturbed q s' ex' :
  clock_ok q ->
  (forall t l, rep (q_slab q) t l -> (forall x, x ∈ l -> is_Some (waiting (q_slab q) x)) -> rep s' t l) ->
  (forall x, waiting s' x = waiting (q_slab q) x) ->
  clock_ok (MkDelayQueue s' (q_wheel q) ex' (q_delay q) (q_poll q) (q_start q)).
Proof.
  intros Hc Hrep Hw.
  assert (forall x, is_Some (waiting (q_slab q) x) -> DStack_when x s' = DStack_when x (q_slab q)) as Hwhen.
  { intros x [t Ht]. rewrite (waiting_when _ _ _ Ht). apply waiting_when. by rewrite Hw. }
  destruct Hc as [(t & Hd & Ht & Hm & Hmin)|(Hd & L & Hp & Hst)].
  - left. exists t. split; [done|]. split; [done|]. cbn [q_wheel q_slab]. split.
    + by eapply models_undisturbed; [exact Hm|..].
    + intros y u. rewrite Hw. apply Hmin.
  - right. split; [done|]. exists L. cbn [q_wheel q_slab q_poll]. split.
    + eapply polling_undisturbed; [|exact Hp]. split.
      * intros t l Hr Hl. apply Hrep; [done|]. intros x ?%Hl. by apply Hst.
      * intros x Hx. apply Hwhen. by apply Hst.
    + intros y. by rewrite Hst, Hw.
Qed.

Lemma payload_removed s k y d :
  slab_get s k = Some d -> payload (slab_remove k s) y = if decide (y = k) then None else payload s y.
Proof.
  intros Hd. unfold payload. rewrite slab_remove_get by congruence. by case_decide.
Qed.

(** Dropping an entry that is in no stack any more. *)
Lemma queue_drop q k d l :
  slab_get (q_slab q) k = Some d -> rep (q_slab q) (q_expired q) l ->
  (forall y, y ∈ l <-> flagged (q_slab q) y /\ y <> k) -> clock_ok q -> waiting (q_slab q) k = None ->
  queue_ok (MkDelayQueue (slab_remove k (q_slab q)) (q_wheel q) (q_expired q) (q_delay q) (q_poll q) (q_start q)).
Proof.
  intros Hd Hl Hin Hc Hk. pose proof (slab_remove_changed _ _ _ Hd) as Hch. split.
  - exists l. cbn [q_expired q_slab]. split.
    + eapply changed_at_rep; [done..|]. rewrite Hin. naive_solver.
    + intros y. rewrite Hin. unfold flagged. rewrite (payload_removed _ _ _ _ Hd). case_decide; [|naive_solver].
      split; [naive_solver|]. by intros (? & ? & ?).
  - apply clock_undisturbed; [done|..].
    + intros t l' Hr Hl'. eapply changed_at_rep; [done..|]. intros [? ?]%Hl'. congruence.
    + intros y. unfold waiting at 1. rewrite (payload_removed _ _ _ _ Hd). case_decide; [by subst|done].
Qed.

(** The entries without [k]. *)
Definition dropped q k q' : Prop :=
  q_start q' = q_start q /\ q_poll q' = q_poll q /\ q_delay q' = q_delay q /\
  wh_elapsed (q_wheel q') = wh_elapsed (q_wheel q) /\
  forall y, payload (q_slab q') y = if decide (y = k) then None else payload (q_slab q) y.

Lemma data_spec q k d : slab_get (q_slab q) k = Some d -> data k q = (q, Ok d).
Proof. intros Hd. unfold data, mbind, SE_bind, gets, lift. by rewrite Hd. Qed.

Lemma remove_flagged q k d :
  queue_ok q -> slab_get (q_slab q) k = Some d -> d_expired d = true ->
  exists q', DelayQueue_remove k q = (q', Ok (MkExpired (d_inner d) (q_start q + from_millis (d_when d)) k)) /\
    queue_ok q' /\ dropped q k q'.
Proof.
  intros [(l & Hl & Hin) Hc] Hd Hx. pose proof (get_payload _ _ _ Hd) as Hpk. rewrite Hx in Hpk.
  assert (k ∈ l) as Hkl by (apply Hin; eexists _, _; exact Hpk).
  apply list_elem_of_split in Hkl as (l1 & l2 & ->).
  destruct (remove_spec _ _ _ _ _ Hl) as (s1 & ex1 & Hrm & Hr1 & (d1 & Hd1 & _) & Hf1).
  pose proof (keeps_remove k (q_expired q, q_slab q)) as Hk. rewrite Hrm in Hk. cbn [fst snd] in Hk.
  set (q1 := MkDelayQueue s1 (q_wheel q) ex1 (q_delay q) (q_poll q) (q_start q)).
  assert (slab_get (q_slab q1) k = Some d1) as Hd1' by done.
  eexists. split; [|split; [apply (queue_drop q1 k d1 (l1 ++ l2)); try done|]].
  - unfold DelayQueue_remove. rewrite (bind_eq _ _ _ _ _ (data_spec _ _ _ Hd)), Hx.
    unfold on_expired. unfold mbind at 1, SE_bind at 1, zoom. rewrite Hrm. cbn [snd fst]. fold q1.
    rewrite (bind_eq _ _ _ _ _ (data_spec _ _ _ Hd1')). unfold set_slab. rewrite bind_modify, bind_gets.
    pose proof (get_payload _ _ _ Hd1) as Hp1. rewrite Hk, Hpk in Hp1. injection Hp1 as -> -> _. done.
  - cbn [q1 q_slab]. intros y. rewrite (flagged_payload (q_slab q)) by done. rewrite <- Hin.
    pose proof (proj1 Hl) as Hnd. apply NoDup_app in Hnd as (_ & Hd12 & Hnd). apply NoDup_cons in Hnd as [Hnk _].
    rewrite !elem_of_app, elem_of_cons. split; [|naive_solver]. intros Hy. split; [naive_solver|]. intros ->.
    destruct Hy as [Hy|Hy]; [apply (Hd12 k Hy); left|done].
  - apply clock_undisturbed; [done| |intros y; by apply waiting_payload]. intros t l' Hr' Hl'.
    apply Hf1; [done|]. intros x [u Hu]%Hl' Hxl. apply Hin, flagged_not_waiting in Hxl. congruence.
  - cbn [q1 q_slab]. rewrite (waiting_payload (q_slab q)) by done. apply flagged_not_waiting. eexists _, _. exact Hpk.
  - split_and!; try done. intros y. cbn [q_slab]. rewrite (payload_removed _ _ _ _ Hd1). by case_decide.
Qed.

(** Taking a waiting entry out of the wheel. *)
Lemma unwheel q k t u :
  expired_rep (q_expired q) (q_slab q) -> delay_ok q u -> waiting (q_slab q) k = Some t ->
  exists w' s', Wheel_remove k (q_wheel q, q_slab q) = ((w', s'), Ok tt) /\ wh_elapsed w' = wh_elapsed (q_wheel q) /\
    models w' s' (but k (waiting s')) /\ expired_rep (q_expired q) s' /\ unlinked s' k /\
    forall y, payload s' y = payload (q_slab q) y.
Proof.
  intros Hex (Hd & Ht & Hm & Hmin) Hk.
  destruct (remove_sim _ _ _ k t Hm Hk) as (w' & s' & Hrm & He & Hm' & Hu & Hpr).
  pose proof (keeps_Wheel_remove k (q_wheel q, q_slab q)) as Hkp. rewrite Hrm in Hkp. cbn [fst snd] in Hkp.
  exists w', s'. split; [done|]. split; [done|]. split; [|split; [|done]].
  - eapply models_ext; [exact Hm'|]. intros y. unfold but. case_decide; [done|]. by apply waiting_payload.
  - eapply expired_rep_preserved; [exact Hex|exact Hpr|done|]. intros y Hy. split; [by apply flagged_not_waiting|inversion 1].
Qed.

Lemma remove_waiting q k d u :
  expired_rep (q_expired q) (q_slab q) -> delay_ok q u -> slab_get (q_slab q) k = Some d -> d_expired d = false ->
  exists q', DelayQueue_remove k q = (q', Ok (MkExpired (d_inner d) (q_start q + from_millis (d_when d)) k)) /\
    queue_ok q' /\ dropped q k q'.
Proof.
  intros Hex Hdl Hd Hx. pose proof (get_payload _ _ _ Hd) as Hpk. rewrite Hx in Hpk.
  assert (waiting (q_slab q) k = Some (d_when d)) as Hwk by (apply waiting_some; eexists; exact Hpk).
  destruct (unwheel q k (d_when d) u Hex Hdl Hwk) as (w1 & s1 & Hrm & He & Hm & (l & Hl & Hin) & (d1 & Hd1 & _) & Hpay).
  set (q1 := MkDelayQueue s1 w1 (q_expired q) (q_delay q) (q_poll q) (q_start q)).
  assert (slab_get (q_slab q1) k = Some d1) as Hd1' by done. pose proof (slab_remove_changed _ _ _ Hd1) as Hch.
  assert (forall y, waiting (slab_remove k s1) y = but k (waiting s1) y) as Hwr.
  { intros y. unfold waiting at 1, but. rewrite (payload_removed _ _ _ _ Hd1). by case_decide. }
  exists (MkDelayQueue (slab_remove k s1) w1 (q_expired q) (q_delay q) (q_poll q) (q_start q)). split; [|split; [split|]].
  - unfold DelayQueue_remove. rewrite (bind_eq _ _ _ _ _ (data_spec _ _ _ Hd)), Hx.
    unfold on_wheel. unfold mbind at 1, SE_bind at 1, zoom. rewrite Hrm. cbn [snd fst]. fold q1.
    rewrite (bind_eq _ _ _ _ _ (data_spec _ _ _ Hd1')). unfold set_slab. rewrite bind_modify, bind_gets.
    pose proof (get_payload _ _ _ Hd1) as Hp1. rewrite Hpay, Hpk in Hp1. injection Hp1 as -> -> _. done.
  - eapply expired_rep_changed; [by exists l|exact Hch|..].
    + intros (? & ? & Hf). rewrite Hpay in Hf. congruence.
    + intros (? & ? & Hf). rewrite (payload_removed _ _ _ _ Hd1), decide_True in Hf by done. done.
  - left. exists u. destruct Hdl as (Hdl & Hu & _ & Hmin). split; [done|]. cbn [q_wheel q_slab]. split; [lia|]. split.
    + eapply models_ext; [eapply models_changed_at; [exact Hm|exact Hch|]|done]. unfold but. by rewrite decide_True.
    + intros y t Hy. rewrite Hwr in Hy. unfold but in Hy. case_decide; [done|]. rewrite (waiting_payload (q_slab q)) in Hy by done. by eapply Hmin.
  - split_and!; try done. intros y. cbn [q_slab]. rewrite (payload_removed _ _ _ _ Hd1). by case_decide.
Qed.

(** ** Resetting *)

Lemma models_bound w s A x t : models w s A -> A x = Some t -> wh_elapsed w < t < 2 ^ 36.
Proof.
  intros (He & L & Hr & [Hp Hi] & HA) Hx. apply HA in Hx as [(i & j & Hx) Ht]. destruct (Hp i j x Hx) as (u & Hu & Hb & _).
  pose proof (Hi i j x t Hx Ht) as Hlt. apply blk_lt in Hlt. rewrite Ht in Hu. injection Hu as <-. lia.
Qed.

(** The next deadline is a delay to wait for. *)
Lemma next_deadline_ok q :
  models (q_wheel q) (q_slab q) (waiting (q_slab q)) ->
  match next_deadline q with
  | Some dl => exists t, wh_elapsed (q_wheel q) < t /\
      delay_ok (MkDelayQueue (q_slab q) (q_wheel q) (q_expired q) (Some dl) (q_poll q) (q_start q)) t
  | None => forall y, waiting (q_slab q) y = None
  end.
Proof.
  intros Hm. pose proof (poll_at_sim _ _ _ Hm) as Hp. unfold next_deadline. destruct (poll_at (q_wheel q)) as [t|]; simpl; [|done].
  destruct Hp as (He & (x & u & Hx) & Hmin). exists t. split; [done|]. split; [done|]. cbn [q_wheel q_slab].
  pose proof (models_bound _ _ _ _ _ Hm Hx). pose proof (Hmin _ _ Hx). split; [lia|]. done.
Qed.

Lemma reset_at_spec q k v t when :
  queue_ok q -> q_delay q <> None -> payload (q_slab q) k = Some (v, t, false) -> normalize_deadline q when < 2 ^ 36 ->
  exists q', reset_at k when q = (q', Ok tt) /\ queue_ok q' /\ settled q' /\ q_start q' = q_start q /\ q_poll q' = q_poll q /\
    wh_elapsed (q_wheel q') = wh_elapsed (q_wheel q) /\
    payload (q_slab q') k = Some (v, normalize_deadline q when, normalize_deadline q when <=? wh_elapsed (q_wheel q)) /\
    forall y, y <> k -> payload (q_slab q') y = payload (q_slab q) y.
Proof.
  intros [Hex Hc] Hdl Hpk Ht. destruct Hc as [[u Hd]|[Hd _]]; [|done].
  destruct (unwheel q k t u Hex Hd) as (w1 & s1 & Hrm & He & Hm & Hex1 & (d1 & Hd1 & Hn1 & Hp1) & Hpay).
  { apply waiting_some. by exists v. }
  set (q1 := MkDelayQueue s1 w1 (q_expired q) (q_delay q) (q_poll q) (q_start q)).
  assert (normalize_deadline q1 when = normalize_deadline q when) as Hnorm.
  { unfold normalize_deadline. cbn [q1 q_start q_wheel]. by rewrite He. }
  pose proof (get_payload _ _ _ Hd1) as Hpk1. rewrite Hpay, Hpk in Hpk1. injection Hpk1 as Hv1 Ht1 Hx1.
  set (t' := normalize_deadline q when) in *. set (d2 := MkData (d_inner d1) t' (d_expired d1) (d_next d1) (d_prev d1)).
  set (q2 := MkDelayQueue (slab_set s1 k d2) w1 (q_expired q) (q_delay q) (q_poll q) (q_start q)).
  pose proof (slab_set_changed s1 k d1 d2 Hd1) as Hch.
  assert (slab_get (q_slab q2) k = Some d2) as Hd2 by (by eapply get_set_eq).
  assert (forall y, y <> k -> payload (q_slab q2) y = payload (q_slab q) y) as Hpay2.
  { intros y Hy. rewrite <- Hpay. by apply (changed_at_payload k). }
  destruct (insert_idx_spec q2 k d2 t') as (q3 & Hidx & Hpost); try done.
  { eapply expired_rep_changed; [exact Hex1|exact Hch|..].
    - intros (? & ? & Hf). rewrite Hpay in Hf. congruence.
    - intros (? & ? & Hf). pose proof (get_payload _ _ _ Hd2) as Hg. rewrite Hf in Hg. injection Hg. cbn [d2 d_expired]. congruence. }
  { cbn [q2 q_wheel q_slab]. eapply models_ext; [eapply models_changed_at; [exact Hm|exact Hch|]|].
    - unfold but. by rewrite decide_True.
    - intros y. unfold but. case_decide as Hy; [done|]. apply waiting_payload. by apply (changed_at_payload k). }
  pose proof Hpost as (Hdl3 & Hpo3 & Hst3 & He3 & Hex3 & Hm3 & Hk3 & Hy3). cbn [q2 q_delay q_poll q_start q_wheel] in *.
  assert (reset_at k when q = match q_delay q3, next_deadline q3 with
    | Some _, Some deadline => set_delay (Some deadline) | _, _ => mret tt end q3) as ->.
  { unfold reset_at, on_wheel. unfold mbind at 1, SE_bind at 1, zoom. rewrite Hrm. cbn [fst snd]. fold q1.
    unfold mbind at 1, SE_bind at 1, get at 1. rewrite Hnorm. rewrite (bind_eq _ _ _ _ _ (data_spec q1 k d1 Hd1)).
    unfold set_slab. rewrite bind_modify. fold q2. rewrite (bind_eq _ _ _ _ _ Hidx). done. }
  pose proof (next_deadline_ok q3 Hm3) as Hnext. rewrite Hdl3. destruct Hd as (Hdu & Hu & _ & _). rewrite Hdu.
  assert (payload (q_slab q3) k = Some (v, t', t' <=? wh_elapsed (q_wheel q))) as Hk3' by (rewrite Hk3; cbn [d2 d_inner]; congruence).
  assert (forall y, y <> k -> payload (q_slab q3) y = payload (q_slab q) y) as Hy3' by (intros y Hy; rewrite Hy3 by done; auto).
  assert (wh_elapsed (q_wheel q3) = wh_elapsed (q_wheel q)) as He3' by congruence.
  destruct (next_deadline q3) as [dl|].
  - destruct Hnext as (t3 & _ & Ht3). eexists. split; [reflexivity|]. split; [split; [done|left; by exists t3]|].
    split; [left; done|]. done.
  - exists q3. split; [done|]. split; [split; [done|]|split; [right; done|done]]. left. exists u. split; [by rewrite Hdl3, Hst3|].
    split; [lia|]. split; [done|]. intros y u' Hy. by rewrite Hnext in Hy.
Qed.
End Queue.
