(* ===== verification/DelayQueueRefine.v ===== *)
(** * Polling the delay queue

    The rounds of [poll_idx], and the queue as a whole: the entries leave in the
    order of their deadlines, none before its time. *)

From stdpp Require Import sorting.
From S2P Require Import Prelude Bytes TimerWheel TimerWheelCorrect TimerRefine.
From S2P Require Import Slab DelayQueue DelayQueueStack DelayQueueCorrect.

Section Queue.
Context {V Sl : Type} {SB : Slab (Data V) Sl}.
Implicit Types (q : DelayQueue Sl) (s : Sl) (k y : nat) (w : Wheel DStack).

(** The clock at [T] has not been turned back behind a poll. *)
Definition seen q (T : Z) : Prop :=
  wh_elapsed (q_wheel q) <= po_now (q_poll q) /\ q_start q + from_millis (po_now (q_poll q)) <= T.

(** What a round or the whole loop gives at the time [T]. *)
Definition loop_post (T : Z) q q' (r : Async (option nat)) : Prop :=
  q_start q' = q_start q /\ q_expired q' = q_expired q /\ seen q' T /\
  (forall y, payload (q_slab q') y = payload (q_slab q) y) /\
  match r with
  | Ready (Some k) =>
      q_delay q' = None /\ unlinked (q_slab q') k /\
      (exists L, polling (q_poll q') (q_wheel q') (q_slab q') L /\
         forall y, stored L y <-> is_Some (waiting (q_slab q) y) /\ y <> k) /\
      exists t, waiting (q_slab q) k = Some t /\ q_start q + from_millis t <= T /\
        forall y u, waiting (q_slab q) y = Some u -> t <= u
  | Ready None => draining q' /\ forall y, waiting (q_slab q) y = None
  | Pending => (exists t, delay_ok q' t) /\ forall y u, waiting (q_slab q) y = Some u -> T < q_start q + from_millis u
  end.

Lemma loop_post_trans T q q1 q' r :
  q_start q1 = q_start q -> q_expired q1 = q_expired q -> (forall y, payload (q_slab q1) y = payload (q_slab q) y) ->
  loop_post T q1 q' r -> loop_post T q q' r.
Proof.
  intros Hs Hx Hp (Hs' & Hx' & Hseen & Hp' & Hr).
  assert (forall y, waiting (q_slab q1) y = waiting (q_slab q) y) as Hw by (intros y; by apply waiting_payload).
  split; [congruence|]. split; [congruence|]. split; [done|]. split; [intros y; by rewrite Hp', Hp|].
  destruct r as [[k|]|].
  - destruct Hr as (Hd & Hu & (L & HL & Hst) & t & Hk & HT & Hmin). split; [done|]. split; [done|]. split.
    + exists L. split; [done|]. intros y. by rewrite Hst, Hw.
    + exists t. rewrite <- Hw, <- Hs. split; [done|]. split; [done|]. intros y u. rewrite <- Hw. apply Hmin.
  - destruct Hr as [Hd He]. split; [done|]. intros y. by rewrite <- Hw.
  - destruct Hr as [Hd He]. split; [done|]. intros y u. rewrite <- Hw, <- Hs. apply He.
Qed.

(** The queue has a delay [t], and the wheel is as in [L]. *)
Definition delay_at q (t : Z) (L : nat -> nat -> list nat) : Prop :=
  q_delay q = Some (q_start q + from_millis t) /\ wh_elapsed (q_wheel q) <= t < 2 ^ 36 /\ 0 <= wh_elapsed (q_wheel q) /\
  wheel_rep (q_wheel q) (q_slab q) L /\ idle (wh_elapsed (q_wheel q)) (q_slab q) L /\
  (forall y, stored L y <-> is_Some (waiting (q_slab q) y)) /\ forall y u, waiting (q_slab q) y = Some u -> t <= u.

Lemma delay_at_ok q t L : delay_at q t L -> delay_ok q t.
Proof.
  intros (Hd & Ht & He & Hr & Hi & Hst & Hmin). split; [done|]. split; [done|]. split; [|done]. split; [lia|].
  exists L. split; [done|]. split; [done|]. intros x u. apply (polling_when (Poll_new t) (q_wheel q)); [|done].
  split; [done|]. cbn [po_now po_expiration Poll_new]. split; [lia|]. split; [lia|]. split; [apply Hi|by apply idle_calm].
Qed.

Lemma delay_ok_at q t : delay_ok q t -> exists L, delay_at q t L.
Proof.
  intros (Hd & Ht & (He & L & Hr & Hi & HA) & Hmin). exists L. split; [done|]. split; [done|]. split; [lia|]. split; [done|].
  split; [done|]. split; [|done]. intros y. by eapply models_stored.
Qed.

(** A round after the delay: the wheel is polled. *)
Definition round (elapsed : Z -> bool) (fuel : nat) : SE (DelayQueue Sl) Never (Async (option nat)) :=
  _ ← set_delay None;
  r ← on_poll (Wheel_poll (S fuel));
  match r with
  | Some idx => mret (Ready (Some idx))
  | None =>
      q ← get;
      match next_deadline q with
      | Some deadline => _ ← set_delay (Some deadline); poll_idx_loop elapsed fuel
      | None => mret (Ready None)
      end
  end.

Lemma loop_step elapsed fuel q :
  poll_idx_loop elapsed (S fuel) q =
  match q_delay q with
  | Some delay =>
      if elapsed delay then
        round elapsed fuel (MkDelayQueue (q_slab q) (q_wheel q) (q_expired q) (q_delay q)
          (Poll_new (ms (delay - q_start q) Down)) (q_start q))
      else (q, Ok Pending)
  | None => round elapsed fuel q
  end.
Proof.
  cbn [poll_idx_loop]. unfold mbind at 1, SE_bind at 1, get at 1. destruct (q_delay q) as [dl|]; [|done].
  by destruct (elapsed dl).
Qed.

Section Round.
Context (T : Z) (fuel : nat).
Abbreviation elapsed := (fun d => d <=? T).

Lemma round_spec q L :
  polling (q_poll q) (q_wheel q) (q_slab q) L -> (forall y, stored L y <-> is_Some (waiting (q_slab q) y)) ->
  seen q T -> (weight L + 1 <= fuel)%nat ->
  (forall q1 t L1, delay_at q1 t L1 -> po_now (q_poll q) < t -> seen q1 T -> (weight L1 <= weight L)%nat ->
     exists q' r, poll_idx_loop elapsed fuel q1 = (q', Ok r) /\ loop_post T q1 q' r) ->
  exists q' r, round elapsed fuel q = (q', Ok r) /\ loop_post T q q' r.
Proof.
  intros Hp Hst Hseen Hf IH. destruct (poll_spec (S fuel) _ _ _ _ Hp) as ([p1 [w1 s1]] & r & Hpoll & Hn & Hk & L1 & Hpost).
  { unfold poll_bound. destruct (po_expiration (q_poll q)); lia. }
  pose proof (keeps_Wheel_poll (S fuel) (q_poll q, (q_wheel q, q_slab q))) as Hkp. rewrite Hpoll in Hkp. cbn [fst snd] in Hkp.
  set (q1 := MkDelayQueue s1 w1 (q_expired q) None p1 (q_start q)).
  assert (seen q1 T) as Hseen1.
  { unfold seen in *. cbn [q1 q_start q_poll q_wheel]. rewrite Hn. split; [|lia].
    destruct r; [destruct Hpost as ((_ & ? & _) & _); lia|]. destruct Hpost as (-> & _ & ? & _). lia. }
  unfold round, set_delay. rewrite bind_modify. unfold on_poll. unfold mbind at 1, SE_bind at 1, zoom.
  cbn [q_poll q_wheel q_slab q_expired q_delay q_start]. rewrite Hpoll. cbn [fst snd]. fold q1. destruct r as [k|].
  - destruct Hpost as (Hp1 & Hu & Hx & Hst1 & Hw & t & Ht & Hle & Hmin).
    assert (forall y u, waiting (q_slab q) y = Some u <-> stored L y /\ st_when y (q_slab q) = Ok u) as HA
      by (intros; by eapply polling_when).
    exists q1, (Ready (Some k)). split; [done|]. split_and!; try done.
    + exists L1. split; [done|]. intros y. by rewrite Hst1, Hst.
    + exists t. split; [by apply HA|]. split; [unfold seen, from_millis in *; lia|]. intros y u [? ?]%HA. by eapply Hmin.
  - destruct Hpost as (-> & Hr1 & He1 & Hi1 & Hw1 & Hst1).
    assert (forall y, waiting s1 y = waiting (q_slab q) y) as Hwt by (intros y; by apply waiting_payload).
    assert (forall y, stored L1 y <-> is_Some (waiting s1 y)) as Hst1' by (intros y; by rewrite Hst1, Hst, Hwt).
    assert (polling (Poll_new (po_now (q_poll q))) w1 s1 L1) as Hp1.
    { split; [done|]. cbn [Poll_new po_now po_expiration]. destruct Hp as (_ & He & Hlt & _). rewrite He1. split; [lia|]. split; [done|].
      split; [apply Hi1|by apply idle_calm]. }
    assert (models w1 s1 (waiting s1)) as Hm.
    { split; [destruct Hp as (_ & He & Hlt & _); lia|]. exists L1. split; [done|]. rewrite He1. split; [done|].
      intros x t. by eapply polling_when. }
    unfold mbind at 1, SE_bind at 1, get at 1. pose proof (next_deadline_ok q1 Hm) as Hnext.
    destruct (next_deadline q1) as [dl|].
    + destruct Hnext as (t & Hlt & Hd). cbn [q1 q_wheel] in Hlt. unfold set_delay. rewrite bind_modify.
      set (q2 := MkDelayQueue _ _ _ (Some dl) _ _) in *.
      destruct (IH q2 t L1) as (q' & r & Hloop & Hpost); [|lia|done|done|].
      { destruct Hd as (Hd & Ht & _ & Hmin). split; [done|]. cbn [q2 q1 q_wheel q_slab] in *. split; [done|].
        destruct Hp as (_ & He & _). split; [lia|]. split; [done|]. split; [by rewrite He1|]. done. }
      exists q', r. split; [exact Hloop|]. eapply loop_post_trans; [..|exact Hpost]; done.
    + exists q1, (Ready None). split; [done|]. split_and!; try done.
      * split; [done|]. exists L1. done.
      * intros y. rewrite <- Hwt. apply Hnext.
Qed.
End Round.

Lemma loop_delay T n : forall q t L fuel,
  delay_at q t L -> seen q T -> 2 ^ 36 - t <= Z.of_nat n -> (n + weight L + 2 <= fuel)%nat ->
  exists q' r, poll_idx_loop (fun d => d <=? T) fuel q = (q', Ok r) /\ loop_post T q q' r.
Proof.
  induction n as [|n IH]; intros q t L fuel Hat Hseen Hn Hf; pose proof Hat as (Hd & Ht & He & Hr & Hi & Hst & Hmin); [lia|].
  destruct fuel as [|fuel]; [lia|]. rewrite loop_step, Hd. cbv beta. destruct (Z.leb_spec (q_start q + from_millis t) T) as [Hle|Hgt].
  - replace (q_start q + from_millis t - q_start q) with (from_millis t) by lia. rewrite ms_from_millis by lia.
    rewrite <- Hd. set (q0 := MkDelayQueue _ _ _ _ (Poll_new t) _).
    destruct (round_spec T fuel q0 L) as (q' & r & Hround & Hpost).
    { split; [done|]. cbn [q0 q_poll q_wheel po_now Poll_new po_expiration]. split; [lia|]. split; [lia|]. split; [apply Hi|by apply idle_calm]. }
    { done. }
    { split; [cbn [q0 q_wheel q_poll Poll_new po_now]; lia|done]. }
    { lia. }
    { intros q1 t1 L1 Hat1 Hlt Hs1 Hw1. cbn [q0 q_poll Poll_new po_now] in Hlt. apply (IH q1 t1 L1 fuel); [done|done|lia|lia]. }
    exists q', r. split; [exact Hround|]. eapply loop_post_trans; [..|exact Hpost]; done.
  - exists q, Pending. split; [done|]. split_and!; try done; [exists t; by eapply delay_at_ok|].
    intros y u Hy. apply Hmin in Hy. unfold from_millis in *. lia.
Qed.

Lemma poll_idx_loop_spec T q :
  clock_ok q -> seen q T -> exists n, forall fuel, (n <= fuel)%nat ->
  exists q' r, poll_idx_loop (fun d => d <=? T) fuel q = (q', Ok r) /\ loop_post T q q' r.
Proof.
  intros [[t Ht]|(Hd & L & Hp & Hst)] Hseen.
  - destruct (delay_ok_at q t Ht) as [L HL]. exists (Z.to_nat (2 ^ 36 - t) + weight L + 2)%nat. intros fuel Hf.
    apply (loop_delay T (Z.to_nat (2 ^ 36 - t)) q t L); [done|done|lia|done].
  - exists (Z.to_nat (2 ^ 36) + weight L + 3)%nat. intros [|fuel] Hf; [lia|]. rewrite loop_step, Hd.
    apply (round_spec T fuel q L); [done|done|done|lia|]. intros q1 t1 L1 Hat1 Hlt Hs1 Hw1.
    apply (loop_delay T (Z.to_nat (2 ^ 36)) q1 t1 L1 fuel); [done|done| |lia].
    destruct Hat1 as (_ & Ht1 & He1 & _). lia.
Qed.

(** Entries that have been set aside as expired are due. *)
Definition punctual q : Prop :=
  wh_elapsed (q_wheel q) <= po_now (q_poll q) /\
  forall y v t, payload (q_slab q) y = Some (v, t, true) -> t <= wh_elapsed (q_wheel q).

(** What [poll_expired] promises at the time [T]. *)
Definition poll_promise (T : Z) q q' (r : Async (option (Expired V))) : Prop :=
  match r with
  | Ready (Some x) =>
      exists t b, payload (q_slab q) (x_key x) = Some (x_data x, t, b) /\ x_deadline x = q_start q + from_millis t /\
        x_deadline x <= T /\
        (forall y, payload (q_slab q') y = if decide (y = x_key x) then None else payload (q_slab q) y) /\
        (b = false -> forall y v u c, payload (q_slab q) y = Some (v, u, c) -> c = false /\ t <= u)
  | Ready None => forall y, payload (q_slab q) y = None /\ payload (q_slab q') y = None
  | Pending =>
      settled q' /\ forall y, payload (q_slab q') y = payload (q_slab q) y /\
        forall v t b, payload (q_slab q) y = Some (v, t, b) -> T < q_start q + from_millis t
  end.

Lemma poll_expired_idx elapsed fuel q q1 k d :
  poll_idx elapsed fuel q = (q1, Ok (Ready (Some k))) -> slab_get (q_slab q1) k = Some d ->
  poll_expired elapsed fuel q =
    (MkDelayQueue (slab_remove k (q_slab q1)) (q_wheel q1) (q_expired q1) (q_delay q1) (q_poll q1) (q_start q1),
     Ok (Ready (Some (MkExpired (d_inner d) (q_start q1 + from_millis (d_when d)) k)))).
Proof.
  intros Hp Hd. unfold poll_expired. rewrite (bind_eq _ _ _ _ _ Hp), (bind_eq _ _ _ _ _ (data_spec _ _ _ Hd)). done.
Qed.

Definition poll_works (T : Z) q (fuel : nat) : Prop :=
  exists q' r, poll_expired (fun d => d <=? T) fuel q = (q', Ok r) /\ queue_ok q' /\ punctual q' /\
    q_start q' = q_start q /\ q_start q' + from_millis (po_now (q_poll q')) <= T /\ poll_promise T q q' r.

(** An entry that has been set aside. *)
Lemma poll_flagged T q fuel k l :
  rep (q_slab q) (q_expired q) (k :: l) -> (forall y, y ∈ k :: l <-> flagged (q_slab q) y) ->
  clock_ok q -> punctual q -> seen q T -> poll_works T q fuel.
Proof.
  intros Hl Hin Hc [He Hpu] Hseen. destruct (pop_spec _ _ _ _ Hl) as (s1 & ex1 & Hpop & Hr1 & (d & Hd & _) & Hf1).
  pose proof (keeps_pop (q_expired q, q_slab q)) as Hk. rewrite Hpop in Hk. cbn [fst snd] in Hk.
  set (q1 := MkDelayQueue s1 (q_wheel q) ex1 (q_delay q) (q_poll q) (q_start q)).
  assert (poll_idx (fun d => d <=? T) fuel q = (q1, Ok (Ready (Some k)))) as Hidx.
  { unfold poll_idx, on_expired. unfold mbind, SE_bind, zoom. by rewrite Hpop. }
  destruct (proj1 (Hin k)) as (v & t & Hpk); [left|]. pose proof (get_payload _ _ _ Hd) as Hg. rewrite Hk, Hpk in Hg.
  injection Hg as Hv Ht _. pose proof (proj1 Hl) as Hnd. apply NoDup_cons in Hnd as [Hnk _].
  eexists _, _. split; [exact (poll_expired_idx _ _ q q1 k d Hidx Hd)|]. split; [|split; [|split; [done|split]]].
  - apply (queue_drop q1 k d l); [done|done| | |].
    + cbn [q1 q_slab]. intros y. rewrite (flagged_payload (q_slab q)), <- Hin, elem_of_cons by done.
      split; [|naive_solver]. intros Hy. split; [by right|]. by intros ->.
    + apply clock_undisturbed; [done| |intros y; by apply waiting_payload]. intros t' l' Hr' Hl'.
      apply Hf1; [done|]. intros x [u Hu]%Hl' Hxl. apply Hin, flagged_not_waiting in Hxl. congruence.
    + cbn [q1 q_slab]. rewrite (waiting_payload (q_slab q)) by done. apply flagged_not_waiting. by exists v, t.
  - split; [done|]. cbn [q_slab q_wheel q1]. intros y v' t' Hy. rewrite (payload_removed _ _ _ _ Hd) in Hy. case_decide; [done|].
    rewrite Hk in Hy. by eapply Hpu.
  - apply Hseen.
  - exists t, true. cbn [x_key x_data x_deadline q1 q_start q_slab]. rewrite <- Hv, <- Ht. split_and!; try done.
    + destruct Hseen as [_ HT]. pose proof (Hpu k v t Hpk). unfold from_millis in *. lia.
    + intros y. rewrite (payload_removed _ _ _ _ Hd). by case_decide.
Qed.

(** No entry has been set aside: the wheel decides. *)
Section Unflagged.
Context (T : Z) (q q1 : DelayQueue Sl) (fuel : nat).
Hypothesis Hl : rep (q_slab q) (q_expired q) [].
Hypothesis Hin : forall y, ~ flagged (q_slab q) y.

Lemma unflagged_waiting y v t b :
  payload (q_slab q) y = Some (v, t, b) -> b = false /\ waiting (q_slab q) y = Some t.
Proof.
  intros Hy. destruct b; [exfalso; apply (Hin y); by exists v, t|]. split; [done|]. apply waiting_some. by exists v.
Qed.
Lemma unflagged_idx elapsed : poll_idx elapsed fuel q = poll_idx_loop elapsed fuel q.
Proof.
  unfold poll_idx, on_expired. unfold mbind, SE_bind, zoom. rewrite (pop_nil_spec _ _ Hl). cbn [fst snd]. by destruct q.
Qed.
Lemma unflagged_after : q_expired q1 = q_expired q -> (forall y, payload (q_slab q1) y = payload (q_slab q) y) ->
  (forall y, ~ flagged (q_slab q1) y) /\ expired_rep (q_expired q1) (q_slab q1).
Proof.
  intros Hex Hpay. assert (forall y, ~ flagged (q_slab q1) y) as Hin1 by (intros y; by rewrite (flagged_payload (q_slab q))).
  split; [done|]. exists []. split; [rewrite Hex; destruct Hl as [_ Hs]; by split; [constructor|]|].
  intros y. split; [inversion 1|]. by intros ?%Hin1.
Qed.
Lemma unflagged_punctual q2 :
  (forall y, ~ flagged (q_slab q2) y) -> wh_elapsed (q_wheel q2) <= po_now (q_poll q2) -> punctual q2.
Proof. intros Hn He. split; [done|]. intros y v t Hy. exfalso. apply (Hn y). by exists v, t. Qed.

Lemma poll_ready k :
  poll_idx_loop (fun d => d <=? T) fuel q = (q1, Ok (Ready (Some k))) -> loop_post T q q1 (Ready (Some k)) ->
  poll_works T q fuel.
Proof.
  intros Hloop (Hst & Hex & Hseen & Hpay & Hd & (d & Hdk & _) & (L & Hp & HL) & t & Hk & HT & Hmin).
  rewrite <- unflagged_idx in Hloop. destruct (unflagged_after Hex Hpay) as [Hin1 Hexp1].
  apply waiting_some in Hk as (v & Hk). pose proof (get_payload _ _ _ Hdk) as Hg. rewrite Hpay, Hk in Hg.
  injection Hg as Hv Ht _. pose proof (slab_remove_changed _ _ _ Hdk) as Hch.
  assert (forall y, payload (slab_remove k (q_slab q1)) y = if decide (y = k) then None else payload (q_slab q) y) as Hrm.
  { intros y. rewrite (payload_removed _ _ _ _ Hdk). by case_decide. }
  assert (forall y, ~ flagged (slab_remove k (q_slab q1)) y) as Hin2.
  { intros y (v' & t' & Hy). rewrite Hrm in Hy. case_decide; [done|]. apply (Hin y). by exists v', t'. }
  eexists _, _. split; [exact (poll_expired_idx _ _ q q1 k d Hloop Hdk)|].
  split; [split|split; [|split; [done|split; [apply Hseen|]]]].
  - cbn [q_expired q_slab]. by eapply expired_rep_changed; [exact Hexp1|exact Hch|..].
  - right. split; [done|]. exists L. cbn [q_poll q_wheel q_slab]. split.
    + eapply polling_undisturbed; [|exact Hp]. split.
      * intros t' l' Hr' Hl'. change (rep (slab_remove k (q_slab q1)) t' l').
        eapply changed_at_rep; [exact Hch|exact Hr'|]. intros Hkl. by apply Hl', HL in Hkl as [_ ?].
      * intros x Hx. apply (changed_at_when k); [done|]. by apply HL in Hx as [_ ?].
    + intros y. rewrite HL. unfold waiting at 2. rewrite Hrm. case_decide as Hy; [|unfold waiting; naive_solver].
      subst. split; [naive_solver|]. by intros [? ?].
  - apply unflagged_punctual; [done|]. apply Hseen.
  - exists t, false. cbn [x_key x_data x_deadline q_slab]. rewrite <- Hv, <- Ht, Hst. split_and!; try done.
    intros _ y v' u c Hy. apply unflagged_waiting in Hy as [-> Hy]. split; [done|]. by eapply Hmin.
Qed.

Lemma poll_unflagged r :
  poll_idx_loop (fun d => d <=? T) fuel q = (q1, Ok r) -> loop_post T q q1 r -> poll_works T q fuel.
Proof.
  intros Hloop Hpost. destruct r as [[k|]|]; [by eapply poll_ready|..]; rewrite <- unflagged_idx in Hloop;
    destruct Hpost as (Hst & Hex & Hseen & Hpay & Hr); destruct (unflagged_after Hex Hpay) as [Hin1 Hexp1];
    (assert (punctual q1) as Hpu1 by (apply unflagged_punctual; [done|apply Hseen])).
  - destruct Hr as [Hd He]. exists q1, (Ready None). unfold poll_expired. rewrite (bind_eq _ _ _ _ _ Hloop).
    split; [done|]. split; [split; [done|by right]|]. split; [done|]. split; [done|]. split; [apply Hseen|].
    intros y. rewrite Hpay. destruct (payload (q_slab q) y) as [[[v t] b]|] eqn:Hy; [|done].
    apply unflagged_waiting in Hy as [_ Hy]. by rewrite He in Hy.
  - destruct Hr as [[t Hd] He]. exists q1, Pending. unfold poll_expired. rewrite (bind_eq _ _ _ _ _ Hloop).
    split; [done|]. split; [split; [done|left; by exists t]|]. split; [done|]. split; [done|]. split; [apply Hseen|].
    split; [left; by rewrite (proj1 Hd)|]. intros y. split; [done|]. intros v u b Hy.
    apply unflagged_waiting in Hy as [_ Hy]. by eapply He.
Qed.
End Unflagged.

Lemma poll_expired_spec T q :
  queue_ok q -> punctual q -> q_start q + from_millis (po_now (q_poll q)) <= T ->
  exists n, forall fuel, (n <= fuel)%nat -> poll_works T q fuel.
Proof.
  intros [(l & Hl & Hin) Hc] Hpu HT. assert (seen q T) as Hseen by (split; [apply Hpu|done]). destruct l as [|k l].
  - destruct (poll_idx_loop_spec T q Hc Hseen) as (n & Hn). exists n. intros fuel Hf.
    destruct (Hn fuel Hf) as (q1 & r & Hloop & Hpost). eapply (poll_unflagged T q q1); [done| |exact Hloop|exact Hpost].
    intros y Hy. apply Hin in Hy. inversion Hy.
  - exists 0%nat. intros fuel _. by eapply poll_flagged.
Qed.

(** ** All operations *)

Lemma queue_new now : queue_ok (DelayQueue_new now) /\ punctual (DelayQueue_new now) /\
  forall y, payload (q_slab (DelayQueue_new now)) y = None.
Proof.
  assert (forall y, payload slab_new y = None) as Hn by (intros y; unfold payload; by rewrite slab_new_get).
  assert (forall y, waiting slab_new y = None) as Hw by (intros y; unfold waiting; by rewrite Hn).
  split; [split|split; [split; [done|]; intros y v t; cbn [DelayQueue_new q_slab]; by rewrite Hn|done]].
  - exists []. split; [by split; [constructor|]|]. intros y. split; [inversion 1|]. intros (v & t & Hy).
    cbn [DelayQueue_new q_slab] in Hy. by rewrite Hn in Hy.
  - right. split; [done|]. destruct (wheel_models_new slab_new) as (He & L & Hr & Hi & HA).
    exists L. cbn [DelayQueue_new q_poll q_wheel q_slab]. split.
    + split; [exact Hr|]. cbn [Poll_new po_now po_expiration Wheel_new wh_elapsed]. split; [lia|]. split; [lia|].
      split; [apply Hi|by apply idle_calm].
    + intros y. rewrite Hw. rewrite (models_stored _ L slab_new (fun _ => None) y Hi HA). done.
Qed.

Lemma punctual_set q q' k v t :
  punctual q -> q_poll q' = q_poll q -> wh_elapsed (q_wheel q') = wh_elapsed (q_wheel q) ->
  payload (q_slab q') k = Some (v, t, t <=? wh_elapsed (q_wheel q)) ->
  (forall y, y <> k -> payload (q_slab q') y = payload (q_slab q) y) -> punctual q'.
Proof.
  intros [He Hp] Hpo Hel Hk Hy. split; [by rewrite Hpo, Hel|]. intros y v' t' Hy'. rewrite Hel.
  destruct (decide (y = k)) as [->|Hne]; [|rewrite Hy in Hy' by done; by eapply Hp].
  rewrite Hk in Hy'. injection Hy' as <- <- Hle%Z.leb_le. done.
Qed.
Lemma punctual_drop q q' k : punctual q -> dropped q k q' -> punctual q'.
Proof.
  intros [He Hp] (_ & Hpo & _ & Hel & Hy). split; [by rewrite Hpo, Hel|]. intros y v t. rewrite Hy, Hel. case_decide; [done|]. apply Hp.
Qed.

Lemma queue_remove_spec q k v t b :
  queue_ok q -> payload (q_slab q) k = Some (v, t, b) -> b = true \/ q_delay q <> None ->
  exists q', DelayQueue_remove k q = (q', Ok (MkExpired v (q_start q + from_millis t) k)) /\ queue_ok q' /\ dropped q k q'.
Proof.
  intros Hok (d & Hd & <- & <- & Hb)%payload_get Hs. destruct b; [by apply remove_flagged|].
  destruct Hok as [Hex [[u Hu]|[Hn _]]]; [by eapply remove_waiting|]. by destruct Hs.
Qed.
End Queue.


Import ModelSlab.


(** ** Due entries that are still in the wheel *)

Section Due.
Context {V : Type}.
Abbreviation Q := (SE (DelayQueue (gmap nat (Data V))) Never).
Definition poll_at_ms (n : Z) : Q (Async (option (Expired V))) := poll_expired (fun d => d <=? from_millis n) 100.

(** Two entries are due at [n] ms, and one of them is handed out. *)
Definition one_of_two (n : Z) (a b : V) : Q (nat * nat * Async (option (Expired V))) :=
  ka ← insert_at a (from_millis n);
  kb ← insert_at b (from_millis n);
  r ← poll_at_ms n;
  mret (ka, kb, r).

Definition insert_while_due (a b c : V) : Q (Async (option (Expired V))) :=
  _ ← one_of_two 50 a b;
  _ ← insert_at c (from_millis 1000);
  poll_at_ms 900.
Definition remove_while_due (a b : V) : Q (Expired V) :=
  r ← one_of_two 64 a b;
  DelayQueue_remove r.1.2.
End Due.

(** While entries are due that have not been handed out yet, the queue is fragile.
    Adding an entry with a later deadline makes the due ones wait for that deadline:
    at 900 ms the queue still holds back an entry that was due at 50 ms.  Removing an
    entry whose time the wheel has just reached panics. *)
Theorem due_entries_mishandled {V : Type} (a b c : V) :
  (one_of_two 50 a b (DelayQueue_new 0)).2 = Ok (0%nat, 1%nat, Ready (Some (MkExpired b (from_millis 50) 1%nat))) /\
  (insert_while_due a b c (DelayQueue_new 0)).2 = Ok Pending /\
  (one_of_two 64 a b (DelayQueue_new 0)).2 = Ok (0%nat, 1%nat, Ready (Some (MkExpired a (from_millis 64) 0%nat))) /\
  (remove_while_due a b (DelayQueue_new 0)).2 = Panic.
Proof. split_and!; vm_compute; reflexivity. Qed.

(** ** The wheel at the stacks of the queue *)

Definition sample_slab : gmap nat (Data Z) := {[0%nat := MkData 7 70 false None None]}.
Definition sample_wheel (elapsed : Z) : Wheel DStack :=
  MkWheel elapsed (wh_levels (Wheel_new (ST:=DStack_Stack (Sl:=gmap nat (Data Z))))).

Lemma wheel_refines_timers_witness :
  exists w s, Wheel_insert 70 0%nat (sample_wheel 0, sample_slab) = ((w, s), Ok None) /\
  exists fuel w' s', poll_all fuel (Poll_new 100, (w, s)) = ((Poll_new 100, (w', s')), Ok [0%nat]).
Proof.
  pose proof (wheel_refines_timers (SL:=DStack_laws) (sample_wheel 0) sample_slab (fun _ => None) (wheel_models_new _)) as (Hins & _).
  destruct (Hins 0%nat 70) as (w & s & Hi & Hm).
  - exists (MkData 7 70 false None None). done.
  - done.
  - done.
  - simpl. lia.
  - exists w, s. split; [done|]. pose proof (wheel_refines_timers _ _ _ Hm) as (_ & _ & Hpoll & _).
    destruct (Hpoll 100) as (n & Hn).
    { assert (wh_elapsed w = 0) as ->; [|lia]. vm_compute in Hi. by injection Hi as <- _. }
    destruct (Hn n ltac:(lia)) as (w' & s' & out & ts & Hp & Hnd & _ & _ & Hout & _).
    exists n, w', s'. rewrite Hp. do 2 f_equal.
    assert (out ≡ₚ [0%nat]) as HP; [|by apply Permutation_singleton_r in HP].
    apply NoDup_Permutation; [done|apply NoDup_singleton|]. intros x. rewrite Hout, list_elem_of_singleton. split.
    + intros (t & Ht & _). case_decide; [done|discriminate].
    + intros ->. exists 70. split; [done|lia].
Defined.

Lemma insert_across_span_panics_witness :
  Wheel_insert (2 ^ 36 + 5) 0%nat (sample_wheel 1000, sample_slab) = ((sample_wheel 1000, sample_slab), Panic).
Proof.
  apply (insert_across_span_panics (sample_wheel 1000) sample_slab 0%nat (2 ^ 36 + 5)).
  - reflexivity.
  - simpl. lia.
  - lia.
  - vm_compute. discriminate.
Defined.
