(* ===== verification/HeadersFrame.v ===== *)
(** * HEADERS, PUSH_PROMISE and CONTINUATION ([http/h2/frame/headers.rs])

    The flags, the payload layout with padding and stream dependency, and the
    header block that collects decoded fields and pseudo headers under
    [SETTINGS_MAX_HEADER_LIST_SIZE].  The [http] crate's [HeaderMap] is a
    multimap given by [HeaderMapOps].

    The second part writes these frames. *)

From Stdlib Require Import String.
From S2P Require Import Prelude Bytes H2Types Huffman HttpTypes Frames HpackPrim HpackDecoder HpackTable.
From S2P Require Import HpackEncoder.

(** ** [http::HeaderMap] *)

(** A map has at most [2 ^ 15] slots, of which three quarters can be in use; an [append]
    that needs more panics. *)
Definition HM_USABLE : Z := 24576.

(** The entries in iteration order; appending adds one entry, after the
    earlier values of the same name.  [hm_room] says whether appending does not panic,
    which is so at least while there are fewer than [HM_USABLE] entries. *)
Class HeaderMapOps `{HT : HttpTypes} := {
  HeaderMap : Type;
  hm_new : HeaderMap;
  hm_room : HeaderMap -> HeaderName -> bool;
  hm_append : HeaderMap -> HeaderName -> HeaderValue -> HeaderMap;
  hm_iter : HeaderMap -> list (HeaderName * HeaderValue);
  hm_iter_new : hm_iter hm_new = [];
  hm_room_below m n : len (hm_iter m) < HM_USABLE -> hm_room m n = true;
  hm_iter_append m n v : hm_room m n = true -> hm_iter (hm_append m n v) ≡ₚ (n, v) :: hm_iter m;
  hm_append_values m n v n' :
    hm_room m n = true ->
    filter (fun e => e.1 = n') (hm_iter (hm_append m n v)) =
    filter (fun e => e.1 = n') (hm_iter m) ++ (if decide (n = n') then [(n, v)] else []);
}.
Definition hm_is_empty `{HeaderMapOps} (m : HeaderMap) : bool :=
  match hm_iter m with [] => true | _ => false end.

(** A model that keeps the entries in insertion order and is full with [HM_USABLE]. *)
#[export] Program Instance model_header_map `{HT : HttpTypes} : HeaderMapOps := {|
  HeaderMap := list (HeaderName * HeaderValue);
  hm_new := [];
  hm_room m n := len m <? HM_USABLE;
  hm_append m n v := m ++ [(n, v)];
  hm_iter m := m;
|}.
Next Obligation. done. Qed.
Next Obligation. intros HT m n. simpl. apply Z.ltb_lt. Qed.
Next Obligation. intros HT m n v _. simpl. by rewrite Permutation_app_comm. Qed.
Next Obligation.
  intros HT m n v n' _. simpl. by rewrite filter_app.
Qed.

(** ** Flags *)

Definition END_STREAM : Z := 0x1.
Definition END_HEADERS : Z := 0x4.
Definition PADDED : Z := 0x8.
Definition PRIORITY : Z := 0x20.

(** [http/h2/frame/headers.rs] HeadersFlag *)
Record HeadersFlag := MkHeadersFlag { headers_flag_bits : Z }.

Module HeadersFlag.

(** [http/h2/frame/headers.rs] HeadersFlag::is_end_stream *)
Definition is_end_stream (f : HeadersFlag) : bool :=
  Z.land (headers_flag_bits f) END_STREAM =? END_STREAM.
(** [http/h2/frame/headers.rs] HeadersFlag::set_end_stream *)
Definition set_end_stream (f : HeadersFlag) : HeadersFlag :=
  MkHeadersFlag (Z.lor (headers_flag_bits f) END_STREAM).
(** [http/h2/frame/headers.rs] HeadersFlag::is_end_headers *)
Definition is_end_headers (f : HeadersFlag) : bool :=
  Z.land (headers_flag_bits f) END_HEADERS =? END_HEADERS.
(** [http/h2/frame/headers.rs] HeadersFlag::set_end_headers *)
Definition set_end_headers (f : HeadersFlag) : HeadersFlag :=
  MkHeadersFlag (Z.lor (headers_flag_bits f) END_HEADERS).
(** [http/h2/frame/headers.rs] HeadersFlag::is_padded *)
Definition is_padded (f : HeadersFlag) : bool :=
  Z.land (headers_flag_bits f) PADDED =? PADDED.
(** [http/h2/frame/headers.rs] HeadersFlag::is_priority *)
Definition is_priority (f : HeadersFlag) : bool :=
  Z.land (headers_flag_bits f) PRIORITY =? PRIORITY.
(** [http/h2/frame/headers.rs] HeadersFlag as Default::default *)
Definition default : HeadersFlag := MkHeadersFlag END_HEADERS.

End HeadersFlag.

(** [http/h2/frame/headers.rs] PushPromiseFlag *)
Record PushPromiseFlag := MkPushPromiseFlag { push_promise_flag_bits : Z }.

Module PushPromiseFlag.

(** [http/h2/frame/headers.rs] PushPromiseFlag::is_end_headers *)
Definition is_end_headers (f : PushPromiseFlag) : bool :=
  Z.land (push_promise_flag_bits f) END_HEADERS =? END_HEADERS.
(** [http/h2/frame/headers.rs] PushPromiseFlag::set_end_headers *)
Definition set_end_headers (f : PushPromiseFlag) : PushPromiseFlag :=
  MkPushPromiseFlag (Z.lor (push_promise_flag_bits f) END_HEADERS).
(** [http/h2/frame/headers.rs] PushPromiseFlag::is_padded *)
Definition is_padded (f : PushPromiseFlag) : bool :=
  Z.land (push_promise_flag_bits f) PADDED =? PADDED.
(** [http/h2/frame/headers.rs] PushPromiseFlag as Default::default *)
Definition default : PushPromiseFlag := MkPushPromiseFlag END_HEADERS.

End PushPromiseFlag.

(** ** Numbers *)

(** The loop of [parse_u64]. *)
Fixpoint parse_u64_loop (ret : Z) (src : list Z) : outcome () Z :=
  match src with
  | [] => Ok ret
  | d :: src =>
      if (d <? 48) || (57 <? d) then Err tt
      else parse_u64_loop (as_u64 (as_u64 (ret * 10) + (d - 48))) src
  end.

(** [http/h2/frame/headers.rs] parse_u64 *)
Definition parse_u64 (src : list Z) : outcome () Z :=
  if 19 <? len src then Err tt else parse_u64_loop 0 src.

(** [http/h2/frame/headers.rs] decoded_header_size *)
Definition decoded_header_size (name value : Z) : Z := name + value + 32.

(** [http/h2/frame/headers.rs] MAX_HEADER_LENGTH *)
Definition MAX_HEADER_LENGTH : Z := 1024 * 16 - 100.

Section Headers.
Context `{HM : HeaderMapOps}.

(** [http/h2/frame/headers.rs] Pseudo *)
Record Pseudo := MkPseudo {
  p_method : option Method;
  p_scheme : option BytesStr;
  p_authority : option BytesStr;
  p_path : option BytesStr;
  p_status : option StatusCode;
}.

(** The derived [Default]. *)
Definition Pseudo_default : Pseudo := MkPseudo None None None None None.

(** [http/h2/frame/headers.rs] Pseudo::response *)
Definition Pseudo_response (status : StatusCode) : Pseudo :=
  MkPseudo None None None None (Some status).

Definition set_p_method (v : Method) (p : Pseudo) : Pseudo :=
  MkPseudo (Some v) (p_scheme p) (p_authority p) (p_path p) (p_status p).
Definition set_p_scheme (v : BytesStr) (p : Pseudo) : Pseudo :=
  MkPseudo (p_method p) (Some v) (p_authority p) (p_path p) (p_status p).
(** [http/h2/frame/headers.rs] Pseudo::set_authority *)
Definition set_p_authority (v : BytesStr) (p : Pseudo) : Pseudo :=
  MkPseudo (p_method p) (p_scheme p) (Some v) (p_path p) (p_status p).
Definition set_p_path (v : BytesStr) (p : Pseudo) : Pseudo :=
  MkPseudo (p_method p) (p_scheme p) (p_authority p) (Some v) (p_status p).
Definition set_p_status (v : StatusCode) (p : Pseudo) : Pseudo :=
  MkPseudo (p_method p) (p_scheme p) (p_authority p) (p_path p) (Some v).

(** [http/h2/frame/headers.rs] HeaderBlock *)
Record HeaderBlock := MkHeaderBlock {
  hb_fields : HeaderMap;
  hb_is_over_size : bool;
  hb_pseudo : Pseudo;
}.

(** [http/h2/frame/headers.rs] Headers *)
Record Headers := MkHeaders {
  h_stream_id : StreamId;
  h_stream_dep : option StreamDependency;
  h_header_block : HeaderBlock;
  h_flags : HeadersFlag;
}.

(** [http/h2/frame/headers.rs] PushPromise *)
Record PushPromise := MkPushPromise {
  pp_stream_id : StreamId;
  pp_promised_id : StreamId;
  pp_header_block : HeaderBlock;
  pp_flags : PushPromiseFlag;
}.

Definition empty_block : HeaderBlock := MkHeaderBlock hm_new false Pseudo_default.

(** ** The header list size *)

Definition name_len (s : string) : Z := len (bytes_of_string s).

(** The [pseudo_size!] macro: [stringify!(name).len() + 1]. *)
Definition pseudo_size {A} (name : string) (o : option A) (val_len : A -> Z) : Z :=
  from_option (fun m => decoded_header_size (name_len name + 1) (val_len m)) 0 o.

Definition fields_size (fields : list (HeaderName * HeaderValue)) : Z :=
  foldr (fun e acc => decoded_header_size (len (name_as_ref e.1)) (len (value_as_ref e.2)) + acc)
    0 fields.

(** [http/h2/frame/headers.rs] HeaderBlock::calculate_header_list_size *)
Definition calculate_header_list_size (b : HeaderBlock) : Z :=
  let p := hb_pseudo b in
  pseudo_size "method" (p_method p) (fun m => len (method_as_ref m))
  + pseudo_size "scheme" (p_scheme p) (fun m => len (bytes_str m))
  + pseudo_size "status" (p_status p) (fun m => len (status_as_str m))
  + pseudo_size "authority" (p_authority p) (fun m => len (bytes_str m))
  + pseudo_size "path" (p_path p) (fun m => len (bytes_str m))
  + fields_size (hm_iter (hb_fields b)).

(** [http/h2/frame/headers.rs] HeaderBlock::has_too_big_field *)
Definition has_too_big_field (b : HeaderBlock) : bool :=
  let p := hb_pseudo b in
  if MAX_HEADER_LENGTH <? pseudo_size "method" (p_method p) (fun m => len (method_as_ref m))
  then true
  else if MAX_HEADER_LENGTH <? pseudo_size "scheme" (p_scheme p) (fun m => len (bytes_str m))
  then true
  else if MAX_HEADER_LENGTH <? pseudo_size "authority" (p_authority p) (fun m => len (bytes_str m))
  then true
  else if MAX_HEADER_LENGTH <? pseudo_size "path" (p_path p) (fun m => len (bytes_str m))
  then true
  else existsb (fun e => MAX_HEADER_LENGTH <?
         decoded_header_size (len (name_as_ref e.1)) (len (value_as_ref e.2)))
       (hm_iter (hb_fields b)).

(** ** Loading a header block *)

(** The variables that the callback of [HeaderBlock::load] captures, and whether it has
    panicked, which ends the call. *)
Record LoadState := MkLoadState {
  ls_block : HeaderBlock;
  ls_reg : bool;
  ls_malformed : bool;
  ls_headers_size : Z;
  ls_panicked : bool;
}.

Definition mark_malformed (s : LoadState) : LoadState :=
  MkLoadState (ls_block s) (ls_reg s) true (ls_headers_size s) (ls_panicked s).

(** Account [size] and either store the header or mark the block; [store] panics unless
    there is [room]. *)
Definition account (max_header_list_size size : Z) (room : HeaderBlock -> bool)
    (store : HeaderBlock -> HeaderBlock) (s : LoadState) : LoadState :=
  let headers_size := ls_headers_size s + size in
  let b := ls_block s in
  if headers_size <? max_header_list_size then
    MkLoadState (store b) (ls_reg s) (ls_malformed s) headers_size (ls_panicked s || negb (room b))
  else
    let b := if negb (hb_is_over_size b) then MkHeaderBlock (hb_fields b) true (hb_pseudo b) else b in
    MkLoadState b (ls_reg s) (ls_malformed s) headers_size (ls_panicked s).

(** The [set_pseudo!] macro.  Its size term is [stringify!($ident).len() + 1],
    where [$ident] is not a parameter of the macro: the six characters
    [$ident], whatever the field. *)
Definition set_pseudo {A} (max_header_list_size : Z) (field : Pseudo -> option A)
    (set : Pseudo -> Pseudo) (val_len : Z) (s : LoadState) : LoadState :=
  if ls_reg s then mark_malformed s
  else match field (hb_pseudo (ls_block s)) with
  | Some _ => mark_malformed s
  | None =>
      account max_header_list_size
        (decoded_header_size (name_len "$ident" + 1) val_len) (fun _ => true)
        (fun b => MkHeaderBlock (hb_fields b) (hb_is_over_size b) (set (hb_pseudo b))) s
  end.

(** Connection-level fields, which HTTP/2 messages must not carry. *)
Definition connection_level (name : HeaderName) : bool :=
  bool_decide (name = std_name CONNECTION) ||
  bool_decide (name = std_name TRANSFER_ENCODING) ||
  bool_decide (name = std_name UPGRADE) ||
  bool_decide (name_as_ref name = bytes_of_string "keep-alive") ||
  bool_decide (name_as_ref name = bytes_of_string "proxy-connection").

(** [http/h2/frame/headers.rs:843-880] the callback of HeaderBlock::load *)
Definition load_header (max_header_list_size : Z) (s : LoadState)
    (header : Header HeaderName) : LoadState :=
  match header with
  | HField name value =>
      if connection_level name then mark_malformed s
      else if bool_decide (name = std_name TE) &&
              negb (bool_decide (value_as_ref value = bytes_of_string "trailers"))
      then mark_malformed s
      else
        let s := MkLoadState (ls_block s) true (ls_malformed s) (ls_headers_size s) (ls_panicked s) in
        account max_header_list_size
          (decoded_header_size (len (name_as_ref name)) (len (value_as_ref value)))
          (fun b => hm_room (hb_fields b) name)
          (fun b => MkHeaderBlock (hm_append (hb_fields b) name value) (hb_is_over_size b)
                      (hb_pseudo b)) s
  | HAuthority v =>
      set_pseudo max_header_list_size p_authority (set_p_authority v) (len (bytes_str v)) s
  | HMethod v =>
      set_pseudo max_header_list_size p_method (set_p_method v) (len (method_as_ref v)) s
  | HScheme v =>
      set_pseudo max_header_list_size p_scheme (set_p_scheme v) (len (bytes_str v)) s
  | HPath v =>
      set_pseudo max_header_list_size p_path (set_p_path v) (len (bytes_str v)) s
  | HStatus v =>
      set_pseudo max_header_list_size p_status (set_p_status v) (len (status_as_str v)) s
  end.

Context `{BM : BytesMut B}.

(** [http/h2/frame/headers.rs] HeaderBlock::load *)
Definition HeaderBlock_load (max_header_list_size : Z) :
    SE (HeaderBlock * B * HDecoder) FrameError () := fun '(b, src, decoder) =>
  let s0 := MkLoadState b (negb (hm_is_empty (hb_fields b))) false
              (calculate_header_list_size b) false in
  let cursor := MkCursor src 0 in
  let '((decoder, cursor), s, res) :=
    decode_block (load_header max_header_list_size) ((decoder, cursor), s0) in
  let st := (ls_block s, cur_buf cursor, decoder) in
  if ls_panicked s then (st, Panic)
  else match res with
  | Ok _ => if ls_malformed s then (st, Err MalformedMessage) else (st, Ok tt)
  | Err e => (st, Err (Hpack e))
  | Panic => (st, Panic)
  end.

(** ** HEADERS *)

(** [http/h2/frame/headers.rs] Headers::new *)
Definition Headers_new (stream_id : StreamId) (pseudo : Pseudo) (fields : HeaderMap) : Headers :=
  MkHeaders stream_id None (MkHeaderBlock fields false pseudo) HeadersFlag.default.

(** [http/h2/frame/headers.rs] Headers::trailers *)
Definition Headers_trailers (stream_id : StreamId) (fields : HeaderMap) : Headers :=
  MkHeaders stream_id None (MkHeaderBlock fields false Pseudo_default)
    (HeadersFlag.set_end_stream HeadersFlag.default).

(** Dropping the padding at the end of a payload, common to both frames. *)
Definition drop_padding (pad : Z) (src : B) : outcome FrameError B :=
  if 0 <? pad then
    if len (buf_bytes src) <? pad then Err TooMuchPadding
    else Ok (bm_truncate src (Z.to_nat (len (buf_bytes src) - pad)))
  else Ok src.

(** Reading the padding length, common to both frames. *)
Definition read_pad_len (is_padded : bool) (src : B) : outcome FrameError (Z * B) :=
  if is_padded then
    if len (buf_bytes src) =? 0 then Err MalformedMessage
    else
      pad ← index (buf_bytes src) 0;
      Ok (pad, (bm_split_to src 1).2)
  else Ok (0, src).

(** [http/h2/frame/headers.rs] Headers::load *)
Definition Headers_load (head : Head) (src : B) : outcome FrameError (Headers * B) :=
  let flags := MkHeadersFlag (head_flag head) in
  '(pad, src) ← read_pad_len (HeadersFlag.is_padded flags) src;
  '(stream_dep, src) ←
    (if HeadersFlag.is_priority flags then
       if len (buf_bytes src) <? 5 then Err MalformedMessage
       else
         raw ← slice_to (buf_bytes src) 5;
         stream_dep ← StreamDependency_load raw;
         if decide (dependency_id stream_dep = head_stream_id head)
         then Err InvalidDependencyId
         else Ok (Some stream_dep, (bm_split_to src 5).2)
     else Ok (None, src));
  src ← drop_padding pad src;
  Ok (MkHeaders (head_stream_id head) stream_dep empty_block flags, src).

(** [http/h2/frame/headers.rs] Headers::load_hpack *)
Definition Headers_load_hpack (max_header_list_size : Z) :
    SE (Headers * B * HDecoder) FrameError () := fun '(h, src, decoder) =>
  let '((b, src, decoder), r) :=
    HeaderBlock_load max_header_list_size (h_header_block h, src, decoder) in
  ((MkHeaders (h_stream_id h) (h_stream_dep h) b (h_flags h), src, decoder), r).

(** [http/h2/frame/headers.rs] Headers::set_end_headers *)
Definition Headers_set_end_headers (h : Headers) : Headers :=
  MkHeaders (h_stream_id h) (h_stream_dep h) (h_header_block h)
    (HeadersFlag.set_end_headers (h_flags h)).

(** [http/h2/frame/headers.rs] Headers::set_end_stream *)
Definition Headers_set_end_stream (h : Headers) : Headers :=
  MkHeaders (h_stream_id h) (h_stream_dep h) (h_header_block h)
    (HeadersFlag.set_end_stream (h_flags h)).

(** [http/h2/frame/headers.rs] Headers::head *)
Definition Headers_head (h : Headers) : Head :=
  Head.new KHeaders (headers_flag_bits (h_flags h)) (h_stream_id h).

(** ** PUSH_PROMISE *)

(** [http/h2/frame/headers.rs] PushPromise::new *)
Definition PushPromise_new (stream_id promised_id : StreamId) (pseudo : Pseudo)
    (fields : HeaderMap) : PushPromise :=
  MkPushPromise stream_id promised_id (MkHeaderBlock fields false pseudo)
    PushPromiseFlag.default.

(** [http/h2/frame/headers.rs] PushPromise::load *)
Definition PushPromise_load (head : Head) (src : B) : outcome FrameError (PushPromise * B) :=
  let flags := MkPushPromiseFlag (head_flag head) in
  '(pad, src) ← read_pad_len (PushPromiseFlag.is_padded flags) src;
  if len (buf_bytes src) <? 5 then Err MalformedMessage
  else
    raw ← slice_to (buf_bytes src) 4;
    '(promised_id, _) ← StreamId.parse raw;
    let src := (bm_split_to src 4).2 in
    src ← drop_padding pad src;
    Ok (MkPushPromise (head_stream_id head) promised_id empty_block flags, src).

(** [http/h2/frame/headers.rs] PushPromise::load_hpack *)
Definition PushPromise_load_hpack (max_header_list_size : Z) :
    SE (PushPromise * B * HDecoder) FrameError () := fun '(p, src, decoder) =>
  let '((b, src, decoder), r) :=
    HeaderBlock_load max_header_list_size (pp_header_block p, src, decoder) in
  ((MkPushPromise (pp_stream_id p) (pp_promised_id p) b (pp_flags p), src, decoder), r).

(** [http/h2/frame/headers.rs] PushPromise::set_end_headers *)
Definition PushPromise_set_end_headers (p : PushPromise) : PushPromise :=
  MkPushPromise (pp_stream_id p) (pp_promised_id p) (pp_header_block p)
    (PushPromiseFlag.set_end_headers (pp_flags p)).

(** [http/h2/frame/headers.rs] PushPromise::head *)
Definition PushPromise_head (p : PushPromise) : Head :=
  Head.new KPushPromise (push_promise_flag_bits (pp_flags p)) (pp_stream_id p).

End Headers.

(** * Writing header frames ([http/h2/frame/headers.rs])

    The order in which a header block is written, and the frames that carry it:
    HEADERS or PUSH_PROMISE and then CONTINUATION frames.  The head of a frame is
    written before its payload, with the length zero, and patched when the length is
    known. *)

Import HEncoder.

(** [http::HeaderMap::into_iter]: the name is given with the first value of a run of
    values and left out with the others. *)
Definition with_names `{HT : HttpTypes} : option HeaderName -> list (option HeaderName * HeaderValue) ->
    option (list (HeaderName * HeaderValue)) :=
  fix go last l :=
    match l with
    | [] => Some []
    | (Some n, v) :: l => cons (n, v) <$> go (Some n) l
    | (None, v) :: l => n ← last; cons (n, v) <$> go last l
    end.
Class HeaderMapIntoIter `{HM : HeaderMapOps} := {
  hm_into_iter : HeaderMap -> list (option HeaderName * HeaderValue);
  hm_into_iter_names m : exists l, with_names None (hm_into_iter m) = Some l /\
    (l ≡ₚ hm_iter m) /\ forall n, filter (fun e => e.1 = n) l = filter (fun e => e.1 = n) (hm_iter m);
}.

(** For the entries in insertion order: every name is given. *)
#[export] Program Instance model_into_iter `{HT : HttpTypes} : HeaderMapIntoIter (HM:=model_header_map) := {|
  hm_into_iter m := (fun e => (Some e.1, e.2)) <$> m
|}.
Next Obligation.
  intros HT m. exists m. split; [|done]. generalize (None : option HeaderName). induction m as [|[n v] m IH]; intros last; simpl; [done|].
  by rewrite IH.
Qed.

Section HeadersEncode.
Context `{HM : HeaderMapOps} {HI : HeaderMapIntoIter (HM:=HM)} {NH : NameHasher (HT:=HT)} `{BM : BytesMut B}.

(** ** The items of a header block *)

(** [http/h2/frame/headers.rs] Iter *)
Record Iter := MkIter { it_pseudo : option Pseudo; it_fields : list (option HeaderName * HeaderValue) }.

(** [http/h2/frame/headers.rs] Iter as Iterator::next *)
Definition Iter_next (it : Iter) : option (Header (option HeaderName)) * Iter :=
  let from_fields :=
    match it_fields it with
    | (name, value) :: fields => (Some (HField name value), MkIter None fields)
    | [] => (None, MkIter None [])
    end in
  match it_pseudo it with
  | Some p =>
      let rest p := MkIter (Some p) (it_fields it) in
      match p_method p, p_scheme p, p_authority p, p_path p, p_status p with
      | Some method, s, a, pa, st => (Some (HMethod method), rest (MkPseudo None s a pa st))
      | None, Some scheme, a, pa, st => (Some (HScheme scheme), rest (MkPseudo None None a pa st))
      | None, None, Some authority, pa, st => (Some (HAuthority authority), rest (MkPseudo None None None pa st))
      | None, None, None, Some path, st => (Some (HPath path), rest (MkPseudo None None None None st))
      | None, None, None, None, Some status => (Some (HStatus status), rest Pseudo_default)
      | None, None, None, None, None => from_fields
      end
  | None => from_fields
  end.

(** All that [next] will return: the argument of the HPACK encoder. *)
Definition pseudo_items (p : Pseudo) : list (Header (option HeaderName)) :=
  option_list (HMethod <$> p_method p) ++ option_list (HScheme <$> p_scheme p) ++
  option_list (HAuthority <$> p_authority p) ++ option_list (HPath <$> p_path p) ++
  option_list (HStatus <$> p_status p).
Definition Iter_items (it : Iter) : list (Header (option HeaderName)) :=
  from_option pseudo_items [] (it_pseudo it) ++ ((fun e => HField e.1 e.2) <$> it_fields it).

Lemma Iter_next_items it :
  Iter_items it = match Iter_next it with (Some h, it') => h :: Iter_items it' | (None, _) => [] end.
Proof.
  destruct it as [[[m s a p st]|] fields]; unfold Iter_next, Iter_items; cbn [it_pseudo it_fields p_method p_scheme p_authority p_path p_status];
    [destruct m as [m|]; [done|]; destruct s as [s|]; [done|]; destruct a as [a|]; [done|]; destruct p as [p|]; [done|];
     destruct st as [st|]; [done|]|]; by destruct fields as [|[n v] fields].
Qed.

(** ** Frames that carry a header block *)

(** [http/h2/frame/headers.rs] EncodingHeaderBlock.  The iterator is the list of the
    items that are left. *)
Record EncodingHeaderBlock := MkEncodingHeaderBlock {
  eb_hpack : option EncodeState;
  eb_headers : list (Header (option HeaderName))
}.

(** [http/h2/frame/headers.rs] Continuation *)
Record Continuation := MkContinuation { co_stream_id : StreamId; co_header_block : EncodingHeaderBlock }.

(** [http/h2/frame/headers.rs] HeaderBlock::into_encoding *)
Definition into_encoding (b : HeaderBlock) : EncodingHeaderBlock :=
  MkEncodingHeaderBlock None (Iter_items (MkIter (Some (hb_pseudo b)) (hm_into_iter (hb_fields b)))).

(** A write of [n] bytes into a limited buffer, which panics when there is no room. *)
Definition write_checked (n : Z) (f : Limit B -> Limit B) : SE (Limit B) Never () :=
  rem ← gets remaining_mut;
  _ ← lift (assert_ (n <=? rem));
  write f.

(** [dst[i..][..l.len()].copy_from_slice(l)] *)
Fixpoint set_bytes (i : Z) (l : list Z) : SE (Limit B) Never () :=
  match l with
  | [] => mret tt
  | x :: l => _ ← set_byte i x; set_bytes (i + 1) l
  end.

(** [http/h2/frame/headers.rs] EncodingHeaderBlock::encode *)
Definition EncodingHeaderBlock_encode (self : EncodingHeaderBlock) (head : Head) (f : SE (Limit B) Never ()) :
    SE (Encoder * Limit B) Never (option Continuation) :=
  head_pos ← gets (fun s => position s.2);
  _ ← on_dst (write_checked HEADER_LEN (Head.encode head 0));
  payload_pos ← gets (fun s => position s.2);
  _ ← on_dst f;
  '(r, headers) ← encode (eb_hpack self) (eb_headers self);
  let continuation :=
    match r with
    | Full => None
    | Partial state =>
        Some (MkContinuation (head_stream_id head) (MkEncodingHeaderBlock (Some state) headers))
    end in
  pos ← gets (fun s => position s.2);
  let payload_len := as_u64 (pos - payload_pos) in
  let payload_len_be := to_be_bytes 8 payload_len in
  _ ← lift (assert_ (forallb (fun b => b =? 0) (take 5 payload_len_be)));
  _ ← on_dst (set_bytes head_pos (drop 5 payload_len_be));
  _ ← (match continuation with
       | Some _ =>
           flag ← on_dst (get_byte (head_pos + 4));
           on_dst (set_byte (head_pos + 4) (as_u8 (flag - END_HEADERS)))
       | None => mret tt
       end);
  mret continuation.

(** [http/h2/frame/headers.rs] Headers::encode *)
Definition Headers_encode (h : Headers) : SE (Encoder * Limit B) Never (option Continuation) :=
  EncodingHeaderBlock_encode (into_encoding (h_header_block h)) (Headers_head h) (mret tt).

(** [http/h2/frame/headers.rs] PushPromise::encode *)
Definition PushPromise_encode (p : PushPromise) : SE (Encoder * Limit B) Never (option Continuation) :=
  EncodingHeaderBlock_encode (into_encoding (pp_header_block p)) (PushPromise_head p)
    (write_checked 4 (fun dst => put_u32 dst (stream_id_u32 (pp_promised_id p)))).

(** [http/h2/frame/headers.rs] Continuation::head *)
Definition Continuation_head (c : Continuation) : Head := Head.new KContinuation END_HEADERS (co_stream_id c).

(** [http/h2/frame/headers.rs] Continuation::encode *)
Definition Continuation_encode (c : Continuation) : SE (Encoder * Limit B) Never (option Continuation) :=
  EncodingHeaderBlock_encode (co_header_block c) (Continuation_head c) (mret tt).

(** ** Building requests *)

(** [http::uri::Parts], as the strings of its components *)
Record UriParts := MkUriParts {
  up_scheme : option (list Z);
  up_authority : option (list Z);
  up_path_and_query : option (list Z)
}.

(** [http/h2/frame/headers.rs] Pseudo::set_scheme *)
Definition Pseudo_set_scheme (scheme : list Z) (p : Pseudo) : Pseudo := set_p_scheme (MkBytesStr scheme) p.

(** [http/h2/frame/headers.rs] Pseudo::request *)
Definition Pseudo_request (method : Method) (parts : UriParts) : Pseudo :=
  let path := from_option id [] (up_path_and_query parts) in
  let path :=
    if bool_decide (path = []) && negb (bool_decide (method_as_ref method = bytes_of_string "OPTIONS"))
    then bytes_of_string "/" else path in
  let pseudo := MkPseudo (Some method) None None (Some (MkBytesStr path)) None in
  let pseudo := from_option (fun scheme => Pseudo_set_scheme scheme pseudo) pseudo (up_scheme parts) in
  from_option (fun authority => set_p_authority (MkBytesStr authority) pseudo) pseudo (up_authority parts).

(** [http/h2/frame/headers.rs] PushPromiseHeaderError *)
Inductive PushPromiseHeaderError :=
  | InvalidContentLength (r : outcome () Z)
  | NotSafeAndCacheable.

(** [http/h2/frame/headers.rs] PushPromise::safe_and_cacheable *)
Definition safe_and_cacheable (method : Method) : bool :=
  bool_decide (method = GET) || bool_decide (method_as_ref method = bytes_of_string "HEAD").

(** [http/h2/frame/headers.rs] PushPromise::validate_request, of the method and the
    headers of the request *)
Definition validate_request (method : Method) (headers : HeaderMap) : outcome PushPromiseHeaderError () :=
  _ ← match filter (fun e => e.1 = std_name CONTENT_LENGTH) (hm_iter headers) with
      | (_, content_length) :: _ =>
          let parsed_length := parse_u64 (value_as_ref content_length) in
          match parsed_length with
          | Ok 0 => Ok tt
          | _ => Err (InvalidContentLength parsed_length)
          end
      | [] => Ok tt
      end;
  if negb (safe_and_cacheable method) then Err NotSafeAndCacheable else Ok tt.

End HeadersEncode.
