(* ===== verification/FramedRead.v ===== *)
(** * Reading frames ([http/h2/codec/framed_read.rs])

    [decode_frame]: dispatch on the frame kind, header blocks that continue
    over CONTINUATION frames, and the error level (stream or connection) of
    everything that goes wrong. *)

From S2P Require Import Prelude Bytes H2Types Huffman HttpTypes Frames HpackPrim HpackDecoder HeadersFrame.

Section FramedRead.
Context `{HM : HeaderMapOps} `{BM : BytesMut B}.

(** [http/h2/frame/mod.rs] Frame *)
Inductive Frame :=
  | FData (f : Data B)
  | FHeaders (f : Headers)
  | FPriority (f : Priority)
  | FPushPromise (f : PushPromise)
  | FSettings (f : Settings)
  | FPing (f : Ping)
  | FGoAway (f : GoAway)
  | FWindowUpdate (f : WindowUpdate)
  | FReset (f : Reset).

(** [http/h2/codec/framed_read.rs] Continuable *)
Inductive Continuable :=
  | CHeaders (h : Headers)
  | CPushPromise (p : PushPromise).

(** [http/h2/codec/framed_read.rs] Partial *)
Record Partial := MkPartial { partial_frame : Continuable; partial_buf : B }.

(** [http/h2/codec/framed_read.rs] FramedRead, without the delimiting codec *)
Record FramedRead := MkFramedRead {
  fr_hpack : HDecoder (B:=B);
  fr_max_header_list_size : Z;
  fr_partial : option Partial;
}.

(** [http/h2/codec/framed_read.rs] DEFAULT_SETTINGS_MAX_HEADER_LIST_SIZE *)
Definition DEFAULT_SETTINGS_MAX_HEADER_LIST_SIZE : Z := Z.shiftl 16 20.

(** [http/h2/codec/framed_read.rs] FramedRead::new *)
Definition FramedRead_new : FramedRead :=
  MkFramedRead (HDecoder_new DEFAULT_SETTINGS_HEADER_TABLE_SIZE)
    DEFAULT_SETTINGS_MAX_HEADER_LIST_SIZE None.

(** [http/h2/codec/framed_read.rs] FramedRead::set_max_header_list_size *)
Definition set_max_header_list_size (val : Z) (s : FramedRead) : FramedRead :=
  MkFramedRead (fr_hpack s) val (fr_partial s).

Definition set_hpack (d : HDecoder) (s : FramedRead) : FramedRead :=
  MkFramedRead d (fr_max_header_list_size s) (fr_partial s).
Definition set_partial (p : option Partial) (s : FramedRead) : FramedRead :=
  MkFramedRead (fr_hpack s) (fr_max_header_list_size s) p.

(** [http/h2/codec/framed_read.rs] Continuable::stream_id *)
Definition Continuable_stream_id (c : Continuable) : StreamId :=
  match c with CHeaders h => h_stream_id h | CPushPromise p => pp_stream_id p end.

(** [http/h2/codec/framed_read.rs] Continuable::is_over_size *)
Definition Continuable_is_over_size (c : Continuable) : bool :=
  match c with
  | CHeaders h => hb_is_over_size (h_header_block h)
  | CPushPromise p => hb_is_over_size (pp_header_block p)
  end.

(** [http/h2/codec/framed_read.rs] Continuable::load_hpack *)
Definition Continuable_load_hpack (max_header_list_size : Z) :
    SE (Continuable * B * HDecoder) FrameError () := fun '(c, src, decoder) =>
  match c with
  | CHeaders h =>
      let '((h, src, decoder), r) := Headers_load_hpack max_header_list_size (h, src, decoder) in
      ((CHeaders h, src, decoder), r)
  | CPushPromise p =>
      let '((p, src, decoder), r) :=
        PushPromise_load_hpack max_header_list_size (p, src, decoder) in
      ((CPushPromise p, src, decoder), r)
  end.

(** [http/h2/codec/framed_read.rs] Frame as From::from *)
Definition Frame_from_continuable (cont : Continuable) : Frame :=
  match cont with
  | CHeaders headers => FHeaders (Headers_set_end_headers headers)
  | CPushPromise push => FPushPromise (PushPromise_set_end_headers push)
  end.

(** Every frame error that [decode_frame] does not single out. *)
Definition conn_err {A} (r : outcome FrameError A) : outcome RecvError A :=
  map_err (fun _ => RecvConnection PROTOCOL_ERROR) r.

(** The result of [load_hpack] as both callers classify it. *)
Definition classify (id : StreamId) (is_end_headers : bool) (r : outcome FrameError ()) :
    outcome RecvError () :=
  match r with
  | Ok _ => Ok tt
  | Err (Hpack (NeedMore_ n)) =>
      if negb is_end_headers then Ok tt else Err (RecvConnection PROTOCOL_ERROR)
  | Err MalformedMessage => Err (RecvStream id PROTOCOL_ERROR)
  | Err _ => Err (RecvConnection PROTOCOL_ERROR)
  | Panic => Panic
  end.

(** The end of the [header_block!] macro: decode what is there, and return the
    frame or keep it for the CONTINUATION frames. *)
Definition header_block (head : Head) (is_end_headers : bool) (frame : Continuable)
    (into : Continuable -> Frame) (payload : B) : SE FramedRead RecvError (option Frame) :=
  s ← get;
  let '((frame, payload, hpack), r) :=
    Continuable_load_hpack (fr_max_header_list_size s) (frame, payload, fr_hpack s) in
  _ ← modify (set_hpack hpack);
  _ ← lift (classify (head_stream_id head) is_end_headers r);
  if is_end_headers then mret (Some (into frame))
  else
    _ ← modify (set_partial (Some (MkPartial frame payload)));
    mret None.

(** The error of [load] in the [header_block!] macro. *)
Definition load_err {A} (head : Head) (r : outcome FrameError A) : outcome RecvError A :=
  match r with
  | Ok a => Ok a
  | Err InvalidDependencyId => Err (RecvStream (head_stream_id head) PROTOCOL_ERROR)
  | Err _ => Err (RecvConnection PROTOCOL_ERROR)
  | Panic => Panic
  end.

(** [http/h2/codec/framed_read.rs:222-293] the CONTINUATION arm *)
Definition decode_continuation (head : Head) (bytes : B) :
    SE FramedRead RecvError (option Frame) :=
  let is_end_headers := Z.land (head_flag head) 0x4 =? 0x4 in
  s ← get;
  _ ← modify (set_partial None);
  match fr_partial s with
  | None => throw (RecvConnection PROTOCOL_ERROR)
  | Some partial =>
      let frame := partial_frame partial in
      if negb (bool_decide (Continuable_stream_id frame = head_stream_id head))
      then throw (RecvConnection PROTOCOL_ERROR)
      else
        let payload := drop (Z.to_nat HEADER_LEN) (buf_bytes bytes) in
        let old := partial_buf partial in
        let empty := len (buf_bytes old) =? 0 in
        if negb empty && Continuable_is_over_size frame &&
           (fr_max_header_list_size s <? len (buf_bytes old) + len (buf_bytes bytes))
        then throw (RecvConnection COMPRESSION_ERROR)
        else
          let buf := if empty then (bm_split_to bytes (Z.to_nat HEADER_LEN)).2
                     else put_slice old payload in
          let '((frame, buf, hpack), r) :=
            Continuable_load_hpack (fr_max_header_list_size s) (frame, buf, fr_hpack s) in
          _ ← modify (set_hpack hpack);
          _ ← lift (classify (head_stream_id head) is_end_headers r);
          if is_end_headers then mret (Some (Frame_from_continuable frame))
          else
            _ ← modify (set_partial (Some (MkPartial frame buf)));
            mret None
  end.

(** [http/h2/codec/framed_read.rs] FramedRead::decode_frame *)
Definition decode_frame (bytes : B) : SE FramedRead RecvError (option Frame) :=
  head ← lift (Head.parse (buf_bytes bytes));
  s ← get;
  if (match fr_partial s with Some _ => true | None => false end) &&
     negb (bool_decide (head_kind head = KContinuation))
  then throw (RecvConnection PROTOCOL_ERROR)
  else
    let payload := slice_from (buf_bytes bytes) HEADER_LEN in
    let rest := (bm_split_to bytes (Z.to_nat HEADER_LEN)).2 in
    match head_kind head with
    | KSettings =>
        p ← lift payload;
        f ← lift (conn_err (Settings.load head p));
        mret (Some (FSettings f))
    | KPing =>
        p ← lift payload;
        f ← lift (conn_err (Ping.load head p));
        mret (Some (FPing f))
    | KWindowUpdate =>
        p ← lift payload;
        f ← lift (conn_err (WindowUpdate.load head p));
        mret (Some (FWindowUpdate f))
    | KData =>
        f ← lift (conn_err (Data.load head rest));
        mret (Some (FData f))
    | KHeaders =>
        '(frame, payload) ← lift (load_err head (Headers_load head rest));
        header_block head (HeadersFlag.is_end_headers (h_flags frame)) (CHeaders frame)
          (fun c => match c with CHeaders h => FHeaders h | CPushPromise p => FPushPromise p end)
          payload
    | KReset =>
        p ← lift payload;
        f ← lift (conn_err (Reset.load head p));
        mret (Some (FReset f))
    | KGoAway =>
        p ← lift payload;
        f ← lift (conn_err (GoAway.load p));
        mret (Some (FGoAway f))
    | KPushPromise =>
        '(frame, payload) ← lift (load_err head (PushPromise_load head rest));
        header_block head (PushPromiseFlag.is_end_headers (pp_flags frame)) (CPushPromise frame)
          (fun c => match c with CHeaders h => FHeaders h | CPushPromise p => FPushPromise p end)
          payload
    | KPriority =>
        if bool_decide (head_stream_id head = StreamId.ZERO)
        then throw (RecvConnection PROTOCOL_ERROR)
        else
          p ← lift payload;
          f ← lift (load_err head (Priority_load head p));
          mret (Some (FPriority f))
    | KContinuation => decode_continuation head bytes
    | KUnknown => mret None
    end.

End FramedRead.
