(* ===== verification/HeadersFrameCorrect.v ===== *)
(** * Header blocks: correctness

    What [HeaderBlock::load] keeps stays within the header list limit, and on
    blocks within the limit it accepts exactly the lists of fields in the right order.
    Appending to the map can panic when the limit is above [SAFE_LIST_SIZE]. *)

From Stdlib Require Import String.
From S2P Require Import Prelude Bytes H2Types Huffman HttpTypes Frames HpackPrim HpackDecoder HpackDecoderCorrect HeadersFrame.

Section Block.
Context `{HM : HeaderMapOps}.
Implicit Types (h : Header HeaderName) (hs : list (Header HeaderName)) (s : LoadState).

(** ** The size of what is kept *)

Lemma fields_size_perm l l' : l ≡ₚ l' -> fields_size l = fields_size l'.
Proof. induction 1; simpl; lia. Qed.

Lemma fields_size_append m n v :
  hm_room m n = true ->
  fields_size (hm_iter (hm_append m n v)) =
  decoded_header_size (len (name_as_ref n)) (len (value_as_ref v)) + fields_size (hm_iter m).
Proof. intros Hr. by rewrite (fields_size_perm _ _ (hm_iter_append m n v Hr)). Qed.

Lemma calculate_append b n v :
  hm_room (hb_fields b) n = true ->
  calculate_header_list_size
    (MkHeaderBlock (hm_append (hb_fields b) n v) (hb_is_over_size b) (hb_pseudo b)) =
  decoded_header_size (len (name_as_ref n)) (len (value_as_ref v)) + calculate_header_list_size b.
Proof.
  intros Hr. unfold calculate_header_list_size. cbn [hb_fields hb_pseudo]. rewrite fields_size_append by done. ring.
Qed.

(** Every field counts for at least 32 bytes. *)
Lemma pseudo_size_nonneg {A} name (o : option A) val_len : (forall a, 0 <= val_len a) -> 0 <= pseudo_size name o val_len.
Proof.
  intros H. destruct o as [a|]; [|done]. unfold pseudo_size, decoded_header_size, name_len. cbn [from_option].
  specialize (H a). pose proof (len_nonneg (bytes_of_string name)). lia.
Qed.
Lemma fields_count b : 32 * len (hm_iter (hb_fields b)) <= calculate_header_list_size b.
Proof.
  assert (forall l : list (HeaderName * HeaderValue), 32 * len l <= fields_size l) as Hf.
  { induction l as [|e l IH]; [done|]. rewrite len_cons. simpl. unfold decoded_header_size.
    pose proof (len_nonneg (name_as_ref e.1)). pose proof (len_nonneg (value_as_ref e.2)). lia. }
  specialize (Hf (hm_iter (hb_fields b))). unfold calculate_header_list_size.
  repeat match goal with |- context [pseudo_size ?n ?o ?f] =>
    pose proof (pseudo_size_nonneg n o f (fun a => len_nonneg _)); generalize dependent (pseudo_size n o f); intros end. lia.
Qed.

(** The running total undercounts only [:authority], by three bytes. *)
Definition authority_extra (p : Pseudo) : Z :=
  match p_authority p with Some _ => 3 | None => 0 end.

Definition size_inv s : Prop :=
  calculate_header_list_size (ls_block s) <=
    ls_headers_size s + authority_extra (hb_pseudo (ls_block s)).

Lemma authority_extra_le p : authority_extra p <= 3.
Proof. unfold authority_extra. case_match; lia. Qed.

Lemma pseudo_size_none {A} name (val_len : A -> Z) : pseudo_size name None val_len = 0.
Proof. done. Qed.

Lemma account_size max size room store s :
  (room (ls_block s) = true -> calculate_header_list_size (store (ls_block s)) <=
     ls_headers_size s + size + authority_extra (hb_pseudo (store (ls_block s)))) ->
  0 <= size -> size_inv s ->
  let s' := account max size room store s in
  ls_panicked s' = false -> size_inv s' /\
  (calculate_header_list_size (ls_block s') = calculate_header_list_size (ls_block s) \/
   calculate_header_list_size (ls_block s') < max + 3).
Proof.
  intros Hst Hsz Hi. unfold account, size_inv in *.
  destruct (Z.ltb_spec (ls_headers_size s + size) max); cbn [ls_block ls_headers_size ls_panicked].
  - intros [_ Hr%negb_false_iff]%orb_false_iff. specialize (Hst Hr). split; [lia|]. right.
    pose proof (authority_extra_le (hb_pseudo (store (ls_block s)))). lia.
  - intros _. case_match; (split; [|left]); try done;
      change (calculate_header_list_size (MkHeaderBlock (hb_fields (ls_block s)) true
        (hb_pseudo (ls_block s)))) with (calculate_header_list_size (ls_block s));
      cbn [hb_pseudo]; lia.
Qed.

Ltac size_solve :=
  unfold calculate_header_list_size, authority_extra, pseudo_size, decoded_header_size,
    name_len in *; simpl in *; unfold len in *; simpl in *; lia.

Lemma set_pseudo_size {A} max (field : Pseudo -> option A) set val_len s :
  (field (hb_pseudo (ls_block s)) = None ->
   let b := ls_block s in
   calculate_header_list_size (MkHeaderBlock (hb_fields b) (hb_is_over_size b) (set (hb_pseudo b))) -
     authority_extra (set (hb_pseudo b)) <=
   calculate_header_list_size b - authority_extra (hb_pseudo b) + (7 + val_len + 32)) ->
  0 <= val_len -> size_inv s ->
  let s' := set_pseudo max field set val_len s in
  ls_panicked s' = false -> size_inv s' /\
  (calculate_header_list_size (ls_block s') = calculate_header_list_size (ls_block s) \/
   calculate_header_list_size (ls_block s') < max + 3).
Proof.
  intros Hset Hv Hi. unfold set_pseudo. case_match; [split; [exact Hi|by left]|].
  destruct (field _) eqn:Ef; [split; [exact Hi|by left]|].
  specialize (Hset eq_refl). cbv zeta in Hset. unfold size_inv in Hi.
  apply account_size; [intros _|unfold decoded_header_size; change (name_len "$ident") with 6; lia|done].
  unfold decoded_header_size. change (name_len "$ident") with 6. cbn [hb_pseudo] in *. lia.
Qed.

Lemma load_header_size max s h :
  size_inv s ->
  let s' := load_header max s h in
  ls_panicked s' = false -> size_inv s' /\
  (calculate_header_list_size (ls_block s') = calculate_header_list_size (ls_block s) \/
   calculate_header_list_size (ls_block s') < max + 3).
Proof.
  intros Hi. destruct h as [n v|v|v|v|v|v]; cbn [load_header].
  - case_match; [split; [exact Hi|by left]|]. case_match; [split; [exact Hi|by left]|].
    pose proof (len_nonneg (name_as_ref n)). pose proof (len_nonneg (value_as_ref v)).
    set (s1 := MkLoadState (ls_block s) true _ _ _).
    change (ls_block s) with (ls_block s1).
    apply (account_size max _ _ _ s1); [|unfold decoded_header_size; lia|exact Hi].
    subst s1. unfold size_inv in Hi. cbn [ls_block ls_headers_size hb_pseudo]. intros Hr.
    rewrite calculate_append by done. lia.
  - pose proof (len_nonneg (bytes_str v)). apply set_pseudo_size; [|lia|done].
    intros E. destruct s as [[fl o [p1 p2 p3 p4 p5]] ? ? ?]. simpl in E. subst. size_solve.
  - pose proof (len_nonneg (method_as_ref v)). apply set_pseudo_size; [|lia|done].
    intros E. destruct s as [[fl o [p1 p2 p3 p4 p5]] ? ? ?]. simpl in E. subst. size_solve.
  - pose proof (len_nonneg (bytes_str v)). apply set_pseudo_size; [|lia|done].
    intros E. destruct s as [[fl o [p1 p2 p3 p4 p5]] ? ? ?]. simpl in E. subst. size_solve.
  - pose proof (len_nonneg (bytes_str v)). apply set_pseudo_size; [|lia|done].
    intros E. destruct s as [[fl o [p1 p2 p3 p4 p5]] ? ? ?]. simpl in E. subst. size_solve.
  - pose proof (len_nonneg (status_as_str v)). apply set_pseudo_size; [|lia|done].
    intros E. destruct s as [[fl o [p1 p2 p3 p4 p5]] ? ? ?]. simpl in E. subst. size_solve.
Qed.

(** A panic is final. *)
Lemma load_header_panicked max s h : ls_panicked s = true -> ls_panicked (load_header max s h) = true.
Proof.
  intros Hs. destruct h; simpl; unfold set_pseudo, account; repeat case_match; simpl; rewrite ?Hs; done.
Qed.
Lemma load_headers_panicked max hs : forall s, ls_panicked s = true -> ls_panicked (foldl (load_header max) s hs) = true.
Proof. induction hs as [|h hs IH]; intros s Hs; simpl; [done|]. by apply IH, load_header_panicked. Qed.
Lemma load_headers_not_panicked max h hs s :
  ls_panicked (foldl (load_header max) s (h :: hs)) = false -> ls_panicked (load_header max s h) = false.
Proof. intros H. apply not_true_is_false. intros Ht. simpl in H. by rewrite load_headers_panicked in H. Qed.

(** Below this limit the map always has room for what is kept. *)
Definition SAFE_LIST_SIZE : Z := 32 * HM_USABLE.

Lemma load_header_room max s h :
  max <= SAFE_LIST_SIZE -> size_inv s -> ls_panicked s = false -> ls_panicked (load_header max s h) = false.
Proof.
  intros Hmax Hi Hp. destruct h as [n v|v|v|v|v|v]; cbn [load_header];
    [|unfold set_pseudo, account; repeat case_match; simpl; by rewrite ?Hp..].
  case_match; [done|]. case_match; [done|]. unfold account. cbn [ls_block ls_headers_size ls_panicked].
  destruct (Z.ltb_spec (ls_headers_size s + decoded_header_size (len (name_as_ref n)) (len (value_as_ref v))) max) as [Hlt|]; [|done].
  cbn [ls_panicked]. rewrite Hp, hm_room_below; [done|].
  pose proof (fields_count (ls_block s)). pose proof (authority_extra_le (hb_pseudo (ls_block s))).
  pose proof (len_nonneg (name_as_ref n)). pose proof (len_nonneg (value_as_ref v)).
  unfold size_inv, decoded_header_size, SAFE_LIST_SIZE in *. lia.
Qed.

Lemma load_headers_size max hs : forall s,
  size_inv s ->
  let s' := foldl (load_header max) s hs in
  ls_panicked s' = false -> size_inv s' /\
  calculate_header_list_size (ls_block s') <=
    Z.max (calculate_header_list_size (ls_block s)) (max + 2).
Proof.
  induction hs as [|h hs IH]; intros s Hi; cbv zeta; intros Hp; [split; [done|simpl; lia]|].
  destruct (load_header_size max s h Hi (load_headers_not_panicked _ _ _ _ Hp)) as [Hi' Hc].
  destruct (IH _ Hi' Hp) as [Hi'' Hm]. split; [done|]. simpl. lia.
Qed.

Lemma load_headers_room max hs : forall s,
  max <= SAFE_LIST_SIZE -> size_inv s -> ls_panicked s = false -> ls_panicked (foldl (load_header max) s hs) = false.
Proof.
  induction hs as [|h hs IH]; intros s Hmax Hi Hp; simpl; [done|]. pose proof (load_header_room max s h Hmax Hi Hp) as Hp'.
  apply IH; [done| |done]. by apply load_header_size.
Qed.

(** ** Well-formed field lists *)

Definition is_field h : bool := match h with HField _ _ => true | _ => false end.

(** A regular field that an HTTP/2 message may carry. *)
Definition field_ok h : Prop :=
  match h with
  | HField n v => connection_level n = false /\
      (n = std_name TE -> value_as_ref v = bytes_of_string "trailers")
  | _ => False
  end.

(** The rules of RFC 7540 8.1.2 on the order and the kind of fields: pseudo headers first,
    none twice, then regular fields that are not connection-specific.  The rules on which
    pseudo headers a request or a response has are not part of it. *)
Definition well_formed hs : Prop :=
  exists ps fs, hs = ps ++ fs /\ Forall (fun h => is_field h = false) ps /\
    NoDup (Header.name <$> ps) /\ Forall field_ok fs.

(** The pseudo headers already stored. *)
Definition stored (p : Pseudo) (n : Name) : Prop :=
  match n with
  | NField _ => False
  | NAuthority => is_Some (p_authority p)
  | NMethod => is_Some (p_method p)
  | NScheme => is_Some (p_scheme p)
  | NPath => is_Some (p_path p)
  | NStatus => is_Some (p_status p)
  end.

(** What the running total counts for a header. *)
Definition counted h : Z :=
  match h with
  | HField n v => decoded_header_size (len (name_as_ref n)) (len (value_as_ref v))
  | HAuthority v | HScheme v | HPath v => decoded_header_size 7 (len (bytes_str v))
  | HMethod v => decoded_header_size 7 (len (method_as_ref v))
  | HStatus v => decoded_header_size 7 (len (status_as_str v))
  end.
Definition counted_all hs : Z := foldr (fun h acc => counted h + acc) 0 hs.

(** The map has at most [n] entries. *)
Definition holds_at_most (n : Z) s : Prop := len (hm_iter (hb_fields (ls_block s))) <= n.

Lemma load_header_count max s h n :
  ls_panicked s = false -> holds_at_most n s -> n < HM_USABLE ->
  ls_panicked (load_header max s h) = false /\ holds_at_most (n + 1) (load_header max s h).
Proof.
  unfold holds_at_most. intros Hp Hn HU. destruct h as [nm v|v|v|v|v|v]; cbn [load_header];
    [|unfold set_pseudo, account; repeat case_match; simpl in *; rewrite ?Hp; split; (done || lia)..].
  case_match; [split; [done|simpl; lia]|]. case_match; [split; [done|simpl; lia]|].
  unfold account. cbn [ls_block ls_headers_size ls_panicked].
  assert (hm_room (hb_fields (ls_block s)) nm = true) as Hr by (apply hm_room_below; lia).
  case_match; cbn [ls_block ls_panicked].
  - rewrite Hp, Hr. split; [done|]. cbn [hb_fields]. unfold len. rewrite (hm_iter_append _ _ _ Hr). simpl. unfold len in Hn. lia.
  - split; [done|]. case_match; simpl; lia.
Qed.
Lemma load_headers_count max hs : forall s n,
  ls_panicked s = false -> holds_at_most n s -> n + len hs <= HM_USABLE ->
  ls_panicked (foldl (load_header max) s hs) = false.
Proof.
  induction hs as [|h hs IH]; intros s n Hp Hn HU; simpl; [done|]. rewrite len_cons in HU. pose proof (len_nonneg hs).
  destruct (load_header_count max s h n Hp Hn) as [Hp' Hn']; [lia|]. apply (IH _ (n + 1)); [done|done|lia].
Qed.

Lemma counted_pos h : 0 < counted h.
Proof.
  destruct h; simpl; unfold decoded_header_size;
    repeat match goal with |- context [len ?l] => pose proof (len_nonneg l); generalize dependent (len l); intros end; lia.
Qed.

Lemma counted_all_nonneg hs : 0 <= counted_all hs.
Proof. induction hs as [|h hs IH]; simpl; [lia|]. pose proof (counted_pos h). lia. Qed.

Lemma malformed_stays max hs : forall s,
  ls_malformed s = true -> ls_malformed (foldl (load_header max) s hs) = true.
Proof.
  induction hs as [|h hs IH]; intros s Hs; simpl; [done|]. apply IH.
  destruct h; simpl; unfold set_pseudo, account; repeat case_match; done.
Qed.

(** The branches of [set_pseudo] for a state [s] within the limit. *)
Ltac pseudo_step s :=
  let Ho := fresh "Ho" in
  unfold set_pseudo; destruct (ls_reg s) eqn:?; [left; split; [by left|done]|];
  match goal with |- context [match ?o with Some _ => mark_malformed _ | None => _ end] =>
    destruct o eqn:Ho end;
  [left; split; [right; simpl; rewrite Ho; by eexists|done]|];
  right; unfold account; change (name_len "$ident") with 6;
  rewrite (proj2 (Z.ltb_lt _ _)) by done;
  cbn [ls_block ls_malformed ls_reg ls_headers_size hb_pseudo];
  split_and!; [done|simpl; rewrite Ho; by intros []|done|done|done|];
  let n := fresh "n" in intros n; destruct n; simpl;
  first [split; [by right|intros _; by eexists] | split; [by left|by intros [?|?]]].

(** One header within the limit: rejected, or stored. *)
Lemma load_header_step max s h :
  ls_malformed s = false -> ls_headers_size s + counted h < max ->
  let s' := load_header max s h in
  if is_field h then
    (~ field_ok h /\ ls_malformed s' = true) \/
    (field_ok h /\ ls_malformed s' = false /\ ls_reg s' = true /\
     ls_headers_size s' = ls_headers_size s + counted h /\
     hb_pseudo (ls_block s') = hb_pseudo (ls_block s))
  else
    ((ls_reg s = true \/ stored (hb_pseudo (ls_block s)) (Header.name h)) /\
     ls_malformed s' = true) \/
    (ls_reg s = false /\ ~ stored (hb_pseudo (ls_block s)) (Header.name h) /\
     ls_malformed s' = false /\ ls_reg s' = false /\
     ls_headers_size s' = ls_headers_size s + counted h /\
     forall n, stored (hb_pseudo (ls_block s')) n <->
       stored (hb_pseudo (ls_block s)) n \/ n = Header.name h).
Proof.
  intros Hm Hmax. destruct h as [n v|v|v|v|v|v]; cbn [is_field load_header].
  - destruct (connection_level n) eqn:Hc; [left; split; [intros [? _]; congruence|done]|].
    destruct (decide (n = std_name TE)) as [Ht|Ht].
    + rewrite (bool_decide_true (n = _)) by done. case_bool_decide as Hv; cbn [andb negb].
      * right. unfold account. cbn [ls_headers_size ls_block].
        rewrite (proj2 (Z.ltb_lt _ _)) by done. split_and!; done.
      * left. split; [|done]. intros [_ H]. by apply Hv, H.
    + rewrite (bool_decide_false (n = _)) by done. cbn [andb]. right.
      unfold account. cbn [ls_headers_size ls_block].
      rewrite (proj2 (Z.ltb_lt _ _)) by done. split_and!; done.
  - pseudo_step s.
  - pseudo_step s.
  - pseudo_step s.
  - pseudo_step s.
  - pseudo_step s.
Qed.

Lemma well_formed_cons_field h hs :
  is_field h = true -> well_formed (h :: hs) <-> field_ok h /\ Forall field_ok hs.
Proof.
  intros Hf. split.
  - intros (ps & fs & E & Hp & _ & Hfs). destruct ps as [|p ps]; simpl in E; simplify_eq.
    + by apply Forall_cons in Hfs.
    + apply Forall_cons in Hp as [? _]. congruence.
  - intros [? ?]. exists [], (h :: hs). split_and!; [done|constructor|constructor|by constructor].
Qed.

(** Scanning from a state, as a declarative property of the list. *)
Definition accepts_from s hs : Prop :=
  if ls_reg s then Forall field_ok hs
  else exists ps fs, hs = ps ++ fs /\ Forall (fun h => is_field h = false) ps /\
    NoDup (Header.name <$> ps) /\ Forall field_ok fs /\
    Forall (fun h => ~ stored (hb_pseudo (ls_block s)) (Header.name h)) ps.

Lemma field_ok_is_field h : field_ok h -> is_field h = true.
Proof. by destruct h. Qed.

Lemma accepts_from_field s s' h hs :
  is_field h = true -> ls_reg s' = true ->
  accepts_from s (h :: hs) <-> field_ok h /\ accepts_from s' hs.
Proof.
  intros Hf Hr. unfold accepts_from. rewrite Hr. destruct (ls_reg s); [apply Forall_cons|].
  split.
  - intros (ps & fs & E & Hp & _ & Hfs & _). destruct ps as [|p ps]; simpl in E; simplify_eq.
    + by apply Forall_cons in Hfs.
    + apply Forall_cons in Hp as [? _]. congruence.
  - intros [? ?]. exists [], (h :: hs). split_and!; [done|constructor|constructor|by constructor|constructor].
Qed.

Lemma accepts_from_pseudo s s' h hs :
  is_field h = false -> ls_reg s = false -> ls_reg s' = false ->
  ~ stored (hb_pseudo (ls_block s)) (Header.name h) ->
  (forall n, stored (hb_pseudo (ls_block s')) n <->
    stored (hb_pseudo (ls_block s)) n \/ n = Header.name h) ->
  accepts_from s (h :: hs) <-> accepts_from s' hs.
Proof.
  intros Hf Hr Hr' Hns Hst. unfold accepts_from. rewrite Hr, Hr'. split.
  - intros (ps & fs & E & Hp & Hnd & Hfs & Hs). destruct ps as [|p ps]; simpl in E; simplify_eq.
    { apply Forall_cons in Hfs as [H%field_ok_is_field _]. congruence. }
    apply Forall_cons in Hp as [_ Hp]. apply Forall_cons in Hs as [_ Hs].
    rewrite fmap_cons in Hnd. apply NoDup_cons in Hnd as [Hni Hnd].
    exists ps, fs. split_and!; [done..|]. rewrite Forall_forall in Hs |- *.
    intros x Hx. rewrite Hst. intros [?|E']; [by eapply Hs|].
    apply Hni. rewrite <- E'. by apply list_elem_of_fmap_2.
  - intros (ps & fs & -> & Hp & Hnd & Hfs & Hs). exists (h :: ps), fs.
    rewrite Forall_forall in Hs.
    split_and!; [done|by constructor| |done|].
    + rewrite fmap_cons. apply NoDup_cons. split; [|done].
      intros (x & E & Hx)%list_elem_of_fmap. apply (Hs x Hx), Hst. by right.
    + constructor; [done|]. apply Forall_forall. intros x Hx Hsx. apply (Hs x Hx), Hst. by left.
Qed.

Lemma load_headers_accepts max hs : forall s,
  ls_malformed s = false -> ls_headers_size s + counted_all hs < max ->
  ls_malformed (foldl (load_header max) s hs) = false <-> accepts_from s hs.
Proof.
  induction hs as [|h hs IH]; intros s Hm Hmax; simpl in *.
  - unfold accepts_from. split; [|done]. intros _. destruct (ls_reg s); [constructor|].
    exists [], []. split_and!; done || constructor.
  - pose proof (counted_all_nonneg hs).
    pose proof (load_header_step max s h Hm ltac:(lia)) as Hstep. cbv zeta in Hstep.
    set (s' := load_header max s h) in *. destruct (is_field h) eqn:Hf.
    + destruct Hstep as [[Hn Hbad]|(Hok & Hm' & Hr & Hsz & _)].
      * rewrite malformed_stays by done. split; [done|]. intros Ha.
        destruct Hn. destruct (ls_reg s) eqn:Hr.
        -- unfold accepts_from in Ha. rewrite Hr in Ha. by apply Forall_cons in Ha as [? _].
        -- apply (accepts_from_field s (MkLoadState (ls_block s) true false 0 false) h hs) in Ha as [? _]; done.
      * rewrite IH by (done || lia). rewrite (accepts_from_field s s') by done. naive_solver.
    + destruct Hstep as [[Hn Hbad]|(Hr & Hns & Hm' & Hr' & Hsz & Hst)].
      * rewrite malformed_stays by done. split; [done|]. unfold accepts_from.
        destruct Hn as [Hr|Hst]; [rewrite Hr; intros [H1%field_ok_is_field _]%Forall_cons; congruence|].
        destruct (ls_reg s); [intros [H1%field_ok_is_field _]%Forall_cons; congruence|].
        intros (ps & fs & E & Hp & _ & Hfs & Hs). destruct ps as [|p ps]; simpl in E; simplify_eq.
        -- apply Forall_cons in Hfs as [H1%field_ok_is_field _]. congruence.
        -- by apply Forall_cons in Hs as [? _].
      * rewrite IH by (done || lia). symmetry. by apply accepts_from_pseudo.
Qed.

End Block.

(** ** Properties *)

Section Load.
Context `{HM : HeaderMapOps} `{BM : BytesMut B}.

Lemma load_start (b : HeaderBlock) :
  size_inv (MkLoadState b (negb (hm_is_empty (hb_fields b))) false
    (calculate_header_list_size b) false).
Proof. unfold size_inv, authority_extra. simpl. case_match; lia. Qed.

Lemma cursor_start (src : B) dec :
  dec_ok dec -> is_bytes (buf_bytes src) -> len (buf_bytes src) < 2 ^ 62 ->
  st_ok (dec, MkCursor src 0).
Proof. intros. split_and!; try done. unfold cur_ok. simpl. lia. Qed.

Lemma load_bounded max (b b' : HeaderBlock) (src src' : B) dec dec' r :
  dec_ok dec -> is_bytes (buf_bytes src) -> len (buf_bytes src) < 2 ^ 62 ->
  HeaderBlock_load max (b, src, dec) = ((b', src', dec'), r) -> r <> Panic ->
  calculate_header_list_size b' <= Z.max (calculate_header_list_size b) (max + 2).
Proof.
  intros Hd Hb Hl E HP. unfold HeaderBlock_load in E.
  pose proof (decode_block_total (load_header max) (dec, MkCursor src 0)
    (MkLoadState b (negb (hm_is_empty (hb_fields b))) false (calculate_header_list_size b) false)
    (cursor_start src dec Hd Hb Hl)) as H.
  destruct (decode_block _ _) as [[[dec1 c1] s1] r1]. destruct H as [[hs ->] _].
  destruct (ls_panicked _) eqn:Hp; [by injection E as <- <- <- <-|].
  destruct (load_headers_size max hs _ (load_start b) Hp) as [_ Hm].
  destruct r1 as [[]|e|]; [destruct (ls_malformed _)| |]; simplify_eq/=; exact Hm.
Qed.

Lemma load_accepts max (src : B) dec s' hs :
  decode_block collect ((dec, MkCursor src 0), []) = ((s', hs), Ok tt) ->
  counted_all hs < max -> len hs <= HM_USABLE ->
  (HeaderBlock_load max (empty_block, src, dec)).2 = Ok tt /\ well_formed hs \/
  (HeaderBlock_load max (empty_block, src, dec)).2 = Err MalformedMessage /\ ~ well_formed hs.
Proof.
  intros E Hmax HU. unfold HeaderBlock_load.
  rewrite (decode_block_collect _ _ _ _ E). destruct s' as [dec' c'].
  set (s0 := MkLoadState empty_block _ _ _ _).
  assert (calculate_header_list_size empty_block = 0) as E0.
  { unfold calculate_header_list_size, empty_block. cbn [hb_fields hb_pseudo].
    by rewrite hm_iter_new. }
  assert (hm_is_empty (hb_fields empty_block) = true) as E1.
  { unfold hm_is_empty. simpl. by rewrite hm_iter_new. }
  pose proof (load_headers_accepts max hs s0 eq_refl ltac:(simpl; rewrite E0; lia)) as Ha.
  assert (accepts_from s0 hs <-> well_formed hs) as Hw.
  { unfold accepts_from, well_formed. subst s0. cbn [ls_reg ls_block]. rewrite E1. cbn [negb].
    split.
    - intros (ps & fs & ? & ? & ? & ? & _). by exists ps, fs.
    - intros (ps & fs & ? & Hp & ? & ?). exists ps, fs. split_and!; [done..|].
      eapply Forall_impl; [exact Hp|]. intros h Hh. destruct h; done || (simpl; by intros []). }
  rewrite (load_headers_count max hs s0 0); [|done| |lia]; [|unfold holds_at_most; simpl; by rewrite hm_iter_new].
  destruct (ls_malformed (foldl (load_header max) s0 hs)); cbn [snd]; [right|left];
    (split; [done|]); rewrite <- Hw, <- Ha; done.
Qed.

End Load.

(** C22. The decoded header list is bounded: whatever a peer sends, the size
    (RFC 7540 6.5.2) of the fields and pseudo headers that [HeaderBlock::load]
    keeps is at most the larger of what was there before and the limit plus two bytes
    ([:authority] is counted three bytes short), also when the block is cut off or
    malformed. *)
Theorem header_list_bounded `{HM : HeaderMapOps} `{BM : BytesMut B} max
    (b b' : HeaderBlock) (src src' : B) dec dec' r :
  dec_ok dec -> is_bytes (buf_bytes src) -> len (buf_bytes src) < 2 ^ 62 ->
  HeaderBlock_load max (b, src, dec) = ((b', src', dec'), r) -> r <> Panic ->
  calculate_header_list_size b' <= Z.max (calculate_header_list_size b) (max + 2).
Proof. apply load_bounded. Qed.

(** C32. What one call of [HeaderBlock::load] rejects: a block that is loaded whole, into
    an empty block, within the size limit and with no more fields than the map can hold,
    is accepted exactly when its pseudo headers come before all regular fields and none
    is repeated, no field is connection-specific, and [te] has only the value [trailers];
    any other list is reported as malformed.  (Which pseudo headers a message must have
    is not checked here.) *)
Theorem header_block_wellformed `{HM : HeaderMapOps} `{BM : BytesMut B} max
    (src : B) dec s' hs :
  decode_block collect ((dec, MkCursor src 0), []) = ((s', hs), Ok tt) ->
  counted_all hs < max -> len hs <= HM_USABLE ->
  let r := (HeaderBlock_load max (empty_block, src, dec)).2 in
  r = Ok tt /\ well_formed hs \/ r = Err MalformedMessage /\ ~ well_formed hs.
Proof. apply load_accepts. Qed.

Import ModelHttp.

(** [:method: GET] and [a: b]. *)
Definition sample_block : list Z := [0x82; 0; 1; 97; 1; 98].

Lemma header_list_bounded_witness :
  let r := HeaderBlock_load 100 (empty_block, sample_block, HDecoder_new (B:=list Z) 4096) in
  calculate_header_list_size r.1.1.1 <= 102.
Proof.
  intros r. destruct r as [[[b' src'] dec'] o] eqn:E.
  assert (calculate_header_list_size empty_block = 0) as E0 by reflexivity.
  pose proof (header_list_bounded 100 empty_block b' sample_block src' (HDecoder_new 4096) dec' o) as T.
  rewrite E0 in T. apply T; [split; [split; vm_compute; congruence|reflexivity]|
    apply (bool_decide_unpack _); vm_compute; exact I|vm_compute; reflexivity|exact E|].
  intros ->. assert (match r with (_, Panic) => true | _ => false end = false) as H by (vm_compute; reflexivity).
  rewrite E in H. discriminate H.
Defined.

Lemma header_block_wellformed_witness :
  (HeaderBlock_load 200 (empty_block, sample_block, HDecoder_new (B:=list Z) 4096)).2 = Ok tt.
Proof.
  pose proof (header_block_wellformed 200 sample_block (HDecoder_new (B:=list Z) 4096)) as T.
  destruct (decode_block collect ((HDecoder_new 4096, MkCursor sample_block 0), []))
    as [[s' hs] o] eqn:E.
  assert (match o with Ok _ => true | _ => false end = true) as Ho.
  { change o with (s', hs, o).2. rewrite <- E. vm_compute. reflexivity. }
  assert (counted_all hs = 76) as Hc.
  { change hs with (s', hs, o).1.2. rewrite <- E. vm_compute. reflexivity. }
  destruct o as [[]|e|]; [|discriminate Ho|discriminate Ho].
  assert (len hs = 2) as Hl.
  { change hs with (s', hs, Ok tt : outcome DecoderError _).1.2. rewrite <- E. vm_compute. reflexivity. }
  destruct (T s' hs eq_refl) as [[H _]|[H _]]; [rewrite Hc; reflexivity|rewrite Hl; discriminate|exact H|].
  exfalso. assert (match (HeaderBlock_load 200 (empty_block, sample_block,
    HDecoder_new (B:=list Z) 4096)).2 with Ok _ => true | _ => false end = true) as H'
    by (vm_compute; reflexivity).
  rewrite H in H'. discriminate H'.
Defined.
