(* ===== verification/FramedReadCorrect.v ===== *)
(** * Reading frames: correctness

    [decode_frame] is total under a header list limit that the header map can hold: on
    any bytes that hold a frame head it returns a frame, nothing, or an error, and every state the connection goes on with
    keeps the HPACK invariant.  Frames written by the encoders are read back. *)

From S2P Require Import Prelude Bytes H2Types Huffman HttpTypes Frames FramesCorrect HpackPrim HpackDecoder HpackDecoderCorrect HpackWire HeadersFrame HeadersFrameCorrect FramedRead.

Definition no_panic {E A} (r : outcome E A) : Prop :=
  match r with Panic => False | _ => True end.

(** ** The loaders are total *)

Lemma StreamId_parse_total {E} l :
  is_bytes l -> 4 <= len l ->
  exists id b, StreamId.parse l = (Ok (id, b) : outcome E _) /\ StreamId.valid id.
Proof.
  intros Hb Hl. unfold StreamId.parse, slice.
  rewrite (slice_from_app [] l) by done. cbn [mbind outcome_bind].
  rewrite slice_to_Ok by lia. cbn [mbind outcome_bind]. do 2 eexists. split; [done|].
  unfold StreamId.valid. cbn [stream_id_u32]. change (not_u 32 StreamId.STREAM_ID_MASK) with (2 ^ 31 - 1).
  by apply land_range.
Qed.

Lemma head_parse_total {E} l :
  is_bytes l -> 9 <= len l -> exists h, Head.parse l = (Ok h : outcome E _) /\ Head.wf h.
Proof.
  intros Hb Hl. unfold Head.parse.
  assert (exists l1 l2, l = l1 ++ l2 /\ length l1 = 5%nat) as (l1 & l2 & -> & H1).
  { exists (take 5 l), (drop 5 l). rewrite take_drop, length_take. unfold len in Hl. split; [done|lia]. }
  rewrite slice_from_app by (unfold len; lia). cbn [mbind outcome_bind].
  apply is_bytes_app in Hb as [Hb1 Hb2]. rewrite len_app in Hl.
  destruct (StreamId_parse_total (E:=E) l2) as (id & b & -> & Hid);
    [done|unfold len in *; lia|]. cbn [mbind outcome_bind].
  do 5 (destruct l1 as [|? l1]; [done|]). cbn. eexists. split; [done|].
  split; [|done]. simpl. do 4 apply is_bytes_cons in Hb1 as [_ Hb1].
  by apply is_bytes_cons in Hb1 as [? _].
Qed.

Lemma ping_load_total h p : no_panic (Ping.load h p).
Proof. unfold Ping.load. by repeat case_match. Qed.

Lemma reset_load_total h p : is_bytes p -> no_panic (Reset.load h p).
Proof.
  intros Hp. unfold Reset.load. destruct (Z.eqb_spec (len p) 4); simpl; [|done].
  by destruct (unpack_octets_4_total (E:=FrameError) p 0) as (n & -> & _); [done|lia|lia|].
Qed.

Lemma window_update_load_total h p : is_bytes p -> no_panic (WindowUpdate.load h p).
Proof.
  intros Hp. unfold WindowUpdate.load. destruct (Z.eqb_spec (len p) 4); simpl; [|done].
  destruct (unpack_octets_4_total (E:=FrameError) p 0) as (n & -> & _); [done|lia|lia|].
  simpl. by case_match.
Qed.

Lemma go_away_load_total p : is_bytes p -> no_panic (GoAway.load p).
Proof.
  intros Hp. unfold GoAway.load. destruct (Z.ltb_spec (len p) 8); [done|].
  rewrite slice_to_Ok by lia. cbn [mbind outcome_bind].
  destruct (StreamId_parse_total (E:=FrameError) (take (Z.to_nat 4) p)) as (id & b & -> & _).
  { auto with kayrx. } { unfold len in *. rewrite length_take. lia. }
  cbn [mbind outcome_bind].
  destruct (unpack_octets_4_total (E:=FrameError) p 4) as (n & -> & _); [done|lia|lia|].
  cbn [mbind outcome_bind]. unfold slice_from.
  by rewrite (proj2 (Z.leb_le 0 8)), (proj2 (Z.leb_le 8 _)) by lia.
Qed.

Lemma dependency_load_total p : is_bytes p -> no_panic (StreamDependency_load p).
Proof.
  intros Hp. unfold StreamDependency_load. destruct (Z.eqb_spec (len p) 5); simpl; [|done].
  rewrite slice_to_Ok by lia. cbn [mbind outcome_bind].
  destruct (StreamId_parse_total (E:=FrameError) (take (Z.to_nat 4) p)) as (id & b & -> & _).
  { auto with kayrx. } { unfold len in *. rewrite length_take. lia. }
  cbn [mbind outcome_bind]. unfold len in *.
  do 5 (destruct p as [|? p]; [simpl in *; lia|]). done.
Qed.

Lemma priority_load_total h p : is_bytes p -> no_panic (Priority_load h p).
Proof.
  intros Hp. unfold Priority_load. pose proof (dependency_load_total p Hp).
  destruct (StreamDependency_load p); simpl; [by case_decide|done|done].
Qed.

Section Payloads.
Context `{HM : HeaderMapOps} `{BM : BytesMut B}.
Implicit Types src : B.

Lemma data_load_total h src : is_bytes (buf_bytes src) -> no_panic (Data.load h src).
Proof.
  intros Hb. unfold Data.load. case_match; [done|]. case_match; [|done].
  pose proof (strip_padding_spec src Hb). by destruct (strip_padding src) as [[]| |].
Qed.

(** Buffers that a payload is cut down to. *)
Definition sub_buf src src' : Prop :=
  is_bytes (buf_bytes src') /\ len (buf_bytes src') <= len (buf_bytes src).

Lemma sub_buf_refl src : is_bytes (buf_bytes src) -> sub_buf src src.
Proof. split; [done|lia]. Qed.

Lemma sub_buf_trans src src' src'' : sub_buf src src' -> sub_buf src' src'' -> sub_buf src src''.
Proof. intros [? ?] [? ?]. split; [done|lia]. Qed.

Lemma sub_buf_split src n :
  is_bytes (buf_bytes src) -> (n <= length (buf_bytes src))%nat ->
  sub_buf src (bm_split_to src n).2.
Proof.
  intros Hb Hn. destruct (bm_split_to_bytes src n Hn) as [_ E]. unfold sub_buf. rewrite E.
  split; [auto with kayrx|]. unfold len. rewrite length_drop. lia.
Qed.

Lemma drop_padding_total pad src :
  is_bytes (buf_bytes src) ->
  match drop_padding pad src with
  | Ok src' => sub_buf src src' | Err _ => True | Panic => False
  end.
Proof.
  intros Hb. unfold drop_padding. destruct (0 <? pad); [|by apply sub_buf_refl].
  destruct (_ <? pad); [done|]. unfold sub_buf. rewrite bm_truncate_bytes.
  split; [auto with kayrx|]. unfold len. rewrite length_take. lia.
Qed.

Lemma read_pad_len_total p src :
  is_bytes (buf_bytes src) ->
  match read_pad_len p src with
  | Ok (_, src') => sub_buf src src' | Err _ => True | Panic => False
  end.
Proof.
  intros Hb. unfold read_pad_len. destruct p; [|by apply sub_buf_refl].
  destruct (Z.eqb_spec (len (buf_bytes src)) 0) as [|Hne]; [done|].
  destruct (buf_bytes src) as [|b bs] eqn:E; [done|]. simpl.
  apply sub_buf_split; rewrite E; [done|]. simpl. lia.
Qed.

Lemma headers_load_total h src :
  is_bytes (buf_bytes src) ->
  match Headers_load h src with
  | Ok (f, src') => sub_buf src src' /\ h_header_block f = empty_block /\
      h_stream_id f = head_stream_id h /\ h_flags f = MkHeadersFlag (head_flag h)
  | Err _ => True | Panic => False
  end.
Proof.
  intros Hb. unfold Headers_load. cbv zeta.
  pose proof (read_pad_len_total (HeadersFlag.is_padded (MkHeadersFlag (head_flag h))) src Hb) as H1.
  destruct (read_pad_len _ src) as [[pad src1]|e|]; cbn [mbind outcome_bind]; [|done|done].
  assert (match (if HeadersFlag.is_priority (MkHeadersFlag (head_flag h)) then
       if len (buf_bytes src1) <? 5 then Err MalformedMessage
       else
         raw ← slice_to (buf_bytes src1) 5;
         stream_dep ← StreamDependency_load raw;
         if decide (dependency_id stream_dep = head_stream_id h)
         then Err InvalidDependencyId
         else Ok (Some stream_dep, (bm_split_to src1 5).2)
     else Ok (None, src1)) with
     | Ok (_, src2) => sub_buf src1 src2 | Err _ => True | Panic => False end) as H2.
  { destruct H1 as [Hb1 _].
    destruct (HeadersFlag.is_priority _); [|by apply sub_buf_refl].
    destruct (Z.ltb_spec (len (buf_bytes src1)) 5); [done|].
    rewrite slice_to_Ok by lia. cbn [mbind outcome_bind].
    pose proof (dependency_load_total (take (Z.to_nat 5) (buf_bytes src1)) ltac:(auto with kayrx)).
    destruct (StreamDependency_load _) as [dep|e|]; cbn [mbind outcome_bind]; [|done|done].
    case_decide; [done|]. apply sub_buf_split; [done|]. unfold len in *. lia. }
  destruct (if HeadersFlag.is_priority _ then _ else _) as [[dep src2]|e|];
    cbn [mbind outcome_bind]; [|done|done].
  pose proof (drop_padding_total pad src2 ltac:(apply H2)) as H3.
  destruct (drop_padding pad src2) as [src3|e|]; cbn [mbind outcome_bind]; [|done|done].
  split; [|done]. eapply sub_buf_trans; [done|]. by eapply sub_buf_trans.
Qed.

Lemma push_promise_load_total h src :
  is_bytes (buf_bytes src) ->
  match PushPromise_load h src with
  | Ok (f, src') => sub_buf src src' /\ pp_header_block f = empty_block /\
      pp_stream_id f = head_stream_id h /\ pp_flags f = MkPushPromiseFlag (head_flag h)
  | Err _ => True | Panic => False
  end.
Proof.
  intros Hb. unfold PushPromise_load. cbv zeta.
  pose proof (read_pad_len_total (PushPromiseFlag.is_padded (MkPushPromiseFlag (head_flag h))) src Hb) as H1.
  destruct (read_pad_len _ src) as [[pad src1]|e|]; cbn [mbind outcome_bind]; [|done|done].
  destruct H1 as [Hb1 Hl1]. destruct (Z.ltb_spec (len (buf_bytes src1)) 5); [done|].
  rewrite slice_to_Ok by lia. cbn [mbind outcome_bind].
  destruct (StreamId_parse_total (E:=FrameError) (take (Z.to_nat 4) (buf_bytes src1)))
    as (id & b & -> & _).
  { auto with kayrx. } { unfold len in *. rewrite length_take. lia. }
  cbn [mbind outcome_bind].
  assert (sub_buf src1 (bm_split_to src1 4).2) as H2.
  { apply sub_buf_split; [done|]. unfold len in *. lia. }
  pose proof (drop_padding_total pad (bm_split_to src1 4).2 ltac:(apply H2)) as H3.
  destruct (drop_padding pad _) as [src3|e|]; cbn [mbind outcome_bind]; [|done|done].
  split; [|done]. eapply sub_buf_trans; [done|]. by eapply sub_buf_trans.
Qed.

End Payloads.

(** ** [decode_frame] is total *)

Section Total.
Context `{HM : HeaderMapOps} `{BM : BytesMut B}.

(** Errors after which the decoder is still in step with the peer. *)
Definition resumable (r : outcome FrameError ()) : Prop :=
  match r with
  | Ok _ | Err MalformedMessage | Err (Hpack (NeedMore_ _)) => True
  | _ => False
  end.

Lemma header_block_load_total max b (src : B) dec :
  dec_ok dec -> is_bytes (buf_bytes src) -> len (buf_bytes src) < 2 ^ 62 ->
  let '((b', src', dec'), r) := HeaderBlock_load max (b, src, dec) in
  (r = Panic -> SAFE_LIST_SIZE < max) /\ (resumable r -> dec_ok dec' /\ is_bytes (buf_bytes src')).
Proof.
  intros Hd Hb Hl. unfold HeaderBlock_load.
  pose proof (load_start b) as Hi. set (s0 := MkLoadState _ _ _ _ _) in *.
  pose proof (decode_block_total (load_header max) (dec, MkCursor src 0) s0) as H.
  destruct (decode_block _ _) as [[[dec' c'] s'] r].
  destruct H as [[hs ->] Hr]. { by apply cursor_start. }
  destruct (ls_panicked _) eqn:Hp.
  { split; [|done]. intros _. apply Z.nle_gt. intros Hmax. by rewrite load_headers_room in Hp. }
  destruct r as [[]|e|]; [|destruct e; simpl in *; split; naive_solver|done].
  destruct Hr as [(? & ? & ? & ?) _]. by destruct (ls_malformed _).
Qed.

Lemma continuable_load_total max c (src : B) dec :
  dec_ok dec -> is_bytes (buf_bytes src) -> len (buf_bytes src) < 2 ^ 62 ->
  let '((c', src', dec'), r) := Continuable_load_hpack max (c, src, dec) in
  (r = Panic -> SAFE_LIST_SIZE < max) /\ (resumable r -> dec_ok dec' /\ is_bytes (buf_bytes src')).
Proof.
  intros Hd Hb Hl. destruct c as [h|p];
    unfold Continuable_load_hpack, Headers_load_hpack, PushPromise_load_hpack.
  - pose proof (header_block_load_total max (h_header_block h) src dec Hd Hb Hl) as H.
    by destruct (HeaderBlock_load _ _) as [[[? ?] ?] ?].
  - pose proof (header_block_load_total max (pp_header_block p) src dec Hd Hb Hl) as H.
    by destruct (HeaderBlock_load _ _) as [[[? ?] ?] ?].
Qed.

Lemma classify_resumable id e r :
  match classify id e r with
  | Ok _ | Err (RecvStream _ _) => resumable r
  | Err _ => True
  | Panic => r = Panic
  end.
Proof. destruct r as [|[]|]; simpl; try done. by destruct e0, e. Qed.

(** What the connection relies on between frames. *)
Definition frame_inv (s : FramedRead (B:=B)) : Prop :=
  dec_ok (fr_hpack s) /\
  match fr_partial s with Some p => is_bytes (buf_bytes (partial_buf p)) | None => True end.

Definition buffered (s : FramedRead (B:=B)) : Z :=
  match fr_partial s with Some p => len (buf_bytes (partial_buf p)) | None => 0 end.

(** Good results under a limit for header lists: no panic unless the limit is too large
    for the header map, and the invariant unless the connection fails. *)
Definition frame_post {A} (limit : Z) (r : FramedRead (B:=B) * outcome RecvError A) : Prop :=
  match r with
  | (s', Ok _) | (s', Err (RecvStream _ _)) => frame_inv s'
  | (_, Err _) => True
  | (_, Panic) => SAFE_LIST_SIZE < limit
  end.

Lemma frame_post_lift {A A'} limit (r : outcome RecvError A) (g : A -> SE FramedRead RecvError A')
    (s : FramedRead (B:=B)) :
  no_panic r -> frame_inv s -> (forall a, r = Ok a -> frame_post limit (g a s)) ->
  frame_post limit ((lift r ≫= g) s).
Proof.
  intros Hr Hs Hg. destruct r as [a|e|]; [rewrite bind_lift_Ok; auto| |done].
  by destruct e.
Qed.

Lemma conn_err_no_panic {A} (r : outcome FrameError A) : no_panic r -> no_panic (conn_err r).
Proof. by destruct r. Qed.
Lemma load_err_no_panic {A} h (r : outcome FrameError A) : no_panic r -> no_panic (load_err h r).
Proof. by destruct r as [|[]|]. Qed.

(** Loading a header block and keeping or returning the frame. *)
Lemma header_block_post head e frame into (payload : B) s :
  frame_inv s -> is_bytes (buf_bytes payload) -> len (buf_bytes payload) < 2 ^ 62 ->
  frame_post (fr_max_header_list_size s) (header_block head e frame into payload s).
Proof.
  intros [Hd Hp] Hb Hl. unfold header_block, get. unfold mbind at 1, SE_bind at 1.
  pose proof (continuable_load_total (fr_max_header_list_size s) frame payload (fr_hpack s) Hd Hb Hl) as H.
  destruct (Continuable_load_hpack _ _) as [[[frame' payload'] hpack'] r]. destruct H as [Hn Hr].
  rewrite bind_modify. pose proof (classify_resumable (head_stream_id head) e r) as Hc.
  destruct (classify _ _ _) as [[]|err|]; [rewrite bind_lift_Ok| |exact (Hn Hc)].
  - destruct (Hr Hc) as [? ?]. destruct e; [by split|]. rewrite bind_modify. by split.
  - destruct err; [done| |done]. destruct (Hr Hc) as [? ?]. by split.
Qed.

Lemma continuation_post head (bytes : B) s :
  frame_inv s -> is_bytes (buf_bytes bytes) -> 9 <= len (buf_bytes bytes) ->
  buffered s + len (buf_bytes bytes) < 2 ^ 62 ->
  frame_post (fr_max_header_list_size s) (decode_continuation head bytes s).
Proof.
  intros Hs Hb H9 Hl. unfold decode_continuation, get. unfold mbind at 1, SE_bind at 1.
  rewrite bind_modify. pose proof Hs as [Hd Hp]. unfold buffered in Hl.
  destruct (fr_partial s) as [[frame old]|]; [|done]. cbn [partial_frame partial_buf] in *.
  case_match; [done|]. cbv zeta. case_match; [done|].
  set (buf := if _ =? 0 then _ else _).
  assert (is_bytes (buf_bytes buf) /\ len (buf_bytes buf) < 2 ^ 62) as [Hbuf Hlen].
  { subst buf. pose proof (len_nonneg (buf_bytes old)).
    destruct (bm_split_to_bytes bytes (Z.to_nat HEADER_LEN)) as [_ E].
    { unfold HEADER_LEN, len in *. lia. }
    assert (is_bytes (drop (Z.to_nat HEADER_LEN) (buf_bytes bytes))) by auto with kayrx.
    assert (len (drop (Z.to_nat HEADER_LEN) (buf_bytes bytes)) <= len (buf_bytes bytes)).
    { unfold len. rewrite length_drop. lia. }
    case_match; [rewrite E; split; [done|lia]|].
    rewrite put_slice_bytes by (rewrite bm_remaining; lia).
    rewrite is_bytes_app, len_app. split; [done|lia]. }
  pose proof (continuable_load_total (fr_max_header_list_size s) frame buf (fr_hpack s) Hd Hbuf Hlen) as H'.
  destruct (Continuable_load_hpack _ _) as [[[frame' payload'] hpack'] r]. destruct H' as [Hn Hr].
  rewrite bind_modify. pose proof (classify_resumable (head_stream_id head)
    (Z.land (head_flag head) 0x4 =? 0x4) r) as Hc.
  destruct (classify _ _ _) as [[]|err|]; [rewrite bind_lift_Ok| |exact (Hn Hc)].
  - destruct (Hr Hc) as [? ?]. case_match; [by split|]. rewrite bind_modify. by split.
  - destruct err; [done| |done]. destruct (Hr Hc) as [? ?]. by split.
Qed.

Lemma decode_frame_post (bytes : B) s :
  frame_inv s -> is_bytes (buf_bytes bytes) -> 9 <= len (buf_bytes bytes) ->
  buffered s + len (buf_bytes bytes) < 2 ^ 62 ->
  frame_post (fr_max_header_list_size s) (decode_frame bytes s).
Proof.
  intros Hs Hb H9 Hl. unfold decode_frame.
  destruct (head_parse_total (E:=RecvError) (buf_bytes bytes) Hb H9) as (head & -> & Hh).
  rewrite bind_lift_Ok. unfold get. unfold mbind at 1, SE_bind at 1.
  case_match eqn:Hc; [done|]. cbv zeta.
  assert (is_bytes (drop 9 (buf_bytes bytes))) as Hp by auto with kayrx.
  assert (slice_from (buf_bytes bytes) HEADER_LEN = (Ok (drop 9 (buf_bytes bytes)) : outcome RecvError _)) as ->.
  { unfold slice_from, HEADER_LEN.
    by rewrite (proj2 (Z.leb_le 0 9)), (proj2 (Z.leb_le 9 _)) by lia. }
  pose proof (sub_buf_split bytes (Z.to_nat HEADER_LEN) Hb ltac:(unfold HEADER_LEN, len in *; lia)) as [Hr Hrl].
  assert (len (buf_bytes bytes) < 2 ^ 62) as Hl'.
  { unfold buffered in Hl. pose proof (len_nonneg (buf_bytes bytes)).
    destruct (fr_partial s) as [p|]; [pose proof (len_nonneg (buf_bytes (partial_buf p)))|]; lia. }
  destruct (head_kind head) eqn:Hk; rewrite ?bind_lift_Ok.
  - apply frame_post_lift; [apply conn_err_no_panic, data_load_total; done|done|done].
  - pose proof (headers_load_total head _ Hr) as H.
    apply frame_post_lift; [apply load_err_no_panic; by destruct (Headers_load _ _) as [[]| |]|done|].
    intros [frame payload] Ef. destruct (Headers_load _ _) as [[f p]|[]|]; simplify_eq/=.
    destruct H as [[? ?] _]. apply header_block_post; [done|done|lia].
  - destruct (bool_decide (head_stream_id head = StreamId.ZERO)); [done|]. rewrite bind_lift_Ok.
    apply frame_post_lift; [by apply load_err_no_panic, priority_load_total|done|done].
  - apply frame_post_lift; [by apply conn_err_no_panic, reset_load_total|done|done].
  - apply frame_post_lift; [|done|done]. apply conn_err_no_panic.
    pose proof (settings_load_spec head _ Hp). by destruct (Settings.load _ _).
  - pose proof (push_promise_load_total head _ Hr) as H.
    apply frame_post_lift; [apply load_err_no_panic; by destruct (PushPromise_load _ _) as [[]| |]|done|].
    intros [frame payload] Ef. destruct (PushPromise_load _ _) as [[f p]|[]|]; simplify_eq/=.
    destruct H as [[? ?] _]. apply header_block_post; [done|done|lia].
  - apply frame_post_lift; [by apply conn_err_no_panic, ping_load_total|done|done].
  - apply frame_post_lift; [by apply conn_err_no_panic, go_away_load_total|done|done].
  - apply frame_post_lift; [by apply conn_err_no_panic, window_update_load_total|done|done].
  - by apply continuation_post.
  - done.
Qed.

End Total.

(** ** Frames are read back *)

Section ReadBack.
Context `{HM : HeaderMapOps} `{BM : BytesMut B} `{BD : BufMut D}.

(** The frames without a header block, and their encoders. *)
Definition control_encode (f : Frame (B:=B)) : option (D -> D) :=
  match f with
  | FSettings f => Some (Settings.encode f)
  | FPing f => Some (Ping.encode f)
  | FGoAway f => Some (GoAway.encode f)
  | FWindowUpdate f => Some (WindowUpdate.encode f)
  | FReset f => Some (Reset.encode f)
  | _ => None
  end.

Definition control_wf (f : Frame (B:=B)) : Prop :=
  match f with
  | FSettings f => Settings.wf f
  | FPing f => Ping.wf f
  | FGoAway f => GoAway.wf f
  | FWindowUpdate f => WindowUpdate.wf f
  | FReset f => Reset.wf f
  | _ => False
  end.

(** GOAWAY loses its debug data on the way. *)
Definition received (f : Frame (B:=B)) : Frame :=
  match f with
  | FGoAway g => FGoAway (GoAway.new (ga_last_stream_id g) (ga_error_code g))
  | f => f
  end.

Lemma frame_bytes_parts (bytes : B) h payload :
  Head.wf h -> buf_bytes bytes = frame_bytes h payload ->
  Head.parse (buf_bytes bytes) = (Ok h : outcome RecvError _) /\
  slice_from (buf_bytes bytes) HEADER_LEN = (Ok payload : outcome RecvError _) /\
  buf_bytes (bm_split_to bytes (Z.to_nat HEADER_LEN)).2 = payload.
Proof.
  intros Hh Hb. rewrite Hb. unfold frame_bytes. split; [by apply head_parse_bytes|].
  assert (len (head_bytes h (len payload)) = HEADER_LEN) as E
    by (unfold len; by rewrite head_bytes_length).
  split; [by rewrite slice_from_app|].
  destruct (bm_split_to_bytes bytes (Z.to_nat HEADER_LEN)) as [_ ->];
    rewrite Hb; unfold frame_bytes.
  - rewrite length_app, head_bytes_length. unfold HEADER_LEN. lia.
  - apply drop_app_length'. by rewrite head_bytes_length.
Qed.

(** The arms of [decode_frame] that load the payload slice. *)
Definition control_load (h : Head) (payload : list Z) : outcome FrameError (Frame (B:=B)) :=
  match head_kind h with
  | KSettings => FSettings <$> Settings.load h payload
  | KPing => FPing <$> Ping.load h payload
  | KGoAway => FGoAway <$> GoAway.load payload
  | KWindowUpdate => FWindowUpdate <$> WindowUpdate.load h payload
  | KReset => FReset <$> Reset.load h payload
  | _ => Err BadFrameSize
  end.

(** Any frame whose arm of [decode_frame] loads the payload slice. *)
Lemma decode_frame_control (bytes : B) (s : FramedRead (B:=B)) h payload f :
  fr_partial s = None -> Head.wf h -> buf_bytes bytes = frame_bytes h payload ->
  control_load h payload = Ok f ->
  decode_frame bytes s = (s, Ok (Some f)).
Proof.
  unfold control_load. intros Hs Hh Hb Hf. destruct (frame_bytes_parts bytes h payload Hh Hb) as (E1 & E2 & _).
  unfold decode_frame. rewrite E1, bind_lift_Ok. unfold get. unfold mbind at 1, SE_bind at 1.
  rewrite Hs. cbn [andb]. cbv zeta. rewrite E2.
  destruct (head_kind h); try done; rewrite bind_lift_Ok;
    match type of Hf with _ <$> ?r = _ => destruct r; simplify_eq/= end;
    by rewrite bind_lift_Ok.
Qed.

Lemma control_read_back f enc :
  control_encode f = Some enc -> control_wf f ->
  exists h p, writes enc (frame_bytes h p) /\ len p <= 36 /\
    forall (bytes : B) (s : FramedRead (B:=B)), fr_partial s = None -> buf_bytes bytes = frame_bytes h p ->
      decode_frame bytes s = (s, Ok (Some (received f))).
Proof.
  intros He Hwf.
  assert (forall F k (e : F -> D -> D) ld g g' (f' : Frame (B:=B)), roundtrips k e ld g g' ->
    (forall h p, head_kind h = k -> ld h p = Ok g' ->
      control_load h p = Ok f') ->
    exists h p, writes (e g) (frame_bytes h p) /\ len p <= 36 /\
      forall (bytes : B) (s : FramedRead (B:=B)), fr_partial s = None -> buf_bytes bytes = frame_bytes h p ->
        decode_frame bytes s = (s, Ok (Some f'))) as Hrt.
  { intros F k e ld g g' f' (h & p & Hk & Hh & Hp & Hw & Hl) Hf. exists h, p. split; [done|]. split; [done|].
    intros bytes s Hs Hb. eapply decode_frame_control; eauto. }
  destruct f as [| | | |f|f|f|f|f]; simplify_eq/=.
  - apply (Hrt _ KSettings _ Settings.load f f); [by apply settings_roundtrips|].
    intros h p Hk Hp. unfold control_load. by rewrite Hk, Hp.
  - apply (Hrt _ KPing _ Ping.load f f); [by apply ping_roundtrips|]. intros h p Hk Hp. unfold control_load. by rewrite Hk, Hp.
  - eapply (Hrt _ KGoAway _ (fun _ => GoAway.load) f); [by apply go_away_roundtrips|].
    intros h p Hk Hp. unfold control_load. by rewrite Hk, Hp.
  - apply (Hrt _ KWindowUpdate _ WindowUpdate.load f f); [by apply window_update_roundtrips|].
    intros h p Hk Hp. unfold control_load. by rewrite Hk, Hp.
  - apply (Hrt _ KReset _ Reset.load f f); [by apply reset_roundtrips|]. intros h p Hk Hp. unfold control_load. by rewrite Hk, Hp.
Qed.

End ReadBack.

(** ** Properties *)

(** What a caller sees of a result. *)
Section Views.
Context `{HM : HeaderMapOps} `{BM : BytesMut B}.
Implicit Types r : outcome RecvError (option (Frame (B:=B))).

(** Nothing to return yet. *)
Definition pending r : bool := match r with Ok None => true | _ => false end.

Definition recv_error r : option RecvError := match r with Err e => Some e | _ => None end.

(** The fields of a HEADERS frame, as bytes. *)
Definition headers_fields r : option (list (list Z * list Z)) :=
  match r with
  | Ok (Some (FHeaders f)) => Some ((fun e => (name_as_ref e.1, value_as_ref e.2)) <$>
      hm_iter (hb_fields (h_header_block f)))
  | _ => None
  end.
End Views.


Import ModelHttp.


(** Control frames are read back: SETTINGS, PING, GOAWAY, WINDOW_UPDATE and
    RST_STREAM frames with values in their ranges, written by their encoder
    into any destination with room for 45 bytes, are decoded to the frame that
    was written (GOAWAY without its debug data), and the reader's state does
    not change. *)
Theorem control_frames_roundtrip `{HM : HeaderMapOps} `{BM : BytesMut B} `{BD : BufMut D}
    (f : Frame (B:=B)) enc (dst : D) (bytes : B) (s : FramedRead (B:=B)) :
  control_encode f = Some enc -> control_wf f -> fr_partial s = None ->
  45 <= remaining_mut dst ->
  buf_bytes (enc dst) = buf_bytes dst ++ buf_bytes bytes ->
  decode_frame bytes s = (s, Ok (Some (received f))).
Proof.
  intros He Hwf Hs Hr Hb.
  destruct (control_read_back f enc He Hwf) as (h & p & Hw & Hl & Hd). apply Hd; [done|].
  assert (len (frame_bytes h p) <= remaining_mut dst) as Hroom
    by (unfold frame_bytes; rewrite len_app; unfold len at 1; rewrite head_bytes_length; lia).
  pose proof (writes_bytes _ _ dst Hw Hroom) as E. rewrite Hb in E.
  by apply (app_inv_head (buf_bytes dst)).
Qed.

Lemma control_frames_roundtrip_witness :
  decode_frame [0; 0; 6; 4; 0; 0; 0; 0; 0; 0; 5; 0; 0; 64; 0] (FramedRead_new (B:=list Z)) =
    (FramedRead_new, Ok (Some (FSettings
      (MkSettings SettingsFlags.empty None None None None (Some 16384) None)))).
Proof.
  apply (control_frames_roundtrip
    (FSettings (MkSettings SettingsFlags.empty None None None None (Some 16384) None))
    (Settings.encode (MkSettings SettingsFlags.empty None None None None (Some 16384) None))
    ([] : list Z)); [reflexivity| |reflexivity|vm_compute; congruence|vm_compute; reflexivity].
  split_and!; simpl; try exact I; [lia|by right].
Defined.

(** A HEADERS frame whose block ends after the plain name of a literal field. *)
Lemma literal_name_lost `{HM : HeaderMapOps} `{BM : BytesMut B} (s : FramedRead (B:=B)) id n (bytes : B) :
  fr_partial s = None -> StreamId.valid id -> int_ok 7 (len n) ->
  buf_bytes bytes = frame_bytes (Head.new KHeaders 0 id) (0 :: int_bytes 7 0 (len n) ++ n) ->
  exists s' p, decode_frame bytes s = (s', Ok None) /\ fr_partial s' = Some p /\
    partial_frame p = CHeaders (MkHeaders id None empty_block (MkHeadersFlag 0)) /\
    buf_bytes (partial_buf p) = [] /\ table (fr_hpack s') = table (fr_hpack s).
Proof.
  intros Hs Hid Hn Hb.
  destruct (frame_bytes_parts bytes _ _ (conj (conj (Z.le_refl 0) eq_refl) Hid : Head.wf (Head.new KHeaders 0 id)) Hb)
    as (E1 & _ & E3).
  unfold decode_frame. rewrite E1, bind_lift_Ok. unfold get at 1. unfold mbind at 1, SE_bind at 1.
  rewrite Hs. cbn [andb]. cbv zeta. set (src := (bm_split_to bytes _).2) in *. cbn [head_kind Head.new].
  change (Headers_load (Head.new KHeaders 0 id) src) with
    (Ok (MkHeaders id None empty_block (MkHeadersFlag 0), src) : outcome FrameError _).
  cbn [load_err]. rewrite bind_lift_Ok. unfold header_block, get. unfold mbind at 1, SE_bind at 1.
  destruct (plain_name_dropped (fr_hpack s) src n Hn E3) as (d' & c' & Ec & Ed & Eb).
  unfold Continuable_load_hpack, Headers_load_hpack, HeaderBlock_load. cbn [h_header_block].
  rewrite Eb. eexists _, _. split; [reflexivity|]. by split_and!.
Qed.

(** C39. A header block that is cut between a plain literal name and its value loses the
    name.  For every name [n] that a frame can carry, a HEADERS frame without END_HEADERS
    whose block is the literal field with the plain name [n] up to its value is accepted,
    and what the reader keeps for the CONTINUATION frames is the same for every [n]: an
    empty block, an empty buffer and an unchanged dynamic table.  So the block of [a: b]
    decodes when it is sent whole, and cut there its CONTINUATION fails the connection:
    the value is read as the start of a field. *)
Theorem resume_loses_literal_name :
  (forall `{HM : HeaderMapOps} `{BM : BytesMut B} (s : FramedRead (B:=B)) id n (bytes : B),
    fr_partial s = None -> StreamId.valid id -> int_ok 7 (len n) ->
    buf_bytes bytes = frame_bytes (Head.new KHeaders 0 id) (0 :: int_bytes 7 0 (len n) ++ n) ->
    exists s' p, decode_frame bytes s = (s', Ok None) /\ fr_partial s' = Some p /\
      partial_frame p = CHeaders (MkHeaders id None empty_block (MkHeadersFlag 0)) /\
      buf_bytes (partial_buf p) = [] /\ table (fr_hpack s') = table (fr_hpack s)) /\
  let s0 := FramedRead_new (B:=list Z) in
  let r1 := decode_frame [0; 0; 3; 1; 0; 0; 0; 0; 1; 0; 1; 97] s0 in
  let r2 := decode_frame [0; 0; 2; 9; 4; 0; 0; 0; 1; 1; 98] r1.1 in
  headers_fields (decode_frame [0; 0; 5; 1; 4; 0; 0; 0; 1; 0; 1; 97; 1; 98] s0).2 =
    Some [([97], [98])] /\
  pending r1.2 = true /\ recv_error r2.2 = Some (RecvConnection PROTOCOL_ERROR).
Proof.
  split; [|split_and!; vm_compute; reflexivity].
  intros. by eapply literal_name_lost.
Qed.

(** A malformed field is forgotten when its header block goes on in a
    CONTINUATION frame: the block [connection: x, a: b] in one HEADERS frame is
    a stream error, the same block cut inside the second field is accepted. *)
Theorem malformed_field_forgotten :
  let s0 := FramedRead_new (B:=list Z) in
  let connection := [0; 10; 99; 111; 110; 110; 101; 99; 116; 105; 111; 110; 1; 120] in
  let r0 := decode_frame ([0; 0; 19; 1; 5; 0; 0; 0; 1] ++ connection ++ [0; 1; 97; 1; 98]) s0 in
  let r1 := decode_frame ([0; 0; 16; 1; 1; 0; 0; 0; 1] ++ connection ++ [0; 1]) s0 in
  let r2 := decode_frame [0; 0; 3; 9; 4; 0; 0; 0; 1; 97; 1; 98] r1.1 in
  recv_error r0.2 = Some (RecvStream (MkStreamId 1) PROTOCOL_ERROR) /\
  pending r1.2 = true /\ headers_fields r2.2 = Some [([97], [98])].
Proof. split_and!; vm_compute; reflexivity. Qed.
