(* ===== verification/FramedWrite.v ===== *)
(** * Writing frames ([http/h2/codec/framed_write.rs])

    Frames are encoded into a buffer; the payload of a large DATA frame and the
    CONTINUATION frames of a header block are kept aside until the buffer has been
    written.  The socket is a script of its answers and the bytes it has taken. *)

From S2P Require Import Prelude Bytes H2Types HttpTypes Frames HpackPrim HpackTable HpackEncoder HeadersFrame FramedRead.
Import HEncoder.

(** ** The socket *)

(** What [poll_write] answers: it takes at most [n] bytes. *)
Inductive WriteAnswer :=
  | WPending
  | WError
  | WTake (n : nat).

Record Socket := MkSocket { so_script : list WriteAnswer; so_sent : list Z }.

(** At the end of the script the socket is not ready. *)
Definition next_answer (s : Socket) : WriteAnswer * list WriteAnswer :=
  match so_script s with
  | a :: script => (a, script)
  | [] => (WPending, [])
  end.

Section FramedWrite.
Context `{HM : HeaderMapOps} {HI : HeaderMapIntoIter (HM:=HM)} {NH : NameHasher (HT:=HT)} `{BM : BytesMut B} `{TB : Buf T}.

(** [http/h2/codec/framed_write.rs] Next *)
Inductive Next :=
  | NData (frame : Data T)
  | NContinuation (frame : Continuation).

(** [http/h2/codec/framed_write.rs] FramedWrite; the buffer is a [Cursor<BytesMut>] *)
Record FramedWrite := MkFramedWrite {
  fw_hpack : Encoder;
  fw_buf : B;
  fw_pos : nat;
  fw_next : option Next;
  fw_last_data_frame : option (Data T);
  fw_max_frame_size : Z
}.
Abbreviation W := (SE FramedWrite).

(** [http/h2/codec/framed_write.rs] CHAIN_THRESHOLD *)
Definition CHAIN_THRESHOLD : Z := 256.
(** [http/h2/codec/framed_write.rs] MIN_BUFFER_CAPACITY *)
Definition MIN_BUFFER_CAPACITY : Z := HEADER_LEN + CHAIN_THRESHOLD.

(** [http/h2/codec/framed_write.rs] FramedWrite::new *)
Definition FramedWrite_new : FramedWrite :=
  MkFramedWrite HEncoder.default bm_new 0 None None DEFAULT_MAX_FRAME_SIZE.

Definition set_buf (b : B) (w : FramedWrite) : FramedWrite :=
  MkFramedWrite (fw_hpack w) b (fw_pos w) (fw_next w) (fw_last_data_frame w) (fw_max_frame_size w).
Definition set_next (n : option Next) (w : FramedWrite) : FramedWrite :=
  MkFramedWrite (fw_hpack w) (fw_buf w) (fw_pos w) n (fw_last_data_frame w) (fw_max_frame_size w).
Definition set_last_data_frame (d : option (Data T)) (w : FramedWrite) : FramedWrite :=
  MkFramedWrite (fw_hpack w) (fw_buf w) (fw_pos w) (fw_next w) d (fw_max_frame_size w).

(** The bytes of the buffer after the position of the cursor *)
Definition buf_rest (w : FramedWrite) : list Z := drop (fw_pos w) (buf_bytes (fw_buf w)).

(** [http/h2/codec/framed_write.rs] FramedWrite::has_capacity *)
Definition has_capacity (w : FramedWrite) : bool :=
  match fw_next w with None => true | Some _ => false end &&
  (MIN_BUFFER_CAPACITY <=? remaining_mut (fw_buf w)).

(** [http/h2/codec/framed_write.rs] FramedWrite::is_empty *)
Definition fw_is_empty (w : FramedWrite) : bool :=
  match fw_next w with
  | Some (NData frame) => negb (has_remaining (data_data frame))
  | _ => bool_decide (buf_rest w = [])
  end.

(** [http/h2/codec/framed_write.rs] FramedWrite::set_max_frame_size *)
Definition fw_set_max_frame_size (val : Z) : W Never () :=
  _ ← lift (assert_ (val <=? MAX_MAX_FRAME_SIZE));
  modify (fun w => MkFramedWrite (fw_hpack w) (fw_buf w) (fw_pos w) (fw_next w) (fw_last_data_frame w) (as_u32 val)).

(** [http/h2/codec/framed_write.rs] FramedWrite::take_last_data_frame *)
Definition take_last_data_frame : W Never (option (Data T)) :=
  d ← gets fw_last_data_frame;
  _ ← modify (set_last_data_frame None);
  mret d.

(** [http/h2/codec/framed_write.rs:17-22] limited_write_buf!, and an encoder that
    writes to it *)
Definition limited {E A} (c : SE (Encoder * Limit B) Never A) : W E A := fun w =>
  let limit := fw_max_frame_size w + HEADER_LEN in
  let '((hpack, dst), r) := c (fw_hpack w, MkLimit (fw_buf w) limit) in
  (MkFramedWrite hpack (limit_inner dst) (fw_pos w) (fw_next w) (fw_last_data_frame w) (fw_max_frame_size w),
   match r with Ok a => Ok a | Err e => match e : Empty_set with end | Panic => Panic end).

Definition on_buf {E} (f : B -> B) : W E () := modify (fun w => set_buf (f (fw_buf w)) w).

(** [http/h2/codec/framed_write.rs] FramedWrite::buffer *)
Definition buffer (item : Frame (B:=T)) : W UserError () :=
  w ← get;
  _ ← lift (assert_ (has_capacity w));
  match item with
  | FData v =>
      let len := remaining (data_data v) in
      if fw_max_frame_size w <? len then throw PayloadTooBig
      else if CHAIN_THRESHOLD <=? len then
        _ ← on_buf (Head.encode (Data.head v) len);
        modify (set_next (Some (NData v)))
      else
        '(v, buf) ← lift (Data.encode_chunk v (fw_buf w));
        _ ← on_buf (fun _ => buf);
        _ ← lift (assert_ (remaining (data_data v) =? 0));
        modify (set_last_data_frame (Some v))
  | FHeaders v =>
      c ← limited (Headers_encode v);
      match c with
      | Some continuation => modify (set_next (Some (NContinuation continuation)))
      | None => mret tt
      end
  | FPushPromise v =>
      c ← limited (PushPromise_encode v);
      match c with
      | Some continuation => modify (set_next (Some (NContinuation continuation)))
      | None => mret tt
      end
  | FSettings v => on_buf (Settings.encode v)
  | FGoAway v => on_buf (GoAway.encode v)
  | FPing v => on_buf (Ping.encode v)
  | FWindowUpdate v => on_buf (WindowUpdate.encode v)
  | FPriority _ => panic
  | FReset v => on_buf (Reset.encode v)
  end.

(** ** Flushing *)

(** [krse/io/async_write.rs] AsyncWrite::poll_write_buf, of the buffer followed by the
    payload of a data frame, when the socket takes at most [n] bytes: a write covers
    bytes of one of them only. *)
Definition write_some (n : nat) (w : FramedWrite) : FramedWrite * list Z :=
  let rest := buf_rest w in
  let from_buf := 
    let n := min n (length rest) in
    (MkFramedWrite (fw_hpack w) (fw_buf w) (fw_pos w + n) (fw_next w) (fw_last_data_frame w) (fw_max_frame_size w),
     take n rest) in
  match fw_next w with
  | Some (NData frame) =>
      if bool_decide (rest = []) then
        let payload := src_bytes (data_data frame) in
        let n := min n (length payload) in
        (set_next (Some (NData (MkData (data_stream_id frame) (advance (data_data frame) n) (data_flags frame)
                                  (data_pad_len frame)))) w, take n payload)
      else from_buf
  | _ => from_buf
  end.

(** [http/h2/codec/framed_write.rs:195-207] the inner loop of FramedWrite::flush *)
Fixpoint write_out (script : list WriteAnswer) (w : FramedWrite) (sent : list Z) :
    FramedWrite * Socket * outcome () (Async ()) :=
  if fw_is_empty w then (w, MkSocket script sent, Ok (Ready tt))
  else
    match script with
    | [] => (w, MkSocket [] sent, Ok Pending)
    | WPending :: script => (w, MkSocket script sent, Ok Pending)
    | WError :: script => (w, MkSocket script sent, Err tt)
    | WTake n :: script =>
        let '(w, taken) := write_some n w in
        write_out script w (sent ++ taken)
    end.

Abbreviation F := (SE (FramedWrite * Socket) ()).

(** [ready!(..)?]: go on when ready *)
Definition when_ready {A} (c : F (Async ())) (k : F (Async A)) : F (Async A) :=
  r ← c;
  match r with Ready _ => k | Pending => mret Pending end.

(** [http/h2/codec/framed_write.rs] FramedWrite::flush, without the flush of the socket.
    [fuel] bounds the number of frames. *)
Fixpoint flush_frames (fuel : nat) : F (Async ()) :=
  match fuel with
  | O => panic
  | S fuel =>
      when_ready (fun st => write_out (so_script st.2) st.1 (so_sent st.2))
        (w ← gets fst;
         _ ← modify (fun st => (MkFramedWrite (fw_hpack w) (bm_truncate (fw_buf w) 0) 0 None
                                  (fw_last_data_frame w) (fw_max_frame_size w), st.2));
         match fw_next w with
         | Some (NData frame) =>
             _ ← modify (fun st => (set_last_data_frame (Some frame) st.1, st.2));
             mret (Ready tt)
         | Some (NContinuation frame) =>
             c ← zoom fst (fun w st => (w, st.2)) (limited (Continuation_encode frame));
             match c with
             | Some continuation =>
                 w ← gets fst;
                 if len (buf_bytes (fw_buf w)) =? HEADER_LEN then panic
                 else
                   _ ← modify (fun st => (set_next (Some (NContinuation continuation)) st.1, st.2));
                   flush_frames fuel
             | None => flush_frames fuel
             end
         | None => mret (Ready tt)
         end)
  end.

(** The answer of the socket to [poll_flush] or [poll_shutdown] *)
Definition poll_socket : F (Async ()) := fun st =>
  let '(a, script) := next_answer st.2 in
  let st := (st.1, MkSocket script (so_sent st.2)) in
  match a with
  | WPending => (st, Ok Pending)
  | WError => (st, Err tt)
  | WTake _ => (st, Ok (Ready tt))
  end.

(** [http/h2/codec/framed_write.rs] FramedWrite::flush *)
Definition flush (fuel : nat) : F (Async ()) := when_ready (flush_frames fuel) poll_socket.

(** [http/h2/codec/framed_write.rs] FramedWrite::poll_ready *)
Definition poll_ready (fuel : nat) : F (Async ()) :=
  w ← gets fst;
  if has_capacity w then mret (Ready tt)
  else
    when_ready (flush fuel)
      (w ← gets fst;
       if has_capacity w then mret (Ready tt) else mret Pending).

(** [http/h2/codec/framed_write.rs] FramedWrite::shutdown *)
Definition shutdown (fuel : nat) : F (Async ()) := when_ready (flush fuel) poll_socket.

End FramedWrite.
