(* ===== verification/HeadersEncodeCorrect.v ===== *)
(** * Header frames on the wire

    Every frame of a header block is written with its length and its flags patched
    in behind its head, whatever is already in the buffer. *)

From S2P Require Import Prelude Bytes H2Types Huffman HuffmanCorrect HttpTypes Frames FramesCorrect HpackPrim HpackDecoder HpackWire.
From S2P Require Import HpackTable HpackTableCorrect HpackTableIndex HpackEncoder HpackSync HpackRoundtrip HeadersFrame FramedRead.
Import HTable HEncoder.

(** ** Numbers in two parts *)

Lemma to_be_bytes_S n z : to_be_bytes (S n) z = to_be_bytes n (z / 256) ++ [z mod 256].
Proof. done. Qed.

Lemma to_be_bytes_add a b z : 0 <= z -> to_be_bytes (a + b) z = to_be_bytes a (z / 256 ^ Z.of_nat b) ++ to_be_bytes b z.
Proof.
  revert z. induction b as [|b IH]; intros z Hz.
  - rewrite Nat.add_0_r. change (256 ^ Z.of_nat 0) with 1. by rewrite Z.div_1_r, app_nil_r.
  - replace (a + S b)%nat with (S (a + b)) by lia. rewrite !to_be_bytes_S, IH by (apply Z.div_pos; lia).
    rewrite <- (assoc_L (++)). do 2 f_equal. rewrite Z.div_div by lia. f_equal.
    rewrite Nat2Z.inj_succ, Z.pow_succ_r by lia. done.
Qed.

Lemma to_be_bytes_0 n : to_be_bytes n 0 = replicate n 0.
Proof. induction n as [|n IH]; [done|]. rewrite to_be_bytes_S, Zdiv_0_l, IH. symmetry. apply replicate_S_end. Qed.

(** A length below [2 ^ 24] in eight bytes: five zeros and the length. *)
Lemma len_be_8 n : 0 <= n < 2 ^ 24 ->
  forallb (fun b => b =? 0) (take 5 (to_be_bytes 8 n)) = true /\ drop 5 (to_be_bytes 8 n) = to_be_bytes 3 n.
Proof.
  intros Hn. change 8%nat with (5 + 3)%nat. rewrite to_be_bytes_add by lia.
  change (256 ^ Z.of_nat 3) with (2 ^ 24). rewrite Z.div_small by done. rewrite to_be_bytes_0. split; [done|].
  by rewrite drop_app_length' by (by rewrite length_replicate).
Qed.

Section Patch.
Context `{BM : BytesMut B}.
Implicit Types (dst : Limit B).

Lemma set_byte_spec {E} pre x y post dst :
  buf_bytes dst = pre ++ x :: post ->
  exists dst', set_byte (len pre) y dst = (dst', Ok tt : outcome E ()) /\ buf_bytes dst' = pre ++ y :: post.
Proof.
  intros Hb. unfold set_byte, position. change (buf_bytes (limit_inner dst)) with (buf_bytes dst). rewrite Hb.
  pose proof (len_nonneg pre). pose proof (len_nonneg post).
  rewrite (proj2 (Z.leb_le _ _)), (proj2 (Z.ltb_lt _ _)) by (rewrite ?len_app, ?len_cons; lia). cbn [andb].
  eexists. split; [done|]. cbn [buf_bytes limit_buf_mut limit_inner]. unfold len. rewrite Nat2Z.id.
  rewrite bm_set_bytes by (change (buf_bytes (limit_inner dst)) with (buf_bytes dst); rewrite Hb, length_app; simpl; lia).
  change (buf_bytes (limit_inner dst)) with (buf_bytes dst). rewrite Hb.
  rewrite insert_app_r_alt by lia. rewrite Nat.sub_diag. done.
Qed.

Lemma get_byte_spec {E} pre x post dst :
  buf_bytes dst = pre ++ x :: post -> get_byte (len pre) dst = (dst, Ok x : outcome E Z).
Proof.
  intros Hb. unfold get_byte. change (buf_bytes (limit_inner dst)) with (buf_bytes dst). rewrite Hb.
  unfold Bytes.index. pose proof (len_nonneg pre). rewrite (proj2 (Z.ltb_ge _ _)) by lia. unfold len. by rewrite Nat2Z.id, list_lookup_middle.
Qed.

Lemma set_bytes_spec l : forall pre old post dst,
  length old = length l -> buf_bytes dst = pre ++ old ++ post ->
  exists dst', set_bytes (len pre) l dst = (dst', Ok tt) /\ buf_bytes dst' = pre ++ l ++ post.
Proof.
  induction l as [|y l IH]; intros pre old post dst Hl Hb; destruct old as [|x old]; try done.
  - by exists dst.
  - cbn [set_bytes app] in *. destruct (set_byte_spec (E:=Never) pre x y (old ++ post) dst Hb) as (dst1 & E1 & B1).
    rewrite (bind_eq _ _ _ _ _ E1). destruct (IH (pre ++ [y]) old post dst1) as (dst2 & E2 & B2).
    + by injection Hl.
    + rewrite B1. by rewrite <- (assoc_L (++)).
    + exists dst2. rewrite len_app in E2. change (len [y]) with 1 in E2. split; [done|].
      rewrite B2. by rewrite <- (assoc_L (++)).
Qed.
End Patch.

(** ** One frame *)

Section Frame.
Context `{HM : HeaderMapOps} {HI : HeaderMapIntoIter (HM:=HM)} {NH : NameHasher (HT:=HT)} `{BM : BytesMut B}.
Implicit Types (dst : Limit B) (head : Head) (e : Encoder).

(** The head of a frame that another one continues. *)
Definition continued head : Head := MkHead (head_kind head) (head_flag head - END_HEADERS) (head_stream_id head).

Definition cont_of head (r : Encode) (rest : list (Header (option HeaderName))) : option Continuation :=
  match r with
  | Full => None
  | Partial st => Some (MkContinuation (head_stream_id head) (MkEncodingHeaderBlock (Some st) rest))
  end.
Definition final_head head (r : Encode) : Head := match r with Full => head | Partial _ => continued head end.

Lemma write_head head dst :
  HEADER_LEN <= remaining_mut dst ->
  exists dst', write_checked HEADER_LEN (Head.encode head 0) dst = (dst', Ok tt) /\
    buf_bytes dst' = buf_bytes dst ++ head_bytes head 0 /\ remaining_mut dst' = remaining_mut dst - HEADER_LEN.
Proof.
  intros Hr. unfold write_checked. rewrite bind_gets, (proj2 (Z.leb_le _ _)) by done. cbn [assert_].
  rewrite bind_lift_Ok. unfold write, modify. eexists. split; [done|].
  assert (len (head_bytes head 0) = HEADER_LEN) as Hl by (unfold len; by rewrite head_bytes_length).
  pose proof (head_encode_writes (B:=Limit B) head 0) as Hw. Transparent writes. unfold writes in Hw. Opaque writes.
  rewrite <- Hl in *. by apply Hw.
Qed.

(** What is written in front of the fields: nothing or the promised stream. *)
Definition fills (f : SE (Limit B) Never ()) (fb : list Z) : Prop :=
  forall dst, len fb <= remaining_mut dst -> exists dst', f dst = (dst', Ok tt) /\
    buf_bytes dst' = buf_bytes dst ++ fb /\ remaining_mut dst' = remaining_mut dst - len fb.

Lemma fills_nothing : fills (mret tt) [].
Proof. intros dst Hr. exists dst. split; [done|]. rewrite app_nil_r. split; [done|]. unfold len. simpl. lia. Qed.

Lemma fills_u32 z : fills (write_checked 4 (fun dst => put_u32 dst z)) (to_be_bytes 4 z).
Proof.
  intros dst Hr. assert (len (to_be_bytes 4 z) = 4) as Hl by (unfold len; by rewrite to_be_bytes_length).
  unfold write_checked. rewrite bind_gets, (proj2 (Z.leb_le _ _)) by lia. cbn [assert_]. rewrite bind_lift_Ok.
  eexists. split; [done|]. unfold put_u32. split; [by apply put_slice_bytes|by apply put_slice_remaining].
Qed.

Lemma on_dst_eq {E A} (c : SE (Limit B) E A) e dst dst' (r : outcome E A) :
  c dst = (dst', r) -> on_dst c (e, dst) = ((e, dst'), r).
Proof. intros H. unfold on_dst, zoom. cbn [fst snd]. by rewrite H. Qed.

(** The flags of a frame that will be continued are changed in place. *)
Lemma patch_flags head r rest pre payload e dst :
  4 <= head_flag head < 256 -> buf_bytes dst = pre ++ frame_bytes head payload ->
  exists dst', (match cont_of head r rest with
       | Some _ => flag ← on_dst (get_byte (len pre + 4));
                   on_dst (set_byte (len pre + 4) (as_u8 (flag - END_HEADERS)))
       | None => mret tt end) (e, dst) = ((e, dst'), Ok tt : outcome Never ()) /\
    buf_bytes dst' = pre ++ frame_bytes (final_head head r) payload.
Proof.
  intros Hfl Hb. destruct r as [|st]; cbn [cont_of final_head]; [by exists dst|].
  set (pre' := pre ++ to_be_bytes 3 (len payload) ++ [Kind.as_byte (head_kind head)]).
  set (post := to_be_bytes 4 (stream_id_u32 (head_stream_id head)) ++ payload).
  assert (buf_bytes dst = pre' ++ head_flag head :: post) as Hb'.
  { rewrite Hb. unfold pre', post, frame_bytes, head_bytes. by rewrite <- !(assoc_L (++)). }
  assert (len pre + 4 = len pre') as -> by (unfold pre'; rewrite !len_app, len_be; change (len [_]) with 1; lia).
  destruct (set_byte_spec (E:=Never) pre' _ (as_u8 (head_flag head - END_HEADERS)) post dst Hb') as (dst' & E4 & B4).
  exists dst'. split.
  - rewrite (bind_eq _ _ _ _ _ (on_dst_eq _ e _ _ _ (get_byte_spec _ _ _ _ Hb'))). by apply on_dst_eq.
  - rewrite B4. unfold frame_bytes, head_bytes, continued, pre', post. cbn [head_kind head_flag head_stream_id].
    unfold as_u8, wrapu, END_HEADERS. rewrite Z.mod_small by lia. by rewrite <- !(assoc_L (++)).
Qed.

(** The frame is complete, with its length and its flags. *)
Lemma encode_frame (Q : Encode * list (Header (option HeaderName)) -> Encoder -> list Z -> Prop) self head f fb e dst :
  4 <= head_flag head < 256 -> fills f fb -> HEADER_LEN + len fb <= remaining_mut dst ->
  (forall dst1, remaining_mut dst1 = remaining_mut dst - HEADER_LEN - len fb ->
     returns (E:=Never) (encode (eb_hpack self) (eb_headers self)) (e, dst1) (fun r s => exists out,
       buf_bytes s.2 = buf_bytes dst1 ++ out /\ len (fb ++ out) < 2 ^ 24 /\ Q r s.1 out)) ->
  exists e' dst' r rest out,
    EncodingHeaderBlock_encode self head f (e, dst) = ((e', dst'), Ok (cont_of head r rest)) /\
    buf_bytes dst' = buf_bytes dst ++ frame_bytes (final_head head r) (fb ++ out) /\ Q (r, rest) e' out.
Proof.
  intros Hfl Hfill Hr Henc. pose proof (len_nonneg fb).
  destruct (write_head head dst) as (dsth & Eh & Bh & Rh); [lia|].
  destruct (Hfill dsth) as (dst1 & Ef & B1 & R1); [lia|]. rewrite Bh, <- (assoc_L (++)) in B1.
  destruct (proj1 (returns_Ok _ _ _) (Henc dst1 ltac:(lia))) as ([e' dst2] & [r rest] & Ee & out & B2 & Hlt & HQ).
  cbn [fst snd] in B2, HQ.
  set (n := len (fb ++ out)). pose proof (len_nonneg (fb ++ out)). destruct (len_be_8 n ltac:(unfold n; lia)) as [Hz Hd].
  assert (forall z, head_bytes head z = to_be_bytes 3 z ++ drop 3 (head_bytes head 0)) as Hh by done.
  destruct (set_bytes_spec (to_be_bytes 3 n) (buf_bytes dst) (to_be_bytes 3 0) (drop 3 (head_bytes head 0) ++ fb ++ out) dst2)
    as (dst3 & E3 & B3); [by rewrite !to_be_bytes_length|rewrite B2, B1, (Hh 0); by rewrite <- !(assoc_L (++))|].
  destruct (patch_flags head r rest (buf_bytes dst) (fb ++ out) e' dst3) as (dst' & E4 & B4); [done|..].
  { rewrite B3. unfold frame_bytes. fold n. rewrite (Hh n). by rewrite <- !(assoc_L (++)). }
  exists e', dst', r, rest, out. split; [|done].
  assert (forall c, (head_pos ← gets (fun s => position s.2); c head_pos) (e, dst) =
    (c (len (buf_bytes dst)) : SE (Encoder * Limit B) Never (option Continuation)) (e, dst)) as Hpos by done.
  unfold EncodingHeaderBlock_encode. rewrite Hpos, (bind_eq _ _ _ _ _ (on_dst_eq _ e _ _ _ Eh)), bind_gets. cbn [snd].
  rewrite (bind_eq _ _ _ _ _ (on_dst_eq _ e _ _ _ Ef)), (bind_eq _ _ _ _ _ Ee), bind_gets. cbn [snd].
  assert (as_u64 (position dst2 - position dsth) = n) as ->.
  { unfold position. change (buf_bytes (limit_inner dst2)) with (buf_bytes dst2).
    change (buf_bytes (limit_inner dsth)) with (buf_bytes dsth).
    rewrite B2, B1, Bh, !len_app. unfold n in *. rewrite len_app in *. pose proof (len_nonneg out).
    unfold as_u64, wrapu. rewrite Z.mod_small; lia. }
  rewrite Hz. cbn [assert_]. rewrite bind_lift_Ok, Hd, (bind_eq _ _ _ _ _ (on_dst_eq _ e' _ _ _ E3)).
  fold (cont_of head r rest). by rewrite (bind_eq _ _ _ _ _ E4).
Qed.
End Frame.

(** ** The fields of a block *)

Section Fields.
Context `{HM : HeaderMapOps} {HI : HeaderMapIntoIter (HM:=HM)}.

Definition pseudo_fields (p : Pseudo) : list (Header HeaderName) :=
  option_list (HMethod <$> p_method p) ++ option_list (HScheme <$> p_scheme p) ++
  option_list (HAuthority <$> p_authority p) ++ option_list (HPath <$> p_path p) ++
  option_list (HStatus <$> p_status p).
Definition map_fields (l : list (HeaderName * HeaderValue)) : list (Header HeaderName) :=
  (fun e => HField e.1 e.2) <$> l.
Definition block_fields (b : HeaderBlock) : list (Header HeaderName) :=
  pseudo_fields (hb_pseudo b) ++ map_fields (hm_iter (hb_fields b)).

Lemma expand_fields l : forall last,
  expand last ((fun e => HField e.1 e.2) <$> l) = map_fields <$> with_names last l.
Proof.
  induction l as [|[[n|] v] l IH]; intros last; [done|..]; cbn [fmap list_fmap expand fst snd Header.reify].
  - cbn [field_name with_names]. rewrite IH. by destruct (with_names (Some n) l).
  - cbn [with_names]. destruct last as [n|]; [|done]. cbn [mbind option_bind]. rewrite IH.
    by destruct (with_names (Some n) l).
Qed.

Lemma expand_pseudo p l : expand None (pseudo_items p ++ l) = (app (pseudo_fields p)) <$> expand None l.
Proof.
  destruct p as [[m|] [s|] [a|] [pa|] [st|]]; simpl; by destruct (expand None l).
Qed.

(** What the encoder is given stands for the fields of the block, those of the map in
    an order that keeps the values of every name in order. *)
Lemma block_expand b : exists l, expand None (eb_headers (into_encoding b)) = Some (pseudo_fields (hb_pseudo b) ++ map_fields l) /\
  (l ≡ₚ hm_iter (hb_fields b)) /\ forall n, filter (fun e => e.1 = n) l = filter (fun e => e.1 = n) (hm_iter (hb_fields b)).
Proof.
  destruct (hm_into_iter_names (hb_fields b)) as (l & El & Hl). exists l. split; [|done].
  unfold into_encoding, Iter_items. cbn [eb_headers it_pseudo it_fields from_option].
  by rewrite expand_pseudo, expand_fields, El.
Qed.
End Fields.

(** ** The frames of a block *)

Section Frames.
Context `{HM : HeaderMapOps} {HI : HeaderMapIntoIter (HM:=HM)} {NH : NameHasher (HT:=HT)} `{BM : BytesMut B}.
Implicit Types (dst : Limit B) (head : Head) (e : Encoder) (c : Continuable) (d : HDecoder (B:=B)).
Implicit Types (fs l ds : list (Header HeaderName)).

(** The two frames that start a header block. *)
Definition start_head c : Head :=
  match c with CHeaders h => Headers_head h | CPushPromise p => PushPromise_head p end.
Definition start_prefix c : list Z :=
  match c with CHeaders h => [] | CPushPromise p => to_be_bytes 4 (stream_id_u32 (pp_promised_id p)) end.
Definition start_block c : HeaderBlock :=
  match c with CHeaders h => h_header_block h | CPushPromise p => pp_header_block p end.
Definition start_encode c : SE (Encoder * Limit B) Never (option Continuation) :=
  match c with CHeaders h => Headers_encode h | CPushPromise p => PushPromise_encode p end.

(** What is left of the fields [fs] when those of [l] have been written. *)
Definition left_over (m : Z) ds e (r : Encode) rest fs l : Prop :=
  match r with
  | Full => Forall2 same_field fs l /\ exists hs, synced m ds e hs
  | Partial st => exists fs1 h fs2, fs = fs1 ++ h :: fs2 /\ Forall2 same_field fs1 l /\ pending m ds e st h /\
      expand (field_name h) rest = Some fs2
  end.

Lemma progress_left m room ds fs r rest e out :
  progress m room ds fs r rest e out -> Forall (fun h => header_room h <= room) fs ->
  len out <= room /\ exists l ds', fields_repr m ds out l ds' /\ left_over m ds' e r rest fs l /\ (fs <> [] -> l <> []).
Proof.
  intros (Hlen & l & ds' & Hl & H) Hroom. split; [done|]. exists l, ds'. split; [done|]. destruct r as [|st].
  - destruct H as (_ & HF & Hs). split; [done|]. intros Hne ->. by inversion HF; subst.
  - destruct H as (fs1 & h & fs2 & -> & HF & Hp & Hx & Hnil). split; [by exists fs1, h, fs2|]. intros _ ->.
    inversion HF; subst. specialize (Hnil eq_refl). apply Forall_app in Hroom as [_ [? _]%Forall_cons]. lia.
Qed.

Lemma update_bytes_len lim u : update_ok lim u -> len (update_bytes u) <= 10.
Proof.
  assert (forall v, size_ok lim v -> len (int_bytes 5 0x20 v) <= 5) as H.
  { intros v Hv. apply int_bytes_len; [lia|by apply (size_int_ok lim)]. }
  destruct u as [[v|a b]|]; simpl; [intros Hv|intros [Ha Hb]|done]; rewrite ?len_app.
  - specialize (H v Hv). lia.
  - pose proof (H a Ha). pose proof (H b Hb). lia.
Qed.

Context (max : Z) (Hmax : 16384 <= max < 2 ^ 24).

(** Fields that fit into every frame, with the promised stream and the size updates. *)
Definition fits h : Prop := sendable h /\ header_room h <= max - 14.

Lemma fits_room n fs : max - 14 <= n -> Forall fits fs -> Forall (fun h => header_room h <= n) fs.
Proof. intros Hn H. eapply Forall_impl; [exact H|]. intros h [_ ?]. cbv beta. lia. Qed.
Lemma fits_sendable fs : Forall fits fs -> Forall sendable fs.
Proof. intros H. eapply Forall_impl; [exact H|]. by intros h [? _]. Qed.

Lemma start_encode_eq c : exists f, fills f (start_prefix c) /\
  start_encode c = EncodingHeaderBlock_encode (into_encoding (start_block c)) (start_head c) f.
Proof. destruct c as [h|p]; eexists; (split; [|done]); [apply fills_nothing|apply fills_u32]. Qed.

Lemma start_prefix_len c : 0 <= len (start_prefix c) <= 4.
Proof. destruct c; [done|]. simpl. by rewrite len_be. Qed.

(** An encoder in step with a decoder that has the entries [ds], the table size [m]
    and the limit [lim]. *)
Definition in_step e (m : Z) ds (lim : Z) : Prop :=
  exists hs, table_ok (table e) hs /\ Forall2 same_field hs ds /\ max_size (table e) = m /\ m <= 2 ^ 32 /\
    update_ok lim (size_update e).

Lemma in_sync_step e d :
  in_sync e d <-> in_step e (table_max_size (HpackDecoder.table d)) (entries (HpackDecoder.table d)) (size_limit d) /\
    HpackDecoderCorrect.dec_ok d.
Proof.
  split.
  - intros (hs & ? & ? & Hm & ? & ? & ?). split; [|done]. exists hs. by rewrite <- Hm.
  - intros [(hs & ? & ? & Hm & ? & ?) ?]. exists hs. by rewrite Hm.
Qed.

Lemma synced_step m ds e hs lim : m <= 2 ^ 32 -> synced m ds e hs -> in_step e m ds lim.
Proof. intros Hm (Hu & Hmx & Ht & HF). exists hs. rewrite Hu. by split_and!. Qed.

(** The first frame of a block. *)
Lemma start_frame c e m0 ds lim fs dst :
  in_step e m0 ds lim -> expand None (eb_headers (into_encoding (start_block c))) = Some fs -> Forall fits fs ->
  4 <= head_flag (start_head c) < 256 -> remaining_mut dst = max + HEADER_LEN ->
  exists e' dst' r rest out m l ds',
    start_encode c (e, dst) = ((e', dst'), Ok (cont_of (start_head c) r rest)) /\
    buf_bytes dst' = buf_bytes dst ++ frame_bytes (final_head (start_head c) r) (start_prefix c ++ out) /\
    len (start_prefix c ++ out) <= max /\ m <= 2 ^ 32 /\
    block_repr lim m0 ds out l m ds' /\
    left_over m ds' e' r rest fs l /\ (fs <> [] -> l <> []).
Proof.
  intros (hs & Ht & HF & <- & Hm32 & Hu) Hx Hfs Hfl Hr.
  set (u := size_update e) in *. set (m := (resized u (max_size (table e)) hs).1).
  pose proof (resized_le _ u (max_size (table e)) hs Hu Hm32) as Hm'. pose proof (update_bytes_len _ _ Hu) as Hul.
  pose proof (len_nonneg (update_bytes u)). pose proof (start_prefix_len c) as Hpl.
  destruct (start_encode_eq c) as (f & Hf & ->).
  destruct (encode_frame (fun r e' out => len (start_prefix c ++ out) <= max /\ exists l ds',
      block_repr lim (max_size (table e)) ds out l m ds' /\
      left_over m ds' e' r.1 r.2 fs l /\ (fs <> [] -> l <> []))
    (into_encoding (start_block c)) (start_head c) f (start_prefix c) e dst Hfl Hf)
    as (e' & dst' & r & rest & out & E1 & E2 & Hlen & l & ds' & Hb & Hl).
  - lia.
  - intros dst1 R1. cbn [eb_hpack into_encoding].
    assert (0 <= remaining_mut dst1 <= 2 ^ 28) as R2 by lia.
    pose proof (encode_first (E:=Never) _ e hs ds _ fs dst1 Ht HF Hu Hm' Hx (fits_sendable _ Hfs) R2) as H1.
    fold u m in H1. rewrite (proj2 (Z.leb_le _ _)) in H1 by lia. eapply returns_mono; [|exact H1].
    intros [r rest] [e' dst2] (out & Eb & Hp). cbn [fst snd] in *.
    apply progress_left in Hp as (Hlo & l & ds' & Hfr & Hlf);
      [|apply fits_room; [lia|done]].
    exists (update_bytes u ++ out). rewrite !len_app. split; [done|]. split; [lia|]. split; [lia|].
    exists l, ds'. split; [|done]. unfold m in *. rewrite (resized_fst _ _ hs ds) in *. by apply block_resized.
  - exists e', dst', r, rest, out, m, l, ds'. by destruct Hl.
Qed.

(** A later frame of a block. *)
Lemma continuation_frame id m ds e st h rest fs dst :
  m <= 2 ^ 32 -> pending m ds e st h -> expand (field_name h) rest = Some fs -> Forall fits (h :: fs) ->
  remaining_mut dst = max + HEADER_LEN ->
  let head := Head.new KContinuation END_HEADERS id in
  exists e' dst' r rest' out l ds',
    Continuation_encode (MkContinuation id (MkEncodingHeaderBlock (Some st) rest)) (e, dst) =
      ((e', dst'), Ok (cont_of head r rest')) /\
    buf_bytes dst' = buf_bytes dst ++ frame_bytes (final_head head r) out /\ len out <= max /\
    fields_repr m ds out l ds' /\ left_over m ds' e' r rest' (h :: fs) l /\ l <> [].
Proof.
  intros Hm Hp Hx Hfs Hr head. apply Forall_cons in Hfs as Hfs'. destruct Hfs' as [[Hh _] Hfs2].
  destruct (encode_frame (fun r e' out => len out <= max /\ exists l ds', fields_repr m ds out l ds' /\
      left_over m ds' e' r.1 r.2 (h :: fs) l /\ (h :: fs <> [] -> l <> []))
    (MkEncodingHeaderBlock (Some st) rest) head (mret tt) [] e dst ltac:(done) fills_nothing)
    as (e' & dst' & r & rest' & out & E1 & E2 & Hlen & l & ds' & Hb & Hl & Hne).
  - change (len []) with 0. lia.
  - intros dst1 R1. change (len []) with 0 in R1. cbn [eb_hpack eb_headers].
    eapply returns_mono; [|apply (encode_again (E:=Never) m ds e st h rest fs dst1 Hm Hp Hh Hx (fits_sendable _ Hfs2)); lia].
    intros [r rest'] [e' dst2] (out & Eb & Hpr). cbn [fst snd] in *.
    apply progress_left in Hpr as (Hlo & Hrest); [|apply fits_room; [lia|done]].
    exists out. split; [done|]. split; [simpl; lia|]. split; [lia|done].
  - exists e', dst', r, rest', out, l, ds'. split_and!; auto.
Qed.
End Frames.
