(* ===== verification/HeadersTransport.v ===== *)
(** * Header blocks received in pieces

    Loading a run of well-formed fields within the limit stores every one of them,
    whatever pieces they arrive in.

    The second part follows a block from frame to frame. *)

From Stdlib Require Import String.
From S2P Require Import Prelude Bytes H2Types Huffman HttpTypes Frames HpackPrim HpackDecoder HpackDecoderCorrect.
From S2P Require Import HpackWire HpackTable HpackTableCorrect HpackEncoder HeadersFrame HeadersFrameCorrect.
From S2P Require Import HeadersEncodeCorrect FramesCorrect HpackSync HpackRoundtrip FramedRead FramedReadCorrect.

Section Store.
Context `{HM : HeaderMapOps}.
Implicit Types (h : Header HeaderName) (l fs : list (Header HeaderName)) (s : LoadState) (b : HeaderBlock).

(** A header in its place. *)
Definition store b h : HeaderBlock :=
  let pseudo p := MkHeaderBlock (hb_fields b) (hb_is_over_size b) p in
  match h with
  | HField n v => MkHeaderBlock (hm_append (hb_fields b) n v) (hb_is_over_size b) (hb_pseudo b)
  | HAuthority v => pseudo (set_p_authority v (hb_pseudo b))
  | HMethod v => pseudo (set_p_method v (hb_pseudo b))
  | HScheme v => pseudo (set_p_scheme v (hb_pseudo b))
  | HPath v => pseudo (set_p_path v (hb_pseudo b))
  | HStatus v => pseudo (set_p_status v (hb_pseudo b))
  end.
Definition stored_block l : HeaderBlock := foldl store empty_block l.

(** The larger of the two ways in which the code counts a header. *)
Definition list_size l : Z := foldr (fun h acc => Z.max (counted h) (Header.hlen h) + acc) 0 l.

Lemma list_size_app l l' : list_size (l ++ l') = list_size l + list_size l'.
Proof. induction l as [|h l IH]; simpl; lia. Qed.
Lemma list_size_nonneg l : 0 <= list_size l.
Proof. induction l as [|h l IH]; simpl; [lia|]. pose proof (counted_pos h). lia. Qed.

(** A list that the reader keeps whole: within the limit, and no more fields than the
    header map can hold. *)
Definition small (max : Z) l : Prop := list_size l < max /\ len l <= HM_USABLE.
Lemma small_prefix max l l' : small max (l ++ l') -> small max l.
Proof.
  intros [H1 H2]. rewrite list_size_app in H1. rewrite len_app in H2. pose proof (list_size_nonneg l'). pose proof (len_nonneg l').
  split; lia.
Qed.

(** ** One header *)

Lemma stored_block_snoc l h : stored_block (l ++ [h]) = store (stored_block l) h.
Proof. unfold stored_block. by rewrite foldl_app. Qed.

Lemma stored_names l n : stored (hb_pseudo (stored_block l)) n -> n ∈ Header.name <$> l.
Proof.
  induction l as [|h l IH] using rev_ind; [destruct n; simpl; by (done || intros [? ?])|].
  rewrite stored_block_snoc, fmap_app, elem_of_app. intros H.
  destruct h, n; (done || (right; apply list_elem_of_here) || (left; by apply IH)).
Qed.

(** There is room in the map for as many fields as it can hold. *)
Lemma stored_count l : len l <= HM_USABLE -> len (hm_iter (hb_fields (stored_block l))) <= len l.
Proof.
  induction l as [|h l IH] using rev_ind; intros Hl; [simpl; by rewrite hm_iter_new|].
  rewrite len_app, len_cons in *. change (len (@nil (Header HeaderName))) with 0 in *. specialize (IH ltac:(lia)).
  rewrite stored_block_snoc. destruct h as [n v|v|v|v|v|v]; cbn [store hb_fields]; [|lia..].
  assert (hm_room (hb_fields (stored_block l)) n = true) as Hr by (apply hm_room_below; lia).
  unfold len at 1. rewrite (hm_iter_append _ n v Hr), length_cons. unfold len in *. lia.
Qed.
Lemma stored_room l n : len l < HM_USABLE -> hm_room (hb_fields (stored_block l)) n = true.
Proof. intros Hl. apply hm_room_below. pose proof (stored_count l). lia. Qed.
Lemma snoc_room l h : len (l ++ [h]) <= HM_USABLE -> len l < HM_USABLE.
Proof. rewrite len_app, len_cons. change (len (@nil (Header HeaderName))) with 0. lia. Qed.

Lemma stored_fields l : len l <= HM_USABLE -> hm_is_empty (hb_fields (stored_block l)) = negb (existsb is_field l).
Proof.
  induction l as [|h l IH] using rev_ind.
  - intros _. unfold hm_is_empty. simpl. by rewrite hm_iter_new.
  - intros Hl%snoc_room. rewrite stored_block_snoc, existsb_app, negb_orb, <- IH by lia. destruct h; simpl; rewrite ?andb_true_r; try done.
    rewrite andb_false_r. unfold hm_is_empty. pose proof (hm_iter_append (hb_fields (stored_block l)) name value (stored_room l name Hl)) as Hp.
    destruct (hm_iter (hm_append _ _ _)); [|done]. by apply Permutation_nil_cons in Hp.
Qed.

(** A pseudo header takes the place of the one that was there. *)
Ltac pseudo_sizes :=
  unfold calculate_header_list_size, pseudo_size, decoded_header_size; cbn;
  change (name_len "method") with 6; change (name_len "scheme") with 6; change (name_len "status") with 6;
  change (name_len "authority") with 9; change (name_len "path") with 4;
  repeat match goal with |- context [len (?f ?x)] => pose proof (len_nonneg (f x)); generalize dependent (len (f x)); intros end;
  lia.

(** There is room for a header. *)
Definition room_for b h : Prop := match h with HField n _ => hm_room (hb_fields b) n = true | _ => True end.

Lemma store_size b h : room_for b h -> calculate_header_list_size (store b h) <= calculate_header_list_size b + Header.hlen h.
Proof.
  intros Hr. destruct h as [n v|v|v|v|v|v]; [|destruct b as [fl o [p1 p2 p3 p4 p5]]..].
  - cbn [store]. rewrite calculate_append by done. simpl. unfold decoded_header_size, Header.field_len. lia.
  - destruct p3; pseudo_sizes.
  - destruct p1; pseudo_sizes.
  - destruct p2; pseudo_sizes.
  - destruct p4; pseudo_sizes.
  - assert (len (status_as_str v) = 3) as Hv by (by rewrite status_as_str_digits). destruct p5; pseudo_sizes.
Qed.

Lemma stored_room_for l h : len (l ++ [h]) <= HM_USABLE -> room_for (stored_block l) h.
Proof. intros Hl%snoc_room. destruct h; try done. by apply stored_room. Qed.

Lemma stored_size l : len l <= HM_USABLE -> calculate_header_list_size (stored_block l) <= list_size l.
Proof.
  induction l as [|h l IH] using rev_ind; intros Hl.
  - unfold calculate_header_list_size. simpl. by rewrite hm_iter_new.
  - rewrite stored_block_snoc, list_size_app. pose proof (store_size (stored_block l) h (stored_room_for l h Hl)).
    apply snoc_room in Hl. specialize (IH ltac:(lia)). simpl. lia.
Qed.

(** ** A run of headers *)

(** The callback of [load] has stored the headers of [l]. *)
Definition loaded l s : Prop :=
  ls_block s = stored_block l /\ ls_reg s = existsb is_field l /\ ls_malformed s = false /\
  ls_headers_size s <= list_size l /\ ls_panicked s = false.

(** The next header of a well-formed list. *)
Lemma well_formed_next l h r : well_formed (l ++ h :: r) ->
  field_ok h \/ is_field h = false /\ existsb is_field l = false /\ Header.name h ∉ Header.name <$> l.
Proof.
  intros (ps & fs & E & Hps & Hnd & Hfs). apply app_eq_app in E as (k & [[-> ->]|[-> E]]).
  - left. apply Forall_app in Hfs as [_ [? _]%Forall_cons]. done.
  - destruct k as [|x k]; simpl in E.
    + left. subst fs. by apply Forall_cons in Hfs as [? _].
    + injection E as -> ->. right. apply Forall_app in Hps as [Hl [Hh _]%Forall_cons]. split; [done|]. split.
      * apply not_true_iff_false. rewrite existsb_exists. intros (y & Hy & Hf). rewrite Forall_forall in Hl.
        specialize (Hl y (proj2 (list_elem_of_In _ _) Hy)). congruence.
      * rewrite fmap_app in Hnd. apply NoDup_app in Hnd as (_ & Hd & _). intros Hin. apply (Hd _ Hin). apply list_elem_of_here.
Qed.

Lemma load_header_stores max s h :
  ls_malformed s = false -> ls_panicked s = false -> room_for (ls_block s) h -> ls_headers_size s + counted h < max ->
  (field_ok h \/ is_field h = false /\ ls_reg s = false /\ ~ stored (hb_pseudo (ls_block s)) (Header.name h)) ->
  load_header max s h = MkLoadState (store (ls_block s) h) (ls_reg s || is_field h) false (ls_headers_size s + counted h) false.
Proof.
  intros Hm Hp Hroom Hmax Hok. destruct s as [b reg mal size pan]; cbn [ls_block ls_reg ls_malformed ls_headers_size ls_panicked] in *. subst mal pan.
  destruct h as [n v|v|v|v|v|v]; cbn [load_header counted store is_field] in *; rewrite ?orb_true_r, ?orb_false_r;
    destruct Hok as [Hok|(Hf & Hr & Hs)]; try done.
  1: { destruct Hok as [-> Ht]. destruct (decide (n = std_name TE)) as [E|E].
    - rewrite (bool_decide_true (value_as_ref v = _)) by auto. rewrite andb_false_r. unfold account.
      cbn [ls_headers_size ls_block ls_reg ls_malformed ls_panicked]. simpl in Hroom. by rewrite (proj2 (Z.ltb_lt _ _)), Hroom.
    - rewrite (bool_decide_false (n = _)) by done. unfold account. cbn [andb ls_headers_size ls_block ls_reg ls_malformed ls_panicked].
      simpl in Hroom. by rewrite (proj2 (Z.ltb_lt _ _)), Hroom. }
  all: unfold set_pseudo; cbn [ls_reg ls_block Header.name stored] in *; rewrite Hr; apply eq_None_not_Some in Hs; rewrite Hs;
    unfold account; change (name_len "$ident" + 1) with 7; cbn [ls_headers_size ls_block ls_reg ls_malformed];
    by rewrite (proj2 (Z.ltb_lt _ _)).
Qed.

Lemma loaded_next max l h r s :
  well_formed (l ++ h :: r) -> small max (l ++ [h]) -> loaded l s -> loaded (l ++ [h]) (load_header max s h).
Proof.
  intros Hw [Hmax HU] (Hb & Hr & Hm & Hs & Hp). rewrite list_size_app in Hmax. cbn [list_size foldr] in Hmax.
  rewrite load_header_stores; [|done|done|rewrite Hb; by apply stored_room_for|lia|].
  - unfold loaded. cbn [ls_block ls_reg ls_malformed ls_headers_size ls_panicked].
    rewrite stored_block_snoc, existsb_app, Hb, Hr, list_size_app. cbn [existsb list_size foldr]. rewrite orb_false_r.
    split_and!; [done..|lia|done].
  - destruct (well_formed_next _ _ _ Hw) as [?|(Hf & Hl & Hn)]; [by left|right]. rewrite Hr, Hb.
    split_and!; [done..|]. by intros ?%stored_names.
Qed.

Lemma loaded_run max l2 : forall l r s,
  well_formed (l ++ l2 ++ r) -> small max (l ++ l2) -> loaded l s -> loaded (l ++ l2) (foldl (load_header max) s l2).
Proof.
  induction l2 as [|h l2 IH]; intros l r s Hw Hmax Hl; [by rewrite app_nil_r|]. simpl.
  rewrite cons_middle, (assoc_L (++)). apply (IH _ r).
  - by rewrite <- !(assoc_L (++)).
  - by rewrite <- (assoc_L (++)).
  - eapply loaded_next; [exact Hw| |done]. rewrite cons_middle, (assoc_L (++)) in Hmax. by eapply small_prefix.
Qed.

(** [load] starts again from what has been stored. *)
Lemma loaded_start l : len l <= HM_USABLE ->
  let b := stored_block l in
  loaded l (MkLoadState b (negb (hm_is_empty (hb_fields b))) false (calculate_header_list_size b) false).
Proof.
  intros Hl. unfold loaded. cbn [ls_block ls_reg ls_malformed ls_headers_size ls_panicked]. rewrite stored_fields, negb_involutive by done.
  split_and!; [done..|by apply stored_size|done].
Qed.

(** ** A piece of a block *)

Lemma load_piece `{BM : BytesMut B} max (src : B) d m ds l l2 r m' ds' :
  block_repr (size_limit d) m ds (buf_bytes src) l2 m' ds' -> dec_at m ds d ->
  well_formed (l ++ l2 ++ r) -> small max (l ++ l2) ->
  exists src' d', HeaderBlock_load max (stored_block l, src, d) = ((stored_block (l ++ l2), src', d'), Ok tt) /\
    buf_bytes src' = [] /\ dec_at m' ds' d' /\ size_limit d' = size_limit d.
Proof.
  intros Hb Hd Hw Hmax. destruct (read_block m ds (buf_bytes src) l2 m' ds' d (MkCursor src 0) Hb Hd)
    as (d' & c' & Hd' & Hlim & _ & Hsrc & Hpos & Hrun); [unfold cur_ok; simpl; lia|done|].
  exists (cur_buf c'), d'. pose proof (small_prefix _ _ _ Hmax) as [_ HU].
  destruct (loaded_run max l2 l r _ Hw Hmax (loaded_start l HU)) as (E1 & _ & E2 & _ & E3).
  unfold HeaderBlock_load. rewrite Hrun. rewrite E1, E2, E3. split; [done|]. split; [|done].
  specialize (Hpos eq_refl). destruct c' as [b p]. simpl in *. by subst p.
Qed.
End Store.

(** ** The same fields *)

Section Same.
Context `{HM : HeaderMapOps}.
Implicit Types (h : Header HeaderName) (l fs : list (Header HeaderName)) (b : HeaderBlock).

(** The values of a name, in order. *)
Definition values_of (n : HeaderName) (m : HeaderMap) : list (list Z) :=
  (fun e => value_as_ref e.2) <$> filter (fun e => e.1 = n) (hm_iter m).

(** The same message: equal pseudo headers and for every name the same values. *)
Definition same_block b b' : Prop :=
  hb_pseudo b = hb_pseudo b' /\ forall n, values_of n (hb_fields b) = values_of n (hb_fields b').

Lemma same_field_pseudo h h' : same_field h h' -> is_field h = false -> h = h'.
Proof.
  intros [Hn Hv] Hf. destruct h as [n v|[v]|v|[v]|[v]|v], h' as [n' v'|[v']|v'|[v']|[v']|v']; simplify_eq/=; try done.
  - pose proof (method_as_ref_from v) as E1. pose proof (method_as_ref_from v') as E2. rewrite Hv in E1. congruence.
  - pose proof (status_as_str_from v) as E1. pose proof (status_as_str_from v') as E2. rewrite Hv in E1. congruence.
Qed.

Lemma values_of_append n m n' v : hm_room m n' = true ->
  values_of n (hm_append m n' v) = values_of n m ++ (if decide (n' = n) then [value_as_ref v] else []).
Proof. intros Hr. unfold values_of. rewrite hm_append_values, fmap_app by done. by case_decide. Qed.

Lemma store_same b b' h h' :
  room_for b h -> room_for b' h' -> same_block b b' -> same_field h h' -> same_block (store b h) (store b' h').
Proof.
  intros Hr Hr' [Hp Hv] Hs. destruct (is_field h) eqn:Hf.
  - destruct h as [n v|?|?|?|?|?], h' as [n' v'|?|?|?|?|?]; try done; try by destruct Hs.
    destruct Hs as [Hn Hval]. simplify_eq/=. split; [done|]. intros n. cbn [store hb_fields].
    simpl in Hr, Hr'. by rewrite !values_of_append, Hv, Hval.
  - apply same_field_pseudo in Hs as <-; [|done]. destruct h; [done|..]; (split; [cbn; by rewrite Hp|done]).
Qed.

Lemma stored_same fs l : len fs <= HM_USABLE -> Forall2 same_field fs l -> same_block (stored_block fs) (stored_block l).
Proof.
  intros Hl HF. revert fs HF Hl. induction l as [|h' l IH] using rev_ind; intros fs HF Hl.
  { apply Forall2_nil_inv_r in HF as ->. done. }
  pose proof (Forall2_length _ _ _ HF) as Hlen. apply Forall2_app_inv_r in HF as (fs1 & fs2 & HF1 & HF2 & ->).
  apply Forall2_cons_inv_r in HF2 as (h & fs3 & Hh & HF3 & ->). apply Forall2_nil_inv_r in HF3 as ->.
  rewrite !stored_block_snoc. apply store_same; [by apply stored_room_for| | |done].
  - apply stored_room_for. unfold len in *. by rewrite <- Hlen.
  - apply snoc_room in Hl. apply IH; [done|lia].
Qed.

Lemma stored_over_size l : hb_is_over_size (stored_block l) = false.
Proof. induction l as [|h l IH] using rev_ind; [done|]. rewrite stored_block_snoc. by destruct h. Qed.

(** Storing the fields of a block gives the block. *)
Lemma stored_map (l : list (HeaderName * HeaderValue)) : forall b,
  len (hm_iter (hb_fields b)) + len l <= HM_USABLE -> hb_pseudo (foldl store b (map_fields l)) = hb_pseudo b /\
  forall n, values_of n (hb_fields (foldl store b (map_fields l))) =
    values_of n (hb_fields b) ++ ((fun e => value_as_ref e.2) <$> filter (fun e => e.1 = n) l).
Proof.
  induction l as [|[n v] l IH]; intros b Hl; simpl; [split; [done|]; intros n; by rewrite app_nil_r|].
  rewrite len_cons in Hl. pose proof (len_nonneg l).
  assert (hm_room (hb_fields b) n = true) as Hr by (apply hm_room_below; lia).
  destruct (IH (store b (HField n v))) as [E1 E2].
  { cbn [store hb_fields]. unfold len at 1. rewrite (hm_iter_append _ _ _ Hr), length_cons. unfold len in *. lia. } split; [exact E1|]. intros n'. rewrite E2. cbn [store hb_fields].
  rewrite values_of_append, filter_cons, <- (assoc_L (++)) by done. cbn [fst]. by case_decide.
Qed.

Lemma stored_pseudo p : stored_block (pseudo_fields p) = MkHeaderBlock hm_new false p.
Proof. by destruct p as [[?|] [?|] [?|] [?|] [?|]]. Qed.

Lemma stored_fields_same b (l : list (HeaderName * HeaderValue)) : len l <= HM_USABLE ->
  (forall n, filter (fun e => e.1 = n) l = filter (fun e => e.1 = n) (hm_iter (hb_fields b))) ->
  same_block b (stored_block (pseudo_fields (hb_pseudo b) ++ map_fields l)).
Proof.
  intros HU Hl. unfold stored_block. rewrite foldl_app. fold (stored_block (pseudo_fields (hb_pseudo b))).
  rewrite stored_pseudo. destruct (stored_map l (MkHeaderBlock hm_new false (hb_pseudo b))) as [E1 E2];
    [simpl; by rewrite hm_iter_new|].
  split; [done|]. intros n. rewrite E2. cbn [hb_fields]. unfold values_of. rewrite hm_iter_new, Hl. done.
Qed.

(** ** Well-formed fields *)

Lemma pseudo_well_formed p (l : list (HeaderName * HeaderValue)) : Forall field_ok (map_fields l) -> well_formed (pseudo_fields p ++ map_fields l).
Proof.
  intros Hl. exists (pseudo_fields p), (map_fields l). split; [done|]. split; [|split; [|done]].
  - by destruct p as [[?|] [?|] [?|] [?|] [?|]]; repeat constructor.
  - apply (bool_decide_unpack (NoDup ((Header.name <$> pseudo_fields p)))). by destruct p as [[?|] [?|] [?|] [?|] [?|]].
Qed.

Lemma same_field_ok h h' : same_field h h' -> field_ok h -> field_ok h'.
Proof. intros [Hn Hv]. destruct h, h'; simplify_eq/=; try done. by rewrite Hv. Qed.
Lemma same_is_field h h' : same_field h h' -> is_field h = is_field h'.
Proof. intros [Hn Hv]. by destruct h, h'. Qed.
Lemma same_counted h h' : same_field h h' -> counted h = counted h'.
Proof.
  intros [Hn Hv]. destruct h, h'; simplify_eq/=; by rewrite Hv.
Qed.

Lemma well_formed_same fs l : Forall2 same_field fs l -> well_formed fs -> well_formed l.
Proof.
  intros HF (ps & xs & -> & Hp & Hn & Hx). apply Forall2_app_inv_l in HF as (ps' & xs' & HF1 & HF2 & ->).
  exists ps', xs'. split; [done|]. split_and!.
  - clear Hn. induction HF1 as [|h h' ps ps' Hh _ IH]; [constructor|]. apply Forall_cons in Hp as [? ?].
    constructor; [|auto]. by rewrite <- (same_is_field h).
  - replace (Header.name <$> ps') with (Header.name <$> ps); [done|]. clear Hn Hp.
    induction HF1 as [|h h' ps ps' [Hh _] _ IH]; [done|]. rewrite !fmap_cons. by rewrite Hh, IH.
  - induction HF2 as [|h h' xs xs' Hh _ IH]; [constructor|]. apply Forall_cons in Hx as [? ?].
    constructor; [by eapply same_field_ok|auto].
Qed.

Lemma list_size_same fs l : Forall2 same_field fs l -> list_size fs = list_size l.
Proof.
  induction 1 as [|h h' fs l Hh _ IH]; [done|]. cbn [list_size foldr]. fold (list_size fs) (list_size l).
  by rewrite IH, (same_counted h h'), (same_field_hlen h h').
Qed.

Lemma small_same max fs l : Forall2 same_field fs l -> small max fs -> small max l.
Proof.
  intros HF [H1 H2]. rewrite (list_size_same _ _ HF) in H1. split; [done|]. unfold len in *.
  by rewrite <- (Forall2_length _ _ _ HF).
Qed.

Lemma list_size_perm fs l : fs ≡ₚ l -> list_size fs = list_size l.
Proof. induction 1; simpl in *; lia. Qed.
Lemma small_perm max fs l : fs ≡ₚ l -> small max l -> small max fs.
Proof. intros Hp [H1 H2]. split; [by rewrite (list_size_perm _ _ Hp)|]. unfold len in *. by rewrite Hp. Qed.
End Same.

(** * Header blocks from frame to frame

    The reader takes the HEADERS or PUSH_PROMISE frame and the CONTINUATION frames of
    a block one by one and returns the message with the last one. *)

Import HTable HEncoder.

Section Read.
Context `{HM : HeaderMapOps} `{BM : BytesMut B}.
Implicit Types (c : Continuable) (s : FramedRead (B:=B)) (bytes : B) (l ds : list (Header HeaderName)) (b : HeaderBlock).

(** A message that the peer reads as it was sent: the flags that the constructors set,
    and for a push promise at least one field. *)
Definition start_ok c : Prop :=
  StreamId.valid (Continuable_stream_id c) /\
  match c with
  | CHeaders h => h_stream_dep h = None /\ (headers_flag_bits (h_flags h) = 4 \/ headers_flag_bits (h_flags h) = 5)
  | CPushPromise p => StreamId.valid (pp_promised_id p) /\ push_promise_flag_bits (pp_flags p) = 4 /\
      block_fields (pp_header_block p) <> []
  end.

(** The message with other fields, and as it stands while it is incomplete. *)
Definition with_block c b : Continuable :=
  match c with
  | CHeaders h => CHeaders (MkHeaders (h_stream_id h) (h_stream_dep h) b (h_flags h))
  | CPushPromise p => CPushPromise (MkPushPromise (pp_stream_id p) (pp_promised_id p) b (pp_flags p))
  end.
Definition opened c : Continuable :=
  match c with
  | CHeaders h => CHeaders (MkHeaders (h_stream_id h) (h_stream_dep h) (h_header_block h)
      (MkHeadersFlag (headers_flag_bits (h_flags h) - END_HEADERS)))
  | CPushPromise p => CPushPromise (MkPushPromise (pp_stream_id p) (pp_promised_id p) (pp_header_block p)
      (MkPushPromiseFlag (push_promise_flag_bits (pp_flags p) - END_HEADERS)))
  end.
Definition frame_of c : Frame (B:=B) :=
  match c with CHeaders h => FHeaders h | CPushPromise p => FPushPromise p end.

(** The heads of the frames of a message, the last one or one before it. *)
Definition nth_head c (first last : bool) : Head :=
  let head := if first then start_head c else Head.new KContinuation END_HEADERS (Continuable_stream_id c) in
  if last then head else continued head.
Definition nth_payload c (first : bool) (out : list Z) : list Z := if first then start_prefix c ++ out else out.

(** The reader after frames with the fields [l]: none, or the message is open. *)
Definition receiving c (max_list lim m : Z) ds (first : bool) l s : Prop :=
  fr_max_header_list_size s = max_list /\ dec_at m ds (fr_hpack s) /\ size_limit (fr_hpack s) = lim /\
  if first then fr_partial s = None /\ l = []
  else exists buf, fr_partial s = Some (MkPartial (with_block (opened c) (stored_block l)) buf) /\ buf_bytes buf = [].

Lemma nth_head_wf c first last : start_ok c -> Head.wf (nth_head c first last).
Proof.
  intros [Hid Hc]. unfold nth_head. split; [|by destruct first, last, c].
  destruct c as [h|p]; [destruct Hc as [_ [E|E]]|destruct Hc as (_ & E & _)]; destruct first, last;
    cbn [start_head continued head_flag Headers_head PushPromise_head Head.new]; rewrite ?E; done.
Qed.

(** ** The first frame *)

Lemma push_promise_load_first p (src : B) out head :
  head_flag head = 4 \/ head_flag head = 0 -> StreamId.valid (pp_promised_id p) -> out <> [] ->
  buf_bytes src = to_be_bytes 4 (stream_id_u32 (pp_promised_id p)) ++ out ->
  exists src', PushPromise_load head src = Ok (MkPushPromise (head_stream_id head) (pp_promised_id p) empty_block
    (MkPushPromiseFlag (head_flag head)), src') /\ buf_bytes src' = out.
Proof.
  intros Hfl Hid Hne Hsrc. assert (4 < len (buf_bytes src)) as Hl.
  { rewrite Hsrc, len_app, len_be. destruct out; [done|]. rewrite len_cons. pose proof (len_nonneg out). lia. }
  exists (bm_split_to src 4).2. split.
  - unfold PushPromise_load. replace (PushPromiseFlag.is_padded _) with false by (by destruct Hfl as [->| ->]).
    cbn [read_pad_len mbind outcome_bind]. replace (len (buf_bytes src) <? 5) with false by (symmetry; apply Z.ltb_ge; lia).
    rewrite slice_to_Ok by lia. cbn [mbind outcome_bind]. rewrite Hsrc, take_app_length' by (by rewrite to_be_bytes_length).
    rewrite <- (app_nil_r (to_be_bytes 4 _)), StreamId.parse_spec by (unfold StreamId.valid in Hid; int_lia).
    cbn. destruct (pp_promised_id p) as [z]. unfold StreamId.valid in Hid. simpl in *. by rewrite Z.mod_small.
  - destruct (bm_split_to_bytes src 4) as [_ ->]; [unfold len in Hl; lia|].
    rewrite Hsrc. apply drop_app_length'. by rewrite to_be_bytes_length.
Qed.

Lemma load_hpack_block max c b (src : B) d :
  Continuable_load_hpack max (with_block c b, src, d) =
  let '((b', src', d'), r) := HeaderBlock_load max (b, src, d) in ((with_block c b', src', d'), r).
Proof.
  destruct c as [h|p]; cbn [Continuable_load_hpack with_block Headers_load_hpack PushPromise_load_hpack h_header_block pp_header_block];
    by destruct (HeaderBlock_load _ _) as [[[? ?] ?] ?].
Qed.

(** What is read of a frame before its fields: the message without them. *)
Definition shell c (last : bool) : Continuable := with_block (if last then c else opened c) empty_block.

(** The end of both arms: the fields are loaded; the message is returned or kept. *)
Lemma read_fields_of c (last : bool) (into : Continuable -> Frame (B:=B)) id max_list lim m ds l l2 r m' ds' s0 (src : B) p :
  block_repr lim m ds (buf_bytes src) l2 m' ds' -> well_formed (l ++ l2 ++ r) -> small max_list (l ++ l2) ->
  dec_at m ds (fr_hpack s0) -> size_limit (fr_hpack s0) = lim -> fr_max_header_list_size s0 = max_list -> fr_partial s0 = None ->
  exists d' src', buf_bytes src' = [] /\ Continuable_load_hpack max_list (with_block p (stored_block l), src, fr_hpack s0) =
      ((with_block p (stored_block (l ++ l2)), src', d'), Ok tt) /\
    exists s', (_ ← modify (set_hpack d'); _ ← lift (classify id last (Ok tt));
     if last then mret (Some (into (with_block p (stored_block (l ++ l2)))))
     else _ ← modify (set_partial (Some (MkPartial (with_block p (stored_block (l ++ l2))) src'))); mret None) s0 =
      (s', Ok (if last then Some (into (with_block p (stored_block (l ++ l2)))) else None)) /\
    (p = opened c \/ last = true -> receiving c max_list lim m' ds' last (if last then [] else l ++ l2) s').
Proof.
  intros Hb Hw Hsz Hd Hlim Hmx Hpt. rewrite <- Hlim in Hb.
  destruct (load_piece max_list src (fr_hpack s0) m ds l l2 r m' ds' Hb Hd Hw Hsz) as (src' & d' & E1 & E2 & Hd' & Hl').
  exists d', src'. split; [done|]. rewrite load_hpack_block, E1. split; [done|].
  destruct s0 as [d0 mx pt]; cbn [fr_hpack fr_max_header_list_size fr_partial] in *. subst mx pt.
  destruct last; eexists; (split; [done|]); intros Hp; (split; [done|]); (split; [done|]); (split; [simpl; congruence|]); [done|].
  destruct Hp as [->|]; [|done]. by eexists.
Qed.

Lemma start_load c (last : bool) (src : B) out :
  start_ok c -> buf_bytes src = start_prefix c ++ out -> (match c with CHeaders _ => True | _ => out <> [] end) ->
  exists src', buf_bytes src' = out /\
    match c with
    | CHeaders h => (fun x => (CHeaders x.1, x.2)) <$> Headers_load (nth_head c true last) src
    | CPushPromise p => (fun x => (CPushPromise x.1, x.2)) <$> PushPromise_load (nth_head c true last) src
    end = Ok (shell c last, src').
Proof.
  intros [Hid Hc] Hsrc Hne. destruct c as [h|p].
  - destruct Hc as [Hdep Hfl]. exists src. split; [done|]. unfold Headers_load.
    destruct h as [id dep b [fl]]. simpl in Hdep, Hfl. subst dep. destruct Hfl as [->| ->], last; done.
  - destruct Hc as (Hpid & Hfl & _).
    destruct (push_promise_load_first p src out (nth_head (CPushPromise p) true last)) as (src' & E1 & E2);
      [|done|done|done|].
    + unfold nth_head. destruct last; simpl; rewrite Hfl; auto.
    + exists src'. split; [done|]. rewrite E1. destruct p as [id pid b [fl]]. by destruct last.
Qed.

Definition arm_into (c : Continuable) : Frame (B:=B) :=
  match c with CHeaders h => FHeaders h | CPushPromise p => FPushPromise p end.

(** The arm of the first frame. *)
Lemma decode_start c (last : bool) bytes s payload src' :
  start_ok c -> fr_partial s = None -> buf_bytes bytes = frame_bytes (nth_head c true last) payload ->
  match c with
  | CHeaders h => (fun x => (CHeaders x.1, x.2)) <$> Headers_load (nth_head c true last) (bm_split_to bytes (Z.to_nat HEADER_LEN)).2
  | CPushPromise p => (fun x => (CPushPromise x.1, x.2)) <$> PushPromise_load (nth_head c true last) (bm_split_to bytes (Z.to_nat HEADER_LEN)).2
  end = Ok (shell c last, src') ->
  decode_frame bytes s = header_block (nth_head c true last) last (shell c last) arm_into src' s.
Proof.
  intros Hc Hpt Hb Hload. destruct (frame_bytes_parts bytes _ payload (nth_head_wf c true last Hc) Hb) as (E1 & _ & _).
  unfold decode_frame. rewrite E1, bind_lift_Ok. unfold get. unfold mbind at 1, SE_bind at 1. rewrite Hpt. cbn [andb]. cbv zeta.
  destruct c as [h|p].
  - replace (head_kind (nth_head (CHeaders h) true last)) with KHeaders by (by destruct last). cbv iota.
    destruct (Headers_load _ _) as [[h' src1]|e|]; simplify_eq/=. rewrite bind_lift_Ok.
    unfold shell in *. destruct Hc as (_ & _ & Hfl). destruct h as [id dep b [fl]]. simpl in Hfl.
    by destruct last, Hfl as [->| ->]; simplify_eq/=.
  - replace (head_kind (nth_head (CPushPromise p) true last)) with KPushPromise by (by destruct last). cbv iota.
    destruct (PushPromise_load _ _) as [[p' src1]|e|]; simplify_eq/=. rewrite bind_lift_Ok.
    unfold shell in *. destruct Hc as (_ & _ & Hfl & _). destruct p as [id pid b [fl]]. simpl in Hfl.
    by destruct last; simplify_eq/=.
Qed.

Lemma read_start c (last : bool) max_list lim m ds out l2 r m' ds' bytes s :
  start_ok c -> receiving c max_list lim m ds true [] s ->
  buf_bytes bytes = frame_bytes (nth_head c true last) (start_prefix c ++ out) ->
  (match c with CHeaders _ => True | _ => out <> [] end) ->
  block_repr lim m ds out l2 m' ds' -> well_formed (l2 ++ r) -> small max_list l2 ->
  exists s', decode_frame bytes s =
      (s', Ok (if last then Some (frame_of (with_block c (stored_block l2))) else None)) /\
    receiving c max_list lim m' ds' last (if last then [] else l2) s'.
Proof.
  intros Hc (Hmx & Hd & Hlim & Hpt & _) Hb Hne Hblk Hw Hsz.
  destruct (frame_bytes_parts bytes _ _ (nth_head_wf c true last Hc) Hb) as (_ & _ & Erest).
  destruct (start_load c last _ out Hc Erest Hne) as (src' & Es & Eload).
  rewrite (decode_start c last bytes s _ src' Hc Hpt Hb Eload). unfold header_block, get. unfold mbind at 1, SE_bind at 1.
  rewrite <- Es in Hblk.
  destruct (read_fields_of c last arm_into (head_stream_id (nth_head c true last)) max_list lim m ds [] l2 r m' ds' s src'
    (if last then c else opened c) Hblk Hw Hsz Hd Hlim Hmx Hpt) as (d' & src2 & _ & E1 & s' & E2 & Hrcv).
  cbn [app] in *. rewrite Hmx. unfold shell. change (empty_block (HM:=HM)) with (stored_block (HM:=HM) []). rewrite E1.
  exists s'. split; [|apply Hrcv; destruct last; auto]. rewrite E2. by destruct last, c.
Qed.

(** ** The frames after the first *)

Lemma read_continuation c (last : bool) max_list lim m ds out l l2 r m' ds' bytes s :
  start_ok c -> receiving c max_list lim m ds false l s ->
  buf_bytes bytes = frame_bytes (nth_head c false last) out -> 
  block_repr lim m ds out l2 m' ds' -> well_formed (l ++ l2 ++ r) -> small max_list (l ++ l2) ->
  exists s', decode_frame bytes s =
      (s', Ok (if last then Some (frame_of (with_block c (stored_block (l ++ l2)))) else None)) /\
    receiving c max_list lim m' ds' last (if last then [] else l ++ l2) s'.
Proof.
  intros Hc (Hmx & Hd & Hlim & buf & Hpt & Hbuf) Hb Hblk Hw Hsz.
  destruct (frame_bytes_parts bytes _ _ (nth_head_wf c false last Hc) Hb) as (E1 & _ & Erest).
  unfold decode_frame. rewrite E1, bind_lift_Ok. unfold get. unfold mbind at 1, SE_bind at 1. rewrite Hpt.
  replace (head_kind (nth_head c false last)) with KContinuation by (by destruct last).
  rewrite (bool_decide_true (KContinuation = _)) by done. cbn [andb negb]. cbv zeta iota.
  unfold decode_continuation, get. unfold mbind at 1, SE_bind at 1. rewrite bind_modify, Hpt.
  cbn [partial_frame partial_buf]. rewrite bool_decide_true by (by destruct c, last). cbn [negb].
  rewrite Hbuf. change (len (@nil Z) =? 0) with true. cbn [negb andb]. cbv iota.
  rewrite <- Erest in Hblk. set (s0 := set_partial None s).
  destruct (read_fields_of c last Frame_from_continuable (head_stream_id (nth_head c false last)) max_list lim m ds l l2 r m' ds' s0 _
    (opened c) Hblk Hw Hsz Hd Hlim Hmx eq_refl) as (d' & src2 & _ & E3 & s' & E4 & Hrcv).
  change (fr_hpack s0) with (fr_hpack s) in E3. rewrite Hmx, E3. cbv beta iota zeta.
  replace (Z.land (head_flag (nth_head c false last)) 4 =? 4) with last by (by destruct last).
  exists s'. split; [|by apply Hrcv; left]. rewrite E4. destruct last; [|done]. do 3 f_equal.
  destruct Hc as [_ Hc]. destruct c as [[id dep b [fl]]|[id pid b [fl]]]; simpl in Hc.
  - by destruct Hc as [_ [->| ->]].
  - by destruct Hc as (_ & -> & _).
Qed.
End Read.
