(* ===== verification/FrameTransport.v ===== *)
(** * Frames from the writer to the reader

    What [FramedWrite] puts on the socket, whatever the socket takes at a time, is read
    by [FramedRead] as the frames that were buffered, in order.

    The second part is the transport as a whole. *)

From S2P Require Import Prelude Bytes H2Types Huffman HttpTypes Frames FramesCorrect HpackPrim HpackDecoder.
From S2P Require Import HpackDecoderCorrect HpackWire HpackTable HpackTableCorrect HpackEncoder HpackSync.
From S2P Require Import HpackRoundtrip HeadersFrame HeadersFrameCorrect FramedRead FramedReadCorrect FramedWrite.
From S2P Require Import HeadersEncodeCorrect HeadersTransport.

Import HTable HEncoder.

(** ** The bytes that are still to be written *)

Section Writing.
Context `{HM : HeaderMapOps} {HI : HeaderMapIntoIter (HM:=HM)} {NH : NameHasher (HT:=HT)} `{BM : BytesMut B} `{TB : Buf T}.
Implicit Types (w : FramedWrite (B:=B) (T:=T)).

Definition pending_data w : list Z :=
  match fw_next w with Some (NData f) => src_bytes (data_data f) | _ => [] end.
Definition unsent w : list Z := buf_rest w ++ pending_data w.
Definition pending_continuation w : option Continuation :=
  match fw_next w with Some (NContinuation c) => Some c | _ => None end.

(** The head of a data frame is written before its payload. *)
Definition data_last w : Prop :=
  match fw_next w with Some (NData f) => src_bytes (data_data f) = [] -> buf_rest w = [] | _ => True end.

(** Writing changes the position in the buffer and what is left of a payload only. *)
Definition same_writer w w' : Prop :=
  fw_hpack w' = fw_hpack w /\ fw_buf w' = fw_buf w /\ pending_continuation w' = pending_continuation w /\
  fw_max_frame_size w' = fw_max_frame_size w /\ (fw_next w' = None <-> fw_next w = None).

Lemma same_writer_refl w : same_writer w w.
Proof. by split_and!. Qed.
Lemma same_writer_trans w w' w'' : same_writer w w' -> same_writer w' w'' -> same_writer w w''.
Proof. intros (?&?&?&?&?) (?&?&?&?&?). split_and!; [congruence..|]. naive_solver. Qed.

Lemma write_buf_spec n w :
  let w' := MkFramedWrite (fw_hpack w) (fw_buf w) (fw_pos w + min n (length (buf_rest w))) (fw_next w)
    (fw_last_data_frame w) (fw_max_frame_size w) in
  take (min n (length (buf_rest w))) (buf_rest w) ++ unsent w' = unsent w /\ same_writer w w' /\ (data_last w -> data_last w').
Proof.
  intros w'. assert (buf_rest w' = drop (min n (length (buf_rest w))) (buf_rest w)) as E
    by (unfold buf_rest; simpl; by rewrite drop_drop).
  split; [|split].
  - unfold unsent. change (pending_data w') with (pending_data w). by rewrite E, (assoc_L (++)), take_drop.
  - by split_and!.
  - unfold data_last. change (fw_next w') with (fw_next w). rewrite E. destruct (fw_next w) as [[f|c]|]; try done.
    intros Hd H0. by rewrite (Hd H0), drop_nil.
Qed.

Lemma write_some_spec n w :
  let '(w', taken) := write_some n w in
  taken ++ unsent w' = unsent w /\ same_writer w w' /\ (data_last w -> data_last w').
Proof.
  unfold write_some. pose proof (write_buf_spec n w) as Hbuf.
  destruct (fw_next w) as [[f|c]|] eqn:En; [|exact Hbuf|exact Hbuf]. case_bool_decide as Hr; [|exact Hbuf].
  split; [|split].
  - unfold unsent, pending_data. cbn [fw_next set_next data_data]. rewrite En.
    change (buf_rest (set_next _ w)) with (buf_rest w). rewrite Hr. cbn [app].
    rewrite advance_bytes by lia. apply take_drop.
  - split_and!; try done; [unfold pending_continuation; by rewrite En|]. simpl. by rewrite En.
  - intros _. unfold data_last. cbn [fw_next set_next]. intros _. exact Hr.
Qed.

Lemma write_out_spec script : forall w sent,
  data_last w ->
  let '(w', so, r) := write_out script w sent in
  so_sent so ++ unsent w' = sent ++ unsent w /\ same_writer w w' /\ data_last w' /\
  match r with Ok (Ready _) => unsent w' = [] | Panic => False | _ => True end.
Proof.
  assert (forall w, data_last w -> fw_is_empty w = true -> unsent w = []) as Hdone.
  { intros w Hd He. unfold fw_is_empty, unsent, pending_data, data_last, has_remaining in *.
    destruct (fw_next w) as [[f|c]|]; [|apply bool_decide_eq_true in He; by rewrite He..].
    destruct (src_bytes (data_data f)) as [|x l] eqn:E; [by rewrite (Hd eq_refl)|].
    rewrite negb_true_iff, Z.ltb_ge, len_cons in He. pose proof (len_nonneg l). lia. }
  induction script as [|a script IH]; intros w sent Hd; simpl; destruct (fw_is_empty w) eqn:He;
    try (split_and!; [done|apply same_writer_refl|done|by auto]).
  destruct a as [| |n]; try (split_and!; [done|apply same_writer_refl|done|done]).
  pose proof (write_some_spec n w) as Hs. destruct (write_some n w) as [w1 taken]. destruct Hs as (E1 & Hs1 & Hd1).
  specialize (IH w1 (sent ++ taken) (Hd1 Hd)). destruct (write_out script w1 (sent ++ taken)) as [[w2 so] r].
  destruct IH as (E2 & Hs2 & Hd2 & Hr). split_and!; [|by eapply same_writer_trans|done|done].
  by rewrite E2, <- E1, (assoc_L (++)).
Qed.
End Writing.

(** ** Reading a run of frames *)

Section Reading.
Context `{HM : HeaderMapOps} `{BM : BytesMut B}.
Implicit Types (s : FramedRead (B:=B)) (gs : list (Frame (B:=B))) (F : list (list Z)).

Fixpoint decode_frames (bs : list B) : SE (FramedRead (B:=B)) RecvError (list (Frame (B:=B))) :=
  match bs with
  | [] => mret []
  | b :: bs => f ← decode_frame b; fs ← decode_frames bs; mret (option_list f ++ fs)
  end.

Lemma decode_frames_app bs1 bs2 : forall s s1 s2 gs1 gs2,
  decode_frames bs1 s = (s1, Ok gs1) -> decode_frames bs2 s1 = (s2, Ok gs2) ->
  decode_frames (bs1 ++ bs2) s = (s2, Ok (gs1 ++ gs2)).
Proof.
  induction bs1 as [|b bs1 IH]; intros s s1 s2 gs1 gs2 E1 E2; cbn [decode_frames app] in *; [by injection E1 as <- <-|].
  unfold mbind, SE_bind in *. destruct (decode_frame b s) as [s' [g|e|]]; [|done|done].
  destruct (decode_frames bs1 s') as [s3 [gs|e|]] eqn:E3; [|done|done]. injection E1 as <- <-.
  rewrite (IH _ _ _ _ _ E3 E2). cbv beta iota. by rewrite (assoc_L (++)).
Qed.

Lemma decode_frames_one b s s' g : decode_frame b s = (s', Ok g) -> decode_frames [b] s = (s', Ok (option_list g)).
Proof. intros E. cbn [decode_frames]. unfold mbind, SE_bind. rewrite E. unfold mret, SE_ret. by rewrite app_nil_r. Qed.

(** Any buffers with the bytes [F] are read without an error, to an end in [P]. *)
Definition delivers F s (P : list (Frame (B:=B)) -> FramedRead (B:=B) -> Prop) : Prop :=
  forall bs, buf_bytes <$> bs = F -> exists gs s', decode_frames bs s = (s', Ok gs) /\ P gs s'.

Lemma delivers_nil s (P : _ -> _ -> Prop) : P [] s -> delivers [] s P.
Proof. intros HP bs Hbs. apply fmap_nil_inv in Hbs as ->. by exists [], s. Qed.

Lemma delivers_snoc F f s (P Q : _ -> _ -> Prop) :
  delivers F s P ->
  (forall gs s1 b, P gs s1 -> buf_bytes b = f -> exists s2 g, decode_frame b s1 = (s2, Ok g) /\ Q (gs ++ option_list g) s2) ->
  delivers (F ++ [f]) s Q.
Proof.
  intros HF Hf bs Hbs. apply fmap_app_inv in Hbs as (bs1 & bs2 & E1 & E2 & ->).
  destruct bs2 as [|b [|]]; try done. injection E2 as Eb. destruct (HF bs1 (eq_sym E1)) as (gs & s1 & Er & HP).
  destruct (Hf gs s1 b HP (eq_sym Eb)) as (s2 & g & Ed & HQ). exists (gs ++ option_list g), s2. split; [|done].
  by eapply decode_frames_app, decode_frames_one.
Qed.
End Reading.

(** * The frame transport

    A connection as its peer sees it: frames are buffered and flushed in any order, the
    socket takes any number of bytes at a time, and the reader gets the frames that
    were buffered, in order, with the header tables of both ends in step. *)

Import HTable HEncoder.

Section Transport.
Context `{HM : HeaderMapOps} {HI : HeaderMapIntoIter (HM:=HM)} {NH : NameHasher (HT:=HT)} `{BM : BytesMut B} `{TB : Buf T}.
Implicit Types (w : FramedWrite (B:=B) (T:=T)) (s : FramedRead (B:=B)) (e : Encoder) (dst : Limit B).
Implicit Types (f : Frame (B:=T)) (g : Frame (B:=B)) (c : Continuable) (F : list (list Z)).
Implicit Types (fs l ds : list (Header HeaderName)).

(** ** Frames of the two ends *)

Definition message f : option Continuable :=
  match f with FHeaders h => Some (CHeaders h) | FPushPromise p => Some (CPushPromise p) | _ => None end.
Definition control f : option (Frame (B:=B)) :=
  match f with
  | FSettings x => Some (FSettings x)
  | FPing x => Some (FPing x)
  | FGoAway x => Some (FGoAway x)
  | FWindowUpdate x => Some (FWindowUpdate x)
  | FReset x => Some (FReset x)
  | _ => None
  end.

(** What the peer gets for a frame: equal control frames, up to the debug data of
    GOAWAY; the same bytes of data; the same pseudo headers and values. *)
Definition same_frame f g : Prop :=
  match f with
  | FData d => exists d', g = FData d' /\ data_stream_id d' = data_stream_id d /\ data_flags d' = data_flags d /\
      buf_bytes (data_data d') = src_bytes (data_data d)
  | FHeaders _ | FPushPromise _ => exists c b, message f = Some c /\ g = frame_of (with_block c b) /\ same_block (start_block c) b
  | _ => exists g', control f = Some g' /\ g = received g'
  end.

(** Messages that fit: every field in any frame, no connection-specific field, all of them
    within the peer's limit and no more than its header map can hold. *)
Definition message_ok (max_list : Z) c : Prop :=
  start_ok c /\ Forall (fits DEFAULT_MAX_FRAME_SIZE) (block_fields (start_block c)) /\
  Forall field_ok (map_fields (hm_iter (hb_fields (start_block c)))) /\ small max_list (block_fields (start_block c)).

Definition frame_ok (max_list : Z) f : Prop :=
  match f with
  | FData d => StreamId.valid (data_stream_id d) /\ StreamId.is_zero (data_stream_id d) = false /\
      (data_flags_bits (data_flags d) = 0 \/ data_flags_bits (data_flags d) = 1)
  | FHeaders h => message_ok max_list (CHeaders h)
  | FPushPromise p => message_ok max_list (CPushPromise p)
  | FPriority _ => False
  | _ => exists g, control f = Some g /\ control_wf g
  end.

(** ** Messages *)

(** The fields [fs] are those of the message [c]. *)
Definition carries (max_list : Z) c fs : Prop :=
  well_formed fs /\ small max_list fs /\ same_block (start_block c) (stored_block fs).

Lemma message_carries max_list c : message_ok max_list c ->
  exists fs, expand None (eb_headers (into_encoding (start_block c))) = Some fs /\ carries max_list c fs /\
    Forall (fits DEFAULT_MAX_FRAME_SIZE) fs /\ (block_fields (start_block c) <> [] -> fs <> []).
Proof.
  intros (_ & Hfit & Hok & Hsz). destruct (block_expand (start_block c)) as (l & Ex & Hl & Hv).
  set (fs := pseudo_fields (hb_pseudo (start_block c)) ++ map_fields l) in *. exists fs. split; [done|].
  assert (fs ≡ₚ block_fields (start_block c)) as Hp by (unfold fs, block_fields, map_fields; by rewrite Hl).
  split; [split_and!|split; [by rewrite Hp|]].
  - apply pseudo_well_formed. unfold map_fields in *. by rewrite Hl.
  - by eapply small_perm.
  - apply stored_fields_same; [|done]. destruct Hsz as [_ HU]. unfold block_fields, map_fields in HU. rewrite len_app in HU.
    pose proof (len_nonneg (pseudo_fields (hb_pseudo (start_block c)))). unfold len in *. rewrite length_fmap in HU. rewrite Hl. lia.
  - intros Hne E. rewrite E in Hp. by apply Permutation_nil_l in Hp.
Qed.

(** The part that has arrived, [l], and the part to come. *)
Lemma carries_part max_list c fs1 fs2 l : carries max_list c (fs1 ++ fs2) -> Forall2 same_field fs1 l ->
  well_formed (l ++ fs2) /\ small max_list l.
Proof.
  intros (Hw & Hs & _) HF. split.
  - eapply well_formed_same; [|exact Hw]. apply Forall2_app; [done|]. reflexivity.
  - eapply small_same; [exact HF|]. by eapply small_prefix.
Qed.

Lemma carries_all max_list c fs l : carries max_list c fs -> Forall2 same_field fs l ->
  same_block (start_block c) (stored_block l).
Proof.
  intros (_ & [_ HU] & Hb) HF. destruct Hb as [E1 E2], (stored_same _ _ HU HF) as [E3 E4].
  split; [congruence|]. intros n. by rewrite E2, E4.
Qed.

(** ** The two ends *)

Definition idle (max_list lim m : Z) ds s : Prop :=
  fr_max_header_list_size s = max_list /\ dec_at m ds (fr_hpack s) /\ size_limit (fr_hpack s) = lim /\ fr_partial s = None.

Context (max_list : Z) (s0 : FramedRead (B:=B)).

(** The frames [F] carry the frames of [items], the last of them incomplete when a
    continuation is pending. *)
Definition in_transit (items : list (Frame (B:=T))) F e (next : option Continuation) : Prop :=
  match next with
  | None => exists m ds lim, in_step e m ds lim /\
      delivers F s0 (fun gs s => Forall2 same_frame items gs /\ idle max_list lim m ds s)
  | Some co => exists items' f c lim m ds fs1 l h fs2 st rest,
      items = items' ++ [f] /\ message f = Some c /\ start_ok c /\
      co = MkContinuation (Continuable_stream_id c) (MkEncodingHeaderBlock (Some st) rest) /\
      m <= 2 ^ 32 /\ HpackSync.pending m ds e st h /\ expand (field_name h) rest = Some fs2 /\
      Forall (fits DEFAULT_MAX_FRAME_SIZE) (h :: fs2) /\ carries max_list c (fs1 ++ h :: fs2) /\ Forall2 same_field fs1 l /\
      delivers F s0 (fun gs s => Forall2 same_frame items' gs /\ receiving c max_list lim m ds false l s)
  end.

(** A frame with a payload of at most [n] bytes. *)
Definition is_frame (n : Z) (b : list Z) : Prop := exists h p, b = frame_bytes h p /\ len p <= n.

Lemma is_frame_mono n n' b : n <= n' -> is_frame n b -> is_frame n' b.
Proof. intros Hn (h & p & -> & Hp). exists h, p. split; [done|lia]. Qed.

Lemma fits_default max fs : DEFAULT_MAX_FRAME_SIZE <= max -> Forall (fits DEFAULT_MAX_FRAME_SIZE) fs -> Forall (fits max) fs.
Proof. intros Hm H. eapply Forall_impl; [exact H|]. intros h [? ?]. split; [done|lia]. Qed.

(** ** Complete frames *)

Lemma transit_one items F e f b :
  in_transit items F e None ->
  (forall s bytes, fr_partial s = None -> buf_bytes bytes = b -> exists g, decode_frame bytes s = (s, Ok (Some g)) /\ same_frame f g) ->
  in_transit (items ++ [f]) (F ++ [b]) e None.
Proof.
  intros (m & ds & lim & Hst & HF) Hb. exists m, ds, lim. split; [done|]. eapply delivers_snoc; [exact HF|].
  intros gs s1 bytes (Hgs & Hid) Hbytes. destruct (Hb s1 bytes) as (g & Ed & Hg); [apply Hid|done|].
  exists s1, (Some g). split; [done|]. split; [|done]. by apply Forall2_app; [|constructor].
Qed.

Lemma transit_control f g (enc : B -> B) :
  control f = Some g -> control_encode g = Some enc -> control_wf g ->
  exists b, writes enc b /\ len b <= 45 /\ is_frame 36 b /\
    forall items F e, in_transit items F e None -> in_transit (items ++ [f]) (F ++ [b]) e None.
Proof.
  intros Hf He Hwf. destruct (control_read_back g enc He Hwf) as (h & p & Hw & Hl & Hd). exists (frame_bytes h p).
  split; [done|]. split; [unfold frame_bytes; rewrite len_app; unfold len at 1; rewrite head_bytes_length; lia|].
  split; [by exists h, p|].
  intros items F e Ht. apply transit_one; [done|]. intros s bytes Hs Hb. exists (received g). split; [by apply Hd|].
  destruct f; try done; by exists g.
Qed.

Lemma transit_data items F e d :
  in_transit items F e None -> frame_ok max_list (FData d) ->
  in_transit (items ++ [FData d]) (F ++ [frame_bytes (Data.head d) (src_bytes (data_data d))]) e None.
Proof.
  intros Ht (Hid & Hz & Hfl). apply transit_one; [done|]. intros s bytes Hs Hb.
  assert (Head.wf (Data.head d)) as Hwf by (split; [simpl; destruct Hfl as [-> | ->]; done|done]).
  destruct (frame_bytes_parts bytes _ _ Hwf Hb) as (E1 & _ & E3).
  exists (FData (MkData (data_stream_id d) (bm_split_to bytes (Z.to_nat HEADER_LEN)).2 (data_flags d) None)). split.
  - unfold decode_frame. rewrite E1, bind_lift_Ok. unfold get. unfold mbind at 1, SE_bind at 1. rewrite Hs. cbn [andb]. cbv zeta.
    cbn [head_kind Data.head Head.new]. unfold Data.load. cbn [head_flag head_stream_id Data.head Head.new]. rewrite Hz.
    destruct d as [id data [fl] pad]. simpl in *. by destruct Hfl as [-> | ->].
  - eexists. split; [done|]. done.
Qed.

(** ** The frames of a message *)

Definition is_full (r : Encode) : bool := match r with Full => true | Partial _ => false end.

(** A piece of a message after the fields [fs1]: the message is complete, or it stays
    in transit with the fields that are left. *)
Lemma transit_piece items F e f c lim m ds (first : bool) fs1 l fs out l2 m' ds' r rest head :
  message f = Some c -> start_ok c -> m' <= 2 ^ 32 -> head_stream_id head = Continuable_stream_id c ->
  delivers F s0 (fun gs s => Forall2 same_frame items gs /\ receiving c max_list lim m ds first l s) ->
  Forall2 same_field fs1 l -> carries max_list c (fs1 ++ fs) -> Forall (fits DEFAULT_MAX_FRAME_SIZE) fs ->
  block_repr lim m ds out l2 m' ds' -> left_over m' ds' e r rest fs l2 ->
  (first = true -> match c with CHeaders _ => True | _ => out <> [] end) ->
  in_transit (items ++ [f]) (F ++ [frame_bytes (nth_head c first (is_full r)) (nth_payload c first out)]) e (cont_of head r rest).
Proof.
  intros Hf Hc Hm Hid HF Hl Hcar Hfit Hblk Hleft Hne.
  assert (exists fs2 fs3, fs = fs2 ++ fs3 /\ Forall2 same_field fs2 l2 /\ (r = Full -> fs3 = [])) as (fs2 & fs3 & -> & Hl2 & Hfull).
  { destruct r as [|st]; [destruct Hleft as [H2 _]; exists fs, []; by rewrite app_nil_r|].
    destruct Hleft as (fs2 & h & fs3 & -> & H2 & _). by exists fs2, (h :: fs3). }
  assert (Forall2 same_field (fs1 ++ fs2) (l ++ l2)) as Hll by (by apply Forall2_app). rewrite (assoc_L (++)) in Hcar.
  destruct (carries_part _ _ _ _ _ Hcar Hll) as [Hw Hsz]. rewrite <- (assoc_L (++)) in Hw.
  assert (delivers (F ++ [frame_bytes (nth_head c first (is_full r)) (nth_payload c first out)]) s0 (fun gs s =>
    (exists gs', gs = gs' ++ (if is_full r then [frame_of (with_block c (stored_block (l ++ l2)))] else []) /\ Forall2 same_frame items gs') /\
    receiving c max_list lim m' ds' (is_full r) (if is_full r then [] else l ++ l2) s)) as HF'.
  { eapply delivers_snoc; [exact HF|]. intros gs s1 bytes [Hgs Hrcv] Hb. destruct first.
    - destruct Hrcv as (H1 & H2 & H3 & H4 & ->). specialize (Hne eq_refl). cbn [app] in *.
      destruct (read_start c (is_full r) max_list lim m ds out l2 fs3 m' ds' bytes s1) as (s2 & Ed & Hr2); try done.
      exists s2. eexists. split; [exact Ed|]. split; [|done]. exists gs. split; [|done]. by destruct (is_full r).
    - destruct (read_continuation c (is_full r) max_list lim m ds out l l2 fs3 m' ds' bytes s1) as (s2 & Ed & Hr2); try done.
      exists s2. eexists. split; [exact Ed|]. split; [|done]. exists gs. split; [|done]. by destruct (is_full r). }
  destruct r as [|st]; cbn [is_full cont_of] in *.
  - destruct Hleft as [_ [hs Hsy]]. exists m', ds', lim. split; [by eapply synced_step|]. intros bs Hbs.
    destruct (HF' bs Hbs) as (gs & s & Ed & (gs' & -> & Hgs) & Hr1 & Hr2 & Hr3 & Hr4 & _).
    eexists _, s. split; [exact Ed|]. split; [|done]. apply Forall2_app; [done|]. constructor; [|constructor].
    rewrite (Hfull eq_refl), app_nil_r in Hcar. destruct f; try done; (eexists _, _; (split; [exact Hf|]); (split; [done|]));
      by apply (carries_all max_list _ (fs1 ++ fs2)).
  - destruct Hleft as (fs2' & h & fs4 & E & H2 & Hp & Hx).
    assert (fs2' = fs2 /\ h :: fs4 = fs3) as [-> <-].
    { apply app_inj_1 in E; [naive_solver|]. by rewrite (Forall2_length _ _ _ Hl2), (Forall2_length _ _ _ H2). }
    exists items, f, c, lim, m', ds', (fs1 ++ fs2), (l ++ l2), h, fs4, st, rest. rewrite Hid.
    split_and!; try done; [by apply Forall_app in Hfit as [_ ?]|].
    intros bs Hbs. destruct (HF' bs Hbs) as (gs & s & Ed & (gs' & -> & Hgs) & Hr). rewrite app_nil_r in Ed. by exists gs', s.
Qed.

Context (max : Z) (Hmax : DEFAULT_MAX_FRAME_SIZE <= max <= MAX_MAX_FRAME_SIZE).

Lemma max_range : 16384 <= max < 2 ^ 24.
Proof. unfold DEFAULT_MAX_FRAME_SIZE in Hmax. change MAX_MAX_FRAME_SIZE with (2 ^ 24 - 1) in Hmax. lia. Qed.

Lemma block_repr_nonempty lim m ds l2 m' ds' : block_repr lim m ds [] l2 m' ds' -> l2 = [].
Proof.
  remember [] as o eqn:Eo. destruct 1 as [? ? out ? ? Hf|? ? n out ? ? ?]; subst.
  - inversion Hf as [|? o ? ? ? ? ? Hr]; subst; [done|]. apply field_repr_nonempty in Hr.
    destruct o; [simpl in Hr; lia|done].
  - apply app_nil in Eo as [E _]. unfold int_bytes in E. by case_match.
Qed.

(** The first frame of a message, into a buffer with room for a frame. *)
Lemma transit_start items F e f c dst :
  in_transit items F e None -> message f = Some c -> message_ok max_list c -> remaining_mut dst = max + HEADER_LEN ->
  exists e' dst' next b, start_encode c (e, dst) = ((e', dst'), Ok next) /\ buf_bytes dst' = buf_bytes dst ++ b /\
    is_frame max b /\ in_transit (items ++ [f]) (F ++ [b]) e' next.
Proof.
  intros (m & ds & lim & Hst & HF) Hf Hok Hr. pose proof Hok as (Hc & _).
  destruct (message_carries max_list c Hok) as (fs & Ex & Hcar & Hfit & Hnil).
  assert (4 <= head_flag (start_head c) < 256) as Hfl.
  { destruct c as [h|p]; [destruct Hc as (_ & _ & [E|E])|destruct Hc as (_ & _ & E & _)]; simpl; rewrite E; lia. }
  destruct (start_frame max max_range c e m ds lim fs dst Hst Ex (fits_default _ _ (proj1 Hmax) Hfit) Hfl Hr)
    as (e' & dst' & r & rest & out & m' & l & ds' & E1 & E2 & Hlen & Hm' & Hblk & Hleft & Hl).
  exists e', dst'. eexists _, _. split; [exact E1|]. split; [exact E2|]. split; [by eexists _, _; split; [done|]; lia|].
  replace (final_head (start_head c) r) with (nth_head c true (is_full r)) by (by destruct r).
  eapply (transit_piece items F e' f c lim m ds true [] [] fs out l m' ds' r rest); try done.
  - by destruct c.
  - intros bs Hbs. destruct (HF bs Hbs) as (gs & s & Ed & Hgs & H1 & H2 & H3 & H4). by exists gs, s.
  - intros _. destruct c as [h|p]; [done|]. intros ->. apply block_repr_nonempty in Hblk.
    destruct Hc as (_ & _ & _ & Hne). by apply (Hl (Hnil Hne)).
Qed.

Definition left_in (co : Continuation) : nat := length (eb_headers (co_header_block co)).

Lemma expand_length (l : list (Header (option HeaderName))) : forall last fs, expand last l = Some fs -> length fs = length l.
Proof.
  induction l as [|h l IH]; intros last fs E; cbn [expand] in E; [by injection E as <-|].
  destruct (Header.reify h) as [g|v|]; [|destruct last as [n|]; [|done]|done]; cbn [mbind option_bind] in E;
    (destruct (expand _ l) as [fs'|] eqn:E'; [|done]); injection E as <-; simpl; f_equal; by eapply IH.
Qed.

(** The next frame of a message, into an empty buffer: it is the last one, or it holds
    at least one field. *)
Lemma transit_continue items F e co dst :
  in_transit items F e (Some co) -> remaining_mut dst = max + HEADER_LEN -> buf_bytes dst = [] ->
  exists e' dst' next b, Continuation_encode co (e, dst) = ((e', dst'), Ok next) /\ buf_bytes dst' = b /\
    is_frame max b /\ in_transit items (F ++ [b]) e' next /\
    (forall co', next = Some co' -> len b <> HEADER_LEN /\ (left_in co' < left_in co)%nat).
Proof.
  intros (items' & f & c & lim & m & ds & fs1 & l & h & fs2 & st & rest & -> & Hf & Hc & -> & Hm & Hp & Hx & Hfit & Hcar & Hl & HF) Hr Hb.
  destruct (continuation_frame max max_range (Continuable_stream_id c) m ds e st h rest fs2 dst Hm Hp Hx
    (fits_default _ _ (proj1 Hmax) Hfit) Hr) as (e' & dst' & r & rest' & out & l2 & ds' & E1 & E2 & Hlen & Hfr & Hleft & Hne).
  set (head := Head.new KContinuation END_HEADERS (Continuable_stream_id c)) in *.
  exists e', dst'. eexists _, _. split; [exact E1|]. rewrite Hb in E2. cbn [app] in E2. split; [exact E2|].
  split; [by eexists _, _; split; [done|]; lia|]. split.
  - replace (final_head head r) with (nth_head c false (is_full r)) by (by destruct r).
    eapply (transit_piece items' F e' f c lim m ds false fs1 l (h :: fs2) out l2 m ds' r rest' head); try done. by constructor.
  - intros co' Eco. destruct r as [|st']; [done|]. injection Eco as <-. split.
    + unfold frame_bytes. rewrite len_app. unfold len at 1. rewrite head_bytes_length. unfold HEADER_LEN.
      inversion Hfr as [|? o ? ? ? ? ? Hf1]; subst; [done|]. apply field_repr_nonempty in Hf1.
      unfold len. rewrite length_app. lia.
    + destruct Hleft as (fs1' & h' & fs3 & E & HF2 & _ & Hx'). unfold left_in. simpl.
      rewrite <- (expand_length _ _ _ Hx), <- (expand_length _ _ _ Hx').
      apply (f_equal length) in E. rewrite length_app in E. simpl in E.
      destruct fs1'; [by inversion HF2; subst|]. simpl in E. lia.
Qed.
End Transport.
