(* ===== verification/FrameSession.v ===== *)
(** * Sessions

    The operations of [FramedWrite] as steps of a connection, and what holds in every
    state that they reach. *)

From S2P Require Import Prelude Bytes H2Types Huffman HttpTypes Frames FramesCorrect HpackPrim HpackDecoder HpackDecoderCorrect HpackWire.
From S2P Require Import HpackTable HpackTableCorrect HpackEncoder HpackSync HpackRoundtrip HeadersFrame HeadersFrameCorrect.
From S2P Require Import FramedRead FramedReadCorrect FramedWrite HeadersEncodeCorrect HeadersTransport FrameTransport.
Import HTable HEncoder.

Section Session.
Context `{HM : HeaderMapOps} {HI : HeaderMapIntoIter (HM:=HM)} {NH : NameHasher (HT:=HT)} `{BM : BytesMut B} `{TB : Buf T}.
Implicit Types (w : FramedWrite (B:=B) (T:=T)) (so : Socket) (f : Frame (B:=T)) (F : list (list Z)).
Context (max_list : Z) (s0 : FramedRead (B:=B)).
(** The largest payload that the other side accepts. *)
Context (mx : Z) (Hmx : DEFAULT_MAX_FRAME_SIZE <= mx <= MAX_MAX_FRAME_SIZE).

(** ** The invariant *)

(** The socket has taken a prefix of the frames [F], which carry [items]; the rest is in
    the buffer, in the payload that is being written, or not encoded yet. *)
Definition writer_at F (items : list (Frame (B:=T))) w so : Prop :=
  (fw_pos w <= length (buf_bytes (fw_buf w)))%nat /\ data_last w /\
  DEFAULT_MAX_FRAME_SIZE <= fw_max_frame_size w <= mx /\
  Forall (is_frame mx) F /\ so_sent so ++ unsent w = concat F /\
  in_transit max_list s0 items F (fw_hpack w) (pending_continuation w).

Lemma below_max n : DEFAULT_MAX_FRAME_SIZE <= n <= mx -> DEFAULT_MAX_FRAME_SIZE <= n <= MAX_MAX_FRAME_SIZE.
Proof. lia. Qed.

Lemma buf_rest_app w w' b :
  (fw_pos w <= length (buf_bytes (fw_buf w)))%nat -> fw_pos w' = fw_pos w -> buf_bytes (fw_buf w') = buf_bytes (fw_buf w) ++ b ->
  buf_rest w' = buf_rest w ++ b.
Proof. intros Hp Ep Eb. unfold buf_rest. by rewrite Ep, Eb, drop_app_le. Qed.

(** A frame is added to an idle writer. *)
Lemma writer_at_add F items f w so w' b1 b2 :
  writer_at F items w so -> fw_next w = None -> fw_pos w' = fw_pos w -> fw_max_frame_size w' = fw_max_frame_size w ->
  buf_bytes (fw_buf w') = buf_bytes (fw_buf w) ++ b1 -> pending_data w' = b2 -> data_last w' -> is_frame mx (b1 ++ b2) ->
  in_transit max_list s0 (items ++ [f]) (F ++ [b1 ++ b2]) (fw_hpack w') (pending_continuation w') ->
  writer_at (F ++ [b1 ++ b2]) (items ++ [f]) w' so.
Proof.
  intros (Hp & Hd & Hm & HF & Hs & Ht) Hn Ep Em Eb Ed Hd' Hfr Ht'.
  split; [rewrite Ep, Eb, length_app; lia|]. split; [done|]. split; [by rewrite Em|].
  split; [by apply Forall_app_2; [|constructor]|]. split; [|done].
  unfold unsent. rewrite (buf_rest_app w w' b1) by done. rewrite Ed, concat_app. cbn [concat]. rewrite app_nil_r, <- Hs.
  unfold unsent, pending_data. rewrite Hn, app_nil_r. by rewrite <- !(assoc_L (++)).
Qed.

Corollary writer_at_append F items f w so w' b :
  writer_at F items w so -> fw_next w = None -> fw_pos w' = fw_pos w -> fw_max_frame_size w' = fw_max_frame_size w ->
  buf_bytes (fw_buf w') = buf_bytes (fw_buf w) ++ b -> pending_data w' = [] -> data_last w' -> is_frame mx b ->
  in_transit max_list s0 (items ++ [f]) (F ++ [b]) (fw_hpack w') (pending_continuation w') ->
  writer_at (F ++ [b]) (items ++ [f]) w' so.
Proof. intros. rewrite <- (app_nil_r b). apply (writer_at_add F items f w so w' b []); by rewrite ?app_nil_r. Qed.

Lemma writer_idle F items w so :
  writer_at F items w so -> fw_next w = None -> in_transit max_list s0 items F (fw_hpack w) None.
Proof. intros (_ & _ & _ & _ & _ & Ht) Hn. unfold pending_continuation in Ht. by rewrite Hn in Ht. Qed.

(** ** Buffering *)

Lemma limited_eq {E A} (c : SE (Encoder * Limit B) Never A) w e' dst' a :
  c (fw_hpack w, MkLimit (fw_buf w) (fw_max_frame_size w + HEADER_LEN)) = ((e', dst'), Ok a) ->
  limited (E:=E) (T:=T) c w = (MkFramedWrite e' (limit_inner dst') (fw_pos w) (fw_next w) (fw_last_data_frame w) (fw_max_frame_size w), Ok a).
Proof. intros H. unfold limited. by rewrite H. Qed.

(** A message is encoded into the buffer; the rest of it is kept. *)
Lemma buffer_message F items f c w so :
  writer_at F items w so -> fw_next w = None -> len (buf_bytes (fw_buf w)) < 2 ^ 62 -> message f = Some c -> message_ok max_list c ->
  exists w' b, (next ← limited (start_encode c);
     match next with
     | Some continuation => modify (set_next (Some (NContinuation continuation)))
     | None => mret tt
     end) w = (w', Ok tt : outcome UserError ()) /\ writer_at (F ++ [b]) (items ++ [f]) w' so.
Proof.
  intros Hw Hn Hlen Hf Hok. pose proof Hw as (_ & _ & Hm & _).
  assert (remaining_mut (MkLimit (fw_buf w) (fw_max_frame_size w + HEADER_LEN)) = fw_max_frame_size w + HEADER_LEN) as Hr.
  { cbn [remaining_mut limit_buf_mut limit_inner limit]. rewrite bm_remaining. pose proof (max_range _ (below_max _ Hm)). unfold HEADER_LEN. lia. }
  destruct (transit_start max_list s0 (fw_max_frame_size w) (below_max _ Hm) items F (fw_hpack w) f c _ (writer_idle _ _ _ _ Hw Hn) Hf Hok Hr)
    as (e' & dst' & next & b & E1 & E2 & Hfr & Ht).
  rewrite (bind_eq _ _ _ _ _ (limited_eq _ w _ _ _ E1)).
  exists (MkFramedWrite e' (limit_inner dst') (fw_pos w) (NContinuation <$> next) (fw_last_data_frame w) (fw_max_frame_size w)), b.
  split; [destruct next; unfold modify, set_next; cbn; by rewrite ?Hn|].
  apply (writer_at_append F items f w so _ b Hw Hn); try done; [by destruct next..| |by destruct next].
  by eapply is_frame_mono; [apply Hm|].
Qed.

Lemma capacity_idle w : has_capacity w = true -> fw_next w = None /\ 265 <= remaining_mut (fw_buf w).
Proof. intros [Hn Hc%Z.leb_le]%andb_true_iff. destruct (fw_next w); [done|]. split; [done|exact Hc]. Qed.

Lemma buffer_control F items f (g : Frame (B:=B)) (enc : B -> B) w so :
  writer_at F items w so -> has_capacity w = true -> control f = Some g -> control_encode g = Some enc -> control_wf g ->
  exists b, writer_at (F ++ [b]) (items ++ [f]) (set_buf (enc (fw_buf w)) w) so.
Proof.
  intros Hw [Hn Hcap]%capacity_idle Hf He Hwf.
  destruct (transit_control max_list s0 f g enc Hf He Hwf) as (b & Hb & Hl & Hfr & Ht). exists b.
  apply (writer_at_append F items f w so _ b Hw Hn); try done.
  - cbn [fw_buf set_buf]. apply writes_bytes; [done|]. lia.
  - unfold pending_data. cbn [fw_next set_buf]. by rewrite Hn.
  - unfold data_last. cbn [fw_next set_buf]. by rewrite Hn.
  - eapply is_frame_mono; [|done]. unfold DEFAULT_MAX_FRAME_SIZE in Hmx. lia.
  - unfold pending_continuation. cbn [fw_next set_buf fw_hpack]. rewrite Hn. by apply Ht, (writer_idle _ _ _ so).
Qed.

Lemma data_frame_is_frame (d : Data T) n :
  len (src_bytes (data_data d)) <= n -> n <= mx -> is_frame mx (frame_bytes (Data.head d) (src_bytes (data_data d))).
Proof. intros. eexists _, _. split; [done|]. lia. Qed.

Lemma buffer_data F items (d : Data T) w so :
  writer_at F items w so -> has_capacity w = true -> frame_ok (B:=B) max_list (FData d) -> 
  match buffer (FData d) w with
  | (w', Ok _) => exists b, writer_at (F ++ [b]) (items ++ [FData d]) w' so
  | (w', Err e) => e = PayloadTooBig /\ w' = w
  | (_, Panic) => False
  end.
Proof.
  intros Hw Hc Hok. pose proof Hc as [Hn Hcap]%capacity_idle. unfold buffer, get. unfold mbind at 1, SE_bind at 1.
  rewrite Hc. cbn [assert_]. rewrite bind_lift_Ok. pose proof Hw as (_ & _ & Hm & _).
  pose proof (transit_data max_list s0 items F _ d (writer_idle _ _ _ _ Hw Hn) Hok) as Ht. unfold remaining.
  destruct (Z.ltb_spec (fw_max_frame_size w) (len (src_bytes (data_data d)))) as [?|Hle]; [done|].
  pose proof (data_frame_is_frame d _ Hle (proj2 Hm)) as Hfr.
  assert (len (head_bytes (Data.head d) (len (src_bytes (data_data d)))) = 9) as H9 by (unfold len at 1; by rewrite head_bytes_length).
  destruct (Z.leb_spec CHAIN_THRESHOLD (len (src_bytes (data_data d)))) as [Hge|Hlt].
  - unfold on_buf. rewrite bind_modify. unfold modify. exists (frame_bytes (Data.head d) (src_bytes (data_data d))).
    apply (writer_at_add F items (FData d) w so _ (head_bytes (Data.head d) (len (src_bytes (data_data d)))) (src_bytes (data_data d)) Hw Hn);
      try done.
    + cbn. apply (writes_bytes _ _ _ (head_encode_writes _ _)). lia.
    + intros E. exfalso. cbn in E. rewrite E in Hge. done.
  - assert (len (frame_bytes (Data.head d) (src_bytes (data_data d))) <= remaining_mut (fw_buf w)) as Hroom.
    { unfold frame_bytes. rewrite len_app. unfold CHAIN_THRESHOLD in Hlt. lia. }
    destruct (data_encode_chunk (E:=UserError) d (fw_buf w) Hroom) as (d' & buf' & E1 & E2 & E3).
    rewrite E1, bind_lift_Ok. unfold on_buf. rewrite bind_modify, E3. change (len (@nil Z) =? 0) with true. cbn [assert_].
    rewrite bind_lift_Ok. unfold modify. exists (frame_bytes (Data.head d) (src_bytes (data_data d))).
    apply (writer_at_append F items (FData d) w so _ _ Hw Hn); try done.
    + unfold pending_data. cbn. by rewrite Hn.
    + unfold data_last. cbn. by rewrite Hn.
    + unfold pending_continuation. cbn. by rewrite Hn.
Qed.

(** A buffered frame is the next one to arrive; only data above the limit is refused. *)
Lemma buffer_spec F items f w so :
  writer_at F items w so -> has_capacity w = true -> len (buf_bytes (fw_buf w)) < 2 ^ 62 -> frame_ok (B:=B) max_list f ->
  match buffer f w with
  | (w', Ok _) => exists b, writer_at (F ++ [b]) (items ++ [f]) w' so
  | (w', Err e) => e = PayloadTooBig /\ w' = w
  | (_, Panic) => False
  end.
Proof.
  intros Hw Hc Hlen Hok. destruct (message f) as [c|] eqn:Ef.
  - pose proof Hc as [Hn _]%capacity_idle.
    assert (message_ok max_list c) as Hmok by (by destruct f; simplify_eq/=).
    destruct (buffer_message F items f c w so Hw Hn Hlen Ef Hmok) as (w' & b & E & Hw').
    assert (buffer f w = (w', Ok tt)) as ->; [|by exists b]. rewrite <- E. unfold buffer, get. unfold mbind at 1, SE_bind at 1.
    rewrite Hc. cbn [assert_]. rewrite bind_lift_Ok. by destruct f; simplify_eq/=.
  - destruct f as [d| | | | | | | |]; try done; [by apply buffer_data|..]; destruct Hok as (g & Hg & Hwf);
      unfold buffer, get; unfold mbind at 1, SE_bind at 1; rewrite Hc; cbn [assert_]; rewrite bind_lift_Ok;
      eapply buffer_control; try done; by simplify_eq/=.
Qed.

(** ** Flushing *)

Lemma writer_at_write F items w so w' so' :
  writer_at F items w so -> same_writer w w' -> data_last w' -> so_sent so' ++ unsent w' = so_sent so ++ unsent w ->
  (fw_pos w' <= length (buf_bytes (fw_buf w')))%nat -> writer_at F items w' so'.
Proof.
  intros (Hp & Hd & Hm & HF & Hs & Ht) (E1 & E2 & E3 & E4 & _) Hd' Es Hp'.
  split; [done|]. split; [done|]. split; [by rewrite E4|]. split; [done|]. split; [by rewrite Es|]. by rewrite E1, E3.
Qed.

Lemma write_some_pos n w :
  (fw_pos w <= length (buf_bytes (fw_buf w)))%nat ->
  (fw_pos (write_some n w).1 <= length (buf_bytes (fw_buf (write_some n w).1)))%nat.
Proof.
  intros Hp. unfold write_some, buf_rest. rewrite length_drop.
  destruct (fw_next w) as [[f|c]|]; [case_bool_decide|..]; simpl; lia.
Qed.

Lemma write_out_pos script : forall w sent,
  (fw_pos w <= length (buf_bytes (fw_buf w)))%nat ->
  let w' := (write_out script w sent).1.1 in (fw_pos w' <= length (buf_bytes (fw_buf w')))%nat.
Proof.
  induction script as [|a script IH]; intros w sent Hp; simpl; (destruct (fw_is_empty w); [done|]); [done|].
  destruct a as [| |n]; [done|done|]. pose proof (write_some_pos n w Hp) as Hp'. destruct (write_some n w) as [w1 taken]. by apply IH.
Qed.

Lemma write_out_ok F items w so :
  writer_at F items w so ->
  let '(w', so', r) := write_out (so_script so) w (so_sent so) in
  writer_at F items w' so' /\ same_writer w w' /\
  match r with Ok (Ready _) => unsent w' = [] | Panic => False | _ => True end.
Proof.
  intros Hw. pose proof Hw as (Hp & Hd & _). pose proof (write_out_spec (so_script so) w (so_sent so) Hd) as H.
  pose proof (write_out_pos (so_script so) w (so_sent so) Hp) as Hp'.
  destruct (write_out _ w _) as [[w' so'] r]. destruct H as (Es & Hs & Hd' & Hr). split; [|done]. by eapply writer_at_write.
Qed.

(** The rounds that are left: one for every frame and one to find that there is none. *)
Definition rounds (next : option Continuation) : nat := match next with Some co => left_in co + 2 | None => 1 end.

(** The buffer is empty; the next frame of the message is encoded into it. *)
Lemma next_round F items w so co :
  writer_at F items w so -> unsent w = [] -> pending_continuation w = Some co ->
  let w0 := MkFramedWrite (fw_hpack w) (bm_truncate (fw_buf w) 0) 0 None (fw_last_data_frame w) (fw_max_frame_size w) in
  exists w1 next b, limited (E:=()) (Continuation_encode co) w0 = (w1, Ok next) /\ fw_next w1 = None /\
    (forall co', next = Some co' -> len (buf_bytes (fw_buf w1)) <> HEADER_LEN /\ (rounds next < rounds (Some co))%nat) /\
    writer_at (F ++ [b]) items (set_next (NContinuation <$> next) w1) so.
Proof.
  intros (Hp & Hd & Hm & HF & Hs & Ht) Hun Hco w0. rewrite Hco in Ht. rewrite Hun, app_nil_r in Hs.
  assert (buf_bytes (bm_truncate (fw_buf w) 0) = []) as Hb by (by rewrite bm_truncate_bytes).
  set (dst := MkLimit (bm_truncate (fw_buf w) 0) (fw_max_frame_size w + HEADER_LEN)).
  assert (remaining_mut dst = fw_max_frame_size w + HEADER_LEN) as Hr.
  { subst dst. cbn [remaining_mut limit_buf_mut limit_inner limit]. rewrite bm_remaining, Hb. pose proof (max_range _ (below_max _ Hm)).
    change (len (@nil Z)) with 0. unfold HEADER_LEN. lia. }
  destruct (transit_continue max_list s0 (fw_max_frame_size w) (below_max _ Hm) items F (fw_hpack w) co dst Ht Hr Hb)
    as (e' & dst' & next & b & E1 & E2 & Hfr & Ht' & Hnext).
  set (w1 := MkFramedWrite e' (limit_inner dst') 0 None (fw_last_data_frame w) (fw_max_frame_size w) : FramedWrite (T:=T)).
  exists w1, next, b. split; [exact (limited_eq _ w0 _ _ _ E1)|]. split; [done|]. change (buf_bytes (fw_buf w1)) with (buf_bytes dst').
  rewrite E2. split.
  - intros co' ->. destruct (Hnext co' eq_refl) as [? ?]. split; [done|]. simpl. lia.
  - split; [simpl; lia|]. split; [by destruct next|]. split; [done|].
    split; [apply Forall_app_2; [done|]; constructor; [by eapply is_frame_mono; [apply Hm|]|done]|].
    assert (pending_continuation (set_next (NContinuation <$> next) w1) = next) as Hpc by (by destruct next).
    split; [|by rewrite Hpc]. rewrite concat_app, <- Hs. cbn [concat]. rewrite app_nil_r. f_equal. rewrite <- E2.
    destruct next; unfold unsent, pending_data, buf_rest; cbn; by rewrite app_nil_r.
Qed.

Definition flushed w : Prop := unsent w = [] /\ fw_next w = None.

(** The buffer after everything in it has been written. *)
Definition cleared w (last : option (Data T)) : FramedWrite (B:=B) (T:=T) :=
  MkFramedWrite (fw_hpack w) (bm_truncate (fw_buf w) 0) 0 None last (fw_max_frame_size w).

Lemma cleared_ok F items w so last :
  writer_at F items w so -> unsent w = [] -> pending_continuation w = None ->
  writer_at F items (cleared w last) so /\ flushed (cleared w last).
Proof.
  intros (Hp & Hd & Hm & HF & Hs & Ht) Hun Hpc.
  assert (unsent (cleared w last) = []) as Hun' by (unfold unsent, buf_rest, pending_data; cbn; by rewrite bm_truncate_bytes).
  split; [|done]. split; [simpl; lia|]. split; [done|]. split; [done|]. split; [done|]. rewrite Hun in Hs. rewrite Hun'.
  split; [done|]. by rewrite Hpc in Ht.
Qed.

(** What holds after a call that may write: further frames [F'], no panic, and nothing
    left to write when it is done. *)
Definition flush_post F items (x : (FramedWrite (B:=B) (T:=T) * Socket) * outcome () (Async ())) : Prop :=
  let '((w, so), r) := x in
  (exists F', writer_at (F ++ F') items w so) /\
  match r with Ok (Ready _) => flushed w | Panic => False | _ => True end.

Lemma flush_post_more F F1 items x : flush_post (F ++ F1) items x -> flush_post F items x.
Proof. destruct x as [[w so] r]. intros [[F' HF'] ?]. split; [|done]. exists (F1 ++ F'). by rewrite (assoc_L (++)). Qed.

(** Flushing writes the frames of the messages in order, and never gives up on one. *)
Lemma flush_frames_spec fuel : forall F items w so,
  writer_at F items w so -> (rounds (pending_continuation w) <= fuel)%nat ->
  flush_post F items (flush_frames fuel (w, so)).
Proof.
  induction fuel as [|fuel IH]; intros F items w so Hw Hf; [unfold rounds in Hf; case_match; lia|].
  cbn [flush_frames]. unfold when_ready. unfold mbind at 1, SE_bind at 1. cbn [fst snd].
  pose proof (write_out_ok F items w so Hw) as Hout. destruct (write_out (so_script so) w (so_sent so)) as [[w1 so1] r].
  destruct Hout as (Hw1 & (_ & _ & Epc & _) & Hr). destruct r as [[[]|]|[]|]; [|by split; [exists []; rewrite app_nil_r|]..|done].
  rewrite bind_gets. cbn [fst]. rewrite bind_modify. cbn [fst snd]. rewrite <- Epc in Hf. fold (cleared w1 (fw_last_data_frame w1)).
  destruct (fw_next w1) as [[d|co]|] eqn:En1.
  - rewrite bind_modify. cbn [fst snd]. destruct (cleared_ok F items w1 so1 (Some d) Hw1 Hr) as [H1 H2];
      [unfold pending_continuation; by rewrite En1|]. split; [|exact H2]. exists []. by rewrite app_nil_r.
  - assert (pending_continuation w1 = Some co) as Hco by (unfold pending_continuation; by rewrite En1). rewrite Hco in Hf.
    destruct (next_round F items w1 so1 co Hw1 Hr Hco) as (w2 & next & b & E1 & E2 & Hnext & Hw2).
    match goal with |- context [zoom fst ?g (limited ?c)] => assert (zoom fst g (limited (E:=()) c) (cleared w1 (fw_last_data_frame w1), so1) =
      ((w2, so1), Ok next)) as Ez by (unfold zoom; cbn [fst snd]; unfold cleared; by rewrite E1) end.
    rewrite (bind_eq _ _ _ _ _ Ez). specialize (IH (F ++ [b]) items _ so1 Hw2).
    assert (pending_continuation (set_next (NContinuation <$> next) w2) = next) as Hpc by (by destruct next). rewrite Hpc in IH.
    assert (rounds next <= fuel)%nat as Hlt by (destruct next as [co'|]; [destruct (Hnext co' eq_refl); simpl in *; lia|simpl in *; lia]).
    specialize (IH Hlt).
    apply (flush_post_more F [b]). destruct next as [co'|].
    + destruct (Hnext co' eq_refl) as [Hne _]. rewrite bind_gets. cbn [fst]. rewrite (proj2 (Z.eqb_neq _ _) Hne), bind_modify. exact IH.
    + replace w2 with (set_next (NContinuation <$> None) w2) by (destruct w2; simpl in *; by subst). exact IH.
  - destruct (cleared_ok F items w1 so1 (fw_last_data_frame w1) Hw1 Hr) as [H1 H2];
      [unfold pending_continuation; by rewrite En1|]. split; [|exact H2]. exists []. by rewrite app_nil_r.
Qed.

Lemma writer_at_script F items w so script : writer_at F items w so -> writer_at F items w (MkSocket script (so_sent so)).
Proof. done. Qed.

Lemma flush_spec fuel F items w so :
  writer_at F items w so -> (rounds (pending_continuation w) <= fuel)%nat -> flush_post F items (flush fuel (w, so)).
Proof.
  intros Hw Hf. unfold flush, when_ready. unfold mbind at 1, SE_bind at 1.
  pose proof (flush_frames_spec fuel F items w so Hw Hf) as H.
  destruct (flush_frames fuel (w, so)) as [[w' so'] [[[]|]|[]|]]; [|done..]. destruct H as [[F' HF'] Hfl].
  unfold poll_socket. cbn [fst snd]. destruct (next_answer so') as [a script].
  by destruct a; (split; [exists F'; by apply writer_at_script|]).
Qed.

Lemma poll_ready_spec fuel F items w so :
  writer_at F items w so -> (rounds (pending_continuation w) <= fuel)%nat ->
  let '((w', so'), r) := poll_ready fuel (w, so) in
  (exists F', writer_at (F ++ F') items w' so') /\
  match r with Ok (Ready _) => has_capacity w' = true | Panic => False | _ => True end.
Proof.
  intros Hw Hf. unfold poll_ready. rewrite bind_gets. cbn [fst]. destruct (has_capacity w) eqn:Hc.
  { split; [exists []; by rewrite app_nil_r|done]. }
  unfold when_ready. unfold mbind at 1, SE_bind at 1. pose proof (flush_spec fuel F items w so Hw Hf) as H.
  destruct (flush fuel (w, so)) as [[w' so'] [[[]|]|[]|]]; [|done..]. destruct H as [HF' _]. rewrite bind_gets. cbn [fst].
  by destruct (has_capacity w') eqn:Hc'.
Qed.

(** ** Progress *)

(** A socket that takes at least a byte at each write. *)
Definition taking (a : WriteAnswer) : Prop := match a with WTake n => n <> 0%nat | _ => False end.

Lemma write_some_less n w :
  fw_is_empty w = false -> n <> 0%nat -> (length (unsent (write_some n w).1) < length (unsent w))%nat.
Proof.
  intros He Hn. pose proof (write_some_spec n w) as H.
  assert ((write_some n w).2 <> []) as Ht.
  { unfold write_some, fw_is_empty, has_remaining in *. destruct (fw_next w) as [[f|c]|].
    - case_bool_decide as Hr.
      + destruct (src_bytes (data_data f)); [done|]. by destruct n.
      + destruct (buf_rest w); [done|]. by destruct n.
    - apply bool_decide_eq_false in He. destruct (buf_rest w); [done|]. by destruct n.
    - apply bool_decide_eq_false in He. destruct (buf_rest w); [done|]. by destruct n. }
  destruct (write_some n w) as [w' taken]. destruct H as (<- & _). rewrite length_app. simpl in *. destruct taken; [done|simpl; lia].
Qed.

Lemma write_out_live script : forall w sent,
  Forall taking script -> (length (unsent w) < length script)%nat ->
  let '(w', so, r) := write_out script w sent in
  r = Ok (Ready tt) /\ Forall taking (so_script so) /\ (length script <= length (so_script so) + length (unsent w))%nat.
Proof.
  induction script as [|a script IH]; intros w sent Ht Hl; [simpl in Hl; lia|]. cbn [write_out].
  destruct (fw_is_empty w) eqn:He; [split; [done|]; split; [done|simpl; lia]|].
  apply Forall_cons in Ht as [Ha Ht]. destruct a as [| |n]; [done|done|]. simpl in Ha. pose proof (write_some_less n w He Ha) as Hless.
  destruct (write_some n w) as [w1 taken]. simpl in Hless, Hl. specialize (IH w1 (sent ++ taken) Ht ltac:(lia)).
  destruct (write_out script w1 _) as [[w2 so2] r]. destruct IH as (? & ? & ?). split; [done|]. split; [done|]. simpl. lia.
Qed.

Definition frame_room : nat := Z.to_nat (mx + HEADER_LEN).

Lemma is_frame_room b : is_frame mx b -> (length b <= frame_room)%nat.
Proof.
  intros (h & p & -> & Hp). unfold frame_bytes, frame_room, HEADER_LEN. rewrite length_app, head_bytes_length. unfold len in Hp. lia.
Qed.

(** The frame that a round adds is all that there is to write. *)
Lemma round_unsent F items w so b w' :
  writer_at F items w so -> unsent w = [] -> writer_at (F ++ [b]) items w' so -> (length (unsent w') <= frame_room)%nat.
Proof.
  intros (_ & _ & _ & _ & E1 & _) Hun (_ & _ & _ & HF & E2 & _). rewrite Hun, app_nil_r in E1.
  rewrite concat_app, <- E1 in E2. apply app_inv_head in E2. cbn [concat] in E2. rewrite app_nil_r in E2. rewrite E2.
  apply is_frame_room. apply Forall_app in HF as [_ HF]. by apply Forall_inv in HF.
Qed.

Lemma flush_frames_live fuel : forall F items w so,
  writer_at F items w so -> (rounds (pending_continuation w) <= fuel)%nat -> Forall taking (so_script so) ->
  (length (unsent w) + fuel * frame_room < length (so_script so))%nat ->
  let '((w', so'), r) := flush_frames fuel (w, so) in
  r = Ok (Ready tt) /\ Forall taking (so_script so') /\ so_script so' <> [].
Proof.
  induction fuel as [|fuel IH]; intros F items w so Hw Hf Ht Hl; [unfold rounds in Hf; case_match; lia|].
  cbn [flush_frames]. unfold when_ready. unfold mbind at 1, SE_bind at 1. cbn [fst snd].
  pose proof (write_out_ok F items w so Hw) as Hout. pose proof (write_out_live (so_script so) w (so_sent so) Ht ltac:(lia)) as Hlive.
  destruct (write_out (so_script so) w (so_sent so)) as [[w1 so1] r].
  destruct Hout as (Hw1 & (_ & _ & Epc & _) & Hr), Hlive as (-> & Ht1 & Hl1).
  assert (so_script so1 <> []) as Hne by (intros E; rewrite E in Hl1; simpl in Hl1; lia).
  rewrite bind_gets. cbn [fst]. rewrite bind_modify. cbn [fst snd]. rewrite <- Epc in Hf. fold (cleared w1 (fw_last_data_frame w1)).
  destruct (fw_next w1) as [[d|co]|] eqn:En1; [by rewrite bind_modify| |done].
  assert (pending_continuation w1 = Some co) as Hco by (unfold pending_continuation; by rewrite En1). rewrite Hco in Hf.
  destruct (next_round F items w1 so1 co Hw1 Hr Hco) as (w2 & next & b & E1 & E2 & Hnext & Hw2).
  match goal with |- context [zoom fst ?g (limited ?c)] => assert (zoom fst g (limited (E:=()) c) (cleared w1 (fw_last_data_frame w1), so1) =
    ((w2, so1), Ok next)) as Ez by (unfold zoom; cbn [fst snd]; unfold cleared; by rewrite E1) end.
  rewrite (bind_eq _ _ _ _ _ Ez). specialize (IH (F ++ [b]) items _ so1 Hw2).
  assert (pending_continuation (set_next (NContinuation <$> next) w2) = next) as Hpc by (by destruct next). rewrite Hpc in IH.
  assert (rounds next <= fuel)%nat as Hlt by (destruct next as [co'|]; [destruct (Hnext co' eq_refl); simpl in *; lia|simpl in *; lia]).
  pose proof (round_unsent F items w1 so1 b _ Hw1 Hr Hw2) as Hroom. specialize (IH Hlt Ht1 ltac:(simpl in Hl; lia)).
  destruct next as [co'|].
  - destruct (Hnext co' eq_refl) as [Hne' _]. rewrite bind_gets. cbn [fst]. rewrite (proj2 (Z.eqb_neq _ _) Hne'), bind_modify. exact IH.
  - replace w2 with (set_next (NContinuation <$> None) w2) by (destruct w2; simpl in *; by subst). exact IH.
Qed.

Lemma flush_live fuel F items w so :
  writer_at F items w so -> (rounds (pending_continuation w) <= fuel)%nat -> Forall taking (so_script so) ->
  (length (unsent w) + fuel * frame_room < length (so_script so))%nat ->
  exists w' so', flush fuel (w, so) = ((w', so'), Ok (Ready tt)) /\ flushed w'.
Proof.
  intros Hw Hf Ht Hl. pose proof (flush_frames_live fuel F items w so Hw Hf Ht Hl) as Hlive.
  pose proof (flush_frames_spec fuel F items w so Hw Hf) as Hpost. unfold flush, when_ready. unfold mbind at 1, SE_bind at 1.
  destruct (flush_frames fuel (w, so)) as [[w' so'] r]. destruct Hlive as (-> & Ht' & Hne). destruct Hpost as [_ Hfl].
  unfold poll_socket. cbn [fst snd]. unfold next_answer. destruct (so_script so') as [|a script]; [done|].
  apply Forall_cons in Ht' as [Ha _]. destruct a; [done|done|]. eauto.
Qed.

(** ** Steps of a connection *)

(** The frames that have been buffered, the writer and its socket. *)
Record Conn := MkConn { cn_items : list (Frame (B:=T)); cn_writer : FramedWrite (B:=B) (T:=T); cn_socket : Socket }.

Inductive step : Conn -> Conn -> Prop :=
  | step_buffer items w so f w' :
      frame_ok (B:=B) max_list f -> has_capacity w = true -> len (buf_bytes (fw_buf w)) < 2 ^ 62 ->
      buffer f w = (w', Ok tt) -> step (MkConn items w so) (MkConn (items ++ [f]) w' so)
  | step_poll_ready items w so fuel w' so' r :
      (rounds (pending_continuation w) <= fuel)%nat -> poll_ready fuel (w, so) = ((w', so'), r) ->
      step (MkConn items w so) (MkConn items w' so')
  | step_flush items w so fuel w' so' r :
      (rounds (pending_continuation w) <= fuel)%nat -> flush fuel (w, so) = ((w', so'), r) ->
      step (MkConn items w so) (MkConn items w' so')
  | step_socket items w so script :
      step (MkConn items w so) (MkConn items w (MkSocket script (so_sent so)))
  | step_max_frame_size items w so val w' :
      DEFAULT_MAX_FRAME_SIZE <= val <= mx -> fw_set_max_frame_size val w = (w', Ok tt) ->
      step (MkConn items w so) (MkConn items w' so)
  | step_take items w so w' d :
      take_last_data_frame w = (w', Ok d) -> step (MkConn items w so) (MkConn items w' so).

Definition conn_ok (cn : Conn) : Prop := exists F, writer_at F (cn_items cn) (cn_writer cn) (cn_socket cn).

Lemma step_ok cn cn' : step cn cn' -> conn_ok cn -> conn_ok cn'.
Proof.
  intros Hs [F Hw]. destruct Hs as [items w so f w' Hok Hc Hl E|items w so fuel w' so' r Hf E|items w so fuel w' so' r Hf E|
    items w so script|items w so val w' Hv E|items w so w' d E]; cbn [cn_items cn_writer cn_socket] in *.
  - pose proof (buffer_spec F items f w so Hw Hc Hl Hok) as H. rewrite E in H. destruct H as [b H]. by exists (F ++ [b]).
  - pose proof (poll_ready_spec fuel F items w so Hw Hf) as H. rewrite E in H. destruct H as [[F' H] _]. by exists (F ++ F').
  - pose proof (flush_spec fuel F items w so Hw Hf) as H. rewrite E in H. destruct H as [[F' H] _]. by exists (F ++ F').
  - by exists F.
  - exists F. unfold fw_set_max_frame_size in E. destruct (Z.leb_spec val MAX_MAX_FRAME_SIZE) as [_|]; [|done].
    assert (as_u32 val = val) as Ev.
    { pose proof (max_range _ (below_max _ Hv)). unfold as_u32, wrapu. apply Z.mod_small. lia. }
    cbn [assert_] in E. rewrite bind_lift_Ok in E. injection E as <-. destruct Hw as (? & ? & _ & ? & ? & ?).
    split; [done|]. split; [done|]. split; [by rewrite Ev|done].
  - exists F. injection E as <- <-. done.
Qed.

(** The two ends of a new connection. *)
Lemma conn_start w so :
  w = FramedWrite_new -> so_sent so = [] -> fr_partial s0 = None -> fr_max_header_list_size s0 = max_list ->
  in_sync (fw_hpack w) (fr_hpack s0) -> conn_ok (MkConn [] w so).
Proof.
  intros -> Hs Hp Hm Hsync. apply in_sync_step in Hsync as [Hst Hd]. exists []. cbn [cn_items cn_writer cn_socket].
  split; [simpl; lia|]. split; [done|]. split; [split; [done|apply Hmx]|]. split; [constructor|]. split.
  { rewrite Hs. unfold unsent, buf_rest, pending_data. cbn. by rewrite bm_new_bytes. }
  eexists _, _, _. split; [exact Hst|]. apply delivers_nil. by split_and!.
Qed.

Lemma reachable_ok cn cn' : rtc step cn cn' -> conn_ok cn -> conn_ok cn'.
Proof. induction 1; eauto using step_ok. Qed.

Lemma flushed_delivers F items w so :
  writer_at F items w so -> flushed w ->
  so_sent so = concat F /\ delivers F s0 (fun gs s => Forall2 same_frame items gs /\ fr_partial s = None /\ in_sync (fw_hpack w) (fr_hpack s)).
Proof.
  intros Hw [Hun Hn]. pose proof (writer_idle _ _ _ _ Hw Hn) as (m & ds & lim & Hst & HF).
  destruct Hw as (_ & _ & _ & _ & Hs & _). rewrite Hun, app_nil_r in Hs. split; [done|]. intros bs Hbs.
  destruct (HF bs Hbs) as (gs & s & Ed & Hgs & Hm & Hd & Hl & Hp). exists gs, s. split_and!; try done.
  apply in_sync_step. destruct Hd as (<- & <- & Hd). by rewrite Hl.
Qed.
End Session.
