(* ===== verification/H2Codec.v ===== *)
(** * The HTTP/2 codec ([http/h2/codec])

    [FramedRead] cuts frames out of the bytes of the socket and decodes them;
    [Codec] joins it with [FramedWrite]. *)

From S2P Require Import Prelude Bytes H2Types HttpTypes Frames HpackDecoder HeadersFrame FramedRead HpackTable HpackEncoder FramedWrite Codec.

Section H2Codec.
Context `{HM : HeaderMapOps} {HI : HeaderMapIntoIter (HM:=HM)} {NH : NameHasher (HT:=HT)} `{BM : BytesMut B} `{TB : Buf T}.

(** [http/h2/codec/framed_read.rs:24-33] FramedRead, with the delimiting codec *)
Record FrameReader := MkFrameReader {
  rd_inner : FramedRead2 LengthDelimitedCodec B;
  rd_frames : FramedRead (B:=B)
}.

(** [http/h2/codec/framed_read.rs] FramedRead::max_frame_size *)
Definition rd_max_frame_size (r : FrameReader) : Z := LengthDelimitedCodec_max_frame_length (r2_codec (rd_inner r)).

Definition set_decoder (f : LengthDelimitedCodec -> LengthDelimitedCodec) (r : FrameReader) : FrameReader :=
  let i := rd_inner r in MkFrameReader (MkFramedRead2 (f (r2_codec i)) (r2_eof i) (r2_is_readable i) (r2_buffer i)) (rd_frames r).

(** [http/h2/codec/framed_read.rs] FramedRead::set_max_frame_size *)
Definition rd_set_max_frame_size (val : Z) : SE FrameReader Never () :=
  _ ← lift (assert_ ((DEFAULT_MAX_FRAME_SIZE <=? val) && (val <=? MAX_MAX_FRAME_SIZE)));
  modify (set_decoder (LengthDelimitedCodec_set_max_frame_length val)).

(** [http/h2/codec/framed_read.rs] map_err *)
Definition map_io_err (err : IoErr) : RecvError :=
  match err with
  | LengthDelimitedCodecError InvalidData => RecvConnection FRAME_SIZE_ERROR
  | LengthDelimitedCodecError k | IoMsg k _ | SocketErr k => RecvIo k
  end.

(** What a poll answers: a frame or an error, the end of the stream, or not yet. *)
Abbreviation ReadResult := (FrameReader * list ReadAnswer * outcome RecvError (Async (option (Frame (B:=B)))))%type.

(** [http/h2/codec/framed_read.rs] FramedRead as Stream::poll_next *)
Fixpoint poll_frames (fuel : nat) (script : list ReadAnswer) (r : FrameReader) : ReadResult :=
  match fuel with
  | O => (r, script, Panic)
  | S fuel =>
      let '(inner, script, x) := poll_next script (rd_inner r) in
      let r := MkFrameReader inner (rd_frames r) in
      match x with
      | Ok (Ready (Some bytes)) =>
          let '(frames, y) := decode_frame bytes (rd_frames r) in
          let r := MkFrameReader inner frames in
          match y with
          | Ok (Some frame) => (r, script, Ok (Ready (Some frame)))
          | Ok None => poll_frames fuel script r
          | Err e => (r, script, Err e)
          | Panic => (r, script, Panic)
          end
      | Ok (Ready None) => (r, script, Ok (Ready None))
      | Ok Pending => (r, script, Ok Pending)
      | Err e => (r, script, Err (map_io_err e))
      | Panic => (r, script, Panic)
      end
  end.

(** Every round that goes on has taken a frame, so there are at most as many as bytes. *)
Definition rd_poll_next (script : list ReadAnswer) (r : FrameReader) : ReadResult :=
  poll_frames (S (length (buf_bytes (r2_buffer (rd_inner r))) + length (script_bytes script))) script r.

(** [http/h2/codec/mod.rs] Codec *)
Record Codec := MkCodec { cd_read : FrameReader; cd_write : FramedWrite (B:=B) (T:=T) }.

Definition on_read {E A} (c : SE FrameReader E A) : SE Codec E A := zoom cd_read (fun r cd => MkCodec r (cd_write cd)) c.
Definition on_write {E A} (c : SE (FramedWrite (B:=B) (T:=T)) E A) : SE Codec E A := zoom cd_write (fun w cd => MkCodec (cd_read cd) w) c.

(** [http/h2/codec/mod.rs] Codec::with_max_recv_frame_size *)
Definition Codec_with_max_recv_frame_size (max_frame_size : Z) : outcome Never Codec :=
  b ← Builder.length_field_length 3 (Builder.big_endian Builder.new);
  let delimited := framed_read2 (Builder.new_codec (Builder.set_num_skip 0 (Builder.set_length_adjustment 9 b))) in
  let '(inner, x) := rd_set_max_frame_size max_frame_size (MkFrameReader delimited FramedRead_new) in
  _ ← x;
  Ok (MkCodec inner FramedWrite_new).

(** [http/h2/codec/mod.rs] Codec::new *)
Definition Codec_new : outcome Never Codec := Codec_with_max_recv_frame_size DEFAULT_MAX_FRAME_SIZE.
(** [http/h2/codec/mod.rs] Codec::set_max_recv_frame_size *)
Definition Codec_set_max_recv_frame_size (val : Z) : SE Codec Never () := on_read (rd_set_max_frame_size val).
(** [http/h2/codec/mod.rs] Codec::max_recv_frame_size *)
Definition Codec_max_recv_frame_size (cd : Codec) : Z := rd_max_frame_size (cd_read cd).
(** [http/h2/codec/mod.rs] Codec::max_send_frame_size *)
Definition Codec_max_send_frame_size (cd : Codec) : Z := fw_max_frame_size (cd_write cd).
(** [http/h2/codec/mod.rs] Codec::set_max_send_frame_size *)
Definition Codec_set_max_send_frame_size (val : Z) : SE Codec Never () := on_write (fw_set_max_frame_size val).
(** [http/h2/codec/mod.rs] Codec::set_max_recv_header_list_size *)
Definition Codec_set_max_recv_header_list_size (val : Z) : SE Codec Never () :=
  on_read (modify (fun r => MkFrameReader (rd_inner r) (set_max_header_list_size val (rd_frames r)))).
(** [http/h2/codec/mod.rs] Codec::take_last_data_frame *)
Definition Codec_take_last_data_frame : SE Codec Never (option (Data T)) := on_write take_last_data_frame.
(** [http/h2/codec/mod.rs] Codec::buffer *)
Definition Codec_buffer (item : Frame (B:=T)) : SE Codec UserError () := on_write (buffer item).

Definition with_socket {A} (c : SE (FramedWrite (B:=B) (T:=T) * Socket) () A) : SE (Codec * Socket) () A :=
  zoom (fun s => (cd_write s.1, s.2)) (fun t s => (MkCodec (cd_read s.1) t.1, t.2)) c.
(** [http/h2/codec/mod.rs] Codec::poll_ready *)
Definition Codec_poll_ready (fuel : nat) : SE (Codec * Socket) () (Async ()) := with_socket (poll_ready fuel).
(** [http/h2/codec/mod.rs] Codec::flush *)
Definition Codec_flush (fuel : nat) : SE (Codec * Socket) () (Async ()) := with_socket (flush fuel).
(** [http/h2/codec/mod.rs] Codec::shutdown *)
Definition Codec_shutdown (fuel : nat) : SE (Codec * Socket) () (Async ()) := with_socket (shutdown fuel).
(** [http/h2/codec/mod.rs] Codec as Stream::poll_next *)
Definition Codec_poll_next (script : list ReadAnswer) (cd : Codec) :
    Codec * list ReadAnswer * outcome RecvError (Async (option (Frame (B:=B)))) :=
  let '(r, script, x) := rd_poll_next script (cd_read cd) in (MkCodec r (cd_write cd), script, x).
End H2Codec.
