(* ===== verification/FrameStream.v ===== *)
(** * HTTP/2 frames over a socket

    Both ends together: what a connection buffers and flushes is what the other end
    reads, into whatever pieces the socket cuts the bytes. *)

From S2P Require Import Prelude Bytes H2Types Huffman HttpTypes Frames FramesCorrect HpackPrim HpackDecoder HpackDecoderCorrect HpackWire.
From S2P Require Import HpackTable HpackTableCorrect HpackEncoder HpackSync HpackRoundtrip HeadersFrame HeadersFrameCorrect.
From S2P Require Import FramedRead FramedReadCorrect FramedWrite HeadersEncodeCorrect HeadersTransport FrameTransport.
From S2P Require Import FrameSession Codec CodecCorrect LengthDelimitedCorrect H2Codec.

(** ** The delimiting codec of HTTP/2 *)

Definition h2_builder (mx : Z) : Builder := MkBuilder mx 3 0 9 (Some 0) true.

Lemma h2_builder_ok mx : 0 <= mx < 2 ^ 64 -> builder_ok (h2_builder mx).
Proof. intros. split_and!; simpl; lia. Qed.

Lemma h2_head mx : Builder.num_head_bytes (h2_builder mx) = 3 /\ Builder.get_num_skip (h2_builder mx) = 0.
Proof. done. Qed.

(** The length of a frame is in its first three bytes. *)
Lemma frame_one_item mx f : mx <= MAX_MAX_FRAME_SIZE -> is_frame mx f -> one_item (h2_builder mx) f f.
Proof.
  intros Hmx (h & p & -> & Hp). change MAX_MAX_FRAME_SIZE with (2 ^ 24 - 1) in Hmx. pose proof (len_nonneg p).
  assert (len (frame_bytes h p) = 9 + len p) as El.
  { unfold frame_bytes. rewrite len_app. unfold len at 1. by rewrite head_bytes_length. }
  unfold one_item. destruct (h2_head mx) as [-> ->]. split; [lia|]. split; [|done].
  assert (field_of (h2_builder mx) (frame_bytes h p) = len p) as Ef.
  { unfold field_of, uint_of. cbn [h2_builder length_field_offset length_field_len length_field_is_big_endian].
    unfold frame_bytes, head_bytes. change (Z.to_nat 0) with 0%nat. rewrite drop_0, <- !(assoc_L (++)).
    change (Z.to_nat 3) with 3%nat. rewrite take_app_length' by (by rewrite to_be_bytes_length).
    apply from_to_be_bytes. change (256 ^ Z.of_nat 3) with (2 ^ 24). lia. }
  unfold length_of. rewrite Ef. cbn [h2_builder max_frame_len length_adjustment]. rewrite (proj2 (Z.ltb_ge _ _)) by lia.
  change (9 <? 0) with false. cbv iota. unfold checked_add. change (as_usize 9) with 9.
  rewrite (proj2 (Z.ltb_lt _ _)) by lia. f_equal. lia.
Qed.

(** No byte is skipped. *)
Lemma h2_call_keeps mx c l c' l' r :
  ld_builder c = h2_builder mx -> ld_good c l -> ld_pure c l = ((c', l'), Ok r) ->
  ld_builder c' = h2_builder mx /\ from_option id [] r ++ l' = l.
Proof.
  intros Eb (Hb & Hs & Hl) E. destruct c as [b st]. simpl in Eb. subst b.
  assert (forall n, 0 <= n -> data_step (h2_builder mx) n l = ((c', l'), Ok r) -> ld_builder c' = h2_builder mx /\ from_option id [] r ++ l' = l) as Hd.
  { intros n Hn Ed. destruct (data_step_cases (h2_builder mx) n l Hn) as [[_ E2]|[_ E2]]; rewrite E2 in Ed; simplify_eq/=; [done|].
    by rewrite take_drop. }
  destruct st as [|n].
  - rewrite decode_head_step in E by done. destruct (h2_head mx) as [E1 E2]. rewrite E1, E2 in E.
    destruct (len l <? 3); [by simplify_eq/=|]. destruct (length_of (h2_builder mx) l) as [n|e|] eqn:En; [|by simplify_eq..].
    change (Z.to_nat 0) with 0%nat in E. rewrite drop_0 in E. eapply Hd; [|done]. by eapply length_of_nonneg.
  - rewrite decode_data_eq in E by done. by apply (Hd n Hs).
Qed.

Definition h2_good (mx : Z) (c : LengthDelimitedCodec) (l : list Z) : Prop := ld_builder c = h2_builder mx /\ ld_good c l.

#[export] Instance h2_incremental mx : Incremental ld_pure (h2_good mx).
Proof.
  split.
  - intros c l m [? ?] ?. split; [done|]. by apply (inc_more (p:=ld_pure)).
  - intros c l c' l' r [Hb Hg] E. split; [by destruct (h2_call_keeps mx c l c' l' r Hb Hg E)|]. by eapply (inc_kept (p:=ld_pure)).
  - intros c l m c' l' v [_ Hg]. by apply inc_some.
  - intros c l m c' l' [_ Hg]. by apply inc_none.
  - intros c l m e [_ Hg]. by apply inc_err.
  - intros c l c' l' r [_ Hg]. by apply inc_shrinks.
  - intros c l [_ Hg]. by apply inc_panic.
Qed.

Lemma h2_parses_concat mx c l vs c' l' : h2_good mx c l -> parses ld_pure c l vs c' l' -> concat vs ++ l' = l.
Proof.
  intros Hg H. revert Hg. induction H as [c l c' l' E|c l c1 l1 v vs c' l' E H IH]; intros Hg; pose proof Hg as [Hb Hg'].
  - by destruct (h2_call_keeps mx c l c' l' None Hb Hg' E).
  - destruct (h2_call_keeps mx c l c1 l1 (Some v) Hb Hg' E) as [_ E1]. cbn [concat].
    rewrite <- (assoc_L (++)), IH; [done|]. by eapply (inc_kept (p:=ld_pure) (good:=h2_good mx)).
Qed.

Lemma length_le_concat (vs : list (list Z)) : Forall (fun v => v <> []) vs -> (length vs <= length (concat vs))%nat.
Proof. induction 1 as [|v vs Hv _ IH]; [done|]. destruct v; [done|]. simpl. rewrite length_app. lia. Qed.

(** ** Reading *)

Section Reader.
Context `{HM : HeaderMapOps} `{BM : BytesMut B}.
Implicit Types (r : FrameReader (B:=B)) (s : FramedRead (B:=B)) (F vs : list (list Z)) (script : list ReadAnswer).
Context (mx : Z).

(** The bytes of a frame. *)
Definition frame_sized (v : list Z) : Prop := v <> [] /\ len v < 2 ^ 64.

Lemma delivers_cons F (f : B) s (P : list (Frame (B:=B)) -> FramedRead (B:=B) -> Prop) :
  Forall frame_sized F -> delivers (buf_bytes f :: F) s P ->
  exists s1 g, decode_frame f s = (s1, Ok g) /\ delivers F s1 (fun gs s' => P (option_list g ++ gs) s').
Proof.
  intros HF H.
  assert (exists bs : list B, buf_bytes <$> bs = F) as [bs0 Hbs0].
  { exists (put_slice bm_new <$> F). rewrite <- list_fmap_compose. clear H. induction HF as [|v F [_ Hv] _ IH]; [done|].
    rewrite fmap_cons. f_equal; [|exact IH]. cbn. rewrite put_slice_bytes; rewrite ?bm_remaining, bm_new_bytes; [done|].
    change (len (@nil Z)) with 0. lia. }
  destruct (H (f :: bs0)) as (gs & s' & E & _); [by rewrite fmap_cons, Hbs0|].
  cbn [decode_frames] in E. unfold mbind, SE_bind in E. destruct (decode_frame f s) as [s1 [g|e|]] eqn:Ed; [|done|done].
  exists s1, g. split; [done|]. intros bs Hbs. destruct (H (f :: bs)) as (gs1 & s2 & E1 & HP); [by rewrite fmap_cons, Hbs|].
  cbn [decode_frames] in E1. unfold mbind, SE_bind in E1. rewrite Ed in E1.
  destruct (decode_frames bs s1) as [s3 [gs2|e|]]; [|done|done]. injection E1 as <- <-. by exists gs2, s3.
Qed.

(** The frames [vs] are ahead, and end in [P]. *)
Definition reads_on r script vs (P : list (Frame (B:=B)) -> FramedRead (B:=B) -> Prop) : Prop :=
  stream_ok (good:=h2_good mx) ld_pure (rd_inner r) /\ Forall data_only script /\ room (rd_inner r) script /\
  (exists c', ahead ld_pure (rd_inner r) script vs c' []) /\
  Forall frame_sized vs /\ delivers vs (rd_frames r) P.

(** A poll: the next frame, or none before the socket has more. *)
Definition frames_post script vs P (x : FrameReader (B:=B) * list ReadAnswer * outcome RecvError (Async (option (Frame (B:=B))))) : Prop :=
  let '(r, script', res) := x in
  (length script' <= length script)%nat /\
  match res with
  | Ok (Ready (Some g)) => exists vs', (length vs' < length vs)%nat /\ reads_on r script' vs' (fun gs s => P (g :: gs) s)
  | Ok Pending => exists vs', (length vs' <= length vs)%nat /\ reads_on r script' vs' P /\
      (script = [] \/ (length script' < length script)%nat) /\
      (script' = [] -> vs' = [] /\ buf_bytes (r2_buffer (rd_inner r)) = [])
  | _ => False
  end.

Lemma poll_frames_spec fuel : forall script r vs P,
  reads_on r script vs P -> (length vs < fuel)%nat -> frames_post script vs P (poll_frames fuel script r).
Proof.
  induction fuel as [|fuel IH]; intros script r vs P (Hok & Hs & Hroom & [c' Ha] & Hlen & HP) Hf; [lia|]. cbn [poll_frames].
  pose proof (poll_next_spec buf_bytes ld_pure ld_implements script (rd_inner r) vs c' [] Hs Hok Hroom Ha) as H.
  destruct (poll_next script (rd_inner r)) as [[inner script'] res]. destruct H as (Hok' & Hs' & Hle & Hroom' & H).
  destruct res as [[[bytes|]|]|e|]; try done.
  - destruct H as (vs' & -> & Ha'). apply Forall_cons in Hlen as [_ Hlen]. cbn [rd_frames].
    destruct (delivers_cons vs' bytes (rd_frames r) P Hlen HP) as (s1 & g & Ed & HP'). rewrite Ed.
    assert (reads_on (MkFrameReader inner s1) script' vs' (fun gs s' => P (option_list g ++ gs) s')) as Hr'.
    { split; [done|]. split; [done|]. split; [done|]. split; [by exists c'|]. split; [done|exact HP']. }
    destruct g as [g|]; [split; [done|]; exists vs'; split; [simpl; lia|exact Hr']|].
    specialize (IH script' (MkFrameReader inner s1) vs' P Hr'). simpl in Hf. specialize (IH ltac:(lia)). unfold frames_post in *.
    destruct (poll_frames fuel script' _) as [[r2 script2] [[[g|]|]|e|]]; destruct IH as [H1 IH]; try done.
    + split; [lia|]. destruct IH as (vs2 & ? & ?). exists vs2. split; [simpl; lia|done].
    + split; [lia|]. destruct IH as (vs2 & ? & ? & H2 & ?). exists vs2. split; [simpl; lia|]. split; [done|]. split; [|done].
      destruct H2 as [->|H2]; [|right; lia]. destruct script2; [|simpl in H1; lia]. destruct script; [by left|right; simpl; lia].
  - destruct H as (Ha' & Hlt & Hend). split; [done|]. exists vs. split; [done|]. split.
    + split; [done|]. split; [done|]. split; [done|]. split; [by exists c'|done].
    + split; [done|]. intros Hnil. destruct (Hend Hnil) as (-> & _ & ?). done.
Qed.

Lemma reads_on_fuel r script vs P :
  reads_on r script vs P -> (length vs <= length (buf_bytes (r2_buffer (rd_inner r))) + length (script_bytes script))%nat.
Proof.
  intros ((_ & Hg & _) & Hs & _ & [c' Ha] & Hv & _). rewrite <- length_app.
  rewrite <- (h2_parses_concat mx _ _ vs c' [] (inc_more _ _ _ Hg (script_is_bytes _ Hs)) Ha), app_nil_r.
  apply length_le_concat. eapply Forall_impl; [exact Hv|]. by intros v [? _].
Qed.

Lemma rd_poll_next_spec script r vs P : reads_on r script vs P -> frames_post script vs P (rd_poll_next script r).
Proof. intros H. apply poll_frames_spec; [done|]. apply reads_on_fuel in H. lia. Qed.

(** Polling until the socket has no more: the frames, in order. *)
Fixpoint read_all (fuel : nat) script r : list (Frame (B:=B)) * FrameReader (B:=B) * option (outcome RecvError ()) :=
  match fuel with
  | O => ([], r, None)
  | S fuel =>
      match rd_poll_next script r with
      | (r, script, Ok (Ready (Some g))) => let '(gs, r', e) := read_all fuel script r in (g :: gs, r', e)
      | (r, script, Ok Pending) => if bool_decide (script = []) then ([], r, Some (Ok tt)) else read_all fuel script r
      | (r, script, Ok (Ready None)) => ([], r, None)
      | (r, script, Err e) => ([], r, Some (Err e))
      | (r, script, Panic) => ([], r, Some Panic)
      end
  end.

Lemma read_all_spec fuel : forall script r vs P,
  reads_on r script vs P -> (length vs + length script < fuel)%nat ->
  exists gs r', read_all fuel script r = (gs, r', Some (Ok tt)) /\ P gs (rd_frames r') /\ buf_bytes (r2_buffer (rd_inner r')) = [].
Proof.
  induction fuel as [|fuel IH]; intros script r vs P Hr Hf; [lia|]. cbn [read_all].
  pose proof (rd_poll_next_spec script r vs P Hr) as H. destruct (rd_poll_next script r) as [[r1 script1] res]. destruct H as [Hle H].
  destruct res as [[[g|]|]|e|]; try done.
  - destruct H as (vs' & Hl & Hr1). destruct (IH script1 r1 vs' _ Hr1) as (gs & r' & E & HP & Hb); [lia|]. rewrite E. by exists (g :: gs), r'.
  - destruct H as (vs' & Hl & Hr1 & Hlt & Hend). case_bool_decide as Hnil.
    + destruct (Hend Hnil) as [-> Hb]. destruct Hr1 as (_ & _ & _ & _ & _ & HP). destruct (HP [] eq_refl) as (gs & s & E & HP').
      injection E as <- <-. by exists [], r1.
    + apply (IH script1 r1 vs'); [done|]. destruct Hlt as [->|Hlt]; [|lia]. destruct script1; [done|simpl in Hle; lia].
Qed.

Lemma frame_size_ok f : mx <= MAX_MAX_FRAME_SIZE -> is_frame mx f -> frame_sized f.
Proof.
  intros Hmx (h & p & -> & Hp). change MAX_MAX_FRAME_SIZE with (2 ^ 24 - 1) in Hmx.
  assert (len (frame_bytes h p) = 9 + len p) as El by (unfold frame_bytes; rewrite len_app; unfold len at 1; by rewrite head_bytes_length).
  split; [|lia]. intros E. rewrite E in El. pose proof (len_nonneg p). change (len (@nil Z)) with 0 in El. lia.
Qed.

(** A reader between two frames, and the frames [F] in the script. *)
Lemma reads_frames r F script P :
  0 <= mx <= MAX_MAX_FRAME_SIZE ->
  rd_inner r = framed_read2 (MkLengthDelimitedCodec (h2_builder mx) Head_) ->
  Forall (is_frame mx) F -> Forall data_only script -> script_bytes script = concat F -> len (concat F) < 2 ^ 64 ->
  delivers F (rd_frames r) P -> reads_on r script F P.
Proof.
  intros Hmx Ei HF Hs Es Hl HP. pose proof (script_is_bytes _ Hs) as Hbytes. rewrite Es in Hbytes.
  assert (builder_ok (h2_builder mx)) as Hb by (apply h2_builder_ok; change MAX_MAX_FRAME_SIZE with (2 ^ 24 - 1) in Hmx; lia).
  pose proof (framed_read2_ok (B:=B) (h2_builder mx) Hb) as (H1 & H2 & H3). unfold reads_on. rewrite Ei.
  split; [split; [done|]; split; [by split|done]|]. split; [done|].
  split; [unfold room; cbn [framed_read2 r2_buffer]; by rewrite bm_new_bytes, Es|]. split.
  - exists (MkLengthDelimitedCodec (h2_builder mx) Head_). unfold ahead. cbn [framed_read2 r2_codec r2_buffer].
    rewrite bm_new_bytes, Es. apply parses_items; [done|done|]. clear -HF Hmx. induction HF; constructor; [|done]. apply frame_one_item; [apply Hmx|done].
  - split; [|done]. eapply Forall_impl; [exact HF|]. intros f. apply frame_size_ok, Hmx.
Qed.
End Reader.

(** ** Both ends *)

Section EndToEnd.
Context `{HM : HeaderMapOps} {HI : HeaderMapIntoIter (HM:=HM)} {NH : NameHasher (HT:=HT)} `{BM : BytesMut B} `{TB : Buf T}.

(** The codec of a new connection. *)
Lemma codec_new_eq mx : DEFAULT_MAX_FRAME_SIZE <= mx <= MAX_MAX_FRAME_SIZE ->
  Codec_with_max_recv_frame_size mx =
  Ok (MkCodec (MkFrameReader (framed_read2 (MkLengthDelimitedCodec (h2_builder mx) Head_)) FramedRead_new) (FramedWrite_new (B:=B) (T:=T))).
Proof.
  intros [H1 H2]. unfold Codec_with_max_recv_frame_size, rd_set_max_frame_size.
  rewrite (proj2 (Z.leb_le _ _) H1), (proj2 (Z.leb_le _ _) H2). done.
Qed.

Lemma in_sync_start : in_sync (fw_hpack (FramedWrite_new (B:=B) (T:=T))) (fr_hpack (FramedRead_new (B:=B))).
Proof. by apply in_sync_new. Qed.

Lemma reachable_start mx so cn :
  DEFAULT_MAX_FRAME_SIZE <= mx <= MAX_MAX_FRAME_SIZE -> so_sent so = [] ->
  rtc (step DEFAULT_SETTINGS_MAX_HEADER_LIST_SIZE mx) (MkConn [] (FramedWrite_new (B:=B) (T:=T)) so) cn ->
  conn_ok DEFAULT_SETTINGS_MAX_HEADER_LIST_SIZE FramedRead_new mx cn.
Proof. intros Hmx Hso Hsteps. eapply (reachable_ok _ _ mx Hmx); [exact Hsteps|]. apply conn_start; try done. apply in_sync_start. Qed.

(** C1. HTTP/2 end to end.  A connection buffers frames, polls for
    readiness, flushes, raises its frame size up to what the peer accepts and takes back
    payloads, in any order and with any answers of its socket, pending and failing
    writes and writes of any length included.  Whenever nothing is left to flush, a peer that
    is given the bytes of the socket in any pieces, with waiting in between, reads
    exactly the frames that were buffered, in order: the same control frames, the same
    data and the same header fields, whether a header block fitted into one frame or
    was continued.  It ends between two frames, with nothing unread, and its HPACK table
    agrees with the writer's.  The frames that are buffered ([frame_ok]): DATA, HEADERS,
    PUSH_PROMISE and the control frames but not PRIORITY, which the writer does not
    support; of a header block, no field is connection-specific, each field fits into one
    frame of the default size once encoded, the list is below 16 MB and has at most 24576
    fields. *)
Theorem frames_arrive mx (cd : Codec (B:=B) (T:=T)) so cn script :
  DEFAULT_MAX_FRAME_SIZE <= mx <= MAX_MAX_FRAME_SIZE -> Codec_with_max_recv_frame_size mx = Ok cd -> so_sent so = [] ->
  rtc (step DEFAULT_SETTINGS_MAX_HEADER_LIST_SIZE mx) (MkConn [] (FramedWrite_new (B:=B) (T:=T)) so) cn ->
  flushed (cn_writer cn) -> Forall data_only script -> script_bytes script = so_sent (cn_socket cn) ->
  len (so_sent (cn_socket cn)) < 2 ^ 64 ->
  exists gs rd,
    read_all (S (length (so_sent (cn_socket cn)) + length script)) script (cd_read cd) = (gs, rd, Some (Ok tt)) /\ Forall2 same_frame (cn_items cn) gs /\
    buf_bytes (r2_buffer (rd_inner rd)) = [] /\ fr_partial (rd_frames rd) = None /\
    in_sync (fw_hpack (cn_writer cn)) (fr_hpack (rd_frames rd)).
Proof.
  intros Hmx Ecd Hso Hsteps Hfl Hs Es Hl. rewrite codec_new_eq in Ecd by done. injection Ecd as <-.
  destruct (reachable_start mx so cn Hmx Hso Hsteps) as [F Hw].
  destruct (flushed_delivers _ _ _ _ _ _ _ Hw Hfl) as [Esent HF]. pose proof Hw as (_ & _ & _ & HFr & _).
  rewrite Esent in *. assert (Forall frame_sized F) as Hsz by (eapply Forall_impl; [exact HFr|]; intros f; apply frame_size_ok, Hmx).
  assert (length F <= length (concat F))%nat by (apply length_le_concat; eapply Forall_impl; [exact Hsz|]; by intros f [? _]).
  set (rd0 := MkFrameReader (framed_read2 (MkLengthDelimitedCodec (h2_builder mx) Head_)) FramedRead_new).
  pose proof (reads_frames mx rd0 F script _ ltac:(unfold DEFAULT_MAX_FRAME_SIZE in Hmx; lia) eq_refl HFr Hs Es Hl HF) as Hr.
  destruct (read_all_spec mx (S (length (concat F) + length script)) script rd0 F _ Hr) as (gs & rd & E & (H1 & H2 & H3) & Hb); [lia|].
  by exists gs, rd.
Qed.

(** C9. Progress of the writer: in every state that a connection reaches by buffering
    frames whose header fields each fit into a frame of the default size ([frame_ok], as
    above), [flush] with a socket that takes at least one byte per write returns ready,
    after at most one write per byte, and has then written everything: it neither gives
    up on a frame nor panics in the loop over CONTINUATION frames.  (A field that passes
    the check of the writer but does not fit makes that loop panic.) *)
Theorem flush_completes mx so cn script fuel :
  DEFAULT_MAX_FRAME_SIZE <= mx <= MAX_MAX_FRAME_SIZE -> so_sent so = [] ->
  rtc (step DEFAULT_SETTINGS_MAX_HEADER_LIST_SIZE mx) (MkConn [] (FramedWrite_new (B:=B) (T:=T)) so) cn ->
  (rounds (pending_continuation (cn_writer cn)) <= fuel)%nat -> Forall taking script ->
  (length (unsent (cn_writer cn)) + fuel * Z.to_nat (mx + HEADER_LEN) < length script)%nat ->
  exists w' so', flush fuel (cn_writer cn, MkSocket script (so_sent (cn_socket cn))) = ((w', so'), Ok (Ready tt)) /\
    unsent w' = [] /\ fw_next w' = None.
Proof.
  intros Hmx Hso Hsteps Hf Ht Hl.
  destruct (reachable_start mx so cn Hmx Hso Hsteps) as [F Hw].
  by apply (flush_live DEFAULT_SETTINGS_MAX_HEADER_LIST_SIZE FramedRead_new mx Hmx fuel F (cn_items cn) (cn_writer cn) (MkSocket script _)).
Qed.
End EndToEnd.

(** ** A concrete connection *)

From Stdlib Require Import String List.
Import ModelHttp ModelHash.

(** A ping, a request with [a: b] and 300 bytes of data. *)
Definition sample_ping : Frame (B:=list Z) := FPing (Ping.new [1; 2; 3; 4; 5; 6; 7; 8]).
Definition sample_request : Headers (HM:=model_header_map) :=
  MkHeaders (MkStreamId 1) None (MkHeaderBlock (hm_append hm_new sample_name (value_from_static "b")) false
    (MkPseudo (Some GET) (Some (MkBytesStr (bytes_of_string "https"))) None (Some (MkBytesStr (bytes_of_string "/"))) None)) (MkHeadersFlag 4).
Definition sample_data : Frame (B:=list Z) := FData (MkData (MkStreamId 1) (repeat 65 300) (MkDataFlags 1) None).
Definition sample_frames : list (Frame (HM:=model_header_map) (B:=list Z)) := [sample_ping; FHeaders sample_request; sample_data].

Definition sample_w0 : FramedWrite (B:=list Z) (T:=list Z) := FramedWrite_new.
Definition sample_w1 := (buffer sample_ping sample_w0).1.
Definition sample_w2 := (buffer (FHeaders sample_request) sample_w1).1.
Definition sample_w3 := (buffer sample_data sample_w2).1.
(** The first flush is cut off after twenty bytes. *)
Definition sample_f1 := (flush 3 (sample_w3, MkSocket [WTake 20; WPending] [])).1.
Definition sample_f2 := (flush 3 (sample_f1.1, MkSocket [WTake 100; WTake 5; WTake 1000; WTake 0] (so_sent sample_f1.2))).1.
Definition sample_conn : Conn (B:=list Z) (T:=list Z) := MkConn sample_frames sample_f2.1 sample_f2.2.

Lemma sample_ping_ok : frame_ok (B:=list Z) DEFAULT_SETTINGS_MAX_HEADER_LIST_SIZE sample_ping.
Proof. exists sample_ping. split; [reflexivity|]. split; [reflexivity|]. repeat constructor; vm_compute; congruence. Qed.

Lemma sample_data_ok : frame_ok (B:=list Z) DEFAULT_SETTINGS_MAX_HEADER_LIST_SIZE sample_data.
Proof. split; [split; vm_compute; congruence|]. split; [reflexivity|]. right. reflexivity. Qed.

Lemma sample_request_ok : frame_ok (B:=list Z) (T:=list Z) DEFAULT_SETTINGS_MAX_HEADER_LIST_SIZE (FHeaders sample_request).
Proof.
  split; [|split; [|split]].
  - split; [split; vm_compute; congruence|]. split; [reflexivity|left; reflexivity].
  - cbn [start_block]. unfold block_fields. repeat apply Forall_cons_2; try apply Forall_nil_2;
      (split; [split; [repeat split; repeat constructor; vm_compute; congruence|reflexivity]|vm_compute; congruence]).
  - repeat apply Forall_cons_2; try apply Forall_nil_2. split; [reflexivity|vm_compute; congruence].
  - split; [reflexivity|vm_compute; congruence].
Qed.

Lemma pair_result {A R} (x : A * R) r : x.2 = r -> x = (x.1, r).
Proof. intros <-. by destruct x. Qed.
Lemma pair_result2 {A A' R} (x : (A * A') * R) r : x.2 = r -> x = ((x.1.1, x.1.2), r).
Proof. intros <-. by destruct x as [[? ?] ?]. Qed.

Definition sample_buffered : Conn (B:=list Z) (T:=list Z) := MkConn sample_frames sample_w3 (MkSocket [WTake 20; WPending] []).

Lemma sample_buffer_steps :
  rtc (step (B:=list Z) (T:=list Z) DEFAULT_SETTINGS_MAX_HEADER_LIST_SIZE 20000)
    (MkConn [] FramedWrite_new (MkSocket [WTake 20; WPending] [])) sample_buffered.
Proof.
  eapply rtc_l; [apply (step_buffer _ _ _ _ _ sample_ping sample_w1 sample_ping_ok); [reflexivity..|by apply pair_result]|].
  eapply rtc_l; [apply (step_buffer _ _ _ _ _ _ sample_w2 sample_request_ok); [vm_compute; reflexivity..|apply pair_result; vm_compute; reflexivity]|].
  eapply rtc_l; [apply (step_buffer _ _ _ _ _ _ sample_w3 sample_data_ok); [vm_compute; reflexivity..|apply pair_result; vm_compute; reflexivity]|].
  apply rtc_refl.
Qed.

Lemma sample_steps :
  rtc (step (B:=list Z) (T:=list Z) DEFAULT_SETTINGS_MAX_HEADER_LIST_SIZE 20000)
    (MkConn [] FramedWrite_new (MkSocket [WTake 20; WPending] [])) sample_conn.
Proof.
  etrans; [apply sample_buffer_steps|].
  eapply rtc_l; [apply (step_flush _ _ _ _ _ 3 sample_f1.1 sample_f1.2 (Ok Pending)); [vm_compute; lia|apply pair_result2; vm_compute; reflexivity]|].
  eapply rtc_l; [apply (step_socket _ _ _ _ _ [WTake 100; WTake 5; WTake 1000; WTake 0])|].
  eapply rtc_l; [apply (step_flush _ _ _ _ _ 3 sample_f2.1 sample_f2.2 (Ok (Ready tt))); [vm_compute; lia|apply pair_result2; vm_compute; reflexivity]|].
  apply rtc_refl.
Qed.

Definition sample_sent : list Z := so_sent (cn_socket sample_conn).
Definition sample_script : list ReadAnswer :=
  [RData (take 3 sample_sent); RPending; RData (take 100 (drop 3 sample_sent)); RData (drop 100 (drop 3 sample_sent))].
Definition sample_codec : Codec (B:=list Z) (T:=list Z) :=
  MkCodec (MkFrameReader (framed_read2 (MkLengthDelimitedCodec (h2_builder 20000) Head_)) FramedRead_new) FramedWrite_new.

Lemma sample_script_ok : Forall data_only sample_script.
Proof.
  assert (is_bytes sample_sent) as Hb by (apply (bool_decide_unpack _); vm_compute; exact I).
  repeat apply Forall_cons_2; try apply Forall_nil_2; [|exact I|..]; (split; [vm_compute; discriminate|]);
    revert Hb; generalize sample_sent; intros l Hb; by repeat (apply Forall_take || apply Forall_drop).
Qed.

Lemma is_none_true {A} (x : option A) : match x with None => true | Some _ => false end = true -> x = None.
Proof. by destruct x. Qed.

Lemma sample_flushed : flushed (cn_writer sample_conn).
Proof. split; [vm_compute; reflexivity|]. apply is_none_true. vm_compute. reflexivity. Qed.

Lemma frames_arrive_witness :
  exists gs rd, read_all (S (length (so_sent (cn_socket sample_conn)) + length sample_script)) sample_script (cd_read sample_codec) = (gs, rd, Some (Ok tt)) /\
    Forall2 same_frame (cn_items sample_conn) gs /\ buf_bytes (r2_buffer (rd_inner rd)) = [] /\ fr_partial (rd_frames rd) = None /\
    in_sync (fw_hpack (cn_writer sample_conn)) (fr_hpack (rd_frames rd)).
Proof.
  refine (frames_arrive 20000 sample_codec (MkSocket [WTake 20; WPending] []) sample_conn sample_script _ _ _ _ _ _ _ _).
  - split; vm_compute; congruence.
  - reflexivity.
  - reflexivity.
  - apply sample_steps.
  - apply sample_flushed.
  - apply sample_script_ok.
  - unfold sample_script. cbn [script_bytes]. by rewrite app_nil_r, !take_drop.
  - vm_compute. reflexivity.
Defined.

Lemma flush_completes_witness :
  exists w' so', flush 3 (cn_writer sample_buffered, MkSocket (replicate (Z.to_nat 61000) (WTake 1)) (so_sent (cn_socket sample_buffered))) =
    ((w', so'), Ok (Ready tt)) /\ unsent w' = [] /\ fw_next w' = None.
Proof.
  apply (flush_completes 20000 (MkSocket [WTake 20; WPending] []) sample_buffered (replicate (Z.to_nat 61000) (WTake 1)) 3).
  - split; vm_compute; congruence.
  - reflexivity.
  - apply sample_buffer_steps.
  - vm_compute. lia.
  - apply Forall_replicate. discriminate.
  - assert (length (unsent (cn_writer sample_buffered)) = 343%nat) as -> by (vm_compute; reflexivity).
    rewrite length_replicate. unfold HEADER_LEN. lia.
Defined.
