(* ===== verification/H2Buffer.v ===== *)
(** * The frame buffers of the h2 streams ([http/h2/proto/streams/buffer.rs])

    All streams of a connection keep their queued frames in one slab; a stream
    holds the first and the last index of its chain of slots.  The file models the
    deque and shows that any number of deques over one slab behave as independent
    lists. *)

From S2P Require Import Prelude Slab.

(** [http/h2/proto/streams/buffer.rs] Slot *)
Record Slot (T : Type) := MkSlot { slot_value : T; slot_next : option nat }.
Arguments MkSlot {T}.
Arguments slot_value {T}.
Arguments slot_next {T}.

(** [http/h2/proto/streams/buffer.rs] Indices *)
Record DIndices := MkDIndices { di_head : nat; di_tail : nat }.

(** [http/h2/proto/streams/buffer.rs] Deque *)
Record Deque := MkDeque { dq_indices : option DIndices }.

Module Deque.
Section Deque.
Context {T Bf E : Type} {SB : Slab (Slot T) Bf}.
Abbreviation M := (SE (Deque * Bf) E).

(** [http/h2/proto/streams/buffer.rs] Deque::new *)
Definition new : Deque := MkDeque None.

(** [http/h2/proto/streams/buffer.rs] Deque::is_empty *)
Definition is_empty (d : Deque) : bool := match dq_indices d with None => true | Some _ => false end.

(** [buf.slab[idx].next = next]; an absent index panics. *)
Definition set_slot_next (idx : nat) (next : option nat) : M () := fun st =>
  match slab_get st.2 idx with
  | Some slot => ((st.1, slab_set st.2 idx (MkSlot (slot_value slot) next)), Ok tt)
  | None => (st, Panic)
  end.
Definition slab_push (slot : Slot T) : M nat := fun st =>
  let '(sl, key) := slab_insert slot st.2 in ((st.1, sl), Ok key).
(** [buf.slab.remove(idx)] panics when the slot is vacant. *)
Definition slab_take (idx : nat) : M (Slot T) := fun st =>
  match slab_get st.2 idx with
  | Some slot => ((st.1, slab_remove idx st.2), Ok slot)
  | None => (st, Panic)
  end.
Definition set_indices (i : option DIndices) : M () := modify (fun st => (MkDeque i, st.2)).

(** [http/h2/proto/streams/buffer.rs] Deque::push_back *)
Definition push_back (value : T) : M () :=
  key ← slab_push (MkSlot value None);
  i ← gets (fun st => dq_indices st.1);
  match i with
  | Some idxs =>
      _ ← set_slot_next (di_tail idxs) (Some key);
      set_indices (Some (MkDIndices (di_head idxs) key))
  | None => set_indices (Some (MkDIndices key key))
  end.

(** [http/h2/proto/streams/buffer.rs] Deque::push_front *)
Definition push_front (value : T) : M () :=
  key ← slab_push (MkSlot value None);
  i ← gets (fun st => dq_indices st.1);
  match i with
  | Some idxs =>
      _ ← set_slot_next key (Some (di_head idxs));
      set_indices (Some (MkDIndices key (di_tail idxs)))
  | None => set_indices (Some (MkDIndices key key))
  end.

(** [http/h2/proto/streams/buffer.rs] Deque::pop_front *)
Definition pop_front : M (option T) :=
  i ← gets (fun st => dq_indices st.1);
  match i with
  | Some idxs =>
      slot ← slab_take (di_head idxs);
      _ ← (if (di_head idxs =? di_tail idxs)%nat then
             _ ← lift (assert_ (bool_decide (slot_next slot = None)));
             set_indices None
           else
             head ← lift (unwrap (slot_next slot));
             set_indices (Some (MkDIndices head (di_tail idxs))));
      mret (Some (slot_value slot))
  | None => mret None
  end.

(** ** The chain of a deque *)

(** The slots under [ks] hold [vs], each linked to the next. *)
Fixpoint chain (sl : Bf) (ks : list nat) (vs : list T) : Prop :=
  match ks, vs with
  | [], [] => True
  | k :: ks', v :: vs' => slab_get sl k = Some (MkSlot v (head ks')) /\ chain sl ks' vs'
  | _, _ => False
  end.

Definition ends (ks : list nat) : option DIndices :=
  h ← head ks; t ← last ks; Some (MkDIndices h t).

Definition rep (sl : Bf) (d : Deque) (ks : list nat) (vs : list T) : Prop :=
  dq_indices d = ends ks /\ NoDup ks /\ chain sl ks vs.

Lemma chain_length sl ks vs : chain sl ks vs -> length ks = length vs.
Proof. revert vs. induction ks as [|k ks IH]; intros [|v vs]; simpl; naive_solver. Qed.

Lemma chain_some sl ks vs k : chain sl ks vs -> k ∈ ks -> slab_get sl k <> None.
Proof.
  revert vs. induction ks as [|k' ks IH]; intros [|v vs]; simpl; try by rewrite ?elem_of_nil.
  rewrite elem_of_cons. naive_solver congruence.
Qed.

(** A chain only reads its own slots. *)
Lemma chain_frame sl sl' ks vs :
  (forall k, k ∈ ks -> slab_get sl' k = slab_get sl k) -> chain sl ks vs -> chain sl' ks vs.
Proof.
  revert vs. induction ks as [|k ks IH]; intros [|v vs] He; simpl; try done.
  intros [Hk Hc]. split; [by rewrite He by set_solver|]. apply IH; [set_solver|done].
Qed.

Lemma rep_frame sl sl' d ks vs :
  (forall k, k ∈ ks -> slab_get sl' k = slab_get sl k) -> rep sl d ks vs -> rep sl' d ks vs.
Proof. unfold rep. intuition eauto using chain_frame. Qed.

Lemma rep_new sl : rep sl new [] [].
Proof. repeat constructor. Qed.

Lemma ends_snoc ks k : ends (ks ++ [k]) = Some (MkDIndices (default k (head ks)) k).
Proof. unfold ends. rewrite last_snoc. by destruct ks. Qed.

(** Appending a slot to a chain whose last slot is relinked. *)
Lemma chain_snoc sl sl' ks t vs k v :
  chain sl (ks ++ [t]) vs -> NoDup (ks ++ [t]) ->
  slab_get sl' k = Some (MkSlot v None) ->
  (forall v', slab_get sl t = Some (MkSlot v' None) -> slab_get sl' t = Some (MkSlot v' (Some k))) ->
  (forall k', k' ∈ ks -> slab_get sl' k' = slab_get sl k') ->
  chain sl' (ks ++ [t; k]) (vs ++ [v]).
Proof.
  revert vs. induction ks as [|k0 ks IH]; intros [|v0 vs]; simpl; try done.
  - intros [Ht Hc] _ Hk Hl _. destruct vs; [|done]. naive_solver.
  - intros [H0 Hc] Hn Hk Ht He. apply NoDup_cons in Hn as [_ Hn].
    split; [rewrite He by set_solver; rewrite H0; by destruct ks|].
    apply IH; try done. set_solver.
Qed.

Lemma bind_slab_push {A} slot (f : nat -> M A) d sl :
  (slab_push slot ≫= f) (d, sl) = f (slab_insert slot sl).2 (d, (slab_insert slot sl).1).
Proof. unfold slab_push, mbind, SE_bind. simpl. by destruct (slab_insert slot sl). Qed.

(** What an operation that turns the chain [ks] into [ks'] leaves alone. *)
Definition outside (sl sl' : Bf) (ks ks' : list nat) : Prop :=
  forall k, k ∉ ks -> k ∉ ks' -> slab_get sl' k = slab_get sl k.

Definition pushes (c : M ()) (d : Deque) (sl : Bf) (ks : list nat)
    (grow : nat -> list nat) (vs' : list T) : Prop :=
  exists k d' sl', c (d, sl) = ((d', sl'), Ok tt) /\ slab_get sl k = None /\
    rep sl' d' (grow k) vs' /\ outside sl sl' ks (grow k).

Lemma push_back_spec sl d ks vs v :
  rep sl d ks vs -> pushes (push_back v) d sl ks (fun k => ks ++ [k]) (vs ++ [v]).
Proof.
  intros (Hd & Hn & Hc). unfold pushes, push_back.
  destruct (slab_insert_get (MkSlot v None) sl) as [Hfree Hget].
  rewrite bind_slab_push.
  destruct (slab_insert _ sl) as [sl1 k] eqn:Ei; simpl in *.
  assert (k ∉ ks) as Hk by (intros Hin; by eapply chain_some).
  rewrite bind_gets. simpl. rewrite Hd.
  destruct ks as [|t ks _] using rev_ind.
  - destruct vs; [|done]. eexists k, _, _. split; [reflexivity|]. simpl.
    unfold rep. simpl. rewrite Hget, decide_True by done. split_and!; try done; [apply NoDup_singleton|].
    intros k' _ Hk'. rewrite Hget, decide_False; set_solver.
  - rewrite ends_snoc. simpl.
    assert (slab_get sl1 t = slab_get sl t) as Ht by (rewrite Hget, decide_False; set_solver).
    destruct (slab_get sl t) as [slot|] eqn:Es; [|by destruct (chain_some _ _ _ t Hc); set_solver].
    assert (forall k', slab_get (slab_set sl1 t (MkSlot (slot_value slot) (Some k))) k' =
      if decide (k' = t) then Some (MkSlot (slot_value slot) (Some k)) else slab_get sl1 k') as Hset
      by (intros k'; apply slab_set_get; congruence).
    eexists k, _, _. split; [|split; [done|]].
    { unfold set_slot_next, mbind, SE_bind. simpl. rewrite Ht. reflexivity. }
    unfold rep. split_and!.
    + simpl. rewrite ends_snoc. by destruct ks.
    + apply NoDup_app. split_and!; [done|set_solver|apply NoDup_singleton].
    + rewrite <- (assoc_L (++)). simpl. eapply chain_snoc; try done.
      * rewrite Hset, decide_False by set_solver. by rewrite Hget, decide_True.
      * intros v' Hv'. rewrite Hset, decide_True by done. rewrite Es in Hv'. by simplify_eq/=.
      * intros k' Hk'. apply NoDup_app in Hn as (_ & Hn & _).
        rewrite Hset, decide_False by set_solver. rewrite Hget, decide_False; set_solver.
    + intros k' _ Hk'. simpl. rewrite Hset, decide_False by set_solver. rewrite Hget, decide_False; set_solver.
Qed.

Lemma push_front_spec sl d ks vs v :
  rep sl d ks vs -> pushes (push_front v) d sl ks (fun k => k :: ks) (v :: vs).
Proof.
  intros (Hd & Hn & Hc). unfold pushes, push_front.
  destruct (slab_insert_get (MkSlot v None) sl) as [Hfree Hget].
  rewrite bind_slab_push.
  destruct (slab_insert _ sl) as [sl1 k] eqn:Ei; simpl in *.
  assert (k ∉ ks) as Hk by (intros Hin; by eapply chain_some).
  rewrite bind_gets. simpl. rewrite Hd.
  destruct ks as [|h ks].
  - destruct vs; [|done]. eexists k, _, _. split; [reflexivity|]. simpl.
    unfold rep. simpl. rewrite Hget, decide_True by done. split_and!; try done; [apply NoDup_singleton|].
    intros k' _ Hk'. rewrite Hget, decide_False; set_solver.
  - assert (slab_get sl1 k = Some (MkSlot v None)) as Hk1 by (by rewrite Hget, decide_True).
    assert (forall k', slab_get (slab_set sl1 k (MkSlot v (Some h))) k' =
      if decide (k' = k) then Some (MkSlot v (Some h)) else slab_get sl1 k') as Hset
      by (intros k'; apply slab_set_get; congruence).
    assert (exists t, last (h :: ks) = Some t) as [t Ht] by (apply last_is_Some; done).
    eexists k, _, _. split; [|split; [done|]].
    { unfold ends. rewrite Ht. unfold set_slot_next, mbind, SE_bind. simpl. rewrite Hk1. reflexivity. }
    unfold rep. split_and!.
    + simpl. unfold ends. by rewrite last_cons, Ht.
    + by apply NoDup_cons.
    + split; [by rewrite Hset, decide_True|]. eapply chain_frame; [|exact Hc].
      intros k' Hk'. rewrite Hset, decide_False by set_solver. rewrite Hget, decide_False; set_solver.
    + intros k' _ Hk'. rewrite Hset, decide_False by set_solver. rewrite Hget, decide_False; set_solver.
Qed.

Lemma pop_front_nil sl d vs : rep sl d [] vs -> vs = [] /\ pop_front (d, sl) = ((d, sl), Ok None).
Proof.
  intros (Hd & _ & Hc). destruct vs; [|done]. split; [done|].
  unfold pop_front. rewrite bind_gets. simpl. by rewrite Hd.
Qed.

Lemma pop_front_cons sl d h ks vs :
  rep sl d (h :: ks) vs ->
  exists v vs' d', vs = v :: vs' /\ pop_front (d, sl) = ((d', slab_remove h sl), Ok (Some v)) /\
    rep (slab_remove h sl) d' ks vs' /\ outside sl (slab_remove h sl) [h] [].
Proof.
  intros (Hd & Hn & Hc). destruct vs as [|v vs]; [done|]. destruct Hc as [Hh Hc].
  assert (forall k', slab_get (slab_remove h sl) k' = if decide (k' = h) then None else slab_get sl k') as Hrem
    by (intros k'; apply slab_remove_get; congruence).
  apply NoDup_cons in Hn as [Hnh Hn].
  assert (chain (slab_remove h sl) ks vs) as Hc'.
  { eapply chain_frame; [|exact Hc]. intros k' Hk'. rewrite Hrem, decide_False; set_solver. }
  exists v, vs. unfold pop_front. rewrite bind_gets. simpl. rewrite Hd. unfold ends at 1. simpl.
  assert (outside sl (slab_remove h sl) [h] []) as Hout
    by (intros k' Hk' _; rewrite Hrem, decide_False; set_solver).
  destruct ks as [|h' ks].
  - exists (MkDeque None). split; [done|]. split; [|split; [repeat constructor; done|done]].
    simpl. unfold slab_take, mbind, SE_bind. simpl. rewrite Hh. simpl. by rewrite Nat.eqb_refl.
  - assert (exists t, last (h' :: ks) = Some t) as [t Ht] by (apply last_is_Some; done).
    eexists. split; [done|]. rewrite last_cons, Ht. simpl. split.
    + unfold slab_take, mbind, SE_bind. simpl. rewrite Hh. simpl.
      assert ((h =? t)%nat = false) as -> by (apply Nat.eqb_neq; apply last_Some_elem_of in Ht; set_solver).
      reflexivity.
    + unfold rep. split_and!; try done. unfold ends. by rewrite Ht.
Qed.

End Deque.
End Deque.

(** * Deques over one buffer are independent queues

    [http/h2/proto/streams/buffer.rs]: the send and receive queues of all streams are
    threaded through one slab.  A program that pushes to and pops from any number of
    these deques, in any order, sees what it would see if every deque were a list of
    its own: no push or pop panics, loses a value, or disturbs another deque. *)

(** One operation of [Deque], on the deque of number [i]. *)
Inductive deque_op (T : Type) :=
| PushBack (i : nat) (value : T)
| PushFront (i : nat) (value : T)
| PopFront (i : nat).
Arguments PushBack {T}.
Arguments PushFront {T}.
Arguments PopFront {T}.

(** Changing one member of a family. *)
Definition update {A} (i : nat) (a : A) (f : nat -> A) : nat -> A :=
  fun j => if decide (j = i) then a else f j.

Lemma update_eq {A} i (a : A) f : update i a f i = a.
Proof. unfold update. by rewrite decide_True. Qed.

Lemma update_ne {A} i j (a : A) f : j <> i -> update i a f j = f j.
Proof. intros. unfold update. by rewrite decide_False. Qed.

(** ** The abstract queues *)

(** The effect of an operation on a family of lists, and what it returns. *)
Definition queue_step {T} (o : deque_op T) (q : nat -> list T) : (nat -> list T) * option T :=
  match o with
  | PushBack i v => (update i (q i ++ [v]) q, None)
  | PushFront i v => (update i (v :: q i) q, None)
  | PopFront i => (update i (tail (q i)) q, head (q i))
  end.

Fixpoint queue_run {T} (os : list (deque_op T)) (q : nat -> list T) : list (option T) :=
  match os with
  | [] => []
  | o :: os => let '(q, r) := queue_step o q in r :: queue_run os q
  end.

Section Run.
Context {T Bf E : Type} {SB : Slab (Slot T) Bf}.
Abbreviation M := (SE ((nat -> Deque) * Bf) E).

(** ** The deques of the buffer *)

Definition on_deque {A} (i : nat) (c : SE (Deque * Bf) E A) : M A :=
  zoom (fun w => (w.1 i, w.2)) (fun st w => (update i st.1 w.1, st.2)) c.

Definition deque_step (o : deque_op T) : M (option T) :=
  match o with
  | PushBack i v => _ ← on_deque i (Deque.push_back v); mret None
  | PushFront i v => _ ← on_deque i (Deque.push_front v); mret None
  | PopFront i => on_deque i Deque.pop_front
  end.

Fixpoint deque_run (os : list (deque_op T)) : M (list (option T)) :=
  match os with
  | [] => mret []
  | o :: os => r ← deque_step o; rs ← deque_run os; mret (r :: rs)
  end.

(** Every deque holds its list, and no two chains share a slot. *)
Definition deques_hold (w : (nat -> Deque) * Bf) (q : nat -> list T) : Prop :=
  exists ks : nat -> list nat,
    (forall i, Deque.rep w.2 (w.1 i) (ks i) (q i)) /\
    (forall i j, i <> j -> ks i ## ks j).

Lemma on_deque_ok {A} i (c : SE (Deque * Bf) E A) ds sl d' sl' a :
  c (ds i, sl) = ((d', sl'), Ok a) -> on_deque i c (ds, sl) = ((update i d' ds, sl'), Ok a).
Proof. intros H. unfold on_deque, zoom. simpl. by rewrite H. Qed.

(** An operation on the chain of one deque keeps the others: they have no slot in it. *)
Lemma deques_hold_update ds sl q ks i d' sl' ks' vs' :
  (forall j, Deque.rep sl (ds j) (ks j) (q j)) ->
  (forall j j', j <> j' -> ks j ## ks j') ->
  Deque.rep sl' d' ks' vs' -> (forall j, j <> i -> ks j ## ks') ->
  Deque.outside sl sl' (ks i) ks' ->
  deques_hold (update i d' ds, sl') (update i vs' q).
Proof.
  intros Hr Hd Hr' Hd' Ho. exists (update i ks' ks). simpl. split.
  - intros j. destruct (decide (j = i)) as [->|Hj]; [by rewrite !update_eq|].
    rewrite !update_ne by done. eapply Deque.rep_frame; [|apply Hr].
    intros k Hk. specialize (Hd j i Hj). specialize (Hd' j Hj). apply Ho; set_solver.
  - intros j j' Hjj. destruct (decide (j = i)) as [->|Hj], (decide (j' = i)) as [->|Hj'];
      rewrite ?update_eq, ?update_ne by done; try done; auto.
    intros x Hx Hk. by apply (Hd' j' Hj' x).
Qed.

(** A key the slab has just handed out is in no chain. *)
Lemma fresh_disjoint sl ds q (ks : nat -> list nat) k j :
  (forall j, Deque.rep sl (ds j) (ks j) (q j)) -> slab_get sl k = None -> k ∉ ks j.
Proof. intros Hr Hk Hin. destruct (Hr j) as (_ & _ & Hc). by apply (Deque.chain_some _ _ _ _ Hc Hin). Qed.

Lemma push_holds c i ds sl q ks grow vs' :
  (forall j, Deque.rep sl (ds j) (ks j) (q j)) ->
  (forall j j', j <> j' -> ks j ## ks j') ->
  (forall k x, x ∈ grow k <-> x = k \/ x ∈ ks i) ->
  Deque.pushes (E := E) c (ds i) sl (ks i) grow vs' ->
  exists w', on_deque i c (ds, sl) = (w', Ok tt) /\ deques_hold w' (update i vs' q).
Proof.
  intros Hr Hd Hg (k & d' & sl' & Hc & Hk & Hr' & Ho).
  eexists. split; [by apply on_deque_ok|].
  eapply deques_hold_update; try done.
  intros j Hj x Hx [->|Hi]%Hg; [by eapply fresh_disjoint|by apply (Hd j i Hj x)].
Qed.

(** Every operation simulates the one on lists. *)
Lemma deque_step_ok o w q :
  deques_hold w q ->
  exists w', deque_step o w = (w', Ok (queue_step o q).2) /\ deques_hold w' (queue_step o q).1.
Proof.
  destruct w as [ds sl]. intros (ks & Hr & Hd). simpl in *. destruct o as [i v|i v|i]; simpl.
  - edestruct (push_holds (Deque.push_back v) i) as (w' & Hw & Hh); [done..| |by apply Deque.push_back_spec|].
    { intros. set_solver. }
    exists w'. split; [|done]. unfold mbind, SE_bind. by rewrite Hw.
  - edestruct (push_holds (Deque.push_front v) i) as (w' & Hw & Hh); [done..| |by apply Deque.push_front_spec|].
    { intros. set_solver. }
    exists w'. split; [|done]. unfold mbind, SE_bind. by rewrite Hw.
  - destruct (ks i) as [|h kt] eqn:Hki; pose proof (Hr i) as Hi; rewrite Hki in Hi.
    + destruct (Deque.pop_front_nil (E := E) _ _ _ Hi) as [Hq Hp]. rewrite Hq. simpl.
      eexists. split; [by apply on_deque_ok|].
      apply (deques_hold_update ds sl q ks i _ _ [] []); try done; [by rewrite Hq in Hi|set_solver].
    + destruct (Deque.pop_front_cons (E := E) _ _ _ _ _ Hi) as (v & vs' & d' & Hq & Hp & Hr' & Ho).
      rewrite Hq. simpl. eexists. split; [by apply on_deque_ok|].
      apply (deques_hold_update ds sl q ks i _ _ kt vs'); try done; rewrite ?Hki.
      * intros j Hj. specialize (Hd j i Hj). rewrite Hki in Hd. set_solver.
      * intros k Hk _. apply Ho; set_solver.
Qed.

Lemma deque_run_ok os w q :
  deques_hold w q -> exists w', deque_run os w = (w', Ok (queue_run os q)).
Proof.
  revert w q. induction os as [|o os IH]; intros w q Hw; simpl; [by eexists|].
  destruct (deque_step_ok o w q Hw) as (w1 & Ho & Hw1).
  destruct (queue_step o q) as [q1 r]. destruct (IH w1 q1 Hw1) as [w2 H2].
  exists w2. unfold mbind, SE_bind. simpl in Ho. by rewrite Ho, H2.
Qed.

(** C24. Whatever the order of [push_back], [push_front] and [pop_front] on whatever
    number of deques, starting from an empty buffer: none of the calls panics (no
    vacant slot is read, no assertion fails), and every [pop_front] returns what it
    would if each deque were a list of its own. *)
Theorem deques_independent (os : list (deque_op T)) :
  (deque_run os (fun _ => Deque.new, slab_new)).2 = Ok (queue_run os (fun _ => [])).
Proof.
  destruct (deque_run_ok os (fun _ => Deque.new, slab_new) (fun _ => [])) as [w' ->]; [|done].
  exists (fun _ => []). split; [|set_solver]. intros i. apply Deque.rep_new.
Qed.

End Run.

Module Example.
Import ModelSlab.

(** Two streams whose frames share the finite-map slab. *)
Lemma deques_independent_witness :
  let os := [PushBack 0 10; PushBack 1 20; PushBack 0 11; PushFront 1 19; PopFront 0;
             PopFront 1; PopFront 1; PopFront 1; PopFront 0] in
  queue_run os (fun _ => []) = [None; None; None; None; Some 10; Some 19; Some 20; None; Some 11] /\
  (deque_run (Bf := gmap nat (Slot Z)) (E := Empty_set) os (fun _ => Deque.new, slab_new)).2 =
    Ok (queue_run os (fun _ => [])).
Proof. split; [reflexivity|]. apply (deques_independent (SB := map_slab _)). Defined.
End Example.
