(* ===== verification/H2Store.v ===== *)
(** * The h2 stream record ([http/h2/proto/streams/stream.rs])

    One stream's protocol state: its state machine, send and receive windows, the
    deques of its frames, and the links of the six intrusive queues it can be in.
    A task handle is a number, and waking it adds it to the log of woken tasks.

    The second part is the store of the streams, its queues and the counts. *)

From S2P Require Import Prelude H2Types FlowControl StreamState Slab H2Buffer Bytes Frames.

(** ** Keys and queues *)

(** [http/h2/proto/streams/store.rs] Key *)
Record Key := MkKey { key_index : nat; key_stream_id : StreamId }.

#[export] Instance Key_eq_dec : EqDecision Key.
Proof. solve_decision. Defined.

(** [http/h2/proto/streams/store.rs] Indices *)
Record Indices := MkIndices { ix_head : Key; ix_tail : Key }.

(** [http/h2/proto/streams/store.rs] Queue *)
Record Queue := MkQueue { q_indices : option Indices }.

(** ** Streams *)

Abbreviation Waker := nat.

(** [http/h2/proto/streams/stream.rs] ContentLength *)
Inductive ContentLength := CLOmitted | CLHead | CLRemaining (rem : Z).

(** [http/h2/proto/streams/stream.rs] ContentLength::is_head *)
Definition is_head (c : ContentLength) : bool := match c with CLHead => true | _ => false end.

(** [http/h2/proto/streams/stream.rs] Stream *)
Record Stream := MkStream {
  s_id : StreamId;
  s_state : State;
  s_is_counted : bool;
  s_ref_count : Z;
  s_next_pending_send : option Key;
  s_is_pending_send : bool;
  s_send_flow : FlowControl;
  s_requested_send_capacity : Z;
  s_buffered_send_data : Z;
  s_send_task : option Waker;
  s_pending_send : Deque;
  s_next_pending_send_capacity : option Key;
  s_is_pending_send_capacity : bool;
  s_send_capacity_inc : bool;
  s_next_open : option Key;
  s_is_pending_open : bool;
  s_is_pending_push : bool;
  s_next_pending_accept : option Key;
  s_is_pending_accept : bool;
  s_recv_flow : FlowControl;
  s_in_flight_recv_data : Z;
  s_next_window_update : option Key;
  s_is_pending_window_update : bool;
  s_reset_at : option Z;
  s_next_reset_expire : option Key;
  s_pending_recv : Deque;
  s_recv_task : option Waker;
  s_pending_push_promises : Queue;
  s_content_length : ContentLength
}.

Definition eta_stream (s : Stream) : Stream :=
  MkStream (s_id s) (s_state s) (s_is_counted s) (s_ref_count s)
    (s_next_pending_send s) (s_is_pending_send s) (s_send_flow s) (s_requested_send_capacity s)
    (s_buffered_send_data s) (s_send_task s) (s_pending_send s) (s_next_pending_send_capacity s)
    (s_is_pending_send_capacity s) (s_send_capacity_inc s) (s_next_open s) (s_is_pending_open s)
    (s_is_pending_push s) (s_next_pending_accept s) (s_is_pending_accept s) (s_recv_flow s)
    (s_in_flight_recv_data s) (s_next_window_update s) (s_is_pending_window_update s)
    (s_reset_at s) (s_next_reset_expire s) (s_pending_recv s) (s_recv_task s)
    (s_pending_push_promises s) (s_content_length s).

Definition set_state (v : State) (s : Stream) : Stream := ltac:(with_field eta_stream s_state v s).
Definition set_is_counted (v : bool) (s : Stream) : Stream := ltac:(with_field eta_stream s_is_counted v s).
Definition set_ref_count (v : Z) (s : Stream) : Stream := ltac:(with_field eta_stream s_ref_count v s).
Definition set_next_pending_send (v : option Key) (s : Stream) : Stream :=
  ltac:(with_field eta_stream s_next_pending_send v s).
Definition set_is_pending_send (v : bool) (s : Stream) : Stream := ltac:(with_field eta_stream s_is_pending_send v s).
Definition set_send_flow (v : FlowControl) (s : Stream) : Stream := ltac:(with_field eta_stream s_send_flow v s).
Definition set_requested_send_capacity (v : Z) (s : Stream) : Stream :=
  ltac:(with_field eta_stream s_requested_send_capacity v s).
Definition set_buffered_send_data (v : Z) (s : Stream) : Stream :=
  ltac:(with_field eta_stream s_buffered_send_data v s).
Definition set_send_task (v : option Waker) (s : Stream) : Stream := ltac:(with_field eta_stream s_send_task v s).
Definition set_pending_send (v : Deque) (s : Stream) : Stream := ltac:(with_field eta_stream s_pending_send v s).
Definition set_next_pending_send_capacity (v : option Key) (s : Stream) : Stream :=
  ltac:(with_field eta_stream s_next_pending_send_capacity v s).
Definition set_is_pending_send_capacity (v : bool) (s : Stream) : Stream :=
  ltac:(with_field eta_stream s_is_pending_send_capacity v s).
Definition set_send_capacity_inc (v : bool) (s : Stream) : Stream :=
  ltac:(with_field eta_stream s_send_capacity_inc v s).
Definition set_next_open (v : option Key) (s : Stream) : Stream := ltac:(with_field eta_stream s_next_open v s).
Definition set_is_pending_open (v : bool) (s : Stream) : Stream := ltac:(with_field eta_stream s_is_pending_open v s).
Definition set_is_pending_push (v : bool) (s : Stream) : Stream := ltac:(with_field eta_stream s_is_pending_push v s).
Definition set_next_pending_accept (v : option Key) (s : Stream) : Stream :=
  ltac:(with_field eta_stream s_next_pending_accept v s).
Definition set_is_pending_accept (v : bool) (s : Stream) : Stream :=
  ltac:(with_field eta_stream s_is_pending_accept v s).
Definition set_recv_flow (v : FlowControl) (s : Stream) : Stream := ltac:(with_field eta_stream s_recv_flow v s).
Definition set_in_flight_recv_data (v : Z) (s : Stream) : Stream :=
  ltac:(with_field eta_stream s_in_flight_recv_data v s).
Definition set_next_window_update (v : option Key) (s : Stream) : Stream :=
  ltac:(with_field eta_stream s_next_window_update v s).
Definition set_is_pending_window_update (v : bool) (s : Stream) : Stream :=
  ltac:(with_field eta_stream s_is_pending_window_update v s).
Definition set_reset_at (v : option Z) (s : Stream) : Stream := ltac:(with_field eta_stream s_reset_at v s).
Definition set_next_reset_expire (v : option Key) (s : Stream) : Stream :=
  ltac:(with_field eta_stream s_next_reset_expire v s).
Definition set_pending_recv (v : Deque) (s : Stream) : Stream := ltac:(with_field eta_stream s_pending_recv v s).
Definition set_recv_task (v : option Waker) (s : Stream) : Stream := ltac:(with_field eta_stream s_recv_task v s).
Definition set_pending_push_promises (v : Queue) (s : Stream) : Stream :=
  ltac:(with_field eta_stream s_pending_push_promises v s).
Definition set_content_length (v : ContentLength) (s : Stream) : Stream :=
  ltac:(with_field eta_stream s_content_length v s).

(** [expect] on a fallible value. *)
Definition expect {E E' A} (c : outcome E A) : outcome E' A :=
  match c with Ok a => Ok a | _ => Panic end.

(** [http/h2/proto/streams/stream.rs] Stream::new *)
Definition Stream_new {E} (id : StreamId) (init_send_window init_recv_window : Z) : outcome E Stream :=
  recv_flow ← expect (FlowControl.inc_window FlowControl.new init_recv_window);
  let recv_flow := FlowControl.assign_capacity recv_flow init_recv_window in
  send_flow ← expect (FlowControl.inc_window FlowControl.new init_send_window);
  Ok {| s_id := id; s_state := State.default; s_ref_count := 0; s_is_counted := false;
        s_next_pending_send := None; s_is_pending_send := false; s_send_flow := send_flow;
        s_requested_send_capacity := 0; s_buffered_send_data := 0; s_send_task := None;
        s_pending_send := Deque.new; s_is_pending_send_capacity := false;
        s_next_pending_send_capacity := None; s_send_capacity_inc := false;
        s_is_pending_open := false; s_next_open := None; s_is_pending_push := false;
        s_next_pending_accept := None; s_is_pending_accept := false; s_recv_flow := recv_flow;
        s_in_flight_recv_data := 0; s_next_window_update := None; s_is_pending_window_update := false;
        s_reset_at := None; s_next_reset_expire := None; s_pending_recv := Deque.new;
        s_recv_task := None; s_pending_push_promises := MkQueue None; s_content_length := CLOmitted |}.

(** [http/h2/proto/streams/stream.rs] Stream::is_pending_reset_expiration *)
Definition is_pending_reset_expiration (s : Stream) : bool :=
  match s_reset_at s with Some _ => true | None => false end.

(** [http/h2/proto/streams/stream.rs] Stream::is_send_ready *)
Definition is_send_ready (s : Stream) : bool := negb (s_is_pending_open s) && negb (s_is_pending_push s).

(** [http/h2/proto/streams/stream.rs] Stream::is_closed *)
Definition is_closed (s : Stream) : bool :=
  State.is_closed (s_state s) && Deque.is_empty (s_pending_send s) && (s_buffered_send_data s =? 0).

(** [http/h2/proto/streams/stream.rs] Stream::is_released *)
Definition is_released (s : Stream) : bool :=
  is_closed s && (s_ref_count s =? 0) &&
  negb (s_is_pending_send s) && negb (s_is_pending_send_capacity s) &&
  negb (s_is_pending_accept s) && negb (s_is_pending_window_update s) &&
  negb (s_is_pending_open s) && negb (is_pending_reset_expiration s).

(** [http/h2/proto/streams/stream.rs] Stream::is_canceled_interest *)
Definition is_canceled_interest (s : Stream) : bool := (s_ref_count s =? 0) && negb (State.is_closed (s_state s)).

(** [http/h2/proto/streams/stream.rs] Stream::ensure_content_length_zero *)
Definition ensure_content_length_zero (s : Stream) : outcome () () :=
  match s_content_length s with
  | CLRemaining rem => if rem =? 0 then Ok tt else Err tt
  | _ => Ok tt
  end.

(** ** Methods that change a stream

    They run on the stream and the log of woken tasks. *)
Section Methods.
Context {E : Type}.
Abbreviation M := (SE (Stream * list Waker) E).

Definition update (f : Stream -> Stream) : M () := modify (fun st => (f st.1, st.2)).
Definition wake (t : Waker) : M () := modify (fun st => (st.1, st.2 ++ [t])).

(** [http/h2/proto/streams/stream.rs] Stream::ref_inc *)
Definition ref_inc : M () :=
  n ← gets (fun st => s_ref_count st.1);
  _ ← lift (assert_ (n <? 2 ^ 64 - 1));
  update (set_ref_count (n + 1)).

(** [http/h2/proto/streams/stream.rs] Stream::ref_dec *)
Definition ref_dec : M () :=
  n ← gets (fun st => s_ref_count st.1);
  _ ← lift (assert_ (0 <? n));
  update (set_ref_count (n - 1)).

(** [http/h2/proto/streams/stream.rs] Stream::notify_send *)
Definition notify_send : M () :=
  task ← gets (fun st => s_send_task st.1);
  match task with
  | Some task => _ ← update (set_send_task None); wake task
  | None => mret tt
  end.

(** [http/h2/proto/streams/stream.rs] Stream::wait_send *)
Definition wait_send (cx : Waker) : M () := update (set_send_task (Some cx)).

(** [http/h2/proto/streams/stream.rs] Stream::notify_recv *)
Definition notify_recv : M () :=
  task ← gets (fun st => s_recv_task st.1);
  match task with
  | Some task => _ ← update (set_recv_task None); wake task
  | None => mret tt
  end.

(** [window > size] *)
Definition window_gt (w : Window) (sz : Z) : bool := match Window.cmp_size w sz with Gt => true | _ => false end.
(** [window < size] *)
Definition window_lt (w : Window) (sz : Z) : bool := match Window.cmp_size w sz with Lt => true | _ => false end.

(** [http/h2/proto/streams/stream.rs] Stream::assign_capacity *)
Definition assign_capacity (capacity : Z) : M () :=
  _ ← update (set_send_capacity_inc true);
  _ ← update (fun s => set_send_flow (FlowControl.assign_capacity (s_send_flow s) capacity) s);
  s ← gets fst;
  if window_gt (available (s_send_flow s)) (s_buffered_send_data s) then notify_send else mret tt.

End Methods.

(** [http/h2/proto/streams/stream.rs] Stream::dec_content_length *)
Definition dec_content_length (len : Z) : SE (Stream * list Waker) () () :=
  c ← gets (fun st => s_content_length st.1);
  match c with
  | CLRemaining rem => if len <=? rem then update (set_content_length (CLRemaining (rem - len))) else throw tt
  | CLHead => throw tt
  | CLOmitted => mret tt
  end.

(** ** The links of the queues *)

(** [http/h2/proto/streams/store.rs] Next *)
Class Next (N : Type) := {
  next : Stream -> option Key;
  set_next : option Key -> Stream -> Stream;
  is_queued : Stream -> bool;
  (* [now] is what [Instant::now] returns *)
  set_queued (now : Z) : bool -> Stream -> Stream
}.

(** [http/h2/proto/streams/stream.rs] NextAccept *)
Inductive NextAccept := MkNextAccept.
(** [http/h2/proto/streams/stream.rs] NextSend *)
Inductive NextSend := MkNextSend.
(** [http/h2/proto/streams/stream.rs] NextSendCapacity *)
Inductive NextSendCapacity := MkNextSendCapacity.
(** [http/h2/proto/streams/stream.rs] NextWindowUpdate *)
Inductive NextWindowUpdate := MkNextWindowUpdate.
(** [http/h2/proto/streams/stream.rs] NextOpen *)
Inductive NextOpen := MkNextOpen.
(** [http/h2/proto/streams/stream.rs] NextResetExpire *)
Inductive NextResetExpire := MkNextResetExpire.

(** [http/h2/proto/streams/stream.rs:321-341] NextAccept as Next *)
#[export] Instance Next_Accept : Next NextAccept := {|
  next := s_next_pending_accept; set_next := set_next_pending_accept;
  is_queued := s_is_pending_accept; set_queued _ := set_is_pending_accept |}.

(** [http/h2/proto/streams/stream.rs:343-368] NextSend as Next *)
#[export] Instance Next_Send : Next NextSend := {|
  next := s_next_pending_send; set_next := set_next_pending_send;
  is_queued := s_is_pending_send; set_queued _ := set_is_pending_send |}.

(** [http/h2/proto/streams/stream.rs:370-390] NextSendCapacity as Next *)
#[export] Instance Next_SendCapacity : Next NextSendCapacity := {|
  next := s_next_pending_send_capacity; set_next := set_next_pending_send_capacity;
  is_queued := s_is_pending_send_capacity; set_queued _ := set_is_pending_send_capacity |}.

(** [http/h2/proto/streams/stream.rs:392-412] NextWindowUpdate as Next *)
#[export] Instance Next_WindowUpdate : Next NextWindowUpdate := {|
  next := s_next_window_update; set_next := set_next_window_update;
  is_queued := s_is_pending_window_update; set_queued _ := set_is_pending_window_update |}.

(** [http/h2/proto/streams/stream.rs:414-439] NextOpen as Next *)
#[export] Instance Next_Open : Next NextOpen := {|
  next := s_next_open; set_next := set_next_open;
  is_queued := s_is_pending_open; set_queued _ := set_is_pending_open |}.

(** [http/h2/proto/streams/stream.rs:441-465] NextResetExpire as Next *)
#[export] Instance Next_ResetExpire : Next NextResetExpire := {|
  next := s_next_reset_expire; set_next := set_next_reset_expire;
  is_queued := is_pending_reset_expiration;
  set_queued now val := set_reset_at (if val then Some now else None) |}.

(** * The stream store, its queues and the stream counts

    [http/h2/proto/streams/store.rs]: the streams of a connection in a slab, with an
    index map from identifiers; the queues that are linked through the streams.
    [http/h2/proto/streams/counts.rs]: the number of open streams in each direction
    and the cleaning up after a stream's state has changed.

    The [indexmap] crate's map is an interface: its entries are in insertion order,
    and [swap_remove] moves the last entry into the hole. *)

(** ** The [indexmap] crate *)

Definition swap_out {A} (l2 : list A) : list A :=
  match last l2 with None => [] | Some x => x :: removelast l2 end.

Class IndexMap (K V Im : Type) := {
  im_new : Im;
  im_entries : Im -> list (K * V);
  im_get : Im -> K -> option V;
  im_insert : K -> V -> Im -> Im;
  im_swap_remove : K -> Im -> Im;
  im_new_entries : im_entries im_new = [];
  im_get_entries m k v :
    NoDup (im_entries m).*1 -> im_get m k = Some v <-> (k, v) ∈ im_entries m;
  im_insert_entries m k v : im_get m k = None -> im_entries (im_insert k v m) = im_entries m ++ [(k, v)];
  im_swap_remove_none m k : im_get m k = None -> im_swap_remove k m = m;
  im_swap_remove_entries m k v l1 l2 :
    NoDup (im_entries m).*1 -> im_entries m = l1 ++ (k, v) :: l2 ->
    im_entries (im_swap_remove k m) = l1 ++ swap_out l2
}.

(** A model: the list of the entries. *)
Module ModelIndexMap.
#[export] Program Instance list_index_map K V `{EqDecision K} : IndexMap K V (list (K * V)) := {|
  im_new := [];
  im_entries m := m;
  im_get m k := snd <$> head (filter (fun e => e.1 = k) m);
  im_insert k v m := m ++ [(k, v)];
  im_swap_remove k m :=
    match list_find (fun e => e.1 = k) m with
    | Some (i, _) => take i m ++ swap_out (drop (S i) m)
    | None => m
    end
|}.
Next Obligation. done. Qed.
Next Obligation.
  intros K V HK m k v Hn. simpl in *. induction m as [|[k' v'] m IH]; simpl; [split; [done|]; by intros ?%elem_of_nil|].
  apply NoDup_cons in Hn as [Hk Hn]. rewrite elem_of_cons, filter_cons. simpl. case_decide as Hd; simpl.
  - subst. split; [naive_solver|]. intros [?|Hin]; [naive_solver|]. destruct Hk. by apply (list_elem_of_fmap_2 fst _ (k, v)).
  - rewrite IH by done. naive_solver.
Qed.
Next Obligation. done. Qed.
Next Obligation.
  intros K V HK m k Hn. simpl in *. destruct (list_find _ m) as [[i [k' v']]|] eqn:Hf; [|done].
  apply list_find_Some in Hf as (Hi & Hk & _). simpl in Hk. subst.
  apply list_elem_of_lookup_2 in Hi.
  assert ((k, v') ∈ filter (fun e => e.1 = k) m) as Hin by (by apply list_elem_of_filter).
  by destruct (filter _ m); [apply elem_of_nil in Hin|].
Qed.
Next Obligation.
  intros K V HK m k v l1 l2 Hn Hm. simpl in *. subst m.
  assert (forall e, e ∈ l1 -> e.1 <> k) as Hl1.
  { intros e He <-. rewrite fmap_app in Hn. apply NoDup_app in Hn as (_ & Hn & _).
    apply (Hn e.1); [by apply list_elem_of_fmap_2|]. simpl. set_solver. }
  assert (list_find (fun e => e.1 = k) (l1 ++ (k, v) :: l2) = Some (length l1, (k, v))) as ->.
  { apply list_find_Some. split_and!; [by apply list_lookup_middle|done|].
    intros j e He Hj. rewrite lookup_app_l in He by done. apply Hl1. by eapply list_elem_of_lookup_2. }
  rewrite take_app_length. f_equal. f_equal.
  change (l1 ++ (k, v) :: l2) with (l1 ++ [(k, v)] ++ l2). rewrite app_assoc.
  apply drop_app_length'. rewrite length_app. simpl. lia.
Qed.
End ModelIndexMap.

Definition im_len `{IndexMap K V Im} (m : Im) : Z := len (im_entries m).

(** ** The store *)

(** [http/h2/proto/streams/store.rs] Store *)
Record Store (Ss Im : Type) := MkStore { st_slab : Ss; st_ids : Im }.
Arguments MkStore {Ss Im}.
Arguments st_slab {Ss Im}.
Arguments st_ids {Ss Im}.

Section Store.
Context {Ss Im : Type} {SS : Slab Stream Ss} {IM : IndexMap StreamId nat Im} {E : Type}.
Abbreviation St := (Store Ss Im).
Abbreviation M := (SE St E).

(** [http/h2/proto/streams/store.rs] Store::new *)
Definition Store_new : St := MkStore slab_new im_new.

(** [http/h2/proto/streams/store.rs] Store::find_mut *)
Definition find_mut (id : StreamId) (st : St) : option Key :=
  match im_get (st_ids st) id with
  | Some index => Some (MkKey index id)
  | None => None
  end.

(** [http/h2/proto/streams/store.rs] Store::insert *)
Definition Store_insert (id : StreamId) (val : Stream) : M Key := fun st =>
  let '(slab, index) := slab_insert val (st_slab st) in
  let old := im_get (st_ids st) id in
  let st := MkStore slab (im_insert id index (st_ids st)) in
  match old with
  | None => (st, Ok (MkKey index id))
  | Some _ => (st, Panic)
  end.

(** [http/h2/proto/streams/store.rs] VacantEntry::insert *)
Definition VacantEntry_insert (value : Stream) : M Key := fun st =>
  let stream_id := s_id value in
  let '(slab, index) := slab_insert value (st_slab st) in
  (MkStore slab (im_insert stream_id index (st_ids st)), Ok (MkKey index stream_id)).

(** [http/h2/proto/streams/store.rs] Store as Index::index *)
Definition index (key : Key) (st : St) : option Stream :=
  match slab_get (st_slab st) (key_index key) with
  | Some s => if decide (s_id s = key_stream_id key) then Some s else None
  | None => None
  end.

(** [http/h2/proto/streams/store.rs] Ptr as Deref::deref *)
Definition deref (key : Key) : M Stream := fun st =>
  match index key st with Some s => (st, Ok s) | None => (st, Panic) end.

Definition put (key : Key) (s : Stream) (st : St) : St :=
  MkStore (slab_set (st_slab st) (key_index key) s) (st_ids st).

(** [http/h2/proto/streams/store.rs] Ptr as DerefMut::deref_mut *)
Definition deref_mut (key : Key) (f : Stream -> Stream) : M () := fun st =>
  match index key st with Some s => (put key (f s) st, Ok tt) | None => (st, Panic) end.

(** [http/h2/proto/streams/store.rs] Ptr::remove *)
Definition remove (key : Key) : M StreamId := fun st =>
  match slab_get (st_slab st) (key_index key) with
  | Some stream =>
      (MkStore (slab_remove (key_index key) (st_slab st)) (st_ids st),
       if decide (s_id stream = key_stream_id key) then Ok (s_id stream) else Panic)
  | None => (st, Panic)
  end.

(** [http/h2/proto/streams/store.rs] Ptr::unlink *)
Definition unlink (key : Key) : M () :=
  modify (fun st => MkStore (st_slab st) (im_swap_remove (key_stream_id key) (st_ids st))).

(** [http/h2/proto/streams/store.rs] Store::num_active_streams *)
Definition num_active_streams (st : St) : Z := im_len (st_ids st).
(** [http/h2/proto/streams/store.rs] Store::num_wired_streams *)
Definition num_wired_streams (st : St) : Z := slab_len (st_slab st).

End Store.

(** [http/h2/proto/streams/store.rs] Store::for_each

    [W] is a state that holds the store; every round either takes an entry out of the
    index map or goes on to the next one, so [im_len] rounds are enough. *)
Fixpoint for_each_from {W Ss Im E} `{IndexMap StreamId nat Im} (store : W -> Store Ss Im)
    (f : Key -> SE W E ()) (fuel i : nat) (len : Z) : SE W E () :=
  match fuel with
  | O => panic
  | S fuel =>
      if Z.of_nat i <? len then
        entry ← gets (fun w => im_entries (st_ids (store w)) !! i);
        '(stream_id, index) ← lift (unwrap entry);
        _ ← f (MkKey index stream_id);
        new_len ← gets (fun w => im_len (st_ids (store w)));
        if new_len <? len then for_each_from store f fuel i (len - 1)
        else for_each_from store f fuel (S i) len
      else mret tt
  end.

Definition for_each {W Ss Im E} `{IndexMap StreamId nat Im} (store : W -> Store Ss Im)
    (f : Key -> SE W E ()) : SE W E () :=
  len ← gets (fun w => im_len (st_ids (store w)));
  for_each_from store f (S (Z.to_nat len)) 0 len.

(** ** Queues *)

Module Queue.
Section Queue.
Context {Ss Im : Type} {SS : Slab Stream Ss} {IM : IndexMap StreamId nat Im} {E : Type}.
Context (N : Type) {NX : Next N}.
Abbreviation St := (Store Ss Im).
Abbreviation M := (SE (Queue * St) E).

(** [http/h2/proto/streams/store.rs] Queue::new *)
Definition new : Queue := MkQueue None.

Definition on_store {A} (c : SE St E A) : M A := zoom snd (fun st w => (w.1, st)) c.
Definition set_indices (i : option Indices) : M () := modify (fun w => (MkQueue i, w.2)).

(** [http/h2/proto/streams/store.rs] Queue::push *)
Definition push (now : Z) (stream : Key) : M bool :=
  s ← on_store (deref stream);
  if is_queued (N:=N) s then mret false
  else
    _ ← on_store (deref_mut stream (set_queued (N:=N) now true));
    i ← gets (fun w => q_indices w.1);
    _ ← match i with
        | Some idxs =>
            _ ← on_store (deref_mut (ix_tail idxs) (set_next (N:=N) (Some stream)));
            set_indices (Some (MkIndices (ix_head idxs) stream))
        | None => set_indices (Some (MkIndices stream stream))
        end;
    mret true.

(** [http/h2/proto/streams/store.rs] Queue::pop *)
Definition pop (now : Z) : M (option Key) :=
  i ← gets (fun w => q_indices w.1);
  match i with
  | Some idxs =>
      let stream := ix_head idxs in
      s ← on_store (deref stream);
      _ ← (if decide (ix_head idxs = ix_tail idxs) then
             _ ← lift (assert_ (bool_decide (next (N:=N) s = None)));
             set_indices None
           else
             _ ← on_store (deref_mut stream (set_next (N:=N) None));
             head ← lift (unwrap (next (N:=N) s));
             set_indices (Some (MkIndices head (ix_tail idxs))));
      _ ← on_store (deref_mut stream (set_queued (N:=N) now false));
      mret (Some stream)
  | None => mret None
  end.

(** [http/h2/proto/streams/store.rs] Queue::pop_if *)
Definition pop_if (now : Z) (f : Stream -> outcome E bool) : M (option Key) :=
  i ← gets (fun w => q_indices w.1);
  match i with
  | Some idxs =>
      s ← on_store (deref (ix_head idxs));
      should_pop ← lift (f s);
      if (should_pop : bool) then pop now else mret None
  | None => mret None
  end.

End Queue.
End Queue.

(** ** Counts *)

(** [http/h2/proto/streams/counts.rs] Counts *)
Record Counts := MkCounts {
  ct_peer : Dyn;
  max_send_streams : Z;
  num_send_streams : Z;
  max_recv_streams : Z;
  num_recv_streams : Z;
  max_reset_streams : Z;
  num_reset_streams : Z
}.

(** [http/h2/proto/streams/mod.rs] Config *)
Record Config := MkConfig {
  local_init_window_sz : Z;
  initial_max_send_streams : Z;
  local_next_stream_id : StreamId;
  local_push_enabled : bool;
  local_reset_duration : Z;
  local_reset_max : Z;
  remote_init_window_sz : Z;
  remote_max_initiated : option Z
}.

Module Counts.

(** [http/h2/proto/streams/counts.rs] Counts::new *)
Definition new (peer : Dyn) (config : Config) : Counts :=
  MkCounts peer (initial_max_send_streams config) 0
    (default (2 ^ 64 - 1) (remote_max_initiated config)) 0 (local_reset_max config) 0.

Definition set_max_send (v : Z) (c : Counts) : Counts :=
  MkCounts (ct_peer c) v (num_send_streams c) (max_recv_streams c) (num_recv_streams c)
    (max_reset_streams c) (num_reset_streams c).
Definition set_num_send (v : Z) (c : Counts) : Counts :=
  MkCounts (ct_peer c) (max_send_streams c) v (max_recv_streams c) (num_recv_streams c)
    (max_reset_streams c) (num_reset_streams c).
Definition set_num_recv (v : Z) (c : Counts) : Counts :=
  MkCounts (ct_peer c) (max_send_streams c) (num_send_streams c) (max_recv_streams c) v
    (max_reset_streams c) (num_reset_streams c).
Definition set_num_reset (v : Z) (c : Counts) : Counts :=
  MkCounts (ct_peer c) (max_send_streams c) (num_send_streams c) (max_recv_streams c)
    (num_recv_streams c) (max_reset_streams c) v.

(** [http/h2/proto/streams/counts.rs] Counts::has_streams *)
Definition has_streams (c : Counts) : bool :=
  negb (num_send_streams c =? 0) || negb (num_recv_streams c =? 0).
(** [http/h2/proto/streams/counts.rs] Counts::can_inc_num_recv_streams *)
Definition can_inc_num_recv_streams (c : Counts) : bool := num_recv_streams c <? max_recv_streams c.
(** [http/h2/proto/streams/counts.rs] Counts::can_inc_num_send_streams *)
Definition can_inc_num_send_streams (c : Counts) : bool := num_send_streams c <? max_send_streams c.
(** [http/h2/proto/streams/counts.rs] Counts::can_inc_num_reset_streams *)
Definition can_inc_num_reset_streams (c : Counts) : bool := num_reset_streams c <? max_reset_streams c.

(** [http/h2/proto/streams/counts.rs] Counts::apply_remote_settings *)
Definition apply_remote_settings (settings : Settings) (c : Counts) : Counts :=
  match max_concurrent_streams settings with
  | Some val => set_max_send val c
  | None => c
  end.

Section Counts.
Context {Ss Im : Type} {SS : Slab Stream Ss} {IM : IndexMap StreamId nat Im} {E : Type}.
Abbreviation M := (SE (Counts * Store Ss Im) E).

Definition on_store {A} (c : SE (Store Ss Im) E A) : M A := zoom snd (fun st w => (w.1, st)) c.
Definition on_counts (f : Counts -> Counts) : M () := modify (fun w => (f w.1, w.2)).

(** [http/h2/proto/streams/counts.rs] Counts::inc_num_recv_streams *)
Definition inc_num_recv_streams (stream : Key) : M () :=
  c ← gets fst;
  _ ← lift (assert_ (can_inc_num_recv_streams c));
  s ← on_store (deref stream);
  _ ← lift (assert_ (negb (s_is_counted s)));
  _ ← on_counts (fun c => set_num_recv (num_recv_streams c + 1) c);
  on_store (deref_mut stream (set_is_counted true)).

(** [http/h2/proto/streams/counts.rs] Counts::inc_num_send_streams *)
Definition inc_num_send_streams (stream : Key) : M () :=
  c ← gets fst;
  _ ← lift (assert_ (can_inc_num_send_streams c));
  s ← on_store (deref stream);
  _ ← lift (assert_ (negb (s_is_counted s)));
  _ ← on_counts (fun c => set_num_send (num_send_streams c + 1) c);
  on_store (deref_mut stream (set_is_counted true)).

(** [http/h2/proto/streams/counts.rs] Counts::inc_num_reset_streams *)
Definition inc_num_reset_streams : M () :=
  c ← gets fst;
  _ ← lift (assert_ (can_inc_num_reset_streams c));
  on_counts (fun c => set_num_reset (num_reset_streams c + 1) c).

(** [http/h2/proto/streams/counts.rs] Counts::dec_num_streams *)
Definition dec_num_streams (stream : Key) : M () :=
  s ← on_store (deref stream);
  _ ← lift (assert_ (s_is_counted s));
  c ← gets fst;
  local ← lift (Dyn.is_local_init (ct_peer c) (s_id s));
  if (local : bool) then
    _ ← lift (assert_ (0 <? num_send_streams c));
    _ ← on_counts (fun c => set_num_send (num_send_streams c - 1) c);
    on_store (deref_mut stream (set_is_counted false))
  else
    _ ← lift (assert_ (0 <? num_recv_streams c));
    _ ← on_counts (fun c => set_num_recv (num_recv_streams c - 1) c);
    on_store (deref_mut stream (set_is_counted false)).

(** [http/h2/proto/streams/counts.rs] Counts::dec_num_reset_streams *)
Definition dec_num_reset_streams : M () :=
  c ← gets fst;
  _ ← lift (assert_ (0 <? num_reset_streams c));
  on_counts (fun c => set_num_reset (num_reset_streams c - 1) c).

(** [http/h2/proto/streams/counts.rs] Counts::transition_after *)
Definition transition_after (stream : Key) (is_reset_counted : bool) : M () :=
  s ← on_store (deref stream);
  _ ← (if is_closed s then
         _ ← (if negb (is_pending_reset_expiration s) then
                _ ← on_store (unlink stream);
                if is_reset_counted then dec_num_reset_streams else mret tt
              else mret tt);
         if s_is_counted s then dec_num_streams stream else mret tt
       else mret tt);
  s ← on_store (deref stream);
  if is_released s then (fun _ => tt) <$> on_store (remove stream) else mret tt.

End Counts.
End Counts.
