(* ===== verification/H2World.v ===== *)
(** * The state shared by the streams of a connection

    [http/h2/proto/streams/streams.rs] keeps the counts, the receive and the send
    half, the store and the buffer of outgoing frames behind two locks that every
    operation takes.  [World] is that state, with the clock and the log of woken
    tasks; the other definitions run an operation of one component in it.

    The second part converts HTTP messages from and to frames. *)

From Stdlib Require Import String.
From S2P Require Import Prelude Bytes H2Types FlowControl StreamState Slab H2Buffer H2Store HttpTypes HpackTable.
From S2P Require Import Frames HeadersFrame H1Head.

(** ** The records of the halves *)

(** [http/h2/proto/streams/prioritize.rs] InFlightData *)
Inductive InFlightData := IFNothing | IFDataFrame (key : Key) | IFDrop.

(** [http/h2/proto/streams/prioritize.rs] Prioritize *)
Record Prioritize := MkPrioritize {
  p_pending_send : Queue;
  p_pending_capacity : Queue;
  p_pending_open : Queue;
  p_flow : FlowControl;
  p_last_opened_id : StreamId;
  p_in_flight_data_frame : InFlightData
}.

(** [http/h2/proto/streams/send.rs] Send *)
Record Send := MkSend {
  sd_next_stream_id : outcome StreamId.StreamIdOverflow StreamId;
  sd_init_window_sz : Z;
  sd_prioritize : Prioritize
}.

(** [http/h2/proto/streams/recv.rs] Recv *)
Record Recv (Rf : Type) := MkRecv {
  rv_init_window_sz : Z;
  rv_flow : FlowControl;
  rv_in_flight_data : Z;
  rv_next_stream_id : outcome StreamId.StreamIdOverflow StreamId;
  rv_last_processed_id : StreamId;
  rv_max_stream_id : StreamId;
  rv_pending_window_updates : Queue;
  rv_pending_accept : Queue;
  rv_pending_reset_expired : Queue;
  rv_reset_duration : Z;
  rv_buffer : Rf;
  rv_refused : option StreamId;
  rv_is_push_enabled : bool
}.
Arguments MkRecv {Rf}.
Arguments rv_init_window_sz {Rf}.
Arguments rv_flow {Rf}.
Arguments rv_in_flight_data {Rf}.
Arguments rv_next_stream_id {Rf}.
Arguments rv_last_processed_id {Rf}.
Arguments rv_max_stream_id {Rf}.
Arguments rv_pending_window_updates {Rf}.
Arguments rv_pending_accept {Rf}.
Arguments rv_pending_reset_expired {Rf}.
Arguments rv_reset_duration {Rf}.
Arguments rv_buffer {Rf}.
Arguments rv_refused {Rf}.
Arguments rv_is_push_enabled {Rf}.

(** [http/h2/proto/streams/streams.rs] Inner *)
Record World (Ss Im Bf Rf : Type) := MkWorld {
  w_counts : Counts;
  w_recv : Recv Rf;
  w_send : Send;
  w_task : option Waker;
  w_conn_error : option ProtoError;
  w_store : Store Ss Im;
  w_refs : Z;
  w_send_buffer : Bf;
  w_woken : list Waker;
  w_now : Z
}.
Arguments MkWorld {Ss Im Bf Rf}.
Arguments w_counts {Ss Im Bf Rf}.
Arguments w_recv {Ss Im Bf Rf}.
Arguments w_send {Ss Im Bf Rf}.
Arguments w_task {Ss Im Bf Rf}.
Arguments w_conn_error {Ss Im Bf Rf}.
Arguments w_store {Ss Im Bf Rf}.
Arguments w_refs {Ss Im Bf Rf}.
Arguments w_send_buffer {Ss Im Bf Rf}.
Arguments w_woken {Ss Im Bf Rf}.
Arguments w_now {Ss Im Bf Rf}.

(** ** Field updates *)

Definition eta_prioritize (p : Prioritize) : Prioritize :=
  MkPrioritize (p_pending_send p) (p_pending_capacity p) (p_pending_open p) (p_flow p)
    (p_last_opened_id p) (p_in_flight_data_frame p).
Definition set_p_pending_send (v : Queue) (p : Prioritize) : Prioritize :=
  ltac:(with_field eta_prioritize p_pending_send v p).
Definition set_p_pending_capacity (v : Queue) (p : Prioritize) : Prioritize :=
  ltac:(with_field eta_prioritize p_pending_capacity v p).
Definition set_p_pending_open (v : Queue) (p : Prioritize) : Prioritize :=
  ltac:(with_field eta_prioritize p_pending_open v p).
Definition set_p_flow (v : FlowControl) (p : Prioritize) : Prioritize := ltac:(with_field eta_prioritize p_flow v p).
Definition set_p_in_flight (v : InFlightData) (p : Prioritize) : Prioritize :=
  ltac:(with_field eta_prioritize p_in_flight_data_frame v p).

Definition set_sd_next_stream_id (v : outcome StreamId.StreamIdOverflow StreamId) (s : Send) : Send :=
  MkSend v (sd_init_window_sz s) (sd_prioritize s).
Definition set_sd_init_window_sz (v : Z) (s : Send) : Send := MkSend (sd_next_stream_id s) v (sd_prioritize s).
Definition set_sd_prioritize (v : Prioritize) (s : Send) : Send :=
  MkSend (sd_next_stream_id s) (sd_init_window_sz s) v.

Section RecvFields.
Context {Rf : Type}.
Definition eta_recv (r : Recv Rf) : Recv Rf :=
  MkRecv (rv_init_window_sz r) (rv_flow r) (rv_in_flight_data r) (rv_next_stream_id r)
    (rv_last_processed_id r) (rv_max_stream_id r) (rv_pending_window_updates r) (rv_pending_accept r)
    (rv_pending_reset_expired r) (rv_reset_duration r) (rv_buffer r) (rv_refused r) (rv_is_push_enabled r).
Definition set_rv_init_window_sz (v : Z) (r : Recv Rf) : Recv Rf :=
  ltac:(with_field eta_recv (@rv_init_window_sz Rf) v r).
Definition set_rv_flow (v : FlowControl) (r : Recv Rf) : Recv Rf := ltac:(with_field eta_recv (@rv_flow Rf) v r).
Definition set_rv_in_flight_data (v : Z) (r : Recv Rf) : Recv Rf :=
  ltac:(with_field eta_recv (@rv_in_flight_data Rf) v r).
Definition set_rv_next_stream_id (v : outcome StreamId.StreamIdOverflow StreamId) (r : Recv Rf) : Recv Rf :=
  ltac:(with_field eta_recv (@rv_next_stream_id Rf) v r).
Definition set_rv_last_processed_id (v : StreamId) (r : Recv Rf) : Recv Rf :=
  ltac:(with_field eta_recv (@rv_last_processed_id Rf) v r).
Definition set_rv_max_stream_id (v : StreamId) (r : Recv Rf) : Recv Rf :=
  ltac:(with_field eta_recv (@rv_max_stream_id Rf) v r).
Definition set_rv_pending_window_updates (v : Queue) (r : Recv Rf) : Recv Rf :=
  ltac:(with_field eta_recv (@rv_pending_window_updates Rf) v r).
Definition set_rv_pending_accept (v : Queue) (r : Recv Rf) : Recv Rf :=
  ltac:(with_field eta_recv (@rv_pending_accept Rf) v r).
Definition set_rv_pending_reset_expired (v : Queue) (r : Recv Rf) : Recv Rf :=
  ltac:(with_field eta_recv (@rv_pending_reset_expired Rf) v r).
Definition set_rv_buffer (v : Rf) (r : Recv Rf) : Recv Rf := ltac:(with_field eta_recv (@rv_buffer Rf) v r).
Definition set_rv_refused (v : option StreamId) (r : Recv Rf) : Recv Rf :=
  ltac:(with_field eta_recv (@rv_refused Rf) v r).
End RecvFields.

Section WorldFields.
Context {Ss Im Bf Rf : Type}.
Abbreviation W := (World Ss Im Bf Rf).
Definition eta_world (w : W) : W :=
  MkWorld (w_counts w) (w_recv w) (w_send w) (w_task w) (w_conn_error w) (w_store w) (w_refs w)
    (w_send_buffer w) (w_woken w) (w_now w).
Definition set_counts (v : Counts) (w : W) : W := ltac:(with_field eta_world (@w_counts Ss Im Bf Rf) v w).
Definition set_recv (v : Recv Rf) (w : W) : W := ltac:(with_field eta_world (@w_recv Ss Im Bf Rf) v w).
Definition set_send (v : Send) (w : W) : W := ltac:(with_field eta_world (@w_send Ss Im Bf Rf) v w).
Definition set_task (v : option Waker) (w : W) : W := ltac:(with_field eta_world (@w_task Ss Im Bf Rf) v w).
Definition set_conn_error (v : option ProtoError) (w : W) : W :=
  ltac:(with_field eta_world (@w_conn_error Ss Im Bf Rf) v w).
Definition set_store (v : Store Ss Im) (w : W) : W := ltac:(with_field eta_world (@w_store Ss Im Bf Rf) v w).
Definition set_refs (v : Z) (w : W) : W := ltac:(with_field eta_world (@w_refs Ss Im Bf Rf) v w).
Definition set_send_buffer (v : Bf) (w : W) : W := ltac:(with_field eta_world (@w_send_buffer Ss Im Bf Rf) v w).
Definition set_woken (v : list Waker) (w : W) : W := ltac:(with_field eta_world (@w_woken Ss Im Bf Rf) v w).

Definition w_prio (w : W) : Prioritize := sd_prioritize (w_send w).
Definition set_prio (p : Prioritize) (w : W) : W := set_send (set_sd_prioritize p (w_send w)) w.
End WorldFields.

(** ** The queues of the world *)

Record QueueAt (W : Type) := MkQueueAt { q_view : W -> Queue; q_set : Queue -> W -> W }.
Arguments MkQueueAt {W}.
Arguments q_view {W}.
Arguments q_set {W}.

Section Queues.
Context {Ss Im Bf Rf : Type}.
Abbreviation W := (World Ss Im Bf Rf).
Definition pending_send : QueueAt W :=
  MkQueueAt (fun w => p_pending_send (w_prio w)) (fun q w => set_prio (set_p_pending_send q (w_prio w)) w).
Definition pending_capacity : QueueAt W :=
  MkQueueAt (fun w => p_pending_capacity (w_prio w)) (fun q w => set_prio (set_p_pending_capacity q (w_prio w)) w).
Definition pending_open : QueueAt W :=
  MkQueueAt (fun w => p_pending_open (w_prio w)) (fun q w => set_prio (set_p_pending_open q (w_prio w)) w).
Definition pending_window_updates : QueueAt W :=
  MkQueueAt (fun w => rv_pending_window_updates (w_recv w))
    (fun q w => set_recv (set_rv_pending_window_updates q (w_recv w)) w).
Definition pending_accept : QueueAt W :=
  MkQueueAt (fun w => rv_pending_accept (w_recv w)) (fun q w => set_recv (set_rv_pending_accept q (w_recv w)) w).
Definition pending_reset_expired : QueueAt W :=
  MkQueueAt (fun w => rv_pending_reset_expired (w_recv w))
    (fun q w => set_recv (set_rv_pending_reset_expired q (w_recv w)) w).
End Queues.

(** ** Running the components *)

Section Run.
Context {Ss Im Bf Rf T Ev : Type}.
Context {SS : Slab Stream Ss} {IM : IndexMap StreamId nat Im}.
Context {SB : Slab (Slot T) Bf} {RB : Slab (Slot Ev) Rf}.
Abbreviation W := (World Ss Im Bf Rf).

(** The result of a closure as a value, to go on after it has failed. *)
Definition attempt {S E E' A} (c : SE S E A) : SE S E' (E + A) := fun s =>
  match c s with
  | (s, Ok a) => (s, Ok (inr a))
  | (s, Err e) => (s, Ok (inl e))
  | (s, Panic) => (s, Panic)
  end.
Definition rethrow {S E A} (r : E + A) : SE S E A :=
  match r with inl e => throw e | inr a => mret a end.

Context {E : Type}.
Abbreviation M := (SE W E).

Definition on_store {A} (c : SE (Store Ss Im) E A) : M A := zoom w_store set_store c.
(** Reading and writing through a [store::Ptr]. *)
Definition stream (key : Key) : M Stream := on_store (deref key).
Definition upd (key : Key) (f : Stream -> Stream) : M () := on_store (deref_mut key f).

(** A method of [Stream], called through a [store::Ptr]. *)
Definition on_stream {A} (key : Key) (c : SE (Stream * list Waker) E A) : M A := fun w =>
  match index key (w_store w) with
  | Some s =>
      let '((s, woken), r) := c (s, w_woken w) in
      (set_woken woken (set_store (put key s (w_store w)) w), r)
  | None => (w, Panic)
  end.

Definition on_counts {A} (c : SE (Counts * Store Ss Im) E A) : M A :=
  zoom (fun w => (w_counts w, w_store w)) (fun t w => set_counts t.1 (set_store t.2 w)) c.

(** The deque of a stream over the buffer it lives in. *)
Definition on_pending_send {A} (key : Key) (c : SE (Deque * Bf) E A) : M A := fun w =>
  match index key (w_store w) with
  | Some s =>
      let '((d, b), r) := c (s_pending_send s, w_send_buffer w) in
      (set_send_buffer b (set_store (put key (set_pending_send d s) (w_store w)) w), r)
  | None => (w, Panic)
  end.
Definition on_pending_recv {A} (key : Key) (c : SE (Deque * Rf) E A) : M A := fun w =>
  match index key (w_store w) with
  | Some s =>
      let '((d, b), r) := c (s_pending_recv s, rv_buffer (w_recv w)) in
      (set_recv (set_rv_buffer b (w_recv w)) (set_store (put key (set_pending_recv d s) (w_store w)) w), r)
  | None => (w, Panic)
  end.

(** A queue of the world, and the methods of [Queue] on it. *)
Definition on_queue {A} (q : QueueAt W) (c : SE (Queue * Store Ss Im) E A) : M A :=
  zoom (fun w => (q_view q w, w_store w)) (fun t w => q_set q t.1 (set_store t.2 w)) c.
Definition push (N : Type) `{Next N} (q : QueueAt W) (key : Key) : M bool :=
  now ← gets w_now;
  on_queue q (Queue.push N now key).
Definition pop (N : Type) `{Next N} (q : QueueAt W) : M (option Key) :=
  now ← gets w_now;
  on_queue q (Queue.pop N now).

(** [if let Some(task) = task.take() { task.wake(); }] *)
Definition wake_task : M () :=
  modify (fun w => match w_task w with
                   | Some t => set_woken (w_woken w ++ [t]) (set_task None w)
                   | None => w
                   end).

Definition on_p_flow (f : FlowControl -> FlowControl) : M () :=
  modify (fun w => set_prio (set_p_flow (f (p_flow (w_prio w))) (w_prio w)) w).
Definition on_rv_flow (f : FlowControl -> FlowControl) : M () :=
  modify (fun w => set_recv (set_rv_flow (f (rv_flow (w_recv w))) (w_recv w)) w).

(** [http/h2/proto/streams/counts.rs] Counts::transition *)
Definition transition {A} (key : Key) (f : M A) : M A :=
  s ← stream key;
  let is_pending_reset := is_pending_reset_expiration s in
  ret ← attempt f;
  _ ← on_counts (Counts.transition_after key is_pending_reset);
  rethrow ret.

(** A bound on the rounds of a loop that takes a stream out of a queue in each. *)
Definition streams_fuel (w : W) : nat := S (Z.to_nat (slab_len (st_slab (w_store w)))).

(** [while let Some(stream) = queue.pop(store) { f(stream) }] *)
Fixpoint drain_queue (fuel : nat) (pop : M (option Key)) (f : Key -> M ()) : M () :=
  match fuel with
  | O => panic
  | S fuel =>
      key ← pop;
      match key with
      | Some key => _ ← f key; drain_queue fuel pop f
      | None => mret tt
      end
  end.

End Run.

(** * HTTP messages on h2 streams

    [http/h2/proto/peer.rs] and the [Peer] types of [http/h2/server.rs] and
    [http/h2/client.rs]: requests and responses to and from HEADERS and PUSH_PROMISE
    frames.  The [http] crate's URIs are an interface. *)

(** [http::uri]: the parsers of its components (the text of an accepted component) and
    the URI made of parts. *)
Class UriOps := {
  Uri : Type;
  uri_from_parts : UriParts -> option Uri;
  uri_into_parts : Uri -> UriParts;
  authority_from : list Z -> option (list Z);
  scheme_parse : list Z -> option (list Z);
  path_from : list Z -> option (list Z)
}.

(** URIs that are their parts, with every text a valid component. *)
Module ModelUri.
#[export] Instance parts_uri : UriOps := {|
  Uri := UriParts;
  uri_from_parts p := Some p;
  uri_into_parts p := p;
  authority_from b := Some b;
  scheme_parse b := Some b;
  path_from b := Some b
|}.
End ModelUri.

(** [http/h2/proto/streams/recv.rs] Open *)
Inductive Open := OpenPushPromise | OpenHeaders.
(** [http/h2/proto/streams/recv.rs] Open::is_push_promise *)
Definition is_push_promise (o : Open) : bool := match o with OpenPushPromise => true | OpenHeaders => false end.

(** [http/h2/proto/peer.rs] Dyn::ensure_can_open *)
Definition ensure_can_open (d : Dyn) (id : StreamId) (mode : Open) : outcome RecvError () :=
  if Dyn.is_server d then
    if is_push_promise mode || negb (StreamId.is_client_initiated id)
    then Err (RecvConnection PROTOCOL_ERROR) else Ok tt
  else
    if negb (is_push_promise mode) || negb (StreamId.is_server_initiated id)
    then Err (RecvConnection PROTOCOL_ERROR) else Ok tt.

(** [http/h2/codec/error.rs] SendError *)
Inductive SendError :=
  | SendUser (e : UserError)
  | SendConnection (reason : Reason)
  | SendIo (e : IoErrorKind).

Section Messages.
Context `{HM : HeaderMapOps} {HI : HeaderMapIntoIter (HM:=HM)} {NH : NameHasher (HT:=HT)} {UO : UriOps}.

(** [http::Request<()>] and [http::Response<()>] *)
Record Request := MkRequest { rq_method : Method; rq_uri : Uri; rq_version : Version; rq_headers : HeaderMap }.
Record Response := MkResponse { rs_status : StatusCode; rs_version : Version; rs_headers : HeaderMap }.

(** [HeaderMap::get]: the first value under a name. *)
Definition hm_get (m : HeaderMap) (name : HeaderName) : option HeaderValue :=
  snd <$> head (filter (fun e => e.1 = name) (hm_iter m)).

(** [http/h2/proto/peer.rs] PollMessage *)
Inductive PollMessage := PMClient (r : Response) | PMServer (r : Request).

Definition end_if (end_of_stream : bool) (h : Headers) : Headers :=
  if end_of_stream then Headers_set_end_stream h else h.

(** [http/h2/server.rs] Peer::convert_send_message *)
Definition server_convert_send_message (id : StreamId) (response : Response) (end_of_stream : bool) : Headers :=
  let pseudo := Pseudo_response (rs_status response) in
  end_if end_of_stream (Headers_new id pseudo (rs_headers response)).

(** [http/h2/server.rs] Peer::convert_push_message *)
Definition convert_push_message (stream_id promised_id : StreamId) (request : Request) :
    outcome UserError PushPromise :=
  match validate_request (rq_method request) (rq_headers request) with
  | Ok _ =>
      let pseudo := Pseudo_request (rq_method request) (uri_into_parts (rq_uri request)) in
      Ok (PushPromise_new stream_id promised_id pseudo (rq_headers request))
  | Err _ => Err MalformedHeaders
  | Panic => Panic
  end.

Definition component (id : StreamId) (parse : list Z -> option (list Z)) (x : option BytesStr) :
    outcome RecvError (option (list Z)) :=
  match x with
  | Some text => Some <$> ok_or (parse (bytes_str text)) (RecvStream id PROTOCOL_ERROR)
  | None => Ok None
  end.

(** [http/h2/server.rs] Peer as Peer::convert_poll_message *)
Definition server_convert_poll_message (pseudo : Pseudo) (fields : HeaderMap) (stream_id : StreamId) :
    outcome RecvError Request :=
  let malformed := RecvStream stream_id PROTOCOL_ERROR in
  method ← ok_or (p_method pseudo) malformed;
  _ ← match p_status pseudo with Some _ => Err (RecvConnection PROTOCOL_ERROR) | None => Ok tt end;
  authority ← component stream_id authority_from (p_authority pseudo);
  scheme ← ok_or (p_scheme pseudo) malformed;
  scheme ← ok_or (scheme_parse (bytes_str scheme)) malformed;
  let scheme := match authority with Some _ => Some scheme | None => None end in
  path ← match p_path pseudo with
         | Some path => if bool_decide (bytes_str path = []) then Err malformed
                        else component stream_id path_from (Some path)
         | None => Ok None
         end;
  uri ← ok_or (uri_from_parts (MkUriParts scheme authority path)) malformed;
  Ok (MkRequest method uri HTTP_2 fields).

(** [http/h2/client.rs] Peer::convert_send_message *)
Definition client_convert_send_message (id : StreamId) (request : Request) (end_of_stream : bool) :
    outcome SendError Headers :=
  let pseudo := Pseudo_request (rq_method request) (uri_into_parts (rq_uri request)) in
  pseudo ← match p_scheme pseudo, p_authority pseudo with
           | None, None =>
               match rq_version request with
               | HTTP_2 => Err (SendUser MissingUriSchemeAndAuthority)
               | _ => Ok (Pseudo_set_scheme (bytes_of_string "http") pseudo)
               end
           | _, _ => Ok pseudo
           end;
  Ok (end_if end_of_stream (Headers_new id pseudo (rq_headers request))).

(** [http/h2/client.rs] Peer as Peer::convert_poll_message

    A builder that is only given a version and a status cannot fail; the default
    status is 200. *)
Definition client_convert_poll_message (pseudo : Pseudo) (fields : HeaderMap) (stream_id : StreamId) :
    outcome RecvError Response :=
  Ok (MkResponse (default (std_status OK) (p_status pseudo)) HTTP_2 fields).

(** [http/h2/proto/peer.rs] Dyn::convert_poll_message *)
Definition convert_poll_message (d : Dyn) (pseudo : Pseudo) (fields : HeaderMap) (stream_id : StreamId) :
    outcome RecvError PollMessage :=
  if Dyn.is_server d then PMServer <$> server_convert_poll_message pseudo fields stream_id
  else PMClient <$> client_convert_poll_message pseudo fields stream_id.

End Messages.
