(* ===== verification/H2Send.v ===== *)
(** * Scheduling outgoing frames ([http/h2/proto/streams/prioritize.rs])

    Frames wait in the deques of their streams.  A stream with a frame to send is in
    [pending_send], one that needs connection capacity in [pending_capacity], one
    above the peer's concurrency limit in [pending_open].  Capacity of the connection
    window is handed to streams, and a DATA frame is cut to what its stream holds.

    The second part is the send half on top of it. *)

From Stdlib Require Import String.
From S2P Require Import Prelude Bytes H2Types FlowControl StreamState Slab HttpTypes Frames HeadersFrame FramedRead.
From S2P Require Import H2Buffer H2Store H2World.

(** [http/h2/proto/streams/prioritize.rs] Prioritized *)
Record Prioritized (T : Type) := MkPrioritized {
  pz_inner : Take T;
  pz_end_of_stream : bool;
  pz_stream : Key
}.
Arguments MkPrioritized {T}.
Arguments pz_inner {T}.
Arguments pz_end_of_stream {T}.
Arguments pz_stream {T}.

(** [http/h2/proto/streams/prioritize.rs:844-860] Prioritized as Buf *)
#[export] Program Instance Prioritized_Buf `{Buf T} : Buf (Prioritized T) := {|
  src_bytes b := src_bytes (pz_inner b);
  advance b n := MkPrioritized (advance (pz_inner b) n) (pz_end_of_stream b) (pz_stream b)
|}.
Next Obligation. intros T HT b n Hn. by apply advance_bytes. Qed.
Next Obligation. intros T HT [[b l] e k]. cbn -[take_buf]. by rewrite advance_0. Qed.
Next Obligation. intros T HT b n m Hn. cbn -[take_buf]. f_equal. by apply advance_advance. Qed.

(** [http/h2/proto/streams/prioritize.rs] Prioritize::new *)
Definition Prioritize_new {E} (config : Config) : outcome E Prioritize :=
  flow ← expect (FlowControl.inc_window FlowControl.new (remote_init_window_sz config));
  let flow := FlowControl.assign_capacity flow (remote_init_window_sz config) in
  Ok (MkPrioritize Queue.new Queue.new Queue.new flow StreamId.ZERO IFNothing).

Section Prioritize.
Context `{HM : HeaderMapOps} `{TB : Buf T}.
Context {Ss Im Bf Rf : Type} {SS : Slab Stream Ss} {IM : IndexMap StreamId nat Im}.
Context {SB : Slab (Slot (Frame (B:=T))) Bf}.
Abbreviation W := (World Ss Im Bf Rf).

(** [http/h2/proto/streams/prioritize.rs] Prioritize::schedule_send *)
Definition schedule_send {E} (key : Key) : SE W E () :=
  s ← stream key;
  if is_send_ready s then
    _ ← push NextSend pending_send key;
    wake_task
  else mret tt.

(** [http/h2/proto/streams/prioritize.rs] Prioritize::queue_frame *)
Definition queue_frame {E} (frame : Frame (B:=T)) (key : Key) : SE W E () :=
  _ ← on_pending_send key (Deque.push_back frame);
  schedule_send key.

(** [http/h2/proto/streams/prioritize.rs] Prioritize::queue_open *)
Definition queue_open {E} (key : Key) : SE W E () :=
  _ ← push NextOpen pending_open key;
  mret tt.

(** [http/h2/proto/streams/prioritize.rs] Prioritize::try_assign_capacity *)
Definition try_assign_capacity {E} (key : Key) : SE W E () :=
  s ← stream key;
  let total_requested := s_requested_send_capacity s in
  let assigned := Window.as_size (available (s_send_flow s)) in
  let additional := Z.min (as_u32 (total_requested - assigned))
                          (as_u32 (FlowControl.get_window_size (s_send_flow s) - assigned)) in
  if additional =? 0 then mret tt
  else
    conn_available ← gets (fun w => Window.as_size (available (p_flow (w_prio w))));
    _ ← (if 0 <? conn_available then
           let assign := Z.min conn_available additional in
           _ ← on_stream key (assign_capacity assign);
           on_p_flow (fun f => FlowControl.claim_capacity f assign)
         else mret tt);
    s ← stream key;
    _ ← (if window_lt (available (s_send_flow s)) (s_requested_send_capacity s) &&
            FlowControl.has_unavailable (s_send_flow s)
         then _ ← push NextSendCapacity pending_capacity key; mret tt
         else mret tt);
    if (0 <? s_buffered_send_data s) && is_send_ready s
    then _ ← push NextSend pending_send key; mret tt
    else mret tt.

(** The loop of [assign_connection_capacity].  A stream is queued again only when the
    connection has no capacity left, so each round shortens the queue or is the last. *)
Fixpoint assign_loop {E} (fuel : nat) : SE W E () :=
  match fuel with
  | O => panic
  | S fuel =>
      flow ← gets (fun w => p_flow (w_prio w));
      if window_gt (available flow) 0 then
        popped ← pop NextSendCapacity pending_capacity;
        match popped with
        | None => mret tt
        | Some key =>
            s ← stream key;
            if negb (State.is_send_streaming (s_state s) || (0 <? s_buffered_send_data s))
            then assign_loop fuel
            else
              _ ← transition key (try_assign_capacity key);
              assign_loop fuel
        end
      else mret tt
  end.

(** [http/h2/proto/streams/prioritize.rs] Prioritize::assign_connection_capacity *)
Definition assign_connection_capacity {E} (inc : Z) : SE W E () :=
  _ ← on_p_flow (fun f => FlowControl.assign_capacity f inc);
  fuel ← gets streams_fuel;
  assign_loop fuel.

(** [http/h2/proto/streams/prioritize.rs] Prioritize::reserve_capacity *)
Definition reserve_capacity {E} (capacity : Z) (key : Key) : SE W E () :=
  s ← stream key;
  let capacity := as_u32 (capacity + s_buffered_send_data s) in
  if capacity =? s_requested_send_capacity s then mret tt
  else if capacity <? s_requested_send_capacity s then
    _ ← upd key (set_requested_send_capacity capacity);
    let available := Window.as_size (available (s_send_flow s)) in
    if capacity <? available then
      let diff := available - capacity in
      _ ← upd key (fun s => set_send_flow (FlowControl.claim_capacity (s_send_flow s) diff) s);
      assign_connection_capacity diff
    else mret tt
  else if State.is_send_closed (s_state s) then mret tt
  else
    _ ← upd key (set_requested_send_capacity capacity);
    try_assign_capacity key.

(** [http/h2/proto/streams/prioritize.rs] Prioritize::send_data *)
Definition send_data (frame : Data T) (key : Key) : SE W UserError () :=
  let sz := remaining (data_data frame) in
  if MAX_WINDOW_SIZE <? sz then throw PayloadTooBig
  else
    let sz := as_u32 sz in
    s ← stream key;
    if negb (State.is_send_streaming (s_state s)) then
      if State.is_closed (s_state s) then throw InactiveStreamId else throw UnexpectedFrameType
    else
      _ ← upd key (fun s => set_buffered_send_data (as_u32 (s_buffered_send_data s + sz)) s);
      s ← stream key;
      _ ← (if s_requested_send_capacity s <? s_buffered_send_data s then
             _ ← upd key (fun s => set_requested_send_capacity (s_buffered_send_data s) s);
             try_assign_capacity key
           else mret tt);
      _ ← (if Data.is_end_stream frame then
             s ← stream key;
             state ← lift (State.send_close (s_state s));
             _ ← upd key (set_state state);
             reserve_capacity 0 key
           else mret tt);
      s ← stream key;
      if window_gt (available (s_send_flow s)) 0 || (s_buffered_send_data s =? 0)
      then queue_frame (FData frame) key
      else on_pending_send key (Deque.push_back (FData frame)).

(** [http/h2/proto/streams/prioritize.rs] Prioritize::recv_stream_window_update *)
Definition p_recv_stream_window_update (inc : Z) (key : Key) : SE W Reason () :=
  s ← stream key;
  if State.is_send_closed (s_state s) && (s_buffered_send_data s =? 0) then mret tt
  else
    flow ← lift (FlowControl.inc_window (s_send_flow s) inc);
    _ ← upd key (set_send_flow flow);
    try_assign_capacity key.

(** [http/h2/proto/streams/prioritize.rs] Prioritize::recv_connection_window_update *)
Definition p_recv_connection_window_update (inc : Z) : SE W Reason () :=
  flow ← gets (fun w => p_flow (w_prio w));
  flow ← lift (FlowControl.inc_window flow inc);
  _ ← on_p_flow (fun _ => flow);
  assign_connection_capacity inc.

(** [http/h2/proto/streams/prioritize.rs] Prioritize::reclaim_all_capacity *)
Definition reclaim_all_capacity {E} (key : Key) : SE W E () :=
  s ← stream key;
  let available := Window.as_size (available (s_send_flow s)) in
  _ ← upd key (fun s => set_send_flow (FlowControl.claim_capacity (s_send_flow s) available) s);
  assign_connection_capacity available.

(** [http/h2/proto/streams/prioritize.rs] Prioritize::reclaim_reserved_capacity *)
Definition reclaim_reserved_capacity {E} (key : Key) : SE W E () :=
  s ← stream key;
  if s_buffered_send_data s <? s_requested_send_capacity s then
    let reserved := s_requested_send_capacity s - s_buffered_send_data s in
    _ ← upd key (fun s => set_send_flow (FlowControl.claim_capacity (s_send_flow s) reserved) s);
    assign_connection_capacity reserved
  else mret tt.

(** [http/h2/proto/streams/prioritize.rs] Prioritize::clear_pending_capacity *)
Definition clear_pending_capacity {E} : SE W E () :=
  fuel ← gets streams_fuel;
  drain_queue fuel (pop NextSendCapacity pending_capacity) (fun key => transition key (mret tt)).

Definition transition_popped {E} (key : Key) : SE W E () :=
  s ← stream key;
  on_counts (Counts.transition_after key (is_pending_reset_expiration s)).

(** [http/h2/proto/streams/prioritize.rs] Prioritize::clear_pending_send *)
Definition clear_pending_send {E} : SE W E () :=
  fuel ← gets streams_fuel;
  drain_queue fuel (pop NextSend pending_send) transition_popped.

(** [http/h2/proto/streams/prioritize.rs] Prioritize::clear_pending_open *)
Definition clear_pending_open {E} : SE W E () :=
  fuel ← gets streams_fuel;
  drain_queue fuel (pop NextOpen pending_open) transition_popped.

(** [http/h2/proto/streams/prioritize.rs] Prioritize::push_back_frame *)
Definition push_back_frame {E} (frame : Frame (B:=T)) (key : Key) : SE W E () :=
  _ ← on_pending_send key (Deque.push_front frame);
  s ← stream key;
  if window_gt (available (s_send_flow s)) 0
  then _ ← push NextSend pending_send key; mret tt
  else mret tt.

(** [while let Some(frame) = stream.pending_send.pop_front(buffer)] *)
Fixpoint drop_frames {E} (fuel : nat) (key : Key) : SE W E () :=
  match fuel with
  | O => panic
  | S fuel =>
      frame ← on_pending_send key Deque.pop_front;
      match frame with Some _ => drop_frames fuel key | None => mret tt end
  end.

(** [http/h2/proto/streams/prioritize.rs] Prioritize::clear_queue *)
Definition clear_queue {E} (key : Key) : SE W E () :=
  fuel ← gets (fun w => S (Z.to_nat (slab_len (w_send_buffer w))));
  _ ← drop_frames fuel key;
  _ ← upd key (set_buffered_send_data 0);
  _ ← upd key (set_requested_send_capacity 0);
  p ← gets w_prio;
  match p_in_flight_data_frame p with
  | IFDataFrame k =>
      if decide (key = k) then modify (fun w => set_prio (set_p_in_flight IFDrop (w_prio w)) w) else mret tt
  | _ => mret tt
  end.

(** [Frame::map], whose closure runs on the payload of a DATA frame. *)
Definition Frame_map {A B} (f : A -> B) (frame : Frame (B:=A)) : Frame (B:=B) :=
  match frame with
  | FData d => FData (Data.map f d)
  | FHeaders x => FHeaders x
  | FPriority x => FPriority x
  | FPushPromise x => FPushPromise x
  | FSettings x => FSettings x
  | FPing x => FPing x
  | FGoAway x => FGoAway x
  | FWindowUpdate x => FWindowUpdate x
  | FReset x => FReset x
  end.

(** [http/h2/proto/streams/prioritize.rs:672-758] the DATA case of pop_frame; [None]: go on with the next stream *)
Definition pop_data {E} (frame : Data T) (max_len : Z) (key : Key) : SE W E (option (Frame (B:=Prioritized T))) :=
  s ← stream key;
  let stream_capacity := available (s_send_flow s) in
  let sz := remaining (data_data frame) in
  if (0 <? sz) && Window.eq_size stream_capacity 0 then
    _ ← on_pending_send key (Deque.push_front (FData frame));
    mret None
  else
    let len := Z.min sz max_len in
    let len := as_u32 (Z.min len (Window.as_size stream_capacity)) in
    flow ← lift (FlowControl.send_data (s_send_flow s) len);
    _ ← upd key (set_send_flow flow);
    _ ← upd key (fun s => set_buffered_send_data (as_u32 (s_buffered_send_data s - len)) s);
    _ ← upd key (fun s => set_requested_send_capacity (as_u32 (s_requested_send_capacity s - len)) s);
    _ ← on_p_flow (fun f => FlowControl.assign_capacity f len);
    flow ← gets (fun w => p_flow (w_prio w));
    flow ← lift (FlowControl.send_data flow len);
    _ ← on_p_flow (fun _ => flow);
    let eos := Data.is_end_stream frame in
    let frame := if len <? remaining (data_data frame) then Data.set_end_stream frame false else frame in
    mret (Some (FData (Data.map (fun buf => MkPrioritized (MkTake buf len) eos key) frame))).

(** [http/h2/proto/streams/prioritize.rs:759-774] the PUSH_PROMISE case of pop_frame *)
Definition pop_push_promise {E} (pp : PushPromise) : SE W E (option (Frame (B:=Prioritized T))) :=
  pushed ← gets (fun w => find_mut (pp_promised_id pp) (w_store w));
  pushed ← lift (unwrap pushed);
  _ ← upd pushed (set_is_pending_push false);
  s ← stream pushed;
  _ ← (if negb (Deque.is_empty (s_pending_send s)) then
         counts ← gets w_counts;
         if Counts.can_inc_num_send_streams counts then
           _ ← on_counts (Counts.inc_num_send_streams pushed);
           _ ← push NextSend pending_send pushed;
           mret tt
         else queue_open pushed
       else mret tt);
  mret (Some (FPushPromise pp)).

(** [http/h2/proto/streams/prioritize.rs:781-799] the case of pop_frame without a queued frame *)
Definition pop_reset {E} (key : Key) (is_pending_reset : bool) : SE W E (option (Frame (B:=Prioritized T))) :=
  s ← stream key;
  match State.get_scheduled_reset (s_state s) with
  | Some reason =>
      _ ← upd key (set_state (State.set_reset (s_state s) reason));
      mret (Some (FReset (Reset.new (s_id s) reason)))
  | None =>
      _ ← on_counts (Counts.transition_after key is_pending_reset);
      mret None
  end.

(** [http/h2/proto/streams/prioritize.rs] Prioritize::pop_frame

    A stream that is skipped is not queued again, so there are at most as many rounds
    as streams.  The identifier [last_opened_id] is only kept in debug builds. *)
Fixpoint pop_frame_loop {E} (fuel : nat) (max_len : Z) : SE W E (option (Frame (B:=Prioritized T))) :=
  match fuel with
  | O => panic
  | S fuel =>
      popped ← pop NextSend pending_send;
      match popped with
      | None => mret None
      | Some key =>
          s ← stream key;
          let is_pending_reset := is_pending_reset_expiration s in
          queued ← on_pending_send key Deque.pop_front;
          frame ← match queued with
                  | Some (FData frame) => pop_data frame max_len key
                  | Some (FPushPromise pp) => pop_push_promise pp
                  | Some (FHeaders f) => mret (Some (FHeaders f))
                  | Some (FPriority f) => mret (Some (FPriority f))
                  | Some (FSettings f) => mret (Some (FSettings f))
                  | Some (FPing f) => mret (Some (FPing f))
                  | Some (FGoAway f) => mret (Some (FGoAway f))
                  | Some (FWindowUpdate f) => mret (Some (FWindowUpdate f))
                  | Some (FReset f) => mret (Some (FReset f))
                  | None => pop_reset key is_pending_reset
                  end;
          match frame with
          | None => pop_frame_loop fuel max_len
          | Some frame =>
              s ← stream key;
              _ ← (if negb (Deque.is_empty (s_pending_send s)) || State.is_scheduled_reset (s_state s)
                   then _ ← push NextSend pending_send key; mret tt
                   else mret tt);
              _ ← on_counts (Counts.transition_after key is_pending_reset);
              mret (Some frame)
          end
      end
  end.

Definition pop_frame {E} (max_len : Z) : SE W E (option (Frame (B:=Prioritized T))) :=
  fuel ← gets streams_fuel;
  pop_frame_loop fuel max_len.

Fixpoint open_loop {E} (fuel : nat) : SE W E () :=
  match fuel with
  | O => panic
  | S fuel =>
      counts ← gets w_counts;
      if Counts.can_inc_num_send_streams counts then
        popped ← pop NextOpen pending_open;
        match popped with
        | Some key =>
            _ ← on_counts (Counts.inc_num_send_streams key);
            _ ← push NextSend pending_send key;
            _ ← on_stream key notify_send;
            open_loop fuel
        | None => mret tt
        end
      else mret tt
  end.

(** [http/h2/proto/streams/prioritize.rs] Prioritize::schedule_pending_open *)
Definition schedule_pending_open {E} : SE W E () :=
  fuel ← gets streams_fuel;
  open_loop fuel.

End Prioritize.

(** * The send half ([http/h2/proto/streams/send.rs])

    State transitions for outgoing frames, the peer's window updates and its
    SETTINGS, on top of the scheduling above. *)

(** [http/h2/proto/streams/send.rs] Send::new *)
Definition Send_new {E} (config : Config) : outcome E Send :=
  prioritize ← Prioritize_new config;
  Ok (MkSend (Ok (local_next_stream_id config)) (remote_init_window_sz config) prioritize).

Definition id_lt (a b : StreamId) : bool := stream_id_u32 a <? stream_id_u32 b.
Definition id_le (a b : StreamId) : bool := stream_id_u32 a <=? stream_id_u32 b.

(** [http/h2/proto/streams/send.rs] Send::ensure_next_stream_id *)
Definition ensure_next_stream_id (s : Send) : outcome UserError StreamId :=
  map_err (fun _ => OverflowedStreamId) (sd_next_stream_id s).

(** [http/h2/proto/streams/send.rs] Send::ensure_not_idle *)
Definition send_ensure_not_idle (id : StreamId) (s : Send) : outcome Reason () :=
  match sd_next_stream_id s with
  | Ok next => if id_le next id then Err PROTOCOL_ERROR else Ok tt
  | _ => Ok tt
  end.

(** [http/h2/proto/streams/send.rs] Send::may_have_created_stream *)
Definition send_may_have_created_stream (id : StreamId) (s : Send) : bool :=
  match sd_next_stream_id s with Ok next_id => id_lt id next_id | _ => true end.

Section Send.
Context `{HM : HeaderMapOps} `{TB : Buf T}.
Context {Ss Im Bf Rf : Type} {SS : Slab Stream Ss} {IM : IndexMap StreamId nat Im}.
Context {SB : Slab (Slot (Frame (B:=T))) Bf}.
Abbreviation W := (World Ss Im Bf Rf).

(** [http/h2/proto/streams/send.rs] Send::open *)
Definition send_open : SE W UserError StreamId :=
  s ← gets w_send;
  stream_id ← lift (ensure_next_stream_id s);
  _ ← modify (fun w => set_send (set_sd_next_stream_id (StreamId.next_id stream_id) (w_send w)) w);
  mret stream_id.

(** [http/h2/proto/streams/send.rs] Send::reserve_local *)
Definition send_reserve_local : SE W UserError StreamId :=
  s ← gets w_send;
  stream_id ← lift (ensure_next_stream_id s);
  _ ← modify (fun w => set_send (set_sd_next_stream_id (StreamId.next_id stream_id) (w_send w)) w);
  mret stream_id.

(** [http/h2/proto/streams/send.rs] Send::check_headers *)
Definition check_headers (fields : HeaderMap) : outcome UserError () :=
  if existsb (fun e => connection_level e.1) (hm_iter fields) then Err MalformedHeaders
  else
    match hm_get fields (std_name TE) with
    | Some te => if bool_decide (value_as_ref te = bytes_of_string "trailers") then Ok tt else Err MalformedHeaders
    | None => Ok tt
    end.

(** [http/h2/proto/streams/send.rs] Send::send_push_promise *)
Definition s_send_push_promise (frame : PushPromise) (key : Key) : SE W UserError () :=
  _ ← lift (check_headers (hb_fields (pp_header_block frame)));
  queue_frame (FPushPromise frame) key.

(** [http/h2/proto/streams/send.rs] Send::send_headers *)
Definition send_headers (frame : Headers) (key : Key) : SE W UserError () :=
  _ ← lift (check_headers (hb_fields (h_header_block frame)));
  if has_too_big_field (h_header_block frame) then throw HeaderTooBig
  else
    let end_stream := HeadersFlag.is_end_stream (h_flags frame) in
    s ← stream key;
    state ← lift (State.send_open (s_state s) end_stream);
    _ ← upd key (set_state state);
    counts ← gets w_counts;
    local ← lift (Dyn.is_local_init (ct_peer counts) (h_stream_id frame));
    _ ← (if (local : bool) then
           if negb (s_is_pending_push s) then
             if Counts.can_inc_num_send_streams counts then on_counts (Counts.inc_num_send_streams key)
             else queue_open key
           else mret tt
         else mret tt);
    queue_frame (FHeaders frame) key.

(** [http/h2/proto/streams/send.rs] Send::send_reset *)
Definition s_send_reset {E} (reason : Reason) (key : Key) : SE W E () :=
  s ← stream key;
  let is_reset := State.is_reset (s_state s) in
  let is_closed := State.is_closed (s_state s) in
  let is_empty := Deque.is_empty (s_pending_send s) in
  if is_reset then mret tt
  else
    _ ← upd key (set_state (State.set_reset (s_state s) reason));
    if is_closed && is_empty then mret tt
    else
      _ ← clear_queue key;
      _ ← queue_frame (FReset (Reset.new (s_id s) reason)) key;
      reclaim_all_capacity key.

(** [http/h2/proto/streams/send.rs] Send::schedule_implicit_reset *)
Definition schedule_implicit_reset {E} (key : Key) (reason : Reason) : SE W E () :=
  s ← stream key;
  if State.is_closed (s_state s) then mret tt
  else
    _ ← upd key (set_state (State.set_scheduled_reset (s_state s) reason));
    _ ← reclaim_reserved_capacity key;
    schedule_send key.

(** [http/h2/proto/streams/send.rs] Send::send_trailers *)
Definition s_send_trailers (frame : Headers) (key : Key) : SE W UserError () :=
  s ← stream key;
  if negb (State.is_send_streaming (s_state s)) then throw UnexpectedFrameType
  else if has_too_big_field (h_header_block frame) then throw HeaderTooBig
  else
    state ← lift (State.send_close (s_state s));
    _ ← upd key (set_state state);
    _ ← queue_frame (FHeaders frame) key;
    reserve_capacity 0 key.

(** [http/h2/proto/streams/send.rs] Send::capacity *)
Definition s_capacity (s : Stream) : Z :=
  let available := Window.as_size (available (s_send_flow s)) in
  let buffered := s_buffered_send_data s in
  if available <=? buffered then 0 else available - buffered.

(** [http/h2/proto/streams/send.rs] Send::poll_capacity *)
Definition s_poll_capacity {E} (cx : Waker) (key : Key) : SE W E (Async (option Z)) :=
  s ← stream key;
  if negb (State.is_send_streaming (s_state s)) then mret (Ready None)
  else if negb (s_send_capacity_inc s) then
    _ ← on_stream key (wait_send cx);
    mret Pending
  else
    _ ← upd key (set_send_capacity_inc false);
    s ← stream key;
    mret (Ready (Some (s_capacity s))).

(** [http/h2/proto/streams/send.rs] Send::poll_reset *)
Definition s_poll_reset (cx : Waker) (key : Key) (mode : PollReset) : SE W H2Error (Async Reason) :=
  s ← stream key;
  reason ← lift (State.ensure_reason (s_state s) mode);
  match reason with
  | Some reason => mret (Ready reason)
  | None => _ ← on_stream key (wait_send cx); mret Pending
  end.

(** [http/h2/proto/streams/send.rs] Send::recv_stream_window_update *)
Definition s_recv_stream_window_update (sz : Z) (key : Key) : SE W Reason () :=
  r ← attempt (p_recv_stream_window_update sz key);
  match r with
  | inl e => _ ← s_send_reset FLOW_CONTROL_ERROR key; throw e
  | inr _ => mret tt
  end.

(** [http/h2/proto/streams/send.rs] Send::recv_err *)
Definition s_recv_err {E} (key : Key) : SE W E () :=
  _ ← clear_queue key;
  reclaim_all_capacity key.

(** [http/h2/proto/streams/send.rs:419-455] the closure of apply_remote_settings that lowers a window *)
Definition lower_window {E} (dec : Z) (s : Stream) : outcome E (Stream * Z) :=
  let flow := FlowControl.dec_send_window (s_send_flow s) dec in
  let window_size := FlowControl.get_window_size flow in
  let available := Window.as_size (available flow) in
  if window_size <? available then
    let reclaim := available - window_size in
    Ok (set_send_flow (FlowControl.claim_capacity flow reclaim) s, reclaim)
  else Ok (set_send_flow flow s, 0).

(** A world with the captured counter [total_reclaimed] of the closure. *)
Definition in_world {E A} (c : SE W E A) : SE (W * Z) E A := zoom fst (fun w t => (w, t.2)) c.

Definition lower_windows {E} (dec : Z) : SE W E Z := fun w =>
  let '((w, total_reclaimed), r) :=
    for_each (fun t : W * Z => w_store t.1) (fun key =>
      s ← in_world (stream key);
      '(s, reclaim) ← lift (lower_window dec s);
      _ ← in_world (upd key (fun _ => s));
      modify (fun t => (t.1, as_u32 (t.2 + reclaim)))) (w, 0) in
  (w, (fun _ => total_reclaimed) <$> r).

(** [http/h2/proto/streams/send.rs] Send::apply_remote_settings *)
Definition s_apply_remote_settings (settings : Settings) : SE W RecvError () :=
  match initial_window_size settings with
  | None => mret tt
  | Some val =>
      old_val ← gets (fun w => sd_init_window_sz (w_send w));
      _ ← modify (fun w => set_send (set_sd_init_window_sz val (w_send w)) w);
      if val <? old_val then
        let dec := old_val - val in
        total_reclaimed ← lower_windows dec;
        assign_connection_capacity total_reclaimed
      else if old_val <? val then
        let inc := val - old_val in
        for_each w_store (fun key =>
          r ← attempt (s_recv_stream_window_update inc key);
          match r with inl e => throw (RecvConnection e) | inr _ => mret tt end)
      else mret tt
  end.

(** [http/h2/proto/streams/send.rs] Send::clear_queues *)
Definition s_clear_queues {E} : SE W E () :=
  _ ← clear_pending_capacity;
  _ ← clear_pending_send;
  clear_pending_open.

End Send.
