(* ===== verification/H2Recv.v ===== *)
(** * The receive half ([http/h2/proto/streams/recv.rs])

    State transitions for incoming frames, the events waiting to be read, and the
    accounting of the connection and stream receive windows: received data is in
    flight until the user releases it, and released capacity is offered back to the
    peer by WINDOW_UPDATE frames (in [H2Poll.v]). *)

From Stdlib Require Import String.
From S2P Require Import Prelude Bytes H2Types FlowControl StreamState Slab HttpTypes HpackTable Frames HeadersFrame FramedRead.
From S2P Require Import H2Buffer H2Store H2World H2Send.

(** [http/h2/proto/streams/recv.rs] Recv::new *)
Definition Recv_new {E} {Rf Ev : Type} {RB : Slab (Slot Ev) Rf} (peer : Dyn) (config : Config) : outcome E (Recv Rf) :=
  let next_stream_id := if Dyn.is_server peer then 1 else 2 in
  flow ← expect (FlowControl.inc_window FlowControl.new DEFAULT_INITIAL_WINDOW_SIZE);
  let flow := FlowControl.assign_capacity flow DEFAULT_INITIAL_WINDOW_SIZE in
  Ok (MkRecv (local_init_window_sz config) flow 0 (Ok (MkStreamId next_stream_id)) StreamId.ZERO StreamId.MAX
        Queue.new Queue.new Queue.new (local_reset_duration config) slab_new None (local_push_enabled config)).

(** [http/h2/proto/streams/recv.rs] RecvHeaderBlockError *)
Inductive RecvHeaderBlockError (T : Type) := Oversize (t : T) | StateErr (e : RecvError).
Arguments Oversize {T}.
Arguments StateErr {T}.

(** [http/h2/proto/streams/recv.rs] Recv::next_stream_id *)
Definition recv_next_stream_id {Rf} (r : Recv Rf) : outcome RecvError StreamId :=
  match rv_next_stream_id r with Ok id => Ok id | _ => Err (RecvConnection PROTOCOL_ERROR) end.

(** [http/h2/proto/streams/recv.rs] Recv::ensure_not_idle *)
Definition recv_ensure_not_idle {Rf} (id : StreamId) (r : Recv Rf) : outcome Reason () :=
  match rv_next_stream_id r with
  | Ok next => if id_le next id then Err PROTOCOL_ERROR else Ok tt
  | _ => Ok tt
  end.

(** [http/h2/proto/streams/recv.rs] Recv::may_have_created_stream *)
Definition recv_may_have_created_stream {Rf} (id : StreamId) (r : Recv Rf) : bool :=
  match rv_next_stream_id r with Ok next_id => id_lt id next_id | _ => true end.

(** [http/h2/proto/streams/recv.rs] Recv::ensure_can_reserve *)
Definition ensure_can_reserve {Rf} (r : Recv Rf) : outcome RecvError () :=
  if negb (rv_is_push_enabled r) then Err (RecvConnection PROTOCOL_ERROR) else Ok tt.

Section Recv.
Context `{HM : HeaderMapOps} {HI : HeaderMapIntoIter (HM:=HM)} {NH : NameHasher (HT:=HT)} {UO : UriOps}.
Context `{BM : BytesMut B}.

(** [http/h2/proto/streams/recv.rs] Event *)
Inductive Event :=
  | EvHeaders (m : PollMessage)
  | EvData (payload : B)
  | EvTrailers (trailers : HeaderMap).

Context {Ss Im Bf Rf : Type} {SS : Slab Stream Ss} {IM : IndexMap StreamId nat Im} {RB : Slab (Slot Event) Rf}.
Abbreviation W := (World Ss Im Bf Rf).

Definition on_recv {E} (f : Recv Rf -> Recv Rf) : SE W E () := modify (fun w => set_recv (f (w_recv w)) w).

(** [http/h2/proto/streams/recv.rs] Recv::open *)
Definition recv_open (id : StreamId) (mode : Open) : SE W RecvError (option StreamId) :=
  w ← get;
  _ ← lift (assert_ (bool_decide (rv_refused (w_recv w) = None)));
  _ ← lift (ensure_can_open (ct_peer (w_counts w)) id mode);
  next_id ← lift (recv_next_stream_id (w_recv w));
  if id_lt id next_id then throw (RecvConnection PROTOCOL_ERROR)
  else
    _ ← on_recv (set_rv_next_stream_id (StreamId.next_id id));
    if negb (Counts.can_inc_num_recv_streams (w_counts w)) then
      _ ← on_recv (set_rv_refused (Some id));
      mret None
    else mret (Some id).

(** [http/h2/proto/streams/recv.rs:176-195] the content-length of a message *)
Definition recv_content_length (fields : HeaderMap) (key : Key) :
    SE W (RecvHeaderBlockError (option Headers)) () :=
  s ← stream key;
  if negb (is_head (s_content_length s)) then
    match hm_get fields (std_name CONTENT_LENGTH) with
    | Some content_length =>
        match parse_u64 (value_as_ref content_length) with
        | Ok v => upd key (set_content_length (CLRemaining v))
        | _ => throw (StateErr (RecvStream (s_id s) PROTOCOL_ERROR))
        end
    | None => mret tt
    end
  else mret tt.

(** [http/h2/proto/streams/recv.rs] Recv::recv_headers *)
Definition r_recv_headers (frame : Headers) (key : Key) : SE W (RecvHeaderBlockError (option Headers)) () :=
  s ← stream key;
  '(state, is_initial) ←
    lift (map_err StateErr (State.recv_open (s_state s) (HeadersFlag.is_end_stream (h_flags frame))));
  _ ← upd key (set_state state);
  _ ← (if (is_initial : bool) then
         r ← gets w_recv;
         _ ← (if id_lt (rv_last_processed_id r) (h_stream_id frame)
              then on_recv (set_rv_last_processed_id (h_stream_id frame)) else mret tt);
         on_counts (Counts.inc_num_recv_streams key)
       else mret tt);
  _ ← recv_content_length (hb_fields (h_header_block frame)) key;
  counts ← gets w_counts;
  let is_server := Dyn.is_server (ct_peer counts) in
  if hb_is_over_size (h_header_block frame) then
    if is_server && is_initial then
      let res := Headers_new (s_id s) (Pseudo_response (std_status REQUEST_HEADER_FIELDS_TOO_LARGE)) hm_new in
      throw (Oversize (Some (Headers_set_end_stream res)))
    else throw (Oversize None)
  else
    let stream_id := h_stream_id frame in
    let '(pseudo, fields) := (hb_pseudo (h_header_block frame), hb_fields (h_header_block frame)) in
    message ← lift (map_err StateErr (convert_poll_message (ct_peer counts) pseudo fields stream_id));
    _ ← on_pending_recv key (Deque.push_back (EvHeaders message));
    _ ← on_stream key notify_recv;
    if is_server then _ ← push NextAccept pending_accept key; mret tt else mret tt.

(** [http/h2/proto/streams/recv.rs] Recv::take_request *)
Definition r_take_request {E} (key : Key) : SE W E Request :=
  ev ← on_pending_recv key Deque.pop_front;
  match ev with
  | Some (EvHeaders (PMServer request)) => mret request
  | _ => panic
  end.

(** [http/h2/proto/streams/recv.rs] Recv::poll_pushed *)
Definition r_poll_pushed (cx : Waker) (key : Key) : SE W ProtoError (Async (option (Request * Key))) :=
  s ← stream key;
  let ppp := s_pending_push_promises s in
  _ ← upd key (set_pending_push_promises Queue.new);
  w ← get;
  '(ppp, popped) ← on_store (fun st =>
    match Queue.pop NextAccept (w_now w) (ppp, st) with
    | ((ppp, st), Ok popped) => (st, Ok (ppp, popped))
    | ((_, st), Err e) => (st, Err e)
    | ((_, st), Panic) => (st, Panic)
    end);
  pushed ← match popped with
           | Some pushed =>
               ev ← on_pending_recv pushed Deque.pop_front;
               match ev with
               | Some (EvHeaders (PMServer headers)) => mret (Some (headers, pushed))
               | _ => panic
               end
           | None => mret None
           end;
  _ ← upd key (set_pending_push_promises ppp);
  match pushed with
  | Some p => mret (Ready (Some p))
  | None =>
      s ← stream key;
      is_open ← lift (State.ensure_recv_open (s_state s));
      if (is_open : bool) then
        _ ← upd key (set_recv_task (Some cx));
        mret Pending
      else mret (Ready None)
  end.

(** [http/h2/proto/streams/recv.rs] Recv::poll_response *)
Definition r_poll_response (cx : Waker) (key : Key) : SE W ProtoError (Async Response) :=
  ev ← on_pending_recv key Deque.pop_front;
  match ev with
  | Some (EvHeaders (PMClient response)) => mret (Ready response)
  | Some _ => panic
  | None =>
      s ← stream key;
      _ ← lift (State.ensure_recv_open (s_state s));
      _ ← upd key (set_recv_task (Some cx));
      mret Pending
  end.

(** [http/h2/proto/streams/recv.rs] Recv::recv_trailers *)
Definition recv_trailers (frame : Headers) (key : Key) : SE W RecvError () :=
  s ← stream key;
  state ← lift (State.recv_close (s_state s));
  _ ← upd key (set_state state);
  match ensure_content_length_zero s with
  | Ok _ =>
      _ ← on_pending_recv key (Deque.push_back (EvTrailers (hb_fields (h_header_block frame))));
      on_stream key notify_recv
  | _ => throw (RecvStream (s_id s) PROTOCOL_ERROR)
  end.

(** [http/h2/proto/streams/recv.rs] Recv::release_connection_capacity

    [task]: whether the caller passes the connection's task or [None]. *)
Definition release_connection_capacity {E} (capacity : Z) (task : bool) : SE W E () :=
  _ ← on_recv (fun r => set_rv_in_flight_data (as_u32 (rv_in_flight_data r - capacity)) r);
  _ ← on_rv_flow (fun f => FlowControl.assign_capacity f capacity);
  r ← gets w_recv;
  match FlowControl.unclaimed_capacity (rv_flow r) with
  | Some _ => if task then wake_task else mret tt
  | None => mret tt
  end.

(** [http/h2/proto/streams/recv.rs] Recv::release_capacity *)
Definition r_release_capacity (capacity : Z) (key : Key) : SE W UserError () :=
  s ← stream key;
  if s_in_flight_recv_data s <? capacity then throw ReleaseCapacityTooBig
  else
    _ ← release_connection_capacity capacity true;
    _ ← upd key (fun s => set_in_flight_recv_data (s_in_flight_recv_data s - capacity) s);
    _ ← upd key (fun s => set_recv_flow (FlowControl.assign_capacity (s_recv_flow s) capacity) s);
    s ← stream key;
    match FlowControl.unclaimed_capacity (s_recv_flow s) with
    | Some _ =>
        _ ← push NextWindowUpdate pending_window_updates key;
        wake_task
    | None => mret tt
    end.

(** The rounds of [clear_recv_buffer]. *)
Fixpoint drop_events {E} (fuel : nat) (key : Key) : SE W E () :=
  match fuel with
  | O => panic
  | S fuel =>
      ev ← on_pending_recv key Deque.pop_front;
      match ev with Some _ => drop_events fuel key | None => mret tt end
  end.

(** [http/h2/proto/streams/recv.rs] Recv::clear_recv_buffer *)
Definition r_clear_recv_buffer {E} (key : Key) : SE W E () :=
  fuel ← gets (fun w => S (Z.to_nat (slab_len (rv_buffer (w_recv w)))));
  drop_events fuel key.

(** [http/h2/proto/streams/recv.rs] Recv::release_closed_capacity *)
Definition release_closed_capacity {E} (key : Key) : SE W E () :=
  s ← stream key;
  if s_in_flight_recv_data s =? 0 then mret tt
  else
    _ ← release_connection_capacity (s_in_flight_recv_data s) true;
    _ ← upd key (set_in_flight_recv_data 0);
    r_clear_recv_buffer key.

(** [http/h2/proto/streams/recv.rs] Recv::set_target_connection_window *)
Definition set_target_connection_window {E} (target : Z) : SE W E () :=
  r ← gets w_recv;
  current ← lift (Window.checked_size (Window.add (available (rv_flow r)) (rv_in_flight_data r)));
  _ ← (if current <? target then on_rv_flow (fun f => FlowControl.assign_capacity f (target - current))
       else on_rv_flow (fun f => FlowControl.claim_capacity f (current - target)));
  r ← gets w_recv;
  match FlowControl.unclaimed_capacity (rv_flow r) with
  | Some _ => wake_task
  | None => mret tt
  end.

(** [http/h2/proto/streams/recv.rs] Recv::apply_local_settings *)
Definition r_apply_local_settings (settings : Settings) : SE W RecvError () :=
  match initial_window_size settings with
  | None => mret tt
  | Some target =>
      old_sz ← gets (fun w => rv_init_window_sz (w_recv w));
      _ ← on_recv (set_rv_init_window_sz target);
      if target <? old_sz then
        let dec := old_sz - target in
        for_each w_store (fun key =>
          upd key (fun s => set_recv_flow (FlowControl.dec_recv_window (s_recv_flow s) dec) s))
      else if old_sz <? target then
        let inc := target - old_sz in
        for_each w_store (fun key =>
          s ← stream key;
          flow ← lift (map_err RecvConnection (FlowControl.inc_window (s_recv_flow s) inc));
          _ ← upd key (set_recv_flow flow);
          upd key (fun s => set_recv_flow (FlowControl.assign_capacity (s_recv_flow s) inc) s))
      else mret tt
  end.

(** [http/h2/proto/streams/recv.rs] Recv::is_end_stream *)
Definition r_is_end_stream (s : Stream) : bool :=
  if negb (State.is_recv_closed (s_state s)) then false else Deque.is_empty (s_pending_recv s).

(** [http/h2/proto/streams/recv.rs] Recv::consume_connection_window *)
Definition consume_connection_window (sz : Z) : SE W RecvError () :=
  r ← gets w_recv;
  if FlowControl.get_window_size (rv_flow r) <? sz then throw (RecvConnection FLOW_CONTROL_ERROR)
  else
    flow ← lift (FlowControl.send_data (rv_flow r) sz);
    _ ← on_rv_flow (fun _ => flow);
    on_recv (fun r => set_rv_in_flight_data (as_u32 (rv_in_flight_data r + sz)) r).

(** [http/h2/proto/streams/recv.rs] Recv::ignore_data *)
Definition ignore_data (sz : Z) : SE W RecvError () :=
  _ ← consume_connection_window sz;
  release_connection_capacity sz false.

(** [http/h2/proto/streams/recv.rs] Recv::recv_data *)
Definition r_recv_data (frame : Data B) (key : Key) : SE W RecvError () :=
  let length := len (buf_bytes (data_data frame)) in
  _ ← lift (assert_ (length <=? MAX_WINDOW_SIZE));
  let sz := as_u32 length in
  s ← stream key;
  let is_ignoring_frame := State.is_local_reset (s_state s) in
  if negb is_ignoring_frame && negb (State.is_recv_streaming (s_state s)) then
    throw (RecvConnection PROTOCOL_ERROR)
  else if is_ignoring_frame then ignore_data sz
  else
    _ ← consume_connection_window sz;
    if FlowControl.get_window_size (s_recv_flow s) <? sz then throw (RecvStream (s_id s) FLOW_CONTROL_ERROR)
    else
      r ← attempt (on_stream key (dec_content_length length));
      match r with
      | inl _ => throw (RecvStream (s_id s) PROTOCOL_ERROR)
      | inr _ =>
          _ ← (if Data.is_end_stream frame then
                 s ← stream key;
                 match ensure_content_length_zero s with
                 | Ok _ =>
                     match State.recv_close (s_state s) with
                     | Ok state => upd key (set_state state)
                     | _ => throw (RecvConnection PROTOCOL_ERROR)
                     end
                 | _ => throw (RecvStream (s_id s) PROTOCOL_ERROR)
                 end
               else mret tt);
          flow ← lift (FlowControl.send_data (s_recv_flow s) sz);
          _ ← upd key (set_recv_flow flow);
          _ ← upd key (fun s => set_in_flight_recv_data (as_u32 (s_in_flight_recv_data s + sz)) s);
          _ ← on_pending_recv key (Deque.push_back (EvData (data_data frame)));
          on_stream key notify_recv
      end.

(** [http/h2/proto/streams/recv.rs] Recv::recv_push_promise *)
Definition r_recv_push_promise (frame : PushPromise) (key : Key) : SE W RecvError () :=
  s ← stream key;
  state ← lift (State.reserve_remote (s_state s));
  _ ← upd key (set_state state);
  let promised_id := pp_promised_id frame in
  if hb_is_over_size (pp_header_block frame) then throw (RecvStream promised_id REFUSED_STREAM)
  else
    let '(pseudo, fields) := (hb_pseudo (pp_header_block frame), hb_fields (pp_header_block frame)) in
    req ← lift (server_convert_poll_message pseudo fields promised_id);
    match validate_request (rq_method req) (rq_headers req) with
    | Ok _ =>
        _ ← on_pending_recv key (Deque.push_back (EvHeaders (PMServer req)));
        on_stream key notify_recv
    | _ => throw (RecvStream promised_id PROTOCOL_ERROR)
    end.

(** [http/h2/proto/streams/recv.rs] Recv::recv_reset *)
Definition r_recv_reset {E} (frame : Reset) (key : Key) : SE W E () :=
  _ ← upd key (fun s => set_state (State.recv_reset (s_state s) (reset_error_code frame) (s_is_pending_send s)) s);
  _ ← on_stream key notify_send;
  on_stream key notify_recv.

(** [http/h2/proto/streams/recv.rs] Recv::recv_err *)
Definition r_recv_err {E} (err : ProtoError) (key : Key) : SE W E () :=
  _ ← upd key (fun s => set_state (State.recv_err (s_state s) err) s);
  _ ← on_stream key notify_send;
  on_stream key notify_recv.

(** [http/h2/proto/streams/recv.rs] Recv::go_away *)
Definition r_go_away {E} (last_processed_id : StreamId) : SE W E () :=
  r ← gets w_recv;
  _ ← lift (assert_ (id_le last_processed_id (rv_max_stream_id r)));
  on_recv (set_rv_max_stream_id last_processed_id).

(** [http/h2/proto/streams/recv.rs] Recv::recv_eof *)
Definition r_recv_eof {E} (key : Key) : SE W E () :=
  _ ← upd key (fun s => set_state (State.recv_eof (s_state s)) s);
  _ ← on_stream key notify_send;
  on_stream key notify_recv.

(** [http/h2/proto/streams/recv.rs] Recv::enqueue_reset_expiration *)
Definition enqueue_reset_expiration {E} (key : Key) : SE W E () :=
  s ← stream key;
  if negb (State.is_local_reset (s_state s)) || is_pending_reset_expiration s then mret tt
  else
    counts ← gets w_counts;
    _ ← (if negb (Counts.can_inc_num_reset_streams counts) then
           evicted ← pop NextResetExpire pending_reset_expired;
           match evicted with
           | Some evicted => on_counts (Counts.transition_after evicted true)
           | None => mret tt
           end
         else mret tt);
    counts ← gets w_counts;
    if Counts.can_inc_num_reset_streams counts then
      _ ← on_counts Counts.inc_num_reset_streams;
      _ ← push NextResetExpire pending_reset_expired key;
      mret tt
    else mret tt.

(** [http/h2/proto/streams/recv.rs] Recv::clear_expired_reset_streams *)
Definition r_clear_expired_reset_streams {E} : SE W E () :=
  now ← gets w_now;
  reset_duration ← gets (fun w => rv_reset_duration (w_recv w));
  fuel ← gets streams_fuel;
  drain_queue fuel
    (on_queue pending_reset_expired (Queue.pop_if NextResetExpire now (fun s =>
       reset_at ← unwrap (s_reset_at s);
       Ok (reset_duration <? now - reset_at))))
    (fun key => on_counts (Counts.transition_after key true)).

(** [http/h2/proto/streams/recv.rs] Recv::clear_stream_window_update_queue *)
Definition clear_stream_window_update_queue {E} : SE W E () :=
  fuel ← gets streams_fuel;
  drain_queue fuel (pop NextWindowUpdate pending_window_updates) (fun key => transition key (mret tt)).

(** [http/h2/proto/streams/recv.rs] Recv::clear_all_reset_streams *)
Definition clear_all_reset_streams {E} : SE W E () :=
  fuel ← gets streams_fuel;
  drain_queue fuel (pop NextResetExpire pending_reset_expired)
    (fun key => on_counts (Counts.transition_after key true)).

(** [http/h2/proto/streams/recv.rs] Recv::clear_all_pending_accept *)
Definition clear_all_pending_accept {E} : SE W E () :=
  fuel ← gets streams_fuel;
  drain_queue fuel (pop NextAccept pending_accept)
    (fun key => on_counts (Counts.transition_after key false)).

(** [http/h2/proto/streams/recv.rs] Recv::clear_queues *)
Definition r_clear_queues {E} (clear_pending_accept : bool) : SE W E () :=
  _ ← clear_stream_window_update_queue;
  _ ← clear_all_reset_streams;
  if clear_pending_accept then clear_all_pending_accept else mret tt.

(** [http/h2/proto/streams/recv.rs] Recv::next_incoming *)
Definition r_next_incoming {E} : SE W E (option Key) := pop NextAccept pending_accept.

(** [http/h2/proto/streams/recv.rs] Recv::schedule_recv *)
Definition schedule_recv {A} (cx : Waker) (key : Key) : SE W ProtoError (Async (option A)) :=
  s ← stream key;
  is_open ← lift (State.ensure_recv_open (s_state s));
  if (is_open : bool) then
    _ ← upd key (set_recv_task (Some cx));
    mret Pending
  else mret (Ready None).

(** [http/h2/proto/streams/recv.rs] Recv::poll_data *)
Definition r_poll_data (cx : Waker) (key : Key) : SE W ProtoError (Async (option B)) :=
  ev ← on_pending_recv key Deque.pop_front;
  match ev with
  | Some (EvData payload) => mret (Ready (Some payload))
  | Some event =>
      _ ← on_pending_recv key (Deque.push_front event);
      _ ← on_stream key notify_recv;
      mret (Ready None)
  | None => schedule_recv cx key
  end.

(** [http/h2/proto/streams/recv.rs] Recv::poll_trailers *)
Definition r_poll_trailers (cx : Waker) (key : Key) : SE W ProtoError (Async (option HeaderMap)) :=
  ev ← on_pending_recv key Deque.pop_front;
  match ev with
  | Some (EvTrailers trailers) => mret (Ready (Some trailers))
  | Some event =>
      _ ← on_pending_recv key (Deque.push_front event);
      mret Pending
  | None => schedule_recv cx key
  end.

End Recv.
