(* ===== verification/H2Streams.v ===== *)
(** * The streams of a connection ([http/h2/proto/streams/streams.rs])

    What the connection task does with each received frame, and what the user's
    handles ([StreamRef], [OpaqueStreamRef]) do.  Every operation takes the lock of
    the shared state, so each is one step of the world. *)

From Stdlib Require Import String.
From S2P Require Import Prelude Bytes H2Types FlowControl StreamState Slab HttpTypes HpackTable Frames HeadersFrame FramedRead.
From S2P Require Import H2Buffer H2Store H2World H2Send H2Recv.

Section Streams.
Context `{HM : HeaderMapOps} {HI : HeaderMapIntoIter (HM:=HM)} {NH : NameHasher (HT:=HT)} {UO : UriOps}.
Context `{BM : BytesMut B} `{TB : Buf T}.
Context {Ss Im Bf Rf : Type} {SS : Slab Stream Ss} {IM : IndexMap StreamId nat Im}.
Context {SB : Slab (Slot (Frame (B:=T))) Bf} {RB : Slab (Slot (Event (B:=B))) Rf}.
Abbreviation W := (World Ss Im Bf Rf).
Implicit Types (P : Dyn).

(** [http/h2/proto/streams/streams.rs] Streams::new *)
Definition Streams_new {E} P (config : Config) (now : Z) : outcome E W :=
  recv ← Recv_new P config;
  send ← Send_new config;
  Ok (MkWorld (Counts.new P config) recv send None None Store_new 1 slab_new [] now).

(** ** Actions *)

(** [http/h2/proto/streams/streams.rs] Actions::send_reset *)
Definition actions_send_reset {E} (key : Key) (reason : Reason) : SE W E () :=
  transition key (
    _ ← s_send_reset reason key;
    _ ← enqueue_reset_expiration key;
    on_stream key notify_recv).

(** [http/h2/proto/streams/streams.rs] Actions::reset_on_recv_stream_err *)
Definition reset_on_recv_stream_err (key : Key) (res : RecvError + ()) : SE W RecvError () :=
  match res with
  | inl (RecvStream _ reason) => s_send_reset reason key
  | _ => rethrow res
  end.

(** [http/h2/proto/streams/streams.rs] Actions::ensure_not_idle *)
Definition ensure_not_idle (peer : Dyn) (id : StreamId) : SE W Reason () :=
  local ← lift (Dyn.is_local_init peer id);
  w ← get;
  if (local : bool) then lift (send_ensure_not_idle id (w_send w))
  else lift (recv_ensure_not_idle id (w_recv w)).

(** [http/h2/proto/streams/streams.rs] Actions::ensure_no_conn_error *)
Definition ensure_no_conn_error : SE W ProtoError () :=
  err ← gets w_conn_error;
  match err with Some err => throw err | None => mret tt end.

(** [http/h2/proto/streams/streams.rs] Actions::may_have_forgotten_stream *)
Definition may_have_forgotten_stream {E} P (id : StreamId) : SE W E bool :=
  if StreamId.is_zero id then mret false
  else
    local ← lift (Dyn.is_local_init P id);
    w ← get;
    mret (if (local : bool) then send_may_have_created_stream id (w_send w)
          else recv_may_have_created_stream id (w_recv w)).

(** [http/h2/proto/streams/streams.rs] Actions::clear_queues *)
Definition actions_clear_queues {E} (clear_pending_accept : bool) : SE W E () :=
  _ ← r_clear_queues clear_pending_accept;
  s_clear_queues.

(** [.map_err(RecvError::Connection)?] *)
Definition conn_err {A} (c : SE W Reason A) : SE W RecvError A :=
  r ← attempt c;
  match r with inl e => throw (RecvConnection e) | inr a => mret a end.

(** ** Received frames *)

(** [http/h2/proto/streams/streams.rs] Streams::set_target_connection_window_size *)
Definition set_target_connection_window_size {E} (size : Z) : SE W E () := set_target_connection_window size.

(** [http/h2/proto/streams/streams.rs:146-182] the entry of a HEADERS frame's stream; [None]: refused *)
Definition headers_entry P (id : StreamId) : SE W RecvError (option Key) :=
  found ← gets (fun w => find_mut id (w_store w));
  match found with
  | Some key => mret (Some key)
  | None =>
      _ ← (if negb (Dyn.is_server P) then
             forgotten ← may_have_forgotten_stream P id;
             if (forgotten : bool) then throw (RecvStream id STREAM_CLOSED) else mret tt
           else mret tt);
      opened ← recv_open id OpenHeaders;
      match opened with
      | Some stream_id =>
          w ← get;
          s ← lift (Stream_new stream_id (sd_init_window_sz (w_send w)) (rv_init_window_sz (w_recv w)));
          Some <$> on_store (VacantEntry_insert s)
      | None => mret None
      end
  end.

(** [http/h2/proto/streams/streams.rs:206-231] an initial or final header block *)
Definition recv_header_block (frame : Headers) (key : Key) : SE W RecvError (RecvError + ()) :=
  r ← attempt (r_recv_headers frame key);
  match r with
  | inr _ => mret (inr tt)
  | inl (Oversize (Some resp)) =>
      (* the result is only looked at by a debug assertion *)
      _ ← attempt (send_headers resp key);
      _ ← schedule_implicit_reset key REFUSED_STREAM;
      _ ← enqueue_reset_expiration key;
      mret (inr tt)
  | inl (Oversize None) =>
      s ← stream key;
      mret (inl (RecvStream (s_id s) REFUSED_STREAM))
  | inl (StateErr err) => mret (inl err)
  end.

(** [http/h2/proto/streams/streams.rs] Streams::recv_headers *)
Definition recv_headers P (frame : Headers) : SE W RecvError () :=
  let id := h_stream_id frame in
  r ← gets w_recv;
  if id_lt (rv_max_stream_id r) id then mret tt
  else
    entry ← headers_entry P id;
    match entry with
    | None => mret tt
    | Some key =>
        s ← stream key;
        if State.is_local_reset (s_state s) then mret tt
        else
          transition key (
            s ← stream key;
            if State.is_recv_headers (s_state s) then
              res ← recv_header_block frame key;
              reset_on_recv_stream_err key res
            else if negb (HeadersFlag.is_end_stream (h_flags frame)) then
              throw (RecvStream (s_id s) PROTOCOL_ERROR)
            else
              res ← attempt (recv_trailers frame key);
              reset_on_recv_stream_err key res)
    end.

(** [http/h2/proto/streams/streams.rs] Streams::recv_data *)
Definition recv_data P (frame : Data B) : SE W RecvError () :=
  let id := data_stream_id frame in
  let length := len (buf_bytes (data_data frame)) in
  found ← gets (fun w => find_mut id (w_store w));
  match found with
  | None =>
      r ← gets w_recv;
      if id_lt (rv_max_stream_id r) id then mret tt
      else
        forgotten ← may_have_forgotten_stream P id;
        if (forgotten : bool) then
          _ ← lift (assert_ (length <=? MAX_WINDOW_SIZE));
          _ ← ignore_data (as_u32 length);
          throw (RecvStream id STREAM_CLOSED)
        else throw (RecvConnection PROTOCOL_ERROR)
  | Some key =>
      transition key (
        res ← attempt (r_recv_data frame key);
        _ ← match res with
            | inl (RecvStream _ _) => release_connection_capacity (as_u32 length) false
            | _ => mret tt
            end;
        reset_on_recv_stream_err key res)
  end.

(** [http/h2/proto/streams/streams.rs] Streams::recv_reset *)
Definition recv_reset (frame : Reset) : SE W RecvError () :=
  let id := reset_stream_id frame in
  if StreamId.is_zero id then throw (RecvConnection PROTOCOL_ERROR)
  else
    r ← gets w_recv;
    if id_lt (rv_max_stream_id r) id then mret tt
    else
      found ← gets (fun w => find_mut id (w_store w));
      match found with
      | None =>
          counts ← gets w_counts;
          conn_err (ensure_not_idle (ct_peer counts) id)
      | Some key =>
          transition key (
            _ ← r_recv_reset frame key;
            _ ← s_recv_err key;
            s ← stream key;
            lift (assert_ (State.is_closed (s_state s))))
      end.

(** The closure of [recv_err] and [recv_go_away]. *)
Definition fail_stream {E} (err : ProtoError) (key : Key) : SE W E () :=
  transition key (_ ← r_recv_err err key; s_recv_err key).

(** [http/h2/proto/streams/streams.rs] Streams::recv_err *)
Definition recv_err {E} (err : ProtoError) : SE W E StreamId :=
  last_processed_id ← gets (fun w => rv_last_processed_id (w_recv w));
  _ ← for_each w_store (fail_stream err);
  _ ← modify (set_conn_error (Some err));
  mret last_processed_id.

(** [http/h2/proto/streams/streams.rs] Streams::recv_go_away *)
Definition recv_go_away (frame : GoAway) : SE W RecvError () :=
  let last_stream_id := ga_last_stream_id frame in
  let err := Proto (ga_error_code frame) in
  r ← gets w_recv;
  if id_lt (rv_max_stream_id r) last_stream_id then throw (RecvConnection PROTOCOL_ERROR)
  else
    _ ← r_go_away last_stream_id;
    _ ← for_each w_store (fun key =>
          s ← stream key;
          if id_lt last_stream_id (s_id s) then fail_stream err key else mret tt);
    modify (set_conn_error (Some err)).

(** [http/h2/proto/streams/streams.rs] Streams::recv_window_update *)
Definition recv_window_update (frame : WindowUpdate) : SE W RecvError () :=
  let id := wu_stream_id frame in
  if StreamId.is_zero id then conn_err (p_recv_connection_window_update (wu_size_increment frame))
  else
    found ← gets (fun w => find_mut id (w_store w));
    match found with
    | Some key =>
        _ ← attempt (s_recv_stream_window_update (wu_size_increment frame) key);
        mret tt
    | None =>
        counts ← gets w_counts;
        conn_err (ensure_not_idle (ct_peer counts) id)
    end.

(** [http/h2/proto/error.rs:37-44] RecvError from proto::Error *)
Definition recv_error_of (e : ProtoError) : RecvError :=
  match e with Proto reason => RecvConnection reason | Io e => RecvIo e end.

(** [http/h2/proto/streams/streams.rs] Streams::recv_push_promise *)
Definition recv_push_promise (frame : PushPromise) : SE W RecvError () :=
  let id := pp_stream_id frame in
  let promised_id := pp_promised_id frame in
  found ← gets (fun w => find_mut id (w_store w));
  match found with
  | None => throw (RecvConnection PROTOCOL_ERROR)
  | Some parent_key =>
      r ← gets w_recv;
      if id_lt (rv_max_stream_id r) id then mret tt
      else
        s ← stream parent_key;
        _ ← lift (map_err recv_error_of (State.ensure_recv_open (s_state s)));
        _ ← lift (ensure_can_reserve r);
        opened ← recv_open promised_id OpenPushPromise;
        match opened with
        | None => mret tt
        | Some _ =>
            w ← get;
            child ← lift (Stream_new promised_id (sd_init_window_sz (w_send w)) (rv_init_window_sz (w_recv w)));
            key ← on_store (Store_insert promised_id child);
            child_key ← transition key (
              stream_valid ← attempt (r_recv_push_promise frame key);
              match stream_valid with
              | inr _ => mret (Some key)
              | _ => _ ← reset_on_recv_stream_err key stream_valid; mret None
              end);
            match child_key with
            | Some child =>
                parent ← stream parent_key;
                let ppp := s_pending_push_promises parent in
                _ ← upd parent_key (set_pending_push_promises Queue.new);
                w ← get;
                ppp ← on_store (fun st =>
                  match Queue.push NextAccept (w_now w) child (ppp, st) with
                  | ((ppp, st), Ok _) => (st, Ok ppp)
                  | ((_, st), Err e) => (st, Err e)
                  | ((_, st), Panic) => (st, Panic)
                  end);
                _ ← upd parent_key (set_pending_push_promises ppp);
                on_stream parent_key notify_recv
            | None => mret tt
            end
        end
  end.

(** [http/h2/proto/streams/streams.rs] Streams::apply_remote_settings *)
Definition apply_remote_settings (frame : Settings) : SE W RecvError () :=
  _ ← modify (fun w => set_counts (Counts.apply_remote_settings frame (w_counts w)) w);
  s_apply_remote_settings frame.

(** [http/h2/proto/streams/streams.rs] Streams::apply_local_settings *)
Definition apply_local_settings (frame : Settings) : SE W RecvError () := r_apply_local_settings frame.

(** [http/h2/proto/streams/streams.rs] Streams::clear_expired_reset_streams *)
Definition clear_expired_reset_streams {E} : SE W E () := r_clear_expired_reset_streams.

(** [http/h2/proto/streams/streams.rs] Streams::recv_eof *)
Definition recv_eof {E} (clear_pending_accept : bool) : SE W E () :=
  _ ← modify (fun w => match w_conn_error w with
                       | None => set_conn_error (Some (Io BrokenPipe)) w
                       | Some _ => w
                       end);
  _ ← for_each w_store (fun key => transition key (_ ← r_recv_eof key; s_recv_err key));
  actions_clear_queues clear_pending_accept.

(** [http/h2/proto/streams/streams.rs] Streams::send_go_away *)
Definition send_go_away {E} (last_processed_id : StreamId) : SE W E () := r_go_away last_processed_id.

(** [http/h2/proto/streams/streams.rs] Streams::send_reset *)
Definition send_reset {E} (id : StreamId) (reason : Reason) : SE W E () :=
  found ← gets (fun w => find_mut id (w_store w));
  key ← match found with
        | Some key => mret key
        | None => s ← lift (Stream_new id 0 0); on_store (VacantEntry_insert s)
        end;
  actions_send_reset key reason.

(** ** Handles

    A [StreamRef] or [OpaqueStreamRef] is the key of its stream. *)

(** [http/h2/proto/streams/streams.rs] OpaqueStreamRef::new *)
Definition OpaqueStreamRef_new {E} (key : Key) : SE W E Key := _ ← on_stream key ref_inc; mret key.

Definition add_refs {E} (n : Z) : SE W E () := modify (fun w => set_refs (as_usize (w_refs w + n)) w).

(** [http/h2/proto/streams/streams.rs] Streams::next_incoming *)
Definition next_incoming {E} : SE W E (option Key) :=
  key ← r_next_incoming;
  _ ← add_refs 1;
  match key with
  | Some key => Some <$> OpaqueStreamRef_new key
  | None => mret None
  end.

(** [http/h2/proto/error.rs:46-53] SendError from proto::Error *)
Definition send_error_of (e : ProtoError) : SendError :=
  match e with Proto reason => SendConnection reason | Io e => SendIo e end.
Definition with_err {E E' A} (f : E -> E') (c : SE W E A) : SE W E' A :=
  r ← attempt c;
  match r with inl e => throw (f e) | inr a => mret a end.

(** [http/h2/proto/streams/streams.rs] Streams::send_request *)
Definition send_request (request : Request) (end_of_stream : bool) (pending : option Key) : SE W SendError Key :=
  _ ← with_err send_error_of ensure_no_conn_error;
  w ← get;
  _ ← lift (map_err SendUser (ensure_next_stream_id (w_send w)));
  _ ← match pending with
      | Some key => s ← stream key; if s_is_pending_open s then throw (SendUser Rejected) else mret tt
      | None => mret tt
      end;
  if Dyn.is_server (ct_peer (w_counts w)) then throw (SendUser UnexpectedFrameType)
  else
    stream_id ← with_err SendUser send_open;
    s ← lift (Stream_new stream_id (sd_init_window_sz (w_send w)) (rv_init_window_sz (w_recv w)));
    let s := if bool_decide (method_as_ref (rq_method request) = bytes_of_string "HEAD")
             then set_content_length CLHead s else s in
    headers ← lift (client_convert_send_message stream_id request end_of_stream);
    key ← on_store (Store_insert (s_id s) s);
    sent ← attempt (send_headers headers key);
    match sent with
    | inl err =>
        _ ← on_store (unlink key);
        _ ← on_store (remove key);
        throw (SendUser err)
    | inr _ =>
        _ ← add_refs 1;
        OpaqueStreamRef_new key
    end.

(** [http/h2/proto/streams/streams.rs] Streams::poll_pending_open *)
Definition poll_pending_open (cx : Waker) (pending : option Key) : SE W H2Error (Async ()) :=
  _ ← with_err H2Proto ensure_no_conn_error;
  w ← get;
  _ ← lift (map_err H2User (ensure_next_stream_id (w_send w)));
  match pending with
  | Some pending =>
      s ← stream pending;
      if s_is_pending_open s then _ ← on_stream pending (wait_send cx); mret Pending
      else mret (Ready tt)
  | None => mret (Ready tt)
  end.

(** [http/h2/proto/streams/streams.rs] Streams::has_streams_or_other_references *)
Definition has_streams_or_other_references (w : W) : bool :=
  Counts.has_streams (w_counts w) || (1 <? w_refs w).

(** [http/h2/proto/streams/streams.rs] Streams as Clone::clone *)
Definition Streams_clone {E} : SE W E () := add_refs 1.
(** [http/h2/proto/streams/streams.rs] Streams as Drop::drop *)
Definition Streams_drop {E} : SE W E () := add_refs (-1).

(** [http/h2/proto/streams/streams.rs] StreamRef::send_data *)
Definition ref_send_data (key : Key) (data : T) (end_stream : bool) : SE W UserError () :=
  transition key (
    s ← stream key;
    frame ← lift (Data.new (s_id s) data);
    send_data (Data.set_end_stream frame end_stream) key).

(** [http/h2/proto/streams/streams.rs] StreamRef::send_trailers *)
Definition ref_send_trailers (key : Key) (trailers : HeaderMap) : SE W UserError () :=
  transition key (
    s ← stream key;
    s_send_trailers (Headers_trailers (s_id s) trailers) key).

(** [http/h2/proto/streams/streams.rs] StreamRef::send_reset *)
Definition ref_send_reset {E} (key : Key) (reason : Reason) : SE W E () := actions_send_reset key reason.

(** [http/h2/proto/streams/streams.rs] StreamRef::send_response *)
Definition ref_send_response (key : Key) (response : Response) (end_of_stream : bool) : SE W UserError () :=
  transition key (
    s ← stream key;
    send_headers (server_convert_send_message (s_id s) response end_of_stream) key).

(** [http/h2/proto/streams/streams.rs] StreamRef::send_push_promise *)
Definition ref_send_push_promise (key : Key) (request : Request) : SE W UserError Key :=
  promised_id ← send_reserve_local;
  w ← get;
  child ← lift (Stream_new promised_id (sd_init_window_sz (w_send w)) (rv_init_window_sz (w_recv w)));
  child_key ← on_store (Store_insert promised_id child);
  s ← stream child_key;
  state ← lift (State.reserve_local (s_state s));
  _ ← upd child_key (set_state state);
  _ ← upd child_key (set_is_pending_push true);
  s ← stream key;
  frame ← lift (convert_push_message (s_id s) promised_id request);
  pushed ← attempt (s_send_push_promise frame key);
  match pushed with
  | inl err =>
      _ ← on_store (unlink child_key);
      _ ← on_store (remove child_key);
      throw err
  | inr _ => OpaqueStreamRef_new child_key
  end.

(** [http/h2/proto/streams/streams.rs] StreamRef::take_request *)
Definition ref_take_request {E} (key : Key) : SE W E Request := r_take_request key.
(** [http/h2/proto/streams/streams.rs] StreamRef::is_pending_open *)
Definition ref_is_pending_open {E} (key : Key) : SE W E bool := s ← stream key; mret (s_is_pending_open s).
(** [http/h2/proto/streams/streams.rs] StreamRef::reserve_capacity *)
Definition ref_reserve_capacity {E} (key : Key) (capacity : Z) : SE W E () := reserve_capacity capacity key.
(** [http/h2/proto/streams/streams.rs] StreamRef::capacity *)
Definition ref_capacity {E} (key : Key) : SE W E Z := s ← stream key; mret (s_capacity s).
(** [http/h2/proto/streams/streams.rs] StreamRef::poll_capacity *)
Definition ref_poll_capacity {E} (cx : Waker) (key : Key) : SE W E (Async (option Z)) := s_poll_capacity cx key.
(** [http/h2/proto/streams/streams.rs] StreamRef::poll_reset *)
Definition ref_poll_reset (cx : Waker) (key : Key) (mode : PollReset) : SE W H2Error (Async Reason) :=
  s_poll_reset cx key mode.

(** [http/h2/proto/streams/streams.rs] OpaqueStreamRef::poll_response *)
Definition ref_poll_response (cx : Waker) (key : Key) : SE W ProtoError (Async Response) := r_poll_response cx key.

(** [http/h2/proto/streams/streams.rs] OpaqueStreamRef::poll_pushed *)
Definition ref_poll_pushed (cx : Waker) (key : Key) : SE W ProtoError (Async (option (Request * Key))) :=
  r ← r_poll_pushed cx key;
  match r with
  | Ready (Some (h, key)) =>
      _ ← add_refs 1;
      opaque_ref ← OpaqueStreamRef_new key;
      mret (Ready (Some (h, opaque_ref)))
  | Ready None => mret (Ready None)
  | Pending => mret Pending
  end.

(** [http/h2/proto/streams/streams.rs] OpaqueStreamRef::is_end_stream *)
Definition ref_is_end_stream {E} (key : Key) : SE W E bool := s ← stream key; mret (r_is_end_stream s).
(** [http/h2/proto/streams/streams.rs] OpaqueStreamRef::poll_data *)
Definition ref_poll_data (cx : Waker) (key : Key) : SE W ProtoError (Async (option B)) := r_poll_data cx key.
(** [http/h2/proto/streams/streams.rs] OpaqueStreamRef::poll_trailers *)
Definition ref_poll_trailers (cx : Waker) (key : Key) : SE W ProtoError (Async (option HeaderMap)) :=
  r_poll_trailers cx key.
(** [http/h2/proto/streams/streams.rs] OpaqueStreamRef::available_recv_capacity *)
Definition available_recv_capacity {E} (key : Key) : SE W E Z :=
  s ← stream key; mret (window_i32 (available (s_recv_flow s))).
(** [http/h2/proto/streams/streams.rs] OpaqueStreamRef::used_recv_capacity *)
Definition used_recv_capacity {E} (key : Key) : SE W E Z := s ← stream key; mret (s_in_flight_recv_data s).
(** [http/h2/proto/streams/streams.rs] OpaqueStreamRef::release_capacity *)
Definition ref_release_capacity (key : Key) (capacity : Z) : SE W UserError () := r_release_capacity capacity key.
(** [http/h2/proto/streams/streams.rs] OpaqueStreamRef::clear_recv_buffer *)
Definition ref_clear_recv_buffer {E} (key : Key) : SE W E () := r_clear_recv_buffer key.

(** [http/h2/proto/streams/streams.rs] OpaqueStreamRef as Clone::clone *)
Definition ref_clone {E} (key : Key) : SE W E Key :=
  _ ← on_stream key ref_inc;
  _ ← add_refs 1;
  mret key.

(** [http/h2/proto/streams/streams.rs] maybe_cancel *)
Definition maybe_cancel {E} (key : Key) : SE W E () :=
  s ← stream key;
  if is_canceled_interest s then
    _ ← schedule_implicit_reset key CANCEL;
    enqueue_reset_expiration key
  else mret tt.

(** The loop over the promises of a dropped stream; [ppp] is out of the store. *)
Fixpoint cancel_promises {E} (fuel : nat) (ppp : Queue) : SE W E () :=
  match fuel with
  | O => panic
  | S fuel =>
      w ← get;
      '(ppp, promise) ← on_store (fun st =>
        match Queue.pop NextAccept (w_now w) (ppp, st) with
        | ((ppp, st), Ok popped) => (st, Ok (ppp, popped))
        | ((_, st), Err e) => (st, Err e)
        | ((_, st), Panic) => (st, Panic)
        end);
      match promise with
      | Some promise => _ ← transition promise (maybe_cancel promise); cancel_promises fuel ppp
      | None => mret tt
      end
  end.

(** [http/h2/proto/streams/streams.rs] drop_stream_ref *)
Definition drop_stream_ref {E} (key : Key) : SE W E () :=
  _ ← add_refs (-1);
  _ ← on_stream key ref_dec;
  s ← stream key;
  _ ← (if (s_ref_count s =? 0) && is_closed s then wake_task else mret tt);
  transition key (
    _ ← maybe_cancel key;
    s ← stream key;
    if s_ref_count s =? 0 then
      _ ← release_closed_capacity key;
      s ← stream key;
      let ppp := s_pending_push_promises s in
      _ ← upd key (set_pending_push_promises Queue.new);
      fuel ← gets streams_fuel;
      cancel_promises fuel ppp
    else mret tt).

End Streams.
