(* ===== verification/H2Poll.v ===== *)
(** * Writing the streams' frames to the connection

    The parts of [http/h2/proto/streams/prioritize.rs], [recv.rs] and [streams.rs] that
    use the codec: buffering the frames that are ready, taking back the rest of a DATA
    frame that was only written in part, window updates and refusals.  The codec and
    its socket are those of [H2Codec.v] and [FramedWrite.v]. *)

From S2P Require Import Prelude Bytes H2Types FlowControl StreamState Slab HttpTypes HpackTable Frames HeadersFrame.
From S2P Require Import FramedRead FramedWrite H2Codec.
From S2P Require Import H2Buffer H2Store H2World H2Send H2Recv.

Section Poll.
Context `{HM : HeaderMapOps} {HI : HeaderMapIntoIter (HM:=HM)} {NH : NameHasher (HT:=HT)} {UO : UriOps}.
Context `{BM : BytesMut B} `{TB : Buf T}.
Context {Ss Im Bf Rf : Type} {SS : Slab Stream Ss} {IM : IndexMap StreamId nat Im}.
Context {SB : Slab (Slot (Frame (B:=T))) Bf} {RB : Slab (Slot (Event (B:=B))) Rf}.
Abbreviation W := (World Ss Im Bf Rf).
Abbreviation C := (Codec (B:=B) (T:=Prioritized T)).
(** The error is the socket's. *)
Abbreviation M := (SE (W * (C * Socket)) ()).

Definition on_world {A} (c : SE W () A) : M A := zoom fst (fun w t => (w, t.2)) c.
Definition on_socket {A} (c : SE (C * Socket) () A) : M A := zoom snd (fun s t => (t.1, s)) c.
Definition on_codec {E A} (c : SE C E A) : M A := fun t =>
  match c t.2.1 with
  | (cd, Ok a) => ((t.1, (cd, t.2.2)), Ok a)
  | (cd, _) => ((t.1, (cd, t.2.2)), Panic)
  end.

(** [ready!(c)?; k] *)
Definition ready {A} (c : M (Async ())) (k : M (Async A)) : M (Async A) :=
  x ← c;
  match x with Ready _ => k | Pending => mret Pending end.

(** [codec]: the rounds allowed to the codec's own loops. *)
Definition poll_ready (codec : nat) : M (Async ()) := on_socket (Codec_poll_ready codec).
Definition flush (codec : nat) : M (Async ()) := on_socket (Codec_flush codec).

Definition set_in_flight (f : InFlightData) : M () :=
  on_world (modify (fun w => set_prio (set_p_in_flight f (w_prio w)) w)).

(** [http/h2/proto/streams/prioritize.rs] Prioritize::reclaim_frame *)
Definition reclaim_frame : M bool :=
  taken ← on_codec Codec_take_last_data_frame;
  match taken with
  | Some frame =>
      let key := pz_stream (data_data frame) in
      in_flight ← gets (fun t => p_in_flight_data_frame (w_prio t.1));
      _ ← set_in_flight IFNothing;
      match in_flight with
      | IFNothing => panic
      | IFDrop => mret false
      | IFDataFrame _ =>
          let eos := pz_end_of_stream (data_data frame) in
          let frame := Data.map (fun prioritized => take_inner (pz_inner prioritized)) frame in
          if has_remaining (data_data frame) then
            let frame := if eos then Data.set_end_stream frame true else frame in
            _ ← on_world (push_back_frame (FData frame) key);
            mret true
          else mret false
      end
  | None => mret false
  end.

(** [http/h2/proto/streams/prioritize.rs:490-522] the loop of poll_complete *)
Fixpoint send_frames (fuel codec : nat) (max_frame_len : Z) : M (Async ()) :=
  match fuel with
  | O => panic
  | S fuel =>
      _ ← on_world schedule_pending_open;
      popped ← on_world (pop_frame max_frame_len);
      match popped with
      | Some frame =>
          _ ← match frame with
              | FData d => set_in_flight (IFDataFrame (pz_stream (data_data d)))
              | _ => mret tt
              end;
          _ ← on_codec (Codec_buffer frame);
          ready (poll_ready codec) (
            _ ← reclaim_frame;
            send_frames fuel codec max_frame_len)
      | None =>
          ready (flush codec) (
            reclaimed ← reclaim_frame;
            if (reclaimed : bool) then send_frames fuel codec max_frame_len else mret (Ready tt))
      end
  end.

(** [http/h2/proto/streams/prioritize.rs] Prioritize::poll_complete *)
Definition p_poll_complete (fuel codec : nat) : M (Async ()) :=
  ready (poll_ready codec) (
    _ ← reclaim_frame;
    max_frame_len ← gets (fun t => Codec_max_send_frame_size t.2.1);
    send_frames fuel codec max_frame_len).

(** [http/h2/proto/streams/recv.rs] Recv::send_pending_refusal *)
Definition send_pending_refusal (codec : nat) : M (Async ()) :=
  refused ← gets (fun t => rv_refused (w_recv t.1));
  let done := _ ← on_world (on_recv (set_rv_refused None)); mret (Ready tt) in
  match refused with
  | Some stream_id =>
      ready (poll_ready codec) (
        _ ← on_codec (Codec_buffer (FReset (Reset.new stream_id REFUSED_STREAM)));
        done)
  | None => done
  end.

(** [http/h2/proto/streams/recv.rs] Recv::send_connection_window_update *)
Definition send_connection_window_update (codec : nat) : M (Async ()) :=
  flow ← gets (fun t => rv_flow (w_recv t.1));
  match FlowControl.unclaimed_capacity flow with
  | Some incr =>
      ready (poll_ready codec) (
        _ ← on_codec (Codec_buffer (FWindowUpdate (WindowUpdate.new StreamId.ZERO incr)));
        flow ← lift (expect (FlowControl.inc_window flow incr));
        _ ← on_world (on_rv_flow (fun _ => flow));
        mret (Ready tt))
  | None => mret (Ready tt)
  end.

(** [http/h2/proto/streams/recv.rs:983-1012] the window update of one stream *)
Definition send_stream_window_update (key : Key) : M () :=
  s ← on_world (stream key);
  if negb (State.is_recv_streaming (s_state s)) then mret tt
  else
    match FlowControl.unclaimed_capacity (s_recv_flow s) with
    | Some incr =>
        _ ← on_codec (Codec_buffer (FWindowUpdate (WindowUpdate.new (s_id s) incr)));
        flow ← lift (expect (FlowControl.inc_window (s_recv_flow s) incr));
        on_world (upd key (set_recv_flow flow))
    | None => mret tt
    end.

(** [http/h2/proto/streams/recv.rs] Recv::send_stream_window_updates *)
Fixpoint send_stream_window_updates (fuel codec : nat) : M (Async ()) :=
  match fuel with
  | O => panic
  | S fuel =>
      ready (poll_ready codec) (
        popped ← on_world (pop NextWindowUpdate pending_window_updates);
        match popped with
        | None => mret (Ready tt)
        | Some key =>
            s ← on_world (stream key);
            _ ← send_stream_window_update key;
            _ ← on_world (on_counts (Counts.transition_after key (is_pending_reset_expiration s)));
            send_stream_window_updates fuel codec
        end)
  end.

(** [http/h2/proto/streams/recv.rs] Recv::poll_complete *)
Definition r_poll_complete (codec : nat) : M (Async ()) :=
  ready (send_connection_window_update codec) (
    fuel ← gets (fun t => streams_fuel t.1);
    ready (send_stream_window_updates fuel codec) (mret (Ready tt))).

(** [http/h2/proto/streams/streams.rs] Streams::poll_complete *)
Definition streams_poll_complete (fuel codec : nat) (cx : Waker) : M (Async ()) :=
  ready (r_poll_complete codec) (
    ready (p_poll_complete fuel codec) (
      _ ← on_world (modify (set_task (Some cx)));
      mret (Ready tt))).

End Poll.
