(* ===== verification/H2Control.v ===== *)
(** * The control frames of a connection

    [http/h2/proto/settings.rs], [go_away.rs] and [ping_pong.rs]: the SETTINGS that are
    exchanged and acknowledged, the GOAWAY frames that are sent, and the PINGs of the
    peer, of a graceful shutdown and of the user.

    Each component is a state beside the streams, the codec and the socket.  The
    user's pings share an atomic cell with the user's handle; [H2Pings.v] interleaves
    the two. *)

From S2P Require Import Prelude Bytes H2Types FlowControl StreamState Slab HttpTypes HpackTable Frames HeadersFrame.
From S2P Require Import FramedRead FramedWrite H2Codec.
From S2P Require Import H2Buffer H2Store H2World H2Send H2Recv H2Streams H2Poll.

(** ** The [futures_util] crate's [AtomicWaker]

    [register] remembers a task; [wake] takes the task that was registered last and
    wakes it. *)
Class AtomicWaker (Aw : Type) := {
  aw_new : Aw;
  aw_register : Waker -> Aw -> Aw;
  aw_wake : Aw -> Aw * option Waker;
  aw_wake_new : (aw_wake aw_new).2 = None;
  aw_wake_register k a : (aw_wake (aw_register k a)).2 = Some k;
  aw_wake_wake a : (aw_wake (aw_wake a).1).2 = None
}.

Module ModelWaker.
#[export] Program Instance option_waker : AtomicWaker (option Waker) := {|
  aw_new := None;
  aw_register k _ := Some k;
  aw_wake a := (None, a)
|}.
Next Obligation. done. Qed.
Next Obligation. done. Qed.
Next Obligation. done. Qed.
End ModelWaker.

(** ** States *)

(** [http/h2/proto/settings.rs] Local *)
Inductive Local := ToSend (settings : Settings) | WaitingAck (settings : Settings) | Synced.

(** [http/h2/proto/settings.rs] Settings *)
Record SettingsSync := MkSettingsSync { ss_local : Local; ss_remote : option Settings }.

(** [http/h2/proto/go_away.rs] GoingAway *)
Record GoingAway := MkGoingAway { gw_last_processed_id : StreamId; gw_reason : Reason }.

(** [http/h2/proto/go_away.rs] GoAway *)
Record GoAwaySync := MkGoAwaySync {
  gs_close_now : bool;
  gs_going_away : option GoingAway;
  gs_is_user_initiated : bool;
  gs_pending : option GoAway
}.

(** [http/h2/proto/ping_pong.rs] PendingPing *)
Record PendingPing := MkPendingPing { pg_payload : list Z; pg_sent : bool }.

(** [http/h2/proto/ping_pong.rs] UserPingsInner *)
Record UserPingsInner (Aw : Type) := MkUserPingsInner { up_state : Z; up_ping_task : Aw; up_pong_task : Aw }.
Arguments MkUserPingsInner {Aw}.
Arguments up_state {Aw}.
Arguments up_ping_task {Aw}.
Arguments up_pong_task {Aw}.

(** [http/h2/proto/ping_pong.rs] PingPong *)
Record PingPong (Aw : Type) := MkPingPong {
  pp_pending_ping : option PendingPing;
  pp_pending_pong : option (list Z);
  pp_user_pings : option (UserPingsInner Aw)
}.
Arguments MkPingPong {Aw}.
Arguments pp_pending_ping {Aw}.
Arguments pp_pending_pong {Aw}.
Arguments pp_user_pings {Aw}.

(** [http/h2/proto/ping_pong.rs] ReceivedPing *)
Inductive ReceivedPing := MustAck | Unknown | Shutdown.

(** [http/h2/proto/ping_pong.rs] ReceivedPing::is_shutdown *)
Definition is_shutdown (r : ReceivedPing) : bool := match r with Shutdown => true | _ => false end.

(** [http/h2/proto/ping_pong.rs:48-57] the states of the user's ping *)
Definition USER_STATE_EMPTY : Z := 0.
Definition USER_STATE_PENDING_PING : Z := 1.
Definition USER_STATE_PENDING_PONG : Z := 2.
Definition USER_STATE_RECEIVED_PONG : Z := 3.
Definition USER_STATE_CLOSED : Z := 4.

(** ** The user's pings

    The handle and the connection task share [UserPingsInner]: an atomic state and two
    [AtomicWaker]s, without a lock.  Their functions are programs that access the cell
    one atomic operation at a time, and run code of their own on a state [L] in between;
    here they are run alone, and [H2Pings.v] interleaves them. *)
Inductive Access : Type -> Type :=
  | Load : Access Z
  | Store (new : Z) : Access ()
  | CompareAndSwap (current new : Z) : Access Z (* returns the previous value *)
  | RegisterPing (cx : Waker) : Access ()
  | RegisterPong (cx : Waker) : Access ()
  | WakePing : Access ()
  | WakePong : Access ().

Inductive Prog (L E A : Type) :=
  | Done (r : outcome E A)
  | Do {R : Type} (a : Access R) (k : R -> Prog L E A)
  | Own {R : Type} (c : SE L E R) (k : R -> Prog L E A).
Arguments Done {L E A}.
Arguments Do {L E A R}.
Arguments Own {L E A R}.

#[export] Instance Prog_ret {L E} : MRet (Prog L E) := fun A a => Done (Ok a).
#[export] Instance Prog_bind {L E} : MBind (Prog L E) := fun A R f => fix bind p :=
  match p with
  | Done (Ok a) => f a
  | Done (Err e) => Done (Err e)
  | Done Panic => Done Panic
  | Do a k => Do a (fun r => bind (k r))
  | Own c k => Own c (fun r => bind (k r))
  end.
Definition access {L E R} (a : Access R) : Prog L E R := Do a (fun r => Done (Ok r)).
Definition own_code {L E R} (c : SE L E R) : Prog L E R := Own c (fun r => Done (Ok r)).
Definition fail {L E A} (e : E) : Prog L E A := Done (Err e).

(** [http/h2/proto/ping_pong.rs] broken_pipe *)
Definition broken_pipe : IoErrorKind := BrokenPipe.

(** [http/h2/proto/ping_pong.rs] UserPings::send_ping *)
Definition send_ping {L} : Prog L (option ProtoError) () :=
  prev ← access (CompareAndSwap USER_STATE_EMPTY USER_STATE_PENDING_PING);
  if prev =? USER_STATE_EMPTY then access WakePing
  else if prev =? USER_STATE_CLOSED then fail (Some (Io broken_pipe))
  else fail None.

(** [http/h2/proto/ping_pong.rs] UserPings::poll_pong *)
Definition poll_pong {L} (cx : Waker) : Prog L ProtoError (Async ()) :=
  _ ← access (RegisterPong cx);
  prev ← access (CompareAndSwap USER_STATE_RECEIVED_PONG USER_STATE_EMPTY);
  if prev =? USER_STATE_RECEIVED_PONG then mret (Ready tt)
  else if prev =? USER_STATE_CLOSED then fail (Io broken_pipe)
  else mret Pending.

(** [http/h2/proto/ping_pong.rs] UserPingsRx::receive_pong *)
Definition receive_pong {L E} : Prog L E bool :=
  prev ← access (CompareAndSwap USER_STATE_PENDING_PONG USER_STATE_RECEIVED_PONG);
  if prev =? USER_STATE_PENDING_PONG then _ ← access WakePong; mret true
  else mret false.

(** [http/h2/proto/ping_pong.rs] UserPingsRx as Drop::drop *)
Definition drop_user_pings_rx {L E} : Prog L E () :=
  _ ← access (Store USER_STATE_CLOSED);
  access WakePong.

(** ** Running a program alone *)
Section Run.
Context {Aw : Type} {AW : AtomicWaker Aw}.
Abbreviation Shared := (UserPingsInner Aw * list Waker)%type.

Definition set_state (v : Z) (u : Shared) : Shared := (MkUserPingsInner v (up_ping_task u.1) (up_pong_task u.1), u.2).
Definition set_ping_task (a : Aw) (u : Shared) : Shared := (MkUserPingsInner (up_state u.1) a (up_pong_task u.1), u.2).
Definition set_pong_task (a : Aw) (u : Shared) : Shared := (MkUserPingsInner (up_state u.1) (up_ping_task u.1) a, u.2).
Definition log (w : option Waker) (u : Shared) : Shared := match w with Some w => (u.1, u.2 ++ [w]) | None => u end.

Definition perform {R} (a : Access R) (u : Shared) : Shared * R :=
  match a in Access R return Shared * R with
  | Load => (u, up_state u.1)
  | Store v => (set_state v u, tt)
  | CompareAndSwap current new => (if up_state u.1 =? current then set_state new u else u, up_state u.1)
  | RegisterPing cx => (set_ping_task (aw_register cx (up_ping_task u.1)) u, tt)
  | RegisterPong cx => (set_pong_task (aw_register cx (up_pong_task u.1)) u, tt)
  | WakePing => let '(a, w) := aw_wake (up_ping_task u.1) in (log w (set_ping_task a u), tt)
  | WakePong => let '(a, w) := aw_wake (up_pong_task u.1) in (log w (set_pong_task a u), tt)
  end.

Fixpoint run {L E A} (p : Prog L E A) : SE (Shared * L) E A :=
  match p with
  | Done r => lift r
  | Do a k => r ← (fun s => let '(u, r) := perform a s.1 in ((u, s.2), Ok r)); run (k r)
  | Own c k => r ← zoom snd (fun l s => (s.1, l)) c; run (k r)
  end.
End Run.

Section Control.
Context `{HM : HeaderMapOps} {HI : HeaderMapIntoIter (HM:=HM)} {NH : NameHasher (HT:=HT)} {UO : UriOps}.
Context `{BM : BytesMut B} `{TB : Buf T}.
Context {Ss Im Bf Rf : Type} {SS : Slab Stream Ss} {IM : IndexMap StreamId nat Im}.
Context {SB : Slab (Slot (Frame (B:=T))) Bf} {RB : Slab (Slot (Event (B:=B))) Rf}.
Context {Aw : Type} {AW : AtomicWaker Aw}.
Abbreviation W := (World Ss Im Bf Rf).
Abbreviation C := (Codec (B:=B) (T:=Prioritized T)).
Abbreviation X := (W * (C * Socket))%type.

(** ** Running beside a component *)
Section Beside.
Context {K E : Type}.
Definition own {A} (f : K -> A) : SE (K * X) E A := gets (fun t => f t.1).
Definition set_own (f : K -> K) : SE (K * X) E () := modify (fun t => (f t.1, t.2)).
Definition streams {A} (c : SE W E A) : SE (K * X) E A := zoom (fun t => t.2.1) (fun w t => (t.1, (w, t.2.2))) c.
(** The codec's own operations: their errors are [expect]ed away. *)
Definition codec {E' A} (c : SE C E' A) : SE (K * X) E A := fun t =>
  match c t.2.2.1 with
  | (cd, Ok a) => ((t.1, (t.2.1, (cd, t.2.2.2))), Ok a)
  | (cd, _) => ((t.1, (t.2.1, (cd, t.2.2.2))), Panic)
  end.
(** Writing to the socket; [err] is what its error becomes. *)
Definition output {A} (err : E) (c : SE X () A) : SE (K * X) E A := fun t =>
  let '(x, r) := c t.2 in ((t.1, x), map_err (fun _ => err) r).
(** [ready!(c)?; k] *)
Definition and_then {A R} (c : SE (K * X) E (Async A)) (k : A -> SE (K * X) E (Async R)) : SE (K * X) E (Async R) :=
  x ← c;
  match x with Ready a => k a | Pending => mret Pending end.
End Beside.

(** [fuel]: the rounds allowed to the codec's own loops. *)
Definition dst_ready {K E} (err : E) (fuel : nat) : SE (K * X) E (Async ()) := output err (poll_ready fuel).
(** [dst.buffer(frame).expect(..)] *)
Definition dst_buffer {K E} (frame : Frame (B:=Prioritized T)) : SE (K * X) E () := codec (Codec_buffer frame).

(** ** SETTINGS *)
Section Settings.
Abbreviation M := (SE (SettingsSync * X) RecvError).

(** [http/h2/proto/settings.rs] Settings::new *)
Definition SettingsSync_new (local : Settings) : SettingsSync := MkSettingsSync (WaitingAck local) None.

Definition set_local (l : Local) : M () := set_own (fun s => MkSettingsSync l (ss_remote s)).
Definition set_remote (r : option Settings) : M () := set_own (fun s => MkSettingsSync (ss_local s) r).

(** [http/h2/proto/settings.rs] Settings::recv_settings *)
Definition recv_settings (frame : Settings) : M () :=
  if Settings.is_ack frame then
    local ← own ss_local;
    match local with
    | WaitingAck local =>
        _ ← match max_frame_size local with
            | Some max => codec (Codec_set_max_recv_frame_size max)
            | None => mret tt
            end;
        _ ← match max_header_list_size local with
            | Some max => codec (Codec_set_max_recv_header_list_size max)
            | None => mret tt
            end;
        _ ← streams (apply_local_settings local);
        set_local Synced
    | ToSend _ | Synced => throw (RecvConnection PROTOCOL_ERROR)
    end
  else
    remote ← own ss_remote;
    _ ← lift (assert_ (bool_decide (remote = None)));
    set_remote (Some frame).

(** [http/h2/proto/settings.rs] Settings::send_settings *)
Definition send_settings (frame : Settings) : SE SettingsSync UserError () :=
  _ ← lift (assert_ (negb (Settings.is_ack frame)));
  s ← get;
  match ss_local s with
  | ToSend _ | WaitingAck _ => throw SendSettingsWhilePending
  | Synced => modify (fun s => MkSettingsSync (ToSend frame) (ss_remote s))
  end.

(** [http/h2/proto/settings.rs:107-125] acknowledging and applying the peer's settings *)
Definition ack_remote (err : IoErrorKind) (fuel : nat) : M (Async ()) :=
  remote ← own ss_remote;
  match remote with
  | Some settings =>
      and_then (dst_ready (RecvIo err) fuel) (fun _ =>
        _ ← dst_buffer (FSettings Settings.ack);
        _ ← match max_frame_size settings with
            | Some val => codec (Codec_set_max_send_frame_size val)
            | None => mret tt
            end;
        _ ← streams (apply_remote_settings settings);
        mret (Ready tt))
  | None => mret (Ready tt)
  end.

(** [http/h2/proto/settings.rs] Settings::poll_send *)
Definition poll_send (err : IoErrorKind) (fuel : nat) : M (Async ()) :=
  and_then (ack_remote err fuel) (fun _ =>
    _ ← set_remote None;
    local ← own ss_local;
    match local with
    | ToSend settings =>
        and_then (dst_ready (RecvIo err) fuel) (fun _ =>
          _ ← dst_buffer (FSettings settings);
          _ ← set_local (WaitingAck settings);
          mret (Ready tt))
    | WaitingAck _ | Synced => mret (Ready tt)
    end).
End Settings.

(** ** GOAWAY *)
Section GoAway.

(** [http/h2/proto/go_away.rs] GoAway::new *)
Definition GoAwaySync_new : GoAwaySync := MkGoAwaySync false None false None.

(** [http/h2/proto/go_away.rs] GoAway::go_away *)
Definition gs_go_away {E} (f : GoAway) : SE GoAwaySync E () :=
  g ← get;
  _ ← match gs_going_away g with
      | Some going_away => lift (assert_ (id_le (ga_last_stream_id f) (gw_last_processed_id going_away)))
      | None => mret tt
      end;
  modify (fun g => MkGoAwaySync (gs_close_now g) (Some (MkGoingAway (ga_last_stream_id f) (ga_error_code f)))
                     (gs_is_user_initiated g) (Some f)).

(** [http/h2/proto/go_away.rs] GoAway::go_away_now *)
Definition gs_go_away_now {E} (f : GoAway) : SE GoAwaySync E () :=
  _ ← modify (fun g => MkGoAwaySync true (gs_going_away g) (gs_is_user_initiated g) (gs_pending g));
  g ← get;
  match gs_going_away g with
  | Some going_away =>
      if decide (gw_last_processed_id going_away = ga_last_stream_id f /\ gw_reason going_away = ga_error_code f)
      then mret tt
      else gs_go_away f
  | None => gs_go_away f
  end.

(** [http/h2/proto/go_away.rs] GoAway::go_away_from_user *)
Definition gs_go_away_from_user {E} (f : GoAway) : SE GoAwaySync E () :=
  _ ← modify (fun g => MkGoAwaySync (gs_close_now g) (gs_going_away g) true (gs_pending g));
  gs_go_away_now f.

(** [http/h2/proto/go_away.rs] GoAway::is_going_away *)
Definition is_going_away (g : GoAwaySync) : bool := match gs_going_away g with Some _ => true | None => false end.

(** [http/h2/proto/go_away.rs] GoAway::going_away_reason *)
Definition going_away_reason (g : GoAwaySync) : option Reason := gw_reason <$> gs_going_away g.

(** [http/h2/proto/go_away.rs] GoAway::should_close_now *)
Definition should_close_now (g : GoAwaySync) : bool := bool_decide (gs_pending g = None) && gs_close_now g.

(** [http/h2/proto/go_away.rs] GoAway::should_close_on_idle *)
Definition should_close_on_idle (g : GoAwaySync) : bool :=
  negb (gs_close_now g) &&
  match gs_going_away g with
  | Some going_away => bool_decide (gw_last_processed_id going_away <> StreamId.MAX)
  | None => false
  end.

Definition set_pending (p : option GoAway) (g : GoAwaySync) : GoAwaySync :=
  MkGoAwaySync (gs_close_now g) (gs_going_away g) (gs_is_user_initiated g) p.

(** [http/h2/proto/go_away.rs] GoAway::send_pending_go_away *)
Definition send_pending_go_away (fuel : nat) : SE (GoAwaySync * X) () (Async (option Reason)) :=
  pending ← own gs_pending;
  _ ← set_own (set_pending None);
  match pending with
  | Some frame =>
      ready ← dst_ready () fuel;
      match ready with
      | Pending => _ ← set_own (set_pending (Some frame)); mret Pending
      | Ready _ =>
          _ ← dst_buffer (FGoAway frame);
          mret (Ready (Some (ga_error_code frame)))
      end
  | None =>
      g ← own id;
      if should_close_now g then mret (Ready (going_away_reason g)) else mret (Ready None)
  end.
End GoAway.

(** ** PING *)
Section PingPong.
Abbreviation PP := (PingPong Aw).

(** [http/h2/proto/ping_pong.rs] PingPong::new *)
Definition PingPong_new : PP := MkPingPong None None None.

(** [http/h2/proto/ping_pong.rs] PingPong::take_user_pings; whether there is a handle *)
Definition take_user_pings {E} : SE PP E bool :=
  p ← get;
  match pp_user_pings p with
  | Some _ => mret false
  | None =>
      let user_pings := MkUserPingsInner USER_STATE_EMPTY aw_new aw_new in
      _ ← modify (fun p => MkPingPong (pp_pending_ping p) (pp_pending_pong p) (Some user_pings));
      mret true
  end.

Definition set_pending_ping (v : option PendingPing) (p : PP) : PP := MkPingPong v (pp_pending_pong p) (pp_user_pings p).
Definition set_pending_pong (v : option (list Z)) (p : PP) : PP := MkPingPong (pp_pending_ping p) v (pp_user_pings p).
Definition set_user_pings (v : option (UserPingsInner Aw)) (p : PP) : PP := MkPingPong (pp_pending_ping p) (pp_pending_pong p) v.

(** A program on the shared cell, when there is a handle. *)
Definition users {E A} (u : UserPingsInner Aw) (c : Prog (C * Socket) E A) : SE (PP * X) E A := fun t =>
  let '((u, woken), cs, r) := run c ((u, w_woken t.2.1), t.2.2) in
  ((set_user_pings (Some u) t.1, (set_woken woken t.2.1, cs)), r).

(** [http/h2/proto/ping_pong.rs] PingPong::ping_shutdown *)
Definition ping_shutdown {E} : SE PP E () :=
  p ← get;
  _ ← lift (assert_ (bool_decide (pp_pending_ping p = None)));
  modify (set_pending_ping (Some (MkPendingPing Ping.SHUTDOWN false))).

(** [http/h2/proto/ping_pong.rs:118-129] an acknowledgement for the user *)
Definition recv_user_pong {E} (ping : Ping) : SE (PP * X) E ReceivedPing :=
  user_pings ← own pp_user_pings;
  match user_pings with
  | Some u =>
      if decide (ping_payload ping = Ping.USER) then _ ← users u receive_pong; mret Unknown
      else mret Unknown
  | None => mret Unknown
  end.

(** [http/h2/proto/ping_pong.rs] PingPong::recv_ping *)
Definition recv_ping {E} (ping : Ping) : SE (PP * X) E ReceivedPing :=
  pending_pong ← own pp_pending_pong;
  _ ← lift (assert_ (bool_decide (pending_pong = None)));
  if ping_ack ping then
    pending_ping ← own pp_pending_ping;
    _ ← set_own (set_pending_ping None);
    match pending_ping with
    | Some pending =>
        if decide (pg_payload pending = ping_payload ping) then
          _ ← lift (assert_ (bool_decide (pg_payload pending = Ping.SHUTDOWN)));
          mret Shutdown
        else
          _ ← set_own (set_pending_ping (Some pending));
          recv_user_pong ping
    | None => recv_user_pong ping
    end
  else
    _ ← set_own (set_pending_pong (Some (ping_payload ping)));
    mret MustAck.

(** [http/h2/proto/ping_pong.rs] PingPong::send_pending_pong *)
Definition send_pending_pong (fuel : nat) : SE (PP * X) () (Async ()) :=
  pending_pong ← own pp_pending_pong;
  _ ← set_own (set_pending_pong None);
  match pending_pong with
  | Some pong =>
      ready ← dst_ready () fuel;
      match ready with
      | Pending => _ ← set_own (set_pending_pong (Some pong)); mret Pending
      | Ready _ =>
          _ ← dst_buffer (FPing (Ping.pong pong));
          mret (Ready tt)
      end
  | None => mret (Ready tt)
  end.

(** [dst.buffer(frame).expect(..)] *)
Definition buffer_expect {E} (frame : Frame (B:=Prioritized T)) : SE (C * Socket) E () := fun cs =>
  match Codec_buffer frame cs.1 with
  | (cd, Ok a) => ((cd, cs.2), Ok a)
  | (cd, _) => ((cd, cs.2), Panic)
  end.

(** [http/h2/proto/ping_pong.rs:180-196] the user's ping *)
Definition send_user_ping (fuel : nat) (cx : Waker) : Prog (C * Socket) () (Async ()) :=
  state ← access Load;
  if state =? USER_STATE_PENDING_PING then
    ready ← own_code (Codec_poll_ready fuel);
    match ready with
    | Pending => mret Pending
    | Ready _ =>
        _ ← own_code (buffer_expect (FPing (Ping.new Ping.USER)));
        _ ← access (Store USER_STATE_PENDING_PONG);
        mret (Ready tt)
    end
  else
    _ ← access (RegisterPing cx);
    mret (Ready tt).

(** [http/h2/proto/ping_pong.rs] PingPong::send_pending_ping *)
Definition send_pending_ping (fuel : nat) (cx : Waker) : SE (PP * X) () (Async ()) :=
  p ← own id;
  match pp_pending_ping p with
  | Some ping =>
      if negb (pg_sent ping) then
        and_then (dst_ready () fuel) (fun _ =>
          _ ← dst_buffer (FPing (Ping.new (pg_payload ping)));
          _ ← set_own (set_pending_ping (Some (MkPendingPing (pg_payload ping) true)));
          mret (Ready tt))
      else mret (Ready tt)
  | None =>
      match pp_user_pings p with
      | Some u => users u (send_user_ping fuel cx)
      | None => mret (Ready tt)
      end
  end.
End PingPong.
End Control.
