(* ===== verification/H2Pings.v ===== *)
(** * The user's pings, interleaved

    [http/h2/proto/ping_pong.rs]: the handle of the user and the connection task share an
    atomic state and two wakers, without a lock.  The functions of [H2Control.v] are
    programs of accesses to the shared cell; [cstep] interleaves the accesses of the two
    tasks (sequentially consistently).  The theorems on interleavings are about the
    steps [pstep] of the cell with the places of both tasks, which the programs refine. *)

From S2P Require Import Prelude Bytes H2Types FlowControl StreamState Slab HttpTypes HpackTable Frames HeadersFrame.
From S2P Require Import FramedRead FramedWrite H2Codec H2Buffer H2Store H2World H2Send H2Recv H2Streams H2Poll H2Control.

(** Where the connection task is: between two calls; in [send_pending_ping], having read
    that a ping is pending, or that there is none; about to wake the user. *)
Inductive ConnAt := CIdle | CSending | CRegister (cx : Waker) | CWake (next : ConnAt) | CGone.

(** Where the user is: between two calls; about to wake the connection; in [poll_pong],
    registered when the log of woken tasks had the length [n]. *)
Inductive UserAt := UIdle | UWake | UPoll (cx : Waker) (n : nat).

Section Pings.
Context {Aw : Type} {AW : AtomicWaker Aw}.

(** The shared cell, the log of woken tasks, the two tasks, the call of [poll_pong] that
    has returned [Pending] (its waker, and the length of the log when it was registered),
    and how many pings were accepted from the user, written, answered and reported. *)
Record Pings := MkPings {
  ps_cell : UserPingsInner Aw;
  ps_woken : list Waker;
  ps_conn : ConnAt;
  ps_user : UserAt;
  ps_waiting : option (Waker * nat);
  ps_sent : Z;
  ps_written : Z;
  ps_acked : Z;
  ps_done : Z
}.

(** One access to the cell. *)
Definition after {A} (a : Access A) (s : Pings) : UserPingsInner Aw * list Waker := (perform a (ps_cell s, ps_woken s)).1.

Definition conn_to (pc : ConnAt) (t : UserPingsInner Aw * list Waker) (s : Pings) : Pings :=
  MkPings t.1 t.2 pc (ps_user s) (ps_waiting s) (ps_sent s) (ps_written s) (ps_acked s) (ps_done s).
Definition user_to (pc : UserAt) (waiting : option (Waker * nat)) (t : UserPingsInner Aw * list Waker) (s : Pings) : Pings :=
  MkPings t.1 t.2 (ps_conn s) pc waiting (ps_sent s) (ps_written s) (ps_acked s) (ps_done s).
Definition count (sent written acked done : Z) (s : Pings) : Pings :=
  MkPings (ps_cell s) (ps_woken s) (ps_conn s) (ps_user s) (ps_waiting s)
    (ps_sent s + sent) (ps_written s + written) (ps_acked s + acked) (ps_done s + done).

Definition pings_new : Pings := MkPings (MkUserPingsInner USER_STATE_EMPTY aw_new aw_new) [] CIdle UIdle None 0 0 0 0.

Definition cell_of (s : Pings) : UserPingsInner Aw * list Waker := (ps_cell s, ps_woken s).
Definition state_of (s : Pings) : Z := up_state (ps_cell s).

Inductive pstep : Pings -> Pings -> Prop :=
  (* [send_pending_ping] *)
  | step_load cx s : ps_conn s = CIdle ->
      pstep s (conn_to (if state_of s =? USER_STATE_PENDING_PING then CSending else CRegister cx) (cell_of s) s)
  | step_not_ready s : ps_conn s = CSending -> pstep s (conn_to CIdle (cell_of s) s)
  | step_write s : ps_conn s = CSending ->
      pstep s (count 0 1 0 0 (conn_to CIdle (after (Store USER_STATE_PENDING_PONG) s) s))
  | step_register cx s : ps_conn s = CRegister cx -> pstep s (conn_to CIdle (after (RegisterPing cx) s) s)
  (* [receive_pong] *)
  | step_pong s : ps_conn s = CIdle ->
      let t := after (CompareAndSwap USER_STATE_PENDING_PONG USER_STATE_RECEIVED_PONG) s in
      pstep s (if state_of s =? USER_STATE_PENDING_PONG then count 0 0 1 0 (conn_to (CWake CIdle) t s) else conn_to CIdle t s)
  | step_wake_pong next s : ps_conn s = CWake next -> pstep s (conn_to next (after WakePong s) s)
  (* [drop] *)
  | step_drop s : ps_conn s = CIdle -> pstep s (conn_to (CWake CGone) (after (Store USER_STATE_CLOSED) s) s)
  (* [send_ping] *)
  | step_send s : ps_user s = UIdle ->
      let t := after (CompareAndSwap USER_STATE_EMPTY USER_STATE_PENDING_PING) s in
      pstep s (if state_of s =? USER_STATE_EMPTY then count 1 0 0 0 (user_to UWake (ps_waiting s) t s)
               else user_to UIdle (ps_waiting s) t s)
  | step_wake_ping s : ps_user s = UWake -> pstep s (user_to UIdle (ps_waiting s) (after WakePing s) s)
  (* [poll_pong] *)
  | step_poll cx s : ps_user s = UIdle ->
      pstep s (user_to (UPoll cx (length (ps_woken s))) None (after (RegisterPong cx) s) s)
  | step_take cx n s : ps_user s = UPoll cx n ->
      let t := after (CompareAndSwap USER_STATE_RECEIVED_PONG USER_STATE_EMPTY) s in
      pstep s (if state_of s =? USER_STATE_RECEIVED_PONG then count 0 0 0 1 (user_to UIdle None t s)
               else user_to UIdle (if state_of s =? USER_STATE_CLOSED then None else Some (cx, n)) t s).

(** ** What every interleaving keeps *)

(** The counts that go with a state: how far the accepted ping is. *)
Definition counts_ok (s : Pings) : Prop :=
  let d := ps_done s in
  (state_of s = USER_STATE_EMPTY /\ ps_sent s = d /\ ps_written s = d /\ ps_acked s = d) \/
  (state_of s = USER_STATE_PENDING_PING /\ ps_sent s = d + 1 /\ ps_written s = d /\ ps_acked s = d) \/
  (state_of s = USER_STATE_PENDING_PONG /\ ps_sent s = d + 1 /\ ps_written s = d + 1 /\ ps_acked s = d) \/
  (state_of s = USER_STATE_RECEIVED_PONG /\ ps_sent s = d + 1 /\ ps_written s = d + 1 /\ ps_acked s = d + 1) \/
  (state_of s = USER_STATE_CLOSED /\ d <= ps_acked s <= ps_written s /\ ps_written s <= ps_sent s <= d + 1).

(** Only the connection task takes a ping out of [USER_STATE_PENDING_PING], and only it
    closes the cell. *)
Definition conn_fits (s : Pings) : Prop :=
  match ps_conn s with
  | CSending => state_of s = USER_STATE_PENDING_PING
  | CWake CGone | CGone => state_of s = USER_STATE_CLOSED
  | CIdle | CRegister _ | CWake CIdle => state_of s <> USER_STATE_CLOSED
  | CWake _ => False
  end.

(** The task [cx], which registered when the log had the length [n], was woken since. *)
Definition called (cx : Waker) (n : nat) (s : Pings) : Prop := cx ∈ drop n (ps_woken s).
(** ... or is the one that the next [wake] will wake. *)
Definition heard (cx : Waker) (n : nat) (s : Pings) : Prop :=
  (n <= length (ps_woken s))%nat /\ ((aw_wake (up_pong_task (ps_cell s))).2 = Some cx \/ called cx n s).
Definition waking (s : Pings) : Prop := match ps_conn s with CWake _ => True | _ => False end.

Definition wakers_ok (s : Pings) : Prop :=
  (forall cx n, ps_user s = UPoll cx n -> heard cx n s) /\
  (forall cx n, ps_waiting s = Some (cx, n) -> heard cx n s) /\
  (forall cx n, ps_waiting s = Some (cx, n) ->
     state_of s = USER_STATE_RECEIVED_PONG \/ state_of s = USER_STATE_CLOSED -> waking s \/ called cx n s).

Definition pings_ok (s : Pings) : Prop := counts_ok s /\ conn_fits s /\ wakers_ok s.

Lemma called_more cx n (s s' : Pings) l : ps_woken s' = ps_woken s ++ l -> called cx n s -> called cx n s'.
Proof. unfold called. intros ->. rewrite drop_app. set_solver. Qed.
Lemma heard_more cx n (s s' : Pings) l :
  ps_woken s' = ps_woken s ++ l -> (aw_wake (up_pong_task (ps_cell s'))).2 = (aw_wake (up_pong_task (ps_cell s))).2 ->
  heard cx n s -> heard cx n s'.
Proof.
  intros Hl Ha [Hn [H|H]]; (split; [rewrite Hl, length_app; lia|]); [left; by rewrite Ha|right; by eapply called_more].
Qed.

Lemma after_wake_pong s : after WakePong s =
  (MkUserPingsInner (state_of s) (up_ping_task (ps_cell s)) (aw_wake (up_pong_task (ps_cell s))).1,
   ps_woken s ++ option_list (aw_wake (up_pong_task (ps_cell s))).2).
Proof. unfold after, perform. simpl. destruct (aw_wake _) as [a [w|]]; simpl; [done|by rewrite app_nil_r]. Qed.
Lemma after_wake_ping s : after WakePing s =
  (MkUserPingsInner (state_of s) (aw_wake (up_ping_task (ps_cell s))).1 (up_pong_task (ps_cell s)),
   ps_woken s ++ option_list (aw_wake (up_ping_task (ps_cell s))).2).
Proof. unfold after, perform. simpl. destruct (aw_wake _) as [a [w|]]; simpl; [done|by rewrite app_nil_r]. Qed.
Lemma after_cas current new s : after (CompareAndSwap current new) s =
  (MkUserPingsInner (if state_of s =? current then new else state_of s) (up_ping_task (ps_cell s)) (up_pong_task (ps_cell s)), ps_woken s).
Proof. unfold after, perform, state_of. simpl. destruct (ps_cell s) as [st a b]. simpl. by destruct (st =? current). Qed.

(** A wake of the user makes every call that was heard a call. *)
Lemma wake_calls cx n s next : heard cx n s -> called cx n (conn_to next (after WakePong s) s).
Proof.
  intros [Hn H]. unfold called. rewrite after_wake_pong. simpl. rewrite drop_app_le by done. destruct H as [->|H]; set_solver.
Qed.
Lemma wake_hears cx n s next : heard cx n s -> heard cx n (conn_to next (after WakePong s) s).
Proof.
  intros H. split; [|right; by apply wake_calls]. rewrite after_wake_pong. simpl. rewrite length_app. destruct H. lia.
Qed.

Ltac state_cases := unfold counts_ok, conn_fits, state_of, USER_STATE_EMPTY, USER_STATE_PENDING_PING, USER_STATE_PENDING_PONG,
  USER_STATE_RECEIVED_PONG, USER_STATE_CLOSED in *.

(** The counts and the place of the connection task. *)
Lemma step_counts s s' : pstep s s' -> counts_ok s -> conn_fits s -> counts_ok s' /\ conn_fits s'.
Proof.
  destruct 1 as [cx s Hp|s Hp|s Hp|cx s Hp|s Hp t|next s Hp|s Hp|s Hp t|s Hp|cx s Hp|cx n s Hp t];
    destruct s as [[st pg po] wk cn us wt c1 c2 c3 c4]; simpl in Hp; subst; try (subst t);
    rewrite ?after_wake_pong, ?after_wake_ping, ?after_cas; state_cases; simpl; intros Hc Hf.
  - split; [done|]. destruct (Z.eqb_spec st 1); simpl; lia.
  - split; [done|]. lia.
  - split; lia.
  - split; [done|]. lia.
  - destruct (Z.eqb_spec st 2); simpl; split; lia.
  - split; [done|]. by destruct next.
  - split; lia.
  - destruct (Z.eqb_spec st 0); simpl; (split; [lia|]); destruct cn as [| | |[]|]; lia.
  - done.
  - done.
  - destruct (Z.eqb_spec st 3); simpl; (split; [lia|]); destruct cn as [| | |[]|]; lia.
Qed.

Lemma step_wakers s s' : pstep s s' -> counts_ok s -> conn_fits s -> wakers_ok s -> wakers_ok s'.
Proof.
  destruct 1 as [cx s Hp|s Hp|s Hp|cx s Hp|s Hp t|next s Hp|s Hp|s Hp t|s Hp|cx s Hp|cx n s Hp t]; intros Hc Hf (H1 & H2 & H3).
  - (* load *) split; [exact H1|split; [exact H2|]]. intros cx' n Hw Hst. destruct (H3 cx' n Hw Hst) as [Hk|Hk]; [|by right].
    unfold waking in Hk. by rewrite Hp in Hk.
  - split; [exact H1|split; [exact H2|]]. intros cx' n Hw Hst. destruct (H3 cx' n Hw Hst) as [Hk|Hk]; [|by right].
    unfold waking in Hk. by rewrite Hp in Hk.
  - split; [exact H1|split; [exact H2|]]. intros cx' n Hw Hst. unfold state_of, after, perform in Hst. simpl in Hst. by destruct Hst.
  - split; [exact H1|split; [exact H2|]]. intros cx' n Hw Hst. destruct (H3 cx' n Hw Hst) as [Hk|Hk]; [|by right].
    unfold waking in Hk. by rewrite Hp in Hk.
  - (* pong *) subst t. rewrite after_cas. destruct (state_of s =? _) eqn:E1.
    + split; [exact H1|split; [exact H2|]]. intros. by left.
    + split; [exact H1|split; [exact H2|]]. intros cx' n Hw Hst.
      destruct (H3 cx' n Hw Hst) as [Hk|Hk]; [|by right]. unfold waking in Hk. by rewrite Hp in Hk.
  - (* wake *) split; [|split].
    + intros cx' n Hu. by apply wake_hears, H1.
    + intros cx' n Hu. by apply wake_hears, H2.
    + intros cx' n Hu _. right. by apply wake_calls, H2.
  - split; [exact H1|split; [exact H2|]]. intros. by left.
  - (* send *) subst t. rewrite after_cas. destruct (state_of s =? _) eqn:E1.
    + split; [done|split; [exact H2|]]. intros cx' n Hw Hst. unfold state_of in Hst. simpl in Hst. by destruct Hst.
    + split; [done|split; [exact H2|]]. intros cx' n Hw Hst. by apply H3.
  - (* wake the connection *) rewrite after_wake_ping. split; [done|]. split.
    + intros cx' n Hw. eapply heard_more; [reflexivity|done|by apply H2].
    + intros cx' n Hw Hst. destruct (H3 cx' n Hw Hst) as [Hk|Hk]; [by left|right; by eapply called_more].
  - (* poll *) split; [|done]. intros cx' n [= <- <-]. split; [done|]. left. apply aw_wake_register.
  - (* take *) subst t. rewrite after_cas. specialize (H1 cx n Hp). destruct (state_of s =? USER_STATE_RECEIVED_PONG) eqn:E1; [done|].
    destruct (state_of s =? USER_STATE_CLOSED) eqn:E2; [done|]. split; [done|]. split; [by intros cx' n' [= <- <-]|].
    intros cx' n' _ Hst. unfold state_of in Hst, E1, E2. simpl in Hst. apply Z.eqb_neq in E1, E2. by destruct Hst.
Qed.

Lemma pings_reach s : rtc pstep pings_new s -> pings_ok s.
Proof.
  intros H. assert (pings_ok (pings_new)) as H0.
  { split; [by left|]. split; [done|]. split_and!; done. }
  revert H0. induction H as [s|s1 s2 s3 Hs _ IH]; [done|]. intros (Hc & Hf & Hw). apply IH.
  destruct (step_counts s1 s2 Hs Hc Hf). split; [done|]. split; [done|]. by eapply step_wakers.
Qed.

(** C10. Pings are handled in order, each at most once.  In every interleaving of the steps
    of the user's handle and the connection task: of the pings that [send_ping] has
    accepted, each is written at most once, then its pong is taken at most once and then
    reported at most once, and no second ping is accepted before the pong of the first is
    reported.  While the cell is open, its state says how far the last ping is: although
    the connection task reads the state and stores to it in two steps, a pending ping is
    not overwritten before it is written, and a written one not before it is answered. *)
Theorem pings_at_most_once s :
  rtc pstep pings_new s ->
  ps_done s <= ps_acked s <= ps_written s /\ ps_written s <= ps_sent s <= ps_done s + 1 /\
  (state_of s = USER_STATE_PENDING_PING -> ps_sent s = ps_written s + 1) /\
  (state_of s = USER_STATE_PENDING_PONG -> ps_sent s = ps_written s /\ ps_written s = ps_acked s + 1) /\
  (state_of s = USER_STATE_RECEIVED_PONG -> ps_acked s = ps_sent s /\ ps_acked s = ps_done s + 1) /\
  (state_of s = USER_STATE_EMPTY -> ps_done s = ps_sent s).
Proof. intros H. destruct (pings_reach s H) as (Hc & _ & _). state_cases. lia. Qed.

(** C11. No pong is missed.  In every interleaving: when the user's [poll_pong] has returned
    [Pending] and the pong has been received since, or the connection closed, then the
    user's task has been woken after it registered, or the connection is about to wake
    it.  (It registers before it looks at the state.) *)
Theorem pong_wakeup_not_lost s cx n :
  rtc pstep pings_new s -> ps_waiting s = Some (cx, n) ->
  state_of s = USER_STATE_RECEIVED_PONG \/ state_of s = USER_STATE_CLOSED -> waking s \/ called cx n s.
Proof. intros H Hw Hst. destruct (pings_reach s H) as (_ & _ & _ & _ & H3). by apply H3. Qed.
End Pings.

(** ** The interleavings of the programs *)

(** The calls of the user and of the connection task, and what they return. *)
Inductive UserCall := CallSend | CallPoll (cx : Waker).
Inductive UserRet := SentPing (r : outcome (option ProtoError) ()) | PolledPong (cx : Waker) (r : outcome ProtoError (Async ())).
Inductive ConnCall := CallSending (fuel : nat) (cx : Waker) | CallReceive | CallDrop.
Inductive ConnRet := SentPending (r : outcome () (Async ())) | ReceivedPong (r : outcome Never bool) | DroppedRx (r : outcome Never ()).

(** A program that runs, and the value that its result becomes. *)
Inductive Thread (L R : Type) :=
  | MkThread {E A : Type} (ret : outcome E A -> R) (p : Prog L E A).
Arguments MkThread {L R E A}.

Section Interleave.
Context {Aw : Type} {AW : AtomicWaker Aw}.
Context `{HM : HeaderMapOps} {HI : HeaderMapIntoIter (HM:=HM)} {NH : NameHasher (HT:=HT)} {UO : UriOps}.
Context `{BM : BytesMut B} `{TB : Buf T}.
Abbreviation Shared := (UserPingsInner Aw * list Waker)%type.
Abbreviation CS := (Codec (B:=B) (T:=Prioritized T) * Socket)%type.

Definition user_thread (c : UserCall) : Thread () UserRet :=
  match c with
  | CallSend => MkThread SentPing send_ping
  | CallPoll cx => MkThread (PolledPong cx) (poll_pong cx)
  end.
Definition conn_thread (c : ConnCall) : Thread CS ConnRet :=
  match c with
  | CallSending fuel cx => MkThread SentPending (send_user_ping fuel cx)
  | CallReceive => MkThread ReceivedPong receive_pong
  | CallDrop => MkThread DroppedRx drop_user_pings_rx
  end.

(** A program that has ended is its result. *)
Definition settle {L R E A} (ret : outcome E A -> R) (p : Prog L E A) : Thread L R + R :=
  match p with Done r => inr (ret r) | p => inl (MkThread ret p) end.

(** One step of a program: one access to the shared cell, or code of its own. *)
Definition thread_step {L R} (t : Thread L R) (m : Shared) (l : L) : Shared * L * (Thread L R + R) :=
  let '@MkThread _ _ E A ret p := t in
  match p with
  | Done r => (m, l, inr (ret r))
  | Do a k => let '(m, r) := perform a m in (m, l, settle ret (k r))
  | Own c k =>
      let '(l, r) := c l in
      (m, l, match r with Ok x => settle ret (k x) | Err e => inr (ret (Err e)) | Panic => inr (ret Panic) end)
  end.

(** The shared cell and the log of woken tasks; the call of the user that runs, with the
    length of the log when it began, and that of the connection task; the codec and the
    socket, which only the connection task uses; and what the calls have returned. *)
Record PingTasks := MkPingTasks {
  pt_shared : Shared;
  pt_user : option (nat * Thread () UserRet);
  pt_conn : option (Thread CS ConnRet);
  pt_own : CS;
  pt_user_rets : list (nat * UserRet);
  pt_conn_rets : list ConnRet
}.
Definition tasks_new (cs : CS) : PingTasks :=
  MkPingTasks (MkUserPingsInner USER_STATE_EMPTY aw_new aw_new, []) None None cs [] [].

Definition dropped (l : list ConnRet) : bool := existsb (fun r => match r with DroppedRx _ => true | _ => false end) l.

Definition user_next (n : nat) (x : Shared * () * (Thread () UserRet + UserRet)) (c : PingTasks) : PingTasks :=
  match x with
  | (m, _, inl t) => MkPingTasks m (Some (n, t)) (pt_conn c) (pt_own c) (pt_user_rets c) (pt_conn_rets c)
  | (m, _, inr r) => MkPingTasks m None (pt_conn c) (pt_own c) (pt_user_rets c ++ [(n, r)]) (pt_conn_rets c)
  end.
Definition conn_next (x : Shared * CS * (Thread CS ConnRet + ConnRet)) (c : PingTasks) : PingTasks :=
  match x with
  | (m, cs, inl t) => MkPingTasks m (pt_user c) (Some t) cs (pt_user_rets c) (pt_conn_rets c)
  | (m, cs, inr r) => MkPingTasks m (pt_user c) None cs (pt_user_rets c) (pt_conn_rets c ++ [r])
  end.

(** Either task takes a step of its call, or begins the next call with its first step;
    the connection task begins none when it has dropped its end. *)
Inductive cstep : PingTasks -> PingTasks -> Prop :=
  | user_begins call c : pt_user c = None ->
      cstep c (user_next (length (pt_shared c).2) (thread_step (user_thread call) (pt_shared c) ()) c)
  | user_goes_on n t c : pt_user c = Some (n, t) -> cstep c (user_next n (thread_step t (pt_shared c) ()) c)
  | conn_begins call c : pt_conn c = None -> dropped (pt_conn_rets c) = false ->
      cstep c (conn_next (thread_step (conn_thread call) (pt_shared c) (pt_own c)) c)
  | conn_goes_on t c : pt_conn c = Some t -> cstep c (conn_next (thread_step t (pt_shared c) (pt_own c)) c).

(** ** They are those of the steps *)

(** The rest of [send_ping] and of [poll_pong]. *)
Definition waking_ping : Thread () UserRet := MkThread SentPing (access WakePing).
Definition taking_pong cx : Thread () UserRet :=
  MkThread (PolledPong cx) (
    prev ← access (CompareAndSwap USER_STATE_RECEIVED_PONG USER_STATE_EMPTY);
    if prev =? USER_STATE_RECEIVED_PONG then mret (Ready tt)
    else if prev =? USER_STATE_CLOSED then fail (Io broken_pipe)
    else mret Pending).

Inductive user_at : option (nat * Thread () UserRet) -> UserAt -> Prop :=
  | at_user_idle : user_at None UIdle
  | at_user_wake n : user_at (Some (n, waking_ping)) UWake
  | at_user_poll cx n : user_at (Some (n, taking_pong cx)) (UPoll cx n).

(** The rest of [send_pending_ping] that has read that a ping is pending: before the codec
    is asked for room, before the frame is given to it, and before the state is stored. *)
Definition storing : Prog CS () (Async ()) := _ ← access (Store USER_STATE_PENDING_PONG); mret (Ready tt).
Definition buffering : Prog CS () (Async ()) := _ ← own_code (buffer_expect (FPing (Ping.new Ping.USER))); storing.
Definition writing_ping fuel : Prog CS () (Async ()) :=
  ready ← own_code (Codec_poll_ready fuel);
  match ready with Pending => mret Pending | Ready _ => buffering end.

Inductive conn_at : bool -> option (Thread CS ConnRet) -> ConnAt -> Prop :=
  | at_conn_idle : conn_at false None CIdle
  | at_conn_gone : conn_at true None CGone
  | at_conn_ready fuel : conn_at false (Some (MkThread SentPending (writing_ping fuel))) CSending
  | at_conn_buffer : conn_at false (Some (MkThread SentPending buffering)) CSending
  | at_conn_store : conn_at false (Some (MkThread SentPending storing)) CSending
  | at_conn_register cx : conn_at false (Some (MkThread SentPending (_ ← access (RegisterPing cx); mret (Ready tt)))) (CRegister cx)
  | at_conn_pong : conn_at false (Some (MkThread ReceivedPong (_ ← access WakePong; mret true))) (CWake CIdle)
  | at_conn_drop : conn_at false (Some (MkThread DroppedRx (access WakePong))) (CWake CGone).

(** How many of the calls have returned that a ping was accepted, that its pong is there,
    and that it was the pong that was waited for. *)
Definition tally {X} (f : X -> bool) (l : list X) : Z := foldr (fun x n => (if f x then 1 else 0) + n) 0 l.
Definition accepted (e : nat * UserRet) : bool := match e.2 with SentPing (Ok _) => true | _ => false end.
Definition reported (e : nat * UserRet) : bool := match e.2 with PolledPong _ (Ok (Ready _)) => true | _ => false end.
Definition answered (r : ConnRet) : bool := match r with ReceivedPong (Ok true) => true | _ => false end.
(** The last [poll_pong], if it has returned [Pending]: its task, and when it began. *)
Definition last_poll (l : list (nat * UserRet)) : option (Waker * nat) :=
  foldl (fun w e => match e.2 with
                    | PolledPong cx (Ok Pending) => Some (cx, e.1)
                    | PolledPong _ _ => None
                    | SentPing _ => w
                    end) None l.

(** The state [s] of the steps is that of the programs in [c]. *)
Record matches (c : PingTasks) (s : Pings (Aw:=Aw)) : Prop := {
  m_shared : pt_shared c = cell_of s;
  m_user : user_at (pt_user c) (ps_user s);
  m_conn : conn_at (dropped (pt_conn_rets c)) (pt_conn c) (ps_conn s);
  m_waiting : ps_waiting s = match ps_user s with UPoll _ _ => None | _ => last_poll (pt_user_rets c) end;
  m_sent : ps_sent s = tally accepted (pt_user_rets c) + match ps_user s with UWake => 1 | _ => 0 end;
  m_acked : ps_acked s = tally answered (pt_conn_rets c) + match ps_conn s with CWake CIdle => 1 | _ => 0 end;
  m_done : ps_done s = tally reported (pt_user_rets c)
}.

Lemma tally_snoc {X} (f : X -> bool) l x : tally f (l ++ [x]) = tally f l + (if f x then 1 else 0).
Proof. unfold tally. induction l as [|y l IH]; simpl in *; lia. Qed.
Lemma last_poll_snoc l e : last_poll (l ++ [e]) =
  match e.2 with PolledPong cx (Ok Pending) => Some (cx, e.1) | PolledPong _ _ => None | SentPing _ => last_poll l end.
Proof. unfold last_poll. by rewrite foldl_app. Qed.
Lemma dropped_snoc l r : dropped (l ++ [r]) = dropped l || match r with DroppedRx _ => true | _ => false end.
Proof. unfold dropped. rewrite existsb_app. simpl. by rewrite orb_false_r. Qed.

(** One step that the programs and the steps take together. *)
Ltac matched :=
  constructor; unfold after, cell_of in *; simpl; rewrite ?tally_snoc, ?last_poll_snoc, ?dropped_snoc; simpl;
  repeat match goal with H : ?x = _ |- context[match ?x with _ => _ end] => rewrite H end;
  simpl; try done; try constructor; try lia.

Lemma user_begins_matched c s call :
  matches c s -> pt_user c = None ->
  exists s', pstep s s' /\ matches (user_next (length (pt_shared c).2) (thread_step (user_thread call) (pt_shared c) ()) c) s'.
Proof.
  intros [M1 M2 M3 M4 M5 M6 M7] Hu. rewrite Hu in M2. inversion M2 as [H1 H2| |]; subst. symmetry in H2.
  rewrite H2 in M4, M5. rewrite M1. destruct call as [|cx].
  - pose proof (step_send s H2) as Hs. cbv zeta in Hs. rewrite after_cas in Hs. unfold state_of in Hs. unfold cell_of. cbn.
    destruct (ps_cell s) as [st pg po] eqn:Ec. simpl in *. destruct (st =? USER_STATE_EMPTY) eqn:E0.
    + eexists. split; [exact Hs|]. matched. 
    + destruct (st =? USER_STATE_CLOSED); (eexists; split; [exact Hs|]; matched).
  - eexists. split; [apply (step_poll cx s H2)|]. matched.
Qed.
Lemma user_goes_matched c s n t :
  matches c s -> pt_user c = Some (n, t) ->
  exists s', pstep s s' /\ matches (user_next n (thread_step t (pt_shared c) ()) c) s'.
Proof.
  intros [M1 M2 M3 M4 M5 M6 M7] Hu. rewrite Hu in M2. rewrite M1. inversion M2 as [|n' H1 H2|cx n' H1 H2]; subst; symmetry in H2; rewrite H2 in M4, M5.
  - eexists. split; [apply (step_wake_ping s H2)|]. rewrite after_wake_ping. cbn. destruct (aw_wake _) as [a [w|]]; matched.
    all: rewrite ?app_nil_r; try done.
  - pose proof (step_take cx n s H2) as Hs. cbv zeta in Hs. rewrite after_cas in Hs. unfold state_of in Hs. unfold cell_of. cbn.
    destruct (ps_cell s) as [st pg po] eqn:Ec. simpl in *. destruct (st =? USER_STATE_RECEIVED_PONG) eqn:E0.
    + eexists. split; [exact Hs|]. matched. 
    + destruct (st =? USER_STATE_CLOSED); (eexists; split; [exact Hs|]; matched).
Qed.
Lemma conn_begins_matched c s call :
  matches c s -> pt_conn c = None -> dropped (pt_conn_rets c) = false ->
  exists s', pstep s s' /\ matches (conn_next (thread_step (conn_thread call) (pt_shared c) (pt_own c)) c) s'.
Proof.
  intros [M1 M2 M3 M4 M5 M6 M7] Hc Hd. rewrite Hc, Hd in M3. assert (ps_conn s = CIdle) as H1 by (by inversion M3).
  rewrite H1 in M6. rewrite M1. destruct call as [fuel cx| |].
  - pose proof (step_load cx s H1) as Hs. unfold state_of in Hs. unfold cell_of. cbn. 
    destruct (ps_cell s) as [st pg po] eqn:Ec. simpl in *. destruct (st =? USER_STATE_PENDING_PING) eqn:E0;
      (eexists; split; [exact Hs|]; matched; rewrite ?Ec, ?Hd; done || constructor).
  - pose proof (step_pong s H1) as Hs. cbv zeta in Hs. rewrite after_cas in Hs. unfold state_of in Hs. unfold cell_of. cbn.
    destruct (ps_cell s) as [st pg po] eqn:Ec. simpl in *. destruct (st =? USER_STATE_PENDING_PONG) eqn:E0;
      (eexists; split; [exact Hs|]; matched; rewrite ?Ec, ?Hd; done || constructor).
  - eexists. split; [apply (step_drop s H1)|]. matched; rewrite ?Ec, ?Hd; done || constructor.
Qed.

Lemma conn_goes_matched c s t :
  matches c s -> pt_conn c = Some t ->
  (exists s', pstep s s' /\ matches (conn_next (thread_step t (pt_shared c) (pt_own c)) c) s') \/
  (ps_conn s = CSending /\ matches (conn_next (thread_step t (pt_shared c) (pt_own c)) c) s).
Proof.
  intros [M1 M2 M3 M4 M5 M6 M7] Hc. rewrite Hc in M3. rewrite M1.
  inversion M3 as [| |fuel H1 H2 H3|H1 H2 H3|H1 H2 H3|cx H1 H2 H3|H1 H2 H3|H1 H2 H3]; subst; symmetry in H1, H3; rewrite H3 in M6.
  - cbn. destruct (Codec_poll_ready fuel (pt_own c)) as [cs [[a|]|e|]];
      [right; (split; [done|])|left; eexists; (split; [by apply step_not_ready|])..]; matched; rewrite ?H1, ?H3; constructor.
  - cbn. destruct (buffer_expect _ (pt_own c)) as [cs [[]|e|]];
      [right; (split; [done|])|left; eexists; (split; [by apply step_not_ready|])..]; matched; rewrite ?H1, ?H3; constructor.
  - left. eexists. split; [by apply step_write|]. matched; rewrite ?H1; constructor.
  - left. eexists. split; [by apply step_register|]. matched; rewrite ?H1; constructor.
  - left. eexists. split; [by apply step_wake_pong|]. rewrite after_wake_pong. cbn. destruct (aw_wake _) as [a [w|]]; matched.
    all: rewrite ?app_nil_r, ?H1; try done; constructor.
  - left. eexists. split; [by apply step_wake_pong|]. rewrite after_wake_pong. cbn. destruct (aw_wake _) as [a [w|]]; matched.
    all: rewrite ?app_nil_r, ?H1; try done; constructor.
Qed.
Lemma new_matched cs : matches (tasks_new cs) pings_new.
Proof. by constructor; try constructor. Qed.

Lemma interleaving_matched cs c : rtc cstep (tasks_new cs) c -> exists s, rtc pstep pings_new s /\ matches c s.
Proof.
  revert c. apply (rtc_ind_r (fun c => exists s, rtc pstep pings_new s /\ matches c s)).
  - exists pings_new. split; [done|apply new_matched].
  - intros c1 c _ Hc (s1 & Hs & Hm).
    assert (forall c2 s2, pstep s1 s2 /\ matches c2 s2 -> exists s, rtc pstep pings_new s /\ matches c2 s) as Hone.
    { intros c2 s2 [H1 H2]. exists s2. split; [by eapply rtc_r|done]. }
    destruct Hc as [call c1 Hu|m t c1 Hu|call c1 Hu Hd|t c1 Hu].
    + destruct (user_begins_matched c1 s1 call Hm Hu) as [s2 H2]. by eapply Hone.
    + destruct (user_goes_matched c1 s1 m t Hm Hu) as [s2 H2]. by eapply Hone.
    + destruct (conn_begins_matched c1 s1 call Hm Hu Hd) as [s2 H2]. by eapply Hone.
    + destruct (conn_goes_matched c1 s1 t Hm Hu) as [[s2 H2]|[_ H2]]; [by eapply Hone|by exists s1].
Qed.

(** C12. The programs refine the steps.  The functions [send_ping], [poll_pong],
    [receive_pong], [drop] and the user's part of [send_pending_ping] are programs of
    atomic accesses to the shared cell (and, for the last, code on the codec and the
    socket); the user calls the first two and the connection task the others, any number
    of times, and their accesses interleave in any way.  Every such interleaving is one
    of the steps [pstep]: with the same cell and the same woken tasks, each task at the
    same place of its program, and with the results that the calls have returned: as
    many pings accepted, pongs answered and pongs reported, and the same task that
    waits for a pong. *)
Theorem ping_programs_refine cs c : rtc cstep (tasks_new cs) c -> exists s, rtc pstep pings_new s /\ matches c s.
Proof. apply interleaving_matched. Qed.

(** The interleaving in which a ping is missed. *)
Lemma lost_run cs (cx : Waker) : exists c, rtc cstep (tasks_new cs) c /\
  pt_user c = None /\ pt_conn c = None /\
  pt_user_rets c = [(0%nat, SentPing (Ok tt))] /\ pt_conn_rets c = [SentPending (Ok (Ready tt))] /\
  up_state (pt_shared c).1 = USER_STATE_PENDING_PING /\ (pt_shared c).2 = [] /\
  (aw_wake (up_ping_task (pt_shared c).1)).2 = Some cx.
Proof.
  eexists. split.
  - eapply rtc_l; [apply (conn_begins (CallSending 0 cx)); done|]. eapply rtc_l; [apply (user_begins CallSend); done|].
    eapply rtc_l; [eapply user_goes_on; reflexivity|]. eapply rtc_l; [eapply conn_goes_on; cbn; destruct (aw_wake aw_new) as [a [w|]]; reflexivity|apply rtc_refl].
  - pose proof aw_wake_new as Hn. cbn. destruct (aw_wake aw_new) as [a w] eqn:Ea. simpl in Hn. subst w. cbn.
    split_and!; try done. apply aw_wake_register.
Qed.

(** C38. A ping can be missed.  The connection task looks at the state before it registers,
    so there is an interleaving of the programs in which [send_ping] has returned without
    an error and has woken nobody, [send_pending_ping] has returned ready, the ping is
    pending and was not written, and both tasks are between two calls, with the
    connection's waker registered and not called: nothing will make it send the ping. *)
Theorem ping_wakeup_lost cs (cx : Waker) :
  exists c s, rtc cstep (tasks_new cs) c /\ rtc pstep pings_new s /\ matches c s /\
    pt_user_rets c = [(0%nat, SentPing (Ok tt))] /\ pt_conn_rets c = [SentPending (Ok (Ready tt))] /\
    ps_conn s = CIdle /\ ps_user s = UIdle /\
    state_of s = USER_STATE_PENDING_PING /\ ps_sent s = 1 /\ ps_written s = 0 /\
    ps_woken s = [] /\ (aw_wake (up_ping_task (ps_cell s))).2 = Some cx.
Proof.
  destruct (lost_run cs cx) as (c & Hc & Hu & Hn & Hr & Hs & H1 & H2 & H3).
  destruct (interleaving_matched cs c Hc) as (s & Hp & Hm). exists c, s. do 5 (split; [done|]).
  destruct (pings_reach s Hp) as (Hk & _). destruct Hm as [M1 M2 M3 M4 M5 M6 M7]. rewrite Hu in M2. rewrite Hn, Hs in M3.
  rewrite M1 in H1, H2, H3. inversion M2 as [E1 E2| |]. rewrite <- E2 in M5. rewrite Hr in M5, M7.
  split; [by inversion M3|]. split; [done|]. split; [done|]. split; [done|]. split; [|done].
  change (state_of s = USER_STATE_PENDING_PING) in H1. simpl in M5, M7.
  unfold counts_ok, USER_STATE_EMPTY, USER_STATE_PENDING_PING, USER_STATE_PENDING_PONG, USER_STATE_RECEIVED_PONG, USER_STATE_CLOSED in *. lia.
Qed.
End Interleave.

(** ** Runs *)
Module PingExample.
Import ModelWaker.
Abbreviation PS := (Pings (Aw:=option Waker)).

(** The user sends a ping, the connection task 7 writes it, the task 5 polls for the pong,
    in vain, and the pong comes. *)
Definition s0 : PS := pings_new.
Definition s1 : PS := count 1 0 0 0 (user_to UWake None (after (CompareAndSwap USER_STATE_EMPTY USER_STATE_PENDING_PING) s0) s0).
Definition s2 : PS := user_to UIdle None (after WakePing s1) s1.
Definition s3 : PS := conn_to CSending (cell_of s2) s2.
Definition s4 : PS := count 0 1 0 0 (conn_to CIdle (after (Store USER_STATE_PENDING_PONG) s3) s3).
Definition s5 : PS := user_to (UPoll 5%nat 0) None (after (RegisterPong 5%nat) s4) s4.
Definition s6 : PS := user_to UIdle (Some (5%nat, 0%nat)) (after (CompareAndSwap USER_STATE_RECEIVED_PONG USER_STATE_EMPTY) s5) s5.
Definition s7 : PS := count 0 0 1 0 (conn_to (CWake CIdle) (after (CompareAndSwap USER_STATE_PENDING_PONG USER_STATE_RECEIVED_PONG) s6) s6).
Definition s8 : PS := conn_to CIdle (after WakePong s7) s7.

Lemma s8_reach : rtc pstep pings_new s8.
Proof.
  apply rtc_l with s1; [apply (step_send s0 eq_refl)|]. apply rtc_l with s2; [apply (step_wake_ping s1 eq_refl)|].
  apply rtc_l with s3; [apply (step_load 7%nat s2 eq_refl)|]. apply rtc_l with s4; [apply (step_write s3 eq_refl)|].
  apply rtc_l with s5; [apply (step_poll 5%nat s4 eq_refl)|]. apply rtc_l with s6; [apply (step_take 5%nat 0 s5 eq_refl)|].
  apply rtc_l with s7; [apply (step_pong s6 eq_refl)|]. apply rtc_l with s8; [apply (step_wake_pong CIdle s7 eq_refl)|apply rtc_refl].
Qed.

Lemma pings_at_most_once_witness :
  state_of s8 = USER_STATE_RECEIVED_PONG /\ ps_sent s8 = 1 /\ ps_acked s8 = ps_sent s8 /\ ps_acked s8 = ps_done s8 + 1.
Proof. split; [reflexivity|]. split; [reflexivity|]. apply (pings_at_most_once s8); [apply s8_reach|reflexivity]. Defined.

Lemma pong_wakeup_not_lost_witness : ps_woken s8 = [5%nat] /\ (waking s8 \/ called 5%nat 0 s8).
Proof.
  split; [reflexivity|]. apply (pong_wakeup_not_lost s8 5%nat 0); [apply s8_reach|reflexivity|left; reflexivity].
Defined.
End PingExample.
