(* ===== verification/H2Connection.v ===== *)
(** * The HTTP/2 connection ([http/h2/proto/connection.rs])

    The task of a connection: it answers pings, exchanges settings, hands the received
    frames to the streams, writes what the streams have to send and shuts the
    connection down.  It composes the codec, the streams and the control frames. *)

From S2P Require Import Prelude Bytes H2Types FlowControl StreamState Slab HttpTypes HpackTable Frames HeadersFrame Codec.
From S2P Require Import FramedRead FramedWrite H2Codec.
From S2P Require Import H2Buffer H2Store H2World H2Send H2Recv H2Streams H2Poll H2Control.

(** [http/h2/proto/connection.rs] State *)
Inductive ConnState := COpen | CClosing (reason : Reason) | CClosed (reason : Reason).

(** [http/h2/proto/connection.rs] Config *)
Record ConnConfig := MkConnConfig {
  cfg_next_stream_id : StreamId;
  cfg_initial_max_send_streams : Z;
  cfg_reset_stream_duration : Z;
  cfg_reset_stream_max : Z;
  cfg_settings : Settings
}.

Section Connection.
Context `{HM : HeaderMapOps} {HI : HeaderMapIntoIter (HM:=HM)} {NH : NameHasher (HT:=HT)} {UO : UriOps}.
Context `{BM : BytesMut B} `{TB : Buf T}.
Context {Ss Im Bf Rf : Type} {SS : Slab Stream Ss} {IM : IndexMap StreamId nat Im}.
Context {SB : Slab (Slot (Frame (B:=T))) Bf} {RB : Slab (Slot (Event (B:=B))) Rf}.
Context {Aw : Type} {AW : AtomicWaker Aw}.
Abbreviation W := (World Ss Im Bf Rf).
Abbreviation C := (H2Codec.Codec (B:=B) (T:=Prioritized T)).
Abbreviation X := (W * (C * Socket))%type.

(** [http/h2/proto/connection.rs] Connection

    with the two directions of its socket: what it still delivers, and what was
    written to it. *)
Record Connection := MkConnection {
  cn_state : ConnState;
  cn_error : option Reason;
  cn_codec : C;
  cn_go_away : GoAwaySync;
  cn_ping_pong : PingPong Aw;
  cn_settings : SettingsSync;
  cn_streams : W;
  cn_input : list ReadAnswer;
  cn_output : Socket
}.

Definition eta_connection (c : Connection) : Connection :=
  MkConnection (cn_state c) (cn_error c) (cn_codec c) (cn_go_away c) (cn_ping_pong c) (cn_settings c) (cn_streams c)
    (cn_input c) (cn_output c).
Definition set_cn_state (v : ConnState) (c : Connection) : Connection := ltac:(with_field eta_connection cn_state v c).
Definition set_cn_error (v : option Reason) (c : Connection) : Connection := ltac:(with_field eta_connection cn_error v c).
Definition set_cn_codec (v : C) (c : Connection) : Connection := ltac:(with_field eta_connection cn_codec v c).
Definition set_cn_go_away (v : GoAwaySync) (c : Connection) : Connection := ltac:(with_field eta_connection cn_go_away v c).
Definition set_cn_ping_pong (v : PingPong Aw) (c : Connection) : Connection :=
  ltac:(with_field eta_connection cn_ping_pong v c).
Definition set_cn_settings (v : SettingsSync) (c : Connection) : Connection :=
  ltac:(with_field eta_connection cn_settings v c).
Definition set_cn_streams (v : W) (c : Connection) : Connection := ltac:(with_field eta_connection cn_streams v c).
Definition set_cn_input (v : list ReadAnswer) (c : Connection) : Connection := ltac:(with_field eta_connection cn_input v c).
Definition set_cn_output (v : Socket) (c : Connection) : Connection := ltac:(with_field eta_connection cn_output v c).

Definition cn_x (c : Connection) : X := (cn_streams c, (cn_codec c, cn_output c)).
Definition set_cn_x (x : X) (c : Connection) : Connection :=
  set_cn_streams x.1 (set_cn_codec x.2.1 (set_cn_output x.2.2 c)).

Abbreviation M := (SE Connection).

(** ** Running the components *)
Definition on_streams {E A} (c : SE W E A) : M E A := zoom cn_streams set_cn_streams c.
Definition with_settings {E A} (c : SE (SettingsSync * X) E A) : M E A :=
  zoom (fun s => (cn_settings s, cn_x s)) (fun t s => set_cn_settings t.1 (set_cn_x t.2 s)) c.
Definition with_ping_pong {E A} (c : SE (PingPong Aw * X) E A) : M E A :=
  zoom (fun s => (cn_ping_pong s, cn_x s)) (fun t s => set_cn_ping_pong t.1 (set_cn_x t.2 s)) c.
Definition with_go_away {E A} (c : SE (GoAwaySync * X) E A) : M E A :=
  zoom (fun s => (cn_go_away s, cn_x s)) (fun t s => set_cn_go_away t.1 (set_cn_x t.2 s)) c.
Definition on_go_away {E A} (c : SE GoAwaySync E A) : M E A := zoom cn_go_away set_cn_go_away c.
Definition writing {E A} (err : E) (c : SE X () A) : M E A := fun s =>
  let '(x, r) := c (cn_x s) in (set_cn_x x s, map_err (fun _ => err) r).
(** The conversion of an error by [?]. *)
Definition try {E E' A} (f : E -> E') (c : M E A) : M E' A := fun s =>
  let '(s, r) := c s in (s, map_err f r).
(** [ready!(c)?; k] *)
Definition ready_then {E A R} (c : M E (Async A)) (k : A -> M E (Async R)) : M E (Async R) :=
  x ← c;
  match x with Ready a => k a | Pending => mret Pending end.

(** [http/h2/proto/connection.rs] Connection::new *)
Definition Connection_new {E} (P : Dyn) (codec : C) (config : ConnConfig) (now : Z) (input : list ReadAnswer)
    (output : Socket) : outcome E Connection :=
  let settings := cfg_settings config in
  streams ← Streams_new P (MkConfig
    (default DEFAULT_INITIAL_WINDOW_SIZE (initial_window_size settings))
    (cfg_initial_max_send_streams config)
    (cfg_next_stream_id config)
    (Settings.is_push_enabled settings)
    (cfg_reset_stream_duration config)
    (cfg_reset_stream_max config)
    DEFAULT_INITIAL_WINDOW_SIZE
    (max_concurrent_streams settings)) now;
  Ok (MkConnection COpen None codec GoAwaySync_new PingPong_new (SettingsSync_new settings) streams input output).

(** ** Operations of the user *)

(** [http/h2/proto/connection.rs] Connection::set_target_window_size *)
Definition set_target_window_size {E} (size : Z) : M E () := on_streams (set_target_connection_window_size size).

(** [http/h2/proto/connection.rs] Connection::set_initial_window_size *)
Definition cn_set_initial_window_size (size : Z) : M UserError () :=
  let settings := Settings.set_initial_window_size (Some size) Settings.default in
  zoom cn_settings set_cn_settings (send_settings settings).

(** [http/h2/proto/connection.rs] Connection::take_user_pings *)
Definition cn_take_user_pings {E} : M E bool := zoom cn_ping_pong set_cn_ping_pong take_user_pings.

(** [http/h2/proto/connection.rs] Connection::go_away *)
Definition cn_go_away_frame {E} (id : StreamId) (e : Reason) : M E () :=
  let frame := GoAway.new id e in
  _ ← on_streams (send_go_away id);
  on_go_away (gs_go_away frame).

(** [http/h2/proto/streams/streams.rs] Streams::last_processed_id *)
Definition last_processed_id {E} : M E StreamId := gets (fun c => rv_last_processed_id (w_recv (cn_streams c))).

(** [http/h2/proto/connection.rs] Connection::go_away_now *)
Definition go_away_now {E} (e : Reason) : M E () :=
  last ← last_processed_id;
  on_go_away (gs_go_away_now (GoAway.new last e)).

(** [http/h2/proto/connection.rs] Connection::go_away_from_user *)
Definition go_away_from_user {E} (e : Reason) : M E () :=
  last ← last_processed_id;
  _ ← on_go_away (gs_go_away_from_user (GoAway.new last e));
  _ ← on_streams (recv_err (Proto e));
  mret tt.

(** [http/h2/proto/connection.rs] Connection::maybe_close_connection_if_no_streams *)
Definition maybe_close_connection_if_no_streams {E} : M E () :=
  has ← gets (fun c => has_streams_or_other_references (cn_streams c));
  if negb has then go_away_now NO_ERROR else mret tt.

(** [http/h2/proto/connection.rs] Connection::go_away_gracefully *)
Definition go_away_gracefully {E} : M E () :=
  g ← gets cn_go_away;
  if is_going_away g then mret tt
  else
    _ ← cn_go_away_frame StreamId.MAX NO_ERROR;
    zoom cn_ping_pong set_cn_ping_pong ping_shutdown.

(** [http/h2/proto/connection.rs] Connection as Drop::drop

    The connection's half of the user's pings goes with it. *)
Definition Connection_drop {E} : M E () :=
  _ ← on_streams (recv_eof true);
  u ← gets (fun c => pp_user_pings (cn_ping_pong c));
  match u with
  | Some u => with_ping_pong (users u drop_user_pings_rx)
  | None => mret tt
  end.

(** ** Polling

    [fuel] bounds the rounds of the codec's loops, [err] is the kind of the error with
    which the socket answers a write; the first such error ends a poll. *)
Section Poll.
Context (P : Dyn) (fuel : nat) (err : IoErrorKind) (cx : Waker).

(** [http/h2/proto/connection.rs] Connection::take_error *)
Definition take_error (ours : Reason) : M ProtoError (Async ()) :=
  error ← gets cn_error;
  _ ← modify (set_cn_error None);
  let reason :=
    match error with
    | Some theirs =>
        if decide (ours = NO_ERROR) then theirs
        else if decide (theirs = NO_ERROR) then ours
        else theirs
    | None => ours
    end in
  if decide (reason = NO_ERROR) then mret (Ready tt) else throw (Proto reason).

(** [http/h2/proto/connection.rs] Connection::poll_ready *)
Definition cn_poll_ready : M RecvError (Async ()) :=
  let io := try (fun _ : () => RecvIo err) in
  ready_then (io (with_ping_pong (send_pending_pong fuel))) (fun _ =>
  ready_then (io (with_ping_pong (send_pending_ping fuel cx))) (fun _ =>
  ready_then (with_settings (poll_send err fuel)) (fun _ =>
  ready_then (writing (RecvIo err) (send_pending_refusal fuel)) (fun _ =>
    mret (Ready tt))))).

(** [http/h2/proto/connection.rs] Connection::poll_go_away *)
Definition poll_go_away : M RecvError (Async (option Reason)) :=
  try (fun _ => RecvIo err) (with_go_away (send_pending_go_away fuel)).

(** [Pin::new(&mut self.codec).poll_next(cx)?] *)
Definition poll_frame : M RecvError (Async (option (Frame (B:=B)))) := fun c =>
  let '(cd, input, r) := Codec_poll_next (cn_input c) (cn_codec c) in
  (set_cn_input input (set_cn_codec cd c), r).

(** [http/h2/proto/connection.rs:318-370] what is done with a received frame *)
Definition recv_frame (frame : Frame (B:=B)) : M RecvError () :=
  match frame with
  | FHeaders frame => on_streams (recv_headers P frame)
  | FData frame => on_streams (recv_data P frame)
  | FReset frame => on_streams (recv_reset frame)
  | FPushPromise frame => on_streams (recv_push_promise frame)
  | FSettings frame => with_settings (recv_settings frame)
  | FGoAway frame =>
      _ ← on_streams (recv_go_away frame);
      modify (set_cn_error (Some (ga_error_code frame)))
  | FPing frame =>
      status ← with_ping_pong (recv_ping frame);
      if is_shutdown status then
        g ← gets cn_go_away;
        _ ← lift (assert_ (is_going_away g));
        last ← last_processed_id;
        cn_go_away_frame last NO_ERROR
      else mret tt
  | FWindowUpdate frame => on_streams (recv_window_update frame)
  | FPriority _ => mret tt
  end.

(** [http/h2/proto/connection.rs:293-376] a round of the loop of poll2; [again]: what the rounds after it do *)
Definition poll2_round (again : M RecvError (Async ())) : M RecvError (Async ()) :=
  ready_then poll_go_away (fun reason =>
    g ← gets cn_go_away;
    match reason, should_close_now g with
    | Some reason, true =>
        if gs_is_user_initiated g then mret (Ready tt) else throw (RecvConnection reason)
    | _, _ =>
        ready_then cn_poll_ready (fun _ =>
        ready_then poll_frame (fun frame =>
          match frame with
          | Some frame => _ ← recv_frame frame; again
          | None => _ ← on_streams (recv_eof false); mret (Ready tt)
          end))
    end).

(** [http/h2/proto/connection.rs:293-376] the loop of poll2 *)
Fixpoint poll2_loop (rounds : nat) : M RecvError (Async ()) :=
  match rounds with
  | O => panic
  | S rounds => poll2_round (poll2_loop rounds)
  end.

(** [http/h2/proto/connection.rs] Connection::poll2 *)
Definition poll2 (rounds : nat) : M RecvError (Async ()) :=
  _ ← on_streams clear_expired_reset_streams;
  poll2_loop rounds.

(** The outcome of [poll2] as a value. *)
Definition outcome_of {E E' A} (c : M E A) : M E' (E + A) := fun s =>
  match c s with
  | (s, Ok a) => (s, Ok (inr a))
  | (s, Err e) => (s, Ok (inl e))
  | (s, Panic) => (s, Panic)
  end.

(** [http/h2/proto/connection.rs:209-271] a round of poll in the open state; [None]: another round *)
Definition poll_open (rounds : nat) : M ProtoError (option (Async ())) :=
  r ← outcome_of (poll2 rounds);
  match r with
  | inr (Ready _) => _ ← modify (set_cn_state (CClosing NO_ERROR)); mret None
  | inr Pending =>
      done ← writing (Io err) (streams_poll_complete rounds fuel cx);
      match done with
      | Pending => mret (Some Pending)
      | Ready _ =>
          c ← get;
          if (bool_decide (cn_error c <> None) || should_close_on_idle (cn_go_away c)) &&
             negb (Counts.has_streams (w_counts (cn_streams c)))
          then _ ← go_away_now NO_ERROR; mret None
          else mret (Some Pending)
      end
  | inl (RecvConnection e) =>
      g ← gets cn_go_away;
      if decide (going_away_reason g = Some e) then
        _ ← modify (set_cn_state (CClosing e)); mret None
      else
        _ ← on_streams (recv_err (Proto e));
        _ ← go_away_now e;
        mret None
  | inl (RecvStream id reason) => _ ← on_streams (send_reset id reason); mret None
  | inl (RecvIo e) =>
      _ ← on_streams (recv_err (Io e));
      throw (Io e)
  end.

(** [http/h2/proto/connection.rs] Connection::poll *)
Fixpoint cn_poll (turns rounds : nat) : M ProtoError (Async ()) :=
  match turns with
  | O => panic
  | S turns =>
      state ← gets cn_state;
      match state with
      | COpen =>
          r ← poll_open rounds;
          match r with Some r => mret r | None => cn_poll turns rounds end
      | CClosing reason =>
          ready_then (writing (Io err) (on_socket (Codec_shutdown fuel))) (fun _ =>
            _ ← modify (set_cn_state (CClosed reason));
            cn_poll turns rounds)
      | CClosed reason => take_error reason
      end
  end.
End Poll.
End Connection.
