(* ===== verification/H2Account.v ===== *)
(** * The accounts of the streams

    What the shared state of a connection owes to whom: the connection's send window
    covers the capacity handed to the streams, the data in flight on the streams is
    charged to the connection, and the counts are the numbers of counted streams.
    The file states this invariant and shows that the basic steps (a field that is
    not accounted for, a queue, a deque, the counts) keep it. *)

From S2P Require Import Prelude Bytes H2Types FlowControl StreamState Slab HttpTypes Frames HeadersFrame FramedRead.
From S2P Require Import H2Buffer H2Store H2World H2Send H2Recv.

(** ** Sums over a finite map *)

Definition map_sum {A} (f : A -> Z) (m : gmap nat A) : Z := map_fold (fun _ a n => f a + n) 0 m.

Section MapSum.
Context {A : Type} (f : A -> Z).
Implicit Types (m : gmap nat A).

Lemma map_sum_empty : map_sum f ∅ = 0.
Proof. apply map_fold_empty. Qed.

Lemma map_sum_insert m k a : m !! k = None -> map_sum f (<[k := a]> m) = f a + map_sum f m.
Proof. intros Hk. apply (map_fold_insert_L (fun _ a n => f a + n)); [intros; lia|done]. Qed.

Lemma map_sum_delete m k a : m !! k = Some a -> map_sum f m = f a + map_sum f (delete k m).
Proof. intros Hk. apply (map_fold_delete_L (fun _ a n => f a + n)); [intros; lia|done]. Qed.

Lemma map_sum_update m k a a' : m !! k = Some a -> map_sum f (<[k := a']> m) = map_sum f m - f a + f a'.
Proof.
  intros Hk. rewrite <- insert_delete_eq, map_sum_insert by apply lookup_delete_eq.
  rewrite (map_sum_delete m k a) by done. lia.
Qed.

Lemma map_sum_nonneg m : (forall k a, m !! k = Some a -> 0 <= f a) -> 0 <= map_sum f m.
Proof.
  induction m as [|k a m Hk IH] using map_ind; intros Hf; [by rewrite map_sum_empty|].
  rewrite map_sum_insert by done. assert (0 <= f a) by (apply (Hf k); apply lookup_insert_eq).
  assert (0 <= map_sum f m); [|lia]. apply IH. intros k' a' Hk'. apply (Hf k').
  rewrite lookup_insert_ne by congruence. done.
Qed.

Lemma map_sum_ge m k a : (forall k a, m !! k = Some a -> 0 <= f a) -> m !! k = Some a -> f a <= map_sum f m.
Proof.
  intros Hf Hk. rewrite (map_sum_delete m k a) by done.
  assert (0 <= map_sum f (delete k m)); [|lia]. apply map_sum_nonneg.
  intros k' a' Hk'. apply (Hf k'). by apply lookup_delete_Some in Hk' as [_ ?].
Qed.

Lemma map_sum_pos m :
  (forall k a, m !! k = Some a -> 0 <= f a) -> 0 < map_sum f m <-> exists k a, m !! k = Some a /\ 0 < f a.
Proof.
  intros Hf. split.
  - revert Hf. induction m as [|k a m Hk IH] using map_ind; intros Hf; [by rewrite map_sum_empty|].
    rewrite map_sum_insert by done. intros Hp. destruct (decide (0 < f a)) as [Ha|Ha].
    + exists k, a. by rewrite lookup_insert_eq.
    + assert (forall k' a', m !! k' = Some a' -> <[k := a]> m !! k' = Some a') as Hm.
      { intros k' a' Hk'. rewrite lookup_insert_ne by congruence. done. }
      destruct IH as (k' & a' & Hk' & Ha'); [by eauto|lia|]. exists k', a'. eauto.
  - intros (k & a & Hk & Ha). pose proof (map_sum_ge m k a Hf Hk). lia.
Qed.
End MapSum.

(** ** Triples

    From a state of [P], the code returns in [Q], or fails in [R]; a panic poisons the
    lock of the shared state, and nothing is claimed of what is behind it. *)
Definition triple {W E A} (P : W -> Prop) (c : SE W E A) (Q : A -> W -> Prop) (R : E -> W -> Prop) : Prop :=
  forall w, P w -> match c w with (w', Ok a) => Q a w' | (w', Err e) => R e w' | (_, Panic) => True end.

(** Code that keeps an invariant, whether it returns or fails. *)
Definition kept {W E A} (J : W -> Prop) (c : SE W E A) : Prop := triple J c (fun _ => J) (fun _ => J).

Section Triples.
Context {W E A B : Type}.
Implicit Types (P J : W -> Prop) (c : SE W E A).

Lemma triple_bind P c (k : A -> SE W E B) Q Q' R :
  triple P c Q R -> (forall a, triple (Q a) (k a) Q' R) -> triple P (c ≫= k) Q' R.
Proof.
  intros Hc Hk w Hw. specialize (Hc w Hw). unfold mbind, SE_bind.
  destruct (c w) as [w' [a|e|]]; [by apply Hk|done|done].
Qed.

Lemma triple_conseq P P' c Q Q' R R' :
  (forall w, P w -> P' w) -> (forall a w, Q' a w -> Q a w) -> (forall e w, R' e w -> R e w) ->
  triple P' c Q' R' -> triple P c Q R.
Proof. intros HP HQ HR Hc w Hw. specialize (Hc w (HP w Hw)). destruct (c w) as [w' [a|e|]]; auto. Qed.

Lemma triple_mret P (a : A) R : triple P (mret a : SE W E A) (fun a' w => a' = a /\ P w) R.
Proof. by intros w Hw. Qed.
Lemma triple_gets P (f : W -> A) R : triple P (gets f : SE W E A) (fun a w => a = f w /\ P w) R.
Proof. by intros w Hw. Qed.
Lemma triple_get P R : triple P (get : SE W E W) (fun a w => a = w /\ P w) R.
Proof. by intros w Hw. Qed.
Lemma triple_modify P (f : W -> W) (Q : () -> W -> Prop) R :
  (forall w, P w -> Q tt (f w)) -> triple P (modify f : SE W E ()) Q R.
Proof. intros H w Hw. by apply H. Qed.
Lemma triple_lift P (o : outcome E A) (R : E -> W -> Prop) :
  (forall e w, o = Err e -> P w -> R e w) -> triple P (lift o) (fun a w => o = Ok a /\ P w) R.
Proof. intros HR w Hw. simpl. destruct o; naive_solver. Qed.
Lemma triple_panic P Q R : triple P (panic : SE W E A) Q R.
Proof. by intros w Hw. Qed.
Lemma triple_throw P (e : E) (Q : A -> W -> Prop) : triple P (throw e : SE W E A) Q (fun e' w => e' = e /\ P w).
Proof. by intros w Hw. Qed.

Lemma kept_mret J (a : A) : kept J (mret a : SE W E A).
Proof. by intros w Hw. Qed.
Lemma kept_gets J (f : W -> A) : kept J (gets f : SE W E A).
Proof. by intros w Hw. Qed.
Lemma kept_get J : kept J (get : SE W E W).
Proof. by intros w Hw. Qed.
Lemma kept_lift J (o : outcome E A) : kept J (lift o : SE W E A).
Proof. intros w Hw. simpl. by destruct o. Qed.
Lemma kept_panic J : kept J (panic : SE W E A).
Proof. by intros w Hw. Qed.
Lemma kept_throw J (e : E) : kept J (throw e : SE W E A).
Proof. by intros w Hw. Qed.
Lemma kept_bind J c (k : A -> SE W E B) : kept J c -> (forall a, kept J (k a)) -> kept J (c ≫= k).
Proof. apply triple_bind. Qed.
Lemma kept_rethrow J (r : E + A) : kept J (rethrow r : SE W E A).
Proof. destruct r; [apply kept_throw|apply kept_mret]. Qed.
End Triples.

Lemma kept_fmap {W E A B} (J : W -> Prop) (c : SE W E A) (f : A -> B) : kept J c -> kept J (f <$> c).
Proof. intros Hc w Hw. specialize (Hc w Hw). unfold fmap, SE_fmap. by destruct (c w) as [w' [a|e|]]. Qed.

Lemma triple_attempt {W E E' A} (P : W -> Prop) (c : SE W E A) Q R (R' : E' -> W -> Prop) :
  triple P c Q R -> triple P (attempt c) (fun r w => match r with inl e => R e w | inr a => Q a w end) R'.
Proof. intros Hc w Hw. specialize (Hc w Hw). unfold attempt. by destruct (c w) as [w' [a|e|]]. Qed.

Lemma kept_attempt {W E E' A} (J : W -> Prop) (c : SE W E A) : kept J c -> kept J (attempt c : SE W E' _).
Proof. intros Hc w Hw. specialize (Hc w Hw). unfold attempt. by destruct (c w) as [w' [a|e|]]. Qed.

Create HintDb kept.
#[export] Hint Resolve kept_mret kept_gets kept_get kept_lift kept_panic kept_throw kept_rethrow kept_fmap kept_attempt : kept.
#[export] Hint Extern 1 (kept _ (_ ≫= _)) => apply kept_bind; [|intros] : kept.
#[export] Hint Extern 2 (kept _ (match ?x with _ => _ end)) => destruct x : kept.
#[export] Hint Extern 1 (kept _ (let _ := _ in _)) => cbv zeta : kept.

(** ** The invariant *)

(** Send capacity assigned to a stream, and its send window. *)
Definition cap (s : Stream) : Z := window_i32 (available (s_send_flow s)).
Definition send_window (s : Stream) : Z := credit (s_send_flow s).

(** One for a stream that is counted against a concurrency limit. *)
Definition counted (s : Stream) : Z := if s_is_counted s then 1 else 0.

(** What was reserved beyond the data that waits has been assigned; a stream that is
    closed reserves nothing any more. *)
Definition granted (s : Stream) : Prop :=
  State.is_closed (s_state s) = true \/ s_requested_send_capacity s <= s_buffered_send_data s + cap s.

(** A stream holds no more capacity than its window allows and than it asked for.
    With [g], its reservation is granted as well. *)
Record stream_ok (g : bool) (s : Stream) : Prop := MkStreamOk {
  ok_flow : flow_wf (s_send_flow s);
  ok_cap : 0 <= cap s <= Z.max 0 (send_window s);
  ok_cap_requested : cap s <= s_requested_send_capacity s;
  ok_requested : in_u 32 (s_requested_send_capacity s);
  ok_buffered : in_u 32 (s_buffered_send_data s);
  ok_in_flight : 0 <= s_in_flight_recv_data s;
  ok_granted : g = true -> granted s
}.
Arguments ok_flow {g s}.
Arguments ok_cap {g s}.
Arguments ok_in_flight {g s}.
Arguments ok_granted {g s}.

(** The connection's send window is [v], of which [a] bytes are set aside; [b] received
    bytes are charged to the connection and to no stream; [t] is the target of the
    receive window, [i] the initial send window of a stream. *)
Record accounts (g : bool) (t v a b : Z) (m : gmap nat Stream) (pf rf : FlowControl) (in_flight i : Z)
    (c : Counts) : Prop := MkAccounts {
  acc_streams : map_Forall (fun _ => stream_ok g) m;
  acc_send_wf : flow_wf pf;
  acc_credit : credit pf = v;
  acc_send_available : 0 <= window_i32 (available pf);
  acc_send : window_i32 (available pf) + map_sum cap m + a <= v;
  acc_recv_wf : flow_wf rf;
  acc_recv_window : 0 <= credit rf;
  acc_recv_total : credit rf + in_flight <= MAX_WINDOW_SIZE;
  acc_recv : map_sum s_in_flight_recv_data m + b <= in_flight;
  acc_recv_target : window_i32 (available rf) + in_flight = t;
  acc_target : 0 <= t <= MAX_WINDOW_SIZE;
  acc_init : 0 <= i <= MAX_WINDOW_SIZE;
  acc_counts : num_send_streams c + num_recv_streams c = map_sum counted m;
  acc_num_send : 0 <= num_send_streams c;
  acc_num_recv : 0 <= num_recv_streams c
}.
Arguments acc_streams {g t v a b m pf rf in_flight i c}.
Arguments acc_send_wf {g t v a b m pf rf in_flight i c}.
Arguments acc_credit {g t v a b m pf rf in_flight i c}.
Arguments acc_send_available {g t v a b m pf rf in_flight i c}.
Arguments acc_send {g t v a b m pf rf in_flight i c}.
Arguments acc_recv {g t v a b m pf rf in_flight i c}.

(** What a step may do to a stream without an entry in the accounts; the state matters
    only to the reservations. *)
Definition same_account (s s' : Stream) : Prop :=
  s_id s' = s_id s /\ s_is_counted s' = s_is_counted s /\ s_send_flow s' = s_send_flow s /\
  s_requested_send_capacity s' = s_requested_send_capacity s /\
  s_buffered_send_data s' = s_buffered_send_data s /\ s_in_flight_recv_data s' = s_in_flight_recv_data s.
Definition quiet (s s' : Stream) : Prop := same_account s s' /\ s_state s' = s_state s.
Definition plain (f : Stream -> Stream) : Prop := forall s, quiet s (f s).
#[export] Hint Extern 0 (plain _) => (intros ?; repeat split) : kept.

Lemma same_account_ok g s s' :
  same_account s s' ->
  (g = true -> State.is_closed (s_state s) = true -> State.is_closed (s_state s') = true) ->
  stream_ok g s -> stream_ok g s'.
Proof.
  intros (_ & _ & Hf & Hr & Hb & Hi) Hst [? ? ? ? ? ? Hg].
  split; unfold granted, cap, send_window in *; rewrite ?Hf, ?Hr, ?Hb, ?Hi; try done.
  intros ->. destruct (Hg eq_refl); [left; by apply Hst|by right].
Qed.

(** The accounts after one stream has changed. *)
Lemma accounts_update g t v a b a' b' m k s s' pf rf n i c :
  accounts g t v a b m pf rf n i c -> m !! k = Some s -> stream_ok g s' ->
  s_id s' = s_id s -> s_is_counted s' = s_is_counted s ->
  a' + cap s' <= a + cap s ->
  b' + s_in_flight_recv_data s' <= b + s_in_flight_recv_data s ->
  accounts g t v a' b' (<[k := s']> m) pf rf n i c.
Proof.
  intros [Hs ? ? ? ? ? ? ? ? ? ? ? ? ? ?] Hk Hok Hid Hc Ha Hb.
  assert (counted s' = counted s) as Hcs by (unfold counted; by rewrite Hc).
  split; try done; rewrite ?(map_sum_update _ m k s s') by done; rewrite ?Hcs; try lia.
  by apply map_Forall_insert_2.
Qed.

Section Accounts.
Context {g : bool} {t v a b : Z} {m : gmap nat Stream} {pf rf : FlowControl} {n i : Z} {c : Counts}.
Context (H : accounts g t v a b m pf rf n i c).

Lemma accounts_stream {k s} : m !! k = Some s -> stream_ok g s.
Proof. intros Hk. exact (acc_streams H k s Hk). Qed.

Lemma cap_sum_nonneg : 0 <= map_sum cap m.
Proof. apply map_sum_nonneg. intros k s Hk. by destruct (ok_cap (accounts_stream Hk)). Qed.

(** The capacity of one stream, within that of the connection. *)
Lemma accounts_cap {k s} : m !! k = Some s -> cap s + a <= v.
Proof.
  intros Hk. pose proof (acc_send H). pose proof (acc_send_available H).
  assert (cap s <= map_sum cap m); [|lia]. apply (map_sum_ge _ m k); [|done].
  intros k' s' Hk'. by destruct (ok_cap (accounts_stream Hk')).
Qed.

(** The data in flight on one stream, within that of the connection. *)
Lemma accounts_in_flight {k s} : m !! k = Some s -> s_in_flight_recv_data s + b <= n.
Proof.
  intros Hk. pose proof (acc_recv H).
  assert (s_in_flight_recv_data s <= map_sum s_in_flight_recv_data m); [|lia]. apply (map_sum_ge _ m k); [|done].
  intros k' s' Hk'. exact (ok_in_flight (accounts_stream Hk')).
Qed.

Lemma accounts_weaken a' b' : a' <= a -> b' <= b -> accounts false t v a' b' m pf rf n i c.
Proof. intros Ha Hb. destruct H as [Hs]. split; try done; try lia. intros k s Hk. by destruct (Hs k s Hk). Qed.
End Accounts.

Section Account.
Context {Ss Im Bf Rf : Type} {SS : Slab Stream Ss} {IM : IndexMap StreamId nat Im}.
Abbreviation W := (World Ss Im Bf Rf).
Implicit Types (m : gmap nat Stream) (st : Store Ss Im) (w : W).

Definition holds (sl : Ss) m : Prop := forall k, slab_get sl k = m !! k.

Definition store_in (A : gmap nat Stream -> Prop) st : Prop := exists m, holds (st_slab st) m /\ A m.

(** A property of the streams and of the connection's side of the accounts. *)
Definition stored (A : FlowControl -> FlowControl -> Z -> Z -> Counts -> gmap nat Stream -> Prop) w : Prop :=
  store_in (A (p_flow (w_prio w)) (rv_flow (w_recv w)) (rv_in_flight_data (w_recv w)) (sd_init_window_sz (w_send w)) (w_counts w)) (w_store w).

Definition accounted (g : bool) (t v a b : Z) : W -> Prop := stored (fun pf rf n i c m => accounts g t v a b m pf rf n i c).

(** ** The store *)

Lemma holds_index st m key s :
  holds (st_slab st) m -> index key st = Some s -> m !! key_index key = Some s /\ s_id s = key_stream_id key.
Proof.
  unfold index. intros Hm Hi. rewrite Hm in Hi. destruct (m !! key_index key) as [s'|]; [|done].
  case_decide; by simplify_eq.
Qed.

Lemma holds_put st m key s s' :
  holds (st_slab st) m -> m !! key_index key = Some s ->
  holds (st_slab (put key s' st)) (<[key_index key := s']> m).
Proof.
  intros Hm Hk k. simpl. rewrite slab_set_get by (rewrite Hm, Hk; done). case_decide; subst.
  - by rewrite lookup_insert_eq.
  - by rewrite lookup_insert_ne.
Qed.

Lemma holds_insert (sl : Ss) m s :
  holds sl m ->
  m !! (slab_insert s sl).2 = None /\ holds (slab_insert s sl).1 (<[(slab_insert s sl).2 := s]> m).
Proof.
  intros Hm. destruct (slab_insert_get s sl) as [Hf Hg]. split; [by rewrite <- Hm|].
  intros k. rewrite Hg. case_decide; subst; [by rewrite lookup_insert_eq|by rewrite lookup_insert_ne].
Qed.

Lemma holds_remove (sl : Ss) m k s : holds sl m -> m !! k = Some s -> holds (slab_remove k sl) (delete k m).
Proof.
  intros Hm Hk k'. rewrite slab_remove_get by (rewrite Hm, Hk; done).
  case_decide; subst; [by rewrite lookup_delete_eq|by rewrite lookup_delete_ne].
Qed.

Lemma holds_index_put st m key s s' :
  holds (st_slab st) m -> index key st = Some s -> s_id s' = s_id s ->
  index key (put key s' st) = Some s'.
Proof.
  intros Hm Hi Hid. destruct (holds_index st m key s Hm Hi) as [Hk Hks].
  unfold index. rewrite (holds_put st m key s s' Hm Hk), lookup_insert_eq.
  rewrite decide_True by congruence. done.
Qed.

End Account.

(** * The basic steps keep the accounts

    Reading and writing a stream, its methods, the queues, the deques, the counts and
    the loops over streams. *)

(** Queue links are not accounted for. *)
Class PlainNext (N : Type) `{Next N} : Prop := {
  plain_set_next k : plain (set_next (N:=N) k);
  plain_set_queued now b : plain (set_queued (N:=N) now b)
}.
#[export] Instance Accept_plain : PlainNext NextAccept.
Proof. split; intros; intros s; repeat split. Qed.
#[export] Instance Send_plain : PlainNext NextSend.
Proof. split; intros; intros s; repeat split. Qed.
#[export] Instance SendCapacity_plain : PlainNext NextSendCapacity.
Proof. split; intros; intros s; repeat split. Qed.
#[export] Instance WindowUpdate_plain : PlainNext NextWindowUpdate.
Proof. split; intros; intros s; repeat split. Qed.
#[export] Instance Open_plain : PlainNext NextOpen.
Proof. split; intros; intros s; repeat split. Qed.
#[export] Instance ResetExpire_plain : PlainNext NextResetExpire.
Proof. split; intros; intros s; repeat split. Qed.

Section Store.
Context {Ss Im : Type} {SS : Slab Stream Ss} {IM : IndexMap StreamId nat Im} {E : Type}.
Abbreviation St := (Store Ss Im).

(** A property of the streams that does not see plain changes. *)
Definition closed (A : gmap nat Stream -> Prop) : Prop :=
  forall m k s s', A m -> m !! k = Some s -> quiet s s' -> A (<[k := s']> m).

Context (A : gmap nat Stream -> Prop) (HA : closed A).

Lemma kept_deref key : kept (store_in A) (deref key : SE St E Stream).
Proof. intros st Hst. unfold deref. by destruct (index key st). Qed.

Lemma kept_deref_mut key f : plain f -> kept (store_in A) (deref_mut key f : SE St E ()).
Proof.
  intros Hf st (m & Hm & Ha). unfold deref_mut. destruct (index key st) as [s|] eqn:Hi; [|done].
  destruct (holds_index st m key s Hm Hi) as [Hk _].
  exists (<[key_index key := f s]> m). split; [by eapply holds_put|by eapply HA].
Qed.

Lemma kept_unlink key : kept (store_in A) (unlink key : SE St E ()).
Proof. by intros st Hst. Qed.

Context (N : Type) `{PlainNext N}.
Abbreviation J := (fun x : Queue * St => store_in A x.2).

Lemma kept_q_store {B} (c : SE St E B) : kept (store_in A) c -> kept J (Queue.on_store c).
Proof.
  intros Hc x Hx. specialize (Hc x.2 Hx). unfold Queue.on_store, zoom.
  by destruct (c x.2) as [st [b|e|]].
Qed.
Lemma kept_set_indices i : kept J (Queue.set_indices i : SE (Queue * St) E ()).
Proof. by intros x Hx. Qed.
#[local] Hint Resolve kept_q_store kept_deref kept_deref_mut kept_set_indices plain_set_next plain_set_queued : kept.

Lemma kept_queue_push now key : kept J (Queue.push N now key : SE (Queue * St) E bool).
Proof. unfold Queue.push. auto 12 with kept. Qed.
Lemma kept_queue_pop now : kept J (Queue.pop N now : SE (Queue * St) E (option Key)).
Proof. unfold Queue.pop. auto 14 with kept. Qed.
Lemma kept_queue_pop_if now f : kept J (Queue.pop_if N now f : SE (Queue * St) E (option Key)).
Proof. unfold Queue.pop_if. pose proof kept_queue_pop. auto 12 with kept. Qed.
End Store.

(** ** The world *)

Lemma accounts_same g t v a b m pf rf n i c k s s' :
  accounts g t v a b m pf rf n i c -> m !! k = Some s -> same_account s s' ->
  (g = true -> State.is_closed (s_state s) = true -> State.is_closed (s_state s') = true) ->
  accounts g t v a b (<[k := s']> m) pf rf n i c.
Proof.
  intros H Hk Hs Hst. pose proof Hs as (Hid & Hc & Hf & _ & _ & Hi).
  eapply accounts_update; try done; unfold cap; rewrite ?Hf, ?Hi; try lia.
  eapply same_account_ok; [done..|]. by eapply accounts_stream.
Qed.

Lemma accounts_closed g t v a b pf rf n i c : closed (fun m => accounts g t v a b m pf rf n i c).
Proof. intros m k s s' H Hk [Hs Hst]. eapply accounts_same; [done..|]. by rewrite Hst. Qed.

Section World.
Context {Ss Im Bf Rf : Type} {SS : Slab Stream Ss} {IM : IndexMap StreamId nat Im}.
Abbreviation W := (World Ss Im Bf Rf).
Implicit Types (w : W).

(** An invariant that plain steps keep. *)
Class PlainInv (J : W -> Prop) : Prop :=
  plain_inv : exists A, (forall w, J w <-> stored A w) /\ forall pf rf n i c, closed (A pf rf n i c).

#[export] Instance accounted_plain g t v a b : PlainInv (accounted g t v a b).
Proof. eexists. split; [done|]. intros. apply accounts_closed. Qed.

Context {E : Type} (J : W -> Prop) {HJ : PlainInv J}.

(** A new store behind the same connection state. *)
Lemma kept_on_store {B} (c : SE (Store Ss Im) E B) :
  (forall A, closed A -> kept (store_in A) c) -> kept J (on_store c : SE W E B).
Proof.
  intros Hc w Hw. destruct HJ as (A & HA & HC). rewrite HA in Hw. specialize (Hc _ (HC _ _ _ _ _) _ Hw).
  unfold on_store, zoom. destruct (c (w_store w)) as [st [x|e|]]; [| |done]; by apply HA.
Qed.

Lemma kept_stream key : kept J (stream key : SE W E Stream).
Proof. apply kept_on_store. intros. by apply kept_deref. Qed.
Lemma kept_upd key f : plain f -> kept J (upd key f : SE W E ()).
Proof. intros Hf. apply kept_on_store. intros. by apply kept_deref_mut. Qed.
Lemma kept_w_unlink key : kept J (on_store (unlink key) : SE W E ()).
Proof. apply kept_on_store. intros. apply kept_unlink. Qed.

(** The stream behind a key that was just read. *)
Lemma triple_stream key R :
  triple J (stream key : SE W E Stream) (fun s w => J w /\ index key (w_store w) = Some s) R.
Proof.
  intros w Hw. unfold stream, on_store, zoom, deref. destruct (index key (w_store w)) eqn:Hi; [|done].
  by destruct w.
Qed.

(** A world whose stores differ by a plain change of one stream. *)
Lemma plain_put w w' key s s' :
  J w -> index key (w_store w) = Some s -> quiet s s' ->
  p_flow (w_prio w') = p_flow (w_prio w) -> rv_flow (w_recv w') = rv_flow (w_recv w) ->
  rv_in_flight_data (w_recv w') = rv_in_flight_data (w_recv w) -> sd_init_window_sz (w_send w') = sd_init_window_sz (w_send w) -> w_counts w' = w_counts w ->
  w_store w' = put key s' (w_store w) -> J w'.
Proof.
  intros Hw Hi Hs H1 H2 H3 H4 H5 H6. destruct HJ as (A & HA & HC). rewrite HA in *.
  destruct Hw as (m & Hm & Ha). destruct (holds_index _ m key s Hm Hi) as [Hk _].
  unfold stored. rewrite H1, H2, H3, H4, H5, H6.
  exists (<[key_index key := s']> m). split; [by eapply holds_put|]. by eapply HC.
Qed.

(** A world with the same accounts and store. *)
Lemma plain_world w w' :
  p_flow (w_prio w') = p_flow (w_prio w) -> rv_flow (w_recv w') = rv_flow (w_recv w) ->
  rv_in_flight_data (w_recv w') = rv_in_flight_data (w_recv w) -> sd_init_window_sz (w_send w') = sd_init_window_sz (w_send w) -> w_counts w' = w_counts w ->
  w_store w' = w_store w -> J w -> J w'.
Proof. intros H1 H2 H3 H4 H5 H6. destruct HJ as (A & HA & HC). rewrite !HA. unfold stored. by rewrite H1, H2, H3, H4, H5, H6. Qed.

Definition plain_method {B} (c : SE (Stream * list Waker) E B) : Prop :=
  forall s l, quiet s (c (s, l)).1.1.

Lemma kept_on_stream {B} key (c : SE (Stream * list Waker) E B) :
  plain_method c -> kept J (on_stream key c : SE W E B).
Proof.
  intros Hc w Hw. unfold on_stream. destruct (index key (w_store w)) as [s|] eqn:Hi; [|done].
  specialize (Hc s (w_woken w)). destruct (c (s, w_woken w)) as [[s' l] r]; simpl in *.
  assert (J (set_woken l (set_store (put key s' (w_store w)) w))) by (by eapply plain_put).
  by destruct r.
Qed.

Lemma kept_on_pending_send {B} key (c : SE (Deque * Bf) E B) : kept J (on_pending_send key c : SE W E B).
Proof.
  intros w Hw. unfold on_pending_send. destruct (index key (w_store w)) as [s|] eqn:Hi; [|done].
  destruct (c _) as [[d bf] r].
  assert (J (set_send_buffer bf (set_store (put key (set_pending_send d s) (w_store w)) w))); [|by destruct r].
  eapply plain_put; [exact Hw|exact Hi| |done..]. by repeat split.
Qed.

Lemma kept_on_pending_recv {B} key (c : SE (Deque * Rf) E B) : kept J (on_pending_recv key c : SE W E B).
Proof.
  intros w Hw. unfold on_pending_recv. destruct (index key (w_store w)) as [s|] eqn:Hi; [|done].
  destruct (c _) as [[d bf] r].
  assert (J (set_recv (set_rv_buffer bf (w_recv w)) (set_store (put key (set_pending_recv d s) (w_store w)) w)));
    [|by destruct r].
  eapply plain_put; [exact Hw|exact Hi| |done..]. by repeat split.
Qed.

(** A queue of the world is not accounted for. *)
Class PlainQueue (q : QueueAt W) : Prop := plain_queue x w :
  p_flow (w_prio (q_set q x w)) = p_flow (w_prio w) /\ rv_flow (w_recv (q_set q x w)) = rv_flow (w_recv w) /\
  rv_in_flight_data (w_recv (q_set q x w)) = rv_in_flight_data (w_recv w) /\
  sd_init_window_sz (w_send (q_set q x w)) = sd_init_window_sz (w_send w) /\ w_counts (q_set q x w) = w_counts w /\ w_store (q_set q x w) = w_store w.

Lemma kept_on_queue {B} q `{PlainQueue q} (c : SE (Queue * Store Ss Im) E B) :
  (forall A, closed A -> kept (fun x : Queue * Store Ss Im => store_in A x.2) c) -> kept J (on_queue q c : SE W E B).
Proof.
  intros Hc w Hw. pose proof HJ as (A & HA & HC). rewrite HA in Hw.
  specialize (Hc _ (HC _ _ _ _ _) (q_view q w, w_store w) Hw).
  unfold on_queue, zoom. destruct (c _) as [[x st] r]. simpl in *.
  assert (r <> Panic -> J (q_set q x (set_store st w))) as H'; [|by destruct r; [apply H'|apply H'|]].
  intros Hr. destruct (plain_queue (q:=q) x (set_store st w)) as (? & ? & ? & ? & ? & ?).
  eapply plain_world; [done..|]. apply HA. by destruct r.
Qed.

Lemma kept_push N `{PlainNext N} q `{PlainQueue q} key : kept J (push N q key : SE W E bool).
Proof.
  apply kept_bind; [apply kept_gets|intros now]. apply kept_on_queue; [done|]. intros. by apply kept_queue_push.
Qed.
Lemma kept_pop N `{PlainNext N} q `{PlainQueue q} : kept J (pop N q : SE W E (option Key)).
Proof.
  apply kept_bind; [apply kept_gets|intros now]. apply kept_on_queue; [done|]. intros. by apply kept_queue_pop.
Qed.

#[export] Instance pending_send_plain : PlainQueue pending_send. Proof. by intros x w. Qed.
#[export] Instance pending_capacity_plain : PlainQueue pending_capacity. Proof. by intros x w. Qed.
#[export] Instance pending_open_plain : PlainQueue pending_open. Proof. by intros x w. Qed.
#[export] Instance pending_window_updates_plain : PlainQueue pending_window_updates. Proof. by intros x w. Qed.
#[export] Instance pending_accept_plain : PlainQueue pending_accept. Proof. by intros x w. Qed.
#[export] Instance pending_reset_expired_plain : PlainQueue pending_reset_expired. Proof. by intros x w. Qed.

Lemma kept_modify f : (forall w, J w -> J (f w)) -> kept J (modify f : SE W E ()).
Proof. intros Hf w Hw. by apply Hf. Qed.
Lemma kept_wake_task : kept J (wake_task : SE W E ()).
Proof. intros w Hw. unfold wake_task, modify. destruct (w_task w); [|done]. eapply plain_world; [..|exact Hw]; done. Qed.
End World.

(** The methods of a stream, other than [assign_capacity]. *)
Section Methods.
Context {E : Type}.
Lemma plain_notify_send : plain_method (notify_send : SE (Stream * list Waker) E ()).
Proof. intros s l. unfold notify_send, mbind, SE_bind, update, wake. simpl. destruct (s_send_task s); by repeat split. Qed.
Lemma plain_notify_recv : plain_method (notify_recv : SE (Stream * list Waker) E ()).
Proof. intros s l. unfold notify_recv, mbind, SE_bind, update, wake. simpl. destruct (s_recv_task s); by repeat split. Qed.
Lemma plain_wait_send cx : plain_method (wait_send cx : SE (Stream * list Waker) E ()).
Proof. intros s l. by repeat split. Qed.
Lemma plain_ref_inc : plain_method (ref_inc : SE (Stream * list Waker) E ()).
Proof. intros s l. unfold ref_inc, mbind, SE_bind, update, assert_. simpl. destruct (_ <? _); by repeat split. Qed.
Lemma plain_ref_dec : plain_method (ref_dec : SE (Stream * list Waker) E ()).
Proof. intros s l. unfold ref_dec, mbind, SE_bind, update, assert_. simpl. destruct (_ <? _); by repeat split. Qed.
End Methods.
Lemma plain_dec_content_length n : plain_method (dec_content_length n).
Proof.
  intros s l. unfold dec_content_length, mbind, SE_bind, update. simpl.
  destruct (s_content_length s); try (by repeat split). destruct (_ <=? _); by repeat split.
Qed.
#[export] Hint Resolve plain_notify_send plain_notify_recv plain_wait_send plain_ref_inc plain_ref_dec
  plain_dec_content_length : kept.

Section Put.
Context {Ss Im Bf Rf : Type} {SS : Slab Stream Ss} {IM : IndexMap StreamId nat Im}.
Implicit Types (w : World Ss Im Bf Rf).

(** Writing a stream back: what it gives up is set aside. *)
Lemma accounted_put g t v a b w key s s' a' b' :
  accounted g t v a b w -> index key (w_store w) = Some s -> stream_ok g s' ->
  s_id s' = s_id s -> s_is_counted s' = s_is_counted s ->
  a' + cap s' <= a + cap s -> b' + s_in_flight_recv_data s' <= b + s_in_flight_recv_data s ->
  accounted g t v a' b' (set_store (put key s' (w_store w)) w).
Proof.
  intros (m & Hm & Ha) Hi. intros. destruct (holds_index _ m key s Hm Hi) as [Hk _].
  exists (<[key_index key := s']> m). split; [by eapply holds_put|]. by eapply accounts_update.
Qed.

Lemma accounted_stream {g t v a b w key s} :
  accounted g t v a b w -> index key (w_store w) = Some s -> stream_ok g s.
Proof.
  intros (m & Hm & Ha) Hi. destruct (holds_index _ m key s Hm Hi) as [Hk _]. by eapply accounts_stream.
Qed.

Lemma accounted_weaken g t v a b a' b' w :
  a' <= a -> b' <= b -> accounted g t v a b w -> accounted false t v a' b' w.
Proof. intros Ha Hb (m & Hm & H). exists m. split; [done|]. by eapply accounts_weaken. Qed.

(** What is known of the stream behind a key. *)
Definition at_ (P : World Ss Im Bf Rf -> Prop) (key : Key) (s : Stream) w : Prop := P w /\ index key (w_store w) = Some s.

Lemma triple_upd {E} g t v a b a' b' key s f R :
  stream_ok g (f s) -> s_id (f s) = s_id s -> s_is_counted (f s) = s_is_counted s ->
  a' + cap (f s) <= a + cap s -> b' + s_in_flight_recv_data (f s) <= b + s_in_flight_recv_data s ->
  triple (at_ (accounted g t v a b) key s) (upd key f : SE (World Ss Im Bf Rf) E ())
    (fun _ => at_ (accounted g t v a' b') key (f s)) R.
Proof.
  intros Hok Hid Hc Ha Hb w [Hw Hi]. unfold upd, on_store, zoom, deref_mut. rewrite Hi. split.
  - by eapply accounted_put.
  - destruct Hw as (m & Hm & _). by eapply holds_index_put.
Qed.

(** A change of the state of a stream, and of what is not accounted for. *)
Lemma triple_upd_state {E} g t v a b key s f R :
  same_account s (f s) ->
  (g = true -> State.is_closed (s_state s) = true -> State.is_closed (s_state (f s)) = true) ->
  triple (at_ (accounted g t v a b) key s) (upd key f : SE (World Ss Im Bf Rf) E ())
    (fun _ => at_ (accounted g t v a b) key (f s)) R.
Proof.
  intros Hs Hst w [(m & Hm & Ha) Hi]. unfold upd, on_store, zoom, deref_mut. rewrite Hi. simpl.
  destruct (holds_index _ m key s Hm Hi) as [Hk _]. split.
  - exists (<[key_index key := f s]> m). split; [by eapply holds_put|]. by eapply accounts_same.
  - eapply holds_index_put; [done..|]. by destruct Hs.
Qed.
Lemma kept_upd_state {E} t v a b key f :
  (forall s, same_account s (f s)) -> kept (accounted false t v a b) (upd key f : SE (World Ss Im Bf Rf) E ()).
Proof.
  intros Hf w Hw. destruct (index key (w_store w)) as [s|] eqn:Hi.
  - pose proof (triple_upd_state (E:=E) false t v a b key s f (fun _ => accounted false t v a b) (Hf s) ltac:(done) w (conj Hw Hi)) as H. simpl in H.
    by destruct (upd key f w) as [w' [[]|e|]]; [destruct H|..].
  - unfold upd, on_store, zoom, deref_mut. by rewrite Hi.
Qed.

(** The accounts as they would be with the stream behind [key] seen through [h]; [h] commutes with plain changes. *)
Definition seen (h : Stream -> Stream) (key : Key) (g : bool) (t v a b : Z) : World Ss Im Bf Rf -> Prop :=
  stored (fun pf rf n i c m => exists s, m !! key_index key = Some s /\ s_id s = key_stream_id key /\
            accounts g t v a b (<[key_index key := h s]> m) pf rf n i c).
Class View (h : Stream -> Stream) : Prop := view s s' : quiet s s' -> quiet (h s) (h s').

#[export] Instance seen_plain h key g t v a b : View h -> PlainInv (seen h key g t v a b).
Proof.
  intros Hh. eexists. split; [done|]. intros pf rf n i c m k s s' (s0 & Hk0 & Hid0 & Ha) Hk Hs.
  destruct (decide (k = key_index key)) as [->|Hne].
  - exists s'. rewrite lookup_insert_eq. simplify_eq. split; [done|]. split; [destruct Hs as [[] _]; congruence|].
    rewrite insert_insert_eq. specialize (Hh s0 s' Hs).
    pose proof (accounts_closed g t v a b pf rf n i c _ (key_index key) (h s0) (h s') Ha) as H'.
    rewrite insert_insert_eq in H'. apply H'; [by rewrite lookup_insert_eq|done].
  - exists s0. rewrite lookup_insert_ne by done. split; [done|]. split; [done|].
    rewrite insert_insert_ne by done. eapply accounts_closed; [done| |done]. by rewrite lookup_insert_ne.
Qed.

(** Into and out of such a state. *)
Lemma seen_put h key g t v a b w s s' :
  accounted g t v a b w -> index key (w_store w) = Some s -> s_id s' = s_id s -> s_is_counted (h s') = s_is_counted s ->
  s_id (h s') = s_id s -> stream_ok g (h s') -> cap (h s') <= cap s ->
  s_in_flight_recv_data (h s') <= s_in_flight_recv_data s ->
  seen h key g t v a b (set_store (put key s' (w_store w)) w).
Proof.
  intros (m & Hm & Ha) Hi Hid Hc Hid' Hok Hcap Hif. destruct (holds_index _ m key s Hm Hi) as [Hk Hks].
  exists (<[key_index key := s']> m). split; [by eapply holds_put|].
  exists s'. rewrite lookup_insert_eq, insert_insert_eq. split; [done|]. split; [congruence|].
  eapply accounts_update; try done; lia.
Qed.
Lemma seen_stream {h key g t v a b w s} :
  seen h key g t v a b w -> index key (w_store w) = Some s -> stream_ok g (h s).
Proof.
  intros (m & Hm & s0 & Hk0 & _ & Ha) Hi. destruct (holds_index _ m key s Hm Hi) as [Hk _]. simplify_eq.
  eapply (accounts_stream Ha (k:=key_index key)). apply lookup_insert_eq.
Qed.
Lemma put_seen h key g t v a b w s s' a' b' :
  seen h key g t v a b w -> index key (w_store w) = Some s -> stream_ok g s' ->
  s_id s' = s_id (h s) -> s_is_counted s' = s_is_counted (h s) ->
  a' + cap s' <= a + cap (h s) -> b' + s_in_flight_recv_data s' <= b + s_in_flight_recv_data (h s) ->
  accounted g t v a' b' (set_store (put key s' (w_store w)) w).
Proof.
  intros (m & Hm & s0 & Hk0 & _ & Ha) Hi. intros. destruct (holds_index _ m key s Hm Hi) as [Hk _]. assert (s0 = s) as -> by congruence.
  exists (<[key_index key := s']> m). split; [by eapply holds_put|].
  rewrite <- (insert_insert_eq m (key_index key) s' (h s)).
  eapply accounts_update; [done|apply lookup_insert_eq|done..].
Qed.
End Put.
