(* ===== verification/H2AccountSend.v ===== *)
(** * The counts keep the accounts

    Counting a stream, the cleaning up of [transition_after], closures run in a
    [transition], and the loops over the streams of a queue or of the store.

    The second part is the movement of capacity. *)

From S2P Require Import Prelude Bytes H2Types FlowControl StreamState Slab HttpTypes Frames HeadersFrame FramedRead.
From S2P Require Import H2Buffer H2Store H2World H2Send H2Recv H2Account.

(** The accounts after a stream has been counted or is no longer. *)
Lemma accounts_count g t v a b m k s x pf rf n i c c' :
  accounts g t v a b m pf rf n i c -> m !! k = Some s ->
  num_send_streams c' + num_recv_streams c' =
    num_send_streams c + num_recv_streams c - counted s + counted (set_is_counted x s) ->
  0 <= num_send_streams c' -> 0 <= num_recv_streams c' ->
  accounts g t v a b (<[k := set_is_counted x s]> m) pf rf n i c'.
Proof.
  intros H Hk Hn Hs' Hr'. pose proof (accounts_stream H Hk) as Hs.
  destruct H as [Hss ? ? ? ? ? ? ? ? ? ? ? ? ? ?].
  split; try done; rewrite ?(map_sum_update _ m k s (set_is_counted x s)) by done; try lia.
  - apply map_Forall_insert_2; [|done]. by destruct Hs; split.
  - change (cap (set_is_counted x s)) with (cap s). lia.
  - change (s_in_flight_recv_data (set_is_counted x s)) with (s_in_flight_recv_data s). lia.
Qed.

(** The accounts after a stream that is not counted has been removed. *)
Lemma accounts_remove g t v a b m k s pf rf n i c :
  accounts g t v a b m pf rf n i c -> m !! k = Some s -> s_is_counted s = false -> accounts g t v a b (delete k m) pf rf n i c.
Proof.
  intros H Hk Hc. pose proof (accounts_stream H Hk) as [? ? ? ? ? ? ?].
  destruct H as [Hss ? ? ? ? ? ? ? ? ? ? ? ? ? ?].
  pose proof (map_sum_delete cap m k s Hk). pose proof (map_sum_delete counted m k s Hk).
  pose proof (map_sum_delete s_in_flight_recv_data m k s Hk).
  assert (counted s = 0) by (unfold counted; by rewrite Hc).
  split; try done; try lia. by apply map_Forall_delete.
Qed.

(** A new stream holds nothing. *)
Lemma accounts_insert g t v a b m k s pf rf n i c :
  accounts g t v a b m pf rf n i c -> m !! k = None -> stream_ok g s -> s_is_counted s = false ->
  cap s = 0 -> s_in_flight_recv_data s = 0 -> accounts g t v a b (<[k := s]> m) pf rf n i c.
Proof.
  intros [Hss ? ? ? ? ? ? ? ? ? ? ? ? ? ?] Hk Hok Hc Ha Hi.
  assert (counted s = 0) as H0 by (unfold counted; by rewrite Hc).
  split; try done; rewrite ?(map_sum_insert _ m k s) by done; try lia.
  by apply map_Forall_insert_2.
Qed.

Section Counts.
Context {Ss Im : Type} {SS : Slab Stream Ss} {IM : IndexMap StreamId nat Im} {E : Type}.
Context (g : bool) (t v a b : Z) (pf rf : FlowControl) (n i : Z).
Abbreviation X := (Counts * Store Ss Im)%type.
Definition counts_in (x : X) : Prop := store_in (fun m => accounts g t v a b m pf rf n i x.1) x.2.

Lemma kept_c_store {B} (c : SE (Store Ss Im) E B) :
  (forall A, closed A -> kept (store_in A) c) -> kept counts_in (Counts.on_store c).
Proof.
  intros Hc x Hx. specialize (Hc _ (accounts_closed _ _ _ _ _ _ _ _ _ _) x.2 Hx). unfold Counts.on_store, zoom.
  by destruct (c x.2) as [st [y|e|]].
Qed.

Lemma triple_c_deref key R :
  triple counts_in (Counts.on_store (deref key) : SE X E Stream)
    (fun s x => counts_in x /\ index key x.2 = Some s) R.
Proof. intros [c st] Hx. unfold Counts.on_store, deref, zoom. simpl. by destruct (index key st) eqn:Hi. Qed.

(** The two writes that count a stream or stop counting it. *)
Lemma count_step key s x (f : Counts -> Counts) (c : Counts) (st : Store Ss Im) :
  counts_in (c, st) -> index key st = Some s ->
  num_send_streams (f c) + num_recv_streams (f c) =
    num_send_streams c + num_recv_streams c - counted s + counted (set_is_counted x s) ->
  0 <= num_send_streams (f c) -> 0 <= num_recv_streams (f c) ->
  exists st', (_ ← Counts.on_counts f; Counts.on_store (deref_mut key (set_is_counted x)) : SE X E ()) (c, st) =
    ((f c, st'), Ok tt) /\ counts_in (f c, st') /\ index key st' = Some (set_is_counted x s).
Proof.
  intros (m & Hm & Ha) Hi Hn H0 H1. unfold Counts.on_counts, Counts.on_store, deref_mut, zoom, mbind, SE_bind. simpl in *.
  rewrite Hi. simpl. destruct (holds_index st m key s Hm Hi) as [Hk _].
  eexists. split; [done|]. split; [|by eapply holds_index_put].
  eexists. split; [by eapply holds_put|]. by eapply accounts_count.
Qed.

Lemma c_deref_eq key (c : Counts) (st : Store Ss Im) :
  (Counts.on_store (deref key) : SE X E Stream) (c, st) =
    match index key st with Some s => ((c, st), Ok s) | None => ((c, st), Panic) end.
Proof. unfold Counts.on_store, deref, zoom. simpl. by destruct (index key st). Qed.

(** Both [inc_num_send_streams] and [inc_num_recv_streams]. *)
Lemma kept_count key can (f : Counts -> Counts) :
  (forall c, num_send_streams (f c) + num_recv_streams (f c) = num_send_streams c + num_recv_streams c + 1 /\
     num_send_streams c <= num_send_streams (f c) /\ num_recv_streams c <= num_recv_streams (f c)) ->
  kept counts_in (c ← gets fst;
    _ ← lift (assert_ (can c));
    s ← Counts.on_store (deref key);
    _ ← lift (assert_ (negb (s_is_counted s)));
    _ ← Counts.on_counts f;
    Counts.on_store (deref_mut key (set_is_counted true)) : SE X E ()).
Proof.
  intros Hf [c st] Hx. rewrite bind_gets. unfold assert_. destruct (can _); [|done]. rewrite bind_lift_Ok.
  destruct (index key st) as [s|] eqn:Hi; [|unfold mbind, SE_bind; by rewrite c_deref_eq, Hi].
  rewrite (bind_eq _ _ _ (c, st) s) by (by rewrite c_deref_eq, Hi).
  destruct (s_is_counted s) eqn:Hc; [done|]. simpl. rewrite bind_lift_Ok.
  pose proof Hx as (m & Hm & Ha). simpl in *. destruct Ha as [? ? ? ? ? ? ? ? ? ? ? ? ? Hns Hnr], (Hf c) as (? & ? & ?).
  edestruct (count_step key s true f c st) as (st' & -> & H' & _); try done; unfold counted; simpl; rewrite ?Hc; lia.
Qed.
Lemma kept_inc_num_send_streams key : kept counts_in (Counts.inc_num_send_streams key : SE X E ()).
Proof. apply kept_count. intros c. simpl. lia. Qed.
Lemma kept_inc_num_recv_streams key : kept counts_in (Counts.inc_num_recv_streams key : SE X E ()).
Proof. apply kept_count. intros c. simpl. lia. Qed.

(** The number of reset streams is not part of the accounts. *)
Lemma kept_on_reset f (P : X -> Prop) :
  (forall c st, P (c, st) -> P (f c, st)) -> kept P (Counts.on_counts f : SE X E ()).
Proof. intros Hf [c st] Hx. by apply Hf. Qed.
Lemma counts_in_reset x c st : counts_in (c, st) -> counts_in (Counts.set_num_reset x c, st).
Proof. intros (m & Hm & []). exists m. split; [done|]. by split. Qed.

Lemma kept_inc_num_reset_streams : kept counts_in (Counts.inc_num_reset_streams : SE X E ()).
Proof.
  unfold Counts.inc_num_reset_streams. repeat (apply kept_bind; [auto with kept|intros]).
  apply kept_on_reset. intros. by apply counts_in_reset.
Qed.

Definition counts_at (key : Key) (s : Stream) (x : X) : Prop := counts_in x /\ index key x.2 = Some s.

Lemma kept_dec_num_reset_streams key s : kept (counts_at key s) (Counts.dec_num_reset_streams : SE X E ()).
Proof.
  unfold Counts.dec_num_reset_streams. repeat (apply kept_bind; [auto with kept|intros]).
  apply kept_on_reset. intros c st [? ?]. split; [by apply counts_in_reset|done].
Qed.

Lemma triple_dec_num_streams key s :
  s_is_counted s = true ->
  triple (counts_at key s) (Counts.dec_num_streams key : SE X E ())
    (fun _ => counts_at key (set_is_counted false s)) (fun _ => counts_in).
Proof.
  intros Hc [c st] [Hx Hi]. unfold Counts.dec_num_streams. simpl in Hi.
  rewrite (bind_eq _ _ _ (c, st) s) by (by rewrite c_deref_eq, Hi).
  rewrite Hc. cbn [assert_]. rewrite bind_lift_Ok, bind_gets. simpl.
  destruct (Dyn.is_local_init _ _) as [local|e|]; [|exact Hx|done]. rewrite bind_lift_Ok.
  pose proof Hx as (m & Hm & Ha). simpl in *. destruct Ha as [? ? ? ? ? ? ? ? ? ? ? ? ? Hns Hnr].
  destruct local; unfold assert_.
  - destruct (Z.ltb_spec 0 (num_send_streams c)); [|done]. rewrite bind_lift_Ok.
    edestruct (count_step key s false (fun c => Counts.set_num_send (num_send_streams c - 1) c) c st)
      as (st' & -> & H' & Hi'); try done; unfold counted; simpl; rewrite ?Hc; lia.
  - destruct (Z.ltb_spec 0 (num_recv_streams c)); [|done]. rewrite bind_lift_Ok.
    edestruct (count_step key s false (fun c => Counts.set_num_recv (num_recv_streams c - 1) c) c st)
      as (st' & -> & H' & Hi'); try done; unfold counted; simpl; rewrite ?Hc; lia.
Qed.

Lemma kept_remove key s :
  s_is_counted s = false ->
  triple (counts_at key s) (Counts.on_store (remove key) : SE X E StreamId) (fun _ => counts_in) (fun _ => counts_in).
Proof.
  intros Hc [c st] [(m & Hm & Ha) Hi]. simpl in *. destruct (holds_index st m key s Hm Hi) as [Hk Hid].
  unfold Counts.on_store, zoom, remove. simpl. rewrite Hm, Hk. rewrite decide_True by done.
  exists (delete (key_index key) m). split; [by eapply holds_remove|]. by eapply accounts_remove.
Qed.

Lemma kept_transition_after key r : kept counts_in (Counts.transition_after key r : SE X E ()).
Proof.
  apply triple_bind with (Q := counts_at key); [apply triple_c_deref|]. intros s.
  apply triple_bind with (Q := fun _ x => exists s', counts_at key s' x /\ (is_closed s' = true -> s_is_counted s' = false)).
  - destruct (is_closed s) eqn:Hcl; [|intros x Hx; exists s; by rewrite Hcl].
    apply triple_bind with (Q := fun _ => counts_at key s).
    + destruct (negb _); [|by intros x Hx]. apply triple_bind with (Q := fun _ => counts_at key s); [by intros x Hx|].
      intros _. destruct r; [|by intros x Hx].
      eapply triple_conseq; [| | |apply kept_dec_num_reset_streams]; [done|done|]. by intros e x [? _].
    + intros _. destruct (s_is_counted s) eqn:Hc; [|intros x Hx; by exists s].
      eapply triple_conseq; [| | |apply triple_dec_num_streams]; [done| |done|done]. intros [] x Hx. by eexists.
  - intros _ x (s' & [Hx Hi] & Hs'). rewrite (bind_eq _ _ _ x s') by (destruct x; simpl in *; by rewrite c_deref_eq, Hi).
    destruct (is_released s') eqn:Hr; [|done].
    assert (s_is_counted s' = false) as Hc by (apply Hs'; unfold is_released in Hr; by destruct (is_closed s')).
    pose proof (kept_remove key s' Hc x (conj Hx Hi)) as H. unfold fmap, SE_fmap.
    cbv beta in H. by destruct (Counts.on_store (remove key) x) as [x' [|e|]].
Qed.
End Counts.

(** ** The counts in the world *)

Section World.
Context {Ss Im Bf Rf : Type} {SS : Slab Stream Ss} {IM : IndexMap StreamId nat Im} {E : Type}.
Abbreviation W := (World Ss Im Bf Rf).
Context (g : bool) (t v a b : Z).
Abbreviation J := (accounted (Ss:=Ss) (Im:=Im) (Bf:=Bf) (Rf:=Rf) g t v a b).

Lemma kept_on_counts {B} (c : SE (Counts * Store Ss Im) E B) :
  (forall pf rf n i, kept (counts_in g t v a b pf rf n i) c) -> kept J (on_counts c : SE W E B).
Proof.
  intros Hc w Hw. specialize (Hc _ _ _ _ (w_counts w, w_store w) Hw). unfold on_counts, zoom.
  by destruct (c _) as [[c' st] [x|e|]].
Qed.

Lemma kept_w_inc_send key : kept J (on_counts (Counts.inc_num_send_streams key) : SE W E ()).
Proof. apply kept_on_counts. intros. apply kept_inc_num_send_streams. Qed.
Lemma kept_w_inc_recv key : kept J (on_counts (Counts.inc_num_recv_streams key) : SE W E ()).
Proof. apply kept_on_counts. intros. apply kept_inc_num_recv_streams. Qed.
Lemma kept_w_inc_reset : kept J (on_counts Counts.inc_num_reset_streams : SE W E ()).
Proof. apply kept_on_counts. intros. apply kept_inc_num_reset_streams. Qed.
Lemma kept_w_transition_after key r : kept J (on_counts (Counts.transition_after key r) : SE W E ()).
Proof. apply kept_on_counts. intros. apply kept_transition_after. Qed.

(** The closure of a [transition] may fail; the cleaning up happens anyway. *)
Lemma triple_transition {B} key P (f : SE W E B) Q R :
  (forall w, P w -> J w) -> (forall y w, Q y w -> J w) -> (forall e w, R e w -> J w) ->
  triple P f Q R -> triple P (transition key f) (fun _ => J) (fun _ => J).
Proof.
  intros HP HQ HR Hf w Hw. unfold transition, stream, on_store, zoom, deref, mbind, SE_bind.
  destruct (index key (w_store w)) as [s|]; [|done].
  assert (set_store (w_store w) w = w) as -> by (by destruct w).
  specialize (Hf w Hw). unfold attempt. destruct (f w) as [w' [y|e|]]; [| |done].
  - pose proof (kept_w_transition_after key (is_pending_reset_expiration s) w' (HQ _ _ Hf)) as H.
    by destruct (on_counts _ w') as [w'' [[]|e|]].
  - pose proof (kept_w_transition_after key (is_pending_reset_expiration s) w' (HR _ _ Hf)) as H.
    by destruct (on_counts _ w') as [w'' [[]|e'|]].
Qed.
Lemma kept_transition {B} key (f : SE W E B) : kept J f -> kept J (transition key f).
Proof. intros Hf. by eapply triple_transition; [| | |exact Hf]. Qed.
End World.

Lemma kept_drain_queue {Ss Im Bf Rf E} (J : World Ss Im Bf Rf -> Prop) fuel (pop : SE _ E (option Key)) f :
  kept J pop -> (forall key, kept J (f key)) -> kept J (drain_queue fuel pop f).
Proof. intros Hp Hf. induction fuel; cbn [drain_queue]; auto 10 with kept. Qed.

Lemma kept_for_each {V Ss Im E} `{IM : IndexMap StreamId nat Im} (J : V -> Prop) (store : V -> Store Ss Im) f :
  (forall key, kept J (f key : SE V E ())) -> kept J (for_each store f).
Proof.
  intros Hf. apply kept_bind; [auto with kept|intros len].
  generalize 0%nat at 1. generalize (S (Z.to_nat len)). intros fuel i. revert i len.
  induction fuel; intros i len; cbn [for_each_from]; auto 12 with kept.
Qed.

#[export] Hint Resolve kept_stream kept_upd kept_w_unlink kept_on_stream kept_on_pending_send kept_on_pending_recv
  kept_push kept_pop kept_w_inc_send kept_w_inc_recv kept_w_inc_reset kept_w_transition_after
  kept_transition kept_drain_queue kept_for_each : kept.
#[export] Hint Extern 1 (PlainQueue _) => apply _ : kept.
#[export] Hint Extern 1 (PlainInv _) => apply _ : kept.
#[export] Hint Extern 1 (kept _ wake_task) => eapply kept_wake_task; apply _ : kept.
#[export] Hint Extern 2 (kept _ (modify _)) => apply kept_modify; intros; done : kept.

(** * The send half keeps the accounts

    Capacity moves between the connection and the streams without a byte being
    created: from a state in which the connection's window covers what the streams
    hold, every operation of [prioritize.rs] and [send.rs] but the reclaiming of a
    reservation leads to such a state. *)

(** ** Windows *)

Lemma max_window : MAX_WINDOW_SIZE = 2 ^ 31 - 1.
Proof. done. Qed.

Lemma add_assign_exact w sz :
  Window.wf w -> 0 <= sz -> window_i32 w + sz <= MAX_WINDOW_SIZE -> 0 <= window_i32 w ->
  window_i32 (Window.add_assign w sz) = window_i32 w + sz.
Proof.
  rewrite max_window. unfold Window.wf, Window.add_assign. intros. simpl.
  rewrite (Window.as_i32_size sz) by (rewrite max_window; lia). int_lia.
Qed.

Lemma credit_le f : flow_wf f -> credit f <= MAX_WINDOW_SIZE.
Proof. intros [Hw _]. unfold Window.wf, in_i in Hw. unfold credit. rewrite max_window. lia. Qed.

Lemma claim_exact f n :
  flow_wf f -> 0 <= n <= MAX_WINDOW_SIZE -> - 2 ^ 31 <= window_i32 (available f) - n ->
  window_i32 (available (FlowControl.claim_capacity f n)) = window_i32 (available f) - n.
Proof. intros [_ Hf] ? ?. by apply sub_assign_exact. Qed.
Lemma assign_exact f n :
  flow_wf f -> 0 <= n -> 0 <= window_i32 (available f) -> window_i32 (available f) + n <= MAX_WINDOW_SIZE ->
  window_i32 (available (FlowControl.assign_capacity f n)) = window_i32 (available f) + n.
Proof. intros [_ Hf] ? ? ?. by apply add_assign_exact. Qed.
Lemma claim_wf f n : flow_wf f -> flow_wf (FlowControl.claim_capacity f n).
Proof. intros [? _]. split; [done|]. apply sub_assign_wf. Qed.
Lemma assign_wf f n : flow_wf f -> flow_wf (FlowControl.assign_capacity f n).
Proof. intros [? _]. split; [done|]. apply add_assign_wf. Qed.
Lemma credit_claim f n : credit (FlowControl.claim_capacity f n) = credit f.
Proof. done. Qed.
Lemma credit_assign f n : credit (FlowControl.assign_capacity f n) = credit f.
Proof. done. Qed.

Lemma as_u32_id z : 0 <= z <= MAX_WINDOW_SIZE -> as_u32 z = z.
Proof. rewrite max_window. int_lia. Qed.

(** The connection's send window after a change that is covered. *)
Lemma accounts_pf g t v a b v' a' m pf pf' rf n i c :
  accounts g t v a b m pf rf n i c -> flow_wf pf' -> credit pf' = v' -> 0 <= window_i32 (available pf') ->
  window_i32 (available pf') + a' - v' <= window_i32 (available pf) + a - v ->
  accounts g t v' a' b m pf' rf n i c.
Proof. intros [] ? ? ? ?. split; try done. lia. Qed.

(** Straight-line code of steps that keep the invariant. *)
Ltac keep := auto 30 with kept typeclass_instances.

Section Send.
Context `{HM : HeaderMapOps} `{TB : Buf T}.
Context {Ss Im Bf Rf : Type} {SS : Slab Stream Ss} {IM : IndexMap StreamId nat Im}.
Context {SB : Slab (Slot (Frame (B:=T))) Bf} {E : Type}.
Abbreviation W := (World Ss Im Bf Rf).
Context (g : bool) (t v b : Z).
Abbreviation J := (fun a => accounted (Ss:=Ss) (Im:=Im) (Bf:=Bf) (Rf:=Rf) g t v a b).
Implicit Types (w : W).

Section Plain.
Context (I : W -> Prop) {HI : PlainInv I}.
Lemma kept_schedule_send key : kept I (schedule_send key : SE W E ()).
Proof. unfold schedule_send. keep. Qed.
#[local] Hint Resolve kept_schedule_send : kept.
Lemma kept_queue_frame frame key : kept I (queue_frame frame key : SE W E ()).
Proof. unfold queue_frame. keep. Qed.
Lemma kept_queue_open key : kept I (queue_open key : SE W E ()).
Proof. unfold queue_open. keep. Qed.
End Plain.

(** ** Assigning capacity *)

Lemma assign_capacity_spec n s l :
  exists s' l', assign_capacity n (s, l) = ((s', l'), Ok tt : outcome E ()) /\
    s_send_flow s' = FlowControl.assign_capacity (s_send_flow s) n /\ s_state s' = s_state s /\
    s_id s' = s_id s /\ s_is_counted s' = s_is_counted s /\
    s_requested_send_capacity s' = s_requested_send_capacity s /\
    s_buffered_send_data s' = s_buffered_send_data s /\ s_in_flight_recv_data s' = s_in_flight_recv_data s.
Proof.
  unfold assign_capacity, update, notify_send, mbind, SE_bind. simpl.
  destruct (window_gt _ _); simpl; [destruct (s_send_task s); simpl|]; eexists _, _; by repeat split.
Qed.

(** Capacity of the connection goes to a stream that may have it. *)
Lemma triple_assign a key s n :
  0 <= n -> cap s + n <= s_requested_send_capacity s -> cap s + n <= Z.max 0 (send_window s) ->
  triple (fun w => J a w /\ index key (w_store w) = Some s /\ n <= window_i32 (available (p_flow (w_prio w))))
    (_ ← on_stream key (assign_capacity n); on_p_flow (fun f => FlowControl.claim_capacity f n) : SE W E ())
    (fun _ => J a) (fun _ => J a).
Proof.
  intros Hn Hr Hwin w ((m & Hm & Ha) & Hi & Hc).
  destruct (assign_capacity_spec n s (w_woken w)) as (s' & l' & Hs' & Hf & Hst & Hid & Hct & Hrq & Hb & Hin).
  unfold mbind, SE_bind, on_stream. rewrite Hi, Hs'. simpl.
  destruct (holds_index _ m key s Hm Hi) as [Hk _].
  pose proof (accounts_stream Ha Hk) as [Hwf Hcap Hcr Hru Hbu Hif Hgr].
  pose proof Hwf as [Hw1 Hw2]. pose proof (credit_le _ Hwf) as Hmax.
  assert (cap s' = cap s + n) as Hcap'.
  { unfold cap. rewrite Hf. rewrite max_window in Hmax.
    apply assign_exact; try done; rewrite ?max_window; unfold cap, send_window in *; lia. }
  pose proof (acc_send_wf Ha) as Hpf. pose proof Hpf as [Hp1 Hp2].
  exists (<[key_index key := s']> m). split; [by eapply holds_put|].
  assert (window_i32 (available (FlowControl.claim_capacity (p_flow (w_prio w)) n)) =
    window_i32 (available (p_flow (w_prio w))) - n) as Hav.
  { apply claim_exact; try done; rewrite ?max_window; unfold Window.wf, in_i in *; lia. }
  change (accounts g t v a b (<[key_index key := s']> m) (FlowControl.claim_capacity (p_flow (w_prio w)) n)
    (rv_flow (w_recv w)) (rv_in_flight_data (w_recv w)) (sd_init_window_sz (w_send w)) (w_counts w)).
  apply (accounts_pf g t v (a - n) b v a _ (p_flow (w_prio w))); rewrite ?credit_claim, ?Hav; try lia; [|by apply claim_wf|exact (acc_credit Ha)].
  eapply (accounts_update g t v a b (a - n) b _ _ s s'); try done; try lia.
  split; rewrite ?Hcap', ?Hrq, ?Hb, ?Hin; try done; try lia.
  - rewrite Hf. by apply assign_wf.
  - unfold send_window in *. rewrite Hf, credit_assign. lia.
  - intros Hg. unfold granted. rewrite Hst, Hrq, Hb, Hcap'. destruct (Hgr Hg); [by left|right; lia].
Qed.

Lemma kept_try_assign_capacity a key : kept (J a) (try_assign_capacity key : SE W E ()).
Proof.
  apply triple_bind with (Q := fun s w => J a w /\ index key (w_store w) = Some s); [apply triple_stream|].
  intros s. cbv zeta. destruct (_ =? 0) eqn:Hz; [by intros w [Hw _]|]. apply Z.eqb_neq in Hz.
  apply triple_bind with (Q := fun n w => n = Window.as_size (available (p_flow (w_prio w))) /\ J a w /\
    index key (w_store w) = Some s); [by intros w [Hw Hi]|].
  intros n. apply triple_bind with (Q := fun _ => J a).
  - destruct (0 <? n) eqn:H0; [|by intros w (_ & Hw & _)]. apply Z.ltb_lt in H0. cbv zeta.
    intros w (Hn & Hw & Hi). pose proof Hw as (m & Hm & Ha). destruct (holds_index _ m key s Hm Hi) as [Hk _].
    pose proof (accounts_stream Ha Hk) as [[Hw1 Hw2] Hcap Hcr Hru Hbu Hif _].
    pose proof (acc_send_wf Ha) as [Hp1 Hp2].
    rewrite (Window.as_size_spec (available (s_send_flow s))) in * by done.
    unfold FlowControl.get_window_size in *. rewrite (Window.as_size_spec (window_size (s_send_flow s))) in * by done.
    rewrite (Window.as_size_spec (available (p_flow (w_prio w)))) in * by done.
    unfold cap, send_window, credit, Window.wf, in_i, in_u in *.
    unfold as_u32 in *. rewrite !wrapu_id in * by (unfold in_u; lia).
    eapply (triple_assign a key s); [| | |split; [exact Hw|split; [exact Hi|]]]; unfold cap, send_window, credit; lia.
  - intros _. apply kept_bind; [keep|]. intros s'. keep.
Qed.
#[local] Hint Resolve kept_try_assign_capacity : kept.

Lemma kept_assign_loop a fuel : kept (J a) (assign_loop fuel : SE W E ()).
Proof. induction fuel; cbn [assign_loop]; keep. Qed.

(** What was set aside is the connection's again. *)
Lemma triple_assign_connection_capacity inc :
  0 <= inc ->
  triple (J inc) (assign_connection_capacity inc : SE W E ()) (fun _ => J 0) (fun _ => J 0).
Proof.
  intros Hinc. apply triple_bind with (Q := fun _ => J 0).
  - intros w (m & Hm & Ha). exists m. split; [done|]. pose proof (credit_le _ (acc_send_wf Ha)).
    pose proof (cap_sum_nonneg Ha). pose proof (acc_send Ha). pose proof (acc_send_available Ha). pose proof (acc_credit Ha).
    assert (window_i32 (available (FlowControl.assign_capacity (p_flow (w_prio w)) inc)) =
      window_i32 (available (p_flow (w_prio w))) + inc) as Hav by (apply assign_exact; [exact (acc_send_wf Ha)|lia..]).
    change (accounts g t v 0 b m (FlowControl.assign_capacity (p_flow (w_prio w)) inc)
      (rv_flow (w_recv w)) (rv_in_flight_data (w_recv w)) (sd_init_window_sz (w_send w)) (w_counts w)).
    eapply accounts_pf; [exact Ha|..]; rewrite ?credit_assign, ?Hav; try lia. apply assign_wf. exact (acc_send_wf Ha).
  - intros _. apply kept_bind; [keep|]. intros fuel. apply kept_assign_loop.
Qed.

(** ** Taking capacity back *)

Definition claim (n : Z) (s : Stream) : Stream := set_send_flow (FlowControl.claim_capacity (s_send_flow s) n) s.

Lemma cap_claim n s : stream_ok false s -> 0 <= n <= cap s -> cap (claim n s) = cap s - n.
Proof.
  intros [Hf Hc] Hn. apply claim_exact; [done|..]; pose proof (credit_le _ Hf);
    unfold cap, send_window in *; rewrite ?max_window in *; lia.
Qed.

Lemma claim_ok n s :
  stream_ok false s -> 0 <= n <= cap s -> (g = true -> State.is_closed (s_state s) = true) -> stream_ok g (claim n s).
Proof.
  intros Hs Hn Hg. pose proof (cap_claim n s Hs Hn) as Hc. destruct Hs as [Hf Hcap Hcr Hru Hbu Hif _].
  split; rewrite ?Hc; try done; try (simpl; lia).
  - by apply claim_wf.
  - change (send_window (claim n s)) with (send_window s). lia.
  - intros Ht. left. by apply Hg.
Qed.
End Send.
#[export] Hint Resolve kept_schedule_send kept_queue_frame kept_queue_open kept_try_assign_capacity : kept.
