(* ===== verification/H2Peer.v ===== *)
(** * Code that returns or panics

    The steps of the streams that have no error of their own, whatever the error type
    of the operation they are part of.

    The second part shows that a connection keeps its role. *)

From S2P Require Import Prelude Bytes H2Types FlowControl StreamState Slab HttpTypes HpackTable Frames HeadersFrame.
From S2P Require Import FramedRead FramedWrite H2Codec.
From S2P Require Import H2Buffer H2Store H2World H2Send H2Recv H2Streams H2Poll H2Account.

Definition nothrow {S E A} (c : SE S E A) : Prop := forall s s' e, c s <> (s', Err e).

Section NoThrow.
Context {S E A B : Type}.
Implicit Types (c : SE S E A).

Lemma nothrow_mret (a : A) : nothrow (mret a : SE S E A).
Proof. by intros s s' e. Qed.
Lemma nothrow_gets (f : S -> A) : nothrow (gets f : SE S E A).
Proof. by intros s s' e. Qed.
Lemma nothrow_modify (f : S -> S) : nothrow (modify f : SE S E ()).
Proof. by intros s s' e. Qed.
Lemma nothrow_panic : nothrow (panic : SE S E A).
Proof. by intros s s' e. Qed.
Lemma nothrow_assert x : nothrow (lift (assert_ x) : SE S E ()).
Proof. intros s s' e. by destruct x. Qed.
Lemma nothrow_unwrap (x : option A) : nothrow (lift (unwrap x) : SE S E A).
Proof. intros s s' e. by destruct x. Qed.
Lemma nothrow_bind c (k : A -> SE S E B) : nothrow c -> (forall a, nothrow (k a)) -> nothrow (c ≫= k).
Proof.
  intros Hc Hk s s' e. unfold mbind, SE_bind. specialize (Hc s). destruct (c s) as [s1 [a|e1|]]; [apply Hk| |done].
  intros [= <- <-]. by eapply Hc.
Qed.

Lemma triple_nothrow (P : S -> Prop) c Q R R' : nothrow c -> triple P c Q R -> triple P c Q R'.
Proof.
  intros Hn Hc w Hw. specialize (Hc w Hw). specialize (Hn w). destruct (c w) as [w' [a|e|]]; [done| |done].
  exfalso. by eapply Hn.
Qed.
Lemma kept_nothrow (P : S -> Prop) c R : nothrow c -> kept P c -> triple P c (fun _ => P) R.
Proof. apply triple_nothrow. Qed.
End NoThrow.

Create HintDb nothrow.
#[export] Hint Resolve nothrow_mret nothrow_gets nothrow_modify nothrow_panic nothrow_assert nothrow_unwrap : nothrow.
#[export] Hint Extern 1 (nothrow (_ ≫= _)) => apply nothrow_bind; [|intros] : nothrow.
#[export] Hint Extern 2 (nothrow (match ?x with _ => _ end)) => destruct x : nothrow.

Lemma nothrow_zoom {S U E A} (view : S -> U) set (c : SE U E A) : nothrow c -> nothrow (zoom view set c).
Proof.
  intros Hc s s' e. unfold zoom. specialize (Hc (view s)). destruct (c (view s)) as [u r].
  intros [= _ ->]. by eapply Hc.
Qed.

Lemma nothrow_attempt {S E E' A} (c : SE S E A) : nothrow (attempt c : SE S E' _).
Proof. intros s s' e. unfold attempt. by destruct (c s) as [s1 []]. Qed.

Section Steps.
Context {Ss Im Bf Rf T : Type} {SS : Slab Stream Ss} {IM : IndexMap StreamId nat Im} {SB : Slab (Slot T) Bf} {E : Type}.
Abbreviation W := (World Ss Im Bf Rf).

Lemma nothrow_deref key : nothrow (deref key : SE (Store Ss Im) E Stream).
Proof. intros st st' e. unfold deref. by destruct (index key st). Qed.
Lemma nothrow_deref_mut key f : nothrow (deref_mut key f : SE (Store Ss Im) E ()).
Proof. intros st st' e. unfold deref_mut. by destruct (index key st). Qed.
Lemma nothrow_stream key : nothrow (stream key : SE W E Stream).
Proof. apply nothrow_zoom, nothrow_deref. Qed.
Lemma nothrow_upd key f : nothrow (upd key f : SE W E ()).
Proof. apply nothrow_zoom, nothrow_deref_mut. Qed.
Lemma nothrow_push N `{Next N} q key : nothrow (push N q key : SE W E bool).
Proof.
  pose proof nothrow_deref. pose proof nothrow_deref_mut.
  apply nothrow_bind; [apply nothrow_gets|intros now]. apply nothrow_zoom. unfold Queue.push, Queue.on_store, Queue.set_indices.
  auto 20 using nothrow_zoom with nothrow.
Qed.
Lemma nothrow_on_pending_send {B} key (c : SE (Deque * Bf) E B) : nothrow c -> nothrow (on_pending_send key c : SE W E B).
Proof.
  intros Hc w w' e. unfold on_pending_send. destruct (index key (w_store w)) as [s|]; [|done].
  specialize (Hc (s_pending_send s, w_send_buffer w)). destruct (c _) as [[d b] r].
  intros [= _ ->]. by eapply Hc.
Qed.
Lemma nothrow_on_pending_recv {B} key (c : SE (Deque * Rf) E B) :
  nothrow c -> nothrow (on_pending_recv key c : SE W E B).
Proof.
  intros Hc w w' e. unfold on_pending_recv. destruct (index key (w_store w)) as [s|]; [|done].
  specialize (Hc (s_pending_recv s, rv_buffer (w_recv w))). destruct (c _) as [[d b] r].
  intros [= _ ->]. by eapply Hc.
Qed.
Lemma nothrow_notify_recv : nothrow (notify_recv : SE (Stream * list Waker) E ()).
Proof. unfold notify_recv, update, wake. auto 12 with nothrow. Qed.
Lemma nothrow_pop N `{Next N} q : nothrow (pop N q : SE W E (option Key)).
Proof.
  pose proof nothrow_deref. pose proof nothrow_deref_mut.
  apply nothrow_bind; [apply nothrow_gets|intros now]. apply nothrow_zoom. unfold Queue.pop, Queue.on_store, Queue.set_indices.
  auto 20 using nothrow_zoom with nothrow.
Qed.
Lemma nothrow_on_stream {B} key (c : SE (Stream * list Waker) E B) : nothrow c -> nothrow (on_stream key c : SE W E B).
Proof.
  intros Hc w w' e. unfold on_stream. destruct (index key (w_store w)) as [s|]; [|done].
  specialize (Hc (s, w_woken w)). destruct (c _) as [[d l] r].
  intros [= _ ->]. by eapply Hc.
Qed.
Lemma nothrow_assign_capacity n : nothrow (assign_capacity n : SE (Stream * list Waker) E ()).
Proof. unfold assign_capacity, notify_send, update, wake. auto 12 with nothrow. Qed.

Lemma nothrow_transition_after key r : nothrow (on_counts (Counts.transition_after key r) : SE W E ()).
Proof.
  apply nothrow_zoom.
  assert (forall c : SE (Store Ss Im) E Stream, nothrow c -> nothrow (Counts.on_store c)) by (intros; by apply nothrow_zoom).
  assert (forall c : SE (Store Ss Im) E (), nothrow c -> nothrow (Counts.on_store c)) by (intros; by apply nothrow_zoom).
  assert (forall p id, nothrow (lift (Dyn.is_local_init p id) : SE (Counts * Store Ss Im) E bool)).
  { intros p id s s' e. unfold Dyn.is_local_init, assert_. by destruct (negb _). }
  assert (nothrow ((fun _ => tt) <$> Counts.on_store (remove key) : SE (Counts * Store Ss Im) E ())).
  { intros s s' e. unfold fmap, SE_fmap, Counts.on_store, zoom, remove.
    destruct (slab_get _ _) as [x|]; [|done]. by destruct (decide _). }
  unfold Counts.transition_after, Counts.dec_num_reset_streams, Counts.dec_num_streams, Counts.on_counts, unlink.
  auto 20 using nothrow_deref, nothrow_deref_mut with nothrow.
Qed.
Lemma nothrow_transition {B} key (f : SE W E B) : nothrow f -> nothrow (transition key f).
Proof.
  intros Hf w w' e. unfold transition, mbind, SE_bind, attempt.
  pose proof (nothrow_stream key w) as Hs. destruct (stream key w) as [w1 [s|e1|]]; [|by intros [= <- <-]; eapply Hs|done].
  specialize (Hf w1). destruct (f w1) as [w2 [x|e1|]]; [|by destruct (Hf w2 e1)|done].
  pose proof (nothrow_transition_after key (is_pending_reset_expiration s) w2) as Ht.
  destruct (on_counts _ w2) as [w3 [y|e1|]]; [done| |done]. intros [= <- <-]. by eapply Ht.
Qed.
End Steps.
#[export] Hint Resolve nothrow_stream nothrow_upd nothrow_attempt nothrow_on_pending_recv nothrow_notify_recv nothrow_push nothrow_pop nothrow_on_pending_send nothrow_on_stream
  nothrow_assign_capacity nothrow_transition : nothrow.

Lemma nothrow_push_back {T Bf E} {SB : Slab (Slot T) Bf} (x : T) : nothrow (Deque.push_back x : SE (Deque * Bf) E ()).
Proof.
  assert (forall slot, nothrow (Deque.slab_push slot : SE (Deque * Bf) E nat)).
  { intros slot s s' e. unfold Deque.slab_push. by destruct (slab_insert slot s.2). }
  assert (forall i n, nothrow (Deque.set_slot_next i n : SE (Deque * Bf) E ())).
  { intros i n s s' e. unfold Deque.set_slot_next. by destruct (slab_get s.2 i). }
  unfold Deque.push_back, Deque.set_indices. auto 12 with nothrow.
Qed.

Section Prioritize.
Context `{HM : HeaderMapOps} `{TB : Buf T}.
Context {Ss Im Bf Rf : Type} {SS : Slab Stream Ss} {IM : IndexMap StreamId nat Im}.
Context {SB : Slab (Slot (Frame (B:=T))) Bf} {E : Type}.
Abbreviation W := (World Ss Im Bf Rf).

Lemma nothrow_queue_frame frame key : nothrow (queue_frame frame key : SE W E ()).
Proof. unfold queue_frame, schedule_send, wake_task. auto 12 using nothrow_push_back with nothrow. Qed.
Lemma nothrow_try_assign_capacity key : nothrow (try_assign_capacity key : SE W E ()).
Proof. unfold try_assign_capacity, on_p_flow. auto 20 with nothrow. Qed.
Lemma nothrow_assign_connection_capacity n : nothrow (assign_connection_capacity n : SE W E ()).
Proof.
  apply nothrow_bind; [apply nothrow_modify|intros _]. apply nothrow_bind; [apply nothrow_gets|intros fuel].
  induction fuel; cbn [assign_loop]; auto 20 using nothrow_try_assign_capacity with nothrow.
Qed.

Lemma nothrow_push_front (x : Frame (B:=T)) : nothrow (Deque.push_front x : SE (Deque * Bf) E ()).
Proof.
  assert (forall slot, nothrow (Deque.slab_push slot : SE (Deque * Bf) E nat)).
  { intros slot s s' e. unfold Deque.slab_push. by destruct (slab_insert slot s.2). }
  assert (forall i n, nothrow (Deque.set_slot_next i n : SE (Deque * Bf) E ())).
  { intros i n s s' e. unfold Deque.set_slot_next. by destruct (slab_get s.2 i). }
  unfold Deque.push_front, Deque.set_indices. auto 12 with nothrow.
Qed.
Lemma nothrow_pop_front : nothrow (Deque.pop_front : SE (Deque * Bf) E (option (Frame (B:=T)))).
Proof.
  assert (forall i, nothrow (Deque.slab_take i : SE (Deque * Bf) E _)).
  { intros i s s' e. unfold Deque.slab_take. by destruct (slab_get s.2 i). }
  unfold Deque.pop_front, Deque.set_indices. auto 20 with nothrow.
Qed.
Lemma nothrow_pop_data frame max_len key : nothrow (pop_data frame max_len key : SE W E _).
Proof.
  assert (forall f n, nothrow (lift (FlowControl.send_data f n) : SE W E FlowControl)).
  { intros f n s s' e. unfold FlowControl.send_data, assert_. by destruct (Window.size_le _ _). }
  unfold pop_data, on_p_flow. auto 20 using nothrow_push_front with nothrow.
Qed.
Lemma nothrow_inc_num_send_streams key : nothrow (on_counts (Counts.inc_num_send_streams key) : SE W E ()).
Proof.
  unfold Counts.inc_num_send_streams, Counts.on_counts, Counts.on_store, on_counts.
  auto 20 using nothrow_zoom, nothrow_deref, nothrow_deref_mut with nothrow.
Qed.
Lemma nothrow_pop_frame max_len : nothrow (pop_frame max_len : SE W E (option (Frame (B:=Prioritized T)))).
Proof.
  apply nothrow_bind; [apply nothrow_gets|intros fuel]. induction fuel as [|fuel IH]; cbn [pop_frame_loop]; [apply nothrow_panic|].
  apply nothrow_bind; [auto with nothrow|intros [key|]]; [|auto with nothrow].
  apply nothrow_bind; [auto with nothrow|intros s]. cbv zeta.
  apply nothrow_bind; [auto using nothrow_pop_front with nothrow|intros queued]. apply nothrow_bind.
  - destruct queued as [[]|]; try (auto with nothrow; fail); [apply nothrow_pop_data|unfold pop_push_promise, queue_open|unfold pop_reset];
      auto 20 using nothrow_inc_num_send_streams, nothrow_transition_after with nothrow.
  - intros [f|]; auto 20 using nothrow_transition_after with nothrow.
Qed.
End Prioritize.

(** * A connection keeps its role

    The counts of a connection say whether it is a client or a server; nothing that
    is done with the streams changes that. *)

Section Peer.
Context `{HM : HeaderMapOps} {HI : HeaderMapIntoIter (HM:=HM)} {NH : NameHasher (HT:=HT)} {UO : UriOps}.
Context `{BM : BytesMut B} `{TB : Buf T}.
Context {Ss Im Bf Rf : Type} {SS : Slab Stream Ss} {IM : IndexMap StreamId nat Im}.
Context {SB : Slab (Slot (Frame (B:=T))) Bf} {RB : Slab (Slot (Event (B:=B))) Rf}.
Abbreviation W := (World Ss Im Bf Rf).

Definition peer_is (p : Dyn) (w : W) : Prop := ct_peer (w_counts w) = p.
Definition counts_peer (p : Dyn) (t : Counts * Store Ss Im) : Prop := ct_peer t.1 = p.

Section Basic.
Context (p : Dyn) {E A : Type}.

Lemma peer_modify (f : W -> W) : (forall w, ct_peer (w_counts (f w)) = ct_peer (w_counts w)) -> kept (peer_is p) (modify f : SE W E ()).
Proof. intros Hf w Hw. unfold peer_is in *. simpl. by rewrite Hf. Qed.
Lemma peer_on_store (c : SE (Store Ss Im) E A) : kept (peer_is p) (on_store c).
Proof. intros w Hw. unfold on_store, zoom. by destruct (c (w_store w)) as [st [x|e|]]. Qed.
Lemma peer_on_stream key (c : SE (Stream * list Waker) E A) : kept (peer_is p) (on_stream key c : SE W E A).
Proof. intros w Hw. unfold on_stream. destruct (index _ _); [|done]. by destruct (c _) as [[s' l] [x|e|]]. Qed.
Lemma peer_on_pending_send key (c : SE (Deque * Bf) E A) : kept (peer_is p) (on_pending_send key c : SE W E A).
Proof. intros w Hw. unfold on_pending_send. destruct (index _ _); [|done]. by destruct (c _) as [[s' l] [x|e|]]. Qed.
Lemma peer_on_pending_recv key (c : SE (Deque * Rf) E A) : kept (peer_is p) (on_pending_recv key c : SE W E A).
Proof. intros w Hw. unfold on_pending_recv. destruct (index _ _); [|done]. by destruct (c _) as [[s' l] [x|e|]]. Qed.
Lemma peer_on_queue (q : QueueAt W) (c : SE (Queue * Store Ss Im) E A) :
  (forall q' w, w_counts (q_set q q' w) = w_counts w) -> kept (peer_is p) (on_queue q c : SE W E A).
Proof.
  intros Hq w Hw. unfold on_queue, zoom, peer_is in *. destruct (c _) as [[q' st] [x|e|]]; simpl; rewrite ?Hq; done.
Qed.
Lemma peer_on_counts (c : SE (Counts * Store Ss Im) E A) : kept (counts_peer p) c -> kept (peer_is p) (on_counts c : SE W E A).
Proof. intros Hc w Hw. specialize (Hc (w_counts w, w_store w) Hw). unfold on_counts, zoom. by destruct (c _) as [[ct st] [x|e|]]. Qed.
Lemma peer_counts_store (c : SE (Store Ss Im) E A) : kept (counts_peer p) (Counts.on_store c).
Proof. intros w Hw. unfold Counts.on_store, zoom. by destruct (c w.2) as [st [x|e|]]. Qed.
Lemma peer_counts_modify f : (forall c, ct_peer (f c) = ct_peer c) -> kept (counts_peer p) (Counts.on_counts f : SE (Counts * Store Ss Im) E ()).
Proof. intros Hf w Hw. unfold counts_peer in *. simpl. by rewrite Hf. Qed.
End Basic.

Create HintDb peer.
#[local] Hint Resolve peer_on_store peer_on_stream peer_on_pending_send peer_on_pending_recv peer_counts_store : peer.
#[local] Hint Extern 1 (kept _ (on_queue _ _)) => (apply peer_on_queue; intros; reflexivity) : peer.
#[local] Hint Extern 1 (kept _ (modify _)) => (apply peer_modify; intros; unfold Counts.apply_remote_settings; repeat case_match; reflexivity) : peer.
#[local] Hint Extern 1 (kept _ (Counts.on_counts _)) => (apply peer_counts_modify; intros; reflexivity) : peer.

Ltac head_of t := lazymatch t with ?f _ => head_of f | _ => t end.
(** One step: a basic operation, the parts of a composed one, or the body of a definition. *)
Ltac peer_step :=
  match goal with
  | |- forall _, _ => intros
  | H : kept _ ?c |- kept _ ?c => exact H
  | H : forall _, _ |- kept _ _ => apply H
  | |- kept _ (_ ≫= _) => apply kept_bind
  | |- kept _ (_ <$> _) => apply kept_fmap
  | |- kept _ (attempt _) => apply kept_attempt
  | |- kept _ (let _ := _ in _) => cbv zeta
  | |- kept _ (match ?x with _ => _ end) => destruct x
  | |- kept _ (on_counts _) => apply peer_on_counts
  | |- kept _ _ => solve [auto 2 with peer kept nocore]
  | |- kept _ ?c => let h := head_of c in progress unfold h
  end.
Ltac peer := repeat peer_step.

Context (p : Dyn).
Abbreviation P := (peer_is p).

Lemma peer_for_each_from {S E} (J : S -> Prop) (store : S -> Store Ss Im) (f : Key -> SE S E ()) fuel i n :
  (forall key, kept J (f key)) -> kept J (for_each_from store f fuel i n).
Proof. intros Hf. revert i n. induction fuel as [|fuel IH]; intros i n; cbn [for_each_from]; peer. Qed.
Lemma peer_drain_queue {E} (pop : SE W E (option Key)) f fuel : kept P pop -> (forall key, kept P (f key)) -> kept P (drain_queue fuel pop f).
Proof. intros Hp Hf. induction fuel as [|fuel IH]; cbn [drain_queue]; peer. Qed.
#[local] Hint Extern 1 (kept _ (for_each_from _ _ _ _ _)) => (apply peer_for_each_from; peer) : peer.
#[local] Hint Extern 1 (kept _ (drain_queue _ _ _)) => (apply peer_drain_queue; peer) : peer.

(** The closure that lowers the windows counts beside the streams. *)
Lemma peer_lower_windows {E} dec : kept P (lower_windows dec : SE W E Z).
Proof.
  assert (forall A (c : SE W E A), kept P c -> kept (fun t : W * Z => P t.1) (in_world c)) as Hw.
  { intros A c Hc [w n] Hp. specialize (Hc w Hp). unfold in_world, zoom. simpl. by destruct (c w) as [w' [x|e|]]. }
  intros w Hp. unfold lower_windows. set (loop := for_each _ _).
  assert (kept (fun t : W * Z => P t.1) loop) as Hl.
  { unfold loop, for_each. apply kept_bind; [apply kept_gets|intros n]. apply peer_for_each_from. intros key.
    apply kept_bind; [apply Hw, peer_on_store|intros s]. apply kept_bind; [apply kept_lift|intros [s' r]].
    apply kept_bind; [apply Hw, peer_on_store|intros _]. by intros t Ht. }
  specialize (Hl (w, 0) Hp). by destruct (loop (w, 0)) as [[w' n] [x|e|]].
Qed.
#[local] Hint Resolve peer_lower_windows : peer.

Lemma peer_assign_loop {E} fuel : kept P (assign_loop fuel : SE W E ()).
Proof. induction fuel as [|fuel IH]; cbn [assign_loop]; peer. Qed.
Lemma peer_drop_frames {E} fuel key : kept P (drop_frames fuel key : SE W E ()).
Proof. induction fuel as [|fuel IH]; cbn [drop_frames]; peer. Qed.
Lemma peer_drop_events {E} fuel key : kept P (drop_events fuel key : SE W E ()).
Proof. induction fuel as [|fuel IH]; cbn [drop_events]; peer. Qed.
#[local] Hint Resolve peer_assign_loop peer_drop_frames peer_drop_events : peer.
Lemma peer_pop_frame_loop {E} fuel max_len : kept P (pop_frame_loop fuel max_len : SE W E _).
Proof. induction fuel as [|fuel IH]; cbn [pop_frame_loop]; peer. Qed.
Lemma peer_open_loop {E} fuel : kept P (open_loop fuel : SE W E ()).
Proof. induction fuel as [|fuel IH]; cbn [open_loop]; peer. Qed.
#[local] Hint Resolve peer_pop_frame_loop peer_open_loop : peer.

(** ** Received frames *)
Lemma peer_recv_headers Q frame : kept P (recv_headers Q frame : SE W _ _).
Proof. peer. Qed.
Lemma peer_recv_data Q frame : kept P (recv_data Q frame : SE W _ _).
Proof. peer. Qed.
Lemma peer_recv_reset frame : kept P (recv_reset frame : SE W _ _).
Proof. peer. Qed.
Lemma peer_recv_push_promise frame : kept P (recv_push_promise frame : SE W _ _).
Proof. peer. Qed.
Lemma peer_recv_go_away frame : kept P (recv_go_away frame : SE W _ _).
Proof. peer. Qed.
Lemma peer_recv_window_update frame : kept P (recv_window_update frame : SE W _ _).
Proof. peer. Qed.
Lemma peer_apply_remote_settings frame : kept P (apply_remote_settings frame : SE W _ _).
Proof. peer. Qed.
Lemma peer_apply_local_settings frame : kept P (apply_local_settings frame : SE W _ _).
Proof. peer. Qed.
Lemma peer_recv_err {E} err : kept P (recv_err err : SE W E _).
Proof. peer. Qed.
Lemma peer_recv_eof {E} acc : kept P (recv_eof acc : SE W E _).
Proof. peer. Qed.
Lemma peer_send_go_away {E} id : kept P (send_go_away id : SE W E _).
Proof. peer. Qed.
Lemma peer_send_reset {E} id reason : kept P (send_reset id reason : SE W E _).
Proof. peer. Qed.
Lemma peer_clear_expired {E} : kept P (clear_expired_reset_streams : SE W E _).
Proof. peer. Qed.
Lemma peer_headers_entry Q id : kept P (headers_entry Q id : SE W _ _).
Proof. peer. Qed.

(** A client does not answer an over-size header block. *)
Lemma client_oversize frame key :
  triple (peer_is Client) (r_recv_headers frame key : SE W _ _) (fun _ => peer_is Client)
    (fun e w => peer_is Client w /\ match e with Oversize (Some _) => False | _ => True end).
Proof.
  pose (R := fun (e : RecvHeaderBlockError (option Headers)) (w : W) =>
    peer_is Client w /\ match e with Oversize (Some _) => False | _ => True end).
  change (triple (peer_is Client) (r_recv_headers frame key : SE W _ _) (fun _ => peer_is Client) R).
  assert (forall A (c : SE W (RecvHeaderBlockError (option Headers)) A), nothrow c -> kept (peer_is Client) c ->
    triple (peer_is Client) c (fun _ => peer_is Client) R) as Hk by (intros; by apply kept_nothrow).
  assert (forall A (o : outcome RecvError A), triple (peer_is Client) (lift (map_err StateErr o)) (fun _ => peer_is Client) R) as Hl.
  { intros A o w Hw. simpl. by destruct o. }
  unfold r_recv_headers, recv_content_length.
  apply triple_bind with (Q := fun _ => peer_is Client); [apply Hk; [auto with nothrow|apply peer_on_store]|intros s]. apply triple_bind with (Q := fun _ => peer_is Client); [apply Hl|intros [state init]].
  apply triple_bind with (Q := fun _ => peer_is Client); [apply Hk; [auto with nothrow|apply peer_on_store]|intros _]. apply triple_bind with (Q := fun _ => peer_is Client).
  { apply Hk; [|peer]. destruct init; [|auto with nothrow].
    unfold on_recv, Counts.inc_num_recv_streams, Counts.on_counts, Counts.on_store, on_counts.
    auto 20 using nothrow_zoom, nothrow_deref, nothrow_deref_mut with nothrow. }
  intros _. apply triple_bind with (Q := fun _ => peer_is Client).
  { apply triple_bind with (Q := fun _ => peer_is Client); [apply Hk; [auto with nothrow|apply peer_on_store]|intros s'].
    destruct (negb _); [|by intros w Hw]. destruct (hm_get _ _); [|by intros w Hw].
    destruct (parse_u64 _); [apply Hk; [auto with nothrow|apply peer_on_store]|by intros w Hw..]. }
  intros _. apply triple_bind with (Q := fun counts w => ct_peer counts = Client /\ peer_is Client w); [by intros w Hw|].
  intros counts w [Hc Hw]. revert w Hw. rewrite Hc. cbv zeta.
  change (triple (peer_is Client) (if hb_is_over_size (h_header_block frame) then throw (Oversize None)
    else message ← lift (map_err StateErr (convert_poll_message Client (hb_pseudo (h_header_block frame)) (hb_fields (h_header_block frame)) (h_stream_id frame)));
      _ ← on_pending_recv key (Deque.push_back (EvHeaders message)); _ ← on_stream key notify_recv; mret tt : SE W _ _) (fun _ => peer_is Client) R).
  destruct (hb_is_over_size _); [by intros w Hw|]. eapply triple_bind; [apply Hl|intros m]. apply Hk; [|peer].
  auto 20 using nothrow_push_back with nothrow.
Qed.

(** ** The user's handles *)
Lemma peer_schedule_pending_open {E} : kept P (schedule_pending_open : SE W E _).
Proof. peer. Qed.
Lemma peer_push_back_frame {E} frame key : kept P (push_back_frame frame key : SE W E _).
Proof. peer. Qed.
Lemma peer_woken {E} tasks : kept P (modify (set_woken tasks) : SE W E ()).
Proof. peer. Qed.
Lemma peer_next_incoming {E} : kept P (next_incoming : SE W E _).
Proof. peer. Qed.
Lemma peer_send_request request eos pending : kept P (send_request request eos pending : SE W _ _).
Proof. peer. Qed.
Lemma peer_poll_pending_open cx pending : kept P (poll_pending_open cx pending : SE W _ _).
Proof. peer. Qed.
Lemma peer_clone {E} : kept P (Streams_clone : SE W E _).
Proof. peer. Qed.
Lemma peer_drop {E} : kept P (Streams_drop : SE W E _).
Proof. peer. Qed.
Lemma peer_ref_send_data key data eos : kept P (ref_send_data key data eos : SE W _ _).
Proof. peer. Qed.
Lemma peer_ref_send_trailers key trailers : kept P (ref_send_trailers key trailers : SE W _ _).
Proof. peer. Qed.
Lemma peer_ref_send_reset {E} key reason : kept P (ref_send_reset key reason : SE W E _).
Proof. peer. Qed.
Lemma peer_ref_send_response key response eos : kept P (ref_send_response key response eos : SE W _ _).
Proof. peer. Qed.
Lemma peer_ref_send_push_promise key request : kept P (ref_send_push_promise key request : SE W _ _).
Proof. peer. Qed.
Lemma peer_ref_take_request {E} key : kept P (ref_take_request key : SE W E _).
Proof. peer. Qed.
Lemma peer_ref_reserve_capacity {E} key n : kept P (ref_reserve_capacity key n : SE W E _).
Proof. peer. Qed.
Lemma peer_ref_poll_capacity {E} cx key : kept P (ref_poll_capacity cx key : SE W E _).
Proof. peer. Qed.
Lemma peer_ref_poll_reset cx key mode : kept P (ref_poll_reset cx key mode : SE W _ _).
Proof. peer. Qed.
Lemma peer_ref_poll_response cx key : kept P (ref_poll_response cx key : SE W _ _).
Proof. peer. Qed.
Lemma peer_ref_poll_pushed cx key : kept P (ref_poll_pushed cx key : SE W _ _).
Proof. peer. Qed.
Lemma peer_ref_poll_data cx key : kept P (ref_poll_data cx key : SE W _ _).
Proof. peer. Qed.
Lemma peer_ref_poll_trailers cx key : kept P (ref_poll_trailers cx key : SE W _ _).
Proof. peer. Qed.
Lemma peer_ref_release_capacity key n : kept P (ref_release_capacity key n : SE W _ _).
Proof. peer. Qed.
Lemma peer_ref_clear_recv_buffer {E} key : kept P (ref_clear_recv_buffer key : SE W E _).
Proof. peer. Qed.
Lemma peer_ref_clone {E} key : kept P (ref_clone key : SE W E _).
Proof. peer. Qed.
Lemma peer_set_target {E} size : kept P (set_target_connection_window_size size : SE W E _).
Proof. peer. Qed.
Lemma peer_cancel_promises {E} fuel ppp : kept P (cancel_promises fuel ppp : SE W E _).
Proof. revert ppp. induction fuel as [|fuel IH]; intros ppp; cbn [cancel_promises]; peer. Qed.
#[local] Hint Resolve peer_cancel_promises : peer.
Lemma peer_drop_stream_ref {E} key : kept P (drop_stream_ref key : SE W E _).
Proof. peer. Qed.

(** ** Writing *)
Abbreviation C := (Codec (B:=B) (T:=Prioritized T)).
Abbreviation X := (W * (C * Socket))%type.
Definition beside_peer (x : X) : Prop := P x.1.

Lemma peer_on_world {A} (c : SE W () A) : kept P c -> kept beside_peer (on_world c : SE X () A).
Proof. intros Hc [w cs] Hw. specialize (Hc w Hw). unfold on_world, zoom. simpl. by destruct (c w) as [w' [x|e|]]. Qed.
Lemma peer_on_socket {A} (c : SE (C * Socket) () A) : kept beside_peer (on_socket c : SE X () A).
Proof. intros [w cs] Hw. unfold on_socket, zoom. simpl. by destruct (c cs) as [cs' [x|e|]]. Qed.
Lemma peer_on_codec {E A} (c : SE C E A) : kept beside_peer (on_codec c : SE X () A).
Proof. intros [w [cd so]] Hw. unfold on_codec. simpl. by destruct (c cd) as [cd' [x|e|]]. Qed.
#[local] Hint Resolve peer_on_socket peer_on_codec : peer.
Ltac peer_x := repeat first [apply peer_on_world | peer_step].

Lemma peer_send_frames fuel codec max_len : kept beside_peer (send_frames fuel codec max_len : SE X () _).
Proof. induction fuel as [|fuel IH]; cbn [send_frames]; peer_x. Qed.
Lemma peer_send_stream_window_updates fuel codec : kept beside_peer (send_stream_window_updates fuel codec : SE X () _).
Proof. induction fuel as [|fuel IH]; cbn [send_stream_window_updates]; peer_x. Qed.
#[local] Hint Resolve peer_send_frames peer_send_stream_window_updates : peer.
Lemma peer_poll_complete fuel codec cx : kept beside_peer (streams_poll_complete fuel codec cx : SE X () _).
Proof. peer_x. Qed.
Lemma peer_reclaim_frame : kept beside_peer (reclaim_frame : SE X () _).
Proof. peer_x. Qed.
Lemma peer_set_in_flight f : kept beside_peer (set_in_flight f : SE X () _).
Proof. peer_x. Qed.
Lemma peer_r_poll_complete codec : kept beside_peer (r_poll_complete codec : SE X () _).
Proof. peer_x. Qed.
Lemma peer_set_task cx : kept beside_peer (on_world (modify (set_task cx)) : SE X () _).
Proof. peer_x. Qed.
Lemma peer_send_pending_refusal codec : kept beside_peer (send_pending_refusal codec : SE X () _).
Proof. peer_x. Qed.
End Peer.

(** * What leaves the connection's receive side alone

    The data in flight on the connection and the largest stream identifier that it
    accepts. *)

Section RecvIs.
Context `{HM : HeaderMapOps} {HI : HeaderMapIntoIter (HM:=HM)} {NH : NameHasher (HT:=HT)} {UO : UriOps}.
Context `{BM : BytesMut B} `{TB : Buf T}.
Context {Ss Im Bf Rf : Type} {SS : Slab Stream Ss} {IM : IndexMap StreamId nat Im}.
Context {SB : Slab (Slot (Frame (B:=T))) Bf} {RB : Slab (Slot (Event (B:=B))) Rf}.
Abbreviation W := (World Ss Im Bf Rf).

Definition recv_is (n : Z) (id : StreamId) (w : W) : Prop :=
  rv_in_flight_data (w_recv w) = n /\ rv_max_stream_id (w_recv w) = id.

Section Basic.
Context (n : Z) (id : StreamId) {E A : Type}.
Abbreviation R := (recv_is n id).

Lemma recv_modify (f : W -> W) :
  (forall w, rv_in_flight_data (w_recv (f w)) = rv_in_flight_data (w_recv w) /\ rv_max_stream_id (w_recv (f w)) = rv_max_stream_id (w_recv w)) ->
  kept R (modify f : SE W E ()).
Proof. intros Hf w Hw. unfold recv_is in *. simpl. by destruct (Hf w) as [-> ->]. Qed.
Lemma recv_on_store (c : SE (Store Ss Im) E A) : kept R (on_store c).
Proof. intros w Hw. unfold on_store, zoom. by destruct (c (w_store w)) as [st [x|e|]]. Qed.
Lemma recv_on_stream key (c : SE (Stream * list Waker) E A) : kept R (on_stream key c : SE W E A).
Proof. intros w Hw. unfold on_stream. destruct (index _ _); [|done]. by destruct (c _) as [[s' l] [x|e|]]. Qed.
Lemma recv_on_pending_send key (c : SE (Deque * Bf) E A) : kept R (on_pending_send key c : SE W E A).
Proof. intros w Hw. unfold on_pending_send. destruct (index _ _); [|done]. by destruct (c _) as [[s' l] [x|e|]]. Qed.
Lemma recv_on_pending_recv key (c : SE (Deque * Rf) E A) : kept R (on_pending_recv key c : SE W E A).
Proof. intros w Hw. unfold on_pending_recv. destruct (index _ _); [|done]. by destruct (c _) as [[s' l] [x|e|]]. Qed.
Lemma recv_on_queue (q : QueueAt W) (c : SE (Queue * Store Ss Im) E A) :
  (forall q' w, rv_in_flight_data (w_recv (q_set q q' w)) = rv_in_flight_data (w_recv w) /\
     rv_max_stream_id (w_recv (q_set q q' w)) = rv_max_stream_id (w_recv w)) -> kept R (on_queue q c : SE W E A).
Proof.
  intros Hq w Hw. unfold on_queue, zoom, recv_is in *. destruct (c _) as [[q' st] r]. simpl. specialize (Hq q' (set_store st w)) as [H1 H2].
  simpl in *. destruct r; rewrite ?H1, ?H2; done.
Qed.
Lemma recv_on_counts (c : SE (Counts * Store Ss Im) E A) : kept R (on_counts c : SE W E A).
Proof. intros w Hw. unfold on_counts, zoom. by destruct (c _) as [[ct st] [x|e|]]. Qed.
End Basic.

Create HintDb recv_is.
#[local] Hint Resolve recv_on_store recv_on_stream recv_on_pending_send recv_on_pending_recv recv_on_counts : recv_is.
#[local] Hint Extern 1 (kept _ (on_queue _ _)) => (apply recv_on_queue; intros; split; reflexivity) : recv_is.
#[local] Hint Extern 1 (kept _ (modify _)) => (apply recv_modify; intros; repeat case_match; split; reflexivity) : recv_is.

Ltac head_name t := lazymatch t with ?f _ => head_name f | _ => t end.
Ltac recv_step :=
  match goal with
  | |- forall _, _ => intros
  | H : kept _ ?c |- kept _ ?c => exact H
  | H : forall _, _ |- kept _ _ => apply H
  | |- kept _ (_ ≫= _) => apply kept_bind
  | |- kept _ (_ <$> _) => apply kept_fmap
  | |- kept _ (attempt _) => apply kept_attempt
  | |- kept _ (let _ := _ in _) => cbv zeta
  | |- kept _ (match ?x with _ => _ end) => destruct x
  | |- kept _ _ => solve [auto 2 with recv_is kept nocore]
  | |- kept _ ?c => let h := head_name c in progress unfold h
  end.
Ltac recv_side := repeat recv_step.

Context (n : Z) (id : StreamId).
Abbreviation R := (recv_is n id).

Lemma recv_for_each_from {E} (f : Key -> SE W E ()) fuel i m :
  (forall key, kept R (f key)) -> kept R (for_each_from w_store f fuel i m).
Proof. intros Hf. revert i m. induction fuel as [|fuel IH]; intros i m; cbn [for_each_from]; recv_side. Qed.
Lemma recv_assign_loop {E} fuel : kept R (assign_loop fuel : SE W E ()).
Proof. induction fuel as [|fuel IH]; cbn [assign_loop]; recv_side. Qed.
Lemma recv_drop_frames {E} fuel key : kept R (drop_frames fuel key : SE W E ()).
Proof. induction fuel as [|fuel IH]; cbn [drop_frames]; recv_side. Qed.
#[local] Hint Resolve recv_assign_loop recv_drop_frames : recv_is.
#[local] Hint Extern 1 (kept _ (for_each_from _ _ _ _ _)) => (apply recv_for_each_from; recv_side) : recv_is.

Lemma recv_s_send_reset {E} reason key : kept R (s_send_reset reason key : SE W E ()).
Proof. recv_side. Qed.
Lemma recv_transition {E A} key (c : SE W E A) : kept R c -> kept R (transition key c).
Proof. intros Hc. recv_side. Qed.
Lemma recv_fail_stream {E} err key : kept R (fail_stream err key : SE W E ()).
Proof. recv_side. Qed.
Lemma recv_wake_task {E} : kept R (wake_task : SE W E ()).
Proof. recv_side. Qed.
End RecvIs.
