(* ===== verification/H2AccountPrioritize.v ===== *)
(** * The scheduling of outgoing frames keeps the accounts

    Reservations, resets and window updates move capacity through states in which a
    stream holds more than it asks for; the capacity is back with the connection when
    the operation is over.

    The other parts are the taking of frames ([pop_frame]) and the send half. *)

From S2P Require Import Prelude Bytes H2Types FlowControl StreamState Slab HttpTypes Frames HeadersFrame FramedRead.
From S2P Require Import H2Buffer H2Store H2World H2Send H2Recv H2Account H2AccountSend H2Peer.

(** ** A stream that holds more than it asks for *)

(** Such a stream, as if it asked for what it holds. *)
Definition raise (s : Stream) : Stream :=
  let r := s_requested_send_capacity s in
  set_requested_send_capacity (if (0 <=? r) && (r <? cap s) then cap s else r) s.

#[export] Instance raise_view : View raise.
Proof.
  intros s s' [(Hid & Hc & Hf & Hr & Hb & Hi) Hst]. unfold raise, cap. rewrite Hf, Hr. by repeat split.
Qed.

Lemma raise_ok s x : stream_ok false s -> in_u 32 x -> stream_ok false (raise (set_requested_send_capacity x s)).
Proof.
  intros [Hf Hc Hr Hru Hbu Hif _] Hx. pose proof (credit_le _ Hf). rewrite max_window in *.
  unfold in_u, cap, send_window in *. split; unfold in_u, cap, send_window; simpl; try done;
    change (cap (set_requested_send_capacity x s)) with (window_i32 (available (s_send_flow s)));
    destruct (Z.leb_spec 0 x), (Z.ltb_spec x (window_i32 (available (s_send_flow s)))); simpl; lia.
Qed.
Lemma raised s : stream_ok false (raise s) -> in_u 32 (s_requested_send_capacity s) /\ 0 <= cap s <= MAX_WINDOW_SIZE.
Proof.
  intros [Hf Hc Hr Hru _ _ _]. pose proof (credit_le _ Hf). rewrite max_window in *. unfold raise, in_u, cap, send_window in *. simpl in *.
  destruct (Z.leb_spec 0 (s_requested_send_capacity s)),
    (Z.ltb_spec (s_requested_send_capacity s) (window_i32 (available (s_send_flow s)))); simpl in *; lia.
Qed.

Section Prioritize.
Context `{HM : HeaderMapOps} `{TB : Buf T}.
Context {Ss Im Bf Rf : Type} {SS : Slab Stream Ss} {IM : IndexMap StreamId nat Im}.
Context {SB : Slab (Slot (Frame (B:=T))) Bf} {E : Type}.
Abbreviation W := (World Ss Im Bf Rf).
Context (t v b : Z).
Abbreviation J := (fun a => accounted (Ss:=Ss) (Im:=Im) (Bf:=Bf) (Rf:=Rf) false t v a b).
Abbreviation N := (fun key a => seen (Ss:=Ss) (Im:=Im) (Bf:=Bf) (Rf:=Rf) raise key false t v a b).
Implicit Types (w : W).

(** Lowering what a stream asks for, and taking back what it holds beyond that. *)
Lemma triple_lower a key s x R :
  in_u 32 x ->
  triple (at_ (J a) key s) (upd key (set_requested_send_capacity x) : SE W E ())
    (fun _ => at_ (N key a) key (set_requested_send_capacity x s)) R.
Proof.
  intros Hx w [Hw Hi]. unfold upd, on_store, zoom, deref_mut. rewrite Hi.
  pose proof (accounted_stream Hw Hi) as Hs. split.
  - by eapply seen_put; try apply raise_ok.
  - destruct Hw as (m & Hm & _). by eapply holds_index_put.
Qed.

Lemma triple_take a key s n R :
  0 <= n <= cap s -> cap s - n <= s_requested_send_capacity s ->
  triple (at_ (N key a) key s) (upd key (claim n) : SE W E ()) (fun _ => J (a + n)) R.
Proof.
  intros Hn Hr w [Hw Hi]. unfold upd, on_store, zoom, deref_mut. rewrite Hi.
  pose proof (seen_stream Hw Hi) as Hs. pose proof (cap_claim n (raise s) Hs Hn) as Hc.
  pose proof (claim_ok false n (raise s) Hs Hn ltac:(done)) as Hok.
  eapply put_seen; try done; [|change (cap (claim n s)) with (cap (claim n (raise s))); lia].
  destruct Hok as [Hf Hcap _ _ Hbu Hif _], (raised s Hs) as [Hru _]. split; try done.
  change (cap (claim n s)) with (cap (claim n (raise s))). simpl. change (cap (raise s)) with (cap s) in Hc. lia.
Qed.

Lemma as_size_cap s : flow_wf (s_send_flow s) -> 0 <= cap s -> Window.as_size (available (s_send_flow s)) = cap s.
Proof. intros [_ Hw] Hc. rewrite Window.as_size_spec by done. unfold cap in *. lia. Qed.

Lemma triple_stream_at a key R : triple (N key a) (stream key : SE W E Stream) (fun s => at_ (N key a) key s) R.
Proof. eapply triple_nothrow; [apply nothrow_stream|]. apply (triple_stream _ key (fun _ _ => True)). Qed.

Lemma triple_reclaim_all_capacity key :
  triple (N key 0) (reclaim_all_capacity key : SE W E ()) (fun _ => J 0) (fun _ => J 0).
Proof.
  apply triple_bind with (Q := at_ (N key 0) key); [apply triple_stream_at|].
  intros s w Hw. pose proof (seen_stream (proj1 Hw) (proj2 Hw)) as Hs. destruct (raised s Hs) as [Hr Hc].
  cbv zeta. rewrite (as_size_cap s) by first [lia|exact (ok_flow Hs)]. revert w Hw.
  apply triple_bind with (Q := fun _ => J (0 + cap s)).
  - apply triple_take; unfold in_u in *; lia.
  - intros _. apply triple_assign_connection_capacity. lia.
Qed.

(** What a stream asks for may grow freely. *)
Lemma requested_ok s x :
  stream_ok false s -> cap s <= x -> in_u 32 x -> stream_ok false (set_requested_send_capacity x s).
Proof. intros [? ? ? ? ? ? _] ? ?. by split. Qed.
Lemma buffered_ok s x : stream_ok false s -> in_u 32 x -> stream_ok false (set_buffered_send_data x s).
Proof. intros [? ? ? ? ? ? _] ?. by split. Qed.

Lemma kept_reserve_capacity capacity key : kept (J 0) (reserve_capacity capacity key : SE W E ()).
Proof.
  apply triple_bind with (Q := at_ (J 0) key); [apply triple_stream|]. intros s. cbv zeta.
  assert (in_u 32 (as_u32 (capacity + s_buffered_send_data s))) as Hx by (apply wrapu_range; lia).
  generalize dependent (as_u32 (capacity + s_buffered_send_data s)). intros x Hx.
  destruct (x =? _); [by intros w [Hw _]|]. intros w Hw.
  pose proof (accounted_stream (proj1 Hw) (proj2 Hw)) as Hs. revert w Hw. pose proof (ok_cap Hs) as Hc.
  rewrite (as_size_cap s) by first [lia|exact (ok_flow Hs)]. destruct (Z.ltb_spec x (s_requested_send_capacity s)).
  - destruct (Z.ltb_spec x (cap s)).
    + apply triple_bind with (Q := fun _ => at_ (N key 0) key (set_requested_send_capacity x s)).
      * by apply triple_lower.
      * intros _. apply triple_bind with (Q := fun _ => J (0 + (cap s - x))).
        -- unfold in_u in Hx. apply triple_take; simpl; change (cap (set_requested_send_capacity x s)) with (cap s); lia.
        -- intros _. apply triple_assign_connection_capacity. lia.
    + apply triple_bind with (Q := fun _ => at_ (J 0) key (set_requested_send_capacity x s)); [|by intros _ w [Hw _]].
      apply triple_upd; try done. by apply requested_ok.
  - destruct (State.is_send_closed _); [by intros w [Hw _]|].
    apply triple_bind with (Q := fun _ => at_ (J 0) key (set_requested_send_capacity x s)).
    + apply triple_upd; try done. apply requested_ok; try done. destruct Hs. lia.
    + intros _. eapply triple_conseq; [| | |apply kept_try_assign_capacity]; [by intros w [Hw _]|done..].
Qed.

Lemma triple_at {B} (P : W -> Prop) key s (c : SE W E B) Q R : triple P c Q R -> triple (at_ P key s) c Q R.
Proof. intros Hc w [Hw _]. by apply Hc. Qed.

Lemma kept_at {B} (P : W -> Prop) key s (c : SE W E B) : kept P c -> triple (at_ P key s) c (fun _ => P) (fun _ => P).
Proof. apply triple_at. Qed.

Lemma kept_bind_l {B C} (P : W -> Prop) (c : SE W E B) (k : B -> SE W E C) Q :
  kept P c -> (forall x, triple P (k x) Q (fun _ => P)) -> triple P (c ≫= k) Q (fun _ => P).
Proof. apply triple_bind. Qed.

Lemma kept_assoc {B C D} (P : W -> Prop) (c : SE W E B) (k : B -> SE W E C) (k' : C -> SE W E D) :
  kept P ((c ≫= k) ≫= k') -> kept P (c ≫= (fun x => k x ≫= k')).
Proof. intros Hc w Hw. rewrite <- bind_assoc. by apply Hc. Qed.

(** A change of the stream behind a key that is there, or a panic. *)
Lemma triple_upd_at (P : W -> Prop) key f Q R :
  (forall s, triple (at_ P key s) (upd key f : SE W E ()) Q R) -> triple P (upd key f : SE W E ()) Q R.
Proof.
  intros Hf w Hw. destruct (index key (w_store w)) as [s|] eqn:Hi; [by apply (Hf s)|].
  unfold upd, on_store, zoom, deref_mut. by rewrite Hi.
Qed.

Lemma kept_buffered a key (f : Stream -> Z) :
  (forall s, in_u 32 (f s)) -> kept (J a) (upd key (fun s => set_buffered_send_data (f s) s) : SE W E ()).
Proof.
  intros Hx. apply triple_upd_at. intros s w Hw. pose proof (accounted_stream (proj1 Hw) (proj2 Hw)). revert w Hw.
  eapply triple_conseq; [| | |apply (triple_upd false t v a b a b key s _ (fun _ => J a))];
    [done|by intros _ w [Hw _]|done|by apply buffered_ok|done..].
Qed.

(** ** Dropping the frames of a stream *)

Lemma kept_drop_frames a fuel key : kept (J a) (drop_frames fuel key : SE W E ()).
Proof. induction fuel; cbn [drop_frames]; keep. Qed.

Lemma triple_clear_queue a key : triple (J a) (clear_queue key : SE W E ()) (fun _ => N key a) (fun _ => J a).
Proof.
  apply kept_bind_l; [keep|intros fuel]. apply kept_bind_l; [apply kept_drop_frames|intros _].
  apply triple_bind with (Q := fun _ => J a); [apply (kept_buffered a key (fun _ => 0)); unfold in_u; lia|intros _].
  apply triple_bind with (Q := fun _ => N key a).
  - apply triple_upd_at. intros s.
    eapply triple_conseq; [| | |apply (triple_lower a key s 0 (fun _ => J a))]; [done|by intros _ w [Hw _]|done|].
    unfold in_u; lia.
  - intros _ w Hw. rewrite bind_gets. destruct (p_in_flight_data_frame _); [done| |done].
    case_decide; [|done]. by apply (plain_world (N key a) w).
Qed.

Lemma kept_s_recv_err key : kept (J 0) (s_recv_err key : SE W E ()).
Proof.
  apply triple_bind with (Q := fun _ => N key 0); [apply triple_clear_queue|].
  intros _. apply triple_reclaim_all_capacity.
Qed.

Lemma kept_s_send_reset reason key : kept (J 0) (s_send_reset reason key : SE W E ()).
Proof.
  apply kept_bind; [keep|intros s]. cbv zeta. destruct (State.is_reset _); [keep|].
  apply kept_bind; [by apply kept_upd_state|intros _]. destruct (_ && _); [keep|].
  apply triple_bind with (Q := fun _ => N key 0); [apply triple_clear_queue|intros _].
  apply triple_bind with (Q := fun _ => N key 0); [|intros _; apply triple_reclaim_all_capacity].
  eapply triple_nothrow; [apply nothrow_queue_frame|]. apply kept_queue_frame, _.
Qed.
End Prioritize.

#[export] Hint Extern 3 (kept (accounted false _ _ _ _) (upd _ _)) => (apply kept_upd_state; intros; repeat split) : kept.
#[export] Hint Resolve kept_reserve_capacity kept_s_send_reset kept_s_recv_err : kept.

Section Operations.
Context `{HM : HeaderMapOps} `{TB : Buf T}.
Context {Ss Im Bf Rf : Type} {SS : Slab Stream Ss} {IM : IndexMap StreamId nat Im}.
Context {SB : Slab (Slot (Frame (B:=T))) Bf}.
Abbreviation W := (World Ss Im Bf Rf).
Context (t v b : Z).
Abbreviation J := (accounted (Ss:=Ss) (Im:=Im) (Bf:=Bf) (Rf:=Rf) false t v 0 b).
Implicit Types (w : W).

(** Asking for as much as is buffered. *)
Lemma kept_request_buffered {E} key :
  kept J (s ← stream key;
          if s_requested_send_capacity s <? s_buffered_send_data s then
            _ ← upd key (fun s => set_requested_send_capacity (s_buffered_send_data s) s);
            try_assign_capacity key
          else mret tt : SE W E ()).
Proof.
  apply triple_bind with (Q := at_ J key); [apply triple_stream|]. intros s.
  destruct (Z.ltb_spec (s_requested_send_capacity s) (s_buffered_send_data s)); [|by intros w [Hw _]].
  intros w Hw. pose proof (accounted_stream (proj1 Hw) (proj2 Hw)) as [? ? ? ? ? ? _]. revert w Hw.
  apply triple_bind with (Q := fun _ => at_ J key (set_requested_send_capacity (s_buffered_send_data s) s));
    [|intros _; apply triple_at, kept_try_assign_capacity].
  apply (triple_upd _ _ _ _ _ _ _ key s (fun s => set_requested_send_capacity (s_buffered_send_data s) s)); try done.
  apply requested_ok; [by split|lia|done].
Qed.

Lemma kept_send_data frame key : kept J (send_data frame key : SE W UserError ()).
Proof.
  unfold send_data. cbv zeta. destruct (_ <? _); [keep|]. apply kept_bind; [keep|intros s].
  destruct (negb _); [keep|]. apply kept_bind; [apply kept_buffered; intros; apply wrapu_range; lia|intros _].
  apply kept_assoc, kept_bind; [apply kept_request_buffered|]. keep.
Qed.

(** ** Window updates *)

Lemma inc_window_ok f inc f' :
  flow_wf f -> 0 <= inc <= MAX_WINDOW_SIZE -> FlowControl.inc_window f inc = Ok f' ->
  flow_wf f' /\ credit f' = credit f + inc /\ available f' = available f.
Proof.
  intros Hf Hinc. pose proof Hf as [Hw Ha]. rewrite inc_window_exact by done. destruct (Z.leb_spec (credit f + inc) (2 ^ 31 - 1)); [|done].
  intros [= <-]. split; [|done]. split; [|done]. unfold Window.wf, in_i, credit in *. simpl. lia.
Qed.

Lemma kept_p_recv_stream_window_update inc key :
  0 <= inc <= MAX_WINDOW_SIZE -> kept J (p_recv_stream_window_update inc key : SE W Reason ()).
Proof.
  intros Hinc. apply triple_bind with (Q := at_ J key); [apply triple_stream|]. intros s.
  destruct (_ && _); [by intros w [Hw _]|].
  eapply triple_bind; [apply triple_lift; by intros e w _ [Hw _]|]. intros f. cbn beta.
  intros w [Hf Hw]. pose proof (accounted_stream (proj1 Hw) (proj2 Hw)) as [Hwf Hcap ? ? ? ? _].
  destruct (inc_window_ok _ _ _ Hwf Hinc Hf) as (Hwf' & Hc & Ha). revert w Hw.
  apply triple_bind with (Q := fun _ => at_ J key (set_send_flow f s)); [|intros _; apply triple_at, kept_try_assign_capacity].
  assert (cap (set_send_flow f s) = cap s) as Hs by (unfold cap; simpl; by rewrite Ha).
  apply triple_upd; rewrite ?Hs; try done. split; rewrite ?Hs; try done. unfold send_window in *. simpl. lia.
Qed.
Lemma kept_s_recv_stream_window_update inc key :
  0 <= inc <= MAX_WINDOW_SIZE -> kept J (s_recv_stream_window_update inc key : SE W Reason ()).
Proof.
  intros Hinc. unfold s_recv_stream_window_update. pose proof (kept_p_recv_stream_window_update inc key Hinc). keep.
Qed.

(** The credit grows by the increment, or not at all. *)
Lemma triple_p_recv_connection_window_update inc :
  0 <= inc <= MAX_WINDOW_SIZE ->
  triple J (p_recv_connection_window_update inc : SE W Reason ())
    (fun _ => accounted false t (v + inc) 0 b) (fun _ => J).
Proof.
  intros Hinc w Hw. unfold p_recv_connection_window_update. rewrite bind_gets.
  pose proof Hw as (m & Hm & Ha).
  destruct (FlowControl.inc_window _ inc) as [f|e|] eqn:Hf; [|done|done]. rewrite bind_lift_Ok.
  destruct (inc_window_ok _ _ _ (acc_send_wf Ha) Hinc Hf) as (Hwf & Hc & Hav).
  unfold on_p_flow. rewrite bind_modify.
  apply (triple_nothrow (accounted false t (v + inc) inc b) _ _ (fun _ => accounted false t (v + inc) 0 b));
    [apply nothrow_assign_connection_capacity|apply triple_assign_connection_capacity; lia|].
  exists m. split; [done|]. cbn -[Window.add_assign]. eapply accounts_pf; [exact Ha|done|..]; rewrite ?Hav, ?Hc.
  - by rewrite (acc_credit Ha).
  - exact (acc_send_available Ha).
  - lia.
Qed.
End Operations.

(** * Taking frames to send

    A DATA frame that leaves the streams is cut to the frame size, to the capacity of
    its stream, and so to both send windows; the windows are debited by its length. *)

(** Bytes of payload that count against the windows. *)
Definition data_len `{HM : HeaderMapOps} `{TB : Buf T} (f : option (Frame (B:=Prioritized T))) : Z :=
  match f with Some (FData d) => remaining (data_data d) | _ => 0 end.

Lemma send_data_exact {E} f n :
  flow_wf f -> 0 <= n -> n <= credit f -> - 2 ^ 31 <= window_i32 (available f) - n ->
  exists f', FlowControl.send_data f n = (Ok f' : outcome E FlowControl) /\ flow_wf f' /\
    credit f' = credit f - n /\ window_i32 (available f') = window_i32 (available f) - n.
Proof.
  intros Hf Hn Hc Ha. pose proof Hf as [Hw Hav]. pose proof (credit_le f Hf). rewrite max_window in *.
  unfold FlowControl.send_data. rewrite (proj2 (Window.size_le_spec n (window_size f) Hw Hn)) by exact Hc.
  eexists. split; [done|]. split; [split; apply sub_assign_wf|].
  unfold credit in *. cbn [window_size available].
  rewrite !sub_assign_exact by (rewrite ?max_window; done || lia). done.
Qed.

Section Pop.
Context `{HM : HeaderMapOps} `{TB : Buf T}.
Context {Ss Im Bf Rf : Type} {SS : Slab Stream Ss} {IM : IndexMap StreamId nat Im}.
Context {SB : Slab (Slot (Frame (B:=T))) Bf} {E : Type}.
Abbreviation W := (World Ss Im Bf Rf).
Context (t v b : Z).
Abbreviation J := (fun v a => accounted (Ss:=Ss) (Im:=Im) (Bf:=Bf) (Rf:=Rf) false t v a b).
Implicit Types (w : W).

Lemma upd_eq w key s f :
  index key (w_store w) = Some s -> (upd key f : SE W E ()) w = (set_store (put key (f s) (w_store w)) w, Ok tt).
Proof. intros Hi. unfold upd, on_store, zoom, deref_mut. by rewrite Hi. Qed.
Lemma stream_eq w key s : index key (w_store w) = Some s -> (stream key : SE W E Stream) w = (w, Ok s).
Proof. intros Hi. unfold stream, on_store, zoom, deref. rewrite Hi. by destruct w. Qed.

(** Debiting the connection. *)
Lemma charge_connection w n :
  J v n w -> 0 <= n ->
  exists f w', FlowControl.send_data (FlowControl.assign_capacity (p_flow (w_prio w)) n) n = (Ok f : outcome E _) /\
    w' = set_prio (set_p_flow f (w_prio (set_prio (set_p_flow
      (FlowControl.assign_capacity (p_flow (w_prio w)) n) (w_prio w)) w)))
      (set_prio (set_p_flow (FlowControl.assign_capacity (p_flow (w_prio w)) n) (w_prio w)) w) /\
    J (v - n) 0 w' /\ w_store w' = w_store w.
Proof.
  intros (m & Hm & Ha) Hn. pose proof (acc_send_wf Ha) as Hwf. pose proof (acc_credit Ha) as Hv.
  pose proof (acc_send Ha). pose proof (acc_send_available Ha). pose proof (cap_sum_nonneg Ha). pose proof (credit_le _ Hwf).
  assert (window_i32 (available (FlowControl.assign_capacity (p_flow (w_prio w)) n)) =
    window_i32 (available (p_flow (w_prio w))) + n) as Hav by (apply assign_exact; [done|lia..]).
  edestruct (send_data_exact (E:=E) (FlowControl.assign_capacity (p_flow (w_prio w)) n) n) as (f & Hf & Hwf' & Hc & Hav').
  { by apply assign_wf. } { done. } { rewrite credit_assign. lia. } { rewrite Hav. lia. }
  eexists f, _. split; [exact Hf|]. split; [reflexivity|]. split; [|done].
  exists m. split; [done|]. cbn -[Window.add_assign]. eapply accounts_pf; [exact Ha|done|..].
  - rewrite Hc, credit_assign. lia.
  - lia.
  - lia.
Qed.

Lemma returns_upd a a' key s f w :
  stream_ok false (f s) -> s_id (f s) = s_id s -> s_is_counted (f s) = s_is_counted s ->
  a' + cap (f s) <= a + cap s -> s_in_flight_recv_data (f s) = s_in_flight_recv_data s ->
  at_ (J v a) key s w -> returns (upd key f : SE W E ()) w (fun _ => at_ (J v a') key (f s)).
Proof.
  intros Hok Hid Hc Ha Hb Hw.
  pose proof (triple_upd (E:=E) false t v a b a' b key s f (fun _ _ => True) Hok Hid Hc Ha ltac:(lia) w Hw) as H.
  unfold returns. rewrite (upd_eq w key s f (proj2 Hw)) in *. exact H.
Qed.

(** The stream after [n] bytes of its data have been taken. *)
Definition debited (f : FlowControl) (n : Z) (s : Stream) : Stream :=
  set_requested_send_capacity (as_u32 (s_requested_send_capacity s - n))
    (set_buffered_send_data (as_u32 (s_buffered_send_data s - n)) (set_send_flow f s)).

Lemma debit_stream {A} w key s f n (c : SE W E A) Q :
  at_ (J v 0) key s w -> 0 <= n <= cap s -> n <= send_window s ->
  flow_wf f -> credit f = send_window s - n -> window_i32 (available f) = cap s - n ->
  (forall w', at_ (J v n) key (debited f n s) w' -> returns c w' Q) ->
  returns (_ ← upd key (set_send_flow f);
           _ ← upd key (fun s => set_buffered_send_data (as_u32 (s_buffered_send_data s - n)) s);
           _ ← upd key (fun s => set_requested_send_capacity (as_u32 (s_requested_send_capacity s - n)) s);
           c) w Q.
Proof.
  intros Hw Hn Hsw Hwf' Hc Ha Hk. pose proof (accounted_stream (proj1 Hw) (proj2 Hw)) as [Hwf Hcap Hcr Hru Hbu Hif _].
  assert (stream_ok false (set_send_flow f s)) as Hok.
  { split; unfold cap, send_window in *; cbn [s_send_flow set_send_flow]; try done; simpl; lia. }
  assert (cap (set_send_flow f s) = cap s - n) as Hcap' by exact Ha.
  ret_step. eapply returns_mono; [|eapply (returns_upd 0 n key s (set_send_flow f)); [done|done|done|lia|done|exact Hw]].
  intros [] w1 Hw1. ret_step.
  eapply returns_mono; [|eapply (returns_upd n n key (set_send_flow f s)
    (fun s => set_buffered_send_data (as_u32 (s_buffered_send_data s - n)) s));
    [apply buffered_ok; [done|apply wrapu_range; lia]|done|done|done|done|exact Hw1]].
  intros [] w2 Hw2. ret_step. eapply returns_mono; [|eapply (returns_upd n n key (set_buffered_send_data (as_u32 (s_buffered_send_data s - n)) (set_send_flow f s))
    (fun s => set_requested_send_capacity (as_u32 (s_requested_send_capacity s - n)) s)); [|done|done|done|done|exact Hw2]].
  - intros [] w3 Hw3. by apply Hk.
  - apply requested_ok; [apply buffered_ok; [done|apply wrapu_range; lia]| |apply wrapu_range; lia].
    change (cap (set_buffered_send_data _ (set_send_flow f s))) with (cap (set_send_flow f s)).
    cbn [s_requested_send_capacity set_buffered_send_data set_send_flow]. unfold in_u in Hru.
    unfold as_u32. rewrite wrapu_id by (unfold in_u; lia). lia.
Qed.

(** What [pop_data] takes of a frame. *)
Definition taken (frame : Data T) (max_len : Z) (s : Stream) : Z :=
  Z.min (Z.min (remaining (data_data frame)) max_len) (cap s).

(** The stream holds capacity for the frame; an empty frame needs a window that is not
    negative. *)
Definition sendable (frame : Data T) (s : Stream) : bool :=
  if 0 <? remaining (data_data frame) then 0 <? cap s else 0 <=? send_window s.

Lemma returns_stream key s w (Q : Stream -> W -> Prop) :
  index key (w_store w) = Some s -> Q s w -> returns (stream key : SE W E Stream) w Q.
Proof. intros Hi HQ. unfold returns. by rewrite (stream_eq w key s Hi). Qed.

Lemma eq_size_cap s : flow_wf (s_send_flow s) -> 0 <= cap s -> Window.eq_size (available (s_send_flow s)) 0 = (cap s =? 0).
Proof.
  intros [_ Hw] Hc. unfold Window.eq_size, cap, Window.wf, in_i in *. destruct (Z.ltb_spec (window_i32 (available (s_send_flow s))) 0); [lia|].
  rewrite as_u32_id by (rewrite max_window; lia). done.
Qed.

Lemma remaining_take (buf : T) n : 0 <= n <= remaining buf -> remaining (MkTake buf n) = n.
Proof. unfold remaining, len. intros Hn. simpl. rewrite length_take. lia. Qed.

Lemma pop_data_takes frame max_len key s w :
  at_ (J v 0) key s w -> 0 <= max_len ->
  sendable frame s = true ->
  returns (pop_data frame max_len key : SE W E _) w (fun r w' =>
    exists d, r = Some (FData d) /\ remaining (data_data d) = taken frame max_len s /\
      J (v - taken frame max_len s) 0 w' /\
      exists s', index key (w_store w') = Some s' /\ send_window s' = send_window s - taken frame max_len s).
Proof.
  intros Hw Hm Hgo. pose proof (accounted_stream (proj1 Hw) (proj2 Hw)) as [Hwf Hcap Hcr Hru Hbu Hif _].
  assert (0 <= remaining (data_data frame)) as Hsz by (unfold remaining, len; lia).
  pose proof (credit_le _ Hwf) as Hmax. unfold pop_data. ret_step. apply (returns_stream _ s); [apply Hw|]. cbv zeta.
  rewrite eq_size_cap, as_size_cap by (done || lia).
  assert (((0 <? remaining (data_data frame)) && (cap s =? 0))%bool = false) as ->.
  { unfold sendable in Hgo. destruct (0 <? remaining _); [|done]. by destruct (Z.eqb_spec (cap s) 0); [lia|]. }
  fold (taken frame max_len s). assert (0 <= taken frame max_len s <= cap s) as Ht by (unfold taken; lia).
  rewrite as_u32_id by (unfold send_window in *; rewrite max_window in *; lia).
  assert (taken frame max_len s <= send_window s) as Htw.
  { unfold sendable in Hgo. destruct (Z.ltb_spec 0 (remaining (data_data frame))); unfold taken in *; lia. }
  edestruct (send_data_exact (E:=E) (s_send_flow s) (taken frame max_len s)) as (f & Hf & Hwf' & Hc & Hav);
    [done|lia|exact Htw|unfold cap in *; lia|]. ret_step; [exact Hf|].
  apply (debit_stream w key s f); [done|done|done|done|done|done|]. intros w1 [Hw1 Hi1].
  edestruct (charge_connection w1 (taken frame max_len s)) as (f' & w2 & Hf' & -> & Hw2 & Hst); [exact Hw1|lia|].
  unfold on_p_flow. do 4 ret_step. ret_step; [exact Hf'|]. do 3 ret_step.
  eexists. split; [reflexivity|]. split.
  - assert (0 <= taken frame max_len s <= remaining (data_data frame)) by (unfold taken in *; lia).
    destruct (taken frame max_len s <? _); by apply remaining_take.
  - split; [exact Hw2|]. exists (debited f (taken frame max_len s) s). by rewrite Hst.
Qed.

Context (max_len : Z) (Hm : 0 <= max_len).
Abbreviation Sent := (fun (r : option (Frame (B:=Prioritized T))) w => data_len r <= max_len /\ J (v - data_len r) 0 w).

Lemma triple_none (P : W -> Prop) R : (forall w, P w -> J v 0 w) -> triple P (mret None : SE W E _) Sent R.
Proof. intros HP w Hw. split; [done|]. simpl. rewrite Z.sub_0_r. by apply HP. Qed.

Lemma triple_pop_data frame key :
  triple (J v 0) (pop_data frame max_len key : SE W E _) Sent (fun _ => J v 0).
Proof.
  intros w Hw. destruct (index key (w_store w)) as [s|] eqn:Hi.
  - pose proof (accounted_stream Hw Hi) as [Hwf Hcap _ _ _ _ _].
    destruct (sendable frame s) eqn:Hgo.
    { pose proof (pop_data_takes frame max_len key s w (conj Hw Hi) Hm Hgo) as H. unfold returns in H.
      destruct (pop_data _ _ _ w) as [w' [r|e|]]; [|done..]. destruct H as (d & -> & Hd & HJ & _). cbn [data_len]. rewrite Hd. split; [unfold taken; lia|done]. }
    unfold pop_data. rewrite (bind_eq _ _ _ w s) by (by apply stream_eq). cbv zeta. rewrite eq_size_cap by (done || lia).
    unfold sendable in Hgo. destruct (Z.ltb_spec 0 (remaining (data_data frame))) as [H0|H0]; simpl.
    + assert ((cap s =? 0) = true) as -> by (apply Z.eqb_eq; lia). revert w Hw Hi. 
      intros w Hw _. revert w Hw. apply kept_bind_l; [keep|intros _]. by apply triple_none.
    + assert (remaining (data_data frame) = 0) as -> by (unfold remaining, len in *; lia).
      rewrite as_size_cap by (done || lia). rewrite !Z.min_l by lia. change (as_u32 0) with 0.
      unfold FlowControl.send_data. destruct (Window.size_le 0 (window_size (s_send_flow s))) eqn:Hle; [|done].
      apply Window.size_le_spec in Hle; [|apply Hwf|done]. unfold send_window, credit in Hgo. lia.
  - unfold pop_data, stream, on_store, zoom, deref, mbind, SE_bind. by rewrite Hi.
Qed.

(** A frame that is not DATA leaves the credit alone. *)
Lemma triple_other f R : data_len (Some f) = 0 -> triple (J v 0) (mret (Some f) : SE W E _) Sent R.
Proof. intros Hf w Hw. change (data_len (Some f) <= max_len /\ J (v - data_len (Some f)) 0 w). rewrite Hf, Z.sub_0_r. done. Qed.

Lemma triple_pop_push_promise pp : triple (J v 0) (pop_push_promise pp : SE W E _) Sent (fun _ => J v 0).
Proof. unfold pop_push_promise. repeat (apply kept_bind_l; [keep|intros]). by apply triple_other. Qed.
Lemma triple_pop_reset key r : triple (J v 0) (pop_reset key r : SE W E _) Sent (fun _ => J v 0).
Proof.
  apply kept_bind_l; [keep|intros s]. destruct (State.get_scheduled_reset _); apply kept_bind_l; [keep| |keep|]; intros.
  - by apply triple_other.
  - by apply triple_none.
Qed.

Lemma triple_pop_frame_loop fuel :
  triple (J v 0) (pop_frame_loop fuel max_len : SE W E _) Sent (fun _ => J v 0).
Proof.
  induction fuel as [|fuel IH]; cbn [pop_frame_loop]; [apply triple_panic|].
  apply kept_bind_l; [keep|intros popped]. destruct popped as [key|]; [|by apply triple_none].
  apply kept_bind_l; [keep|intros s]. cbv zeta. apply kept_bind_l; [keep|intros queued].
  apply triple_bind with (Q := Sent).
  - destruct queued as [[]|]; [by apply triple_pop_data|..]; try (by apply triple_other);
      [apply triple_pop_push_promise|apply triple_pop_reset].
  - intros [f|].
    + apply (triple_nothrow _ _ _ (fun _ => J (v - data_len (Some f)) 0)); [auto 12 using nothrow_transition_after with nothrow|]. intros w [Hd Hw]. revert w Hw.
      apply (triple_conseq _ (J (v - data_len (Some f)) 0) _ _ (fun r w => r = Some f /\ J (v - data_len (Some f)) 0 w)
        _ (fun _ => J (v - data_len (Some f)) 0)); [done|by intros r w [-> Hw]|done|].
      repeat (apply kept_bind_l; [keep|intros]). by intros w Hw.
    + eapply triple_conseq; [| | |exact IH]; [|done..]. intros w [_ Hw]. simpl in Hw. by rewrite Z.sub_0_r in Hw.
Qed.

Lemma triple_pop_frame : triple (J v 0) (pop_frame max_len : SE W E _) Sent (fun _ => J v 0).
Proof. apply kept_bind_l; [keep|intros fuel]. apply triple_pop_frame_loop. Qed.

(** ** The rest of the scheduling *)

Lemma kept_open_loop fuel : kept (J v 0) (open_loop fuel : SE W E ()).
Proof. induction fuel; cbn [open_loop]; keep. Qed.
End Pop.

(** * The send half keeps the accounts

    The operations of [http/h2/proto/streams/send.rs] on top of the scheduling. *)

Section Send.
Context `{HM : HeaderMapOps} `{TB : Buf T}.
Context {Ss Im Bf Rf : Type} {SS : Slab Stream Ss} {IM : IndexMap StreamId nat Im}.
Context {SB : Slab (Slot (Frame (B:=T))) Bf}.
Abbreviation W := (World Ss Im Bf Rf).
Context (t v b : Z).
Abbreviation J := (fun a => accounted (Ss:=Ss) (Im:=Im) (Bf:=Bf) (Rf:=Rf) false t v a b).
Implicit Types (w : W).

Lemma kept_send_headers frame key : kept (J 0) (send_headers frame key : SE W UserError ()).
Proof. unfold send_headers. cbv zeta. keep. Qed.
Lemma kept_s_send_trailers frame key : kept (J 0) (s_send_trailers frame key : SE W UserError ()).
Proof. unfold s_send_trailers. keep. Qed.
Lemma kept_s_send_push_promise frame key : kept (J 0) (s_send_push_promise frame key : SE W UserError ()).
Proof. unfold s_send_push_promise. keep. Qed.

Lemma kept_push_back_frame {E} frame key : kept (J 0) (push_back_frame frame key : SE W E ()).
Proof. unfold push_back_frame. keep. Qed.
Lemma kept_clear_pending_capacity {E} : kept (J 0) (clear_pending_capacity : SE W E ()).
Proof. unfold clear_pending_capacity. keep. Qed.
Lemma kept_s_clear_queues {E} : kept (J 0) (s_clear_queues : SE W E ()).
Proof.
  unfold s_clear_queues, clear_pending_capacity, clear_pending_send, clear_pending_open, transition_popped. keep.
Qed.
Lemma kept_schedule_pending_open {E} : kept (J 0) (schedule_pending_open : SE W E ()).
Proof. apply kept_bind; [keep|intros fuel]. apply kept_open_loop. Qed.
Lemma kept_s_poll_capacity {E} cx key : kept (J 0) (s_poll_capacity cx key : SE W E _).
Proof. unfold s_poll_capacity. keep. Qed.
Lemma kept_s_poll_reset cx key mode : kept (J 0) (s_poll_reset cx key mode : SE W _ _).
Proof. unfold s_poll_reset. keep. Qed.
Lemma kept_send_open : kept (J 0) (send_open : SE W _ _).
Proof.
  unfold send_open. apply kept_bind; [keep|intros]. apply kept_bind; [keep|intros].
  apply kept_bind; [|keep]. apply kept_modify. intros w Hw. by apply (plain_world (J 0) w).
Qed.

(** ** A smaller initial window *)

Lemma lower_window_ok {E} dec s :
  stream_ok false s ->
  exists s' r, lower_window dec s = (Ok (s', r) : outcome E _) /\ stream_ok false s' /\ 0 <= r /\ cap s' + r = cap s /\
    s_id s' = s_id s /\ s_is_counted s' = s_is_counted s /\ s_in_flight_recv_data s' = s_in_flight_recv_data s.
Proof.
  intros Hs. pose proof Hs as [Hwf Hcap Hcr Hru Hbu Hif _]. unfold lower_window. cbv zeta.
  change (available (FlowControl.dec_send_window (s_send_flow s) dec)) with (available (s_send_flow s)).
  rewrite as_size_cap by (done || lia). unfold FlowControl.get_window_size.
  set (f := FlowControl.dec_send_window (s_send_flow s) dec).
  assert (flow_wf f) as Hf by (destruct Hwf; split; [apply sub_assign_wf|done]).
  rewrite Window.as_size_spec by apply Hf. change (window_i32 (window_size f)) with (credit f).
  pose proof (credit_le f Hf). pose proof (credit_le _ Hwf). rewrite max_window in *.
  assert (cap (set_send_flow f s) = cap s) as Hc by done.
  destruct (Z.ltb_spec (Z.max 0 (credit f)) (cap s)).
  - assert (window_i32 (available (FlowControl.claim_capacity f (cap s - Z.max 0 (credit f)))) = Z.max 0 (credit f)) as Hcl.
    { rewrite claim_exact; [unfold cap in *; change (available f) with (available (s_send_flow s)); lia|done|..];
        rewrite ?max_window; unfold send_window, cap in *; change (available f) with (available (s_send_flow s)); lia. }
    assert (cap (set_send_flow (FlowControl.claim_capacity f (cap s - Z.max 0 (credit f))) s) = Z.max 0 (credit f)) as Hc' by exact Hcl.
    eexists _, _. split; [done|]. split; [|split; [lia|]]; [|rewrite Hc'; split; [lia|done]].
    split; rewrite ?Hc'; try done.
    + by apply claim_wf.
    + unfold send_window. cbn [s_send_flow set_send_flow]. rewrite credit_claim. lia.
    + cbn [s_requested_send_capacity set_send_flow]. lia.
  - eexists _, _. split; [done|]. split; [|split; [lia|]]; [|rewrite Hc; split; [lia|done]].
    split; rewrite ?Hc; try done. unfold send_window. cbn [s_send_flow set_send_flow]. lia.
Qed.

(** The capacity that the closure has counted is set aside. *)
Definition counting (x : W * Z) : Prop := 0 <= x.2 /\ J x.2 x.1.

Lemma kept_in_world {E A} (c : SE W E A) : (forall a, kept (J a) c) -> kept counting (in_world c).
Proof.
  intros Hc [w n] [Hn Hw]. specialize (Hc n w Hw). unfold in_world, zoom. simpl in *.
  by destruct (c w) as [w' [x|e|]].
Qed.

Lemma in_world_eq {E A} (c : SE W E A) w w' n r : c w = (w', r) -> in_world c (w, n) = ((w', n), r).
Proof. intros Hc. unfold in_world, zoom. simpl. by rewrite Hc. Qed.

Lemma kept_lower_round {E} dec key :
  kept counting (s ← in_world (stream key);
    '(s, reclaim) ← lift (lower_window dec s);
    _ ← in_world (upd key (fun _ => s));
    modify (fun x : W * Z => (x.1, as_u32 (x.2 + reclaim))) : SE (W * Z) E ()).
Proof.
  intros [w n] [Hn Hw]. simpl in *. destruct (index key (w_store w)) as [s|] eqn:Hi.
  - rewrite (bind_eq _ _ _ (w, n) s) by (by apply in_world_eq, stream_eq).
    destruct (lower_window_ok (E:=E) dec s (accounted_stream Hw Hi)) as (s' & r & -> & Hok & Hr & Hc & Hid & Hct & Hif).
    rewrite bind_lift_Ok, (bind_eq _ _ _ (set_store (put key s' (w_store w)) w, n) tt)
      by (by apply in_world_eq, (upd_eq w key s (fun _ => s'))).
    assert (J (n + r) (set_store (put key s' (w_store w)) w)) as HJ by (eapply accounted_put; try done; lia).
    pose proof HJ as (m & Hm & Ha). pose proof (acc_send Ha). pose proof (acc_send_available Ha). pose proof (cap_sum_nonneg Ha).
    pose proof (credit_le _ (acc_send_wf Ha)). pose proof (acc_credit Ha).
    unfold counting, modify. cbn [fst snd]. rewrite as_u32_id by lia. split; [lia|exact HJ].
  - unfold in_world, stream, on_store, deref, zoom, mbind, SE_bind. simpl. by rewrite Hi.
Qed.

Lemma triple_lower_windows {E} dec :
  triple (J 0) (lower_windows dec : SE W E Z) (fun n w => 0 <= n /\ J n w) (fun _ => J 0).
Proof.
  intros w Hw. unfold lower_windows.
  pose proof (kept_for_each counting (fun x : W * Z => w_store x.1) _ (kept_lower_round (E:=E) dec) (w, 0)) as H.
  destruct (for_each _ _ (w, 0)) as [[w' n] [x|e|]]; simpl; [|eapply accounted_weaken; [| |apply H]|done].
  - by apply H.
  - by destruct H.
  - lia.
  - done.
Qed.

Lemma kept_initial_window {E} val :
  0 <= val <= MAX_WINDOW_SIZE ->
  kept (J 0) (modify (fun w => set_send (set_sd_init_window_sz val (w_send w)) w) : SE W E ()).
Proof.
  intros Hval. apply kept_modify. intros w (m & Hm & Ha). exists m. split; [done|]. destruct Ha. by split.
Qed.

(** The stream window sizes of a SETTINGS frame are at most [2^31 - 1] once it has been loaded. *)
Definition settings_ok (settings : Settings) : Prop :=
  forall val, initial_window_size settings = Some val -> 0 <= val <= MAX_WINDOW_SIZE.

Lemma kept_s_apply_remote_settings settings :
  settings_ok settings -> kept (J 0) (s_apply_remote_settings settings : SE W RecvError ()).
Proof.
  intros Hok. unfold s_apply_remote_settings. destruct (initial_window_size settings) as [val|] eqn:Hs; [|keep].
  specialize (Hok val Hs). apply triple_bind with (Q := fun old w => 0 <= old <= MAX_WINDOW_SIZE /\ J 0 w).
  { intros w Hw. split; [|done]. destruct Hw as (m & _ & Ha). by destruct Ha. }
  intros old w [Hold Hw]. revert w Hw. apply kept_bind; [by apply kept_initial_window|intros _].
  destruct (Z.ltb_spec val old); [|destruct (Z.ltb_spec old val); [|keep]].
  - apply triple_bind with (Q := fun n w => 0 <= n /\ J n w); [apply triple_lower_windows|].
    intros n w [Hn Hw]. revert w Hw. by apply triple_assign_connection_capacity.
  - apply kept_for_each. intros key.
    apply kept_bind; [apply kept_attempt, kept_s_recv_stream_window_update; lia|]. keep.
Qed.
End Send.

#[export] Hint Resolve kept_send_headers kept_s_send_trailers kept_s_send_push_promise kept_push_back_frame
  kept_s_clear_queues kept_schedule_pending_open kept_s_poll_capacity kept_s_poll_reset kept_send_open
  kept_s_apply_remote_settings kept_send_data : kept.
