(* ===== verification/H2Input.v ===== *)
(** * What a connection can receive

    Whatever bytes, errors and ends the socket delivers: the reader's buffer stays a
    list of bytes, every frame takes at least nine of them, and the numbers of the
    frames that get through decoding are in the ranges that their handlers rely on. *)

From S2P Require Import Prelude Bytes H2Types FlowControl HttpTypes Frames FramesCorrect HpackDecoder HeadersFrame HpackTable.
From S2P Require Import FramedRead FramedWrite Codec CodecCorrect LengthDelimitedCorrect H2Codec FrameStream.
From S2P Require Import H2Store H2World H2Send H2Account H2AccountSend H2AccountPrioritize.

(** An answer of the socket: bytes, if there are any. *)
Definition answer_ok (a : ReadAnswer) : Prop := match a with RData bytes => is_bytes bytes | _ => True end.

(** The delimiting codec of HTTP/2 between two calls. *)
Definition h2_delimiter (c : LengthDelimitedCodec) : Prop :=
  (exists mx, 0 <= mx < 2 ^ 64 /\ ld_builder c = h2_builder mx) /\
  match ld_state c with Head_ => True | Data_ n => 9 <= n end.

Lemma h2_delimiter_good c l : h2_delimiter c -> is_bytes l -> ld_good c l.
Proof.
  intros [(mx & Hmx & Hb) Hs] Hl. split; [rewrite Hb; by apply h2_builder_ok|]. split; [|done].
  destruct (ld_state c); simpl; lia.
Qed.

(** A frame is its head at least. *)
Lemma h2_length mx l n : is_bytes l -> length_of (h2_builder mx) l = Ok n -> 9 <= n.
Proof.
  intros Hl. unfold length_of. destruct (_ <? _); [done|]. cbn [h2_builder length_adjustment]. change (9 <? 0) with false.
  cbv iota. assert (0 <= field_of (h2_builder mx) l) as Hf.
  { unfold field_of, uint_of. cbn [h2_builder length_field_is_big_endian]. apply from_be_bytes_range. apply Forall_take, Forall_drop, Hl. }
  unfold checked_add. change (as_usize 9) with 9. destruct (_ <? _); intros; simplify_eq. lia.
Qed.

(** A call of the delimiting codec, whatever it answers. *)
Lemma h2_data_step mx n l c' l' x :
  0 <= mx < 2 ^ 64 -> 9 <= n -> is_bytes l -> data_step (h2_builder mx) n l = ((c', l'), x) ->
  h2_delimiter c' /\ is_bytes l' /\ len l' <= len l /\
  match x with Ok (Some v) => is_bytes v /\ len l' + 9 <= len l | _ => True end.
Proof.
  intros Hmx Hn Hl E. assert (h2_delimiter (MkLengthDelimitedCodec (h2_builder mx) Head_)) as H0 by (split; [by exists mx|done]).
  destruct (data_step_cases (h2_builder mx) n l) as [[Hlt E1]|[Hle E1]]; [lia|..]; rewrite E1 in E; simplify_eq.
  - split; [split; [by exists mx|done]|done].
  - unfold len in *. split; [done|]. split; [by apply Forall_drop|]. rewrite length_drop. split; [lia|]. split; [by apply Forall_take|lia].
Qed.
Lemma h2_call c l c' l' x :
  h2_delimiter c -> is_bytes l -> ld_pure c l = ((c', l'), x) ->
  h2_delimiter c' /\ is_bytes l' /\ len l' <= len l /\
  match x with Ok (Some v) => is_bytes v /\ len l' + 9 <= len l | _ => True end.
Proof.
  intros Hd Hl E. pose proof Hd as [(mx & Hmx & Hb) Hs]. destruct c as [b st]. simpl in *. subst b.
  pose proof (h2_builder_ok mx Hmx) as Hok. destruct st as [|n].
  - rewrite decode_head_step in E by done. destruct (_ <? _); [by simplify_eq|].
    destruct (length_of (h2_builder mx) l) as [n|e|] eqn:En; [|by simplify_eq..].
    destruct (h2_head mx) as [_ E2]. rewrite E2 in E. change (Z.to_nat 0) with 0%nat in E. rewrite drop_0 in E.
    eapply (h2_data_step mx n l); [done| |done|done]. by eapply h2_length.
  - rewrite decode_data_eq in E by lia. by eapply (h2_data_step mx n l).
Qed.

Section Reader.
Context `{HM : HeaderMapOps} `{BM : BytesMut B}.

(** ** Reading from the socket *)

Abbreviation R := (FramedRead2 LengthDelimitedCodec B).
Definition ahead_of (r : R) (script : list ReadAnswer) : Z := len (buf_bytes (r2_buffer r)) + len (script_bytes script).
Definition input_ok (r : R) (script : list ReadAnswer) : Prop :=
  h2_delimiter (r2_codec r) /\ is_bytes (buf_bytes (r2_buffer r)) /\ Forall answer_ok script /\ ahead_of r script < 2 ^ 64.

(** A call that leaves the reader in order, having taken at least [n] bytes. *)
Definition takes (n : Z) (r : R) script (r' : R) script' : Prop :=
  input_ok r' script' /\ ahead_of r' script' + n <= ahead_of r script.

Lemma takes_trans n r1 s1 r2 s2 r3 s3 : takes 0 r1 s1 r2 s2 -> takes n r2 s2 r3 s3 -> takes n r1 s1 r3 s3.
Proof. intros [_ H1] [H2 H3]. split; [done|]. lia. Qed.

Definition item_post (r : R) script (x : R * list ReadAnswer * outcome IoErr (Async (option B))) : Prop :=
  match x with
  | (r', script', Ok (Ready (Some item))) => takes 9 r script r' script' /\ is_bytes (buf_bytes item)
  | (r', script', _) => takes 0 r script r' script'
  end.

Lemma on_dec_ok r script : input_ok r script ->
  let '(r', x) := Codec.on_codec dec r in
  takes 0 r script r' script /\ r2_eof r' = r2_eof r /\ r2_is_readable r' = r2_is_readable r /\
  match x with Ok (Some item) => takes 9 r script r' script /\ is_bytes (buf_bytes item) | _ => True end.
Proof.
  intros (Hd & Hb & Hs & Hr). unfold Codec.on_codec. pose proof (ld_implements (r2_codec r) (r2_buffer r)) as H.
  destruct (dec (r2_codec r, r2_buffer r)) as [[c b] x]. apply h2_call in H as (Hd' & Hb' & Hl & Hx); [|done..].
  unfold takes, input_ok, ahead_of in *. cbn [r2_codec r2_buffer r2_eof r2_is_readable].
  split; [split; [split_and!; try done; lia|lia]|]. split; [done|]. split; [done|].
  destruct x as [[item|]|e|]; try done. destruct Hx as [? ?]. split; [|done]. split; [split_and!; try done; lia|lia].
Qed.
Lemma on_dec_eof_ok r script : input_ok r script -> item_post r script (let '(r', x) := Codec.on_codec dec_eof r in (r', script, Ready <$> x)).
Proof.
  intros Hi. pose proof (on_dec_ok r script Hi) as H. unfold Codec.on_codec in *. cbn [dec_eof dec LengthDelimitedCodec_Decoder] in *.
  unfold default_decode_eof, mbind, SE_bind.
  destruct (LengthDelimitedCodec_decode (r2_codec r, r2_buffer r)) as [[c b] [[item|]|e|]]; simpl in *; try apply H.
  case_bool_decide; simpl; apply H.
Qed.

Lemma read_more_ok script r :
  (forall a script' r', script = a :: script' -> input_ok r' script' -> item_post r' script' (poll_next script' r')) ->
  input_ok r script -> item_post r script (read_more script r).
Proof.
  intros IH (Hd & Hb & Hs & Hr). unfold read_more. assert (takes 0 r script r script) as H0 by (split; [by split_and!|lia]).
  destruct (r2_eof r); [done|]. destruct script as [|[|k|bytes] script]; [done|..]; apply Forall_cons in Hs as [Ha Hs].
  1, 2: split; [by split_and!|unfold ahead_of; simpl; lia].
  unfold ahead_of in Hr. cbn [script_bytes] in Hr. rewrite len_app in Hr. pose proof (len_nonneg (script_bytes script)).
  assert (buf_bytes (put_slice (r2_buffer r) bytes) = buf_bytes (r2_buffer r) ++ bytes) as Eb
    by (apply put_slice_bytes; rewrite bm_remaining; lia).
  set (r1 := MkFramedRead2 _ _ _ _). assert (takes 0 r (RData bytes :: script) r1 script) as Ht.
  { unfold takes, input_ok, ahead_of. cbn [r1 r2_codec r2_buffer script_bytes]. rewrite Eb, !len_app.
    split; [|lia]. split; [done|]. split; [by apply is_bytes_app|]. split; [done|]. lia. }
  specialize (IH (RData bytes) script r1 eq_refl (proj1 Ht)). unfold item_post in *.
  destruct (poll_next script r1) as [[r2 script2] [[[item|]|]|e|]]; try (by eapply takes_trans).
  destruct IH. split; [by eapply takes_trans|done].
Qed.

Lemma poll_next_any script : forall r, input_ok r script -> item_post r script (poll_next script r).
Proof.
  assert (forall script, (forall a script' r', script = a :: script' -> input_ok r' script' -> item_post r' script' (poll_next script' r')) ->
    forall r, input_ok r script -> item_post r script (poll_next script r)) as Hstep.
  { clear script. intros script IH r Hi. destruct (r2_eof r) eqn:He.
    - assert (poll_next script r = if r2_is_readable r then (let '(r', x) := Codec.on_codec dec_eof r in (r', script, Ready <$> x))
        else (r, script, Panic)) as -> by (destruct r as [c eof rd b]; simpl in He; subst eof; by destruct script).
      destruct (r2_is_readable r); [by apply on_dec_eof_ok|]. split; [done|lia].
    - rewrite poll_next_eq by done. destruct (r2_is_readable r); [|by apply read_more_ok].
      pose proof (on_dec_ok r script Hi) as H. destruct (Codec.on_codec dec r) as [r1 [[item|]|e|]]; destruct H as (H1 & H2 & H3 & H4); try done.
      set (r2 := MkFramedRead2 _ _ _ _). assert (takes 0 r script r2 script) as Ht by exact H1.
      pose proof (read_more_ok script r2 IH (proj1 Ht)) as H. unfold item_post in *.
      destruct (read_more script r2) as [[r3 script3] [[[item|]|]|e|]]; try (by eapply takes_trans).
      destruct H. split; [by eapply takes_trans|done]. }
  induction script as [|a script IH]; apply Hstep; [done|]. intros a' script' r' [= _ <-]. apply IH.
Qed.

(** ** Decoded frames *)

#[local] Arguments Continuable_load_hpack : simpl never.

Definition frame_in_range (f : Frame (B:=B)) : Prop :=
  match f with
  | FSettings s => Settings.wf s
  | FWindowUpdate u => 0 <= wu_size_increment u <= MAX_WINDOW_SIZE
  | _ => True
  end.

Lemma window_update_in_range head p u : WindowUpdate.load head p = Ok u -> 0 <= wu_size_increment u <= MAX_WINDOW_SIZE.
Proof.
  unfold WindowUpdate.load. intros H. destruct (_ =? 4); simpl in H; [|done].
  apply outcome_bind_Ok in H as (raw & _ & H). destruct (_ =? 0); simplify_eq. cbn [wu_size_increment].
  change (not_u 32 WindowUpdate.SIZE_INCREMENT_MASK) with (Z.ones 31). rewrite Z.land_ones by lia.
  rewrite max_window. pose proof (Z.mod_pos_bound raw (2 ^ 31)). lia.
Qed.

Lemma decode_frame_range bytes :
  is_bytes (buf_bytes bytes) ->
  triple (fun _ => True) (decode_frame bytes) (fun f _ => match f with Some f => frame_in_range f | None => True end) (fun _ _ => True).
Proof.
  intros Hb. pose (ok := fun (f : option (Frame (B:=B))) (_ : FramedRead (B:=B)) => match f with Some f => frame_in_range f | None => True end).
  change (triple (fun _ => True) (decode_frame bytes) ok (fun _ _ => True)).
  assert (forall head e frame payload,
    triple (fun _ => True) (header_block head e frame
      (fun c => match c with CHeaders h => FHeaders h | CPushPromise p => FPushPromise p end) payload) ok (fun _ _ => True)) as Hblock.
  { intros head e frame payload s _. unfold header_block, mbind, SE_bind. simpl. match goal with |- context [Continuable_load_hpack ?m ?t] => destruct (Continuable_load_hpack m t) as [[[f p] h] r] end.
    simpl. destruct (classify _ _ _); simpl; try done. destruct e; simpl; [|done]. by destruct f. }
  apply triple_bind with (Q := fun _ _ => True); [by intros s _; simpl; destruct (Head.parse _)|intros head].
  apply triple_bind with (Q := fun _ _ => True); [done|intros s]. destruct (_ && _); [done|].
  assert (forall p, slice_from (E:=RecvError) (buf_bytes bytes) HEADER_LEN = Ok p -> is_bytes p) as Hp.
  { intros p. unfold slice_from. destruct (_ && _); intros; simplify_eq. by apply is_bytes_drop. }
  assert (forall A (o : outcome RecvError A) (k : A -> SE (FramedRead (B:=B)) RecvError (option (Frame (B:=B)))),
    (forall a, o = Ok a -> triple (fun _ => True) (k a) ok (fun _ _ => True)) -> triple (fun _ => True) (lift o ≫= k) ok (fun _ _ => True)) as Hlift.
  { intros A o k Hk s' _. unfold mbind, SE_bind. simpl. destruct o as [a|e|]; [|done..]. by apply Hk. }
  destruct (head_kind head); try (apply Hlift; intros p Ep); try (apply Hlift; intros f Ef); try done.
  - destruct p as [f p]. apply Hblock.
  - case_bool_decide; [done|]. apply Hlift. intros p Ep. apply Hlift. by intros f Ef s' _.
  - intros s' _. simpl. pose proof (settings_load_spec head p (Hp p Ep)) as H. destruct (Settings.load head p); simplify_eq/=. apply H.
  - destruct p as [f p]. apply Hblock.
  - intros s' _. simpl. destruct (WindowUpdate.load head p) eqn:Ew; simplify_eq/=. by eapply window_update_in_range.
  - intros s' _. unfold decode_continuation, mbind, SE_bind. simpl. destruct (fr_partial s') as [pt|]; simpl; [|done].
    destruct (negb _); [done|]. destruct (_ && _); [done|]. match goal with |- context [Continuable_load_hpack ?m ?t] => destruct (Continuable_load_hpack m t) as [[[f p] h] r] end.
    simpl. destruct (classify _ _ _); simpl; try done. destruct (_ =? _); simpl; [|done]. by destruct f.
Qed.

(** ** The reader of frames *)

Definition reader_ok (r : FrameReader (B:=B)) (script : list ReadAnswer) : Prop := input_ok (rd_inner r) script.
Definition unread (r : FrameReader (B:=B)) (script : list ReadAnswer) : Z := ahead_of (rd_inner r) script.

Definition read_post (r : FrameReader (B:=B)) script (x : FrameReader (B:=B) * list ReadAnswer * outcome RecvError (Async (option (Frame (B:=B))))) : Prop :=
  match x with
  | (r', script', Ok (Ready (Some f))) => takes 9 (rd_inner r) script (rd_inner r') script' /\ frame_in_range f
  | (r', script', Err (RecvStream _ _)) => takes 9 (rd_inner r) script (rd_inner r') script'
  | (r', script', _) => takes 0 (rd_inner r) script (rd_inner r') script'
  end.

Lemma takes_less n r1 s1 r2 s2 : 0 <= n -> takes n r1 s1 r2 s2 -> takes 0 r1 s1 r2 s2.
Proof. intros Hn [H1 H2]. split; [done|]. lia. Qed.

Lemma poll_frames_any fuel : forall script r, reader_ok r script -> read_post r script (poll_frames fuel script r).
Proof.
  induction fuel as [|fuel IH]; intros script r Hr; cbn [poll_frames]; [split; [done|lia]|].
  pose proof (poll_next_any script (rd_inner r) Hr) as H.
  destruct (poll_next script (rd_inner r)) as [[inner script'] [[[bytes|]|]|e|]]; simpl in H; try done.
  - destruct H as [Ht Hb]. pose proof (takes_less 9 _ _ _ _ ltac:(lia) Ht) as Ht0. cbn [rd_frames].
    pose proof (decode_frame_range bytes Hb (rd_frames r) I) as Hd.
    destruct (decode_frame bytes (rd_frames r)) as [frames [[f|]|[]|]]; try done.
    specialize (IH script' (MkFrameReader inner frames) (proj1 Ht)). unfold read_post in *.
    destruct (poll_frames fuel script' _) as [[r2 script2] [[[f|]|]|[]|]]; try (eapply takes_trans; [exact Ht0|exact IH]).
    split; [|apply IH]. eapply takes_trans; [exact Ht0|apply IH].
  - destruct e as [[]| |]; done.
Qed.
Lemma rd_poll_next_any script r : reader_ok r script -> read_post r script (rd_poll_next script r).
Proof. apply poll_frames_any. Qed.
End Reader.
