(* ===== verification/H2AccountRecv.v ===== *)
(** * The receive half keeps the accounts

    Received data is charged to the connection before anything else can fail, and
    every path gives it to the stream or back to the connection's window.

    The second part has the operations of the receive half. *)

From S2P Require Import Prelude Bytes H2Types FlowControl StreamState Slab HttpTypes HpackTable Frames HeadersFrame.
From S2P Require Import FramedRead H2Buffer H2Store H2World H2Send H2Recv H2Account H2AccountSend H2Peer.
From S2P Require Import H2AccountPrioritize.

(** The connection's side of the receive accounts after a change that is covered. *)
Lemma accounts_rf g t v a b t' b' m pf rf rf' n n' i c :
  accounts g t v a b m pf rf n i c -> flow_wf rf' -> 0 <= credit rf' -> credit rf' + n' <= MAX_WINDOW_SIZE ->
  b' - n' <= b - n -> window_i32 (available rf') + n' = t' -> 0 <= t' <= MAX_WINDOW_SIZE ->
  accounts g t' v a b' m pf rf' n' i c.
Proof. intros [] ? ? ? ? ? ?. split; try done. lia. Qed.

Lemma accounts_in_flight_range {g t v a b m pf rf n i c} :
  accounts g t v a b m pf rf n i c -> b <= n <= MAX_WINDOW_SIZE.
Proof.
  intros H. pose proof (acc_recv H). destruct H as [Hs].
  assert (0 <= map_sum s_in_flight_recv_data m) by (apply map_sum_nonneg; intros k s Hk; exact (ok_in_flight (Hs k s Hk))).
  lia.
Qed.

Lemma add_assign_range w sz :
  Window.wf w -> 0 <= sz <= MAX_WINDOW_SIZE -> window_i32 w + sz <= MAX_WINDOW_SIZE ->
  window_i32 (Window.add_assign w sz) = window_i32 w + sz.
Proof.
  intros Hw Hsz Hr. unfold Window.wf in Hw. unfold Window.add_assign. simpl. rewrite (Window.as_i32_size sz) by done.
  rewrite max_window in *. int_lia.
Qed.

Section Recv.
Context {Ss Im Bf Rf : Type} {SS : Slab Stream Ss} {IM : IndexMap StreamId nat Im}.
Abbreviation W := (World Ss Im Bf Rf).
Context (g : bool) (t v a : Z).
Abbreviation J := (accounted (Ss:=Ss) (Im:=Im) (Bf:=Bf) (Rf:=Rf) g t v a).
Implicit Types (w : W).

(** Giving [n] bytes back to the connection's window. *)
Lemma triple_release_connection_capacity {E} b n task R :
  0 <= n ->
  triple (fun w => J b w /\ n <= rv_in_flight_data (w_recv w)) (release_connection_capacity n task : SE W E ())
    (fun _ => J (b - n)) R.
Proof.
  intros Hn w [(m & Hm & Ha) Hle]. unfold release_connection_capacity, on_recv, on_rv_flow. rewrite !bind_modify, bind_gets.
  set (w1 := set_recv _ (set_recv _ w)).
  assert (J (b - n) w1) as H1; [|destruct (FlowControl.unclaimed_capacity _); [destruct task|]; try exact H1; exact (kept_wake_task (E:=E) (J (b - n)) w1 H1)].
  pose proof (accounts_in_flight_range Ha). exists m. split; [done|]. subst w1. cbn -[Window.add_assign as_u32].
  pose proof Ha as [_ _ _ _ _ [Hw1 Hw2] ? ? ? ? ? ? ? ? ?].
  rewrite as_u32_id by lia. eapply accounts_rf; [exact Ha|..]; cbn -[Window.add_assign]; try lia.
  - split; [done|]. apply add_assign_wf.
  - done.
  - change (credit (FlowControl.assign_capacity (rv_flow (w_recv w)) n)) with (credit (rv_flow (w_recv w))). lia.
  - rewrite add_assign_range; [lia|done|lia|lia].
Qed.

Lemma triple_consume_connection_window b sz :
  0 <= b -> 0 <= sz ->
  triple (J b) (consume_connection_window sz : SE W RecvError ()) (fun _ => J (b + sz))
    (fun e w => e = RecvConnection FLOW_CONTROL_ERROR /\ J b w).
Proof.
  intros Hb Hsz w Hw. pose proof Hw as (m & Hm & Ha). unfold consume_connection_window. rewrite bind_gets.
  pose proof Ha as [_ _ _ _ _ Hwf ? ? ? ? ? ? ? ? ?]. pose proof Hwf as [Hw1 Hw2]. pose proof (accounts_in_flight_range Ha).
  unfold FlowControl.get_window_size. rewrite Window.as_size_spec by done.
  change (window_i32 (window_size (rv_flow (w_recv w)))) with (credit (rv_flow (w_recv w))).
  destruct (Z.ltb_spec (Z.max 0 (credit (rv_flow (w_recv w)))) sz); [by split|].
  edestruct (send_data_exact (E:=RecvError) (rv_flow (w_recv w)) sz) as (f & Hf & Hwf' & Hc & Hav);
    [done|done|lia|rewrite max_window in *; lia|].
  rewrite Hf, bind_lift_Ok. unfold on_rv_flow, on_recv. rewrite bind_modify.
  exists m. split; [done|]. cbn -[as_u32]. rewrite as_u32_id by lia.
  eapply accounts_rf; [exact Ha|done|..]; rewrite ?Hc, ?Hav; lia.
Qed.

Lemma triple_ignore_data b sz :
  0 <= b -> 0 <= sz ->
  triple (J b) (ignore_data sz : SE W RecvError ()) (fun _ => J b) (fun e w => e = RecvConnection FLOW_CONTROL_ERROR /\ J b w).
Proof.
  intros Hb Hsz. eapply triple_bind; [by apply triple_consume_connection_window|]. intros [].
  eapply triple_conseq; [| | |apply (triple_release_connection_capacity (b + sz) sz false
    (fun e w => e = RecvConnection FLOW_CONTROL_ERROR /\ J b w)); lia];
    [|by replace (b + sz - sz) with b by lia|done].
  intros w Hw. split; [exact Hw|]. destruct Hw as (m & _ & Ha). pose proof (accounts_in_flight_range Ha). lia.
Qed.

(** ** Releasing capacity *)

Lemma in_flight_ok s n : stream_ok g s -> 0 <= n -> stream_ok g (set_in_flight_recv_data n s).
Proof. intros [? ? ? ? ? ? Hg] Hn. by split. Qed.

Lemma at_in_flight b key s w : at_ (J b) key s w -> s_in_flight_recv_data s + b <= rv_in_flight_data (w_recv w) <= MAX_WINDOW_SIZE.
Proof.
  intros [(m & Hm & Ha) Hi]. destruct (holds_index _ m key s Hm Hi) as [Hk _].
  pose proof (accounts_in_flight Ha Hk). pose proof (accounts_in_flight_range Ha). lia.
Qed.

(** The stream behind another key, or this one, after its connection has been released. *)
Lemma release_keeps_store {E} n task w :
  exists w', (release_connection_capacity n task : SE W E ()) w = (w', Ok tt) /\ w_store w' = w_store w.
Proof.
  unfold release_connection_capacity, on_recv, on_rv_flow. rewrite !bind_modify, bind_gets.
  destruct (FlowControl.unclaimed_capacity _); [destruct task|]; try (by eexists).
  unfold wake_task, modify. destruct (w_task _); by eexists.
Qed.

Lemma triple_release {E} b key s n task R :
  0 <= n <= s_in_flight_recv_data s -> 0 <= b ->
  triple (at_ (J b) key s) (release_connection_capacity n task : SE W E ()) (fun _ => at_ (J (b - n)) key s) R.
Proof.
  intros Hn Hb w Hw. pose proof (at_in_flight b key s w Hw). destruct (release_keeps_store (E:=E) n task w) as (w' & Hw' & Hst).
  assert (0 <= n) as Hn0 by lia. assert (n <= rv_in_flight_data (w_recv w)) as Hle by lia.
  pose proof (triple_release_connection_capacity (E:=E) b n task R Hn0 w (conj (proj1 Hw) Hle)) as H1.
  rewrite Hw' in *. split; [exact H1|]. rewrite Hst. apply Hw.
Qed.

Lemma kept_r_release_capacity b n key : 0 <= b -> 0 <= n -> kept (J b) (r_release_capacity n key : SE W UserError ()).
Proof.
  intros Hb Hn. apply triple_bind with (Q := at_ (J b) key); [apply triple_stream|]. intros s.
  destruct (Z.ltb_spec (s_in_flight_recv_data s) n); [by intros w [Hw _]|].
  apply triple_bind with (Q := fun _ => at_ (J (b - n)) key s); [apply triple_release; lia|intros []].
  apply triple_bind with (Q := fun _ => at_ (J b) key (set_in_flight_recv_data (s_in_flight_recv_data s - n) s)).
  - intros w Hw. pose proof (accounted_stream (proj1 Hw) (proj2 Hw)). revert w Hw.
    apply (triple_upd _ _ _ _ _ _ _ key s (fun s => set_in_flight_recv_data (s_in_flight_recv_data s - n) s));
      [apply in_flight_ok; [done|lia]|done|done|done|simpl; lia].
  - intros []. apply triple_at. apply kept_bind; [keep|intros []]. keep.
Qed.

(** ** The target of the connection's window *)

Lemma triple_set_target_connection_window {E} b target R :
  0 <= target <= MAX_WINDOW_SIZE -> 0 <= b ->
  triple (J b) (set_target_connection_window target : SE W E ())
    (fun _ => accounted g target v a b) R.
Proof.
  intros Htar Hb w (m & Hm & Ha). unfold set_target_connection_window. rewrite bind_gets.
  pose proof Ha as [_ _ _ _ _ [Hw1 Hw2] ? ? ? Ht ? ? ? ? ?]. pose proof (accounts_in_flight_range Ha).
  assert (Window.add (available (rv_flow (w_recv w))) (rv_in_flight_data (w_recv w)) = MkWindow t) as ->.
  { unfold Window.add. f_equal. rewrite (Window.as_i32_size (rv_in_flight_data _)) by lia. rewrite Ht.
    rewrite max_window in *. int_lia. }
  assert (forall E, Window.checked_size (MkWindow t) = (Ok t : outcome E Z)) as ->.
  { intros E'. unfold Window.checked_size, assert_. simpl. destruct (Z.leb_spec 0 t); [|lia]. simpl. by rewrite as_u32_id. }
  rewrite bind_lift_Ok.
  assert (forall f, flow_wf f -> credit f = credit (rv_flow (w_recv w)) ->
    window_i32 (available f) = target - rv_in_flight_data (w_recv w) ->
    match (r ← gets w_recv; match FlowControl.unclaimed_capacity (rv_flow r) with
      Some _ => wake_task | None => mret tt end : SE W E ()) (set_recv (set_rv_flow f (w_recv w)) w) with
    | (w', Ok _) => accounted g target v a b w' | (w', Err e) => R e w' | (_, Panic) => True end) as Hdone.
  { intros f Hwf Hc Hav. rewrite bind_gets. set (w1 := set_recv _ w).
    assert (accounted g target v a b w1) as H1.
    { exists m. split; [done|]. subst w1. cbn. eapply accounts_rf; [exact Ha|done|..]; rewrite ?Hc, ?Hav; lia. }
    destruct (FlowControl.unclaimed_capacity _); [|exact H1].
    exact (kept_wake_task (E:=E) (accounted g target v a b) w1 H1). }
  rewrite max_window in *. destruct (Z.ltb_spec t target); unfold on_rv_flow; rewrite bind_modify; apply Hdone; try done.
  - by apply assign_wf.
  - rewrite <- Ht in *. cbn -[Window.add_assign]. rewrite add_assign_range by (rewrite ?max_window; done || lia). lia.
  - by apply claim_wf.
  - rewrite <- Ht in *. rewrite claim_exact by (rewrite ?max_window; done || lia). lia.
Qed.
End Recv.

Section Operations.
Context `{HM : HeaderMapOps} {HI : HeaderMapIntoIter (HM:=HM)} {NH : NameHasher (HT:=HT)} {UO : UriOps}.
Context `{BM : BytesMut B} `{TB : Buf T}.
Context {Ss Im Bf Rf : Type} {SS : Slab Stream Ss} {IM : IndexMap StreamId nat Im}.
Context {SB : Slab (Slot (Frame (B:=T))) Bf} {RB : Slab (Slot (Event (B:=B))) Rf}.
Abbreviation W := (World Ss Im Bf Rf).
Context (g : bool) (t v : Z).
Abbreviation J := (accounted (Ss:=Ss) (Im:=Im) (Bf:=Bf) (Rf:=Rf) g t v 0).

Lemma kept_drop_events {E} b fuel key : kept (J b) (drop_events fuel key : SE W E ()).
Proof. induction fuel; cbn [drop_events]; keep. Qed.
Lemma kept_r_clear_recv_buffer {E} b key : kept (J b) (r_clear_recv_buffer key : SE W E ()).
Proof. apply kept_bind; [keep|intros fuel]. apply kept_drop_events. Qed.

Lemma kept_release_closed_capacity {E} key : kept (J 0) (release_closed_capacity key : SE W E ()).
Proof.
  apply triple_bind with (Q := at_ (J 0) key); [apply triple_stream|]. intros s.
  destruct (_ =? 0); [by intros w [Hw _]|]. intros w Hw. pose proof (accounted_stream (proj1 Hw) (proj2 Hw)) as Hs.
  pose proof (ok_in_flight Hs). revert w Hw.
  apply triple_bind with (Q := fun _ => at_ (J (0 - s_in_flight_recv_data s)) key s); [apply triple_release; lia|intros []].
  apply triple_bind with (Q := fun _ => at_ (J 0) key (set_in_flight_recv_data 0 s)).
  - apply triple_upd; [by apply in_flight_ok|done..|simpl; lia].
  - intros []. apply triple_at, kept_r_clear_recv_buffer.
Qed.

Lemma kept_enqueue_reset_expiration {E} key : kept (J 0) (enqueue_reset_expiration key : SE W E ()).
Proof. unfold enqueue_reset_expiration. keep. Qed.
End Operations.

(** * The operations of the receive half keep the accounts *)

#[export] Hint Resolve kept_enqueue_reset_expiration kept_r_clear_recv_buffer : kept.

Section Recv.
Context `{HM : HeaderMapOps} {HI : HeaderMapIntoIter (HM:=HM)} {NH : NameHasher (HT:=HT)} {UO : UriOps}.
Context `{BM : BytesMut B} `{TB : Buf T}.
Context {Ss Im Bf Rf : Type} {SS : Slab Stream Ss} {IM : IndexMap StreamId nat Im}.
Context {SB : Slab (Slot (Frame (B:=T))) Bf} {RB : Slab (Slot (Event (B:=B))) Rf}.
Abbreviation W := (World Ss Im Bf Rf).
Context (t v : Z).
Abbreviation G := (fun g => accounted (Ss:=Ss) (Im:=Im) (Bf:=Bf) (Rf:=Rf) g t v 0 0).
Abbreviation J := (G false).

Lemma kept_on_recv {E} g (f : Recv Rf -> Recv Rf) :
  (forall r, rv_flow (f r) = rv_flow r /\ rv_in_flight_data (f r) = rv_in_flight_data r) ->
  kept (G g) (on_recv f : SE W E ()).
Proof.
  intros Hf. apply kept_modify. intros w Hw. destruct (Hf (w_recv w)). by apply (plain_world (G g) w).
Qed.
#[local] Hint Extern 1 (kept _ (on_recv _)) => apply kept_on_recv; intros; split; reflexivity : kept.

(** A state that was open when the new state was computed from it. *)
Lemma kept_set_state {E A} g key (o : State -> outcome E A) (st : A -> State) (k : A -> SE W E ()) :
  (forall s x, o s = Ok x -> State.is_closed s = false) -> (forall x, kept (G g) (k x)) ->
  kept (G g) (s ← stream key; x ← lift (o (s_state s)); _ ← upd key (set_state (st x)); k x : SE W E ()).
Proof.
  intros Ho Hk. apply triple_bind with (Q := at_ (G g) key); [apply triple_stream|]. intros s.
  eapply triple_bind; [apply triple_lift; by intros e w _ [Hw _]|]. intros x w [Hx Hw]. revert w Hw.
  apply triple_bind with (Q := fun _ => at_ (G g) key (set_state (st x) s)).
  - apply triple_upd_state; [done|]. intros _ Hc. by rewrite (Ho _ _ Hx) in Hc.
  - intros _. apply triple_at, Hk.
Qed.

Lemma kept_recv_open id mode g : kept (G g) (recv_open id mode : SE W _ _).
Proof. unfold recv_open. keep. Qed.
Lemma kept_recv_content_length fields key g : kept (G g) (recv_content_length fields key : SE W _ _).
Proof. unfold recv_content_length. keep. Qed.
#[local] Hint Resolve kept_recv_content_length : kept.

Lemma kept_r_recv_headers frame key g : kept (G g) (r_recv_headers frame key : SE W _ _).
Proof.
  unfold r_recv_headers. apply triple_bind with (Q := at_ (G g) key); [apply triple_stream|]. intros s.
  eapply triple_bind; [apply triple_lift; by intros e w _ [Hw _]|]. intros [state init] w [Hx Hw]. revert w Hw.
  apply triple_bind with (Q := fun _ => at_ (G g) key (set_state state s)).
  - apply triple_upd_state; [done|]. intros _ Hc. unfold State.is_closed in Hc. exfalso.
    unfold State.recv_open in Hx. by destruct (inner (s_state s)).
  - intros []. apply (kept_at (G g)). cbv zeta. keep.
Qed.

Lemma kept_r_take_request {E} key g : kept (G g) (r_take_request key : SE W E _).
Proof. unfold r_take_request. keep. Qed.
Lemma kept_r_poll_response cx key g : kept (G g) (r_poll_response cx key : SE W _ _).
Proof. unfold r_poll_response. keep. Qed.
Lemma kept_r_poll_data cx key g : kept (G g) (r_poll_data cx key : SE W _ _).
Proof. unfold r_poll_data, schedule_recv. keep. Qed.
Lemma kept_r_poll_trailers cx key g : kept (G g) (r_poll_trailers cx key : SE W _ _).
Proof. unfold r_poll_trailers, schedule_recv. keep. Qed.
Lemma kept_recv_trailers frame key : kept J (recv_trailers frame key : SE W _ _).
Proof. unfold recv_trailers. keep. Qed.
Lemma kept_r_recv_push_promise frame key : kept J (r_recv_push_promise frame key : SE W _ _).
Proof. unfold r_recv_push_promise. cbv zeta. keep. Qed.
Lemma kept_r_recv_reset {E} frame key : kept J (r_recv_reset frame key : SE W E _).
Proof. unfold r_recv_reset. keep. Qed.
Lemma kept_r_recv_err {E} err key : kept J (r_recv_err err key : SE W E _).
Proof. unfold r_recv_err. keep. Qed.
Lemma kept_r_recv_eof {E} key : kept J (r_recv_eof key : SE W E _).
Proof. unfold r_recv_eof. keep. Qed.
Lemma kept_r_go_away {E} id : kept J (r_go_away id : SE W E _).
Proof. unfold r_go_away. keep. Qed.
Lemma kept_r_clear_queues {E} acc : kept J (r_clear_queues acc : SE W E _).
Proof.
  unfold r_clear_queues, clear_stream_window_update_queue, clear_all_reset_streams, clear_all_pending_accept. keep.
Qed.
Lemma kept_r_next_incoming {E} : kept J (r_next_incoming : SE W E _).
Proof. unfold r_next_incoming. keep. Qed.
Lemma kept_r_apply_local_settings settings : kept J (r_apply_local_settings settings : SE W _ _).
Proof. unfold r_apply_local_settings. cbv zeta. keep. Qed.
Lemma kept_r_clear_expired_reset_streams {E} : kept J (r_clear_expired_reset_streams : SE W E _).
Proof.
  unfold r_clear_expired_reset_streams. do 3 (apply kept_bind; [keep|intros]). apply kept_drain_queue; [|keep].
  apply kept_on_queue; [apply _..|]. intros. by apply kept_queue_pop_if.
Qed.

(** ** Receiving data *)

(** The end of the stream, while [n] received bytes are charged to the connection only. *)
Lemma triple_close n (frame : Data B) key :
  0 <= n ->
  triple (accounted false t v 0 n)
    (if Data.is_end_stream frame then
       s ← stream key;
       match ensure_content_length_zero s with
       | Ok _ =>
           match State.recv_close (s_state s) with
           | Ok state => upd key (set_state state)
           | _ => throw (RecvConnection PROTOCOL_ERROR)
           end
       | _ => throw (RecvStream (s_id s) PROTOCOL_ERROR)
       end
     else mret tt : SE W RecvError ())
    (fun _ => accounted false t v 0 n)
    (fun e => match e with RecvStream _ _ => accounted false t v 0 n | _ => J end).
Proof.
  intros Hn. destruct (Data.is_end_stream frame); [|by intros w Hw].
  apply triple_bind with (Q := fun _ => accounted false t v 0 n); [apply kept_nothrow; [auto with nothrow|keep]|intros s].
  assert (triple (accounted false t v 0 n) (throw (RecvConnection PROTOCOL_ERROR) : SE W RecvError ())
    (fun _ => accounted false t v 0 n) (fun e => match e with RecvStream _ _ => accounted false t v 0 n | _ => J end)).
  { intros w Hw. by apply (accounted_weaken false t v 0 n 0 0). }
  destruct (ensure_content_length_zero s); [|by intros w Hw..].
  destruct (State.recv_close _); [|done..]. apply kept_nothrow; [auto with nothrow|keep].
Qed.

(** The received bytes become the stream's. *)
Lemma triple_charge_stream n key R :
  0 <= n ->
  triple (accounted false t v 0 n)
    (upd key (fun s => set_in_flight_recv_data (as_u32 (s_in_flight_recv_data s + n)) s) : SE W RecvError ())
    (fun _ => J) R.
Proof.
  intros Hn. apply triple_upd_at. intros s w Hw. pose proof (accounted_stream (proj1 Hw) (proj2 Hw)) as Hs.
  pose proof (ok_in_flight Hs). pose proof (at_in_flight false t v 0 n key s w Hw).
  assert (as_u32 (s_in_flight_recv_data s + n) = s_in_flight_recv_data s + n) as Heq by (apply as_u32_id; lia).
  set (f := fun s : Stream => set_in_flight_recv_data (as_u32 (s_in_flight_recv_data s + n)) s).
  assert (s_in_flight_recv_data (f s) = s_in_flight_recv_data s + n) as Hf by exact Heq.
  assert (stream_ok false (f s)) as Hok by (apply in_flight_ok; [done|rewrite Heq; lia]).
  pose proof (triple_upd (E:=RecvError) false t v 0 n 0 0 key s f R Hok ltac:(done) ltac:(done) ltac:(done) ltac:(lia) w Hw) as Hu.
  destruct (upd key f w) as [w' [[]|e|]]; [apply Hu|done..].
Qed.

Lemma triple_r_recv_data (frame : Data B) key :
  let sz := len (buf_bytes (data_data frame)) in
  triple J (r_recv_data frame key : SE W RecvError ()) (fun _ => J)
    (fun e => match e with RecvStream _ _ => accounted false t v 0 sz | _ => J end).
Proof.
  cbv zeta. unfold r_recv_data. cbv zeta. set (n := len (buf_bytes (data_data frame))). assert (0 <= n) as Hn by apply len_nonneg.
  destruct (Z.leb_spec n MAX_WINDOW_SIZE) as [Hle|Hle]; [|apply triple_panic].
  rewrite as_u32_id by done. cbn [assert_]. intros w Hw. rewrite bind_lift_Ok. revert w Hw.
  apply triple_bind with (Q := fun _ => J); [apply kept_nothrow; [auto with nothrow|keep]|intros s].
  destruct (_ && _); [by intros w Hw|]. destruct (State.is_local_reset _).
  { eapply triple_conseq; [| | |by apply (triple_ignore_data false t v 0 0 n)]; [done..|]. by intros e w [-> Hw]. }
  apply triple_bind with (Q := fun _ => accounted false t v 0 n).
  { eapply triple_conseq; [| | |by apply (triple_consume_connection_window false t v 0 0 n)]; [done..|]. by intros e w [-> Hw]. }
  intros []. destruct (_ <? _); [by intros w Hw|].
  apply triple_bind with (Q := fun _ => accounted false t v 0 n).
  { apply kept_nothrow; [apply nothrow_attempt|keep]. }
  intros [[]|[]]; [by intros w Hw|].
  apply triple_bind with (Q := fun _ => accounted false t v 0 n); [by apply triple_close|intros []].
  apply triple_bind with (Q := fun _ => accounted false t v 0 n).
  { intros w Hw. unfold FlowControl.send_data, assert_. by destruct (Window.size_le _ _). }
  intros flow. apply triple_bind with (Q := fun _ => accounted false t v 0 n).
  { apply kept_nothrow; [auto with nothrow|keep]. }
  intros []. apply triple_bind with (Q := fun _ => J); [by apply triple_charge_stream|].
  intros []. apply kept_nothrow; [|keep]. auto 12 using nothrow_push_back with nothrow.
Qed.

(** ** What a header block fails with *)

Definition raises {S E A} (P : E -> Prop) (c : SE S E A) : Prop := forall s s' e, c s = (s', Err e) -> P e.

Lemma raises_bind {S E A C} (P : E -> Prop) (c : SE S E A) (k : A -> SE S E C) :
  raises P c -> (forall a, raises P (k a)) -> raises P (c ≫= k).
Proof.
  intros Hc Hk s s' e. unfold mbind, SE_bind. specialize (Hc s). destruct (c s) as [s1 [a|e1|]]; [apply Hk| |done].
  intros [= <- <-]. by eapply Hc.
Qed.
Lemma raises_nothrow {S E A} (P : E -> Prop) (c : SE S E A) : nothrow c -> raises P c.
Proof. intros Hc s s' e He. by destruct (Hc s s' e). Qed.
Lemma raises_lift {S E E' A} (P : E' -> Prop) (f : E -> E') (o : outcome E A) :
  (forall e, P (f e)) -> raises P (lift (map_err f o) : SE S E' A).
Proof. intros Hf s s' e. destruct o; simpl; intros [=]; subst; auto. Qed.

(** The 431 response is only made for a header block that is over size. *)
Lemma r_recv_headers_oversize frame key (w w' : W) res :
  r_recv_headers frame key w = (w', Err (Oversize (Some res))) -> hb_is_over_size (h_header_block frame) = true.
Proof.
  set (P := fun e : RecvHeaderBlockError (option Headers) =>
    match e with Oversize (Some _) => hb_is_over_size (h_header_block frame) = true | _ => True end).
  assert (raises P (r_recv_headers frame key : SE W _ _)) as H; [|intros He; exact (H _ _ _ He)].
  unfold r_recv_headers, recv_content_length.
  apply raises_bind; [apply raises_nothrow; auto with nothrow|intros s].
  apply raises_bind; [by apply raises_lift|intros [state init]].
  apply raises_bind; [apply raises_nothrow; auto with nothrow|intros _].
  apply raises_bind.
  { apply raises_nothrow. destruct init; [|auto with nothrow].
    unfold on_recv, Counts.inc_num_recv_streams, Counts.on_counts, Counts.on_store, on_counts.
    auto 20 using nothrow_zoom, nothrow_deref, nothrow_deref_mut with nothrow. }
  intros _. apply raises_bind.
  { apply raises_bind; [apply raises_nothrow; auto with nothrow|intros s'].
    destruct (negb _); [|by intros ????]. destruct (hm_get _ _); [|by intros ????].
    destruct (parse_u64 _); [apply raises_nothrow; auto with nothrow|by intros ??? [= _ <-]..]. }
  intros _. apply raises_bind; [apply raises_nothrow; auto with nothrow|intros counts]. cbv zeta.
  destruct (hb_is_over_size (h_header_block frame)) eqn:Ho.
  - destruct (_ && _); by intros ??? [= _ <-].
  - apply raises_bind; [by apply raises_lift|intros m]. apply raises_nothrow.
    auto 20 using nothrow_push_back with nothrow.
Qed.

(** ** Promised streams *)

Lemma kept_pop_promise {E} g (now : Z) ppp :
  kept (G g) (on_store (fun st =>
    match Queue.pop NextAccept now (ppp, st) with
    | ((ppp, st), Ok popped) => (st, Ok (ppp, popped))
    | ((_, st), Err e) => (st, Err e)
    | ((_, st), Panic) => (st, Panic)
    end) : SE W E (Queue * option Key)).
Proof.
  apply kept_on_store; [apply _|]. intros A HA st Hst.
  pose proof (kept_queue_pop (E:=E) A HA NextAccept now (ppp, st) Hst) as H. cbv beta in H.
  by destruct (Queue.pop NextAccept now (ppp, st)) as [[q st'] [x|e|]].
Qed.

Lemma kept_r_poll_pushed cx key g : kept (G g) (r_poll_pushed cx key : SE W _ _).
Proof.
  unfold r_poll_pushed. cbv zeta. do 3 (apply kept_bind; [keep|intros]).
  apply kept_bind; [apply kept_pop_promise|intros [ppp popped]]. keep.
Qed.
End Recv.
