(* ===== verification/H2AccountOps.v ===== *)
(** * Opening, cancelling and dropping streams

    New streams hold nothing; a stream that is dropped gives back what it reserved,
    when the reservation was granted.

    The second part collects every operation of the streams. *)

From Stdlib Require Import String.
From S2P Require Import Prelude Bytes H2Types FlowControl StreamState Slab HttpTypes HpackTable Frames HeadersFrame.
From S2P Require Import FramedRead H2Buffer H2Store H2World H2Send H2Recv H2Streams H2Account H2AccountSend H2Peer.
From S2P Require Import H2AccountPrioritize H2AccountRecv.

(** ** New streams *)

(** A stream with no entry in the accounts. *)
Record fresh (s : Stream) : Prop := MkFresh {
  fresh_ok : forall g, stream_ok g s;
  fresh_counted : s_is_counted s = false;
  fresh_cap : cap s = 0;
  fresh_in_flight : s_in_flight_recv_data s = 0
}.

Lemma inc_window_new {E} n f :
  expect (FlowControl.inc_window FlowControl.new n) = (Ok f : outcome E _) -> flow_wf f /\ available f = MkWindow 0.
Proof.
  unfold FlowControl.inc_window, FlowControl.new. simpl. destruct (negb _); [done|]. destruct (_ <? _); [done|].
  intros [= <-]. split; [|done]. split; simpl; [|unfold Window.wf, in_i; simpl; lia]. apply wraps_range. lia.
Qed.

Lemma Stream_new_fresh {E} id n m s : Stream_new id n m = (Ok s : outcome E _) -> fresh s /\ s_id s = id.
Proof.
  unfold Stream_new. destruct (expect (FlowControl.inc_window FlowControl.new m)) as [rf|e|]; [|done..]. simpl.
  destruct (expect (FlowControl.inc_window FlowControl.new n)) as [sf|e|] eqn:Hs; [|done..]. intros [= <-].
  destruct (inc_window_new _ _ Hs) as [Hwf Ha]. assert (window_i32 (available sf) = 0) as H0 by (by rewrite Ha).
  split; [|done]. split; try done. intros g.
  split; unfold granted, cap, send_window; cbn [s_send_flow s_requested_send_capacity s_buffered_send_data s_in_flight_recv_data];
    rewrite ?H0; try done; try (unfold in_u; lia).
Qed.

Section Streams.
Context {Ss Im Bf Rf : Type} {SS : Slab Stream Ss} {IM : IndexMap StreamId nat Im}.
Abbreviation W := (World Ss Im Bf Rf).
Context (g : bool) (t v : Z).
Abbreviation G := (accounted (Ss:=Ss) (Im:=Im) (Bf:=Bf) (Rf:=Rf) g t v 0 0).

Lemma inserted w s im :
  G w -> fresh s ->
  at_ G (MkKey (slab_insert s (st_slab (w_store w))).2 (s_id s)) s
    (set_store (MkStore (slab_insert s (st_slab (w_store w))).1 im) w).
Proof.
  intros (m & Hm & Ha) [Hok Hc Hcap Hif]. destruct (holds_insert _ m s Hm) as [Hnone Hins]. split.
  - eexists. split; [exact Hins|]. by apply accounts_insert.
  - unfold index. simpl. rewrite Hins. simpl. rewrite lookup_insert_eq. by rewrite decide_True.
Qed.

Lemma triple_VacantEntry_insert {E} s R :
  fresh s -> triple G (on_store (VacantEntry_insert s) : SE W E Key) (fun key => at_ G key s) R.
Proof.
  intros Hs w Hw. unfold on_store, zoom, VacantEntry_insert.
  pose proof (inserted w s (im_insert (s_id s) (slab_insert s (st_slab (w_store w))).2 (st_ids (w_store w))) Hw Hs) as H.
  by destruct (slab_insert s (st_slab (w_store w))) as [sl k].
Qed.
Lemma triple_Store_insert {E} id s R :
  fresh s -> s_id s = id -> triple G (on_store (Store_insert id s) : SE W E Key) (fun key => at_ G key s) R.
Proof.
  intros Hs <- w Hw. unfold on_store, zoom, Store_insert.
  pose proof (inserted w s (im_insert (s_id s) (slab_insert s (st_slab (w_store w))).2 (st_ids (w_store w))) Hw Hs) as H.
  destruct (slab_insert s (st_slab (w_store w))) as [sl k]. by destruct (im_get _ _).
Qed.

(** A stream that was never counted is taken out again. *)
Lemma triple_unlink_remove {E} key s :
  s_is_counted s = false ->
  triple (at_ G key s) (_ ← on_store (unlink key); on_store (remove key) : SE W E StreamId) (fun _ => G) (fun _ => G).
Proof.
  intros Hc w [(m & Hm & Ha) Hi]. destruct (holds_index _ m key s Hm Hi) as [Hk Hid].
  unfold on_store, zoom, unlink, remove, mbind, SE_bind, modify. simpl. rewrite Hm, Hk, decide_True by done.
  exists (delete (key_index key) m). split; [by eapply holds_remove|]. by eapply accounts_remove.
Qed.
End Streams.

(** ** Implicit resets and dropped handles *)

Section Drop.
Context `{HM : HeaderMapOps} {HI : HeaderMapIntoIter (HM:=HM)} {NH : NameHasher (HT:=HT)} {UO : UriOps}.
Context `{BM : BytesMut B} `{TB : Buf T}.
Context {Ss Im Bf Rf : Type} {SS : Slab Stream Ss} {IM : IndexMap StreamId nat Im}.
Context {SB : Slab (Slot (Frame (B:=T))) Bf} {RB : Slab (Slot (Event (B:=B))) Rf}.
Abbreviation W := (World Ss Im Bf Rf).
Context (t v : Z).
Abbreviation G := (accounted (Ss:=Ss) (Im:=Im) (Bf:=Bf) (Rf:=Rf) true t v 0 0).

Lemma triple_stream_same {E} (P : W -> Prop) key s R :
  triple (at_ P key s) (stream key : SE W E Stream) (fun s' w => s' = s /\ at_ P key s w) R.
Proof. intros w Hw. rewrite (stream_eq w key s (proj2 Hw)). by split. Qed.

(** A reservation that was granted goes back to the connection. *)
Lemma triple_reclaim_reserved {E} key s :
  State.is_closed (s_state s) = true -> s_requested_send_capacity s <= s_buffered_send_data s + cap s ->
  triple (at_ G key s) (reclaim_reserved_capacity key : SE W E ()) (fun _ => G) (fun _ => G).
Proof.
  intros Hcl Hgr. eapply triple_bind; [apply triple_stream_same|]. intros s' w [-> Hw]. revert w Hw.
  destruct (Z.ltb_spec (s_buffered_send_data s) (s_requested_send_capacity s)); [|by intros w [Hw _]]. cbv zeta.
  intros w Hw. pose proof (accounted_stream (proj1 Hw) (proj2 Hw)) as Hs. revert w Hw.
  set (n := s_requested_send_capacity s - s_buffered_send_data s).
  assert (stream_ok false s) as Hs' by (by destruct Hs). assert (0 <= n <= cap s) as Hn by lia.
  apply triple_bind with (Q := fun _ => accounted true t v n 0); [|intros _; apply triple_assign_connection_capacity; lia].
  eapply triple_conseq; [| | |apply (triple_upd true t v 0 0 n 0 key s (claim n) (fun _ => G))];
    [done|by intros [] w [Hw _]|done|by apply claim_ok|done|done|rewrite cap_claim by done; lia|done].
Qed.

Lemma kept_schedule_implicit_reset {E} key reason : kept G (schedule_implicit_reset key reason : SE W E ()).
Proof.
  apply triple_bind with (Q := at_ G key); [apply triple_stream|]. intros s.
  destruct (State.is_closed (s_state s)) eqn:Hcl; [by intros w [Hw _]|].
  intros w Hw. destruct (ok_granted (accounted_stream (proj1 Hw) (proj2 Hw)) eq_refl) as [|Hgr]; [congruence|]. revert w Hw.
  apply triple_bind with (Q := fun _ => at_ G key (set_state (State.set_scheduled_reset (s_state s) reason) s)).
  - by apply triple_upd_state.
  - intros _. apply triple_bind with (Q := fun _ => G); [by apply triple_reclaim_reserved|]. intros _. by apply (kept_schedule_send G).
Qed.

Lemma kept_maybe_cancel {E} key : kept G (maybe_cancel key : SE W E ()).
Proof. unfold maybe_cancel. pose proof (kept_schedule_implicit_reset (E:=E)). keep. Qed.

Lemma kept_cancel_promises {E} fuel ppp : kept G (cancel_promises fuel ppp : SE W E ()).
Proof.
  revert ppp. induction fuel as [|fuel IH]; intros ppp; cbn [cancel_promises]; [keep|].
  apply kept_bind; [keep|intros w]. apply kept_bind; [apply kept_pop_promise|intros [q [key|]]]; [|keep].
  apply kept_bind; [|intros _; apply IH]. apply kept_transition, kept_maybe_cancel.
Qed.

Lemma kept_add_refs {E} (I : W -> Prop) {HP : PlainInv I} n : kept I (add_refs n : SE W E ()).
Proof. apply kept_modify. intros w Hw. by apply (plain_world I w). Qed.

Lemma kept_drop_stream_ref {E} key : kept G (drop_stream_ref key : SE W E ()).
Proof.
  unfold drop_stream_ref. apply kept_bind; [apply (kept_add_refs G _)|intros _].
  do 3 (apply kept_bind; [keep|intros]). apply kept_transition.
  apply kept_bind; [apply kept_maybe_cancel|intros _]. apply kept_bind; [keep|intros s]. destruct (_ =? 0); [|keep].
  apply kept_bind; [apply kept_release_closed_capacity|intros _]. cbv zeta.
  do 3 (apply kept_bind; [keep|intros]). apply kept_cancel_promises.
Qed.
End Drop.

(** * The operations of a connection's streams keep the accounts *)

#[export] Hint Extern 2 (kept _ (add_refs _)) => (eapply kept_add_refs; apply _) : kept.
#[export] Hint Resolve kept_recv_open kept_r_recv_headers kept_recv_trailers kept_r_recv_push_promise kept_r_recv_reset
  kept_r_recv_err kept_r_recv_eof kept_r_go_away kept_r_clear_queues kept_r_next_incoming kept_r_apply_local_settings
  kept_r_clear_expired_reset_streams kept_r_take_request kept_r_poll_response kept_r_poll_data kept_r_poll_trailers
  kept_r_poll_pushed : kept.

Section Ops.
Context `{HM : HeaderMapOps} {HI : HeaderMapIntoIter (HM:=HM)} {NH : NameHasher (HT:=HT)} {UO : UriOps}.
Context `{BM : BytesMut B} `{TB : Buf T}.
Context {Ss Im Bf Rf : Type} {SS : Slab Stream Ss} {IM : IndexMap StreamId nat Im}.
Context {SB : Slab (Slot (Frame (B:=T))) Bf} {RB : Slab (Slot (Event (B:=B))) Rf}.
Abbreviation W := (World Ss Im Bf Rf).
Context (t v : Z).
Abbreviation G := (fun g => accounted (Ss:=Ss) (Im:=Im) (Bf:=Bf) (Rf:=Rf) g t v 0 0).
Abbreviation J := (G false).

(** ** Received frames *)

Lemma kept_actions_send_reset {E} key reason : kept J (actions_send_reset key reason : SE W E ()).
Proof. unfold actions_send_reset. keep. Qed.
Lemma kept_reset_on_recv_stream_err key res : kept J (reset_on_recv_stream_err key res : SE W _ _).
Proof. unfold reset_on_recv_stream_err. keep. Qed.
#[local] Hint Resolve kept_actions_send_reset kept_reset_on_recv_stream_err : kept.

Lemma kept_ensure_not_idle p id g : kept (G g) (ensure_not_idle p id : SE W _ _).
Proof. unfold ensure_not_idle. keep. Qed.
Lemma kept_may_have_forgotten_stream {E} p id g : kept (G g) (may_have_forgotten_stream p id : SE W E _).
Proof. unfold may_have_forgotten_stream. keep. Qed.
Lemma kept_conn_err {A} g (c : SE W Reason A) : kept (G g) c -> kept (G g) (conn_err c).
Proof. intros Hc. unfold conn_err. keep. Qed.
#[local] Hint Resolve kept_ensure_not_idle kept_may_have_forgotten_stream kept_conn_err : kept.

Lemma kept_headers_entry p id g : kept (G g) (headers_entry p id : SE W _ _).
Proof.
  unfold headers_entry. apply kept_bind; [keep|intros [key|]]; [keep|].
  apply kept_bind; [keep|intros _]. apply kept_bind; [keep|intros [sid|]]; [|keep]. apply kept_bind; [keep|intros w].
  eapply triple_bind; [apply triple_lift; by intros|]. intros s w' [Hs Hw]. revert w' Hw.
  apply kept_fmap. destruct (Stream_new_fresh _ _ _ _ Hs) as [Hf _].
  eapply triple_conseq; [| | |apply (triple_VacantEntry_insert g t v s (fun _ => G g) Hf)]; [done| |done]. by intros key w' [Hw _].
Qed.

Lemma kept_recv_header_block frame key :
  hb_is_over_size (h_header_block frame) = false -> kept J (recv_header_block frame key : SE W _ _).
Proof.
  intros Ho. apply triple_bind with (Q := fun r w => match r with inl (Oversize (Some _)) => False | _ => J w end).
  - intros w Hw. unfold attempt. pose proof (kept_r_recv_headers t v frame key false w Hw) as H.
    destruct (r_recv_headers frame key w) as [w' [[]|[[res|]|err]|]] eqn:Hr; try done.
    apply r_recv_headers_oversize in Hr. congruence.
  - intros [[[res|]|err]|[]]; [by intros w []| |by intros w Hw..].
    change (kept J (s ← stream key; mret (inl (RecvStream (s_id s) REFUSED_STREAM)) : SE W RecvError (RecvError + ()))). keep.
Qed.

(** An over-size request is answered and reset. *)
Lemma kept_send_headers_granted frame key : kept (G true) (send_headers frame key : SE W UserError ()).
Proof.
  unfold send_headers. apply kept_bind; [keep|intros _]. destruct (has_too_big_field _); [keep|]. cbv zeta.
  apply triple_bind with (Q := at_ (G true) key); [apply triple_stream|]. intros s.
  eapply triple_bind; [apply triple_lift; by intros e w _ [Hw _]|]. intros state w [Hx Hw]. revert w Hw.
  apply triple_bind with (Q := fun _ => at_ (G true) key (set_state state s)).
  - apply triple_upd_state; [done|]. intros _ Hc. unfold State.is_closed in Hc. exfalso.
    unfold State.send_open in Hx. by destruct (inner (s_state s)).
  - intros []. apply (kept_at (G true)). keep.
Qed.
#[local] Hint Resolve kept_send_headers_granted kept_schedule_implicit_reset : kept.
Lemma kept_recv_header_block_granted frame key : kept (G true) (recv_header_block frame key : SE W _ _).
Proof.
  unfold recv_header_block. keep.
Qed.

(** The rest of [recv_headers], once the stream is known. *)
Lemma kept_recv_headers p frame :
  hb_is_over_size (h_header_block frame) = false -> kept J (recv_headers p frame : SE W _ _).
Proof.
  intros Ho. unfold recv_headers. cbv zeta. pose proof (fun key => kept_recv_header_block frame key Ho).
  apply kept_bind; [keep|intros r]. destruct (id_lt _ _); [keep|]. apply kept_bind; [apply kept_headers_entry|]. keep.
Qed.
Lemma triple_recv_headers_granted p frame :
  triple (G true) (recv_headers p frame : SE W _ _) (fun _ => J) (fun _ => J).
Proof.
  assert (forall w : W, G true w -> J w) as Hw by (intros w; by apply accounted_weaken).
  assert (forall A (c : SE W RecvError A), kept (G true) c -> triple (G true) c (fun _ => G true) (fun _ => J)) as HG.
  { intros A c Hc. eapply triple_conseq; [| | |exact Hc]; [done..|]. intros e. apply Hw. }
  assert (forall A (c : SE W RecvError A), kept J c -> triple (G true) c (fun _ => J) (fun _ => J)) as HJ.
  { intros A c Hc. by apply (triple_conseq _ J _ _ (fun _ => J) _ (fun _ => J)). }
  unfold recv_headers. cbv zeta. apply triple_bind with (Q := fun _ => G true); [apply HG; keep|intros r].
  destruct (id_lt _ _); [apply HJ; keep|].
  apply triple_bind with (Q := fun _ => G true); [apply HG, kept_headers_entry|intros [key|]]; [|apply HJ; keep].
  apply triple_bind with (Q := fun _ => G true); [apply HG; keep|intros s].
  destruct (State.is_local_reset _); [apply HJ; keep|].
  apply triple_transition with (Q := fun _ => J) (R := fun _ => J); [done..|].
  apply triple_bind with (Q := fun _ => G true); [apply HG; keep|intros s'].
  destruct (State.is_recv_headers _); [|apply HJ; keep].
  apply triple_bind with (Q := fun _ => G true); [apply HG, kept_recv_header_block_granted|intros res]. apply HJ. keep.
Qed.

(** A client resets the stream of an over-size response. *)
Lemma triple_recv_header_block_client frame key :
  triple (fun w => J w /\ peer_is Client w) (recv_header_block frame key : SE W _ _) (fun _ => J) (fun _ => J).
Proof.
  apply triple_bind with (Q := fun r w => match r with inl (Oversize (Some _)) => False | _ => J w end).
  - intros w [Hw Hp]. unfold attempt. pose proof (kept_r_recv_headers t v frame key false w Hw) as H.
    pose proof (client_oversize frame key w Hp) as Ho.
    by destruct (r_recv_headers frame key w) as [w' [[]|[[res|]|err]|]]; [|destruct Ho|..].
  - intros [[[res|]|err]|[]]; [by intros w []| |by intros w Hw..].
    change (kept J (s ← stream key; mret (inl (RecvStream (s_id s) REFUSED_STREAM)) : SE W RecvError (RecvError + ()))). keep.
Qed.
Lemma triple_recv_headers_client p frame :
  triple (fun w => J w /\ peer_is Client w) (recv_headers p frame : SE W _ _) (fun _ => J) (fun _ => J).
Proof.
  pose (JP := fun w : W => J w /\ peer_is Client w).
  assert (forall A (c : SE W RecvError A), kept J c -> kept (peer_is Client) c -> triple JP c (fun _ => JP) (fun _ => J)) as HP.
  { intros A c Hc Hp w [Hw Hq]. specialize (Hc w Hw). specialize (Hp w Hq). by destruct (c w) as [w' [x|e|]]. }
  assert (forall A (c : SE W RecvError A), kept J c -> triple JP c (fun _ => J) (fun _ => J)) as HJ.
  { intros A c Hc w [Hw _]. by apply Hc. }
  unfold recv_headers. cbv zeta. apply triple_bind with (Q := fun _ => JP); [apply HP; keep|intros r].
  destruct (id_lt _ _); [apply HJ; keep|].
  apply triple_bind with (Q := fun _ => JP); [apply HP; [apply kept_headers_entry|apply peer_headers_entry]|intros [key|]]; [|apply HJ; keep].
  apply triple_bind with (Q := fun _ => JP); [apply HP; [keep|apply peer_on_store]|intros s].
  destruct (State.is_local_reset _); [apply HJ; keep|].
  apply triple_transition with (Q := fun _ => J) (R := fun _ => J); [by intros w [Hw _]|done..|].
  apply triple_bind with (Q := fun _ => JP); [apply HP; [keep|apply peer_on_store]|intros s'].
  destruct (State.is_recv_headers _); [|apply HJ; keep].
  apply triple_bind with (Q := fun _ => J); [apply triple_recv_header_block_client|intros res]. apply kept_reset_on_recv_stream_err.
Qed.

(** Data that a stream error turns down is not lost to the connection's window. *)
Lemma triple_released (frame : Data B) (res : RecvError + ()) :
  let n := len (buf_bytes (B:=B) (data_data frame)) in
  triple (fun w => match res with inl (RecvStream _ _) => accounted false t v 0 n w | _ => J w end)
    (match res with
     | inl (RecvStream _ _) => release_connection_capacity (as_u32 n) false
     | _ => mret tt
     end : SE W RecvError ()) (fun _ => J) (fun _ => J).
Proof.
  cbv zeta. pose proof (len_nonneg (buf_bytes (B:=B) (data_data frame))) as Hn. set (n := len _) in *.
  destruct res as [[| |]|]; try (by intros w Hw). intros w Hw.
  assert (n <= rv_in_flight_data (w_recv w) <= MAX_WINDOW_SIZE) as Hle.
  { destruct Hw as (m & _ & Ha). by apply (accounts_in_flight_range Ha). }
  rewrite as_u32_id by lia.
  pose proof (triple_release_connection_capacity (E:=RecvError) false t v 0 n n false (fun _ => J) Hn w (conj Hw (proj1 Hle))) as H.
  rewrite Z.sub_diag in H. exact H.
Qed.

Lemma kept_recv_data p frame : kept J (recv_data p frame : SE W _ _).
Proof.
  unfold recv_data. cbv zeta. apply kept_bind; [keep|intros [key|]].
  - apply kept_transition. eapply triple_bind; [eapply triple_attempt, triple_r_recv_data|]. intros res.
    apply triple_bind with (Q := fun _ => J); [|intros _; apply kept_reset_on_recv_stream_err].
    eapply triple_conseq; [| | |apply (triple_released frame res)]; [|done..].
    intros w. by destruct res as [[| |]|[]].
  - apply kept_bind; [keep|intros r]. destruct (id_lt _ _); [keep|]. apply kept_bind; [keep|intros [|]]; [|keep].
    apply kept_bind; [keep|intros _]. apply kept_bind; [|keep].
    pose proof (len_nonneg (buf_bytes (B:=B) (data_data frame))).
    eapply triple_conseq; [| | |apply (triple_ignore_data false t v 0 0)]; [done|done|by intros e w [_ Hw]|done|].
    apply wrapu_range. lia.
Qed.

Lemma kept_recv_reset frame : kept J (recv_reset frame : SE W _ _).
Proof. unfold recv_reset. cbv zeta. keep. Qed.
Lemma kept_fail_stream {E} err key : kept J (fail_stream err key : SE W E ()).
Proof. unfold fail_stream. keep. Qed.
#[local] Hint Resolve kept_fail_stream : kept.
Lemma kept_set_conn_error {E} (f : W -> option ProtoError) :
  kept J (modify (fun w => set_conn_error (f w) w) : SE W E ()).
Proof. apply kept_modify. intros w Hw. by apply (plain_world J w). Qed.
Lemma kept_recv_err {E} err : kept J (recv_err err : SE W E _).
Proof.
  unfold recv_err. do 2 (apply kept_bind; [keep|intros]). apply kept_bind; [|keep].
  apply (kept_set_conn_error (fun _ => Some err)).
Qed.
Lemma kept_recv_go_away frame : kept J (recv_go_away frame : SE W _ _).
Proof.
  unfold recv_go_away. cbv zeta. apply kept_bind; [keep|intros r]. destruct (id_lt _ _); [keep|].
  do 2 (apply kept_bind; [keep|intros]). apply (kept_set_conn_error (fun _ => Some (Proto (ga_error_code frame)))).
Qed.
Lemma kept_recv_eof {E} acc : kept J (recv_eof acc : SE W E ()).
Proof.
  unfold recv_eof, actions_clear_queues. apply kept_bind; [|keep].
  apply kept_modify. intros w Hw. destruct (w_conn_error w); [done|]. by apply (plain_world J w).
Qed.
Lemma kept_clear_expired_reset_streams {E} : kept J (clear_expired_reset_streams : SE W E ()).
Proof. unfold clear_expired_reset_streams. keep. Qed.
Lemma kept_apply_local_settings frame : kept J (apply_local_settings frame : SE W _ _).
Proof. unfold apply_local_settings. keep. Qed.
Lemma kept_apply_remote_settings frame : settings_ok frame -> kept J (apply_remote_settings frame : SE W _ _).
Proof.
  intros Hok. apply kept_bind; [|intros _; by apply kept_s_apply_remote_settings].
  apply kept_modify. intros w (m & Hm & Ha). exists m. split; [done|]. destruct Ha. split; try done;
    simpl; unfold Counts.apply_remote_settings; by destruct (max_concurrent_streams frame).
Qed.
Lemma kept_send_go_away {E} id : kept J (send_go_away id : SE W E ()).
Proof. unfold send_go_away. keep. Qed.
Lemma kept_send_reset {E} id reason : kept J (send_reset id reason : SE W E ()).
Proof.
  unfold send_reset. apply kept_bind; [keep|intros found]. apply kept_bind; [|intros key; apply kept_actions_send_reset].
  destruct found; [keep|]. eapply triple_bind; [apply triple_lift; by intros|]. intros s w [Hs Hw]. revert w Hw.
  destruct (Stream_new_fresh _ _ _ _ Hs) as [Hf _].
  eapply triple_conseq; [| | |apply (triple_VacantEntry_insert false t v s (fun _ => J) Hf)]; [done| |done]. by intros key w [Hw _].
Qed.

(** Window updates: of a stream, and of the connection. *)
Lemma triple_recv_window_update frame :
  0 <= wu_size_increment frame <= MAX_WINDOW_SIZE ->
  triple J (recv_window_update frame : SE W _ _)
    (fun _ => accounted false t (if StreamId.is_zero (wu_stream_id frame) then v + wu_size_increment frame else v) 0 0)
    (fun _ => J).
Proof.
  intros Hinc. unfold recv_window_update. cbv zeta. destruct (StreamId.is_zero _).
  - eapply triple_bind; [eapply triple_attempt; by apply triple_p_recv_connection_window_update|].
    intros [e|[]]; by intros w Hw.
  - apply kept_bind; [keep|intros [key|]]; [|keep].
    apply kept_bind; [apply kept_attempt; by apply kept_s_recv_stream_window_update|keep].
Qed.

Lemma kept_push_promise {E} (now : Z) child ppp :
  kept J (on_store (fun st =>
    match Queue.push NextAccept now child (ppp, st) with
    | ((ppp, st), Ok _) => (st, Ok ppp)
    | ((_, st), Err e) => (st, Err e)
    | ((_, st), Panic) => (st, Panic)
    end) : SE W E Queue).
Proof.
  apply kept_on_store; [apply _|]. intros A HA st Hst.
  pose proof (kept_queue_push (E:=E) A HA NextAccept now child (ppp, st) Hst) as H. cbv beta in H.
  by destruct (Queue.push NextAccept now child (ppp, st)) as [[q st'] [x|e|]].
Qed.

Lemma kept_recv_push_promise frame : kept J (recv_push_promise frame : SE W _ _).
Proof.
  unfold recv_push_promise. cbv zeta. apply kept_bind; [keep|intros [parent|]]; [|keep].
  apply kept_bind; [keep|intros r]. destruct (id_lt _ _); [keep|]. do 3 (apply kept_bind; [keep|intros]).
  apply kept_bind; [keep|intros [sid|]]; [|keep]. apply kept_bind; [keep|intros w].
  eapply triple_bind; [apply triple_lift; by intros|]. intros s w' [Hs Hw]. revert w' Hw.
  destruct (Stream_new_fresh _ _ _ _ Hs) as [Hf Hid].
  apply triple_bind with (Q := fun key => at_ J key s); [by apply triple_Store_insert|intros key].
  apply (kept_at J). apply kept_bind; [keep|intros [child|]]; [|keep].
  do 3 (apply kept_bind; [keep|intros]). apply kept_bind; [apply kept_push_promise|]. keep.
Qed.

(** ** The user's handles *)

Lemma kept_OpaqueStreamRef_new {E} key : kept J (OpaqueStreamRef_new key : SE W E _).
Proof. unfold OpaqueStreamRef_new. keep. Qed.
#[local] Hint Resolve kept_OpaqueStreamRef_new : kept.
Lemma kept_next_incoming {E} : kept J (next_incoming : SE W E _).
Proof. unfold next_incoming. keep. Qed.
Lemma kept_with_err {E E' A} (f : E -> E') (c : SE W E A) : kept J c -> kept J (with_err f c).
Proof. intros Hc. unfold with_err. keep. Qed.
#[local] Hint Resolve kept_with_err : kept.
Lemma kept_ensure_no_conn_error : kept J (ensure_no_conn_error : SE W _ _).
Proof. unfold ensure_no_conn_error. keep. Qed.
#[local] Hint Resolve kept_ensure_no_conn_error : kept.
Lemma kept_poll_pending_open cx pending : kept J (poll_pending_open cx pending : SE W _ _).
Proof. unfold poll_pending_open. keep. Qed.
Lemma kept_ref_send_data key data eos : kept J (ref_send_data key data eos : SE W _ _).
Proof. unfold ref_send_data. keep. Qed.
Lemma kept_ref_send_trailers key trailers : kept J (ref_send_trailers key trailers : SE W _ _).
Proof. unfold ref_send_trailers. keep. Qed.
Lemma kept_ref_send_response key response eos : kept J (ref_send_response key response eos : SE W _ _).
Proof. unfold ref_send_response. keep. Qed.
Lemma kept_ref_poll_pushed cx key : kept J (ref_poll_pushed cx key : SE W _ _).
Proof. unfold ref_poll_pushed. keep. Qed.
Lemma kept_ref_clone {E} key : kept J (ref_clone key : SE W E _).
Proof. unfold ref_clone. keep. Qed.
Lemma kept_ref_poll_data cx key : kept J (ref_poll_data cx key : SE W _ _).
Proof. unfold ref_poll_data. keep. Qed.
Lemma kept_ref_release_capacity key n : 0 <= n -> kept J (ref_release_capacity key n : SE W _ _).
Proof. intros Hn. by apply kept_r_release_capacity. Qed.

(** Once the state allows the headers, they are sent or wait. *)
Lemma nothrow_sent (frame : Headers) key s state :
  nothrow (_ ← upd key (set_state state);
    counts ← gets w_counts;
    local ← lift (Dyn.is_local_init (ct_peer counts) (h_stream_id frame));
    _ ← (if (local : bool) then
           if negb (s_is_pending_push s) then
             if Counts.can_inc_num_send_streams counts then on_counts (Counts.inc_num_send_streams key)
             else queue_open key
           else mret tt
         else mret tt);
    queue_frame (FHeaders frame) key : SE W UserError ()).
Proof.
  assert (forall p id, nothrow (lift (Dyn.is_local_init p id) : SE W UserError bool)).
  { intros p id s1 s2 e. unfold Dyn.is_local_init, assert_. by destruct (negb _). }
  assert (nothrow (on_counts (Counts.inc_num_send_streams key) : SE W UserError ())).
  { unfold Counts.inc_num_send_streams, Counts.on_counts, Counts.on_store, on_counts.
    auto 20 using nothrow_zoom, nothrow_deref, nothrow_deref_mut with nothrow. }
  unfold queue_open. auto 20 using nothrow_queue_frame with nothrow.
Qed.

(** A message that is turned down changes nothing. *)
Lemma send_headers_err frame key (w w' : W) e : send_headers frame key w = (w', Err e) -> w' = w.
Proof.
  unfold send_headers. destruct (check_headers _) as [[]|e1|]; [|by intros [= <- _]|done].
  intros H. rewrite bind_lift_Ok in H. revert H. destruct (has_too_big_field _); [by intros [= <- _]|]. cbv zeta.
  destruct (index key (w_store w)) as [s|] eqn:Hi; [|unfold stream, on_store, zoom, deref, mbind, SE_bind; by rewrite Hi].
  rewrite (bind_eq _ _ _ w s) by (by apply stream_eq).
  destruct (State.send_open _ _) as [state|e1|]; [rewrite bind_lift_Ok|by intros [= <- _]|done].
  intros H. exfalso. revert H. apply nothrow_sent.
Qed.
Lemma s_send_push_promise_err frame key (w w' : W) e : s_send_push_promise frame key w = (w', Err e) -> w' = w.
Proof.
  unfold s_send_push_promise. destruct (check_headers _) as [[]|e1|]; [|by intros [= <- _]|done].
  rewrite bind_lift_Ok. intros H. by apply nothrow_queue_frame in H.
Qed.

(** Removing the stream of a message that was turned down. *)
Lemma triple_undo {E A} key s (e : E) : s_is_counted s = false ->
  triple (at_ J key s) (_ ← on_store (unlink key); _ ← on_store (remove key); throw e : SE W E A) (fun _ => J) (fun _ => J).
Proof.
  intros Hc w Hw. rewrite <- bind_assoc. revert w Hw.
  apply triple_bind with (Q := fun _ => J); [by apply triple_unlink_remove|]. by intros _ w Hw.
Qed.

Lemma kept_send_request request eos pending : kept J (send_request request eos pending : SE W _ _).
Proof.
  unfold send_request. do 4 (apply kept_bind; [keep|intros]). destruct (Dyn.is_server _); [keep|].
  apply kept_bind; [keep|intros id]. eapply triple_bind; [apply triple_lift; by intros|]. intros s0 w' [Hs Hw]. revert w' Hw.
  destruct (Stream_new_fresh _ _ _ _ Hs) as [Hf0 Hid]. cbv zeta.
  set (s := if bool_decide _ then _ else _).
  assert (fresh s) as Hf by (subst s; destruct (bool_decide _); [destruct Hf0 as [Hok ? ? ?]; split; try done; intros g; destruct (Hok g); by split|done]).
  apply kept_bind; [keep|intros headers].
  apply triple_bind with (Q := fun key => at_ J key s); [by apply triple_Store_insert|intros key].
  apply triple_bind with (Q := fun r w => J w /\ match r with inl _ => index key (w_store w) = Some s | _ => True end).
  - intros w [Hw Hi]. unfold attempt. pose proof (kept_send_headers t v 0 headers key w Hw) as H.
    destruct (send_headers headers key w) as [w1 [[]|e|]] eqn:He; [done| |done].
    apply send_headers_err in He as ->. done.
  - intros [e|[]].
    + apply triple_undo. by destruct Hf.
    + apply (triple_conseq _ J _ _ (fun _ => J) _ (fun _ => J)); [by intros w [Hw _]|done|done|].
      change (kept J (_ ← add_refs 1; OpaqueStreamRef_new key : SE W SendError Key)). keep.
Qed.

(** Reading a stream changes nothing. *)
Lemma triple_read {E} (P : W -> Prop) key R : triple P (stream key : SE W E Stream) (fun _ => P) R.
Proof.
  intros w Hw. unfold stream, on_store, zoom, deref. destruct (index key (w_store w)); [|done]. by destruct w.
Qed.

Lemma kept_ref_send_push_promise key request : kept J (ref_send_push_promise key request : SE W _ _).
Proof.
  unfold ref_send_push_promise. apply kept_bind.
  { unfold send_reserve_local. do 2 (apply kept_bind; [keep|intros]). apply kept_bind; [|keep].
    apply kept_modify. intros w Hw. by apply (plain_world J w). }
  intros id. apply kept_bind; [keep|intros w0]. eapply triple_bind; [apply triple_lift; by intros|].
  intros s w' [Hs Hw]. revert w' Hw. destruct (Stream_new_fresh _ _ _ _ Hs) as [Hf Hid].
  apply triple_bind with (Q := fun key => at_ J key s); [by apply triple_Store_insert|intros child].
  eapply triple_bind; [apply triple_stream_same|]. intros s' w' [-> Hw]. revert w' Hw.
  eapply triple_bind; [apply triple_lift; by intros e w _ [Hw _]|]. intros state w' [_ Hw]. revert w' Hw.
  apply triple_bind with (Q := fun _ => at_ J child (set_state state s)); [by apply triple_upd_state|intros _].
  apply triple_bind with (Q := fun _ => at_ J child (set_is_pending_push true (set_state state s)));
    [by apply triple_upd_state|intros _].
  eapply triple_bind; [apply triple_read|]. intros parent.
  eapply triple_bind; [apply triple_lift; by intros e w _ [Hw _]|]. intros frame w' [_ Hw]. revert w' Hw.
  apply triple_bind with (Q := fun r w => J w /\
    match r with inl _ => index child (w_store w) = Some (set_is_pending_push true (set_state state s)) | _ => True end).
  - intros w [Hw Hi]. unfold attempt. pose proof (kept_s_send_push_promise t v 0 frame key w Hw) as H.
    destruct (s_send_push_promise frame key w) as [w1 [[]|e|]] eqn:He; [done| |done].
    apply s_send_push_promise_err in He as ->. done.
  - intros [e|[]].
    + apply triple_undo. by destruct Hf.
    + apply (triple_conseq _ J _ _ (fun _ => J) _ (fun _ => J)); [by intros w [Hw _]|done|done|].
      apply kept_OpaqueStreamRef_new.
Qed.
End Ops.
