(* ===== verification/H2AccountPoll.v ===== *)
(** * Writing to the connection keeps the accounts

    The steps of [H2Poll.v] other than the taking of frames. *)

From S2P Require Import Prelude Bytes H2Types FlowControl StreamState Slab HttpTypes HpackTable Frames HeadersFrame.
From S2P Require Import HpackEncoder FramedRead FramedWrite H2Codec.
From S2P Require Import H2Buffer H2Store H2World H2Send H2Recv H2Poll.
From S2P Require Import H2Account H2AccountSend H2Peer H2AccountPrioritize.
From S2P Require Import H2AccountRecv.

Section Poll.
Context `{HM : HeaderMapOps} {HI : HeaderMapIntoIter (HM:=HM)} {NH : NameHasher (HT:=HT)} {UO : UriOps}.
Context `{BM : BytesMut B} `{TB : Buf T}.
Context {Ss Im Bf Rf : Type} {SS : Slab Stream Ss} {IM : IndexMap StreamId nat Im}.
Context {SB : Slab (Slot (Frame (B:=T))) Bf} {RB : Slab (Slot (Event (B:=B))) Rf}.
Abbreviation W := (World Ss Im Bf Rf).
Abbreviation C := (Codec (B:=B) (T:=Prioritized T)).
Abbreviation X := (W * (C * Socket))%type.

(** A property of the streams, beside the codec. *)
Definition beside (I : W -> Prop) (x : X) : Prop := I x.1.

Section Inv.
Context (I : W -> Prop).
Lemma kept_on_world {A} (c : SE W () A) : kept I c -> kept (beside I) (on_world c : SE X () A).
Proof.
  intros Hc [w cs] Hw. specialize (Hc w Hw). unfold on_world, zoom. simpl. by destruct (c w) as [w' [x|e|]].
Qed.
Lemma kept_on_socket {A} (c : SE (C * Socket) () A) : kept (beside I) (on_socket c : SE X () A).
Proof. intros [w cs] Hw. unfold on_socket, zoom. simpl. by destruct (c cs) as [cs' [x|e|]]. Qed.
Lemma kept_on_codec {E A} (c : SE C E A) : kept (beside I) (on_codec c : SE X () A).
Proof. intros [w [cd so]] Hw. unfold on_codec. simpl. by destruct (c cd) as [cd' [x|e|]]. Qed.
Lemma kept_ready {A} (c : SE X () (Async ())) (k : SE X () (Async A)) :
  kept (beside I) c -> kept (beside I) k -> kept (beside I) (ready c k).
Proof. intros Hc Hk. apply kept_bind; [done|]. intros [|]; [done|]. apply kept_mret. Qed.
End Inv.

#[local] Hint Resolve kept_on_world kept_on_socket kept_on_codec kept_ready : kept.

Context (t v : Z).
Abbreviation J := (accounted (Ss:=Ss) (Im:=Im) (Bf:=Bf) (Rf:=Rf) false t v 0 0).

Lemma kept_poll_ready I n : kept (beside I) (poll_ready n : SE X () _).
Proof. apply kept_on_socket. Qed.
Lemma kept_flush I n : kept (beside I) (flush n : SE X () _).
Proof. apply kept_on_socket. Qed.
Lemma kept_set_in_flight f : kept (beside J) (set_in_flight f : SE X () ()).
Proof. apply kept_on_world, kept_modify. intros w Hw. by apply (plain_world J w). Qed.
#[local] Hint Resolve kept_poll_ready kept_flush kept_set_in_flight : kept.

Lemma kept_reclaim_frame : kept (beside J) (reclaim_frame : SE X () bool).
Proof. unfold reclaim_frame. cbv zeta. keep. Qed.

Lemma kept_send_pending_refusal n : kept (beside J) (send_pending_refusal n : SE X () _).
Proof.
  assert (kept (beside J) (on_world (on_recv (set_rv_refused None)) : SE X () ())).
  { apply kept_on_world, kept_on_recv. by intros. }
  unfold send_pending_refusal. cbv zeta. keep.
Qed.

(** The window offered to the peer grows to what is available. *)
Lemma replenished w incr f :
  J w -> FlowControl.unclaimed_capacity (rv_flow (w_recv w)) = Some incr ->
  FlowControl.inc_window (rv_flow (w_recv w)) incr = Ok f -> J (set_recv (set_rv_flow f (w_recv w)) w).
Proof.
  intros (m & Hm & Ha) Hu Hf. pose proof Ha as [_ _ _ _ _ Hwf ? ? ? ? ? ? ? ? ?].
  pose proof (accounts_in_flight_range Ha).
  destruct (unclaimed_capacity_exact (rv_flow (w_recv w)) incr Hwf) as (Hi & _ & He); [lia|done|].
  rewrite Hf in He. simplify_eq. exists m. split; [done|]. cbn. pose proof Hwf as [Hw1 Hw2].
  assert (credit (rv_flow (w_recv w)) < window_i32 (available (rv_flow (w_recv w)))).
  { unfold FlowControl.unclaimed_capacity in Hu. unfold credit. by destruct (Z.leb_spec (window_i32 (available (rv_flow (w_recv w)))) (window_i32 (window_size (rv_flow (w_recv w))))). }
  eapply accounts_rf; [exact Ha|by split|..]; unfold credit in *; cbn [window_size available]; try lia.
Qed.

Lemma kept_send_connection_window_update n : kept (beside J) (send_connection_window_update n : SE X () _).
Proof.
  unfold send_connection_window_update.
  apply triple_bind with (Q := fun flow => beside (fun w => J w /\ rv_flow (w_recv w) = flow)); [by intros x Hx|].
  intros flow. assert (forall A (c : SE X () A), kept (beside (fun w => J w /\ rv_flow (w_recv w) = flow)) c ->
    triple (beside (fun w => J w /\ rv_flow (w_recv w) = flow)) c
      (fun _ => beside (fun w => J w /\ rv_flow (w_recv w) = flow)) (fun _ => beside J)) as Hl.
  { intros A c Hc. eapply triple_conseq; [| | |exact Hc]; [done..|]. by intros e x [Hx _]. }
  destruct (FlowControl.unclaimed_capacity flow) as [incr|] eqn:Hu; [|by intros x [Hx _]].
  eapply triple_bind; [apply Hl, kept_poll_ready|]. intros [|]; [|by intros x [Hx _]].
  eapply triple_bind; [apply Hl, kept_on_codec|]. intros _ x [Hx Hflow].
  destruct (FlowControl.inc_window flow incr) as [f|e|] eqn:Hf; [|done..]. cbn [expect]. rewrite bind_lift_Ok.
  subst flow. destruct x as [w cs]. by eapply replenished.
Qed.

Lemma kept_send_stream_window_updates fuel n : kept (beside J) (send_stream_window_updates fuel n : SE X () _).
Proof.
  induction fuel as [|fuel IH]; cbn [send_stream_window_updates]; [keep|].
  assert (forall key, kept (beside J) (send_stream_window_update key : SE X () ())).
  { intros key. unfold send_stream_window_update. keep. }
  keep.
Qed.
Lemma kept_r_poll_complete n : kept (beside J) (r_poll_complete n : SE X () _).
Proof.
  pose proof kept_send_connection_window_update. pose proof kept_send_stream_window_updates.
  unfold r_poll_complete. keep.
Qed.
End Poll.

(** ** The frame size is not touched by writing *)

Section Size.
Context `{HM : HeaderMapOps} {HI : HeaderMapIntoIter (HM:=HM)} {NH : NameHasher (HT:=HT)}.
Context `{BM : BytesMut B} `{TB : Buf T}.
Abbreviation FW := (FramedWrite (B:=B) (T:=T)).
Definition sized (w : FW) : Prop := 0 <= fw_max_frame_size w.

Lemma write_out_size script w so w' so' r : write_out script w so = (w', so', r) -> fw_max_frame_size w' = fw_max_frame_size w.
Proof.
  revert w so. induction script as [|a script IH]; intros w so; simpl; destruct (fw_is_empty w); try (by intros [= <- _ _]).
  destruct a as [| |n]; try (by intros [= <- _ _]). destruct (write_some n w) as [w1 l] eqn:Hw. intros H. rewrite (IH _ _ H).
  unfold write_some in Hw. destruct (fw_next w) as [[d|c]|]; [destruct (bool_decide _)|..]; by injection Hw as <- _.
Qed.
Lemma limited_size {E A} (c : SE (HEncoder.Encoder * Limit B) Never A) : kept sized (limited c : SE FW E A).
Proof. intros w Hw. unfold limited. destruct (c _) as [[h d] r]. by destruct r as [x|[]|]. Qed.
Lemma kept_sized {E A} (c : SE FW E A) : kept sized c -> kept (fun st : FW * Socket => sized st.1) (zoom fst (fun w st => (w, st.2)) c).
Proof. intros Hc [w so] Hw. specialize (Hc w Hw). unfold zoom. simpl in *. by destruct (c w) as [w' [x|e|]]. Qed.

Abbreviation I := (fun st : FW * Socket => sized st.1).
Lemma kept_when_ready {A} (c : SE (FW * Socket) () (Async ())) (k : SE (FW * Socket) () (Async A)) :
  kept I c -> kept I k -> kept I (when_ready c k).
Proof. intros Hc Hk. apply kept_bind; [done|]. intros [|]; [done|]. apply kept_mret. Qed.
Lemma kept_flush_frames fuel : kept I (flush_frames fuel).
Proof.
  induction fuel as [|fuel IH]; cbn [flush_frames]; [apply kept_panic|]. apply kept_when_ready.
  { intros [w so] Hw. simpl in *. destruct (write_out _ _ _) as [[w' so'] r] eqn:Hr. apply write_out_size in Hr.
    unfold sized in *. by destruct r; simpl; rewrite ?Hr. }
  apply triple_bind with (Q := fun w st => sized w /\ I st); [by intros st Hst|]. intros w st [Hw Hst]. revert st Hst.
  apply triple_bind with (Q := fun _ => I); [by intros st Hst|intros _]. destruct (fw_next w) as [[d|c]|]; [..|apply kept_mret].
  - apply triple_bind with (Q := fun _ => I); [by intros st Hst|intros _]. apply kept_mret.
  - apply kept_bind; [apply kept_sized, limited_size|]. intros [c'|]; [|done]. apply kept_bind; [apply kept_gets|intros w'].
    destruct (_ =? _); [apply kept_panic|]. apply triple_bind with (Q := fun _ => I); [by intros st Hst|intros _; done].
Qed.
Lemma kept_fw_flush fuel : kept I (FramedWrite.flush fuel).
Proof.
  apply kept_when_ready; [apply kept_flush_frames|]. intros [w so] Hw. unfold poll_socket. simpl in *.
  by destruct (next_answer so) as [[] l].
Qed.
Lemma kept_fw_poll_ready fuel : kept I (FramedWrite.poll_ready fuel).
Proof.
  apply kept_bind; [apply kept_gets|intros w]. destruct (has_capacity w); [apply kept_mret|].
  apply kept_when_ready; [apply kept_fw_flush|]. apply kept_bind; [apply kept_gets|intros w']. destruct (has_capacity w'); apply kept_mret.
Qed.
Lemma kept_fw_buffer item : kept sized (buffer item).
Proof.
  apply kept_bind; [apply kept_get|intros w]. apply kept_bind; [apply kept_lift|intros _].
  assert (forall E (f : B -> B), kept sized (on_buf f : SE FW E ())) as Hb by (by intros E f w' Hw').
  destruct item; try apply Hb; try apply kept_panic.
  - cbv zeta. destruct (_ <? _); [apply kept_throw|]. destruct (_ <=? _).
    + apply kept_bind; [apply Hb|]. by intros _ w' Hw'.
    + apply kept_bind; [apply kept_lift|intros [v' buf]]. apply kept_bind; [apply Hb|intros _].
      apply kept_bind; [apply kept_lift|]. by intros _ w' Hw'.
  - apply kept_bind; [apply limited_size|]. intros [c|]; by intros w' Hw'.
  - apply kept_bind; [apply limited_size|]. intros [c|]; by intros w' Hw'.
Qed.

Lemma kept_take_last_data_frame : kept sized (take_last_data_frame : SE FW Never _).
Proof. by intros w Hw. Qed.
End Size.

(** Two invariants at once. *)
Lemma kept_and {S E A} (I I' : S -> Prop) (c : SE S E A) :
  kept I c -> kept I' c -> triple (fun s => I s /\ I' s) c (fun _ s => I s /\ I' s) (fun _ => I).
Proof. intros Hc Hc' s [Hs Hs']. specialize (Hc s Hs). specialize (Hc' s Hs'). by destruct (c s) as [s' [x|e|]]. Qed.

(** The frame size of the codec beside the streams. *)
Section CodecSize.
Context `{HM : HeaderMapOps} {HI : HeaderMapIntoIter (HM:=HM)} {NH : NameHasher (HT:=HT)} {UO : UriOps}.
Context `{BM : BytesMut B} `{TB : Buf T}.
Context {Ss Im Bf Rf : Type} {SS : Slab Stream Ss} {IM : IndexMap StreamId nat Im}.
Context {SB : Slab (Slot (Frame (B:=T))) Bf} {RB : Slab (Slot (Event (B:=B))) Rf}.
Abbreviation W := (World Ss Im Bf Rf).
Abbreviation C := (Codec (B:=B) (T:=Prioritized T)).
Abbreviation X := (W * (C * Socket))%type.
Definition codec_sized (x : X) : Prop := sized (cd_write x.2.1).

Lemma sized_world {A} (c : SE W () A) : kept codec_sized (on_world c : SE X () A).
Proof. intros [w cs] Hx. unfold on_world, zoom. simpl. by destruct (c w) as [w' [x|e|]]. Qed.
Lemma sized_codec {E A} (c : SE _ E A) : kept sized c -> kept codec_sized (on_codec (on_write c) : SE X () A).
Proof.
  intros Hc [w [cd so]] Hx. specialize (Hc _ Hx). unfold on_codec, on_write, zoom. simpl in *.
  by destruct (c (cd_write cd)) as [fw [x|e|]].
Qed.
Lemma sized_socket {A} (c : SE (FramedWrite (B:=B) (T:=Prioritized T) * Socket) () A) :
  kept (fun st => sized st.1) c -> kept codec_sized (on_socket (with_socket c) : SE X () A).
Proof.
  intros Hc [w [cd so]] Hx. specialize (Hc (cd_write cd, so) Hx). unfold on_socket, with_socket, zoom. simpl in *.
  by destruct (c (cd_write cd, so)) as [[fw so'] [x|e|]].
Qed.
Lemma sized_ready {A} (c : SE X () (Async ())) (k : SE X () (Async A)) :
  kept codec_sized c -> kept codec_sized k -> kept codec_sized (ready c k).
Proof. intros Hc Hk. apply kept_bind; [done|]. intros [|]; [done|]. apply kept_mret. Qed.
Lemma sized_poll_ready n : kept codec_sized (poll_ready n : SE X () _).
Proof. apply sized_socket, kept_fw_poll_ready. Qed.
Lemma sized_buffer item : kept codec_sized (on_codec (Codec_buffer item) : SE X () _).
Proof. apply sized_codec, kept_fw_buffer. Qed.
#[local] Hint Resolve sized_world sized_ready sized_poll_ready sized_buffer : kept.

Lemma sized_reclaim_frame : kept codec_sized (reclaim_frame : SE X () bool).
Proof.
  unfold reclaim_frame, set_in_flight. apply kept_bind; [apply sized_codec, kept_take_last_data_frame|]. cbv zeta. keep.
Qed.
Lemma sized_r_poll_complete n : kept codec_sized (r_poll_complete n : SE X () _).
Proof.
  assert (forall fuel, kept codec_sized (send_stream_window_updates fuel n : SE X () _)).
  { induction fuel as [|fuel IH]; cbn [send_stream_window_updates]; unfold send_stream_window_update; keep. }
  unfold r_poll_complete, send_connection_window_update. keep.
Qed.
End CodecSize.
