(* ===== verification/H2Conservation.v ===== *)
(** * What a connection may send

    A history is any sequence of operations on the streams of a connection: received
    frames, calls through the user's handles, and the steps by which frames are taken
    and written.  It counts the flow-control credit that the peer has granted to the
    connection and the bytes of DATA that were taken to be sent.

    The second part has the theorems on every state of a history. *)

From S2P Require Import Prelude Bytes H2Types FlowControl StreamState Slab HttpTypes HpackTable Frames HeadersFrame.
From S2P Require Import H1Head FramedRead FramedWrite H2Codec H2Buffer H2Store H2World H2Send H2Recv H2Streams H2Poll.
From S2P Require Import H2Account H2AccountSend H2Peer H2AccountPrioritize H2AccountRecv H2AccountOps H2AccountPoll.

Section History.
Context `{HM : HeaderMapOps} {HI : HeaderMapIntoIter (HM:=HM)} {NH : NameHasher (HT:=HT)} {UO : UriOps}.
Context `{BM : BytesMut B} `{TB : Buf T}.
Context {Ss Im Bf Rf : Type} {SS : Slab Stream Ss} {IM : IndexMap StreamId nat Im}.
Context {SB : Slab (Slot (Frame (B:=T))) Bf} {RB : Slab (Slot (Event (B:=B))) Rf}.
Abbreviation W := (World Ss Im Bf Rf).

(** The operations that neither grant nor spend credit of the connection.  The
    premises are what loading a frame has checked, and the range of a [u32]. *)
Inductive op : forall {E A : Type}, SE W E A -> Prop :=
  (* received frames *)
  | op_recv_headers P frame : hb_is_over_size (h_header_block frame) = false -> op (recv_headers P frame)
  | op_recv_data P frame : op (recv_data P frame)
  | op_recv_reset frame : op (recv_reset frame)
  | op_recv_push_promise frame : op (recv_push_promise frame)
  | op_recv_go_away frame : op (recv_go_away frame)
  | op_recv_window_update frame :
      StreamId.is_zero (wu_stream_id frame) = false -> 0 <= wu_size_increment frame <= MAX_WINDOW_SIZE ->
      op (recv_window_update frame)
  | op_apply_remote_settings frame : settings_ok frame -> op (apply_remote_settings frame)
  | op_apply_local_settings frame : op (apply_local_settings frame)
  (* the connection task *)
  | op_recv_err {E} err : op (recv_err err : SE W E _)
  | op_recv_eof {E} acc : op (recv_eof acc : SE W E _)
  | op_send_go_away {E} id : op (send_go_away id : SE W E _)
  | op_send_reset {E} id reason : op (send_reset id reason : SE W E _)
  | op_clear_expired {E} : op (clear_expired_reset_streams : SE W E _)
  | op_schedule_pending_open {E} : op (schedule_pending_open : SE W E _)
  | op_push_back_frame {E} frame key : op (push_back_frame frame key : SE W E _)
  | op_woken {E} tasks : op (modify (set_woken tasks) : SE W E ())
  (* the user's handles *)
  | op_next_incoming {E} : op (next_incoming : SE W E _)
  | op_send_request request eos pending : op (send_request request eos pending)
  | op_poll_pending_open cx pending : op (poll_pending_open cx pending)
  | op_clone {E} : op (Streams_clone : SE W E _)
  | op_drop {E} : op (Streams_drop : SE W E _)
  | op_ref_send_data key data eos : op (ref_send_data key data eos)
  | op_ref_send_trailers key trailers : op (ref_send_trailers key trailers)
  | op_ref_send_reset {E} key reason : op (ref_send_reset key reason : SE W E _)
  | op_ref_send_response key response eos : op (ref_send_response key response eos)
  | op_ref_send_push_promise key request : op (ref_send_push_promise key request)
  | op_ref_take_request {E} key : op (ref_take_request key : SE W E _)
  | op_ref_reserve_capacity {E} key n : op (ref_reserve_capacity key n : SE W E _)
  | op_ref_poll_capacity {E} cx key : op (ref_poll_capacity cx key : SE W E _)
  | op_ref_poll_reset cx key mode : op (ref_poll_reset cx key mode)
  | op_ref_poll_response cx key : op (ref_poll_response cx key)
  | op_ref_poll_pushed cx key : op (ref_poll_pushed cx key)
  | op_ref_poll_data cx key : op (ref_poll_data cx key)
  | op_ref_poll_trailers cx key : op (ref_poll_trailers cx key)
  | op_ref_release_capacity key n : 0 <= n -> op (ref_release_capacity key n)
  | op_ref_clear_recv_buffer {E} key : op (ref_clear_recv_buffer key : SE W E _)
  | op_ref_clone {E} key : op (ref_clone key : SE W E _).

Lemma op_kept {E A} (c : SE W E A) t v : op c -> kept (accounted false t v 0 0) c.
Proof.
  intros Hc. destruct Hc.
  - by apply kept_recv_headers.
  - apply kept_recv_data.
  - apply kept_recv_reset.
  - apply kept_recv_push_promise.
  - apply kept_recv_go_away.
  - intros w Hw. pose proof (triple_recv_window_update t v frame H0 w Hw) as Hu. by rewrite H in Hu.
  - by apply kept_apply_remote_settings.
  - apply kept_apply_local_settings.
  - apply kept_recv_err.
  - apply kept_recv_eof.
  - apply kept_send_go_away.
  - apply kept_send_reset.
  - apply kept_clear_expired_reset_streams.
  - apply kept_schedule_pending_open.
  - apply kept_push_back_frame.
  - apply kept_modify. intros w Hw. by apply (plain_world (accounted false t v 0 0) w).
  - apply kept_next_incoming.
  - apply kept_send_request.
  - apply kept_poll_pending_open.
  - unfold Streams_clone. keep.
  - unfold Streams_drop. keep.
  - apply kept_ref_send_data.
  - apply kept_ref_send_trailers.
  - apply kept_actions_send_reset.
  - apply kept_ref_send_response.
  - apply kept_ref_send_push_promise.
  - apply kept_r_take_request.
  - apply kept_reserve_capacity.
  - apply kept_s_poll_capacity.
  - apply kept_s_poll_reset.
  - apply kept_r_poll_response.
  - apply kept_ref_poll_pushed.
  - apply kept_r_poll_data.
  - apply kept_r_poll_trailers.
  - by apply kept_ref_release_capacity.
  - apply kept_r_clear_recv_buffer.
  - apply kept_ref_clone.
Qed.

(** Every reservation of capacity has been granted. *)
Definition all_granted (w : W) : Prop := forall key s, index key (w_store w) = Some s -> granted s.

Lemma accounted_granted t v w : accounted false t v 0 0 w -> all_granted w -> accounted true t v 0 0 w.
Proof.
  intros (m & Hm & Ha) Hg. exists m. split; [done|]. destruct Ha as [Hs]. split; try done.
  intros k s Hk. destruct (Hs k s Hk). split; try done. intros _. apply (Hg (MkKey k (s_id s))).
  unfold index. simpl. rewrite Hm, Hk. by rewrite decide_True.
Qed.

Lemma new_flow {E} n :
  0 <= n <= MAX_WINDOW_SIZE ->
  exists f, expect (FlowControl.inc_window FlowControl.new n) = (Ok f : outcome E _) /\
    flow_wf (FlowControl.assign_capacity f n) /\ credit (FlowControl.assign_capacity f n) = n /\
    window_i32 (available (FlowControl.assign_capacity f n)) = n.
Proof.
  intros Hn. rewrite inc_window_exact; [|split; unfold Window.wf, in_i; simpl; lia|done].
  change (credit FlowControl.new + n) with n. rewrite max_window in *. destruct (Z.leb_spec n (2 ^ 31 - 1)) as [Hle|Hle]; [|lia].
  eexists. split; [done|]. set (f := MkFlowControl (MkWindow n) (available FlowControl.new)).
  assert (flow_wf f) as Hf by (split; unfold Window.wf, in_i; simpl; lia).
  split; [by apply assign_wf|]. split; [done|]. rewrite assign_exact; [done|done|lia|done|simpl; rewrite max_window; lia].
Qed.

Lemma Streams_new_accounted {E} P config now (w : W) :
  0 <= remote_init_window_sz config <= MAX_WINDOW_SIZE -> Streams_new P config now = (Ok w : outcome E W) ->
  accounted false DEFAULT_INITIAL_WINDOW_SIZE (remote_init_window_sz config) 0 0 w.
Proof.
  intros Hsz. unfold Streams_new, Recv_new, Send_new, Prioritize_new.
  destruct (new_flow (E:=E) DEFAULT_INITIAL_WINDOW_SIZE) as (rf & -> & Hrf & Hrc & Hra); [done|].
  destruct (new_flow (E:=E) (remote_init_window_sz config)) as (pf & Hp & Hpf & Hpc & Hpa); [done|].
  cbn [mbind outcome_bind]. rewrite Hp. intros [= <-]. exists ∅. split; [intros k; apply slab_new_get|].
  cbn -[FlowControl.assign_capacity]. split; rewrite ?map_sum_empty, ?Hrc, ?Hra, ?Hpc, ?Hpa; try done; try lia.
Qed.

Abbreviation C := (Codec (B:=B) (T:=Prioritized T)).

(** The steps of writing that take no frame. *)
Inductive write_step : forall {A : Type}, SE (W * (C * Socket)) () A -> Prop :=
  | write_reclaim : write_step reclaim_frame
  | write_in_flight f : write_step (set_in_flight f)
  | write_refusal n : write_step (send_pending_refusal n)
  | write_updates n : write_step (r_poll_complete n)
  | write_task cx : write_step (on_world (modify (set_task (Some cx))))
  | write_socket {A} (c : SE (C * Socket) () A) : write_step (on_socket c)
  | write_codec {E A} (c : SE C E A) : write_step (on_codec c).

(** [history target granted sent w]: [w] is reached by some sequence of operations; the peer
    has granted [granted] bytes of credit to the connection (the initial window and the
    WINDOW_UPDATEs that were accepted), and [sent] bytes of DATA were taken;
    [target] is the receive window the user wants the connection to have.  A handle
    is dropped, and an over-size request refused by a server, while every reservation is
    granted. *)
Inductive history : Z -> Z -> Z -> W -> Prop :=
  | history_new {E} P config now w :
      0 <= remote_init_window_sz config <= MAX_WINDOW_SIZE ->
      Streams_new P config now = (Ok w : outcome E W) -> history DEFAULT_INITIAL_WINDOW_SIZE (remote_init_window_sz config) 0 w
  | history_op {E A} (c : SE W E A) target granted sent w w' r :
      history target granted sent w -> op c -> c w = (w', r) -> r <> Panic -> history target granted sent w'
  | history_target {E} size target granted sent w w' (r : outcome E ()) :
      history target granted sent w -> 0 <= size <= MAX_WINDOW_SIZE ->
      set_target_connection_window_size size w = (w', r) -> r <> Panic -> history size granted sent w'
  | history_drop {E} key target granted sent w w' (r : outcome E ()) :
      history target granted sent w -> all_granted w -> drop_stream_ref key w = (w', r) -> r <> Panic ->
      history target granted sent w'
  | history_oversize P frame target granted sent w w' r :
      history target granted sent w -> (all_granted w \/ peer_is Client w) -> recv_headers P frame w = (w', r) -> r <> Panic ->
      history target granted sent w'
  | history_window_update frame target granted sent w w' :
      history target granted sent w -> StreamId.is_zero (wu_stream_id frame) = true ->
      0 <= wu_size_increment frame <= MAX_WINDOW_SIZE ->
      recv_window_update frame w = (w', Ok tt) -> history target (granted + wu_size_increment frame) sent w'
  | history_window_update_err frame target granted sent w w' e :
      history target granted sent w -> 0 <= wu_size_increment frame <= MAX_WINDOW_SIZE ->
      recv_window_update frame w = (w', Err e) -> history target granted sent w'
  | history_pop {E} max_len target granted sent w w' (r : option (Frame (B:=Prioritized T))) :
      history target granted sent w -> 0 <= max_len -> pop_frame max_len w = (w', Ok r : outcome E _) ->
      history target granted (sent + data_len r) w'
  | history_write {A} (c : SE (W * (C * Socket)) () A) cs cs' target granted sent w w' r :
      history target granted sent w -> write_step c -> c (w, cs) = ((w', cs'), r) -> r <> Panic -> history target granted sent w'.

(** What a triple says of one run. *)
Lemma triple_run {S E A} (P : S -> Prop) (c : SE S E A) (I : S -> Prop) w w' r :
  triple P c (fun _ => I) (fun _ => I) -> P w -> c w = (w', r) -> r <> Panic -> I w'.
Proof. intros Hc Hw Hr Hp. specialize (Hc w Hw). rewrite Hr in Hc. by destruct r. Qed.

Lemma write_step_kept {A} (c : SE (W * (C * Socket)) () A) t v :
  write_step c -> kept (beside (accounted false t v 0 0)) c.
Proof.
  intros Hc. destruct Hc; [apply kept_reclaim_frame|apply kept_set_in_flight|apply kept_send_pending_refusal|
    apply kept_r_poll_complete| |apply kept_on_socket|apply kept_on_codec].
  apply kept_on_world, kept_modify. intros w Hw. by apply (plain_world (accounted false t v 0 0) w).
Qed.

Lemma history_accounted target granted sent w :
  history target granted sent w -> accounted false target (granted - sent) 0 0 w.
Proof.
  induction 1 as [E P config now w Hsz Hw|E A c target granted sent w w' r _ IH Hc Hr Hp
    |E size target granted sent w w' r _ IH Hs Hr Hp|E key target granted sent w w' r _ IH Hg Hr Hp
    |P frame target granted sent w w' r _ IH Hg Hr Hp|frame target granted sent w w' _ IH Hz Hs Hr
    |frame target granted sent w w' e _ IH Hs Hr|E max_len target granted sent w w' r _ IH Hm Hr
    |A c cs cs' target granted sent w w' r _ IH Hc Hr Hp].
  - rewrite Z.sub_0_r. by eapply Streams_new_accounted.
  - by eapply triple_run; [apply op_kept|..].
  - by eapply triple_run; [apply triple_set_target_connection_window|..].
  - eapply (accounted_weaken true _ _ 0 0); [done..|].
    by eapply triple_run; [apply kept_drop_stream_ref|apply accounted_granted|..].
  - destruct Hg as [Hg|Hg].
    + by eapply triple_run; [apply triple_recv_headers_granted|apply accounted_granted|..].
    + by eapply triple_run; [apply triple_recv_headers_client|split|..].
  - pose proof (triple_recv_window_update _ _ frame Hs w IH) as H. rewrite Hr, Hz in H.
    by replace (granted + wu_size_increment frame - sent) with (granted - sent + wu_size_increment frame) by lia.
  - pose proof (triple_recv_window_update _ _ frame Hs w IH) as H. by rewrite Hr in H.
  - pose proof (triple_pop_frame (E:=E) target (granted - sent) 0 max_len Hm w IH) as H. rewrite Hr in H.
    replace (granted - (sent + data_len r)) with (granted - sent - data_len r) by lia. apply H.
  - pose proof (write_step_kept c target (granted - sent) Hc (w, cs) IH) as H. rewrite Hr in H. by destruct r.
Qed.

Lemma data_len_nonneg (r : option (Frame (B:=Prioritized T))) : 0 <= data_len r.
Proof. destruct r as [[]|]; simpl; try done. apply len_nonneg. Qed.
Lemma history_sent target granted sent w : history target granted sent w -> 0 <= sent.
Proof. induction 1; try done. pose proof (data_len_nonneg r). lia. Qed.
End History.

(** * Flow control of a connection

    What holds in every state that the operations of a connection lead to: data is
    sent within the credit of the peer, received data is in flight or available
    again, the counts are those of the streams, and writing takes no other steps. *)

Section Conservation.
Context `{HM : HeaderMapOps} {HI : HeaderMapIntoIter (HM:=HM)} {NH : NameHasher (HT:=HT)} {UO : UriOps}.
Context `{BM : BytesMut B} `{TB : Buf T}.
Context {Ss Im Bf Rf : Type} {SS : Slab Stream Ss} {IM : IndexMap StreamId nat Im}.
Context {SB : Slab (Slot (Frame (B:=T))) Bf} {RB : Slab (Slot (Event (B:=B))) Rf}.
Abbreviation W := (World Ss Im Bf Rf).
Implicit Types (w : W).

(** C3. Sending within the credit.  Whatever sequence of frames is received and of
    calls is made, the bytes of DATA taken to be sent never exceed the credit that the
    peer has granted to the connection; the send window is exactly what is left of it,
    and the capacity assigned to the streams together with the unassigned capacity
    stays within the window, so no stream can be promised bytes that another one is
    promised too.  (In a history, handles are dropped only while every reservation is
    granted; [ungranted_reservation_panics] shows what happens otherwise.) *)
Theorem data_within_credit target granted sent w :
  history target granted sent w ->
  0 <= sent <= granted /\ credit (p_flow (w_prio w)) = granted - sent /\
  exists m, holds (st_slab (w_store w)) m /\ 0 <= window_i32 (available (p_flow (w_prio w))) /\
    (forall k s, m !! k = Some s -> 0 <= cap s <= Z.max 0 (send_window s)) /\
    window_i32 (available (p_flow (w_prio w))) + map_sum cap m <= granted - sent.
Proof.
  intros Hh. pose proof (history_sent _ _ _ _ Hh). destruct (history_accounted _ _ _ _ Hh) as (m & Hm & Ha).
  pose proof (acc_send Ha). pose proof (acc_send_available Ha). pose proof (cap_sum_nonneg Ha).
  split; [lia|]. split; [exact (acc_credit Ha)|]. exists m. split; [done|]. split; [done|]. split; [|lia].
  intros k s Hk. exact (ok_cap (accounts_stream Ha Hk)).
Qed.

(** A popped frame fits.  A DATA frame that [pop_frame] hands to the codec is no
    longer than the maximum frame length and than the connection's window, which is
    debited by exactly its length. *)
Theorem popped_data_fits {E} target granted sent w w' max_len r :
  history target granted sent w -> 0 <= max_len -> pop_frame max_len w = (w', Ok r : outcome E _) ->
  data_len r <= max_len /\ data_len r <= credit (p_flow (w_prio w)) /\
  credit (p_flow (w_prio w')) = credit (p_flow (w_prio w)) - data_len r.
Proof.
  intros Hh Hm Hr. pose proof (history_accounted _ _ _ _ Hh) as Hw.
  pose proof (triple_pop_frame (E:=E) target (granted - sent) 0 max_len Hm w Hw) as H. rewrite Hr in H.
  destruct H as [Hd (m' & _ & Ha')], Hw as (m & _ & Ha).
  rewrite (acc_credit Ha), (acc_credit Ha'). split; [done|].
  pose proof (acc_send Ha'). pose proof (acc_send_available Ha'). pose proof (cap_sum_nonneg Ha'). lia.
Qed.

(** C21. DATA is taken without a panic.  In every state of a history, in which handles are
    dropped only while every reservation is granted, a DATA frame whose stream holds
    capacity (or an empty frame on a window that is not negative) is taken: cut to the
    frame length and to the capacity, with both windows debited. *)
Theorem pop_data_sends {E} target granted sent w key s (frame : Data T) max_len :
  history target granted sent w -> index key (w_store w) = Some s -> 0 <= max_len -> sendable frame s = true ->
  exists w' d s', pop_data frame max_len key w = (w', Ok (Some (FData d)) : outcome E _) /\
    remaining (data_data d) = Z.min (Z.min (remaining (data_data frame)) max_len) (cap s) /\
    credit (p_flow (w_prio w')) = credit (p_flow (w_prio w)) - remaining (data_data d) /\
    index key (w_store w') = Some s' /\ send_window s' = send_window s - remaining (data_data d).
Proof.
  intros Hh Hi Hm Hs. pose proof (history_accounted _ _ _ _ Hh) as Hw.
  pose proof (pop_data_takes (E:=E) target (granted - sent) 0 frame max_len key s w (conj Hw Hi) Hm Hs) as H.
  apply returns_Ok in H as (w' & r & Hr & d & -> & Hd & (m' & _ & Ha') & s' & Hi' & Hsw).
  exists w', d, s'. split; [done|]. split; [done|]. rewrite Hd. destruct Hw as (m & _ & Ha).
  by rewrite (acc_credit Ha), (acc_credit Ha').
Qed.

(** ** Received data *)

(** Whether [recv_data] puts the data of [frame] into the queue of its stream. *)
Definition queued (frame : Data B) w : bool :=
  match find_mut (data_stream_id frame) (w_store w) with
  | Some key =>
      match index key (w_store w), (r_recv_data frame key w).2 with
      | Some s, Ok _ => negb (State.is_local_reset (s_state s))
      | _, _ => false
      end
  | None => false
  end.

Section Charged.
Context (n : Z) (id : StreamId) (Hn : 0 <= n <= MAX_WINDOW_SIZE).

Lemma charged_release {E} sz task (Rx : E -> W -> Prop) : 0 <= sz <= MAX_WINDOW_SIZE ->
  triple (recv_is (n + sz) id) (release_connection_capacity sz task : SE W E ()) (fun _ => recv_is n id) Rx.
Proof.
  intros Hsz w [Hw Hi]. unfold release_connection_capacity, on_recv, on_rv_flow. rewrite !bind_modify, bind_gets.
  set (w1 := set_recv _ (set_recv _ w)). assert (recv_is n id w1) as H1.
  { split; [|exact Hi]. subst w1. cbn -[as_u32]. rewrite Hw, as_u32_id; [lia|]. rewrite max_window in *. lia. }
  destruct (FlowControl.unclaimed_capacity _); [destruct task|]; try exact H1.
  pose proof (recv_wake_task (E:=E) n id w1 H1) as H. unfold wake_task in *. by destruct (modify _ w1) as [w2 [x|e|]] eqn:E0.
Qed.
Lemma charged_consume sz : 0 <= sz <= MAX_WINDOW_SIZE ->
  triple (recv_is n id) (consume_connection_window sz : SE W RecvError ()) (fun _ => recv_is (n + sz) id)
    (fun e _ => e = RecvConnection FLOW_CONTROL_ERROR).
Proof.
  intros Hsz w [Hw Hi]. unfold consume_connection_window. rewrite bind_gets. destruct (_ <? _); [done|].
  destruct (FlowControl.send_data (E:=RecvError) _ _) as [f|e|] eqn:E0; [|by unfold FlowControl.send_data, assert_ in E0; repeat case_match|done].
  rewrite bind_lift_Ok. unfold on_rv_flow, on_recv. rewrite bind_modify. split; [|exact Hi].
  cbn -[as_u32]. rewrite Hw. rewrite max_window in *. int_lia.
Qed.

Lemma charged_r_recv_data (frame : Data B) key s : let sz := len (buf_bytes (data_data frame)) in
  triple (fun w => recv_is n id w /\ index key (w_store w) = Some s) (r_recv_data frame key : SE W RecvError ())
    (fun _ w => recv_is (if State.is_local_reset (s_state s) then n else n + sz) id w /\ sz <= MAX_WINDOW_SIZE)
    (fun e w => match e with RecvStream _ _ => recv_is (n + sz) id w /\ sz <= MAX_WINDOW_SIZE | _ => True end).
Proof.
  cbv zeta. unfold r_recv_data. cbv zeta. set (sz := len (buf_bytes (data_data frame))). assert (0 <= sz) as Hsz by apply len_nonneg.
  destruct (Z.leb_spec sz MAX_WINDOW_SIZE) as [Hle|Hle]; [|apply triple_panic].
  rewrite as_u32_id by (rewrite max_window in *; lia). cbn [assert_]. intros w [Hw Hi]. rewrite bind_lift_Ok.
  rewrite (bind_eq _ _ _ w s) by (by apply stream_eq). revert w Hw Hi.
  assert (forall A (c : SE W RecvError A), kept (recv_is (n + sz) id) c ->
    triple (recv_is (n + sz) id) c (fun _ => recv_is (n + sz) id)
      (fun e w => match e with RecvStream _ _ => recv_is (n + sz) id w /\ sz <= MAX_WINDOW_SIZE | _ => True end)) as Hk.
  { intros A c Hc. eapply triple_conseq; [| | |exact Hc]; [done|done|]. intros [] w Hw; done. }
  destruct (_ && _); [by intros w Hw|]. destruct (State.is_local_reset _).
  { intros w Hw Hi. revert w Hw Hi. assert (triple (recv_is n id) (ignore_data sz : SE W RecvError ())
      (fun _ w => recv_is n id w /\ sz <= MAX_WINDOW_SIZE) (fun e _ => e = RecvConnection FLOW_CONTROL_ERROR)) as H.
    { eapply triple_bind; [by apply charged_consume|]. intros []. eapply triple_conseq; [| | |by apply (charged_release sz false (fun _ _ => False))]; done. }
    intros w Hw _. specialize (H w Hw). destruct (ignore_data sz w) as [w' [x|e|]]; [exact H|by subst e|done]. }
  intros w Hw _. revert w Hw. apply triple_bind with (Q := fun _ => recv_is (n + sz) id).
  { eapply triple_conseq; [| | |by apply charged_consume]; [done..|]. by intros e w ->. }
  intros []. destruct (_ <? _); [by intros w Hw|].
  apply triple_bind with (Q := fun _ => recv_is (n + sz) id); [apply Hk, kept_attempt, recv_on_stream|].
  intros [[]|[]]; [by intros w Hw|]. apply triple_bind with (Q := fun _ => recv_is (n + sz) id).
  { destruct (Data.is_end_stream frame); [|by intros w Hw].
    apply triple_bind with (Q := fun _ => recv_is (n + sz) id); [apply Hk, recv_on_store|intros s'].
    destruct (ensure_content_length_zero s'); [|by intros w Hw..].
    destruct (State.recv_close _); [apply Hk, recv_on_store|by intros w Hw..]. }
  intros []. apply triple_bind with (Q := fun _ => recv_is (n + sz) id); [apply Hk, kept_lift|intros flow].
  apply triple_bind with (Q := fun _ => recv_is (n + sz) id); [apply Hk, recv_on_store|intros []].
  apply triple_bind with (Q := fun _ => recv_is (n + sz) id); [apply Hk, recv_on_store|intros []].
  apply triple_bind with (Q := fun _ => recv_is (n + sz) id); [apply Hk, recv_on_pending_recv|intros []].
  eapply triple_conseq; [| | |apply Hk, recv_on_stream]; done.
Qed.

Lemma transition_inv {E A} key (c : SE W E A) w w' r :
  transition key c w = (w', r) ->
  r = Panic \/ exists w1 x, c w = (w1, r) /\ on_counts (Counts.transition_after key x) w1 = (w', Ok tt : outcome E ()).
Proof.
  unfold transition, stream, on_store, zoom, deref, mbind, SE_bind, attempt.
  destruct (index key (w_store w)) as [s|] eqn:Hi; [|intros [= <- <-]; by left].
  replace (set_store (w_store w) w) with w by (by destruct w). destruct (c w) as [w1 [x|e|]]; [| |intros [= <- <-]; by left].
  all: pose proof (nothrow_transition_after (E:=E) key (is_pending_reset_expiration s) w1) as Hno;
    destruct (on_counts _ w1) as [w2 [[]|e2|]] eqn:Hc; [|by destruct (Hno w2 e2)|intros [= <- <-]; by left]; intros [= <- <-]; right; eauto.
Qed.

Lemma charged_recv_data P (frame : Data B) w w' r :
  recv_is n id w -> recv_data P frame w = (w', r) ->
  match r with
  | Ok _ | Err (RecvStream _ _) => recv_is (if queued frame w then n + len (buf_bytes (data_data frame)) else n) id w'
  | _ => True
  end.
Proof.
  intros Hw. unfold recv_data, queued. cbv zeta. rewrite bind_gets.
  set (sz := len (buf_bytes (data_data frame))). assert (0 <= sz) as Hsz by apply len_nonneg.
  destruct (find_mut _ _) as [key|] eqn:Hf.
  - intros [->|(w1 & x & Hc & Ht)]%transition_inv; [done|].
    assert (match r with Ok _ | Err (RecvStream _ _) => recv_is (if match index key (w_store w), (r_recv_data frame key w).2 with
      | Some s, Ok _ => negb (State.is_local_reset (s_state s)) | _, _ => false end then n + sz else n) id w1 | _ => True end) as H1;
      [|destruct r as [a|[e|i e|e]|]; try done; pose proof (recv_on_counts (E:=RecvError) _ id (Counts.transition_after key x) w1 H1) as Hk; by rewrite Ht in Hk].
    revert Hc. unfold mbind, SE_bind, attempt. destruct (index key (w_store w)) as [s|] eqn:Hi;
      [|unfold r_recv_data, stream, on_store, zoom, deref, mbind, SE_bind; unfold assert_; destruct (_ <=? MAX_WINDOW_SIZE); simpl; rewrite ?Hi; by intros [= <- <-]].
    pose proof (charged_r_recv_data frame key s w (conj Hw Hi)) as H. cbv zeta in H. fold sz in H.
    destruct (r_recv_data frame key w) as [w2 [[]|[e|i e|e]|]]; try (intros [= <- <-]; done).
    + destruct H as [H _]. intros [= <- <-]. simpl. by destruct (State.is_local_reset _).
    + destruct H as [H Hle]. simpl. rewrite (as_u32_id sz) by lia.
      pose proof (charged_release (E:=RecvError) sz false (fun _ _ => False) (conj Hsz Hle) w2 H) as Hr.
      destruct (release_connection_capacity sz false w2) as [w3 [[]|e2|]]; [|done|by intros [= <- <-]].
      pose proof (recv_s_send_reset (E:=RecvError) n id e key w3 Hr) as Hs. destruct (s_send_reset e key w3) as [w4 [y|[]|]]; by intros [= <- <-].
  - rewrite bind_gets. destruct (id_lt _ _); [by intros [= <- <-]|].
    set (Rx := fun (e : RecvError) (w : W) => match e with RecvStream _ _ => recv_is n id w | _ => True end).
    assert (forall A (c : SE W RecvError A), kept (recv_is n id) c -> triple (recv_is n id) c (fun _ => recv_is n id) Rx) as Hk.
    { intros A c Hc. eapply triple_conseq; [| | |exact Hc]; [done|done|]. by intros []. }
    match goal with |- ?c w = _ -> _ => assert (triple (recv_is n id) c (fun _ => recv_is n id) Rx) as H end;
      [|specialize (H w Hw); intros Hr; rewrite Hr in H; by destruct r as [a|[]|]].
    apply triple_bind with (Q := fun _ => recv_is n id).
    { apply Hk. unfold may_have_forgotten_stream. destruct (StreamId.is_zero _); [apply kept_mret|].
      apply kept_bind; [apply kept_lift|intros l]. apply kept_bind; [apply kept_get|intros w1; apply kept_mret]. }
    intros [|]; [|by intros w1 _]. destruct (Z.leb_spec sz MAX_WINDOW_SIZE) as [Hle|Hle]; [|by intros w1 _].
    rewrite (as_u32_id sz) by lia. apply triple_bind with (Q := fun _ => recv_is n id); [apply Hk, kept_lift|intros _].
    apply triple_bind with (Q := fun _ => recv_is n id); [|by intros _ w1 Hw1].
    eapply triple_bind; [eapply triple_conseq; [| | |by apply (charged_consume sz)]; [done|done|]|]. { by intros e w1 ->. }
    intros []. eapply triple_conseq; [| | |by apply (charged_release sz false (fun _ _ => False))]; done.
Qed.
End Charged.

(** C6. The receive window of the connection is conserved, and received data is charged to
    it exactly when it is kept.  In every state of a history (in which handles are
    dropped only while every reservation of send capacity is granted) the bytes in flight
    and the available receive window add up to the target that the user set; the window
    known to the peer and the bytes in flight stay within [2^31 - 1], and the streams
    account for no more than is in flight.  From every such state, a DATA frame that does
    not fail the connection adds its length to the bytes in flight when it is put into
    the queue of its stream, and nothing when it is not: when the stream was reset here,
    when it was forgotten, and when the frame is a stream error (beyond the window of
    the stream, or against its Content-Length), the bytes are given back at once. *)
Theorem receive_window_conserved target granted sent w :
  history target granted sent w ->
  window_i32 (available (rv_flow (w_recv w))) + rv_in_flight_data (w_recv w) = target /\
  0 <= credit (rv_flow (w_recv w)) /\ credit (rv_flow (w_recv w)) + rv_in_flight_data (w_recv w) <= MAX_WINDOW_SIZE /\
  (exists m, holds (st_slab (w_store w)) m /\ map_sum s_in_flight_recv_data m <= rv_in_flight_data (w_recv w)) /\
  forall P frame w' r, recv_data P frame w = (w', r) ->
    match r with
    | Ok _ | Err (RecvStream _ _) => rv_in_flight_data (w_recv w') =
        rv_in_flight_data (w_recv w) + if queued frame w then len (buf_bytes (data_data frame)) else 0
    | _ => True
    end.
Proof.
  intros Hh. destruct (history_accounted _ _ _ _ Hh) as (m & Hm & Ha). pose proof (acc_recv Ha). pose proof (accounts_in_flight_range Ha) as Hn.
  destruct Ha. split; [done|]. split; [done|]. split; [done|]. split; [exists m; split; [done|lia]|].
  intros P frame w' r Hr. pose proof (charged_recv_data (rv_in_flight_data (w_recv w)) (rv_max_stream_id (w_recv w)) ltac:(lia) P frame w w' r (conj eq_refl eq_refl) Hr) as Hc.
  destruct r as [a|[]|]; try done; destruct Hc as [-> _]; by destruct (queued frame w); rewrite ?Z.add_0_r.
Qed.

(** C23. The counts are those of the streams.  In every reachable state the connection
    says that it has streams ([Counts::has_streams], on which closing the connection
    depends) exactly when its store holds a stream that is counted: no reset, refusal,
    eviction or failed request leaves a count behind or takes one too many. *)
Theorem has_streams_iff target granted sent w :
  history target granted sent w ->
  Counts.has_streams (w_counts w) = true <->
  exists key s, index key (w_store w) = Some s /\ s_is_counted s = true.
Proof.
  intros Hh. destruct (history_accounted _ _ _ _ Hh) as (m & Hm & Ha). destruct Ha as [_ _ _ _ _ _ _ _ _ _ _ _ Hc Hs Hr].
  assert (Counts.has_streams (w_counts w) = true <-> 0 < map_sum counted m) as ->.
  { unfold Counts.has_streams. rewrite orb_true_iff, !negb_true_iff, !Z.eqb_neq. lia. }
  rewrite map_sum_pos by (intros k s _; unfold counted; destruct (s_is_counted s); lia). split.
  - intros (k & s & Hk & Hp). exists (MkKey k (s_id s)), s. unfold index. simpl. rewrite Hm, Hk, decide_True by done.
    split; [done|]. unfold counted in Hp. by destruct (s_is_counted s).
  - intros (key & s & Hi & Hs'). destruct (holds_index _ m key s Hm Hi) as [Hk _]. exists (key_index key), s.
    unfold counted. by rewrite Hs'.
Qed.

(** ** Writing *)

Abbreviation C := (Codec (B:=B) (T:=Prioritized T)).
Abbreviation X := (W * (C * Socket))%type.
Definition later (target granted sent : Z) (x : X) : Prop :=
  exists sent', sent <= sent' /\ history target granted sent' x.1.

Section Writing.
Context (target granted sent : Z).
Abbreviation L := (later target granted sent).

Lemma later_step {A} (c : SE X () A) : write_step c -> kept L c.
Proof.
  intros Hc [w cs] (s & Hs & Hh). simpl in Hh. destruct (c (w, cs)) as [[w' cs'] [x|e|]] eqn:Hr; [| |done];
    (exists s; split; [done|]; by eapply history_write).
Qed.
Lemma later_op {A} (c : SE W () A) : op c -> kept L (on_world c).
Proof.
  intros Hc [w cs] (s & Hs & Hh). simpl in Hh. unfold on_world, zoom. simpl.
  destruct (c w) as [w' [x|e|]] eqn:Hr; [| |done]; (exists s; split; [done|]; eapply history_op; [exact Hh|exact Hc|exact Hr|done]).
Qed.
Lemma later_pop max_len : 0 <= max_len -> kept L (on_world (pop_frame max_len)).
Proof.
  intros Hm [w cs] (s & Hs & Hh). simpl in Hh. unfold on_world, zoom. simpl.
  destruct (pop_frame max_len w) as [w' [r|e|]] eqn:Hr; [|by destruct (nothrow_pop_frame max_len w w' e)|done].
  exists (s + data_len r). pose proof (data_len_nonneg r). split; [lia|]. eapply history_pop; [exact Hh|exact Hm|exact Hr].
Qed.

Lemma later_ready {A} (c : SE X () (Async ())) (k : SE X () (Async A)) : kept L c -> kept L k -> kept L (ready c k).
Proof. intros Hc Hk. apply kept_bind; [done|]. intros [|]; [done|]. apply kept_mret. Qed.

Lemma later_send_frames fuel codec max_len : 0 <= max_len -> kept L (send_frames fuel codec max_len).
Proof.
  intros Hm. induction fuel as [|fuel IH]; cbn [send_frames]; [apply kept_panic|].
  apply kept_bind; [apply later_op, op_schedule_pending_open|intros _]. apply kept_bind; [by apply later_pop|intros [f|]].
  - apply kept_bind; [destruct f; (apply later_step, write_in_flight) || apply kept_mret|intros _].
    apply kept_bind; [apply later_step, write_codec|intros _]. apply later_ready; [apply later_step, write_socket|].
    apply kept_bind; [apply later_step, write_reclaim|done].
  - apply later_ready; [apply later_step, write_socket|].
    apply kept_bind; [apply later_step, write_reclaim|]. intros [|]; [done|apply kept_mret].
Qed.

Lemma later_poll_complete fuel codec cx :
  triple (fun x => L x /\ codec_sized x) (streams_poll_complete fuel codec cx : SE X () _) (fun _ => L) (fun _ => L).
Proof.
  unfold streams_poll_complete, p_poll_complete, ready.
  apply triple_bind with (Q := fun _ x => L x /\ codec_sized x).
  { apply kept_and; [apply later_step, write_updates|apply sized_r_poll_complete]. }
  intros [|]; [|by intros x [Hx _]].
  apply triple_bind with (Q := fun _ => L).
  - apply triple_bind with (Q := fun _ x => L x /\ codec_sized x).
    { apply kept_and; [apply later_step, write_socket|apply sized_poll_ready]. }
    intros [|]; [|by intros x [Hx _]].
    apply triple_bind with (Q := fun _ x => L x /\ codec_sized x).
    { apply kept_and; [apply later_step, write_reclaim|apply sized_reclaim_frame]. }
    intros _ x [Hx Hs]. rewrite bind_gets. by apply later_send_frames.
  - intros [|]; [|apply kept_mret]. apply kept_bind; [apply later_step, write_task|intros _; apply kept_mret].
Qed.
End Writing.

(** [Streams::poll_complete], over any codec and socket and whether it returns, waits or
    fails, leads from a state of a history to a state of the same history with at least
    as much data taken. *)
Lemma poll_complete_in_history target granted sent fuel codec cx w cs w' cs' r :
  history target granted sent w -> 0 <= Codec_max_send_frame_size cs.1 ->
  streams_poll_complete fuel codec cx (w, cs) = ((w', cs'), r) -> r <> Panic ->
  exists sent', sent <= sent' /\ history target granted sent' w'.
Proof.
  intros Hh Hm Hr Hp. apply (triple_run _ _ _ _ _ _ (later_poll_complete target granted sent fuel codec cx)) in Hr; [exact Hr| |done].
  split; [by exists sent|done].
Qed.

(** An empty frame on a negative window panics.  The scheduler takes it that frames
    without data can always be sent, but in every reachable state, when the peer has
    lowered a stream's window below zero, taking an empty DATA frame (the end of a
    body) fails the assertion of [FlowControl::send_data], whatever the frame size. *)
Theorem empty_data_panics {E} target granted sent w key s (frame : Data T) max_len :
  history target granted sent w -> index key (w_store w) = Some s ->
  send_window s < 0 -> remaining (data_data frame) = 0 -> 0 <= max_len ->
  (pop_data frame max_len key w : W * outcome E _).2 = Panic.
Proof.
  intros Hh Hi Hs H0 Hm. pose proof (accounted_stream (history_accounted _ _ _ _ Hh) Hi) as [Hwf Hcap _ _ _ _ _].
  unfold pop_data. rewrite (bind_eq _ _ _ w s) by (by apply stream_eq). cbv zeta. rewrite H0. simpl.
  rewrite as_size_cap by (done || lia). rewrite !Z.min_l by lia. change (as_u32 0) with 0.
  unfold FlowControl.send_data. destruct (Window.size_le 0 (window_size (s_send_flow s))) eqn:Hle; [|done].
  apply Window.size_le_spec in Hle; [|apply Hwf|done]. unfold send_window, credit in Hs. lia.
Qed.
End Conservation.
