(* ===== verification/H2ConnectionCorrect.v ===== *)
(** * What a connection keeps

    The invariants of the parts of a connection — the streams, the codec's frame size,
    the reader, the settings — and that each step of [H2Control.v] and [H2Connection.v]
    keeps them.

    The second part is the connection task as a whole. *)

From S2P Require Import Prelude Bytes H2Types FlowControl StreamState Slab HttpTypes HpackTable Frames HeadersFrame.
From S2P Require Import Codec LengthDelimitedCorrect FramedRead FramedWrite H2Codec FrameStream H2Buffer H2Store.
From S2P Require Import H2World H2Send H2Recv H2Streams H2Poll H2Control H2Connection H2Account H2AccountSend.
From S2P Require Import H2AccountPrioritize H2Input H2Peer H2AccountPoll H2Conservation.

Lemma kept_all {S E A} (I I' : S -> Prop) (c : SE S E A) : kept I c -> kept I' c -> kept (fun s => I s /\ I' s) c.
Proof. intros Hc Hc' s [Hs Hs']. specialize (Hc s Hs). specialize (Hc' s Hs'). by destruct (c s) as [s' [x|e|]]. Qed.

Section Inv.
Context `{HM : HeaderMapOps} {HI : HeaderMapIntoIter (HM:=HM)} {NH : NameHasher (HT:=HT)} {UO : UriOps}.
Context `{BM : BytesMut B} `{TB : Buf T}.
Context {Ss Im Bf Rf : Type} {SS : Slab Stream Ss} {IM : IndexMap StreamId nat Im}.
Context {SB : Slab (Slot (Frame (B:=T))) Bf} {RB : Slab (Slot (Event (B:=B))) Rf}.
Context {Aw : Type} {AW : AtomicWaker Aw}.
Abbreviation W := (World Ss Im Bf Rf).
Abbreviation C := (H2Codec.Codec (B:=B) (T:=Prioritized T)).
Abbreviation X := (W * (C * Socket))%type.

(** ** The codec *)
Section Codec.
Context (input : list ReadAnswer) (left : Z).

(** The codec is in order: the frame size it sends with, and its reader, which has at
    most [left] bytes to read. *)
Definition codec_ok (cd : C) : Prop :=
  sized (cd_write cd) /\ reader_ok (cd_read cd) input /\ unread (cd_read cd) input <= left.
Abbreviation K := (fun x : X => codec_ok x.2.1).

Lemma codec_on_world {A} (c : SE W () A) : kept K (on_world c : SE X () A).
Proof. intros [w cs] Hx. unfold on_world, zoom. simpl. by destruct (c w) as [w' [x|e|]]. Qed.
Lemma codec_on_write {E A} (c : SE _ E A) : kept sized c -> kept codec_ok (on_write c : SE C E A).
Proof.
  intros Hc cd [Hs Hr]. specialize (Hc _ Hs). unfold on_write, zoom. simpl in *. by destruct (c (cd_write cd)) as [fw [x|e|]].
Qed.
Lemma codec_on_codec {E A} (c : SE C E A) : kept codec_ok c -> kept K (on_codec c : SE X () A).
Proof. intros Hc [w [cd so]] Hx. specialize (Hc cd Hx). unfold on_codec. simpl. by destruct (c cd) as [cd' [x|e|]]. Qed.
Lemma codec_on_socket {A} (c : SE (FramedWrite (B:=B) (T:=Prioritized T) * Socket) () A) :
  kept (fun st => sized st.1) c -> kept K (on_socket (with_socket c) : SE X () A).
Proof.
  intros Hc [w [cd so]] [Hs Hr]. specialize (Hc (cd_write cd, so) Hs). unfold on_socket, with_socket, zoom. simpl in *.
  by destruct (c (cd_write cd, so)) as [[fw so'] [x|e|]].
Qed.
Lemma codec_buffer item : kept codec_ok (Codec_buffer item : SE C _ _).
Proof. apply codec_on_write, kept_fw_buffer. Qed.
Lemma codec_poll_ready n : kept K (H2Poll.poll_ready n : SE X () _).
Proof. apply codec_on_socket, kept_fw_poll_ready. Qed.
Lemma codec_flush n : kept K (H2Poll.flush n : SE X () _).
Proof. apply codec_on_socket, kept_fw_flush. Qed.
Lemma codec_shutdown n : kept K (on_socket (Codec_shutdown n) : SE X () _).
Proof.
  apply codec_on_socket. apply kept_when_ready; [apply kept_fw_flush|]. intros [w so] Hw. unfold poll_socket. simpl in *.
  by destruct (next_answer so) as [[] l].
Qed.

Create HintDb codec.
#[local] Hint Resolve codec_on_world codec_poll_ready codec_flush codec_on_codec codec_buffer : codec.
Ltac codec_step :=
  match goal with
  | |- forall _, _ => intros
  | H : kept _ ?c |- kept _ ?c => exact H
  | |- kept _ (H2Poll.ready _ _) => unfold H2Poll.ready
  | |- kept _ (_ ≫= _) => apply kept_bind
  | |- kept _ (let _ := _ in _) => cbv zeta
  | |- kept _ (match ?x with _ => _ end) => destruct x
  | |- kept _ _ => solve [auto 3 with codec kept nocore]
  end.
Ltac codec_tac := repeat codec_step.

Lemma codec_reclaim_frame : kept K (reclaim_frame : SE X () bool).
Proof.
  unfold reclaim_frame. apply kept_bind; [apply codec_on_codec, codec_on_write; by intros w Hw|]. unfold set_in_flight. codec_tac.
Qed.
#[local] Hint Resolve codec_reclaim_frame : codec.
Lemma codec_send_frames fuel n max_len : kept K (send_frames fuel n max_len : SE X () _).
Proof. induction fuel as [|fuel IH]; cbn [send_frames]; unfold set_in_flight; codec_tac. Qed.
Lemma codec_send_stream_window_updates fuel n : kept K (send_stream_window_updates fuel n : SE X () _).
Proof. induction fuel as [|fuel IH]; cbn [send_stream_window_updates]; unfold send_stream_window_update; codec_tac. Qed.
#[local] Hint Resolve codec_send_frames codec_send_stream_window_updates : codec.
Lemma codec_poll_complete fuel n cx : kept K (streams_poll_complete fuel n cx : SE X () _).
Proof. unfold streams_poll_complete, r_poll_complete, p_poll_complete, send_connection_window_update. codec_tac. Qed.
Lemma codec_send_pending_refusal n : kept K (send_pending_refusal n : SE X () _).
Proof. unfold send_pending_refusal. codec_tac. Qed.

(** The limits that acknowledged settings change. *)
Lemma codec_set_max_send val : kept codec_ok (Codec_set_max_send_frame_size val : SE C _ _).
Proof.
  apply codec_on_write. intros w Hw. unfold fw_set_max_frame_size, mbind, SE_bind. simpl. destruct (_ <=? _); simpl; [|done].
  unfold sized. simpl. by apply (wrapu_range 32).
Qed.
Lemma codec_set_max_recv val : kept codec_ok (Codec_set_max_recv_frame_size val : SE C _ _).
Proof.
  intros cd (Hs & (Hd & Hb) & Hl). unfold Codec_set_max_recv_frame_size, on_read, rd_set_max_frame_size, zoom, mbind, SE_bind. simpl.
  destruct (_ && _) eqn:Hv; simpl; [|done]. apply andb_true_iff in Hv as [Hv1 Hv2]. apply Z.leb_le in Hv1, Hv2.
  change DEFAULT_MAX_FRAME_SIZE with (2 ^ 14) in Hv1. change MAX_MAX_FRAME_SIZE with (2 ^ 24 - 1) in Hv2.
  split; [done|]. split; [|done]. split; [|done]. destruct Hd as [(mx & Hmx & Hbd) Hst]. split; [|done]. exists val. split; [lia|].
  simpl. unfold LengthDelimitedCodec_set_max_frame_length. simpl. by rewrite Hbd.
Qed.
Lemma codec_set_max_list val : kept codec_ok (Codec_set_max_recv_header_list_size val : SE C _ _).
Proof. by intros cd Hc. Qed.
End Codec.

(** ** The streams

    What the connection task needs of an invariant of the streams. *)
Class StreamsInv (P : Dyn) (L : W -> Prop) : Prop := {
  si_op {E A} (c : SE W E A) : op c -> kept L c;
  si_recv_headers frame : kept L (recv_headers P frame : SE W _ _);
  si_recv_window_update frame :
    0 <= wu_size_increment frame <= MAX_WINDOW_SIZE -> kept L (recv_window_update frame : SE W _ _);
  si_write {A} (c : SE X () A) : write_step c -> kept (fun x => L x.1) c;
  si_poll_complete fuel n cx :
    triple (fun x => L x.1 /\ codec_sized x) (streams_poll_complete fuel n cx : SE X () _) (fun _ x => L x.1) (fun _ x => L x.1)
}.

(** Nothing. *)
#[export] Instance any_streams P : StreamsInv P (fun _ => True).
Proof.
  assert (forall S E A (c : SE S E A) (I : S -> Prop), triple I c (fun _ _ => True) (fun _ _ => True)) as H.
  { intros S E A c I s _. by destruct (c s) as [s' [x|e|]]. }
  split; intros; apply H.
Qed.

(** The streams of a client, in a state of some history. *)
Definition client_streams (target : Z) (w : W) : Prop :=
  peer_is Client w /\ exists granted sent, history target granted sent w.

Lemma peer_op {E A} (c : SE W E A) p : op c -> kept (peer_is p) c.
Proof.
  destruct 1; [apply peer_recv_headers|apply peer_recv_data|apply peer_recv_reset|apply peer_recv_push_promise|apply peer_recv_go_away
    |apply peer_recv_window_update|apply peer_apply_remote_settings|apply peer_apply_local_settings|apply peer_recv_err|apply peer_recv_eof
    |apply peer_send_go_away|apply peer_send_reset|apply peer_clear_expired|apply peer_schedule_pending_open|apply peer_push_back_frame|apply peer_woken
    |apply peer_next_incoming|apply peer_send_request|apply peer_poll_pending_open|apply peer_clone|apply peer_drop|apply peer_ref_send_data
    |apply peer_ref_send_trailers|apply peer_ref_send_reset|apply peer_ref_send_response|apply peer_ref_send_push_promise
    |apply peer_ref_take_request|apply peer_ref_reserve_capacity|apply peer_ref_poll_capacity|apply peer_ref_poll_reset
    |apply peer_ref_poll_response|apply peer_ref_poll_pushed|apply peer_ref_poll_data|apply peer_ref_poll_trailers
    |apply peer_ref_release_capacity|apply peer_ref_clear_recv_buffer|apply peer_ref_clone].
Qed.
Lemma peer_write {A} (c : SE X () A) p : write_step c -> kept (beside_peer p) c.
Proof.
  destruct 1; [apply peer_reclaim_frame|apply peer_set_in_flight|apply peer_send_pending_refusal|apply peer_r_poll_complete
    |apply peer_set_task|apply peer_on_socket|apply peer_on_codec].
Qed.

#[export] Instance client_streams_inv target : StreamsInv Client (client_streams target).
Proof.
  split.
  - intros E A c Hc w [Hw (g & s & Hh)]. pose proof (peer_op c Client Hc w Hw) as Hp. destruct (c w) as [w' [x|e|]] eqn:Hr; [| |done];
      (split; [done|]; exists g, s; eapply history_op; [exact Hh|exact Hc|exact Hr|done]).
  - intros frame w [Hw (g & s & Hh)]. pose proof (peer_recv_headers Client Client frame w Hw) as Hp.
    destruct (recv_headers Client frame w) as [w' [x|e|]] eqn:Hr; [| |done];
      (split; [done|]; exists g, s; eapply history_oversize; [exact Hh|by right|exact Hr|done]).
  - intros frame Hi w [Hw (g & s & Hh)]. pose proof (peer_recv_window_update Client frame w Hw) as Hp.
    destruct (recv_window_update frame w) as [w' [[]|e|]] eqn:Hr; [| |done]; (split; [done|]).
    + destruct (StreamId.is_zero (wu_stream_id frame)) eqn:Hz; [by eexists _, _; eapply history_window_update|].
      exists g, s. eapply history_op; [exact Hh|by apply op_recv_window_update|exact Hr|done].
    + exists g, s. by eapply history_window_update_err.
  - intros A c Hc [w cs] [Hw (g & s & Hh)]. pose proof (peer_write c Client Hc (w, cs) Hw) as Hp.
    destruct (c (w, cs)) as [[w' cs'] [x|e|]] eqn:Hr; [| |done]; (split; [done|]; exists g, s; by eapply history_write).
  - intros fuel n cx x [[Hw (g & s & Hh)] Hk]. pose proof (peer_poll_complete Client fuel n cx x Hw) as Hp.
    pose proof (later_poll_complete target g s fuel n cx x (conj (ex_intro _ s (conj (Z.le_refl s) Hh)) Hk)) as Hl.
    destruct (streams_poll_complete fuel n cx x) as [x' [y|e|]]; [| |done]; (split; [done|]);
      destruct Hl as (s' & _ & Hh'); by exists g, s'.
Qed.

Section Streams.
Context {P : Dyn} (L : W -> Prop) {HL : StreamsInv P L}.

Lemma wf_settings_ok f : Settings.wf f -> settings_ok f.
Proof. intros (_ & _ & _ & Hi & _) val Hv. rewrite Hv in Hi. simpl in Hi. rewrite max_window. lia. Qed.

(** ** Beside the codec *)
Context (input : list ReadAnswer) (left : Z).
Definition x_ok (x : X) : Prop := L x.1 /\ codec_ok input left x.2.1.

Lemma x_write {A} (c : SE X () A) : write_step c -> kept (fun x => codec_ok input left x.2.1) c -> kept x_ok c.
Proof. intros Hc Hd. apply kept_all; [by apply si_write|done]. Qed.
Lemma x_poll_ready n : kept x_ok (H2Poll.poll_ready n : SE X () _).
Proof. apply x_write; [apply write_socket|apply codec_poll_ready]. Qed.
Lemma x_shutdown n : kept x_ok (on_socket (Codec_shutdown n) : SE X () _).
Proof. apply x_write; [apply write_socket|apply codec_shutdown]. Qed.
Lemma x_refusal n : kept x_ok (send_pending_refusal n : SE X () _).
Proof. apply x_write; [apply write_refusal|apply codec_send_pending_refusal]. Qed.
Lemma x_poll_complete fuel n cx : kept x_ok (streams_poll_complete fuel n cx : SE X () _).
Proof.
  intros x [Hw Hk]. pose proof (codec_poll_complete input left fuel n cx x Hk) as Hc.
  pose proof (si_poll_complete fuel n cx x (conj Hw (proj1 Hk))) as Hl.
  by destruct (streams_poll_complete fuel n cx x) as [x' [y|e|]].
Qed.

(** ** Beside a control component *)
Section Beside.
Context {K0 E : Type} (J : K0 -> Prop).
Definition both (t : K0 * X) : Prop := J t.1 /\ x_ok t.2.

Lemma both_own {A} (f : K0 -> A) : triple both (own f : SE (K0 * X) E A) (fun a t => a = f t.1 /\ both t) (fun _ => both).
Proof. by intros t Ht. Qed.
Lemma both_set_own f : (forall k, J k -> J (f k)) -> kept both (set_own f : SE (K0 * X) E ()).
Proof. intros Hf t [Hj Hx]. split; [by apply Hf|done]. Qed.
Lemma both_streams {A} (c : SE W E A) : kept L c -> kept both (streams c : SE (K0 * X) E A).
Proof. intros Hc [k [w cs]] [Hj [Hw Hk]]. specialize (Hc w Hw). unfold streams, zoom. simpl in *. by destruct (c w) as [w' [x|e|]]. Qed.
Lemma both_codec {E' A} (c : SE C E' A) : kept (codec_ok input left) c -> kept both (codec c : SE (K0 * X) E A).
Proof.
  intros Hc [k [w [cd so]]] [Hj [Hw Hk]]. specialize (Hc cd Hk). unfold codec. simpl in *. by destruct (c cd) as [cd' [x|e|]].
Qed.
Lemma both_output {A} err (c : SE X () A) : kept x_ok c -> kept both (output err c : SE (K0 * X) E A).
Proof. intros Hc [k x] [Hj Hx]. specialize (Hc x Hx). unfold output. simpl in *. by destruct (c x) as [x' [y|e|]]. Qed.
Lemma both_ready err n : kept both (dst_ready err n : SE (K0 * X) E _).
Proof. apply both_output, x_poll_ready. Qed.
Lemma both_buffer frame : kept both (dst_buffer frame : SE (K0 * X) E _).
Proof. apply both_codec, codec_buffer. Qed.
Lemma both_then {A R} (c : SE (K0 * X) E (Async A)) (k : A -> SE (K0 * X) E (Async R)) :
  kept both c -> (forall a, kept both (k a)) -> kept both (and_then c k).
Proof. intros Hc Hk. apply kept_bind; [done|]. intros [a|]; [apply Hk|apply kept_mret]. Qed.
End Beside.

(** ** Settings *)

(** The settings that wait to be applied are in range. *)
Definition settings_inv (s : SettingsSync) : Prop := forall f, ss_remote s = Some f -> Settings.wf f.

Lemma recv_settings_inv frame : Settings.wf frame -> kept (both settings_inv) (recv_settings frame).
Proof.
  intros Hf. unfold recv_settings. destruct (Settings.is_ack frame).
  - apply kept_bind; [apply kept_gets|intros [l|l|]]; [apply kept_throw| |apply kept_throw].
    apply kept_bind; [destruct (max_frame_size l); [apply both_codec, codec_set_max_recv|apply kept_mret]|intros _].
    apply kept_bind; [destruct (max_header_list_size l); [apply both_codec, codec_set_max_list|apply kept_mret]|intros _].
    apply kept_bind; [apply both_streams, si_op, op_apply_local_settings|intros _]. by apply both_set_own.
  - apply kept_bind; [apply kept_gets|intros r]. apply kept_bind; [apply kept_lift|intros _].
    apply both_set_own. intros k _ f. simpl. congruence.
Qed.

Lemma poll_send_inv err n : kept (both settings_inv) (poll_send err n).
Proof.
  unfold poll_send. apply both_then.
  - unfold ack_remote. eapply triple_bind; [apply both_own|]. intros [f|]; [|by intros t [_ Ht]].
    intros t [Hf Ht]. assert (Settings.wf f) as Hwf by (by apply (proj1 Ht)). clear Hf. revert t Ht. apply both_then; [apply both_ready|intros _].
    apply kept_bind; [apply both_buffer|intros _].
    apply kept_bind; [destruct (max_frame_size f); [apply both_codec, codec_set_max_send|apply kept_mret]|intros _].
    apply kept_bind; [by apply both_streams, si_op, op_apply_remote_settings, wf_settings_ok|intros _]. apply kept_mret.
  - intros _. apply kept_bind; [apply both_set_own; by intros k _ f|intros _]. apply kept_bind; [apply kept_gets|intros [l|l|]]; [|apply kept_mret..].
    apply both_then; [apply both_ready|intros _]. apply kept_bind; [apply both_buffer|intros _].
    apply kept_bind; [by apply both_set_own|intros _]. apply kept_mret.
Qed.

(** ** Pings *)

(** Only a shutdown that has started has its ping on the way. *)
Definition pings_inv (going_away : bool) (p : PingPong Aw) : Prop :=
  forall g, pp_pending_ping p = Some g -> pg_payload g = Ping.SHUTDOWN /\ going_away = true.

(** The code of its own that a program runs keeps [J]. *)
Inductive owns {L0 E A} (J : L0 -> Prop) : Prog L0 E A -> Prop :=
  | owns_done r : owns J (Done r)
  | owns_do {R} (a : Access R) k : (forall r, owns J (k r)) -> owns J (Do a k)
  | owns_own {R} (c : SE L0 E R) k : kept J c -> (forall r, owns J (k r)) -> owns J (Own c k).

Lemma run_kept {L0 E A} (J : L0 -> Prop) (p : Prog L0 E A) :
  owns J p -> kept (fun s => J s.2) (run p : SE (UserPingsInner Aw * list Waker * L0) E A).
Proof.
  induction 1 as [r|R a k _ IH|R c k Hc _ IH]; cbn [run]; [apply kept_lift| |].
  - apply kept_bind; [|exact IH]. intros [m l] Hl. simpl. by destruct (perform a m).
  - apply kept_bind; [|exact IH]. intros [m l] Hl. specialize (Hc l Hl). unfold zoom. simpl. by destruct (c l) as [l' [x|e|]].
Qed.

Lemma users_inv {E A} ga u (c : Prog (C * Socket) E A) :
  owns (fun cs => codec_ok input left cs.1) c -> kept (both (pings_inv ga)) (users u c).
Proof.
  intros Hc [p [w cs]] [Hp [Hw Hk]]. unfold users. simpl in *.
  pose proof (run_kept (fun cs => codec_ok input left cs.1) c Hc (u, w_woken w, cs) Hk) as H.
  destruct (run c _) as [[[u' woken] cs'] r]. pose proof (si_op _ (op_woken (E:=()) woken) w Hw) as Hw'. simpl in *. by destruct r.
Qed.
Lemma owns_user_ping n cx : owns (fun cs => codec_ok input left cs.1) (send_user_ping n cx).
Proof.
  apply owns_do. intros st. simpl. destruct (_ =? _); [|by do 2 constructor]. apply owns_own; [|intros [a|]; simpl; [|constructor]].
  - intros [cd so] [Hs Hr]. pose proof (kept_fw_poll_ready n (cd_write cd, so) Hs) as H. unfold Codec_poll_ready, with_socket, zoom. simpl in *.
    by destruct (FramedWrite.poll_ready n _) as [[fw so'] [x|e|]].
  - apply owns_own; [|intros []; do 2 constructor].
    intros [cd so] Hk. pose proof (codec_buffer input left (FPing (Ping.new Ping.USER)) cd Hk) as H. unfold buffer_expect. simpl.
    by destruct (Codec_buffer _ cd) as [cd' [x|e|]].
Qed.
Lemma recv_ping_inv {E} ga ping :
  triple (both (pings_inv ga)) (recv_ping ping : SE _ E _)
    (fun r t => (is_shutdown r = true -> ga = true) /\ both (pings_inv ga) t) (fun _ => both (pings_inv ga)).
Proof.
  assert (triple (both (pings_inv ga)) (recv_user_pong ping : SE _ E _)
    (fun r t => (is_shutdown r = true -> ga = true) /\ both (pings_inv ga) t) (fun _ => both (pings_inv ga))) as Hu.
  { eapply triple_bind; [apply both_own|]. intros [u|] t [_ Ht]; [|done]. destruct (decide _); [|done]. revert t Ht.
    apply triple_bind with (Q := fun _ => both (pings_inv ga)); [apply users_inv|]; [|by intros _ t Ht].
    apply owns_do. intros st. simpl. destruct (_ =? _); by repeat constructor. }
  unfold recv_ping. eapply triple_bind; [apply both_own|]. intros pong t [_ Ht]. revert t Ht.
  apply triple_bind with (Q := fun _ => both (pings_inv ga)); [apply kept_lift|intros _].
  destruct (ping_ack ping); [|apply triple_bind with (Q := fun _ => both (pings_inv ga)); [by apply both_set_own|by intros _ t Ht]].
  eapply triple_bind; [apply both_own|]. intros pending t [Hp Ht]. pose proof (proj1 Ht) as Hi. unfold pings_inv in Hi. rewrite <- Hp in Hi.
  clear Hp. revert t Ht. apply triple_bind with (Q := fun _ => both (pings_inv ga)); [apply both_set_own; by intros k _ f|intros _].
  destruct pending as [g|]; [|exact Hu]. destruct (Hi g eq_refl) as [Hs Hg]. destruct (decide _).
  - apply triple_bind with (Q := fun _ => both (pings_inv ga)); [apply kept_lift|]. by intros _ t Ht.
  - apply triple_bind with (Q := fun _ => both (pings_inv ga)); [|intros _; exact Hu]. apply both_set_own. intros k _ f. simpl. by intros [= <-].
Qed.
Lemma send_pending_pong_inv ga n : kept (both (pings_inv ga)) (send_pending_pong n).
Proof.
  unfold send_pending_pong. apply kept_bind; [apply kept_gets|intros pong]. apply kept_bind; [by apply both_set_own|intros _].
  destruct pong; [|apply kept_mret]. apply kept_bind; [apply both_ready|intros [a|]].
  - apply kept_bind; [apply both_buffer|intros _]. apply kept_mret.
  - apply kept_bind; [by apply both_set_own|intros _]. apply kept_mret.
Qed.
Lemma send_pending_ping_inv ga n cx : kept (both (pings_inv ga)) (send_pending_ping n cx).
Proof.
  unfold send_pending_ping. eapply triple_bind; [apply both_own|]. intros p t [Hp Ht]. pose proof (proj1 Ht) as Hi.
  unfold pings_inv in Hi. unfold id in Hp. rewrite <- Hp in Hi. clear Hp. revert t Ht.
  destruct (pp_pending_ping p) as [g|].
  - destruct (Hi g eq_refl). destruct (negb _); [|apply kept_mret]. apply both_then; [apply both_ready|intros _].
    apply kept_bind; [apply both_buffer|intros _]. apply kept_bind; [|intros _; apply kept_mret].
    apply both_set_own. intros k _ f. simpl. by intros [= <-].
  - destruct (pp_user_pings p); [|apply kept_mret]. apply users_inv, owns_user_ping.
Qed.

(** ** GOAWAY *)

(** The pending frame is the one that was recorded, and closing at once comes after one. *)
Definition away_inv (g : GoAwaySync) : Prop :=
  (forall f, gs_pending g = Some f -> gs_going_away g = Some (MkGoingAway (ga_last_stream_id f) (ga_error_code f))) /\
  (gs_close_now g = true -> is_going_away g = true).

Lemma send_pending_go_away_inv ga n :
  kept (both (fun g => is_going_away g = ga /\ away_inv g)) (send_pending_go_away n).
Proof.
  unfold send_pending_go_away. eapply triple_bind; [apply both_own|]. intros pending t [Hp Ht].
  pose (J := fun g => (is_going_away g = ga /\ away_inv g) /\ (forall f, pending = Some f -> is_going_away g = ga /\ away_inv (set_pending (Some f) g))).
  assert (both J (set_pending None t.1, t.2)) as HJ.
  { destruct t as [g x]. destruct Ht as [[Hg [H1 H2]] Hx]. simpl in *. split; [|done]. split; [by repeat split|].
    intros f ->. split; [done|]. split; [|done]. intros f' [= <-]. simpl. by apply H1. }
  unfold set_own. cbv beta. rewrite bind_modify. revert HJ. generalize (set_pending None t.1, t.2). clear t Hp Ht. intros t HJ.
  assert (forall A (c : SE (GoAwaySync * X) () A), kept (both J) c -> triple (both J) c (fun _ => both J)
    (fun _ => both (fun g => is_going_away g = ga /\ away_inv g))) as Hw.
  { intros A c Hc. eapply triple_conseq; [| | |exact Hc]; [done..|]. by intros e t' [[Hj _] Hx]. }
  revert t HJ. destruct pending as [f|].
  - eapply triple_bind; [apply Hw, both_ready|]. intros [a|].
    + eapply triple_bind; [apply Hw, both_buffer|]. by intros _ t [[Hj _] Hx].
    + intros t [[_ Hj] Hx]. rewrite bind_modify. destruct (Hj f eq_refl) as [Hg Ha]. by split.
  - intros t [[Hj _] Hx]. unfold own. rewrite bind_gets. by destruct (should_close_now _).
Qed.
End Streams.
End Inv.

(** * The connection task

    Every step of the task that runs a connection, over any socket and whatever the
    peer sends, keeps the invariants of the streams, the codec, the settings and the
    pings; so the theorems on flow control hold for a client connection as a whole, and
    the assertions of the control frames hold. *)

Section Correct.
Context `{HM : HeaderMapOps} {HI : HeaderMapIntoIter (HM:=HM)} {NH : NameHasher (HT:=HT)} {UO : UriOps}.
Context `{BM : BytesMut B} `{TB : Buf T}.
Context {Ss Im Bf Rf : Type} {SS : Slab Stream Ss} {IM : IndexMap StreamId nat Im}.
Context {SB : Slab (Slot (Frame (B:=T))) Bf} {RB : Slab (Slot (Event (B:=B))) Rf}.
Context {Aw : Type} {AW : AtomicWaker Aw}.
Abbreviation W := (World Ss Im Bf Rf).
Abbreviation C := (H2Codec.Codec (B:=B) (T:=Prioritized T)).
Abbreviation X := (W * (C * Socket))%type.
Abbreviation Conn := (Connection (B:=B) (T:=T) (Ss:=Ss) (Im:=Im) (Bf:=Bf) (Rf:=Rf) (Aw:=Aw)).

Section Kept.
Context {P : Dyn} (L : W -> Prop) {HL : StreamsInv P L}.

(** With at most [left] bytes to read. *)
Definition conn_inv (left : Z) (c : Conn) : Prop :=
  x_ok L (cn_input c) left (cn_x c) /\ settings_inv (cn_settings c) /\
  pings_inv (is_going_away (cn_go_away c)) (cn_ping_pong c) /\ away_inv (cn_go_away c).
Section At.
Context (left : Z).
Abbreviation I := (conn_inv left).

(** ** Running a component *)
Lemma inv_on_streams {E A} (c : SE W E A) : kept L c -> kept I (on_streams c : SE Conn E A).
Proof.
  intros Hc s ([Hw Hk] & Hs & Hp & Ha). specialize (Hc _ Hw). unfold on_streams, zoom. simpl in Hc.
  destruct (c (cn_streams s)) as [w' [x|e|]]; done.
Qed.
Lemma inv_op {E A} (c : SE W E A) : op c -> kept I (on_streams c : SE Conn E A).
Proof. intros Hc. by apply inv_on_streams, si_op. Qed.
Lemma inv_with_settings {E A} (c : SE (SettingsSync * X) E A) :
  (forall input, kept (both L input left settings_inv) c) -> kept I (with_settings c : SE Conn E A).
Proof.
  intros Hc s (Hx & Hs & Hp & Ha). specialize (Hc (cn_input s) (cn_settings s, cn_x s) (conj Hs Hx)). unfold with_settings, zoom.
  destruct (c _) as [[k [w [cd so]]] [x|e|]]; [| |done]; by destruct Hc.
Qed.
Lemma inv_with_ping_pong {E A} (c : SE (PingPong Aw * X) E A) (Q : A -> bool -> Prop) :
  (forall input ga, triple (both L input left (pings_inv ga)) c (fun a t => Q a ga /\ both L input left (pings_inv ga) t) (fun _ => both L input left (pings_inv ga))) ->
  triple I (with_ping_pong c : SE Conn E A) (fun a s => Q a (is_going_away (cn_go_away s)) /\ I s) (fun _ => I).
Proof.
  intros Hc s (Hx & Hs & Hp & Ha). specialize (Hc (cn_input s) _ (cn_ping_pong s, cn_x s) (conj Hp Hx)). unfold with_ping_pong, zoom.
  destruct (c _) as [[k [w [cd so]]] [x|e|]]; [|by destruct Hc|done]. by destruct Hc as [? [? ?]].
Qed.
Lemma kept_with_ping_pong {E A} (c : SE (PingPong Aw * X) E A) :
  (forall input ga, kept (both L input left (pings_inv ga)) c) -> kept I (with_ping_pong c : SE Conn E A).
Proof.
  intros Hc. eapply triple_conseq; [| | |apply (inv_with_ping_pong c (fun _ _ => True))]; [done|by intros a s [_ Hs]|done|].
  intros input ga. eapply triple_conseq; [| | |apply (Hc input ga)]; done.
Qed.
Lemma inv_with_go_away {E A} (c : SE (GoAwaySync * X) E A) :
  (forall input ga, kept (both L input left (fun g => is_going_away g = ga /\ away_inv g)) c) -> kept I (with_go_away c : SE Conn E A).
Proof.
  intros Hc s (Hx & Hs & Hp & Ha). specialize (Hc (cn_input s) _ (cn_go_away s, cn_x s) (conj (conj eq_refl Ha) Hx)). unfold with_go_away, zoom.
  destruct (c _) as [[k [w [cd so]]] [x|e|]]; [| |done]; destruct Hc as [[Hg Ha'] Hx']; simpl in Hg;
    (split; [done|]; split; [done|]; simpl; by rewrite Hg).
Qed.
Lemma inv_writing {E A} (err : E) (c : SE X () A) : (forall input, kept (x_ok L input left) c) -> kept I (writing err c : SE Conn E A).
Proof.
  intros Hc s (Hx & Hs & Hp & Ha). specialize (Hc _ _ Hx). unfold writing. destruct (c (cn_x s)) as [[w [cd so]] [x|e|]]; done.
Qed.
Lemma inv_try {E E' A} (f : E -> E') (c : SE Conn E A) : kept I c -> kept I (try f c).
Proof. intros Hc s Hs. specialize (Hc s Hs). unfold try. by destruct (c s) as [s' [x|e|]]. Qed.
Lemma kept_ready_then {E A R} (c : SE Conn E (Async A)) (k : A -> SE Conn E (Async R)) :
  kept I c -> (forall a, kept I (k a)) -> kept I (ready_then c k).
Proof. intros Hc Hk. apply kept_bind; [done|]. intros [a|]; [apply Hk|apply kept_mret]. Qed.

(** An operation of [GoAway] keeps its records, and never takes a GOAWAY back. *)
Definition stays_away {E A} (c : SE GoAwaySync E A) : Prop :=
  forall g, away_inv g ->
    match c g with (_, Panic) => True | (g', _) => away_inv g' /\ (is_going_away g = true -> is_going_away g' = true) end.
Lemma inv_on_go_away {E A} (c : SE GoAwaySync E A) : stays_away c -> kept I (on_go_away c : SE Conn E A).
Proof.
  intros Hc s (Hx & Hs & Hp & Ha). unfold on_go_away, zoom. specialize (Hc (cn_go_away s) Ha).
  destruct (c (cn_go_away s)) as [g [x|e|]]; [| |done]; destruct Hc as [Ha' Hg];
    (split; [done|]; split; [done|]; split; [|done]; intros q Hq; destruct (Hp q Hq) as [? Hga]; split; [done|]; by apply Hg).
Qed.
Lemma stays_go_away {E} f : stays_away (gs_go_away f : SE GoAwaySync E ()).
Proof.
  intros g Hg. unfold gs_go_away, mbind, SE_bind. simpl.
  assert (away_inv (MkGoAwaySync (gs_close_now g) (Some (MkGoingAway (ga_last_stream_id f) (ga_error_code f)))
    (gs_is_user_initiated g) (Some f))) as Ha by (split; [by intros f' [= <-]|done]).
  destruct (gs_going_away g); simpl; [|done]. by destruct (id_le _ _).
Qed.
Lemma stays_go_away_now {E} f : stays_away (gs_go_away_now f : SE GoAwaySync E ()).
Proof.
  intros [cl away ui pd] [H1 H2]. unfold gs_go_away_now. rewrite bind_modify. simpl in *. unfold mbind at 1, SE_bind at 1. simpl.
  set (g' := MkGoAwaySync true away ui pd). destruct away as [w|].
  - assert (away_inv g') as Ha by done. destruct (decide _); [done|]. pose proof (stays_go_away (E:=E) f g' Ha) as H.
    destruct (gs_go_away f g') as [g2 [x|e|]]; [| |done]; (split; [apply H|]; intros _; by apply H).
  - unfold gs_go_away, mbind, SE_bind. simpl. split; [|done]. split; [by intros f' [= <-]|done].
Qed.
Lemma stays_go_away_from_user {E} f : stays_away (gs_go_away_from_user f : SE GoAwaySync E ()).
Proof.
  intros g Hg. unfold gs_go_away_from_user. rewrite bind_modify. cbn beta iota. set (g' := MkGoAwaySync _ _ true _).
  exact (stays_go_away_now f g' Hg).
Qed.

Lemma inv_go_away_frame {E} id e : kept I (cn_go_away_frame id e : SE Conn E ()).
Proof. apply kept_bind; [apply inv_op, op_send_go_away|intros _]. apply inv_on_go_away, stays_go_away. Qed.
Lemma inv_go_away_now {E} e : kept I (go_away_now e : SE Conn E ()).
Proof. apply kept_bind; [apply kept_gets|intros l]. apply inv_on_go_away, stays_go_away_now. Qed.

(** ** Polling *)
Section Poll.
Context (fuel : nat) (err : IoErrorKind) (cx : Waker).

Lemma inv_poll_ready : kept I (cn_poll_ready fuel err cx : SE Conn _ _).
Proof.
  unfold cn_poll_ready. apply kept_ready_then; [apply inv_try, kept_with_ping_pong; intros; apply (send_pending_pong_inv L)|intros _].
  apply kept_ready_then; [apply inv_try, kept_with_ping_pong; intros; apply (send_pending_ping_inv L)|intros _].
  apply kept_ready_then; [apply inv_with_settings; intros; apply (poll_send_inv L)|intros _].
  apply kept_ready_then; [apply inv_writing; intros; apply (x_refusal L)|intros _]. apply kept_mret.
Qed.
Lemma inv_poll_go_away : kept I (poll_go_away fuel err : SE Conn _ _).
Proof. apply inv_try, inv_with_go_away. intros. apply (send_pending_go_away_inv L). Qed.

(** A frame, in range, at the cost of nine bytes. *)
Lemma inv_poll_frame :
  triple I (poll_frame : SE Conn _ _)
    (fun r c => match r with Ready (Some f) => frame_in_range f /\ conn_inv (left - 9) c | _ => I c end) (fun _ => I).
Proof.
  intros c ((Hw & Hz & Hr & Hl) & Hs & Hp). unfold poll_frame, Codec_poll_next.
  pose proof (rd_poll_next_any (cn_input c) (cd_read (cn_codec c)) Hr) as H.
  destruct (rd_poll_next (cn_input c) (cd_read (cn_codec c))) as [[r input] x].
  assert (forall n, 0 <= n -> takes n (rd_inner (cd_read (cn_codec c))) (cn_input c) (rd_inner r) input ->
    conn_inv (left - n) (set_cn_input input (set_cn_codec (MkCodec r (cd_write (cn_codec c))) c))) as Hi.
  { intros n Hn [Hr' Ht]. split; [split; [done|split; [done|split; [done|]]]|done].
    change (unread r input <= left - n). change (unread (cd_read (cn_codec c)) (cn_input c) <= left) in Hl. unfold unread in *. lia. }
  pose proof (Hi 0) as Hi0. rewrite Z.sub_0_r in Hi0. specialize (Hi 9 ltac:(lia)). specialize (Hi0 ltac:(lia)).
  destruct x as [[[f|]|]|[]|]; simpl in H; try done; try (by apply Hi0).
  - destruct H. split; [done|by apply Hi].
  - apply Hi0. by eapply takes_less; [|exact H].
Qed.
Lemma inv_less n c : 0 <= n -> conn_inv (left - n) c -> I c.
Proof. intros Hn ((Hw & Hz & Hr & Hl) & Hs & Hp). split; [split; [done|split; [done|split; [done|lia]]]|done]. Qed.

Lemma inv_recv_frame frame : frame_in_range frame -> kept I (recv_frame P frame : SE Conn _ _).
Proof.
  intros Hf. destruct frame as [f|f|f|f|f|f|f|f|f]; simpl in Hf; cbn [recv_frame].
  - apply inv_op, op_recv_data.
  - apply inv_on_streams, si_recv_headers.
  - apply kept_mret.
  - apply inv_op, op_recv_push_promise.
  - apply inv_with_settings. intros. by apply (recv_settings_inv L).
  - eapply triple_bind; [apply (inv_with_ping_pong (recv_ping f) (fun r ga => is_shutdown r = true -> ga = true)); intros; apply (recv_ping_inv L)|].
    intros r. destruct (is_shutdown r); [|by intros s [_ Hs]]. intros s [_ Hs]. revert s Hs.
    apply kept_bind; [apply kept_gets|intros g]. apply kept_bind; [apply kept_lift|intros _].
    apply kept_bind; [apply kept_gets|intros l]. apply inv_go_away_frame.
  - apply kept_bind; [apply inv_op, op_recv_go_away|intros _]. by intros s Hs.
  - by apply inv_on_streams, si_recv_window_update.
  - apply inv_op, op_recv_reset.
Qed.

Lemma inv_poll2_round again : kept I again -> kept I (poll2_round P fuel err cx again : SE Conn _ _).
Proof.
  intros IH. unfold poll2_round.
  assert (kept I (ready_then (cn_poll_ready fuel err cx) (fun _ => ready_then poll_frame (fun frame =>
    match frame with Some frame => _ ← recv_frame P frame; again
    | None => _ ← on_streams (recv_eof false); mret (Ready tt) end)) : SE Conn _ _)) as Hgo.
  { apply kept_ready_then; [apply inv_poll_ready|intros _]. apply triple_bind with (Q := fun r c => match r with Ready (Some f) => frame_in_range f /\ I c | _ => I c end).
    { eapply triple_conseq; [| | |apply inv_poll_frame]; [done| |done]. intros [[f|]|] c Hc; [|done..].
      split; [apply Hc|]. apply (inv_less 9 c); [lia|apply Hc]. }
    intros [[f|]|].
    - intros s [Hf Hs]. revert s Hs. apply kept_bind; [by apply inv_recv_frame|intros _; exact IH].
    - apply kept_bind; [apply inv_op, op_recv_eof|intros _; apply kept_mret].
    - apply kept_mret. }
  apply kept_ready_then; [apply inv_poll_go_away|intros reason]. apply kept_bind; [apply kept_gets|intros g].
  destruct reason as [reason|]; [|exact Hgo]. destruct (should_close_now g); [|exact Hgo].
  destruct (gs_is_user_initiated g); [apply kept_mret|apply kept_throw].
Qed.
Lemma inv_poll2_loop rounds : kept I (poll2_loop P fuel err cx rounds : SE Conn _ _).
Proof. induction rounds as [|rounds IH]; [apply kept_panic|by apply inv_poll2_round]. Qed.
Lemma inv_poll2 rounds : kept I (poll2 P fuel err cx rounds : SE Conn _ _).
Proof. apply kept_bind; [apply inv_op, op_clear_expired|intros _; apply inv_poll2_loop]. Qed.

Lemma inv_set_state v {E} : kept I (modify (set_cn_state v) : SE Conn E ()).
Proof. by intros s Hs. Qed.

Lemma inv_poll_open rounds : kept I (poll_open P fuel err cx rounds : SE Conn _ _).
Proof.
  unfold poll_open. apply kept_bind.
  { intros s Hs. pose proof (inv_poll2 rounds s Hs) as H. unfold outcome_of. by destruct (poll2 _ _ _ _ _ s) as [s' [x|e|]]. }
  intros [[e|id reason|e]|[[]|]].
  - apply kept_bind; [apply kept_gets|intros g]. destruct (decide _).
    + apply kept_bind; [apply inv_set_state|intros _; apply kept_mret].
    + apply kept_bind; [apply inv_op, op_recv_err|intros _]. apply kept_bind; [apply inv_go_away_now|intros _; apply kept_mret].
  - apply kept_bind; [apply inv_op, op_send_reset|intros _; apply kept_mret].
  - apply kept_bind; [apply inv_op, op_recv_err|intros _; apply kept_throw].
  - apply kept_bind; [apply inv_set_state|intros _; apply kept_mret].
  - apply kept_bind; [apply inv_writing; intros; apply (x_poll_complete L)|intros [a|]]; [|apply kept_mret].
    apply kept_bind; [apply kept_get|intros c]. destruct (_ && _); [|apply kept_mret].
    apply kept_bind; [apply inv_go_away_now|intros _; apply kept_mret].
Qed.

Lemma inv_take_error r : kept I (take_error r : SE Conn _ _).
Proof.
  unfold take_error. apply kept_bind; [apply kept_gets|intros e]. apply kept_bind; [by intros s Hs|intros _]. cbv zeta.
  destruct (decide _); [apply kept_mret|apply kept_throw].
Qed.
Lemma inv_poll turns rounds : kept I (cn_poll P fuel err cx turns rounds : SE Conn _ _).
Proof.
  induction turns as [|turns IH]; cbn [cn_poll]; [apply kept_panic|]. apply kept_bind; [apply kept_gets|intros [|r|r]].
  - apply kept_bind; [apply inv_poll_open|intros [r|]]; [apply kept_mret|exact IH].
  - apply kept_ready_then; [apply inv_writing; intros; apply (x_shutdown L)|intros _].
    apply kept_bind; [apply inv_set_state|intros _; exact IH].
  - apply inv_take_error.
Qed.
End Poll.
End At.

(** ** The loop of [poll2] ends *)

(** Two continuations that agree on what [c] may return. *)
Lemma bind_agree {S E A R} (J : S -> Prop) (c : SE S E A) Q Rx (k k' : A -> SE S E R) s :
  triple J c Q Rx -> J s -> (forall a s', Q a s' -> k a s' = k' a s') -> (c ≫= k) s = (c ≫= k') s.
Proof.
  intros Hc Hs Hk. specialize (Hc s Hs). unfold mbind, SE_bind. destruct (c s) as [s' [a|e|]]; [|done..]. by apply Hk.
Qed.
Lemma ready_agree {E A R} (J : Conn -> Prop) (c : SE Conn E (Async A)) (k k' : A -> SE Conn E (Async R)) s Q Rx :
  triple J c (fun r s => match r with Ready a => Q a s | Pending => True end) Rx -> J s ->
  (forall a s', Q a s' -> k a s' = k' a s') -> ready_then c k s = ready_then c k' s.
Proof. intros Hc Hs Hk. eapply bind_agree; [exact Hc|exact Hs|]. intros [a|] s'; [apply Hk|done]. Qed.

(** A round of [poll2] in which the rounds after it, from states with nine bytes less to
    read, agree. *)
Lemma poll2_round_agree fuel err cx (again again' : SE Conn _ _) left (c : Conn) :
  (forall c, conn_inv (left - 9) c -> again c = again' c) -> conn_inv left c ->
  poll2_round P fuel err cx again c = poll2_round P fuel err cx again' c.
Proof.
  intros IH Hc. unfold poll2_round.
  assert (forall A (c : SE Conn RecvError (Async A)), kept (conn_inv left) c ->
    triple (conn_inv left) c (fun r s => match r with Ready _ => conn_inv left s | Pending => True end) (fun _ => conn_inv left)) as Hk.
  { intros A o Ho. eapply triple_conseq; [| | |exact Ho]; [done| |done]. by intros []. }
  eapply ready_agree; [apply Hk, inv_poll_go_away|exact Hc|]. intros reason c1 Hc1. rewrite !bind_gets.
  assert (forall c, conn_inv left c -> ready_then (cn_poll_ready fuel err cx) (fun _ => ready_then poll_frame (fun frame =>
    match frame with Some frame => _ ← recv_frame P frame; again
    | None => _ ← on_streams (recv_eof false); mret (Ready tt) end)) c =
    ready_then (cn_poll_ready fuel err cx) (fun _ => ready_then poll_frame (fun frame =>
    match frame with Some frame => _ ← recv_frame P frame; again'
    | None => _ ← on_streams (recv_eof false); mret (Ready tt) end)) c) as Hgo.
  { intros c2 Hc2. eapply ready_agree; [apply Hk, inv_poll_ready|exact Hc2|]. intros a3 c3 Hc3.
    eapply ready_agree; [|exact Hc3|]. { eapply triple_conseq; [| | |apply (inv_poll_frame left)]; [done| |done].
      instantiate (1 := fun f c => match f with Some f => frame_in_range f /\ conn_inv (left - 9) c | None => True end).
      by intros [[]|]. }
    intros [f|] c4 Hf; [|done]. destruct Hf as [Hf Hc4]. eapply bind_agree; [by apply (inv_recv_frame (left - 9))|exact Hc4|].
    intros a5 c5 Hc5. by apply IH. }
  destruct reason; [|by apply Hgo]. destruct (should_close_now _); [done|by apply Hgo].
Qed.

(** The loop of [poll2] that does [out] when it has run [rounds] rounds. *)
Fixpoint poll2_loop_or fuel err cx (out : SE Conn RecvError (Async ())) (rounds : nat) : SE Conn RecvError (Async ()) :=
  match rounds with
  | O => out
  | S rounds => poll2_round P fuel err cx (poll2_loop_or fuel err cx out rounds)
  end.

Lemma poll2_loop_enough fuel err cx out rounds : forall left (c : Conn),
  conn_inv left c -> left < 9 * Z.of_nat rounds ->
  poll2_loop_or fuel err cx out rounds c = poll2_loop P fuel err cx rounds c.
Proof.
  induction rounds as [|rounds IH]; intros left c Hc Hl.
  { destruct Hc as ((_ & _ & _ & Hu) & _). unfold unread, ahead_of in Hu.
    pose proof (len_nonneg (buf_bytes (r2_buffer (rd_inner (cd_read (cn_x c).2.1))))). pose proof (len_nonneg (script_bytes (cn_input c))). lia. }
  cbn [poll2_loop_or poll2_loop]. apply (poll2_round_agree fuel err cx _ _ left); [|done].
  intros c' Hc'. apply (IH (left - 9)); [done|lia].
Qed.
End Kept.
End Correct.
