(* ===== verification/H2Reach.v ===== *)
(** * Connections

    The states that a connection reaches: created, polled over any socket, with the
    streams, the pings and the connection itself in the hands of the user in between.
    The theorems say what holds in all of them. *)

From S2P Require Import Prelude Bytes H2Types FlowControl StreamState Slab HttpTypes HpackTable Frames HeadersFrame Codec.
From S2P Require Import FramedRead FramedWrite H2Codec.
From S2P Require Import H2Buffer H2Store H2World H2Send H2Recv H2Streams H2Poll H2Control H2Connection.
From S2P Require Import H2Account H2AccountSend H2Input H2Peer H2AccountPoll H2Conservation H2ConnectionCorrect.

Section Reach.
Context `{HM : HeaderMapOps} {HI : HeaderMapIntoIter (HM:=HM)} {NH : NameHasher (HT:=HT)} {UO : UriOps}.
Context `{BM : BytesMut B} `{TB : Buf T}.
Context {Ss Im Bf Rf : Type} {SS : Slab Stream Ss} {IM : IndexMap StreamId nat Im}.
Context {SB : Slab (Slot (Frame (B:=T))) Bf} {RB : Slab (Slot (Event (B:=B))) Rf}.
Context {Aw : Type} {AW : AtomicWaker Aw}.
Abbreviation W := (World Ss Im Bf Rf).
Abbreviation C := (H2Codec.Codec (B:=B) (T:=Prioritized T)).
Abbreviation X := (W * (C * Socket))%type.
Abbreviation Conn := (Connection (B:=B) (T:=T) (Ss:=Ss) (Im:=Im) (Bf:=Bf) (Rf:=Rf) (Aw:=Aw)).

(** What the user does with the connection. *)
Inductive conn_op : forall {E A : Type}, SE Conn E A -> Prop :=
  | conn_initial_window size : conn_op (cn_set_initial_window_size size)
  | conn_user_pings {E} : conn_op (cn_take_user_pings : SE Conn E _)
  | conn_abrupt {E} e : conn_op (go_away_from_user e : SE Conn E _)
  | conn_maybe_close {E} : conn_op (maybe_close_connection_if_no_streams : SE Conn E _)
  | conn_graceful {E} : conn_op (go_away_gracefully : SE Conn E _).

(** What the user does with the handle of the pings. *)
Definition by_user {E A} u (o : Prog () E A) : SE (PingPong Aw * X) E A := fun t =>
  let '((u, woken), _, r) := run o ((u, w_woken t.2.1), ()) in
  ((set_user_pings (Some u) t.1, (set_woken woken t.2.1, t.2.2)), r).

(** The parts of a round of [poll2] that take no frame. *)
Inductive round_part : forall {A : Type}, SE Conn RecvError A -> Prop :=
  | part_go_away fuel err : round_part (poll_go_away fuel err)
  | part_ready fuel err cx : round_part (cn_poll_ready fuel err cx).

(** [reach P target c]: the connection of a client or a server ([P]) is in the state [c],
    between two polls or between two parts of a round of [poll2], and its user wants the
    receive window [target].  A socket may deliver anything, and the user may do anything
    with handles and pings in between; a handle is dropped while every reservation of
    capacity is granted. *)
Inductive reach (P : Dyn) : Z -> Conn -> Prop :=
  | reach_new {E} codec config now input output c :
      codec_ok input (2 ^ 64) codec -> Connection_new P codec config now input output = (Ok c : outcome E _) ->
      reach P DEFAULT_INITIAL_WINDOW_SIZE c
  | reach_poll fuel err cx turns rounds target c c' r :
      reach P target c -> cn_poll P fuel err cx turns rounds c = (c', r) -> r <> Panic -> reach P target c'
  | reach_part {A} (o : SE Conn RecvError A) target c c' r :
      reach P target c -> round_part o -> o c = (c', r) -> r <> Panic -> reach P target c'
  | reach_frame f target c c1 c' r :
      reach P target c -> poll_frame c = (c1, Ok (Ready (Some f))) -> recv_frame P f c1 = (c', r) -> r <> Panic ->
      reach P target c'
  | reach_streams {E A} (o : SE W E A) target c c' r :
      reach P target c -> op o -> on_streams o c = (c', r) -> r <> Panic -> reach P target c'
  | reach_drop {E} key target c c' (r : outcome E ()) :
      reach P target c -> all_granted (cn_streams c) -> on_streams (drop_stream_ref key) c = (c', r) -> r <> Panic ->
      reach P target c'
  | reach_target {E} size target c c' (r : outcome E ()) :
      reach P target c -> 0 <= size <= MAX_WINDOW_SIZE -> set_target_window_size size c = (c', r) -> r <> Panic ->
      reach P size c'
  | reach_conn {E A} (o : SE Conn E A) target c c' r :
      reach P target c -> conn_op o -> o c = (c', r) -> r <> Panic -> reach P target c'
  | reach_ping {E A} u (o : Prog () E A) target c c' r :
      reach P target c -> with_ping_pong (by_user u o) c = (c', r) -> r <> Panic -> reach P target c'
  | reach_socket input output target c :
      reach P target c -> reader_ok (cd_read (cn_codec c)) input ->
      reach P target (set_cn_input input (set_cn_output output c)).

(** ** Invariants of the reached states *)

Section Inv.
Context {P : Dyn} (L : W -> Prop) {HL : StreamsInv P L}.
Abbreviation I := (conn_inv L (2 ^ 64)).

Lemma inv_graceful {E} : kept I (go_away_gracefully : SE Conn E _).
Proof.
  unfold go_away_gracefully. apply kept_bind; [apply kept_gets|intros g]. destruct (is_going_away g); [apply kept_mret|].
  apply triple_bind with (Q := fun _ c => I c /\ is_going_away (cn_go_away c) = true).
  - intros c Hc. pose proof (inv_go_away_frame L (2 ^ 64) (E:=E) StreamId.MAX NO_ERROR c Hc) as H. unfold cn_go_away_frame, mbind, SE_bind in *.
    destruct (on_streams (send_go_away StreamId.MAX) c) as [c1 [x|e|]]; [|done..].
    unfold on_go_away, zoom, gs_go_away, mbind, SE_bind in *. simpl in *.
    destruct (gs_going_away (cn_go_away c1)) as [y|]; simpl in *; [|done]. by destruct (assert_ _); simpl in *.
  - intros _ c [(Hx & Hs & Hp & Ha) Hg]. unfold zoom, ping_shutdown, mbind, SE_bind. simpl. destruct (assert_ _); simpl; [|done..].
    split; [done|]. split; [done|]. split; [|done]. intros q. simpl. by intros [= <-].
Qed.

Lemma inv_conn_op {E A} (o : SE Conn E A) : conn_op o -> kept I o.
Proof.
  destruct 1 as [size|E|E e|E|E].
  - unfold cn_set_initial_window_size. cbv zeta. intros c (Hx & Hs & Hp & Ha). unfold zoom, send_settings, mbind, SE_bind. simpl.
    by destruct (ss_local (cn_settings c)).
  - intros c (Hx & Hs & Hp & Ha). unfold cn_take_user_pings, zoom, take_user_pings, mbind, SE_bind. simpl.
    by destruct (pp_user_pings (cn_ping_pong c)).
  - apply kept_bind; [apply kept_gets|intros l]. apply kept_bind; [apply inv_on_go_away, stays_go_away_from_user|intros _].
    apply kept_bind; [apply (inv_op L), op_recv_err|intros _; apply kept_mret].
  - apply kept_bind; [apply kept_gets|intros h]. destruct (negb h); [apply inv_go_away_now|apply kept_mret].
  - apply inv_graceful.
Qed.

Lemma inv_by_user {E A} ga u (o : Prog () E A) input left : kept (both L input left (pings_inv ga)) (by_user u o).
Proof.
  intros [p [w cs]] [Hp [Hw Hk]]. unfold by_user. simpl in *. destruct (run o _) as [[[u' woken] cs'] r].
  pose proof (si_op _ (op_woken (E:=()) woken) w Hw) as Hw'. simpl in *. by destruct r.
Qed.

Lemma inv_round_part {A} (o : SE Conn RecvError A) : round_part o -> kept I o.
Proof. destruct 1; [apply (inv_poll_go_away L (2 ^ 64))|apply (inv_poll_ready L (2 ^ 64))]. Qed.
Lemma inv_frame f (c c1 c' : Conn) r :
  I c -> poll_frame c = (c1, Ok (Ready (Some f))) -> recv_frame P f c1 = (c', r) -> r <> Panic ->
  frame_in_range f /\ I c1 /\ I c'.
Proof.
  intros Hc Hf Hr Hp. pose proof (inv_poll_frame L (2 ^ 64) c Hc) as H. rewrite Hf in H. destruct H as [Hin H1].
  apply (inv_less L (2 ^ 64)) in H1; [|lia]. split; [done|]. split; [done|].
  by eapply triple_run; [apply (inv_recv_frame L (2 ^ 64))|..].
Qed.

Lemma inv_socket input output (c : Conn) :
  I c -> reader_ok (cd_read (cn_codec c)) input -> I (set_cn_input input (set_cn_output output c)).
Proof.
  intros ([Hw [Hz _]] & Hs & Hp) Hr. split; [|done]. split; [done|]. split; [done|]. split; [done|].
  destruct Hr as (_ & _ & _ & Hl). unfold unread. simpl. lia.
Qed.
End Inv.

(** A family of invariants of the streams, by the target of the receive window. *)
Section Family.
Context {P : Dyn} (L : Z -> W -> Prop) {HL : forall target, StreamsInv P (L target)}.
Context (Hnew : forall E config now w, 0 <= remote_init_window_sz config <= MAX_WINDOW_SIZE ->
  Streams_new P config now = (Ok w : outcome E W) -> L DEFAULT_INITIAL_WINDOW_SIZE w).
Context (Htarget : forall E size target w w' (r : outcome E ()), L target w -> 0 <= size <= MAX_WINDOW_SIZE ->
  set_target_connection_window_size size w = (w', r) -> r <> Panic -> L size w').
Context (Hdrop : forall E key target w w' (r : outcome E ()), L target w -> all_granted w ->
  drop_stream_ref key w = (w', r) -> r <> Panic -> L target w').

Lemma on_streams_eq {E A} (o : SE W E A) (c c' : Conn) r :
  on_streams o c = (c', r) -> exists w', o (cn_streams c) = (w', r) /\ c' = set_cn_streams w' c.
Proof. unfold on_streams, zoom. destruct (o (cn_streams c)) as [w' r']. intros [= <- <-]. eauto. Qed.
Lemma inv_streams target target' w' (c : Conn) : conn_inv (L target) (2 ^ 64) c -> L target' w' -> conn_inv (L target') (2 ^ 64) (set_cn_streams w' c).
Proof. by intros ([_ Hk] & Hs & Hp) Hw. Qed.

Lemma reach_inv target (c : Conn) : reach P target c -> conn_inv (L target) (2 ^ 64) c.
Proof.
  induction 1 as [E codec config now input output c Hk Hc|fuel err cx turns rounds target c c' r _ IH Hr Hp
    |A o target c c' r _ IH Ho Hr Hp|f target c c1 c' r _ IH Hf Hr Hp|E A o target c c' r _ IH Ho Hr Hp|E key target c c' r _ IH Hg Hr Hp|E size target c c' r _ IH Hs Hr Hp
    |E A o target c c' r _ IH Ho Hr Hp|E A u o target c c' r _ IH Hr Hp|input output target c _ IH Hi].
  - unfold Connection_new in Hc. cbv zeta in Hc. apply outcome_bind_Ok in Hc as (w & Hw & [= <-]).
    split; [split; [|done]; by eapply Hnew; [|exact Hw]|]. by split; [intros ? ?|split; [intros ? ?|split]].
  - by eapply triple_run; [apply (inv_poll (L target))|..].
  - by eapply triple_run; [apply (inv_round_part (L target)), Ho|..].
  - by eapply (inv_frame (L target)) in Hr as (_ & _ & ?).
  - by eapply triple_run; [apply (inv_op (L target)), Ho|..].
  - apply on_streams_eq in Hr as (w' & Hr & ->). eapply inv_streams; [exact IH|]. eapply Hdrop; [apply IH|exact Hg|exact Hr|exact Hp].
  - apply on_streams_eq in Hr as (w' & Hr & ->). eapply inv_streams; [exact IH|]. eapply Htarget; [apply IH|exact Hs|exact Hr|exact Hp].
  - by eapply triple_run; [apply (inv_conn_op (L target)), Ho|..].
  - eapply triple_run; [apply (kept_with_ping_pong (L target)); intros; apply (inv_by_user (L target))|exact IH|exact Hr|exact Hp].
  - by apply inv_socket.
Qed.
End Family.

Lemma reach_any P target (c : Conn) : reach P target c -> conn_inv (fun _ => True) (2 ^ 64) c.
Proof. apply (reach_inv (fun _ _ => True)); done. Qed.

Lemma reach_client target (c : Conn) : reach Client target c -> conn_inv (client_streams target) (2 ^ 64) c.
Proof.
  apply (reach_inv client_streams).
  - intros E config now w Hsz Hw. split; [|eexists _, _; by eapply history_new].
    unfold Streams_new in Hw. apply outcome_bind_Ok in Hw as (r & _ & Hw). by apply outcome_bind_Ok in Hw as (s & _ & [= <-]).
  - intros E size t w w' r [Hp (g & s & Hh)] Hs Hr Hn. split; [|eexists _, _; by eapply history_target].
    pose proof (peer_set_target Client (E:=E) size w Hp) as H. rewrite Hr in H. by destruct r.
  - intros E key t w w' r [Hp (g & s & Hh)] Hg Hr Hn. split; [|eexists _, _; by eapply history_drop].
    pose proof (peer_drop_stream_ref Client (E:=E) key w Hp) as H. rewrite Hr in H. by destruct r.
Qed.

(** ** The credit of the connection *)

(** What a received frame, and its result, add to the credit of the connection. *)
Definition granted_by (f : Frame (B:=B)) (r : outcome RecvError ()) : Z :=
  match f, r with
  | FWindowUpdate u, Ok _ => if StreamId.is_zero (wu_stream_id u) then wu_size_increment u else 0
  | _, _ => 0
  end.
Definition conn_credit (c : Conn) : Z := credit (p_flow (w_prio (cn_streams c))).

Section Credit.
Context (target granted sent : Z).
Abbreviation Jw := (history target granted sent).
Abbreviation Jc := (fun c : Conn => Jw (cn_streams c)).

Lemma credit_op {E A} (o : SE W E A) : op o -> kept Jw o.
Proof. intros Ho w Hh. destruct (o w) as [w' [x|e|]] eqn:Hr; [| |done]; by eapply history_op. Qed.
Lemma credit_on_streams {E A} (o : SE W E A) : kept Jw o -> kept Jc (on_streams o : SE Conn E A).
Proof. intros Ho c Hh. specialize (Ho (cn_streams c) Hh). unfold on_streams, zoom. by destruct (o (cn_streams c)) as [w' [x|e|]]. Qed.
Lemma credit_go_away_frame {E} id e : kept Jc (cn_go_away_frame id e : SE Conn E ()).
Proof.
  apply kept_bind; [apply credit_on_streams, credit_op, op_send_go_away|intros _].
  intros c Hh. unfold on_go_away, zoom. by destruct (gs_go_away _ _) as [g [x|e'|]].
Qed.
Lemma credit_settings frame : kept Jc (with_settings (recv_settings frame) : SE Conn _ _).
Proof.
  assert (kept (fun t : SettingsSync * X => Jw t.2.1) (recv_settings frame)) as H.
  { assert (forall E A (o : SE C E A), kept (fun t : SettingsSync * X => Jw t.2.1) (codec o : SE _ RecvError A)) as Hk.
    { intros E A o [k [w [cd so]]] Hh. unfold codec. simpl. by destruct (o cd) as [cd' [x|e|]]. }
    unfold recv_settings. destruct (Settings.is_ack frame).
    - apply kept_bind; [apply kept_gets|intros [l|l|]]; [apply kept_throw| |apply kept_throw].
      apply kept_bind; [destruct (max_frame_size l); [apply Hk|apply kept_mret]|intros _].
      apply kept_bind; [destruct (max_header_list_size l); [apply Hk|apply kept_mret]|intros _].
      apply kept_bind; [|intros _; by intros t Hh]. intros [k [w cs]] Hh. pose proof (credit_op _ (op_apply_local_settings l) w Hh) as H.
      unfold streams, zoom. simpl in *. by destruct (apply_local_settings l w) as [w' [x|e|]].
    - apply kept_bind; [apply kept_gets|intros r]. apply kept_bind; [apply kept_lift|intros _; by intros t Hh]. }
  intros c Hh. specialize (H (cn_settings c, cn_x c) Hh). unfold with_settings, zoom.
  by destruct (recv_settings frame _) as [[k [w cs]] [x|e|]].
Qed.
Lemma credit_ping ping : kept Jc (with_ping_pong (recv_ping ping) : SE Conn RecvError _).
Proof.
  assert (forall A u (o : Prog (C * Socket) RecvError A), kept (fun t : PingPong Aw * X => Jw t.2.1) (users u o)) as Hu.
  { intros A u o [k [w cs]] Hh. unfold users. destruct (run o _) as [[[u' woken] cs'] r]. simpl in *.
    pose proof (credit_op _ (op_woken (E:=()) woken) w Hh) as H. by destruct r. }
  assert (kept (fun t : PingPong Aw * X => Jw t.2.1) (recv_user_pong ping : SE _ RecvError _)) as Hp.
  { apply kept_bind; [apply kept_gets|intros [u|]]; [|apply kept_mret]. destruct (decide _); [|apply kept_mret].
    apply kept_bind; [apply Hu|intros _; apply kept_mret]. }
  assert (kept (fun t : PingPong Aw * X => Jw t.2.1) (recv_ping ping : SE _ RecvError _)) as H.
  { unfold recv_ping. apply kept_bind; [apply kept_gets|intros pp]. apply kept_bind; [apply kept_lift|intros _].
    destruct (ping_ack ping); [|apply kept_bind; [by intros t Hh|intros _; apply kept_mret]].
    apply kept_bind; [apply kept_gets|intros pg]. apply kept_bind; [by intros t Hh|intros _]. destruct pg as [g|]; [|exact Hp].
    destruct (decide _); [apply kept_bind; [apply kept_lift|intros _; apply kept_mret]|].
    apply kept_bind; [by intros t Hh|intros _; exact Hp]. }
  intros c Hh. specialize (H (cn_ping_pong c, cn_x c) Hh). unfold with_ping_pong, zoom.
  by destruct (recv_ping ping _) as [[k [w cs]] [x|e|]].
Qed.

(** A frame that grants no credit leaves the history as it is. *)
Lemma credit_other_frame f (c c' : Conn) r :
  peer_is Client (cn_streams c) -> Jc c -> frame_in_range f -> recv_frame Client f c = (c', r) -> r <> Panic ->
  (forall u, f = FWindowUpdate u -> StreamId.is_zero (wu_stream_id u) = false) -> Jc c'.
Proof.
  intros Hp Hh Hf Hr Hn Hu.
  assert (forall o : SE Conn RecvError (), kept Jc o -> o c = (c', r) -> Jc c') as Hk by (intros o Ho Hr'; exact (triple_run Jc o Jc c c' r Ho Hh Hr' Hn)).
  destruct f as [f|f|f|f|f|f|f|f|f]; cbn [recv_frame] in Hr.
  all: try (by eapply Hk; [|exact Hr]; auto using credit_on_streams, credit_op, op, credit_settings, kept_mret).
  - apply on_streams_eq in Hr as (w' & Hr & ->). eapply history_oversize; [exact Hh|by right|exact Hr|done].
  - eapply Hk; [|exact Hr]. apply kept_bind; [apply credit_ping|intros st]. destruct (is_shutdown st); [|apply kept_mret].
    apply kept_bind; [apply kept_gets|intros g]. apply kept_bind; [apply kept_lift|intros _].
    apply kept_bind; [apply kept_gets|intros l]. apply credit_go_away_frame.
  - eapply Hk; [|exact Hr]. apply kept_bind; [apply credit_on_streams, credit_op, op_recv_go_away|intros _; by intros s Hs].
Qed.
End Credit.

Lemma history_credit target granted sent w : history target granted sent w -> credit (p_flow (w_prio w)) = granted - sent.
Proof. intros Hh. destruct (history_accounted _ _ _ _ Hh) as (m & _ & Ha). exact (acc_credit Ha). Qed.

Lemma credit_frame target (c c1 c2 : Conn) f r :
  client_streams target (cn_streams c) -> poll_frame c = (c1, Ok (Ready (Some f))) -> frame_in_range f ->
  recv_frame Client f c1 = (c2, r) -> r <> Panic -> conn_credit c2 = conn_credit c + granted_by f r.
Proof.
  intros [Hp (g & s & Hh)] Hf Hin Hr Hn. assert (cn_streams c1 = cn_streams c) as Hs.
  { unfold poll_frame in Hf. destruct (Codec_poll_next _ _) as [[cd input] x]. by injection Hf as <- _. }
  rewrite <- Hs in Hp, Hh. unfold conn_credit. rewrite <- Hs, (history_credit _ _ _ _ Hh).
  assert (history target g s (cn_streams c2) -> granted_by f r = 0 -> credit (p_flow (w_prio (cn_streams c2))) = g - s + granted_by f r) as Hz.
  { intros Hh2 ->. rewrite (history_credit _ _ _ _ Hh2). lia. }
  assert ((forall u, f = FWindowUpdate u -> StreamId.is_zero (wu_stream_id u) = false) -> history target g s (cn_streams c2)) as Ho.
  { intros Hu. by eapply credit_other_frame. }
  destruct f as [f|f|f|f|f|f|f|u|f]; try (by apply Hz; [apply Ho|]).
  destruct (StreamId.is_zero (wu_stream_id u)) eqn:Hu.
  - apply on_streams_eq in Hr as (w' & Hr & ->). destruct r as [[]|e|]; [| |done].
    + simpl. rewrite Hu, (history_credit target (g + wu_size_increment u) s); [lia|by eapply history_window_update].
    + apply Hz; [|done]. by eapply history_window_update_err.
  - apply Hz; [apply Ho; by intros u' [= <-]|]. simpl. rewrite Hu. by destruct r.
Qed.

Lemma credit_writing target (c c1 : Conn) fuel err cx rounds r :
  client_streams target (cn_streams c) -> codec_sized (cn_x c) ->
  writing err (streams_poll_complete rounds fuel cx) c = (c1, r : outcome ProtoError _) -> r <> Panic ->
  0 <= conn_credit c1 <= conn_credit c.
Proof.
  intros [_ (g & s & Hh)] Hk Hr Hn. unfold writing in Hr.
  destruct (streams_poll_complete rounds fuel cx (cn_x c)) as [[w' cs'] r'] eqn:E0. injection Hr as <- <-.
  destruct (poll_complete_in_history target g s rounds fuel cx (cn_streams c) (cn_codec c, cn_output c) w' cs' r' Hh Hk E0) as (s' & Hs & Hh'); [by destruct r'|].
  change (conn_credit (set_cn_x (w', cs') c)) with (credit (p_flow (w_prio w'))). unfold conn_credit.
  rewrite (history_credit _ _ _ _ Hh), (history_credit _ _ _ _ Hh'). destruct (history_accounted _ _ _ _ Hh') as (m & _ & Ha).
  pose proof (acc_send Ha). pose proof (acc_send_available Ha). pose proof (cap_sum_nonneg Ha). lia.
Qed.

(** C2. The flow control of a whole connection.  A client connection is polled, over any
    socket that delivers any bytes, errors and ends, and its user drives it in any way
    (except that handles are dropped only while every reservation of capacity is
    granted).  Then, between two polls and within one: the DATA that may be sent without
    further credit, assigned to the streams or not, stays within the connection's send
    window, and the receive window is conserved.  Every frame that the connection decodes
    and handles moves the send window by exactly what it grants: a WINDOW_UPDATE of the
    connection that is accepted by its increment, every other frame and every frame that
    is refused by nothing; and writing only ever lowers it. *)
Theorem client_connection_flow target (c : Conn) :
  reach Client target c ->
  (exists m, holds (st_slab (w_store (cn_streams c))) m /\ 0 <= window_i32 (available (p_flow (w_prio (cn_streams c)))) /\
     window_i32 (available (p_flow (w_prio (cn_streams c)))) + map_sum cap m <= conn_credit c) /\
  window_i32 (available (rv_flow (w_recv (cn_streams c)))) + rv_in_flight_data (w_recv (cn_streams c)) = target /\
  (forall f c1 c2 r, poll_frame c = (c1, Ok (Ready (Some f))) -> recv_frame Client f c1 = (c2, r) -> r <> Panic ->
     conn_credit c2 = conn_credit c + granted_by f r) /\
  (forall fuel err cx rounds c1 r, writing err (streams_poll_complete rounds fuel cx) c = (c1, r : outcome ProtoError _) -> r <> Panic ->
     0 <= conn_credit c1 <= conn_credit c).
Proof.
  intros Hc. pose proof (reach_client target c Hc) as Hi. pose proof Hi as ([[Hp (g & s & Hh)] Hk] & _).
  change (history target g s (cn_streams c)) in Hh. assert (client_streams target (cn_streams c)) as Hcs by (split; [done|by exists g, s]).
  destruct (history_accounted _ _ _ _ Hh) as (m & Hm & Ha). split; [|split; [by destruct Ha|split]].
  - exists m. split; [done|]. pose proof (acc_credit Ha : conn_credit c = g - s). pose proof (acc_send Ha). pose proof (acc_send_available Ha).
    split; [done|lia].
  - intros f c1 c2 r Hf Hr Hn. destruct (inv_frame (client_streams target) f c c1 c2 r Hi Hf Hr Hn) as (Hin & _ & _).
    by eapply (credit_frame target).
  - intros fuel err cx rounds c1 r Hr Hn. eapply (credit_writing target); [exact Hcs|apply Hk|exact Hr|done].
Qed.

(** [poll2] that does [out] when its loop has run [rounds] rounds. *)
Definition poll2_or P fuel err cx (out : SE Conn RecvError (Async ())) rounds : SE Conn RecvError (Async ()) :=
  _ ← on_streams clear_expired_reset_streams;
  poll2_loop_or (P:=P) fuel err cx out rounds.

(** C15. The loop of [poll2] ends.  The model bounds its rounds, and panics beyond them;
    every round that goes on takes a frame of at least nine bytes, so that in a reachable
    connection a bound above a ninth of the unread bytes is never met, whatever these
    bytes are: the result is the same whatever is done beyond the bound. *)
Theorem poll2_terminates P target (c : Conn) fuel err cx rounds out :
  reach P target c -> unread (cd_read (cn_codec c)) (cn_input c) < 9 * Z.of_nat rounds ->
  poll2_or P fuel err cx out rounds c = poll2 P fuel err cx rounds c.
Proof.
  intros Hc Hl. set (left := unread (cd_read (cn_codec c)) (cn_input c)) in Hl.
  assert (conn_inv (fun _ => True) left c) as Hi.
  { destruct (reach_any P target c Hc) as ((Hw & Hz & Hr & _) & Hs). by split; [split; [|split; [|split]]|]. }
  eapply bind_agree; [apply (inv_op (P:=P) (fun _ => True) left), op_clear_expired|exact Hi|].
  intros a c' Hc'. by apply (poll2_loop_enough (fun _ => True) fuel err cx out rounds left).
Qed.

(** ** The assertions of the control frames *)

(** A component that a step beside it does not touch. *)
Lemma beside_kept {K0 E A} (J : K0 -> Prop) (err : E) (c : SE X () A) : kept (fun t => J t.1) (output err c : SE (K0 * X) E A).
Proof. intros [k x] Hj. unfold output. simpl. by destruct (c x) as [x' [y|e|]]. Qed.
Lemma codec_kept {K0 E E' A} (J : K0 -> Prop) (c : SE C E' A) : kept (fun t => J t.1) (codec c : SE (K0 * X) E A).
Proof. intros [k [w [cd so]]] Hj. unfold codec. simpl. by destruct (c cd) as [x' [y|e|]]. Qed.

Definition when {A S} (Q : S -> Prop) (r : Async A) (s : S) : Prop := match r with Ready _ => Q s | Pending => True end.

Lemma pong_sent n :
  triple (fun _ => True) (send_pending_pong n : SE (PingPong Aw * X) () _) (when (fun t => pp_pending_pong t.1 = None)) (fun _ _ => True).
Proof.
  unfold send_pending_pong. apply triple_bind with (Q := fun _ _ => True); [done|intros pong].
  apply triple_bind with (Q := fun _ t => pp_pending_pong t.1 = None); [by intros t _|intros _]. destruct pong; [|by intros t Ht].
  apply triple_bind with (Q := fun _ t => pp_pending_pong t.1 = None).
  { eapply triple_conseq; [| | |apply (beside_kept (fun p : PingPong Aw => pp_pending_pong p = None))]; done. }
  intros [a|]; [|by intros t _]. apply triple_bind with (Q := fun _ t => pp_pending_pong t.1 = None); [|by intros _ t Ht].
  eapply triple_conseq; [| | |apply (codec_kept (fun p : PingPong Aw => pp_pending_pong p = None))]; done.
Qed.
Lemma ping_keeps_pong n cx : kept (fun t => pp_pending_pong t.1 = None) (send_pending_ping n cx : SE (PingPong Aw * X) () _).
Proof.
  assert (forall E A u (o : Prog _ E A), kept (fun t => pp_pending_pong t.1 = None) (users u o : SE (PingPong Aw * X) E A)) as Hu.
  { intros E A u o t Ht. unfold users. destruct (run o _) as [[[u' l] cs] r]. by destruct r. }
  pose proof (fun E A => beside_kept (E:=E) (A:=A) (fun p : PingPong Aw => pp_pending_pong p = None)) as Hb.
  pose proof (fun E E' A => codec_kept (E:=E) (E':=E') (A:=A) (fun p : PingPong Aw => pp_pending_pong p = None)) as Hc.
  unfold send_pending_ping. apply kept_bind; [apply kept_gets|intros p]. destruct (pp_pending_ping p) as [g|].
  - destruct (negb _); [|apply kept_mret]. apply kept_bind; [apply Hb|intros [a|]]; [|apply kept_mret].
    apply kept_bind; [apply Hc|intros _]. apply kept_bind; [by intros t Ht|intros _; apply kept_mret].
  - destruct (pp_user_pings p); [apply Hu|apply kept_mret].
Qed.
Lemma settings_acked err n :
  triple (fun _ => True) (poll_send err n : SE (SettingsSync * X) _ _) (when (fun t => ss_remote t.1 = None)) (fun _ _ => True).
Proof.
  pose proof (fun E A => beside_kept (E:=E) (A:=A) (fun s => ss_remote s = None)) as Hb. pose proof (fun E E' A => codec_kept (E:=E) (E':=E') (A:=A) (fun s => ss_remote s = None)) as Hc.
  unfold poll_send. apply triple_bind with (Q := fun _ _ => True).
  { intros t _. by destruct (ack_remote err n t) as [t' [x|e|]]. }
  intros [a|]; [|by intros t _]. apply triple_bind with (Q := fun _ t => ss_remote t.1 = None); [by intros t _|intros _].
  apply triple_bind with (Q := fun _ t => ss_remote t.1 = None); [by intros t Ht|]. intros [l|l|]; [|by intros t Ht..].
  apply triple_bind with (Q := fun _ t => ss_remote t.1 = None); [eapply triple_conseq; [| | |apply Hb]; done|].
  intros [b|]; [|by intros t _]. apply triple_bind with (Q := fun _ t => ss_remote t.1 = None); [eapply triple_conseq; [| | |apply Hc]; done|].
  intros _. apply triple_bind with (Q := fun _ t => ss_remote t.1 = None); by intros t Ht || by intros _ t Ht.
Qed.

Lemma ready_cleared fuel err cx :
  triple (fun _ => True) (cn_poll_ready fuel err cx : SE Conn _ _)
    (when (fun c => pp_pending_pong (cn_ping_pong c) = None /\ ss_remote (cn_settings c) = None)) (fun _ _ => True).
Proof.
  unfold cn_poll_ready. apply triple_bind with (Q := when (fun c => pp_pending_pong (cn_ping_pong c) = None)).
  { intros c _. unfold try, with_ping_pong, zoom. pose proof (pong_sent fuel (cn_ping_pong c, cn_x c) I) as H.
    by destruct (send_pending_pong fuel _) as [[p x] [[]|e|]]. }
  intros [a|]; [|by intros c _]. apply triple_bind with (Q := when (fun c => pp_pending_pong (cn_ping_pong c) = None)).
  { intros c Hc. unfold try, with_ping_pong, zoom. pose proof (ping_keeps_pong fuel cx (cn_ping_pong c, cn_x c) Hc) as H.
    by destruct (send_pending_ping fuel cx _) as [[p x] [[]|e|]]. }
  intros [b|]; [|by intros c _]. apply triple_bind with (Q := when (fun c => pp_pending_pong (cn_ping_pong c) = None /\ ss_remote (cn_settings c) = None)).
  { intros c Hc. unfold with_settings, zoom. pose proof (settings_acked err fuel (cn_settings c, cn_x c) I) as H.
    by destruct (poll_send err fuel _) as [[p x] [[]|e|]]. }
  intros [d|]; [|by intros c _]. apply triple_bind with (Q := when (fun c => pp_pending_pong (cn_ping_pong c) = None /\ ss_remote (cn_settings c) = None)).
  { intros c Hc. unfold writing. by destruct (send_pending_refusal fuel (cn_x c)) as [x [[]|e|]]. }
  intros [e|]; by intros c Hc.
Qed.

Lemma recv_ping_returns {E} ga ping (t : PingPong Aw * X) :
  pp_pending_pong t.1 = None -> pings_inv ga t.1 ->
  exists t' r, recv_ping ping t = (t', Ok r : outcome E _) /\ (is_shutdown r = true -> ga = true).
Proof.
  intros Hp Hi.
  assert (forall t : PingPong Aw * X, exists t' r, recv_user_pong ping t = (t', Ok r : outcome E _) /\ (is_shutdown r = true -> ga = true)) as Hu.
  { intros t1. unfold recv_user_pong, own. rewrite bind_gets. destruct (pp_user_pings t1.1); [|by eexists _, _].
    destruct (decide _); [|by eexists _, _]. unfold users, mbind, SE_bind. simpl. unfold mbind, SE_bind. simpl.
    destruct (_ =? _); simpl; [|by eexists _, _]. unfold mbind, SE_bind. simpl. destruct (aw_wake _) as [? []]; by eexists _, _. }
  unfold recv_ping, own. rewrite bind_gets, Hp. change (assert_ (bool_decide (None = None))) with (Ok tt : outcome E ()). rewrite bind_lift_Ok.
  destruct (ping_ack ping); [|by eexists _, _]. rewrite bind_gets. unfold set_own. rewrite bind_modify.
  destruct (pp_pending_ping t.1) as [g|] eqn:Hg; [|apply Hu]. destruct (Hi g Hg) as [Hs Hga]. destruct (decide _).
  - rewrite bool_decide_true by done. change (assert_ true) with (Ok tt : outcome E ()). rewrite bind_lift_Ok. by eexists _, _.
  - rewrite bind_modify. apply Hu.
Qed.

(** C16. Four assertions of the control frames hold.  When [poll_ready] has returned ready, in
    whatever reachable state it was called: no PONG and no SETTINGS wait, so that a PING
    or SETTINGS frame is taken without failing the assertion that there is room for it;
    the acknowledged PING that is taken for that of a shutdown finds the connection going
    away; and while the connection is not going away no shutdown PING is pending, as
    [ping_shutdown] asserts.  (The assertion of [Recv::go_away] on the identifiers that
    are announced is not among them: after a GOAWAY of the peer it can fail.) *)
Theorem control_assertions P target (c c' : Conn) fuel err cx :
  reach P target c -> cn_poll_ready fuel err cx c = (c', Ok (Ready tt)) ->
  (forall ping, exists c2 r, with_ping_pong (recv_ping ping) c' = (c2, Ok r : outcome RecvError _) /\
     (is_shutdown r = true -> is_going_away (cn_go_away c2) = true)) /\
  (forall frame, Settings.is_ack frame = false -> exists c2, with_settings (recv_settings frame) c' = (c2, Ok tt)) /\
  (is_going_away (cn_go_away c') = false -> pp_pending_ping (cn_ping_pong c') = None).
Proof.
  intros Hc Hr. pose proof (reach_any P target c Hc) as Hi. pose proof (inv_poll_ready (P:=P) (fun _ => True) (2 ^ 64) fuel err cx c Hi) as Hi'.
  pose proof (ready_cleared fuel err cx c I) as [Hp Hs]%(fun H => eq_ind _ (fun x => match x with (w', Ok a) => when _ a w' | _ => True end) H _ Hr).
  rewrite Hr in Hi'. destruct Hi' as (_ & _ & Hpi & _). split; [|split].
  - intros ping. destruct (recv_ping_returns (E:=RecvError) _ ping (cn_ping_pong c', cn_x c') Hp Hpi) as (t & r & Ht & Hsd).
    unfold with_ping_pong, zoom. rewrite Ht. by eexists _, _.
  - intros frame Hf. unfold with_settings, zoom, recv_settings, own, set_remote, set_own. rewrite Hf, bind_gets. simpl. rewrite Hs.
    change (assert_ (bool_decide (None = None))) with (Ok tt : outcome RecvError ()). rewrite bind_lift_Ok. by eexists.
  - intros Hg. destruct (pp_pending_ping (cn_ping_pong c')) as [g|] eqn:Hq; [|done]. destruct (Hpi g Hq) as [_ ?]. congruence.
Qed.


(** ** Closing *)

(** The GOAWAY that waits in [g] is handed to the codec, after the codec has made room
    for it; without one the codec and the socket are left as they are. *)
Definition go_away_buffered n (g : GoAwaySync) (x x' : X) : Prop :=
  match gs_pending g with
  | Some f => exists cd, Codec_poll_ready n x.2 = ((cd, x'.2.2), Ok (Ready tt)) /\
      Codec_buffer (FGoAway f) cd = (x'.2.1, Ok tt)
  | None => x'.2 = x.2
  end.

(** [send_pending_go_away] of a connection that closes at once: the streams and the
    reader are left as they are; while the codec has no room the GOAWAY still waits. *)
Definition closed_with n (g : GoAwaySync) (x : X) (t : GoAwaySync * X) (r : outcome () (Async (option Reason))) : Prop :=
  t.2.1 = x.1 /\ cd_read t.2.2.1 = cd_read x.2.1 /\
  match r with
  | Ok (Ready reason) => t.1 = set_pending None g /\ go_away_buffered n g x t.2 /\
      reason = going_away_reason g /\ reason <> None
  | Ok Pending => t.1 = g
  | _ => True
  end.

Lemma codec_ready_reader n (cd cd' : C) so so' r :
  Codec_poll_ready n (cd, so) = ((cd', so'), r) -> cd_read cd' = cd_read cd.
Proof.
  unfold Codec_poll_ready, with_socket, zoom. simpl. destruct (FramedWrite.poll_ready n _) as [[fw so1] r1].
  by intros [= <- <- <-].
Qed.
Lemma codec_buffer_reader f (cd cd' : C) r : Codec_buffer f cd = (cd', r) -> cd_read cd' = cd_read cd.
Proof.
  unfold Codec_buffer, on_write, zoom. simpl. destruct (buffer f _) as [fw1 r1]. by intros [= <- <-].
Qed.

Lemma closing_go_away n g x :
  away_inv g -> gs_close_now g = true ->
  let '(t, r) := send_pending_go_away n (g, x) in closed_with n g x t r.
Proof.
  intros [H1 H2] Hc. specialize (H2 Hc). unfold send_pending_go_away, own, set_own. rewrite bind_gets, bind_modify. cbv beta.
  destruct g as [cl [w|] ui [f|]]; simpl in *; subst; try done. specialize (H1 f eq_refl). simplify_eq.
  unfold set_pending. simpl. destruct x as [w0 [cd so]].
  unfold mbind at 1, SE_bind at 1, dst_ready, output, H2Poll.poll_ready, on_socket, zoom. simpl.
  destruct (Codec_poll_ready n (cd, so)) as [[cd1 so1] r1] eqn:E1. pose proof (codec_ready_reader _ _ _ _ _ _ E1) as R1.
  destruct r1 as [[[]|]|e|]; simpl; [|done..].
  unfold mbind, SE_bind, dst_buffer, codec. simpl. destruct (Codec_buffer (FGoAway f) cd1) as [cd2 r2] eqn:E2.
  pose proof (codec_buffer_reader _ _ _ _ E2) as R2. unfold closed_with, go_away_buffered.
  destruct r2 as [[]|e|]; simpl; split_and!; try done; try congruence. simpl. by eauto.
Qed.

(** C17. A closing connection reads nothing.  Once a connection is to be closed at once
    (a connection error, an abrupt shutdown, no streams left), [poll2] takes no more
    frames from the socket, and does nothing to the streams but to forget the resets
    that have expired.  It waits, with its GOAWAY kept, until the codec has room for it,
    hands it to the codec once, and then ends: with the reason of the GOAWAY, or without
    an error when it is the user who is closing. *)
Theorem closing_reads_nothing P target (c c' : Conn) fuel err cx rounds w r :
  reach P target c -> gs_close_now (cn_go_away c) = true ->
  clear_expired_reset_streams (cn_streams c) = (w, Ok tt : outcome RecvError ()) ->
  poll2 P fuel err cx (S rounds) c = (c', r) -> r <> Panic ->
  cn_streams c' = w /\
  cn_input c' = cn_input c /\ cd_read (cn_codec c') = cd_read (cn_codec c) /\
  match r with
  | Ok Pending => cn_go_away c' = cn_go_away c
  | Ok (Ready _) => gs_is_user_initiated (cn_go_away c) = true /\
      cn_go_away c' = set_pending None (cn_go_away c) /\ go_away_buffered fuel (cn_go_away c) (cn_x c) (cn_x c')
  | Err (RecvConnection reason) => gs_is_user_initiated (cn_go_away c) = false /\ going_away_reason (cn_go_away c) = Some reason /\
      cn_go_away c' = set_pending None (cn_go_away c) /\ go_away_buffered fuel (cn_go_away c) (cn_x c) (cn_x c')
  | Err (RecvStream _ _) => False
  | Err (RecvIo e) => e = err
  | Panic => False
  end.
Proof.
  intros Hc Hn Hw Hr Hp. destruct (reach_any P target c Hc) as (_ & _ & _ & Ha).
  unfold poll2, mbind at 1, SE_bind at 1, on_streams at 1, zoom at 1 in Hr. rewrite Hw in Hr. clear Hw.
  cbn [poll2_loop] in Hr. unfold poll2_round in Hr.
  unfold ready_then at 1, poll_go_away, try, with_go_away, zoom, mbind at 1, SE_bind at 1 in Hr.
  pose proof (closing_go_away fuel (cn_go_away c) (w, (cn_codec c, cn_output c)) Ha Hn) as H.
  change (cn_go_away (set_cn_streams w c), cn_x (set_cn_streams w c)) with (cn_go_away c, (w, (cn_codec c, cn_output c))) in Hr.
  destruct (send_pending_go_away fuel _) as [[g [w1 [cd so]]] [[reason|]|e|]]; destruct H as (Hw & Hd & H); simpl in Hw, Hd, H; subst;
    [|by injection Hr as <- <-..].
  cbv beta iota delta [map_err] in Hr. rewrite bind_gets in Hr. destruct H as (-> & Hb & -> & Hne).
  destruct (going_away_reason (cn_go_away c)) as [reason|] eqn:Hre; [|done].
  cbv beta in Hr. unfold set_cn_go_away at 1 2 in Hr. cbn [cn_go_away fst snd] in Hr.
  replace (should_close_now (set_pending None (cn_go_away c))) with true in Hr by (unfold should_close_now, set_pending; simpl; by rewrite Hn).
  cbn [set_pending gs_is_user_initiated] in Hr.
  destruct (gs_is_user_initiated (cn_go_away c)) eqn:Hui; injection Hr as <- <-; by split_and!.
Qed.

(** A GOAWAY that is accepted lowers the largest identifier of a stream that the connection
    accepts from the peer to its own, although its identifier is about the streams of
    this side. *)
Lemma go_away_lowers_max (frame : GoAway) (w w' : W) :
  recv_go_away frame w = (w', Ok tt) -> rv_max_stream_id (w_recv w') = ga_last_stream_id frame.
Proof.
  unfold recv_go_away. cbv zeta. rewrite bind_gets. destruct (id_lt _ _); [done|]. unfold r_go_away.
  unfold mbind at 1, SE_bind at 1. rewrite bind_gets. destruct (assert_ _) as [[]|e|]; [|done..]. rewrite bind_lift_Ok. unfold on_recv, modify at 1.
  set (w1 := set_recv _ w). assert (recv_is (rv_in_flight_data (w_recv w1)) (ga_last_stream_id frame) w1) as H1 by done.
  match goal with |- (?c ≫= _) w1 = _ -> _ => assert (kept (recv_is (rv_in_flight_data (w_recv w1)) (ga_last_stream_id frame)) c) as Hk end.
  { unfold for_each. apply kept_bind; [apply kept_gets|intros n]. apply recv_for_each_from. intros key.
    apply kept_bind; [apply recv_on_store|intros s]. destruct (id_lt _ _); [apply recv_fail_stream|apply kept_mret]. }
  specialize (Hk w1 H1). unfold mbind, SE_bind. destruct (for_each _ _ w1) as [w2 [[]|e|]]; [|done..]. intros [= <-]. by destruct Hk.
Qed.

(** C40. A graceful shutdown after the peer's GOAWAY panics.  In every state of a connection
    that is not going away itself: when the peer's GOAWAY is accepted, with any
    identifier but the largest there is, [go_away_gracefully] fails the assertion that
    the identifier it announces, which is the largest, has not gone up. *)
Theorem graceful_after_goaway_panics P frame (c c' : Conn) :
  is_going_away (cn_go_away c) = false -> id_lt (ga_last_stream_id frame) StreamId.MAX = true ->
  recv_frame P (FGoAway frame) c = (c', Ok tt) -> (go_away_gracefully c' : Conn * outcome () ()).2 = Panic.
Proof.
  intros Hg Hm Hr. cbn [recv_frame] in Hr. unfold mbind, SE_bind in Hr. destruct (on_streams (recv_go_away frame) c) as [c1 [[]|e|]] eqn:E0; [|done..].
  apply on_streams_eq in E0 as (w' & E0 & ->). injection Hr as <-. apply go_away_lowers_max in E0.
  unfold go_away_gracefully, cn_go_away_frame, send_go_away, r_go_away. unfold mbind at 1, SE_bind at 1, gets at 1.
  change (cn_go_away (set_cn_error _ (set_cn_streams w' c))) with (cn_go_away c). rewrite Hg.
  assert (id_le StreamId.MAX (rv_max_stream_id (w_recv w')) = false) as Hle.
  { rewrite E0. unfold id_lt, id_le in *. lia. }
  unfold on_streams, zoom, mbind, SE_bind, gets, lift. simpl. by rewrite Hle.
Qed.
End Reach.
