(* ===== verification/H2Examples.v ===== *)
(** * A connection, step by step

    Concrete runs of the streams with a map for the slabs and a list for the index
    map: that the hypotheses of the theorems on histories hold in them, and runs in
    which the code does not do what it means to.

    The second part has connections over scripts of socket answers. *)

From S2P Require Import Prelude Bytes H2Types FlowControl StreamState Slab HttpTypes HpackTable Frames HeadersFrame.
From S2P Require Import Codec H1Head FramedRead FramedWrite H2Codec.
From S2P Require Import H2Buffer H2Store H2World H2Send H2Recv H2Streams H2Poll H2Control H2Pings H2Connection.
From S2P Require Import H2Account H2AccountPrioritize H2Input H2AccountPoll H2Conservation H2ConnectionCorrect H2Reach.
Import ModelSlab ModelHttp ModelHash ModelIndexMap ModelUri.

Module Example.
Abbreviation T := (list Z).
Abbreviation W := (World (gmap nat Stream) (list (StreamId * nat)) (gmap nat (Slot (Frame (B:=T))))
                     (gmap nat (Slot (Event (B:=list Z))))).

Abbreviation history := (history (B:=list Z) (T:=T) (SB:=map_slab (Slot (Frame (B:=T)))) (RB:=map_slab (Slot (Event (B:=list Z))))).
Abbreviation op := (op (B:=list Z) (T:=T) (SB:=map_slab (Slot (Frame (B:=T)))) (RB:=map_slab (Slot (Event (B:=list Z))))).

Definition uri : UriParts := MkUriParts (Some [104]) (Some [97]) None.
Definition request : Request := MkRequest GET uri HTTP_2 hm_new.

(** Small windows: 10 bytes to send, on the connection and on each stream. *)
Definition client_config (local_reset_max : Z) : Config := MkConfig 10 100 (MkStreamId 1) true 30 local_reset_max 10 None.
Definition server_config (local_reset_max : Z) : Config := MkConfig 65535 100 (MkStreamId 2) true 30 local_reset_max 65535 None.

(** The errors of the steps are not looked at. *)
Definition run_op {E A} (c : SE W E A) : SE W () A := with_err (fun _ => tt) c.

(** The value of a computation that is known to return. *)
Definition is_ok {E A} (o : outcome E A) : bool := match o with Ok _ => true | _ => false end.
Definition is_panic {E A} (o : outcome E A) : bool := match o with Panic => true | _ => false end.
Definition the {A} (o : outcome () A) : is_ok o = true -> A :=
  match o with
  | Ok a => fun _ => a
  | Err _ | Panic => fun H => False_rect A (diff_false_true H)
  end.
Lemma the_eq {A} (o : outcome () A) H : o = Ok (the o H).
Proof. by destruct o. Qed.

Lemma is_ok_not_panic {E A} (o : outcome E A) : is_ok o = true -> o <> Panic.
Proof. by intros H ->. Qed.
Lemma panics {A} (o : outcome () A) : is_panic o = true -> o = Panic.
Proof. by destruct o. Qed.
Lemma the_unwrap {A} (o : option A) H : o = Some (the (unwrap o) H).
Proof. by destruct o. Qed.

(** A run from a new connection. *)
Definition run {A} (P : Dyn) (config : Config) (c : SE W () A) : outcome () A :=
  w ← Streams_new P config 0;
  (c w).2.

(** ** A request with a body *)

Definition client0 : W := the (Streams_new Client (client_config 10) 0) eq_refl.
Definition key1 : Key := MkKey 0 (MkStreamId 1).
Definition client1 : W := (send_request request false None client0).1.
Definition client2 : W := (ref_send_data key1 [1; 2; 3; 4; 5] false client1).1.
Definition client3 : W := (pop_frame 16384 client2 : W * outcome () _).1.
Definition client4 : W := (pop_frame 4 client3 : W * outcome () _).1.

Lemma step_op {E A} (c : SE W E A) target granted sent w :
  history target granted sent w -> op c -> is_panic (c w).2 = false -> history target granted sent (c w).1.
Proof. intros Hw Hc Hr. destruct (c w) as [w' r] eqn:E0. eapply history_op; [exact Hw|exact Hc|exact E0|]. by intros ->. Qed.
Lemma step_pop {E} n target granted sent (w : W) k :
  history target granted sent w -> 0 <= n ->
  match (pop_frame n w : W * outcome E _).2 with Ok r => data_len r | _ => -1 end = k -> 0 <= k ->
  history target granted (sent + k) (pop_frame n w : W * outcome E _).1.
Proof.
  intros Hw Hn Hr Hk. destruct (pop_frame n w) as [w' r'] eqn:E0. simpl in Hr. destruct r' as [r|e|]; [|lia..]. subst k.
  eapply history_pop; [exact Hw|exact Hn|exact E0].
Qed.

Lemma client2_history : history DEFAULT_INITIAL_WINDOW_SIZE 10 0 client2.
Proof.
  apply step_op; [apply step_op; [|apply op_send_request|]|apply op_ref_send_data|].
  - apply (history_new (E:=()) Client (client_config 10) 0 client0); [done|apply the_eq].
  - vm_compute. reflexivity.
  - vm_compute. reflexivity.
Qed.
Lemma client3_history : history DEFAULT_INITIAL_WINDOW_SIZE 10 0 client3.
Proof. apply (step_pop (E:=()) 16384 _ _ 0 client2 0); [apply client2_history|done|vm_compute; reflexivity|done]. Qed.
(** Four of the five bytes, in a frame of at most four. *)
Lemma client4_history : history DEFAULT_INITIAL_WINDOW_SIZE 10 4 client4.
Proof. apply (step_pop (E:=()) 4 _ _ 0 client3 4); [apply client3_history|done|vm_compute; reflexivity|done]. Qed.

Lemma data_within_credit_witness :
  0 <= 4 <= 10 /\ credit (p_flow (w_prio client4)) = 6 /\
  exists m, holds (st_slab (w_store client4)) m /\ 0 <= window_i32 (available (p_flow (w_prio client4))) /\
    (forall k s, m !! k = Some s -> 0 <= cap s <= Z.max 0 (send_window s)) /\
    window_i32 (available (p_flow (w_prio client4))) + map_sum cap m <= 6.
Proof. apply (data_within_credit DEFAULT_INITIAL_WINDOW_SIZE 10 4 client4). apply client4_history. Defined.

Definition popped3 := (pop_frame 4 client3 : W * outcome () _).
Lemma popped_data_fits_witness :
  exists r, data_len r = 4 /\ data_len r <= 4 /\ data_len r <= credit (p_flow (w_prio client3)) /\
    credit (p_flow (w_prio popped3.1)) = credit (p_flow (w_prio client3)) - data_len r.
Proof.
  assert (is_ok popped3.2 = true) as Hok by (vm_compute; reflexivity).
  exists (the popped3.2 Hok). split; [vm_compute; reflexivity|].
  apply (popped_data_fits (E:=()) DEFAULT_INITIAL_WINDOW_SIZE 10 0 client3 popped3.1 4); [apply client3_history|done|].
  rewrite <- (the_eq popped3.2 Hok). apply surjective_pairing.
Defined.

Definition data5 : Data T := MkData (MkStreamId 1) [1; 2; 3; 4; 5] (MkDataFlags 0) None.
Definition stream3 : Stream := the (unwrap (index key1 (w_store client3))) eq_refl.
Lemma stream3_eq : index key1 (w_store client3) = Some stream3.
Proof. apply the_unwrap. Qed.

Lemma pop_data_sends_witness :
  cap stream3 = 5 /\
  exists w' d s', pop_data data5 4 key1 client3 = (w', Ok (Some (FData d)) : outcome () _) /\
    remaining (data_data d) = Z.min (Z.min (remaining (data_data data5)) 4) (cap stream3) /\
    credit (p_flow (w_prio w')) = credit (p_flow (w_prio client3)) - remaining (data_data d) /\
    index key1 (w_store w') = Some s' /\ send_window s' = send_window stream3 - remaining (data_data d).
Proof.
  split; [vm_compute; reflexivity|].
  apply (pop_data_sends (E:=()) DEFAULT_INITIAL_WINDOW_SIZE 10 0 client3 key1 stream3 data5 4);
    [apply client3_history|apply stream3_eq|done|vm_compute; reflexivity].
Defined.

Lemma has_streams_iff_witness :
  Counts.has_streams (w_counts client4) = true /\
  exists key s, index key (w_store client4) = Some s /\ s_is_counted s = true.
Proof.
  split; [vm_compute; reflexivity|].
  apply (has_streams_iff DEFAULT_INITIAL_WINDOW_SIZE 10 4 client4); [apply client4_history|vm_compute; reflexivity].
Defined.

(** ** A request with a body, received *)

Definition head1 : Headers := Headers_new (MkStreamId 1) (Pseudo_request GET uri) hm_new.
Definition body1 : Data (list Z) := MkData (MkStreamId 1) [7; 8; 9] (MkDataFlags 0) None.
Definition server0 : W := the (Streams_new Server (server_config 10) 0) eq_refl.
Definition server1 : W := (recv_headers Server head1 server0).1.
Definition server2 : W := (recv_data Server body1 server1).1.

Lemma server2_history : history DEFAULT_INITIAL_WINDOW_SIZE 65535 0 server2.
Proof.
  apply step_op; [apply step_op; [|by apply op_recv_headers|]|apply op_recv_data|].
  - apply (history_new (E:=()) Server (server_config 10) 0 server0); [done|apply the_eq].
  - vm_compute. reflexivity.
  - vm_compute. reflexivity.
Qed.

Lemma receive_window_conserved_witness :
  rv_in_flight_data (w_recv server2) = 3 /\
  window_i32 (available (rv_flow (w_recv server2))) + rv_in_flight_data (w_recv server2) = DEFAULT_INITIAL_WINDOW_SIZE.
Proof.
  split; [vm_compute; reflexivity|].
  destruct (receive_window_conserved DEFAULT_INITIAL_WINDOW_SIZE 65535 0 server2) as (H & _); [apply server2_history|exact H].
Defined.

(** ** Writing *)

Definition codec_ok : outcome () (Codec (B:=list Z) (T:=Prioritized T)) :=
  match Codec_new with Ok cd => Ok cd | _ => Panic end.
Definition peer : Codec (B:=list Z) (T:=Prioritized T) * Socket := (the codec_ok eq_refl, MkSocket [WTake 1000; WTake 1000; WTake 1000] []).
(** ** The end of a body on a window below zero *)

(** Five bytes are sent, then the peer lowers its initial window from 10 to 2. *)
Definition lowered : Settings := Settings.set_initial_window_size (Some 2) Settings.default.
Definition client5 : W := (pop_frame 16384 client3 : W * outcome () _).1.
Definition client6 : W := (apply_remote_settings lowered client5).1.
Definition stream6 : Stream := the (unwrap (index key1 (w_store client6))) eq_refl.
Definition end1 : Data T := MkData (MkStreamId 1) [] (MkDataFlags 1) None.

Lemma empty_data_panics_witness :
  send_window stream6 = -3 /\ (pop_data end1 16384 key1 client6 : W * outcome () _).2 = Panic /\
  (* and so does the loop that takes the frames, once the body is ended *)
  is_panic (pop_frame 16384 (ref_send_data key1 [] true client6).1 : W * outcome () _).2 = true.
Proof.
  split; [vm_compute; reflexivity|]. split; [|vm_compute; reflexivity].
  apply (empty_data_panics (E:=()) DEFAULT_INITIAL_WINDOW_SIZE 10 5 client6 key1 stream6).
  - apply step_op; [|apply op_apply_remote_settings|vm_compute; reflexivity].
    + apply (step_pop (E:=()) 16384 _ _ 0 client3 5); [apply client3_history|done|vm_compute; reflexivity|done].
    + intros val [= <-]. by vm_compute.
  - apply the_unwrap.
  - vm_compute. reflexivity.
  - reflexivity.
  - done.
Defined.

(** ** A reservation that was not granted *)

(** Streams [a] and [c] reserve the ten bytes of the window, of which [c] gets none;
    [b] sends five bytes and [c] is dropped.  [later] goes on from there. *)
Definition dropped_reservation {A} (later : Key -> SE W () A) : SE W () A :=
  a ← run_op (send_request request false None);
  b ← run_op (send_request request false None);
  c ← run_op (send_request request false None);
  _ ← ref_reserve_capacity a 10;
  _ ← ref_reserve_capacity c 10;
  _ ← run_op (ref_send_data b [1; 2; 3; 4; 5] false);
  _ ← drop_stream_ref c;
  later a.
Definition connection_flow : SE W () (Z * Z) :=
  gets (fun w => (credit (p_flow (w_prio w)), window_i32 (available (p_flow (w_prio w))))).

(** A reservation is given back that was never granted.  When a handle is dropped
    whose stream waits for the capacity it reserved, [reclaim_reserved_capacity] adds
    the reservation to the connection's capacity although it never left it: with a
    window of ten bytes, all assigned to one stream, ten more are given out, five of
    them to a stream with data; taking the data of both streams then fails the
    assertion of [FlowControl::send_data]. *)
Example ungranted_reservation_panics :
  run Client (client_config 10) (dropped_reservation (fun _ => connection_flow)) = Ok (10, 5) /\
  run Client (client_config 10) (dropped_reservation (fun a =>
    _ ← run_op (ref_send_data a [1; 2; 3; 4; 5; 6; 7; 8; 9; 10] false);
    _ ← pop_frame 16384; _ ← pop_frame 16384; _ ← pop_frame 16384; _ ← pop_frame 16384;
    pop_frame 16384)) = Panic.
Proof. split; [vm_compute; reflexivity|]. apply panics. vm_compute. reflexivity. Qed.

(** ** A pushed stream that is dropped at once *)

(** A promise outlives its stream.  When the handle of a pushed stream is dropped
    before the PUSH_PROMISE frame is written, and no reset streams are remembered, the
    stream is removed while the promise waits in the queue of its parent; taking the
    promise then unwraps the missing stream and panics. *)
Theorem dropped_push_panics :
  run Server (server_config 0) (
    _ ← run_op (recv_headers Server head1);
    a ← next_incoming;
    a ← lift (unwrap a);
    _ ← ref_take_request a;
    pushed ← run_op (ref_send_push_promise a request);
    _ ← drop_stream_ref pushed;
    pop_frame 16384) = Panic.
Proof. apply panics. vm_compute. reflexivity. Qed.

(** ** A parent that is evicted by its promise *)

Definition promise1 : PushPromise := PushPromise_new (MkStreamId 1) (MkStreamId 2) (Pseudo_request GET uri) hm_new.

(** Dropping a stream evicts it under its own handle.  A client that remembers one
    reset stream resets a stream with a promise it has not looked at: dropping the
    handle cancels the promise, which takes the slot of the parent and removes the
    parent from the store, and the rest of the drop finds a dangling key and panics. *)
Theorem evicted_parent_panics :
  run Client (client_config 1) (
    a ← run_op (send_request request false None);
    _ ← pop_frame 16384;
    _ ← run_op (recv_push_promise promise1);
    _ ← ref_send_reset a CANCEL;
    _ ← pop_frame 16384;
    drop_stream_ref a) = Panic.
Proof. apply panics. vm_compute. reflexivity. Qed.

(** ** The slot of an evicted stream *)

(** The slot of a reset stream is lost.  A client that remembers one reset stream
    resets two streams before their RST_STREAM frames are written; the second evicts
    the first, whose slot is not given back because it is not closed yet.  Once
    everything is written and dropped the store is empty, but the count of reset
    streams stays at its maximum: no reset stream is remembered again. *)
Theorem reset_slot_lost :
  run Client (client_config 1) (
    a ← run_op (send_request request false None);
    b ← run_op (send_request request false None);
    _ ← pop_frame 16384; _ ← pop_frame 16384;
    _ ← ref_send_reset a CANCEL;
    _ ← ref_send_reset b CANCEL;
    _ ← pop_frame 16384; _ ← pop_frame 16384; _ ← pop_frame 16384;
    _ ← drop_stream_ref a;
    _ ← drop_stream_ref b;
    gets (fun w => (num_wired_streams (w_store w), num_reset_streams (w_counts w), max_reset_streams (w_counts w)))) =
  Ok (0, 1, 1).
Proof. vm_compute. reflexivity. Qed.
End Example.

(** * Connections, byte by byte

    Concrete connections over scripts of socket answers: that the hypotheses of the
    theorems on connections hold in them, and what a peer's GOAWAY does to the streams
    and to a graceful shutdown. *)

Import ModelWaker Example.

Module ConnExample.
Abbreviation Conn := (Connection (B:=list Z) (T:=T) (Ss:=gmap nat Stream) (Im:=list (StreamId * nat))
  (Bf:=gmap nat (Slot (Frame (B:=T)))) (Rf:=gmap nat (Slot (Event (B:=list Z)))) (Aw:=option Waker)).

Definition config : ConnConfig := MkConnConfig (MkStreamId 1) 100 30 10 Settings.default.
Definition codec0 : Codec (B:=list Z) (T:=Prioritized T) := the Example.codec_ok eq_refl.
Definition taking : Socket := MkSocket (replicate 40 (WTake 1000)) [].
Definition connect (P : Dyn) (input : list (list Z)) : outcome () Conn :=
  Connection_new P codec0 config 0 (RData <$> input) taking.

(** ** Frames *)
Definition settings_bytes : list Z := [0; 0; 0; 4; 0; 0; 0; 0; 0].
Definition window_update_bytes : list Z := [0; 0; 4; 8; 0; 0; 0; 0; 0; 0; 0; 0; 100].
Definition ping_bytes : list Z := [0; 0; 8; 6; 0; 0; 0; 0; 0; 1; 2; 3; 4; 5; 6; 7; 8].
(** GET / on stream 1; an open stream, since END_STREAM is not set *)
Definition headers_bytes : list Z := [0; 0; 3; 1; 4; 0; 0; 0; 1; 0x82; 0x86; 0x84].
(** The peer has processed the streams up to [id]; no error. *)
Definition go_away_bytes (id : Z) : list Z := [0; 0; 8; 7; 0; 0; 0; 0; 0; 0; 0; 0; id; 0; 0; 0; 0].

Definition poll (P : Dyn) (c : Conn) : Conn * outcome ProtoError (Async ()) := cn_poll P 20 BrokenPipe 7%nat 10 50 c.

Lemma connect_reach P input c : Forall is_bytes input -> len (script_bytes (RData <$> input)) < 2 ^ 64 ->
  connect P input = Ok c -> reach P DEFAULT_INITIAL_WINDOW_SIZE c.
Proof.
  intros Hb Hl. apply reach_new. split; [by vm_compute|].
  assert (reader_ok (cd_read codec0) (RData <$> input)) as Hr.
  { split; [split; [by exists DEFAULT_MAX_FRAME_SIZE|done]|]. split; [by apply is_bytes_nil|]. split; [by apply Forall_fmap|].
    unfold ahead_of. change (len (buf_bytes (r2_buffer (rd_inner (cd_read codec0))))) with 0. lia. }
  split; [done|]. destruct Hr as (_ & _ & _ & Hr). unfold unread. lia.
Qed.
Lemma poll_reach P target (c : Conn) : reach P target c -> is_panic (poll P c).2 = false -> reach P target (poll P c).1.
Proof.
  intros Hc Hp. unfold poll in *. destruct (cn_poll _ _ _ _ _ _ c) as [c' r] eqn:E0. eapply reach_poll; [exact Hc|exact E0|]. by intros ->.
Qed.

(** What a run returns, as an equation. *)
Lemma returned {A R} (x : A * R) r : x.2 = r -> x = (x.1, r).
Proof. destruct x. by intros <-. Qed.

(** ** A client *)
Definition client_input : list (list Z) := [settings_bytes ++ window_update_bytes; ping_bytes].
Definition conn0 : Conn := the (connect Client client_input) eq_refl.
Definition conn1 : Conn := (poll Client conn0).1.

Lemma conn0_reach : reach Client DEFAULT_INITIAL_WINDOW_SIZE conn0.
Proof.
  apply (connect_reach Client client_input); [|done|apply the_eq]. apply (bool_decide_unpack _). vm_compute. exact I.
Qed.
Lemma conn1_reach : reach Client DEFAULT_INITIAL_WINDOW_SIZE conn1.
Proof. apply poll_reach; [apply conn0_reach|vm_compute; reflexivity]. Qed.

(** The WINDOW_UPDATE of the peer has been counted, and the SETTINGS and the PING have
    been answered. *)
Lemma client_connection_flow_witness :
  conn_credit conn1 = 65635 /\
  so_sent (cn_output conn1) = [0; 0; 0; 4; 1; 0; 0; 0; 0; 0; 0; 8; 6; 1; 0; 0; 0; 0; 1; 2; 3; 4; 5; 6; 7; 8] /\
  window_i32 (available (rv_flow (w_recv (cn_streams conn1)))) + rv_in_flight_data (w_recv (cn_streams conn1)) = DEFAULT_INITIAL_WINDOW_SIZE.
Proof.
  split; [vm_compute; reflexivity|]. split; [vm_compute; reflexivity|].
  destruct (client_connection_flow DEFAULT_INITIAL_WINDOW_SIZE conn1) as (_ & H & _); [apply conn1_reach|exact H].
Defined.

Lemma poll2_terminates_witness :
  unread (cd_read (cn_codec conn0)) (cn_input conn0) = 39 /\
  poll2_or Client 20 BrokenPipe 7%nat (mret Pending) 5 conn0 = poll2 Client 20 BrokenPipe 7%nat 5 conn0.
Proof.
  split; [vm_compute; reflexivity|].
  apply (poll2_terminates Client DEFAULT_INITIAL_WINDOW_SIZE conn0 20 BrokenPipe 7%nat 5 (mret Pending)); [apply conn0_reach|vm_compute; reflexivity].
Defined.

Lemma control_assertions_witness : exists c1 : Conn,
  (forall ping, exists c2 r, with_ping_pong (recv_ping ping) c1 = (c2, Ok r : outcome RecvError _) /\
     (is_shutdown r = true -> is_going_away (cn_go_away c2) = true)) /\
  (forall frame, Settings.is_ack frame = false -> exists c2, with_settings (recv_settings frame) c1 = (c2, Ok tt)) /\
  (is_going_away (cn_go_away c1) = false -> pp_pending_ping (cn_ping_pong c1) = None).
Proof.
  assert ((cn_poll_ready 20 BrokenPipe 7%nat conn1).2 = Ok (Ready tt)) as Hr by (vm_compute; reflexivity).
  destruct (cn_poll_ready 20 BrokenPipe 7%nat conn1) as [c1 r] eqn:E0. cbn in Hr. exists c1.
  apply (control_assertions Client DEFAULT_INITIAL_WINDOW_SIZE conn1 c1 20 BrokenPipe 7%nat); [apply conn1_reach|].
  by rewrite E0, Hr.
Defined.

(** The user sends a ping and polls for its pong, while the connection task looks for pings. *)
Lemma ping_programs_refine_witness : exists (c : PingTasks (Aw:=option Waker)) s,
  pt_user_rets c = [(0%nat, SentPing (Ok tt)); (0%nat, PolledPong 5%nat (Ok Pending))] /\
  pt_conn_rets c = [SentPending (Ok (Ready tt))] /\
  ps_sent s = 1 /\ ps_waiting s = Some (5%nat, 0%nat) /\ rtc pstep pings_new s /\ matches c s.
Proof.
  destruct (ping_programs_refine (codec0, taking) (user_next 0 (thread_step (taking_pong 5%nat) (MkUserPingsInner 1 (Some 7%nat) (Some 5%nat), []) ())
    (MkPingTasks (MkUserPingsInner 1 (Some 7%nat) (Some 5%nat), []) (Some (0%nat, taking_pong 5%nat)) None (codec0, taking)
      [(0%nat, SentPing (Ok tt))] [SentPending (Ok (Ready tt))]))) as (s & Hs & Hm).
  - eapply rtc_l; [apply (conn_begins (CallSending 0 7%nat)); reflexivity|]. eapply rtc_l; [apply (user_begins CallSend); reflexivity|].
    eapply rtc_l; [eapply user_goes_on; reflexivity|]. eapply rtc_l; [eapply conn_goes_on; reflexivity|].
    eapply rtc_l; [apply (user_begins (CallPoll 5%nat)); reflexivity|]. eapply rtc_l; [eapply user_goes_on; reflexivity|apply rtc_refl].
  - match type of Hm with matches ?c _ => exists c, s end. split; [reflexivity|]. split; [reflexivity|]. pose proof Hm as [_ M2 _ M4 M5 _ _]. inversion M2 as [E1 E2| |].
    rewrite <- E2 in M4, M5. split; [exact M5|]. split; [exact M4|]. split; [exact Hs|exact Hm].
Defined.

(** The user closes the connection abruptly. *)
Definition conn2 : Conn := (go_away_from_user CANCEL conn0 : Conn * outcome () ()).1.
Lemma conn2_reach : reach Client DEFAULT_INITIAL_WINDOW_SIZE conn2.
Proof.
  unfold conn2. destruct (go_away_from_user CANCEL conn0 : Conn * outcome () ()) as [c' r] eqn:E0.
  eapply (reach_conn Client (go_away_from_user CANCEL)); [apply conn0_reach|apply conn_abrupt|exact E0|].
  intros ->. assert (is_panic (go_away_from_user CANCEL conn0 : Conn * outcome () ()).2 = false) as Hp by (vm_compute; reflexivity).
  by rewrite E0 in Hp.
Qed.

Lemma closing_reads_nothing_witness : exists (c' : Conn) r,
  is_ok (r : outcome RecvError (Async ())) = true /\ negb (bool_decide (gs_pending (cn_go_away conn2) = None)) = true /\
  cn_input c' = cn_input conn2 /\
  match r with
  | Ok (Ready _) => gs_is_user_initiated (cn_go_away conn2) = true /\
      cn_go_away c' = set_pending None (cn_go_away conn2) /\ go_away_buffered 20 (cn_go_away conn2) (cn_x conn2) (cn_x c')
  | Ok Pending => cn_go_away c' = cn_go_away conn2
  | _ => False
  end.
Proof.
  assert (is_ok (poll2 Client 20 BrokenPipe 7%nat 5 conn2).2 = true) as Hr by (vm_compute; reflexivity).
  destruct (poll2 Client 20 BrokenPipe 7%nat 5 conn2) as [c' r] eqn:E0. cbn [snd] in Hr.
  assert (is_ok (clear_expired_reset_streams (cn_streams conn2) : _ * outcome RecvError ()).2 = true) as Hw by (vm_compute; reflexivity).
  destruct (clear_expired_reset_streams (cn_streams conn2) : _ * outcome RecvError ()) as [w rw] eqn:E1. cbn [snd] in Hw.
  destruct rw as [[]|e|]; [|discriminate Hw..].
  destruct (closing_reads_nothing Client DEFAULT_INITIAL_WINDOW_SIZE conn2 c' 20 BrokenPipe 7%nat 4 w r)
    as (_ & Hi & _ & H); [apply conn2_reach|vm_compute; reflexivity|exact E1|exact E0|by intros ->|].
  exists c', r. split; [exact Hr|]. split; [vm_compute; reflexivity|]. split; [exact Hi|]. by destruct r as [[]|e|].
Defined.

(** ** A server whose client goes away *)

(** A request has come, and then the client announces that it has processed the push on
    stream 2. *)
Definition server0 : Conn := the (connect Server [settings_bytes ++ headers_bytes]) eq_refl.
Definition server1 : Conn := (poll Server server0).1.
Definition bye : GoAway := GoAway.new (MkStreamId 2) NO_ERROR.

Lemma graceful_after_goaway_panics_witness : exists c' : Conn,
  Counts.has_streams (w_counts (cn_streams server1)) = true /\
  recv_frame Server (FGoAway bye) server1 = (c', Ok tt) /\ (go_away_gracefully c' : Conn * outcome () ()).2 = Panic.
Proof.
  assert (is_ok (recv_frame Server (FGoAway bye) server1).2 = true) as Hr by (vm_compute; reflexivity).
  destruct (recv_frame Server (FGoAway bye) server1) as [c' r] eqn:E0. cbn [snd] in Hr. destruct r as [[]|e|]; [|discriminate Hr..].
  exists c'. split; [vm_compute; reflexivity|]. split; [reflexivity|].
  apply (graceful_after_goaway_panics Server bye server1 c'); [vm_compute; reflexivity|vm_compute; reflexivity|exact E0].
Defined.

(** What a poll of a server returns, and whether stream 1 is in its store then. *)
Definition serve (input : list (list Z)) : outcome () (Async () * bool) :=
  c ← connect Server input;
  match poll Server c with
  | (c, Ok a) => Ok (a, bool_decide (find_mut (MkStreamId 1) (w_store (cn_streams c)) <> None))
  | _ => Panic
  end.

(** A client that goes away loses the requests it has made.  A client to which nothing
    was pushed sends GOAWAY with the identifier 0, which says nothing about its own
    requests; the server fails every stream with a larger identifier, so the request on
    stream 1, open and unanswered, is dropped and the connection ends.  Without the
    GOAWAY, or when its identifier is at least 1, the request stays. *)
Example goaway_fails_current_streams :
  serve [settings_bytes ++ headers_bytes] = Ok (Pending, true) /\
  serve [settings_bytes ++ headers_bytes; go_away_bytes 2] = Ok (Pending, true) /\
  serve [settings_bytes ++ headers_bytes; go_away_bytes 0] = Ok (Ready tt, false).
Proof. split; [|split]; vm_compute; reflexivity. Qed.
End ConnExample.
